(* ===== verification/_CoqProject ===== *)
-Q . S2P
Prelude.v
Buffer.v
ByteIo.v
Rtcp.v
Wire.v
Reports.v
SourceDesc.v
Feedback.v
Nack.v
Bitrate.v
ExtendedReports.v
SeqNum.v
SeqRing.v
SeqMap.v
OrderedSet.v
NackModule.v
NackSpec.v
NackRefine.v
NackSound.v
FeedbackChunk.v
TransportFeedback.v
FeedbackBuilder.v
FeedbackWire.v
RtcpCompound.v
TimeUtil.v
Float32.v
TmmbrHelp.v
TmmbrBounding.v
RtcpReceiver.v
RtcpReceive.v
RtcpDelivery.v
Packetize.v
BitBuffer.v
BitCodec.v
H264Common.v
H264Params.v
SpsSyntax.v
SpsVui.v
SpsRewrite.v
SpsSafe.v
RtpExtensionMap.v
CowBuffer.v
HeaderExtensions.v
FrameDescriptor.v
RtpPacket.v
RtpSpec.v
RtpBuild.v
RtpExtend.v
RtpRefine.v
RtpParse.v
RtpRemove.v
RtpEdgeCases.v
H264Packetizer.v
H264Packets.v
H264Send.v
H264Depacketizer.v
H264Receive.v
H264Delivery.v
H264Tracker.v
H264Stream.v
PacketBuffer.v
PacketFrames.v
