(* ===== verification/Prelude.v ===== *)
(** * rtc_stack: a verification of the RTP and RTCP core

    rtc_stack is a WebRTC server stack in C++.  Its media core lives under src/src/myrtc: packets of
    the RTCP protocol are classes with [Parse], [BlockLength] and [Create] that a compound packet
    strings together and [Build] turns into datagrams (rtp_rtcp/rtcp_packet.cc and one file per packet
    type); RTP packets are views of a copy-on-write buffer with header extensions (rtp_rtcp/rtp_packet.cc,
    rtp_header_extensions.cc, rtc_base/copy_on_write_buffer.cc); around them are the arithmetic of
    numbers that wrap, the transport feedback builder, the map of sent sequence numbers, the
    module that asks for lost packets and the receiver that dispatches RTCP packets to handlers and
    observers.  This library models these parts and proves them correct.

    ** Conventions

    A C integer of [w] bits is a [Z] in [in_u w] or [in_s w]; conversions are written out ([wrap], [u8]
    to [u64]).  Bytes are integers below 256.  A pointer to read from is the list of bytes up to the
    end of the memory it points into; writing is a computation [ST S A] on a state, [None] when it leaves
    the memory, calls a missing callback or fails an RTC_DCHECK or RTC_CHECK of the source.  So a theorem
    that says [Some] says that the code is memory safe and its checks hold.  A [wstate] is the packet
    buffer, the index and the datagrams handed to the callback so far.  Memory that the program does not
    initialise has arbitrary contents ([g]).  [check] is an RTC_DCHECK in code that only reads.

    ** Files

    - [Prelude]: machine integers, big-endian bytes, bit lemmas, the monads.
    - [Buffer]: writing into a packet buffer, and the relations [stores], [writes], [appends] that say
      which bytes a computation writes; they compose, so every [Create] is proved by its parts.
    - [ByteIo]: rtp_rtcp/byte_io.h, generic loops and unrolled specialisations.
    - [Rtcp]: rtcp_packet/common_header.cc, rtcp_packet.cc, compound_packet.cc.  The virtual functions of
      a packet are the class [RtcpPacketOps], what they promise is [RtcpPacketLaws]; compound packets and
      [Build] are proved against this interface and every packet class discharges it.
    - [Wire]: parsing lists of fixed-size items, the statements [round_trips] and [safe_parser].
    - [Reports], [SourceDesc], [Feedback], [Nack], [Bitrate], [ExtendedReports]: one Module per packet
      class: sender and receiver reports, BYE, APP, SDES, PLI, rapid resync, FIR, NACK, TMMBR, TMMBN,
      REMB, loss notification, extended reports.
    - [FeedbackChunk], [TransportFeedback], [FeedbackBuilder], [FeedbackWire]: transport feedback: the
      status chunk encoder, the class, the builder as a refinement of a list of packet statuses, and
      its wire format.
    - [RtcpCompound]: compound packets of all classes together.
    - [SeqNum], [SeqRing]: module/module_common_types_public.h; rtc_base/mod_ops.h and
      sequence_number_util.h.
    - [SeqMap]: rtp_rtcp/rtp_sequence_number_map.cc.
    - [RtpExtensionMap], [HeaderExtensions]: rtp_header_extension_map.cc, rtp_header_extension_size.cc,
      rtp_header_extensions.cc.  An extension class is a record of operations; [ExtensionLaws] is what
      packets rely on.  [FrameDescriptor]: rtp_generic_frame_descriptor.cc and
      rtp_generic_frame_descriptor_extension.cc, two more instances.
    - [CowBuffer]: rtc_base/buffer.h and copy_on_write_buffer.cc on a heap of shared buffers, refined by
      the abstract [Value].
    - [RtpPacket]: rtp_packet.cc on such a value; [RtpSpec]: the abstract packet and its bytes;
      [RtpBuild], [RtpExtend], [RtpRefine]: building; [RtpParse]: parsing; [RtpRemove]: copying and
      removing extensions; [RtpEdgeCases]: runs in which the code does not do what it means to.
    - [OrderedSet]: std::map and std::set with a comparison of the program, undefined where it is no order;
      [NackModule]: video/nack_module.cc and histogram.cc on them; [NackSpec]: the abstract module over
      integers; [NackRefine]: the refinement; [NackSound]: its consequences.
    - [TimeUtil]: rtp_rtcp/time_util.cc and rtc_base/divide_round.h; [Float32]: single precision numbers on
      the IEEE specification of the standard library; [TmmbrHelp]: tmmbr_help.cc, the bounding set of
      temporary bandwidth limits; [TmmbrBounding]: what the set guarantees.
    - [RtcpReceiver]: rtcp_receiver.cc with report_block_data.cc, rtcp_nack_stats.cc, the parser of
      remote_estimate.cc and SetBitrate of api/video_bitrate_allocation.cc, on the parsers of all packet
      classes; [RtcpReceive]: a logic of total correctness, the invariant of the receiver and that every
      operation keeps it; [RtcpDelivery]: requests and round trip times from the wire to the callbacks.
    - [Packetize]: SplitAboutEqually of rtp_rtcp/rtp_format.cc.
    - [BitBuffer]: rtc_base/bit_buffer.cc; [BitCodec]: readers and writers of bits as a composable logic
      ([reads], [writes]) over the bits of a buffer.
    - [H264Common]: video/h264_common.cc; [H264Params]: pps_parser.cc and sps_parser.cc; [SpsSyntax]: the
      syntax of parameter sets in the H.264 standard and what the parsers make of it; [SpsVui]:
      sps_vui_rewriter.cc; [SpsRewrite]: the rewriter as a function on the syntax; [SpsSafe]: the
      rewriter on arbitrary bytes.
    - [H264Packetizer]: RtpPacketizerH264 of rtp_rtcp/rtp_format_h264.cc on the model of RTP packets;
      [H264Packets]: the packets of a frame as data, and that the constructor produces them; [H264Send]:
      NextPacket fills them in.  [H264Depacketizer]: RtpDepacketizerH264 of the same file; [H264Receive]: its
      result as a function of the NAL units of a payload; [H264Delivery]: frames from the packetiser through RTP
      datagrams to the units put together again.  [H264Tracker]: video/h264_sps_pps_tracker.cc; [H264Stream]: the
      tracker as a set of known parameter sets, and the bit stream of a frame.
    - [PacketBuffer]: video/packet_buffer.cc; [PacketFrames]: what its rings hold as a map from numbers, and
      the delivery of frames.

    ** What the theorems show

    - Round trips: every packet class, modelled header extension and the RTP packet writes bytes that its parser
      restores, in the number of bytes [BlockLength] announces.
    - Safety and termination of parsers: on arbitrary bytes every parser returns, stays inside the
      payload, fails no check, and accepts only objects that satisfy the invariant of the class.
    - Building: compound packets and NACKs are split into datagrams within the limit, if it is enough for each packet alone, that carry
      everything in order; every sequence of building operations on an RTP packet refines an abstract
      packet, the promotion to two-byte extension headers included.
    - State: copy-on-write buffers behave as independent values; extension maps stay one-to-one; the
      transport feedback builder refines a list of statuses; the sequence number map finds what a linear
      search finds.
    - Numbers that wrap: comparisons and unwrapping agree with distances modulo the ring.
    - Lost packets: the NACK module refines a specification over integers while packets stay in a window
      of half the sequence numbers; without a configured delay it asks at once for a gap, only for packets that are missing, and
      at most ten times.
    - The RTCP receiver: on arbitrary datagrams every operation returns and keeps the invariant; a NACK
      of increasing numbers reaches the callbacks complete and in order through datagrams of any size that holds one; the round
      trip time computed from a report is accurate to half a millisecond and a tick.
    - Bounding sets: the search ends, fails no check, selects candidates by rising overhead starting
      with the lowest limit; a computed example shows a limit it misses.
    - H.264: what the bit writer writes the reader reads back; the byte stream scanner that skips bytes
      is equivalent to a search at every position; the parameter set parsers are total and agree
      with the syntax and the picture size of the standard, apart from the crop lines of interlaced pictures; the VUI rewriter changes the restriction (and the signal type when a colour space is given) and nothing else, has room for
      it, and without a colour space is idempotent.
    - Splitting a payload gives the fewest packets, as equal as possible.
    - Sending H.264: the packetiser covers the NAL units of a frame in order within the limits and announces the
      number of packets it then fills; the depacketiser returns on arbitrary bytes with a well-formed
      header; the tracker of parameter sets refines the set of known ones and puts those given out of band in front of the pictures that need them; through all of them and the RTP parser
      a frame arrives unit by unit as it was sent, with parameter sets rewritten, in a bit stream with start codes.
    - Assembling frames: packets of a codec other than H.264 inserted into the packet buffer in any order make it deliver every complete frame
      once, with the last packet that arrives; computed examples show two defects of its H.264 path.

    ** Fuel and bounds

    Loops that are not structural take fuel, and the theorems show that the result is there, so that
    the fuel is enough: [make_room] 2 (the second round has an empty buffer), [Nack.create_loop] twice the
    items, [pack_loop] the number of ids, [unpack_mask] 16, [normalize] 64, the extended report blocks
    and the feedback chunks the size of the payload, the items of an SDES chunk the bytes left plus one,
    [add_lost] the gap, [parse_extensions] the declared capacity, [lower_bound] the length of the
    list.  [NackModule.make_space] has one round more than there are packets in the list,
    [RTCPReceiver.parse_blocks] the length of the datagram, [TMMBRHelp.lowest_per_overhead] the number of
    candidates and [TMMBRHelp.select] twice that and one; [RtpPacketizer.split_loop] has one round
    more than there are payload bytes; the loops on bits ([skip_zeros], [repeat_loop], [copy_cpbs],
    [copy_remaining]) as many as bits are left; [find_loop] the size of the buffer;
    [generate_loop] has a round per NAL unit and [ParseStapAStartOffsets] one per byte;
    [parse_deps] has the size of the extension and [spatial_loop] 8; the loops of [PacketBuffer] have
    the size of its rings, [insert_missing] the 1000 numbers a gap may add and [expand_loop] one round per doubling.
    Frames have fewer than 2^16 units below 2^26 bytes, limits below 2^16 (2^14 where a rewritten set has
    to fit the length field of an aggregate).  Theorems on RTP packets assume buffer capacities that are multiples of 4 and at most
    65535; without it the code writes behind the buffer ([RtpEdgeCases]).  Times in 64-bit integers are
    taken as unbounded.  Clocks, the offset to NTP time and [absl::c_sort] are parameters: theorems on the
    receiver assume a clock that is not before the NTP epoch, a sort that sorts, and that a receiver-only
    module has no observers of sender feedback.

    ** Not modelled

    Threads, locks, sockets and logging; floating point estimators (congestion control,
    remote NTP estimation, the conversions of NTP times to milliseconds); the video colour space
    header extension and the dependency descriptors; FEC; senders and module glue; STUN, erizo, SDP
    and the agent API; vendored libraries.  Candidates for extension are, in this order, the frame
    buffer, the packet history, the generic payload format, the RTCP sender, FEC headers and STUN messages. *)

From stdpp Require Export base list numbers option sets.
From Stdlib Require Export ZArith Lia.
#[global] Open Scope Z_scope.

(** ** Machine integers *)

(** A value of an unsigned C type of [w] bits is a [Z] in [0, 2^w); [wrap w] is the conversion
    to that type. *)
Definition wrap (w v : Z) : Z := v mod 2 ^ w.

Abbreviation u8 := (wrap 8).
Abbreviation u16 := (wrap 16).
Abbreviation u32 := (wrap 32).
Abbreviation u64 := (wrap 64).

(** The range of an unsigned type of [w] bits. *)
Definition in_u (w v : Z) : Prop := 0 <= v < 2 ^ w.

#[global] Instance in_u_dec w v : Decision (in_u w v).
Proof. unfold in_u. apply _. Defined.

(** The range of a two's complement type of [w] bits. *)
Definition in_s (w v : Z) : Prop := - 2 ^ (w - 1) <= v < 2 ^ (w - 1).

#[global] Instance in_s_dec w v : Decision (in_s w v).
Proof. unfold in_s. apply _. Defined.

Lemma wrap_range w v : 0 <= w -> 0 <= wrap w v < 2 ^ w.
Proof. intros. apply Z.mod_pos_bound. lia. Qed.

Lemma wrap_small w v : in_u w v -> wrap w v = v.
Proof. intros H. by apply Z.mod_small. Qed.

Lemma wrap_wrap w v : wrap w (wrap w v) = wrap w v.
Proof. apply Zmod_mod. Qed.

(** Length of a list as an integer of the source. *)
Definition len {A} (l : list A) : Z := Z.of_nat (length l).

Lemma len_nil {A} : len (@nil A) = 0.
Proof. done. Qed.

Lemma len_cons {A} (x : A) l : len (x :: l) = 1 + len l.
Proof. unfold len. cbn [length]. lia. Qed.

Lemma len_app {A} (a b : list A) : len (a ++ b) = len a + len b.
Proof. unfold len. rewrite length_app. lia. Qed.

Lemma len_nonneg {A} (l : list A) : 0 <= len l.
Proof. unfold len. lia. Qed.

Lemma len_fmap {A B} (f : A -> B) l : len (f <$> l) = len l.
Proof. unfold len. by rewrite length_fmap. Qed.

Lemma len_replicate {A} n (x : A) : len (replicate n x) = Z.of_nat n.
Proof. unfold len. by rewrite length_replicate. Qed.

(** The concatenation of the encodings of a list. *)
Lemma mjoin_fmap_cons {A B} (f : A -> list B) x l :
  mjoin (f <$> x :: l) = f x ++ mjoin (f <$> l).
Proof. done. Qed.

Create Rewrite HintDb len.
#[export] Hint Rewrite @len_nil @len_cons @len_app @len_fmap @len_replicate : len.

(** ** Bytes *)

Definition byte_ok (b : Z) : Prop := 0 <= b < 256.

#[global] Instance byte_ok_dec b : Decision (byte_ok b).
Proof. unfold byte_ok. apply _. Defined.

Definition bytes_ok (l : list Z) : Prop := Forall byte_ok l.

#[global] Instance bytes_ok_dec l : Decision (bytes_ok l).
Proof. unfold bytes_ok. apply _. Defined.

(** The abstract big-endian codec: the most significant byte first. *)
Fixpoint be_bytes (n : nat) (v : Z) : list Z :=
  match n with
  | O => []
  | S m => (v / 256 ^ Z.of_nat m) mod 256 :: be_bytes m v
  end.

Fixpoint be_val (l : list Z) : Z :=
  match l with
  | [] => 0
  | b :: t => b * 256 ^ len t + be_val t
  end.

Lemma length_be_bytes n v : length (be_bytes n v) = n.
Proof. induction n; cbn; auto. Qed.

Lemma len_be_bytes n v : len (be_bytes n v) = Z.of_nat n.
Proof. unfold len. by rewrite length_be_bytes. Qed.
#[export] Hint Rewrite len_be_bytes : len.

Lemma be_bytes_ok n v : bytes_ok (be_bytes n v).
Proof.
  induction n as [|n IH]; cbn; constructor; [|done].
  apply Z.mod_pos_bound. lia.
Qed.

Lemma be_bytes_mod n v : be_bytes n (v mod 256 ^ Z.of_nat n) = be_bytes n v.
Proof.
  assert (Hg : forall m, (n <= m)%nat -> be_bytes n (v mod 256 ^ Z.of_nat m) = be_bytes n v).
  { induction n as [|n IH]; intros m Hm; cbn [be_bytes]; [done|].
    rewrite IH by lia. f_equal.
    rewrite (Z.mod_eq v (256 ^ Z.of_nat m)) by lia.
    replace (256 ^ Z.of_nat m) with (256 ^ Z.of_nat n * (256 * 256 ^ (Z.of_nat m - Z.of_nat n - 1))).
    2:{ rewrite <- Z.pow_succ_r, <- Z.pow_add_r by lia. f_equal. lia. }
    set (q := v / _). set (d := 256 ^ (Z.of_nat m - _ - 1)).
    replace (v - 256 ^ Z.of_nat n * (256 * d) * q)
      with (v + (- (256 * d * q)) * 256 ^ Z.of_nat n) by ring.
    rewrite Z.div_add by lia.
    replace (v / 256 ^ Z.of_nat n + - (256 * d * q))
      with (v / 256 ^ Z.of_nat n + (- (d * q)) * 256) by ring.
    apply Z_mod_plus_full. }
  apply Hg. lia.
Qed.

Lemma be_val_bytes n v : be_val (be_bytes n v) = v mod 256 ^ Z.of_nat n.
Proof.
  induction n as [|n IH]; cbn [be_bytes be_val].
  - symmetry. apply Z.mod_1_r.
  - rewrite IH, len_be_bytes, Nat2Z.inj_succ, Z.pow_succ_r by lia.
    assert (0 < 256 ^ Z.of_nat n) by (apply Z.pow_pos_nonneg; lia).
    rewrite (Z.mul_comm 256), Z.rem_mul_r by lia. ring.
Qed.

Lemma be_val_range l : bytes_ok l -> 0 <= be_val l < 256 ^ len l.
Proof.
  induction 1 as [|b l Hb Hl IH]; cbn [be_val].
  { split; [lia|reflexivity]. }
  rewrite len_cons, Z.add_comm, Z.pow_add_r by (pose proof (len_nonneg l); lia).
  rewrite Z.pow_1_r. unfold byte_ok in Hb. nia.
Qed.

Lemma be_bytes_val l n : bytes_ok l -> length l = n -> be_bytes n (be_val l) = l.
Proof.
  intros Hl. revert n. induction Hl as [|b l Hb Hl IH]; intros n <-; cbn [be_bytes be_val length]; [done|].
  pose proof (be_val_range l Hl) as Hr. unfold len in *.
  unfold byte_ok in Hb. f_equal.
  - rewrite Z.div_add_l by lia. rewrite (Z.div_small (be_val l)) by lia.
    rewrite Z.add_0_r. apply Z.mod_small. lia.
  - rewrite <- (be_bytes_mod _ (_ + _)), Z.add_comm, Z_mod_plus_full, be_bytes_mod. by apply IH.
Qed.

(** ** Pointers into a buffer

    A read pointer is the list of the bytes from it to the end of the readable memory;
    dereferencing an empty list is an access outside the buffer. *)
Definition ptr_add (p : list Z) (off : Z) : list Z := drop (Z.to_nat off) p.

Definition deref (p : list Z) : option Z := head p.

Definition byte_at (p : list Z) (off : Z) : option Z := deref (ptr_add p off).

Lemma ptr_add_0 p : ptr_add p 0 = p.
Proof. done. Qed.

Lemma ptr_add_app_ge a b off :
  len a <= off -> ptr_add (a ++ b) off = ptr_add b (off - len a).
Proof.
  intros. unfold ptr_add, len in *. rewrite drop_app_ge by lia. f_equal. lia.
Qed.

Lemma ptr_add_add p a b : 0 <= a -> 0 <= b -> ptr_add (ptr_add p a) b = ptr_add p (a + b).
Proof. intros. unfold ptr_add. rewrite drop_drop. f_equal. lia. Qed.

Lemma len_ptr_add p off : 0 <= off <= len p -> len (ptr_add p off) = len p - off.
Proof. intros. unfold ptr_add, len in *. rewrite length_drop. lia. Qed.

Lemma bytes_ok_ptr_add p off : bytes_ok p -> bytes_ok (ptr_add p off).
Proof. intros. by apply Forall_drop. Qed.

Lemma bytes_ok_app a b : bytes_ok (a ++ b) <-> bytes_ok a /\ bytes_ok b.
Proof. apply Forall_app. Qed.

(** ** Bit operations as arithmetic *)

Lemma land_disjoint a b k :
  0 <= k -> a mod 2 ^ k = 0 -> 0 <= b < 2 ^ k -> Z.land a b = 0.
Proof.
  intros Hk Ha Hb.
  apply Z.bits_inj'. intros i Hi. rewrite Z.land_spec, Z.bits_0.
  destruct (decide (i < k)) as [Hlt|Hge].
  - assert (Z.testbit a i = false) as ->; [|done].
    rewrite (Z.div_mod a (2 ^ k)), Ha, Z.add_0_r by lia.
    rewrite Z.mul_comm. apply Z.mul_pow2_bits_low. lia.
  - assert (Z.testbit b i = false) as ->; [|apply andb_false_r].
    destruct (decide (b = 0)) as [->|]; [apply Z.bits_0|].
    apply Z.bits_above_log2; [lia|].
    enough (Z.log2 b < k) by lia. apply Z.log2_lt_pow2; lia.
Qed.

Lemma lor_add_low a b k :
  0 <= k -> a mod 2 ^ k = 0 -> 0 <= b < 2 ^ k -> Z.lor a b = a + b.
Proof.
  intros. pose proof (Z.add_lor_land a b).
  rewrite (land_disjoint a b k) in * by done. lia.
Qed.

(** Splitting off the top bit of a [k+1]-bit value. *)
Lemma top_bit_split v k :
  0 <= k -> 2 ^ k <= v < 2 ^ (k + 1) -> v = Z.lor (2 ^ k) (v - 2 ^ k).
Proof.
  intros Hk Hv. rewrite Z.pow_add_r in Hv by lia.
  rewrite (lor_add_low _ _ k); [lia|lia|apply Z_mod_same_full|lia].
Qed.

Lemma land_top_bit v k :
  0 <= k -> in_u (k + 1) v -> Z.land v (2 ^ k) = if 2 ^ k <=? v then 2 ^ k else 0.
Proof.
  intros Hk [Hv1 Hv2]. destruct (Z.leb_spec (2 ^ k) v) as [Hle|Hlt].
  - rewrite (top_bit_split v k) by done.
    rewrite Z.land_lor_distr_l, Z.land_diag.
    rewrite (Z.land_comm (v - _)), (land_disjoint _ _ k);
      [apply Z.lor_0_r|lia|apply Z_mod_same_full|rewrite Z.pow_add_r in Hv2 by lia; lia].
  - rewrite Z.land_comm. apply (land_disjoint _ _ k); [lia|apply Z_mod_same_full|lia].
Qed.

Lemma clear_top_bit v k :
  0 <= k -> 2 ^ k <= v < 2 ^ (k + 1) -> Z.land v (Z.lnot (2 ^ k)) = v - 2 ^ k.
Proof.
  intros Hk Hv. pose proof (top_bit_split v k Hk Hv) as Hs. rewrite Hs at 1.
  rewrite <- Z.ldiff_land. rewrite Z.pow_add_r in Hv by lia.
  assert (Hd : Z.land (v - 2 ^ k) (2 ^ k) = 0).
  { rewrite Z.land_comm. apply (land_disjoint _ _ k); [lia|apply Z_mod_same_full|lia]. }
  apply Z.bits_inj'. intros i Hi.
  rewrite Z.ldiff_spec, Z.lor_spec.
  assert (Hb : Z.testbit (Z.land (v - 2 ^ k) (2 ^ k)) i = false) by (rewrite Hd; apply Z.bits_0).
  rewrite Z.land_spec in Hb.
  destruct (Z.testbit (2 ^ k) i), (Z.testbit (v - 2 ^ k) i); done.
Qed.

Lemma lor_shiftl_low a b k :
  0 <= k -> 0 <= b < 2 ^ k -> Z.lor (Z.shiftl a k) b = a * 2 ^ k + b.
Proof.
  intros. rewrite Z.shiftl_mul_pow2 by lia. apply (lor_add_low _ _ k); [lia| |lia].
  apply Z_mod_mult.
Qed.

Lemma land_ones_mod a k : 0 <= k -> Z.land a (2 ^ k - 1) = a mod 2 ^ k.
Proof. intros. rewrite <- Z.land_ones by lia. by rewrite Z.ones_equiv, Z.sub_1_r. Qed.

(** ** The state and option monad of the source's code

    A computation that returns [None] performed an access outside a buffer, called a null
    callback, or failed one of the source's checks. *)
Definition ST (S A : Type) : Type := S -> option (A * S).

#[global] Instance ST_ret S : MRet (ST S) := fun A a s => Some (a, s).
#[global] Instance ST_bind S : MBind (ST S) := fun A B k m s =>
  match m s with
  | Some (a, s') => k a s'
  | None => None
  end.

Definition abort {S A} : ST S A := fun _ => None.

(** [RTC_CHECK] and [RTC_DCHECK]: the process aborts when the condition fails. *)
Definition dcheck {S} (b : bool) : ST S unit := if b then mret tt else abort.

(** The same checks in code that only reads: [None] is an abort. *)
Definition check (b : bool) : option unit := if b then Some tt else None.

(** A check that was passed. *)
Lemma check_Some {A} b (k : option A) y : (check b ;; k) = Some y -> b = true /\ k = Some y.
Proof. destruct b; [done|discriminate]. Qed.

Lemma ST_bind_ret {S A B} (m : ST S A) (k : A -> ST S B) s a s' :
  m s = Some (a, s') -> (m ≫= k) s = k a s'.
Proof. intros H. unfold mbind, ST_bind. by rewrite H. Qed.

(** ** Tactics *)

(** Decides a closed proposition by evaluation. *)
Ltac by_compute := apply (bool_decide_unpack _); vm_compute; exact I.

Ltac len_simpl := autorewrite with len in *.

(** Splits boolean tests of the source into propositions. *)
Ltac bdestr :=
  repeat match goal with
  | |- context [if (?a <? ?b)%Z then _ else _] => destruct (Z.ltb_spec a b)
  | |- context [if (?a <=? ?b)%Z then _ else _] => destruct (Z.leb_spec a b)
  | |- context [if (?a =? ?b)%Z then _ else _] => destruct (Z.eqb_spec a b)
  end.

Ltac bool_prop :=
  repeat match goal with
  | H : (_ <? _)%Z = true |- _ => apply Z.ltb_lt in H
  | H : (_ <? _)%Z = false |- _ => apply Z.ltb_ge in H
  | H : (_ <=? _)%Z = true |- _ => apply Z.leb_le in H
  | H : (_ <=? _)%Z = false |- _ => apply Z.leb_gt in H
  | H : (_ =? _)%Z = true |- _ => apply Z.eqb_eq in H
  | H : (_ =? _)%Z = false |- _ => apply Z.eqb_neq in H
  | H : negb _ = true |- _ => apply negb_true_iff in H
  | H : negb _ = false |- _ => apply negb_false_iff in H
  | H : andb _ _ = true |- _ => apply andb_true_iff in H; destruct H
  | H : orb _ _ = false |- _ => apply orb_false_iff in H; destruct H
  end.

(** Evaluates the constant integer expressions of the goal. *)
Ltac is_Z_const t :=
  lazymatch t with Z0 => idtac | Zpos ?p => is_pos_const p | Zneg ?p => is_pos_const p end
with is_pos_const p :=
  lazymatch p with xH => idtac | xO ?q => is_pos_const q | xI ?q => is_pos_const q end.

Ltac is_nat_const n :=
  lazymatch n with O => idtac | S ?m => is_nat_const m end.

Ltac zconst :=
  repeat match goal with
  | |- context [?a + ?b] =>
      is_Z_const a; is_Z_const b; let c := eval vm_compute in (a + b) in change (a + b) with c
  | |- context [?a - ?b] =>
      is_Z_const a; is_Z_const b; let c := eval vm_compute in (a - b) in change (a - b) with c
  | |- context [?a * ?b] =>
      is_Z_const a; is_Z_const b; let c := eval vm_compute in (a * b) in change (a * b) with c
  | |- context [?a ^ ?b] =>
      is_Z_const a; is_Z_const b; let c := eval vm_compute in (a ^ b) in change (a ^ b) with c
  | |- context [Z.of_nat ?n] =>
      is_nat_const n; let c := eval vm_compute in (Z.of_nat n) in change (Z.of_nat n) with c
  end.
