(* ===== verification/Buffer.v ===== *)
(** * The packet buffer the writers share

    Every [Create] of the RTCP classes receives [uint8_t* packet], [size_t* index] and a
    callback.  [wstate] is that triple: the bytes of the buffer, the write index, and the
    datagrams the callback has been given so far, in order.  A store outside the buffer aborts
    the computation.  The predicates [stores], [writes_at] and [appends] are the small program
    logic the components use: each says which bytes a piece of code puts where. *)

From S2P Require Import Prelude.

Record wstate := WState {
  packet : list Z;
  index : Z;
  ready : list (list Z)
}.

Definition W : Type -> Type := ST wstate.

(** [packet[pos] = v]: the value is converted to [uint8_t]. *)
Definition store (pos v : Z) : W unit := fun s =>
  if (0 <=? pos) && (pos <? len (packet s)) then
    Some (tt, WState (<[Z.to_nat pos := u8 v]> (packet s)) (index s) (ready s))
  else None.

(** [memcpy(&packet[pos], bs, len bs)]. *)
Fixpoint memcpy (pos : Z) (bs : list Z) : W unit :=
  match bs with
  | [] => mret tt
  | b :: t => store pos b ;; memcpy (pos + 1) t
  end.

(** [memset(&packet[pos], v, n)]. *)
Definition memset (pos v n : Z) : W unit := memcpy pos (replicate (Z.to_nat n) v).

(** Code that writes at [&packet[*index + off]]. *)
Definition at_index (off : Z) (f : Z -> W unit) : W unit := fun s => f (index s + off) s.

(** [*index += n]. *)
Definition advance (n : Z) : W unit := fun s =>
  Some (tt, WState (packet s) (index s + n) (ready s)).

(** [packet[( *index)++] = v]. *)
Definition push (v : Z) : W unit := at_index 0 (fun p => store p v) ;; advance 1.

(** The current value of [*index]. *)
Definition get_index : W Z := fun s => Some (index s, s).

(** A range-based [for] over a vector. *)
Fixpoint for_each {A} (l : list A) (body : A -> W unit) : W unit :=
  match l with
  | [] => mret tt
  | x :: t => body x ;; for_each t body
  end.

(** ** Splicing *)

Definition splice (pos : Z) (bs buf : list Z) : list Z :=
  take (Z.to_nat pos) buf ++ bs ++ drop (Z.to_nat (pos + len bs)) buf.

Definition put (pos : Z) (bs : list Z) (s : wstate) : wstate :=
  WState (splice pos bs (packet s)) (index s) (ready s).

Definition append (bs : list Z) (s : wstate) : wstate :=
  WState (splice (index s) bs (packet s)) (index s + len bs) (ready s).

Lemma len_splice pos bs buf :
  0 <= pos -> pos + len bs <= len buf -> len (splice pos bs buf) = len buf.
Proof.
  intros. unfold splice, len in *. rewrite !length_app, length_take, length_drop. lia.
Qed.

Lemma splice_nil pos buf : splice pos [] buf = buf.
Proof.
  unfold splice. rewrite len_nil, Z.add_0_r. apply take_drop.
Qed.

Lemma splice_splice pos a b buf :
  0 <= pos -> pos + len a + len b <= len buf ->
  splice (pos + len a) b (splice pos a buf) = splice pos (a ++ b) buf.
Proof.
  intros. unfold splice, len in *. rewrite length_app.
  rewrite take_app_ge by (rewrite length_take; lia).
  rewrite take_app_le by (rewrite length_take; lia).
  rewrite firstn_all2 with (l := a) by (rewrite length_take; lia).
  rewrite (drop_app_ge (take _ _)), (drop_app_ge a), drop_drop
    by (rewrite length_take; lia).
  rewrite <- !app_assoc. do 4 f_equal. rewrite length_take. lia.
Qed.

Lemma take_splice pos bs buf :
  0 <= pos -> pos + len bs <= len buf ->
  take (Z.to_nat (pos + len bs)) (splice pos bs buf) = take (Z.to_nat pos) buf ++ bs.
Proof.
  intros. unfold splice, len in *. rewrite app_assoc, take_app_le.
  - apply firstn_all2. rewrite length_app, length_take. lia.
  - rewrite length_app, length_take. lia.
Qed.

Lemma splice_all bs buf : len bs = len buf -> splice 0 bs buf = bs.
Proof.
  intros H. unfold splice. cbn [Z.to_nat take]. rewrite drop_ge by (unfold len in *; lia).
  by rewrite app_nil_r.
Qed.

Lemma insert_splice pos v buf :
  0 <= pos < len buf -> <[Z.to_nat pos := v]> buf = splice pos [v] buf.
Proof.
  intros. unfold splice, len in *. rewrite insert_take_drop by lia.
  do 3 f_equal. cbn [length]. lia.
Qed.

(** ** The program logic of the writers *)

Definition stores (m : W unit) (pos : Z) (bs : list Z) : Prop :=
  forall s, 0 <= pos -> pos + len bs <= len (packet s) -> m s = Some (tt, put pos bs s).

Definition writes_at (m : W unit) (off : Z) (bs : list Z) : Prop :=
  forall s, 0 <= index s + off -> index s + off + len bs <= len (packet s) ->
  m s = Some (tt, put (index s + off) bs s).

Definition appends (m : W unit) (bs : list Z) : Prop :=
  forall s, 0 <= index s -> index s + len bs <= len (packet s) ->
  m s = Some (tt, append bs s).

Create HintDb emit.

Lemma stores_ret pos : stores (mret tt) pos [].
Proof. intros s _ _. unfold put. rewrite splice_nil. by destruct s. Qed.

Lemma stores_store pos v : stores (store pos v) pos [u8 v].
Proof.
  intros s H1 H2. unfold store. len_simpl.
  replace (0 <=? pos) with true by (symmetry; apply Z.leb_le; lia).
  replace (pos <? len (packet s)) with true by (symmetry; apply Z.ltb_lt; lia).
  unfold put. cbn. by rewrite insert_splice by lia.
Qed.

Lemma stores_byte pos v : byte_ok v -> stores (store pos v) pos [v].
Proof. intros Hv. pose proof (stores_store pos v) as H. by rewrite (wrap_small 8 v Hv) in H. Qed.

Lemma stores_seq m k pos pos' a b bs :
  stores m pos a -> stores k pos' b -> pos' = pos + len a -> bs = a ++ b ->
  stores (m ;; k) pos bs.
Proof.
  intros Hm Hk -> -> s H1 H2. len_simpl.
  pose proof (len_nonneg a). pose proof (len_nonneg b).
  rewrite (ST_bind_ret _ _ _ _ _ (Hm s H1 ltac:(lia))).
  rewrite Hk by (cbn; rewrite ?len_splice; lia).
  unfold put. cbn. by rewrite splice_splice by lia.
Qed.

Lemma stores_memcpy pos bs : bytes_ok bs -> stores (memcpy pos bs) pos bs.
Proof.
  intros H. revert pos. induction H as [|b t Hb Ht IH]; intros pos; cbn [memcpy].
  - apply stores_ret.
  - eapply stores_seq; [apply stores_store|apply IH|done|].
    rewrite wrap_small by exact Hb. done.
Qed.

Lemma stores_memset pos v n : byte_ok v -> stores (memset pos v n) pos (replicate (Z.to_nat n) v).
Proof. intros. apply stores_memcpy. by apply Forall_replicate. Qed.

Lemma writes_at_index f off bs :
  (forall p, stores (f p) p bs) -> writes_at (at_index off f) off bs.
Proof. intros H s H1 H2. unfold at_index. by apply H. Qed.

Lemma writes_seq m k off off' a b bs :
  writes_at m off a -> writes_at k off' b -> off' = off + len a -> bs = a ++ b ->
  writes_at (m ;; k) off bs.
Proof.
  intros Hm Hk -> -> s H1 H2. len_simpl.
  pose proof (len_nonneg a). pose proof (len_nonneg b).
  rewrite (ST_bind_ret _ _ _ _ _ (Hm s H1 ltac:(lia))).
  rewrite Hk by (cbn; rewrite ?len_splice; lia).
  unfold put. cbn. rewrite (Z.add_assoc (index s)). by rewrite splice_splice by lia.
Qed.

Lemma appends_ret : appends (mret tt) [].
Proof. intros s _ _. unfold append. rewrite splice_nil, len_nil, Z.add_0_r. by destruct s. Qed.

Lemma appends_seq m k a b bs :
  appends m a -> appends k b -> bs = a ++ b -> appends (m ;; k) bs.
Proof.
  intros Hm Hk -> s H1 H2. len_simpl.
  pose proof (len_nonneg a). pose proof (len_nonneg b).
  rewrite (ST_bind_ret _ _ _ _ _ (Hm s H1 ltac:(lia))).
  rewrite Hk by (cbn; rewrite ?len_splice; lia).
  unfold append. cbn. rewrite splice_splice, len_app, Z.add_assoc by lia. done.
Qed.

Lemma appends_writes m n bs :
  writes_at m 0 bs -> n = len bs -> appends (m ;; advance n) bs.
Proof.
  intros Hm -> s H1 H2.
  rewrite (ST_bind_ret _ _ _ _ _ (Hm s ltac:(lia) ltac:(lia))).
  unfold append, advance, put. cbn. by rewrite Z.add_0_r.
Qed.

(** The same, when the advance is followed by more code. *)
Lemma appends_writes_then m n k a b bs :
  writes_at m 0 a -> n = len a -> appends k b -> bs = a ++ b ->
  appends (m ;; advance n ;; k) bs.
Proof.
  intros Hm Hn Hk -> s H1 H2.
  assert (Ha : appends (m ;; advance n) a) by by apply appends_writes.
  pose proof (appends_seq _ _ _ _ _ Ha Hk eq_refl s H1 H2) as Hs.
  rewrite <- Hs. unfold mbind, ST_bind. destruct (m s) as [[[] s']|]; done.
Qed.

Lemma appends_push v : appends (push v) [u8 v].
Proof.
  apply appends_writes; [|done]. apply writes_at_index. intros. apply stores_store.
Qed.

Lemma appends_push_byte v : byte_ok v -> appends (push v) [v].
Proof. intros H. pose proof (appends_push v) as Hp. by rewrite wrap_small in Hp. Qed.

Lemma appends_for_each {A} (l : list A) body enc :
  (forall x, x ∈ l -> appends (body x) (enc x)) ->
  appends (for_each l body) (mjoin (enc <$> l)).
Proof.
  induction l as [|x l IH]; intros H; cbn [for_each].
  - apply appends_ret.
  - eapply appends_seq.
    + apply H. set_solver.
    + apply IH. intros. apply H. set_solver.
    + done.
Qed.

Lemma appends_if (b : bool) m k x y :
  (b = true -> appends m x) -> (b = false -> appends k y) ->
  appends (if b then m else k) (if b then x else y).
Proof. destruct b; auto. Qed.

Lemma appends_dcheck b m bs : b = true -> appends m bs -> appends (dcheck b ;; m) bs.
Proof. intros -> H s H1 H2. unfold mbind, ST_bind. cbn. by apply H. Qed.

Lemma stores_dcheck b m pos bs : b = true -> stores m pos bs -> stores (dcheck b ;; m) pos bs.
Proof. intros -> H s H1 H2. unfold mbind, ST_bind. cbn. by apply H. Qed.

(** The same judgement for code whose index is known when it starts. *)
Definition appends_from (start : Z) (m : W unit) (bs : list Z) : Prop :=
  forall s, index s = start -> 0 <= start -> start + len bs <= len (packet s) ->
  m s = Some (tt, append bs s).

Lemma appends_from_any start m bs : appends m bs -> appends_from start m bs.
Proof. intros H s <- H1 H2. by apply H. Qed.

Lemma appends_from_seq start m k a b bs :
  appends m a -> appends_from (start + len a) k b -> bs = a ++ b ->
  appends_from start (m ;; k) bs.
Proof.
  intros Hm Hk -> s <- H1 H2. len_simpl.
  pose proof (len_nonneg a). pose proof (len_nonneg b).
  rewrite (ST_bind_ret _ _ _ _ _ (Hm s ltac:(lia) ltac:(lia))).
  rewrite Hk by (cbn; rewrite ?len_splice; lia).
  unfold append. cbn. rewrite splice_splice, len_app, Z.add_assoc by lia. done.
Qed.

Lemma appends_from_get start k bs :
  appends_from start (k start) bs -> appends_from start (i ← get_index; k i) bs.
Proof. intros H s <- H1 H2. unfold mbind, ST_bind, get_index. by apply H. Qed.

#[export] Hint Resolve stores_ret stores_store stores_memcpy stores_memset
  writes_at_index appends_ret appends_push : emit.
