(* ===== verification/ByteIo.v ===== *)
(** * Byte order conversion: src/src/myrtc/rtp_rtcp/byte_io.h

    [ByteReader<T, B>] and [ByteWriter<T, B>] as the header writes them: the generic loops, the
    unrolled specialisations for 1, 2, 4 and 8 bytes, and the signed versions with their sign
    extension.  A type [T] is given by its width [w] in bits, [B] is the number of bytes on the
    wire.  The reference they are proved against is [be_bytes]/[be_val] of the prelude. *)

From S2P Require Import Prelude Buffer.

Module ByteReader.

(** The loop of [InternalReadBigEndian]; [n] iterations are left. *)
Fixpoint read_be_loop (w : Z) (B : Z) (n : nat) (i val : Z) (data : list Z) : option Z :=
  match n with
  | O => Some val
  | S n' =>
      b ← byte_at data i;
      read_be_loop w B n' (i + 1) (Z.lor val (wrap w (Z.shiftl b ((B - 1 - i) * 8)))) data
  end.

Definition InternalReadBigEndian (w : Z) (B : nat) (data : list Z) : option Z :=
  read_be_loop w (Z.of_nat B) B 0 0 data.

Fixpoint read_le_loop (w : Z) (n : nat) (i val : Z) (data : list Z) : option Z :=
  match n with
  | O => Some val
  | S n' =>
      b ← byte_at data i;
      read_le_loop w n' (i + 1) (Z.lor val (wrap w (Z.shiftl b (i * 8)))) data
  end.

Definition InternalReadLittleEndian (w : Z) (B : nat) (data : list Z) : option Z :=
  read_le_loop w B 0 0 data.

(** [static_cast<T>(data[index])]. *)
Definition Get (data : list Z) (i : Z) : option Z := byte_at data i.

Definition ReadBigEndian1 (data : list Z) : option Z := byte_at data 0.

Definition ReadBigEndian2 (w : Z) (data : list Z) : option Z :=
  d0 ← byte_at data 0; d1 ← byte_at data 1;
  Some (wrap w (Z.lor (Z.shiftl d0 8) d1)).

Definition ReadBigEndian4 (w : Z) (data : list Z) : option Z :=
  d0 ← Get data 0; d1 ← Get data 1; d2 ← Get data 2; d3 ← Get data 3;
  Some (Z.lor (Z.lor (Z.lor (wrap w (Z.shiftl d0 24)) (wrap w (Z.shiftl d1 16)))
                     (wrap w (Z.shiftl d2 8))) d3).

Definition ReadBigEndian8 (w : Z) (data : list Z) : option Z :=
  d0 ← Get data 0; d1 ← Get data 1; d2 ← Get data 2; d3 ← Get data 3;
  d4 ← Get data 4; d5 ← Get data 5; d6 ← Get data 6; d7 ← Get data 7;
  Some (Z.lor (Z.lor (Z.lor (Z.lor (Z.lor (Z.lor (Z.lor
    (wrap w (Z.shiftl d0 56)) (wrap w (Z.shiftl d1 48))) (wrap w (Z.shiftl d2 40)))
    (wrap w (Z.shiftl d3 32))) (wrap w (Z.shiftl d4 24))) (wrap w (Z.shiftl d5 16)))
    (wrap w (Z.shiftl d6 8))) d7).

Definition ReadLittleEndian2 (w : Z) (data : list Z) : option Z :=
  d0 ← byte_at data 0; d1 ← byte_at data 1;
  Some (wrap w (Z.lor d0 (Z.shiftl d1 8))).

Definition ReadLittleEndian4 (w : Z) (data : list Z) : option Z :=
  d0 ← Get data 0; d1 ← Get data 1; d2 ← Get data 2; d3 ← Get data 3;
  Some (Z.lor (Z.lor (Z.lor d0 (wrap w (Z.shiftl d1 8))) (wrap w (Z.shiftl d2 16)))
              (wrap w (Z.shiftl d3 24))).

Definition ReadLittleEndian8 (w : Z) (data : list Z) : option Z :=
  d0 ← Get data 0; d1 ← Get data 1; d2 ← Get data 2; d3 ← Get data 3;
  d4 ← Get data 4; d5 ← Get data 5; d6 ← Get data 6; d7 ← Get data 7;
  Some (Z.lor (Z.lor (Z.lor (Z.lor (Z.lor (Z.lor (Z.lor
    d0 (wrap w (Z.shiftl d1 8))) (wrap w (Z.shiftl d2 16)))
    (wrap w (Z.shiftl d3 24))) (wrap w (Z.shiftl d4 32))) (wrap w (Z.shiftl d5 40)))
    (wrap w (Z.shiftl d6 48))) (wrap w (Z.shiftl d7 56))).

(** [ByteReader<T, B, false>::ReadBigEndian]: template resolution picks the specialisation. *)
Definition ReadBigEndian (w : Z) (B : nat) (data : list Z) : option Z :=
  match B with
  | 1%nat => ReadBigEndian1 data
  | 2%nat => ReadBigEndian2 w data
  | 4%nat => ReadBigEndian4 w data
  | 8%nat => ReadBigEndian8 w data
  | _ => InternalReadBigEndian w B data
  end.

Definition ReadLittleEndian (w : Z) (B : nat) (data : list Z) : option Z :=
  match B with
  | 1%nat => ReadBigEndian1 data
  | 2%nat => ReadLittleEndian2 w data
  | 4%nat => ReadLittleEndian4 w data
  | 8%nat => ReadLittleEndian8 w data
  | _ => InternalReadLittleEndian w B data
  end.

Definition ReinterpretAsSigned (w unsigned_val : Z) : Z :=
  let kUnsignedHighestBitMask := 2 ^ (w - 1) in
  let kSignedHighestBitMask := - 2 ^ (w - 1) in
  if negb (Z.land unsigned_val kUnsignedHighestBitMask =? 0) then
    Z.lor (Z.land unsigned_val (Z.lnot kUnsignedHighestBitMask)) kSignedHighestBitMask
  else unsigned_val.

Definition SignExtend (w : Z) (B : nat) (val : Z) : Z :=
  let kMsb := u8 (Z.shiftr val ((Z.of_nat B - 1) * 8)) in
  if negb (Z.land kMsb 0x80 =? 0) then
    let kUsedBitsMask := Z.shiftl 1 ((Z.of_nat B mod (w / 8)) * 8) - 1 in
    Z.lor (wrap w (Z.lnot kUsedBitsMask)) val
  else val.

Definition ReadBigEndianSigned (w : Z) (B : nat) (data : list Z) : option Z :=
  unsigned_val ← ReadBigEndian w B data;
  Some (ReinterpretAsSigned w
          (if Z.of_nat B <? w / 8 then SignExtend w B unsigned_val else unsigned_val)).

Definition ReadLittleEndianSigned (w : Z) (B : nat) (data : list Z) : option Z :=
  unsigned_val ← ReadLittleEndian w B data;
  Some (ReinterpretAsSigned w
          (if Z.of_nat B <? w / 8 then SignExtend w B unsigned_val else unsigned_val)).

End ByteReader.

Module ByteWriter.

(** The loops of the generic [WriteBigEndian] and [WriteLittleEndian]. *)
Fixpoint write_be_loop (B : Z) (n : nat) (i pos val : Z) : W unit :=
  match n with
  | O => mret tt
  | S n' => store (pos + i) (Z.shiftr val ((B - 1 - i) * 8)) ;; write_be_loop B n' (i + 1) pos val
  end.

Definition GenericWriteBigEndian (B : nat) (pos val : Z) : W unit :=
  write_be_loop (Z.of_nat B) B 0 pos val.

Fixpoint write_le_loop (n : nat) (i pos val : Z) : W unit :=
  match n with
  | O => mret tt
  | S n' => store (pos + i) (Z.shiftr val (i * 8)) ;; write_le_loop n' (i + 1) pos val
  end.

Definition GenericWriteLittleEndian (B : nat) (pos val : Z) : W unit :=
  write_le_loop B 0 pos val.

Definition WriteBigEndian2 (pos val : Z) : W unit :=
  store pos (Z.shiftr val 8) ;; store (pos + 1) val.

Definition WriteBigEndian4 (pos val : Z) : W unit :=
  store pos (Z.shiftr val 24) ;; store (pos + 1) (Z.shiftr val 16) ;;
  store (pos + 2) (Z.shiftr val 8) ;; store (pos + 3) val.

Definition WriteBigEndian8 (pos val : Z) : W unit :=
  store pos (Z.shiftr val 56) ;; store (pos + 1) (Z.shiftr val 48) ;;
  store (pos + 2) (Z.shiftr val 40) ;; store (pos + 3) (Z.shiftr val 32) ;;
  store (pos + 4) (Z.shiftr val 24) ;; store (pos + 5) (Z.shiftr val 16) ;;
  store (pos + 6) (Z.shiftr val 8) ;; store (pos + 7) val.

Definition WriteLittleEndian2 (pos val : Z) : W unit :=
  store pos val ;; store (pos + 1) (Z.shiftr val 8).

Definition WriteLittleEndian4 (pos val : Z) : W unit :=
  store pos val ;; store (pos + 1) (Z.shiftr val 8) ;;
  store (pos + 2) (Z.shiftr val 16) ;; store (pos + 3) (Z.shiftr val 24).

Definition WriteLittleEndian8 (pos val : Z) : W unit :=
  store pos val ;; store (pos + 1) (Z.shiftr val 8) ;;
  store (pos + 2) (Z.shiftr val 16) ;; store (pos + 3) (Z.shiftr val 24) ;;
  store (pos + 4) (Z.shiftr val 32) ;; store (pos + 5) (Z.shiftr val 40) ;;
  store (pos + 6) (Z.shiftr val 48) ;; store (pos + 7) (Z.shiftr val 56).

(** [ByteWriter<T, B, false>::WriteBigEndian]. *)
Definition WriteBigEndian (B : nat) (pos val : Z) : W unit :=
  match B with
  | 1%nat => store pos val
  | 2%nat => WriteBigEndian2 pos val
  | 4%nat => WriteBigEndian4 pos val
  | 8%nat => WriteBigEndian8 pos val
  | _ => GenericWriteBigEndian B pos val
  end.

Definition WriteLittleEndian (B : nat) (pos val : Z) : W unit :=
  match B with
  | 1%nat => store pos val
  | 2%nat => WriteLittleEndian2 pos val
  | 4%nat => WriteLittleEndian4 pos val
  | 8%nat => WriteLittleEndian8 pos val
  | _ => GenericWriteLittleEndian B pos val
  end.

(** [static_cast<U>(val)] for a signed [val] of [w] bits. *)
Definition ReinterpretAsUnsigned (w val : Z) : Z := wrap w val.

Definition WriteBigEndianSigned (w : Z) (B : nat) (pos val : Z) : W unit :=
  WriteBigEndian B pos (ReinterpretAsUnsigned w val).

Definition WriteLittleEndianSigned (w : Z) (B : nat) (pos val : Z) : W unit :=
  WriteLittleEndian B pos (ReinterpretAsUnsigned w val).

End ByteWriter.

Import ByteReader ByteWriter.

(** ** The little-endian reference *)

Fixpoint le_bytes (n : nat) (v : Z) : list Z :=
  match n with
  | O => []
  | S m => v mod 256 :: le_bytes m (v / 256)
  end.

Fixpoint le_val (l : list Z) : Z :=
  match l with
  | [] => 0
  | b :: t => b + 256 * le_val t
  end.

Lemma le_val_bytes n v : le_val (le_bytes n v) = v mod 256 ^ Z.of_nat n.
Proof.
  revert v. induction n as [|n IH]; intros v; cbn [le_bytes le_val].
  - symmetry. apply Z.mod_1_r.
  - rewrite IH, Nat2Z.inj_succ, Z.pow_succ_r, Z.rem_mul_r by lia. done.
Qed.

Lemma le_val_range l : bytes_ok l -> 0 <= le_val l < 256 ^ len l.
Proof.
  induction 1 as [|b l Hb Hl IH]; cbn [le_val]; [split; [lia|reflexivity]|].
  rewrite len_cons, Z.pow_add_r, Z.pow_1_r by (pose proof (len_nonneg l); lia).
  unfold byte_ok in Hb. lia.
Qed.

(** ** Readers *)

Lemma ptr_add_cons p i b t : 0 <= i -> ptr_add p i = b :: t -> ptr_add p (i + 1) = t.
Proof. intros Hi H. rewrite <- ptr_add_add, H by lia. done. Qed.

Lemma byte_at_cons p i b t : ptr_add p i = b :: t -> byte_at p i = Some b.
Proof. intros H. unfold byte_at. by rewrite H. Qed.

Lemma byte_at_short p i : len p <= i -> byte_at p i = None.
Proof. intros. unfold byte_at, ptr_add, len in *. by rewrite drop_ge by lia. Qed.

Lemma pow256 n : 0 <= n -> 256 ^ n = 2 ^ (n * 8).
Proof. intros. rewrite Z.mul_comm, Z.pow_mul_r by lia. done. Qed.

Lemma shl_byte_wrap w b k :
  byte_ok b -> 0 <= k -> 8 * (k + 1) <= w -> wrap w (Z.shiftl b (k * 8)) = b * 256 ^ k.
Proof.
  intros Hb Hk Hw. assert (0 < 256 ^ k) by (apply Z.pow_pos_nonneg; lia).
  rewrite Z.shiftl_mul_pow2, <- pow256 by lia.
  apply wrap_small. unfold byte_ok, in_u in *. split; [apply Z.mul_nonneg_nonneg; lia|].
  apply Z.lt_le_trans with (256 ^ (k + 1)).
  - rewrite Z.pow_add_r, Z.mul_comm, Z.pow_1_r by lia. apply Z.mul_lt_mono_pos_l; lia.
  - rewrite pow256 by lia. apply Z.pow_le_mono_r; lia.
Qed.

Lemma read_be_loop_spec w B n i val data :
  8 * B <= w -> 0 <= i -> i + Z.of_nat n = B -> val mod 256 ^ Z.of_nat n = 0 ->
  (n <= length (ptr_add data i))%nat -> bytes_ok (take n (ptr_add data i)) ->
  read_be_loop w B n i val data = Some (val + be_val (take n (ptr_add data i))).
Proof.
  intros Hw. revert i val. induction n as [|n IH]; intros i val Hi HB Hval Hlen Hok;
    cbn [read_be_loop].
  { change (take 0 _) with (@nil Z). f_equal. simpl. lia. }
  destruct (ptr_add data i) as [|b t] eqn:E; cbn [length] in Hlen; [lia|].
  cbn [take] in Hok. apply Forall_cons in Hok as [Hb Ht].
  rewrite (byte_at_cons _ _ _ _ E). cbn [mbind option_bind].
  pose proof (ptr_add_cons _ _ _ _ Hi E) as E'.
  rewrite shl_byte_wrap by (done || lia).
  replace (B - 1 - i) with (Z.of_nat n) by lia.
  rewrite Nat2Z.inj_succ, Z.pow_succ_r in Hval by lia.
  assert (0 < 256 ^ Z.of_nat n) by (apply Z.pow_pos_nonneg; lia).
  assert (Hlor : Z.lor val (b * 256 ^ Z.of_nat n) = val + b * 256 ^ Z.of_nat n).
  { apply lor_add_low with (k := (Z.of_nat n + 1) * 8); [lia| |].
    - rewrite <- pow256, Z.pow_add_r, Z.pow_1_r, Z.mul_comm by lia. done.
    - rewrite <- pow256, Z.pow_add_r, Z.pow_1_r by lia. unfold byte_ok in Hb. nia. }
  rewrite Hlor, IH.
  - rewrite E'. cbn [take be_val]. f_equal.
    rewrite Z.add_assoc. do 4 f_equal. unfold len. rewrite length_take. lia.
  - lia.
  - lia.
  - rewrite Z.mod_add by lia.
    apply Z.div_exact in Hval; [|lia]. rewrite Hval.
    rewrite Z.mul_comm, Z.mul_assoc. apply Z_mod_mult.
  - rewrite E'. lia.
  - rewrite E'. done.
Qed.

Lemma read_be_loop_short w B n i val data :
  0 <= i -> (length (ptr_add data i) < n)%nat -> read_be_loop w B n i val data = None.
Proof.
  revert i val. induction n as [|n IH]; intros i val Hi Hlen; [lia|]. cbn [read_be_loop].
  destruct (ptr_add data i) as [|b t] eqn:E.
  - unfold byte_at. by rewrite E.
  - rewrite (byte_at_cons _ _ _ _ E). cbn [mbind option_bind]. apply IH; [lia|].
    rewrite (ptr_add_cons _ _ _ _ Hi E). cbn in Hlen. lia.
Qed.

Lemma InternalReadBigEndian_spec w B data :
  8 * Z.of_nat B <= w -> (B <= length data)%nat -> bytes_ok (take B data) ->
  InternalReadBigEndian w B data = Some (be_val (take B data)).
Proof.
  intros. unfold InternalReadBigEndian.
  rewrite read_be_loop_spec; rewrite ?ptr_add_0; try done; lia.
Qed.

Lemma read_le_loop_spec w n i val data :
  8 * (i + Z.of_nat n) <= w -> 0 <= i -> 0 <= val < 256 ^ i ->
  (n <= length (ptr_add data i))%nat -> bytes_ok (take n (ptr_add data i)) ->
  read_le_loop w n i val data = Some (val + 256 ^ i * le_val (take n (ptr_add data i))).
Proof.
  revert i val. induction n as [|n IH]; intros i val Hw Hi Hval Hlen Hok; cbn [read_le_loop].
  { change (take 0 _) with (@nil Z). f_equal. simpl. lia. }
  destruct (ptr_add data i) as [|b t] eqn:E; cbn [length] in Hlen; [lia|].
  cbn [take] in Hok. apply Forall_cons in Hok as [Hb Ht].
  rewrite (byte_at_cons _ _ _ _ E). cbn [mbind option_bind].
  pose proof (ptr_add_cons _ _ _ _ Hi E) as E'.
  rewrite shl_byte_wrap by (done || lia).
  assert (Hlor : Z.lor val (b * 256 ^ i) = val + b * 256 ^ i).
  { rewrite Z.lor_comm. rewrite (lor_add_low _ _ (i * 8)); [lia|lia| |].
    - rewrite <- pow256 by lia. apply Z_mod_mult.
    - rewrite <- pow256 by lia. done. }
  unfold byte_ok in Hb.
  rewrite Hlor, IH; rewrite ?E'; try done; try lia.
  - cbn [take le_val]. f_equal. rewrite Z.pow_add_r, Z.pow_1_r by lia. ring.
  - rewrite Z.pow_add_r, Z.pow_1_r by lia. nia.
Qed.

Lemma InternalReadLittleEndian_spec w B data :
  8 * Z.of_nat B <= w -> (B <= length data)%nat -> bytes_ok (take B data) ->
  InternalReadLittleEndian w B data = Some (le_val (take B data)).
Proof.
  intros. unfold InternalReadLittleEndian.
  rewrite read_le_loop_spec; rewrite ?ptr_add_0; try done; try lia.
  f_equal. rewrite Z.pow_0_r. lia.
Qed.

Lemma byte_at_ok data i b : bytes_ok data -> byte_at data i = Some b -> byte_ok b.
Proof.
  intros Hd H. unfold byte_at, deref, ptr_add in H.
  destruct (drop (Z.to_nat i) data) as [|x t] eqn:E; cbn in H; [done|injection H as ->].
  pose proof (Forall_drop _ (Z.to_nat i) _ Hd) as Hf. rewrite E in Hf. by inversion Hf.
Qed.

Lemma shl0_byte_wrap w b : byte_ok b -> 8 <= w -> wrap w (Z.shiftl b 0) = b.
Proof.
  intros Hb Hw. rewrite Z.shiftl_0_r. apply wrap_small. unfold byte_ok, in_u in *.
  split; [lia|]. apply Z.lt_le_trans with (2 ^ 8); [lia|]. apply Z.pow_le_mono_r; lia.
Qed.

Lemma wrap_lor2 w a b :
  byte_ok a -> byte_ok b -> 16 <= w ->
  wrap w (Z.lor (Z.shiftl a 8) b) = Z.lor (wrap w (Z.shiftl a 8)) b.
Proof.
  intros Ha Hb Hw. unfold byte_ok in *.
  assert (65536 <= 2 ^ w) by (change 65536 with (2 ^ 16); apply Z.pow_le_mono_r; lia).
  rewrite lor_shiftl_low, Z.shiftl_mul_pow2 by lia.
  rewrite !wrap_small by (unfold in_u; lia).
  symmetry. apply lor_add_low with (k := 8); [lia| |lia]. apply Z_mod_mult.
Qed.

(** Runs both sides over the bytes read so far. *)
Local Ltac read_bytes :=
  repeat match goal with
  | H : bytes_ok ?d |- context [byte_at ?d ?i] =>
      let b := fresh "b" in let E := fresh "E" in
      destruct (byte_at d i) as [b|] eqn:E; cbn [mbind option_bind]; [|done];
      apply (byte_at_ok _ _ _ H) in E
  end.

Lemma read_be_unrolled w B data :
  8 * Z.of_nat B <= w -> bytes_ok data ->
  ReadBigEndian w B data = InternalReadBigEndian w B data.
Proof.
  intros Hw Hd.
  destruct B as [|[|[|[|[|[|[|[|[|B]]]]]]]]]; try done;
    unfold ReadBigEndian, InternalReadBigEndian, ReadBigEndian1, ReadBigEndian2, ReadBigEndian4,
      ReadBigEndian8, Get; cbn [read_be_loop mbind option_bind];
    zconst; read_bytes; rewrite ?Z.lor_0_l, ?wrap_lor2 by (done || lia);
    by rewrite ?shl0_byte_wrap by (done || lia).
Qed.

Lemma read_le_unrolled w B data :
  8 * Z.of_nat B <= w -> bytes_ok data ->
  ReadLittleEndian w B data = InternalReadLittleEndian w B data.
Proof.
  intros Hw Hd.
  destruct B as [|[|[|[|[|[|[|[|[|B]]]]]]]]]; try done;
    unfold ReadLittleEndian, InternalReadLittleEndian, ReadBigEndian1, ReadLittleEndian2,
      ReadLittleEndian4, ReadLittleEndian8, Get; cbn [read_le_loop mbind option_bind];
    zconst; read_bytes;
    rewrite ?Z.lor_0_l, ?shl0_byte_wrap by (done || lia); try done.
  by rewrite (Z.lor_comm b0), wrap_lor2, Z.lor_comm by (done || lia).
Qed.

(** The value read depends on the first [B] bytes only. *)
Lemma byte_at_take data i n : 0 <= i < Z.of_nat n -> byte_at (take n data) i = byte_at data i.
Proof.
  intros. unfold byte_at, deref, ptr_add. rewrite !head_lookup, !lookup_drop.
  apply lookup_take_lt. lia.
Qed.

Lemma ReadBigEndian_take w B data :
  ReadBigEndian w B (take B data) = ReadBigEndian w B data.
Proof.
  assert (Hl : forall n i val, 0 <= i -> i + Z.of_nat n <= Z.of_nat B ->
    read_be_loop w (Z.of_nat B) n i val (take B data) = read_be_loop w (Z.of_nat B) n i val data).
  { induction n as [|n IH]; intros i val Hi Hn; cbn [read_be_loop]; [done|].
    rewrite byte_at_take by lia. destruct (byte_at data i); cbn; [|done]. apply IH; lia. }
  destruct B as [|[|[|[|[|[|[|[|[|B]]]]]]]]]; try (apply Hl; lia);
    cbn [ReadBigEndian]; unfold ReadBigEndian1, ReadBigEndian2, ReadBigEndian4,
      ReadBigEndian8, Get; by rewrite !byte_at_take by lia.
Qed.

Lemma ReadBigEndian_spec w B data :
  8 * Z.of_nat B <= w -> (B <= length data)%nat -> bytes_ok (take B data) ->
  ReadBigEndian w B data = Some (be_val (take B data)).
Proof.
  intros. rewrite <- ReadBigEndian_take, read_be_unrolled by done.
  rewrite InternalReadBigEndian_spec; rewrite ?take_take, ?Nat.min_id; try done.
  rewrite length_take. lia.
Qed.

Lemma ReadBigEndian_bytes w B v rest :
  8 * Z.of_nat B <= w -> in_u (8 * Z.of_nat B) v ->
  ReadBigEndian w B (be_bytes B v ++ rest) = Some v.
Proof.
  intros Hw Hv.
  assert (Ht : take B (be_bytes B v ++ rest) = be_bytes B v).
  { rewrite take_app_le by (rewrite length_be_bytes; lia).
    apply firstn_all2. rewrite length_be_bytes. lia. }
  rewrite ReadBigEndian_spec; rewrite ?Ht; [|done| |apply be_bytes_ok].
  - f_equal. rewrite be_val_bytes. apply Z.mod_small.
    rewrite pow256 by lia. unfold in_u in Hv. rewrite Z.mul_comm. done.
  - rewrite length_app, length_be_bytes. lia.
Qed.

Lemma ReadBigEndian_Some w B data :
  8 * Z.of_nat B <= w -> bytes_ok data -> Z.of_nat B <= len data ->
  exists v, ReadBigEndian w B data = Some v /\ in_u (8 * Z.of_nat B) v.
Proof.
  intros Hw Hd Hl. unfold len in Hl. eexists. split.
  - apply ReadBigEndian_spec; [done|lia|]. by apply Forall_take.
  - unfold in_u. rewrite Z.mul_comm, <- pow256 by lia.
    pose proof (be_val_range (take B data) (Forall_take _ _ _ Hd)) as Hr.
    unfold len in Hr. rewrite length_take in Hr.
    replace (B `min` length data)%nat with B in Hr by lia. done.
Qed.

(** ** Signed readers *)

(** Two's complement: the value of the [w]-bit pattern [v]. *)
Definition to_signed (w v : Z) : Z := if v <? 2 ^ (w - 1) then v else v - 2 ^ w.

Lemma pow2_half w : 1 <= w -> 2 ^ w = 2 * 2 ^ (w - 1).
Proof. intros. rewrite <- Z.pow_succ_r by lia. f_equal. lia. Qed.

Lemma ReinterpretAsSigned_spec w v :
  1 <= w -> in_u w v -> ReinterpretAsSigned w v = to_signed w v.
Proof.
  intros Hw Hv. unfold ReinterpretAsSigned, to_signed.
  rewrite land_top_bit by (try lia; by rewrite Z.sub_add).
  pose proof (pow2_half w Hw). assert (0 < 2 ^ (w - 1)) by (apply Z.pow_pos_nonneg; lia).
  unfold in_u in Hv.
  destruct (Z.leb_spec (2 ^ (w - 1)) v), (Z.ltb_spec v (2 ^ (w - 1))); try lia; [|done].
  replace (2 ^ (w - 1) =? 0) with false by (symmetry; apply Z.eqb_neq; lia). cbn [negb].
  rewrite clear_top_bit by (rewrite ?Z.sub_add; lia).
  rewrite Z.lor_comm, (lor_add_low _ _ (w - 1)); [lia|lia| |lia].
  replace (- 2 ^ (w - 1)) with ((-1) * 2 ^ (w - 1)) by lia. apply Z_mod_mult.
Qed.

Lemma SignExtend_spec w (B : nat) v :
  (1 <= B)%nat -> 8 * Z.of_nat B < w -> w mod 8 = 0 -> in_u (8 * Z.of_nat B) v ->
  SignExtend w B v = wrap w (to_signed (8 * Z.of_nat B) v).
Proof.
  intros HB Hw Hw8 Hv. unfold SignExtend, to_signed. set (b := Z.of_nat B) in *.
  assert (H1 : 1 <= b) by lia. clearbody b.
  assert (Hmod : b mod (w / 8) = b) by (apply Z.mod_small; Z.to_euclidean_division_equations; lia).
  assert (Hlt : 2 ^ (8 * b) < 2 ^ w) by (apply Z.pow_lt_mono_r; lia).
  assert (Hp : 0 < 2 ^ ((b - 1) * 8)) by (apply Z.pow_pos_nonneg; lia).
  assert (Hsplit : 2 ^ (8 * b) = 256 * 2 ^ ((b - 1) * 8))
    by (change 256 with (2 ^ 8); rewrite <- Z.pow_add_r by lia; f_equal; lia).
  assert (Hhalf : 2 ^ (8 * b - 1) = 128 * 2 ^ ((b - 1) * 8))
    by (change 128 with (2 ^ 7); rewrite <- Z.pow_add_r by lia; f_equal; lia).
  unfold in_u in Hv.
  rewrite Z.shiftr_div_pow2, Z.shiftl_1_l by lia.
  set (q := v / 2 ^ ((b - 1) * 8)).
  assert (Hq : in_u (7 + 1) q).
  { unfold in_u, q. split; [apply Z.div_pos; lia|].
    apply Z.div_lt_upper_bound; [lia|]. change (2 ^ (7 + 1)) with 256. lia. }
  rewrite (wrap_small 8 q) by exact Hq.
  change 0x80 with (2 ^ 7). rewrite land_top_bit by (done || lia).
  assert (Hcmp : 2 ^ 7 <= q <-> 2 ^ (8 * b - 1) <= v).
  { unfold q. rewrite Hhalf. change (2 ^ 7) with 128. split; intros.
    - apply Z.le_trans with (2 ^ ((b - 1) * 8) * (v / 2 ^ ((b - 1) * 8))); [nia|].
      by apply Z.mul_div_le.
    - apply Z.div_le_lower_bound; lia. }
  destruct (Z.leb_spec (2 ^ 7) q), (Z.ltb_spec v (2 ^ (8 * b - 1))); try lia; cbn [negb Z.eqb].
  - rewrite Hmod, Z.mul_comm. unfold wrap.
    assert (Hn : Z.lnot (2 ^ (8 * b) - 1) mod 2 ^ w = 2 ^ w - 2 ^ (8 * b)).
    { replace (Z.lnot (2 ^ (8 * b) - 1)) with (- 2 ^ (8 * b)) by (unfold Z.lnot; lia).
      symmetry. apply Z.mod_unique with (-1); lia. }
    rewrite Hn, (lor_add_low _ _ (8 * b)); [|lia| |lia].
    + change (2 ^ 7 =? 0) with false. cbn [negb]. apply Z.mod_unique with (-1); lia.
    + replace (2 ^ w) with (2 ^ (w - 8 * b) * 2 ^ (8 * b))
        by (rewrite <- Z.pow_add_r by lia; f_equal; lia).
      rewrite <- Z.mul_pred_l. apply Z_mod_mult.
  - symmetry. apply wrap_small. unfold in_u. lia.
Qed.

Lemma to_signed_wrap w v : 1 <= w -> in_s w v -> to_signed w (wrap w v) = v.
Proof.
  intros Hw Hv. unfold to_signed, wrap, in_s in *. pose proof (pow2_half w Hw).
  destruct (decide (0 <= v)).
  - rewrite Z.mod_small by lia. destruct (Z.ltb_spec v (2 ^ (w - 1))); lia.
  - rewrite <- (Z.mod_unique v (2 ^ w) (-1) (v + 2 ^ w)) by lia.
    destruct (Z.ltb_spec (v + 2 ^ w) (2 ^ (w - 1))); lia.
Qed.

Lemma wrap_to_signed w v : 1 <= w -> in_u w v -> in_s w (to_signed w v).
Proof.
  intros Hw Hv. unfold to_signed, in_s, in_u in *. pose proof (pow2_half w Hw).
  destruct (Z.ltb_spec v (2 ^ (w - 1))); lia.
Qed.

Lemma in_s_mono a b v : 1 <= a <= b -> in_s a v -> in_s b v.
Proof.
  intros Hab Hv. unfold in_s in *.
  assert (2 ^ (a - 1) <= 2 ^ (b - 1)) by (apply Z.pow_le_mono_r; lia). lia.
Qed.

(** What a signed reader returns, from the unsigned value on the wire. *)
Lemma ReadBigEndianSigned_spec w B data v :
  (1 <= B)%nat -> 8 * Z.of_nat B <= w -> w mod 8 = 0 -> in_u (8 * Z.of_nat B) v ->
  ReadBigEndian w B data = Some v ->
  ReadBigEndianSigned w B data = Some (to_signed (8 * Z.of_nat B) v).
Proof.
  intros HB Hw Hw8 Hv Hr. unfold ReadBigEndianSigned. rewrite Hr. cbn [mbind option_bind].
  f_equal. destruct (Z.ltb_spec (Z.of_nat B) (w / 8)) as [Hlt|Hge].
  - assert (8 * Z.of_nat B < w) by (Z.to_euclidean_division_equations; lia).
    rewrite SignExtend_spec, ReinterpretAsSigned_spec by (done || lia || apply wrap_range; lia).
    apply to_signed_wrap; [lia|].
    apply (in_s_mono (8 * Z.of_nat B)); [lia|]. apply wrap_to_signed; [lia|done].
  - assert (w = 8 * Z.of_nat B) as -> by (Z.to_euclidean_division_equations; lia).
    apply ReinterpretAsSigned_spec; [lia|done].
Qed.

(** ** Writers *)

Lemma u8_shiftr v k : 0 <= k -> u8 (Z.shiftr v (k * 8)) = (v / 256 ^ k) mod 256.
Proof. intros. rewrite Z.shiftr_div_pow2, <- pow256 by lia. done. Qed.

Lemma stores_be_loop B n i pos v :
  0 <= i -> i + Z.of_nat n = B -> stores (write_be_loop B n i pos v) (pos + i) (be_bytes n v).
Proof.
  revert i. induction n as [|n IH]; intros i Hi HB; cbn [write_be_loop be_bytes].
  - apply stores_ret.
  - eapply stores_seq; [apply stores_store|apply IH; lia|len_simpl; lia|].
    replace (B - 1 - i) with (Z.of_nat n) by lia. by rewrite u8_shiftr by lia.
Qed.

Lemma stores_le_loop n i pos v :
  0 <= i -> stores (write_le_loop n i pos v) (pos + i) (le_bytes n (v / 256 ^ i)).
Proof.
  revert i. induction n as [|n IH]; intros i Hi; cbn [write_le_loop le_bytes].
  - apply stores_ret.
  - eapply stores_seq; [apply stores_store|apply IH; lia|len_simpl; lia|].
    rewrite u8_shiftr by lia. cbn [app]. do 2 f_equal.
    rewrite Z.pow_add_r, Z.pow_1_r by lia. rewrite Z.div_div by lia. done.
Qed.

Lemma ST_bind_ret_r {S} (m : ST S unit) s : (m ;; mret tt) s = m s.
Proof. unfold mbind, ST_bind. destruct (m s) as [[[] s']|]; done. Qed.

Lemma ST_bind_ext {S A B} (m : ST S A) (k k' : A -> ST S B) s :
  (forall a s', k a s' = k' a s') -> (m ≫= k) s = (m ≫= k') s.
Proof. intros H. unfold mbind, ST_bind. destruct (m s) as [[a s']|]; auto. Qed.

Lemma write_be_unrolled B pos v s :
  WriteBigEndian B pos v s = GenericWriteBigEndian B pos v s.
Proof.
  destruct B as [|[|[|[|[|[|[|[|[|B]]]]]]]]]; try done;
    unfold GenericWriteBigEndian, WriteBigEndian, WriteBigEndian2, WriteBigEndian4,
      WriteBigEndian8; cbn [write_be_loop]; zconst; rewrite Z.add_0_r, ?Z.shiftr_0_r;
    repeat first [symmetry; apply ST_bind_ret_r | apply ST_bind_ext; intros [] ?].
Qed.

Lemma write_le_unrolled B pos v s :
  WriteLittleEndian B pos v s = GenericWriteLittleEndian B pos v s.
Proof.
  destruct B as [|[|[|[|[|[|[|[|[|B]]]]]]]]]; try done;
    unfold GenericWriteLittleEndian, WriteLittleEndian, WriteLittleEndian2, WriteLittleEndian4,
      WriteLittleEndian8; cbn [write_le_loop]; zconst; rewrite Z.add_0_r, ?Z.shiftr_0_r;
    repeat first [symmetry; apply ST_bind_ret_r | apply ST_bind_ext; intros [] ?].
Qed.

Lemma stores_WriteBigEndian B pos v : stores (WriteBigEndian B pos v) pos (be_bytes B v).
Proof.
  intros s H1 H2. rewrite write_be_unrolled. unfold GenericWriteBigEndian.
  pose proof (stores_be_loop (Z.of_nat B) B 0 pos v ltac:(lia) ltac:(lia)) as Hs.
  rewrite Z.add_0_r in Hs. by apply Hs.
Qed.

Lemma stores_WriteLittleEndian B pos v : stores (WriteLittleEndian B pos v) pos (le_bytes B v).
Proof.
  intros s H1 H2. rewrite write_le_unrolled. unfold GenericWriteLittleEndian.
  pose proof (stores_le_loop B 0 pos v ltac:(lia)) as Hs.
  rewrite Z.pow_0_r, Z.div_1_r, Z.add_0_r in Hs. by apply Hs.
Qed.

Lemma stores_WriteBigEndianSigned w B pos v :
  8 * Z.of_nat B <= w ->
  stores (WriteBigEndianSigned w B pos v) pos (be_bytes B (wrap (8 * Z.of_nat B) v)).
Proof.
  intros Hw. unfold WriteBigEndianSigned, ReinterpretAsUnsigned, wrap.
  replace (be_bytes B (v mod 2 ^ (8 * Z.of_nat B))) with (be_bytes B (v mod 2 ^ w));
    [apply stores_WriteBigEndian|].
  rewrite <- be_bytes_mod, pow256, (Z.mul_comm _ 8) by lia. f_equal.
  replace (2 ^ w) with (2 ^ (8 * Z.of_nat B) * 2 ^ (w - 8 * Z.of_nat B))
    by (rewrite <- Z.pow_add_r by lia; f_equal; lia).
  rewrite Z.rem_mul_r by (apply Z.pow_nonzero || apply Z.pow_pos_nonneg; lia).
  rewrite (Z.mul_comm _ (_ mod _)), Z_mod_plus_full. apply Zmod_mod.
Qed.

(** The two signed fields of the RTCP formats. *)
Lemma stores_WriteInt24 pos v :
  stores (WriteBigEndianSigned 32 3 pos v) pos (be_bytes 3 (wrap 24 v)).
Proof. by apply (stores_WriteBigEndianSigned 32 3). Qed.

Lemma stores_WriteInt16 pos v :
  stores (WriteBigEndianSigned 16 2 pos v) pos (be_bytes 2 (wrap 16 v)).
Proof. by apply (stores_WriteBigEndianSigned 16 2). Qed.

#[export] Hint Resolve stores_WriteBigEndian stores_WriteLittleEndian stores_WriteInt24
  stores_WriteInt16 : emit.

Lemma ptr_add_splice pos bs buf :
  0 <= pos -> pos <= len buf ->
  ptr_add (splice pos bs buf) pos = bs ++ drop (Z.to_nat (pos + len bs)) buf.
Proof.
  intros. unfold ptr_add, splice, len in *.
  rewrite drop_app_ge by (rewrite length_take; lia).
  rewrite length_take. replace (_ - _)%nat with 0%nat by lia. done.
Qed.

Lemma ReadBigEndianSigned_bytes w B v rest :
  (1 <= B)%nat -> 8 * Z.of_nat B <= w -> w mod 8 = 0 -> in_s (8 * Z.of_nat B) v ->
  ReadBigEndianSigned w B (be_bytes B (wrap (8 * Z.of_nat B) v) ++ rest) = Some v.
Proof.
  intros HB Hw Hw8 Hv.
  assert (Hu : in_u (8 * Z.of_nat B) (wrap (8 * Z.of_nat B) v)) by (apply wrap_range; lia).
  rewrite (ReadBigEndianSigned_spec _ _ _ (wrap (8 * Z.of_nat B) v));
    try done; [|by apply ReadBigEndian_bytes].
  f_equal. apply to_signed_wrap; [lia|done].
Qed.

Lemma ReadInt24_bytes v rest :
  in_s 24 v -> ReadBigEndianSigned 32 3 (be_bytes 3 (wrap 24 v) ++ rest) = Some v.
Proof. intros. by apply (ReadBigEndianSigned_bytes 32 3); [lia|..]. Qed.

Lemma ReadInt16_bytes v rest :
  in_s 16 v -> ReadBigEndianSigned 16 2 (be_bytes 2 (wrap 16 v) ++ rest) = Some v.
Proof. intros. by apply (ReadBigEndianSigned_bytes 16 2); [lia|..]. Qed.

Lemma ReadBigEndianSigned_Some w B data :
  (1 <= B)%nat -> 8 * Z.of_nat B <= w -> w mod 8 = 0 ->
  bytes_ok data -> Z.of_nat B <= len data ->
  exists v, ReadBigEndianSigned w B data = Some v /\ in_s (8 * Z.of_nat B) v.
Proof.
  intros HB Hw Hw8 Hd Hl. destruct (ReadBigEndian_Some w B data) as (v & Hv & Hr); [done..|].
  eexists. split; [by apply ReadBigEndianSigned_spec|]. apply wrap_to_signed; [lia|done].
Qed.

Lemma length_le_bytes n v : length (le_bytes n v) = n.
Proof. revert v. induction n; intros v; cbn; auto. Qed.

Lemma len_le_bytes n v : len (le_bytes n v) = Z.of_nat n.
Proof. unfold len. by rewrite length_le_bytes. Qed.
#[export] Hint Rewrite len_le_bytes : len.

Lemma le_bytes_ok n v : bytes_ok (le_bytes n v).
Proof.
  revert v. induction n as [|n IH]; intros v; constructor; [|apply IH].
  apply Z.mod_pos_bound. lia.
Qed.

Lemma InternalReadLittleEndian_bytes w B v rest :
  8 * Z.of_nat B <= w -> in_u (8 * Z.of_nat B) v ->
  InternalReadLittleEndian w B (le_bytes B v ++ rest) = Some v.
Proof.
  intros Hw Hv.
  assert (Ht : take B (le_bytes B v ++ rest) = le_bytes B v).
  { rewrite take_app_le by (rewrite length_le_bytes; lia).
    apply firstn_all2. rewrite length_le_bytes. lia. }
  rewrite InternalReadLittleEndian_spec; rewrite ?Ht; [|done| |apply le_bytes_ok].
  - f_equal. rewrite le_val_bytes. apply Z.mod_small. rewrite pow256, Z.mul_comm by lia. done.
  - rewrite length_app, length_le_bytes. lia.
Qed.

(** ** Properties *)

(** The specialisations of [ByteReader]/[ByteWriter] unrolled for 1, 2, 4 and 8 bytes compute
    what the generic loops compute, in both byte orders, on every buffer, including one that is
    too short (both then read or write outside it). *)
Lemma byte_io_unrolled_equiv w B data pos v s :
  8 * Z.of_nat B <= w -> bytes_ok data ->
  ReadBigEndian w B data = InternalReadBigEndian w B data /\
  ReadLittleEndian w B data = InternalReadLittleEndian w B data /\
  WriteBigEndian B pos v s = GenericWriteBigEndian B pos v s /\
  WriteLittleEndian B pos v s = GenericWriteLittleEndian B pos v s.
Proof.
  intros. repeat split.
  - by apply read_be_unrolled.
  - by apply read_le_unrolled.
  - apply write_be_unrolled.
  - apply write_le_unrolled.
Qed.

(** A signed value that fits in [B] bytes survives [ByteWriter<T, B>] followed by
    [ByteReader<T, B>] for the signed type [T]: the sign extension of the reader restores the
    bytes the writer drops (the 24-bit fields of report blocks and transport feedback). *)
Lemma byte_io_signed w B pos v s :
  (1 <= B)%nat -> 8 * Z.of_nat B <= w -> w mod 8 = 0 -> in_s (8 * Z.of_nat B) v ->
  0 <= pos -> pos + Z.of_nat B <= len (packet s) ->
  exists s', WriteBigEndianSigned w B pos v s = Some (tt, s') /\
    ReadBigEndianSigned w B (ptr_add (packet s') pos) = Some v.
Proof.
  intros. eexists. split; [apply stores_WriteBigEndianSigned; len_simpl; lia|].
  cbn. rewrite ptr_add_splice by lia. by apply ReadBigEndianSigned_bytes.
Qed.

(** Writing an unsigned value with [ByteWriter] and reading the same bytes with
    [ByteReader] gives the value back, in both byte orders and for every number of bytes, and the
    write changes no byte outside the [B] bytes at the given position; a signed value that fits in
    [B] bytes is restored by the sign extension of the reader. *)
Lemma byte_io_roundtrip w B pos v s :
  8 * Z.of_nat B <= w -> in_u (8 * Z.of_nat B) v ->
  0 <= pos -> pos + Z.of_nat B <= len (packet s) ->
  (exists s', WriteBigEndian B pos v s = Some (tt, s') /\
    ReadBigEndian w B (ptr_add (packet s') pos) = Some v /\
    take (Z.to_nat pos) (packet s') = take (Z.to_nat pos) (packet s) /\
    ptr_add (packet s') (pos + Z.of_nat B) = ptr_add (packet s) (pos + Z.of_nat B)) /\
  (exists s', WriteLittleEndian B pos v s = Some (tt, s') /\
    InternalReadLittleEndian w B (ptr_add (packet s') pos) = Some v) /\
  (forall x, (1 <= B)%nat -> w mod 8 = 0 -> in_s (8 * Z.of_nat B) x ->
    exists s', WriteBigEndianSigned w B pos x s = Some (tt, s') /\
      ReadBigEndianSigned w B (ptr_add (packet s') pos) = Some x).
Proof.
  intros Hw Hv Hp Hl. split; [|split].
  - eexists. split; [|split; [|split]].
    + apply stores_WriteBigEndian; len_simpl; lia.
    + cbn. rewrite ptr_add_splice by lia. by apply ReadBigEndian_bytes.
    + cbn. unfold splice. rewrite take_app_le by (rewrite length_take; unfold len in *; lia).
      rewrite take_take. f_equal. lia.
    + cbn. rewrite <- ptr_add_add, ptr_add_splice by lia.
      unfold ptr_add. rewrite drop_app_ge by (rewrite length_be_bytes; lia).
      rewrite length_be_bytes, len_be_bytes, Nat2Z.id, Nat.sub_diag. done.
  - eexists. split; [apply stores_WriteLittleEndian; len_simpl; lia|].
    cbn. rewrite ptr_add_splice by lia. by apply InternalReadLittleEndian_bytes.
  - intros x H1 H8 Hx. by apply byte_io_signed.
Qed.

