(* ===== verification/Rtcp.v ===== *)
(** * The RTCP packet framework

    - [CommonHeader]: src/src/myrtc/rtp_rtcp/common_header.{h,cc}, the parser of the four-byte
      header every RTCP packet starts with;
    - [RtcpPacket]: src/src/myrtc/rtp_rtcp/rtcp_packet.{h,cc}, the abstract base class of the
      packet writers.  Its two virtual functions are the class [RtcpPacketOps]; what every
      implementation promises to [Build] and to compound packets is the class [RtcpPacketLaws];
    - [CompoundPacket]: src/src/myrtc/rtp_rtcp/compound_packet.cc, proved against that interface
      and shown to satisfy it. *)

From S2P Require Import Prelude Buffer ByteIo.

Module CommonHeader.

Definition kHeaderSizeBytes : Z := 4.

Record t := Header {
  packet_type : Z;
  count_or_format : Z;
  padding_size : Z;
  payload_size : Z;
  payload : list Z
}.

(** The default constructor; [payload_] is [nullptr]. *)
Definition init : t := Header 0 0 0 0 [].

Definition type (h : t) : Z := packet_type h.
Definition fmt (h : t) : Z := count_or_format h.
Definition count (h : t) : Z := count_or_format h.
Definition payload_size_bytes (h : t) : Z := payload_size h.

Definition packet_size (h : t) : Z := kHeaderSizeBytes + payload_size h + padding_size h.

Definition NextPacket (h : t) : list Z := ptr_add (payload h) (payload_size h + padding_size h).

(** [CommonHeader::Parse]: the result, and the object afterwards (a failed parse leaves the
    fields it had already assigned). *)
Definition Parse (this : t) (buffer : list Z) (size_bytes : Z) : option (bool * t) :=
  let kVersion := 2 in
  if size_bytes <? kHeaderSizeBytes then Some (false, this) else
  b0 ← byte_at buffer 0;
  let version := Z.shiftr b0 6 in
  if negb (version =? kVersion) then Some (false, this) else
  let has_padding := negb (Z.land b0 0x20 =? 0) in
  b1 ← byte_at buffer 1;
  words ← ByteReader.ReadBigEndian 16 2 (ptr_add buffer 2);
  let h := Header b1 (Z.land b0 0x1F) 0 (words * 4) (ptr_add buffer kHeaderSizeBytes) in
  if size_bytes <? kHeaderSizeBytes + payload_size h then Some (false, h) else
  if has_padding then
    if payload_size h =? 0 then Some (false, h) else
    p ← byte_at (payload h) (payload_size h - 1);
    let h' := Header b1 (count_or_format h) p (payload_size h) (payload h) in
    if p =? 0 then Some (false, h') else
    if payload_size h <? p then Some (false, h') else
    Some (true, Header b1 (count_or_format h) p (u32 (payload_size h - p)) (payload h))
  else Some (true, h).

End CommonHeader.

Module RtcpPacket.

Definition kHeaderLength : Z := 4.
Definition IP_PACKET_SIZE : Z := 1500.

(** [RtcpPacket::OnBufferFull]; [callback] says whether the callback is non-null. *)
Definition OnBufferFull (callback : bool) : W bool := fun s =>
  if index s =? 0 then Some (false, s) else
  if callback && (index s <=? len (packet s)) then
    Some (true, WState (packet s) 0 (ready s ++ [take (Z.to_nat (index s)) (packet s)]))
  else None.

(** [while ( *index + BlockLength() > max_length) if (!OnBufferFull(...)) return false;], the loop
    every [Create] starts with.  The result says whether the body of [Create] is reached. *)
Fixpoint make_room (fuel : nat) (block_length max_length : Z) (callback : bool) : W bool := fun s =>
  if max_length <? index s + block_length then
    match fuel with
    | O => None
    | S fuel' =>
        match OnBufferFull callback s with
        | Some (true, s') => make_room fuel' block_length max_length callback s'
        | r => r
        end
    end
  else Some (true, s).

(** [RtcpPacket::HeaderLength]: the length field for a packet of [length_in_bytes] bytes. *)
Definition HeaderLength (length_in_bytes : Z) : W Z :=
  dcheck (0 <? length_in_bytes) ;;
  dcheck (length_in_bytes mod 4 =? 0) ;;
  mret ((length_in_bytes - kHeaderLength) / 4).

(** [RtcpPacket::CreateHeader]. *)
Definition CreateHeader (count_or_format packet_type length : Z) (padding : bool) : W unit :=
  dcheck (length <=? 0xffff) ;;
  dcheck (count_or_format <=? 0x1f) ;;
  let kVersionBits := Z.shiftl 2 6 in
  let padding_bit := if padding then Z.shiftl 1 5 else 0 in
  (at_index 0 (fun p => store p (Z.lor (Z.lor kVersionBits padding_bit) (u8 count_or_format))) ;;
   at_index 1 (fun p => store p packet_type) ;;
   at_index 2 (fun p => store p (Z.land (Z.shiftr length 8) 0xff)) ;;
   at_index 3 (fun p => store p (Z.land length 0xff))) ;;
  advance kHeaderLength.

(** [size_t index_end = *index + BlockLength(); ... RTC_DCHECK_EQ(index_end, *index)]. *)
Definition with_index_end (block_length : Z) (body : Z -> W unit) : W unit :=
  start ← get_index;
  body (start + block_length) ;;
  fin ← get_index;
  dcheck (fin =? start + block_length).

End RtcpPacket.

(** The virtual functions of [RtcpPacket]. *)
Class RtcpPacketOps (T : Type) := {
  BlockLength : T -> Z;
  Create : T -> Z -> bool -> W bool
}.

Module Build.
Import RtcpPacket.

(** [rtc::Buffer RtcpPacket::Build() const]; [mem] is the uninitialised buffer. *)
Definition Build `{RtcpPacketOps T} (x : T) (mem : list Z) : option (list Z) :=
  match Create x (len mem) false (WState mem 0 []) with
  | Some (created, s) =>
      check created ;; check (index s =? len mem) ;; Some (packet s)
  | None => None
  end.

(** [bool RtcpPacket::Build(size_t max_length, PacketReadyCallback callback) const]; [mem] is the
    array [uint8_t buffer[IP_PACKET_SIZE]] on the stack.  Returns the datagrams delivered. *)
Definition BuildTo `{RtcpPacketOps T} (x : T) (max_length : Z) (mem : list Z)
    : option (bool * list (list Z)) :=
  check (max_length <=? IP_PACKET_SIZE) ;;
  match Create x max_length true (WState mem 0 []) with
  | Some (false, s) => Some (false, ready s)
  | Some (true, s) =>
      match OnBufferFull true s with
      | Some (r, s') => Some (r, ready s')
      | None => None
      end
  | None => None
  end.

End Build.

(** A [RtcpPacket*]: an object with its virtual functions. *)
Record AnyPacket := Any {
  any_type : Type;
  any_ops :: RtcpPacketOps any_type;
  any_val : any_type
}.
Arguments Any {_ _} _.

Module CompoundPacket.

Record t := Compound { appended_packets : list AnyPacket }.

Definition Append (this : t) (p : AnyPacket) : t := Compound (appended_packets this ++ [p]).

Fixpoint create_all (l : list AnyPacket) (max_length : Z) (callback : bool) : W bool :=
  match l with
  | [] => mret true
  | p :: rest =>
      ok ← Create (any_val p) max_length callback;
      if ok : bool then create_all rest max_length callback else mret false
  end.

Definition Create (this : t) (max_length : Z) (callback : bool) : W bool :=
  create_all (appended_packets this) max_length callback.

Definition BlockLength (this : t) : Z :=
  fold_left (fun block_length p => block_length + BlockLength (any_val p))
            (appended_packets this) 0.

#[global] Instance ops : RtcpPacketOps t := Build_RtcpPacketOps t BlockLength Create.

End CompoundPacket.

(** ** The wire format of the common header *)

Definition header_wire (count_or_format packet_type words : Z) (padding : bool) : list Z :=
  [128 + (if padding then 32 else 0) + count_or_format; packet_type; words / 256; words mod 256].

Lemma len_header_wire cf pt words pad : len (header_wire cf pt words pad) = 4.
Proof. done. Qed.
#[export] Hint Rewrite len_header_wire : len.

Lemma header_wire_ok cf pt words pad :
  0 <= cf < 32 -> byte_ok pt -> in_u 16 words -> bytes_ok (header_wire cf pt words pad).
Proof.
  intros Hcf Hpt Hw. unfold in_u in Hw. cbn in Hw.
  repeat constructor; unfold byte_ok in *; try lia.
  1, 2: destruct pad; lia.
  1, 2: Z.to_euclidean_division_equations; lia.
  1, 2: Z.to_euclidean_division_equations; lia.
Qed.

Module HeaderFacts.
Import CommonHeader.

(** The first byte, as the parser takes it apart. *)
Lemma first_byte_fields cf (pad : bool) :
  0 <= cf < 32 ->
  let b0 := 128 + (if pad then 32 else 0) + cf in
  Z.shiftr b0 6 = 2 /\ Z.land b0 0x1F = cf /\ (Z.land b0 0x20 =? 0) = negb pad.
Proof.
  intros Hcf b0. repeat split.
  - unfold b0. rewrite Z.shiftr_div_pow2 by lia. change (2 ^ 6) with 64.
    destruct pad; Z.to_euclidean_division_equations; lia.
  - change 0x1F with (2 ^ 5 - 1). rewrite land_ones_mod by lia. change (2 ^ 5) with 32.
    unfold b0. destruct pad; Z.to_euclidean_division_equations; lia.
  - assert (Hsplit : b0 = Z.lor 128 ((if pad then 32 else 0) + cf)).
    { rewrite (lor_add_low _ _ 7); [unfold b0; lia|lia|done|destruct pad; lia]. }
    rewrite Hsplit, Z.land_lor_distr_l. change (Z.land 128 0x20) with 0. rewrite Z.lor_0_l.
    change 0x20 with (2 ^ 5). rewrite land_top_bit by (unfold in_u; destruct pad; lia).
    destruct pad; bdestr; try lia; done.
Qed.

(** What [Parse] does on a well-formed header followed by [body]. *)
Lemma HeaderFacts_Parse_wire this cf pt words (pad : bool) body size :
  0 <= cf < 32 -> byte_ok pt -> in_u 16 words -> 4 + words * 4 <= size ->
  Parse this (header_wire cf pt words pad ++ body) size =
    if pad then
      if words * 4 =? 0 then Some (false, Header pt cf 0 (words * 4) body) else
      p ← byte_at body (words * 4 - 1);
      if p =? 0 then Some (false, Header pt cf p (words * 4) body) else
      if words * 4 <? p then Some (false, Header pt cf p (words * 4) body) else
      Some (true, Header pt cf p (u32 (words * 4 - p)) body)
    else Some (true, Header pt cf 0 (words * 4) body).
Proof.
  intros Hcf Hpt Hw Hs. unfold Parse, kHeaderSizeBytes.
  pose proof (first_byte_fields cf pad Hcf) as (H1 & H2 & H3).
  unfold in_u in Hw. change (2 ^ 16) with 65536 in Hw.
  replace (size <? 4) with false by (symmetry; apply Z.ltb_ge; lia).
  unfold header_wire. cbn [app].
  change (byte_at (?a :: _) 0) with (Some a). cbn [mbind option_bind].
  rewrite H1. cbn [negb Z.eqb]. rewrite H2, H3, negb_involutive.
  change (byte_at (_ :: ?a :: _) 1) with (Some a). cbn [mbind option_bind].
  change (ptr_add (_ :: _ :: ?l) 2) with l.
  change (ptr_add (_ :: _ :: _ :: _ :: ?l) 4) with l.
  replace (words / 256 :: words mod 256 :: body) with (be_bytes 2 words ++ body).
  2:{ cbn [be_bytes app]. change (256 ^ Z.of_nat 1) with 256. change (256 ^ Z.of_nat 0) with 1.
      rewrite Z.div_1_r. f_equal. apply Z.mod_small. Z.to_euclidean_division_equations; lia. }
  rewrite ReadBigEndian_bytes by (done || unfold in_u; cbn; lia). cbn [mbind option_bind].
  cbn [payload_size count_or_format payload].
  replace (size <? 4 + words * 4) with false by (symmetry; apply Z.ltb_ge; lia).
  done.
Qed.

(** [Parse] reads inside the buffer only, and what it accepts lies inside the buffer. *)
Lemma HeaderFacts_Parse_safe this buffer size :
  bytes_ok buffer -> size <= len buffer ->
  exists r h, Parse this buffer size = Some (r, h) /\
    (r = true ->
      packet_size h <= size /\ 4 <= packet_size h /\ packet_size h mod 4 = 0 /\
      0 <= count_or_format h < 32 /\ byte_ok (packet_type h) /\
      0 <= payload_size h /\ 0 <= padding_size h < 256 /\
      payload h = ptr_add buffer 4 /\ NextPacket h = ptr_add buffer (packet_size h) /\
      packet_size h <= 4 * 0x10000).
Proof.
  intros Hb Hs. unfold Parse, kHeaderSizeBytes.
  destruct (Z.ltb_spec size 4); [by eexists _, _|].
  destruct buffer as [|b0 [|b1 [|b2 [|b3 body]]]]; try (unfold len in Hs; cbn [length] in Hs; lia).
  change (byte_at (?a :: _) 0) with (Some a). cbn [mbind option_bind].
  destruct (negb _); [by eexists _, _|].
  change (byte_at (_ :: ?a :: _) 1) with (Some a). cbn [mbind option_bind].
  change (ptr_add (_ :: _ :: ?l) 2) with l.
  change (ptr_add (_ :: _ :: _ :: _ :: ?l) 4) with l.
  apply Forall_cons in Hb as [H0 Hb]. apply Forall_cons in Hb as [H1 Hb].
  destruct (ReadBigEndian_Some 16 2 (b2 :: b3 :: body)) as (words & -> & Hw);
    [done|done|rewrite !len_cons; pose proof (len_nonneg body); lia|].
  cbn [mbind option_bind payload_size count_or_format payload].
  apply Forall_cons in Hb as [_ Hb]. apply Forall_cons in Hb as [_ Hb].
  unfold in_u in Hw. change (2 ^ (8 * Z.of_nat 2)) with 65536 in Hw.
  rewrite !len_cons in Hs.
  assert (Hcf : 0 <= Z.land b0 0x1F < 32).
  { change 0x1F with (2 ^ 5 - 1). rewrite land_ones_mod by lia. apply Z.mod_pos_bound. lia. }
  destruct (Z.ltb_spec size (4 + words * 4)); [by eexists _, _|].
  destruct (negb _).
  - destruct (Z.eqb_spec (words * 4) 0); [by eexists _, _|].
    destruct (byte_at body (words * 4 - 1)) as [p|] eqn:Ep.
    2:{ unfold byte_at, deref, ptr_add in Ep.
        destruct (drop _ body) eqn:Ed; [|done].
        apply (f_equal length) in Ed. rewrite length_drop in Ed. unfold len in *. cbn in Ed. lia. }
    cbn [mbind option_bind]. apply (byte_at_ok _ _ _ Hb) in Ep. unfold byte_ok in *.
    destruct (Z.eqb_spec p 0); [by eexists _, _|].
    destruct (Z.ltb_spec (words * 4) p); [by eexists _, _|].
    eexists _, _. split; [done|intros _].
    unfold packet_size, NextPacket, kHeaderSizeBytes.
    cbn [packet_type payload_size padding_size count_or_format payload].
    rewrite wrap_small by (unfold in_u; cbn; lia).
    repeat split; try lia.
    + replace (4 + (words * 4 - p) + p) with ((1 + words) * 4) by lia. apply Z_mod_mult.
    + replace (4 + (words * 4 - p) + p) with (4 + (words * 4 - p + p)) by lia.
      rewrite <- (ptr_add_add _ 4) by lia. done.
  - eexists _, _. split; [done|intros _].
    unfold packet_size, NextPacket, kHeaderSizeBytes.
    cbn [packet_type payload_size padding_size count_or_format payload].
    unfold byte_ok in *. repeat split; try lia.
    + replace (4 + words * 4 + 0) with ((1 + words) * 4) by lia. apply Z_mod_mult.
    + rewrite Z.add_0_r. replace (4 + words * 4 + 0) with (4 + words * 4) by lia.
      rewrite <- (ptr_add_add _ 4) by lia. done.
Qed.

End HeaderFacts.

(** ** Delivery: what a [Create] may do to the buffer and the datagrams *)

(** Everything written so far: the delivered datagrams, then the bytes before the index. *)
Definition stream (s : wstate) : list Z :=
  mjoin (ready s) ++ take (Z.to_nat (index s)) (packet s).

(** A state from which a packet may be created: the index is inside the [max_length] bytes, which
    are inside the buffer and counted by a [size_t]. *)
Definition good (max_length : Z) (s : wstate) : Prop :=
  0 <= index s <= max_length /\ (max_length <= len (packet s) /\ max_length < 2 ^ 64).

(** [s'] comes from [s] by writing [w], delivering full datagrams of at most [max_length]. *)
Definition delivers (max_length : Z) (s s' : wstate) (w : list Z) : Prop :=
  len (packet s') = len (packet s) /\ 0 <= index s' <= max_length /\
  stream s' = stream s ++ w /\
  exists ds, ready s' = ready s ++ ds /\ Forall (fun d => 0 < len d <= max_length) ds.

Lemma delivers_good max s s' w : good max s -> delivers max s s' w -> good max s'.
Proof. intros [H1 H2] (Hl & Hi & _). unfold good. lia. Qed.

Lemma delivers_refl max s : good max s -> delivers max s s [].
Proof.
  intros [H1 H2]. unfold delivers. rewrite app_nil_r. repeat split; try lia.
  exists []. by rewrite app_nil_r.
Qed.

Lemma delivers_trans max s1 s2 s3 a b :
  delivers max s1 s2 a -> delivers max s2 s3 b -> delivers max s1 s3 (a ++ b).
Proof.
  intros (Hl1 & Hi1 & Hs1 & ds1 & Hr1 & Hd1) (Hl2 & Hi2 & Hs2 & ds2 & Hr2 & Hd2).
  unfold delivers. repeat split; try lia.
  - by rewrite Hs2, Hs1, app_assoc.
  - exists (ds1 ++ ds2). rewrite Hr2, Hr1, app_assoc. split; [done|]. by apply Forall_app.
Qed.

Lemma delivers_append max s w :
  good max s -> index s + len w <= max -> delivers max s (append w s) w.
Proof.
  intros [H1 H2] Hw. pose proof (len_nonneg w). unfold delivers, append, stream. cbn.
  rewrite len_splice, take_splice, app_assoc by lia. repeat split; try lia.
  exists []. by rewrite app_nil_r.
Qed.

Module RoomFacts.
Import RtcpPacket.

Lemma make_room_fits n blk max cb s :
  index s + blk <= max -> make_room n blk max cb s = Some (true, s).
Proof.
  intros H. destruct n; cbn [make_room];
    by replace (max <? index s + blk) with false by (symmetry; apply Z.ltb_ge; lia).
Qed.

Lemma OnBufferFull_delivers max s :
  good max s -> 0 < index s ->
  exists s', OnBufferFull true s = Some (true, s') /\ delivers max s s' [] /\ index s' = 0.
Proof.
  intros [H1 H2] Hi. unfold OnBufferFull.
  replace (index s =? 0) with false by (symmetry; apply Z.eqb_neq; lia).
  replace (index s <=? len (packet s)) with true by (symmetry; apply Z.leb_le; lia).
  eexists. split; [done|]. unfold delivers, stream. cbn [index packet ready].
  repeat split; try lia.
  - cbn [Z.to_nat take]. rewrite !app_nil_r, join_app. cbn. by rewrite app_nil_r.
  - eexists. split; [done|]. constructor; [|done].
    unfold len in *. rewrite length_take. lia.
Qed.

(** Two iterations are enough: the loop ends with room for the block, or with [false] when the
    block is larger than [max_length]. *)
Lemma make_room_spec blk max s :
  good max s -> 0 < blk ->
  exists r s', make_room 2 blk max true s = Some (r, s') /\ delivers max s s' [] /\
    (if r then index s' + blk <= max else max < blk).
Proof.
  intros Hg Hb. destruct (decide (index s + blk <= max)) as [Hfit|Hno].
  { exists true, s. rewrite make_room_fits by done.
    split; [done|]. split; [by apply delivers_refl|done]. }
  cbn [make_room]. replace (max <? index s + blk) with true by (symmetry; apply Z.ltb_lt; lia).
  destruct (decide (index s = 0)) as [H0|Hn0].
  - exists false, s. unfold OnBufferFull. rewrite H0 in *. cbn [Z.eqb].
    split; [done|]. split; [by apply delivers_refl|lia].
  - destruct (OnBufferFull_delivers max s Hg) as (s' & -> & Hd & Hi'); [destruct Hg; lia|].
    rewrite Hi'. destruct (Z.ltb_spec max (0 + blk)) as [Hlt|Hge].
    + exists false, s'. unfold OnBufferFull. rewrite Hi'. cbn [Z.eqb].
      split; [done|]. split; [done|lia].
    + exists true, s'. split; [done|]. split; [done|lia].
Qed.

Lemma HeaderLength_ret blk s :
  0 < blk -> blk mod 4 = 0 -> HeaderLength blk s = Some ((blk - 4) / 4, s).
Proof.
  intros H1 H2. unfold HeaderLength.
  replace (0 <? blk) with true by (symmetry; apply Z.ltb_lt; lia). by rewrite H2.
Qed.

Lemma header_bytes cf pt words (pad : bool) :
  0 <= cf < 32 -> byte_ok pt -> in_u 16 words ->
  [u8 (Z.lor (Z.lor (Z.shiftl 2 6) (if pad then Z.shiftl 1 5 else 0)) (u8 cf)); u8 pt;
   u8 (Z.land (Z.shiftr words 8) 0xff); u8 (Z.land words 0xff)] = header_wire cf pt words pad.
Proof.
  intros Hcf Hpt Hw. unfold in_u in Hw. change (2 ^ 16) with 65536 in Hw.
  rewrite (wrap_small 8 cf), (wrap_small 8 pt) by (unfold in_u, byte_ok in *; cbn; lia).
  change 0xff with (2 ^ 8 - 1). rewrite !land_ones_mod, Z.shiftr_div_pow2 by lia.
  change (2 ^ 8) with 256. unfold header_wire.
  assert (H2 : (words / 256) mod 256 = words / 256).
  { apply Z.mod_small. Z.to_euclidean_division_equations; lia. }
  rewrite H2. unfold wrap. change (2 ^ 8) with 256. rewrite H2, Zmod_mod. do 2 f_equal.
  assert (Hlor : Z.lor (Z.lor (Z.shiftl 2 6) (if pad then Z.shiftl 1 5 else 0)) cf =
                 128 + (if pad then 32 else 0) + cf).
  { rewrite (lor_add_low _ _ 5); [destruct pad; reflexivity|lia|destruct pad; done|lia]. }
  rewrite Hlor. apply Z.mod_small. destruct pad; lia.
Qed.

Lemma appends_CreateHeader cf pt words pad :
  0 <= cf < 32 -> byte_ok pt -> in_u 16 words ->
  appends (CreateHeader cf pt words pad) (header_wire cf pt words pad).
Proof.
  intros Hcf Hpt Hw. unfold CreateHeader.
  pose proof Hw as [Hw1 Hw2]. change (2 ^ 16) with 65536 in Hw2.
  apply appends_dcheck; [apply Z.leb_le; lia|]. apply appends_dcheck; [apply Z.leb_le; lia|].
  apply appends_writes; [|done]. rewrite <- header_bytes by done.
  repeat (eapply writes_seq;
    [apply writes_at_index; intros; apply stores_store| |done|reflexivity]).
  apply writes_at_index. intros. apply stores_store.
Qed.

(** The header as every [Create] writes it, for a packet of [blk] bytes. *)
Lemma appends_header cf pt blk words pad (k : W unit) body w :
  0 <= cf < 32 -> byte_ok pt -> blk = 4 + 4 * words -> in_u 16 words ->
  appends k body -> w = header_wire cf pt words pad ++ body ->
  appends ((length ← HeaderLength blk; CreateHeader cf pt length pad) ;; k) w.
Proof.
  intros Hcf Hpt -> Hw Hk ->. eapply appends_seq; [|done|done].
  intros s H1 H2. unfold in_u in Hw.
  rewrite (ST_bind_ret _ _ s words s).
  - by apply appends_CreateHeader.
  - rewrite HeaderLength_ret; [|lia|].
    + do 2 f_equal. replace (4 + 4 * words - 4) with (words * 4) by lia. apply Z_div_mult; lia.
    + replace (4 + 4 * words) with ((1 + words) * 4) by lia. apply Z_mod_mult.
Qed.

Lemma appends_from_header start cf pt blk words pad (k : W unit) body w :
  0 <= cf < 32 -> byte_ok pt -> blk = 4 + 4 * words -> in_u 16 words ->
  appends_from (start + 4) k body -> w = header_wire cf pt words pad ++ body ->
  appends_from start ((length ← HeaderLength blk; CreateHeader cf pt length pad) ;; k) w.
Proof.
  intros Hcf Hpt Hb Hw Hk ->.
  eapply appends_from_seq; [|rewrite len_header_wire; exact Hk|done].
  intros s H1 H2.
  pose proof (appends_header cf pt blk words pad (mret tt) [] _ Hcf Hpt Hb Hw appends_ret eq_refl s H1) as Ha.
  rewrite app_nil_r in Ha. rewrite <- Ha by done.
  unfold mbind, ST_bind. by destruct (HeaderLength blk s) as [[? s']|]; [destruct (CreateHeader _ _ _ _ _) as [[[] ?]|]|].
Qed.

Lemma appends_index_end_from blk body w :
  (forall start, appends_from start (body (start + blk)) w) -> len w = blk ->
  appends (with_index_end blk body) w.
Proof.
  intros H <- s H1 H2. unfold with_index_end, get_index, mbind, ST_bind.
  rewrite (H (index s)) by done. cbn. by rewrite Z.eqb_refl.
Qed.

Lemma appends_index_end blk body w :
  (forall e, appends (body e) w) -> len w = blk -> appends (with_index_end blk body) w.
Proof.
  intros H Hl. apply appends_index_end_from; [|done]. intros. by apply appends_from_any.
Qed.

End RoomFacts.

(** ** The interface the packet classes implement *)

(** What [Build] and compound packets rely on, for an object [x] whose unfragmented encoding is
    [w0] and whose encodings, fragmented or not, satisfy [E]; [least] is the smallest [max_length]
    with which it can be created. *)
Record behaves `{RtcpPacketOps T} (x : T) (w0 : list Z) (E : list Z -> Prop) (least : Z) : Prop := {
  behaves_len : len w0 = BlockLength x;
  behaves_pos : 0 < BlockLength x;
  behaves_least : least <= BlockLength x;
  behaves_full : E w0;
  behaves_fits max cb s :
    good max s -> index s + BlockLength x <= max ->
    Create x max cb s = Some (true, append w0 s);
  behaves_total max s :
    good max s ->
    exists r s' w, Create x max true s = Some (r, s') /\ delivers max s s' w /\
      (if r then least <= max /\ 0 < index s' /\ E w else max < least)
}.

(** The contract of a packet class. *)
Class RtcpPacketLaws (T : Type) `{RtcpPacketOps T} := {
  (** the invariant the setters of the class maintain, with the limits of the RTCP header *)
  valid : T -> Prop;
  (** the bytes of the packet *)
  wire : T -> list Z;
  (** the byte strings that encode the packet, fragmented or not *)
  emits : T -> list Z -> Prop;
  (** the smallest [max_length] with which the packet can be created *)
  least : T -> Z;
  valid_behaves x : valid x -> behaves x (wire x) (emits x) (least x)
}.

Section SimplePackets.
Import RtcpPacket RoomFacts.

(** A [Create] that makes room and then writes its bytes: the shape of all packet classes but
    [Nack] and [CompoundPacket]. *)
Context `{RtcpPacketOps T} (body : T -> W unit).

Definition simple_create (blk : Z) (x : T) (max_length : Z) (callback : bool) : W bool :=
  room ← make_room 2 blk max_length callback;
  if room : bool then body x ;; mret true else mret false.

Lemma simple_behaves x w :
  (forall max cb s, Create x max cb s = simple_create (BlockLength x) x max cb s) ->
  appends (body x) w -> len w = BlockLength x -> 0 < BlockLength x ->
  behaves x w (eq w) (BlockLength x).
Proof.
  intros Hc Hb Hl Hpos. split; [done|done|lia|done| |].
  - intros max cb s [H1 H2] Hfit. rewrite Hc. unfold simple_create.
    rewrite (ST_bind_ret _ _ s true s) by by apply make_room_fits.
    by rewrite (ST_bind_ret _ _ _ _ _ (Hb s ltac:(lia) ltac:(lia))).
  - intros max s Hg. rewrite Hc. unfold simple_create.
    destruct (make_room_spec (BlockLength x) max s Hg Hpos) as (r & s1 & Hr & Hd & Hroom).
    rewrite (ST_bind_ret _ _ _ _ _ Hr).
    pose proof (delivers_good _ _ _ _ Hg Hd) as Hg1. pose proof Hg1 as [H1 H2]. destruct r.
    + exists true, (append w s1), w.
      rewrite (ST_bind_ret _ _ _ _ _ (Hb s1 ltac:(lia) ltac:(lia))). split; [done|].
      split; [|split; [lia|split; [cbn [append index]; lia|done]]].
      apply (delivers_trans max s s1 _ [] w); [done|]. apply delivers_append; [done|lia].
    + by exists false, s1, [].
Qed.

End SimplePackets.

(** A packet of any class, with the contract of its class. *)
Record LawfulPacket := Lawful {
  lawful_any :> AnyPacket;
  lawful_laws :: RtcpPacketLaws (any_type lawful_any);
  lawful_valid : valid (any_val lawful_any)
}.

Definition lawful_wire (p : LawfulPacket) : list Z := wire (any_val p).
Definition lawful_emits (p : LawfulPacket) (w : list Z) : Prop := emits (any_val p) w.
Definition lawful_least (p : LawfulPacket) : Z := least (any_val p).

Module CompoundFacts.
Lemma BlockLength_cons p l :
  CompoundPacket.BlockLength (CompoundPacket.Compound (p :: l)) =
  BlockLength (any_val p) + CompoundPacket.BlockLength (CompoundPacket.Compound l).
Proof.
  unfold CompoundPacket.BlockLength. cbn [CompoundPacket.appended_packets fold_left].
  enough (Hg : forall a b, fold_left (fun n q => n + BlockLength (any_val q)) l (a + b) =
    a + fold_left (fun n q => n + BlockLength (any_val q)) l b) by (rewrite <- Hg; f_equal; lia).
  induction l as [|q l IH]; intros a b; cbn [fold_left]; [done|].
  rewrite <- IH. f_equal. lia.
Qed.

(** The encodings of a sequence of packets. *)
Definition emits_all (l : list LawfulPacket) (w : list Z) : Prop :=
  exists ws, w = mjoin ws /\ Forall2 lawful_emits l ws.

Lemma BlockLength_nonneg (l : list LawfulPacket) :
  0 <= CompoundPacket.BlockLength (CompoundPacket.Compound (lawful_any <$> l)).
Proof.
  induction l as [|p l IH]; [done|]. rewrite fmap_cons, BlockLength_cons.
  rewrite <- (behaves_len _ _ _ _ (valid_behaves _ (lawful_valid p))).
  pose proof (len_nonneg (wire (any_val p))). lia.
Qed.

Lemma len_wire_all (l : list LawfulPacket) :
  len (mjoin (lawful_wire <$> l)) = CompoundPacket.BlockLength (CompoundPacket.Compound (lawful_any <$> l)).
Proof.
  induction l as [|q l IH]; [done|].
  rewrite !fmap_cons, BlockLength_cons, <- IH. cbn [fmap list_fmap mjoin list_join].
  rewrite len_app. f_equal. apply (behaves_len _ _ _ _ (valid_behaves _ (lawful_valid q))).
Qed.

Lemma compound_fits l max cb s :
  good max s -> index s + CompoundPacket.BlockLength (CompoundPacket.Compound (lawful_any <$> l)) <= max ->
  CompoundPacket.create_all (lawful_any <$> l) max cb s = Some (true, append (mjoin (lawful_wire <$> l)) s).
Proof.
  revert s. induction l as [|p l IH]; intros s Hg Hfit.
  - cbn. f_equal. f_equal. unfold append. rewrite splice_nil, len_nil, Z.add_0_r. by destruct s.
  - rewrite fmap_cons, BlockLength_cons in Hfit.
    pose proof (valid_behaves _ (lawful_valid p)) as Hp.
    pose proof (BlockLength_nonneg l). pose proof Hg as [Hg1 Hg2].
    rewrite !fmap_cons. cbn [CompoundPacket.create_all].
    rewrite (ST_bind_ret _ _ _ _ _ (behaves_fits _ _ _ _ Hp max cb s Hg ltac:(lia))).
    pose proof (behaves_len _ _ _ _ Hp) as Hl.
    pose proof (len_nonneg (wire (any_val p))).
    rewrite IH.
    + change (mjoin (lawful_wire p :: ?ws)) with (lawful_wire p ++ mjoin ws).
      pose proof (len_wire_all l) as Hj. change (wire (any_val p)) with (lawful_wire p) in *.
      unfold append. cbn [index packet ready]. rewrite len_app, Z.add_assoc, splice_splice; [done|lia|].
      rewrite Hj. lia.
    + eapply delivers_good; [done|]. apply delivers_append; [done|lia].
    + cbn [append index]. lia.
Qed.

(** The smallest [max_length] for a sequence: that of its most demanding packet. *)
Definition least_all (l : list LawfulPacket) : Z := foldr (fun p n => lawful_least p `max` n) 0 l.

Lemma least_all_spec l max : 0 <= max -> least_all l <= max <-> Forall (fun p => lawful_least p <= max) l.
Proof.
  intros Hmax. induction l as [|p l IH]; cbn [least_all foldr]; [by split|]. fold (least_all l).
  rewrite Forall_cons, <- IH. lia.
Qed.

Lemma least_all_block (l : list LawfulPacket) :
  least_all l <= CompoundPacket.BlockLength (CompoundPacket.Compound (lawful_any <$> l)).
Proof.
  induction l as [|p l IH]; [done|]. rewrite fmap_cons, BlockLength_cons. cbn [least_all foldr]. fold (least_all l).
  pose proof (valid_behaves _ (lawful_valid p)) as Hp. pose proof (behaves_least _ _ _ _ Hp) as Hl.
  pose proof (behaves_pos _ _ _ _ Hp). pose proof (BlockLength_nonneg l). unfold lawful_least. lia.
Qed.

Lemma compound_total l max s :
  good max s ->
  exists r s' w, CompoundPacket.create_all (lawful_any <$> l) max true s = Some (r, s') /\
    delivers max s s' w /\
    (if r then least_all l <= max /\ (0 < index s \/ l <> [] -> 0 < index s') /\ emits_all l w else max < least_all l).
Proof.
  revert s. induction l as [|p l IH]; intros s Hg.
  - exists true, s, []. split; [done|]. split; [by apply delivers_refl|]. destruct Hg. cbn [least_all foldr].
    split; [lia|]. split; [by intros []|]. by exists [].
  - pose proof (valid_behaves _ (lawful_valid p)) as Hp. cbn [least_all foldr]. fold (least_all l).
    destruct (behaves_total _ _ _ _ Hp max s Hg) as (r & s1 & w1 & Hr & Hd1 & Hw1).
    pose proof (delivers_good _ _ _ _ Hg Hd1) as Hg1. rewrite fmap_cons. cbn [CompoundPacket.create_all].
    change (least (any_val p)) with (lawful_least p) in Hw1. rewrite (ST_bind_ret _ _ _ _ _ Hr). destruct r.
    + destruct (IH s1 Hg1) as (r2 & s2 & w2 & Hr2 & Hd2 & Hw2). destruct Hw1 as (Hm1 & Hi1 & Hw1).
      exists r2, s2, (w1 ++ w2). split; [done|]. split; [by eapply delivers_trans|]. destruct r2; [|lia].
      destruct Hw2 as (Hm2 & Hi2 & ws & -> & Hf). split; [lia|]. split; [auto|].
      exists (w1 :: ws). split; [done|]. by constructor.
    + exists false, s1, w1. split; [done|]. split; [done|]. lia.
Qed.

Lemma compound_behaves l : l <> [] ->
  behaves (CompoundPacket.Compound (lawful_any <$> l)) (mjoin (lawful_wire <$> l)) (emits_all l) (least_all l).
Proof.
  intros Hne. split.
  - apply len_wire_all.
  - destruct l as [|p l]; [done|]. pose proof (BlockLength_nonneg l).
    pose proof (behaves_pos _ _ _ _ (valid_behaves _ (lawful_valid p))) as Hpos.
    change (0 < CompoundPacket.BlockLength (CompoundPacket.Compound (lawful_any p :: (lawful_any <$> l)))). rewrite BlockLength_cons. lia.
  - apply least_all_block.
  - exists (lawful_wire <$> l). split; [done|]. clear Hne.
    induction l as [|q l IH]; constructor; [|done].
    apply (behaves_full _ _ _ _ (valid_behaves _ (lawful_valid q))).
  - intros. by apply compound_fits.
  - intros max s Hg. destruct (compound_total l max s Hg) as (r & s' & w & Hr & Hd & Hw). exists r, s', w.
    split; [done|]. split; [done|]. destruct r; [|done]. destruct Hw as (Hm & Hi & Hw). auto.
Qed.

End CompoundFacts.

Module BuildFacts.
Import RtcpPacket RoomFacts Build.

Lemma Build_behaves `{RtcpPacketOps T} (x : T) w E m mem :
  behaves x w E m -> len mem = BlockLength x -> BlockLength x < 2 ^ 64 -> Build x mem = Some w.
Proof.
  intros Hx Hm Hmax. unfold Build.
  pose proof (len_nonneg mem). pose proof (behaves_len _ _ _ _ Hx) as Hl.
  rewrite (behaves_fits _ _ _ _ Hx); [|split; cbn; lia|cbn; lia].
  unfold append. cbn [index packet ready check mbind option_bind].
  rewrite Hl, <- Hm. cbn [Z.add]. rewrite Z.eqb_refl. cbn [check mbind option_bind].
  f_equal. apply splice_all. lia.
Qed.

Lemma BuildTo_behaves `{RtcpPacketOps T} (x : T) w E m max mem :
  behaves x w E m -> 0 <= max <= IP_PACKET_SIZE -> len mem = IP_PACKET_SIZE ->
  exists r ds, BuildTo x max mem = Some (r, ds) /\
    Forall (fun d => 0 < len d <= max) ds /\
    (r = true <-> m <= max) /\ (r = true -> E (mjoin ds)) /\
    (BlockLength x <= max -> ds = [w]).
Proof.
  intros Hx Hmax Hm. unfold BuildTo, IP_PACKET_SIZE in *.
  replace (max <=? 1500) with true by (symmetry; apply Z.leb_le; lia).
  cbn [check mbind option_bind].
  assert (Hg : good max (WState mem 0 [])) by (split; cbn; lia).
  destruct (behaves_total _ _ _ _ Hx max _ Hg) as (r & s' & w' & Hr & Hd & Hw).
  pose proof Hd as (Hl & Hi & Hs & ds & Hrd & Hds). unfold stream in Hs. cbn in Hs, Hrd.
  assert (Hfull : BlockLength x <= max -> r = true /\ s' = append w (WState mem 0 [])).
  { intros Hb. rewrite (behaves_fits _ _ _ _ Hx) in Hr by (done || cbn; lia).
    injection Hr as <- <-. done. }
  rewrite Hr. destruct r.
  - destruct Hw as (Hleast & Hpos & HE). unfold OnBufferFull.
    replace (index s' =? 0) with false by (symmetry; apply Z.eqb_neq; lia).
    replace (index s' <=? len (packet s')) with true
      by (symmetry; apply Z.leb_le; cbn in Hl; lia).
    cbn [andb ready]. exists true, (ds ++ [take (Z.to_nat (index s')) (packet s')]).
    rewrite Hrd. split; [done|]. split; [|split; [done|split]].
    + apply Forall_app. split; [done|]. constructor; [|done].
      cbn in Hl. unfold len in *. rewrite length_take. lia.
    + intros _. rewrite join_app. cbn. rewrite app_nil_r. rewrite Hrd in Hs. by rewrite Hs.
    + intros Hb. destruct (Hfull Hb) as [_ ->].
      cbn in Hrd. rewrite <- Hrd. cbn [app]. f_equal.
      pose proof (behaves_len _ _ _ _ Hx). unfold append. cbn [index packet].
      rewrite take_splice by lia. done.
  - exists false, ds. rewrite Hrd. split; [done|]. split; [done|]. split; [split; [done|lia]|]. split; [done|].
    intros Hb. by destruct (Hfull Hb).
Qed.

End BuildFacts.

(** ** Properties *)

(** [CommonHeader::Parse] never reads outside the [size_bytes] bytes it is given, whatever they
    are, and a header it accepts describes a packet inside them: a whole number of 32-bit words,
    its payload and padding within [size_bytes], [NextPacket] at the byte after the packet. *)
Lemma common_header_parse_safe this buffer :
  bytes_ok buffer ->
  exists r h, CommonHeader.Parse this buffer (len buffer) = Some (r, h) /\
    (r = true ->
      CommonHeader.packet_size h <= len buffer /\ 4 <= CommonHeader.packet_size h /\
      CommonHeader.packet_size h mod 4 = 0 /\ 0 <= CommonHeader.count h < 32 /\
      0 <= CommonHeader.payload_size h /\ 0 <= CommonHeader.padding_size h < 256 /\
      CommonHeader.payload h = ptr_add buffer 4 /\
      CommonHeader.NextPacket h = ptr_add buffer (CommonHeader.packet_size h)).
Proof.
  intros Hb. destruct (HeaderFacts.HeaderFacts_Parse_safe this buffer (len buffer) Hb) as (r & h & Hp & Hr); [lia|].
  exists r, h. split; [done|]. intros Ht. specialize (Hr Ht). unfold CommonHeader.count. tauto.
Qed.

(** [CreateHeader] followed by [CommonHeader::Parse] gives back the count, the packet type and
    the payload, with and without padding: with the padding bit, the last byte of the packet is
    the number [p] of padding bytes and the payload is what precedes them. *)
Lemma common_header_roundtrip this cf pt words (p : Z) content rest s :
  0 <= cf < 32 -> byte_ok pt -> in_u 16 words -> byte_ok p ->
  len content + p = 4 * words -> index s = 0 ->
  packet s = [0; 0; 0; 0] ++ content ++ (replicate (Z.to_nat (p - 1)) 0 ++ (if p =? 0 then [] else [p])) ++ rest ->
  exists s' h, RtcpPacket.CreateHeader cf pt words (negb (p =? 0)) s = Some (tt, s') /\
    CommonHeader.Parse this (packet s') (len (packet s')) = Some (true, h) /\
    CommonHeader.type h = pt /\ CommonHeader.count h = cf /\
    take (Z.to_nat (CommonHeader.payload_size h)) (CommonHeader.payload h) = content /\
    CommonHeader.padding_size h = p /\ CommonHeader.NextPacket h = rest.
Proof.
  intros Hcf Hpt Hw Hp Hlen Hi Hs. unfold byte_ok in Hp. pose proof Hw as [_ Hw'].
  change (2 ^ 16) with 65536 in Hw'.
  set (padding := replicate (Z.to_nat (p - 1)) 0 ++ (if p =? 0 then [] else [p])) in *.
  assert (Hpl : len padding = p).
  { unfold padding. rewrite len_app, len_replicate. destruct (Z.eqb_spec p 0); len_simpl; lia. }
  pose proof (len_nonneg content). pose proof (len_nonneg rest).
  assert (Hls : len (packet s) = 4 + 4 * words + len rest).
  { rewrite Hs, !len_app, Hpl. len_simpl. lia. }
  exists (append (header_wire cf pt words (negb (p =? 0))) s).
  rewrite RoomFacts.appends_CreateHeader by (done || len_simpl; lia).
  unfold append. rewrite Hi. cbn [packet].
  assert (Hsp : splice 0 (header_wire cf pt words (negb (p =? 0))) (packet s) =
          header_wire cf pt words (negb (p =? 0)) ++ content ++ padding ++ rest).
  { rewrite Hs. done. }
  rewrite Hsp. rewrite HeaderFacts.HeaderFacts_Parse_wire; try done.
  2:{ rewrite !len_app, Hpl, len_header_wire. lia. }
  destruct (Z.eqb_spec p 0) as [->|Hp0]; cbn [negb].
  - unfold padding in *. cbn [replicate Z.to_nat Z.sub app] in *.
    eexists. split; [done|]. split; [done|]. cbn. unfold CommonHeader.NextPacket. cbn.
    replace (words * 4) with (len content) by lia. repeat split.
    + rewrite take_app_le by (unfold len; lia). apply firstn_all2. unfold len. lia.
    + rewrite Z.add_0_r, ptr_add_app_ge, Z.sub_diag by lia. done.
  - assert (Hb : byte_at (content ++ padding ++ rest) (words * 4 - 1) = Some p).
    { unfold byte_at. rewrite ptr_add_app_ge by lia. unfold padding. rewrite <- app_assoc.
      rewrite ptr_add_app_ge by (rewrite len_replicate; lia). rewrite len_replicate.
      destruct (Z.eqb_spec p 0); [done|].
      replace (_ - _ - _) with 0 by lia. done. }
    rewrite Hb. cbn [mbind option_bind].
    replace (words * 4 =? 0) with false by (symmetry; apply Z.eqb_neq; lia).
    replace (p =? 0) with false by (symmetry; by apply Z.eqb_neq).
    replace (words * 4 <? p) with false by (symmetry; apply Z.ltb_ge; lia).
    rewrite wrap_small by (unfold in_u; cbn; lia).
    eexists. split; [done|]. split; [done|]. cbn. unfold CommonHeader.NextPacket. cbn.
    replace (words * 4 - p) with (len content) by lia. repeat split.
    + rewrite take_app_le by (unfold len; lia). apply firstn_all2. unfold len. lia.
    + rewrite app_assoc, ptr_add_app_ge, len_app, Hpl, Z.sub_diag by (rewrite len_app; lia). done.
Qed.

