(* ===== verification/Wire.v ===== *)
(** * Reading and writing records of fixed layout

    The RTCP classes read their fields at constant offsets of the payload and vectors of
    fixed-size items in loops.  This file holds the loop both use, and the tactics that run a
    writer ([emit]) or a reader ([read_wire], [read_safe]) over a layout. *)

From S2P Require Import Prelude Buffer ByteIo Rtcp.

(** [for (Item& item : items_) { item.Parse(next); next += kLength; }] *)
Fixpoint parse_items {A} (parse1 : list Z -> option A) (kLength : Z) (n : nat) (next : list Z)
    : option (list A) :=
  match n with
  | O => Some []
  | S n' =>
      x ← parse1 next;
      l ← parse_items parse1 kLength n' (ptr_add next kLength);
      Some (x :: l)
  end.

Lemma parse_items_wire {A} (parse1 : list Z -> option A) k (enc : A -> list Z) l rest :
  (forall x r, x ∈ l -> parse1 (enc x ++ r) = Some x) -> (forall x, x ∈ l -> len (enc x) = k) ->
  parse_items parse1 k (length l) (mjoin (enc <$> l) ++ rest) = Some l.
Proof.
  induction l as [|x l IH]; intros Hp Hk; [done|].
  cbn [length parse_items]. rewrite mjoin_fmap_cons, <- app_assoc.
  rewrite Hp by set_solver. cbn [mbind option_bind].
  rewrite ptr_add_app_ge by (rewrite Hk; [lia|set_solver]).
  rewrite (Hk x) by set_solver. rewrite Z.sub_diag, ptr_add_0.
  rewrite IH by set_solver. done.
Qed.

Lemma parse_items_safe {A} (parse1 : list Z -> option A) k (P : A -> Prop) n p :
  0 <= k ->
  (forall q, bytes_ok q -> k <= len q -> exists x, parse1 q = Some x /\ P x) ->
  bytes_ok p -> k * Z.of_nat n <= len p ->
  exists l, parse_items parse1 k n p = Some l /\ length l = n /\ Forall P l.
Proof.
  intros Hk Hp. revert p. induction n as [|n IH]; intros p Hb Hl; cbn [parse_items].
  - by exists [].
  - destruct (Hp p Hb) as (x & -> & Hx); [nia|]. cbn [mbind option_bind].
    destruct (IH (ptr_add p k)) as (l & -> & Hn & Hl').
    + by apply bytes_ok_ptr_add.
    + rewrite len_ptr_add; nia.
    + exists (x :: l). cbn. auto.
Qed.

Lemma len_items {A} (enc : A -> list Z) (l : list A) k :
  (forall x, x ∈ l -> len (enc x) = k) -> len (mjoin (enc <$> l)) = k * len l.
Proof.
  induction l as [|x l IH]; intros H; [cbn; unfold len; cbn; lia|].
  rewrite mjoin_fmap_cons, len_app, len_cons, H, IH by set_solver. lia.
Qed.

Lemma bytes_ok_items {A} (enc : A -> list Z) (l : list A) :
  (forall x, x ∈ l -> bytes_ok (enc x)) -> bytes_ok (mjoin (enc <$> l)).
Proof.
  induction l as [|x l IH]; intros H; [constructor|].
  rewrite mjoin_fmap_cons. apply bytes_ok_app. split; [apply H; set_solver|apply IH; set_solver].
Qed.

(** [for (const Item& item : items_) { item.Create(write_at); write_at += kLength; }]; the result is
    the final [write_at]. *)
Fixpoint store_items {A} (create1 : A -> Z -> W unit) (kLength write_at : Z) (l : list A) : W Z :=
  match l with
  | [] => mret write_at
  | x :: l' => create1 x write_at ;; store_items create1 kLength (write_at + kLength) l'
  end.

Lemma store_items_stores {A} (create1 : A -> Z -> W unit) k (enc : A -> list Z) l pos s :
  (forall x p, x ∈ l -> stores (create1 x p) p (enc x)) -> (forall x, x ∈ l -> len (enc x) = k) ->
  0 <= k -> 0 <= pos -> pos + k * len l <= len (packet s) ->
  store_items create1 k pos l s = Some (pos + k * len l, put pos (mjoin (enc <$> l)) s).
Proof.
  revert pos s. induction l as [|x l IH]; intros pos s Hc Hk Hk0 Hp Hl.
  - rewrite len_nil, Z.mul_0_r, Z.add_0_r. cbn. unfold put. rewrite splice_nil. by destruct s.
  - rewrite len_cons in Hl |- *. pose proof (len_nonneg l). cbn [store_items].
    assert (Hx : len (enc x) = k) by (apply Hk, list_elem_of_here).
    rewrite (ST_bind_ret _ _ _ _ _ (Hc x pos (list_elem_of_here _ _) s Hp ltac:(nia))).
    assert (Hlen : len (packet (put pos (enc x) s)) = len (packet s)).
    { unfold put. cbn [packet]. apply len_splice; nia. }
    rewrite IH; [|intros; apply Hc; by apply list_elem_of_further
                 |intros; apply Hk; by apply list_elem_of_further|done|lia|nia].
    rewrite mjoin_fmap_cons. do 2 f_equal; [lia|]. unfold put. cbn [packet index ready].
    rewrite <- Hx, splice_splice; [done|lia|].
    rewrite (len_items _ _ k) by (intros; apply Hk; by apply list_elem_of_further). nia.
Qed.

(** [n] consecutive bytes at [p]: [memcpy] from, or [std::string::assign] of, a part of the
    packet. *)
Definition read_bytes (p : list Z) (n : Z) : option (list Z) :=
  if n <=? len p then Some (take (Z.to_nat n) p) else None.

Lemma read_bytes_app a b n : n = len a -> read_bytes (a ++ b) n = Some a.
Proof.
  intros ->. unfold read_bytes. rewrite len_app. pose proof (len_nonneg b).
  replace (_ <=? _) with true by (symmetry; apply Z.leb_le; lia).
  f_equal. unfold len. rewrite Nat2Z.id. apply take_app_length.
Qed.

Lemma read_bytes_Some p n :
  bytes_ok p -> 0 <= n <= len p -> exists a, read_bytes p n = Some a /\ bytes_ok a /\ len a = n.
Proof.
  intros Hb Hn. exists (take (Z.to_nat n) p). unfold read_bytes.
  replace (_ <=? _) with true by (symmetry; apply Z.leb_le; lia).
  split; [done|]. split; [by apply Forall_take|]. unfold len in *. rewrite length_take. lia.
Qed.

(** ** The two properties of a parser *)

(** A header that [CommonHeader::Parse] accepted: its payload is inside the memory. *)
Record header_ok (h : CommonHeader.t) : Prop := {
  header_count : 0 <= CommonHeader.count h < 32;
  header_bytes : bytes_ok (CommonHeader.payload h);
  header_size : 0 <= CommonHeader.payload_size h <= len (CommonHeader.payload h);
  header_words : CommonHeader.payload_size h <= 4 * 0xffff
}.

(** [parse] never leaves the payload and never fails a check, on any payload of a packet the
    dispatcher hands it ([pre]); an accepted object satisfies the invariant of its class. *)
Definition safe_parser {T} (pre : CommonHeader.t -> Prop)
    (parse : T -> CommonHeader.t -> option (bool * T)) (ok : T -> Prop) (failed : T -> T -> Prop) :=
  forall this h, header_ok h -> pre h ->
  exists r x, parse this h = Some (r, x) /\ (if r : bool then ok x else failed this x).

(** A parser keeps an invariant that holds of whatever it accepts and of whatever it leaves. *)
Lemma safe_parser_invariant {T} pt (parse : T -> CommonHeader.t -> option (bool * T)) (ok : T -> Prop) x h r y :
  safe_parser (fun h => CommonHeader.type h = pt) parse ok eq ->
  (forall y, parse x h = Some y -> CommonHeader.type h = pt) ->
  header_ok h -> parse x h = Some (r, y) -> ok x -> ok y.
Proof.
  intros Hs Ht Hh Hp Hx. destruct (Hs x h Hh (Ht _ Hp)) as (r' & y' & Hp' & Hr).
  rewrite Hp in Hp'. injection Hp' as -> ->. destruct r'; [done|by subst].
Qed.

(** Building [x] and parsing the bytes, with anything behind them in the datagram, gives [y];
    the parsed header points behind the packet. *)
Definition round_trips `{RtcpPacketOps T} (parse : T -> CommonHeader.t -> option (bool * T))
    (x y : T) : Prop :=
  forall h0 this mem rest, len mem = BlockLength x ->
  exists w h, Build.Build x mem = Some w /\
    CommonHeader.Parse h0 (w ++ rest) (len (w ++ rest)) = Some (true, h) /\
    CommonHeader.NextPacket h = rest /\ parse this h = Some (true, y).

Lemma round_trips_wire `{RtcpPacketOps T} parse (x y : T) w E m cf pt words body :
  behaves x w E m -> w = header_wire cf pt words false ++ body -> len body = 4 * words ->
  0 <= cf < 32 -> byte_ok pt -> in_u 16 words ->
  (forall this rest, parse this (CommonHeader.Header pt cf 0 (4 * words) (body ++ rest)) = Some (true, y)) ->
  round_trips parse x y.
Proof.
  intros Hx -> Hl Hcf Hpt Hw Hp h0 this mem rest Hm.
  pose proof (behaves_len _ _ _ _ Hx) as Hbl. rewrite len_app, len_header_wire in Hbl.
  assert (4 + 4 * words < 2 ^ 64) by (destruct Hw; zconst; lia).
  eexists _, _. split; [eapply BuildFacts.Build_behaves; [done|done|lia]|].
  rewrite <- app_assoc. rewrite HeaderFacts.HeaderFacts_Parse_wire; try done.
  - split; [done|]. split; [|rewrite (Z.mul_comm words); apply Hp].
    unfold CommonHeader.NextPacket. cbn. rewrite ptr_add_app_ge by lia.
    replace (_ - _) with 0 by lia. done.
  - rewrite !len_app, len_header_wire. pose proof (len_nonneg rest). lia.
Qed.

(** ** Tactics *)

(** The fields of a known header, and the check of its packet type. *)
Ltac hdr :=
  unfold CommonHeader.payload_size_bytes, CommonHeader.fmt, CommonHeader.count,
    CommonHeader.type in *;
  cbn [CommonHeader.packet_type CommonHeader.count_or_format CommonHeader.payload_size
       CommonHeader.payload CommonHeader.padding_size] in *.

(** Decides an integer test of the source whose outcome is forced. *)
Ltac ztest b v :=
  replace b with v
    by (symmetry; first [apply Z.ltb_lt; lia | apply Z.ltb_ge; lia | apply Z.leb_le; lia
                        | apply Z.leb_gt; lia | apply Z.eqb_eq; lia | apply Z.eqb_neq; lia]).
Ltac ztests :=
  repeat match goal with
  | |- context [?a <? ?b] => first [ztest (a <? b) true | ztest (a <? b) false]
  | |- context [?a <=? ?b] => first [ztest (a <=? b) true | ztest (a <=? b) false]
  | |- context [?a =? ?b] => first [ztest (a =? b) true | ztest (a =? b) false]
  end; cbn [check mbind option_bind negb andb orb].

Lemma stores_eq m p pos bs : stores m p bs -> p = pos -> stores m pos bs.
Proof. by intros H <-. Qed.

Lemma byte_be1 v l : byte_ok v -> byte_at (be_bytes 1 v ++ l) 0 = Some v.
Proof.
  intros H. change (byte_at (be_bytes 1 v ++ l) 0) with (Some ((v / 1) mod 256)).
  rewrite Z.div_1_r. f_equal. by apply Z.mod_small.
Qed.

Lemma byte_at_add p a b : 0 <= a -> 0 <= b -> byte_at (ptr_add p a) b = byte_at p (a + b).
Proof. intros. unfold byte_at. by rewrite ptr_add_add. Qed.

Lemma byte_at_app_ge a b off :
  len a <= off -> byte_at (a ++ b) off = byte_at b (off - len a).
Proof. intros. unfold byte_at. by rewrite ptr_add_app_ge. Qed.

Lemma byte_at_Some p i : bytes_ok p -> 0 <= i < len p -> exists b, byte_at p i = Some b /\ byte_ok b.
Proof.
  intros Hp Hi. destruct (byte_at p i) as [b|] eqn:E.
  - exists b. split; [done|]. by eapply byte_at_ok.
  - exfalso. unfold byte_at, deref, ptr_add in E. destruct (drop _ p) eqn:Ed; [|done].
    apply (f_equal length) in Ed. rewrite length_drop in Ed. unfold len in Hi. cbn in Ed. lia.
Qed.

(** Consecutive writes at absolute positions. *)
Ltac stores_leaf :=
  eapply stores_eq; [solve [eauto with emit]|first [reflexivity|len_simpl; lia]].
Ltac stores_chain :=
  first
    [ stores_leaf
    | eapply stores_seq; [stores_leaf|stores_chain|len_simpl; zconst; lia|reflexivity] ].

(** Consecutive writes at offsets of the index. *)
Ltac writes_leaf := apply writes_at_index; intros; stores_leaf.
Ltac writes_chain :=
  first
    [ writes_leaf
    | eapply writes_seq; [writes_leaf|writes_chain|len_simpl; zconst; lia|reflexivity] ].

(** Moves read pointers over the leading fields of a layout. *)
Ltac ptr_simpl :=
  repeat first
    [ rewrite ptr_add_0
    | match goal with
      | |- context [ptr_add (?a ++ ?b) ?off] =>
          rewrite (ptr_add_app_ge a b off) by (len_simpl; zconst; lia); len_simpl; zconst
      | |- context [byte_at (?a ++ ?b) ?off] =>
          rewrite (byte_at_app_ge a b off) by (len_simpl; zconst; lia); len_simpl; zconst
      end ].

(** Evaluates the reads of a parser on a layout. *)
Ltac read_wire :=
  rewrite <- ?app_assoc; ptr_simpl;
  repeat first
    [ rewrite ReadBigEndian_bytes by (zconst; first [lia|assumption|done])
    | rewrite byte_be1 by first [assumption|done]
    | rewrite ReadInt24_bytes by first [assumption|done]
    | rewrite ReadInt16_bytes by first [assumption|done] ];
  cbn [mbind option_bind].

(** Gives a name to the value of every read of a parser, inside a long enough payload. *)
Ltac read_side :=
  first
    [ done
    | lia
    | apply bytes_ok_ptr_add; assumption
    | assumption
    | zconst; rewrite ?len_ptr_add by lia; lia ].
Ltac read_safe :=
  repeat match goal with
  | |- context [ByteReader.ReadBigEndian ?w ?B ?p] =>
      let v := fresh "v" in let H := fresh "Hv" in
      destruct (ReadBigEndian_Some w B p) as (v & -> & H); [read_side..|];
      cbn [mbind option_bind]
  | |- context [ByteReader.ReadBigEndianSigned ?w ?B ?p] =>
      let v := fresh "v" in let H := fresh "Hv" in
      destruct (ReadBigEndianSigned_Some w B p) as (v & -> & H); [read_side..|];
      cbn [mbind option_bind]
  | |- context [byte_at ?p ?i] =>
      let v := fresh "v" in let H := fresh "Hv" in
      destruct (byte_at_Some p i) as (v & -> & H); [read_side..|];
      cbn [mbind option_bind]
  end.
