(* ===== verification/Reports.v ===== *)
(** * Sender and receiver reports

    src/src/myrtc/rtp_rtcp/report_block.{h,cc}, sender_report.{h,cc}, receiver_report.{h,cc} and
    the part of rtc_base/ntp_time.h they use.  Objects are records of the classes' fields; [Parse]
    takes the object it is called on and returns the object it leaves, also when it fails. *)

From S2P Require Import Prelude Buffer ByteIo Rtcp Wire.
Import ByteReader ByteWriter RtcpPacket.

Module NtpTime.

Definition kFractionsPerSecond : Z := 0x100000000.

Record t := Ntp { value : Z }.

Definition Set_ (seconds fractions : Z) : t := Ntp (u64 (seconds * kFractionsPerSecond + fractions)).
Definition seconds (this : t) : Z := value this / kFractionsPerSecond.
Definition fractions (this : t) : Z := value this mod kFractionsPerSecond.
Definition Valid (this : t) : bool := negb (value this =? 0).

Lemma Set_seconds n : in_u 64 (value n) -> Set_ (seconds n) (fractions n) = n.
Proof.
  intros H. destruct n as [v]. unfold Set_, seconds, fractions. cbn in *.
  rewrite Z.mul_comm, <- Z.div_mod by done. by rewrite wrap_small.
Qed.

Lemma seconds_range n : in_u 64 (value n) -> in_u 32 (seconds n) /\ in_u 32 (fractions n).
Proof.
  intros [H1 H2]. unfold seconds, fractions, in_u, kFractionsPerSecond.
  change (2 ^ 64) with (2 ^ 32 * 2 ^ 32) in H2. change 0x100000000 with (2 ^ 32).
  split; [|apply Z.mod_pos_bound; lia].
  split; [apply Z.div_pos; lia|apply Z.div_lt_upper_bound; lia].
Qed.

Lemma Set_range s f : in_u 64 (value (Set_ s f)).
Proof. apply wrap_range. lia. Qed.

End NtpTime.

Module ReportBlock.

Definition kLength : Z := 24.

Record t := Block {
  source_ssrc : Z;
  fraction_lost : Z;
  cumulative_lost_ : Z;
  extended_high_seq_num : Z;
  jitter : Z;
  last_sr : Z;
  delay_since_last_sr : Z
}.

Definition init : t := Block 0 0 0 0 0 0 0.

Definition SetMediaSsrc (this : t) (ssrc : Z) : t :=
  Block ssrc (fraction_lost this) (cumulative_lost_ this) (extended_high_seq_num this)
    (jitter this) (last_sr this) (delay_since_last_sr this).

Definition SetFractionLost (this : t) (v : Z) : t :=
  Block (source_ssrc this) v (cumulative_lost_ this) (extended_high_seq_num this)
    (jitter this) (last_sr this) (delay_since_last_sr this).

Definition SetCumulativeLost (this : t) (cumulative_lost : Z) : bool * t :=
  if (Z.shiftl 1 23 <=? cumulative_lost) || (cumulative_lost <? - Z.shiftl 1 23) then
    (false, this)
  else
    (true, Block (source_ssrc this) (fraction_lost this) cumulative_lost
             (extended_high_seq_num this) (jitter this) (last_sr this)
             (delay_since_last_sr this)).

Definition SetExtHighestSeqNum (this : t) (v : Z) : t :=
  Block (source_ssrc this) (fraction_lost this) (cumulative_lost_ this) v
    (jitter this) (last_sr this) (delay_since_last_sr this).

Definition SetJitter (this : t) (v : Z) : t :=
  Block (source_ssrc this) (fraction_lost this) (cumulative_lost_ this)
    (extended_high_seq_num this) v (last_sr this) (delay_since_last_sr this).

Definition SetLastSr (this : t) (v : Z) : t :=
  Block (source_ssrc this) (fraction_lost this) (cumulative_lost_ this)
    (extended_high_seq_num this) (jitter this) v (delay_since_last_sr this).

Definition SetDelayLastSr (this : t) (v : Z) : t :=
  Block (source_ssrc this) (fraction_lost this) (cumulative_lost_ this)
    (extended_high_seq_num this) (jitter this) (last_sr this) v.

(** The deprecated unsigned accessor. *)
Definition cumulative_lost (this : t) : Z :=
  if cumulative_lost_ this <? 0 then 0 else cumulative_lost_ this.

Definition Parse (this : t) (buffer : list Z) (length : Z) : option (bool * t) :=
  if length <? kLength then Some (false, this) else
  source_ssrc ← ReadBigEndian 32 4 (ptr_add buffer 0);
  fraction_lost ← byte_at buffer 4;
  cumulative_lost ← ReadBigEndianSigned 32 3 (ptr_add buffer 5);
  extended_high_seq_num ← ReadBigEndian 32 4 (ptr_add buffer 8);
  jitter ← ReadBigEndian 32 4 (ptr_add buffer 12);
  last_sr ← ReadBigEndian 32 4 (ptr_add buffer 16);
  delay_since_last_sr ← ReadBigEndian 32 4 (ptr_add buffer 20);
  Some (true, Block source_ssrc fraction_lost cumulative_lost extended_high_seq_num jitter
                last_sr delay_since_last_sr).

(** [Create(uint8_t* buffer)]; [buffer] is a position of the packet. *)
Definition Create (this : t) (buffer : Z) : W unit :=
  dcheck (cumulative_lost_ this <? Z.shiftl 1 23) ;;
  WriteBigEndian 4 (buffer + 0) (source_ssrc this) ;;
  WriteBigEndian 1 (buffer + 4) (fraction_lost this) ;;
  WriteBigEndianSigned 32 3 (buffer + 5) (cumulative_lost_ this) ;;
  WriteBigEndian 4 (buffer + 8) (extended_high_seq_num this) ;;
  WriteBigEndian 4 (buffer + 12) (jitter this) ;;
  WriteBigEndian 4 (buffer + 16) (last_sr this) ;;
  WriteBigEndian 4 (buffer + 20) (delay_since_last_sr this).

(** The invariant: fields in the range of their types, the loss in 24 bits. *)
Record valid (x : t) : Prop := {
  valid_ssrc : in_u 32 (source_ssrc x);
  valid_fraction : byte_ok (fraction_lost x);
  valid_lost : in_s 24 (cumulative_lost_ x);
  valid_seq : in_u 32 (extended_high_seq_num x);
  valid_jitter : in_u 32 (jitter x);
  valid_last_sr : in_u 32 (last_sr x);
  valid_delay : in_u 32 (delay_since_last_sr x)
}.

Definition wire (x : t) : list Z :=
  be_bytes 4 (source_ssrc x) ++ be_bytes 1 (fraction_lost x) ++
  be_bytes 3 (wrap 24 (cumulative_lost_ x)) ++ be_bytes 4 (extended_high_seq_num x) ++
  be_bytes 4 (jitter x) ++ be_bytes 4 (last_sr x) ++ be_bytes 4 (delay_since_last_sr x).

Lemma ReportBlock_len_wire x : len (wire x) = 24.
Proof. done. Qed.

Lemma ReportBlock_stores_Create x pos : valid x -> stores (Create x pos) pos (wire x).
Proof.
  intros [? ? [_ Hlost] ? ? ? ?]. apply stores_dcheck; [by apply Z.ltb_lt|]. stores_chain.
Qed.

Lemma ReportBlock_Parse_wire this x rest : valid x -> Parse this (wire x ++ rest) kLength = Some (true, x).
Proof.
  intros []. unfold Parse, wire. cbn [Z.ltb Z.compare kLength]. read_wire. by destruct x.
Qed.

Lemma ReportBlock_Parse_safe this p :
  bytes_ok p -> kLength <= len p ->
  exists x, Parse this p kLength = Some (true, x) /\ valid x.
Proof.
  intros Hb Hl. unfold kLength in Hl. unfold Parse. cbn [Z.ltb Z.compare kLength].
  read_safe. eexists. split; [done|]. by split.
Qed.

End ReportBlock.

Module SenderReport.

Definition kPacketType : Z := 200.
Definition kMaxNumberOfReportBlocks : Z := 0x1f.
Definition kSenderBaseLength : Z := 24.

Record t := Sr {
  sender_ssrc : Z;
  ntp : NtpTime.t;
  rtp_timestamp : Z;
  sender_packet_count : Z;
  sender_octet_count : Z;
  report_blocks : list ReportBlock.t
}.

Definition init : t := Sr 0 (NtpTime.Ntp 0) 0 0 0 [].

Definition SetSenderSsrc (this : t) (ssrc : Z) : t :=
  Sr ssrc (ntp this) (rtp_timestamp this) (sender_packet_count this) (sender_octet_count this)
    (report_blocks this).

Definition SetNtp (this : t) (v : NtpTime.t) : t :=
  Sr (sender_ssrc this) v (rtp_timestamp this) (sender_packet_count this)
    (sender_octet_count this) (report_blocks this).

Definition SetRtpTimestamp (this : t) (v : Z) : t :=
  Sr (sender_ssrc this) (ntp this) v (sender_packet_count this) (sender_octet_count this)
    (report_blocks this).

Definition SetPacketCount (this : t) (v : Z) : t :=
  Sr (sender_ssrc this) (ntp this) (rtp_timestamp this) v (sender_octet_count this)
    (report_blocks this).

Definition SetOctetCount (this : t) (v : Z) : t :=
  Sr (sender_ssrc this) (ntp this) (rtp_timestamp this) (sender_packet_count this) v
    (report_blocks this).

Definition with_blocks (this : t) (blocks : list ReportBlock.t) : t :=
  Sr (sender_ssrc this) (ntp this) (rtp_timestamp this) (sender_packet_count this)
    (sender_octet_count this) blocks.

Definition AddReportBlock (this : t) (block : ReportBlock.t) : bool * t :=
  if kMaxNumberOfReportBlocks <=? len (report_blocks this) then (false, this)
  else (true, with_blocks this (report_blocks this ++ [block])).

Definition SetReportBlocks (this : t) (blocks : list ReportBlock.t) : bool * t :=
  if kMaxNumberOfReportBlocks <? len blocks then (false, this)
  else (true, with_blocks this blocks).

Definition ClearReportBlocks (this : t) : t := with_blocks this [].

(** [bool block_parsed = block.Parse(next_block, kLength); RTC_DCHECK(block_parsed);] *)
Definition parse_block (next_block : list Z) : option ReportBlock.t :=
  '(block_parsed, block) ← ReportBlock.Parse ReportBlock.init next_block ReportBlock.kLength;
  check block_parsed ;; Some block.

Definition Parse (this : t) (packet : CommonHeader.t) : option (bool * t) :=
  check (CommonHeader.type packet =? kPacketType) ;;
  let report_block_count := CommonHeader.count packet in
  if CommonHeader.payload_size_bytes packet <?
     kSenderBaseLength + report_block_count * ReportBlock.kLength then Some (false, this) else
  let payload := CommonHeader.payload packet in
  ssrc ← ReadBigEndian 32 4 (ptr_add payload 0);
  secs ← ReadBigEndian 32 4 (ptr_add payload 4);
  frac ← ReadBigEndian 32 4 (ptr_add payload 8);
  rtp_timestamp ← ReadBigEndian 32 4 (ptr_add payload 12);
  sender_packet_count ← ReadBigEndian 32 4 (ptr_add payload 16);
  sender_octet_count ← ReadBigEndian 32 4 (ptr_add payload 20);
  blocks ← parse_items parse_block ReportBlock.kLength (Z.to_nat report_block_count)
             (ptr_add payload kSenderBaseLength);
  check (kSenderBaseLength + report_block_count * ReportBlock.kLength <=?
         CommonHeader.payload_size_bytes packet) ;;
  Some (true, Sr ssrc (NtpTime.Set_ secs frac) rtp_timestamp sender_packet_count
                sender_octet_count blocks).

Definition BlockLength (this : t) : Z :=
  kHeaderLength + kSenderBaseLength + len (report_blocks this) * ReportBlock.kLength.

Definition body (this : t) : W unit :=
  with_index_end (BlockLength this) (fun _ =>
    (length ← HeaderLength (BlockLength this);
     CreateHeader (len (report_blocks this)) kPacketType length false) ;;
    (at_index 0 (fun p => WriteBigEndian 4 p (sender_ssrc this)) ;;
     at_index 4 (fun p => WriteBigEndian 4 p (NtpTime.seconds (ntp this))) ;;
     at_index 8 (fun p => WriteBigEndian 4 p (NtpTime.fractions (ntp this))) ;;
     at_index 12 (fun p => WriteBigEndian 4 p (rtp_timestamp this)) ;;
     at_index 16 (fun p => WriteBigEndian 4 p (sender_packet_count this)) ;;
     at_index 20 (fun p => WriteBigEndian 4 p (sender_octet_count this))) ;;
    advance kSenderBaseLength ;;
    for_each (report_blocks this) (fun block =>
      at_index 0 (ReportBlock.Create block) ;; advance ReportBlock.kLength)).

Definition Create (this : t) (max_length : Z) (callback : bool) : W bool :=
  room ← make_room 2 (BlockLength this) max_length callback;
  if room : bool then body this ;; mret true else mret false.

#[global] Instance ops : RtcpPacketOps t := Build_RtcpPacketOps t BlockLength Create.

Record valid (x : t) : Prop := {
  valid_ssrc : in_u 32 (sender_ssrc x);
  valid_ntp : in_u 64 (NtpTime.value (ntp x));
  valid_rtp : in_u 32 (rtp_timestamp x);
  valid_packets : in_u 32 (sender_packet_count x);
  valid_octets : in_u 32 (sender_octet_count x);
  valid_count : len (report_blocks x) <= kMaxNumberOfReportBlocks;
  valid_blocks : Forall ReportBlock.valid (report_blocks x)
}.

Definition payload_wire (x : t) : list Z :=
  (be_bytes 4 (sender_ssrc x) ++ be_bytes 4 (NtpTime.seconds (ntp x)) ++
   be_bytes 4 (NtpTime.fractions (ntp x)) ++ be_bytes 4 (rtp_timestamp x) ++
   be_bytes 4 (sender_packet_count x) ++ be_bytes 4 (sender_octet_count x)) ++
  mjoin (ReportBlock.wire <$> report_blocks x).

Definition wire (x : t) : list Z :=
  header_wire (len (report_blocks x)) kPacketType (6 + 6 * len (report_blocks x)) false ++
  payload_wire x.

Lemma len_blocks x : len (mjoin (ReportBlock.wire <$> report_blocks x)) = 24 * len (report_blocks x).
Proof. apply len_items. intros. apply ReportBlock.ReportBlock_len_wire. Qed.

Lemma SenderReport_len_payload_wire x : len (payload_wire x) = 24 + 24 * len (report_blocks x).
Proof. unfold payload_wire. rewrite len_app, len_blocks. len_simpl. zconst. lia. Qed.

Lemma SenderReport_appends_body x : valid x -> appends (body x) (wire x).
Proof.
  intros []. unfold body, kMaxNumberOfReportBlocks in *.
  pose proof (len_nonneg (report_blocks x)). apply RoomFacts.appends_index_end.
  2:{ unfold wire. rewrite len_app, SenderReport_len_payload_wire, len_header_wire.
      unfold BlockLength, kHeaderLength, kSenderBaseLength, ReportBlock.kLength. lia. }
  intros _. eapply RoomFacts.appends_header; [lia|by_compute| | | |reflexivity].
  - unfold BlockLength, kHeaderLength, kSenderBaseLength, ReportBlock.kLength. lia.
  - unfold in_u. cbn. lia.
  - eapply appends_writes_then; [writes_chain|done| |reflexivity].
    apply appends_for_each. intros b Hb.
    apply appends_writes; [|done]. apply writes_at_index. intros p.
    apply ReportBlock.ReportBlock_stores_Create. by eapply Forall_forall in Hb.
Qed.

Lemma SenderReport_behaves_valid x : valid x -> behaves x (wire x) (eq (wire x)) (Rtcp.BlockLength x).
Proof.
  intros Hx. pose proof (len_nonneg (report_blocks x)).
  apply (simple_behaves body); [done|by apply SenderReport_appends_body| |].
  - unfold wire. rewrite len_app, SenderReport_len_payload_wire, len_header_wire.
    cbn. unfold BlockLength, kHeaderLength, kSenderBaseLength, ReportBlock.kLength. lia.
  - cbn. unfold BlockLength, kHeaderLength, kSenderBaseLength, ReportBlock.kLength. lia.
Qed.

#[global] Instance laws : RtcpPacketLaws t :=
  Build_RtcpPacketLaws t _ valid wire (fun x => eq (wire x)) Rtcp.BlockLength SenderReport_behaves_valid.

Lemma parse_block_wire b r : ReportBlock.valid b -> parse_block (ReportBlock.wire b ++ r) = Some b.
Proof. intros. unfold parse_block. by rewrite ReportBlock.ReportBlock_Parse_wire. Qed.

(** Parsing the payload [Create] wrote, whatever follows it in memory. *)
Lemma SenderReport_Parse_wire this x rest n :
  valid x -> n = 24 + 24 * len (report_blocks x) ->
  Parse this (CommonHeader.Header kPacketType (len (report_blocks x)) 0 n (payload_wire x ++ rest))
    = Some (true, x).
Proof.
  intros [] ->. unfold Parse. cbn [CommonHeader.type CommonHeader.packet_type CommonHeader.count
    CommonHeader.count_or_format CommonHeader.payload_size_bytes CommonHeader.payload_size
    CommonHeader.payload].
  change (check (kPacketType =? kPacketType)) with (Some tt). cbn [mbind option_bind].
  unfold kSenderBaseLength, ReportBlock.kLength. pose proof (len_nonneg (report_blocks x)).
  pose proof (NtpTime.seconds_range _ valid_ntp0) as [Hs Hf].
  replace (_ <? _) with false by (symmetry; apply Z.ltb_ge; lia).
  replace (_ <=? _) with true by (symmetry; apply Z.leb_le; lia).
  unfold payload_wire. read_wire.
  replace (Z.to_nat (len (report_blocks x))) with (length (report_blocks x)) by (unfold len; lia).
  rewrite parse_items_wire.
  - cbn [mbind option_bind check]. rewrite NtpTime.Set_seconds by done. by destruct x.
  - intros b r Hb. apply parse_block_wire. by eapply Forall_forall in Hb.
  - intros. apply ReportBlock.ReportBlock_len_wire.
Qed.

(** [Parse] on an arbitrary payload reads inside it, and what it accepts is valid. *)
Lemma SenderReport_Parse_safe this h :
  CommonHeader.type h = kPacketType -> 0 <= CommonHeader.count h < 32 ->
  bytes_ok (CommonHeader.payload h) -> CommonHeader.payload_size h <= len (CommonHeader.payload h) ->
  exists r x, Parse this h = Some (r, x) /\ (if r then valid x else x = this).
Proof.
  intros Ht Hc Hb Hl. unfold Parse. rewrite Ht.
  change (check (kPacketType =? kPacketType)) with (Some tt).
  cbn [mbind option_bind]. unfold CommonHeader.payload_size_bytes.
  unfold kSenderBaseLength, ReportBlock.kLength.
  destruct (Z.ltb_spec (CommonHeader.payload_size h) (24 + CommonHeader.count h * 24)).
  { by eexists _, _. }
  read_safe.
  destruct (parse_items_safe parse_block 24 ReportBlock.valid (Z.to_nat (CommonHeader.count h))
              (ptr_add (CommonHeader.payload h) 24)) as (l & -> & Hn & Hlv).
  - lia.
  - intros q Hq Hlq. unfold parse_block.
    destruct (ReportBlock.ReportBlock_Parse_safe ReportBlock.init q Hq Hlq) as (b & -> & Hbv). by exists b.
  - by apply bytes_ok_ptr_add.
  - rewrite len_ptr_add by lia. lia.
  - cbn [mbind option_bind]. replace (_ <=? _) with true by (symmetry; apply Z.leb_le; lia).
    eexists _, _. split; [done|]. split; cbn; try done.
    + apply NtpTime.Set_range.
    + unfold kMaxNumberOfReportBlocks, len. lia.
Qed.

End SenderReport.

Module ReceiverReport.

Definition kPacketType : Z := 201.
Definition kMaxNumberOfReportBlocks : Z := 0x1f.
Definition kRrBaseLength : Z := 4.

Record t := Rr {
  sender_ssrc : Z;
  report_blocks : list ReportBlock.t
}.

Definition init : t := Rr 0 [].

Definition SetSenderSsrc (this : t) (ssrc : Z) : t := Rr ssrc (report_blocks this).

Definition AddReportBlock (this : t) (block : ReportBlock.t) : bool * t :=
  if kMaxNumberOfReportBlocks <=? len (report_blocks this) then (false, this)
  else (true, Rr (sender_ssrc this) (report_blocks this ++ [block])).

Definition SetReportBlocks (this : t) (blocks : list ReportBlock.t) : bool * t :=
  if kMaxNumberOfReportBlocks <? len blocks then (false, this)
  else (true, Rr (sender_ssrc this) blocks).

(** [block.Parse(next_report_block, ReportBlock::kLength);], the result ignored. *)
Definition parse_block (next_block : list Z) : option ReportBlock.t :=
  snd <$> ReportBlock.Parse ReportBlock.init next_block ReportBlock.kLength.

Definition Parse (this : t) (packet : CommonHeader.t) : option (bool * t) :=
  check (CommonHeader.type packet =? kPacketType) ;;
  let report_blocks_count := CommonHeader.count packet in
  if CommonHeader.payload_size_bytes packet <?
     kRrBaseLength + report_blocks_count * ReportBlock.kLength then Some (false, this) else
  ssrc ← ReadBigEndian 32 4 (CommonHeader.payload packet);
  blocks ← parse_items parse_block ReportBlock.kLength (Z.to_nat report_blocks_count)
             (ptr_add (CommonHeader.payload packet) kRrBaseLength);
  check (kRrBaseLength + report_blocks_count * ReportBlock.kLength <=?
         CommonHeader.payload_size_bytes packet) ;;
  Some (true, Rr ssrc blocks).

Definition BlockLength (this : t) : Z :=
  kHeaderLength + kRrBaseLength + len (report_blocks this) * ReportBlock.kLength.

Definition body (this : t) : W unit :=
  (length ← HeaderLength (BlockLength this);
   CreateHeader (len (report_blocks this)) kPacketType length false) ;;
  at_index 0 (fun p => WriteBigEndian 4 p (sender_ssrc this)) ;;
  advance kRrBaseLength ;;
  for_each (report_blocks this) (fun block =>
    at_index 0 (ReportBlock.Create block) ;; advance ReportBlock.kLength).

Definition Create (this : t) (max_length : Z) (callback : bool) : W bool :=
  room ← make_room 2 (BlockLength this) max_length callback;
  if room : bool then body this ;; mret true else mret false.

#[global] Instance ops : RtcpPacketOps t := Build_RtcpPacketOps t BlockLength Create.

Record valid (x : t) : Prop := {
  valid_ssrc : in_u 32 (sender_ssrc x);
  valid_count : len (report_blocks x) <= kMaxNumberOfReportBlocks;
  valid_blocks : Forall ReportBlock.valid (report_blocks x)
}.

Definition payload_wire (x : t) : list Z :=
  be_bytes 4 (sender_ssrc x) ++ mjoin (ReportBlock.wire <$> report_blocks x).

Definition wire (x : t) : list Z :=
  header_wire (len (report_blocks x)) kPacketType (1 + 6 * len (report_blocks x)) false ++
  payload_wire x.

Lemma ReceiverReport_len_payload_wire x : len (payload_wire x) = 4 + 24 * len (report_blocks x).
Proof.
  unfold payload_wire. rewrite len_app, (len_items _ _ 24) by (intros; apply ReportBlock.ReportBlock_len_wire).
  len_simpl. zconst. lia.
Qed.

Lemma ReceiverReport_appends_body x : valid x -> appends (body x) (wire x).
Proof.
  intros []. unfold body, kMaxNumberOfReportBlocks in *.
  pose proof (len_nonneg (report_blocks x)).
  eapply RoomFacts.appends_header; [lia|by_compute| | | |reflexivity].
  - unfold BlockLength, kHeaderLength, kRrBaseLength, ReportBlock.kLength. lia.
  - unfold in_u. cbn. lia.
  - eapply appends_writes_then; [writes_chain|done| |reflexivity].
    apply appends_for_each. intros b Hb.
    apply appends_writes; [|done]. apply writes_at_index. intros p.
    apply ReportBlock.ReportBlock_stores_Create. by eapply Forall_forall in Hb.
Qed.

Lemma ReceiverReport_behaves_valid x : valid x -> behaves x (wire x) (eq (wire x)) (Rtcp.BlockLength x).
Proof.
  intros Hx. pose proof (len_nonneg (report_blocks x)).
  apply (simple_behaves body); [done|by apply ReceiverReport_appends_body| |].
  - unfold wire. rewrite len_app, ReceiverReport_len_payload_wire, len_header_wire.
    cbn. unfold BlockLength, kHeaderLength, kRrBaseLength, ReportBlock.kLength. lia.
  - cbn. unfold BlockLength, kHeaderLength, kRrBaseLength, ReportBlock.kLength. lia.
Qed.

#[global] Instance laws : RtcpPacketLaws t :=
  Build_RtcpPacketLaws t _ valid wire (fun x => eq (wire x)) Rtcp.BlockLength ReceiverReport_behaves_valid.

Lemma ReceiverReport_Parse_wire this x rest n :
  valid x -> n = 4 + 24 * len (report_blocks x) ->
  Parse this (CommonHeader.Header kPacketType (len (report_blocks x)) 0 n (payload_wire x ++ rest))
    = Some (true, x).
Proof.
  intros [] ->. unfold Parse. cbn [CommonHeader.type CommonHeader.packet_type CommonHeader.count
    CommonHeader.count_or_format CommonHeader.payload_size_bytes CommonHeader.payload_size
    CommonHeader.payload].
  change (check (kPacketType =? kPacketType)) with (Some tt). cbn [mbind option_bind].
  unfold kRrBaseLength, ReportBlock.kLength. pose proof (len_nonneg (report_blocks x)).
  replace (_ <? _) with false by (symmetry; apply Z.ltb_ge; lia).
  replace (_ <=? _) with true by (symmetry; apply Z.leb_le; lia).
  unfold payload_wire. read_wire.
  replace (Z.to_nat (len (report_blocks x))) with (length (report_blocks x)) by (unfold len; lia).
  rewrite parse_items_wire.
  - cbn [mbind option_bind check]. by destruct x.
  - intros b r Hb. unfold parse_block. rewrite ReportBlock.ReportBlock_Parse_wire; [done|].
    by eapply Forall_forall in Hb.
  - intros. apply ReportBlock.ReportBlock_len_wire.
Qed.

Lemma ReceiverReport_Parse_safe this h :
  CommonHeader.type h = kPacketType -> 0 <= CommonHeader.count h < 32 ->
  bytes_ok (CommonHeader.payload h) -> CommonHeader.payload_size h <= len (CommonHeader.payload h) ->
  exists r x, Parse this h = Some (r, x) /\ (if r then valid x else x = this).
Proof.
  intros Ht Hc Hb Hl. unfold Parse. rewrite Ht.
  change (check (kPacketType =? kPacketType)) with (Some tt).
  cbn [mbind option_bind]. unfold CommonHeader.payload_size_bytes.
  unfold kRrBaseLength, ReportBlock.kLength.
  destruct (Z.ltb_spec (CommonHeader.payload_size h) (4 + CommonHeader.count h * 24)).
  { by eexists _, _. }
  read_safe.
  destruct (parse_items_safe parse_block 24 ReportBlock.valid (Z.to_nat (CommonHeader.count h))
              (ptr_add (CommonHeader.payload h) 4)) as (l & -> & Hn & Hlv).
  - lia.
  - intros q Hq Hlq. unfold parse_block.
    destruct (ReportBlock.ReportBlock_Parse_safe ReportBlock.init q Hq Hlq) as (b & -> & Hbv). by exists b.
  - by apply bytes_ok_ptr_add.
  - rewrite len_ptr_add by lia. lia.
  - cbn [mbind option_bind]. replace (_ <=? _) with true by (symmetry; apply Z.leb_le; lia).
    eexists _, _. split; [done|]. split; cbn; try done.
    unfold kMaxNumberOfReportBlocks, len. lia.
Qed.

End ReceiverReport.

(** ** The objects the public operations produce *)

Inductive block_reachable : ReportBlock.t -> Prop :=
| block_init : block_reachable ReportBlock.init
| block_ssrc x v : block_reachable x -> in_u 32 v -> block_reachable (ReportBlock.SetMediaSsrc x v)
| block_fraction x v : block_reachable x -> byte_ok v -> block_reachable (ReportBlock.SetFractionLost x v)
| block_lost x v : block_reachable x -> in_s 32 v -> block_reachable (ReportBlock.SetCumulativeLost x v).2
| block_seq x v : block_reachable x -> in_u 32 v -> block_reachable (ReportBlock.SetExtHighestSeqNum x v)
| block_jitter x v : block_reachable x -> in_u 32 v -> block_reachable (ReportBlock.SetJitter x v)
| block_last_sr x v : block_reachable x -> in_u 32 v -> block_reachable (ReportBlock.SetLastSr x v)
| block_delay x v : block_reachable x -> in_u 32 v -> block_reachable (ReportBlock.SetDelayLastSr x v).

Inductive sr_reachable : SenderReport.t -> Prop :=
| sr_init : sr_reachable SenderReport.init
| sr_ssrc x v : sr_reachable x -> in_u 32 v -> sr_reachable (SenderReport.SetSenderSsrc x v)
| sr_ntp x v : sr_reachable x -> in_u 64 (NtpTime.value v) -> sr_reachable (SenderReport.SetNtp x v)
| sr_rtp x v : sr_reachable x -> in_u 32 v -> sr_reachable (SenderReport.SetRtpTimestamp x v)
| sr_packets x v : sr_reachable x -> in_u 32 v -> sr_reachable (SenderReport.SetPacketCount x v)
| sr_octets x v : sr_reachable x -> in_u 32 v -> sr_reachable (SenderReport.SetOctetCount x v)
| sr_add x b : sr_reachable x -> block_reachable b -> sr_reachable (SenderReport.AddReportBlock x b).2
| sr_set x l : sr_reachable x -> Forall block_reachable l -> sr_reachable (SenderReport.SetReportBlocks x l).2
| sr_clear x : sr_reachable x -> sr_reachable (SenderReport.ClearReportBlocks x)
| sr_parse x h r y :
    sr_reachable x -> header_ok h -> SenderReport.Parse x h = Some (r, y) -> sr_reachable y.

Inductive rr_reachable : ReceiverReport.t -> Prop :=
| rr_init : rr_reachable ReceiverReport.init
| rr_ssrc x v : rr_reachable x -> in_u 32 v -> rr_reachable (ReceiverReport.SetSenderSsrc x v)
| rr_add x b : rr_reachable x -> block_reachable b -> rr_reachable (ReceiverReport.AddReportBlock x b).2
| rr_set x l : rr_reachable x -> Forall block_reachable l -> rr_reachable (ReceiverReport.SetReportBlocks x l).2
| rr_parse x h r y :
    rr_reachable x -> header_ok h -> ReceiverReport.Parse x h = Some (r, y) -> rr_reachable y.

Lemma block_reachable_valid x : block_reachable x -> ReportBlock.valid x.
Proof.
  induction 1 as [|x v _ []|x v _ []|x v _ [] Hv|x v _ []|x v _ []|x v _ []|x v _ []];
    try (by split).
  unfold ReportBlock.SetCumulativeLost. destruct (_ || _) eqn:E; [by split|]. bool_prop.
  split; cbn; try done.
Qed.

Lemma SenderReport_safe :
  safe_parser (fun h => CommonHeader.type h = 200) SenderReport.Parse SenderReport.valid eq.
Proof.
  intros this h [] Ht.
  destruct (SenderReport.SenderReport_Parse_safe this h) as (r & x & Hp & Hr); [done..|lia|].
  exists r, x. destruct r; done.
Qed.

Lemma ReceiverReport_safe :
  safe_parser (fun h => CommonHeader.type h = 201) ReceiverReport.Parse ReceiverReport.valid eq.
Proof.
  intros this h [] Ht.
  destruct (ReceiverReport.ReceiverReport_Parse_safe this h) as (r & x & Hp & Hr); [done..|lia|].
  exists r, x. destruct r; done.
Qed.

Lemma sr_reachable_valid x : sr_reachable x -> SenderReport.valid x.
Proof.
  induction 1 as [|x v _ []|x v _ []|x v _ []|x v _ []|x v _ []|x b _ [] Hb|x l _ [] Hl|x _ []
                 |x h r y _ IH Hh Hp]; try (by split).
  - unfold SenderReport.AddReportBlock. destruct (Z.leb_spec SenderReport.kMaxNumberOfReportBlocks
      (len (SenderReport.report_blocks x))); [by split|].
    split; cbn; try done; [len_simpl; lia|].
    apply Forall_app. split; [done|]. constructor; [by apply block_reachable_valid|constructor].
  - unfold SenderReport.SetReportBlocks.
    destruct (Z.ltb_spec SenderReport.kMaxNumberOfReportBlocks (len l)); [by split|].
    split; cbn; try done. eapply Forall_impl; [done|]. apply block_reachable_valid.
  - eapply safe_parser_invariant; [apply SenderReport_safe| |done..].
    intros z Hz. apply check_Some in Hz as [Hz _]. by bool_prop.
Qed.

Lemma rr_reachable_valid x : rr_reachable x -> ReceiverReport.valid x.
Proof.
  induction 1 as [|x v _ []|x b _ [] Hb|x l _ [] Hl|x h r y _ IH Hh Hp]; try (by split).
  - unfold ReceiverReport.AddReportBlock. destruct (Z.leb_spec ReceiverReport.kMaxNumberOfReportBlocks
      (len (ReceiverReport.report_blocks x))); [by split|].
    split; cbn; try done; [len_simpl; lia|].
    apply Forall_app. split; [done|]. constructor; [by apply block_reachable_valid|constructor].
  - unfold ReceiverReport.SetReportBlocks.
    destruct (Z.ltb_spec ReceiverReport.kMaxNumberOfReportBlocks (len l)); [by split|].
    split; cbn; try done. eapply Forall_impl; [done|]. apply block_reachable_valid.
  - eapply safe_parser_invariant; [apply ReceiverReport_safe| |done..].
    intros z Hz. apply check_Some in Hz as [Hz _]. by bool_prop.
Qed.

Lemma SenderReport_roundtrip x : SenderReport.valid x -> round_trips SenderReport.Parse x x.
Proof.
  intros Hx.
  pose proof (SenderReport.SenderReport_len_payload_wire x). pose proof (SenderReport.valid_count x Hx).
  pose proof (len_nonneg (SenderReport.report_blocks x)).
  unfold SenderReport.kMaxNumberOfReportBlocks in *.
  eapply round_trips_wire; [by apply SenderReport.SenderReport_behaves_valid|reflexivity|lia|lia|by_compute| |].
  - unfold in_u. cbn. lia.
  - intros. apply SenderReport.SenderReport_Parse_wire; [done|lia].
Qed.

Lemma ReceiverReport_roundtrip x : ReceiverReport.valid x -> round_trips ReceiverReport.Parse x x.
Proof.
  intros Hx.
  pose proof (ReceiverReport.ReceiverReport_len_payload_wire x). pose proof (ReceiverReport.valid_count x Hx).
  pose proof (len_nonneg (ReceiverReport.report_blocks x)).
  unfold ReceiverReport.kMaxNumberOfReportBlocks in *.
  eapply round_trips_wire; [by apply ReceiverReport.ReceiverReport_behaves_valid|reflexivity|lia|lia|by_compute| |].
  - unfold in_u. cbn. lia.
  - intros. apply ReceiverReport.ReceiverReport_Parse_wire; [done|lia].
Qed.

(** ** Properties *)

(** C25: every sender report or receiver report that its constructor, setters and parser can
    produce survives the wire: [Build] succeeds and fills its buffer exactly, the common header
    parser accepts the bytes and finds the next packet of the datagram behind them, and [Parse]
    restores every field and every report block, whatever object it is called on. *)
Theorem reports_roundtrip :
  (forall x, sr_reachable x -> round_trips SenderReport.Parse x x) /\
  (forall x, rr_reachable x -> round_trips ReceiverReport.Parse x x).
Proof.
  split; intros x Hx.
  - by apply SenderReport_roundtrip, sr_reachable_valid.
  - by apply ReceiverReport_roundtrip, rr_reachable_valid.
Qed.

Lemma reports_roundtrip_witness :
  let block := ReportBlock.Block 0 0 (-7) 0 0 0 0 in
  round_trips SenderReport.Parse
    (SenderReport.Sr 1 (NtpTime.Ntp 0xfedcba9876543210) 0 0 0 [block])
    (SenderReport.Sr 1 (NtpTime.Ntp 0xfedcba9876543210) 0 0 0 [block]) /\
  round_trips ReceiverReport.Parse (ReceiverReport.Rr 5 [block]) (ReceiverReport.Rr 5 [block]).
Proof.
  intros block.
  assert (Hb : block_reachable block).
  { apply (block_lost ReportBlock.init (-7)); [apply block_init|by_compute]. }
  destruct reports_roundtrip as [Hs Hr]. split.
  - apply Hs. apply (sr_add (SenderReport.Sr 1 (NtpTime.Ntp 0xfedcba9876543210) 0 0 0 []) block); [|done].
    apply (sr_ntp (SenderReport.Sr 1 (NtpTime.Ntp 0) 0 0 0 [])); [|by_compute].
    apply (sr_ssrc SenderReport.init); [apply sr_init|by_compute].
  - apply Hr. apply (rr_add (ReceiverReport.Rr 5 []) block); [|done].
    apply (rr_ssrc ReceiverReport.init); [apply rr_init|by_compute].
Defined.

(** [SenderReport::Parse] and [ReceiverReport::Parse] never read outside the payload and never
    fail a check, whatever the packet holds: a packet too short for the report blocks its header
    promises is refused with the object unchanged, and any other gives an object that satisfies
    the invariant. *)
Lemma reports_parse_safe :
  safe_parser (fun h => CommonHeader.type h = 200) SenderReport.Parse SenderReport.valid eq /\
  safe_parser (fun h => CommonHeader.type h = 201) ReceiverReport.Parse ReceiverReport.valid eq.
Proof. split; [apply SenderReport_safe|apply ReceiverReport_safe]. Qed.
