(* ===== verification/SourceDesc.v ===== *)
(** * Goodbye, application-defined and source description packets

    src/src/myrtc/rtp_rtcp/bye.{h,cc}, app.{h,cc} and sdes.{h,cc}.  Strings are lists of bytes. *)

From S2P Require Import Prelude Buffer ByteIo Rtcp Wire.
Import ByteReader ByteWriter RtcpPacket.

Module Bye.

Definition kPacketType : Z := 203.
Definition kMaxNumberOfCsrcs : Z := 0x1f - 1.

Record t := MkBye {
  sender_ssrc : Z;
  csrcs : list Z;
  reason : list Z
}.

Definition init : t := MkBye 0 [] [].

Definition SetSenderSsrc (this : t) (ssrc : Z) : t := MkBye ssrc (csrcs this) (reason this).

Definition SetCsrcs (this : t) (v : list Z) : bool * t :=
  if kMaxNumberOfCsrcs <? len v then (false, this)
  else (true, MkBye (sender_ssrc this) v (reason this)).

Definition SetReason (this : t) (v : list Z) : option t :=
  check (len v <=? 0xff) ;; Some (MkBye (sender_ssrc this) (csrcs this) v).

(** The reads after the sizes have been checked. *)
Definition copy_values (payload : list Z) (src_count : Z) (has_reason : bool) (reason_length : Z)
    : option (bool * t) :=
  '(ssrc, csrcs) ←
    (if src_count =? 0 then Some (0, [])
     else
       ssrc ← ReadBigEndian 32 4 payload;
       l ← parse_items (ReadBigEndian 32 4) 4 (Z.to_nat (src_count - 1)) (ptr_add payload 4);
       Some (ssrc, l));
  reason ← (if has_reason then read_bytes (ptr_add payload (4 * src_count + 1)) reason_length
            else Some []);
  Some (true, MkBye ssrc csrcs reason).

Definition Parse (this : t) (packet : CommonHeader.t) : option (bool * t) :=
  check (CommonHeader.type packet =? kPacketType) ;;
  let src_count := CommonHeader.count packet in
  let size := CommonHeader.payload_size_bytes packet in
  if size <? 4 * src_count then Some (false, this) else
  let payload := CommonHeader.payload packet in
  let has_reason := 4 * src_count <? size in
  if has_reason then
    reason_length ← byte_at payload (4 * src_count);
    if size - 4 * src_count <? 1 + reason_length then Some (false, this)
    else copy_values payload src_count true reason_length
  else copy_values payload src_count false 0.

Definition BlockLength (this : t) : Z :=
  let src_count := 1 + len (csrcs this) in
  let reason_size_in_32bits := if bool_decide (reason this = []) then 0 else len (reason this) / 4 + 1 in
  kHeaderLength + 4 * (src_count + reason_size_in_32bits).

Definition write_reason (reason : list Z) (index_end : Z) : W unit :=
  let reason_length := u8 (len reason) in
  push reason_length ;;
  (at_index 0 (fun p => memcpy p (take (Z.to_nat reason_length) reason)) ;;
   advance reason_length) ;;
  i ← get_index;
  let bytes_to_pad := u64 (index_end - i) in
  dcheck (bytes_to_pad <=? 3) ;;
  if 0 <? bytes_to_pad then
    at_index 0 (fun p => memset p 0 bytes_to_pad) ;; advance bytes_to_pad
  else mret tt.

Definition body (this : t) : W unit :=
  with_index_end (BlockLength this) (fun index_end =>
    (length ← HeaderLength (BlockLength this);
     CreateHeader (1 + len (csrcs this)) kPacketType length false) ;;
    (at_index 0 (fun p => WriteBigEndian 4 p (sender_ssrc this)) ;; advance 4) ;;
    for_each (csrcs this) (fun csrc =>
      at_index 0 (fun p => WriteBigEndian 4 p csrc) ;; advance 4) ;;
    if bool_decide (reason this = []) then mret tt else write_reason (reason this) index_end).

Definition Create (this : t) (max_length : Z) (callback : bool) : W bool :=
  room ← make_room 2 (BlockLength this) max_length callback;
  if room : bool then body this ;; mret true else mret false.

#[global] Instance ops : RtcpPacketOps t := Build_RtcpPacketOps t BlockLength Create.

Record valid (x : t) : Prop := {
  valid_ssrc : in_u 32 (sender_ssrc x);
  valid_csrcs : Forall (in_u 32) (csrcs x);
  valid_count : len (csrcs x) <= kMaxNumberOfCsrcs;
  valid_reason : bytes_ok (reason x);
  valid_reason_size : len (reason x) <= 0xff
}.

(** The number of 32-bit words the reason takes, and its bytes with the padding. *)
Definition reason_words (x : t) : Z :=
  if bool_decide (reason x = []) then 0 else len (reason x) / 4 + 1.

Definition reason_wire (x : t) : list Z :=
  if bool_decide (reason x = []) then []
  else [len (reason x)] ++ reason x ++
       replicate (Z.to_nat (4 * (len (reason x) / 4 + 1) - (1 + len (reason x)))) 0.

Definition payload_wire (x : t) : list Z :=
  be_bytes 4 (sender_ssrc x) ++ mjoin (be_bytes 4 <$> csrcs x) ++ reason_wire x.

Definition wire (x : t) : list Z :=
  header_wire (1 + len (csrcs x)) kPacketType (1 + len (csrcs x) + reason_words x) false ++
  payload_wire x.

Lemma len_csrcs l : len (mjoin (be_bytes 4 <$> l)) = 4 * len l.
Proof. apply len_items. done. Qed.

Lemma len_reason_wire x : len (reason_wire x) = 4 * reason_words x.
Proof.
  unfold reason_wire, reason_words. case_bool_decide; [done|].
  len_simpl. pose proof (len_nonneg (reason x)). Z.to_euclidean_division_equations; lia.
Qed.

Lemma reason_words_range x : valid x -> 0 <= reason_words x <= 64.
Proof.
  intros []. unfold reason_words. pose proof (len_nonneg (reason x)).
  case_bool_decide; [lia|]. Z.to_euclidean_division_equations; lia.
Qed.

Lemma Bye_len_payload_wire x : len (payload_wire x) = 4 * (1 + len (csrcs x) + reason_words x).
Proof.
  unfold payload_wire. rewrite !len_app, len_csrcs, len_reason_wire, len_be_bytes. lia.
Qed.

Lemma appends_write_reason r start :
  bytes_ok r -> len r <= 0xff ->
  appends_from start (write_reason r (start + 4 * (len r / 4 + 1)))
    ([len r] ++ r ++ replicate (Z.to_nat (4 * (len r / 4 + 1) - (1 + len r))) 0).
Proof.
  intros Hr Hl. unfold write_reason. pose proof (len_nonneg r).
  assert (Hu : u8 (len r) = len r) by (apply wrap_small; unfold in_u; cbn; lia). rewrite Hu.
  assert (Hpad : 0 <= 4 * (len r / 4 + 1) - (1 + len r) <= 3)
    by (Z.to_euclidean_division_equations; lia).
  eapply appends_from_seq; [apply appends_push_byte; unfold byte_ok; lia| |reflexivity].
  eapply appends_from_seq; [apply (appends_writes _ _ r)| |reflexivity].
  { apply writes_at_index. intros. rewrite firstn_all2 by (unfold len; lia).
    by apply stores_memcpy. }
  { done. }
  apply appends_from_get, appends_from_any. len_simpl.
  replace (start + 4 * (len r / 4 + 1) - (start + (1 + 0) + len r))
    with (4 * (len r / 4 + 1) - (1 + len r)) by lia.
  set (pad := 4 * (len r / 4 + 1) - (1 + len r)) in *.
  rewrite (wrap_small 64) by (unfold in_u; cbn; lia).
  apply appends_dcheck; [apply Z.leb_le; lia|].
  destruct (Z.ltb_spec 0 pad) as [Hp|Hp].
  - apply appends_writes; [|rewrite len_replicate; lia].
    apply writes_at_index. intros. by apply stores_memset.
  - replace pad with 0 by lia. apply appends_ret.
Qed.

Lemma Bye_BlockLength_words x : BlockLength x = 4 + 4 * (1 + len (csrcs x) + reason_words x).
Proof. done. Qed.

Lemma Bye_appends_body x : valid x -> appends (body x) (wire x).
Proof.
  intros Hx. pose proof (reason_words_range x Hx). destruct Hx.
  pose proof (len_nonneg (csrcs x)). unfold kMaxNumberOfCsrcs in *.
  apply RoomFacts.appends_index_end_from.
  2:{ unfold wire. rewrite len_app, Bye_len_payload_wire, len_header_wire. done. }
  intros start. eapply RoomFacts.appends_from_header; [lia|by_compute| | | |reflexivity].
  - apply Bye_BlockLength_words.
  - unfold in_u. cbn. lia.
  - eapply appends_from_seq; [|eapply appends_from_seq|reflexivity].
    + apply appends_writes; [writes_chain|done].
    + apply appends_for_each. intros c _. apply appends_writes; [writes_chain|done].
    + rewrite len_csrcs, len_be_bytes, Bye_BlockLength_words. instantiate (1 := reason_wire x).
      unfold reason_wire, reason_words. case_bool_decide; [apply appends_from_any, appends_ret|].
      replace (start + (4 + 4 * (1 + len (csrcs x) + (len (reason x) / 4 + 1))))
        with (start + 4 + Z.of_nat 4 + 4 * len (csrcs x) + 4 * (len (reason x) / 4 + 1)) by lia.
      by apply appends_write_reason.
    + done.
Qed.

Lemma Bye_behaves_valid x : valid x -> behaves x (wire x) (eq (wire x)) (Rtcp.BlockLength x).
Proof.
  intros Hx. pose proof (reason_words_range x Hx). pose proof (len_nonneg (csrcs x)).
  apply (simple_behaves body); [done|by apply Bye_appends_body| |].
  - unfold wire. rewrite len_app, Bye_len_payload_wire, len_header_wire. done.
  - change (0 < BlockLength x). rewrite Bye_BlockLength_words. lia.
Qed.

#[global] Instance laws : RtcpPacketLaws t :=
  Build_RtcpPacketLaws t _ valid wire (fun x => eq (wire x)) Rtcp.BlockLength Bye_behaves_valid.

(** The reads of [copy_values] on the payload [Create] wrote. *)
Lemma copy_values_wire x rest :
  valid x -> copy_values (payload_wire x ++ rest) (1 + len (csrcs x)) (negb (bool_decide (reason x = [])))
    (len (reason x)) = Some (true, x).
Proof.
  intros []. pose proof (len_nonneg (csrcs x)). unfold copy_values. ztests.
  unfold payload_wire. read_wire.
  replace (Z.to_nat (1 + len (csrcs x) - 1)) with (length (csrcs x)) by (unfold len; lia).
  rewrite parse_items_wire; [|intros c r Hc; apply ReadBigEndian_bytes; [lia|by eapply Forall_forall in Hc]|done].
  cbn [mbind option_bind].
  replace (4 * (1 + len (csrcs x)) + 1 - 4) with (4 * len (csrcs x) + 1) by lia.
  rewrite ptr_add_app_ge by (rewrite len_csrcs; lia). rewrite len_csrcs.
  replace (4 * len (csrcs x) + 1 - _) with 1 by lia.
  unfold reason_wire. destruct (bool_decide_reflect (reason x = [])) as [He|He].
  - cbn. rewrite <- He. by destruct x.
  - cbn [negb app]. change (ptr_add (?a :: ?l) 1) with l. rewrite <- app_assoc, read_bytes_app by done.
    by destruct x.
Qed.

Lemma Bye_Parse_wire this x rest :
  valid x ->
  Parse this (CommonHeader.Header kPacketType (1 + len (csrcs x)) 0
    (4 * (1 + len (csrcs x) + reason_words x)) (payload_wire x ++ rest)) = Some (true, x).
Proof.
  intros Hx. pose proof (copy_values_wire x rest Hx) as Hc.
  pose proof (reason_words_range x Hx). pose proof (len_nonneg (reason x)).
  unfold Parse. hdr. rewrite Z.eqb_refl. cbn [check mbind option_bind].
  ztest (4 * (1 + len (csrcs x) + reason_words x) <? 4 * (1 + len (csrcs x))) false.
  unfold reason_words in *. destruct (bool_decide_reflect (reason x = [])) as [He|He].
  - ztests. rewrite He in Hc. done.
  - assert (Hb : byte_at (payload_wire x ++ rest) (4 * (1 + len (csrcs x))) = Some (len (reason x))).
    { unfold payload_wire. rewrite <- !app_assoc, byte_at_app_ge, byte_at_app_ge
        by (rewrite ?len_csrcs, ?len_be_bytes; pose proof (len_nonneg (csrcs x)); lia).
      rewrite len_csrcs, len_be_bytes. replace (_ - _ - _) with 0 by lia.
      unfold reason_wire. by rewrite bool_decide_eq_false_2. }
    rewrite Hb. cbn [mbind option_bind]. 
    replace (4 * (1 + len (csrcs x)) <? _) with true
      by (symmetry; apply Z.ltb_lt; Z.to_euclidean_division_equations; lia).
    replace (_ <? 1 + len (reason x)) with false; [done|].
    symmetry. apply Z.ltb_ge. Z.to_euclidean_division_equations; lia.
Qed.

Lemma copy_values_safe payload n (has_reason : bool) r :
  bytes_ok payload -> 0 <= n < 32 -> 0 <= r <= 0xff ->
  4 * n + (if has_reason then 1 + r else 0) <= len payload ->
  exists x, copy_values payload n has_reason r = Some (true, x) /\ valid x.
Proof.
  intros Hb Hn Hr Hl. unfold copy_values.
  assert (Hs : exists ssrc l, (if n =? 0 then Some (0, [])
     else ssrc ← ReadBigEndian 32 4 payload;
       l ← parse_items (ReadBigEndian 32 4) 4 (Z.to_nat (n - 1)) (ptr_add payload 4);
       Some (ssrc, l)) = Some (ssrc, l) /\ in_u 32 ssrc /\ Forall (in_u 32) l /\ len l <= 30).
  { destruct (Z.eqb_spec n 0) as [->|Hn0].
    - exists 0, []. split; [done|]. split; [by_compute|done].
    - assert (4 <= len payload) by (destruct has_reason; lia). read_safe.
      destruct (parse_items_safe (ReadBigEndian 32 4) 4 (in_u 32) (Z.to_nat (n - 1)) (ptr_add payload 4))
        as (l & -> & Hll & Hlf).
      + lia.
      + intros q Hq Hq4. destruct (ReadBigEndian_Some 32 4 q) as (v' & -> & Hv'); [lia|done|lia|].
        by exists v'.
      + by apply bytes_ok_ptr_add.
      + rewrite len_ptr_add; destruct has_reason; lia.
      + eexists _, _. split; [done|]. split; [done|]. split; [done|]. unfold len. lia. }
  destruct Hs as (ssrc & l & -> & Hss & Hlf & Hll). cbn [mbind option_bind].
  destruct has_reason.
  - destruct (read_bytes_Some (ptr_add payload (4 * n + 1)) r) as (a & -> & Ha & Hal).
    + by apply bytes_ok_ptr_add.
    + rewrite len_ptr_add; lia.
    + eexists. split; [done|]. split; cbn; try done. lia.
  - eexists. split; [done|]. split; cbn; try done. constructor.
Qed.

Lemma Bye_Parse_safe : safe_parser (fun h => CommonHeader.type h = kPacketType) Parse valid eq.
Proof.
  intros this h [Hc Hb Hl _] Ht. unfold Parse. rewrite Ht, Z.eqb_refl. cbn [check mbind option_bind].
  unfold CommonHeader.payload_size_bytes.
  destruct (Z.ltb_spec (CommonHeader.payload_size h) (4 * CommonHeader.count h)); [by eexists _, _|].
  destruct (Z.ltb_spec (4 * CommonHeader.count h) (CommonHeader.payload_size h)).
  - read_safe. unfold byte_ok in Hv.
    destruct (Z.ltb_spec (CommonHeader.payload_size h - 4 * CommonHeader.count h) (1 + v)).
    + by eexists _, _.
    + destruct (copy_values_safe (CommonHeader.payload h) (CommonHeader.count h) true v)
        as (x & -> & Hx); [done|done|lia|lia|]. by eexists _, _.
  - destruct (copy_values_safe (CommonHeader.payload h) (CommonHeader.count h) false 0)
        as (x & -> & Hx); [done|done|lia|lia|]. by eexists _, _.
Qed.

Lemma Bye_roundtrip x : valid x -> round_trips Parse x x.
Proof.
  intros Hx. pose proof (reason_words_range x Hx). pose proof (len_nonneg (csrcs x)).
  pose proof (valid_count x Hx). unfold kMaxNumberOfCsrcs in *.
  eapply round_trips_wire; [by apply Bye_behaves_valid|reflexivity|apply Bye_len_payload_wire|lia|by_compute| |].
  - unfold in_u. cbn. lia.
  - intros. by apply Bye_Parse_wire.
Qed.

End Bye.

Module App.

Definition kPacketType : Z := 204.
Definition kAppBaseLength : Z := 8.
Definition kMaxDataSize : Z := 0xffff * 4 - kAppBaseLength.

Record t := MkApp {
  sender_ssrc : Z;
  sub_type : Z;
  name : Z;
  data : list Z
}.

Definition init : t := MkApp 0 0 0 [].

Definition SetSenderSsrc (this : t) (ssrc : Z) : t := MkApp ssrc (sub_type this) (name this) (data this).

Definition SetSubType (this : t) (subtype : Z) : option t :=
  check (subtype <=? 0x1f) ;; Some (MkApp (sender_ssrc this) subtype (name this) (data this)).

Definition SetName (this : t) (v : Z) : t := MkApp (sender_ssrc this) (sub_type this) v (data this).

Definition SetData (this : t) (v : list Z) : option t :=
  check (len v mod 4 =? 0) ;; check (len v <=? kMaxDataSize) ;;
  Some (MkApp (sender_ssrc this) (sub_type this) (name this) v).

(** [NameToInt]: four characters, the first in the most significant byte.  A [char] is signed on
    the supported targets, hence the conversion of each to [uint32_t]. *)
Definition NameToInt (n0 n1 n2 n3 : Z) : Z :=
  Z.lor (Z.lor (Z.lor (u32 (Z.shiftl (u32 n0) 24)) (u32 (Z.shiftl (u32 n1) 16)))
               (u32 (Z.shiftl (u32 n2) 8))) (u32 n3).

Definition Parse (this : t) (packet : CommonHeader.t) : option (bool * t) :=
  check (CommonHeader.type packet =? kPacketType) ;;
  let size := CommonHeader.payload_size_bytes packet in
  if size <? kAppBaseLength then Some (false, this) else
  if negb (size mod 4 =? 0) then Some (false, this) else
  let payload := CommonHeader.payload packet in
  ssrc ← ReadBigEndian 32 4 (ptr_add payload 0);
  name ← ReadBigEndian 32 4 (ptr_add payload 4);
  data ← read_bytes (ptr_add payload kAppBaseLength) (size - kAppBaseLength);
  Some (true, MkApp ssrc (CommonHeader.fmt packet) name data).

Definition BlockLength (this : t) : Z := kHeaderLength + kAppBaseLength + len (data this).

Definition body (this : t) : W unit :=
  with_index_end (BlockLength this) (fun _ =>
    (length ← HeaderLength (BlockLength this);
     CreateHeader (sub_type this) kPacketType length false) ;;
    (at_index 0 (fun p => WriteBigEndian 4 p (sender_ssrc this)) ;;
     at_index 4 (fun p => WriteBigEndian 4 p (name this)) ;;
     at_index 8 (fun p => memcpy p (data this))) ;;
    advance (8 + len (data this))).

Definition Create (this : t) (max_length : Z) (callback : bool) : W bool :=
  room ← make_room 2 (BlockLength this) max_length callback;
  if room : bool then body this ;; mret true else mret false.

#[global] Instance ops : RtcpPacketOps t := Build_RtcpPacketOps t BlockLength Create.

Record valid (x : t) : Prop := {
  valid_ssrc : in_u 32 (sender_ssrc x);
  valid_sub_type : 0 <= sub_type x <= 0x1f;
  valid_name : in_u 32 (name x);
  valid_data : bytes_ok (data x);
  valid_align : len (data x) mod 4 = 0;
  valid_size : len (data x) <= kMaxDataSize
}.

Definition payload_wire (x : t) : list Z :=
  be_bytes 4 (sender_ssrc x) ++ be_bytes 4 (name x) ++ data x.

Definition wire (x : t) : list Z :=
  header_wire (sub_type x) kPacketType (2 + len (data x) / 4) false ++ payload_wire x.

Lemma data_words x : valid x -> len (data x) = 4 * (len (data x) / 4) /\ in_u 16 (2 + len (data x) / 4).
Proof.
  intros []. pose proof (len_nonneg (data x)). unfold kMaxDataSize, kAppBaseLength in *.
  unfold in_u. change (2 ^ 16) with 65536. Z.to_euclidean_division_equations; lia.
Qed.

Lemma App_len_payload_wire x : len (payload_wire x) = 8 + len (data x).
Proof. unfold payload_wire. len_simpl. zconst. lia. Qed.

Lemma App_appends_body x : valid x -> appends (body x) (wire x).
Proof.
  intros Hx. pose proof (data_words x Hx) as [Hd Hw]. destruct Hx.
  pose proof (len_nonneg (data x)). apply RoomFacts.appends_index_end.
  2:{ unfold wire. rewrite len_app, App_len_payload_wire, len_header_wire.
      unfold BlockLength, kHeaderLength, kAppBaseLength. lia. }
  intros _. eapply RoomFacts.appends_header; [lia|by_compute| |done| |reflexivity].
  - unfold BlockLength, kHeaderLength, kAppBaseLength. lia.
  - apply appends_writes; [writes_chain|].
    by rewrite App_len_payload_wire.
Qed.

Lemma App_behaves_valid x : valid x -> behaves x (wire x) (eq (wire x)) (Rtcp.BlockLength x).
Proof.
  intros Hx. pose proof (len_nonneg (data x)).
  apply (simple_behaves body); [done|by apply App_appends_body| |].
  - unfold wire. rewrite len_app, App_len_payload_wire, len_header_wire.
    cbn. unfold BlockLength, kHeaderLength, kAppBaseLength. lia.
  - cbn. unfold BlockLength, kHeaderLength, kAppBaseLength. lia.
Qed.

#[global] Instance laws : RtcpPacketLaws t :=
  Build_RtcpPacketLaws t _ valid wire (fun x => eq (wire x)) Rtcp.BlockLength App_behaves_valid.

Lemma App_Parse_wire this x rest :
  valid x ->
  Parse this (CommonHeader.Header kPacketType (sub_type x) 0 (4 * (2 + len (data x) / 4))
    (payload_wire x ++ rest)) = Some (true, x).
Proof.
  intros Hx. pose proof (data_words x Hx) as [Hd _]. destruct Hx.
  pose proof (len_nonneg (data x)). unfold Parse, kAppBaseLength. hdr. rewrite Z.eqb_refl.
  replace (4 * (2 + len (data x) / 4)) with (8 + len (data x)) by lia.
  replace ((8 + len (data x)) mod 4) with 0 by (Z.to_euclidean_division_equations; lia).
  ztests. unfold payload_wire. read_wire.
  rewrite read_bytes_app by lia. by destruct x.
Qed.

Lemma App_Parse_safe : safe_parser (fun h => CommonHeader.type h = kPacketType) Parse valid eq.
Proof.
  intros this h [Hc Hb Hl Hw] Ht. unfold Parse. rewrite Ht, Z.eqb_refl. cbn [check mbind option_bind].
  unfold CommonHeader.payload_size_bytes, kAppBaseLength.
  destruct (Z.ltb_spec (CommonHeader.payload_size h) 8); [by eexists _, _|].
  destruct (Z.eqb_spec (CommonHeader.payload_size h mod 4) 0); [|by eexists _, _].
  cbn [negb]. read_safe.
  destruct (read_bytes_Some (ptr_add (CommonHeader.payload h) 8) (CommonHeader.payload_size h - 8))
    as (a & -> & Ha & Hal); [by apply bytes_ok_ptr_add|rewrite len_ptr_add; lia|].
  eexists _, _. split; [done|]. unfold CommonHeader.fmt, CommonHeader.count in *.
  split; cbn; try done; unfold kMaxDataSize, kAppBaseLength; try lia.
  rewrite Hal. Z.to_euclidean_division_equations; lia.
Qed.

Lemma App_roundtrip x : valid x -> round_trips Parse x x.
Proof.
  intros Hx. pose proof (data_words x Hx) as [Hd Hw]. pose proof (valid_sub_type x Hx).
  eapply round_trips_wire; [by apply App_behaves_valid|reflexivity| |lia|by_compute|done|].
  - rewrite App_len_payload_wire. lia.
  - intros. by apply App_Parse_wire.
Qed.

End App.

Module Sdes.

Definition kPacketType : Z := 202.
Definition kMaxNumberOfChunks : Z := 0x1f.
Definition kTerminatorTag : Z := 0.
Definition kCnameTag : Z := 1.

Record Chunk := MkChunk {
  ssrc : Z;
  cname : list Z
}.

Record t := MkSdes {
  chunks : list Chunk;
  block_length : Z
}.

Definition init : t := MkSdes [] kHeaderLength.

Definition ChunkSize (chunk : Chunk) : Z :=
  let chunk_payload_size := 4 + 1 + 1 + len (cname chunk) in
  let padding_size := 4 - chunk_payload_size mod 4 in
  chunk_payload_size + padding_size.

Definition AddCName (this : t) (ssrc : Z) (cname : list Z) : option (bool * t) :=
  check (len cname <=? 0xff) ;;
  if kMaxNumberOfChunks <=? len (chunks this) then Some (false, this) else
  let chunk := MkChunk ssrc cname in
  Some (true, MkSdes (chunks this ++ [chunk]) (block_length this + ChunkSize chunk)).

(** How the loop over the items of a chunk ends: [return false], or the terminator was read, with
    the CNAME if there was one, [looking_at], and the distance to [payload_end]. *)
Inductive items_result :=
| ItemsError
| ItemsEnd (cname : option (list Z)) (looking_at : list Z) (avail : Z).

(** [while ((item_type = *(looking_at++)) != kTerminatorTag) { ... }]; [avail] is
    [payload_end - looking_at]. *)
Fixpoint parse_chunk_items (fuel : nat) (cname : option (list Z)) (looking_at : list Z) (avail : Z)
    : option items_result :=
  match fuel with
  | O => None
  | S fuel' =>
      item_type ← byte_at looking_at 0;
      let looking_at := ptr_add looking_at 1 in
      let avail := avail - 1 in
      if item_type =? kTerminatorTag then Some (ItemsEnd cname looking_at avail) else
      if avail <=? 0 then Some ItemsError else
      item_length ← byte_at looking_at 0;
      let looking_at := ptr_add looking_at 1 in
      let avail := avail - 1 in
      let kTerminatorSize := 1 in
      if avail <? item_length + kTerminatorSize then Some ItemsError else
      if item_type =? kCnameTag then
        match cname with
        | Some _ => Some ItemsError
        | None =>
            text ← read_bytes looking_at item_length;
            parse_chunk_items fuel' (Some text) (ptr_add looking_at item_length) (avail - item_length)
        end
      else parse_chunk_items fuel' cname (ptr_add looking_at item_length) (avail - item_length)
  end.

(** [for (size_t i = 0; i < number_of_chunks;)]: every iteration either advances [i] or decreases
    [number_of_chunks], so that [todo], their difference, is the number of iterations avail.
    [chunks] are the chunks before [i]. *)
Fixpoint parse_chunks (todo : nat) (chunks : list Chunk) (block_length : Z)
    (looking_at : list Z) (avail : Z) : option (option t) :=
  match todo with
  | O => Some (Some (MkSdes chunks block_length))
  | S todo' =>
      if avail <? 8 then Some None else
      ssrc ← ReadBigEndian 32 4 looking_at;
      r ← parse_chunk_items (S (Z.to_nat avail)) None (ptr_add looking_at 4) (avail - 4);
      match r with
      | ItemsError => Some None
      | ItemsEnd cname_found looking_at avail =>
          let adjust := avail mod 4 in
          match cname_found with
          | Some cname =>
              let chunk := MkChunk ssrc cname in
              parse_chunks todo' (chunks ++ [chunk]) (block_length + ChunkSize chunk)
                (ptr_add looking_at adjust) (avail - adjust)
          | None => parse_chunks todo' chunks block_length (ptr_add looking_at adjust) (avail - adjust)
          end
      end
  end.

Definition Parse (this : t) (packet : CommonHeader.t) : option (bool * t) :=
  check (CommonHeader.type packet =? kPacketType) ;;
  r ← parse_chunks (Z.to_nat (CommonHeader.count packet)) [] kHeaderLength
        (CommonHeader.payload packet) (CommonHeader.payload_size_bytes packet);
  match r with
  | Some x => Some (true, x)
  | None => Some (false, this)
  end.

Definition BlockLength (this : t) : Z := block_length this.

Definition write_chunk (chunk : Chunk) : W unit :=
  ((at_index 0 (fun p => WriteBigEndian 4 p (ssrc chunk)) ;;
    at_index 4 (fun p => WriteBigEndian 1 p kCnameTag) ;;
    at_index 5 (fun p => WriteBigEndian 1 p (u8 (len (cname chunk)))) ;;
    at_index 6 (fun p => memcpy p (cname chunk))) ;;
   advance (6 + len (cname chunk))) ;;
  let padding_size := 4 - (6 + len (cname chunk)) mod 4 in
  at_index 0 (fun p => memset p 0 padding_size) ;;
  advance padding_size.

Definition body (this : t) : W unit :=
  with_index_end (BlockLength this) (fun _ =>
    (length ← HeaderLength (BlockLength this);
     CreateHeader (len (chunks this)) kPacketType length false) ;;
    for_each (chunks this) write_chunk).

Definition Create (this : t) (max_length : Z) (callback : bool) : W bool :=
  room ← make_room 2 (BlockLength this) max_length callback;
  if room : bool then body this ;; mret true else mret false.

#[global] Instance ops : RtcpPacketOps t := Build_RtcpPacketOps t BlockLength Create.

Record chunk_valid (c : Chunk) : Prop := {
  valid_ssrc : in_u 32 (ssrc c);
  valid_cname : bytes_ok (cname c);
  valid_cname_size : len (cname c) <= 0xff
}.

Definition chunk_words (c : Chunk) : Z := (6 + len (cname c)) / 4 + 1.

Definition sum (l : list Z) : Z := foldr Z.add 0 l.

(** The invariant; [block_length_] is the size of the packet [Create] writes. *)
Record valid (x : t) : Prop := {
  valid_chunks : Forall chunk_valid (chunks x);
  valid_count : len (chunks x) <= kMaxNumberOfChunks;
  valid_block_length : block_length x = 4 + 4 * sum (chunk_words <$> chunks x)
}.

Definition chunk_wire (c : Chunk) : list Z :=
  (be_bytes 4 (ssrc c) ++ be_bytes 1 kCnameTag ++ be_bytes 1 (len (cname c)) ++ cname c) ++
  replicate (Z.to_nat (4 - (6 + len (cname c)) mod 4)) 0.

Definition payload_wire (x : t) : list Z := mjoin (chunk_wire <$> chunks x).

Definition wire (x : t) : list Z :=
  header_wire (len (chunks x)) kPacketType (sum (chunk_words <$> chunks x)) false ++ payload_wire x.

Lemma ChunkSize_words c : ChunkSize c = 4 * chunk_words c.
Proof.
  unfold ChunkSize, chunk_words. pose proof (len_nonneg (cname c)).
  Z.to_euclidean_division_equations; lia.
Qed.

Lemma sum_cons x l : sum (x :: l) = x + sum l.
Proof. done. Qed.

Lemma Sdes_sum_app a b : sum (a ++ b) = sum a + sum b.
Proof. induction a as [|x a IH]; [done|]. cbn [app]. rewrite !sum_cons, IH. lia. Qed.

Lemma len_chunk_wire c : len (chunk_wire c) = 4 * chunk_words c.
Proof.
  unfold chunk_wire, chunk_words. rewrite !len_app, !len_be_bytes, len_replicate.
  pose proof (len_nonneg (cname c)). Z.to_euclidean_division_equations; lia.
Qed.

Lemma len_chunks l : len (mjoin (chunk_wire <$> l)) = 4 * sum (chunk_words <$> l).
Proof.
  induction l as [|c l IH]; [done|]. rewrite mjoin_fmap_cons, len_app, IH, len_chunk_wire, fmap_cons, sum_cons. lia.
Qed.

Lemma chunk_words_range c : chunk_valid c -> 2 <= chunk_words c <= 66.
Proof.
  intros []. unfold chunk_words. pose proof (len_nonneg (cname c)).
  Z.to_euclidean_division_equations; lia.
Qed.

Lemma sum_words_range l : Forall chunk_valid l -> 0 <= sum (chunk_words <$> l) <= 66 * len l.
Proof.
  induction 1 as [|c l Hc _ IH]; [done|]. pose proof (chunk_words_range c Hc).
  rewrite len_cons, fmap_cons, sum_cons. lia.
Qed.

Lemma appends_write_chunk c : chunk_valid c -> appends (write_chunk c) (chunk_wire c).
Proof.
  intros []. unfold write_chunk. pose proof (len_nonneg (cname c)).
  rewrite (wrap_small 8) by (unfold in_u; cbn; lia).
  eapply appends_seq; [apply appends_writes; [writes_chain|]|apply appends_writes|reflexivity].
  - rewrite !len_app, !len_be_bytes. lia.
  - apply writes_at_index. intros. by apply stores_memset.
  - rewrite len_replicate. Z.to_euclidean_division_equations; lia.
Qed.

Lemma Sdes_words_range x : valid x -> in_u 16 (sum (chunk_words <$> chunks x)).
Proof.
  intros []. pose proof (sum_words_range _ valid_chunks0). unfold kMaxNumberOfChunks in *.
  unfold in_u. change (2 ^ 16) with 65536. lia.
Qed.

Lemma Sdes_appends_body x : valid x -> appends (body x) (wire x).
Proof.
  intros Hx. pose proof (Sdes_words_range x Hx). destruct Hx. unfold kMaxNumberOfChunks in *.
  pose proof (len_nonneg (chunks x)). apply RoomFacts.appends_index_end.
  2:{ unfold wire, payload_wire. rewrite len_app, len_chunks, len_header_wire. done. }
  intros _. eapply RoomFacts.appends_header; [lia|by_compute|done|done| |reflexivity].
  apply appends_for_each. intros c Hc. apply appends_write_chunk. by eapply Forall_forall in Hc.
Qed.

Lemma Sdes_behaves_valid x : valid x -> behaves x (wire x) (eq (wire x)) (Rtcp.BlockLength x).
Proof.
  intros Hx. pose proof (Sdes_words_range x Hx) as [Hw _]. pose proof (valid_block_length x Hx) as Hb.
  apply (simple_behaves body); [done|by apply Sdes_appends_body| |].
  - unfold wire, payload_wire. rewrite len_app, len_chunks, len_header_wire. done.
  - cbn. unfold BlockLength. lia.
Qed.

#[global] Instance laws : RtcpPacketLaws t :=
  Build_RtcpPacketLaws t _ valid wire (fun x => eq (wire x)) Rtcp.BlockLength Sdes_behaves_valid.

(** The items of a chunk [Create] wrote: the CNAME, then the terminator. *)
Lemma parse_chunk_items_wire fuel c pad rest avail :
  (2 <= fuel)%nat -> chunk_valid c -> 1 <= Z.of_nat pad -> 2 + len (cname c) + Z.of_nat pad <= avail ->
  parse_chunk_items fuel None
    (be_bytes 1 kCnameTag ++ be_bytes 1 (len (cname c)) ++ cname c ++ replicate pad 0 ++ rest) avail
  = Some (ItemsEnd (Some (cname c)) (replicate (pad - 1) 0 ++ rest) (avail - (3 + len (cname c)))).
Proof.
  intros Hf [] Hp Ha. pose proof (len_nonneg (cname c)).
  destruct fuel as [|[|fuel]]; [lia|lia|]. destruct pad as [|pad]; [lia|].
  cbn [parse_chunk_items]. rewrite byte_be1 by by_compute. cbn [mbind option_bind].
  change (kCnameTag =? kTerminatorTag) with false. change (kCnameTag =? kCnameTag) with true.
  ptr_simpl. rewrite byte_be1 by (unfold byte_ok; lia). cbn [mbind option_bind]. ptr_simpl.
  ztests. rewrite read_bytes_app by done. cbn [mbind option_bind].
  rewrite Z.sub_diag, ptr_add_0.
  cbn [replicate app]. change (byte_at (0 :: ?l) 0) with (Some 0). cbn [mbind option_bind].
  change (0 =? kTerminatorTag) with true. cbv iota. replace (S pad - 1)%nat with pad by lia.
  change (ptr_add (0 :: ?l) 1) with l. do 2 f_equal.
  lia.
Qed.

Lemma Sdes_parse_chunks_step todo acc bl c rest k :
  chunk_valid c -> 0 <= k ->
  parse_chunks (S todo) acc bl (chunk_wire c ++ rest) (4 * (chunk_words c + k)) =
  parse_chunks todo (acc ++ [c]) (bl + ChunkSize c) rest (4 * k).
Proof.
  intros Hc Hk. pose proof (chunk_words_range c Hc). pose proof (len_nonneg (cname c)).
  pose proof (len_chunk_wire c) as Hw. unfold chunk_words in *. destruct Hc eqn:E.
  cbn [parse_chunks]. ztests. unfold chunk_wire. read_wire.
  rewrite parse_chunk_items_wire; [|lia|done|Z.to_euclidean_division_equations; lia
    |Z.to_euclidean_division_equations; lia].
  cbn [mbind option_bind].
  replace (4 * ((6 + len (cname c)) / 4 + 1 + k) - 4 - (3 + len (cname c)))
    with ((3 - (6 + len (cname c)) mod 4) + k * 4) by (Z.to_euclidean_division_equations; lia).
  rewrite Z_mod_plus_full, (Z.mod_small (3 - _)) by (Z.to_euclidean_division_equations; lia).
  rewrite ptr_add_app_ge by (rewrite len_replicate; Z.to_euclidean_division_equations; lia).
  rewrite len_replicate. replace (3 - _ - _) with 0 by (Z.to_euclidean_division_equations; lia).
  rewrite ptr_add_0. destruct c. cbn [ssrc cname] in *. f_equal. lia.
Qed.

Lemma Sdes_parse_chunks_wire l acc bl rest :
  Forall chunk_valid l ->
  parse_chunks (length l) acc bl (mjoin (chunk_wire <$> l) ++ rest) (4 * sum (chunk_words <$> l)) =
  Some (Some (MkSdes (acc ++ l) (bl + 4 * sum (chunk_words <$> l)))).
Proof.
  intros Hl. revert acc bl. induction Hl as [|c l Hc Hl IH]; intros acc bl.
  - cbn. by rewrite app_nil_r, Z.add_0_r.
  - cbn [length]. rewrite mjoin_fmap_cons, fmap_cons, sum_cons, <- app_assoc.
    pose proof (sum_words_range l Hl).
    rewrite Sdes_parse_chunks_step, IH, ChunkSize_words by (done || lia).
    rewrite <- app_assoc. cbn [app]. do 3 f_equal. lia.
Qed.

Lemma Sdes_Parse_wire this x rest :
  valid x ->
  Parse this (CommonHeader.Header kPacketType (len (chunks x)) 0 (4 * sum (chunk_words <$> chunks x))
    (payload_wire x ++ rest)) = Some (true, x).
Proof.
  intros []. unfold Parse. hdr. rewrite Z.eqb_refl. cbn [check mbind option_bind].
  unfold len. rewrite Nat2Z.id. unfold payload_wire. rewrite Sdes_parse_chunks_wire by done.
  cbn. unfold kHeaderLength. rewrite <- valid_block_length0. by destruct x.
Qed.

Lemma Sdes_roundtrip x : valid x -> round_trips Parse x x.
Proof.
  intros Hx. pose proof (valid_count x Hx). pose proof (len_nonneg (chunks x)).
  unfold kMaxNumberOfChunks in *.
  eapply round_trips_wire; [by apply Sdes_behaves_valid|reflexivity| |lia|by_compute|by apply Sdes_words_range|].
  - apply len_chunks.
  - intros. by apply Sdes_Parse_wire.
Qed.

(** A CNAME as the item loop reads it. *)
Definition cname_ok (c : list Z) : Prop := bytes_ok c /\ len c <= 0xff.

(** Each item takes at least two bytes, so that the loop ends before the fuel does. *)
Lemma parse_chunk_items_safe fuel cn p avail :
  bytes_ok p -> 1 <= avail <= len p -> avail < Z.of_nat fuel ->
  (forall c, cn = Some c -> cname_ok c) ->
  exists r, parse_chunk_items fuel cn p avail = Some r /\
    match r with
    | ItemsError => True
    | ItemsEnd cn' p' avail' =>
        bytes_ok p' /\ 0 <= avail' <= len p' /\ (forall c, cn' = Some c -> cname_ok c)
    end.
Proof.
  revert cn p avail. induction fuel as [|fuel IH]; intros cn p avail Hb Ha Hf Hcn; [lia|].
  cbn [parse_chunk_items]. read_safe.
  destruct (Z.eqb_spec v kTerminatorTag).
  { eexists. split; [done|]. split; [by apply bytes_ok_ptr_add|].
    rewrite len_ptr_add by lia. split; [lia|done]. }
  destruct (Z.leb_spec (avail - 1) 0); [by eexists|].
  rewrite byte_at_add, ptr_add_add by lia. read_safe. unfold byte_ok in Hv0.
  destruct (Z.ltb_spec (avail - 1 - 1) (v0 + 1)); [by eexists|].
  assert (Hnext : forall cn', (forall c, cn' = Some c -> cname_ok c) ->
    exists r, parse_chunk_items fuel cn' (ptr_add (ptr_add p (1 + 1)) v0) (avail - 1 - 1 - v0) = Some r /\
      match r with
      | ItemsError => True
      | ItemsEnd cn' p' avail' =>
          bytes_ok p' /\ 0 <= avail' <= len p' /\ (forall c, cn' = Some c -> cname_ok c)
      end).
  { intros cn' Hcn'. apply IH; [by apply bytes_ok_ptr_add, bytes_ok_ptr_add| |lia|done].
    rewrite !len_ptr_add by (rewrite ?len_ptr_add; lia). lia. }
  destruct (v =? kCnameTag); [|by apply Hnext].
  destruct cn; [by eexists|].
  destruct (read_bytes_Some (ptr_add p (1 + 1)) v0) as (a & -> & Hab & Hal);
    [by apply bytes_ok_ptr_add|rewrite len_ptr_add; lia|].
  cbn [mbind option_bind]. apply Hnext. intros c [= <-]. split; [done|lia].
Qed.

Lemma Sdes_parse_chunks_safe todo acc bl p avail :
  bytes_ok p -> 0 <= avail <= len p -> Forall chunk_valid acc ->
  bl = 4 + 4 * sum (chunk_words <$> acc) -> len acc + Z.of_nat todo <= kMaxNumberOfChunks ->
  exists r, parse_chunks todo acc bl p avail = Some r /\ (forall x, r = Some x -> valid x).
Proof.
  revert acc bl p avail. induction todo as [|todo IH]; intros acc bl p avail Hb Ha Hacc Hbl Hn;
    cbn [parse_chunks].
  { eexists. split; [done|]. intros x [= <-]. split; cbn; [done|lia|done]. }
  destruct (Z.ltb_spec avail 8); [by eexists|]. read_safe.
  destruct (parse_chunk_items_safe (S (Z.to_nat avail)) None (ptr_add p 4) (avail - 4))
    as ([|cn p' avail'] & -> & Hr); [by apply bytes_ok_ptr_add|rewrite len_ptr_add; lia|lia|done| |].
  { by eexists. }
  destruct Hr as (Hb' & Ha' & Hcn). cbn [mbind option_bind].
  assert (0 <= avail' mod 4 <= avail') by (Z.to_euclidean_division_equations; lia).
  destruct cn as [c|]; apply IH; try done; try (by apply bytes_ok_ptr_add);
    try (rewrite len_ptr_add; lia); try lia.
  - apply Forall_app. split; [done|]. destruct (Hcn c eq_refl). constructor; [by split|constructor].
  - rewrite fmap_app, Sdes_sum_app, ChunkSize_words. cbn [fmap list_fmap]. rewrite sum_cons. cbn. lia.
  - rewrite len_app, len_cons, len_nil. lia.
Qed.

Lemma Sdes_Parse_safe : safe_parser (fun h => CommonHeader.type h = kPacketType) Parse valid eq.
Proof.
  intros this h [Hc Hb Hl _] Ht. unfold Parse. rewrite Ht, Z.eqb_refl. cbn [check mbind option_bind].
  destruct (Sdes_parse_chunks_safe (Z.to_nat (CommonHeader.count h)) [] kHeaderLength
    (CommonHeader.payload h) (CommonHeader.payload_size_bytes h)) as (r & -> & Hr); try done.
  - unfold kMaxNumberOfChunks. len_simpl. lia.
  - cbn [mbind option_bind]. destruct r as [x|]; [|by eexists _, _].
    eexists _, _. split; [done|]. by apply Hr.
Qed.

End Sdes.

(** ** The objects the public operations produce *)

(** The states of a [Bye], an [App] and an [Sdes] object: what the constructor, the setters (with
    arguments in the range of their C++ types, and not aborting) and the parser lead to. *)
Inductive bye_reachable : Bye.t -> Prop :=
| bye_init : bye_reachable Bye.init
| bye_ssrc x v : bye_reachable x -> in_u 32 v -> bye_reachable (Bye.SetSenderSsrc x v)
| bye_csrcs x v : bye_reachable x -> Forall (in_u 32) v -> bye_reachable (Bye.SetCsrcs x v).2
| bye_reason x v y :
    bye_reachable x -> bytes_ok v -> Bye.SetReason x v = Some y -> bye_reachable y
| bye_parse x h r y :
    bye_reachable x -> header_ok h -> Bye.Parse x h = Some (r, y) -> bye_reachable y.

Inductive app_reachable : App.t -> Prop :=
| app_init : app_reachable App.init
| app_ssrc x v : app_reachable x -> in_u 32 v -> app_reachable (App.SetSenderSsrc x v)
| app_name x v : app_reachable x -> in_u 32 v -> app_reachable (App.SetName x v)
| app_sub_type x v y :
    app_reachable x -> byte_ok v -> App.SetSubType x v = Some y -> app_reachable y
| app_data x v y :
    app_reachable x -> bytes_ok v -> App.SetData x v = Some y -> app_reachable y
| app_parse x h r y :
    app_reachable x -> header_ok h -> App.Parse x h = Some (r, y) -> app_reachable y.

Inductive sdes_reachable : Sdes.t -> Prop :=
| sdes_init : sdes_reachable Sdes.init
| sdes_add x ssrc cname r y :
    sdes_reachable x -> in_u 32 ssrc -> bytes_ok cname ->
    Sdes.AddCName x ssrc cname = Some (r, y) -> sdes_reachable y
| sdes_parse x h r y :
    sdes_reachable x -> header_ok h -> Sdes.Parse x h = Some (r, y) -> sdes_reachable y.

Lemma bye_reachable_valid x : bye_reachable x -> Bye.valid x.
Proof.
  induction 1 as [|x v _ [] Hv|x v _ [] Hv|x v y _ [] Hv Hy|x h r y _ IH Hh Hp].
  - split; by_compute.
  - by split.
  - unfold Bye.SetCsrcs. destruct (Z.ltb_spec Bye.kMaxNumberOfCsrcs (len v)); by split.
  - apply check_Some in Hy as [Hc [= <-]]. bool_prop. by split.
  - eapply safe_parser_invariant; [apply Bye.Bye_Parse_safe| |done..].
    intros z Hz. apply check_Some in Hz as [Hz _]. by bool_prop.
Qed.

Lemma app_reachable_valid x : app_reachable x -> App.valid x.
Proof.
  induction 1 as [|x v _ [] Hv|x v _ [] Hv|x v y _ [] Hv Hy|x v y _ [] Hv Hy|x h r y _ IH Hh Hp].
  - split; by_compute.
  - by split.
  - by split.
  - apply check_Some in Hy as [Hc [= <-]]. bool_prop. destruct Hv. by split.
  - apply check_Some in Hy as [Hc Hy]. apply check_Some in Hy as [Hc' [= <-]]. bool_prop. by split.
  - eapply safe_parser_invariant; [apply App.App_Parse_safe| |done..].
    intros z Hz. apply check_Some in Hz as [Hz _]. by bool_prop.
Qed.

Lemma sdes_reachable_valid x : sdes_reachable x -> Sdes.valid x.
Proof.
  induction 1 as [|x ssrc cname r y _ IH Hs Hc Hy|x h r y _ IH Hh Hp].
  - split; [constructor|by_compute|done].
  - apply check_Some in Hy as [Hl Hy]. bool_prop.
    destruct (Z.leb_spec Sdes.kMaxNumberOfChunks (len (Sdes.chunks x))); cbn zeta in Hy;
      simplify_eq; [done|].
    destruct IH. split; cbn.
    + apply Forall_app. split; [done|]. constructor; [by split|constructor].
    + rewrite len_app, len_cons, len_nil. lia.
    + rewrite fmap_app, Sdes.Sdes_sum_app, Sdes.ChunkSize_words. cbn [fmap list_fmap].
      rewrite Sdes.sum_cons. cbn. lia.
  - eapply safe_parser_invariant; [apply Sdes.Sdes_Parse_safe| |done..].
    intros z Hz. apply check_Some in Hz as [Hz _]. by bool_prop.
Qed.

(** ** Properties *)

(** Every [Bye], [App] or [Sdes] object that its constructor, setters and parser can produce
    survives the wire: [Build] fills a buffer of [BlockLength] bytes exactly (so that the running
    [block_length_] of [Sdes] is the size of the packet, and no check of a [Create] fails), and
    parsing the bytes, with anything behind them, restores the object. *)
Lemma source_desc_roundtrip :
  (forall x, bye_reachable x -> round_trips Bye.Parse x x) /\
  (forall x, app_reachable x -> round_trips App.Parse x x) /\
  (forall x, sdes_reachable x -> round_trips Sdes.Parse x x).
Proof.
  split; [|split]; intros x Hx.
  - by apply Bye.Bye_roundtrip, bye_reachable_valid.
  - by apply App.App_roundtrip, app_reachable_valid.
  - by apply Sdes.Sdes_roundtrip, sdes_reachable_valid.
Qed.

(** The parsers of [Bye], [App] and [Sdes] never read outside the payload, never fail a check
    and always return, whatever the packet holds: the item loop of [Sdes::Parse] stops, the
    lengths inside the packet are checked before they are used, a refused packet leaves the
    object unchanged, and an accepted one satisfies the invariant of its class. *)
Lemma source_desc_parse_safe :
  safe_parser (fun h => CommonHeader.type h = 203) Bye.Parse Bye.valid eq /\
  safe_parser (fun h => CommonHeader.type h = 204) App.Parse App.valid eq /\
  safe_parser (fun h => CommonHeader.type h = 202) Sdes.Parse Sdes.valid eq.
Proof. split; [apply Bye.Bye_Parse_safe|]. split; [apply App.App_Parse_safe|apply Sdes.Sdes_Parse_safe]. Qed.
