(* ===== verification/Feedback.v ===== *)
(** * Feedback messages

    src/src/myrtc/rtp_rtcp/rtpfb.{h,cc}, psfb.{h,cc} (the two abstract feedback classes),
    pli.{h,cc}, rapid_resync_request.{h,cc} and fir.{h,cc}. *)

From S2P Require Import Prelude Buffer ByteIo Rtcp Wire.
Import ByteReader ByteWriter RtcpPacket.

Module Rtpfb.

Definition kPacketType : Z := 205.
Definition kCommonFeedbackLength : Z := 8.

Record t := MkRtpfb {
  sender_ssrc : Z;
  media_ssrc : Z
}.

Definition init : t := MkRtpfb 0 0.
Definition SetSenderSsrc (this : t) (ssrc : Z) : t := MkRtpfb ssrc (media_ssrc this).
Definition SetMediaSsrc (this : t) (ssrc : Z) : t := MkRtpfb (sender_ssrc this) ssrc.

Definition ParseCommonFeedback (payload : list Z) : option t :=
  sender ← ReadBigEndian 32 4 (ptr_add payload 0);
  media ← ReadBigEndian 32 4 (ptr_add payload 4);
  Some (MkRtpfb sender media).

Definition CreateCommonFeedback (this : t) (payload : Z) : W unit :=
  WriteBigEndian 4 (payload + 0) (sender_ssrc this) ;;
  WriteBigEndian 4 (payload + 4) (media_ssrc this).

Record valid (x : t) : Prop := {
  valid_sender : in_u 32 (sender_ssrc x);
  valid_media : in_u 32 (media_ssrc x)
}.

Definition wire (x : t) : list Z := be_bytes 4 (sender_ssrc x) ++ be_bytes 4 (media_ssrc x).

Lemma Rtpfb_len_wire x : len (wire x) = 8.
Proof. done. Qed.
#[global] Hint Rewrite Rtpfb_len_wire : len.

Lemma Rtpfb_stores_Create x p : stores (CreateCommonFeedback x p) p (wire x).
Proof. unfold CreateCommonFeedback. stores_chain. Qed.
#[global] Hint Resolve Rtpfb_stores_Create : emit.

Lemma Rtpfb_Parse_wire x rest : valid x -> ParseCommonFeedback (wire x ++ rest) = Some x.
Proof. intros []. unfold ParseCommonFeedback, wire. read_wire. by destruct x. Qed.

Lemma Rtpfb_Parse_safe p : bytes_ok p -> 8 <= len p -> exists x, ParseCommonFeedback p = Some x /\ valid x.
Proof. intros Hb Hl. unfold ParseCommonFeedback. read_safe. eexists. split; [done|]. by split. Qed.

End Rtpfb.

Module Psfb.

Definition kPacketType : Z := 206.
Definition kAfbMessageType : Z := 15.
Definition kCommonFeedbackLength : Z := 8.

Record t := MkPsfb {
  sender_ssrc : Z;
  media_ssrc : Z
}.

Definition init : t := MkPsfb 0 0.
Definition SetSenderSsrc (this : t) (ssrc : Z) : t := MkPsfb ssrc (media_ssrc this).
Definition SetMediaSsrc (this : t) (ssrc : Z) : t := MkPsfb (sender_ssrc this) ssrc.

Definition ParseCommonFeedback (payload : list Z) : option t :=
  sender ← ReadBigEndian 32 4 (ptr_add payload 0);
  media ← ReadBigEndian 32 4 (ptr_add payload 4);
  Some (MkPsfb sender media).

Definition CreateCommonFeedback (this : t) (payload : Z) : W unit :=
  WriteBigEndian 4 (payload + 0) (sender_ssrc this) ;;
  WriteBigEndian 4 (payload + 4) (media_ssrc this).

Record valid (x : t) : Prop := {
  valid_sender : in_u 32 (sender_ssrc x);
  valid_media : in_u 32 (media_ssrc x)
}.

Definition wire (x : t) : list Z := be_bytes 4 (sender_ssrc x) ++ be_bytes 4 (media_ssrc x).

Lemma Psfb_len_wire x : len (wire x) = 8.
Proof. done. Qed.
#[global] Hint Rewrite Psfb_len_wire : len.

Lemma Psfb_stores_Create x p : stores (CreateCommonFeedback x p) p (wire x).
Proof. unfold CreateCommonFeedback. stores_chain. Qed.
#[global] Hint Resolve Psfb_stores_Create : emit.

Lemma Psfb_Parse_wire x rest : valid x -> ParseCommonFeedback (wire x ++ rest) = Some x.
Proof. intros []. unfold ParseCommonFeedback, wire. read_wire. by destruct x. Qed.

Lemma Psfb_Parse_safe p : bytes_ok p -> 8 <= len p -> exists x, ParseCommonFeedback p = Some x /\ valid x.
Proof. intros Hb Hl. unfold ParseCommonFeedback. read_safe. eexists. split; [done|]. by split. Qed.

End Psfb.

(** The header checks of a feedback message. *)
Definition is_rtpfb (fmt : Z) (h : CommonHeader.t) : Prop :=
  CommonHeader.type h = Rtpfb.kPacketType /\ CommonHeader.fmt h = fmt.
Definition is_psfb (fmt : Z) (h : CommonHeader.t) : Prop :=
  CommonHeader.type h = Psfb.kPacketType /\ CommonHeader.fmt h = fmt.

(** Discharges the two checks at the start of a [Parse], for a header of the right kind. *)
Ltac fb_checks Ht :=
  let H1 := fresh in let H2 := fresh in
  destruct Ht as [H1 H2]; rewrite H1, H2; rewrite !Z.eqb_refl; cbn [check mbind option_bind].

Module Pli.

Definition kFeedbackMessageType : Z := 1.

Record t := MkPli { fb : Psfb.t }.

Definition init : t := MkPli Psfb.init.
Definition SetSenderSsrc (this : t) (v : Z) : t := MkPli (Psfb.SetSenderSsrc (fb this) v).
Definition SetMediaSsrc (this : t) (v : Z) : t := MkPli (Psfb.SetMediaSsrc (fb this) v).

Definition Parse (this : t) (packet : CommonHeader.t) : option (bool * t) :=
  check (CommonHeader.type packet =? Psfb.kPacketType) ;;
  check (CommonHeader.fmt packet =? kFeedbackMessageType) ;;
  if CommonHeader.payload_size_bytes packet <? Psfb.kCommonFeedbackLength then Some (false, this) else
  fb ← Psfb.ParseCommonFeedback (CommonHeader.payload packet);
  Some (true, MkPli fb).

Definition BlockLength (this : t) : Z := kHeaderLength + Psfb.kCommonFeedbackLength.

Definition body (this : t) : W unit :=
  (length ← HeaderLength (BlockLength this);
   CreateHeader kFeedbackMessageType Psfb.kPacketType length false) ;;
  at_index 0 (Psfb.CreateCommonFeedback (fb this)) ;;
  advance Psfb.kCommonFeedbackLength.

Definition Create (this : t) (max_length : Z) (callback : bool) : W bool :=
  room ← make_room 2 (BlockLength this) max_length callback;
  if room : bool then body this ;; mret true else mret false.

#[global] Instance ops : RtcpPacketOps t := Build_RtcpPacketOps t BlockLength Create.

Definition valid (x : t) : Prop := Psfb.valid (fb x).

Definition wire (x : t) : list Z := header_wire 1 Psfb.kPacketType 2 false ++ Psfb.wire (fb x).

Lemma Pli_behaves_valid x : valid x -> behaves x (wire x) (eq (wire x)) (Rtcp.BlockLength x).
Proof.
  intros Hx. apply (simple_behaves body); [done| |done|done].
  apply (RoomFacts.appends_header _ _ _ 2 _ _ (Psfb.wire (fb x))); [by_compute|by_compute|done|by_compute| |done].
  apply appends_writes; [writes_chain|done].
Qed.

#[global] Instance laws : RtcpPacketLaws t :=
  Build_RtcpPacketLaws t _ valid wire (fun x => eq (wire x)) Rtcp.BlockLength Pli_behaves_valid.

Lemma Pli_roundtrip x : valid x -> round_trips Parse x x.
Proof.
  intros Hx. eapply round_trips_wire; [by apply Pli_behaves_valid|reflexivity|done|by_compute..|].
  intros. unfold Parse. hdr. rewrite !Z.eqb_refl.
  cbn [check mbind option_bind Z.ltb Z.eqb negb]. rewrite Psfb.Psfb_Parse_wire by done. by destruct x.
Qed.

Lemma Pli_Parse_safe : safe_parser (is_psfb kFeedbackMessageType) Parse valid eq.
Proof.
  intros this h [Hc Hb Hl _] Ht. unfold Parse. fb_checks Ht.
  unfold CommonHeader.payload_size_bytes.
  destruct (Z.ltb_spec (CommonHeader.payload_size h) Psfb.kCommonFeedbackLength); [by eexists _, _|].
  unfold Psfb.kCommonFeedbackLength in *.
  destruct (Psfb.Psfb_Parse_safe (CommonHeader.payload h)) as (y & -> & Hy); [done|lia|]. by eexists _, _.
Qed.

End Pli.

Module RapidResyncRequest.

Definition kFeedbackMessageType : Z := 5.

Record t := MkRrr { fb : Rtpfb.t }.

Definition init : t := MkRrr Rtpfb.init.
Definition SetSenderSsrc (this : t) (v : Z) : t := MkRrr (Rtpfb.SetSenderSsrc (fb this) v).
Definition SetMediaSsrc (this : t) (v : Z) : t := MkRrr (Rtpfb.SetMediaSsrc (fb this) v).

Definition Parse (this : t) (packet : CommonHeader.t) : option (bool * t) :=
  check (CommonHeader.type packet =? Rtpfb.kPacketType) ;;
  check (CommonHeader.fmt packet =? kFeedbackMessageType) ;;
  if negb (CommonHeader.payload_size_bytes packet =? Rtpfb.kCommonFeedbackLength)
  then Some (false, this) else
  fb ← Rtpfb.ParseCommonFeedback (CommonHeader.payload packet);
  Some (true, MkRrr fb).

Definition BlockLength (this : t) : Z := kHeaderLength + Rtpfb.kCommonFeedbackLength.

Definition body (this : t) : W unit :=
  (length ← HeaderLength (BlockLength this);
   CreateHeader kFeedbackMessageType Rtpfb.kPacketType length false) ;;
  at_index 0 (Rtpfb.CreateCommonFeedback (fb this)) ;;
  advance Rtpfb.kCommonFeedbackLength.

Definition Create (this : t) (max_length : Z) (callback : bool) : W bool :=
  room ← make_room 2 (BlockLength this) max_length callback;
  if room : bool then body this ;; mret true else mret false.

#[global] Instance ops : RtcpPacketOps t := Build_RtcpPacketOps t BlockLength Create.

Definition valid (x : t) : Prop := Rtpfb.valid (fb x).

Definition wire (x : t) : list Z := header_wire 5 Rtpfb.kPacketType 2 false ++ Rtpfb.wire (fb x).

Lemma RapidResyncRequest_behaves_valid x : valid x -> behaves x (wire x) (eq (wire x)) (Rtcp.BlockLength x).
Proof.
  intros Hx. apply (simple_behaves body); [done| |done|done].
  apply (RoomFacts.appends_header _ _ _ 2 _ _ (Rtpfb.wire (fb x))); [by_compute|by_compute|done|by_compute| |done].
  apply appends_writes; [writes_chain|done].
Qed.

#[global] Instance laws : RtcpPacketLaws t :=
  Build_RtcpPacketLaws t _ valid wire (fun x => eq (wire x)) Rtcp.BlockLength RapidResyncRequest_behaves_valid.

Lemma RapidResyncRequest_roundtrip x : valid x -> round_trips Parse x x.
Proof.
  intros Hx. eapply round_trips_wire; [by apply RapidResyncRequest_behaves_valid|reflexivity|done|by_compute..|].
  intros. unfold Parse. hdr. rewrite !Z.eqb_refl.
  cbn [check mbind option_bind Z.ltb Z.eqb negb]. rewrite Rtpfb.Rtpfb_Parse_wire by done. by destruct x.
Qed.

Lemma RapidResyncRequest_Parse_safe : safe_parser (is_rtpfb kFeedbackMessageType) Parse valid eq.
Proof.
  intros this h [Hc Hb Hl _] Ht. unfold Parse. fb_checks Ht.
  unfold CommonHeader.payload_size_bytes, Rtpfb.kCommonFeedbackLength.
  destruct (Z.eqb_spec (CommonHeader.payload_size h) 8); [|by eexists _, _]. cbn [negb].
  destruct (Rtpfb.Rtpfb_Parse_safe (CommonHeader.payload h)) as (y & -> & Hy); [done|lia|]. by eexists _, _.
Qed.

End RapidResyncRequest.

Module Fir.

Definition kFeedbackMessageType : Z := 4.
Definition kFciLength : Z := 8.

Record Request := MkRequest {
  ssrc : Z;
  seq_nr : Z
}.

Record t := MkFir {
  fb : Psfb.t;
  items : list Request
}.

Definition init : t := MkFir Psfb.init [].
Definition SetSenderSsrc (this : t) (v : Z) : t := MkFir (Psfb.SetSenderSsrc (fb this) v) (items this).

Definition AddRequestTo (this : t) (ssrc seq_num : Z) : t :=
  MkFir (fb this) (items this ++ [MkRequest ssrc seq_num]).

Definition parse_request (next_fci : list Z) : option Request :=
  ssrc ← ReadBigEndian 32 4 next_fci;
  seq_nr ← ReadBigEndian 8 1 (ptr_add next_fci 4);
  Some (MkRequest ssrc seq_nr).

Definition Parse (this : t) (packet : CommonHeader.t) : option (bool * t) :=
  check (CommonHeader.type packet =? Psfb.kPacketType) ;;
  check (CommonHeader.fmt packet =? kFeedbackMessageType) ;;
  let size := CommonHeader.payload_size_bytes packet in
  if size <? Psfb.kCommonFeedbackLength + kFciLength then Some (false, this) else
  if negb ((size - Psfb.kCommonFeedbackLength) mod kFciLength =? 0) then Some (false, this) else
  fb ← Psfb.ParseCommonFeedback (CommonHeader.payload packet);
  let number_of_fci_items := (size - Psfb.kCommonFeedbackLength) / kFciLength in
  items ← parse_items parse_request kFciLength (Z.to_nat number_of_fci_items)
            (ptr_add (CommonHeader.payload packet) Psfb.kCommonFeedbackLength);
  Some (true, MkFir fb items).

Definition BlockLength (this : t) : Z :=
  kHeaderLength + Psfb.kCommonFeedbackLength + kFciLength * len (items this).

Definition write_request (request : Request) : W unit :=
  (at_index 0 (fun p => WriteBigEndian 4 p (ssrc request)) ;;
   at_index 4 (fun p => WriteBigEndian 1 p (seq_nr request)) ;;
   at_index 5 (fun p => WriteBigEndian 3 p 0)) ;;
  advance kFciLength.

Definition body (this : t) : W unit :=
  with_index_end (BlockLength this) (fun _ =>
    (length ← HeaderLength (BlockLength this);
     CreateHeader kFeedbackMessageType Psfb.kPacketType length false) ;;
    dcheck (Psfb.media_ssrc (fb this) =? 0) ;;
    at_index 0 (Psfb.CreateCommonFeedback (fb this)) ;;
    advance Psfb.kCommonFeedbackLength ;;
    for_each (items this) write_request).

Definition Create (this : t) (max_length : Z) (callback : bool) : W bool :=
  dcheck (negb (bool_decide (items this = []))) ;;
  room ← make_room 2 (BlockLength this) max_length callback;
  if room : bool then body this ;; mret true else mret false.

#[global] Instance ops : RtcpPacketOps t := Build_RtcpPacketOps t BlockLength Create.

Record request_valid (r : Request) : Prop := {
  valid_ssrc : in_u 32 (ssrc r);
  valid_seq_nr : byte_ok (seq_nr r)
}.

(** What [Parse] guarantees. *)
Record parsed (x : t) : Prop := {
  parsed_fb : Psfb.valid (fb x);
  parsed_items : Forall request_valid (items x);
  parsed_some : items x <> [];
  parsed_count : 2 + 2 * len (items x) <= 0xffff
}.

(** What [Create] requires: the media source is unused. *)
Record valid (x : t) : Prop := {
  valid_parsed : parsed x;
  valid_media : Psfb.media_ssrc (fb x) = 0
}.

Definition request_wire (r : Request) : list Z :=
  be_bytes 4 (ssrc r) ++ be_bytes 1 (seq_nr r) ++ be_bytes 3 0.

Definition payload_wire (x : t) : list Z := Psfb.wire (fb x) ++ mjoin (request_wire <$> items x).

Definition wire (x : t) : list Z :=
  header_wire kFeedbackMessageType Psfb.kPacketType (2 + 2 * len (items x)) false ++ payload_wire x.

Lemma Fir_len_payload_wire x : len (payload_wire x) = 8 + 8 * len (items x).
Proof. unfold payload_wire. rewrite len_app, (len_items _ _ 8) by done. done. Qed.

Lemma Fir_words_range x : valid x -> in_u 16 (2 + 2 * len (items x)).
Proof.
  intros [[] _]. unfold in_u. change (2 ^ 16) with 65536. pose proof (len_nonneg (items x)). lia.
Qed.

Lemma Fir_appends_body x : valid x -> appends (body x) (wire x).
Proof.
  intros Hx. pose proof (Fir_words_range x Hx). destruct Hx as [[] Hm].
  pose proof (len_nonneg (items x)). apply RoomFacts.appends_index_end.
  2:{ unfold wire. rewrite len_app, Fir_len_payload_wire, len_header_wire.
      unfold BlockLength, kHeaderLength, Psfb.kCommonFeedbackLength, kFciLength. lia. }
  intros _. eapply RoomFacts.appends_header; [by_compute|by_compute| |done| |reflexivity].
  { unfold BlockLength, kHeaderLength, Psfb.kCommonFeedbackLength, kFciLength. lia. }
  apply appends_dcheck; [by apply Z.eqb_eq|].
  eapply appends_writes_then; [writes_chain|done| |reflexivity].
  apply appends_for_each. intros r _. apply appends_writes; [writes_chain|done].
Qed.

Lemma Fir_behaves_valid x : valid x -> behaves x (wire x) (eq (wire x)) (Rtcp.BlockLength x).
Proof.
  intros Hx. pose proof (len_nonneg (items x)).
  apply (simple_behaves body); [|by apply Fir_appends_body| |].
  - destruct Hx as [[_ _ Hn _] _]. intros. cbn. unfold Create.
    by rewrite bool_decide_eq_false_2.
  - unfold wire. rewrite len_app, Fir_len_payload_wire, len_header_wire.
    cbn. unfold BlockLength, kHeaderLength, Psfb.kCommonFeedbackLength, kFciLength. lia.
  - cbn. unfold BlockLength, kHeaderLength, Psfb.kCommonFeedbackLength, kFciLength. lia.
Qed.

#[global] Instance laws : RtcpPacketLaws t :=
  Build_RtcpPacketLaws t _ valid wire (fun x => eq (wire x)) Rtcp.BlockLength Fir_behaves_valid.

Lemma parse_request_wire r rest : request_valid r -> parse_request (request_wire r ++ rest) = Some r.
Proof. intros []. unfold parse_request, request_wire. read_wire. by destruct r. Qed.

Lemma Fir_Parse_wire this x rest :
  parsed x ->
  Parse this (CommonHeader.Header Psfb.kPacketType kFeedbackMessageType 0 (4 * (2 + 2 * len (items x)))
    (payload_wire x ++ rest)) = Some (true, x).
Proof.
  intros []. unfold Parse. hdr. rewrite !Z.eqb_refl. cbn [check mbind option_bind].
  unfold Psfb.kCommonFeedbackLength, kFciLength.
  assert (0 < len (items x)) by (destruct (items x); [done|rewrite len_cons; pose proof (len_nonneg l); lia]).
  replace (4 * (2 + 2 * len (items x)) - 8) with (len (items x) * 8) by lia.
  rewrite Z_mod_mult, Z_div_mult by lia. ztests.
  unfold payload_wire. rewrite <- app_assoc, Psfb.Psfb_Parse_wire by done. cbn [mbind option_bind].
  ptr_simpl. unfold len. rewrite Nat2Z.id.
  rewrite parse_items_wire; [by destruct x| |done].
  intros r rest' Hr. apply parse_request_wire. by eapply Forall_forall in Hr.
Qed.

Lemma Fir_roundtrip x : valid x -> round_trips Parse x x.
Proof.
  intros Hx. eapply round_trips_wire;
    [by apply Fir_behaves_valid|reflexivity| |by_compute|by_compute|by apply Fir_words_range|].
  - rewrite Fir_len_payload_wire. lia.
  - intros. apply Fir_Parse_wire, Hx.
Qed.

Lemma Fir_Parse_safe : safe_parser (is_psfb kFeedbackMessageType) Parse parsed eq.
Proof.
  intros this h [Hc Hb Hl Hw] Ht. unfold Parse. fb_checks Ht.
  unfold CommonHeader.payload_size_bytes, Psfb.kCommonFeedbackLength, kFciLength.
  set (size := CommonHeader.payload_size h) in *.
  destruct (Z.ltb_spec size (8 + 8)); [by eexists _, _|].
  destruct (Z.eqb_spec ((size - 8) mod 8) 0); [|by eexists _, _]. cbn [negb].
  destruct (Psfb.Psfb_Parse_safe (CommonHeader.payload h)) as (y & -> & Hy); [done|lia|].
  cbn [mbind option_bind].
  destruct (parse_items_safe parse_request 8 request_valid (Z.to_nat ((size - 8) / 8))
              (ptr_add (CommonHeader.payload h) 8)) as (l & -> & Hn & Hlv).
  - lia.
  - intros q Hq Hlq. unfold parse_request. read_safe. eexists. split; [done|]. by split.
  - by apply bytes_ok_ptr_add.
  - rewrite len_ptr_add by lia. Z.to_euclidean_division_equations; lia.
  - eexists _, _. split; [done|]. split; cbn; try done.
    + intros ->. cbn in Hn. Z.to_euclidean_division_equations; lia.
    + unfold len. rewrite Hn. Z.to_euclidean_division_equations; lia.
Qed.

End Fir.
