(* ===== verification/Nack.v ===== *)
(** * Generic negative acknowledgements

    src/src/myrtc/rtp_rtcp/nack.{h,cc}: the list of lost packets, its packing into items of a
    packet id and a bit mask of the 16 ids that follow, and the only [Create] that splits its
    content over several packets when the buffer is too small. *)

From S2P Require Import Prelude Buffer ByteIo Rtcp Wire Feedback.
From stdpp Require Import sorting.
Import ByteReader ByteWriter RtcpPacket.
#[local] Open Scope Z_scope.

Module Nack.

Definition kFeedbackMessageType : Z := 1.
Definition kNackItemLength : Z := 4.

Record PackedNack := MkPacked {
  first_pid : Z;
  bitmask : Z
}.

Record t := MkNack {
  fb : Rtpfb.t;
  packed : list PackedNack;
  packet_ids : list Z
}.

Definition init : t := MkNack Rtpfb.init [] [].
Definition SetSenderSsrc (this : t) (v : Z) : t :=
  MkNack (Rtpfb.SetSenderSsrc (fb this) v) (packed this) (packet_ids this).
Definition SetMediaSsrc (this : t) (v : Z) : t :=
  MkNack (Rtpfb.SetMediaSsrc (fb this) v) (packed this) (packet_ids this).

(** The inner loop of [Pack]: the ids that fit in the mask of [first_pid]. *)
Fixpoint pack_mask (first_pid bitmask : Z) (it : list Z) : Z * list Z :=
  match it with
  | [] => (bitmask, [])
  | id :: it' =>
      let shift := u16 (id - first_pid - 1) in
      if shift <=? 15 then pack_mask first_pid (Z.lor bitmask (Z.shiftl 1 shift)) it'
      else (bitmask, it)
  end.

(** The outer loop of [Pack]; every iteration consumes an id. *)
Fixpoint pack_loop (fuel : nat) (it : list Z) : option (list PackedNack) :=
  match it with
  | [] => Some []
  | id :: it' =>
      match fuel with
      | O => None
      | S fuel' =>
          let '(mask, rest) := pack_mask id 0 it' in
          l ← pack_loop fuel' rest;
          Some (MkPacked id mask :: l)
      end
  end.

Definition Pack (this : t) : option t :=
  check (negb (bool_decide (packet_ids this = []))) ;;
  check (bool_decide (length (packed this) = 0%nat)) ;;
  l ← pack_loop (length (packet_ids this)) (packet_ids this);
  Some (MkNack (fb this) (packed this ++ l) (packet_ids this)).

(** [SetPacketIds]; the overload for an array copies it into a vector first. *)
Definition SetPacketIds (this : t) (nack_list : list Z) : option t :=
  check (bool_decide (packet_ids this = [])) ;;
  check (bool_decide (length (packed this) = 0%nat)) ;;
  Pack (MkNack (fb this) (packed this) nack_list).

(** [for (uint16_t bitmask = item.bitmask; bitmask != 0; bitmask >>= 1, ++pid)]. *)
Fixpoint unpack_mask (fuel : nat) (pid bitmask : Z) : option (list Z) :=
  if bitmask =? 0 then Some [] else
  match fuel with
  | O => None
  | S fuel' =>
      l ← unpack_mask fuel' (u16 (pid + 1)) (Z.shiftr bitmask 1);
      Some (if negb (Z.land bitmask 1 =? 0) then pid :: l else l)
  end.

Fixpoint unpack_loop (items : list PackedNack) : option (list Z) :=
  match items with
  | [] => Some []
  | item :: items' =>
      ids ← unpack_mask 16 (u16 (first_pid item + 1)) (bitmask item);
      l ← unpack_loop items';
      Some (first_pid item :: ids ++ l)
  end.

Definition Unpack (this : t) : option t :=
  check (bool_decide (packet_ids this = [])) ;;
  check (negb (bool_decide (length (packed this) = 0%nat))) ;;
  l ← unpack_loop (packed this);
  Some (MkNack (fb this) (packed this) (packet_ids this ++ l)).

Definition parse_item (next_nack : list Z) : option PackedNack :=
  first_pid ← ReadBigEndian 16 2 next_nack;
  bitmask ← ReadBigEndian 16 2 (ptr_add next_nack 2);
  Some (MkPacked first_pid bitmask).

Definition Parse (this : t) (packet : CommonHeader.t) : option (bool * t) :=
  check (CommonHeader.type packet =? Rtpfb.kPacketType) ;;
  check (CommonHeader.fmt packet =? kFeedbackMessageType) ;;
  let size := CommonHeader.payload_size_bytes packet in
  if size <? Rtpfb.kCommonFeedbackLength + kNackItemLength then Some (false, this) else
  let nack_items := (size - Rtpfb.kCommonFeedbackLength) / kNackItemLength in
  fb ← Rtpfb.ParseCommonFeedback (CommonHeader.payload packet);
  packed ← parse_items parse_item kNackItemLength (Z.to_nat nack_items)
             (ptr_add (CommonHeader.payload packet) Rtpfb.kCommonFeedbackLength);
  x ← Unpack (MkNack fb packed []);
  Some (true, x).

Definition BlockLength (this : t) : Z :=
  kHeaderLength + Rtpfb.kCommonFeedbackLength + len (packed this) * kNackItemLength.

Definition kNackHeaderLength : Z := kHeaderLength + Rtpfb.kCommonFeedbackLength.

Definition write_item (item : PackedNack) : W unit :=
  (at_index 0 (fun p => WriteBigEndian 2 p (first_pid item)) ;;
   at_index 2 (fun p => WriteBigEndian 2 p (bitmask item))) ;;
  advance kNackItemLength.

(** One packet with the given items; [CheckedDivExact] checks the division by 4. *)
Definition write_fragment (fb : Rtpfb.t) (items : list PackedNack) : W unit :=
  let payload_size_bytes := Rtpfb.kCommonFeedbackLength + len items * kNackItemLength in
  dcheck (payload_size_bytes mod 4 =? 0) ;;
  CreateHeader kFeedbackMessageType Rtpfb.kPacketType (payload_size_bytes / 4) false ;;
  at_index 0 (Rtpfb.CreateCommonFeedback fb) ;;
  advance Rtpfb.kCommonFeedbackLength ;;
  for_each items write_item.

(** The loop of [Create]; [todo] are the items from [nack_index] on. *)
Fixpoint create_loop (fuel : nat) (fb : Rtpfb.t) (todo : list PackedNack) (max_length : Z)
    (callback : bool) : W bool :=
  match todo with
  | [] => mret true
  | _ =>
      match fuel with
      | O => abort
      | S fuel' =>
          i ← get_index;
          let bytes_left_in_buffer := u64 (max_length - i) in
          if bytes_left_in_buffer <? kNackHeaderLength + kNackItemLength then
            ok ← OnBufferFull callback;
            if ok : bool then create_loop fuel' fb todo max_length callback else mret false
          else
            let num_nack_fields :=
              Z.min ((bytes_left_in_buffer - kNackHeaderLength) / kNackItemLength) (len todo) in
            write_fragment fb (take (Z.to_nat num_nack_fields) todo) ;;
            i' ← get_index;
            dcheck (i' <=? max_length) ;;
            create_loop fuel' fb (drop (Z.to_nat num_nack_fields) todo) max_length callback
      end
  end.

Definition Create (this : t) (max_length : Z) (callback : bool) : W bool :=
  dcheck (negb (bool_decide (length (packed this) = 0%nat))) ;;
  create_loop (2 * length (packed this)) (fb this) (packed this) max_length callback.

#[global] Instance ops : RtcpPacketOps t := Build_RtcpPacketOps t BlockLength Create.

(** ** Packing *)

(** The positions of the one bits among the [k] bits of [mask], counted from [base]. *)
Fixpoint bits (k : nat) (base mask : Z) : list Z :=
  match k with
  | O => []
  | S k' => (if Z.odd mask then [base] else []) ++ bits k' (base + 1) (Z.div2 mask)
  end.

Lemma elem_of_bits k base mask y :
  y ∈ bits k base mask <-> base <= y < base + Z.of_nat k /\ Z.testbit mask (y - base) = true.
Proof.
  revert base mask. induction k as [|k IH]; intros base mask; cbn [bits].
  { rewrite elem_of_nil. lia. }
  rewrite elem_of_app, IH.
  assert (Hodd : y ∈ (if Z.odd mask then [base] else []) <-> y = base /\ Z.odd mask = true).
  { destruct (Z.odd mask); rewrite ?list_elem_of_singleton, ?elem_of_nil; intuition done. }
  rewrite Hodd. destruct (decide (y = base)) as [->|Hne].
  - rewrite Z.sub_diag, Z.bit0_odd. intuition lia.
  - destruct (decide (base < y)) as [Hlt|Hge]; [|intuition lia].
    replace (Z.testbit (Z.div2 mask) (y - (base + 1))) with (Z.testbit mask (y - base));
      [intuition lia|].
    rewrite Z.div2_spec, Z.shiftr_spec by lia. f_equal. lia.
Qed.

Lemma bits_0 k base : bits k base 0 = [].
Proof. revert base. induction k as [|k IH]; intros base; [done|]. cbn. apply IH. Qed.

Lemma bits_sorted k base mask : StronglySorted Z.lt (bits k base mask).
Proof.
  revert base mask. induction k as [|k IH]; intros base mask; [constructor|]. cbn [bits].
  destruct (Z.odd mask); cbn [app]; [|apply IH]. constructor; [apply IH|].
  apply Forall_forall. intros y Hy. apply elem_of_bits in Hy. lia.
Qed.

Lemma unpack_mask_bits k P mask :
  in_u (Z.of_nat k) mask -> unpack_mask k (u16 P) mask = Some (u16 <$> bits k P mask).
Proof.
  revert P mask. induction k as [|k IH]; intros P mask [H1 H2].
  { replace mask with 0 by lia. done. }
  cbn [unpack_mask]. destruct (Z.eqb_spec mask 0) as [->|Hn]; [by rewrite bits_0|].
  replace (u16 (u16 P + 1)) with (u16 (P + 1)) by (unfold wrap; by rewrite Zplus_mod_idemp_l).
  change (Z.shiftr mask 1) with (Z.div2 mask).
  rewrite IH; [|split; rewrite Nat2Z.inj_succ, Z.pow_succ_r in H2 by lia;
    rewrite ?Z.div2_div; Z.to_euclidean_division_equations; lia].
  cbn [mbind option_bind bits]. rewrite fmap_app. do 2 f_equal.
  change 1 with (Z.ones 1). rewrite Z.land_ones by lia. change (2 ^ 1) with 2.
  rewrite Zmod_odd. by destruct (Z.odd mask).
Qed.

(** Two strictly increasing lists with the same elements are equal. *)
Lemma sorted_ext (l1 l2 : list Z) :
  StronglySorted Z.lt l1 -> StronglySorted Z.lt l2 -> (forall y, y ∈ l1 <-> y ∈ l2) -> l1 = l2.
Proof.
  intros H1. revert l2. induction H1 as [|x l1 _ IH Hx]; intros l2 H2 He.
  - destruct l2 as [|y l2]; [done|]. exfalso. apply (not_elem_of_nil y), He, list_elem_of_here.
  - destruct H2 as [|y l2 H2 Hy].
    { exfalso. apply (not_elem_of_nil x), He, list_elem_of_here. }
    rewrite Forall_forall in Hx, Hy.
    assert (x = y) as <-.
    { assert (x ∈ y :: l2) as Hxy by (apply He, list_elem_of_here).
      assert (y ∈ x :: l1) as Hyx by (apply He, list_elem_of_here).
      apply elem_of_cons in Hxy as [|Hxy]; [done|]. apply elem_of_cons in Hyx as [|Hyx]; [done|].
      specialize (Hx _ Hyx). specialize (Hy _ Hxy). lia. }
    f_equal. apply IH; [done|]. intros z. specialize (He z). rewrite !elem_of_cons in He.
    split; intros Hz.
    + destruct He as [[->|] _]; [by right| |done]. specialize (Hx _ Hz). lia.
    + destruct He as [_ [->|]]; [by right| |done]. specialize (Hy _ Hz). lia.
Qed.

Definition in_mask (first x : Z) : Z := u16 (x - first - 1).

Lemma in_mask_range first x : 0 <= in_mask first x.
Proof. apply wrap_range. lia. Qed.

Lemma lor_bit_range mask i : in_u 16 mask -> 0 <= i <= 15 -> in_u 16 (Z.lor mask (Z.shiftl 1 i)).
Proof.
  intros [H1 H2] Hi. split.
  { apply Z.lor_nonneg. split; [done|]. apply Z.shiftl_nonneg. lia. }
  apply Z.bounded_iff_bits_nonneg; [lia| |].
  { apply Z.lor_nonneg. split; [done|]. apply Z.shiftl_nonneg. lia. }
  intros j Hj. rewrite Z.lor_spec, Z.shiftl_1_l, Z.pow2_bits_false by lia.
  rewrite orb_false_r. apply (Z.bounded_iff_bits_nonneg 16 mask); lia.
Qed.

(** The mask holds exactly the ids the inner loop consumed. *)
Lemma pack_mask_spec first mask it mask' rest :
  pack_mask first mask it = (mask', rest) -> in_u 16 mask ->
  exists pre, it = pre ++ rest /\ in_u 16 mask' /\
    (forall i, 0 <= i -> Z.testbit mask' i = true <->
       Z.testbit mask i = true \/ exists x, x ∈ pre /\ in_mask first x = i) /\
    (forall x, x ∈ pre -> in_mask first x <= 15).
Proof.
  revert mask. induction it as [|id it IH]; intros mask Hp Hm; cbn [pack_mask] in Hp.
  - injection Hp as <- <-. exists []. repeat split; try apply Hm; try done; try lia.
    + by left.
    + intros [|(x & Hx & _)]; [done|]. by apply elem_of_nil in Hx.
    + intros x Hx. by apply elem_of_nil in Hx.
  - fold (in_mask first id) in Hp. pose proof (in_mask_range first id).
    destruct (Z.leb_spec (in_mask first id) 15).
    + apply IH in Hp as (pre & -> & Hm' & Hb & Hs); [|by apply lor_bit_range].
      exists (id :: pre). split; [done|]. split; [done|]. split.
      * intros i Hi. rewrite Hb, Z.lor_spec, Z.shiftl_1_l, orb_true_iff by done.
        rewrite Z.pow2_bits_eqb, Z.eqb_eq by done. split.
        -- intros [[|]|(x & Hx & He)]; [by left|right..].
           ++ exists id. split; [apply list_elem_of_here|done].
           ++ exists x. split; [by apply list_elem_of_further|done].
        -- intros [|(x & Hx & He)]; [by left; left|].
           apply elem_of_cons in Hx as [->|Hx]; [by left; right|]. right. by exists x.
      * intros x Hx. apply elem_of_cons in Hx as [->|Hx]; [lia|by apply Hs].
    + injection Hp as <- <-. exists []. repeat split; try apply Hm; try done; try lia.
      * by left.
      * intros [|(x & Hx & _)]; [done|]. by apply elem_of_nil in Hx.
      * intros x Hx. by apply elem_of_nil in Hx.
Qed.

Record item_valid (x : PackedNack) : Prop := {
  valid_pid : in_u 16 (first_pid x);
  valid_mask : in_u 16 (bitmask x)
}.

(** The ids an item stands for. *)
Definition item_ids (x : PackedNack) : list Z :=
  first_pid x :: (u16 <$> bits 16 (first_pid x + 1) (bitmask x)).

Lemma unpack_loop_ids l :
  Forall item_valid l -> unpack_loop l = Some (mjoin (item_ids <$> l)).
Proof.
  induction 1 as [|x l [Hp Hm] _ IH]; [done|]. cbn [unpack_loop].
  rewrite unpack_mask_bits by done. cbn [mbind option_bind]. rewrite IH. done.
Qed.

Lemma item_ids_elem first mask pre y :
  in_u 16 first -> Forall (in_u 16) pre ->
  (forall i, 0 <= i -> Z.testbit mask i = true <-> exists x, x ∈ pre /\ in_mask first x = i) ->
  (forall x, x ∈ pre -> in_mask first x <= 15) ->
  y ∈ u16 <$> bits 16 (first + 1) mask <-> y ∈ pre.
Proof.
  intros Hf Hpre Hb Hs.
  assert (Hinv : forall x, x ∈ pre -> u16 (first + 1 + in_mask first x) = x).
  { intros x Hx. unfold in_mask, wrap. rewrite Zplus_mod_idemp_r.
    replace (first + 1 + (x - first - 1)) with x by lia. apply Z.mod_small.
    rewrite Forall_forall in Hpre. by apply Hpre. }
  rewrite list_elem_of_fmap. split.
  - intros (z & -> & Hz). apply elem_of_bits in Hz as [Hr Ht].
    apply Hb in Ht as (x & Hx & He); [|lia].
    replace z with (first + 1 + in_mask first x) by lia. by rewrite Hinv.
  - intros Hy. exists (first + 1 + in_mask first y). split; [by rewrite Hinv|].
    pose proof (in_mask_range first y). specialize (Hs y Hy).
    apply elem_of_bits. split; [lia|]. replace (_ - _) with (in_mask first y) by lia.
    apply Hb; [done|]. by exists y.
Qed.

(** [Pack] terminates and keeps the set of ids. *)
Lemma pack_loop_spec fuel ids :
  (length ids <= fuel)%nat -> Forall (in_u 16) ids ->
  exists l, pack_loop fuel ids = Some l /\ Forall item_valid l /\ len l <= len ids /\
    (ids <> [] -> l <> []) /\ (forall y, y ∈ mjoin (item_ids <$> l) <-> y ∈ ids).
Proof.
  revert ids. induction fuel as [|fuel IH]; intros [|id it] Hl Hv; try (cbn in Hl; lia).
  1, 2: by exists [].
  apply Forall_cons in Hv as [Hid Hit]. cbn [pack_loop].
  destruct (pack_mask id 0 it) as [mask rest] eqn:E.
  apply pack_mask_spec in E as (pre & -> & Hm & Hb & Hs); [|by_compute].
  apply Forall_app in Hit as [Hpre Hrest]. cbn [length] in Hl. rewrite length_app in Hl.
  destruct (IH rest) as (l & -> & Hlv & Hll & _ & Hle); [lia|done|].
  eexists. split; [done|]. split; [by constructor|]. split; [|split; [done|]].
  - rewrite !len_cons, len_app. pose proof (len_nonneg pre). lia.
  - intros y. rewrite mjoin_fmap_cons. unfold item_ids. cbn [first_pid bitmask].
    rewrite <- app_comm_cons, !elem_of_cons, !elem_of_app, Hle.
    rewrite (item_ids_elem id mask pre y); [done|done|done| |done].
    intros i Hi. rewrite Hb by done. rewrite Z.bits_0. intuition done.
Qed.

(** Ids in increasing order (of the sequence numbers they abbreviate), spread over less than a
    period, come back in the same order. *)
Lemma pack_loop_sorted fuel ids :
  (length ids <= fuel)%nat -> StronglySorted Z.lt ids ->
  (forall a b, a ∈ ids -> b ∈ ids -> b - a < 2 ^ 16) ->
  exists l, pack_loop fuel (u16 <$> ids) = Some l /\ Forall item_valid l /\
    mjoin (item_ids <$> l) = u16 <$> ids.
Proof.
  revert ids. induction fuel as [|fuel IH]; intros [|F it] Hl Hso Hsp; try (cbn in Hl; lia).
  1, 2: by exists [].
  apply StronglySorted_inv in Hso as [Hso HF]. rewrite Forall_forall in HF.
  rewrite fmap_cons. cbn [pack_loop].
  destruct (pack_mask (u16 F) 0 (u16 <$> it)) as [mask rest] eqn:E.
  apply pack_mask_spec in E as (pre & Hpre & Hm & Hb & Hs); [|by_compute].
  apply fmap_app_inv in Hpre as (l1 & l2 & -> & -> & ->).
  cbn [length] in Hl. rewrite length_app in Hl.
  apply StronglySorted_app in Hso as (Hcross & Hso1 & Hso2).
  destruct (IH l2) as (l & -> & Hlv & Hle); [lia|done| |].
  { intros a b Ha Hb'. apply Hsp; apply elem_of_cons; right; apply elem_of_app; by right. }
  eexists. split; [done|]. split.
  { constructor; [|done]. split; [apply wrap_range; lia|done]. }
  rewrite mjoin_fmap_cons, Hle, fmap_app. unfold item_ids. cbn [first_pid bitmask app]. f_equal. f_equal.
  assert (Hmask : forall x, x ∈ l1 -> in_mask (u16 F) (u16 x) = x - F - 1).
  { intros x Hx. assert (x ∈ l1 ++ l2) by (apply elem_of_app; by left).
    specialize (HF x ltac:(done)).
    assert (x - F < 2 ^ 16).
    { apply Hsp; [apply list_elem_of_here|by apply list_elem_of_further]. }
    unfold in_mask, wrap. rewrite <- Zminus_mod_idemp_l, <- Zminus_mod, Zminus_mod_idemp_l.
    apply Z.mod_small. lia. }
  assert (Hbits : bits 16 (F + 1) mask = l1).
  { apply sorted_ext; [apply bits_sorted|done|]. intros y. rewrite elem_of_bits. split.
    - intros [Hr Ht]. apply Hb in Ht as [Ht|(z & Hz & He)]; [by rewrite Z.bits_0 in Ht| |lia].
      apply list_elem_of_fmap in Hz as (x & -> & Hx). rewrite Hmask in He by done.
      by replace y with x by lia.
    - intros Hy. pose proof (Hmask y Hy) as He.
      assert (u16 y ∈ u16 <$> l1) as Hy' by (apply list_elem_of_fmap; by exists y).
      pose proof (Hs _ Hy'). pose proof (in_mask_range (u16 F) (u16 y)).
      split; [lia|]. apply Hb; [lia|]. right. exists (u16 y). split; [done|lia]. }
  transitivity (u16 <$> bits 16 (F + 1) mask); [|by rewrite Hbits].
  assert (Hshift : forall k b1 b2, u16 b1 = u16 b2 -> forall m, u16 <$> bits k b1 m = u16 <$> bits k b2 m).
  { clear. induction k as [|k IH]; intros b1 b2 H m; [done|]. cbn [bits]. rewrite !fmap_app.
    f_equal; [destruct (Z.odd m); cbn; by rewrite ?H|]. apply IH.
    unfold wrap in *. by rewrite Zplus_mod, H, <- Zplus_mod. }
  apply Hshift. unfold wrap. by rewrite Zplus_mod_idemp_l.
Qed.

(** ** Writing *)

Record valid (x : t) : Prop := {
  valid_fb : Rtpfb.valid (fb x);
  valid_items : Forall item_valid (packed x);
  valid_some : packed x <> [];
  valid_count : 2 + len (packed x) <= 0xffff
}.

Definition item_wire (i : PackedNack) : list Z := be_bytes 2 (first_pid i) ++ be_bytes 2 (bitmask i).

Definition payload_wire (fb : Rtpfb.t) (items : list PackedNack) : list Z :=
  Rtpfb.wire fb ++ mjoin (item_wire <$> items).

(** One NACK packet, with a part of the items. *)
Definition frag_wire (fb : Rtpfb.t) (items : list PackedNack) : list Z :=
  header_wire kFeedbackMessageType Rtpfb.kPacketType (2 + len items) false ++ payload_wire fb items.

Definition wire (x : t) : list Z := frag_wire (fb x) (packed x).

(** A sequence of NACK packets that together carry the items, in order, none of them empty. *)
Definition fragments (fb : Rtpfb.t) (items : list PackedNack) (w : list Z) : Prop :=
  exists parts, mjoin parts = items /\ Forall (fun part => part <> []) parts /\
    w = mjoin (frag_wire fb <$> parts).

Lemma Nack_len_payload_wire b l : len (payload_wire b l) = 8 + 4 * len l.
Proof. unfold payload_wire. rewrite len_app, (len_items _ _ 4) by done. done. Qed.

Lemma len_frag_wire b l : len (frag_wire b l) = 12 + 4 * len l.
Proof. unfold frag_wire. rewrite len_app, Nack_len_payload_wire, len_header_wire. lia. Qed.

Lemma len_pos {A} (l : list A) : l <> [] -> 0 < len l.
Proof. destruct l as [|a l]; [done|]. intros _. rewrite len_cons. pose proof (len_nonneg l). lia. Qed.

Lemma appends_write_fragment b l :
  2 + len l <= 0xffff -> appends (write_fragment b l) (frag_wire b l).
Proof.
  intros Hl. pose proof (len_nonneg l). unfold write_fragment, Rtpfb.kCommonFeedbackLength, kNackItemLength.
  replace (8 + len l * 4) with ((2 + len l) * 4) by lia. rewrite Z_mod_mult, Z_div_mult by lia.
  apply appends_dcheck; [done|].
  eapply appends_seq; [apply RoomFacts.appends_CreateHeader|eapply appends_writes_then|reflexivity].
  - by_compute.
  - by_compute.
  - unfold in_u. change (2 ^ 16) with 65536. lia.
  - writes_chain.
  - done.
  - apply appends_for_each. intros i _. apply appends_writes; [writes_chain|done].
  - done.
Qed.

(** One step of the loop that finds room: it writes as many items as fit. *)
Lemma create_loop_write fuel b todo max cb s :
  good max s -> todo <> [] -> index s + 16 <= max -> 2 + len todo <= 0xffff ->
  let n := Z.to_nat (Z.min ((max - index s - 12) / 4) (len todo)) in
  (1 <= n <= length todo)%nat /\ index s + len (frag_wire b (take n todo)) <= max /\
  create_loop (S fuel) b todo max cb s =
    create_loop fuel b (drop n todo) max cb (append (frag_wire b (take n todo)) s).
Proof.
  intros Hg Hne Hroom Hlen n. destruct Hg as [Hi [Hm Hm64]].
  pose proof (len_pos _ Hne) as Hpos.
  assert (Hn : (1 <= n <= length todo)%nat).
  { unfold n, len in *. Z.to_euclidean_division_equations; lia. }
  assert (Hfit : index s + len (frag_wire b (take n todo)) <= max).
  { rewrite len_frag_wire. unfold len. rewrite length_take. unfold n, len in *.
    Z.to_euclidean_division_equations; lia. }
  split; [done|]. split; [done|].
  destruct todo as [|i todo']; [done|]. cbn [create_loop]. set (todo := i :: todo') in *.
  rewrite (ST_bind_ret _ _ s (index s) s) by done. cbv zeta.
  rewrite (wrap_small 64) by (split; lia).
  change (kNackHeaderLength + kNackItemLength) with 16. change kNackHeaderLength with 12.
  change kNackItemLength with 4.
  replace (max - index s <? 16) with false by (symmetry; apply Z.ltb_ge; lia). fold n.
  assert (Hlt : 2 + len (take n todo) <= 0xffff).
  { unfold len in *. rewrite length_take. lia. }
  rewrite (ST_bind_ret _ _ _ _ _ (appends_write_fragment b _ Hlt s ltac:(lia) ltac:(lia))).
  set (s' := append _ s). rewrite (ST_bind_ret _ _ s' (index s') s') by done.
  rewrite (ST_bind_ret _ _ s' tt s'); [done|]. unfold s', append. cbn [index].
  by replace (_ <=? max) with true by (symmetry; apply Z.leb_le; lia).
Qed.

(** A step that finds none. *)
Lemma create_loop_flush fuel b todo max cb s :
  good max s -> todo <> [] -> max < index s + 16 ->
  create_loop (S fuel) b todo max cb s =
    match OnBufferFull cb s with
    | Some (true, s') => create_loop fuel b todo max cb s'
    | Some (false, s') => Some (false, s')
    | None => None
    end.
Proof.
  intros [Hi [Hm Hm64]] Hne Hroom. destruct todo as [|i todo']; [done|]. cbn [create_loop].
  rewrite (ST_bind_ret _ _ s (index s) s) by done. cbv zeta.
  rewrite (wrap_small 64) by (split; lia).
  change (kNackHeaderLength + kNackItemLength) with 16.
  replace (max - index s <? 16) with true by (symmetry; apply Z.ltb_lt; lia).
  unfold mbind, ST_bind.
  by destruct (OnBufferFull cb s) as [[[] s']|].
Qed.

Lemma create_loop_nil fuel b max cb s : create_loop fuel b [] max cb s = Some (true, s).
Proof. by destruct fuel. Qed.

(** Each item needs at most one flush and one write. *)
Lemma create_loop_total fuel b todo max s :
  good max s -> 2 + len todo <= 0xffff ->
  (2 * length todo <= fuel + (if decide (index s = 0%Z) then 1 else 0))%nat ->
  exists r s' w, create_loop fuel b todo max true s = Some (r, s') /\ delivers max s s' w /\
    (if r then (0 < index s \/ todo <> [] -> 0 < index s') /\ (todo <> [] -> 16 <= max) /\ fragments b todo w else max < 16).
Proof.
  revert todo s. induction fuel as [|fuel IH]; intros todo s Hg Hlen Hf;
    (destruct (decide (todo = [])) as [->|Hne];
     [exists true, s, []; rewrite create_loop_nil; split; [done|]; split;
      [by apply delivers_refl|split; [by intros []|split; [done|by exists []]]]|]).
  { destruct todo; [done|]. cbn [length] in Hf. destruct (decide _); lia. }
  destruct (decide (index s + 16 <= max)) as [Hroom|Hno].
  - destruct (create_loop_write fuel b todo max true s Hg Hne Hroom Hlen) as (Hn & Hfit & ->).
    set (n := Z.to_nat _) in *.
    pose proof (delivers_append max s _ Hg Hfit) as Hd.
    destruct (IH (drop n todo) (append (frag_wire b (take n todo)) s)) as (r & s' & w & Hr & Hd' & Hw).
    + by eapply delivers_good.
    + unfold len in *. rewrite length_drop. lia.
    + rewrite length_drop. destruct (decide _), (decide _); lia.
    + exists r, s', (frag_wire b (take n todo) ++ w). split; [done|].
      split; [by eapply delivers_trans|]. destruct r.
      * destruct Hw as (Hi' & _ & parts & Hj & Hp & ->). split; [|split; [destruct Hg; lia|]].
        { intros _. apply Hi'. left. cbn [append index]. rewrite len_frag_wire. pose proof (len_nonneg (take n todo)). destruct Hg. lia. }
        exists (take n todo :: parts). split; [|split].
        -- change (mjoin (?a :: ?l)) with (a ++ mjoin l). rewrite Hj. apply take_drop.
        -- constructor; [|done]. destruct todo, n; cbn; done || lia.
        -- done.
      * done.
  - rewrite create_loop_flush by (done || lia).
    destruct (decide (index s = 0)) as [H0|Hn0].
    + exists false, s, []. unfold OnBufferFull. rewrite H0. cbn [Z.eqb].
      split; [done|]. split; [by apply delivers_refl|]. lia.
    + destruct (RoomFacts.OnBufferFull_delivers max s Hg) as (s1 & -> & Hd & Hi1); [destruct Hg; lia|].
      destruct (IH todo s1) as (r & s' & w & Hr & Hd' & Hw).
      * by eapply delivers_good.
      * done.
      * rewrite decide_True by done. lia.
      * exists r, s', w. split; [done|]. split; [by apply (delivers_trans max s s1 s' [] w)|].
        destruct r; [|done]. destruct Hw as (Hi' & Hw). auto.
Qed.

Lemma create_loop_fits fuel b todo max cb s :
  good max s -> todo <> [] -> 2 + len todo <= 0xffff -> index s + 12 + 4 * len todo <= max ->
  create_loop (S fuel) b todo max cb s = Some (true, append (frag_wire b todo) s).
Proof.
  intros Hg Hne Hlen Hfit. pose proof (len_pos _ Hne).
  destruct (create_loop_write fuel b todo max cb s Hg Hne ltac:(lia) Hlen) as (_ & _ & ->).
  replace (Z.to_nat _) with (length todo).
  - by rewrite take_ge, drop_ge, create_loop_nil.
  - unfold len in *. Z.to_euclidean_division_equations; lia.
Qed.

Lemma Nack_behaves_valid x : valid x -> behaves x (wire x) (fragments (fb x) (packed x)) 16.
Proof.
  intros []. pose proof (len_pos _ valid_some0) as Hpos.
  assert (Hc : forall max cb s, Create x max cb s =
    create_loop (2 * length (packed x)) (fb x) (packed x) max cb s).
  { intros. unfold Create. rewrite bool_decide_eq_false_2; [done|]. by destruct (packed x). }
  assert (Hbl : BlockLength x = 12 + 4 * len (packed x)).
  { unfold BlockLength, kHeaderLength, Rtpfb.kCommonFeedbackLength, kNackItemLength. lia. }
  split; cbn [Rtcp.BlockLength Rtcp.Create ops].
  - unfold wire. rewrite len_frag_wire. done.
  - lia.
  - lia.
  - exists [packed x]. split; [|split].
    + cbn. apply app_nil_r.
    + by constructor.
    + cbn. by rewrite app_nil_r.
  - intros max cb s Hg Hfit. rewrite Hc.
    destruct (2 * length (packed x))%nat eqn:E; [unfold len in Hpos; lia|].
    apply create_loop_fits; [done..|lia].
  - intros max s Hg. rewrite Hc.
    destruct (create_loop_total (2 * length (packed x)) (fb x) (packed x) max s Hg)
      as (r & s' & w & Hr & Hd & Hw); [done|lia|].
    exists r, s', w. split; [done|]. split; [done|]. destruct r; [|done]. destruct Hw as (Hi' & Hl & Hw). auto.
Qed.

#[global] Instance laws : RtcpPacketLaws t :=
  Build_RtcpPacketLaws t _ valid wire (fun x => fragments (fb x) (packed x)) (fun _ => 16) Nack_behaves_valid.

(** Alone in its datagrams, a NACK is one packet per datagram. *)
Lemma create_loop_datagrams fuel b todo max s :
  good max s -> 2 + len todo <= 0xffff -> todo <> [] -> index s = 0 -> 16 <= max ->
  (2 * length todo <= S fuel)%nat ->
  exists parts last s', create_loop fuel b todo max true s = Some (true, s') /\
    mjoin (parts ++ [last]) = todo /\ Forall (fun part => part <> []) (parts ++ [last]) /\
    ready s' = ready s ++ (frag_wire b <$> parts) /\
    0 < index s' <= max /\ take (Z.to_nat (index s')) (packet s') = frag_wire b last /\
    len (packet s') = len (packet s) /\ Forall (fun part => len (frag_wire b part) <= max) parts.
Proof.
  revert todo s. induction fuel as [fuel IH] using lt_wf_ind. intros todo s Hg Hlen Hne H0 Hmax Hf.
  pose proof (len_pos _ Hne) as Hpos.
  destruct fuel as [|fuel]; [unfold len in Hpos; lia|].
  destruct (create_loop_write fuel b todo max true s Hg Hne ltac:(lia) Hlen) as (Hn & Hfit & ->).
  set (n := Z.to_nat _) in *. pose proof Hg as [Hi [Hm _]].
  pose proof (len_frag_wire b (take n todo)) as Hlf. pose proof (len_nonneg (take n todo)).
  assert (Hhead : take n todo <> []) by (destruct todo, n; cbn; done || lia).
  pose proof (delivers_append max s _ Hg Hfit) as Hd. set (s1 := append _ s) in *.
  assert (Hi1 : index s1 = len (frag_wire b (take n todo))) by (unfold s1, append; cbn; lia).
  assert (Ht1 : take (Z.to_nat (index s1)) (packet s1) = frag_wire b (take n todo)).
  { rewrite Hi1. unfold s1, append. cbn [packet]. rewrite H0, <- (Z.add_0_l (len _)).
    rewrite take_splice by lia. done. }
  assert (Hl1 : len (packet s1) = len (packet s)) by apply Hd.
  destruct (decide (drop n todo = [])) as [Hd0|Hd0].
  - exists [], (take n todo), s1. rewrite Hd0, create_loop_nil. split; [done|].
    assert (Hall : take n todo = todo) by (rewrite <- (take_drop n todo) at 2; by rewrite Hd0, app_nil_r).
    rewrite app_nil_l. split; [cbn; by rewrite app_nil_r|]. split; [by constructor|].
    split; [cbn; by rewrite app_nil_r|]. split; [lia|]. split; [done|]. split; [done|constructor].
  - assert (Hsmall : max < index s1 + 16 /\ (1 <= fuel)%nat).
    { apply len_pos in Hd0. unfold len in Hd0. rewrite length_drop in Hd0. rewrite Hi1, Hlf.
      unfold len. rewrite length_take. unfold n, len in *. rewrite H0 in *.
      Z.to_euclidean_division_equations; lia. }
    destruct Hsmall as [Hsmall Hfuel]. destruct fuel as [|fuel]; [lia|].
    pose proof (delivers_good _ _ _ _ Hg Hd) as Hg1.
    rewrite create_loop_flush by done. unfold OnBufferFull.
    replace (index s1 =? 0) with false by (symmetry; apply Z.eqb_neq; lia).
    replace (index s1 <=? len (packet s1)) with true by (symmetry; apply Z.leb_le; lia).
    cbn [andb]. rewrite Ht1. set (s2 := WState _ _ _).
    destruct (IH fuel ltac:(lia) (drop n todo) s2) as (parts & last & s' & Hr & Hj & Hp & Hrd & Hi' & Ht & Hl & Hsz).
    + split; [change (index s2) with 0; lia|]. change (packet s2) with (packet s1). split; [lia|apply Hg].
    + unfold len in *. rewrite length_drop. lia.
    + done.
    + done.
    + done.
    + rewrite length_drop. lia.
    + exists (take n todo :: parts), last, s'. split; [done|]. split.
      { cbn [app]. change (mjoin (?a :: ?l)) with (a ++ mjoin l). rewrite Hj. apply take_drop. }
      split; [by constructor|]. split.
      { rewrite Hrd. unfold s2, s1, append. cbn [ready]. by rewrite <- app_assoc. }
      split; [done|]. split; [done|]. split; [rewrite Hl; done|]. constructor; [lia|done].
Qed.

Lemma BuildTo_datagrams x max mem :
  valid x -> 16 <= max <= IP_PACKET_SIZE -> len mem = IP_PACKET_SIZE ->
  exists parts, Build.BuildTo x max mem = Some (true, frag_wire (fb x) <$> parts) /\
    mjoin parts = packed x /\ Forall (fun part => part <> []) parts /\
    Forall (fun part => len (frag_wire (fb x) part) <= max) parts.
Proof.
  intros [] Hmax Hm. unfold Build.BuildTo. unfold IP_PACKET_SIZE in *.
  replace (max <=? 1500) with true by (symmetry; apply Z.leb_le; lia). cbn [check mbind option_bind].
  cbn [Rtcp.Create ops]. unfold Create.
  rewrite bool_decide_eq_false_2 by by destruct (packed x).
  rewrite (ST_bind_ret _ _ _ tt (WState mem 0 [])) by done.
  destruct (create_loop_datagrams (2 * length (packed x)) (fb x) (packed x) max (WState mem 0 []))
    as (parts & last & s' & -> & Hj & Hp & Hrd & Hi & Ht & Hl & Hsz); try done; try lia.
  { split; cbn; [lia|]. split; [lia|]. zconst. lia. }
  unfold OnBufferFull. cbn in Hl.
  replace (index s' =? 0) with false by (symmetry; apply Z.eqb_neq; lia).
  replace (index s' <=? len (packet s')) with true by (symmetry; apply Z.leb_le; lia).
  cbn [andb ready]. exists (parts ++ [last]). rewrite Ht, Hrd, fmap_app. cbn [ready app].
  split; [done|]. split; [done|]. split; [done|]. apply Forall_app. split; [done|].
  constructor; [|constructor]. rewrite <- Ht. unfold len in *. rewrite length_take. lia.
Qed.

(** ** Parsing *)

(** The object [Parse] makes of a packet with these items. *)
Definition received (b : Rtpfb.t) (items : list PackedNack) : t :=
  MkNack b items (mjoin (item_ids <$> items)).

Lemma Unpack_received b items :
  Forall item_valid items -> items <> [] -> Unpack (MkNack b items []) = Some (received b items).
Proof.
  intros Hv Hne. unfold Unpack. cbn [packet_ids packed]. rewrite (bool_decide_eq_true_2 ([] = [])) by done.
  rewrite bool_decide_eq_false_2 by by destruct items. cbn [negb check mbind option_bind].
  by rewrite unpack_loop_ids.
Qed.

Lemma Nack_parse_item_wire i rest : item_valid i -> parse_item (item_wire i ++ rest) = Some i.
Proof. intros []. unfold parse_item, item_wire. read_wire. by destruct i. Qed.

Lemma Nack_Parse_wire this b items rest :
  Rtpfb.valid b -> Forall item_valid items -> items <> [] ->
  Parse this (CommonHeader.Header Rtpfb.kPacketType kFeedbackMessageType 0 (4 * (2 + len items))
    (payload_wire b items ++ rest)) = Some (true, received b items).
Proof.
  intros Hb Hv Hne. pose proof (len_pos _ Hne). unfold Parse. hdr. rewrite !Z.eqb_refl.
  cbn [check mbind option_bind]. unfold Rtpfb.kCommonFeedbackLength, kNackItemLength.
  replace (4 * (2 + len items) - 8) with (len items * 4) by lia. rewrite Z_div_mult by lia. ztests.
  unfold payload_wire. rewrite <- app_assoc, Rtpfb.Rtpfb_Parse_wire by done. cbn [mbind option_bind].
  ptr_simpl. replace (Z.to_nat (len items)) with (length items) by (unfold len; lia).
  rewrite parse_items_wire; [|intros i r Hi; apply Nack_parse_item_wire; by eapply Forall_forall in Hi|done].
  cbn [mbind option_bind]. by rewrite Unpack_received.
Qed.

Lemma Nack_words_range (items : list PackedNack) : 2 + len items <= 0xffff -> in_u 16 (2 + len items).
Proof. intros. unfold in_u. change (2 ^ 16) with 65536. pose proof (len_nonneg items). lia. Qed.

Lemma Nack_roundtrip x : valid x -> round_trips Parse x (received (fb x) (packed x)).
Proof.
  intros Hx. pose proof (Nack_behaves_valid x Hx) as Hb. destruct Hx.
  eapply round_trips_wire; [done|reflexivity| |by_compute|by_compute|by apply Nack_words_range|].
  - rewrite Nack_len_payload_wire. lia.
  - intros. by apply Nack_Parse_wire.
Qed.

Lemma frag_parses b items h0 this :
  Rtpfb.valid b -> Forall item_valid items -> items <> [] -> 2 + len items <= 0xffff ->
  exists h, CommonHeader.Parse h0 (frag_wire b items) (len (frag_wire b items)) = Some (true, h) /\
    Parse this h = Some (true, received b items).
Proof.
  intros Hb Hv Hne Hl. unfold frag_wire at 1.
  rewrite HeaderFacts.HeaderFacts_Parse_wire; [|by_compute|by_compute|by apply Nack_words_range|rewrite len_frag_wire; lia].
  eexists. split; [done|]. rewrite <- (app_nil_r (payload_wire b items)), Z.mul_comm.
  by apply Nack_Parse_wire.
Qed.

Lemma Nack_Parse_safe : safe_parser (is_rtpfb kFeedbackMessageType) Parse valid eq.
Proof.
  intros this h [Hc Hb Hl Hw] Ht. unfold Parse. fb_checks Ht.
  unfold CommonHeader.payload_size_bytes, Rtpfb.kCommonFeedbackLength, kNackItemLength.
  set (size := CommonHeader.payload_size h) in *.
  destruct (Z.ltb_spec size (8 + 4)); [by eexists _, _|].
  destruct (Rtpfb.Rtpfb_Parse_safe (CommonHeader.payload h)) as (y & -> & Hy); [done|lia|].
  cbn [mbind option_bind].
  destruct (parse_items_safe parse_item 4 item_valid (Z.to_nat ((size - 8) / 4))
              (ptr_add (CommonHeader.payload h) 8)) as (l & -> & Hn & Hlv).
  - lia.
  - intros q Hq Hlq. unfold parse_item. read_safe. eexists. split; [done|]. by split.
  - by apply bytes_ok_ptr_add.
  - rewrite len_ptr_add by lia. Z.to_euclidean_division_equations; lia.
  - assert (l <> []) by (intros ->; cbn in Hn; Z.to_euclidean_division_equations; lia).
    cbn [mbind option_bind]. rewrite Unpack_received by done.
    eexists _, _. split; [done|]. split; cbn; try done.
    unfold len. rewrite Hn. Z.to_euclidean_division_equations; lia.
Qed.

End Nack.

(** ** Properties *)

(** The NACK list survives packing and the wire.  For every list of 16-bit packet ids that is
    not empty and fits in one packet, [SetPacketIds] on a fresh object succeeds, [Build] writes a
    packet of [BlockLength] bytes, and [Parse] gives the same ssrcs and exactly the same set of
    ids; when the ids are increasing sequence numbers (modulo 2^16, wrap-around included) spread
    over less than one period, they come back in the same order, without duplicates. *)
Lemma nack_roundtrip b ids :
  Rtpfb.valid b -> ids <> [] -> Forall (in_u 16) ids -> len ids <= 0xfffd ->
  exists x y, Nack.SetPacketIds (Nack.MkNack b [] []) ids = Some x /\
    round_trips Nack.Parse x y /\ Nack.fb y = b /\
    (forall id, id ∈ Nack.packet_ids y <-> id ∈ ids) /\
    (forall l, ids = u16 <$> l -> StronglySorted Z.lt l ->
       (forall p q, p ∈ l -> q ∈ l -> q - p < 2 ^ 16) -> Nack.packet_ids y = ids).
Proof.
  intros Hb Hne Hv Hlen.
  destruct (Nack.pack_loop_spec (length ids) ids) as (l & Hl & Hlv & Hll & Hln & Hle); [done|done|].
  exists (Nack.MkNack b l ids), (Nack.received b l). split; [|split; [|split; [done|split; [done|]]]].
  - unfold Nack.SetPacketIds, Nack.Pack. cbn [Nack.packet_ids Nack.packed Nack.fb].
    rewrite (bool_decide_eq_false_2 (ids = [])) by done. cbn. by rewrite Hl.
  - apply (Nack.Nack_roundtrip (Nack.MkNack b l ids)). split; cbn; try done; [by apply Hln|lia].
  - intros ul -> Hs Hsp.
    destruct (Nack.pack_loop_sorted (length ul) ul) as (l' & Hl' & _ & Hids); [done..|].
    rewrite length_fmap, Hl' in Hl. injection Hl as ->. done.
Qed.

(** Fragmentation loses nothing.  A NACK of any size built for datagrams of at most
    [max_length] bytes (16 bytes are enough) is delivered as a sequence of datagrams, none longer
    than [max_length]; each is one well-formed NACK packet with the same ssrcs that parses, and
    the items and the packet ids of the received packets, in order, are those of the original. *)
Lemma nack_fragmentation x max_length mem :
  Nack.valid x -> 16 <= max_length <= RtcpPacket.IP_PACKET_SIZE -> len mem = RtcpPacket.IP_PACKET_SIZE ->
  exists ds ys, Build.BuildTo x max_length mem = Some (true, ds) /\
    Forall2 (fun d y => len d <= max_length /\ Nack.fb y = Nack.fb x /\
      forall h0 this, exists h, CommonHeader.Parse h0 d (len d) = Some (true, h) /\
        Nack.Parse this h = Some (true, y)) ds ys /\
    mjoin (Nack.packed <$> ys) = Nack.packed x /\
    Nack.unpack_loop (Nack.packed x) = Some (mjoin (Nack.packet_ids <$> ys)).
Proof.
  intros Hx Hmax Hm. destruct (Nack.BuildTo_datagrams x max_length mem Hx Hmax Hm)
    as (parts & Hb & Hj & Hne & Hsz).
  exists (Nack.frag_wire (Nack.fb x) <$> parts), (Nack.received (Nack.fb x) <$> parts).
  destruct Hx as [Hfb Hv _ Hc]. split; [done|]. rewrite <- Hj in Hv, Hc |- *.
  rewrite Forall_forall in Hne, Hsz. split; [|split].
  - apply Forall2_fmap, Forall_Forall2_diag, Forall_forall. intros p Hp. split; [by apply Hsz|].
    split; [done|]. intros h0 this. apply Nack.frag_parses; [done| |by apply Hne|].
    + apply Forall_forall. intros i Hi. rewrite Forall_forall in Hv. apply Hv.
      apply list_elem_of_join. by exists p.
    + enough (len p <= len (mjoin parts)) by lia. apply list_elem_of_split in Hp as (a & c & ->).
      rewrite join_app. change (mjoin (p :: c)) with (p ++ mjoin c). rewrite !len_app. pose proof (len_nonneg (mjoin a)).
      pose proof (len_nonneg (mjoin c)). lia.
  - rewrite <- list_fmap_compose. f_equal. apply list_fmap_id.
  - rewrite Nack.unpack_loop_ids by done. f_equal. rewrite <- list_fmap_compose. clear.
    induction parts as [|p parts IH]; [done|]. change (mjoin (p :: parts)) with (p ++ mjoin parts).
    rewrite fmap_app, join_app, IH. done.
Qed.

(** [Nack::Parse] accepts or refuses every payload without reading outside it, without failing
    a check and with its unpacking loops terminating; a refused packet leaves the object
    unchanged, and an accepted one can be created again. *)
Lemma nack_parse_safe : safe_parser (is_rtpfb 1) Nack.Parse Nack.valid eq.
Proof. apply Nack.Nack_Parse_safe. Qed.
