(* ===== verification/Bitrate.v ===== *)
(** * Bandwidth feedback and loss notification

    src/src/myrtc/rtp_rtcp/tmmb_item.{h,cc}, tmmbr.{h,cc}, tmmbn.{h,cc}, remb.{h,cc} and
    loss_notification.{h,cc}.  Bit rates travel as a mantissa of [k] bits and an exponent; what the
    encoding keeps of a bit rate is [quantize]. *)

From S2P Require Import Prelude Buffer ByteIo Rtcp Wire Feedback.
Import ByteReader ByteWriter RtcpPacket.

Module BitrateCodec.

(** [while (mantissa > kMaxMantissa) { mantissa >>= 1; ++exponent; }] *)
Fixpoint normalize (fuel : nat) (kMaxMantissa mantissa exponent : Z) : option (Z * Z) :=
  if kMaxMantissa <? mantissa then
    match fuel with
    | O => None
    | S fuel' => normalize fuel' kMaxMantissa (Z.shiftr mantissa 1) (exponent + 1)
    end
  else Some (mantissa, exponent).

(** [bitrate = mantissa << exponent; shift_overflow = (bitrate >> exponent) != mantissa]. *)
Definition expand (mantissa exponent : Z) : Z * bool :=
  let bitrate := u64 (Z.shiftl mantissa exponent) in
  (bitrate, negb (Z.shiftr bitrate exponent =? mantissa)).

(** What a [k]-bit mantissa keeps of a bit rate. *)
Definition quantize (k v : Z) : Z :=
  match normalize 64 (2 ^ k - 1) v 0 with
  | Some (m, e) => m * 2 ^ e
  | None => 0
  end.

(** The pairs the loop ends with. *)
Record normal (k m e : Z) : Prop := {
  normal_m : 0 <= m < 2 ^ k;
  normal_e : 0 <= e;
  normal_min : e = 0 \/ 2 ^ (k - 1) <= m
}.

Lemma normalize_total fuel k v e0 :
  1 <= k -> 0 <= v < 2 ^ (k + Z.of_nat fuel) ->
  exists e, normalize fuel (2 ^ k - 1) v e0 = Some (v / 2 ^ e, e0 + e) /\ normal k (v / 2 ^ e) e.
Proof.
  intros Hk. revert v e0. induction fuel as [|fuel IH]; intros v e0 Hv; cbn [normalize];
    destruct (Z.ltb_spec (2 ^ k - 1) v).
  1: rewrite Z.add_0_r in Hv; lia.
  1, 3: exists 0; rewrite Z.pow_0_r, Z.div_1_r, Z.add_0_r; split; [done|]; split; [lia|lia|by left].
  rewrite Z.shiftr_div_pow2 by lia. change (2 ^ 1) with 2.
  destruct (IH (v / 2) (e0 + 1)) as (e & He & [Hm He0 Hmin]).
  { rewrite Nat2Z.inj_succ, Z.add_succ_r, Z.pow_succ_r in Hv by lia.
    split; [apply Z.div_pos; lia|apply Z.div_lt_upper_bound; lia]. }
  rewrite Z.div_div, <- Z.pow_succ_r in He, Hm, Hmin by lia.
  exists (Z.succ e). rewrite He. split; [do 2 f_equal; lia|]. split; [done|lia|right].
  destruct Hmin as [->|]; [|done]. change (2 ^ Z.succ 0) with 2.
  apply Z.div_le_lower_bound; [lia|].
  rewrite <- Z.pow_succ_r by lia. replace (Z.succ (k - 1)) with k by lia. lia.
Qed.

Lemma normalize_exact fuel k m e e0 :
  1 <= k -> normal k m e -> e <= Z.of_nat fuel ->
  normalize fuel (2 ^ k - 1) (m * 2 ^ e) e0 = Some (m, e0 + e).
Proof.
  intros Hk [Hm He Hmin] Hf. revert e e0 He Hmin Hf.
  induction fuel as [|fuel IH]; intros e e0 He Hmin Hf; cbn [normalize].
  - replace e with 0 by lia. rewrite Z.pow_0_r, Z.mul_1_r, Z.add_0_r.
    destruct (Z.ltb_spec (2 ^ k - 1) m); [lia|done].
  - destruct (decide (e = 0)) as [->|Hne].
    { rewrite Z.pow_0_r, Z.mul_1_r, Z.add_0_r. destruct (Z.ltb_spec (2 ^ k - 1) m); [lia|done]. }
    destruct Hmin as [|Hmin]; [done|].
    replace (m * 2 ^ e) with (2 * (m * 2 ^ (e - 1))).
    2:{ replace e with (Z.succ (e - 1)) at 2 by lia. rewrite Z.pow_succ_r by lia. lia. }
    assert (1 <= 2 ^ (e - 1)) by (pose proof (Z.pow_pos_nonneg 2 (e - 1)); lia).
    assert (2 ^ k = 2 * 2 ^ (k - 1)) as Hpk.
    { rewrite <- Z.pow_succ_r by lia. f_equal. lia. }
    destruct (Z.ltb_spec (2 ^ k - 1) (2 * (m * 2 ^ (e - 1)))); [|nia].
    rewrite Z.shiftr_div_pow2 by lia. change (2 ^ 1) with 2.
    rewrite Z.mul_comm, Z_div_mult by lia. rewrite IH by (lia || by right). do 2 f_equal. lia.
Qed.

(** For a 64-bit rate: 64 iterations are enough, and the exponent fits. *)
Lemma normalize_u64 k v :
  1 <= k <= 64 -> in_u 64 v ->
  exists m e, normalize 64 (2 ^ k - 1) v 0 = Some (m, e) /\ normal k m e /\ e <= 64 - k /\
    m = v / 2 ^ e /\ quantize k v = m * 2 ^ e /\ in_u 64 (m * 2 ^ e).
Proof.
  intros Hk [Hv1 Hv2]. destruct (normalize_total 64 k v 0) as (e & He & Hn); [lia| |].
  { split; [done|]. apply (Z.lt_le_trans _ (2 ^ 64)); [done|]. apply Z.pow_le_mono_r; lia. }
  exists (v / 2 ^ e), e. unfold quantize. rewrite He. pose proof Hn as [Hm He0 Hmin].
  assert (Hpe : 0 < 2 ^ e) by (apply Z.pow_pos_nonneg; lia).
  assert (Hle : v / 2 ^ e * 2 ^ e <= v) by (rewrite Z.mul_comm; by apply Z.mul_div_le).
  repeat split; try done; try lia; try nia.
  destruct Hmin as [->|Hmin]; [lia|].
  assert (2 ^ (k - 1 + e) < 2 ^ 64) by (rewrite Z.pow_add_r by lia; nia).
  apply Z.pow_lt_mono_r_iff in H; lia.
Qed.

Lemma expand_exact m e :
  0 <= e -> 0 <= m -> in_u 64 (m * 2 ^ e) -> expand m e = (m * 2 ^ e, false).
Proof.
  intros He Hm Hu. unfold expand. rewrite Z.shiftl_mul_pow2 by lia.
  rewrite (wrap_small 64) by done. rewrite Z.shiftr_div_pow2, Z_div_mult by lia.
  by rewrite Z.eqb_refl.
Qed.

Lemma expand_range m e b o : expand m e = (b, o) -> in_u 64 b.
Proof. intros E. apply (f_equal fst) in E. cbn [expand fst] in E. subst b. apply wrap_range. lia. Qed.

(** The encoding rounds down, by less than one part in [2^(k-1)]; small rates are exact, and a
    rate that has been through the encoding is not changed again. *)
Lemma quantize_error k v :
  1 <= k <= 64 -> in_u 64 v ->
  quantize k v <= v /\ (quantize k v = v \/ (v - quantize k v) * 2 ^ (k - 1) < v) /\
  (v < 2 ^ k -> quantize k v = v) /\ quantize k (quantize k v) = quantize k v.
Proof.
  intros Hk Hv. pose proof Hv as [Hv1 Hv2].
  destruct (normalize_u64 k v Hk Hv) as (m & e & Hn & Hno & Hle & Hm & -> & Hu).
  pose proof Hno as [Hm1 He0 Hmin].
  assert (Hpe : 0 < 2 ^ e) by (apply Z.pow_pos_nonneg; lia).
  pose proof (Z.div_mod v (2 ^ e) ltac:(lia)) as Hdm. rewrite <- Hm in Hdm.
  pose proof (Z.mod_pos_bound v (2 ^ e) Hpe).
  split; [nia|]. split; [|split].
  - destruct Hmin as [->|Hmin]; [left; rewrite Z.pow_0_r in *; lia|].
    right. replace (v - m * 2 ^ e) with (v mod 2 ^ e) by lia.
    assert (0 < 2 ^ (k - 1)) by (apply Z.pow_pos_nonneg; lia).
    assert (v mod 2 ^ e * 2 ^ (k - 1) < 2 ^ e * 2 ^ (k - 1)) by nia. nia.
  - intros Hs. unfold normalize in Hn. fold normalize in Hn.
    destruct (Z.ltb_spec (2 ^ k - 1) v); [lia|]. injection Hn as <- <-. lia.
  - unfold quantize. rewrite (normalize_exact 64 k m e 0) by (done || lia).
    by rewrite Z.add_0_l.
Qed.

End BitrateCodec.
Import BitrateCodec.

Module TmmbItem.

Definition kLength : Z := 8.

Record t := MkItem {
  ssrc : Z;
  bitrate_bps : Z;
  packet_overhead : Z
}.

Definition init : t := MkItem 0 0 0.

(** The constructor and the setter check the 9 bits of the overhead. *)
Definition make (ssrc bitrate_bps overhead : Z) : option t :=
  check (overhead <=? 0x1ff) ;; Some (MkItem ssrc bitrate_bps overhead).
Definition set_ssrc (this : t) (v : Z) : t := MkItem v (bitrate_bps this) (packet_overhead this).
Definition set_bitrate_bps (this : t) (v : Z) : t := MkItem (ssrc this) v (packet_overhead this).
Definition set_packet_overhead (this : t) (overhead : Z) : option t :=
  check (overhead <=? 0x1ff) ;; Some (MkItem (ssrc this) (bitrate_bps this) overhead).

Definition Parse (this : t) (buffer : list Z) : option (bool * t) :=
  ssrc ← ReadBigEndian 32 4 (ptr_add buffer 0);
  compact ← ReadBigEndian 32 4 (ptr_add buffer 4);
  let exponent := u8 (Z.shiftr compact 26) in
  let mantissa := Z.land (Z.shiftr compact 9) 0x1ffff in
  let overhead := Z.land compact 0x1ff in
  let '(bitrate, shift_overflow) := expand mantissa exponent in
  if shift_overflow then Some (false, MkItem ssrc bitrate (packet_overhead this))
  else Some (true, MkItem ssrc bitrate overhead).

Definition Create (this : t) (buffer : Z) : W unit :=
  match normalize 64 0x1ffff (bitrate_bps this) 0 with
  | None => abort
  | Some (mantissa, exponent) =>
      WriteBigEndian 4 (buffer + 0) (ssrc this) ;;
      let compact := u32 (Z.lor (Z.lor (u32 (Z.shiftl exponent 26)) (u64 (Z.shiftl mantissa 9)))
                                (packet_overhead this)) in
      WriteBigEndian 4 (buffer + 4) compact
  end.

Record valid (x : t) : Prop := {
  valid_ssrc : in_u 32 (ssrc x);
  valid_bitrate : in_u 64 (bitrate_bps x);
  valid_overhead : in_u 9 (packet_overhead x)
}.

Definition compact (x : t) : Z :=
  match normalize 64 0x1ffff (bitrate_bps x) 0 with
  | Some (m, e) => (e * 2 ^ 17 + m) * 2 ^ 9 + packet_overhead x
  | None => 0
  end.

Definition wire (x : t) : list Z := be_bytes 4 (ssrc x) ++ be_bytes 4 (compact x).

(** The item the other side sees. *)
Definition quantized (x : t) : t := MkItem (ssrc x) (quantize 17 (bitrate_bps x)) (packet_overhead x).

Lemma compact_fields e m o :
  0 <= e < 64 -> in_u 17 m -> in_u 9 o ->
  let c := (e * 2 ^ 17 + m) * 2 ^ 9 + o in
  in_u 32 c /\ u8 (Z.shiftr c 26) = e /\ Z.land (Z.shiftr c 9) 0x1ffff = m /\ Z.land c 0x1ff = o /\
  u32 (Z.lor (Z.lor (u32 (Z.shiftl e 26)) (u64 (Z.shiftl m 9))) o) = c.
Proof.
  intros He Hm Ho c. unfold in_u in *.
  change (2 ^ 17) with 131072 in *. change (2 ^ 9) with 512 in *.
  assert (Hc : 0 <= c < 2 ^ 32) by (unfold c; change (2 ^ 32) with 4294967296; lia).
  assert (Hc9 : c / 512 = e * 131072 + m).
  { unfold c. rewrite Z.div_add_l by lia. rewrite (Z.div_small o) by lia. lia. }
  split; [done|]. rewrite !Z.shiftr_div_pow2 by lia. change (2 ^ 9) with 512.
  change (2 ^ 26) with (512 * 131072). rewrite <- Z.div_div, Hc9, Z.div_add_l, (Z.div_small m) by lia.
  rewrite (wrap_small 8) by (unfold in_u; change (2 ^ 8) with 256; lia).
  change 0x1ffff with (2 ^ 17 - 1). change 0x1ff with (2 ^ 9 - 1). rewrite !land_ones_mod by lia.
  change (2 ^ 17) with 131072. change (2 ^ 9) with 512.
  split; [lia|]. split; [rewrite Z.add_comm, Z_mod_plus_full; apply Z.mod_small; lia|].
  split; [unfold c; rewrite Z.add_comm, Z_mod_plus_full; apply Z.mod_small; lia|].
  rewrite !Z.shiftl_mul_pow2 by lia. change (2 ^ 26) with 67108864. change (2 ^ 9) with 512.
  rewrite (wrap_small 32 (e * _)), (wrap_small 64)
    by (unfold in_u; change (2 ^ 32) with 4294967296; change (2 ^ 64) with 18446744073709551616; lia).
  rewrite (lor_add_low (e * 67108864) (m * 512) 26); [|lia| |change (2 ^ 26) with 67108864; lia].
  2:{ change (2 ^ 26) with 67108864. apply Z_mod_mult. }
  rewrite (lor_add_low _ _ 9); [|lia| |change (2 ^ 9) with 512; lia].
  2:{ change (2 ^ 9) with 512. replace (e * 67108864 + m * 512) with ((e * 131072 + m) * 512) by lia.
      apply Z_mod_mult. }
  replace (e * 67108864 + m * 512 + o) with c by (unfold c; lia). by apply wrap_small.
Qed.

Lemma compact_cases x :
  valid x -> exists m e, normalize 64 0x1ffff (bitrate_bps x) 0 = Some (m, e) /\
    0 <= e < 64 /\ in_u 17 m /\ in_u 64 (m * 2 ^ e) /\ quantize 17 (bitrate_bps x) = m * 2 ^ e /\
    compact x = (e * 2 ^ 17 + m) * 2 ^ 9 + packet_overhead x.
Proof.
  intros []. destruct (normalize_u64 17 (bitrate_bps x)) as (m & e & Hn & [] & He & _ & Hq & Hu);
    [lia|done|]. change (2 ^ 17 - 1) with 0x1ffff in Hn.
  exists m, e. unfold compact. rewrite Hn. repeat split; (done || lia || apply Hu).
Qed.

Lemma TmmbItem_stores_Create x pos : valid x -> stores (Create x pos) pos (wire x).
Proof.
  intros Hx. destruct (compact_cases x Hx) as (m & e & Hn & He & Hm & _ & _ & Hc).
  unfold Create, wire. rewrite Hn, Hc. destruct Hx.
  destruct (compact_fields e m (packet_overhead x)) as (_ & _ & _ & _ & ->); [done..|].
  stores_chain.
Qed.

Lemma TmmbItem_Parse_wire this x rest : valid x -> Parse this (wire x ++ rest) = Some (true, quantized x).
Proof.
  intros Hx. destruct (compact_cases x Hx) as (m & e & Hn & He & Hm & Hu & Hq & Hc).
  unfold Parse, wire. rewrite Hc. destruct Hx.
  destruct (compact_fields e m (packet_overhead x)) as (Hc32 & He' & Hm' & Ho' & _); [done..|].
  set (c := _ + packet_overhead x) in *. read_wire. rewrite He', Hm', Ho'. unfold in_u in Hm. rewrite expand_exact by (done || lia).
  unfold quantized. by rewrite Hq.
Qed.

Lemma TmmbItem_Parse_safe this p :
  bytes_ok p -> kLength <= len p -> exists r x, Parse this p = Some (r, x) /\ (r = true -> valid x).
Proof.
  intros Hb Hl. unfold kLength in Hl. unfold Parse. read_safe.
  destruct (expand _ _) as [b o] eqn:E.
  destruct o; eexists _, _; (split; [reflexivity|]); [discriminate|].
  intros _. split; cbn [ssrc bitrate_bps packet_overhead]; [done| |].
  - pose proof (expand_range _ _ _ _ E). done.
  - change 0x1ff with (2 ^ 9 - 1). rewrite land_ones_mod by lia. apply Z.mod_pos_bound. lia.
Qed.

End TmmbItem.

(** [items_.resize(n)]: elements kept, dropped, or default-constructed. *)
Definition resize {A} (l : list A) (n : nat) (x : A) : list A := take n l ++ replicate (n - length l) x.

Lemma length_resize {A} (l : list A) n x : length (resize l n x) = n.
Proof. unfold resize. rewrite length_app, length_take, length_replicate. lia. Qed.

(** [for (TmmbItem& item : items_) { if (!item.Parse(next_item)) return false; ... }]: the items
    parsed so far are overwritten also when one of them is refused. *)
Fixpoint parse_tmmb_items (items : list TmmbItem.t) (next_item : list Z)
    : option (bool * list TmmbItem.t) :=
  match items with
  | [] => Some (true, [])
  | item :: items' =>
      '(ok, item) ← TmmbItem.Parse item next_item;
      if ok : bool then
        '(r, l) ← parse_tmmb_items items' (ptr_add next_item TmmbItem.kLength);
        Some (r, item :: l)
      else Some (false, item :: items')
  end.

Lemma parse_tmmb_items_wire old l rest :
  length old = length l -> Forall TmmbItem.valid l ->
  parse_tmmb_items old (mjoin (TmmbItem.wire <$> l) ++ rest) = Some (true, TmmbItem.quantized <$> l).
Proof.
  intros Hl Hv. revert old Hl. induction Hv as [|x l Hx Hv IH]; intros [|o old] Hl; try done.
  cbn [parse_tmmb_items]. rewrite mjoin_fmap_cons, <- app_assoc, TmmbItem.TmmbItem_Parse_wire by done.
  cbn [mbind option_bind]. rewrite ptr_add_app_ge by done. unfold TmmbItem.kLength.
  change (8 - len (TmmbItem.wire x)) with 0. rewrite ptr_add_0, IH; [done|]. by injection Hl.
Qed.

Lemma parse_tmmb_items_safe old p :
  bytes_ok p -> 8 * len old <= len p ->
  exists r l, parse_tmmb_items old p = Some (r, l) /\
    (r = true -> Forall TmmbItem.valid l /\ length l = length old).
Proof.
  revert p. induction old as [|o old IH]; intros p Hb Hl; cbn [parse_tmmb_items].
  - exists true, []. split; [done|]. intros _. split; [constructor|done].
  - rewrite len_cons in Hl. pose proof (len_nonneg old).
    destruct (TmmbItem.TmmbItem_Parse_safe o p Hb) as (r & x & -> & Hx); [unfold TmmbItem.kLength; lia|].
    cbn [mbind option_bind]. destruct r; [|by eexists _, _].
    destruct (IH (ptr_add p TmmbItem.kLength)) as (r & l & -> & Hr).
    + by apply bytes_ok_ptr_add.
    + unfold TmmbItem.kLength. rewrite len_ptr_add; lia.
    + eexists _, _. split; [done|]. intros ->. destruct (Hr eq_refl) as [Hf Hln].
      split; [constructor; [by apply Hx|done]|]. cbn. by rewrite Hln.
Qed.

Module Tmmbr.

Definition kFeedbackMessageType : Z := 3.

Record t := MkTmmbr {
  fb : Rtpfb.t;
  items : list TmmbItem.t
}.

Definition init : t := MkTmmbr Rtpfb.init [].
Definition SetSenderSsrc (this : t) (v : Z) : t := MkTmmbr (Rtpfb.SetSenderSsrc (fb this) v) (items this).
Definition AddTmmbr (this : t) (item : TmmbItem.t) : t := MkTmmbr (fb this) (items this ++ [item]).

Definition Parse (this : t) (packet : CommonHeader.t) : option (bool * t) :=
  check (CommonHeader.type packet =? Rtpfb.kPacketType) ;;
  check (CommonHeader.fmt packet =? kFeedbackMessageType) ;;
  let size := CommonHeader.payload_size_bytes packet in
  if size <? Rtpfb.kCommonFeedbackLength + TmmbItem.kLength then Some (false, this) else
  let items_size_bytes := size - Rtpfb.kCommonFeedbackLength in
  if negb (items_size_bytes mod TmmbItem.kLength =? 0) then Some (false, this) else
  fb ← Rtpfb.ParseCommonFeedback (CommonHeader.payload packet);
  let number_of_items := items_size_bytes / TmmbItem.kLength in
  '(ok, items) ← parse_tmmb_items (resize (items this) (Z.to_nat number_of_items) TmmbItem.init)
                  (ptr_add (CommonHeader.payload packet) Rtpfb.kCommonFeedbackLength);
  Some (ok, MkTmmbr fb items).

Definition BlockLength (this : t) : Z :=
  kHeaderLength + Rtpfb.kCommonFeedbackLength + TmmbItem.kLength * len (items this).

Definition body (this : t) : W unit :=
  with_index_end (BlockLength this) (fun _ =>
    (length ← HeaderLength (BlockLength this);
     CreateHeader kFeedbackMessageType Rtpfb.kPacketType length false) ;;
    dcheck (Rtpfb.media_ssrc (fb this) =? 0) ;;
    at_index 0 (Rtpfb.CreateCommonFeedback (fb this)) ;;
    advance Rtpfb.kCommonFeedbackLength ;;
    for_each (items this) (fun item =>
      at_index 0 (TmmbItem.Create item) ;; advance TmmbItem.kLength)).

Definition Create (this : t) (max_length : Z) (callback : bool) : W bool :=
  dcheck (negb (bool_decide (length (items this) = 0%nat))) ;;
  room ← make_room 2 (BlockLength this) max_length callback;
  if room : bool then body this ;; mret true else mret false.

#[global] Instance ops : RtcpPacketOps t := Build_RtcpPacketOps t BlockLength Create.

(** What [Parse] guarantees, and what [Create] requires: the media source is unused. *)
Record parsed (x : t) : Prop := {
  parsed_fb : Rtpfb.valid (fb x);
  parsed_items : Forall TmmbItem.valid (items x);
  parsed_some : items x <> [];
  parsed_count : 2 + 2 * len (items x) <= 0xffff
}.

Record valid (x : t) : Prop := {
  valid_parsed : parsed x;
  valid_media : Rtpfb.media_ssrc (fb x) = 0
}.

Definition payload_wire (x : t) : list Z := Rtpfb.wire (fb x) ++ mjoin (TmmbItem.wire <$> items x).

Definition wire (x : t) : list Z :=
  header_wire kFeedbackMessageType Rtpfb.kPacketType (2 + 2 * len (items x)) false ++ payload_wire x.

(** The object the other side sees: bit rates lose the bits the mantissa has no room for. *)
Definition quantized (x : t) : t := MkTmmbr (fb x) (TmmbItem.quantized <$> items x).

Lemma Tmmbr_len_payload_wire x : len (payload_wire x) = 8 + 8 * len (items x).
Proof. unfold payload_wire. rewrite len_app, (len_items _ _ 8) by done. done. Qed.

Lemma Tmmbr_words_range x : parsed x -> in_u 16 (2 + 2 * len (items x)).
Proof.
  intros []. unfold in_u. change (2 ^ 16) with 65536. pose proof (len_nonneg (items x)). lia.
Qed.

Lemma Tmmbr_BlockLength_words x : BlockLength x = 4 + 4 * (2 + 2 * len (items x)).
Proof. unfold BlockLength, kHeaderLength, Rtpfb.kCommonFeedbackLength, TmmbItem.kLength. lia. Qed.

Lemma Tmmbr_len_wire x : len (wire x) = BlockLength x.
Proof. unfold wire. rewrite Tmmbr_BlockLength_words, len_app, Tmmbr_len_payload_wire, len_header_wire. lia. Qed.

Lemma Tmmbr_appends_body x : valid x -> appends (body x) (wire x).
Proof.
  intros [Hp Hm]. pose proof (Tmmbr_words_range x Hp). destruct Hp.
  apply RoomFacts.appends_index_end; [|apply Tmmbr_len_wire].
  intros _. eapply RoomFacts.appends_header;
    [by_compute|by_compute|apply Tmmbr_BlockLength_words|done| |reflexivity].
  apply appends_dcheck; [by apply Z.eqb_eq|].
  eapply appends_writes_then; [writes_chain|done| |reflexivity].
  apply appends_for_each. intros i Hi. apply appends_writes; [|done].
  apply writes_at_index. intros p. apply TmmbItem.TmmbItem_stores_Create. by eapply Forall_forall in Hi.
Qed.

Lemma Tmmbr_behaves_valid x : valid x -> behaves x (wire x) (eq (wire x)) (Rtcp.BlockLength x).
Proof.
  intros Hx. pose proof (len_nonneg (items x)).
  apply (simple_behaves body); [|by apply Tmmbr_appends_body|apply Tmmbr_len_wire|].
  - destruct Hx as [[_ _ Hn _] _]. intros. cbn. unfold Create.
    rewrite bool_decide_eq_false_2; [done|]. by destruct (items x).
  - change (0 < BlockLength x). rewrite Tmmbr_BlockLength_words. lia.
Qed.

#[global] Instance laws : RtcpPacketLaws t :=
  Build_RtcpPacketLaws t _ valid wire (fun x => eq (wire x)) Rtcp.BlockLength Tmmbr_behaves_valid.

Lemma Tmmbr_Parse_wire this x rest :
  parsed x ->
  Parse this (CommonHeader.Header Rtpfb.kPacketType kFeedbackMessageType 0 (4 * (2 + 2 * len (items x)))
    (payload_wire x ++ rest)) = Some (true, quantized x).
Proof.
  intros []. unfold Parse. hdr. rewrite !Z.eqb_refl. cbn [check mbind option_bind].
  unfold Rtpfb.kCommonFeedbackLength, TmmbItem.kLength. pose proof (len_nonneg (items x)).
  assert (0 < len (items x)) by (destruct (items x); [done|rewrite len_cons in *; pose proof (len_nonneg l); lia]).
  replace (4 * (2 + 2 * len (items x)) - 8) with (len (items x) * 8) by lia.
  rewrite Z_mod_mult, Z_div_mult by lia. ztests.
  unfold payload_wire. rewrite <- app_assoc, Rtpfb.Rtpfb_Parse_wire by done. cbn [mbind option_bind].
  ptr_simpl. rewrite parse_tmmb_items_wire; [done| |done].
  rewrite length_resize. unfold len. lia.
Qed.

Lemma Tmmbr_roundtrip x : valid x -> round_trips Parse x (quantized x).
Proof.
  intros Hx. eapply round_trips_wire;
    [by apply Tmmbr_behaves_valid|reflexivity| |by_compute|by_compute|apply Tmmbr_words_range, Hx|].
  - rewrite Tmmbr_len_payload_wire. lia.
  - intros. apply Tmmbr_Parse_wire, Hx.
Qed.

Lemma Tmmbr_Parse_safe : safe_parser (is_rtpfb kFeedbackMessageType) Parse parsed (fun _ _ => True).
Proof.
  intros this h [Hc Hb Hl Hw] Ht. unfold Parse. fb_checks Ht.
  unfold CommonHeader.payload_size_bytes, Rtpfb.kCommonFeedbackLength, TmmbItem.kLength.
  set (size := CommonHeader.payload_size h) in *.
  destruct (Z.ltb_spec size (8 + 8)); [by eexists _, _|].
  destruct (Z.eqb_spec ((size - 8) mod 8) 0); [|by eexists _, _]. cbn [negb].
  destruct (Rtpfb.Rtpfb_Parse_safe (CommonHeader.payload h)) as (y & -> & Hy); [done|lia|].
  cbn [mbind option_bind].
  set (old := resize _ _ _).
  assert (Hold : len old = (size - 8) / 8).
  { unfold old, len. rewrite length_resize. Z.to_euclidean_division_equations; lia. }
  destruct (parse_tmmb_items_safe old (ptr_add (CommonHeader.payload h) 8)) as (r & l & -> & Hr).
  - by apply bytes_ok_ptr_add.
  - rewrite len_ptr_add, Hold by lia. Z.to_euclidean_division_equations; lia.
  - eexists _, _. split; [done|]. destruct r; [|done]. destruct (Hr eq_refl) as [Hf Hn].
    assert (Hln : len l = (size - 8) / 8) by (unfold len in *; lia).
    split; cbn [fb items]; [done|done|intros ->; rewrite len_nil in Hln; Z.to_euclidean_division_equations; lia|rewrite Hln; Z.to_euclidean_division_equations; lia].
Qed.

End Tmmbr.

Module Tmmbn.

Definition kFeedbackMessageType : Z := 4.

Record t := MkTmmbn {
  fb : Rtpfb.t;
  items : list TmmbItem.t
}.

Definition init : t := MkTmmbn Rtpfb.init [].
Definition SetSenderSsrc (this : t) (v : Z) : t := MkTmmbn (Rtpfb.SetSenderSsrc (fb this) v) (items this).
Definition AddTmmbr (this : t) (item : TmmbItem.t) : t := MkTmmbn (fb this) (items this ++ [item]).

Definition Parse (this : t) (packet : CommonHeader.t) : option (bool * t) :=
  check (CommonHeader.type packet =? Rtpfb.kPacketType) ;;
  check (CommonHeader.fmt packet =? kFeedbackMessageType) ;;
  let size := CommonHeader.payload_size_bytes packet in
  if size <? Rtpfb.kCommonFeedbackLength then Some (false, this) else
  let items_size_bytes := size - Rtpfb.kCommonFeedbackLength in
  if negb (items_size_bytes mod TmmbItem.kLength =? 0) then Some (false, this) else
  fb ← Rtpfb.ParseCommonFeedback (CommonHeader.payload packet);
  let number_of_items := items_size_bytes / TmmbItem.kLength in
  '(ok, items) ← parse_tmmb_items (resize (items this) (Z.to_nat number_of_items) TmmbItem.init)
                  (ptr_add (CommonHeader.payload packet) Rtpfb.kCommonFeedbackLength);
  Some (ok, MkTmmbn fb items).

Definition BlockLength (this : t) : Z :=
  kHeaderLength + Rtpfb.kCommonFeedbackLength + TmmbItem.kLength * len (items this).

Definition body (this : t) : W unit :=
  with_index_end (BlockLength this) (fun _ =>
    (length ← HeaderLength (BlockLength this);
     CreateHeader kFeedbackMessageType Rtpfb.kPacketType length false) ;;
    dcheck (Rtpfb.media_ssrc (fb this) =? 0) ;;
    at_index 0 (Rtpfb.CreateCommonFeedback (fb this)) ;;
    advance Rtpfb.kCommonFeedbackLength ;;
    for_each (items this) (fun item =>
      at_index 0 (TmmbItem.Create item) ;; advance TmmbItem.kLength)).

Definition Create (this : t) (max_length : Z) (callback : bool) : W bool :=
  room ← make_room 2 (BlockLength this) max_length callback;
  if room : bool then body this ;; mret true else mret false.

#[global] Instance ops : RtcpPacketOps t := Build_RtcpPacketOps t BlockLength Create.

(** What [Parse] guarantees, and what [Create] requires: the media source is unused. *)
Record parsed (x : t) : Prop := {
  parsed_fb : Rtpfb.valid (fb x);
  parsed_items : Forall TmmbItem.valid (items x);
  parsed_count : 2 + 2 * len (items x) <= 0xffff
}.

Record valid (x : t) : Prop := {
  valid_parsed : parsed x;
  valid_media : Rtpfb.media_ssrc (fb x) = 0
}.

Definition payload_wire (x : t) : list Z := Rtpfb.wire (fb x) ++ mjoin (TmmbItem.wire <$> items x).

Definition wire (x : t) : list Z :=
  header_wire kFeedbackMessageType Rtpfb.kPacketType (2 + 2 * len (items x)) false ++ payload_wire x.

(** The object the other side sees: bit rates lose the bits the mantissa has no room for. *)
Definition quantized (x : t) : t := MkTmmbn (fb x) (TmmbItem.quantized <$> items x).

Lemma Tmmbn_len_payload_wire x : len (payload_wire x) = 8 + 8 * len (items x).
Proof. unfold payload_wire. rewrite len_app, (len_items _ _ 8) by done. done. Qed.

Lemma Tmmbn_words_range x : parsed x -> in_u 16 (2 + 2 * len (items x)).
Proof.
  intros []. unfold in_u. change (2 ^ 16) with 65536. pose proof (len_nonneg (items x)). lia.
Qed.

Lemma Tmmbn_BlockLength_words x : BlockLength x = 4 + 4 * (2 + 2 * len (items x)).
Proof. unfold BlockLength, kHeaderLength, Rtpfb.kCommonFeedbackLength, TmmbItem.kLength. lia. Qed.

Lemma Tmmbn_len_wire x : len (wire x) = BlockLength x.
Proof. unfold wire. rewrite Tmmbn_BlockLength_words, len_app, Tmmbn_len_payload_wire, len_header_wire. lia. Qed.

Lemma Tmmbn_appends_body x : valid x -> appends (body x) (wire x).
Proof.
  intros [Hp Hm]. pose proof (Tmmbn_words_range x Hp). destruct Hp.
  apply RoomFacts.appends_index_end; [|apply Tmmbn_len_wire].
  intros _. eapply RoomFacts.appends_header;
    [by_compute|by_compute|apply Tmmbn_BlockLength_words|done| |reflexivity].
  apply appends_dcheck; [by apply Z.eqb_eq|].
  eapply appends_writes_then; [writes_chain|done| |reflexivity].
  apply appends_for_each. intros i Hi. apply appends_writes; [|done].
  apply writes_at_index. intros p. apply TmmbItem.TmmbItem_stores_Create. by eapply Forall_forall in Hi.
Qed.

Lemma Tmmbn_behaves_valid x : valid x -> behaves x (wire x) (eq (wire x)) (Rtcp.BlockLength x).
Proof.
  intros Hx. pose proof (len_nonneg (items x)).
  apply (simple_behaves body); [|by apply Tmmbn_appends_body|apply Tmmbn_len_wire|].
  - done.
  - change (0 < BlockLength x). rewrite Tmmbn_BlockLength_words. lia.
Qed.

#[global] Instance laws : RtcpPacketLaws t :=
  Build_RtcpPacketLaws t _ valid wire (fun x => eq (wire x)) Rtcp.BlockLength Tmmbn_behaves_valid.

Lemma Tmmbn_Parse_wire this x rest :
  parsed x ->
  Parse this (CommonHeader.Header Rtpfb.kPacketType kFeedbackMessageType 0 (4 * (2 + 2 * len (items x)))
    (payload_wire x ++ rest)) = Some (true, quantized x).
Proof.
  intros []. unfold Parse. hdr. rewrite !Z.eqb_refl. cbn [check mbind option_bind].
  unfold Rtpfb.kCommonFeedbackLength, TmmbItem.kLength. pose proof (len_nonneg (items x)).
  replace (4 * (2 + 2 * len (items x)) - 8) with (len (items x) * 8) by lia.
  rewrite Z_mod_mult, Z_div_mult by lia. ztests.
  unfold payload_wire. rewrite <- app_assoc, Rtpfb.Rtpfb_Parse_wire by done. cbn [mbind option_bind].
  ptr_simpl. rewrite parse_tmmb_items_wire; [done| |done].
  rewrite length_resize. unfold len. lia.
Qed.

Lemma Tmmbn_roundtrip x : valid x -> round_trips Parse x (quantized x).
Proof.
  intros Hx. eapply round_trips_wire;
    [by apply Tmmbn_behaves_valid|reflexivity| |by_compute|by_compute|apply Tmmbn_words_range, Hx|].
  - rewrite Tmmbn_len_payload_wire. lia.
  - intros. apply Tmmbn_Parse_wire, Hx.
Qed.

Lemma Tmmbn_Parse_safe : safe_parser (is_rtpfb kFeedbackMessageType) Parse parsed (fun _ _ => True).
Proof.
  intros this h [Hc Hb Hl Hw] Ht. unfold Parse. fb_checks Ht.
  unfold CommonHeader.payload_size_bytes, Rtpfb.kCommonFeedbackLength, TmmbItem.kLength.
  set (size := CommonHeader.payload_size h) in *.
  destruct (Z.ltb_spec size 8); [by eexists _, _|].
  destruct (Z.eqb_spec ((size - 8) mod 8) 0); [|by eexists _, _]. cbn [negb].
  destruct (Rtpfb.Rtpfb_Parse_safe (CommonHeader.payload h)) as (y & -> & Hy); [done|lia|].
  cbn [mbind option_bind].
  set (old := resize _ _ _).
  assert (Hold : len old = (size - 8) / 8).
  { unfold old, len. rewrite length_resize. Z.to_euclidean_division_equations; lia. }
  destruct (parse_tmmb_items_safe old (ptr_add (CommonHeader.payload h) 8)) as (r & l & -> & Hr).
  - by apply bytes_ok_ptr_add.
  - rewrite len_ptr_add, Hold by lia. Z.to_euclidean_division_equations; lia.
  - eexists _, _. split; [done|]. destruct r; [|done]. destruct (Hr eq_refl) as [Hf Hn].
    assert (Hln : len l = (size - 8) / 8) by (unfold len in *; lia).
    split; cbn [fb items]; [done|done|rewrite Hln; Z.to_euclidean_division_equations; lia].
Qed.

End Tmmbn.

Module Remb.

Definition kMaxNumberOfSsrcs : Z := 0xff.
Definition kUniqueIdentifier : Z := 0x52454D42.

Record t := MkRemb {
  fb : Psfb.t;
  bitrate_bps : Z;
  ssrcs : list Z
}.

Definition init : t := MkRemb Psfb.init 0 [].
Definition SetSenderSsrc (this : t) (v : Z) : t :=
  MkRemb (Psfb.SetSenderSsrc (fb this) v) (bitrate_bps this) (ssrcs this).
Definition SetBitrateBps (this : t) (v : Z) : t := MkRemb (fb this) v (ssrcs this).
Definition SetSsrcs (this : t) (v : list Z) : bool * t :=
  if kMaxNumberOfSsrcs <? len v then (false, this) else (true, MkRemb (fb this) (bitrate_bps this) v).

Definition Parse (this : t) (packet : CommonHeader.t) : option (bool * t) :=
  check (CommonHeader.type packet =? Psfb.kPacketType) ;;
  check (CommonHeader.fmt packet =? Psfb.kAfbMessageType) ;;
  let size := CommonHeader.payload_size_bytes packet in
  if size <? 16 then Some (false, this) else
  let payload := CommonHeader.payload packet in
  id ← ReadBigEndian 32 4 (ptr_add payload 8);
  if negb (kUniqueIdentifier =? id) then Some (false, this) else
  number_of_ssrcs ← byte_at payload 12;
  if negb (size =? Psfb.kCommonFeedbackLength + (2 + number_of_ssrcs) * 4) then Some (false, this) else
  fb ← Psfb.ParseCommonFeedback payload;
  b13 ← byte_at payload 13;
  low ← ReadBigEndian 16 2 (ptr_add payload 14);
  let exponenta := Z.shiftr b13 2 in
  let mantissa := Z.lor (u32 (Z.shiftl (Z.land b13 0x03) 16)) low in
  let '(bitrate, shift_overflow) := expand mantissa exponenta in
  if shift_overflow then Some (false, MkRemb fb bitrate (ssrcs this)) else
  l ← parse_items (ReadBigEndian 32 4) 4 (Z.to_nat number_of_ssrcs) (ptr_add payload 16);
  Some (true, MkRemb fb bitrate l).

Definition BlockLength (this : t) : Z :=
  kHeaderLength + Psfb.kCommonFeedbackLength + (2 + len (ssrcs this)) * 4.

(** The words with the number of ssrcs and the bit rate. *)
Definition write_bitrate (this : t) : W unit :=
  match normalize 64 0x3ffff (bitrate_bps this) 0 with
  | None => abort
  | Some (mantissa, exponenta) =>
      push (u8 (len (ssrcs this))) ;;
      push (Z.lor (Z.shiftl exponenta 2) (Z.shiftr mantissa 16)) ;;
      at_index 0 (fun p => WriteBigEndian 2 p (Z.land mantissa 0xffff)) ;;
      advance 2
  end.

Definition body (this : t) : W unit :=
  with_index_end (BlockLength this) (fun _ =>
    (length ← HeaderLength (BlockLength this);
     CreateHeader Psfb.kAfbMessageType Psfb.kPacketType length false) ;;
    dcheck (Psfb.media_ssrc (fb this) =? 0) ;;
    at_index 0 (Psfb.CreateCommonFeedback (fb this)) ;;
    advance Psfb.kCommonFeedbackLength ;;
    at_index 0 (fun p => WriteBigEndian 4 p kUniqueIdentifier) ;;
    advance 4 ;;
    write_bitrate this ;;
    for_each (ssrcs this) (fun ssrc =>
      at_index 0 (fun p => WriteBigEndian 4 p ssrc) ;; advance 4)).

Definition Create (this : t) (max_length : Z) (callback : bool) : W bool :=
  room ← make_room 2 (BlockLength this) max_length callback;
  if room : bool then body this ;; mret true else mret false.

#[global] Instance ops : RtcpPacketOps t := Build_RtcpPacketOps t BlockLength Create.

Record parsed (x : t) : Prop := {
  parsed_fb : Psfb.valid (fb x);
  parsed_bitrate : in_u 64 (bitrate_bps x);
  parsed_ssrcs : Forall (in_u 32) (ssrcs x);
  parsed_count : len (ssrcs x) <= kMaxNumberOfSsrcs
}.

Record valid (x : t) : Prop := {
  valid_parsed : parsed x;
  valid_media : Psfb.media_ssrc (fb x) = 0
}.

(** Number of ssrcs, exponent and mantissa. *)
Definition bitrate_wire (x : t) : list Z :=
  match normalize 64 0x3ffff (bitrate_bps x) 0 with
  | Some (m, e) => [len (ssrcs x)] ++ [e * 4 + m / 65536] ++ be_bytes 2 (m mod 65536)
  | None => []
  end.

Definition payload_wire (x : t) : list Z :=
  Psfb.wire (fb x) ++ be_bytes 4 kUniqueIdentifier ++ bitrate_wire x ++ mjoin (be_bytes 4 <$> ssrcs x).

Definition wire (x : t) : list Z :=
  header_wire Psfb.kAfbMessageType Psfb.kPacketType (4 + len (ssrcs x)) false ++ payload_wire x.

Definition quantized (x : t) : t := MkRemb (fb x) (quantize 18 (bitrate_bps x)) (ssrcs x).

(** The byte with the exponent and the top of the mantissa, and back. *)
Lemma bitrate_fields e m :
  0 <= e < 64 -> in_u 18 m ->
  let b := e * 4 + m / 65536 in
  byte_ok b /\ Z.shiftr b 2 = e /\ Z.land m 0xffff = m mod 65536 /\
  Z.lor (u32 (Z.shiftl (Z.land b 3) 16)) (m mod 65536) = m /\
  Z.lor (Z.shiftl e 2) (Z.shiftr m 16) = b.
Proof.
  intros He Hm b. unfold in_u in Hm. change (2 ^ 18) with 262144 in Hm.
  assert (Hq : 0 <= m / 65536 < 4) by (Z.to_euclidean_division_equations; lia).
  pose proof (Z.mod_pos_bound m 65536 ltac:(lia)) as Hr.
  pose proof (Z.div_mod m 65536 ltac:(lia)) as Hdm.
  split; [unfold byte_ok, b; lia|].
  rewrite !Z.shiftr_div_pow2 by lia. change (2 ^ 2) with 4. change (2 ^ 16) with 65536.
  change 0xffff with (2 ^ 16 - 1). change 3 with (2 ^ 2 - 1). rewrite !land_ones_mod by lia.
  change (2 ^ 2) with 4. change (2 ^ 16) with 65536.
  assert (Hb4 : b / 4 = e /\ b mod 4 = m / 65536) by (unfold b; Z.to_euclidean_division_equations; lia).
  destruct Hb4 as [-> ->]. split; [done|]. split; [done|]. split.
  - rewrite Z.shiftl_mul_pow2 by lia. rewrite wrap_small by (unfold in_u; change (2 ^ 16) with 65536;
      change (2 ^ 32) with 4294967296; lia).
    rewrite (lor_add_low _ _ 16); [change (2 ^ 16) with 65536; lia|lia|apply Z_mod_mult|done].
  - rewrite lor_shiftl_low by (change (2 ^ 2) with 4; lia). done.
Qed.

Lemma bitrate_cases x :
  parsed x -> exists m e, normalize 64 0x3ffff (bitrate_bps x) 0 = Some (m, e) /\
    0 <= e < 64 /\ in_u 18 m /\ in_u 64 (m * 2 ^ e) /\ quantize 18 (bitrate_bps x) = m * 2 ^ e /\
    bitrate_wire x = [len (ssrcs x)] ++ [e * 4 + m / 65536] ++ be_bytes 2 (m mod 65536).
Proof.
  intros []. destruct (normalize_u64 18 (bitrate_bps x)) as (m & e & Hn & [] & He & _ & Hq & Hu);
    [lia|done|]. change (2 ^ 18 - 1) with 0x3ffff in Hn.
  exists m, e. unfold bitrate_wire. rewrite Hn. repeat split; (done || lia || apply Hu).
Qed.

Lemma Remb_len_payload_wire x : parsed x -> len (payload_wire x) = 16 + 4 * len (ssrcs x).
Proof.
  intros Hx. destruct (bitrate_cases x Hx) as (m & e & _ & _ & _ & _ & _ & Hb).
  unfold payload_wire. rewrite Hb, !len_app, (len_items _ _ 4) by done. len_simpl. zconst. lia.
Qed.

Lemma Remb_BlockLength_words x : BlockLength x = 4 + 4 * (4 + len (ssrcs x)).
Proof. unfold BlockLength, kHeaderLength, Psfb.kCommonFeedbackLength. lia. Qed.

Lemma Remb_len_wire x : parsed x -> len (wire x) = BlockLength x.
Proof.
  intros. unfold wire. rewrite Remb_BlockLength_words, len_app, Remb_len_payload_wire, len_header_wire by done. lia.
Qed.

Lemma Remb_words_range x : parsed x -> in_u 16 (4 + len (ssrcs x)).
Proof.
  intros []. unfold kMaxNumberOfSsrcs in *. unfold in_u. change (2 ^ 16) with 65536.
  pose proof (len_nonneg (ssrcs x)). lia.
Qed.

Lemma appends_write_bitrate x : parsed x -> appends (write_bitrate x) (bitrate_wire x).
Proof.
  intros Hx. destruct (bitrate_cases x Hx) as (m & e & Hn & He & Hm & _ & _ & ->).
  destruct (bitrate_fields e m He Hm) as (Hb & _ & Hl & _ & Hs). destruct Hx.
  unfold write_bitrate, kMaxNumberOfSsrcs in *. rewrite Hn, Hl, Hs.
  pose proof (len_nonneg (ssrcs x)). rewrite (wrap_small 8) by (unfold in_u; cbn; lia).
  eapply appends_seq; [apply appends_push_byte; unfold byte_ok; lia| |reflexivity].
  eapply appends_seq; [by apply appends_push_byte| |reflexivity].
  apply appends_writes; [writes_chain|done].
Qed.

Lemma Remb_appends_body x : valid x -> appends (body x) (wire x).
Proof.
  intros [Hp Hm]. pose proof (Remb_words_range x Hp).
  apply RoomFacts.appends_index_end; [|by apply Remb_len_wire].
  intros _. eapply RoomFacts.appends_header;
    [by_compute|by_compute|apply Remb_BlockLength_words|done| |reflexivity].
  apply appends_dcheck; [by apply Z.eqb_eq|].
  eapply appends_writes_then; [writes_chain|done| |reflexivity].
  eapply appends_writes_then; [writes_chain|done| |reflexivity].
  eapply appends_seq; [by apply appends_write_bitrate| |reflexivity].
  apply appends_for_each. intros i _. apply appends_writes; [writes_chain|done].
Qed.

Lemma Remb_behaves_valid x : valid x -> behaves x (wire x) (eq (wire x)) (Rtcp.BlockLength x).
Proof.
  intros Hx. pose proof (len_nonneg (ssrcs x)).
  apply (simple_behaves body); [done|by apply Remb_appends_body|apply Remb_len_wire, Hx|].
  change (0 < BlockLength x). rewrite Remb_BlockLength_words. lia.
Qed.

#[global] Instance laws : RtcpPacketLaws t :=
  Build_RtcpPacketLaws t _ valid wire (fun x => eq (wire x)) Rtcp.BlockLength Remb_behaves_valid.

Lemma Remb_Parse_wire this x rest :
  parsed x ->
  Parse this (CommonHeader.Header Psfb.kPacketType Psfb.kAfbMessageType 0 (4 * (4 + len (ssrcs x)))
    (payload_wire x ++ rest)) = Some (true, quantized x).
Proof.
  intros Hx. destruct (bitrate_cases x Hx) as (m & e & _ & He & Hm & Hu & Hq & Hb).
  destruct (bitrate_fields e m He Hm) as (_ & He' & _ & Hm' & _). destruct Hx.
  pose proof (len_nonneg (ssrcs x)). pose proof (Z.mod_pos_bound m 65536 ltac:(lia)).
  unfold Parse, Psfb.kCommonFeedbackLength. hdr. rewrite !Z.eqb_refl. cbn [check mbind option_bind].
  ztest (4 * (4 + len (ssrcs x)) <? 16) false.
  unfold payload_wire. rewrite Hb, <- !app_assoc. set (b := e * 4 + m / 65536) in *.
  assert (Hm16 : in_u (8 * Z.of_nat 2) (m mod 65536)) by done.
  ptr_simpl. rewrite (ReadBigEndian_bytes 32 4 kUniqueIdentifier) by (done || lia).
  cbn [mbind option_bind]. change (kUniqueIdentifier =? kUniqueIdentifier) with true. cbn [negb].
  change (byte_at ([?a] ++ _) 0) with (Some a). cbn [mbind option_bind]. ztests.
  rewrite Psfb.Psfb_Parse_wire by done. cbn [mbind option_bind].
  rewrite (ReadBigEndian_bytes 16 2 (m mod 65536)) by (done || lia).
  cbn [mbind option_bind]. rewrite He', Hm'. unfold in_u in Hm. rewrite expand_exact by (done || lia).
  replace (Z.to_nat (len (ssrcs x))) with (length (ssrcs x)) by (unfold len; lia).
  rewrite parse_items_wire; [| |done].
  - cbn [mbind option_bind]. unfold quantized. by rewrite Hq.
  - intros c r Hc. apply ReadBigEndian_bytes; [lia|by eapply Forall_forall in Hc].
Qed.

Lemma Remb_roundtrip x : valid x -> round_trips Parse x (quantized x).
Proof.
  intros Hx. eapply round_trips_wire;
    [by apply Remb_behaves_valid|reflexivity| |by_compute|by_compute|apply Remb_words_range, Hx|].
  - rewrite Remb_len_payload_wire by apply Hx. lia.
  - intros. apply Remb_Parse_wire, Hx.
Qed.

Lemma Remb_Parse_safe : safe_parser (is_psfb Psfb.kAfbMessageType) Parse parsed (fun _ _ => True).
Proof.
  intros this h [Hc Hb Hl Hw] Ht. unfold Parse. fb_checks Ht.
  unfold CommonHeader.payload_size_bytes, Psfb.kCommonFeedbackLength.
  set (size := CommonHeader.payload_size h) in *.
  destruct (Z.ltb_spec size 16); [by eexists _, _|]. read_safe.
  destruct (negb (kUniqueIdentifier =? v0)); [by eexists _, _|].
  destruct (Z.eqb_spec size (8 + (2 + v2) * 4)); [|by eexists _, _]. cbn [negb].
  destruct (Psfb.Psfb_Parse_safe (CommonHeader.payload h)) as (y & -> & Hy); [done|lia|].
  cbn [mbind option_bind].
  destruct (expand _ _) as [b o] eqn:E. apply expand_range in E.
  destruct o; [eexists _, _; split; reflexivity|]. unfold byte_ok in Hv2.
  destruct (parse_items_safe (ReadBigEndian 32 4) 4 (in_u 32) (Z.to_nat v2)
              (ptr_add (CommonHeader.payload h) 16)) as (l & -> & Hn & Hlf).
  - lia.
  - intros q Hq Hq4. destruct (ReadBigEndian_Some 32 4 q) as (v' & -> & Hv'); [lia|done|lia|].
    by exists v'.
  - by apply bytes_ok_ptr_add.
  - rewrite len_ptr_add; lia.
  - eexists _, _. split; [reflexivity|]. split; cbn [fb bitrate_bps ssrcs]; try done.
    unfold kMaxNumberOfSsrcs, len. lia.
Qed.

End Remb.

Module LossNotification.

Definition kUniqueIdentifier : Z := 0x4C4E5446.
Definition kLossNotificationPayloadLength : Z := 8.

Record t := MkLntf {
  fb : Psfb.t;
  last_decoded : Z;
  last_received : Z;
  decodability_flag : bool
}.

Definition init : t := MkLntf Psfb.init 0 0 false.
(** The constructor with values; it does not check that they can be represented. *)
Definition make (last_decoded last_received : Z) (decodability_flag : bool) : t :=
  MkLntf Psfb.init last_decoded last_received decodability_flag.

Definition SetSenderSsrc (this : t) (v : Z) : t :=
  MkLntf (Psfb.SetSenderSsrc (fb this) v) (last_decoded this) (last_received this) (decodability_flag this).
Definition SetMediaSsrc (this : t) (v : Z) : t :=
  MkLntf (Psfb.SetMediaSsrc (fb this) v) (last_decoded this) (last_received this) (decodability_flag this).

Definition Set_ (this : t) (last_decoded last_received : Z) (decodability_flag : bool) : bool * t :=
  let delta := u16 (last_received - last_decoded) in
  if 0x7fff <? delta then (false, this)
  else (true, MkLntf (fb this) last_decoded last_received decodability_flag).

Definition BlockLength (this : t) : Z :=
  kHeaderLength + Psfb.kCommonFeedbackLength + kLossNotificationPayloadLength.

Definition body (this : t) : W unit :=
  with_index_end (BlockLength this) (fun _ =>
    (length ← HeaderLength (BlockLength this);
     CreateHeader Psfb.kAfbMessageType Psfb.kPacketType length false) ;;
    at_index 0 (Psfb.CreateCommonFeedback (fb this)) ;;
    advance Psfb.kCommonFeedbackLength ;;
    at_index 0 (fun p => WriteBigEndian 4 p kUniqueIdentifier) ;;
    advance 4 ;;
    at_index 0 (fun p => WriteBigEndian 2 p (last_decoded this)) ;;
    advance 2 ;;
    let last_received_delta := u16 (last_received this - last_decoded this) in
    dcheck (last_received_delta <=? 0x7fff) ;;
    let last_received_delta_and_decodability :=
      u16 (Z.lor (Z.shiftl last_received_delta 1) (if decodability_flag this then 1 else 0)) in
    at_index 0 (fun p => WriteBigEndian 2 p last_received_delta_and_decodability) ;;
    advance 2).

Definition Create (this : t) (max_length : Z) (callback : bool) : W bool :=
  room ← make_room 2 (BlockLength this) max_length callback;
  if room : bool then body this ;; mret true else mret false.

#[global] Instance ops : RtcpPacketOps t := Build_RtcpPacketOps t BlockLength Create.

Definition Parse (this : t) (packet : CommonHeader.t) : option (bool * t) :=
  check (CommonHeader.type packet =? Psfb.kPacketType) ;;
  check (CommonHeader.fmt packet =? Psfb.kAfbMessageType) ;;
  if CommonHeader.payload_size_bytes packet <?
     Psfb.kCommonFeedbackLength + kLossNotificationPayloadLength then Some (false, this) else
  let payload := CommonHeader.payload packet in
  id ← ReadBigEndian 32 4 (ptr_add payload 8);
  if negb (id =? kUniqueIdentifier) then Some (false, this) else
  fb ← Psfb.ParseCommonFeedback payload;
  last_decoded ← ReadBigEndian 16 2 (ptr_add payload 12);
  delta_and_decodability ← ReadBigEndian 16 2 (ptr_add payload 14);
  Some (true, MkLntf fb last_decoded (u16 (last_decoded + Z.shiftr delta_and_decodability 1))
                (negb (Z.land delta_and_decodability 1 =? 0))).

(** The invariant [Set] maintains: the last received packet is at most 0x7fff ahead. *)
Record valid (x : t) : Prop := {
  valid_fb : Psfb.valid (fb x);
  valid_decoded : in_u 16 (last_decoded x);
  valid_received : in_u 16 (last_received x);
  valid_delta : u16 (last_received x - last_decoded x) <= 0x7fff
}.

Definition delta_word (x : t) : Z :=
  2 * u16 (last_received x - last_decoded x) + (if decodability_flag x then 1 else 0).

Definition payload_wire (x : t) : list Z :=
  Psfb.wire (fb x) ++ be_bytes 4 kUniqueIdentifier ++ be_bytes 2 (last_decoded x) ++
  be_bytes 2 (delta_word x).

Definition wire (x : t) : list Z :=
  header_wire Psfb.kAfbMessageType Psfb.kPacketType 4 false ++ payload_wire x.

Lemma delta_word_range x : valid x -> in_u 16 (delta_word x).
Proof.
  intros []. pose proof (wrap_range 16 (last_received x - last_decoded x) ltac:(lia)).
  unfold in_u, delta_word. change (2 ^ 16) with 65536. destruct (decodability_flag x); lia.
Qed.

Lemma delta_word_bits x :
  valid x -> u16 (Z.lor (Z.shiftl (u16 (last_received x - last_decoded x)) 1)
                    (if decodability_flag x then 1 else 0)) = delta_word x.
Proof.
  intros Hx. rewrite lor_shiftl_low by (destruct (decodability_flag x); done || lia).
  change (2 ^ 1) with 2. rewrite (Z.mul_comm _ 2). apply wrap_small, (delta_word_range x Hx).
Qed.

Lemma LossNotification_appends_body x : valid x -> appends (body x) (wire x).
Proof.
  intros Hx. apply RoomFacts.appends_index_end; [|done].
  intros _. apply (RoomFacts.appends_header _ _ _ 4 _ _ (payload_wire x));
    [by_compute|by_compute|done|by_compute| |done].
  eapply appends_writes_then; [writes_chain|done| |reflexivity].
  eapply appends_writes_then; [writes_chain|done| |reflexivity].
  eapply appends_writes_then; [writes_chain|done| |reflexivity].
  apply appends_dcheck; [apply Z.leb_le, Hx|].
  rewrite delta_word_bits by done. apply appends_writes; [writes_chain|done].
Qed.

Lemma LossNotification_behaves_valid x : valid x -> behaves x (wire x) (eq (wire x)) (Rtcp.BlockLength x).
Proof. intros Hx. apply (simple_behaves body); [done|by apply LossNotification_appends_body|done|done]. Qed.

#[global] Instance laws : RtcpPacketLaws t :=
  Build_RtcpPacketLaws t _ valid wire (fun x => eq (wire x)) Rtcp.BlockLength LossNotification_behaves_valid.

Lemma LossNotification_Parse_wire this x rest :
  valid x ->
  Parse this (CommonHeader.Header Psfb.kPacketType Psfb.kAfbMessageType 0 (4 * 4)
    (payload_wire x ++ rest)) = Some (true, x).
Proof.
  intros Hx. pose proof (delta_word_range x Hx) as Hd. destruct Hx.
  unfold Parse. hdr. rewrite !Z.eqb_refl. cbn [check mbind option_bind].
  change (4 * 4 <? _) with false. cbv iota.
  unfold payload_wire. read_wire. rewrite Z.eqb_refl. cbn [negb].
  rewrite Psfb.Psfb_Parse_wire by done. cbn [mbind option_bind].
  change (Z.land (delta_word x) 1) with (Z.land (delta_word x) (2 ^ 1 - 1)).
  rewrite Z.shiftr_div_pow2, land_ones_mod by lia. change (2 ^ 1) with 2.
  assert (Hw : delta_word x / 2 = u16 (last_received x - last_decoded x) /\
               negb (delta_word x mod 2 =? 0) = decodability_flag x).
  { unfold delta_word. split.
    - destruct (decodability_flag x); Z.to_euclidean_division_equations; lia.
    - rewrite Z.add_comm, Z.mul_comm, Z_mod_plus_full. by destruct (decodability_flag x). }
  destruct Hw as [-> ->].
  assert (Hr : u16 (last_decoded x + u16 (last_received x - last_decoded x)) = last_received x).
  { unfold wrap. rewrite Zplus_mod_idemp_r. replace (_ + _) with (last_received x) by lia.
    by apply Z.mod_small. }
  rewrite Hr. by destruct x.
Qed.

Lemma LossNotification_roundtrip x : valid x -> round_trips Parse x x.
Proof.
  intros Hx. eapply round_trips_wire;
    [by apply LossNotification_behaves_valid|reflexivity|done|by_compute..|]. intros. by apply LossNotification_Parse_wire.
Qed.

Lemma LossNotification_Parse_safe : safe_parser (is_psfb Psfb.kAfbMessageType) Parse valid eq.
Proof.
  intros this h [Hc Hb Hl Hw] Ht. unfold Parse. fb_checks Ht.
  unfold CommonHeader.payload_size_bytes, Psfb.kCommonFeedbackLength, kLossNotificationPayloadLength.
  destruct (Z.ltb_spec (CommonHeader.payload_size h) (8 + 8)); [by eexists _, _|]. read_safe.
  destruct (negb (v1 =? kUniqueIdentifier)); [by eexists _, _|].
  destruct (Psfb.Psfb_Parse_safe (CommonHeader.payload h)) as (y & -> & Hy); [done|lia|].
  cbn [mbind option_bind]. eexists _, _. split; [reflexivity|].
  split; cbn [fb last_decoded last_received]; [done|done|apply wrap_range; lia|].
  unfold in_u in *. change (2 ^ (8 * Z.of_nat 2)) with 65536 in *.
  unfold wrap. change (2 ^ 16) with 65536. rewrite Zminus_mod_idemp_l.
  replace (v0 + _ - v0) with (Z.shiftr v 1) by lia.
  rewrite Z.shiftr_div_pow2 by lia. change (2 ^ 1) with 2. Z.to_euclidean_division_equations; lia.
Qed.

(** [Set] refuses exactly the values whose delta does not fit. *)
Lemma Set_spec this d r f :
  in_u 16 d -> in_u 16 r -> Psfb.valid (fb this) ->
  let '(ok, x) := Set_ this d r f in
  (ok = true <-> (r - d) mod 2 ^ 16 <= 0x7fff) /\ (ok = false -> x = this) /\
  (ok = true -> valid x /\ last_decoded x = d /\ last_received x = r /\ decodability_flag x = f).
Proof.
  intros Hd Hr Hf. unfold Set_. cbn zeta. unfold wrap.
  destruct (Z.ltb_spec 0x7fff ((r - d) mod 2 ^ 16)) as [H|H].
  - split; [split; [done|lia]|]. done.
  - split; [split; [lia|done]|]. split; [done|]. intros _. split; [by split|done].
Qed.

End LossNotification.

(** ** Properties *)

(** C29: what the mantissa and exponent encoding of bit rates (17 bits in TMMBR and TMMBN, 18 in
    REMB) does to a rate: the loop of [Create] terminates for every 64-bit rate, the decoder
    accepts the result, and the decoded rate is rounded down by less than one part in 2^(k-1),
    is exact when the rate fits the mantissa, and is left alone by a second round trip. *)
Theorem bitrate_quantization k v :
  1 <= k <= 64 -> in_u 64 v ->
  exists m e, BitrateCodec.normalize 64 (2 ^ k - 1) v 0 = Some (m, e) /\ 0 <= m < 2 ^ k /\ 0 <= e < 64 /\
    BitrateCodec.expand m e = (BitrateCodec.quantize k v, false) /\
    BitrateCodec.quantize k v <= v /\
    (BitrateCodec.quantize k v = v \/ (v - BitrateCodec.quantize k v) * 2 ^ (k - 1) < v) /\
    (v < 2 ^ k -> BitrateCodec.quantize k v = v) /\
    BitrateCodec.quantize k (BitrateCodec.quantize k v) = BitrateCodec.quantize k v.
Proof.
  intros Hk Hv. destruct (BitrateCodec.normalize_u64 k v Hk Hv) as (m & e & Hn & [Hm He _] & He' & _ & Hq & Hu).
  pose proof (BitrateCodec.quantize_error k v Hk Hv) as Herr.
  exists m, e. split; [done|]. split; [done|]. split; [lia|]. split; [|done].
  rewrite Hq. apply BitrateCodec.expand_exact; [lia|lia|done].
Qed.

Lemma bitrate_quantization_witness :
  BitrateCodec.quantize 18 0xfffffffffffffffe = 0xffffc00000000000 /\
  BitrateCodec.quantize 18 0xfffffffffffffffe <= 0xfffffffffffffffe.
Proof.
  split; [reflexivity|].
  destruct (bitrate_quantization 18 0xfffffffffffffffe) as (m & e & _ & _ & _ & _ & H & _);
    [lia|by_compute|exact H].
Defined.

(** C28: TMMBR, TMMBN and REMB objects whose unused media source is zero survive the wire up to
    [quantize] of their bit rates: [Build] fills the packet exactly, and [Parse] accepts it and
    restores the ssrcs, the overheads and the order of the items, whatever object it runs on. *)
Theorem bandwidth_feedback_roundtrip :
  (forall x, Tmmbr.valid x -> round_trips Tmmbr.Parse x (Tmmbr.quantized x)) /\
  (forall x, Tmmbn.valid x -> round_trips Tmmbn.Parse x (Tmmbn.quantized x)) /\
  (forall x, Remb.valid x -> round_trips Remb.Parse x (Remb.quantized x)).
Proof. split; [apply Tmmbr.Tmmbr_roundtrip|]. split; [apply Tmmbn.Tmmbn_roundtrip|apply Remb.Remb_roundtrip]. Qed.

Lemma bandwidth_feedback_roundtrip_witness :
  let x := Tmmbr.MkTmmbr Rtpfb.init [TmmbItem.MkItem 7 312000 60] in
  let y := Remb.MkRemb Psfb.init 0x3fffff [1; 2; 3] in
  round_trips Tmmbr.Parse x (Tmmbr.quantized x) /\ round_trips Remb.Parse y (Remb.quantized y).
Proof.
  intros x y. destruct bandwidth_feedback_roundtrip as (Hr & _ & Hb). split.
  - apply Hr. split; [|reflexivity].
    split; [split; by_compute| |discriminate|by_compute].
    constructor; [split; by_compute|constructor].
  - apply Hb. split; [|reflexivity]. split; [split; by_compute|by_compute..].
Defined.

(** The loss notification and the messages without items (PLI, rapid resynchronisation) and
    FIR survive the wire unchanged.  A loss notification does so whenever [Set] accepted its
    values, which it does exactly when the last received packet is at most 0x7fff ahead of the
    last decoded one modulo 2^16. *)
Lemma loss_feedback_roundtrip :
  (forall x, Pli.valid x -> round_trips Pli.Parse x x) /\
  (forall x, RapidResyncRequest.valid x -> round_trips RapidResyncRequest.Parse x x) /\
  (forall x, Fir.valid x -> round_trips Fir.Parse x x) /\
  (forall this d r f, in_u 16 d -> in_u 16 r -> Psfb.valid (LossNotification.fb this) ->
     let '(ok, x) := LossNotification.Set_ this d r f in
     (ok = true <-> (r - d) mod 2 ^ 16 <= 0x7fff) /\
     (ok = true -> round_trips LossNotification.Parse x x /\
        LossNotification.last_decoded x = d /\ LossNotification.last_received x = r /\
        LossNotification.decodability_flag x = f)).
Proof.
  split; [apply Pli.Pli_roundtrip|]. split; [apply RapidResyncRequest.RapidResyncRequest_roundtrip|].
  split; [apply Fir.Fir_roundtrip|]. intros this d r f Hd Hr Hf.
  pose proof (LossNotification.Set_spec this d r f Hd Hr Hf) as Hs.
  destruct (LossNotification.Set_ this d r f) as [ok x]. destruct Hs as (H1 & _ & H3).
  split; [done|]. intros Hok. destruct (H3 Hok) as [Hv Hx]. split; [|done].
  by apply LossNotification.LossNotification_roundtrip.
Qed.

(** The parsers of all payload-specific and transport feedback messages modelled here accept
    or refuse every payload without reading outside it and without failing a check.  PLI, FIR,
    rapid resynchronisation and loss notification leave the object unchanged when they refuse;
    TMMBR, TMMBN and REMB may already have overwritten fields when they find a bit rate that
    does not fit in 64 bits. *)
Lemma feedback_parse_safe :
  safe_parser (is_psfb 1) Pli.Parse Pli.valid eq /\
  safe_parser (is_rtpfb 5) RapidResyncRequest.Parse RapidResyncRequest.valid eq /\
  safe_parser (is_psfb 4) Fir.Parse Fir.parsed eq /\
  safe_parser (is_rtpfb 3) Tmmbr.Parse Tmmbr.parsed (fun _ _ => True) /\
  safe_parser (is_rtpfb 4) Tmmbn.Parse Tmmbn.parsed (fun _ _ => True) /\
  safe_parser (is_psfb 15) Remb.Parse Remb.parsed (fun _ _ => True) /\
  safe_parser (is_psfb 15) LossNotification.Parse LossNotification.valid eq.
Proof.
  split; [apply Pli.Pli_Parse_safe|]. split; [apply RapidResyncRequest.RapidResyncRequest_Parse_safe|].
  split; [apply Fir.Fir_Parse_safe|]. split; [apply Tmmbr.Tmmbr_Parse_safe|]. split; [apply Tmmbn.Tmmbn_Parse_safe|].
  split; [apply Remb.Remb_Parse_safe|apply LossNotification.LossNotification_Parse_safe].
Qed.
