(* ===== verification/ExtendedReports.v ===== *)
(** * Extended reports

    src/src/myrtc/rtp_rtcp/rrtr.{h,cc}, dlrr.{h,cc}, target_bitrate.{h,cc} (the report blocks) and
    extended_reports.{h,cc} (the packet and the loop over its blocks). *)

From S2P Require Import Prelude Buffer ByteIo Rtcp Wire Reports.
Import ByteReader ByteWriter RtcpPacket.

(** The header of a report block. *)
Definition block_header (type words : Z) : list Z := [type] ++ [0] ++ be_bytes 2 words.

Lemma len_block_header t w : len (block_header t w) = 4.
Proof. done. Qed.
#[export] Hint Rewrite len_block_header : len.

Lemma block_header_type t w rest : byte_at (block_header t w ++ rest) 0 = Some t.
Proof. done. Qed.

Lemma block_header_words t w rest :
  in_u 16 w -> ReadBigEndian 16 2 (ptr_add (block_header t w ++ rest) 2) = Some w.
Proof.
  intros H. change (ptr_add (block_header t w ++ rest) 2) with (be_bytes 2 w ++ rest).
  by apply ReadBigEndian_bytes.
Qed.

Module Rrtr.

Definition kBlockType : Z := 4.
Definition kBlockLength : Z := 2.
Definition kLength : Z := 4 * (kBlockLength + 1).

Record t := MkRrtr { ntp : NtpTime.t }.

Definition SetNtp (this : t) (v : NtpTime.t) : t := MkRrtr v.

Definition Parse (buffer : list Z) : option t :=
  b0 ← byte_at buffer 0;
  check (b0 =? kBlockType) ;;
  n ← ReadBigEndian 16 2 (ptr_add buffer 2);
  check (n =? kBlockLength) ;;
  seconds ← ReadBigEndian 32 4 (ptr_add buffer 4);
  fraction ← ReadBigEndian 32 4 (ptr_add buffer 8);
  Some (MkRrtr (NtpTime.Set_ seconds fraction)).

Definition Create (this : t) (buffer : Z) : W unit :=
  store (buffer + 0) kBlockType ;;
  store (buffer + 1) 0 ;;
  WriteBigEndian 2 (buffer + 2) kBlockLength ;;
  WriteBigEndian 4 (buffer + 4) (NtpTime.seconds (ntp this)) ;;
  WriteBigEndian 4 (buffer + 8) (NtpTime.fractions (ntp this)).

Definition valid (x : t) : Prop := in_u 64 (NtpTime.value (ntp x)).

Definition content (x : t) : list Z :=
  be_bytes 4 (NtpTime.seconds (ntp x)) ++ be_bytes 4 (NtpTime.fractions (ntp x)).

Definition wire (x : t) : list Z := block_header kBlockType kBlockLength ++ content x.

Lemma Rrtr_len_wire x : len (wire x) = kLength.
Proof. done. Qed.

Lemma Rrtr_stores_Create x pos : stores (Create x pos) pos (wire x).
Proof.
  unfold Create, wire, block_header. rewrite <- !app_assoc.
  change [kBlockType] with [u8 kBlockType]. change [0] with [u8 0]. stores_chain.
Qed.

Lemma Rrtr_Parse_wire x rest : valid x -> Parse (wire x ++ rest) = Some x.
Proof.
  intros Hx. pose proof (NtpTime.seconds_range _ Hx) as [Hs Hf]. unfold Parse, wire.
  rewrite <- app_assoc, block_header_type. cbn [mbind option_bind]. rewrite Z.eqb_refl.
  cbn [check mbind option_bind]. rewrite block_header_words by by_compute.
  cbn [mbind option_bind]. rewrite Z.eqb_refl. cbn [check mbind option_bind].
  unfold content. read_wire. rewrite NtpTime.Set_seconds by done. by destruct x.
Qed.

Lemma Rrtr_Parse_safe p :
  bytes_ok p -> kLength <= len p -> byte_at p 0 = Some kBlockType ->
  ReadBigEndian 16 2 (ptr_add p 2) = Some kBlockLength -> exists x, Parse p = Some x /\ valid x.
Proof.
  intros Hb Hl H0 H2. unfold kLength, kBlockLength in Hl. unfold Parse. rewrite H0.
  cbn [mbind option_bind]. rewrite Z.eqb_refl. cbn [check mbind option_bind]. rewrite H2.
  cbn [mbind option_bind]. rewrite Z.eqb_refl. cbn [check mbind option_bind].
  read_safe. eexists. split; [done|]. apply NtpTime.Set_range.
Qed.

End Rrtr.

Module Dlrr.

Definition kBlockType : Z := 5.
Definition kBlockHeaderLength : Z := 4.
Definition kSubBlockLength : Z := 12.

Record ReceiveTimeInfo := MkInfo {
  ssrc : Z;
  last_rr : Z;
  delay_since_last_rr : Z
}.

Record t := MkDlrr { sub_blocks : list ReceiveTimeInfo }.

Definition init : t := MkDlrr [].

(** [operator bool]. *)
Definition to_bool (this : t) : bool := negb (bool_decide (length (sub_blocks this) = 0%nat)).
Definition ClearItems (this : t) : t := MkDlrr [].
Definition AddDlrrItem (this : t) (time_info : ReceiveTimeInfo) : t :=
  MkDlrr (sub_blocks this ++ [time_info]).

Definition parse_sub_block (read_at : list Z) : option ReceiveTimeInfo :=
  ssrc ← ReadBigEndian 32 4 (ptr_add read_at 0);
  last_rr ← ReadBigEndian 32 4 (ptr_add read_at 4);
  delay ← ReadBigEndian 32 4 (ptr_add read_at 8);
  Some (MkInfo ssrc last_rr delay).

Definition Parse (this : t) (buffer : list Z) (block_length_32bits : Z) : option (bool * t) :=
  b0 ← byte_at buffer 0;
  check (b0 =? kBlockType) ;;
  n ← ReadBigEndian 16 2 (ptr_add buffer 2);
  check (block_length_32bits =? n) ;;
  if negb (block_length_32bits mod 3 =? 0) then Some (false, this) else
  let blocks_count := block_length_32bits / 3 in
  l ← parse_items parse_sub_block kSubBlockLength (Z.to_nat blocks_count)
        (ptr_add buffer kBlockHeaderLength);
  Some (true, MkDlrr l).

Definition BlockLength (this : t) : Z :=
  if bool_decide (length (sub_blocks this) = 0%nat) then 0
  else kBlockHeaderLength + kSubBlockLength * len (sub_blocks this).

Definition create_sub_block (sub_block : ReceiveTimeInfo) (write_at : Z) : W unit :=
  WriteBigEndian 4 (write_at + 0) (ssrc sub_block) ;;
  WriteBigEndian 4 (write_at + 4) (last_rr sub_block) ;;
  WriteBigEndian 4 (write_at + 8) (delay_since_last_rr sub_block).

(** [dchecked_cast<uint16_t>] checks that the value fits. *)
Definition Create (this : t) (buffer : Z) : W unit :=
  if bool_decide (length (sub_blocks this) = 0%nat) then mret tt else
  (store (buffer + 0) kBlockType ;;
   store (buffer + 1) 0 ;;
   dcheck (3 * len (sub_blocks this) <=? 0xffff) ;;
   WriteBigEndian 2 (buffer + 2) (3 * len (sub_blocks this))) ;;
  write_at ← store_items create_sub_block kSubBlockLength (buffer + kBlockHeaderLength) (sub_blocks this);
  dcheck (buffer + BlockLength this =? write_at).

Record info_valid (x : ReceiveTimeInfo) : Prop := {
  valid_ssrc : in_u 32 (ssrc x);
  valid_last_rr : in_u 32 (last_rr x);
  valid_delay : in_u 32 (delay_since_last_rr x)
}.

Record valid (x : t) : Prop := {
  valid_sub_blocks : Forall info_valid (sub_blocks x);
  valid_count : 3 * len (sub_blocks x) <= 0xffff
}.

Definition info_wire (x : ReceiveTimeInfo) : list Z :=
  be_bytes 4 (ssrc x) ++ be_bytes 4 (last_rr x) ++ be_bytes 4 (delay_since_last_rr x).

Definition wire (x : t) : list Z :=
  if bool_decide (length (sub_blocks x) = 0%nat) then []
  else block_header kBlockType (3 * len (sub_blocks x)) ++ mjoin (info_wire <$> sub_blocks x).

Lemma len_infos l : len (mjoin (info_wire <$> l)) = 12 * len l.
Proof. by apply len_items. Qed.

Lemma Dlrr_len_wire x : len (wire x) = BlockLength x.
Proof.
  unfold wire, BlockLength. case_bool_decide; [done|].
  rewrite len_app, len_infos, len_block_header. done.
Qed.

Lemma Dlrr_BlockLength_words x : BlockLength x = 4 * (BlockLength x / 4) /\ 0 <= BlockLength x.
Proof.
  unfold BlockLength, kBlockHeaderLength, kSubBlockLength. pose proof (len_nonneg (sub_blocks x)).
  case_bool_decide; [done|]. Z.to_euclidean_division_equations; lia.
Qed.

Lemma stores_header_dlrr (x : t) pos :
  3 * len (sub_blocks x) <= 0xffff ->
  stores (store (pos + 0) kBlockType ;; store (pos + 1) 0 ;;
          dcheck (3 * len (sub_blocks x) <=? 0xffff) ;;
          WriteBigEndian 2 (pos + 2) (3 * len (sub_blocks x))) pos
    (block_header kBlockType (3 * len (sub_blocks x))).
Proof.
  intros Hc. unfold block_header. change [kBlockType] with [u8 kBlockType]. change [0] with [u8 0].
  eapply stores_seq;
    [ stores_leaf
    | eapply stores_seq;
        [ stores_leaf
        | apply stores_dcheck; [by apply Z.leb_le|apply stores_WriteBigEndian]
        | len_simpl; zconst; lia
        | reflexivity ]
    | len_simpl; zconst; lia
    | reflexivity ].
Qed.

Lemma Dlrr_stores_Create x pos : valid x -> stores (Create x pos) pos (wire x).
Proof.
  intros [Hv Hc]. unfold Create. pose proof (Dlrr_len_wire x) as Hlw. unfold wire in *.
  destruct (bool_decide_reflect (length (sub_blocks x) = 0%nat)) as [He|He]; [apply stores_ret|].
  intros s Hp Hl. rewrite len_app, len_infos, len_block_header in Hl.
  pose proof (len_nonneg (sub_blocks x)).
  rewrite (ST_bind_ret _ _ _ _ _ (stores_header_dlrr x pos Hc s Hp ltac:(rewrite len_block_header; lia))).
  set (s1 := put _ _ s).
  assert (Hs1 : len (packet s1) = len (packet s)).
  { unfold s1, put. cbn [packet]. apply len_splice; [done|]. rewrite len_block_header. lia. }
  rewrite (ST_bind_ret _ _ _ (pos + 4 + 12 * len (sub_blocks x))
             (put (pos + 4) (mjoin (info_wire <$> sub_blocks x)) s1)).
  - unfold BlockLength, kBlockHeaderLength, kSubBlockLength. rewrite bool_decide_eq_false_2 by done.
    replace (_ =? _) with true by (symmetry; apply Z.eqb_eq; lia). cbn [dcheck].
    unfold mret, ST_ret. do 2 f_equal. unfold s1, put. cbn [packet index ready]. f_equal.
    apply (splice_splice pos (block_header kBlockType (3 * len (sub_blocks x)))
             (mjoin (info_wire <$> sub_blocks x))); [done|].
    rewrite len_block_header, len_infos. lia.
  - apply store_items_stores; [|done|done|lia|lia].
    intros i p _. unfold create_sub_block, info_wire. stores_chain.
Qed.

Lemma parse_sub_block_wire i rest : info_valid i -> parse_sub_block (info_wire i ++ rest) = Some i.
Proof. intros []. unfold parse_sub_block, info_wire. read_wire. by destruct i. Qed.

Lemma Dlrr_Parse_wire this x rest :
  valid x -> sub_blocks x <> [] -> Parse this (wire x ++ rest) (3 * len (sub_blocks x)) = Some (true, x).
Proof.
  intros [Hv Hc] Hne. pose proof (len_nonneg (sub_blocks x)). unfold Parse, wire.
  rewrite bool_decide_eq_false_2 by by destruct (sub_blocks x).
  rewrite <- app_assoc, block_header_type. cbn [mbind option_bind]. rewrite Z.eqb_refl.
  cbn [check mbind option_bind]. rewrite block_header_words by (unfold in_u; change (2 ^ 16) with 65536; lia).
  cbn [mbind option_bind]. rewrite Z.eqb_refl. cbn [check mbind option_bind].
  rewrite (Z.mul_comm 3), Z_mod_mult, Z_div_mult by lia. cbn [Z.eqb negb].
  unfold kBlockHeaderLength. ptr_simpl. unfold len. rewrite Nat2Z.id.
  rewrite parse_items_wire; [by destruct x| |done].
  intros i r Hi. apply parse_sub_block_wire. by eapply Forall_forall in Hi.
Qed.

Lemma Dlrr_Parse_safe this p n :
  bytes_ok p -> 0 <= n <= 0xffff -> 4 + 4 * n <= len p -> byte_at p 0 = Some kBlockType ->
  ReadBigEndian 16 2 (ptr_add p 2) = Some n ->
  exists r x, Parse this p n = Some (r, x) /\
    (if r then Forall info_valid (sub_blocks x) /\ 3 * len (sub_blocks x) = n else x = this).
Proof.
  intros Hb Hn Hl H0 H2. unfold Parse. rewrite H0.
  cbn [mbind option_bind]. rewrite Z.eqb_refl. cbn [check mbind option_bind]. rewrite H2.
  cbn [mbind option_bind]. rewrite Z.eqb_refl. cbn [check mbind option_bind].
  destruct (Z.eqb_spec (n mod 3) 0); [|by eexists _, _]. cbn [negb].
  unfold kSubBlockLength, kBlockHeaderLength.
  destruct (parse_items_safe parse_sub_block 12 info_valid (Z.to_nat (n / 3)) (ptr_add p 4))
    as (l & -> & Hln & Hf).
  - lia.
  - intros q Hq Hlq. unfold parse_sub_block. read_safe. eexists. split; [done|]. by split.
  - by apply bytes_ok_ptr_add.
  - rewrite len_ptr_add by lia. Z.to_euclidean_division_equations; lia.
  - eexists _, _. split; [done|]. cbn [sub_blocks]. split; [done|]. unfold len. rewrite Hln.
    Z.to_euclidean_division_equations; lia.
Qed.

End Dlrr.

Module TargetBitrate.

Definition kBlockType : Z := 42.
Definition kTargetBitrateHeaderSizeBytes : Z := 4.
Definition kBitrateItemSizeBytes : Z := 4.

Record BitrateItem := MkItem {
  spatial_layer : Z;
  temporal_layer : Z;
  target_bitrate_kbps : Z
}.

Record t := MkTarget { bitrates : list BitrateItem }.

Definition init : t := MkTarget [].

(** The checks of [AddTargetBitrate]. *)
Definition make_item (spatial_layer temporal_layer target_bitrate_kbps : Z) : option BitrateItem :=
  check (spatial_layer <=? 0x0F) ;;
  check (temporal_layer <=? 0x0F) ;;
  check (target_bitrate_kbps <=? 0x00FFFFFF) ;;
  Some (MkItem spatial_layer temporal_layer target_bitrate_kbps).

Definition AddTargetBitrate (this : t) (spatial_layer temporal_layer target_bitrate_kbps : Z) : option t :=
  item ← make_item spatial_layer temporal_layer target_bitrate_kbps;
  Some (MkTarget (bitrates this ++ [item])).

Definition parse_item (block : list Z) : option BitrateItem :=
  layers ← byte_at block 0;
  bitrate_kbps ← ReadBigEndian 32 3 (ptr_add block 1);
  make_item (Z.land (Z.shiftr layers 4) 0x0F) (Z.land layers 0x0F) bitrate_kbps.

Definition Parse (block : list Z) (block_length : Z) : option t :=
  b0 ← byte_at block 0;
  check (b0 =? kBlockType) ;;
  n ← ReadBigEndian 16 2 (ptr_add block 2);
  check (block_length =? n) ;;
  let payload_bytes := block_length * 4 in
  let num_items := payload_bytes / kBitrateItemSizeBytes in
  l ← parse_items parse_item kBitrateItemSizeBytes (Z.to_nat num_items)
        (ptr_add block kTargetBitrateHeaderSizeBytes);
  Some (MkTarget l).

Definition BlockLength (this : t) : Z :=
  kTargetBitrateHeaderSizeBytes + len (bitrates this) * kBitrateItemSizeBytes.

Definition create_item (item : BitrateItem) (p : Z) : W unit :=
  store p (Z.lor (Z.shiftl (spatial_layer item) 4) (temporal_layer item)) ;;
  WriteBigEndian 3 (p + 1) (target_bitrate_kbps item).

Definition Create (this : t) (buffer : Z) : W unit :=
  store (buffer + 0) kBlockType ;;
  store (buffer + 1) 0 ;;
  let block_length_words := BlockLength this / 4 - 1 in
  dcheck (block_length_words <=? 0xffff) ;;
  WriteBigEndian 2 (buffer + 2) block_length_words ;;
  _ ← store_items create_item kBitrateItemSizeBytes (buffer + kTargetBitrateHeaderSizeBytes) (bitrates this);
  mret tt.

Record item_valid (x : BitrateItem) : Prop := {
  valid_spatial : 0 <= spatial_layer x <= 0x0F;
  valid_temporal : 0 <= temporal_layer x <= 0x0F;
  valid_kbps : in_u 24 (target_bitrate_kbps x)
}.

Record valid (x : t) : Prop := {
  valid_items : Forall item_valid (bitrates x);
  valid_count : len (bitrates x) <= 0xffff
}.

Definition item_wire (x : BitrateItem) : list Z :=
  [spatial_layer x * 16 + temporal_layer x] ++ be_bytes 3 (target_bitrate_kbps x).

Definition wire (x : t) : list Z :=
  block_header kBlockType (len (bitrates x)) ++ mjoin (item_wire <$> bitrates x).

Lemma len_items_wire l : len (mjoin (item_wire <$> l)) = 4 * len l.
Proof. by apply len_items. Qed.

Lemma TargetBitrate_len_wire x : len (wire x) = BlockLength x.
Proof.
  unfold wire, BlockLength, kTargetBitrateHeaderSizeBytes, kBitrateItemSizeBytes.
  rewrite len_app, len_items_wire, len_block_header. lia.
Qed.

Lemma block_words x : BlockLength x / 4 - 1 = len (bitrates x).
Proof.
  unfold BlockLength, kTargetBitrateHeaderSizeBytes, kBitrateItemSizeBytes.
  Z.to_euclidean_division_equations; lia.
Qed.

Lemma stores_create_item i p : item_valid i -> stores (create_item i p) p (item_wire i).
Proof.
  intros []. unfold create_item, item_wire.
  rewrite lor_shiftl_low by (change (2 ^ 4) with 16; lia). change (2 ^ 4) with 16.
  set (b := spatial_layer i * 16 + temporal_layer i).
  assert (Hb : u8 b = b) by (apply wrap_small; unfold in_u, b; change (2 ^ 8) with 256; lia).
  rewrite <- Hb at 2. stores_chain.
Qed.

Lemma TargetBitrate_stores_Create x pos : valid x -> stores (Create x pos) pos (wire x).
Proof.
  intros [Hv Hc]. unfold Create. pose proof (len_nonneg (bitrates x)). rewrite block_words.
  change (wire x) with ([u8 kBlockType] ++ [u8 0] ++ be_bytes 2 (len (bitrates x)) ++ mjoin (item_wire <$> bitrates x)).
  eapply stores_seq;
    [ stores_leaf
    | eapply stores_seq;
        [ stores_leaf
        | apply stores_dcheck; [by apply Z.leb_le|]; eapply stores_seq;
            [ apply stores_WriteBigEndian
            |
            | instantiate (1 := pos + 4); len_simpl; zconst; lia
            | reflexivity ]
        | len_simpl; zconst; lia
        | reflexivity ]
    | len_simpl; zconst; lia
    | reflexivity ].
  intros s H1 H2. rewrite len_items_wire in H2. unfold mbind, ST_bind.
  unfold kTargetBitrateHeaderSizeBytes, kBitrateItemSizeBytes.
  rewrite (store_items_stores create_item 4 item_wire); [done| |done|done|done|lia].
  intros i p Hi. apply stores_create_item. by eapply Forall_forall in Hi.
Qed.

Lemma layer_bits s t :
  0 <= s <= 15 -> 0 <= t <= 15 ->
  Z.land (Z.shiftr (s * 16 + t) 4) 0x0F = s /\ Z.land (s * 16 + t) 0x0F = t.
Proof.
  intros Hs Ht. change 0x0F with (2 ^ 4 - 1). rewrite !land_ones_mod, Z.shiftr_div_pow2 by lia.
  change (2 ^ 4) with 16. Z.to_euclidean_division_equations; lia.
Qed.

Lemma make_item_valid s t k :
  0 <= s <= 15 -> 0 <= t <= 15 -> in_u 24 k ->
  make_item s t k = Some (MkItem s t k) /\ item_valid (MkItem s t k).
Proof.
  intros Hs Ht [Hk1 Hk2]. change (2 ^ 24) with 16777216 in Hk2. split; [|by split].
  unfold make_item. by ztests.
Qed.

Lemma TargetBitrate_parse_item_wire i rest : item_valid i -> parse_item (item_wire i ++ rest) = Some i.
Proof.
  intros []. unfold parse_item, item_wire. rewrite <- app_assoc.
  change (byte_at ([?a] ++ _) 0) with (Some a). change (ptr_add ([?a] ++ ?l) 1) with l.
  cbn [mbind option_bind]. rewrite ReadBigEndian_bytes by (done || lia). cbn [mbind option_bind].
  destruct (layer_bits (spatial_layer i) (temporal_layer i)) as [-> ->]; [done..|].
  destruct (make_item_valid (spatial_layer i) (temporal_layer i) (target_bitrate_kbps i)) as [-> _];
    [done..|]. by destruct i.
Qed.

Lemma TargetBitrate_Parse_wire x rest : valid x -> Parse (wire x ++ rest) (len (bitrates x)) = Some x.
Proof.
  intros [Hv Hc]. pose proof (len_nonneg (bitrates x)). unfold Parse, wire.
  rewrite <- app_assoc, block_header_type. cbn [mbind option_bind]. rewrite Z.eqb_refl.
  cbn [check mbind option_bind]. rewrite block_header_words by (unfold in_u; change (2 ^ 16) with 65536; lia).
  cbn [mbind option_bind]. rewrite Z.eqb_refl. cbn [check mbind option_bind].
  unfold kTargetBitrateHeaderSizeBytes, kBitrateItemSizeBytes. rewrite Z_div_mult by lia. ptr_simpl.
  unfold len. rewrite Nat2Z.id. rewrite parse_items_wire; [by destruct x| |done].
  intros i r Hi. apply TargetBitrate_parse_item_wire. by eapply Forall_forall in Hi.
Qed.

Lemma TargetBitrate_Parse_safe p n :
  bytes_ok p -> 0 <= n <= 0xffff -> 4 + 4 * n <= len p -> byte_at p 0 = Some kBlockType ->
  ReadBigEndian 16 2 (ptr_add p 2) = Some n ->
  exists x, Parse p n = Some x /\ Forall item_valid (bitrates x) /\ len (bitrates x) = n.
Proof.
  intros Hb Hn Hl H0 H2. unfold Parse. rewrite H0.
  cbn [mbind option_bind]. rewrite Z.eqb_refl. cbn [check mbind option_bind]. rewrite H2.
  cbn [mbind option_bind]. rewrite Z.eqb_refl. cbn [check mbind option_bind].
  unfold kTargetBitrateHeaderSizeBytes, kBitrateItemSizeBytes. rewrite Z_div_mult by lia.
  destruct (parse_items_safe parse_item 4 item_valid (Z.to_nat n) (ptr_add p 4))
    as (l & -> & Hln & Hf).
  - lia.
  - intros q Hq Hlq. unfold parse_item. read_safe.
    assert (Hland : forall v, 0 <= Z.land v 0x0F <= 15).
    { intros w. change 0x0F with (2 ^ 4 - 1). rewrite land_ones_mod by lia.
      pose proof (Z.mod_pos_bound w (2 ^ 4) ltac:(lia)). change (2 ^ 4) with 16 in *. lia. }
    edestruct make_item_valid as [-> Hi]; [apply Hland|apply Hland|done|]. by eexists.
  - by apply bytes_ok_ptr_add.
  - rewrite len_ptr_add by lia. lia.
  - eexists. split; [done|]. cbn [bitrates]. split; [done|]. unfold len. lia.
Qed.

End TargetBitrate.

Module ExtendedReports.

Definition kPacketType : Z := 207.
Definition kMaxNumberOfDlrrItems : Z := 50.
Definition kXrBaseLength : Z := 4.
Definition kBlockHeaderSizeBytes : Z := 4.

Record t := MkXr {
  sender_ssrc : Z;
  rrtr_block : option Rrtr.t;
  dlrr_block : Dlrr.t;
  target_bitrate : option TargetBitrate.t
}.

Definition init : t := MkXr 0 None Dlrr.init None.

Definition SetSenderSsrc (this : t) (v : Z) : t :=
  MkXr v (rrtr_block this) (dlrr_block this) (target_bitrate this).

Definition SetRrtr (this : t) (rrtr : Rrtr.t) : t :=
  MkXr (sender_ssrc this) (Some rrtr) (dlrr_block this) (target_bitrate this).

Definition AddDlrrItem (this : t) (time_info : Dlrr.ReceiveTimeInfo) : bool * t :=
  if kMaxNumberOfDlrrItems <=? len (Dlrr.sub_blocks (dlrr_block this)) then (false, this)
  else (true, MkXr (sender_ssrc this) (rrtr_block this)
                (Dlrr.AddDlrrItem (dlrr_block this) time_info) (target_bitrate this)).

Definition SetTargetBitrate (this : t) (bitrate : TargetBitrate.t) : t :=
  MkXr (sender_ssrc this) (rrtr_block this) (dlrr_block this) (Some bitrate).

Definition ParseRrtrBlock (this : t) (block : list Z) (block_length : Z) : option t :=
  if negb (block_length =? Rrtr.kBlockLength) then Some this else
  match rrtr_block this with
  | Some _ => Some this
  | None => r ← Rrtr.Parse block;
            Some (MkXr (sender_ssrc this) (Some r) (dlrr_block this) (target_bitrate this))
  end.

Definition ParseDlrrBlock (this : t) (block : list Z) (block_length : Z) : option t :=
  if Dlrr.to_bool (dlrr_block this) then Some this else
  '(_, d) ← Dlrr.Parse (dlrr_block this) block block_length;
  Some (MkXr (sender_ssrc this) (rrtr_block this) d (target_bitrate this)).

Definition ParseTargetBitrateBlock (this : t) (block : list Z) (block_length : Z) : option t :=
  b ← TargetBitrate.Parse block block_length;
  Some (MkXr (sender_ssrc this) (rrtr_block this) (dlrr_block this) (Some b)).

(** The [switch] over the block type; unknown blocks are ignored. *)
Definition ParseBlock (this : t) (block_type : Z) (block : list Z) (block_length : Z) : option t :=
  if block_type =? Rrtr.kBlockType then ParseRrtrBlock this block block_length
  else if block_type =? Dlrr.kBlockType then ParseDlrrBlock this block block_length
  else if block_type =? TargetBitrate.kBlockType then ParseTargetBitrateBlock this block block_length
  else Some this.

(** [while (current_block + kBlockHeaderSizeBytes <= packet_end)]; [avail] is
    [packet_end - current_block]. *)
Fixpoint parse_blocks (fuel : nat) (this : t) (current_block : list Z) (avail : Z) : option (bool * t) :=
  if kBlockHeaderSizeBytes <=? avail then
    match fuel with
    | O => None
    | S fuel' =>
        block_type ← ReadBigEndian 8 1 current_block;
        block_length ← ReadBigEndian 16 2 (ptr_add current_block 2);
        let size := kBlockHeaderSizeBytes + block_length * 4 in
        if avail <? size then Some (false, this) else
        this ← ParseBlock this block_type current_block block_length;
        parse_blocks fuel' this (ptr_add current_block size) (avail - size)
    end
  else Some (true, this).

Definition Parse (this : t) (packet : CommonHeader.t) : option (bool * t) :=
  check (CommonHeader.type packet =? kPacketType) ;;
  let size := CommonHeader.payload_size_bytes packet in
  if size <? kXrBaseLength then Some (false, this) else
  ssrc ← ReadBigEndian 32 4 (CommonHeader.payload packet);
  parse_blocks (Z.to_nat size) (MkXr ssrc None (Dlrr.ClearItems (dlrr_block this)) None)
    (ptr_add (CommonHeader.payload packet) kXrBaseLength) (size - kXrBaseLength).

Definition RrtrLength (this : t) : Z := match rrtr_block this with Some _ => Rrtr.kLength | None => 0 end.
Definition DlrrLength (this : t) : Z := Dlrr.BlockLength (dlrr_block this).
Definition TargetBitrateLength (this : t) : Z :=
  match target_bitrate this with Some b => TargetBitrate.BlockLength b | None => 0 end.

Definition BlockLength (this : t) : Z :=
  kHeaderLength + kXrBaseLength + RrtrLength this + DlrrLength this + TargetBitrateLength this.

Definition body (this : t) : W unit :=
  with_index_end (BlockLength this) (fun _ =>
    (length ← HeaderLength (BlockLength this); CreateHeader 0 kPacketType length false) ;;
    at_index 0 (fun p => WriteBigEndian 4 p (sender_ssrc this)) ;;
    advance 4 ;;
    (match rrtr_block this with
     | Some r => at_index 0 (Rrtr.Create r) ;; advance Rrtr.kLength
     | None => mret tt
     end) ;;
    (if Dlrr.to_bool (dlrr_block this) then
       at_index 0 (Dlrr.Create (dlrr_block this)) ;; advance (Dlrr.BlockLength (dlrr_block this))
     else mret tt) ;;
    match target_bitrate this with
    | Some b => at_index 0 (TargetBitrate.Create b) ;; advance (TargetBitrate.BlockLength b)
    | None => mret tt
    end).

Definition Create (this : t) (max_length : Z) (callback : bool) : W bool :=
  room ← make_room 2 (BlockLength this) max_length callback;
  if room : bool then body this ;; mret true else mret false.

#[global] Instance ops : RtcpPacketOps t := Build_RtcpPacketOps t BlockLength Create.

Definition option_wire {A} (f : A -> list Z) (o : option A) : list Z :=
  match o with Some x => f x | None => [] end.

Definition blocks_wire (x : t) : list Z :=
  option_wire Rrtr.wire (rrtr_block x) ++ Dlrr.wire (dlrr_block x) ++
  option_wire TargetBitrate.wire (target_bitrate x).

Record blocks_valid (x : t) : Prop := {
  valid_ssrc : in_u 32 (sender_ssrc x);
  valid_rrtr : forall r, rrtr_block x = Some r -> Rrtr.valid r;
  valid_dlrr : Dlrr.valid (dlrr_block x);
  valid_target : forall b, target_bitrate x = Some b -> TargetBitrate.valid b
}.

(** The invariant: the blocks are valid and fit together in one packet. *)
Record valid (x : t) : Prop := {
  valid_blocks : blocks_valid x;
  valid_size : BlockLength x <= 4 + 4 * 0xffff
}.

Definition payload_wire (x : t) : list Z := be_bytes 4 (sender_ssrc x) ++ blocks_wire x.

Definition words (x : t) : Z := BlockLength x / 4 - 1.

Definition wire (x : t) : list Z := header_wire 0 kPacketType (words x) false ++ payload_wire x.

Lemma len_blocks_wire x :
  len (blocks_wire x) = RrtrLength x + DlrrLength x + TargetBitrateLength x.
Proof.
  unfold blocks_wire, RrtrLength, DlrrLength, TargetBitrateLength. rewrite !len_app, Dlrr.Dlrr_len_wire.
  destruct (rrtr_block x), (target_bitrate x); cbn [option_wire];
    rewrite ?TargetBitrate.TargetBitrate_len_wire, ?Rrtr.Rrtr_len_wire, ?len_nil; lia.
Qed.

Lemma ExtendedReports_BlockLength_words x : BlockLength x = 4 + 4 * words x /\ 1 <= words x.
Proof.
  unfold words, BlockLength, RrtrLength, DlrrLength, TargetBitrateLength, kHeaderLength, kXrBaseLength.
  pose proof (Dlrr.Dlrr_BlockLength_words (dlrr_block x)).
  assert (Ht : exists k, 0 <= k /\
    match target_bitrate x with Some b => TargetBitrate.BlockLength b | None => 0 end = 4 * k).
  { destruct (target_bitrate x) as [b|]; [|by exists 0].
    exists (1 + len (TargetBitrate.bitrates b)). pose proof (len_nonneg (TargetBitrate.bitrates b)).
    unfold TargetBitrate.BlockLength, TargetBitrate.kTargetBitrateHeaderSizeBytes,
      TargetBitrate.kBitrateItemSizeBytes. lia. }
  destruct Ht as (k & Hk & ->).
  destruct (rrtr_block x); [change Rrtr.kLength with 12|]; Z.to_euclidean_division_equations; lia.
Qed.

Lemma ExtendedReports_len_payload_wire x : len (payload_wire x) = 4 * words x.
Proof.
  pose proof (ExtendedReports_BlockLength_words x) as [Hb _]. unfold payload_wire.
  rewrite len_app, len_blocks_wire, len_be_bytes.
  unfold BlockLength, kHeaderLength, kXrBaseLength in Hb. lia.
Qed.

Lemma ExtendedReports_words_range x : valid x -> in_u 16 (words x).
Proof.
  intros [_ Hs]. pose proof (ExtendedReports_BlockLength_words x). unfold in_u. change (2 ^ 16) with 65536. lia.
Qed.

Lemma ExtendedReports_appends_body x : valid x -> appends (body x) (wire x).
Proof.
  intros Hx. pose proof (ExtendedReports_words_range x Hx). pose proof (ExtendedReports_BlockLength_words x) as [Hb _].
  destruct Hx as [[] _]. apply RoomFacts.appends_index_end.
  2:{ unfold wire. rewrite len_app, ExtendedReports_len_payload_wire, len_header_wire. lia. }
  intros _. eapply RoomFacts.appends_header; [by_compute|by_compute|done|done| |reflexivity].
  eapply appends_writes_then; [writes_chain|done| |reflexivity].
  apply (appends_seq _ _ (option_wire Rrtr.wire (rrtr_block x))
    (Dlrr.wire (dlrr_block x) ++ option_wire TargetBitrate.wire (target_bitrate x)));
    [|apply (appends_seq _ _ (Dlrr.wire (dlrr_block x))
        (option_wire TargetBitrate.wire (target_bitrate x))); [| |done]|done].
  - destruct (rrtr_block x) as [r|]; [|apply appends_ret]. apply appends_writes; [|done].
    apply writes_at_index. intros. apply Rrtr.Rrtr_stores_Create.
  - unfold Dlrr.to_bool.
    destruct (bool_decide_reflect (length (Dlrr.sub_blocks (dlrr_block x)) = 0%nat)) as [He|He]; cbn [negb].
    + unfold Dlrr.wire. rewrite bool_decide_eq_true_2 by done. apply appends_ret.
    + apply appends_writes; [|by rewrite Dlrr.Dlrr_len_wire].
      apply writes_at_index. intros. by apply Dlrr.Dlrr_stores_Create.
  - destruct (target_bitrate x) as [b|]; [|apply appends_ret].
    apply appends_writes; [|cbn [option_wire]; by rewrite TargetBitrate.TargetBitrate_len_wire].
    apply writes_at_index. intros. apply TargetBitrate.TargetBitrate_stores_Create. by apply valid_target0.
Qed.

Lemma ExtendedReports_behaves_valid x : valid x -> behaves x (wire x) (eq (wire x)) (Rtcp.BlockLength x).
Proof.
  intros Hx. pose proof (ExtendedReports_BlockLength_words x) as [Hb Hw].
  apply (simple_behaves body); [done|by apply ExtendedReports_appends_body| |].
  - unfold wire. rewrite len_app, ExtendedReports_len_payload_wire, len_header_wire. cbn. lia.
  - cbn. lia.
Qed.

#[global] Instance laws : RtcpPacketLaws t :=
  Build_RtcpPacketLaws t _ valid wire (fun x => eq (wire x)) Rtcp.BlockLength ExtendedReports_behaves_valid.

(** ** Parsing *)

Lemma parse_blocks_end fuel this p a : a < 4 -> parse_blocks fuel this p a = Some (true, this).
Proof.
  intros. destruct fuel; cbn [parse_blocks]; unfold kBlockHeaderSizeBytes; by ztests.
Qed.

Lemma parse_blocks_step fuel this this' ty n content rest a :
  in_u 16 n -> len content = 4 * n -> 4 + 4 * n <= a ->
  ParseBlock this ty (block_header ty n ++ content ++ rest) n = Some this' ->
  parse_blocks (S fuel) this ((block_header ty n ++ content) ++ rest) a =
  parse_blocks fuel this' rest (a - (4 + 4 * n)).
Proof.
  intros Hn Hc Ha Hp. destruct Hn as [Hn0 Hn1]. cbn [parse_blocks]. unfold kBlockHeaderSizeBytes.
  rewrite <- app_assoc. ztest (4 <=? a) true.
  change (ReadBigEndian 8 1 (block_header ty n ++ content ++ rest)) with (Some ty).
  cbn [mbind option_bind]. rewrite block_header_words by done. cbn [mbind option_bind].
  ztest (a <? 4 + n * 4) false. rewrite Hp. cbn [mbind option_bind].
  rewrite app_assoc, ptr_add_app_ge by (rewrite len_app, len_block_header; lia).
  rewrite len_app, len_block_header. replace (4 + n * 4 - _) with 0 by lia.
  rewrite ptr_add_0. f_equal. lia.
Qed.

Lemma parse_blocks_rrtr fuel ssrc d tb r rest a :
  Rrtr.valid r -> 12 <= a ->
  parse_blocks (S fuel) (MkXr ssrc None d tb) (Rrtr.wire r ++ rest) a =
  parse_blocks fuel (MkXr ssrc (Some r) d tb) rest (a - 12).
Proof.
  intros Hr Ha. unfold Rrtr.wire.
  erewrite parse_blocks_step; [reflexivity|by_compute|done|done|].
  change (ParseBlock ?t Rrtr.kBlockType ?b ?n) with (ParseRrtrBlock t b n).
  unfold ParseRrtrBlock. rewrite Z.eqb_refl. cbn [negb rrtr_block].
  rewrite app_assoc. change (block_header _ _ ++ Rrtr.content r) with (Rrtr.wire r).
  by rewrite Rrtr.Rrtr_Parse_wire.
Qed.

Lemma parse_blocks_dlrr fuel ssrc r tb d rest a :
  Dlrr.valid d -> Dlrr.sub_blocks d <> [] -> Dlrr.BlockLength d <= a ->
  parse_blocks (S fuel) (MkXr ssrc r Dlrr.init tb) (Dlrr.wire d ++ rest) a =
  parse_blocks fuel (MkXr ssrc r d tb) rest (a - Dlrr.BlockLength d).
Proof.
  intros Hd Hne Ha. pose proof (Dlrr.Dlrr_Parse_wire Dlrr.init d rest Hd Hne) as Hp. destruct Hd as [_ Hc].
  pose proof (len_nonneg (Dlrr.sub_blocks d)).
  unfold Dlrr.wire, Dlrr.BlockLength in *.
  rewrite bool_decide_eq_false_2 in Ha, Hp |- * by by destruct (Dlrr.sub_blocks d).
  unfold Dlrr.kBlockHeaderLength, Dlrr.kSubBlockLength in *.
  erewrite (parse_blocks_step fuel _ (MkXr ssrc r d tb) Dlrr.kBlockType (3 * len (Dlrr.sub_blocks d))).
  - f_equal. lia.
  - unfold in_u. change (2 ^ 16) with 65536. lia.
  - rewrite Dlrr.len_infos. lia.
  - lia.
  - change (ParseBlock ?t Dlrr.kBlockType ?b ?n) with (ParseDlrrBlock t b n).
    unfold ParseDlrrBlock. cbn [Dlrr.to_bool dlrr_block]. rewrite app_assoc.
    change (Dlrr.to_bool Dlrr.init) with false. cbv iota. by rewrite Hp.
Qed.

Lemma parse_blocks_target fuel ssrc r d b rest a :
  TargetBitrate.valid b -> TargetBitrate.BlockLength b <= a ->
  parse_blocks (S fuel) (MkXr ssrc r d None) (TargetBitrate.wire b ++ rest) a =
  parse_blocks fuel (MkXr ssrc r d (Some b)) rest (a - TargetBitrate.BlockLength b).
Proof.
  intros Hb Ha. pose proof (TargetBitrate.TargetBitrate_Parse_wire b rest Hb) as Hp. destruct Hb as [_ Hc].
  pose proof (len_nonneg (TargetBitrate.bitrates b)).
  unfold TargetBitrate.wire, TargetBitrate.BlockLength, TargetBitrate.kTargetBitrateHeaderSizeBytes,
    TargetBitrate.kBitrateItemSizeBytes in *.
  erewrite (parse_blocks_step fuel _ (MkXr ssrc r d (Some b)) TargetBitrate.kBlockType
    (len (TargetBitrate.bitrates b))).
  - f_equal. lia.
  - unfold in_u. change (2 ^ 16) with 65536. lia.
  - rewrite TargetBitrate.len_items_wire. lia.
  - lia.
  - change (ParseBlock ?t TargetBitrate.kBlockType ?p ?n) with (ParseTargetBitrateBlock t p n).
    unfold ParseTargetBitrateBlock. rewrite app_assoc, Hp. done.
Qed.

Lemma parse_blocks_wire fuel x rest :
  (3 <= fuel)%nat -> blocks_valid x ->
  parse_blocks fuel (MkXr (sender_ssrc x) None Dlrr.init None) (blocks_wire x ++ rest)
    (RrtrLength x + DlrrLength x + TargetBitrateLength x) = Some (true, x).
Proof.
  intros Hf [_ Hr Hd Ht]. destruct fuel as [|[|[|fuel]]]; [lia..|].
  unfold blocks_wire, RrtrLength, DlrrLength, TargetBitrateLength.
  destruct x as [ssrc r d tb]. cbn [rrtr_block dlrr_block target_bitrate sender_ssrc] in *.
  pose proof (Dlrr.Dlrr_BlockLength_words d) as [_ Hdp].
  assert (Hdlrr : forall f r' a, Dlrr.BlockLength d <= a -> a - Dlrr.BlockLength d =
      match tb with Some b => TargetBitrate.BlockLength b | None => 0 end ->
    parse_blocks (S (S f)) (MkXr ssrc r' Dlrr.init None)
      ((Dlrr.wire d ++ option_wire TargetBitrate.wire tb) ++ rest) a = Some (true, MkXr ssrc r' d tb)).
  { intros f r' a Ha Heq. rewrite <- app_assoc.
    assert (Htb : forall f' d', parse_blocks (S f') (MkXr ssrc r' d' None)
        (option_wire TargetBitrate.wire tb ++ rest) (a - Dlrr.BlockLength d) = Some (true, MkXr ssrc r' d' tb)).
    { intros f' d'. rewrite Heq. destruct tb as [b|]; cbn [option_wire app].
      - rewrite parse_blocks_target by (auto || lia). apply parse_blocks_end. lia.
      - apply parse_blocks_end. lia. }
    destruct (decide (Dlrr.sub_blocks d = [])) as [He|He].
    - destruct d as [l]. cbn in He. subst l. change (Dlrr.wire (Dlrr.MkDlrr [])) with (@nil Z).
      cbn [app]. rewrite <- (Z.sub_0_r a) at 1. apply Htb.
    - rewrite parse_blocks_dlrr by done. apply Htb. }
  rewrite <- app_assoc. destruct r as [r|]; cbn [option_wire app].
  - assert (0 <= match tb with Some b => TargetBitrate.BlockLength b | None => 0 end).
    { destruct tb as [b|]; [|done]. unfold TargetBitrate.BlockLength.
      pose proof (len_nonneg (TargetBitrate.bitrates b)).
      unfold TargetBitrate.kTargetBitrateHeaderSizeBytes, TargetBitrate.kBitrateItemSizeBytes. lia. }
    change Rrtr.kLength with 12. rewrite parse_blocks_rrtr by (auto || lia). apply Hdlrr; lia.
  - apply Hdlrr; [|lia]. destruct tb as [b|]; [|lia]. unfold TargetBitrate.BlockLength.
    pose proof (len_nonneg (TargetBitrate.bitrates b)).
    unfold TargetBitrate.kTargetBitrateHeaderSizeBytes, TargetBitrate.kBitrateItemSizeBytes. lia.
Qed.

Lemma ExtendedReports_Parse_wire this x rest :
  blocks_valid x ->
  Parse this (CommonHeader.Header kPacketType 0 0 (4 * words x) (payload_wire x ++ rest)) = Some (true, x).
Proof.
  intros Hx. pose proof (ExtendedReports_BlockLength_words x) as [Hb Hw]. unfold Parse. hdr. rewrite Z.eqb_refl.
  cbn [check mbind option_bind]. unfold kXrBaseLength. ztest (4 * words x <? 4) false.
  unfold payload_wire. pose proof (valid_ssrc x Hx). read_wire. unfold Dlrr.ClearItems.
  replace (4 * words x - 4) with (RrtrLength x + DlrrLength x + TargetBitrateLength x).
  2:{ unfold BlockLength, kHeaderLength, kXrBaseLength in Hb. lia. }
  apply parse_blocks_wire; [lia|done].
Qed.

Lemma ExtendedReports_roundtrip x : valid x -> round_trips Parse x x.
Proof.
  intros Hx. eapply round_trips_wire;
    [by apply ExtendedReports_behaves_valid|reflexivity|apply ExtendedReports_len_payload_wire|by_compute|by_compute|by apply ExtendedReports_words_range|].
  intros. apply ExtendedReports_Parse_wire, Hx.
Qed.

(** Every block [ParseBlock] accepts fits in the bytes it occupies, so that the parsed object fits
    in a packet of the same size: [budget] is what the parsed blocks may take. *)
Definition fits (x : t) (budget : Z) : Prop :=
  blocks_valid x /\ RrtrLength x + DlrrLength x + TargetBitrateLength x <= budget.

Lemma ParseBlock_safe this p ty n budget :
  bytes_ok p -> 0 <= n <= 0xffff -> 4 + 4 * n <= len p ->
  byte_at p 0 = Some ty -> ReadBigEndian 16 2 (ptr_add p 2) = Some n -> fits this budget ->
  exists x, ParseBlock this ty p n = Some x /\ fits x (budget + (4 + 4 * n)).
Proof.
  intros Hb Hn Hl H0 H2 [Hv Hf].
  assert (Hthis : fits this (budget + (4 + 4 * n))) by (split; [done|lia]).
  destruct Hv as [Hss Hr Hd Ht]. unfold ParseBlock.
  destruct (Z.eqb_spec ty Rrtr.kBlockType) as [->|].
  { unfold ParseRrtrBlock. destruct (Z.eqb_spec n Rrtr.kBlockLength) as [->|]; [|by eexists].
    cbn [negb]. destruct (rrtr_block this) eqn:Er; [by eexists|].
    destruct (Rrtr.Rrtr_Parse_safe p Hb Hl H0 H2) as (r & -> & Hrv). eexists. split; [done|].
    split; [split; cbn; [done|congruence|done|done]|].
    unfold RrtrLength, DlrrLength, TargetBitrateLength in *. rewrite Er in Hf. cbn [rrtr_block dlrr_block target_bitrate]. unfold Rrtr.kLength. lia. }
  destruct (Z.eqb_spec ty Dlrr.kBlockType) as [->|].
  { unfold ParseDlrrBlock, Dlrr.to_bool.
    destruct (bool_decide_reflect (length (Dlrr.sub_blocks (dlrr_block this)) = 0%nat)) as [He|]; [|by eexists].
    cbn [negb]. destruct (Dlrr.Dlrr_Parse_safe (dlrr_block this) p n Hb Hn Hl H0 H2) as (ok & d & -> & Hok).
    eexists. split; [done|]. destruct ok; [|subst d; by destruct this]. destruct Hok as [Hfa Hlen].
    split; [split; cbn; [done|done|split; [done|lia]|done]|].
    unfold RrtrLength, DlrrLength, TargetBitrateLength in *. cbn [rrtr_block dlrr_block target_bitrate].
    unfold Dlrr.BlockLength in *. rewrite bool_decide_eq_true_2 in Hf by done.
    case_bool_decide; unfold Dlrr.kBlockHeaderLength, Dlrr.kSubBlockLength; lia. }
  destruct (Z.eqb_spec ty TargetBitrate.kBlockType) as [->|]; [|by eexists].
  unfold ParseTargetBitrateBlock.
  destruct (TargetBitrate.TargetBitrate_Parse_safe p n Hb Hn Hl H0 H2) as (b & -> & Hbv & Hbl).
  eexists. split; [done|].
  split; [split; cbn; [done|done|done|intros b' [= <-]; split; [done|lia]]|].
  unfold RrtrLength, DlrrLength, TargetBitrateLength in *. cbn [rrtr_block dlrr_block target_bitrate].
  unfold TargetBitrate.BlockLength at 1. rewrite Hbl.
  unfold TargetBitrate.kTargetBitrateHeaderSizeBytes, TargetBitrate.kBitrateItemSizeBytes.
  enough (0 <= match target_bitrate this with Some b0 => TargetBitrate.BlockLength b0 | None => 0 end) by lia.
  destruct (target_bitrate this) as [b'|]; [|done]. unfold TargetBitrate.BlockLength.
  pose proof (len_nonneg (TargetBitrate.bitrates b')).
  unfold TargetBitrate.kTargetBitrateHeaderSizeBytes, TargetBitrate.kBitrateItemSizeBytes. lia.
Qed.

Lemma parse_blocks_safe fuel this p a budget :
  bytes_ok p -> 0 <= a <= len p -> a < 4 * (Z.of_nat fuel + 1) -> fits this budget ->
  exists r x, parse_blocks fuel this p a = Some (r, x) /\ fits x (budget + a).
Proof.
  revert this p a budget. induction fuel as [|fuel IH]; intros this p a budget Hb Ha Hf Hfit.
  { rewrite parse_blocks_end by lia. eexists _, _. split; [done|]. destruct Hfit. split; [done|lia]. }
  destruct (decide (a < 4)) as [Hs|Hs].
  { rewrite parse_blocks_end by done. eexists _, _. split; [done|]. destruct Hfit. split; [done|lia]. }
  cbn [parse_blocks]. unfold kBlockHeaderSizeBytes. ztest (4 <=? a) true.
  change (ReadBigEndian 8 1 p) with (byte_at p 0).
  destruct (byte_at_Some p 0 Hb ltac:(lia)) as (ty & Hty & _). rewrite Hty. cbn [mbind option_bind].
  destruct (ReadBigEndian_Some 16 2 (ptr_add p 2)) as (n & Hn & Hnr); [lia|by apply bytes_ok_ptr_add|
    rewrite len_ptr_add; lia|]. rewrite Hn. cbn [mbind option_bind].
  unfold in_u in Hnr. change (2 ^ (8 * Z.of_nat 2)) with 65536 in Hnr.
  destruct (Z.ltb_spec a (4 + n * 4)).
  { eexists _, _. split; [done|]. destruct Hfit. split; [done|lia]. }
  destruct (ParseBlock_safe this p ty n budget Hb ltac:(lia) ltac:(lia) Hty Hn Hfit) as (x & -> & Hx).
  cbn [mbind option_bind].
  destruct (IH x (ptr_add p (4 + n * 4)) (a - (4 + n * 4)) (budget + (4 + 4 * n)))
    as (r & y & Hy & Hyf); [by apply bytes_ok_ptr_add|rewrite len_ptr_add; lia|lia|done|].
  exists r, y. split; [done|]. destruct Hyf. split; [done|lia].
Qed.

Lemma ExtendedReports_Parse_safe : safe_parser (fun h => CommonHeader.type h = kPacketType) Parse valid (fun _ _ => True).
Proof.
  intros this h [Hc Hb Hl Hw] Ht. unfold Parse. rewrite Ht, Z.eqb_refl. cbn [check mbind option_bind].
  unfold CommonHeader.payload_size_bytes, kXrBaseLength.
  destruct (Z.ltb_spec (CommonHeader.payload_size h) 4); [by eexists _, _|]. read_safe.
  destruct (parse_blocks_safe (Z.to_nat (CommonHeader.payload_size h))
    (MkXr v None (Dlrr.ClearItems (dlrr_block this)) None) (ptr_add (CommonHeader.payload h) 4)
    (CommonHeader.payload_size h - 4) 0) as (r & x & -> & Hx & Hf).
  - by apply bytes_ok_ptr_add.
  - rewrite len_ptr_add; lia.
  - lia.
  - split; [by split|done].
  - eexists _, _. split; [done|]. destruct r; [|done]. split; [done|].
    unfold BlockLength, kHeaderLength, kXrBaseLength. lia.
Qed.

End ExtendedReports.

(** ** Properties *)

(** C27: an extended report survives the wire, with any combination of its three kinds of blocks:
    [Build] writes exactly [BlockLength] bytes, the block loop of [Parse] finds every block it
    wrote, and the ssrc, the reference time, the DLRR items and the target bit rates come back. *)
Theorem extended_reports_roundtrip x :
  ExtendedReports.valid x -> round_trips ExtendedReports.Parse x x.
Proof. apply ExtendedReports.ExtendedReports_roundtrip. Qed.

Lemma extended_reports_roundtrip_witness :
  let x := ExtendedReports.MkXr 1 (Some (Rrtr.MkRrtr (NtpTime.Ntp 0x123456789abcdef0)))
             (Dlrr.MkDlrr [Dlrr.MkInfo 1 2 3; Dlrr.MkInfo 4 5 6])
             (Some (TargetBitrate.MkTarget [TargetBitrate.MkItem 1 2 0xffffff])) in
  round_trips ExtendedReports.Parse x x.
Proof.
  intros x. apply extended_reports_roundtrip. split; [|by_compute]. split.
  - by_compute.
  - intros r [= <-]. red. by_compute.
  - split; [|by_compute]. repeat (constructor; [split; by_compute|]). constructor.
  - intros b [= <-]. split; [|by_compute]. constructor; [split; by_compute|constructor].
Defined.

(** [ExtendedReports::Parse] reads only inside the payload, fails none of its checks (those of
    the block parsers included) and terminates on every payload: malformed, repeated and unknown
    blocks are skipped, a block longer than the packet is refused, and what it accepts fits in a
    packet again. *)
Lemma extended_reports_parse_safe :
  safe_parser (fun h => CommonHeader.type h = 207) ExtendedReports.Parse ExtendedReports.valid
    (fun _ _ => True).
Proof. apply ExtendedReports.ExtendedReports_Parse_safe. Qed.
