(* ===== verification/SeqNum.v ===== *)
(** * Wrapping sequence numbers and timestamps

    src/src/myrtc/module/module_common_types_public.h: the comparison [IsNewer] of unsigned numbers
    of [w] bits that wrap around, its instances for RTP sequence numbers and timestamps, and
    [Unwrapper], which extends them to 64 bits. *)

From S2P Require Import Prelude.

Module SeqNum.

(** [kBreakpoint], the half-way mark of the type. *)
Definition kBreakpoint (w : Z) : Z := Z.shiftr (2 ^ w - 1) 1 + 1.

(** [a - b] for an unsigned type of [w] bits: operands narrower than [int] are promoted, and the
    difference does not wrap. *)
Definition promoted_sub (w a b : Z) : Z := if w <? 32 then a - b else wrap w (a - b).

(** [IsNewer<U>] for an unsigned type of [w] bits. *)
Definition IsNewer (w value prev_value : Z) : bool :=
  let diff := promoted_sub w value prev_value in
  if diff =? kBreakpoint w then prev_value <? value
  else negb (value =? prev_value) && (wrap w (value - prev_value) <? kBreakpoint w).

Definition IsNewerSequenceNumber : Z -> Z -> bool := IsNewer 16.
Definition IsNewerTimestamp : Z -> Z -> bool := IsNewer 32.

Definition LatestSequenceNumber (a b : Z) : Z := if IsNewerSequenceNumber a b then a else b.
Definition LatestTimestamp (a b : Z) : Z := if IsNewerTimestamp a b then a else b.

Lemma kBreakpoint_eq w : 1 <= w -> kBreakpoint w = 2 ^ (w - 1).
Proof.
  intros. unfold kBreakpoint. rewrite Z.shiftr_div_pow2 by lia. change (2 ^ 1) with 2.
  replace (2 ^ w) with (2 * 2 ^ (w - 1)) by (rewrite <- Z.pow_succ_r by lia; f_equal; lia).
  Z.to_euclidean_division_equations; lia.
Qed.

Lemma half_period w : 1 <= w -> 2 ^ w = 2 * 2 ^ (w - 1) /\ 0 < 2 ^ (w - 1).
Proof.
  intros. split; [rewrite <- Z.pow_succ_r by lia; f_equal; lia|apply Z.pow_pos_nonneg; lia].
Qed.

(** The difference modulo the period, of two numbers in range. *)
Lemma wrap_diff w a b :
  in_u w a -> in_u w b -> wrap w (a - b) = if b <=? a then a - b else a - b + 2 ^ w.
Proof.
  intros [Ha1 Ha2] [Hb1 Hb2]. unfold wrap. destruct (Z.leb_spec b a).
  - apply Z.mod_small. lia.
  - rewrite <- (Z.mod_small (a - b + 2 ^ w) (2 ^ w)) by lia.
    rewrite <- (Z_mod_plus_full (a - b) 1). f_equal. lia.
Qed.

(** [IsNewer] looks at the distance modulo the period: less than half a period ahead, or exactly
    half and numerically larger. *)
Lemma IsNewer_spec w a b :
  1 <= w -> in_u w a -> in_u w b ->
  IsNewer w a b = true <->
    0 < (a - b) mod 2 ^ w < 2 ^ (w - 1) \/ ((a - b) mod 2 ^ w = 2 ^ (w - 1) /\ b < a).
Proof.
  intros Hw Ha Hb. unfold IsNewer, promoted_sub. rewrite kBreakpoint_eq by done.
  fold (wrap w (a - b)). rewrite (wrap_diff w a b Ha Hb).
  pose proof (half_period w Hw) as [Hp Hh]. destruct Ha as [Ha1 Ha2], Hb as [Hb1 Hb2].
  destruct (Z.leb_spec b a).
  - replace (if w <? 32 then a - b else a - b) with (a - b) by by destruct (w <? 32).
    destruct (Z.eqb_spec (a - b) (2 ^ (w - 1))); [rewrite Z.ltb_lt; lia|].
    rewrite andb_true_iff, negb_true_iff, Z.eqb_neq, Z.ltb_lt. lia.
  - set (diff := if w <? 32 then a - b else a - b + 2 ^ w).
    assert (diff = a - b \/ diff = a - b + 2 ^ w) by (unfold diff; destruct (w <? 32); auto).
    destruct (Z.eqb_spec diff (2 ^ (w - 1))); [rewrite Z.ltb_lt; lia|].
    rewrite andb_true_iff, negb_true_iff, Z.eqb_neq, Z.ltb_lt; lia.
Qed.

(** ** Unwrapper *)

(** The state [last_value_]; [None] before the first value. *)
Definition UnwrapWithoutUpdate (w : Z) (last_value : option Z) (value : Z) : Z :=
  match last_value with
  | None => value
  | Some last =>
      let kMaxPlusOne := 2 ^ w in
      let cropped_last := wrap w last in
      let delta := promoted_sub w value cropped_last in
      let delta :=
        if IsNewer w value cropped_last then
          if delta <? 0 then delta + kMaxPlusOne else delta
        else if (0 <? delta) && (0 <=? last + delta - kMaxPlusOne) then delta - kMaxPlusOne
        else delta in
      last + delta
  end.

Definition UpdateLast (last_value : Z) : option Z := Some last_value.

Definition Unwrap (w : Z) (last_value : option Z) (value : Z) : Z * option Z :=
  let unwrapped := UnwrapWithoutUpdate w last_value value in
  (unwrapped, UpdateLast unwrapped).

(** A stream of values through one unwrapper. *)
Fixpoint unwrap_all (w : Z) (last_value : option Z) (values : list Z) : list Z :=
  match values with
  | [] => []
  | v :: values' =>
      let '(u, last_value) := Unwrap w last_value v in u :: unwrap_all w last_value values'
  end.

(** The promotion of the operands does not matter: without it the difference wraps once more, and
    the branches compensate. *)
Lemma unwrap_promoted w l v :
  1 <= w -> 0 <= l -> in_u w v ->
  UnwrapWithoutUpdate w (Some l) v =
  l + (let delta := v - wrap w l in
       if IsNewer w v (wrap w l) then if delta <? 0 then delta + 2 ^ w else delta
       else if (0 <? delta) && (0 <=? l + delta - 2 ^ w) then delta - 2 ^ w else delta).
Proof.
  intros Hw Hl Hv. cbn [UnwrapWithoutUpdate]. unfold promoted_sub. destruct (w <? 32); [done|]. f_equal.
  assert (Hc : in_u w (wrap w l)) by (apply wrap_range; lia).
  assert (Hle : wrap w l <= l) by (apply Z.mod_le; lia).
  rewrite (wrap_diff w v (wrap w l) Hv Hc). destruct Hv, Hc.
  destruct (IsNewer w v (wrap w l)), (Z.leb_spec (wrap w l) v); cbn [andb].
  - done.
  - destruct (Z.ltb_spec (v - wrap w l + 2 ^ w) 0), (Z.ltb_spec (v - wrap w l) 0); lia.
  - done.
  - destruct (Z.ltb_spec 0 (v - wrap w l + 2 ^ w)), (Z.ltb_spec 0 (v - wrap w l)); cbn [andb];
      destruct (Z.leb_spec 0 (l + (v - wrap w l + 2 ^ w) - 2 ^ w)); lia.
Qed.

Lemma unwrap_congruent w last v :
  1 <= w -> in_u w v -> (forall l, last = Some l -> 0 <= l) ->
  UnwrapWithoutUpdate w last v mod 2 ^ w = v /\ 0 <= UnwrapWithoutUpdate w last v.
Proof.
  intros Hw Hv Hl. pose proof Hv as [Hv1 Hv2]. pose proof (half_period w Hw) as [Hp Hh].
  destruct last as [l|]; [|cbn [UnwrapWithoutUpdate]; split; [by apply Z.mod_small|done]].
  specialize (Hl l eq_refl). rewrite (unwrap_promoted w l v Hw Hl Hv). unfold wrap.
  pose proof (Z.mod_pos_bound l (2 ^ w) ltac:(lia)) as Hc.
  pose proof (Z.div_mod l (2 ^ w) ltac:(lia)) as Hd. set (c := l mod 2 ^ w) in *.
  assert (0 <= l / 2 ^ w) by (apply Z.div_pos; lia).
  assert (Hmod : forall k, (l + (v - c) + k * 2 ^ w) mod 2 ^ w = v).
  { intros k. rewrite Z_mod_plus_full. replace (l + (v - c)) with (v + (l / 2 ^ w) * 2 ^ w) by lia.
    rewrite Z_mod_plus_full. by apply Z.mod_small. }
  pose proof (Hmod 0) as H0. pose proof (Hmod 1) as H1. pose proof (Hmod (-1)) as H2.
  rewrite Z.mul_0_l, Z.add_0_r in H0.
  assert (0 <= 2 ^ w * (l / 2 ^ w)) by nia.
  destruct (IsNewer w v c).
  - destruct (Z.ltb_spec (v - c) 0); [|split; [done|lia]].
    split; [rewrite <- H1 at 2; f_equal; lia|lia].
  - destruct (Z.ltb_spec 0 (v - c)); cbn [andb]; [|split; [done|lia]].
    destruct (Z.leb_spec 0 (l + (v - c) - 2 ^ w)); [|split; [done|lia]].
    split; [rewrite <- H2 at 2; f_equal; lia|lia].
Qed.

(** One step tracks a number that moved by less than half a period. *)
Lemma unwrap_step w n n' :
  1 <= w -> 0 <= n -> 0 <= n' -> Z.abs (n' - n) < 2 ^ (w - 1) ->
  UnwrapWithoutUpdate w (Some n) (wrap w n') = n'.
Proof.
  intros Hw Hn Hn' Hd. pose proof (half_period w Hw) as [Hp Hh].
  assert (Hv : in_u w (wrap w n')) by (apply wrap_range; lia).
  rewrite (unwrap_promoted w n _ Hw Hn Hv). cbv zeta.
  assert (Hc : in_u w (wrap w n)) by (apply wrap_range; lia).
  pose proof (IsNewer_spec w _ _ Hw Hv Hc) as Hnew.
  pose proof (Z.div_mod n (2 ^ w) ltac:(lia)) as Hdn. pose proof (Z.div_mod n' (2 ^ w) ltac:(lia)) as Hdn'.
  fold (wrap w n) in Hdn. fold (wrap w n') in Hdn'.
  assert (Hmod : (wrap w n' - wrap w n) mod 2 ^ w = (n' - n) mod 2 ^ w).
  { unfold wrap. by rewrite <- Zminus_mod. }
  rewrite Hmod in Hnew. unfold in_u in Hv, Hc. set (v := wrap w n') in *. set (c := wrap w n) in *.
  assert (Hdiff : v - c = n' - n \/ v - c = n' - n + 2 ^ w \/ v - c = n' - n - 2 ^ w).
  { assert (n' / 2 ^ w - n / 2 ^ w = 0 \/ n' / 2 ^ w - n / 2 ^ w = 1 \/ n' / 2 ^ w - n / 2 ^ w = -1) by nia.
    nia. }
  assert (Hq : (n' - n) mod 2 ^ w = if n <=? n' then n' - n else n' - n + 2 ^ w).
  { destruct (Z.leb_spec n n'); [apply Z.mod_small; lia|].
    rewrite <- (Z_mod_plus_full _ 1). rewrite Z.mul_1_l. apply Z.mod_small. lia. }
  rewrite Hq in Hnew. destruct (IsNewer w v c).
  - destruct (Z.leb_spec n n'); destruct (Z.ltb_spec (v - c) 0); intuition lia.
  - destruct (Z.leb_spec n n').
    + assert (n = n') by (destruct (decide (n = n')); [done|exfalso; intuition lia]).
      destruct (Z.ltb_spec 0 (v - c)); cbn [andb]; [|lia].
      destruct (Z.leb_spec 0 (n + (v - c) - 2 ^ w)); lia.
    + destruct (Z.ltb_spec 0 (v - c)); cbn [andb]; [|lia].
      destruct (Z.leb_spec 0 (n + (v - c) - 2 ^ w)); lia.
Qed.

(** Consecutive numbers of a stream are less than half a period apart. *)
Fixpoint close (w n : Z) (l : list Z) : Prop :=
  match l with
  | [] => True
  | n' :: l' => 0 <= n' /\ Z.abs (n' - n) < 2 ^ (w - 1) /\ close w n' l'
  end.

Lemma unwrap_all_tracks w n l :
  1 <= w -> 0 <= n -> close w n l -> unwrap_all w (Some n) (wrap w <$> l) = l.
Proof.
  intros Hw. revert n. induction l as [|n' l IH]; intros n Hn Hc; [done|].
  destruct Hc as (Hn' & Hd & Hc). rewrite fmap_cons. cbn [unwrap_all Unwrap UpdateLast].
  rewrite unwrap_step by done. f_equal. by apply IH.
Qed.

End SeqNum.

(** ** Properties *)

(** [IsNewer] (for sequence numbers and timestamps, all widths) is decided by the distance
    modulo the period, and is a tournament: of two different values exactly one is newer, also
    when they are exactly half a period apart, and none is newer than itself. *)
Lemma is_newer_tournament w a b :
  1 <= w -> in_u w a -> in_u w b ->
  (SeqNum.IsNewer w a b = true <->
     0 < (a - b) mod 2 ^ w < 2 ^ (w - 1) \/ ((a - b) mod 2 ^ w = 2 ^ (w - 1) /\ b < a)) /\
  SeqNum.IsNewer w a a = false /\
  (a <> b -> SeqNum.IsNewer w a b = negb (SeqNum.IsNewer w b a)).
Proof.
  intros Hw Ha Hb. pose proof (SeqNum.IsNewer_spec w a b Hw Ha Hb) as Hab.
  pose proof (SeqNum.IsNewer_spec w b a Hw Hb Ha) as Hba.
  pose proof (SeqNum.IsNewer_spec w a a Hw Ha Ha) as Haa.
  pose proof (SeqNum.half_period w Hw) as [Hp Hh].
  split; [done|]. fold (wrap w (a - b)) in Hab. fold (wrap w (b - a)) in Hba. fold (wrap w (a - a)) in Haa.
  rewrite !SeqNum.wrap_diff in * by done. destruct Ha, Hb.
  split.
  - destruct (SeqNum.IsNewer w a a); [|done]. exfalso.
    destruct (Z.leb_spec a a); intuition lia.
  - intros Hne. destruct (SeqNum.IsNewer w a b), (SeqNum.IsNewer w b a); cbn; try done; exfalso;
      destruct (Z.leb_spec b a), (Z.leb_spec a b); intuition lia.
Qed.

(** C39: [Unwrapper] reconstructs the full numbers: fed with the low [w] bits of a stream of
    non-negative numbers whose first is below the period and whose steps are smaller than half a
    period, forwards or backwards, it returns the stream itself.  For every input at all, its
    result is not negative and has the input as its low [w] bits. *)
Theorem unwrapper_tracks w :
  1 <= w ->
  (forall n l, in_u w n -> SeqNum.close w n l -> SeqNum.unwrap_all w None (wrap w <$> n :: l) = n :: l) /\
  (forall last v, in_u w v -> (forall x, last = Some x -> 0 <= x) ->
     SeqNum.UnwrapWithoutUpdate w last v mod 2 ^ w = v /\ 0 <= SeqNum.UnwrapWithoutUpdate w last v).
Proof.
  intros Hw. split.
  - intros n l Hn Hc. rewrite fmap_cons. cbn [SeqNum.unwrap_all SeqNum.Unwrap SeqNum.UnwrapWithoutUpdate
      SeqNum.UpdateLast]. rewrite (wrap_small w n) by done. f_equal.
    apply SeqNum.unwrap_all_tracks; [done|apply Hn|done].
  - intros. by apply SeqNum.unwrap_congruent.
Qed.

Lemma unwrapper_tracks_witness :
  SeqNum.unwrap_all 16 None [65530; 5; 65535; 30000; 60000] = [65530; 65541; 65535; 95536; 125536].
Proof.
  assert (H1 : 1 <= 16) by lia. assert (H2 : in_u 16 65530) by by_compute.
  apply (proj1 (unwrapper_tracks 16 H1) 65530 [65541; 65535; 95536; 125536] H2).
  cbn. lia.
Defined.
