(* ===== verification/SeqRing.v ===== *)
(** * Arithmetic on rings of sequence numbers

    src/src/myrtc/rtc_base/mod_ops.h and sequence_number_util.h.  The template parameter [M] is the
    size of the ring, with 0 for the whole type of [w] bits; [None] is a failed check. *)

From S2P Require Import Prelude SeqNum.

Module ModOps.

(** [Add<M>] and [Subtract<M>] on [unsigned long]. *)
Definition Add (M a b : Z) : option Z :=
  check (a <? M) ;;
  let t := M - b mod M in
  let res := u64 (a - t) in
  Some (if a <? t then u64 (res + M) else res).

Definition Subtract (M a b : Z) : option Z :=
  check (a <? M) ;;
  let sub := b mod M in
  Some (if a <? sub then M - (sub - a) else a - sub).

Definition ForwardDiff (w M a b : Z) : option Z :=
  if M =? 0 then Some (wrap w (b - a)) else
  check (a <? M) ;; check (b <? M) ;;
  Some (if a <=? b then b - a else M - (a - b)).

Definition ReverseDiff (w M a b : Z) : option Z :=
  if M =? 0 then Some (wrap w (a - b)) else
  check (a <? M) ;; check (b <? M) ;;
  Some (if b <=? a then a - b else M - (b - a)).

Definition MinDiff (w M a b : Z) : option Z :=
  f ← ForwardDiff w M a b; r ← ReverseDiff w M a b; Some (Z.min f r).

End ModOps.

Module SequenceNumberUtil.
Import ModOps.

Definition AheadOrAt (w M a b : Z) : option bool :=
  if M =? 0 then
    let maxDist := (2 ^ w - 1) / 2 + 1 in
    if SeqNum.promoted_sub w a b =? maxDist then Some (b <? a) else
    d ← ForwardDiff w 0 b a; Some (d <? maxDist)
  else
    let maxDist := M / 2 in
    m ← (if Z.land M 1 =? 0 then MinDiff w M a b else Some 0);
    if (Z.land M 1 =? 0) && (m =? maxDist) then Some (b <? a) else
    d ← ForwardDiff w M b a; Some (d <=? maxDist).

Definition AheadOf (w M a b : Z) : option bool :=
  if a =? b then Some false else AheadOrAt w M a b.

Definition AscendingSeqNumComp (w M a b : Z) : option bool := AheadOf w M a b.
Definition DescendingSeqNumComp (w M a b : Z) : option bool := AheadOf w M b a.

(** [SeqNumUnwrapper]: the state and one call. *)
Record Unwrapper := Make { last_unwrapped_ : Z; last_value_ : option Z }.

Definition init : Unwrapper := Make 0 None.

Definition Unwrap (w M : Z) (this : Unwrapper) (value : Z) : option (Z * Unwrapper) :=
  u ← match last_value_ this with
      | None => Some value
      | Some last =>
          d ← ForwardDiff w M last value;
          ahead ← AheadOrAt w M value last;
          let kBackwardAdjustment := if M =? 0 then 2 ^ w - 1 + 1 else M in
          Some (if negb ahead then last_unwrapped_ this + d - kBackwardAdjustment
                else last_unwrapped_ this + d)
      end;
  Some (u, Make u (Some value)).

(** A stream of values through one unwrapper. *)
Fixpoint unwrap_stream (w M : Z) (this : Unwrapper) (values : list Z) : option (list Z) :=
  match values with
  | [] => Some []
  | v :: rest =>
      '(u, this') ← Unwrap w M this v;
      us ← unwrap_stream w M this' rest;
      Some (u :: us)
  end.

End SequenceNumberUtil.

(** ** The ring *)

(** The size of the ring. *)
Definition period (w M : Z) : Z := if M =? 0 then 2 ^ w else M.

(** [a] is ahead of or at [b]: less than half the ring in front of it, or exactly half and
    numerically larger. *)
Definition ring_ahead (P a b : Z) : bool :=
  let d := (a - b) mod P in (2 * d <? P) || ((2 * d =? P) && (b <? a)).

Record ring (w M : Z) : Prop := { ring_width : 1 <= w; ring_size : 0 <= M <= 2 ^ w }.

Definition in_ring (w M a : Z) : Prop := 0 <= a < period w M.

Section Ring.
Context (w M : Z) (HR : ring w M).
Import ModOps SequenceNumberUtil.

Let P := period w M.

Lemma period_pos : 0 < P.
Proof using HR.
  destruct HR as [Hw HM]. unfold P, period. destruct (Z.eqb_spec M 0); [|lia].
  apply Z.pow_pos_nonneg; lia.
Qed.

(** The difference of two members of the ring. *)
Lemma mod_diff a b :
  in_ring w M a -> in_ring w M b -> (a - b) mod P = if b <=? a then a - b else P - (b - a).
Proof using HR.
  intros Ha Hb. unfold in_ring in *. fold P in Ha, Hb. pose proof period_pos.
  destruct (Z.leb_spec b a); [apply Z.mod_small; lia|].
  rewrite <- (Z_mod_plus_full _ 1), Z.mul_1_l. rewrite Z.mod_small by lia. lia.
Qed.

Lemma ForwardDiff_spec a b :
  in_ring w M a -> in_ring w M b -> ForwardDiff w M a b = Some ((b - a) mod P).
Proof using HR.
  intros Ha Hb. rewrite mod_diff by done. unfold ForwardDiff, P. unfold in_ring, period in *.
  destruct (Z.eqb_spec M 0) as [E|].
  - fold (in_u w a) in Ha. fold (in_u w b) in Hb. rewrite SeqNum.wrap_diff by done. f_equal.
    destruct (a <=? b); lia.
  - rewrite (proj2 (Z.ltb_lt a M)), (proj2 (Z.ltb_lt b M)) by lia. done.
Qed.

Lemma ReverseDiff_spec a b :
  in_ring w M a -> in_ring w M b -> ReverseDiff w M a b = Some ((a - b) mod P).
Proof using HR.
  intros Ha Hb. rewrite mod_diff by done. unfold ReverseDiff, P. unfold in_ring, period in *.
  destruct (Z.eqb_spec M 0) as [E|].
  - fold (in_u w a) in Ha. fold (in_u w b) in Hb. rewrite SeqNum.wrap_diff by done. f_equal.
    destruct (b <=? a); lia.
  - rewrite (proj2 (Z.ltb_lt a M)), (proj2 (Z.ltb_lt b M)) by lia. done.
Qed.

Lemma MinDiff_spec a b :
  in_ring w M a -> in_ring w M b -> MinDiff w M a b = Some (Z.min ((b - a) mod P) ((a - b) mod P)).
Proof using HR.
  intros Ha Hb. unfold MinDiff. by rewrite ForwardDiff_spec, ReverseDiff_spec.
Qed.

Lemma AheadOrAt_spec a b :
  in_ring w M a -> in_ring w M b -> AheadOrAt w M a b = Some (ring_ahead P a b).
Proof using HR.
  intros Ha Hb. pose proof period_pos as HP. unfold AheadOrAt.
  pose proof (mod_diff a b Ha Hb) as Hd. pose proof (mod_diff b a Hb Ha) as Hd'.
  destruct (Z.eqb_spec M 0) as [E|E].
  - assert (HPw : P = 2 ^ w) by (unfold P, period; by rewrite (proj2 (Z.eqb_eq M 0) E)).
    pose proof (SeqNum.half_period w (ring_width _ _ HR)) as [Hp Hh].
    assert (Hmd : (2 ^ w - 1) / 2 + 1 = 2 ^ (w - 1)) by (Z.to_euclidean_division_equations; lia).
    rewrite Hmd. unfold ForwardDiff. change (0 =? 0) with true. cbv iota. cbn [mbind option_bind].
    unfold ring_ahead. unfold wrap. rewrite <- HPw, Hd. unfold in_ring in *. fold P in Ha, Hb.
    assert (Hps : SeqNum.promoted_sub w a b = a - b \/ SeqNum.promoted_sub w a b = (a - b) mod P)
      by (unfold SeqNum.promoted_sub, wrap; rewrite <- HPw; destruct (w <? 32); auto).
    rewrite Hd in Hps.
    destruct (Z.leb_spec b a), (Z.eqb_spec (SeqNum.promoted_sub w a b) (2 ^ (w - 1))); f_equal;
      repeat match goal with |- context [?x <? ?y] => destruct (Z.ltb_spec x y)
        | |- context [?x =? ?y] => destruct (Z.eqb_spec x y) end; cbn; try done; lia.
  - assert (HPM : P = M) by (unfold P, period; by rewrite (proj2 (Z.eqb_neq M 0) E)).
    rewrite MinDiff_spec, ForwardDiff_spec by done. unfold ring_ahead. rewrite Hd, Hd', HPM.
    change 1 with (2 ^ 1 - 1) at 1 2. rewrite !land_ones_mod by lia. change (2 ^ 1) with 2.
    unfold in_ring in *. fold P in Ha, Hb. rewrite HPM in Ha, Hb, HP.
    pose proof (Z.div_mod M 2 ltac:(lia)) as Hdm. pose proof (Z.mod_pos_bound M 2 ltac:(lia)) as Hmp.
    destruct (Z.eqb_spec (M mod 2) 0); cbn [mbind option_bind andb];
    destruct (Z.leb_spec b a), (Z.leb_spec a b);
    repeat match goal with |- context [if ?x =? ?y then _ else _] => destruct (Z.eqb_spec x y) end; f_equal;
      repeat match goal with |- context [?x <? ?y] => destruct (Z.ltb_spec x y)
        | |- context [?x <=? ?y] => destruct (Z.leb_spec x y)
        | |- context [?x =? ?y] => destruct (Z.eqb_spec x y) end; cbn; try done; lia.
Qed.

Lemma AheadOf_spec a b :
  in_ring w M a -> in_ring w M b -> AheadOf w M a b = Some (negb (a =? b) && ring_ahead P a b).
Proof using HR.
  intros Ha Hb. unfold AheadOf. rewrite AheadOrAt_spec by done. by destruct (a =? b).
Qed.

(** Of two different numbers exactly one is ahead. *)
Lemma ring_ahead_tournament a b :
  in_ring w M a -> in_ring w M b -> a <> b -> ring_ahead P a b = negb (ring_ahead P b a).
Proof using HR.
  intros Ha Hb Hne. unfold ring_ahead. rewrite !mod_diff by done. unfold in_ring in *. fold P in Ha, Hb.
  destruct (Z.leb_spec b a), (Z.leb_spec a b);
    repeat match goal with |- context [?x <? ?y] => destruct (Z.ltb_spec x y)
      | |- context [?x =? ?y] => destruct (Z.eqb_spec x y) end; cbn; try done; lia.
Qed.

Lemma Unwrap_step u n :
  2 * Z.abs (n - u) < P ->
  Unwrap w M (Make u (Some (u mod P))) (n mod P) = Some (n, Make n (Some (n mod P))).
Proof using HR.
  intros Hd. pose proof period_pos as HP. unfold Unwrap. cbn [last_value_ last_unwrapped_].
  assert (Hu : in_ring w M (u mod P)) by (apply Z.mod_pos_bound; exact HP).
  assert (Hn : in_ring w M (n mod P)) by (apply Z.mod_pos_bound; exact HP).
  rewrite ForwardDiff_spec, AheadOrAt_spec by done. cbn [mbind option_bind].
  assert (Hadj : (if M =? 0 then 2 ^ w - 1 + 1 else M) = P) by (unfold P, period; destruct (M =? 0); lia).
  rewrite Hadj. unfold ring_ahead. rewrite <- Zminus_mod.
  assert (Hm : (n - u) mod P = if u <=? n then n - u else n - u + P).
  { destruct (Z.leb_spec u n); [apply Z.mod_small; lia|].
    rewrite <- (Z_mod_plus_full _ 1), Z.mul_1_l. apply Z.mod_small. lia. }
  rewrite Hm. destruct (Z.leb_spec u n).
  - rewrite (proj2 (Z.ltb_lt (2 * (n - u)) P)) by lia. cbn [orb negb].
    replace (u + (n - u)) with n by lia. done.
  - rewrite (proj2 (Z.ltb_ge (2 * (n - u + P)) P)), (proj2 (Z.eqb_neq (2 * (n - u + P)) P)) by lia.
    cbn [orb andb negb]. replace (u + (n - u + P) - P) with n by lia. done.
Qed.
End Ring.

(** Consecutive numbers of a stream are less than half the ring apart. *)
Fixpoint near (P n : Z) (l : list Z) : Prop :=
  match l with
  | [] => True
  | n' :: l' => 2 * Z.abs (n' - n) < P /\ near P n' l'
  end.

Lemma unwrap_stream_tracks w M n l :
  ring w M -> near (period w M) n l ->
  SequenceNumberUtil.unwrap_stream w M (SequenceNumberUtil.Make n (Some (n mod period w M)))
    ((fun x => x mod period w M) <$> l) = Some l.
Proof.
  intros HR. revert n. induction l as [|n' l IH]; intros n Hn; [done|]. destruct Hn as [Hd Hn].
  rewrite fmap_cons. cbn [SequenceNumberUtil.unwrap_stream].
  rewrite (Unwrap_step w M HR n n' Hd). cbn [mbind option_bind]. by rewrite IH.
Qed.

Lemma ring_Add_spec M a b : 0 <= a < M -> M <= 2 ^ 64 -> 0 <= b -> ModOps.Add M a b = Some ((a + b) mod M).
Proof.
  intros Ha HM Hb. unfold ModOps.Add. rewrite (proj2 (Z.ltb_lt a M)) by lia. cbn [check mbind option_bind].
  pose proof (Z.mod_pos_bound b M ltac:(lia)) as Hr. f_equal. rewrite <- Zplus_mod_idemp_r. set (r := b mod M) in *.
  destruct (Z.ltb_spec a (M - r)).
  - unfold wrap. rewrite Zplus_mod_idemp_l. replace (a - (M - r) + M) with (a + r) by lia.
    rewrite !Z.mod_small by lia. done.
  - rewrite wrap_small by (unfold in_u; lia). rewrite <- (Z_mod_plus_full _ (-1)), Z.mod_small by lia. lia.
Qed.

Lemma Subtract_spec M a b : 0 <= a < M -> 0 <= b -> ModOps.Subtract M a b = Some ((a - b) mod M).
Proof.
  intros Ha Hb. unfold ModOps.Subtract. rewrite (proj2 (Z.ltb_lt a M)) by lia. cbn [check mbind option_bind].
  pose proof (Z.mod_pos_bound b M ltac:(lia)) as Hr. f_equal. rewrite <- Zminus_mod_idemp_r. set (r := b mod M) in *.
  destruct (Z.ltb_spec a r).
  - rewrite <- (Z_mod_plus_full _ 1), Z.mod_small by lia. lia.
  - rewrite Z.mod_small by lia. done.
Qed.

(** On a whole type the two comparisons of the source agree. *)
Lemma AheadOf_IsNewer w a b :
  1 <= w -> in_u w a -> in_u w b -> SequenceNumberUtil.AheadOf w 0 a b = Some (SeqNum.IsNewer w a b).
Proof.
  intros Hw Ha Hb. assert (HR : ring w 0) by (constructor; [done|split; [lia|apply Z.pow_nonneg; lia]]).
  rewrite AheadOf_spec by done. f_equal. pose proof (SeqNum.half_period w Hw) as [Hp _].
  pose proof (SeqNum.IsNewer_spec w a b Hw Ha Hb) as Hs. unfold ring_ahead. change (period w 0) with (2 ^ w).
  pose proof (Z.mod_pos_bound (a - b) (2 ^ w) ltac:(lia)) as Hm.
  assert (H0 : a <> b -> (a - b) mod 2 ^ w <> 0).
  { intros Hne. fold (wrap w (a - b)). rewrite SeqNum.wrap_diff by done. destruct Ha, Hb.
    destruct (Z.leb_spec b a); lia. }
  apply eq_true_iff_eq. rewrite Hs, andb_true_iff, orb_true_iff, andb_true_iff, negb_true_iff, Z.eqb_neq, !Z.ltb_lt, Z.eqb_eq.
  destruct (decide (a = b)) as [->|Hne]; [rewrite Z.sub_diag, Z.mod_0_l by lia; lia|].
  specialize (H0 Hne). intuition lia.
Qed.

(** C38: the ring arithmetic of mod_ops.h and sequence_number_util.h.  For every ring size (the
    whole type or any size that fits it) the case distinctions of [ForwardDiff],
    [ReverseDiff], [MinDiff], [Add] and [Subtract] computes the differences and sums modulo the
    size, passes its checks on members of the ring, [AheadOrAt] compares by the shorter way
    around, of two different numbers exactly one is [AheadOf] the other, also at exactly half the
    ring; on a whole type [AheadOf] is the [IsNewer] of module_common_types_public.h; and
    [SeqNumUnwrapper] reconstructs every stream of integers, negative ones included, that starts
    inside the ring and moves by less than half of it. *)
Theorem seq_ring_equiv w M a b :
  ring w M -> in_ring w M a -> in_ring w M b ->
  ModOps.ForwardDiff w M a b = Some ((b - a) mod period w M) /\
  ModOps.ReverseDiff w M a b = Some ((a - b) mod period w M) /\
  ModOps.MinDiff w M a b = Some (Z.min ((b - a) mod period w M) ((a - b) mod period w M)) /\
  (0 < M <= 2 ^ 64 -> ModOps.Add M a b = Some ((a + b) mod M) /\
     ModOps.Subtract M a b = Some ((a - b) mod M)) /\
  SequenceNumberUtil.AheadOrAt w M a b = Some (ring_ahead (period w M) a b) /\
  SequenceNumberUtil.AheadOf w M a a = Some false /\
  (a <> b -> exists r, SequenceNumberUtil.AheadOf w M a b = Some r /\
     SequenceNumberUtil.AheadOf w M b a = Some (negb r)) /\
  (M = 0 -> SequenceNumberUtil.AheadOf w M a b = Some (SeqNum.IsNewer w a b)) /\
  (forall l, near (period w M) a l ->
     SequenceNumberUtil.unwrap_stream w M SequenceNumberUtil.init
       ((fun x => x mod period w M) <$> a :: l) = Some (a :: l)).
Proof.
  intros HR Ha Hb. split; [by apply ForwardDiff_spec|]. split; [by apply ReverseDiff_spec|].
  split; [by apply MinDiff_spec|]. split.
  { intros HM. unfold in_ring, period in Ha, Hb. rewrite (proj2 (Z.eqb_neq M 0)) in Ha, Hb by lia.
    split; [apply ring_Add_spec; lia|apply Subtract_spec; lia]. }
  split; [by apply AheadOrAt_spec|]. split; [unfold SequenceNumberUtil.AheadOf; by rewrite Z.eqb_refl|]. split.
  { intros Hne. eexists. rewrite !AheadOf_spec by done. split; [done|]. f_equal.
    rewrite (Z.eqb_sym b a), (proj2 (Z.eqb_neq a b)) by done. cbn [negb andb].
    rewrite (ring_ahead_tournament w M HR a b) by done. by rewrite negb_involutive. }
  split; [intros ->; by apply AheadOf_IsNewer; [apply HR|..]|].
  intros l Hl. rewrite fmap_cons. cbn [SequenceNumberUtil.unwrap_stream SequenceNumberUtil.Unwrap
    SequenceNumberUtil.init SequenceNumberUtil.last_value_ mbind option_bind].
  rewrite Z.mod_small by exact Ha.
  pose proof (unwrap_stream_tracks w M a l HR Hl) as Ht. rewrite Z.mod_small in Ht by exact Ha.
  by rewrite Ht.
Qed.

Lemma seq_ring_equiv_witness :
  SequenceNumberUtil.AheadOf 8 100 3 98 = Some true /\
  SequenceNumberUtil.unwrap_stream 8 100 SequenceNumberUtil.init [3; 98; 60; 5] = Some [3; -2; -40; 5].
Proof.
  assert (HR : ring 8 100) by (constructor; lia).
  assert (H1 : in_ring 8 100 3) by (unfold in_ring; cbn; lia).
  assert (H2 : in_ring 8 100 98) by (unfold in_ring; cbn; lia).
  destruct (seq_ring_equiv 8 100 3 98 HR H1 H2) as (_ & _ & _ & _ & _ & _ & Hne & _ & Hs).
  split.
  - destruct (Hne ltac:(discriminate)) as (r & E & _). rewrite E. vm_compute in E. symmetry. exact E.
  - apply (Hs [-2; -40; 5]). cbn. lia.
Defined.
