(* ===== verification/SeqMap.v ===== *)
(** * Sequence numbers of sent packets

    Model of [rtp_sequence_number_map.h/.cc]: a bounded deque of packets in sending order that is
    searched by bisection although the comparison of wrapping numbers is not transitive. *)

From Stdlib Require Import Sorted.
From stdpp Require Import sorting.
From S2P Require Import Prelude SeqNum SeqRing.

(** ** Bisection *)

(** [std::lower_bound] on the positions [first, first + count): the first position whose element
    is not before the value, given the comparison [before].  Each round halves [count]. *)
Fixpoint lower_bound {A} (fuel : nat) (l : list A) (before : A -> bool) (first count : nat) : nat :=
  match fuel with
  | O => first
  | S fuel' =>
      if (count =? 0)%nat then first else
      let half := (count / 2)%nat in
      match l !! (first + half)%nat with
      | Some x =>
          if before x then lower_bound fuel' l before (first + half + 1) (count - half - 1)
          else lower_bound fuel' l before first half
      | None => first
      end
  end.

Module RtpSequenceNumberMap.

Record Info := MakeInfo { timestamp : Z; is_first : bool; is_last : bool }.

Record Association := Assoc { sequence_number : Z; info : Info }.

Record t := Make { max_entries_ : Z; associations_ : list Association }.

(** The instances of the comparisons for [uint16_t]; they contain no check. *)
Definition AheadOrAt (a b : Z) : bool := default false (SequenceNumberUtil.AheadOrAt 16 0 a b).
Definition AheadOf (a b : Z) : bool := default false (SequenceNumberUtil.AheadOf 16 0 a b).

Definition construct (max_entries : Z) : option t :=
  check (4 <? max_entries) ;; check (max_entries <=? Z.shiftl 1 15) ;;
  Some (Make max_entries []).

(** [associations_.back()] is ahead of [associations_.front()]. *)
Definition back_ahead (l : list Association) : bool :=
  match head l, last l with
  | Some f, Some b => AheadOf (sequence_number b) (sequence_number f)
  | _, _ => true
  end.

Definition InsertPacket (this : t) (seq : Z) (i : Info) : option t :=
  let l := associations_ this in
  check ((len l <? 2) || back_ahead l) ;;
  match head l, last l with
  | Some front, Some back =>
      if AheadOrAt seq (sequence_number front) && AheadOrAt (sequence_number back) seq
      then Some (Make (max_entries_ this) [Assoc seq i]) else
      check (len l <=? max_entries_ this) ;;
      let erase_to :=
        if len l =? max_entries_ this
        then max_entries_ this - 3 * max_entries_ this / 4 else 0 in
      check (negb (erase_to =? len l)) ;;
      let first := Z.to_nat erase_to in
      let erase_to :=
        lower_bound (length l) l (fun a => AheadOf (sequence_number a) seq) first
          (length l - first) in
      let l' := drop erase_to l ++ [Assoc seq i] in
      check ((len l' =? 1) || back_ahead l') ;;
      Some (Make (max_entries_ this) l')
  | _, _ => Some (Make (max_entries_ this) [Assoc seq i])
  end.

(** The loop of [InsertFrame]; [n] packets are left, the next one is number [i]. *)
Fixpoint insert_packets (n : nat) (this : t) (first_sequence_number packet_count ts i : Z)
    : option t :=
  match n with
  | O => Some this
  | S n' =>
      this' ← InsertPacket this (u16 (first_sequence_number + i))
                (MakeInfo ts (i =? 0) (i =? packet_count - 1));
      insert_packets n' this' first_sequence_number packet_count ts (i + 1)
  end.

Definition InsertFrame (this : t) (first_sequence_number packet_count ts : Z) : option t :=
  check (0 <? packet_count) ;;
  insert_packets (Z.to_nat packet_count) this first_sequence_number packet_count ts 0.

Definition Get (this : t) (seq : Z) : option Info :=
  let l := associations_ this in
  match head l with
  | None => None
  | Some front =>
      let offset := u16 (0 - sequence_number front) in
      let before a := u16 (sequence_number a + offset) <? u16 (seq + offset) in
      match l !! lower_bound (length l) l before 0 (length l) with
      | Some elem => if sequence_number elem =? seq then Some (info elem) else None
      | None => None
      end
  end.

Definition AssociationCountForTesting (this : t) : Z := len (associations_ this).

End RtpSequenceNumberMap.

(** ** Bisection finds the partition point *)

(** The elements satisfy [before] exactly up to position [k]. *)
Definition partitioned {A} (l : list A) (before : A -> bool) (k : nat) : Prop :=
  forall j x, l !! j = Some x -> before x = (j <? k)%nat.

Lemma lower_bound_spec {A} (l : list A) before k fuel first count :
  partitioned l before k -> (first + count <= length l)%nat -> (count <= fuel)%nat ->
  lower_bound fuel l before first count = Nat.max first (Nat.min k (first + count)).
Proof.
  intros Hp. revert first count. induction fuel as [|fuel IH]; intros first count Hl Hf; cbn [lower_bound].
  - lia.
  - destruct (Nat.eqb_spec count 0); [lia|].
    assert (Hh : (count / 2 < count)%nat) by (apply Nat.div_lt; lia).
    destruct (l !! (first + count / 2)%nat) as [x|] eqn:E.
    2:{ apply lookup_ge_None in E. lia. }
    rewrite (Hp _ _ E). destruct (Nat.ltb_spec (first + count / 2) k).
    + rewrite IH by lia. lia.
    + rewrite IH by lia. lia.
Qed.

(** A predicate that holds on a prefix has a partition point. *)
Lemma partition_exists {A} (l : list A) (before : A -> bool) :
  (forall i j x y, (i < j)%nat -> l !! i = Some x -> l !! j = Some y -> before y = true -> before x = true) ->
  exists k, (k <= length l)%nat /\ partitioned l before k.
Proof.
  induction l as [|x l IH]; intros Hm; [exists 0%nat; split; [cbn; lia|]; by intros j y Hj|].
  destruct (before x) eqn:Ex.
  - destruct IH as (k & Hk & Hp).
    { intros i j y z Hij Hi Hj. apply (Hm (S i) (S j)); [lia|done|done]. }
    exists (S k). split; [cbn; lia|]. intros [|j] y Hj; cbn in Hj; [by injection Hj as <-|].
    rewrite (Hp j y Hj). done.
  - exists 0%nat. split; [cbn; lia|]. intros [|j] y Hj; cbn in Hj; [by injection Hj as <-|].
    destruct (before y) eqn:Ey; [|done].
    rewrite (Hm 0%nat (S j) x y) in Ex; [done|lia|done|done|done].
Qed.

(** ** Unwrapped sequence numbers *)

Import RtpSequenceNumberMap.

Abbreviation P16 := 65536.

Definition seq_of (n : Z) : Z := n mod P16.

Definition entry (e : Z * Info) : Association := Assoc (seq_of e.1) e.2.

(** [m] is ahead of [n] by at most half the ring. *)
Definition leads (m n : Z) : bool := (m - n <? 32768) || ((m - n =? 32768) && (seq_of n <? seq_of m)).

Lemma seq_of_range n : in_u 16 (seq_of n).
Proof. apply Z.mod_pos_bound. lia. Qed.

Lemma seq_of_small n : in_u 16 n -> seq_of n = n.
Proof. intros H. by apply Z.mod_small. Qed.

Lemma ring16 : ring 16 0.
Proof. constructor; lia. Qed.

Lemma AheadOrAt_ring a b : in_u 16 a -> in_u 16 b -> AheadOrAt a b = ring_ahead P16 a b.
Proof. intros Ha Hb. unfold AheadOrAt. by rewrite (AheadOrAt_spec 16 0 ring16 a b Ha Hb). Qed.

Lemma AheadOf_AheadOrAt a b : AheadOf a b = negb (a =? b) && AheadOrAt a b.
Proof.
  unfold AheadOf, AheadOrAt, SequenceNumberUtil.AheadOf. by destruct (a =? b).
Qed.

Lemma AheadOf_not a b : in_u 16 a -> in_u 16 b -> a <> b -> AheadOf a b = negb (AheadOf b a).
Proof.
  intros Ha Hb Hne. rewrite !AheadOf_AheadOrAt, !AheadOrAt_ring by done.
  rewrite (Z.eqb_sym b a), (proj2 (Z.eqb_neq a b)) by done. cbn [negb andb].
  by apply (ring_ahead_tournament 16 0 ring16).
Qed.

Lemma AheadOf_excl a b : in_u 16 a -> in_u 16 b -> AheadOf a b = true -> AheadOrAt b a = false.
Proof.
  intros Ha Hb H. destruct (Z.eqb_spec a b) as [->|Hne].
  - rewrite AheadOf_AheadOrAt, Z.eqb_refl in H. done.
  - rewrite AheadOf_not, AheadOf_AheadOrAt, (proj2 (Z.eqb_neq b a)) in H by congruence.
    by apply negb_true_iff in H.
Qed.

Lemma diff_mod n m : 0 <= m - n < P16 -> (seq_of m - seq_of n) mod P16 = m - n.
Proof. intros H. unfold seq_of. rewrite <- Zminus_mod. by apply Z.mod_small. Qed.

Lemma AheadOrAt_leads n m : 0 <= m - n < P16 -> AheadOrAt (seq_of m) (seq_of n) = leads m n.
Proof.
  intros H. rewrite AheadOrAt_ring by apply seq_of_range. unfold ring_ahead, leads. rewrite diff_mod by done.
  f_equal; [apply eq_true_iff_eq; rewrite !Z.ltb_lt; lia|]. f_equal. apply eq_true_iff_eq. rewrite !Z.eqb_eq. lia.
Qed.

Lemma seq_of_ne n m : 0 < m - n < P16 -> seq_of m <> seq_of n.
Proof.
  intros H E. assert (Hd : (seq_of m - seq_of n) mod P16 = m - n) by (apply diff_mod; lia).
  rewrite E, Z.sub_diag, Z.mod_0_l in Hd by lia. lia.
Qed.

Lemma AheadOf_leads n m : 0 < m - n < P16 -> AheadOf (seq_of m) (seq_of n) = leads m n.
Proof.
  intros H. rewrite AheadOf_AheadOrAt, AheadOrAt_leads by lia.
  by rewrite (proj2 (Z.eqb_neq _ _) (seq_of_ne n m H)).
Qed.

Lemma AheadOf_leads_rev n m : 0 < m - n < P16 -> AheadOf (seq_of n) (seq_of m) = negb (leads m n).
Proof.
  intros H. rewrite (AheadOf_not (seq_of n)) by (apply seq_of_range || (intros E; by apply (seq_of_ne n m H))).
  by rewrite AheadOf_leads.
Qed.

(** The number of a sequence number that is at most a ring in front of [n]. *)
Lemma unwrap_ahead n s : in_u 16 s -> exists m, seq_of m = s /\ 0 <= m - n < P16.
Proof.
  intros Hs. exists (n + (s - n) mod P16). pose proof (Z.mod_pos_bound (s - n) P16 ltac:(lia)).
  split; [|lia]. unfold seq_of. rewrite Zplus_mod_idemp_r. replace (n + (s - n)) with s by lia.
  by apply Z.mod_small.
Qed.

Lemma leads_bound m n : leads m n = true -> m - n <= 32768.
Proof. unfold leads. rewrite orb_true_iff, andb_true_iff, Z.ltb_lt, Z.eqb_eq. lia. Qed.

Lemma leads_near m n : m - n < 32768 -> leads m n = true.
Proof. intros. unfold leads. by rewrite (proj2 (Z.ltb_lt _ _)) by lia. Qed.

(** ** The invariant *)

Definition later (x y : Z * Info) : Prop := x.1 < y.1.

(** The associations are [u] with the numbers wrapped: increasing, and the last leads the first. *)
Record deque (u : list (Z * Info)) : Prop := {
  d_sorted : StronglySorted later u;
  d_span : forall x y, head u = Some x -> last u = Some y -> leads y.1 x.1 = true
}.

Record wf (this : t) (u : list (Z * Info)) : Prop := {
  wf_assoc : associations_ this = entry <$> u;
  wf_deque : deque u;
  wf_max : 4 < max_entries_ this <= 32768;
  wf_size : len u <= max_entries_ this
}.

Inductive reachable : t -> Prop :=
  | reach_new m this : construct m = Some this -> reachable this
  | reach_insert this s i this' :
      reachable this -> in_u 16 s -> InsertPacket this s i = Some this' -> reachable this'.

Lemma deque_bounds u x y z :
  deque u -> head u = Some x -> last u = Some z -> y ∈ u -> x.1 <= y.1 <= z.1.
Proof.
  intros [Hs _] Hx Hz Hy. destruct u as [|x' u]; [done|]. injection Hx as ->. split.
  - apply elem_of_cons in Hy as [->|Hy]; [lia|].
    apply StronglySorted_inv in Hs as [_ Hs]. eapply Forall_forall in Hs; [|done]. unfold later in Hs. lia.
  - apply last_Some in Hz as [u' E]. rewrite E in Hs, Hy. apply StronglySorted_app in Hs as (Hs & _).
    apply elem_of_app in Hy as [Hy|Hy]; [|apply list_elem_of_singleton in Hy as ->; lia].
    specialize (Hs y z Hy ltac:(constructor)). unfold later in Hs. lia.
Qed.

Lemma sorted_lookup u i j x y :
  StronglySorted later u -> (i < j)%nat -> u !! i = Some x -> u !! j = Some y -> x.1 < y.1.
Proof.
  intros Hs. revert i j. induction Hs as [|z u Hs IH Hz]; intros i j Hij Hi Hj; [done|].
  destruct i as [|i], j as [|j]; try lia; cbn in Hi, Hj.
  - injection Hi as ->. apply list_elem_of_lookup_2 in Hj. by eapply Forall_forall in Hz.
  - eapply (IH i j); [lia|done|done].
Qed.

Lemma entry_last u y : last u = Some y -> last (entry <$> u) = Some (entry y).
Proof. intros H. by rewrite fmap_last, H. Qed.

Lemma entry_head u x : head u = Some x -> head (entry <$> u) = Some (entry x).
Proof. intros H. destruct u; [done|]. by injection H as ->. Qed.

Lemma nonempty_ends {A} (l : list A) : l <> [] -> exists x y, head l = Some x /\ last l = Some y.
Proof.
  destruct l as [|x l]; [done|]. intros _. exists x.
  destruct (last (x :: l)) as [y|] eqn:E; [by exists y|]. by apply last_None in E.
Qed.

(** ** The reference: a linear scan *)

(** The oldest entries a full map drops. *)
Definition pare (max : Z) (l : list Association) : nat :=
  if len l =? max then Z.to_nat (max - 3 * max / 4) else 0%nat.

(** A number ahead of the newest keeps, of what paring leaves, the entries it is ahead of; any other
    number starts the map anew. *)
Definition insert_ref (max : Z) (l : list Association) (s : Z) (i : Info) : list Association :=
  match last l with
  | Some back =>
      if AheadOf s (sequence_number back)
      then List.filter (fun a => AheadOf s (sequence_number a)) (drop (pare max l) l) else []
  | None => []
  end ++ [Assoc s i].

Definition find_ref (l : list Association) (s : Z) : option Info :=
  info <$> List.find (fun a => sequence_number a =? s) l.

Lemma filter_partitioned {A} (l : list A) before keep k :
  partitioned l before k -> (forall x, x ∈ l -> keep x = negb (before x)) ->
  List.filter keep l = drop k l.
Proof.
  revert k. induction l as [|x l IH]; intros k Hp Hk; [by rewrite drop_nil|].
  cbn [List.filter]. rewrite Hk by constructor. rewrite (Hp 0%nat x) by done.
  assert (Hk' : forall y, y ∈ l -> keep y = negb (before y)) by (intros y Hy; apply Hk; by constructor).
  destruct k as [|k]; cbn.
  - f_equal. rewrite (IH 0%nat) by (try done; intros j y Hj; by rewrite (Hp (S j) y)). done.
  - apply IH; [|done]. intros j y Hj. by rewrite (Hp (S j) y).
Qed.

Lemma partitioned_drop {A} (l : list A) before k p :
  partitioned l before k -> partitioned (drop p l) before (k - p).
Proof.
  intros Hp j x Hj. rewrite lookup_drop in Hj. rewrite (Hp _ _ Hj).
  apply eq_true_iff_eq. rewrite !Nat.ltb_lt. lia.
Qed.

Lemma filter_drop_partitioned {A} (l : list A) before keep k p :
  partitioned l before k -> (forall x, x ∈ l -> keep x = negb (before x)) ->
  List.filter keep (drop p l) = drop (Nat.max p k) l.
Proof.
  intros Hp Hk. rewrite (filter_partitioned _ before keep (k - p)).
  - rewrite drop_drop. f_equal. lia.
  - by apply partitioned_drop.
  - intros x Hx. apply Hk. rewrite <- (take_drop p l). apply elem_of_app. by right.
Qed.

Section Ahead.
Context (u : list (Z * Info)) (Hu : deque u) (x y : Z * Info).
Context (Hx : head u = Some x) (Hy : last u = Some y).
Context (s : Z) (Hs : in_u 16 s).

(** A number ahead of the newest entry can be unwrapped in front of all of them. *)
Lemma ahead_unwrap :
  AheadOf s (seq_of y.1) = true ->
  exists n, seq_of n = s /\ forall z, z ∈ u -> 0 < n - z.1 < P16.
Proof using Hu Hx Hy Hs.
  intros Ha. destruct (unwrap_ahead y.1 s Hs) as (n & <- & Hn).
  assert (Hne : n <> y.1).
  { intros ->. rewrite AheadOf_AheadOrAt, Z.eqb_refl in Ha. done. }
  rewrite AheadOf_leads in Ha by lia.
  exists n. split; [done|]. intros z Hz. pose proof (deque_bounds u x z y Hu Hx Hy Hz) as Hb.
  pose proof (d_span u Hu x y Hx Hy) as Hsp.
  assert (Hd : n - x.1 <> P16).
  { unfold leads in Ha, Hsp. intros E. rewrite orb_true_iff, andb_true_iff, !Z.ltb_lt, Z.eqb_eq in Ha, Hsp.
    assert (seq_of n = seq_of x.1); [|lia]. unfold seq_of. replace n with (x.1 + 1 * P16) by lia.
    apply Z_mod_plus_full. }
  apply leads_bound in Ha, Hsp. lia.
Qed.

(** A number neither ahead of the newest entry nor among them is behind every entry. *)
Lemma behind_all :
  AheadOf s (seq_of y.1) = false ->
  AheadOrAt s (seq_of x.1) && AheadOrAt (seq_of y.1) s = false ->
  forall z, z ∈ u -> AheadOf (seq_of z.1) s = true.
Proof using Hu Hx Hy Hs.
  intros Ha Hr z Hz. destruct (unwrap_ahead (y.1 - P16) s Hs) as (n & <- & Hn).
  pose proof (deque_bounds u x z y Hu Hx Hy Hz) as Hb.
  pose proof (d_span u Hu x y Hx Hy) as Hsp. pose proof (leads_bound _ _ Hsp) as Hsp'.
  destruct (Z.eq_dec n (y.1 - P16)) as [->|Hne].
  { assert (E : seq_of (y.1 - P16) = seq_of y.1).
    { unfold seq_of. replace (y.1 - P16) with (y.1 + (-1) * P16) by lia. apply Z_mod_plus_full. }
    rewrite E, (AheadOrAt_leads x.1 y.1), Hsp, (AheadOrAt_leads y.1 y.1), leads_near in Hr by lia. done. }
  rewrite AheadOf_leads_rev in Ha by lia. apply negb_false_iff in Ha.
  rewrite (AheadOrAt_leads n y.1), Ha, andb_true_r in Hr by lia. pose proof (leads_bound _ _ Ha) as Hyn.
  assert (Hxn : n < x.1).
  { destruct (Z_lt_le_dec n x.1); [done|]. rewrite AheadOrAt_leads, leads_near in Hr by lia. done. }
  rewrite AheadOf_leads by lia. destruct (Z.eq_dec (z.1 - n) 32768) as [E|]; [|apply leads_near; lia].
  by replace z.1 with y.1 by lia.
Qed.
End Ahead.

Lemma leads_mono n x y : x <= y -> y < n -> leads n x = true -> leads n y = true.
Proof.
  intros Hxy Hn Hl. destruct (Z.eq_dec x y) as [->|]; [done|]. apply leads_bound in Hl. apply leads_near. lia.
Qed.

(** The entries a new number is behind of form a prefix. *)
Lemma obsolete_prefix u n :
  deque u -> (forall z, z ∈ u -> 0 < n - z.1 < P16) ->
  exists k, (k <= length u)%nat /\
    partitioned (entry <$> u) (fun a => AheadOf (sequence_number a) (seq_of n)) k.
Proof.
  intros Hd Hn. edestruct (partition_exists (entry <$> u) (fun a => AheadOf (sequence_number a) (seq_of n)))
    as (k & Hk & Hp); [|exists k; split; [by rewrite length_fmap in Hk|done]].
  intros i j a b Hij Ha Hb. rewrite list_lookup_fmap in Ha, Hb.
  destruct (u !! i) as [x|] eqn:Ei, (u !! j) as [y|] eqn:Ej; [|done..]. injection Ha as <-. injection Hb as <-.
  pose proof (sorted_lookup u i j x y (d_sorted u Hd) Hij Ei Ej) as Hxy.
  apply list_elem_of_lookup_2 in Ei, Ej. apply Hn in Ei, Ej.
  cbn [entry sequence_number]. rewrite !AheadOf_leads_rev, !negb_true_iff by done.
  intros Hf. apply not_true_iff_false. intros Ht. apply not_true_iff_false in Hf. apply Hf.
  apply (leads_mono n x.1); [lia..|done].
Qed.

(** Entries that a number in front of them leads can be extended by it. *)
Lemma deque_snoc u n i p :
  deque u -> (forall z, z ∈ drop p u -> 0 < n - z.1 /\ leads n z.1 = true) ->
  deque (drop p u ++ [(n, i)]).
Proof.
  intros Hd Hz. constructor.
  - apply StronglySorted_app_2.
    + intros a b Ha Hb. apply list_elem_of_singleton in Hb as ->. unfold later. cbn. apply Hz in Ha. lia.
    + apply (StronglySorted_app_1_r later (take p u)). rewrite take_drop. apply Hd.
    + apply SSorted_cons; constructor.
  - intros a b Ha Hb. rewrite last_snoc in Hb. injection Hb as <-. cbn [fst].
    destruct (drop p u) as [|c r] eqn:E; cbn in Ha; injection Ha as <-; [apply leads_near; cbn; lia|].
    apply Hz. constructor.
Qed.

Lemma deque_single n i : deque [(n, i)].
Proof.
  constructor.
  - apply SSorted_cons; constructor.
  - intros a b Ha Hb. injection Ha as <-. injection Hb as <-. apply leads_near. lia.
Qed.

(** ** Insertion *)

Lemma pare_bounds max l :
  4 < max <= 32768 -> l <> [] -> len l <= max ->
  (pare max l < length l)%nat /\ (length l - pare max l < Z.to_nat max)%nat.
Proof.
  intros Hm Hl Hs. destruct l as [|a l]; [done|]. unfold pare, len in *.
  destruct (Z.eqb_spec (Z.of_nat (length (a :: l))) max); cbn [length] in *; [|lia].
  assert (0 < 3 * max / 4 < max); [|lia].
  split; [apply Z.div_str_pos; lia|apply Z.div_lt_upper_bound; lia].
Qed.

(** What a number in front of all entries keeps. *)
Lemma kept_ahead u y n i max :
  deque u -> last u = Some y -> (forall z, z ∈ u -> 0 < n - z.1 < P16) ->
  AheadOf (seq_of n) (seq_of y.1) = true ->
  exists k, let l := entry <$> u in
    let u' := drop (Nat.max (pare max l) k) u ++ [(n, i)] in
    (k <= length u)%nat /\
    partitioned l (fun a => AheadOf (sequence_number a) (seq_of n)) k /\
    insert_ref max l (seq_of n) i = entry <$> u' /\ deque u'.
Proof.
  intros Hd Hy Hn Ha. destruct (obsolete_prefix u n Hd Hn) as (k & Hk & Hp). exists k. cbn zeta.
  set (l := entry <$> u) in *. set (q := Nat.max (pare max l) k).
  split; [done|]. split; [done|]. split.
  - unfold insert_ref. rewrite (entry_last u y Hy : last l = _). cbn [entry sequence_number].
    rewrite Ha, (filter_drop_partitioned l (fun a => AheadOf (sequence_number a) (seq_of n)) _ k).
    + fold q. by rewrite fmap_app, fmap_drop.
    + done.
    + intros a Hin. apply list_elem_of_fmap in Hin as (z & -> & Hz). cbn.
      by rewrite AheadOf_leads, AheadOf_leads_rev, negb_involutive by auto.
  - apply deque_snoc; [done|]. intros z Hz. apply list_elem_of_lookup_1 in Hz as (j & Hj).
    rewrite lookup_drop in Hj. pose proof (list_elem_of_lookup_2 _ _ _ Hj) as Hz%Hn. split; [lia|].
    assert (Hb : AheadOf (seq_of z.1) (seq_of n) = (q + j <? k)%nat).
    { apply (Hp (q + j)%nat (entry z)). unfold l. by rewrite list_lookup_fmap, Hj. }
    rewrite AheadOf_leads_rev, (proj2 (Nat.ltb_ge _ _)) in Hb by lia. by apply negb_false_iff in Hb.
Qed.

(** The check that surrounds every insertion. *)
Lemma deque_back_ahead u : deque u -> (length u = 1%nat) \/ back_ahead (entry <$> u) = true.
Proof.
  intros Hd. destruct u as [|x u]; [by right|]. destruct (nonempty_ends (x :: u)) as (x' & y & Hx & Hy); [done|].
  injection Hx as <-. destruct u as [|z u]; [by left|]. right. unfold back_ahead.
  rewrite (entry_last _ y Hy). cbn [head fmap list_fmap entry sequence_number].
  assert (Hz : x.1 < z.1) by (by apply (sorted_lookup (x :: z :: u) 0 1 x z (d_sorted _ Hd)); [lia|..]).
  pose proof (deque_bounds _ x z y Hd eq_refl Hy ltac:(right; constructor)) as Hb.
  pose proof (d_span _ Hd x y eq_refl Hy) as Hsp. rewrite AheadOf_leads; [done|].
  apply leads_bound in Hsp. lia.
Qed.

Lemma back_ahead_small u : deque u -> (len (entry <$> u) <? 2) || back_ahead (entry <$> u) = true.
Proof.
  intros Hd. destruct (deque_back_ahead u Hd) as [E|E]; [|by rewrite E, orb_true_r].
  unfold len. by rewrite length_fmap, E.
Qed.

Lemma back_ahead_one u : deque u -> (len (entry <$> u) =? 1) || back_ahead (entry <$> u) = true.
Proof.
  intros Hd. destruct (deque_back_ahead u Hd) as [E|E]; [|by rewrite E, orb_true_r].
  unfold len. by rewrite length_fmap, E.
Qed.

(** The position the bisection erases to, from the position paring starts at. *)
Lemma erase_position max l before k :
  4 < max <= 32768 -> l <> [] -> len l <= max -> partitioned l before k -> (k <= length l)%nat ->
  let erase_to := if len l =? max then max - 3 * max / 4 else 0 in
  negb (erase_to =? len l) = true /\
  lower_bound (length l) l before (Z.to_nat erase_to) (length l - Z.to_nat erase_to) =
    Nat.max (pare max l) k.
Proof.
  intros Hm Hne Hs Hp Hk. cbn zeta. pose proof (pare_bounds max l Hm Hne Hs) as [Hp1 Hp2].
  assert (E : Z.to_nat (if len l =? max then max - 3 * max / 4 else 0) = pare max l).
  { unfold pare. by destruct (len l =? max). }
  split.
  - apply negb_true_iff, Z.eqb_neq. intros E'. rewrite E' in E. unfold len in E. lia.
  - rewrite E, (lower_bound_spec l before k) by (done || lia). lia.
Qed.

(** A map whose associations are [u'] after the insertion. *)
Lemma wf_pared this u l k n i :
  wf this u -> l = entry <$> u -> u <> [] ->
  let u' := drop (Nat.max (pare (max_entries_ this) l) k) u ++ [(n, i)] in
  deque u' -> wf (Make (max_entries_ this) (entry <$> u')) u'.
Proof.
  intros [Ea Hd Hm Hs] -> Hne u' Hd'. constructor; [done|done|done|].
  destruct (pare_bounds (max_entries_ this) (entry <$> u)) as [Hp1 Hp2]; [done| |by unfold len; rewrite length_fmap|].
  { intros E. by apply fmap_nil_inv in E. }
  rewrite length_fmap in Hp2. cbn [max_entries_]. unfold u', len.
  rewrite length_app, length_drop. cbn [length]. lia.
Qed.

Lemma wf_single this u s i : wf this u -> in_u 16 s -> wf (Make (max_entries_ this) [Assoc s i]) [(s, i)].
Proof.
  intros [_ _ Hm _] Hs. constructor; [|apply deque_single|done|cbn; unfold len; cbn; lia].
  cbn. unfold entry. cbn. by rewrite seq_of_small.
Qed.

(** Insertion into a map that is not empty. *)
Section Insert.
Context (this : t) (u : list (Z * Info)) (x y : Z * Info) (s : Z) (i : Info).
Context (Hwf : wf this u) (Hx : head u = Some x) (Hy : last u = Some y) (Hs : in_u 16 s).

Let l := entry <$> u.
Let max := max_entries_ this.

Lemma insert_nonempty : l <> [].
Proof using Hx. intros E. apply fmap_nil_inv in E. by rewrite E in Hx. Qed.

Lemma insert_len : len l <= max.
Proof using Hwf. unfold len, l. rewrite length_fmap. apply Hwf. Qed.

(** The insertion when the number is not within the range held, given the partition point. *)
Lemma InsertPacket_erase k :
  AheadOrAt s (seq_of x.1) && AheadOrAt (seq_of y.1) s = false ->
  partitioned l (fun a => AheadOf (sequence_number a) s) k -> (k <= length l)%nat ->
  let l' := drop (Nat.max (pare max l) k) l ++ [Assoc s i] in
  (len l' =? 1) || back_ahead l' = true ->
  InsertPacket this s i = Some (Make max l').
Proof using Hwf Hx Hy.
  intros Hr Hp Hk l' Hc. pose proof Hwf as [Ea Hd Hm Hsz].
  destruct (erase_position max l _ k Hm insert_nonempty insert_len Hp Hk) as [E1 E2].
  unfold InsertPacket. rewrite Ea, back_ahead_small, (entry_head u x Hx), (entry_last u y Hy) by done.
  cbn [entry sequence_number]. fold l max. rewrite Hr, (proj2 (Z.leb_le _ _) insert_len), E1, E2. fold l'.
  by rewrite Hc.
Qed.

Lemma InsertPacket_ahead :
  AheadOf s (seq_of y.1) = true ->
  InsertPacket this s i = Some (Make max (insert_ref max l s i)) /\
  exists u', wf (Make max (insert_ref max l s i)) u'.
Proof using Hwf Hx Hy Hs.
  intros Ha. pose proof (wf_deque _ _ Hwf) as Hd.
  destruct (ahead_unwrap u Hd x y Hx Hy s Hs Ha) as (n & En & Hn).
  destruct (kept_ahead u y n i max Hd Hy Hn) as (k & Hk & Hp & Er & Hd'); [by rewrite En|].
  fold l in Hp, Er, Hd'. rewrite En in Hp, Er. rewrite Er.
  assert (Em : entry <$> drop (Nat.max (pare max l) k) u ++ [(n, i)] =
               drop (Nat.max (pare max l) k) l ++ [Assoc s i]).
  { rewrite fmap_app, fmap_drop. cbn. unfold entry at 2. by rewrite <- En. }
  split; [rewrite Em; apply InsertPacket_erase|].
  - apply andb_false_iff. right. apply AheadOf_excl; [done|apply seq_of_range|done].
  - done.
  - unfold l. by rewrite length_fmap.
  - rewrite <- Em. by apply back_ahead_one.
  - eexists. apply (wf_pared this u l k n i Hwf eq_refl); [by intros ->|done].
Qed.

Lemma InsertPacket_anew :
  AheadOf s (seq_of y.1) = false -> InsertPacket this s i = Some (Make max [Assoc s i]).
Proof using Hwf Hx Hy Hs.
  intros Ha. pose proof Hwf as [Ea Hd Hm Hsz].
  destruct (AheadOrAt s (seq_of x.1) && AheadOrAt (seq_of y.1) s) eqn:Hr.
  - unfold InsertPacket. rewrite Ea, back_ahead_small, (entry_head u x Hx), (entry_last u y Hy) by done.
    cbn [entry sequence_number]. by rewrite Hr.
  - rewrite (InsertPacket_erase (length l)); [|done| |done|].
    + by rewrite drop_ge by lia.
    + intros j a Hj. rewrite (proj2 (Nat.ltb_lt _ _)) by (by eapply lookup_lt_Some).
      unfold l in Hj. rewrite list_lookup_fmap in Hj. destruct (u !! j) as [z|] eqn:E; [|done].
      injection Hj as <-. apply list_elem_of_lookup_2 in E. by apply (behind_all u Hd x y Hx Hy s Hs Ha Hr).
    + by rewrite drop_ge by lia.
Qed.
End Insert.

(** Insertion never fails a check, keeps the invariant and does what the linear scan does. *)
Lemma InsertPacket_ref this u s i :
  wf this u -> in_u 16 s ->
  let this' := Make (max_entries_ this) (insert_ref (max_entries_ this) (associations_ this) s i) in
  InsertPacket this s i = Some this' /\ exists u', wf this' u'.
Proof.
  intros Hwf Hs this'. pose proof (wf_assoc _ _ Hwf) as Ea. subst this'.
  destruct (decide (u = [])) as [->|Hne].
  { unfold InsertPacket, insert_ref. rewrite Ea. split; [done|]. eexists. by apply (wf_single _ []). }
  destruct (nonempty_ends u Hne) as (x & y & Hx & Hy). rewrite Ea.
  destruct (AheadOf s (seq_of y.1)) eqn:Ha; [by apply (InsertPacket_ahead this u x y)|].
  rewrite (InsertPacket_anew this u x y) by done. unfold insert_ref. rewrite (entry_last u y Hy).
  cbn [entry sequence_number]. rewrite Ha. split; [done|]. eexists. by apply (wf_single _ u).
Qed.

Lemma map_reachable_wf this : reachable this -> exists u, wf this u.
Proof.
  induction 1 as [m this E|this s i this' _ [u Hu] Hs E].
  - unfold construct in E. destruct (Z.ltb_spec 4 m); [|done]. destruct (Z.leb_spec m (Z.shiftl 1 15)) as [Hm|]; [|done].
    injection E as <-. change (Z.shiftl 1 15) with 32768 in Hm. exists []. constructor; cbn; [done| |lia|unfold len; cbn; lia].
    constructor; [constructor|done].
  - destruct (InsertPacket_ref this u s i Hu Hs) as [E' Hw]. rewrite E in E'. by injection E' as ->.
Qed.

(** ** Lookup *)

Lemma find_ref_lookup l s j a :
  l !! j = Some a -> sequence_number a = s ->
  (forall j' b, (j' < j)%nat -> l !! j' = Some b -> sequence_number b <> s) -> find_ref l s = Some (info a).
Proof.
  unfold find_ref. revert j. induction l as [|b l IH]; intros j Hj Hs Hlt; [done|].
  cbn [List.find]. destruct j as [|j]; cbn in Hj.
  - injection Hj as ->. by rewrite (proj2 (Z.eqb_eq _ _) Hs).
  - rewrite (proj2 (Z.eqb_neq _ _)) by (apply (Hlt 0%nat); [lia|done]).
    apply (IH j Hj Hs). intros j' c Hj' Hc. apply (Hlt (S j')); [lia|done].
Qed.

Lemma find_ref_none l s : (forall a, a ∈ l -> sequence_number a <> s) -> find_ref l s = None.
Proof.
  unfold find_ref. induction l as [|b l IH]; intros Hn; [done|]. cbn [List.find].
  rewrite (proj2 (Z.eqb_neq _ _)) by (apply Hn; constructor). apply IH. intros a Ha. apply Hn. by constructor.
Qed.

(** The offset of [Get] maps the numbers of a deque to their distance from the oldest. *)
Lemma offset_distance n m : 0 <= m - n < P16 -> u16 (seq_of m + u16 (0 - seq_of n)) = m - n.
Proof.
  intros H. rewrite <- (diff_mod n m H). unfold u16, wrap. change (2 ^ 16) with P16.
  rewrite Zplus_mod_idemp_r. f_equal.
Qed.

Lemma deque_distance u x y z :
  deque u -> head u = Some x -> last u = Some y -> z ∈ u -> 0 <= z.1 - x.1 < P16.
Proof.
  intros Hd Hx Hy Hz. pose proof (deque_bounds u x z y Hd Hx Hy Hz).
  pose proof (leads_bound _ _ (d_span u Hd x y Hx Hy)). lia.
Qed.

(** The entries of a deque before a number form a prefix. *)
Lemma search_partition u n :
  deque u -> exists k, (k <= length u)%nat /\ partitioned u (fun z => z.1 <? n) k.
Proof.
  intros Hd. apply partition_exists. intros i j x y Hij Hi Hj. rewrite !Z.ltb_lt.
  pose proof (sorted_lookup u i j x y (d_sorted u Hd) Hij Hi Hj). lia.
Qed.

(** The comparison of [Get] is that of the unwrapped numbers. *)
Lemma search_entries (u : list (Z * Info)) (x : Z * Info) n k :
  (forall z, z ∈ u -> 0 <= z.1 - x.1 < P16) -> partitioned u (fun z => z.1 <? n) k ->
  partitioned (entry <$> u) (fun a => u16 (sequence_number a + u16 (0 - seq_of x.1)) <? n - x.1) k.
Proof.
  intros Hr Hp j a Hj. rewrite list_lookup_fmap in Hj. destruct (u !! j) as [z|] eqn:E; [|done].
  injection Hj as <-. rewrite <- (Hp _ _ E). apply list_elem_of_lookup_2 in E. cbn.
  rewrite offset_distance by auto. apply eq_true_iff_eq. rewrite !Z.ltb_lt. lia.
Qed.

(** The element at the partition point is the only one that can carry the number. *)
Lemma search_found (u : list (Z * Info)) (x : Z * Info) n k :
  (forall z, z ∈ u -> 0 <= z.1 - x.1 < P16) -> 0 <= n - x.1 < P16 ->
  deque u -> partitioned u (fun z => z.1 <? n) k ->
  match (entry <$> u) !! k with
  | Some elem => if sequence_number elem =? seq_of n then Some (info elem) else None
  | None => None
  end = find_ref (entry <$> u) (seq_of n).
Proof.
  intros Hr Hn Hd Hp.
  assert (Heq : forall z, z ∈ u -> seq_of z.1 = seq_of n -> z.1 = n).
  { intros z Hz%Hr E. pose proof (diff_mod x.1 z.1 Hz) as E1. rewrite E, diff_mod in E1 by done. lia. }
  assert (Hat : forall j z, u !! j = Some z -> z.1 = n -> j = k).
  { intros j z Hj Hz. pose proof (Hp j z Hj) as Hb. cbn beta in Hb.
    rewrite (proj2 (Z.ltb_ge _ _)) in Hb by lia. symmetry in Hb. apply Nat.ltb_ge in Hb.
    destruct (u !! k) as [z'|] eqn:Ek; [|apply lookup_ge_None in Ek; apply lookup_lt_Some in Hj; lia].
    pose proof (Hp k z' Ek) as Hb'. cbn beta in Hb'. rewrite Nat.ltb_irrefl in Hb'. apply Z.ltb_ge in Hb'.
    destruct (decide (k = j)) as [|Hne]; [done|].
    pose proof (sorted_lookup u k j z' z (d_sorted u Hd) ltac:(lia) Ek Hj). lia. }
  assert (Hnone : (forall z, u !! k = Some z -> seq_of z.1 <> seq_of n) -> find_ref (entry <$> u) (seq_of n) = None).
  { intros Hk. apply find_ref_none. intros a Ha E. apply list_elem_of_fmap in Ha as (z & -> & Hz).
    apply list_elem_of_lookup_1 in Hz as (j & Hj). cbn in E.
    apply (Hk z); [|done]. by rewrite <- (Hat j z Hj (Heq z (list_elem_of_lookup_2 _ _ _ Hj) E)). }
  rewrite list_lookup_fmap. destruct (u !! k) as [z|] eqn:Ek; cbn [fmap option_fmap option_map].
  2:{ by rewrite Hnone. }
  cbn [entry sequence_number info]. destruct (Z.eqb_spec (seq_of z.1) (seq_of n)) as [E|E].
  - symmetry. apply (find_ref_lookup _ _ k (entry z)); [by rewrite list_lookup_fmap, Ek|done|].
    intros j b Hj Hb Eb. rewrite list_lookup_fmap in Hb. destruct (u !! j) as [z'|] eqn:Ej; [|done].
    injection Hb as <-. pose proof (Hat j z' Ej (Heq z' (list_elem_of_lookup_2 _ _ _ Ej) Eb)). lia.
  - symmetry. apply Hnone. intros z' E'. by injection E' as <-.
Qed.

Lemma Get_ref this u s : wf this u -> in_u 16 s -> Get this s = find_ref (associations_ this) s.
Proof.
  intros [Ea Hd Hm Hsz] Hs. unfold Get. rewrite Ea.
  destruct (decide (u = [])) as [->|Hne]; [done|].
  destruct (nonempty_ends u Hne) as (x & y & Hx & Hy). rewrite (entry_head u x Hx). cbn [entry sequence_number].
  pose proof (fun z => deque_distance u x y z Hd Hx Hy) as Hr.
  destruct (unwrap_ahead x.1 s Hs) as (n & <- & Hn). rewrite (offset_distance x.1 n Hn).
  destruct (search_partition u n Hd) as (k & Hk & Hp).
  rewrite (lower_bound_spec _ _ k); [|by apply (search_entries u x)|lia|lia].
  rewrite length_fmap. replace (Nat.max 0 (Nat.min k (0 + length u))) with k by lia.
  apply (search_found u x); done.
Qed.

(** ** Frames *)

(** The association of packet [j] of a frame. *)
Definition frame_packet (first count ts : Z) (j : nat) : Association :=
  Assoc (u16 (first + Z.of_nat j)) (MakeInfo ts (Z.of_nat j =? 0) (Z.of_nat j =? count - 1)).

(** The first [n] packets of a frame are the newest entries. *)
Definition frame_suffix (first count ts : Z) (n : nat) (l : list Association) : Prop :=
  exists pre, l = pre ++ (frame_packet first count ts <$> seq 0 n).

Lemma frame_ahead first i j : (i < j)%nat -> Z.of_nat j < 32768 ->
  AheadOf (u16 (first + Z.of_nat j)) (u16 (first + Z.of_nat i)) = true.
Proof.
  intros Hij Hj. change (AheadOf (seq_of (first + Z.of_nat j)) (seq_of (first + Z.of_nat i)) = true).
  rewrite AheadOf_leads by lia. apply leads_near. lia.
Qed.

(** One more packet of the frame, for a frame of at most three quarters of the map. *)
Lemma frame_step max first count ts n l :
  4 < max <= 32768 -> Z.of_nat n < 3 * max / 4 -> frame_suffix first count ts n l ->
  let a := frame_packet first count ts n in
  frame_suffix first count ts (S n) (insert_ref max l (sequence_number a) (info a)).
Proof.
  intros Hm Hn [pre ->] a. unfold frame_suffix. rewrite seq_S, fmap_app. cbn [fmap list_fmap plus].
  assert (Hb : 3 * max / 4 < max) by (apply Z.div_lt_upper_bound; lia).
  set (fr := frame_packet first count ts <$> seq 0 n). assert (Hfr : length fr = n) by (unfold fr; by rewrite length_fmap, length_seq).
  destruct n as [|n]; [eexists; reflexivity|].
  unfold insert_ref. assert (El : last (pre ++ fr) = Some (frame_packet first count ts n)).
  { unfold fr. rewrite seq_S, fmap_app, app_assoc. apply last_snoc. }
  rewrite El. cbn [frame_packet sequence_number a]. rewrite frame_ahead by lia.
  assert (Hp : (pare max (pre ++ fr) <= length pre)%nat).
  { unfold pare, len. rewrite length_app. destruct (Z.eqb_spec (Z.of_nat (length pre + length fr)) max); lia. }
  rewrite drop_app_le by done. rewrite List.filter_app. eexists. rewrite <- app_assoc. do 2 f_equal.
  apply forallb_filter_id, forallb_forall. intros b Hb'. apply list_elem_of_In in Hb'. unfold fr in Hb'. apply list_elem_of_fmap in Hb' as (j & -> & Hj).
  apply elem_of_seq in Hj. cbn. apply frame_ahead; lia.
Qed.

Lemma insert_packets_ref n this first count ts j :
  (exists u, wf this u) ->
  exists this', insert_packets n this first count ts (Z.of_nat j) = Some this' /\
    max_entries_ this' = max_entries_ this /\ (reachable this -> reachable this') /\ (exists u, wf this' u) /\
    (Z.of_nat (j + n) <= 3 * max_entries_ this / 4 ->
     frame_suffix first count ts j (associations_ this) ->
     frame_suffix first count ts (j + n) (associations_ this')).
Proof.
  revert this j. induction n as [|n IH]; intros this j [u Hu].
  { exists this. rewrite Nat.add_0_r. repeat split; eauto. }
  cbn [insert_packets]. set (a := frame_packet first count ts j).
  assert (Ha : in_u 16 (sequence_number a)) by (apply (seq_of_range (first + Z.of_nat j))).
  destruct (InsertPacket_ref this u _ (info a) Hu Ha) as [E [u1 Hu1]]. cbn [a frame_packet sequence_number info] in E.
  rewrite E. cbn [mbind option_bind].
  destruct (IH _ (S j) (ex_intro _ u1 Hu1)) as (this' & E' & Em & Hr & Hw & Hf).
  exists this'. rewrite Nat2Z.inj_succ, <- Z.add_1_r in E'. split; [done|]. split; [done|]. split; [|split; [done|]].
  - intros H. apply Hr. by eapply reach_insert.
  - intros Hb Hs. rewrite <- Nat.add_succ_comm in *. apply Hf; [done|].
    apply frame_step; [apply Hu|lia|done].
Qed.

(** Every association that is held is found. *)
Lemma Get_member this u a :
  wf this u -> a ∈ associations_ this -> Get this (sequence_number a) = Some (info a).
Proof.
  intros Hwf Ha. pose proof Hwf as [Ea Hd Hm Hsz]. rewrite Ea in Ha.
  apply list_elem_of_fmap in Ha as (z & -> & Hz). apply list_elem_of_lookup_1 in Hz as (j & Hj).
  rewrite (Get_ref this u) by (done || apply seq_of_range). rewrite Ea.
  destruct (nonempty_ends u) as (x & y & Hx & Hy); [by intros ->|].
  apply (find_ref_lookup _ _ j (entry z)); [by rewrite list_lookup_fmap, Hj|done|].
  intros j' b Hlt Hb. rewrite list_lookup_fmap in Hb. destruct (u !! j') as [z'|] eqn:Ej; [|done].
  injection Hb as <-. cbn. pose proof (sorted_lookup u j' j z' z (d_sorted u Hd) Hlt Ej Hj).
  pose proof (deque_distance u x y z Hd Hx Hy (list_elem_of_lookup_2 _ _ _ Hj)).
  pose proof (deque_distance u x y z' Hd Hx Hy (list_elem_of_lookup_2 _ _ _ Ej)).
  intros E. symmetry in E. revert E. apply seq_of_ne. lia.
Qed.

Lemma insert_ref_member max l s i : Assoc s i ∈ insert_ref max l s i.
Proof. unfold insert_ref. apply elem_of_app. right. constructor. Qed.

(** A frame that is inserted is found packet by packet. *)
Lemma InsertFrame_ref this first count ts :
  reachable this -> 0 < count ->
  exists this', InsertFrame this first count ts = Some this' /\ reachable this' /\
    (count <= 3 * max_entries_ this / 4 -> forall j, 0 <= j < count ->
     Get this' (u16 (first + j)) = Some (MakeInfo ts (j =? 0) (j =? count - 1))).
Proof.
  intros Hr Hc. unfold InsertFrame. rewrite (proj2 (Z.ltb_lt _ _) Hc).
  destruct (insert_packets_ref (Z.to_nat count) this first count ts 0 (map_reachable_wf _ Hr))
    as (this' & E & Em & Hr' & [u Hu] & Hf).
  exists this'. split; [done|]. split; [by apply Hr'|]. intros Hb j Hj.
  destruct (Hf ltac:(lia)) as [pre Epre]; [by exists (associations_ this); rewrite app_nil_r|].
  pose proof (Get_member this' u (frame_packet first count ts (Z.to_nat j)) Hu) as Hg.
  unfold frame_packet in Hg at 2 3. cbn [sequence_number info] in Hg. rewrite Z2Nat.id in Hg by lia. apply Hg.
  rewrite Epre. apply elem_of_app. right. apply list_elem_of_fmap. exists (Z.to_nat j). split; [done|].
  apply elem_of_seq. lia.
Qed.

(** C37: for every map of sequence numbers that the constructor and insertions produce, whatever the
    order and the wrap-arounds of the numbers inserted: it never holds more than its maximum; looking
    a number up by bisection gives what a linear search gives; inserting a packet never fails a check
    of the code, the packet is then found, and the bisection keeps exactly the entries the reference
    keeps (a number ahead of the newest entry keeps the entries it is ahead of, less the oldest
    quarter if the map is full; any other number starts the map anew); and every packet of a frame
    of at most three quarters of the maximum is found after [InsertFrame] with its timestamp and its
    first and last marks. *)
Theorem seq_map_spec this s i first count ts :
  reachable this -> in_u 16 s -> 0 < count ->
  AssociationCountForTesting this <= max_entries_ this /\
  Get this s = find_ref (associations_ this) s /\
  (exists this', InsertPacket this s i = Some this' /\ reachable this' /\
     max_entries_ this' = max_entries_ this /\
     associations_ this' = insert_ref (max_entries_ this) (associations_ this) s i /\
     Get this' s = Some i) /\
  (exists this', InsertFrame this first count ts = Some this' /\ reachable this' /\
     (count <= 3 * max_entries_ this / 4 -> forall j, 0 <= j < count ->
      Get this' (u16 (first + j)) = Some (MakeInfo ts (j =? 0) (j =? count - 1)))).
Proof.
  intros Hr Hs Hc. destruct (map_reachable_wf _ Hr) as [u Hu].
  split; [|split; [by apply (Get_ref this u)|split; [|by apply InsertFrame_ref]]].
  - unfold AssociationCountForTesting, len. rewrite (wf_assoc _ _ Hu), length_fmap. apply Hu.
  - destruct (InsertPacket_ref this u s i Hu Hs) as [E [u' Hu']]. eexists. split; [exact E|].
    split; [by eapply reach_insert|]. split; [done|]. split; [done|].
    apply (Get_member _ u' (Assoc s i) Hu'). apply insert_ref_member.
Qed.

(** A map of at most eight entries with a frame of five packets across the wrap. *)
Definition example_map : t :=
  default (Make 0 []) (this ← construct 8; InsertFrame this 65533 5 9000).

Lemma example_reachable : reachable example_map.
Proof.
  destruct (InsertFrame_ref (Make 8 []) 65533 5 9000) as (this' & E & H & _); [by apply (reach_new 8)|lia|].
  unfold example_map. cbn [construct]. change (construct 8) with (Some (Make 8 [])). cbn [mbind option_bind].
  by rewrite E.
Qed.

Lemma seq_map_spec_witness :
  AssociationCountForTesting example_map = 5 /\ Get example_map 0 = Some (MakeInfo 9000 false false) /\
  (exists this', InsertPacket example_map 32769 (MakeInfo 9090 true true) = Some this' /\
     reachable this' /\ max_entries_ this' = max_entries_ example_map /\
     associations_ this' =
       insert_ref (max_entries_ example_map) (associations_ example_map) 32769 (MakeInfo 9090 true true) /\
     Get this' 32769 = Some (MakeInfo 9090 true true)) /\
  length (insert_ref 8 (associations_ example_map) 32769 (MakeInfo 9090 true true)) = 2%nat.
Proof.
  split; [reflexivity|]. split; [reflexivity|]. split; [|vm_compute; reflexivity].
  apply (seq_map_spec example_map 32769 (MakeInfo 9090 true true) 7 1 1);
    [exact example_reachable|vm_compute; by split|lia].
Defined.
