(* ===== verification/OrderedSet.v ===== *)
(** * Ordered associative containers

    [std::map] and [std::set] with a comparison supplied by the program.  A container is the list
    of its elements in iteration order; a set is a map whose values are [tt].  The standard leaves
    the operations undefined when the comparison does not order the elements together with the key
    that is searched: then they return [None]. *)

From S2P Require Import Prelude.

Create HintDb increasing.

Section Container.
Context {K V : Type} (comp : K -> K -> bool).

(** The number of elements before the key. *)
Fixpoint elements_before (l : list (K * V)) (k : K) : nat :=
  match l with
  | e :: r => if comp e.1 k then S (elements_before r k) else O
  | [] => O
  end.

(** The position of the first element not before the key, and whether it is the key. *)
Definition locate (l : list (K * V)) (k : K) : option (nat * bool) :=
  let p := elements_before l k in
  match drop p l with
  | [] => Some (p, false)
  | e :: r => check (forallb (fun e' : K * V => comp k e'.1) r) ;; Some (p, negb (comp k e.1))
  end.

Definition lower_bound_pos (l : list (K * V)) (k : K) : option nat := '(p, _) ← locate l k; Some p.

Definition find_value (l : list (K * V)) (k : K) : option (option V) :=
  '(p, found) ← locate l k;
  Some (if (found : bool) then snd <$> l !! p else None).

(** [insert]: an element that is already there stays. *)
Definition insert_new (l : list (K * V)) (k : K) (v : V) : option (list (K * V)) :=
  '(p, found) ← locate l k;
  Some (if (found : bool) then l else take p l ++ (k, v) :: drop p l).

(** [l[k] = v]. *)
Definition assign (l : list (K * V)) (k : K) (v : V) : option (list (K * V)) :=
  '(p, found) ← locate l k;
  Some (take p l ++ (k, v) :: drop (if (found : bool) then S p else p) l).

(** [erase] of the element at the position of the key, when it is there. *)
Definition erase_key (l : list (K * V)) (k : K) : option (list (K * V)) :=
  '(p, found) ← locate l k;
  Some (if (found : bool) then take p l ++ drop (S p) l else l).

(** [erase(begin(), lower_bound(k))]. *)
Definition erase_below (l : list (K * V)) (k : K) : option (list (K * V)) :=
  p ← lower_bound_pos l k; Some (drop p l).

(** The position of the first element behind the key, and [erase(begin(), upper_bound(k))]. *)
Definition upper_bound_pos (l : list (K * V)) (k : K) : option nat :=
  '(p, found) ← locate l k; Some (if (found : bool) then S p else p).

Definition erase_through (l : list (K * V)) (k : K) : option (list (K * V)) :=
  p ← upper_bound_pos l k; Some (drop p l).

(** An element before the key shifts the position. *)
Lemma locate_cons e l k :
  comp e.1 k = true -> locate (e :: l) k = '(p, found) ← locate l k; Some (S p, found).
Proof.
  intros H. unfold locate. cbn [elements_before]. rewrite H. cbn [drop].
  destruct (drop _ l) as [|e' r]; [done|]. by destruct (check _).
Qed.

End Container.

(** ** Containers ordered by integers

    A container whose keys are images of increasing integers, under an image that the comparison
    respects, behaves as the container of these integers. *)

Section Image.
Context {K V : Type} (comp : K -> K -> bool) (image : Z -> K).

Definition imaged (l : list (Z * V)) : list (K * V) := (fun x => (image x.1, x.2)) <$> l.

Definition increasing (l : list (Z * V)) : Prop :=
  forall i j x y, (i < j)%nat -> l !! i = Some x -> l !! j = Some y -> x.1 < y.1.

(** The comparison is that of the integers between the elements and the key, both ways. *)
Definition ordered_with (l : list (Z * V)) (k : Z) : Prop :=
  forall x, x ∈ l -> comp (image x.1) (image k) = (x.1 <? k) /\ comp (image k) (image x.1) = (k <? x.1).

Definition below (k : Z) (l : list (Z * V)) : list (Z * V) := List.filter (fun x => x.1 <? k) l.
Definition from (k : Z) (l : list (Z * V)) : list (Z * V) := List.filter (fun x => k <=? x.1) l.
Definition above (k : Z) (l : list (Z * V)) : list (Z * V) := List.filter (fun x => k <? x.1) l.
Definition value_of (k : Z) (l : list (Z * V)) : option V := snd <$> List.find (fun x => x.1 =? k) l.

Lemma increasing_cons x l : increasing (x :: l) <-> increasing l /\ forall y, y ∈ l -> x.1 < y.1.
Proof.
  split.
  - intros H. split; [intros i j a b Hij Ha Hb; apply (H (S i) (S j)); [lia|done|done]|].
    intros y [j Hj]%list_elem_of_lookup_1. apply (H 0%nat (S j)); [lia|done|done].
  - intros [H Hx] [|i] [|j] a b Hij Ha Hb; cbn in Ha, Hb; [lia| |lia|].
    + injection Ha as <-. apply Hx. by eapply list_elem_of_lookup_2.
    + apply (H i j); [lia|done|done].
Qed.

Lemma ordered_cons x l k :
  ordered_with (x :: l) k ->
  (comp (image x.1) (image k) = (x.1 <? k) /\ comp (image k) (image x.1) = (k <? x.1)) /\ ordered_with l k.
Proof. intros H. split; [apply H; constructor|]. intros y Hy. apply H. by constructor. Qed.

Lemma filter_none {A} (f : A -> bool) l : (forall x, x ∈ l -> f x = false) -> List.filter f l = [].
Proof.
  induction l as [|x l IH]; intros H; [done|]. cbn. rewrite H by constructor. apply IH. intros y Hy. apply H. by constructor.
Qed.

Lemma filter_every {A} (f : A -> bool) l : (forall x, x ∈ l -> f x = true) -> List.filter f l = l.
Proof.
  induction l as [|x l IH]; intros H; [done|]. cbn. rewrite H by constructor. f_equal. apply IH.
  intros y Hy. apply H. by constructor.
Qed.

(** All of a container at or behind an integer. *)
Lemma sides_all k l : (forall y, y ∈ l -> k < y.1) -> below k l = [] /\ from k l = l /\ above k l = l /\ value_of k l = None.
Proof.
  intros H. split; [|split; [|split]].
  - apply filter_none. intros x Hx. apply Z.ltb_ge. specialize (H x Hx). lia.
  - apply filter_every. intros x Hx. apply Z.leb_le. specialize (H x Hx). lia.
  - apply filter_every. intros x Hx. apply Z.ltb_lt. specialize (H x Hx). lia.
  - unfold value_of. destruct (List.find _ l) as [x|] eqn:E; [|done].
    apply find_some in E as [Hin E]. apply Z.eqb_eq in E. apply list_elem_of_In in Hin. specialize (H x Hin). lia.
Qed.

Lemma locate_imaged l k :
  increasing l -> ordered_with l k ->
  locate comp (imaged l) (image k) =
    Some (length (below k l), match value_of k l with Some _ => true | None => false end).
Proof.
  intros Hi. induction l as [|x l IH]; intros Ho; [done|].
  apply increasing_cons in Hi as [Hi Hx]. apply ordered_cons in Ho as [[H1 H2] Ho].
  specialize (IH Hi Ho). unfold below, value_of. cbn [List.filter List.find].
  fold (below k l) (value_of k l).
  change (imaged (x :: l)) with ((image x.1, x.2) :: imaged l).
  destruct (Z.ltb_spec x.1 k) as [Hlt|Hge].
  - rewrite locate_cons, IH by exact H1. rewrite (proj2 (Z.eqb_neq x.1 k)) by lia. done.
  - assert (Hl : forall y, y ∈ l -> k < y.1) by (intros y Hy; specialize (Hx y Hy); lia).
    destruct (sides_all k l Hl) as (E1 & _ & _ & E2). unfold locate. cbn [elements_before fst].
    rewrite H1. cbn [drop fst]. rewrite E1, H2. replace (forallb _ _) with true.
    + cbn. destruct (Z.eqb_spec x.1 k) as [E|E]; cbn; [by rewrite (proj2 (Z.ltb_ge _ _)) by lia|].
      unfold value_of in E2. destruct (List.find _ l); [done|]. by rewrite (proj2 (Z.ltb_lt _ _)) by lia.
    + symmetry. apply forallb_forall. intros e He. apply list_elem_of_In in He.
      apply list_elem_of_fmap in He as (y & -> & Hy). cbn. rewrite (proj2 (Ho y Hy)).
      apply Z.ltb_lt. by apply Hl.
Qed.

(** The element at the integer, if there is one. *)
Definition at_key (k : Z) (l : list (Z * V)) : list (Z * V) :=
  match value_of k l with Some v => [(k, v)] | None => [] end.

(** An increasing list is cut at every integer. *)
Lemma split_at k l : increasing l -> l = below k l ++ at_key k l ++ above k l /\ from k l = at_key k l ++ above k l.
Proof.
  unfold at_key. induction l as [|x l IH]; intros Hi; [done|]. apply increasing_cons in Hi as [Hi Hx].
  specialize (IH Hi). unfold below, from, above, value_of in *. cbn [List.filter List.find].
  destruct (Z.ltb_spec x.1 k) as [Hlt|Hge].
  - rewrite (proj2 (Z.leb_gt k x.1)), (proj2 (Z.ltb_ge k x.1)), (proj2 (Z.eqb_neq x.1 k)) by lia.
    destruct IH as [IH1 IH2]. split; [cbn; by rewrite <- IH1|done].
  - assert (Hl : forall y, y ∈ l -> k < y.1) by (intros y Hy; specialize (Hx y Hy); lia).
    destruct (sides_all k l Hl) as (E1 & E2 & E3 & E4). unfold below, from, above, value_of in *.
    rewrite E1, E2, E3, (proj2 (Z.leb_le k x.1)) by lia. destruct (Z.eqb_spec x.1 k) as [E|E].
    + rewrite (proj2 (Z.ltb_ge k x.1)) by lia. rewrite <- E. by destruct x.
    + rewrite (proj2 (Z.ltb_lt k x.1)) by lia. destruct (List.find _ l); [done|]. done.
Qed.

Lemma imaged_app a b : imaged (a ++ b) = imaged a ++ imaged b.
Proof. apply fmap_app. Qed.

Lemma cut_below k l : increasing l -> take (length (below k l)) l = below k l /\ drop (length (below k l)) l = from k l.
Proof.
  intros Hi. destruct (split_at k l Hi) as [E ->]. split.
  - rewrite E at 2. by rewrite take_app_length.
  - rewrite E at 2. by rewrite drop_app_length.
Qed.

Lemma take_imaged n l : take n (imaged l) = imaged (take n l).
Proof. unfold imaged. by rewrite fmap_take. Qed.

Lemma drop_imaged n l : drop n (imaged l) = imaged (drop n l).
Proof. unfold imaged. by rewrite fmap_drop. Qed.

Lemma erase_below_imaged l k :
  increasing l -> ordered_with l k -> erase_below comp (imaged l) (image k) = Some (imaged (from k l)).
Proof.
  intros Hi Ho. unfold erase_below, lower_bound_pos. rewrite locate_imaged by done. cbn.
  by rewrite drop_imaged, (proj2 (cut_below k l Hi)).
Qed.

Lemma lower_bound_imaged l k :
  increasing l -> ordered_with l k -> lower_bound_pos comp (imaged l) (image k) = Some (length (below k l)).
Proof. intros Hi Ho. unfold lower_bound_pos. by rewrite locate_imaged. Qed.

Lemma erase_through_imaged l k :
  increasing l -> ordered_with l k -> erase_through comp (imaged l) (image k) = Some (imaged (above k l)).
Proof.
  intros Hi Ho. unfold erase_through, upper_bound_pos. rewrite locate_imaged by done. cbn.
  rewrite drop_imaged. do 2 f_equal. destruct (split_at k l Hi) as [E Ef]. unfold at_key in *.
  destruct (value_of k l) as [v|].
  - rewrite E at 2. rewrite <- Nat.add_1_r, <- drop_drop, drop_app_length. done.
  - by rewrite (proj2 (cut_below k l Hi)), Ef.
Qed.

Lemma find_value_imaged l k :
  increasing l -> ordered_with l k -> find_value comp (imaged l) (image k) = Some (value_of k l).
Proof.
  intros Hi Ho. unfold find_value. rewrite locate_imaged by done. cbn.
  destruct (value_of k l) as [v|] eqn:E; [|done]. do 2 f_equal.
  destruct (split_at k l Hi) as [El _]. unfold at_key in El. rewrite E in El.
  unfold imaged. rewrite list_lookup_fmap. cbn [app] in El. rewrite El at 2. by rewrite list_lookup_middle.
Qed.

Lemma insert_new_imaged l k v :
  increasing l -> ordered_with l k ->
  insert_new comp (imaged l) (image k) v = Some (imaged (below k l ++ (k, default v (value_of k l)) :: above k l)).
Proof.
  intros Hi Ho. unfold insert_new. rewrite locate_imaged by done. cbn. f_equal.
  rewrite take_imaged, drop_imaged. destruct (cut_below k l Hi) as [-> ->].
  destruct (split_at k l Hi) as [E ->]. unfold at_key in *. destruct (value_of k l) as [v'|].
  - cbn in *. by rewrite E at 1.
  - cbn [default app]. rewrite imaged_app. done.
Qed.

Lemma assign_imaged l k v :
  increasing l -> ordered_with l k ->
  assign comp (imaged l) (image k) v = Some (imaged (below k l ++ (k, v) :: above k l)).
Proof.
  intros Hi Ho. unfold assign. rewrite locate_imaged by done. cbn. f_equal.
  rewrite take_imaged, drop_imaged, (proj1 (cut_below k l Hi)), imaged_app. cbn. do 3 f_equal.
  destruct (split_at k l Hi) as [E Ef]. unfold at_key in *. destruct (value_of k l) as [v'|].
  - rewrite E at 2. rewrite <- Nat.add_1_r, <- drop_drop, drop_app_length. done.
  - by rewrite (proj2 (cut_below k l Hi)), Ef.
Qed.

Lemma erase_key_imaged l k :
  increasing l -> ordered_with l k ->
  erase_key comp (imaged l) (image k) = Some (imaged (below k l ++ above k l)).
Proof.
  intros Hi Ho. unfold erase_key. rewrite locate_imaged by done. cbn. f_equal.
  destruct (split_at k l Hi) as [E Ef]. unfold at_key in *. destruct (value_of k l) as [v'|].
  - rewrite take_imaged, drop_imaged, (proj1 (cut_below k l Hi)), imaged_app. do 2 f_equal.
    rewrite E at 2. rewrite <- Nat.add_1_r, <- drop_drop, drop_app_length. done.
  - cbn in E. by rewrite E at 1.
Qed.

End Image.

(** ** Increasing lists *)

Lemma increasing_filter {V} (f : Z * V -> bool) l : increasing l -> increasing (List.filter f l).
Proof.
  induction l as [|x l IH]; intros Hi; [done|]. apply increasing_cons in Hi as [Hi Hx]. cbn.
  destruct (f x); [|by apply IH]. apply increasing_cons. split; [by apply IH|].
  intros y Hy. apply Hx. apply list_elem_of_In. apply list_elem_of_In in Hy. by apply filter_In in Hy as [].
Qed.

Lemma increasing_app {V} (a b : list (Z * V)) :
  increasing a -> increasing b -> (forall x y, x ∈ a -> y ∈ b -> x.1 < y.1) -> increasing (a ++ b).
Proof.
  intros Ha Hb Hab. induction a as [|x a IH]; [done|]. apply increasing_cons in Ha as [Ha Hx]. cbn.
  apply increasing_cons. split.
  - apply IH; [done|]. intros y z Hy Hz. apply Hab; [by constructor|done].
  - intros y [Hy|Hy]%elem_of_app; [by apply Hx|]. apply Hab; [constructor|done].
Qed.

Lemma elem_of_filter_bool {A} (f : A -> bool) x l : x ∈ List.filter f l <-> x ∈ l /\ f x = true.
Proof. rewrite !list_elem_of_In. apply filter_In. Qed.

Lemma elem_of_below {V} k (x : Z * V) l : x ∈ below k l <-> x ∈ l /\ x.1 < k.
Proof. unfold below. by rewrite elem_of_filter_bool, Z.ltb_lt. Qed.

Lemma elem_of_from {V} k (x : Z * V) l : x ∈ from k l <-> x ∈ l /\ k <= x.1.
Proof. unfold from. by rewrite elem_of_filter_bool, Z.leb_le. Qed.

Lemma elem_of_above {V} k (x : Z * V) l : x ∈ above k l <-> x ∈ l /\ k < x.1.
Proof. unfold above. by rewrite elem_of_filter_bool, Z.ltb_lt. Qed.

Lemma increasing_below {V} k (l : list (Z * V)) : increasing l -> increasing (below k l).
Proof. apply increasing_filter. Qed.

Lemma increasing_from {V} k (l : list (Z * V)) : increasing l -> increasing (from k l).
Proof. apply increasing_filter. Qed.

Lemma increasing_above {V} k (l : list (Z * V)) : increasing l -> increasing (above k l).
Proof. apply increasing_filter. Qed.

Lemma increasing_nil {V} : increasing (@nil (Z * V)).
Proof. by intros i j x y _ Hi. Qed.

Lemma increasing_put {V} k (v : V) l : increasing l -> increasing (below k l ++ (k, v) :: above k l).
Proof.
  intros Hi. apply increasing_app; [by apply increasing_below| |].
  - apply increasing_cons. split; [by apply increasing_above|]. intros y Hy%elem_of_above. apply Hy.
  - intros x y Hx%elem_of_below [->|Hy%elem_of_above]%elem_of_cons; cbn; lia.
Qed.

Lemma increasing_cut {V} k (l : list (Z * V)) : increasing l -> increasing (below k l ++ above k l).
Proof.
  intros Hi. apply increasing_app; [by apply increasing_below|by apply increasing_above|].
  intros x y Hx%elem_of_below Hy%elem_of_above. lia.
Qed.

(** Keys behind all of the list are put at its end. *)
Lemma put_last {V} k (v : V) l : (forall x, x ∈ l -> x.1 < k) -> below k l ++ (k, v) :: above k l = l ++ [(k, v)].
Proof.
  intros H. unfold below, above. rewrite filter_every, (filter_none _ l); [done| |].
  - intros x Hx. specialize (H x Hx). apply Z.ltb_ge. lia.
  - intros x Hx. specialize (H x Hx). apply Z.ltb_lt. lia.
Qed.

Lemma value_of_None {V} k (l : list (Z * V)) : value_of k l = None <-> forall x, x ∈ l -> x.1 <> k.
Proof.
  unfold value_of. split.
  - intros H x Hx E. destruct (List.find _ l) eqn:Ef; [done|]. apply list_elem_of_In in Hx.
    eapply find_none in Ef; [|exact Hx]. by rewrite E, Z.eqb_refl in Ef.
  - intros H. destruct (List.find _ l) as [x|] eqn:Ef; [|done]. apply find_some in Ef as [Hin E].
    apply Z.eqb_eq in E. apply list_elem_of_In in Hin. by specialize (H x Hin).
Qed.

Lemma value_of_Some {V} k v (l : list (Z * V)) : value_of k l = Some v -> (k, v) ∈ l.
Proof.
  unfold value_of. destruct (List.find _ l) as [x|] eqn:Ef; [|done]. intros [= <-].
  apply find_some in Ef as [Hin E]. apply Z.eqb_eq in E. rewrite <- E. apply list_elem_of_In. by destruct x.
Qed.

Lemma value_of_elem {V} k v (l : list (Z * V)) : increasing l -> (k, v) ∈ l -> value_of k l = Some v.
Proof.
  intros Hi. induction l as [|x l IH]; intros Hin; [by apply elem_of_nil in Hin|].
  apply increasing_cons in Hi as [Hi Hx]. unfold value_of. cbn [List.find]. fold (value_of k l).
  apply elem_of_cons in Hin as [<-|Hin]; [cbn; by rewrite Z.eqb_refl|].
  specialize (Hx _ Hin). cbn in Hx. rewrite (proj2 (Z.eqb_neq _ _)) by lia. by apply IH.
Qed.

#[export] Hint Resolve increasing_below increasing_from increasing_above increasing_put increasing_cut
  increasing_nil : increasing.
