(* ===== verification/NackModule.v ===== *)
(** * Asking for lost packets

    Model of video/nack_module.h/.cc and of the histogram it keeps, video/histogram.h/.cc.  The lists
    of the module are a [std::map] and two [std::set] ordered by a comparison of wrapping sequence
    numbers, modelled in [OrderedSet]: an operation on numbers that this comparison does not order is
    undefined, hence [None].  The clock is a parameter: [clock_ n] is what the [n]-th call of
    [TimeInMilliseconds] returns.  The senders are the list of calls made. *)

From Stdlib Require Import SpecFloat.
From S2P Require Import Prelude SeqRing SeqMap OrderedSet.

(** ** The histogram *)

Module Histogram.

Record t := Make { values_ : list Z; values_capacity : Z; buckets_ : list Z; index_ : Z }.

(** [reserve] allocates exactly what is asked for. *)
Definition construct (num_buckets max_num_values : Z) : option t :=
  check (0 <? num_buckets) ;; check (0 <? max_num_values) ;;
  Some (Make [] max_num_values (replicate (Z.to_nat num_buckets) 0) 0).

(** [buckets_[i]], and the update of it. *)
Definition bucket (buckets : list Z) (i : Z) : option Z := buckets !! Z.to_nat i.

Definition bump (buckets : list Z) (i d : Z) : option (list Z) :=
  v ← bucket buckets i; Some (<[Z.to_nat i := u64 (v + d)]> buckets).

Definition Add (this : t) (value : Z) : option t :=
  let value := Z.min value (len (buckets_ this) - 1) in
  '(buckets, values) ←
    (if index_ this <? len (values_ this) then
       old ← values_ this !! Z.to_nat (index_ this);
       buckets ← bump (buckets_ this) old (-1);
       check (old <? len buckets) ;;
       Some (buckets, <[Z.to_nat (index_ this) := value]> (values_ this))
     else Some (buckets_ this, values_ this ++ [value]));
  buckets ← bump buckets value 1;
  Some (Make values (values_capacity this) buckets ((index_ this + 1) mod values_capacity this)).

(** Single precision. *)
Definition float32 (n : Z) : spec_float := binary_normalize 24 128 n 0 false.
Definition half : spec_float := binary_normalize 24 128 1 (-1) false.

Fixpoint inverse_loop (rest : list Z) (size : Z) (probability accumulated : spec_float) (bucket : Z) : Z :=
  match rest with
  | b :: rest' =>
      if SFltb accumulated probability then
        inverse_loop rest' size probability
          (SFadd 24 128 accumulated (SFdiv 24 128 (float32 b) (float32 size))) (bucket + 1)
      else bucket
  | [] => bucket
  end.

Definition InverseCdf (this : t) (probability : spec_float) : option Z :=
  check (SFleb (float32 0) probability) ;; check (SFleb probability (float32 1)) ;;
  check (0 <? len (values_ this)) ;;
  Some (inverse_loop (buckets_ this) (len (values_ this)) probability (float32 0) 0).

Definition NumValues (this : t) : Z := len (values_ this).

End Histogram.

(** ** The module *)

Module NackModule.
Import RtpSequenceNumberMap.

Definition kMaxPacketAge : Z := 10000.
Definition kMaxNackPackets : Z := 1000.
Definition kDefaultRttMs : Z := 100.
Definition kMaxNackRetries : Z := 10.
Definition kProcessFrequency : Z := 50.
Definition kProcessIntervalMs : Z := 1000 / kProcessFrequency.
Definition kMaxReorderedPackets : Z := 128.
Definition kNumReorderingBuckets : Z := 10.
Definition kDefaultSendNackDelayMs : Z := 0.

(** [delay_ms] is the number in the field trial. *)
Definition GetSendNackDelay (delay_ms : Z) : Z :=
  if (0 <? delay_ms) && (delay_ms <=? 20) then delay_ms else kDefaultSendNackDelayMs.

Record NackInfo := Info {
  seq_num : Z;
  send_at_seq_num : Z;
  created_at_time : Z;
  sent_at_time : Z;
  retries : Z
}.

(** [NackInfo(seq_num, send_at_seq_num, created_at_time)]. *)
Definition new_info (seq send_at created : Z) : NackInfo := Info seq send_at created (-1) 0.

Definition nacked (i : NackInfo) (now : Z) : NackInfo :=
  Info (seq_num i) (send_at_seq_num i) (created_at_time i) now (retries i + 1).

Record t := Make {
  nack_list_ : list (Z * NackInfo);
  keyframe_list_ : list (Z * unit);
  recovered_list_ : list (Z * unit);
  reordering_histogram_ : Histogram.t;
  initialized_ : bool;
  rtt_ms_ : Z;
  newest_seq_num_ : Z;
  next_process_time_ms_ : Z;
  send_nack_delay_ms_ : Z
}.

Definition set_nack_list (l : list (Z * NackInfo)) (m : t) : t :=
  Make l (keyframe_list_ m) (recovered_list_ m) (reordering_histogram_ m) (initialized_ m) (rtt_ms_ m)
    (newest_seq_num_ m) (next_process_time_ms_ m) (send_nack_delay_ms_ m).
Definition set_keyframe_list (l : list (Z * unit)) (m : t) : t :=
  Make (nack_list_ m) l (recovered_list_ m) (reordering_histogram_ m) (initialized_ m) (rtt_ms_ m)
    (newest_seq_num_ m) (next_process_time_ms_ m) (send_nack_delay_ms_ m).
Definition set_recovered_list (l : list (Z * unit)) (m : t) : t :=
  Make (nack_list_ m) (keyframe_list_ m) l (reordering_histogram_ m) (initialized_ m) (rtt_ms_ m)
    (newest_seq_num_ m) (next_process_time_ms_ m) (send_nack_delay_ms_ m).
Definition set_histogram (h : Histogram.t) (m : t) : t :=
  Make (nack_list_ m) (keyframe_list_ m) (recovered_list_ m) h (initialized_ m) (rtt_ms_ m)
    (newest_seq_num_ m) (next_process_time_ms_ m) (send_nack_delay_ms_ m).
Definition set_initialized (b : bool) (m : t) : t :=
  Make (nack_list_ m) (keyframe_list_ m) (recovered_list_ m) (reordering_histogram_ m) b (rtt_ms_ m)
    (newest_seq_num_ m) (next_process_time_ms_ m) (send_nack_delay_ms_ m).
Definition set_rtt (v : Z) (m : t) : t :=
  Make (nack_list_ m) (keyframe_list_ m) (recovered_list_ m) (reordering_histogram_ m) (initialized_ m) v
    (newest_seq_num_ m) (next_process_time_ms_ m) (send_nack_delay_ms_ m).
Definition set_newest (v : Z) (m : t) : t :=
  Make (nack_list_ m) (keyframe_list_ m) (recovered_list_ m) (reordering_histogram_ m) (initialized_ m)
    (rtt_ms_ m) v (next_process_time_ms_ m) (send_nack_delay_ms_ m).
Definition set_next_process_time (v : Z) (m : t) : t :=
  Make (nack_list_ m) (keyframe_list_ m) (recovered_list_ m) (reordering_histogram_ m) (initialized_ m)
    (rtt_ms_ m) (newest_seq_num_ m) v (send_nack_delay_ms_ m).

(** Calls of the senders. *)
Inductive event :=
  | SendNack (sequence_numbers : list Z) (buffering_allowed : bool)
  | RequestKeyFrame.

(** The module, the number of readings of the clock, the calls made. *)
Record world := World { module : t; reads : nat; events : list event }.

Definition construct (delay_ms : Z) : option t :=
  h ← Histogram.construct kNumReorderingBuckets kMaxReorderedPackets;
  Some (Make [] [] [] h false kDefaultRttMs 0 (-1) (GetSendNackDelay delay_ms)).

(** [DescendingSeqNumComp<uint16_t>], which contains no check. *)
Definition comp (a b : Z) : bool := default false (SequenceNumberUtil.DescendingSeqNumComp 16 0 a b).

(** Computations on the world; a member is read or assigned through them. *)
Abbreviation N := (ST world).

Definition member {A} (f : t -> A) : N A := fun w => Some (f (module w), w).
Definition modify (f : t -> t) : N unit := fun w => Some (tt, World (f (module w)) (reads w) (events w)).
Definition emit (e : event) : N unit := fun w => Some (tt, World (module w) (reads w) (events w ++ [e])).
(** A result that may be undefined. *)
Definition lift {A} (o : option A) : N A := fun w => a ← o; Some (a, w).

Section Operations.
Context (clock_ : nat -> Z).

Definition TimeInMilliseconds : N Z := fun w =>
  Some (clock_ (reads w), World (module w) (S (reads w)) (events w)).

(** Erasing the elements before a number. *)
Definition erase_nacks (seq : Z) : N unit :=
  l ← member nack_list_; l' ← lift (erase_below comp l seq); modify (set_nack_list l').
Definition erase_keyframes (seq : Z) : N unit :=
  l ← member keyframe_list_; l' ← lift (erase_below comp l seq); modify (set_keyframe_list l').
Definition erase_recovered (seq : Z) : N unit :=
  l ← member recovered_list_; l' ← lift (erase_below comp l seq); modify (set_recovered_list l').

Definition insert_keyframe (seq : Z) : N unit :=
  l ← member keyframe_list_; l' ← lift (insert_new comp l seq tt); modify (set_keyframe_list l').
Definition insert_recovered (seq : Z) : N unit :=
  l ← member recovered_list_; l' ← lift (insert_new comp l seq tt); modify (set_recovered_list l').

Definition UpdateReorderingStatistics (seq : Z) : N unit :=
  newest ← member newest_seq_num_;
  dcheck (AheadOf newest seq) ;;
  h ← member reordering_histogram_;
  diff ← lift (ModOps.ReverseDiff 16 0 newest seq);
  h' ← lift (Histogram.Add h diff);
  modify (set_histogram h').

Definition WaitNumberOfPackets (probability : spec_float) : N Z :=
  h ← member reordering_histogram_;
  if Histogram.NumValues h =? 0 then mret 0 else lift (Histogram.InverseCdf h probability).

(** The loop of [RemovePacketsUntilKeyFrame] over the keyframes [keys]. *)
Fixpoint remove_until_keyframe (keys : list (Z * unit)) (nacks : list (Z * NackInfo))
    : option (bool * list (Z * unit) * list (Z * NackInfo)) :=
  match keys with
  | [] => Some (false, [], nacks)
  | k :: rest =>
      p ← lower_bound_pos comp nacks k.1;
      if (p =? 0)%nat then remove_until_keyframe rest nacks
      else Some (true, k :: rest, drop p nacks)
  end.

Definition RemovePacketsUntilKeyFrame : N bool :=
  keys ← member keyframe_list_;
  nacks ← member nack_list_;
  '(r, keys', nacks') ← lift (remove_until_keyframe keys nacks);
  modify (set_keyframe_list keys') ;; modify (set_nack_list nacks') ;; mret r.

Definition too_many (num_new_nacks : Z) : N bool :=
  l ← member nack_list_; mret (kMaxNackPackets <? len l + num_new_nacks).

(** The [while] around it: every round that goes on removes a packet. *)
Fixpoint make_space (fuel : nat) (num_new_nacks : Z) : N unit :=
  match fuel with
  | O => abort
  | S fuel' =>
      removed ← RemovePacketsUntilKeyFrame;
      if (removed : bool) then
        again ← too_many num_new_nacks;
        if (again : bool) then make_space fuel' num_new_nacks else mret tt
      else mret tt
  end.

(** The loop that adds the numbers from [seq] on; [n] is their count. *)
Fixpoint add_nacks (n : nat) (seq : Z) : N unit :=
  match n with
  | O => mret tt
  | S n' =>
      recovered ← member recovered_list_;
      is_recovered ← lift (find_value comp recovered seq);
      (if bool_decide (is_recovered = None) then
         wait ← WaitNumberOfPackets Histogram.half;
         now ← TimeInMilliseconds;
         nacks ← member nack_list_;
         old ← lift (find_value comp nacks seq);
         dcheck (match old with None => true | Some _ => false end) ;;
         nacks' ← lift (assign comp nacks seq (new_info seq (u16 (seq + wait)) now));
         modify (set_nack_list nacks')
       else mret tt) ;;
      add_nacks n' (u16 (seq + 1))
  end.

(** Room for the new packets; [true] when there is none. *)
Definition no_space (num_new_nacks : Z) : N bool :=
  full ← too_many num_new_nacks;
  if (full : bool) then
    l ← member nack_list_; make_space (S (length l)) num_new_nacks ;; too_many num_new_nacks
  else mret false.

Definition AddPacketsToNack (seq_num_start seq_num_end : Z) : N unit :=
  erase_nacks (u16 (seq_num_end - kMaxPacketAge)) ;;
  num_new_nacks ← lift (ModOps.ForwardDiff 16 0 seq_num_start seq_num_end);
  hopeless ← no_space num_new_nacks;
  if (hopeless : bool) then modify (set_nack_list []) ;; emit RequestKeyFrame
  else add_nacks (Z.to_nat num_new_nacks) seq_num_start.

Inductive NackFilterOptions := kSeqNumOnly | kTimeOnly | kSeqNumAndTime.

(** One round of the loop of [GetNackBatch]: is the packet asked for? *)
Definition due (options : NackFilterOptions) (now rtt delay newest : Z) (i : NackInfo) : bool :=
  let consider_seq_num := match options with kTimeOnly => false | _ => true end in
  let consider_timestamp := match options with kSeqNumOnly => false | _ => true end in
  let delay_timed_out := delay <=? now - created_at_time i in
  let nack_on_rtt_passed := rtt <=? now - sent_at_time i in
  let nack_on_seq_num_passed := (sent_at_time i =? -1) && AheadOrAt newest (send_at_seq_num i) in
  delay_timed_out &&
    ((consider_seq_num && nack_on_seq_num_passed) || (consider_timestamp && nack_on_rtt_passed)).

(** The loop: the packets asked for and the list that is left. *)
Fixpoint batch_loop (options : NackFilterOptions) (now rtt delay newest : Z) (l : list (Z * NackInfo))
    : list Z * list (Z * NackInfo) :=
  match l with
  | [] => ([], [])
  | (k, i) :: rest =>
      let '(batch, rest') := batch_loop options now rtt delay newest rest in
      if due options now rtt delay newest i then
        let i' := nacked i now in
        (seq_num i :: batch, if kMaxNackRetries <=? retries i' then rest' else (k, i') :: rest')
      else (batch, (k, i) :: rest')
  end.

Definition GetNackBatch (options : NackFilterOptions) : N (list Z) :=
  now ← TimeInMilliseconds;
  rtt ← member rtt_ms_; delay ← member send_nack_delay_ms_; newest ← member newest_seq_num_;
  l ← member nack_list_;
  let '(batch, l') := batch_loop options now rtt delay newest l in
  modify (set_nack_list l') ;; mret batch.

(** The branches of [OnReceivedPacket]: a packet behind the newest, and one ahead of it. *)
Definition on_old_packet (seq : Z) : N Z :=
  let is_retransmitted := true in
  l ← member nack_list_;
  found ← lift (find_value comp l seq);
  nacks_sent ← match found with
               | Some i => l' ← lift (erase_key comp l seq); modify (set_nack_list l') ;; mret (retries i)
               | None => mret 0
               end;
  (if negb is_retransmitted then UpdateReorderingStatistics seq else mret tt) ;;
  mret nacks_sent.

Definition on_new_packet (seq : Z) (is_keyframe is_recovered : bool) : N Z :=
  (if is_keyframe then insert_keyframe seq else mret tt) ;;
  erase_keyframes (u16 (seq - kMaxPacketAge)) ;;
  if is_recovered then
    insert_recovered seq ;;
    erase_recovered (u16 (seq - kMaxPacketAge)) ;;
    mret 0
  else
    newest ← member newest_seq_num_;
    AddPacketsToNack (u16 (newest + 1)) seq ;;
    modify (set_newest seq) ;;
    batch ← GetNackBatch kSeqNumOnly;
    (if bool_decide (batch = []) then mret tt else emit (SendNack batch true)) ;;
    mret 0.

Definition OnReceivedPacket (seq : Z) (is_keyframe is_recovered : bool) : N Z :=
  initialized ← member initialized_;
  newest ← member newest_seq_num_;
  if negb initialized then
    modify (set_newest seq) ;;
    (if is_keyframe then insert_keyframe seq else mret tt) ;;
    modify (set_initialized true) ;; mret 0
  else if seq =? newest then mret 0
  else if AheadOf newest seq then on_old_packet seq
  else on_new_packet seq is_keyframe is_recovered.

Definition ClearUpTo (seq : Z) : N unit :=
  erase_nacks seq ;; erase_keyframes seq ;; erase_recovered seq.

Definition UpdateRtt (rtt_ms : Z) : N unit := modify (set_rtt rtt_ms).

Definition Clear : N unit :=
  modify (set_nack_list []) ;; modify (set_keyframe_list []) ;; modify (set_recovered_list []).

Definition TimeUntilNextProcess : N Z :=
  next ← member next_process_time_ms_; now ← TimeInMilliseconds; mret (Z.max (next - now) 0).

Definition Process : N unit :=
  batch ← GetNackBatch kTimeOnly;
  (if bool_decide (batch = []) then mret tt else emit (SendNack batch false)) ;;
  now ← TimeInMilliseconds;
  next ← member next_process_time_ms_;
  modify (set_next_process_time
    (if next =? -1 then now + kProcessIntervalMs
     else next + kProcessIntervalMs + Z.quot (now - next) kProcessIntervalMs * kProcessIntervalMs)).

End Operations.
End NackModule.
