(* ===== verification/NackSpec.v ===== *)
(** * What the NACK module promises

    An abstract module over integers instead of wrapping sequence numbers, with lists in the order of
    integers and no clock of its own; the module of [NackModule] refines it as long as the packets stay
    in a window in which the comparison of wrapping numbers is an order. *)

From S2P Require Import Prelude SeqNum SeqRing SeqMap OrderedSet NackModule.
Import RtpSequenceNumberMap NackModule.

(** ** The abstract module *)

(** Packets asked for, by their unwrapped numbers. *)
Inductive ask := Ask (numbers : list Z) (buffering_allowed : bool) | AskKeyFrame.

Record spec := Spec {
  newest : option Z;              (* the newest packet received *)
  nacks : list (Z * NackInfo);    (* packets to ask for *)
  keys : list (Z * unit);         (* recent keyframes *)
  recs : list (Z * unit);         (* packets recovered in front of the newest *)
  rtt : Z;
  next_time : Z;
  delay : Z;
  readings : nat;
  log : list ask;
  received : list Z               (* every packet that arrived and was not ahead of the newest then *)
}.

(** Assignments. *)
Definition with_newest v a := Spec v (nacks a) (keys a) (recs a) (rtt a) (next_time a) (delay a) (readings a)
  (log a) (received a).
Definition with_nacks l a := Spec (newest a) l (keys a) (recs a) (rtt a) (next_time a) (delay a) (readings a)
  (log a) (received a).
Definition with_keys l a := Spec (newest a) (nacks a) l (recs a) (rtt a) (next_time a) (delay a) (readings a)
  (log a) (received a).
Definition with_recs l a := Spec (newest a) (nacks a) (keys a) l (rtt a) (next_time a) (delay a) (readings a)
  (log a) (received a).
Definition with_rtt v a := Spec (newest a) (nacks a) (keys a) (recs a) v (next_time a) (delay a) (readings a)
  (log a) (received a).
Definition with_next v a := Spec (newest a) (nacks a) (keys a) (recs a) (rtt a) v (delay a) (readings a)
  (log a) (received a).
Definition with_reading n a := Spec (newest a) (nacks a) (keys a) (recs a) (rtt a) (next_time a) (delay a)
  (readings a + n) (log a) (received a).
Definition with_asks l a := Spec (newest a) (nacks a) (keys a) (recs a) (rtt a) (next_time a) (delay a)
  (readings a) l (received a).
Definition with_received s a := Spec (newest a) (nacks a) (keys a) (recs a) (rtt a) (next_time a) (delay a)
  (readings a) (log a) (s :: received a).

Section Abstract.
Context (clock_ : nat -> Z).

Definition put {V} (k : Z) (v : V) (l : list (Z * V)) : list (Z * V) :=
  below k l ++ (k, default v (value_of k l)) :: above k l.

(** Drop the packets before the first keyframe that makes room, keyframe by keyframe. *)
Fixpoint trim (keys : list (Z * unit)) (nacks : list (Z * NackInfo)) (new : Z)
    : list (Z * unit) * list (Z * NackInfo) :=
  match keys with
  | [] => ([], nacks)
  | k :: rest =>
      let nacks' := from k.1 nacks in
      if len nacks' + new <=? kMaxNackPackets then (k :: rest, nacks') else trim rest nacks' new
  end.

(** The numbers [k], ..., [k + n - 1] that were not recovered. *)
Fixpoint fresh (n : nat) (k : Z) (r : nat) (recs : list (Z * unit)) : list (Z * NackInfo) :=
  match n with
  | O => []
  | S n' =>
      match value_of k recs with
      | Some _ => fresh n' (k + 1) r recs
      | None => (k, new_info (seq_of k) (seq_of k) (clock_ r)) :: fresh n' (k + 1) (S r) recs
      end
  end.

(** A packet is due when it waited for the delay and was not asked for yet, or not in the last
    round trip time. *)
Definition is_due (options : NackFilterOptions) (now rtt delay : Z) (i : NackInfo) : bool :=
  (delay <=? now - created_at_time i) &&
  ((match options with kTimeOnly => false | _ => true end && (sent_at_time i =? -1)) ||
   (match options with kSeqNumOnly => false | _ => true end && (rtt <=? now - sent_at_time i))).

Definition after_ask (options : NackFilterOptions) (now rtt delay : Z) (x : Z * NackInfo) : option (Z * NackInfo) :=
  if is_due options now rtt delay x.2 then
    if kMaxNackRetries <=? retries x.2 + 1 then None else Some (x.1, nacked x.2 now)
  else Some x.

Definition batch_of (options : NackFilterOptions) (now rtt delay : Z) (l : list (Z * NackInfo)) : list Z :=
  fst <$> List.filter (fun x => is_due options now rtt delay x.2) l.

Definition with_log (buffering : bool) (batch : list Z) (log : list ask) : list ask :=
  match batch with [] => log | _ => log ++ [Ask batch buffering] end.

(** Asking for what is due. *)
Definition ask_due (options : NackFilterOptions) (buffering : bool) (a : spec) : spec :=
  let now := clock_ (readings a) in
  with_reading 1
    (with_asks (with_log buffering (batch_of options now (rtt a) (delay a) (nacks a)) (log a))
       (with_nacks (omap (after_ask options now (rtt a) (delay a)) (nacks a)) a)).

(** The packet [s] in front of the newest [n]: what is missing between them is added. *)
Definition add_missing (n s : Z) (a : spec) : spec :=
  let old := from (s - kMaxPacketAge) (nacks a) in
  let new := s - n - 1 in
  let '(ks, ns) := if kMaxNackPackets <? len old + new then trim (keys a) old new else (keys a, old) in
  if kMaxNackPackets <? len ns + new then
    with_asks (log a ++ [AskKeyFrame]) (with_nacks [] (with_keys ks a))
  else
    let added := fresh (Z.to_nat new) (n + 1) (readings a) (recs a) in
    with_reading (length added) (with_nacks (ns ++ added) (with_keys ks a)).

Definition receive (s : Z) (is_keyframe is_recovered : bool) (a : spec) : Z * spec :=
  let noted := if is_keyframe then put s tt (keys a) else keys a in
  match newest a with
  | None => (0, with_received s (with_keys noted (with_newest (Some s) a)))
  | Some n =>
      if s =? n then (0, a)
      else if s <? n then
        (match value_of s (nacks a) with Some i => retries i | None => 0 end,
         with_received s (with_nacks (below s (nacks a) ++ above s (nacks a)) a))
      else
        let a1 := with_keys (from (s - kMaxPacketAge) noted) a in
        if is_recovered then (0, with_recs (from (s - kMaxPacketAge) (put s tt (recs a))) a1)
        else (0, ask_due kSeqNumOnly true
                   (with_received s (with_newest (Some s) (add_missing n s a1))))
  end.

Inductive op :=
  | Receive (s : Z) (is_keyframe is_recovered : bool)
  | ClearTo (s : Z)
  | SetRtt (rtt_ms : Z)
  | ClearAll
  | Tick
  | NextTick.

Definition a_exec (o : op) (a : spec) : Z * spec :=
  match o with
  | Receive s k r => receive s k r a
  | ClearTo s => (0, with_recs (from s (recs a)) (with_keys (from s (keys a)) (with_nacks (from s (nacks a)) a)))
  | SetRtt v => (0, with_rtt v a)
  | ClearAll => (0, with_recs [] (with_keys [] (with_nacks [] a)))
  | Tick =>
      let a' := ask_due kTimeOnly false a in
      let now := clock_ (readings a') in
      (0, with_next
            (if next_time a' =? -1 then now + kProcessIntervalMs
             else next_time a' + kProcessIntervalMs
                  + Z.quot (now - next_time a') kProcessIntervalMs * kProcessIntervalMs)
            (with_reading 1 a'))
  | NextTick => (Z.max (next_time a - clock_ (readings a)) 0, with_reading 1 a)
  end.

Fixpoint a_run (ops : list op) (a : spec) : list Z * spec :=
  match ops with
  | [] => ([], a)
  | o :: rest =>
      let '(r, a1) := a_exec o a in
      let '(rs, a2) := a_run rest a1 in
      (r :: rs, a2)
  end.

Definition a_init (delay_ms : Z) : spec :=
  Spec None [] [] [] kDefaultRttMs (-1) (GetSendNackDelay delay_ms) 0 [] [].

(** ** The window *)

(** How far packets may be in front of the newest one, and how old a recovered packet may get. *)
Definition kAhead : Z := 16384.
Definition kBack : Z := 16383.

(** The packets an operation may name in a state. *)
Definition admissible (a : spec) (o : op) : Prop :=
  match newest a, o with
  | Some n, Receive s _ is_recovered =>
      n - 32768 < s <= n + kAhead /\
      (is_recovered = false -> n < s -> forall x, x ∈ recs a -> s - kBack <= x.1)
  | Some n, ClearTo s => n - kBack <= s <= n + kAhead
  | _, _ => True
  end.

Fixpoint admissible_run (ops : list op) (a : spec) : Prop :=
  match ops with
  | [] => True
  | o :: rest => admissible a o /\ admissible_run rest (a_exec o a).2
  end.

End Abstract.

(** The operations of the code, on wrapped numbers. *)
Definition exec (clock_ : nat -> Z) (o : op) : ST world Z :=
  match o with
  | Receive s k r => OnReceivedPacket clock_ (seq_of s) k r
  | ClearTo s => ClearUpTo (seq_of s) ;; mret 0
  | SetRtt v => UpdateRtt v ;; mret 0
  | ClearAll => Clear ;; mret 0
  | Tick => Process clock_ ;; mret 0
  | NextTick => TimeUntilNextProcess clock_
  end.

Fixpoint run_ops (clock_ : nat -> Z) (ops : list op) : ST world (list Z) :=
  match ops with
  | [] => mret []
  | o :: rest => r ← exec clock_ o; rs ← run_ops clock_ rest; mret (r :: rs)
  end.

Definition wrapped (e : ask) : event :=
  match e with Ask l b => SendNack (seq_of <$> l) b | AskKeyFrame => RequestKeyFrame end.
