(* ===== verification/NackRefine.v ===== *)
(** * The NACK module refines its specification

    [conc a] is the module that holds the wrapped numbers of the abstract state [a]; every operation
    inside the window takes [conc a] to [conc] of the next abstract state. *)

From S2P Require Import Prelude SeqNum SeqRing SeqMap OrderedSet NackModule NackSpec.
Import RtpSequenceNumberMap NackModule.

Abbreviation im := (imaged seq_of).

Definition empty_histogram : Histogram.t :=
  Histogram.Make [] kMaxReorderedPackets (replicate (Z.to_nat kNumReorderingBuckets) 0) 0.

Definition conc (a : spec) : world :=
  World
    (Make (im (nacks a)) (im (keys a)) (im (recs a)) empty_histogram
       (match newest a with Some _ => true | None => false end) (rtt a)
       (match newest a with Some n => seq_of n | None => 0 end) (next_time a) (delay a))
    (readings a) (wrapped <$> log a).

(** ** The invariant of the specification *)

Definition in_window (n : Z) (a : spec) : Prop :=
  (forall x, x ∈ nacks a -> n - kMaxPacketAge <= x.1 < n) /\
  (forall x, x ∈ keys a -> n - kMaxPacketAge <= x.1 <= n + kAhead) /\
  (forall x, x ∈ recs a -> n - kBack <= x.1 <= n + kAhead).

Definition info_ok (x : Z * NackInfo) : Prop :=
  seq_num x.2 = seq_of x.1 /\ send_at_seq_num x.2 = seq_of x.1.

Record spec_ok (a : spec) : Prop := {
  ok_nacks : increasing (nacks a);
  ok_keys : increasing (keys a);
  ok_recs : increasing (recs a);
  ok_window : match newest a with
              | Some n => in_window n a
              | None => nacks a = [] /\ keys a = [] /\ recs a = []
              end;
  ok_info : forall x, x ∈ nacks a -> info_ok x;
  ok_size : len (nacks a) <= kMaxNackPackets
}.

(** ** Comparison inside the window *)

Lemma comp_near x k : Z.abs (x - k) < 32768 -> comp (seq_of x) (seq_of k) = (x <? k).
Proof.
  intros H. change (comp (seq_of x) (seq_of k)) with (AheadOf (seq_of k) (seq_of x)).
  destruct (Z.lt_trichotomy x k) as [Hlt|[->|Hgt]].
  - rewrite AheadOf_leads, leads_near by lia. symmetry. apply Z.ltb_lt. lia.
  - rewrite AheadOf_AheadOrAt, Z.eqb_refl, Z.ltb_irrefl. done.
  - rewrite AheadOf_leads_rev, leads_near by lia. symmetry. apply Z.ltb_ge. lia.
Qed.

Lemma near_ordered {V} (l : list (Z * V)) k :
  (forall x, x ∈ l -> Z.abs (x.1 - k) < 32768) -> ordered_with comp seq_of l k.
Proof. intros H x Hx. specialize (H x Hx). split; apply comp_near; lia. Qed.

Lemma seq_of_shift n d : u16 (seq_of n + d) = seq_of (n + d).
Proof. unfold wrap, seq_of. change (2 ^ 16) with P16. apply Zplus_mod_idemp_l. Qed.

Lemma seq_of_back n d : u16 (seq_of n - d) = seq_of (n - d).
Proof. apply (seq_of_shift n (- d)). Qed.

(** Two computations before the rest. *)
Lemma ST_bind_assoc {S A B C} (m : ST S A) (f : A -> ST S B) (k : B -> ST S C) s b s' :
  (m ≫= f) s = Some (b, s') -> (m ≫= (fun x => f x ≫= k)) s = k b s'.
Proof.
  unfold mbind, ST_bind. destruct (m s) as [[x s1]|]; [|done]. intros ->. done.
Qed.

(** A step of a computation. *)
Ltac step H := rewrite (ST_bind_ret _ _ _ _ _ H); cbn beta.

Section Steps.
Context (clock_ : nat -> Z).

(** ** Lists *)

Lemma erase_nacks_conc k a :
  increasing (nacks a) -> (forall x, x ∈ nacks a -> Z.abs (x.1 - k) < 32768) ->
  erase_nacks (seq_of k) (conc a) = Some (tt, conc (with_nacks (from k (nacks a)) a)).
Proof.
  intros Hi Hn. unfold erase_nacks, member, lift, mbind, ST_bind. cbn [conc module nack_list_].
  by rewrite erase_below_imaged by (done || by apply near_ordered).
Qed.

Lemma erase_keyframes_conc k a :
  increasing (keys a) -> (forall x, x ∈ keys a -> Z.abs (x.1 - k) < 32768) ->
  erase_keyframes (seq_of k) (conc a) = Some (tt, conc (with_keys (from k (keys a)) a)).
Proof.
  intros Hi Hn. unfold erase_keyframes, member, lift, mbind, ST_bind. cbn [conc module keyframe_list_].
  by rewrite erase_below_imaged by (done || by apply near_ordered).
Qed.

Lemma erase_recovered_conc k a :
  increasing (recs a) -> (forall x, x ∈ recs a -> Z.abs (x.1 - k) < 32768) ->
  erase_recovered (seq_of k) (conc a) = Some (tt, conc (with_recs (from k (recs a)) a)).
Proof.
  intros Hi Hn. unfold erase_recovered, member, lift, mbind, ST_bind. cbn [conc module recovered_list_].
  by rewrite erase_below_imaged by (done || by apply near_ordered).
Qed.

Lemma insert_keyframe_conc k a :
  increasing (keys a) -> (forall x, x ∈ keys a -> Z.abs (x.1 - k) < 32768) ->
  insert_keyframe (seq_of k) (conc a) = Some (tt, conc (with_keys (put k tt (keys a)) a)).
Proof.
  intros Hi Hn. unfold insert_keyframe, member, lift, mbind, ST_bind. cbn [conc module keyframe_list_].
  by rewrite insert_new_imaged by (done || by apply near_ordered).
Qed.

Lemma insert_recovered_conc k a :
  increasing (recs a) -> (forall x, x ∈ recs a -> Z.abs (x.1 - k) < 32768) ->
  insert_recovered (seq_of k) (conc a) = Some (tt, conc (with_recs (put k tt (recs a)) a)).
Proof.
  intros Hi Hn. unfold insert_recovered, member, lift, mbind, ST_bind. cbn [conc module recovered_list_].
  by rewrite insert_new_imaged by (done || by apply near_ordered).
Qed.

Lemma elem_of_put {V} k (v : V) l x : x ∈ put k v l -> x ∈ l \/ x.1 = k.
Proof.
  unfold put. intros [H|H]%elem_of_app; [left; by apply elem_of_below in H as []|].
  apply elem_of_cons in H as [->|H]; [by right|]. left. by apply elem_of_above in H as [].
Qed.

(** ** Making room *)

Definition near_lists (ks : list (Z * unit)) (ns : list (Z * NackInfo)) : Prop :=
  forall k x, k ∈ ks -> x ∈ ns -> Z.abs (x.1 - k.1) < 32768.

Lemma im_nil {V} (l : list (Z * V)) : im l = [] -> l = [].
Proof. by destruct l. Qed.

Lemma len_im {V} (l : list (Z * V)) : len (im l) = len l.
Proof. apply len_fmap. Qed.

Lemma length_im {V} (l : list (Z * V)) : length (im l) = length l.
Proof. apply length_fmap. Qed.

(** What one call of [RemovePacketsUntilKeyFrame] does, for the loop. *)
Lemma remove_spec ks ns new :
  increasing ns -> near_lists ks ns -> kMaxNackPackets < len ns + new ->
  (remove_until_keyframe (im ks) (im ns) = Some (false, [], im ns) /\ trim ks ns new = ([], ns)) \/
  exists k rest, remove_until_keyframe (im ks) (im ns) = Some (true, im (k :: rest), im (from k.1 ns)) /\
    trim ks ns new = trim (k :: rest) ns new /\ (length (from k.1 ns) < length ns)%nat /\
    (forall x, x ∈ k :: rest -> x ∈ ks).
Proof.
  intros Hi. induction ks as [|k ks IH]; intros Hn Hl; [by left|].
  assert (Hnk : forall x, x ∈ ns -> Z.abs (x.1 - k.1) < 32768) by (intros x Hx; apply Hn; [constructor|done]).
  cbn [imaged fmap list_fmap remove_until_keyframe fst].
  rewrite lower_bound_imaged by (done || by apply near_ordered). cbn [mbind option_bind].
  destruct (split_at k.1 ns Hi) as [E Ef]. assert (El : length ns = (length (below k.1 ns) + length (from k.1 ns))%nat).
  { rewrite Ef. rewrite E at 1. by rewrite length_app. }
  destruct (Nat.eqb_spec (length (below k.1 ns)) 0) as [E0|E0].
  - assert (Efrom : from k.1 ns = ns).
    { apply nil_length_inv in E0. rewrite E0 in E. rewrite Ef. cbn in E. by rewrite <- E. }
    assert (Et : trim (k :: ks) ns new = trim ks ns new).
    { cbn [trim]. rewrite Efrom. by rewrite (proj2 (Z.leb_gt _ _)) by lia. }
    rewrite Et. destruct IH as [[E1 E2]|(k' & rest & E1 & E2 & E3 & E4)].
    + intros k' x Hk' Hx. apply Hn; [by constructor|done].
    + done.
    + by left.
    + right. exists k', rest. split; [done|]. split; [done|]. split; [done|]. intros x Hx. constructor. auto.
  - right. exists k, ks. rewrite drop_imaged, (proj2 (cut_below k.1 ns Hi)). split; [done|]. split; [done|].
    split; [lia|done].
Qed.

Lemma from_from {V} k (l : list (Z * V)) : from k (from k l) = from k l.
Proof. apply filter_every. intros x Hx%elem_of_from. apply Z.leb_le. apply Hx. Qed.

Lemma Remove_conc b ks ns a :
  remove_until_keyframe (im (keys a)) (im (nacks a)) = Some (b, im ks, im ns) ->
  RemovePacketsUntilKeyFrame (conc a) = Some (b, conc (with_nacks ns (with_keys ks a))).
Proof.
  intros E. unfold RemovePacketsUntilKeyFrame, member, lift, mbind, ST_bind, modify. cbn [conc module keyframe_list_ nack_list_].
  by rewrite E.
Qed.

Lemma too_many_conc new a : too_many new (conc a) = Some (kMaxNackPackets <? len (nacks a) + new, conc a).
Proof.
  unfold too_many, member, mbind, ST_bind. cbn [conc module nack_list_]. by rewrite len_im.
Qed.

Lemma make_space_conc fuel new a :
  increasing (nacks a) -> near_lists (keys a) (nacks a) -> kMaxNackPackets < len (nacks a) + new ->
  (length (nacks a) < fuel)%nat ->
  let '(ks, ns) := trim (keys a) (nacks a) new in
  make_space fuel new (conc a) = Some (tt, conc (with_nacks ns (with_keys ks a))).
Proof.
  revert a. induction fuel as [|fuel IH]; intros a Hi Hn Hl Hf; [lia|]. cbn [make_space].
  destruct (remove_spec (keys a) (nacks a) new Hi Hn Hl) as [[E Et]|(k & rest & E & Et & Hlt & Hsub)].
  - rewrite Et. rewrite (ST_bind_ret _ _ _ _ _ (Remove_conc false [] (nacks a) a E)). by destruct a.
  - rewrite (ST_bind_ret _ _ _ _ _ (Remove_conc true (k :: rest) (from k.1 (nacks a)) a E)).
    set (a1 := with_nacks (from k.1 (nacks a)) (with_keys (k :: rest) a)).
    rewrite (ST_bind_ret _ _ _ _ _ (too_many_conc new a1)). rewrite Et. cbn [trim].
    change (nacks a1) with (from k.1 (nacks a)).
    destruct (Z.ltb_spec kMaxNackPackets (len (from k.1 (nacks a)) + new)) as [Hm|Hm].
    + rewrite (proj2 (Z.leb_gt _ _)) by lia. specialize (IH a1). change (keys a1) with (k :: rest) in IH.
      change (nacks a1) with (from k.1 (nacks a)) in IH. cbn [trim] in IH. rewrite from_from in IH.
      rewrite (proj2 (Z.leb_gt _ _)) in IH by lia.
      destruct (trim rest (from k.1 (nacks a)) new) as [ks ns]. rewrite IH; [done|auto with increasing| |done|lia].
      intros k' x Hk' Hx%elem_of_from. apply Hn; [by apply Hsub|apply Hx].
    + by rewrite (proj2 (Z.leb_le _ _)) by lia.
Qed.

(** ** Adding the missing packets *)

Definition with_added l a := with_reading (length l) (with_nacks (nacks a ++ l) a).

Lemma with_added_nil a : with_added [] a = a.
Proof. destruct a. unfold with_added, with_reading, with_nacks. cbn. by rewrite app_nil_r, Nat.add_0_r. Qed.

Lemma with_added_app l l' a : with_added l' (with_added l a) = with_added (l ++ l') a.
Proof. unfold with_added, with_reading, with_nacks. cbn. by rewrite length_app, Nat.add_assoc, app_assoc. Qed.

Lemma Wait_conc a : WaitNumberOfPackets Histogram.half (conc a) = Some (0, conc a).
Proof. done. Qed.

Lemma Time_conc a :
  TimeInMilliseconds clock_ (conc a) =
    Some (clock_ (readings a), World (module (conc a)) (S (readings a)) (events (conc a))).
Proof. done. Qed.

(** The body of the loop for a packet that was not recovered. *)
Lemma add_nack_conc k a :
  increasing (nacks a) -> (forall x, x ∈ nacks a -> k - 32768 < x.1 < k) ->
  (wait ← WaitNumberOfPackets Histogram.half;
   now ← TimeInMilliseconds clock_;
   nacks ← member nack_list_;
   old ← lift (find_value comp nacks (seq_of k));
   dcheck (match old with None => true | Some _ => false end) ;;
   nacks' ← lift (assign comp nacks (seq_of k) (new_info (seq_of k) (u16 (seq_of k + wait)) now));
   modify (set_nack_list nacks')) (conc a)
  = Some (tt, conc (with_added [(k, new_info (seq_of k) (seq_of k) (clock_ (readings a)))] a)).
Proof.
  intros Hi Hn. assert (Ho : ordered_with comp seq_of (nacks a) k).
  { apply near_ordered. intros x Hx%Hn. lia. }
  step (Wait_conc a). step (Time_conc a). unfold member, lift, mbind, ST_bind. cbn [module conc nack_list_].
  rewrite find_value_imaged, (proj2 (value_of_None k (nacks a))) by (done || intros x Hx%Hn; lia).
  cbn [option_bind dcheck]. rewrite assign_imaged by done. cbn. rewrite seq_of_shift, Z.add_0_r.
  rewrite put_last by (intros x Hx%Hn; lia). unfold conc, modify. cbn. by rewrite Nat.add_1_r.
Qed.

Lemma add_nacks_conc n k a :
  increasing (nacks a) -> increasing (recs a) -> Z.of_nat n < 32768 ->
  (forall x, x ∈ nacks a -> k + Z.of_nat n - 32768 < x.1 < k) ->
  (forall x, x ∈ recs a -> k + Z.of_nat n - 32768 < x.1 < k + 32768) ->
  add_nacks clock_ n (seq_of k) (conc a) =
    Some (tt, conc (with_added (fresh clock_ n k (readings a) (recs a)) a)).
Proof.
  revert k a. induction n as [|n IH]; intros k a Hi Hr Hlt Hn Hrec; cbn [add_nacks fresh].
  { by rewrite with_added_nil. }
  rewrite Nat2Z.inj_succ in *.
  assert (Hfind : lift (find_value comp (im (recs a)) (seq_of k)) (conc a) = Some (value_of k (recs a), conc a)).
  { unfold lift. rewrite find_value_imaged; [done|done|]. apply near_ordered. intros x Hx%Hrec. lia. }
  rewrite (ST_bind_ret _ _ _ (im (recs a)) (conc a)) by done. step Hfind.
  rewrite seq_of_shift. destruct (value_of k (recs a)) as [u|] eqn:Ev.
  - rewrite bool_decide_false by done. rewrite (ST_bind_ret _ _ _ tt (conc a)) by done.
    apply IH; [done|done|lia| |]; intros x Hx; [apply Hn in Hx|apply Hrec in Hx]; lia.
  - rewrite bool_decide_true by done.
    rewrite (ST_bind_ret _ _ _ _ _ (add_nack_conc k a Hi ltac:(intros x Hx%Hn; lia))).
    set (i := (k, new_info _ _ _)). rewrite (IH (k + 1) (with_added [i] a)).
    + cbn [with_added with_reading with_nacks readings recs]. rewrite Nat.add_1_r, with_added_app. done.
    + cbn [with_added with_reading with_nacks nacks]. apply increasing_app; [done| |].
      * apply increasing_cons. split; [auto with increasing|]. by intros y Hy%elem_of_nil.
      * intros x y Hx%Hn Hy%list_elem_of_singleton. rewrite Hy. cbn. lia.
    + done.
    + lia.
    + cbn [with_added with_reading with_nacks nacks]. intros x [Hx%Hn|Hx%list_elem_of_singleton]%elem_of_app; [lia|]. rewrite Hx. cbn. lia.
    + cbn [with_added with_reading with_nacks recs]. intros x Hx%Hrec. lia.
Qed.

Lemma trim_sub ks ns new ks' ns' :
  trim ks ns new = (ks', ns') ->
  (forall x, x ∈ ks' -> x ∈ ks) /\ (forall x, x ∈ ns' -> x ∈ ns) /\
  (increasing ks -> increasing ks') /\ (increasing ns -> increasing ns').
Proof.
  revert ns. induction ks as [|k ks IH]; intros ns; cbn [trim]; [intros [= <- <-]; done|].
  destruct (_ <=? _).
  - intros [= <- <-]. split; [done|]. split; [|split; [done|auto with increasing]].
    intros x Hx%elem_of_from. apply Hx.
  - intros E. destruct (IH _ E) as (H1 & H2 & H3 & H4). split; [|split; [|split]].
    + intros x Hx. constructor. auto.
    + intros x Hx%H2%elem_of_from. apply Hx.
    + intros Hi%increasing_cons. apply H3, Hi.
    + intros Hi. apply H4. auto with increasing.
Qed.

(** The state before the missing packets are added. *)
Record arriving (n s : Z) (a : spec) : Prop := {
  arr_newest : newest a = Some n;
  arr_ahead : n < s <= n + kAhead;
  arr_sorted : increasing (nacks a) /\ increasing (keys a) /\ increasing (recs a);
  arr_nacks : forall x, x ∈ nacks a -> n - kMaxPacketAge <= x.1 < n;
  arr_keys : forall x, x ∈ keys a -> s - kMaxPacketAge <= x.1 <= n + kAhead;
  arr_recs : forall x, x ∈ recs a -> s - kBack <= x.1 <= n + kAhead
}.

(** Room for the new packets, as the first half of [AddPacketsToNack] makes it. *)
Lemma room_conc n s a :
  arriving n s a ->
  let old := from (s - kMaxPacketAge) (nacks a) in
  let new := s - n - 1 in
  let '(ks, ns) := if kMaxNackPackets <? len old + new then trim (keys a) old new else (keys a, old) in
  no_space new (conc (with_nacks old a))
  = Some (kMaxNackPackets <? len ns + new, conc (with_nacks ns (with_keys ks a))).
Proof.
  intros [En Ha (Hi1 & Hi2 & Hi3) Hn Hk Hr] old new. unfold kMaxPacketAge, kAhead, kBack in *.
  unfold no_space. rewrite (ST_bind_ret _ _ _ _ _ (too_many_conc new (with_nacks old a))).
  change (nacks (with_nacks old a)) with old.
  destruct (Z.ltb_spec kMaxNackPackets (len old + new)) as [Hm|Hm].
  - pose proof (make_space_conc (S (length old)) new (with_nacks old a)) as H.
    change (keys (with_nacks old a)) with (keys a) in H. change (nacks (with_nacks old a)) with old in H.
    destruct (trim (keys a) old new) as [ks ns].
    rewrite (ST_bind_ret _ _ _ (im old) (conc (with_nacks old a))) by done. rewrite length_im.
    rewrite (ST_bind_ret _ _ _ tt (conc (with_nacks ns (with_keys ks (with_nacks old a))))).
    + apply too_many_conc.
    + apply H; [unfold old; auto with increasing| |done|lia].
      intros k x Hk'%Hk Hx. unfold old in Hx. apply elem_of_from in Hx as [Hx%Hn Hx']. lia.
  - rewrite (proj2 (Z.ltb_ge _ _)) by lia. by destruct a.
Qed.

Lemma forward_diff n s : n < s -> s - n - 1 < P16 -> ModOps.ForwardDiff 16 0 (u16 (seq_of n + 1)) (seq_of s) = Some (s - n - 1).
Proof.
  intros H1 H2. rewrite seq_of_shift, (ForwardDiff_spec 16 0 ring16) by apply seq_of_range.
  change (period 16 0) with P16. rewrite diff_mod by lia. f_equal. lia.
Qed.

Lemma AddPackets_conc n s a :
  arriving n s a ->
  AddPacketsToNack clock_ (u16 (seq_of n + 1)) (seq_of s) (conc a) = Some (tt, conc (add_missing clock_ n s a)).
Proof.
  intros Harr. pose proof Harr as [En Ha (Hi1 & Hi2 & Hi3) Hn Hk Hr]. pose proof (room_conc n s a Harr) as Hroom.
  unfold AddPacketsToNack, add_missing, kMaxPacketAge, kAhead, kBack in *. rewrite seq_of_back.
  cbn zeta in Hroom. set (old := from (s - 10000) (nacks a)) in *.
  assert (Hold : forall x, x ∈ old -> s - 10000 <= x.1 < n).
  { intros x Hx. apply elem_of_from in Hx as [Hx%Hn ?]. lia. }
  assert (Ee := erase_nacks_conc (s - 10000) a Hi1 ltac:(intros x Hx%Hn; lia)). fold old in Ee. step Ee.
  rewrite (ST_bind_ret _ _ _ (s - n - 1) (conc (with_nacks old a)))
    by (unfold lift; by rewrite forward_diff by lia).
  destruct (if kMaxNackPackets <? len old + (s - n - 1) then _ else _) as [ks ns] eqn:Et.
  assert (Hsub : forall x, x ∈ ns -> x ∈ old).
  { destruct (_ <? _); [by apply trim_sub in Et as (_ & ? & _)|by injection Et as <- <-]. }
  assert (Hins : increasing ns).
  { destruct (_ <? _); [apply trim_sub in Et as (_ & _ & _ & H); apply H|injection Et as <- <-];
      unfold old; auto with increasing. }
  step Hroom. destruct (kMaxNackPackets <? len ns + (s - n - 1)).
  - unfold modify, emit, mbind, ST_bind, conc. cbn. by rewrite fmap_app.
  - rewrite seq_of_shift. apply (add_nacks_conc (Z.to_nat (s - n - 1)) (n + 1) (with_nacks ns (with_keys ks a)));
      [done|done|lia| |].
    + intros x Hx%Hsub%Hold. lia.
    + intros x Hx%Hr. lia.
Qed.

(** ** Asking *)

Lemma batch_loop_conc options now rtt delay nw l :
  (forall x, x ∈ l -> info_ok x /\ AheadOrAt nw (seq_of x.1) = true) ->
  batch_loop options now rtt delay nw (im l) =
    (seq_of <$> batch_of options now rtt delay l, im (omap (after_ask options now rtt delay) l)).
Proof.
  induction l as [|x l IH]; intros Hx; [done|].
  destruct (Hx x ltac:(constructor)) as [[E1 E2] Ea].
  change (im (x :: l)) with ((seq_of x.1, x.2) :: im l). cbn [batch_loop].
  rewrite IH by (intros y Hy; apply Hx; by constructor). unfold batch_of. cbn [List.filter omap list_omap].

  assert (Ed : due options now rtt delay nw x.2 = is_due options now rtt delay x.2).
  { unfold due, is_due. by rewrite E2, Ea, andb_true_r. }
  change (after_ask options now rtt delay x) with
    (if is_due options now rtt delay x.2 then
       if kMaxNackRetries <=? retries x.2 + 1 then None else Some (x.1, nacked x.2 now) else Some x).
  rewrite Ed. destruct (is_due _ _ _ _ x.2); [|done]. rewrite E1. cbn [nacked retries].
  by destruct (_ <=? _).
Qed.

Lemma GetNackBatch_conc options a :
  spec_ok a ->
  GetNackBatch clock_ options (conc a) =
    let now := clock_ (readings a) in
    Some (seq_of <$> batch_of options now (rtt a) (delay a) (nacks a),
          conc (with_reading 1 (with_nacks (omap (after_ask options now (rtt a) (delay a)) (nacks a)) a))).
Proof.
  intros Hok. unfold GetNackBatch. step (Time_conc a). unfold member, modify, mbind, ST_bind.
  cbn [module conc rtt_ms_ send_nack_delay_ms_ newest_seq_num_ nack_list_].
  rewrite batch_loop_conc.
  - unfold conc. cbn. by rewrite Nat.add_1_r.
  - intros x Hx. split; [by apply (ok_info a Hok)|]. pose proof (ok_window a Hok) as Hw.
    destruct (newest a) as [n|]; [|by rewrite (proj1 Hw) in Hx; apply elem_of_nil in Hx].
    apply Hw in Hx. unfold kMaxPacketAge in Hx. rewrite AheadOrAt_leads by lia. apply leads_near. lia.
Qed.

(** Asking and telling the sender. *)
Lemma ask_conc options buffering a :
  spec_ok a ->
  (batch ← GetNackBatch clock_ options;
   if bool_decide (batch = []) then mret tt else emit (SendNack batch buffering)) (conc a) =
    Some (tt, conc (ask_due clock_ options buffering a)).
Proof.
  intros Hok. step (GetNackBatch_conc options a Hok). unfold ask_due, with_log.
  destruct (batch_of options _ _ _ _) as [|x b]; [by destruct a|].
  rewrite bool_decide_false by done. unfold emit, conc. cbn. by rewrite fmap_app.
Qed.

(** ** The invariant is kept *)

Lemma increasing_omap {V} (f : Z * V -> option (Z * V)) l :
  (forall x y, f x = Some y -> y.1 = x.1) -> increasing l -> increasing (omap f l).
Proof.
  intros Hf. induction l as [|x l IH]; intros Hi; [done|]. apply increasing_cons in Hi as [Hi Hx]. cbn.
  destruct (f x) as [y|] eqn:E; [|by apply IH]. apply increasing_cons. split; [by apply IH|].
  intros z Hz. apply list_elem_of_omap in Hz as (z' & Hz' & E'). rewrite (Hf _ _ E), (Hf _ _ E'). by apply Hx.
Qed.

Lemma after_ask_key options now rtt delay x y :
  after_ask options now rtt delay x = Some y -> y.1 = x.1 /\ (info_ok x -> info_ok y).
Proof.
  unfold after_ask. destruct (is_due _ _ _ _ _); [destruct (_ <=? _)|]; intros [= <-]; done.
Qed.

Lemma length_omap_le {A B} (f : A -> option B) l : (length (omap f l) <= length l)%nat.
Proof. induction l as [|x l IH]; cbn; [done|]. destruct (f x); cbn; lia. Qed.

Lemma ask_due_ok options buffering a : spec_ok a -> spec_ok (ask_due clock_ options buffering a).
Proof.
  intros [H1 H2 H3 H4 H5 H6].
  assert (Hsub : forall now y, y ∈ omap (after_ask options now (rtt a) (delay a)) (nacks a) ->
                 exists x, x ∈ nacks a /\ y.1 = x.1 /\ (info_ok x -> info_ok y)).
  { intros now y Hy. apply list_elem_of_omap in Hy as (x & Hx & E). exists x. split; [done|]. by eapply after_ask_key. }
  constructor; cbn [ask_due with_reading with_asks with_nacks nacks keys recs newest]; try done.
  - apply increasing_omap; [|done]. intros x y E. by apply after_ask_key in E as [].
  - destruct (newest a) as [n|]; [|destruct H4 as (-> & ? & ?); done].
    destruct H4 as (Hn & Hk & Hr). split; [|done]. intros y Hy. apply Hsub in Hy as (x & Hx & -> & _). by apply Hn.
  - intros y Hy. apply Hsub in Hy as (x & Hx & _ & H). auto.
  - unfold len in *. pose proof (length_omap_le (after_ask options (clock_ (readings a)) (rtt a) (delay a)) (nacks a)). lia.
Qed.

Lemma fresh_elem n k r recs x :
  x ∈ fresh clock_ n k r recs -> k <= x.1 < k + Z.of_nat n /\ info_ok x /\ value_of x.1 recs = None /\
  sent_at_time x.2 = -1 /\ retries x.2 = 0.
Proof.
  revert k r. induction n as [|n IH]; intros k r; cbn [fresh]; [by intros Hx%elem_of_nil|].
  destruct (value_of k recs) eqn:E.
  - intros (? & ?)%IH. split; [lia|done].
  - intros [->|Hx]%elem_of_cons; [cbn; split; [lia|done]|]. apply IH in Hx as (? & ?). split; [lia|done].
Qed.

Lemma fresh_increasing n k r recs : increasing (fresh clock_ n k r recs).
Proof.
  revert k r. induction n as [|n IH]; intros k r; cbn [fresh]; [auto with increasing|].
  destruct (value_of k recs); [done|]. apply increasing_cons. split; [done|].
  intros y (Hy & _)%fresh_elem. cbn. lia.
Qed.

Lemma fresh_length n k r recs : (length (fresh clock_ n k r recs) <= n)%nat.
Proof.
  revert k r. induction n as [|n IH]; intros k r; cbn [fresh]; [done|].
  destruct (value_of k recs); [specialize (IH (k + 1) r)|specialize (IH (k + 1) (S r)); cbn]; lia.
Qed.

Lemma add_missing_ok n s a :
  arriving n s a -> (forall x, x ∈ nacks a -> info_ok x) ->
  spec_ok (with_newest (Some s) (add_missing clock_ n s a)).
Proof.
  intros [En Ha (Hi1 & Hi2 & Hi3) Hn Hk Hr] Hinf. unfold add_missing.
  set (old := from (s - kMaxPacketAge) (nacks a)). unfold kAhead, kBack, kMaxPacketAge in *.
  assert (Hold : forall x, x ∈ old -> x ∈ nacks a /\ s - 10000 <= x.1 < n).
  { intros x Hx. apply elem_of_from in Hx as [Hx ?]. split; [done|]. apply Hn in Hx. lia. }
  destruct (if kMaxNackPackets <? len old + (s - n - 1) then _ else _) as [ks ns] eqn:Et.
  assert (Hsub : (forall x, x ∈ ks -> x ∈ keys a) /\ (forall x, x ∈ ns -> x ∈ old) /\ increasing ks /\ increasing ns).
  { assert (Hio : increasing old) by (unfold old; auto with increasing).
    destruct (_ <? _); [apply trim_sub in Et as (? & ? & ? & ?); auto|by injection Et as <- <-]. }
  destruct Hsub as (Hks & Hns & Hik & Hin).
  assert (Hwk : forall x, x ∈ ks -> s - 10000 <= x.1 <= s + 16384) by (intros x Hx%Hks%Hk; lia).
  assert (Hwr : forall x, x ∈ recs a -> s - 16383 <= x.1 <= s + 16384) by (intros x Hx%Hr; lia).
  destruct (Z.ltb_spec kMaxNackPackets (len ns + (s - n - 1))) as [Hm|Hm];
    constructor; cbn [with_newest with_asks with_nacks with_keys with_reading nacks keys recs newest]; try done.
  - split; [by intros x Hx%elem_of_nil|done].
  - by intros x Hx%elem_of_nil.
  - apply increasing_app; [done|apply fresh_increasing|].
    intros x y Hx%Hns%Hold (Hy & _)%fresh_elem. lia.
  - pose proof (len_nonneg ns). unfold kMaxNackPackets in Hm. split; [|done]. intros x [Hx%Hns%Hold|(Hx & _)%fresh_elem]%elem_of_app; unfold kMaxPacketAge; lia.
  - intros x [Hx%Hns%Hold|(_ & Hx & _)%fresh_elem]%elem_of_app; [|done]. apply Hinf, Hx.
  - unfold len in *. rewrite length_app. pose proof (fresh_length (Z.to_nat (s - n - 1)) (n + 1) (readings a) (recs a)). lia.
Qed.

(** ** The operations *)

Definition refines (m : ST world Z) (r : Z * spec) (a : spec) : Prop := m (conc a) = Some (r.1, conc r.2) /\ spec_ok r.2.

Lemma old_packet_conc n s a :
  spec_ok a -> newest a = Some n -> n - 32768 < s < n ->
  refines (on_old_packet (seq_of s)) (receive clock_ s false false a) a /\
  forall k r, receive clock_ s k r a = receive clock_ s false false a.
Proof.
  intros Hok En Hs. pose proof Hok as [H1 H2 H3 H4 H5 H6]. rewrite En in H4. destruct H4 as (Hn & Hk & Hr).
  unfold kMaxPacketAge in *. unfold refines, receive. rewrite En.
  rewrite (proj2 (Z.eqb_neq s n)), (proj2 (Z.ltb_lt s n)) by lia. split; [|done]. cbn [fst snd].
  assert (Ho : ordered_with comp seq_of (nacks a) s) by (apply near_ordered; intros x Hx%Hn; lia).
  split.
  - unfold on_old_packet, member, lift, mbind, ST_bind. cbn [conc module nack_list_].
    rewrite find_value_imaged by done. cbn [option_bind]. destruct (value_of s (nacks a)) as [i|] eqn:E.
    + rewrite erase_key_imaged by done. done.
    + cbn. destruct (split_at s (nacks a) H1) as [Es _]. unfold at_key in Es. rewrite E in Es. cbn in Es.
      rewrite <- Es. by destruct a.
  - assert (Hsub : forall x, x ∈ below s (nacks a) ++ above s (nacks a) -> x ∈ nacks a).
    { intros x [Hx%elem_of_below|Hx%elem_of_above]%elem_of_app; apply Hx. }
    constructor; cbn [with_received with_nacks nacks keys recs newest]; try done.
    + auto with increasing.
    + rewrite En. split; [|done]. intros x Hx%Hsub%Hn. unfold kMaxPacketAge. lia.
    + auto.
    + destruct (split_at s (nacks a) H1) as [Es _]. unfold len in *. rewrite Es in H6. rewrite !length_app in *. lia.
Qed.

(** A new packet: the keyframes that are noted and kept. *)
Definition noted (s : Z) (is_keyframe : bool) (a : spec) : list (Z * unit) :=
  if is_keyframe then put s tt (keys a) else keys a.

Lemma noted_ok n s k a :
  spec_ok a -> newest a = Some n -> n < s <= n + kAhead ->
  increasing (noted s k a) /\ forall x, x ∈ noted s k a -> n - kMaxPacketAge <= x.1 <= n + kAhead.
Proof.
  intros Hok En Hs. pose proof (ok_window a Hok) as Hw. rewrite En in Hw. destruct Hw as (_ & Hk & _).
  unfold noted, kMaxPacketAge in *. destruct k; [|split; [apply Hok|done]].
  split; [apply increasing_put, Hok|]. intros x [Hx%Hk|Hx]%elem_of_put; lia.
Qed.

Lemma note_conc n s (k : bool) a :
  spec_ok a -> newest a = Some n -> n < s <= n + kAhead ->
  ((if k then insert_keyframe (seq_of s) else mret tt) ;; erase_keyframes (u16 (seq_of s - kMaxPacketAge))) (conc a)
  = Some (tt, conc (with_keys (from (s - kMaxPacketAge) (noted s k a)) a)).
Proof.
  intros Hok En Hs. destruct (noted_ok n s k a Hok En Hs) as [Hi Hb]. rewrite seq_of_back.
  pose proof (ok_window a Hok) as Hw. rewrite En in Hw. destruct Hw as (_ & Hk & _).
  unfold kMaxPacketAge, kAhead in *.
  rewrite (ST_bind_ret _ _ _ tt (conc (with_keys (noted s k a) a))).
  - apply (erase_keyframes_conc (s - 10000) (with_keys (noted s k a) a)); [done|]. intros x Hx%Hb. lia.
  - unfold noted. destruct k; [|by destruct a]. apply insert_keyframe_conc; [apply Hok|].
    intros x Hx%Hk. lia.
Qed.

Lemma recovered_conc n s k a :
  spec_ok a -> newest a = Some n -> n < s <= n + kAhead ->
  refines (on_new_packet clock_ (seq_of s) k true) (receive clock_ s k true a) a.
Proof.
  intros Hok En Hs. destruct (noted_ok n s k a Hok En Hs) as [Hik Hbk].
  pose proof Hok as [H1 H2 H3 H4 H5 H6]. rewrite En in H4. destruct H4 as (Hn & Hk & Hr).
  unfold refines, receive. rewrite En. unfold kMaxPacketAge, kAhead, kBack in *.
  rewrite (proj2 (Z.eqb_neq s n)), (proj2 (Z.ltb_ge s n)) by lia. cbn [fst snd].
  fold (noted s k a). set (a1 := with_keys (from (s - 10000) (noted s k a)) a).
  assert (Hip : increasing (put s tt (recs a))) by by apply increasing_put.
  assert (Hbp : forall x, x ∈ put s tt (recs a) -> n - 16383 <= x.1 <= n + 16384).
  { intros x [Hx%Hr|Hx]%elem_of_put; lia. }
  split.
  - unfold on_new_packet. pose proof (note_conc n s k a Hok En Hs) as E. unfold kMaxPacketAge in *.
    rewrite (ST_bind_assoc _ _ _ _ _ _ E). fold a1.
    rewrite (ST_bind_ret _ _ _ _ _ (insert_recovered_conc s a1 H3 ltac:(intros x Hx%Hr; lia))).
    rewrite seq_of_back.
    rewrite (ST_bind_ret _ _ _ _ _ (erase_recovered_conc (s - 10000) (with_recs (put s tt (recs a)) a1) Hip
      ltac:(intros x Hx%Hbp; lia))). done.
  - constructor; cbn [a1 with_recs with_keys nacks keys recs newest]; try done.
    + auto with increasing.
    + auto with increasing.
    + rewrite En. unfold in_window, kMaxPacketAge, kAhead, kBack. split; [done|].
      split; intros x Hx%elem_of_from; [destruct Hx as [Hx%Hbk ?]|destruct Hx as [Hx%Hbp ?]]; lia.
Qed.

Lemma new_arriving n s k a :
  spec_ok a -> newest a = Some n -> n < s <= n + kAhead -> (forall x, x ∈ recs a -> s - kBack <= x.1) ->
  arriving n s (with_keys (from (s - kMaxPacketAge) (noted s k a)) a).
Proof.
  intros Hok En Hs Hrecent. destruct (noted_ok n s k a Hok En Hs) as [Hik Hbk].
  pose proof Hok as [H1 H2 H3 H4 H5 H6]. rewrite En in H4. destruct H4 as (Hn & Hk & Hr).
  constructor; cbn [with_keys nacks keys recs newest]; try done.
  - auto with increasing.
  - intros x Hx%elem_of_from. destruct Hx as [Hx%Hbk ?]. lia.
  - intros x Hx. specialize (Hrecent x Hx). apply Hr in Hx. lia.
Qed.

Lemma new_packet_conc n s k a :
  spec_ok a -> newest a = Some n -> n < s <= n + kAhead -> (forall x, x ∈ recs a -> s - kBack <= x.1) ->
  refines (on_new_packet clock_ (seq_of s) k false) (receive clock_ s k false a) a.
Proof.
  intros Hok En Hs Hrecent. pose proof (new_arriving n s k a Hok En Hs Hrecent) as Harr.
  unfold refines, receive. rewrite En.
  rewrite (proj2 (Z.eqb_neq s n)), (proj2 (Z.ltb_ge s n)) by lia. cbn [fst snd].
  fold (noted s k a). set (a1 := with_keys (from (s - kMaxPacketAge) (noted s k a)) a) in *.
  assert (Hok2 : spec_ok (with_newest (Some s) (add_missing clock_ n s a1))) by (apply add_missing_ok; [done|apply Hok]).
  split; [|by apply ask_due_ok; destruct Hok2].
  unfold on_new_packet. rewrite (ST_bind_assoc _ _ _ _ _ _ (note_conc n s k a Hok En Hs)). fold a1.
  rewrite (ST_bind_ret _ _ _ (seq_of n) (conc a1)) by (unfold member; cbn; by rewrite En).
  rewrite (ST_bind_ret _ _ _ _ _ (AddPackets_conc n s a1 Harr)).
  set (a2 := with_newest (Some s) (add_missing clock_ n s a1)) in *.
  rewrite (ST_bind_ret _ _ _ tt (conc (with_received s a2))).
  - rewrite (ST_bind_assoc _ _ _ _ _ _ (ask_conc kSeqNumOnly true (with_received s a2) ltac:(by destruct Hok2))).
    done.
  - assert (Eb : newest (add_missing clock_ n s a1) = Some n).
    { unfold add_missing. destruct (if _ <? _ then _ else _). destruct (_ <? _); exact En. }
    unfold modify, conc, a2. cbn. by rewrite Eb.
Qed.

Lemma Receive_conc s k r a :
  spec_ok a -> admissible a (Receive s k r) ->
  refines (OnReceivedPacket clock_ (seq_of s) k r) (receive clock_ s k r a) a.
Proof.
  intros Hok Had. unfold admissible in Had. unfold OnReceivedPacket.
  assert (Eif : forall (m1 m2 : ST world Z), (if negb (initialized_ (module (conc a))) then m1 else m2)
     = match newest a with None => m1 | Some _ => m2 end) by (intros; cbn; by destruct (newest a)).
  unfold refines. rewrite (ST_bind_ret _ _ _ (initialized_ (module (conc a))) (conc a)) by done.
  rewrite (ST_bind_ret _ _ _ (newest_seq_num_ (module (conc a))) (conc a)) by done. rewrite Eif.
  destruct (newest a) as [n|] eqn:En.
  - destruct Had as [Hs Hrec]. unfold kAhead in Hs. cbn [conc module newest_seq_num_]. rewrite En.
    destruct (Z.lt_trichotomy s n) as [Hlt|[->|Hgt]].
    + rewrite (proj2 (Z.eqb_neq (seq_of s) (seq_of n))), AheadOf_leads, leads_near
        by (try apply not_eq_sym, seq_of_ne; lia).
      destruct (old_packet_conc n s a Hok En ltac:(lia)) as [[H1 H2] E]. rewrite E. done.
    + rewrite Z.eqb_refl. unfold receive. rewrite En, Z.eqb_refl. done.
    + rewrite (proj2 (Z.eqb_neq (seq_of s) (seq_of n))), AheadOf_leads_rev, leads_near
        by (try apply seq_of_ne; lia). cbn [negb].
      destruct r; [apply (recovered_conc n); [done|done|unfold kAhead; lia]|].
      apply (new_packet_conc n); [done|done|unfold kAhead; lia|]. by apply Hrec.
  - pose proof (ok_window a Hok) as Hw. rewrite En in Hw. destruct Hw as (En1 & En2 & En3).
    unfold receive. rewrite En. cbn [fst snd]. split.
    + unfold modify, mbind at 1, ST_bind at 1. destruct a; cbn in *; subst. destruct k; [|done]. 
      unfold insert_keyframe, member, lift, mbind, ST_bind, conc. done.
    + constructor; cbn [with_received with_keys with_newest nacks keys recs newest]; try apply Hok.
      * rewrite En2. destruct k; [apply increasing_put|]; auto with increasing.
      * rewrite En2. unfold in_window. cbn. rewrite En1, En3. unfold kMaxPacketAge, kAhead.
        split; [by intros x Hx%elem_of_nil|]. split; [|by intros x Hx%elem_of_nil].
        destruct k; intros x Hx; [|by apply elem_of_nil in Hx].
        apply list_elem_of_singleton in Hx as ->. cbn. lia.
Qed.

Lemma ClearTo_conc s a :
  spec_ok a -> admissible a (ClearTo s) ->
  ClearUpTo (seq_of s) (conc a) =
    Some (tt, conc (with_recs (from s (recs a)) (with_keys (from s (keys a)) (with_nacks (from s (nacks a)) a)))).
Proof.
  intros Hok Had. unfold admissible in Had.
  assert (Hnear : (forall x, x ∈ nacks a -> Z.abs (x.1 - s) < 32768) /\
    (forall x, x ∈ keys a -> Z.abs (x.1 - s) < 32768) /\ (forall x, x ∈ recs a -> Z.abs (x.1 - s) < 32768)).
  { pose proof (ok_window a Hok) as Hw. destruct (newest a) as [n|].
    - destruct Hw as (Hn & Hk & Hr). unfold kMaxPacketAge, kAhead, kBack in *.
      split; [|split]; intros x Hx; [apply Hn in Hx|apply Hk in Hx|apply Hr in Hx]; lia.
    - destruct Hw as (-> & -> & ->). split; [|split]; by intros x Hx%elem_of_nil. }
  destruct Hnear as (Hn & Hk & Hr). unfold ClearUpTo.
  step (erase_nacks_conc s a (ok_nacks a Hok) Hn).
  step (erase_keyframes_conc s (with_nacks (from s (nacks a)) a) (ok_keys a Hok) Hk).
  apply (erase_recovered_conc s (with_keys (from s (keys a)) (with_nacks (from s (nacks a)) a)) (ok_recs a Hok) Hr).
Qed.

(** Dropping elements keeps the invariant. *)
Lemma smaller_ok a ns ks rs :
  spec_ok a -> increasing ns -> increasing ks -> increasing rs -> (length ns <= length (nacks a))%nat ->
  (forall x, x ∈ ns -> x ∈ nacks a) -> (forall x, x ∈ ks -> x ∈ keys a) -> (forall x, x ∈ rs -> x ∈ recs a) ->
  spec_ok (with_recs rs (with_keys ks (with_nacks ns a))).
Proof.
  intros [H1 H2 H3 H4 H5 H6] Hi1 Hi2 Hi3 Hl S1 S2 S3.
  constructor; cbn [with_recs with_keys with_nacks nacks keys recs newest]; try done.
  - destruct (newest a) as [n|]; [destruct H4 as (Hn & Hk & Hr); unfold in_window; cbn; auto|].
    destruct H4 as (E1 & E2 & E3). rewrite E1 in S1. rewrite E2 in S2. rewrite E3 in S3.
    assert (Hnil : forall A (l : list A), (forall x, x ∈ l -> x ∈ @nil A) -> l = []).
    { intros A [|y l] H; [done|]. specialize (H y ltac:(constructor)). by apply elem_of_nil in H. }
    auto.
  - auto.
  - unfold len in *. lia.
Qed.

Lemma length_from_le {V} k (l : list (Z * V)) : (length (from k l) <= length l)%nat.
Proof. apply filter_length_le. Qed.

(** Every operation inside the window does what the specification does, and keeps its invariant. *)
Lemma exec_conc o a : spec_ok a -> admissible a o -> refines (exec clock_ o) (a_exec clock_ o a) a.
Proof.
  intros Hok Had. destruct o as [s k r|s|v| | |]; cbn [exec a_exec].
  - by apply Receive_conc.
  - split; [step (ClearTo_conc s a Hok Had); done|].
    apply smaller_ok; [done|apply increasing_from, Hok..|apply length_from_le| | |]; by intros x [? _]%elem_of_from.
  - split; [done|]. by destruct Hok.
  - split; [done|]. apply smaller_ok; try done; auto with increasing; try (cbn; lia); by intros x Hx%elem_of_nil.
  - cbn zeta. set (a' := ask_due clock_ kTimeOnly false a).
    assert (Hok' : spec_ok a') by by apply ask_due_ok. split; [|by destruct Hok'].
    unfold Process. unfold mbind at 1, ST_bind at 1. rewrite (ST_bind_assoc _ _ _ _ _ _ (ask_conc kTimeOnly false a Hok)).
    fold a'. step (Time_conc a'). unfold member, modify, mbind, ST_bind, conc. cbn. by rewrite !Nat.add_1_r.
  - split; [|by destruct Hok]. unfold TimeUntilNextProcess.
    rewrite (ST_bind_ret _ _ _ (next_time a) (conc a)) by done. step (Time_conc a).
    unfold conc. cbn. by rewrite Nat.add_1_r.
Qed.

Lemma init_ok delay_ms : spec_ok (a_init delay_ms).
Proof.
  constructor; cbn; try done; auto with increasing.
  by intros x Hx%elem_of_nil.
Qed.

Lemma run_conc ops a :
  spec_ok a -> admissible_run clock_ ops a ->
  run_ops clock_ ops (conc a) = Some ((a_run clock_ ops a).1, conc (a_run clock_ ops a).2) /\
  spec_ok (a_run clock_ ops a).2.
Proof.
  revert a. induction ops as [|o ops IH]; intros a Hok; [done|]. cbn [admissible_run a_run run_ops].
  intros [Ho Had]. destruct (exec_conc o a Hok Ho) as [E Hok'].
  destruct (a_exec clock_ o a) as [r a1]. cbn [fst snd] in *. step E.
  destruct (IH a1 Hok' Had) as [E' Hok2]. step E'. by destruct (a_run clock_ ops a1).
Qed.

End Steps.

Lemma construct_conc delay_ms :
  construct delay_ms = Some (module (conc (a_init delay_ms))).
Proof. done. Qed.
