(* ===== verification/NackSound.v ===== *)
(** * Properties of the NACK module

    What holds of every run of the module inside the window: only packets that did not arrive are
    asked for, each at most ten times, the list stays small, and a gap is asked for at once. *)

From S2P Require Import Prelude SeqNum SeqRing SeqMap OrderedSet NackModule NackSpec NackRefine.
Import RtpSequenceNumberMap NackModule.

(** How often a packet was asked for. *)
Fixpoint asked (k : Z) (l : list ask) : Z :=
  match l with
  | [] => 0
  | Ask b _ :: rest => Z.of_nat (count_occ Z.eq_dec b k) + asked k rest
  | AskKeyFrame :: rest => asked k rest
  end.

Lemma asked_app k l l' : asked k (l ++ l') = asked k l + asked k l'.
Proof. induction l as [|[b ?|] l IH]; cbn; lia. Qed.

Definition not_ahead (a : spec) (k : Z) : Prop :=
  match newest a with Some n => k <= n | None => False end.

Record sound (a : spec) : Prop := {
  s_received : forall k, k ∈ received a -> not_ahead a k;
  s_apart : forall x, x ∈ nacks a -> (x.1 ∉ received a) /\ value_of x.1 (recs a) = None;
  s_count : forall x, x ∈ nacks a -> asked x.1 (log a) = retries x.2 /\ retries x.2 < kMaxNackRetries;
  s_bound : forall k, asked k (log a) <= kMaxNackRetries;
  s_ahead : forall k, match newest a with Some n => n <= k | None => True end -> asked k (log a) = 0
}.

(** ** Asking *)

Lemma count_batch options now rtt delay l k :
  increasing l ->
  Z.of_nat (count_occ Z.eq_dec (batch_of options now rtt delay l) k) =
    match value_of k l with Some i => if is_due options now rtt delay i then 1 else 0 | None => 0 end.
Proof.
  induction l as [|x l IH]; intros Hi; [done|]. apply increasing_cons in Hi as [Hi Hx]. specialize (IH Hi).
  unfold value_of, batch_of in *. cbn [List.find List.filter].
  destruct (Z.eqb_spec x.1 k) as [E|E].
  - assert (Hnone : value_of k l = None).
    { apply value_of_None. intros y Hy E'. specialize (Hx y Hy). lia. }
    unfold value_of in Hnone. cbn [fmap option_fmap option_map]. rewrite Hnone in IH.
    destruct (is_due _ _ _ _ x.2); [|done]. rewrite fmap_cons, count_occ_cons_eq by done. lia.
  - destruct (is_due _ _ _ _ x.2); [|done]. rewrite fmap_cons, count_occ_cons_neq by done. done.
Qed.

Lemma asked_with_log k buffering b l :
  asked k (with_log buffering b l) = asked k l + Z.of_nat (count_occ Z.eq_dec b k).
Proof. unfold with_log. destruct b as [|x b]; [cbn; lia|]. rewrite asked_app. cbn [asked]. lia. Qed.

Section Sound.
Context (clock_ : nat -> Z).

Lemma ask_due_sound options buffering a :
  spec_ok a -> sound a -> sound (ask_due clock_ options buffering a).
Proof.
  intros Hok [S1 S2 S3 S4 S5]. pose proof (ok_nacks a Hok) as Hi. unfold ask_due.
  set (now := clock_ (readings a)).
  assert (Hc : forall k, asked k (with_log buffering (batch_of options now (rtt a) (delay a) (nacks a)) (log a)) =
    asked k (log a) + match value_of k (nacks a) with
                      | Some i => if is_due options now (rtt a) (delay a) i then 1 else 0 | None => 0 end).
  { intros k. by rewrite asked_with_log, count_batch. }
  constructor; cbn [with_reading with_asks with_nacks newest nacks recs log received].
  - exact S1.
  - intros y Hy. apply list_elem_of_omap in Hy as (x & Hx & E). apply after_ask_key in E as [-> _]. auto.
  - intros y Hy. apply list_elem_of_omap in Hy as ([k i] & Hx & E). rewrite Hc.
    destruct (S3 _ Hx) as [E1 E2]. cbn [fst snd] in *. unfold after_ask in E. cbn [fst snd] in E.
    pose proof (value_of_elem k i (nacks a) Hi Hx) as Ev.
    destruct (is_due options now (rtt a) (delay a) i) eqn:Ed.
    + destruct (Z.leb_spec kMaxNackRetries (retries i + 1)); [done|]. injection E as <-. cbn.
      rewrite Ev, Ed. lia.
    + injection E as <-. cbn. rewrite Ev, Ed. lia.
  - intros k. rewrite Hc. specialize (S4 k). destruct (value_of k (nacks a)) as [i|] eqn:Ev; [|lia].
    apply value_of_Some in Ev. destruct (S3 _ Ev) as [E1 E2]. cbn in E1, E2. destruct (is_due _ _ _ _ i); lia.
  - intros k Hk. rewrite Hc, S5 by done. rewrite (proj2 (value_of_None k (nacks a))); [done|].
    intros x Hx E. pose proof (ok_window a Hok) as Hw. destruct (newest a) as [n|].
    + apply Hw in Hx. lia.
    + rewrite (proj1 Hw) in Hx. by apply elem_of_nil in Hx.
Qed.

(** What asking adds to the log. *)
Lemma ask_due_log options buffering a :
  exists new, log (ask_due clock_ options buffering a) = log a ++ new /\
    forall b buf k, Ask b buf ∈ new -> k ∈ b -> exists i, (k, i) ∈ nacks a.
Proof.
  unfold ask_due, with_log. cbn [with_reading with_asks with_nacks log].
  destruct (batch_of _ _ _ _ _) as [|x b] eqn:E.
  - exists []. rewrite app_nil_r. split; [done|]. by intros b buf k Hb%elem_of_nil.
  - eexists. split; [done|]. intros b' buf k Hb. apply list_elem_of_singleton in Hb. injection Hb as -> ->.
    rewrite <- E. intros Hk. apply list_elem_of_fmap in Hk as ([k' i] & -> & Hi). exists i.
    apply elem_of_filter_bool in Hi as [Hi _]. done.
Qed.

(** ** The other operations *)

(** Dropping packets and elements of the lists. *)
Lemma smaller_sound a ns ks rs :
  sound a -> (forall x, x ∈ ns -> x ∈ nacks a) -> (forall x, x ∈ rs -> x ∈ recs a) ->
  sound (with_recs rs (with_keys ks (with_nacks ns a))).
Proof.
  intros [S1 S2 S3 S4 S5] Hn Hr. constructor; cbn; auto.
  intros x Hx. destruct (S2 x (Hn x Hx)) as [H1 H2]. split; [done|].
  apply value_of_None. intros y Hy E. apply (proj1 (value_of_None _ _) H2 y (Hr y Hy) E).
Qed.

Lemma add_missing_sound n s a :
  newest a = Some n -> n < s -> (forall x, x ∈ nacks a -> x.1 < n) -> sound a ->
  sound (with_received s (with_newest (Some s) (add_missing clock_ n s a))).
Proof.
  intros En Hs Hn [S1 S2 S3 S4 S5]. unfold not_ahead in S1. rewrite En in S1, S5.
  unfold add_missing. set (old := from (s - kMaxPacketAge) (nacks a)).
  destruct (if kMaxNackPackets <? len old + (s - n - 1) then _ else _) as [ks ns] eqn:Et.
  assert (Hns : forall x, x ∈ ns -> x ∈ nacks a).
  { intros x Hx. assert (Ho : x ∈ old).
    { destruct (_ <? _); [apply trim_sub in Et as (_ & H & _); auto|by injection Et as <- <-]. }
    apply elem_of_from in Ho. apply Ho. }
  assert (Hrec : forall k, k ∈ s :: received a -> k <= s).
  { intros k [->|Hk%S1]%elem_of_cons; lia. }
  assert (Hnot : forall k, k ∉ received a -> k < s -> k ∉ s :: received a).
  { intros k Hk Hlt [->|?]%elem_of_cons; [lia|done]. }
  destruct (kMaxNackPackets <? len ns + (s - n - 1)); constructor;
    cbn [with_received with_newest with_asks with_nacks with_keys with_reading newest nacks recs log received]; try done.
  - by intros x Hx%elem_of_nil.
  - by intros x Hx%elem_of_nil.
  - intros k. rewrite asked_app. cbn. specialize (S4 k). lia.
  - intros k Hk. rewrite asked_app. cbn. rewrite S5; lia.
  - intros x [Hx%Hns|(Hx & _ & Hv & _)%fresh_elem]%elem_of_app.
    + destruct (S2 x Hx) as [H1 H2]. apply Hn in Hx. split; [apply Hnot; [done|lia]|done].
    + split; [|done]. apply Hnot; [|lia]. intros Hin%S1. lia.
  - intros x [Hx%Hns|(Hx & _ & _ & _ & Hr)%fresh_elem]%elem_of_app; [auto|].
    rewrite Hr, S5 by lia. done.
  - intros k Hk. apply S5. lia.
Qed.

Lemma receive_sound s k r a :
  spec_ok a -> admissible a (Receive s k r) -> sound a -> sound (receive clock_ s k r a).2.
Proof.
  intros Hok Had Hsd. unfold admissible in Had. pose proof (ok_window a Hok) as Hw. pose proof Hsd as [S1 S2 S3 S4 S5]. unfold receive.
  destruct (newest a) as [n|] eqn:En.
  - destruct (Z.eqb_spec s n) as [->|Hne]; [done|]. destruct (Z.ltb_spec s n) as [Hlt|Hge]; cbn [fst snd].
    + assert (Hsub : forall x, x ∈ below s (nacks a) ++ above s (nacks a) -> x ∈ nacks a /\ x.1 <> s).
      { intros x [[Hx ?]%elem_of_below|[Hx ?]%elem_of_above]%elem_of_app; (split; [done|lia]). }
      constructor; cbn [with_received with_nacks newest nacks recs log received]; unfold not_ahead in *; cbn; rewrite ?En in *.
      * intros j [->|Hj%S1]%elem_of_cons; [lia|done].
      * intros x Hx%Hsub. destruct Hx as [Hx Hxs]. destruct (S2 x Hx) as [H1 H2]. split; [|done].
        intros [E|?]%elem_of_cons; [lia|done].
      * intros x Hx%Hsub. apply S3, Hx.
      * done.
      * done.
    + destruct Hw as (Hn & Hk & Hr). destruct r; cbn [fst snd].
      * constructor; cbn [with_recs with_keys newest nacks recs log received]; try done; [|by rewrite En in *].
        intros x Hx. destruct (S2 x Hx) as [H1 H2]. split; [done|]. apply value_of_None.
        intros y Hy%elem_of_from E. destruct Hy as [Hy _]. apply elem_of_put in Hy as [Hy|Hy].
        -- apply (proj1 (value_of_None _ _) H2 y Hy E).
        -- apply Hn in Hx. lia.
      * destruct Had as [Hs Hrec].
        pose proof (new_arriving n s k a Hok En ltac:(lia) (Hrec eq_refl ltac:(lia))) as Harr.
        assert (Hok2 : spec_ok (with_newest (Some s) (add_missing clock_ n s
                  (with_keys (from (s - kMaxPacketAge) (noted s k a)) a)))).
        { apply add_missing_ok; [done|apply Hok]. }
        apply ask_due_sound; [by destruct Hok2|]. apply add_missing_sound; [done|lia| |by destruct Hsd].
        intros x Hx%Hn. lia.
  - destruct Hw as (E1 & E2 & E3). constructor; cbn [fst snd with_received with_keys with_newest newest nacks recs log received].
    + intros j [->|Hj%S1]%elem_of_cons; [unfold not_ahead; cbn; lia|]. unfold not_ahead in Hj. by rewrite En in Hj.
    + rewrite E1. by intros x Hx%elem_of_nil.
    + rewrite E1. by intros x Hx%elem_of_nil.
    + done.
    + intros j _. by apply S5.
Qed.

(** Requests that name only packets that are missing in the state. *)
Definition clean (new : list ask) (a : spec) : Prop :=
  forall b buf k, Ask b buf ∈ new -> k ∈ b ->
    (k ∉ received a) /\ value_of k (recs a) = None /\
    exists n, newest a = Some n /\ n - kMaxPacketAge <= k < n.

Lemma clean_nil a : clean [] a.
Proof. by intros b buf k Hb%elem_of_nil. Qed.

Lemma ask_due_clean options buffering a :
  spec_ok a -> sound a ->
  exists new, log (ask_due clock_ options buffering a) = log a ++ new /\
    clean new (ask_due clock_ options buffering a).
Proof.
  intros Hok Hsd. destruct (ask_due_log options buffering a) as (new & E & H). exists new. split; [done|].
  intros b buf k Hb Hk. destruct (H b buf k Hb Hk) as [i Hi]. cbn.
  destruct (s_apart a Hsd _ Hi) as [H1 H2]. split; [done|]. split; [done|].
  pose proof (ok_window a Hok) as Hw. destruct (newest a) as [n|].
  - exists n. split; [done|]. by apply (proj1 Hw (k, i)).
  - rewrite (proj1 Hw) in Hi. by apply elem_of_nil in Hi.
Qed.

Lemma add_missing_log n s a :
  log (add_missing clock_ n s a) = log a \/ log (add_missing clock_ n s a) = log a ++ [AskKeyFrame].
Proof.
  unfold add_missing. destruct (if _ <? _ then _ else _). destruct (_ <? _); [by right|by left].
Qed.

Lemma exec_sound o a :
  spec_ok a -> admissible a o -> sound a ->
  sound (a_exec clock_ o a).2 /\
  exists new, log (a_exec clock_ o a).2 = log a ++ new /\ clean new (a_exec clock_ o a).2.
Proof.
  intros Hok Had Hsd.
  assert (Hnil : exists new, log a = log a ++ new /\ forall a', clean new a').
  { exists []. rewrite app_nil_r. split; [done|]. apply clean_nil. }
  assert (Hq : forall a', log a' = log a -> exists new, log a' = log a ++ new /\ clean new a').
  { intros a' ->. destruct Hnil as (new & E & H). eauto. }
  destruct o as [s k r|s|v| | |]; cbn [a_exec fst snd].
  - split; [by apply receive_sound|]. unfold receive. unfold admissible in Had.
    destruct (newest a) as [n|] eqn:En; [|by apply Hq]. destruct Had as [Hs Hrec].
    destruct (Z.eqb_spec s n) as [->|Hne]; [by apply Hq|]. destruct (Z.ltb_spec s n) as [Hlt|Hge]; [by apply Hq|].
    destruct r; [by apply Hq|]. cbn [fst snd]. fold (noted s k a).
    set (a1 := with_keys (from (s - kMaxPacketAge) (noted s k a)) a).
    pose proof (new_arriving n s k a Hok En ltac:(lia) (Hrec eq_refl ltac:(lia))) as Harr. fold a1 in Harr.
    assert (Hok2 : spec_ok (with_newest (Some s) (add_missing clock_ n s a1))).
    { apply add_missing_ok; [done|apply Hok]. }
    destruct (ask_due_clean kSeqNumOnly true
                (with_received s (with_newest (Some s) (add_missing clock_ n s a1)))) as (new & E & Hc).
    + by destruct Hok2.
    + apply add_missing_sound; [done|lia| |by destruct Hsd]. intros x Hx. apply (arr_nacks _ _ _ Harr) in Hx. lia.
    + destruct (add_missing_log n s a1) as [El|El].
      * exists new. rewrite E. cbn [with_received with_newest log]. by rewrite El.
      * exists (AskKeyFrame :: new). rewrite E. cbn [with_received with_newest log]. rewrite El, <- app_assoc.
        split; [done|]. intros b buf j [Hb|Hb]%elem_of_cons; [done|]. by apply (Hc b buf j).
  - split; [|by apply Hq]. apply smaller_sound; [done| |]; intros x Hx%elem_of_from; apply Hx.
  - split; [by destruct Hsd|by apply Hq].
  - split; [|by apply Hq]. apply smaller_sound; [done| |]; by intros x Hx%elem_of_nil.
  - split; [by destruct (ask_due_sound kTimeOnly false a Hok Hsd)|]. by apply ask_due_clean.
  - split; [by destruct Hsd|by apply Hq].
Qed.

Lemma init_sound delay_ms : sound (a_init delay_ms).
Proof. constructor; cbn; try done; by intros x Hx%elem_of_nil. Qed.

Lemma run_sound ops a :
  spec_ok a -> admissible_run clock_ ops a -> sound a ->
  spec_ok (a_run clock_ ops a).2 /\ sound (a_run clock_ ops a).2.
Proof.
  revert a. induction ops as [|o ops IH]; intros a Hok; [done|]. cbn [admissible_run a_run].
  intros [Ho Had] Hsd. destruct (exec_conc clock_ o a Hok Ho) as [_ Hok'].
  destruct (exec_sound o a Hok Ho Hsd) as [Hsd' _]. destruct (a_exec clock_ o a) as [r a1]. cbn [fst snd] in *.
  specialize (IH a1 Hok' Had Hsd'). by destruct (a_run clock_ ops a1).
Qed.

Lemma admissible_app ops ops' a :
  admissible_run clock_ (ops ++ ops') a <->
  admissible_run clock_ ops a /\ admissible_run clock_ ops' (a_run clock_ ops a).2.
Proof.
  revert a. induction ops as [|o ops IH]; intros a; cbn [admissible_run a_run app]; [tauto|].
  rewrite IH. destruct (a_exec clock_ o a) as [r a1]. cbn [snd]. destruct (a_run clock_ ops a1). tauto.
Qed.

Lemma a_run_last ops o a :
  (a_run clock_ (ops ++ [o]) a).2 = (a_exec clock_ o (a_run clock_ ops a).2).2.
Proof.
  revert a. induction ops as [|o' ops IH]; intros a; cbn [a_run app].
  - cbn [snd]. by destruct (a_exec clock_ o a).
  - destruct (a_exec clock_ o' a) as [r a1]. specialize (IH a1).
    destruct (a_run clock_ (ops ++ [o]) a1), (a_run clock_ ops a1). done.
Qed.

(** ** A gap is asked for at once *)

Lemma fresh_complete n k r recs j :
  k <= j < k + Z.of_nat n -> value_of j recs = None ->
  exists r', (r <= r' < r + length (fresh clock_ n k r recs))%nat /\
    (j, new_info (seq_of j) (seq_of j) (clock_ r')) ∈ fresh clock_ n k r recs.
Proof.
  revert k r. induction n as [|n IH]; intros k r Hj Hv; [lia|]. cbn [fresh].
  destruct (Z.eq_dec j k) as [->|Hne].
  - rewrite Hv. exists r. cbn. split; [lia|constructor].
  - destruct (value_of k recs).
    + apply IH; [lia|done].
    + destruct (IH (k + 1) (S r) ltac:(lia) Hv) as (r' & Hr & Hin). exists r'. cbn. split; [lia|by constructor].
Qed.

Lemma add_missing_gap n s a j :
  len (nacks a) + (s - n - 1) <= kMaxNackPackets -> n < j < s -> value_of j (recs a) = None ->
  exists r, (r < readings (add_missing clock_ n s a))%nat /\
    (j, new_info (seq_of j) (seq_of j) (clock_ r)) ∈ nacks (add_missing clock_ n s a).
Proof.
  intros Hl Hj Hv. unfold add_missing. set (old := from (s - kMaxPacketAge) (nacks a)).
  assert (Ho : len old <= len (nacks a)) by (unfold len, old; pose proof (length_from_le (s - kMaxPacketAge) (nacks a)); lia).
  rewrite (proj2 (Z.ltb_ge _ _)) by lia. rewrite (proj2 (Z.ltb_ge _ _)) by lia.
  destruct (fresh_complete (Z.to_nat (s - n - 1)) (n + 1) (readings a) (recs a) j ltac:(lia) Hv) as (r & Hr & Hin).
  exists r. cbn [with_reading with_nacks with_keys readings nacks]. split; [lia|]. apply elem_of_app. by right.
Qed.

Lemma ask_due_gap options buffering a j i :
  (j, i) ∈ nacks a -> is_due options (clock_ (readings a)) (rtt a) (delay a) i = true ->
  exists b, log (ask_due clock_ options buffering a) = log a ++ [Ask b buffering] /\ j ∈ b.
Proof.
  intros Hi Hd. unfold ask_due, with_log. cbn [with_reading with_asks with_nacks log].
  assert (Hj : j ∈ batch_of options (clock_ (readings a)) (rtt a) (delay a) (nacks a)).
  { apply list_elem_of_fmap. exists (j, i). split; [done|]. by apply elem_of_filter_bool. }
  destruct (batch_of _ _ _ _ _) as [|x b]; [by apply elem_of_nil in Hj|]. eauto.
Qed.

Lemma exec_delay o a : delay (a_exec clock_ o a).2 = delay a.
Proof.
  destruct o as [s k r|s|v| | |]; try done. cbn [a_exec]. unfold receive.
  destruct (newest a) as [n|]; [|done]. destruct (s =? n); [done|]. destruct (s <? n); [done|]. destruct r; [done|].
  cbn. unfold add_missing. destruct (if _ <? _ then _ else _). by destruct (_ <? _).
Qed.

Lemma run_delay ops a : delay (a_run clock_ ops a).2 = delay a.
Proof.
  revert a. induction ops as [|o ops IH]; intros a; [done|]. cbn [a_run].
  pose proof (exec_delay o a) as E. destruct (a_exec clock_ o a) as [r a1]. specialize (IH a1).
  destruct (a_run clock_ ops a1). cbn in *. congruence.
Qed.

(** The request for a gap, on the specification. *)
Lemma receive_gap n s k a j :
  (forall r r', (r <= r')%nat -> clock_ r <= clock_ r') -> delay a = 0 -> newest a = Some n ->
  len (nacks a) + (s - n - 1) <= kMaxNackPackets -> n < j < s -> value_of j (recs a) = None ->
  exists b, log (receive clock_ s k false a).2 = log a ++ [Ask b true] /\ j ∈ b /\
    (receive clock_ s k false a).1 = 0.
Proof.
  intros Hclock Hd En Hl Hj Hv. unfold receive. rewrite En, (proj2 (Z.eqb_neq s n)), (proj2 (Z.ltb_ge s n)) by lia.
  cbn [fst snd]. set (a1 := with_keys _ a).
  destruct (add_missing_gap n s a1 j Hl Hj Hv) as (r & Hr & Hin).
  assert (Ea : log (add_missing clock_ n s a1) = log a /\ delay (add_missing clock_ n s a1) = 0).
  { unfold add_missing. change (nacks a1) with (nacks a). set (old := from (s - kMaxPacketAge) (nacks a)).
    assert (Ho : len old <= len (nacks a)).
    { unfold len, old. pose proof (length_from_le (s - kMaxPacketAge) (nacks a)). lia. }
    rewrite (proj2 (Z.ltb_ge _ (len old + _))) by lia. rewrite (proj2 (Z.ltb_ge _ _)) by lia. done. }
  destruct Ea as [El Ed].
  destruct (ask_due_gap kSeqNumOnly true (with_received s (with_newest (Some s) (add_missing clock_ n s a1))) j
              (new_info (seq_of j) (seq_of j) (clock_ r)) Hin) as (b & E & Hb).
  - unfold is_due. cbn. rewrite Ed, andb_true_r. apply Z.leb_le.
    assert (clock_ r <= clock_ (readings (add_missing clock_ n s a1))) by (apply Hclock; lia). lia.
  - exists b. rewrite E. cbn [with_received with_newest log]. by rewrite El.
Qed.

End Sound.

(** ** The claims *)

(** The fresh module of the code. *)
Definition start (delay_ms : Z) : option world := m ← construct delay_ms; Some (World m 0 []).

Lemma start_conc delay_ms : start delay_ms = Some (conc (a_init delay_ms)).
Proof. done. Qed.

(** C34: the NACK module refines its specification over integers.  Every run of its operations, in any
    order and across any number of wrap-arounds of the sequence numbers, in which packets are less
    than 32768 behind and at most 16384 in front of the newest one and recovered packets are
    forgotten in time, runs without a failed check or an undefined comparison, returns what the
    specification returns, sends the requests of the specification and holds its lists. *)
Theorem nack_module_refines clock_ delay_ms ops :
  admissible_run clock_ ops (a_init delay_ms) ->
  exists w w', start delay_ms = Some w /\
    run_ops clock_ ops w = Some ((a_run clock_ ops (a_init delay_ms)).1, w') /\
    nack_list_ (module w') = im (nacks (a_run clock_ ops (a_init delay_ms)).2) /\
    events w' = wrapped <$> log (a_run clock_ ops (a_init delay_ms)).2 /\
    w' = conc (a_run clock_ ops (a_init delay_ms)).2.
Proof.
  intros Had. destruct (run_conc clock_ ops _ (init_ok delay_ms) Had) as [E _].
  eexists _, _. split; [apply start_conc|]. rewrite E. done.
Qed.

(** C35: in every run of the NACK module inside the window, the list of packets to ask for holds at most
    1000 entries; a request sent by the last operation names only packets of the last 10000 that did
    not arrive until then and are not known to be recovered; and over the whole run no packet is
    asked for more than 10 times. *)
Theorem nack_module_sound clock_ delay_ms ops o :
  admissible_run clock_ (ops ++ [o]) (a_init delay_ms) ->
  let a := (a_run clock_ ops (a_init delay_ms)).2 in
  let a' := (a_run clock_ (ops ++ [o]) (a_init delay_ms)).2 in
  exists rs w', run_ops clock_ (ops ++ [o]) (conc (a_init delay_ms)) = Some (rs, w') /\
    len (nack_list_ (module w')) <= kMaxNackPackets /\
    (exists new, events w' = (wrapped <$> log a) ++ (wrapped <$> new) /\ clean new a') /\
    events w' = wrapped <$> log a' /\ forall k, asked k (log a') <= kMaxNackRetries.
Proof.
  intros Had a a'. destruct (run_conc clock_ _ _ (init_ok delay_ms) Had) as [E Hok'].
  fold a' in E, Hok'. eexists _, (conc a'). split; [exact E|]. cbn [conc module nack_list_ events]. rewrite len_im.
  pose proof (proj1 (admissible_app clock_ ops [o] _) Had) as [Had1 [Ho _]].
  destruct (run_sound clock_ ops _ (init_ok delay_ms) Had1 (init_sound delay_ms)) as [Hok Hsd].
  destruct (exec_sound clock_ o _ Hok Ho Hsd) as [Hsd' (new & El & Hc)].
  rewrite <- a_run_last in Hsd', El, Hc. split; [apply Hok'|]. split; [|split; [done|apply Hsd']].
  exists new. unfold a', a. rewrite El, fmap_app. done.
Qed.

(** C36: after any run of the NACK module inside the window, with no configured delay and a clock that
    does not go back, a packet of the window that leaves a gap for which the list has room makes the module ask at
    once, in one request, for every packet of the gap whose number is not in its list of recovered packets. *)
Theorem nack_gap_asked clock_ delay_ms ops s k j :
  (forall r r', (r <= r')%nat -> clock_ r <= clock_ r') -> GetSendNackDelay delay_ms = 0 ->
  admissible_run clock_ (ops ++ [Receive s k false]) (a_init delay_ms) ->
  let a := (a_run clock_ ops (a_init delay_ms)).2 in
  len (nacks a) + (s - default s (newest a) - 1) <= kMaxNackPackets ->
  default s (newest a) < j < s -> value_of j (recs a) = None ->
  exists w', OnReceivedPacket clock_ (seq_of s) k false (conc a) = Some (0, w') /\
    exists batch, events w' = events (conc a) ++ [SendNack batch true] /\ seq_of j ∈ batch.
Proof.
  intros Hclock Hdelay Had a Hl Hj Hv.
  pose proof (proj1 (admissible_app clock_ ops _ _) Had) as [Had1 [Ho _]]. fold a in Ho.
  destruct (run_sound clock_ ops _ (init_ok delay_ms) Had1 (init_sound delay_ms)) as [Hok Hsd]. fold a in Hok, Hsd.
  destruct (exec_conc clock_ _ _ Hok Ho) as [E _]. cbn [exec a_exec] in E.
  destruct (newest a) as [n|] eqn:En; cbn in Hj, Hl; [|lia].
  assert (Hd : delay a = 0) by (unfold a; by rewrite run_delay).
  destruct (receive_gap clock_ n s k a j Hclock Hd En Hl Hj Hv) as (b & El & Hb & Er).
  rewrite Er in E. eexists. split; [exact E|]. exists (seq_of <$> b). cbn [conc events].
  rewrite El, fmap_app. split; [done|]. by apply list_elem_of_fmap_2.
Qed.

(** ** Instances *)

Definition test_clock (n : nat) : Z := 1000 + Z.of_nat n.

(** A gap across the wrap-around, a late packet, a recovered one and a tick. *)
Definition sample_ops : list op :=
  [Receive 65533 true false; Receive 65537 false false; Receive 65535 false false; Receive 65539 false true; Tick].

(** Admissible runs are decided by computation. *)
Definition admissible_bool (a : spec) (o : op) : bool :=
  match newest a, o with
  | Some n, Receive s _ is_recovered =>
      (n - 32768 <? s) && (s <=? n + kAhead) && (is_recovered || forallb (fun x => s - kBack <=? x.1) (recs a))
  | Some n, ClearTo s => (n - kBack <=? s) && (s <=? n + kAhead)
  | _, _ => true
  end.

Fixpoint admissible_run_bool (clock_ : nat -> Z) (ops : list op) (a : spec) : bool :=
  match ops with
  | [] => true
  | o :: rest => admissible_bool a o && admissible_run_bool clock_ rest (a_exec clock_ o a).2
  end.

Lemma admissible_bool_sound a o : admissible_bool a o = true -> admissible a o.
Proof.
  unfold admissible_bool, admissible. destruct (newest a) as [n|]; [|done]. destruct o as [s k r|s|v| | |]; try done.
  - rewrite !andb_true_iff, orb_true_iff, Z.ltb_lt, Z.leb_le, forallb_forall. intros [Hs Hr].
    split; [lia|]. intros -> _ x Hx. destruct Hr as [|Hr]; [done|]. apply Z.leb_le, Hr. by apply list_elem_of_In.
  - rewrite andb_true_iff, !Z.leb_le. lia.
Qed.

Lemma admissible_run_decided clock_ ops a : admissible_run_bool clock_ ops a = true -> admissible_run clock_ ops a.
Proof.
  revert a. induction ops as [|o ops IH]; intros a; [done|]. cbn. rewrite andb_true_iff. intros [H1 H2].
  split; [by apply admissible_bool_sound|by apply IH].
Qed.

Lemma nack_module_refines_witness :
  exists w w', start 0 = Some w /\
    run_ops test_clock sample_ops w = Some ([0; 0; 1; 0; 0], w') /\
    events w' = [SendNack [65534; 65535; 0] true].
Proof.
  destruct (nack_module_refines test_clock 0 sample_ops) as (w & w' & E1 & E2 & _ & E3 & _);
    [apply admissible_run_decided; reflexivity|].
  exists w, w'. split; [exact E1|]. split; [exact E2|exact E3].
Defined.

Lemma nack_module_sound_witness :
  exists rs w', run_ops test_clock sample_ops (conc (a_init 0)) = Some (rs, w') /\
    len (nack_list_ (module w')) <= 1000.
Proof.
  destruct (nack_module_sound test_clock 0 (take 4 sample_ops) Tick)
    as (rs & w' & E & H & _); [apply admissible_run_decided; reflexivity|].
  exists rs, w'. split; [exact E|exact H].
Defined.

Lemma nack_gap_asked_witness :
  exists w', OnReceivedPacket test_clock 1 false false
      (conc (a_run test_clock [Receive 65533 true false] (a_init 0)).2) = Some (0, w') /\
    exists batch, events w' = [SendNack batch true] /\ 0 ∈ batch.
Proof.
  apply (nack_gap_asked test_clock 0 [Receive 65533 true false] 65537 false 65536).
  - intros r r' Hr. unfold test_clock. lia.
  - reflexivity.
  - apply admissible_run_decided. reflexivity.
  - vm_compute. discriminate.
  - vm_compute. split; reflexivity.
  - reflexivity.
Defined.

(** ** A recovered packet that is not forgotten

    Recovered packets are only forgotten when another one is recovered or on [ClearUpTo].  Packet 5 is
    recovered; a whole turn of the sequence numbers later a packet with this number is lost, and
    no request names it. *)
Definition stale_ops : list op :=
  [Receive 0 true false; Receive 5 false true; Receive 6 false false; Receive 16006 false false;
   Receive 32006 false false; Receive 48006 false false; Receive 64006 false false; Receive 65540 false false;
   Receive 65542 false false].

Lemma stale_recovered_hides_a_loss :
  exists rs w', run_ops test_clock stale_ops (conc (a_init 0)) = Some (rs, w') /\
    nack_list_ (module w') = [] /\ events w' = [SendNack [1; 2; 3; 4] true; RequestKeyFrame; RequestKeyFrame;
      RequestKeyFrame; RequestKeyFrame; RequestKeyFrame].
Proof. eexists _, _. split; [vm_compute; reflexivity|]. split; reflexivity. Qed.
