(* ===== verification/FeedbackChunk.v ===== *)
(** * The packet status chunks of transport feedback

    [TransportFeedback::LastChunk] of src/src/myrtc/rtp_rtcp/transport_feedback.{h,cc}: the
    incremental encoder of packet statuses (delta sizes 0, 1 and 2) into 16-bit chunks, and the
    decoder.  [represents] relates an encoder to the list of delta sizes it holds. *)

From S2P Require Import Prelude.

Module LastChunk.

Definition kMaxRunLengthCapacity : Z := 0x1fff.
Definition kMaxOneBitCapacity : Z := 14.
Definition kMaxTwoBitCapacity : Z := 7.
Definition kMaxVectorCapacity : Z := kMaxOneBitCapacity.
Definition kLarge : Z := 2.

(** [delta_sizes_] is an array of [kMaxVectorCapacity] elements, not initialised by the
    constructor: [init] takes its content. *)
Record t := MkChunk {
  delta_sizes : list Z;
  size : Z;
  all_same : bool;
  has_large_delta : bool
}.

Definition first (this : t) : Z := default 0 (head (delta_sizes this)).

Definition Clear (this : t) : t := MkChunk (delta_sizes this) 0 true false.
Definition init (mem : list Z) : t := Clear (MkChunk mem 0 true false).
Definition Empty (this : t) : bool := size this =? 0.

Definition CanAdd (this : t) (delta_size : Z) : option bool :=
  check (delta_size <=? 2) ;;
  Some ((size this <? kMaxTwoBitCapacity)
        || ((size this <? kMaxOneBitCapacity) && negb (has_large_delta this) && negb (delta_size =? kLarge))
        || ((size this <? kMaxRunLengthCapacity) && all_same this && (first this =? delta_size))).

Definition Add (this : t) (delta_size : Z) : option t :=
  can ← CanAdd this delta_size;
  check can ;;
  let d := if size this <? kMaxVectorCapacity
           then <[Z.to_nat (size this) := delta_size]> (delta_sizes this) else delta_sizes this in
  Some (MkChunk d (size this + 1)
          (all_same this && (delta_size =? default 0 (head d)))
          (has_large_delta this || (delta_size =? kLarge))).

(** [for (size_t i = 0; i < size; ++i) chunk |= delta_sizes_[i] << bits * (capacity - 1 - i)]. *)
Fixpoint encode_loop (bits capacity : Z) (l : list Z) (i chunk : Z) : Z :=
  match l with
  | [] => chunk
  | x :: l' => encode_loop bits capacity l' (i + 1)
                 (u16 (Z.lor chunk (Z.shiftl x (bits * (capacity - 1 - i)))))
  end.

Definition EncodeOneBit (this : t) : option Z :=
  check (negb (has_large_delta this)) ;;
  check (size this <=? kMaxOneBitCapacity) ;;
  Some (encode_loop 1 kMaxOneBitCapacity (take (Z.to_nat (size this)) (delta_sizes this)) 0 0x8000).

Definition EncodeTwoBit (this : t) (n : Z) : option Z :=
  check (n <=? size this) ;;
  check (n <=? kMaxVectorCapacity) ;;
  Some (encode_loop 2 kMaxTwoBitCapacity (take (Z.to_nat n) (delta_sizes this)) 0 0xc000).

Definition EncodeRunLength (this : t) : option Z :=
  check (all_same this) ;;
  check (size this <=? kMaxRunLengthCapacity) ;;
  Some (u16 (Z.lor (Z.shiftl (first this) 13) (u16 (size this)))).

(** [Emit]: the chunk, and the encoder without the delta sizes it holds. *)
Definition Emit (this : t) : option (Z * t) :=
  can0 ← CanAdd this 0; can1 ← CanAdd this 1; can2 ← CanAdd this 2;
  check (negb can0 || negb can1 || negb can2) ;;
  if all_same this then
    chunk ← EncodeRunLength this; Some (chunk, Clear this)
  else if size this =? kMaxOneBitCapacity then
    chunk ← EncodeOneBit this; Some (chunk, Clear this)
  else
    check (kMaxTwoBitCapacity <=? size this) ;;
    chunk ← EncodeTwoBit this kMaxTwoBitCapacity;
    let size' := size this - kMaxTwoBitCapacity in
    let rest := take (Z.to_nat size') (drop (Z.to_nat kMaxTwoBitCapacity) (delta_sizes this)) in
    let d := rest ++ drop (Z.to_nat size') (delta_sizes this) in
    Some (chunk, MkChunk d size' (forallb (fun x => x =? default 0 (head d)) rest)
                   (existsb (fun x => x =? kLarge) rest)).

Definition EncodeLast (this : t) : option Z :=
  check (0 <? size this) ;;
  if all_same this then EncodeRunLength this
  else if size this <=? kMaxTwoBitCapacity then EncodeTwoBit this (size this)
  else EncodeOneBit this.

(** [for (size_t i = 0; i < size_; ++i) delta_sizes_[i] = (chunk >> bits * (capacity - 1 - i)) & mask]. *)
Definition decode_loop (bits capacity mask chunk n : Z) : list Z :=
  (fun i => Z.land (Z.shiftr chunk (bits * (capacity - 1 - i))) mask) <$> seqZ 0 n.

Definition overwrite (this : t) (l : list Z) : list Z := l ++ drop (length l) (delta_sizes this).

Definition DecodeOneBit (this : t) (chunk max_size : Z) : option t :=
  check (Z.land chunk 0xc000 =? 0x8000) ;;
  let n := Z.min kMaxOneBitCapacity max_size in
  Some (MkChunk (overwrite this (decode_loop 1 kMaxOneBitCapacity 0x01 chunk n)) n false false).

Definition DecodeTwoBit (this : t) (chunk max_size : Z) : option t :=
  check (Z.land chunk 0xc000 =? 0xc000) ;;
  let n := Z.min kMaxTwoBitCapacity max_size in
  Some (MkChunk (overwrite this (decode_loop 2 kMaxTwoBitCapacity 0x03 chunk n)) n false true).

Definition DecodeRunLength (this : t) (chunk max_count : Z) : option t :=
  check (Z.land chunk 0x8000 =? 0) ;;
  let n := Z.min (Z.land chunk 0x1fff) max_count in
  let delta_size := Z.land (Z.shiftr chunk 13) 0x03 in
  Some (MkChunk (overwrite this (replicate (Z.to_nat (Z.min n kMaxVectorCapacity)) delta_size)) n
          true (kLarge <=? delta_size)).

Definition Decode (this : t) (chunk max_size : Z) : option t :=
  if Z.land chunk 0x8000 =? 0 then DecodeRunLength this chunk max_size
  else if Z.land chunk 0x4000 =? 0 then DecodeOneBit this chunk max_size
  else DecodeTwoBit this chunk max_size.

(** What [AppendTo] appends; the vector part of the array must hold [size_] elements. *)
Definition AppendTo (this : t) : option (list Z) :=
  if all_same this then Some (replicate (Z.to_nat (size this)) (first this))
  else check (size this <=? len (delta_sizes this)) ;;
       Some (take (Z.to_nat (size this)) (delta_sizes this)).

(** ** What a chunk means *)

(** The delta sizes of a 16-bit chunk. *)
Definition chunk_sizes (chunk : Z) : list Z :=
  if Z.land chunk 0x8000 =? 0 then replicate (Z.to_nat (Z.land chunk 0x1fff)) (Z.land (Z.shiftr chunk 13) 0x03)
  else if Z.land chunk 0x4000 =? 0 then decode_loop 1 14 1 chunk 14
  else decode_loop 2 7 3 chunk 7.

Lemma land_pow2 v k : 0 <= k -> Z.land v (2 ^ k) = if Z.testbit v k then 2 ^ k else 0.
Proof.
  intros Hk. apply Z.bits_inj'. intros i Hi. rewrite Z.land_spec, Z.pow2_bits_eqb by done.
  destruct (Z.eqb_spec k i) as [->|Hne].
  - destruct (Z.testbit v i); rewrite ?Z.bits_0, ?Z.pow2_bits_true by done; done.
  - destruct (Z.testbit v k); rewrite ?Z.bits_0, ?Z.pow2_bits_false by done; apply andb_false_r.
Qed.

(** The bits that say how to read a chunk. *)
Lemma chunk_tags chunk :
  (Z.land chunk 0x8000 =? 0) = false ->
  (Z.land chunk 0xc000 =? (if Z.land chunk 0x4000 =? 0 then 0x8000 else 0xc000)) = true.
Proof.
  change 0xc000 with (Z.lor (2 ^ 15) (2 ^ 14)) at 1. rewrite Z.land_lor_distr_r.
  change 0x8000 with (2 ^ 15) at 1. change 0x4000 with (2 ^ 14). rewrite !land_pow2 by lia.
  destruct (Z.testbit chunk 15), (Z.testbit chunk 14); done.
Qed.

Lemma length_decode_loop bits cap mask chunk n : length (decode_loop bits cap mask chunk n) = Z.to_nat n.
Proof. unfold decode_loop. by rewrite length_fmap, length_seqZ. Qed.

Lemma take_decode_loop bits cap mask chunk n m :
  0 <= n <= m -> take (Z.to_nat n) (decode_loop bits cap mask chunk m) = decode_loop bits cap mask chunk n.
Proof.
  intros H. unfold decode_loop. rewrite <- fmap_take. f_equal.
  replace m with (n + (m - n)) by lia. rewrite seqZ_app, take_app_le by (rewrite ?length_seqZ; lia).
  apply firstn_all2. by rewrite length_seqZ.
Qed.

Lemma take_overwrite this l : take (length l) (overwrite this l) = l.
Proof. apply take_app_length. Qed.

Lemma AppendTo_vector this l n b :
  n = len l -> length (delta_sizes this) = 14%nat -> n <= 14 ->
  AppendTo (MkChunk (overwrite this l) n false b) = Some l.
Proof.
  intros -> Hd Hn. unfold AppendTo. cbn [all_same delta_sizes size]. unfold len in *.
  replace (_ <=? _) with true.
  - cbn [check mbind option_bind]. f_equal. rewrite Nat2Z.id. apply take_overwrite.
  - symmetry. apply Z.leb_le. unfold overwrite. rewrite length_app, length_drop. lia.
Qed.

(** Decoding and appending gives the first [max_size] delta sizes of the chunk, never aborts, and
    keeps the array. *)
Lemma Decode_AppendTo this chunk max_size :
  in_u 16 chunk -> 0 < max_size -> length (delta_sizes this) = 14%nat ->
  exists c, Decode this chunk max_size = Some c /\ length (delta_sizes c) = 14%nat /\
    AppendTo c = Some (take (Z.to_nat max_size) (chunk_sizes chunk)).
Proof.
  intros Hc Hm Hd. unfold Decode, chunk_sizes. pose proof (chunk_tags chunk) as Htags.
  destruct (Z.land chunk 0x8000 =? 0) eqn:E1.
  { unfold DecodeRunLength. rewrite E1. cbn [check mbind option_bind].
    eexists. split; [done|]. unfold overwrite. cbn [delta_sizes].
    change 0x1fff with (2 ^ 13 - 1). rewrite land_ones_mod by lia.
    pose proof (Z.mod_pos_bound chunk (2 ^ 13) ltac:(lia)) as Hr. set (n := chunk mod 2 ^ 13) in *.
    set (d := Z.land _ 3). unfold kMaxVectorCapacity, kMaxOneBitCapacity. split.
    { rewrite length_app, length_drop, length_replicate. lia. }
    unfold AppendTo, first. cbn [all_same size delta_sizes]. rewrite take_replicate. f_equal.
    replace (Z.to_nat max_size `min` Z.to_nat n)%nat with (Z.to_nat (Z.min n max_size)) by lia.
    destruct (decide (Z.min n max_size <= 0)).
    - replace (Z.to_nat (Z.min n max_size)) with 0%nat by lia. done.
    - f_equal. destruct (Z.to_nat (Z.min (Z.min n max_size) 14)) eqn:E; [lia|done]. }
  specialize (Htags eq_refl). unfold kMaxOneBitCapacity, kMaxTwoBitCapacity, kMaxVectorCapacity.
  destruct (Z.land chunk 0x4000 =? 0); [unfold DecodeOneBit|unfold DecodeTwoBit];
    rewrite Htags; cbn [check mbind option_bind]; (eexists; split; [done|]);
    unfold kMaxOneBitCapacity, kMaxTwoBitCapacity.
  - split; [cbn [delta_sizes]; unfold overwrite; rewrite length_app, length_drop, length_decode_loop; lia|].
    rewrite AppendTo_vector; [|unfold len; rewrite length_decode_loop; lia|done|lia]. f_equal.
    rewrite <- (take_decode_loop 1 14 1 chunk (Z.min 14 max_size) 14) by lia.
    destruct (decide (max_size <= 14)); [f_equal; lia|].
    rewrite !firstn_all2; [done|rewrite length_decode_loop; lia..].
  - split; [cbn [delta_sizes]; unfold overwrite; rewrite length_app, length_drop, length_decode_loop; lia|].
    rewrite AppendTo_vector; [|unfold len; rewrite length_decode_loop; lia|done|lia]. f_equal.
    rewrite <- (take_decode_loop 2 7 3 chunk (Z.min 7 max_size) 7) by lia.
    destruct (decide (max_size <= 7)); [f_equal; lia|].
    rewrite !firstn_all2; [done|rewrite length_decode_loop; lia..].
Qed.

(** ** Encoding *)

(** Symbols of [bits] bits each, packed from the top: the loop leaves the bits above them alone,
    and each symbol can be read back. *)
Lemma encode_loop_fields bits cap l i chunk :
  1 <= bits -> bits * cap <= 16 -> 0 <= i -> i + len l <= cap -> in_u 16 chunk ->
  chunk mod 2 ^ (bits * (cap - i)) = 0 -> Forall (in_u bits) l ->
  let r := encode_loop bits cap l i chunk in
  in_u 16 r /\ r / 2 ^ (bits * (cap - i)) = chunk / 2 ^ (bits * (cap - i)) /\
  forall j : nat, i + Z.of_nat j < cap ->
    (r / 2 ^ (bits * (cap - 1 - (i + Z.of_nat j)))) mod 2 ^ bits = default 0 (l !! j).
Proof.
  intros Hb Hcap Hi Hl. revert i chunk Hi Hl.
  induction l as [|x l IH]; intros i chunk Hi Hl Hc Hm Hx; cbn [encode_loop].
  { split; [done|]. split; [done|]. intros j Hj. cbn.
    apply Z.mod_divide in Hm as [q ->]; [|rewrite len_nil in Hl; apply Z.pow_nonzero; nia].
    replace (bits * (cap - i)) with (bits * Z.of_nat j + bits + bits * (cap - 1 - (i + Z.of_nat j))) by ring.
    rewrite !Z.pow_add_r, Z.mul_assoc by nia. rewrite Z_div_mult by (apply Z.lt_gt, Z.pow_pos_nonneg; nia).
    rewrite Z.mul_assoc. apply Z_mod_mult. }
  apply Forall_cons in Hx as [[Hx1 Hx2] Hx]. rewrite len_cons in Hl. pose proof (len_nonneg l).
  set (k := bits * (cap - 1 - i)). assert (Hk : 0 <= k) by nia.
  assert (Hk1 : bits * (cap - i) = k + bits) by (unfold k; ring).
  assert (Hk2 : bits * (cap - (i + 1)) = k) by (unfold k; ring).
  assert (Hk16 : k + bits <= 16) by (rewrite <- Hk1; nia).
  rewrite Hk1 in *. rewrite Z.pow_add_r in * by lia.
  set (P := 2 ^ k) in *. set (B := 2 ^ bits) in *.
  assert (HP : 0 < P) by (apply Z.pow_pos_nonneg; lia).
  assert (HB : 0 < B) by (apply Z.pow_pos_nonneg; lia).
  apply Z.mod_divide in Hm as [q Hq]; [|lia].
  assert (Hchunk' : u16 (Z.lor chunk (Z.shiftl x k)) = chunk + x * P /\ in_u 16 (chunk + x * P)).
  { rewrite Z.shiftl_mul_pow2 by lia. fold P.
    rewrite (lor_add_low _ _ (k + bits)); [|lia| |].
    - assert (Hin : in_u 16 (chunk + x * P)).
      { destruct Hc as [Hc1 Hc2]. split; [nia|].
        assert (P * B * 2 ^ (16 - (k + bits)) = 2 ^ 16) as Hsp.
        { unfold P, B. rewrite <- !Z.pow_add_r by lia. f_equal. lia. }
        assert (0 < 2 ^ (16 - (k + bits))) by (apply Z.pow_pos_nonneg; lia).
        rewrite <- Hsp in *. set (T := 2 ^ (16 - (k + bits))) in *.
        assert (Hq' : q < T) by (apply (Z.mul_lt_mono_pos_l (P * B)); nia).
        assert (q * (P * B) <= (T - 1) * (P * B)) by (apply Z.mul_le_mono_nonneg_r; nia).
        assert (x * P < B * P) by (apply Z.mul_lt_mono_pos_r; lia). lia. }
      split; [by apply wrap_small|done].
    - rewrite Z.pow_add_r by lia. fold P B. rewrite Hq. apply Z_mod_mult.
    - rewrite Z.pow_add_r by lia. fold P B. nia. }
  destruct Hchunk' as [Heq Hin]. fold k. rewrite Heq.
  destruct (IH (i + 1) (chunk + x * P)) as (Hr & Hup & Hf); [lia|lia|done| |done|].
  { rewrite Hk2. fold P. rewrite Hq. replace (q * (P * B) + x * P) with ((q * B + x) * P) by lia.
    apply Z_mod_mult. }
  rewrite Hk2 in Hup. fold P in Hup.
  assert (Hup' : encode_loop bits cap l (i + 1) (chunk + x * P) / P = q * B + x).
  { rewrite Hup, Hq. replace (q * (P * B) + x * P) with ((q * B + x) * P) by lia.
    apply Z_div_mult. lia. }
  split; [done|]. split.
  - rewrite <- Z.div_div, Hup', Z.div_add_l, Z.div_small by lia.
    rewrite Hq, Z_div_mult by lia. lia.
  - intros [|j] Hj.
    + replace (bits * (cap - 1 - (i + Z.of_nat 0))) with k by (unfold k; ring). fold P.
      rewrite Hup', Z.add_comm, Z_mod_plus_full. cbn. by apply Z.mod_small.
    + change ((x :: l) !! S j) with (l !! j). rewrite <- Hf by lia. do 3 f_equal. lia.
Qed.

Lemma decode_encode bits cap l tag :
  1 <= bits -> 0 <= cap -> bits * cap <= 16 -> len l <= cap -> in_u 16 tag ->
  tag mod 2 ^ (bits * cap) = 0 -> Forall (in_u bits) l ->
  let r := encode_loop bits cap l 0 tag in
  in_u 16 r /\ r / 2 ^ (bits * cap) = tag / 2 ^ (bits * cap) /\
  decode_loop bits cap (2 ^ bits - 1) r cap = l ++ replicate (Z.to_nat cap - length l) 0.
Proof.
  intros Hb Hc0 Hc Hl Ht Hm Hx.
  destruct (encode_loop_fields bits cap l 0 tag) as (Hr & Hup & Hf);
    rewrite ?Z.sub_0_r in *; try done; [lia..|].
  split; [done|]. split; [done|].
  apply list_eq. intros j. unfold decode_loop. rewrite list_lookup_fmap.
  destruct (decide (Z.of_nat j < cap)) as [Hj|Hj].
  - rewrite lookup_seqZ_lt by lia. cbn [fmap option_fmap option_map].
    rewrite Z.shiftr_div_pow2, land_ones_mod by nia.
    rewrite Z.add_0_l. specialize (Hf j ltac:(lia)). rewrite Z.add_0_l in Hf. rewrite Hf.
    destruct (l !! j) as [y|] eqn:E.
    + rewrite lookup_app_l by (by eapply lookup_lt_Some). by rewrite E.
    + apply lookup_ge_None in E. rewrite lookup_app_r by done. rewrite lookup_replicate_2; [done|].
      unfold len in Hl. lia.
  - rewrite lookup_seqZ_ge by lia. symmetry. apply lookup_ge_None.
    rewrite length_app, length_replicate. unfold len in Hl. lia.
Qed.

Lemma high_bits r b : 0 <= b -> Z.testbit r (14 + b) = Z.testbit (r / 2 ^ 14) b.
Proof.
  intros. rewrite <- Z.shiftr_div_pow2, Z.shiftr_spec by lia. f_equal. lia.
Qed.

Lemma chunk_sizes_one_bit l :
  len l <= 14 -> Forall (in_u 1) l ->
  in_u 16 (encode_loop 1 14 l 0 0x8000) /\
  chunk_sizes (encode_loop 1 14 l 0 0x8000) = l ++ replicate (14 - length l) 0.
Proof.
  intros Hl Hx. destruct (decode_encode 1 14 l 0x8000) as (Hr & Hup & Hd);
    [lia|lia|lia|done|by_compute|done|done|]. split; [done|].
  set (r := encode_loop 1 14 l 0 0x8000) in *. unfold chunk_sizes.
  change 0x8000 with (2 ^ 15). change 0x4000 with (2 ^ 14). rewrite !land_pow2 by lia.
  change (Z.testbit r 15) with (Z.testbit r (14 + 1)). change (Z.testbit r 14) with (Z.testbit r (14 + 0)).
  rewrite !high_bits by lia. change (1 * 14) with 14 in Hup. rewrite Hup. exact Hd.
Qed.

Lemma chunk_sizes_two_bit l :
  len l <= 7 -> Forall (in_u 2) l ->
  in_u 16 (encode_loop 2 7 l 0 0xc000) /\
  chunk_sizes (encode_loop 2 7 l 0 0xc000) = l ++ replicate (7 - length l) 0.
Proof.
  intros Hl Hx. destruct (decode_encode 2 7 l 0xc000) as (Hr & Hup & Hd);
    [lia|lia|lia|done|by_compute|done|done|]. split; [done|].
  set (r := encode_loop 2 7 l 0 0xc000) in *. unfold chunk_sizes.
  change 0x8000 with (2 ^ 15). change 0x4000 with (2 ^ 14). rewrite !land_pow2 by lia.
  change (Z.testbit r 15) with (Z.testbit r (14 + 1)). change (Z.testbit r 14) with (Z.testbit r (14 + 0)).
  rewrite !high_bits by lia. change (2 * 7) with 14 in Hup. rewrite Hup. exact Hd.
Qed.

Lemma chunk_sizes_run_length d n :
  0 <= d <= 3 -> 0 <= n <= 0x1fff ->
  in_u 16 (u16 (Z.lor (Z.shiftl d 13) (u16 n))) /\
  chunk_sizes (u16 (Z.lor (Z.shiftl d 13) (u16 n))) = replicate (Z.to_nat n) d.
Proof.
  intros Hd Hn. split; [apply wrap_range; lia|].
  rewrite (wrap_small 16 n) by (unfold in_u; change (2 ^ 16) with 65536; lia).
  rewrite lor_shiftl_low by (change (2 ^ 13) with 8192; lia). change (2 ^ 13) with 8192.
  rewrite wrap_small by (unfold in_u; change (2 ^ 16) with 65536; lia).
  set (v := d * 8192 + n). unfold chunk_sizes.
  change 0x8000 with (2 ^ 15) at 1. rewrite land_top_bit by (unfold in_u, v; change (2 ^ (15 + 1)) with 65536; lia).
  replace (2 ^ 15 <=? v) with false by (symmetry; apply Z.leb_gt; unfold v; change (2 ^ 15) with 32768; lia).
  cbn [Z.eqb]. change 0x1fff with (2 ^ 13 - 1). change 0x03 with (2 ^ 2 - 1).
  rewrite !land_ones_mod, Z.shiftr_div_pow2 by lia. change (2 ^ 13) with 8192. change (2 ^ 2) with 4.
  replace (v mod 8192) with n by (unfold v; Z.to_euclidean_division_equations; lia).
  replace ((v / 8192) mod 4) with d by (unfold v; Z.to_euclidean_division_equations; lia). done.
Qed.

(** ** The encoder's invariant *)

Definition all_eq (l : list Z) : bool := forallb (fun x => x =? default 0 (head l)) l.
Definition any_large (l : list Z) : bool := existsb (fun x => x =? kLarge) l.

(** The encoder holds the delta sizes [l]: all of them in the array when they are at most 14, only
    their common value when there are more. *)
Record represents (c : t) (l : list Z) : Prop := {
  rep_mem : length (delta_sizes c) = 14%nat;
  rep_size : size c = len l;
  rep_same : all_same c = all_eq l;
  rep_large : has_large_delta c = any_large l;
  rep_vals : Forall (fun x => 0 <= x <= 2) l;
  rep_prefix : take (Nat.min (length l) 14) (delta_sizes c) = take 14 l;
  rep_cap : len l <= 7 \/ (len l <= 14 /\ any_large l = false) \/ (len l <= 0x1fff /\ all_eq l = true)
}.

Lemma represents_empty c : length (delta_sizes c) = 14%nat -> represents (Clear c) [].
Proof. intros. split; try done. by left. Qed.

Lemma rep_first c x l : represents c (x :: l) -> first c = x.
Proof.
  intros []. unfold first. destruct (delta_sizes c) as [|y d]; [done|]. cbn in rep_prefix0.
  by injection rep_prefix0 as ->.
Qed.

Lemma all_eq_replicate l : all_eq l = true -> l = replicate (length l) (default 0 (head l)).
Proof.
  unfold all_eq. destruct l as [|x l]; [done|]. cbn [head default]. intros H.
  rewrite forallb_forall in H. symmetry. apply replicate_as_Forall_2; [done|]. apply Forall_forall.
  intros y Hy. symmetry. apply Z.eqb_eq, H. by apply list_elem_of_In.
Qed.

Lemma all_eq_snoc x y l : all_eq ((y :: l) ++ [x]) = all_eq (y :: l) && (x =? y).
Proof. unfold all_eq. rewrite forallb_app. cbn. by rewrite andb_true_r. Qed.

Lemma any_large_snoc l x : any_large (l ++ [x]) = any_large l || (x =? kLarge).
Proof. unfold any_large. rewrite existsb_app. cbn. by rewrite orb_false_r. Qed.

Lemma CanAdd_small c l x : represents c l -> x <= 2 -> len l < 7 -> CanAdd c x = Some true.
Proof.
  intros [] Hx Hl. unfold CanAdd, kMaxTwoBitCapacity. rewrite rep_size0.
  replace (x <=? 2) with true by (symmetry; by apply Z.leb_le).
  by replace (len l <? 7) with true by (symmetry; by apply Z.ltb_lt).
Qed.

Lemma CanAdd_total c x : x <= 2 -> exists b, CanAdd c x = Some b.
Proof.
  intros. unfold CanAdd. replace (x <=? 2) with true by (symmetry; by apply Z.leb_le). by eexists.
Qed.

(** What [CanAdd] answers, in terms of the list. *)
Lemma CanAdd_cap c l x :
  represents c l -> 0 <= x <= 2 -> CanAdd c x = Some true ->
  len (l ++ [x]) <= 7 \/ (len (l ++ [x]) <= 14 /\ any_large (l ++ [x]) = false) \/
  (len (l ++ [x]) <= 0x1fff /\ all_eq (l ++ [x]) = true).
Proof.
  intros Hr Hx. pose proof Hr as []. unfold CanAdd, kMaxTwoBitCapacity, kMaxOneBitCapacity, kMaxRunLengthCapacity.
  rewrite rep_size0, rep_large0, rep_same0.
  replace (x <=? 2) with true by (symmetry; apply Z.leb_le; lia). cbn [check mbind option_bind].
  rewrite len_app, len_cons, len_nil, any_large_snoc. intros [= Hc].
  apply orb_true_iff in Hc as [Hc|Hc]; [apply orb_true_iff in Hc as [Hc|Hc]|].
  - bool_prop. lia.
  - bool_prop. right. left. split; [lia|]. apply orb_false_iff. split; [done|by apply Z.eqb_neq].
  - bool_prop. destruct l as [|y l]; [left; rewrite len_nil; lia|]. rewrite (rep_first c y l Hr) in *.
    right. right. split; [lia|]. rewrite all_eq_snoc. apply andb_true_iff. split; [done|apply Z.eqb_eq; lia].
Qed.

Lemma Add_spec c l x :
  represents c l -> 0 <= x <= 2 -> CanAdd c x = Some true ->
  exists c', Add c x = Some c' /\ represents c' (l ++ [x]).
Proof.
  intros Hr Hx Hc. pose proof (CanAdd_cap c l x Hr Hx Hc) as Hcap. unfold Add. rewrite Hc.
  cbn [check mbind option_bind]. eexists. split; [done|]. pose proof Hr as [].
  unfold kMaxVectorCapacity, kMaxOneBitCapacity. rewrite rep_size0.
  set (d := if len l <? 14 then _ else _).
  assert (Hd : length d = 14%nat) by (unfold d; destruct (len l <? 14); rewrite ?length_insert; done).
  assert (Hpre : take (Nat.min (length (l ++ [x])) 14) d = take 14 (l ++ [x])).
  { rewrite length_app. cbn [length]. unfold d. destruct (Z.ltb_spec (len l) 14) as [Hlt|Hge]; unfold len in *.
    - rewrite Nat2Z.id. rewrite insert_take_drop by lia.
      rewrite (Nat.min_l (length l) 14) in rep_prefix0 by lia.
      rewrite rep_prefix0, (take_ge l 14) by lia. rewrite Nat.min_l by lia.
      rewrite (take_ge (l ++ [x])) by (rewrite length_app; cbn; lia).
      rewrite take_app_ge by lia. replace (_ - _)%nat with 1%nat by lia. cbn. by rewrite firstn_O.
    - rewrite Nat.min_r in * by lia. rewrite rep_prefix0. by rewrite take_app_le by lia. }
  split; cbn [delta_sizes size all_same has_large_delta]; try done.
  - rewrite len_app. done.
  - destruct l as [|y l].
    + unfold d. rewrite rep_same0. destruct (delta_sizes c) as [|z d']; [done|].
      change (len (@nil Z) <? 14) with true. unfold all_eq. cbn. by rewrite andb_true_r.
    + rewrite all_eq_snoc, rep_same0. f_equal. f_equal.
      destruct d as [|z d']; [done|]. cbn in Hpre. injection Hpre as -> _. done.
  - by rewrite any_large_snoc, rep_large0.
  - apply Forall_app. split; [done|]. constructor; [lia|constructor].
Qed.

Lemma AppendTo_spec c l : represents c l -> AppendTo c = Some l.
Proof.
  intros Hr. pose proof Hr as []. unfold AppendTo. rewrite rep_same0, rep_size0. destruct (all_eq l) eqn:E.
  - unfold len. rewrite Nat2Z.id. f_equal. destruct l as [|x l]; [done|].
    rewrite (rep_first c x l Hr). symmetry. by apply (all_eq_replicate (x :: l)).
  - assert (len l <= 14) by (destruct rep_cap0 as [|[[]|[]]]; [lia|lia|congruence]).
    unfold len in *. rewrite rep_mem0. replace (_ <=? _) with true by (symmetry; apply Z.leb_le; lia).
    cbn [check mbind option_bind]. rewrite Nat2Z.id. f_equal.
    rewrite Nat.min_l in rep_prefix0 by lia. rewrite rep_prefix0. apply take_ge. lia.
Qed.

Lemma no_large_bits l : Forall (fun x => 0 <= x <= 2) l -> any_large l = false -> Forall (in_u 1) l.
Proof.
  induction 1 as [|x l Hx _ IH]; [constructor|]. unfold any_large. cbn [existsb]. intros H.
  apply orb_false_iff in H as [Hn H]. constructor; [|by apply IH].
  apply Z.eqb_neq in Hn. unfold kLarge in Hn. unfold in_u. change (2 ^ 1) with 2. lia.
Qed.

Lemma two_bits l : Forall (fun x => 0 <= x <= 2) l -> Forall (in_u 2) l.
Proof. intros H. eapply Forall_impl; [exact H|]. intros x Hx. cbn in Hx. unfold in_u. change (2 ^ 2) with 4. lia. Qed.

Lemma EncodeRunLength_spec c l :
  represents c l -> l <> [] -> all_eq l = true ->
  exists chunk, EncodeRunLength c = Some chunk /\ in_u 16 chunk /\ chunk_sizes chunk = l.
Proof.
  intros Hr Hne He. pose proof Hr as []. unfold EncodeRunLength, kMaxRunLengthCapacity.
  rewrite rep_same0, He, rep_size0.
  assert (Hn : 0 <= len l <= 0x1fff).
  { pose proof (len_nonneg l). destruct rep_cap0 as [|[[]|[]]]; lia. }
  replace (_ <=? _) with true by (symmetry; apply Z.leb_le; lia). cbn [check mbind option_bind].
  eexists. split; [done|]. destruct l as [|x l]; [done|]. rewrite (rep_first c x l Hr).
  apply Forall_cons in rep_vals0 as [Hx _].
  destruct (chunk_sizes_run_length x (len (x :: l))) as [H1 H2]; [lia|done|]. split; [done|].
  rewrite H2. unfold len. rewrite Nat2Z.id. symmetry. by apply (all_eq_replicate (x :: l)).
Qed.

Lemma EncodeOneBit_spec c l :
  represents c l -> any_large l = false -> len l <= 14 ->
  exists chunk, EncodeOneBit c = Some chunk /\ in_u 16 chunk /\
    chunk_sizes chunk = l ++ replicate (14 - length l) 0.
Proof.
  intros [] Hl Hn. unfold EncodeOneBit, kMaxOneBitCapacity. rewrite rep_large0, Hl, rep_size0.
  replace (_ <=? _) with true by (symmetry; apply Z.leb_le; lia). cbn [negb check mbind option_bind].
  eexists. split; [done|]. unfold len in *. rewrite Nat2Z.id.
  rewrite Nat.min_l in rep_prefix0 by lia. rewrite rep_prefix0, take_ge by lia.
  apply chunk_sizes_one_bit; [unfold len; lia|by apply no_large_bits].
Qed.

Lemma EncodeTwoBit_spec c l n :
  represents c l -> 0 <= n <= 7 -> n <= len l ->
  exists chunk, EncodeTwoBit c n = Some chunk /\ in_u 16 chunk /\
    chunk_sizes chunk = take (Z.to_nat n) l ++ replicate (7 - Z.to_nat n) 0.
Proof.
  intros [] Hn Hl. unfold EncodeTwoBit, kMaxTwoBitCapacity, kMaxVectorCapacity, kMaxOneBitCapacity.
  rewrite rep_size0.
  replace (n <=? len l) with true by (symmetry; apply Z.leb_le; lia).
  replace (n <=? 14) with true by (symmetry; apply Z.leb_le; lia). cbn [check mbind option_bind].
  eexists. split; [done|]. unfold len in *.
  assert (Ht : take (Z.to_nat n) (delta_sizes c) = take (Z.to_nat n) l).
  { transitivity (take (Z.to_nat n) (take (Nat.min (length l) 14) (delta_sizes c))).
    - rewrite take_take. f_equal. lia.
    - rewrite rep_prefix0, take_take. f_equal. lia. }
  rewrite Ht. pose proof (chunk_sizes_two_bit (take (Z.to_nat n) l)) as Hc.
  unfold len in Hc. rewrite length_take, Nat.min_l in Hc by lia.
  apply Hc; [lia|]. by apply two_bits, Forall_take.
Qed.

(** Once some delta size cannot be added, [Emit] takes a prefix out and leaves room. *)
Lemma Emit_spec c l x :
  represents c l -> 0 <= x <= 2 -> CanAdd c x = Some false ->
  exists chunk c' pre suf, Emit c = Some (chunk, c') /\ l = pre ++ suf /\ in_u 16 chunk /\
    chunk_sizes chunk = pre /\ represents c' suf /\ len suf < 7.
Proof.
  intros Hr Hx Hno. pose proof Hr as [].
  assert (Hl7 : 7 <= len l).
  { destruct (decide (len l < 7)) as [Hs|]; [|lia].
    rewrite (CanAdd_small c l x Hr) in Hno by (done || lia). done. }
  assert (Hne : l <> []) by (intros ->; rewrite len_nil in Hl7; lia).
  unfold Emit.
  destruct (CanAdd_total c 0 ltac:(lia)) as [b0 H0]. destruct (CanAdd_total c 1 ltac:(lia)) as [b1 H1].
  destruct (CanAdd_total c 2 ltac:(lia)) as [b2 H2]. rewrite H0, H1, H2. cbn [mbind option_bind].
  replace (negb b0 || negb b1 || negb b2) with true.
  2:{ assert (x = 0 \/ x = 1 \/ x = 2) as [->|[->| ->]] by lia;
      [rewrite Hno in H0; injection H0 as <-|rewrite Hno in H1; injection H1 as <-
      |rewrite Hno in H2; injection H2 as <-]; repeat match goal with b : bool |- _ => destruct b end; done. }
  cbn [check mbind option_bind]. rewrite rep_same0. destruct (all_eq l) eqn:Hs.
  { destruct (EncodeRunLength_spec c l Hr Hne Hs) as (chunk & -> & Hc & Hcs). cbn [mbind option_bind].
    exists chunk, (Clear c), l, []. rewrite app_nil_r. split; [done|]. split; [done|]. split; [done|].
    split; [done|]. split; [by apply represents_empty|done]. }
  assert (Hcap : len l <= 14 /\ (7 < len l -> any_large l = false)).
  { destruct rep_cap0 as [|[[]|[]]]; [lia|done|congruence]. }
  destruct Hcap as [Hl14 Hnl]. unfold kMaxOneBitCapacity, kMaxTwoBitCapacity. rewrite rep_size0.
  destruct (Z.eqb_spec (len l) 14) as [H14|Hn14].
  { destruct (EncodeOneBit_spec c l Hr) as (chunk & -> & Hc & Hcs); [apply Hnl; lia|done|].
    cbn [mbind option_bind]. exists chunk, (Clear c), l, []. rewrite app_nil_r.
    split; [done|]. split; [done|]. split; [done|]. split; [|split; [by apply represents_empty|done]].
    rewrite Hcs. unfold len in H14. replace (14 - length l)%nat with 0%nat by lia. apply app_nil_r. }
  replace (7 <=? len l) with true by (symmetry; by apply Z.leb_le). cbn [check mbind option_bind].
  destruct (EncodeTwoBit_spec c l 7 Hr) as (chunk & -> & Hc & Hcs); [lia|done|].
  cbn [mbind option_bind]. change (Z.to_nat 7) with 7%nat in *. unfold len in *.
  set (n := Z.to_nat (Z.of_nat (length l) - 7)). assert (Hn : n = (length l - 7)%nat) by lia.
  assert (Hrest : take n (drop 7 (delta_sizes c)) = drop 7 l).
  { rewrite take_drop_commute. rewrite Nat.min_l in rep_prefix0 by lia.
    replace (7 + n)%nat with (length l) by lia. rewrite rep_prefix0, take_ge by lia. done. }
  rewrite Hrest. rewrite Nat.sub_diag, app_nil_r in Hcs.
  set (suf := drop 7 l) in *. assert (Hsuf : length suf = n) by (unfold suf; rewrite length_drop; lia).
  exists chunk, (MkChunk (suf ++ drop n (delta_sizes c)) (Z.of_nat (length l) - 7)
    (forallb (fun y => y =? default 0 (head (suf ++ drop n (delta_sizes c)))) suf)
    (existsb (fun y => y =? kLarge) suf)), (take 7 l), suf.
  split; [done|]. split; [symmetry; apply take_drop|]. split; [done|]. split; [done|].
  split; [|lia]. split; cbn [delta_sizes size all_same has_large_delta].
  - rewrite length_app, length_drop. lia.
  - unfold len. lia.
  - unfold all_eq. destruct suf; done.
  - done.
  - by apply Forall_drop.
  - rewrite Nat.min_l by lia. rewrite take_app_length. symmetry. apply take_ge. lia.
  - left. unfold len. lia.
Qed.

(** The last chunk, written when the packet is. *)
Lemma EncodeLast_spec c l :
  represents c l -> l <> [] ->
  exists chunk, EncodeLast c = Some chunk /\ in_u 16 chunk /\ take (length l) (chunk_sizes chunk) = l.
Proof.
  intros Hr Hne. pose proof Hr as [].
  assert (Hpos : 0 < len l) by (destruct l; [done|rewrite len_cons; pose proof (len_nonneg l); lia]).
  unfold EncodeLast. rewrite rep_size0, rep_same0.
  replace (0 <? len l) with true by (symmetry; by apply Z.ltb_lt). cbn [check mbind option_bind].
  destruct (all_eq l) eqn:Hs.
  { destruct (EncodeRunLength_spec c l Hr Hne Hs) as (chunk & -> & Hc & Hcs). exists chunk.
    rewrite Hcs, take_ge by done. done. }
  unfold kMaxTwoBitCapacity. destruct (Z.leb_spec (len l) 7) as [H7|H7].
  - destruct (EncodeTwoBit_spec c l (len l) Hr) as (chunk & -> & Hc & Hcs); [lia|lia|].
    exists chunk. split; [done|]. split; [done|]. rewrite Hcs. unfold len. rewrite Nat2Z.id.
    rewrite (take_ge l (length l)) by done. apply take_app_length.
  - assert (Hcap : len l <= 14 /\ any_large l = false)
      by (destruct rep_cap0 as [|[[]|[]]]; [lia|done|congruence]). destruct Hcap as [Hl14 Hnl].
    destruct (EncodeOneBit_spec c l Hr Hnl Hl14) as (chunk & -> & Hc & Hcs).
    exists chunk. split; [done|]. split; [done|]. rewrite Hcs. apply take_app_length.
Qed.

End LastChunk.

(** ** Properties *)

(** The status chunk codec.  An encoder that holds the delta sizes [l] either has room for the
    next one or emits a 16-bit chunk that decodes to a prefix of [l], and then holds the rest and has
    room; its last chunk decodes to [l], followed by zeros the reader cuts off.  Encoding and decoding
    never fail a check. *)
Lemma status_chunk_codec c l x m :
  LastChunk.represents c l -> 0 <= x <= 2 -> length (LastChunk.delta_sizes m) = 14%nat ->
  ((LastChunk.CanAdd c x = Some true /\
    (exists c', LastChunk.Add c x = Some c' /\ LastChunk.represents c' (l ++ [x]))) \/
   LastChunk.CanAdd c x = Some false /\
   exists chunk c' pre suf d, LastChunk.Emit c = Some (chunk, c') /\ l = pre ++ suf /\ pre <> [] /\
     LastChunk.Decode m chunk (len l) = Some d /\ LastChunk.AppendTo d = Some pre /\
     LastChunk.represents c' suf /\ LastChunk.CanAdd c' x = Some true) /\
  (l <> [] -> exists chunk d, LastChunk.EncodeLast c = Some chunk /\
     LastChunk.Decode m chunk (len l) = Some d /\ LastChunk.AppendTo d = Some l).
Proof.
  intros Hr Hx Hm. split.
  - destruct (LastChunk.CanAdd_total c x) as [[] Hc]; [lia|left|right].
    + destruct (LastChunk.Add_spec _ _ _ Hr Hx Hc) as (c' & Ha & Hr'). eauto.
    + split; [done|].
      destruct (LastChunk.Emit_spec _ _ _ Hr Hx Hc) as (chunk & c' & pre & suf & He & Hl & Hu & Hs & Hr' & H7).
      assert (Hl7 : ~ len l < 7).
      { intros H. rewrite (LastChunk.CanAdd_small c l x Hr) in Hc by (done || lia). done. }
      assert (Hpre : pre <> []) by (intros ->; cbn in Hl; congruence).
      destruct (LastChunk.Decode_AppendTo m chunk (len l)) as (d & Hd & _ & Ha); [done|lia|done|].
      rewrite Hs, take_ge in Ha by (rewrite Hl; unfold len; rewrite length_app; lia).
      exists chunk, c', pre, suf, d. do 6 (split; [done|]). by eapply LastChunk.CanAdd_small; [|lia|].
  - intros Hne. destruct (LastChunk.EncodeLast_spec c l Hr Hne) as (chunk & He & Hu & Ht).
    assert (0 < len l) by (destruct l; [done|rewrite len_cons; pose proof (len_nonneg l); lia]).
    destruct (LastChunk.Decode_AppendTo m chunk (len l)) as (d & Hd & _ & Ha); [done|lia|done|].
    exists chunk, d. split; [done|]. split; [done|]. rewrite Ha. unfold len. by rewrite Nat2Z.id, Ht.
Qed.

