(* ===== verification/TransportFeedback.v ===== *)
(** * Transport-wide congestion control feedback

    src/src/myrtc/rtp_rtcp/transport_feedback.{h,cc}: the object that collects the arrival times of
    packets, its incremental encoding, and the wire format.  Timestamps are 64-bit in the source and
    unbounded here; all other integers keep their width. *)

From S2P Require Import Prelude Buffer ByteIo Rtcp Wire Feedback.
From S2P Require Import SeqNum FeedbackChunk.
Import ByteReader ByteWriter RtcpPacket.

Module TransportFeedback.

Definition kFeedbackMessageType : Z := 15.
Definition kDeltaScaleFactor : Z := 250.
Definition kMaxReportedPackets : Z := 0xffff.
Definition kTransportFeedbackHeaderSizeBytes : Z := 4 + 8 + 8.
Definition kChunkSizeBytes : Z := 2.
Definition kMaxSizeBytes : Z := Z.shiftl 1 16 * 4.
Definition kMinPayloadSizeBytes : Z := 8 + 8 + 2.
Definition kBaseScaleFactor : Z := kDeltaScaleFactor * Z.shiftl 1 8.
Definition kTimeWrapPeriodUs : Z := Z.shiftl 1 24 * kBaseScaleFactor.

(** [delta_ticks_] is indeterminate in the source when the packet was not received; 0 here. *)
Record ReceivedPacket := MkReceived {
  sequence_number : Z;
  delta_ticks : Z;
  received : bool
}.

Definition Received (seq delta : Z) : ReceivedPacket := MkReceived seq delta true.
Definition Lost (seq : Z) : ReceivedPacket := MkReceived seq 0 false.
Definition delta_us (r : ReceivedPacket) : Z := delta_ticks r * kDeltaScaleFactor.

Record t := MkFeedback {
  fb : Rtpfb.t;
  include_lost : bool;
  base_seq_no : Z;
  num_seq_no : Z;
  base_time_ticks : Z;
  feedback_seq : Z;
  include_timestamps : bool;
  last_timestamp_us : Z;
  received_packets : list ReceivedPacket;
  all_packets : list ReceivedPacket;
  encoded_chunks : list Z;
  last_chunk : LastChunk.t;
  size_bytes : Z
}.

Definition init (include_timestamps include_lost : bool) : t :=
  MkFeedback Rtpfb.init include_lost 0 0 0 0 include_timestamps 0 [] [] []
    (LastChunk.init (replicate 14 0)) kTransportFeedbackHeaderSizeBytes.

(** Assignments of the fields that change together. *)
Definition with_chunks (this : t) (num : Z) (chunks : list Z) (last : LastChunk.t) (size : Z) : t :=
  MkFeedback (fb this) (include_lost this) (base_seq_no this) num (base_time_ticks this)
    (feedback_seq this) (include_timestamps this) (last_timestamp_us this) (received_packets this)
    (all_packets this) chunks last size.

Definition with_packets (this : t) (ts : Z) (recv all : list ReceivedPacket) (size : Z) : t :=
  MkFeedback (fb this) (include_lost this) (base_seq_no this) (num_seq_no this) (base_time_ticks this)
    (feedback_seq this) (include_timestamps this) ts recv all (encoded_chunks this)
    (last_chunk this) size.

Definition with_timestamps (this : t) (b : bool) : t :=
  MkFeedback (fb this) (include_lost this) (base_seq_no this) (num_seq_no this) (base_time_ticks this)
    (feedback_seq this) b (last_timestamp_us this) (received_packets this)
    (all_packets this) (encoded_chunks this) (last_chunk this) (size_bytes this).

Definition SetSenderSsrc (this : t) (v : Z) : t :=
  MkFeedback (Rtpfb.SetSenderSsrc (fb this) v) (include_lost this) (base_seq_no this)
    (num_seq_no this) (base_time_ticks this) (feedback_seq this) (include_timestamps this)
    (last_timestamp_us this) (received_packets this) (all_packets this) (encoded_chunks this)
    (last_chunk this) (size_bytes this).

Definition SetMediaSsrc (this : t) (v : Z) : t :=
  MkFeedback (Rtpfb.SetMediaSsrc (fb this) v) (include_lost this) (base_seq_no this)
    (num_seq_no this) (base_time_ticks this) (feedback_seq this) (include_timestamps this)
    (last_timestamp_us this) (received_packets this) (all_packets this) (encoded_chunks this)
    (last_chunk this) (size_bytes this).

Definition GetBaseTimeUs (this : t) : Z := base_time_ticks this * kBaseScaleFactor.

Definition SetBase (this : t) (base_sequence ref_timestamp_us : Z) : option t :=
  check (num_seq_no this =? 0) ;;
  check (0 <=? ref_timestamp_us) ;;
  let ticks := Z.quot (Z.rem ref_timestamp_us kTimeWrapPeriodUs) kBaseScaleFactor in
  Some (MkFeedback (fb this) (include_lost this) base_sequence (num_seq_no this) ticks
          (feedback_seq this) (include_timestamps this) (ticks * kBaseScaleFactor)
          (received_packets this) (all_packets this) (encoded_chunks this) (last_chunk this)
          (size_bytes this)).

Definition SetFeedbackSequenceNumber (this : t) (v : Z) : t :=
  MkFeedback (fb this) (include_lost this) (base_seq_no this) (num_seq_no this) (base_time_ticks this)
    v (include_timestamps this) (last_timestamp_us this) (received_packets this)
    (all_packets this) (encoded_chunks this) (last_chunk this) (size_bytes this).

Definition GetBaseDeltaUs (this : t) (prev_timestamp_us : Z) : Z :=
  let delta := GetBaseTimeUs this - prev_timestamp_us in
  if Z.abs (delta - kTimeWrapPeriodUs) <? Z.abs delta then delta - kTimeWrapPeriodUs
  else if Z.abs (delta + kTimeWrapPeriodUs) <? Z.abs delta then delta + kTimeWrapPeriodUs
  else delta.

(** [Clear]. *)
Definition Clear (this : t) : t :=
  MkFeedback (fb this) (include_lost this) (base_seq_no this) 0 (base_time_ticks this)
    (feedback_seq this) (include_timestamps this) (GetBaseTimeUs this) [] [] []
    (LastChunk.Clear (last_chunk this)) kTransportFeedbackHeaderSizeBytes.

(** The move constructor: the new object and what is left of [other].  The base class is not in the
    initialiser list, so it is default constructed. *)
Definition MoveFrom (other : t) : t * t :=
  (MkFeedback Rtpfb.init (include_lost other) (base_seq_no other) (num_seq_no other)
     (base_time_ticks other) (feedback_seq other) (include_timestamps other) (last_timestamp_us other)
     (received_packets other) (all_packets other) (encoded_chunks other) (last_chunk other)
     (size_bytes other), Clear other).

Definition AddDeltaSize (this : t) (delta_size : Z) : option (bool * t) :=
  if num_seq_no this =? kMaxReportedPackets then Some (false, this) else
  let add_chunk_size := if LastChunk.Empty (last_chunk this) then kChunkSizeBytes else 0 in
  if kMaxSizeBytes <? size_bytes this + delta_size + add_chunk_size then Some (false, this) else
  can ← LastChunk.CanAdd (last_chunk this) delta_size;
  if can : bool then
    last ← LastChunk.Add (last_chunk this) delta_size;
    Some (true, with_chunks this (u16 (num_seq_no this + 1)) (encoded_chunks this) last
                  (size_bytes this + add_chunk_size))
  else
    if kMaxSizeBytes <? size_bytes this + delta_size + kChunkSizeBytes then Some (false, this) else
    '(chunk, last) ← LastChunk.Emit (last_chunk this);
    last ← LastChunk.Add last delta_size;
    Some (true, with_chunks this (u16 (num_seq_no this + 1)) (encoded_chunks this ++ [chunk]) last
                  (size_bytes this + kChunkSizeBytes)).

(** The delta in ticks, rounded, or [None] when it does not fit in 16 bits. *)
Definition ticks_since (last_timestamp_us timestamp_us : Z) : option Z :=
  let delta_full := Z.rem (timestamp_us - last_timestamp_us) kTimeWrapPeriodUs in
  let delta_full :=
    if Z.quot kTimeWrapPeriodUs 2 <? delta_full then delta_full - kTimeWrapPeriodUs else delta_full in
  let delta_full :=
    delta_full + (if delta_full <? 0 then - Z.quot kDeltaScaleFactor 2 else Z.quot kDeltaScaleFactor 2) in
  let delta_full := Z.quot delta_full kDeltaScaleFactor in
  let delta := to_signed 16 (u16 delta_full) in
  if delta =? delta_full then Some delta else None.

(** [for (; next_seq_no != sequence_number; ++next_seq_no) if (!AddDeltaSize(0)) return false;] *)
Fixpoint add_lost (fuel : nat) (this : t) (next_seq_no sequence_number : Z) : option (bool * t) :=
  if next_seq_no =? sequence_number then Some (true, this) else
  match fuel with
  | O => None
  | S fuel' =>
      '(ok, this) ← AddDeltaSize this 0;
      if ok : bool then add_lost fuel' this (u16 (next_seq_no + 1)) sequence_number
      else Some (false, this)
  end.

(** The end of [AddReceivedPacket], once the packets before it are recorded. *)
Definition add_received (this : t) (sequence_number delta : Z) : option (bool * t) :=
  let delta_size := if (0 <=? delta) && (delta <=? 0xff) then 1 else 2 in
  '(ok, this) ← AddDeltaSize this delta_size;
  if negb ok then Some (false, this) else
  Some (true, with_packets this (last_timestamp_us this + delta * kDeltaScaleFactor)
                (received_packets this ++ [Received sequence_number delta]) (all_packets this)
                (size_bytes this + if include_timestamps this then delta_size else 0)).

Definition AddReceivedPacket (this : t) (sequence_number timestamp_us : Z) : option (bool * t) :=
  match (if include_timestamps this then ticks_since (last_timestamp_us this) timestamp_us else Some 0) with
  | None => Some (false, this)
  | Some delta =>
      let next_seq_no := u16 (base_seq_no this + num_seq_no this) in
      if negb (sequence_number =? next_seq_no) then
        let last_seq_no := u16 (next_seq_no - 1) in
        if negb (SeqNum.IsNewerSequenceNumber sequence_number last_seq_no) then Some (false, this) else
        '(ok, this) ← add_lost (Z.to_nat (u16 (sequence_number - next_seq_no))) this
                        next_seq_no sequence_number;
        if negb ok then Some (false, this) else add_received this sequence_number delta
      else add_received this sequence_number delta
  end.

(** ** Parsing *)

(** How the loop over the chunks ends: [return false], or with the chunks, the last chunk, the
    delta sizes and the index behind the chunks. *)
Inductive chunks_result :=
| ChunksOverflow (last : LastChunk.t)
| ChunksDone (chunks : list Z) (last : LastChunk.t) (delta_sizes : list Z) (index : Z).

Fixpoint parse_chunks (fuel : nat) (payload : list Z) (status_count end_index : Z)
    (chunks : list Z) (last : LastChunk.t) (delta_sizes : list Z) (index : Z) : option chunks_result :=
  if len delta_sizes <? status_count then
    match fuel with
    | O => None
    | S fuel' =>
        if end_index <? index + kChunkSizeBytes then Some (ChunksOverflow last) else
        chunk ← ReadBigEndian 16 2 (ptr_add payload index);
        last ← LastChunk.Decode last chunk (status_count - len delta_sizes);
        appended ← LastChunk.AppendTo last;
        parse_chunks fuel' payload status_count end_index (chunks ++ [chunk]) last
          (delta_sizes ++ appended) (index + kChunkSizeBytes)
    end
  else Some (ChunksDone chunks last delta_sizes index).

(** The loop over the receive deltas; the inner [None] is [Clear(); return false;]. *)
Fixpoint parse_deltas (lost : bool) (payload : list Z) (end_index : Z) (delta_sizes : list Z)
    (index seq_no ts : Z) (recv all : list ReceivedPacket)
    : option (option (Z * Z * list ReceivedPacket * list ReceivedPacket)) :=
  match delta_sizes with
  | [] => Some (Some (index, ts, recv, all))
  | delta_size :: rest =>
      if end_index <? index + delta_size then Some None else
      if delta_size =? 0 then
        parse_deltas lost payload end_index rest index (u16 (seq_no + 1)) ts recv
          (if lost then all ++ [Lost seq_no] else all)
      else if delta_size =? 3 then Some None
      else
        delta ← (if delta_size =? 1 then byte_at payload index
                 else if delta_size =? 2 then ReadBigEndianSigned 16 2 (ptr_add payload index)
                 else None);
        parse_deltas lost payload end_index rest (index + delta_size) (u16 (seq_no + 1))
          (ts + delta * kDeltaScaleFactor) (recv ++ [Received seq_no delta])
          (if lost then all ++ [Received seq_no delta] else all)
  end.

(** The loop of a packet without receive deltas. *)
Fixpoint parse_statuses (lost : bool) (delta_sizes : list Z) (seq_no : Z)
    (recv all : list ReceivedPacket) : list ReceivedPacket * list ReceivedPacket :=
  match delta_sizes with
  | [] => (recv, all)
  | delta_size :: rest =>
      parse_statuses lost rest (u16 (seq_no + 1))
        (if 0 <? delta_size then recv ++ [Received seq_no 0] else recv)
        (if lost then all ++ [if 0 <? delta_size then Received seq_no 0 else Lost seq_no] else all)
  end.

Definition sum (l : list Z) : Z := foldr Z.add 0 l.

(** The fixed part of the packet: the object after [Clear()] and [status_count]. *)
Definition parse_header (this : t) (payload : list Z) : option (t * Z) :=
  fb ← Rtpfb.ParseCommonFeedback payload;
  base_seq_no ← ReadBigEndian 16 2 (ptr_add payload 8);
  status_count ← ReadBigEndian 16 2 (ptr_add payload 10);
  base_time_ticks ← ReadBigEndianSigned 32 3 (ptr_add payload 12);
  feedback_seq ← byte_at payload 15;
  Some (Clear (MkFeedback fb (include_lost this) base_seq_no (num_seq_no this) base_time_ticks
                 feedback_seq (include_timestamps this) (last_timestamp_us this)
                 (received_packets this) (all_packets this) (encoded_chunks this)
                 (last_chunk this) (size_bytes this)), status_count).

Definition Parse (this : t) (packet : CommonHeader.t) : option (bool * t) :=
  check (CommonHeader.type packet =? Rtpfb.kPacketType) ;;
  check (CommonHeader.fmt packet =? kFeedbackMessageType) ;;
  let end_index := CommonHeader.payload_size_bytes packet in
  if end_index <? kMinPayloadSizeBytes then Some (false, this) else
  let payload := CommonHeader.payload packet in
  '(this, status_count) ← parse_header this payload;
  if status_count =? 0 then Some (false, this) else
  r ← parse_chunks (Z.to_nat end_index) payload status_count end_index [] (last_chunk this) [] 16;
  match r with
  | ChunksOverflow last => Some (false, Clear (with_chunks this 0 [] last (size_bytes this)))
  | ChunksDone chunks last delta_sizes index =>
      check (len delta_sizes =? status_count) ;;
      let this := with_chunks this status_count (take (length chunks - 1) chunks) last (size_bytes this) in
      let recv_delta_size := sum delta_sizes in
      if index + recv_delta_size <=? end_index then
        d ← parse_deltas (include_lost this) payload end_index delta_sizes index (base_seq_no this)
              (last_timestamp_us this) [] [];
        match d with
        | None => Some (false, Clear this)
        | Some (index, ts, recv, all) =>
            check (index <=? end_index) ;;
            Some (true, with_packets this ts recv all (kHeaderLength + index))
        end
      else
        let '(recv, all) := parse_statuses (include_lost this) delta_sizes (base_seq_no this) [] [] in
        check (index <=? end_index) ;;
        Some (true, with_packets (with_timestamps this false) (last_timestamp_us this) recv all
                      (kHeaderLength + index))
  end.

(** [ParseFrom]: the object it allocates, or [nullptr]. *)
Definition ParseFrom (buffer : list Z) (length : Z) : option (option t) :=
  '(ok, header) ← CommonHeader.Parse CommonHeader.init buffer length;
  if negb ok then Some None else
  if negb (CommonHeader.type header =? Rtpfb.kPacketType)
     || negb (CommonHeader.fmt header =? kFeedbackMessageType) then Some None else
  '(ok, parsed) ← Parse (init true false) header;
  Some (if ok : bool then Some parsed else None).

(** ** Writing *)

Definition BlockLength (this : t) : Z := Z.land (size_bytes this + 3) (Z.lnot 3).
Definition PaddingLength (this : t) : Z := BlockLength this - size_bytes this.

Definition write_delta (r : ReceivedPacket) : W unit :=
  let delta := delta_ticks r in
  if (0 <=? delta) && (delta <=? 0xFF) then push delta
  else at_index 0 (fun p => WriteBigEndianSigned 16 2 p delta) ;; advance 2.

Definition write_last_chunk (last : LastChunk.t) : W unit :=
  if LastChunk.Empty last then mret tt else
  match LastChunk.EncodeLast last with
  | None => abort
  | Some chunk => at_index 0 (fun p => WriteBigEndian 2 p chunk) ;; advance 2
  end.

Definition write_padding (padding_length : Z) : W unit :=
  if 0 <? padding_length then
    for_each (replicate (Z.to_nat (padding_length - 1)) 0) push ;; push padding_length
  else mret tt.

Definition body (this : t) : W unit :=
  with_index_end (BlockLength this) (fun _ =>
    let padding_length := PaddingLength this in
    (length ← HeaderLength (BlockLength this);
     CreateHeader kFeedbackMessageType Rtpfb.kPacketType length (0 <? padding_length)) ;;
    (at_index 0 (Rtpfb.CreateCommonFeedback (fb this)) ;; advance Rtpfb.kCommonFeedbackLength) ;;
    (at_index 0 (fun p => WriteBigEndian 2 p (base_seq_no this)) ;; advance 2) ;;
    (at_index 0 (fun p => WriteBigEndian 2 p (num_seq_no this)) ;; advance 2) ;;
    (at_index 0 (fun p => WriteBigEndianSigned 32 3 p (base_time_ticks this)) ;; advance 3) ;;
    push (feedback_seq this) ;;
    for_each (encoded_chunks this) (fun chunk =>
      at_index 0 (fun p => WriteBigEndian 2 p chunk) ;; advance 2) ;;
    write_last_chunk (last_chunk this) ;;
    (if include_timestamps this then for_each (received_packets this) write_delta else mret tt) ;;
    write_padding padding_length).

Definition Create (this : t) (max_length : Z) (callback : bool) : W bool :=
  if num_seq_no this =? 0 then mret false else
  room ← make_room 2 (BlockLength this) max_length callback;
  if room : bool then body this ;; mret true else mret false.

#[global] Instance ops : RtcpPacketOps t := Build_RtcpPacketOps t BlockLength Create.

(** ** The self-check for tests *)

(** The delta sizes of the encoded chunks, as [IsConsistent] decodes them. *)
Fixpoint decode_all (decoder : LastChunk.t) (chunks : list Z) : option (list Z) :=
  match chunks with
  | [] => Some []
  | chunk :: chunks' =>
      decoder ← LastChunk.Decode decoder chunk kMaxReportedPackets;
      sizes ← LastChunk.AppendTo decoder;
      rest ← decode_all decoder chunks';
      Some (sizes ++ rest)
  end.

(** The loop over the delta sizes: [None] is [return false], otherwise the rest of the received
    packets, the timestamp and the size. *)
Fixpoint check_deltas (timestamps : bool) (delta_sizes : list Z) (seq_no : Z)
    (packets : list ReceivedPacket) (ts size : Z) : option (list ReceivedPacket * Z * Z) :=
  match delta_sizes with
  | [] => Some (packets, ts, size)
  | delta_size :: rest =>
      let size := size + (if timestamps then delta_size else 0) in
      if 0 <? delta_size then
        match packets with
        | [] => None
        | p :: packets' =>
            if negb (sequence_number p =? seq_no) then None else
            if (delta_size =? 1) && ((delta_ticks p <? 0) || (0xff <? delta_ticks p)) then None else
            check_deltas timestamps rest (u16 (seq_no + 1)) packets' (ts + delta_us p) size
        end
      else check_deltas timestamps rest (u16 (seq_no + 1)) packets ts size
  end.

(** The product [base_time_ticks_ * kBaseScaleFactor] is computed in 32-bit [int]; two's
    complement wrap-around stands for its overflow. *)
Definition IsConsistent (this : t) : option bool :=
  sizes ← decode_all (LastChunk.init (replicate 14 0)) (encoded_chunks this);
  last ← (if LastChunk.Empty (last_chunk this) then Some []
          else LastChunk.AppendTo (last_chunk this));
  let delta_sizes := sizes ++ last in
  let packet_size := kTransportFeedbackHeaderSizeBytes + kChunkSizeBytes * len (encoded_chunks this)
                     + (if LastChunk.Empty (last_chunk this) then 0 else kChunkSizeBytes) in
  if negb (num_seq_no this =? len delta_sizes) then Some false else
  let timestamp_us := to_signed 32 (u32 (base_time_ticks this * kBaseScaleFactor)) in
  match check_deltas (include_timestamps this) delta_sizes (base_seq_no this)
          (received_packets this) timestamp_us packet_size with
  | None => Some false
  | Some (packets, ts, size) =>
      Some (bool_decide (length packets = 0%nat) && (ts =? last_timestamp_us this) && (size_bytes this =? size))
  end.

End TransportFeedback.
