(* ===== verification/FeedbackBuilder.v ===== *)
(** * Building transport feedback

    What the operations of [TransportFeedback] that build a packet do, in terms of the list of
    packet statuses the packet reports: [None] for a lost packet, [Some delta] for a packet received
    [delta] ticks after the one before it.  [holds] is the invariant of the chunk encoder,
    [feedback_of] the refinement relation between an object and the statuses it reports. *)

From S2P Require Import Prelude Buffer ByteIo Rtcp Wire Feedback.
From S2P Require Import SeqNum FeedbackChunk TransportFeedback.
Import TransportFeedback.

(** ** The chunk encoder *)

(** The chunks and the last chunk of [x] encode the delta sizes [ds], of which the last chunk has
    [suf]; [paid] is what the receive deltas add to the size of the packet. *)
Record holds (x : t) (ds suf : list Z) (paid : Z) : Prop := {
  holds_split : ds = mjoin (LastChunk.chunk_sizes <$> encoded_chunks x) ++ suf;
  holds_range : Forall (in_u 16) (encoded_chunks x);
  holds_last : LastChunk.represents (last_chunk x) suf;
  holds_nonempty : suf = [] -> encoded_chunks x = [];
  holds_num : num_seq_no x = len ds;
  holds_max : len ds <= kMaxReportedPackets;
  holds_size : size_bytes x = kTransportFeedbackHeaderSizeBytes + 2 * len (encoded_chunks x)
                              + (if LastChunk.Empty (last_chunk x) then 0 else 2) + paid;
  holds_limit : size_bytes x <= kMaxSizeBytes
}.

Lemma represents_Empty c l : LastChunk.represents c l -> LastChunk.Empty c = bool_decide (l = []).
Proof.
  intros []. unfold LastChunk.Empty. rewrite rep_size. destruct l as [|y l]; [done|].
  rewrite bool_decide_eq_false_2 by done. apply Z.eqb_neq. rewrite len_cons. pose proof (len_nonneg l). lia.
Qed.

Lemma Empty_snoc c l y : LastChunk.represents c (l ++ [y]) -> LastChunk.Empty c = false.
Proof. intros H. rewrite (represents_Empty _ _ H). apply bool_decide_eq_false_2. by destruct l. Qed.

Lemma Empty_true c l : LastChunk.represents c l -> LastChunk.Empty c = true -> l = [].
Proof. intros H. rewrite (represents_Empty _ _ H). apply bool_decide_eq_true_1. Qed.

(** [AddDeltaSize] appends one delta size, or leaves the object alone when it is full. *)
Lemma AddDeltaSize_spec x ds suf paid d :
  holds x ds suf paid -> 0 <= d <= 2 ->
  exists r x', AddDeltaSize x d = Some (r, x') /\
    if r : bool then
      (exists num chunks last size suf', x' = with_chunks x num chunks last size /\
         holds x' (ds ++ [d]) suf' paid /\ size + d <= kMaxSizeBytes /\ size <= size_bytes x + 2)
    else x' = x /\ (len ds = kMaxReportedPackets \/ kMaxSizeBytes < size_bytes x + d + 2).
Proof.
  intros [] Hd. unfold AddDeltaSize. rewrite holds_num0. unfold kMaxReportedPackets in *.
  destruct (Z.eqb_spec (len ds) 0xffff) as [Hf|Hf].
  { eexists false, x. split; [done|]. split; [done|]. by left. }
  assert (Hnum : u16 (len ds + 1) = len (ds ++ [d])).
  { pose proof (len_nonneg ds). rewrite wrap_small by (unfold in_u; zconst; lia). len_simpl. lia. }
  rewrite Hnum. unfold kChunkSizeBytes. set (e := if LastChunk.Empty (last_chunk x) then 2 else 0).
  assert (He : 0 <= e <= 2) by (unfold e; destruct (LastChunk.Empty _); lia).
  destruct (Z.ltb_spec kMaxSizeBytes (size_bytes x + d + e)) as [Hs|Hs].
  { exists false, x. split; [done|]. split; [done|]. right. lia. }
  destruct (LastChunk.CanAdd_total (last_chunk x) d) as [[] Hc]; [lia|rewrite Hc..]; cbn [mbind option_bind].
  - destruct (LastChunk.Add_spec _ _ _ holds_last0 Hd Hc) as (c' & -> & Hr). cbn [mbind option_bind].
    eexists true, _. split; [done|]. do 4 eexists. exists (suf ++ [d]). split; [reflexivity|].
    split; [|lia]. split; cbn [num_seq_no encoded_chunks last_chunk size_bytes with_chunks]; try done.
    + by rewrite holds_split0, app_assoc.
    + by destruct suf.
    + len_simpl. unfold kMaxReportedPackets. lia.
    + rewrite (Empty_snoc _ _ _ Hr), holds_size0. unfold e. destruct (LastChunk.Empty _); lia.
    + lia.
  - assert (He0 : e = 0).
    { unfold e. destruct (LastChunk.Empty _) eqn:E; [|done]. apply (Empty_true _ _ holds_last0) in E as ->.
      rewrite (LastChunk.CanAdd_small _ _ _ holds_last0) in Hc; [done|lia|done]. }
    destruct (Z.ltb_spec kMaxSizeBytes (size_bytes x + d + 2)) as [Hs2|Hs2].
    { exists false, x. split; [done|]. split; [done|]. by right. }
    destruct (LastChunk.Emit_spec _ _ _ holds_last0 Hd Hc) as (chunk & c1 & pre & rest & -> & Hl & Hu & Hcs & Hr & H7).
    cbn [mbind option_bind].
    assert (Hc1 : LastChunk.CanAdd c1 d = Some true) by (eapply LastChunk.CanAdd_small; [done|lia|done]).
    destruct (LastChunk.Add_spec _ _ _ Hr Hd Hc1) as (c' & -> & Hr'). cbn [mbind option_bind].
    eexists true, _. split; [done|]. do 4 eexists. exists (rest ++ [d]). split; [reflexivity|].
    split; [|lia]. split; cbn [num_seq_no encoded_chunks last_chunk size_bytes with_chunks]; try done.
    + rewrite holds_split0, Hl, fmap_app, join_app. cbn. by rewrite Hcs, app_nil_r, !app_assoc.
    + apply Forall_app. split; [done|]. by constructor.
    + by destruct rest.
    + len_simpl. unfold kMaxReportedPackets. lia.
    + rewrite (Empty_snoc _ _ _ Hr'), holds_size0. len_simpl. unfold e in He0.
      destruct (LastChunk.Empty _); lia.
    + lia.
Qed.

(** ** The statuses a packet reports *)

Definition status_size (s : option Z) : Z :=
  match s with
  | None => 0
  | Some delta => if (0 <=? delta) && (delta <=? 0xff) then 1 else 2
  end.

(** The received packets of a list of statuses that starts at sequence number [seq]. *)
Fixpoint packets_of (seq : Z) (sts : list (option Z)) : list ReceivedPacket :=
  match sts with
  | [] => []
  | None :: sts' => packets_of (u16 (seq + 1)) sts'
  | Some delta :: sts' => Received seq delta :: packets_of (u16 (seq + 1)) sts'
  end.

(** The ticks from the base time to the last received packet. *)
Definition elapsed (sts : list (option Z)) : Z := sum (default 0 <$> sts).

(** A delta is a 16-bit number, 0 when the packet has no timestamps. *)
Definition status_ok (timestamps : bool) (s : option Z) : Prop :=
  match s with
  | None => True
  | Some delta => in_s 16 delta /\ (timestamps = false -> delta = 0)
  end.

(** The bytes of the receive deltas. *)
Definition deltas_size (timestamps : bool) (sts : list (option Z)) : Z :=
  if timestamps then sum (status_size <$> sts) else 0.

(** The object reports the statuses [sts]. *)
Record feedback_of (x : t) (sts : list (option Z)) : Prop := {
  of_fb : Rtpfb.valid (fb x);
  of_base : in_u 16 (base_seq_no x);
  of_ticks : in_u 24 (base_time_ticks x);
  of_seq : byte_ok (feedback_seq x);
  of_chunks : exists suf, holds x (status_size <$> sts) suf (deltas_size (include_timestamps x) sts);
  of_packets : received_packets x = packets_of (base_seq_no x) sts;
  of_deltas : Forall (status_ok (include_timestamps x)) sts;
  of_time : last_timestamp_us x = GetBaseTimeUs x + kDeltaScaleFactor * elapsed sts
}.

Lemma status_size_range s : 0 <= status_size s <= 2.
Proof. destruct s as [delta|]; cbn [status_size]; [destruct (_ && _)|]; lia. Qed.

Lemma sizes_sum_app a b : sum (a ++ b) = sum a + sum b.
Proof. unfold sum. induction a as [|y a IH]; cbn; [done|]. rewrite IH. lia. Qed.

Lemma elapsed_app a b : elapsed (a ++ b) = elapsed a + elapsed b.
Proof. unfold elapsed. by rewrite fmap_app, sizes_sum_app. Qed.

Lemma deltas_size_app ts a b : deltas_size ts (a ++ b) = deltas_size ts a + deltas_size ts b.
Proof. unfold deltas_size. destruct ts; [|done]. by rewrite fmap_app, sizes_sum_app. Qed.

Lemma u16_add a b : u16 (u16 a + b) = u16 (a + b).
Proof. unfold wrap. by rewrite Zplus_mod_idemp_l. Qed.

Lemma packets_of_app seq a b :
  in_u 16 seq -> packets_of seq (a ++ b) = packets_of seq a ++ packets_of (u16 (seq + len a)) b.
Proof.
  revert seq. induction a as [|s a IH]; intros seq Hs; cbn [app packets_of].
  - rewrite len_nil, Z.add_0_r. by rewrite wrap_small.
  - assert (Hn : in_u 16 (u16 (seq + 1))) by (apply wrap_range; lia).
    rewrite (IH _ Hn), u16_add, len_cons, Z.add_assoc. by destruct s.
Qed.

Lemma with_chunks_twice x n1 c1 l1 s1 n2 c2 l2 s2 :
  with_chunks (with_chunks x n1 c1 l1 s1) n2 c2 l2 s2 = with_chunks x n2 c2 l2 s2.
Proof. done. Qed.

(** One lost packet. *)
Lemma AddDeltaSize_lost x sts :
  feedback_of x sts ->
  exists r x', AddDeltaSize x 0 = Some (r, x') /\
    if r : bool then
      (exists num chunks last size, x' = with_chunks x num chunks last size /\
         feedback_of x' (sts ++ [None]) /\ size <= size_bytes x + 2)
    else x' = x /\ (len sts = kMaxReportedPackets \/ kMaxSizeBytes < size_bytes x + 2).
Proof.
  intros []. destruct of_chunks0 as [suf Hh].
  destruct (AddDeltaSize_spec x _ suf _ 0 Hh) as (r & x' & -> & Hr); [lia|].
  exists r, x'. split; [done|]. destruct r.
  - destruct Hr as (num & chunks & last & size & suf' & -> & Hh' & _ & Hsz). do 4 eexists.
    split; [done|]. split; [|done].
    split; cbn [fb base_seq_no base_time_ticks feedback_seq include_timestamps received_packets
                last_timestamp_us with_chunks]; try done.
    + exists suf'. rewrite fmap_app, deltas_size_app. change (status_size <$> [None]) with [0].
      replace (deltas_size _ [None]) with 0 by (unfold deltas_size; by destruct include_timestamps).
      by rewrite Z.add_0_r.
    + rewrite packets_of_app by done. cbn [packets_of]. by rewrite app_nil_r.
    + apply Forall_app. split; [done|]. by constructor.
    + rewrite elapsed_app. change (elapsed [None]) with 0. by rewrite Z.add_0_r.
  - destruct Hr as [-> Hf]. split; [done|]. rewrite len_fmap in Hf. destruct Hf; [by left|right; lia].
Qed.

(** The loop over the packets that did not arrive: it terminates, and records all of them or stops
    because the packet is full. *)
Lemma add_lost_spec k x sts :
  feedback_of x sts -> Z.of_nat k < 65536 ->
  exists r x' j num chunks last size,
    add_lost k x (u16 (base_seq_no x + len sts)) (u16 (base_seq_no x + len sts + Z.of_nat k)) = Some (r, x') /\
    x' = with_chunks x num chunks last size /\ feedback_of x' (sts ++ replicate j None) /\
    size <= size_bytes x + 2 * Z.of_nat j /\
    if r : bool then j = k
    else (j < k)%nat /\
         (len sts + Z.of_nat j = kMaxReportedPackets \/ kMaxSizeBytes < size_bytes x + 2 * Z.of_nat j + 2).
Proof.
  revert x sts. induction k as [|k IH]; intros x sts Hx Hk.
  { exists true, x, 0%nat, (num_seq_no x), (encoded_chunks x), (last_chunk x), (size_bytes x).
    rewrite Z.add_0_r. cbn [add_lost]. rewrite Z.eqb_refl, app_nil_r.
    split; [done|]. split; [by destruct x|]. split; [done|]. split; [lia|done]. }
  cbn [add_lost]. set (n := base_seq_no x + len sts).
  replace (u16 n =? u16 (n + Z.of_nat (S k))) with false.
  2:{ symmetry. apply Z.eqb_neq. unfold wrap. zconst. intros He.
      Z.to_euclidean_division_equations; lia. }
  destruct (AddDeltaSize_lost x sts Hx) as ([] & x1 & -> & Hr); cbn [mbind option_bind].
  - destruct Hr as (num & chunks & last & size & Hx1 & Hf & Hsz).
    assert (Hb : base_seq_no x1 = base_seq_no x) by by rewrite Hx1.
    assert (Hs1 : size_bytes x1 = size) by by rewrite Hx1.
    destruct (IH x1 (sts ++ [None]) Hf) as (r & x' & j & num' & chunks' & last' & size' & Hadd & Hx' & Hf' & Hsz' & Hr);
      [lia|]. rewrite Hb, len_app, Z.add_assoc in Hadd. fold n in Hadd. change (len [None]) with 1 in Hadd.
    rewrite u16_add. replace (n + Z.of_nat (S k)) with (n + 1 + Z.of_nat k) by lia. rewrite Hadd.
    exists r, x', (S j), num', chunks', last', size'. split; [done|].
    split; [rewrite Hx', Hx1; apply with_chunks_twice|].
    split; [by rewrite <- app_assoc in Hf'|]. split; [lia|].
    rewrite len_app in Hr. change (len [None]) with 1 in Hr.
    destruct r; [lia|]. destruct Hr as [Hj Hr]. split; [lia|]. destruct Hr; [left|right]; lia.
  - destruct Hr as [-> Hr].
    exists false, x, 0%nat, (num_seq_no x), (encoded_chunks x), (last_chunk x), (size_bytes x).
    rewrite app_nil_r. split; [done|]. split; [by destruct x|]. split; [done|]. split; [lia|].
    split; [lia|]. destruct Hr; [left|right]; lia.
Qed.

(** The packet itself. *)
Lemma add_received_spec x sts delta :
  feedback_of x sts -> status_ok (include_timestamps x) (Some delta) ->
  exists r x', add_received x (u16 (base_seq_no x + len sts)) delta = Some (r, x') /\
    base_seq_no x' = base_seq_no x /\ include_timestamps x' = include_timestamps x /\
    if r : bool then
      feedback_of x' (sts ++ [Some delta]) /\
      last_timestamp_us x' = last_timestamp_us x + delta * kDeltaScaleFactor
    else x' = x /\ (len sts = kMaxReportedPackets \/ kMaxSizeBytes < size_bytes x + 4).
Proof.
  intros [] Hd. destruct of_chunks0 as [suf Hh]. unfold add_received.
  change (if (0 <=? delta) && (delta <=? 0xff) then 1 else 2) with (status_size (Some delta)).
  pose proof (status_size_range (Some delta)) as Hsr. set (d := status_size (Some delta)) in *.
  destruct (AddDeltaSize_spec x _ suf _ d Hh Hsr) as (r & x' & -> & Hr).
  cbn [mbind option_bind]. destruct r; cbn [negb].
  - destruct Hr as (num & chunks & last & size & suf' & -> & Hh' & Hlim & Hsz).
    eexists true, _. split; [done|]. split; [done|]. split; [done|]. split; [|done].
    split; cbn [fb base_seq_no base_time_ticks feedback_seq include_timestamps received_packets
                last_timestamp_us with_chunks with_packets GetBaseTimeUs]; try done.
    + exists suf'. rewrite fmap_app, deltas_size_app. change (status_size <$> [Some delta]) with [d].
      replace (deltas_size (include_timestamps x) [Some delta]) with (if include_timestamps x then d else 0).
      2:{ unfold deltas_size. destruct (include_timestamps x); [|done]. cbn. lia. }
      destruct Hh'. cbn [with_chunks num_seq_no encoded_chunks last_chunk size_bytes] in *.
      split; cbn [with_packets with_chunks num_seq_no encoded_chunks last_chunk size_bytes include_timestamps]; try done.
      * rewrite holds_size0. lia.
      * destruct (include_timestamps x); lia.
    + rewrite of_packets0, packets_of_app by done. done.
    + apply Forall_app. split; [done|]. by constructor.
    + rewrite elapsed_app, of_time0. change (elapsed [Some delta]) with (delta + 0).
      cbn [base_time_ticks with_chunks]. unfold GetBaseTimeUs. cbn. lia.
  - destruct Hr as [-> Hf]. exists false, x. split; [done|]. split; [done|]. split; [done|].
    split; [done|]. rewrite len_fmap in Hf. destruct Hf; [by left|right; lia].
Qed.

(** ** The arithmetic of the receive deltas *)

(** [a] and [b] are the same time up to the wrap-around of the reference time and the rounding to
    ticks. *)
Definition same_tick (a b : Z) : Prop := exists k, Z.abs (a - b - k * kTimeWrapPeriodUs) <= 125.

Lemma ticks_since_accurate last ts delta :
  ticks_since last ts = Some delta -> in_s 16 delta /\ same_tick ts (last + delta * kDeltaScaleFactor).
Proof.
  unfold ticks_since, same_tick, kDeltaScaleFactor. change kTimeWrapPeriodUs with 1073741824000.
  change (Z.quot 1073741824000 2) with 536870912000. change (Z.quot 250 2) with 125.
  set (v := if 536870912000 <? Z.rem (ts - last) 1073741824000 then _ else _).
  assert (Hv : exists k, v = ts - last - k * 1073741824000).
  { pose proof (Z.quot_rem' (ts - last) 1073741824000). unfold v. destruct (_ <? _).
    - exists (Z.quot (ts - last) 1073741824000 + 1). lia.
    - exists (Z.quot (ts - last) 1073741824000). lia. }
  destruct Hv as [k Hk]. clearbody v. set (q := Z.quot _ 250).
  destruct (Z.eqb_spec (to_signed 16 (u16 q)) q) as [He|]; [|done]. intros [= <-]. split.
  - apply wrap_to_signed; [lia|]. apply wrap_range. lia.
  - exists k. rewrite He. unfold q. destruct (Z.ltb_spec v 0); Z.to_euclidean_division_equations; lia.
Qed.

(** A packet at most 8 seconds away from the one before always has a delta. *)
Lemma ticks_since_near last ts :
  Z.abs (ts - last) <= 32767 * kDeltaScaleFactor -> exists delta, ticks_since last ts = Some delta.
Proof.
  unfold ticks_since, kDeltaScaleFactor. change kTimeWrapPeriodUs with 1073741824000.
  change (Z.quot 1073741824000 2) with 536870912000. change (Z.quot 250 2) with 125. intros Hd.
  replace (Z.rem (ts - last) 1073741824000) with (ts - last) by (symmetry; apply Z.rem_small_iff; lia).
  replace (536870912000 <? ts - last) with false by (symmetry; apply Z.ltb_ge; lia).
  set (q := Z.quot _ 250).
  assert (Hq : in_s 16 q).
  { unfold in_s, q. zconst. destruct (Z.ltb_spec (ts - last) 0); Z.to_euclidean_division_equations; lia. }
  rewrite to_signed_wrap by (lia || done). rewrite Z.eqb_refl. by eexists.
Qed.

(** ** AddReceivedPacket *)

(** The packets between the last reported one and [sequence_number]. *)
Definition gap (x : t) (sts : list (option Z)) (sequence_number : Z) : Z :=
  u16 (sequence_number - (base_seq_no x + len sts)).

Lemma gap_target x sts seq :
  in_u 16 seq -> seq = u16 (base_seq_no x + len sts + gap x sts seq).
Proof.
  intros [H1 H2]. unfold gap, wrap in *. rewrite Zplus_mod_idemp_r.
  replace (_ + (_ - _)) with seq by lia. symmetry. by apply Z.mod_small.
Qed.

(** [IsNewerSequenceNumber] against the last reported number limits the gap. *)
Lemma gap_newer x sts seq :
  in_u 16 seq -> SeqNum.IsNewerSequenceNumber seq (u16 (u16 (base_seq_no x + len sts) - 1)) = true ->
  gap x sts seq < 2 ^ 15.
Proof.
  intros Hs Hn. unfold SeqNum.IsNewerSequenceNumber in Hn.
  apply SeqNum.IsNewer_spec in Hn; [|lia|done|apply wrap_range; lia].
  unfold gap, wrap, in_u in *. zconst. change (2 ^ 16) with 65536 in *. change (2 ^ (16 - 1)) with 32768 in *.
  Z.to_euclidean_division_equations; lia.
Qed.

Lemma newer_gap x sts seq :
  in_u 16 seq -> seq <> u16 (base_seq_no x + len sts) -> gap x sts seq < 2 ^ 15 - 1 ->
  SeqNum.IsNewerSequenceNumber seq (u16 (u16 (base_seq_no x + len sts) - 1)) = true.
Proof.
  intros Hs Hne Hg. unfold SeqNum.IsNewerSequenceNumber.
  apply SeqNum.IsNewer_spec; [lia|done|apply wrap_range; lia|].
  unfold gap, wrap, in_u in *. zconst. change (2 ^ 16) with 65536 in *. change (2 ^ (16 - 1)) with 32768 in *.
  Z.to_euclidean_division_equations; lia.
Qed.

(** What [AddReceivedPacket] may return, and the object it leaves: the packet is reported behind the
    lost ones, at its time; or it is refused, for one of four reasons. *)
Definition add_result (x : t) (sts : list (option Z)) (seq ts : Z) (r : bool) (x' : t) : Prop :=
  base_seq_no x' = base_seq_no x /\ include_timestamps x' = include_timestamps x /\
  if r then
    gap x sts seq < 2 ^ 15 /\
    (include_timestamps x = true -> same_tick ts (last_timestamp_us x')) /\
    exists delta, feedback_of x' (sts ++ replicate (Z.to_nat (gap x sts seq)) None ++ [Some delta])
  else
    (exists j, feedback_of x' (sts ++ replicate j None)) /\
    ((include_timestamps x = true /\ ticks_since (last_timestamp_us x) ts = None) \/
     2 ^ 15 - 1 <= gap x sts seq \/ kMaxReportedPackets <= len sts + gap x sts seq \/
     kMaxSizeBytes < size_bytes x + 2 * gap x sts seq + 4).

(** The end of [AddReceivedPacket], on the object [y] in which the lost packets are recorded. *)
Lemma add_received_result x sts seq ts y delta :
  in_u 16 seq -> feedback_of y (sts ++ replicate (Z.to_nat (gap x sts seq)) None) ->
  base_seq_no y = base_seq_no x -> include_timestamps y = include_timestamps x ->
  size_bytes y <= size_bytes x + 2 * gap x sts seq -> gap x sts seq < 2 ^ 15 ->
  status_ok (include_timestamps x) (Some delta) ->
  (include_timestamps x = true -> same_tick ts (last_timestamp_us y + delta * kDeltaScaleFactor)) ->
  exists r x', add_received y seq delta = Some (r, x') /\ add_result x sts seq ts r x'.
Proof.
  intros Hs Hy Hb Hi Hsz Hg Hd Ht. pose proof (gap_target x sts seq Hs) as Htgt.
  assert (Hg0 : 0 <= gap x sts seq) by (apply (wrap_range 16); lia).
  set (g := gap x sts seq) in *.
  assert (Hl : len (sts ++ replicate (Z.to_nat g) None) = len sts + g) by (len_simpl; lia).
  destruct (add_received_spec y _ delta Hy) as (r & x' & Hadd & Hb' & Hi' & Hr); [by rewrite Hi|].
  rewrite Hl, Hb, Z.add_assoc, <- Htgt in Hadd. exists r, x'. split; [done|].
  unfold add_result. fold g. rewrite Hb', Hi'. split; [done|]. split; [done|]. destruct r.
  - destruct Hr as [Hf Hlast]. split; [done|]. rewrite Hlast. split; [done|].
    exists delta. by rewrite app_assoc.
  - destruct Hr as [-> Hr]. split; [by eexists|]. rewrite Hl in Hr. destruct Hr; lia.
Qed.

(** [AddReceivedPacket] returns; whatever it returns, the object reports the statuses it reported
    and new ones behind them. *)
Lemma AddReceivedPacket_spec x sts seq ts :
  feedback_of x sts -> in_u 16 seq ->
  exists r x', AddReceivedPacket x seq ts = Some (r, x') /\ add_result x sts seq ts r x'.
Proof.
  intros Hx Hs. pose proof Hx as []. destruct of_chunks0 as [suf Hh]. pose proof (holds_num _ _ _ _ Hh) as Hn.
  rewrite len_fmap in Hn. unfold AddReceivedPacket. rewrite Hn.
  assert (Hg : 0 <= gap x sts seq < 65536) by (apply (wrap_range 16); lia).
  pose proof (gap_target x sts seq Hs) as Htgt.
  assert (Hrefl : feedback_of x (sts ++ replicate 0 None)) by by rewrite app_nil_r.
  destruct (if include_timestamps x then _ else _) as [delta|] eqn:Ed.
  2:{ exists false, x. split; [done|]. split; [done|]. split; [done|].
      split; [by eexists|]. left. by destruct (include_timestamps x). }
  assert (Hd : status_ok (include_timestamps x) (Some delta) /\
    (include_timestamps x = true -> same_tick ts (last_timestamp_us x + delta * kDeltaScaleFactor))).
  { destruct (include_timestamps x); [apply ticks_since_accurate in Ed as [? ?]; done|].
    injection Ed as <-. split; [split; [by_compute|done]|done]. }
  destruct Hd as [Hd Htick].
  destruct (Z.eqb_spec seq (u16 (base_seq_no x + len sts))) as [He|Hne]; cbn [negb].
  { assert (Hg0 : gap x sts seq = 0).
    { unfold gap. rewrite He. unfold wrap. rewrite Zminus_mod_idemp_l, Z.sub_diag. done. }
    apply (add_received_result x sts); rewrite ?Hg0; done || lia. }
  destruct (SeqNum.IsNewerSequenceNumber _ _) eqn:En; cbn [negb].
  2:{ exists false, x. split; [done|]. split; [done|]. split; [done|]. split; [by eexists|].
      right. left. apply Z.nlt_ge. intros Hlt. apply not_true_iff_false in En. apply En.
      by apply newer_gap. }
  pose proof (gap_newer x sts seq Hs En) as Hlt.
  destruct (add_lost_spec (Z.to_nat (gap x sts seq)) x sts Hx)
    as (r & x' & j & num & chunks & last & size & Hadd & Hx' & Hf & Hsz & Hr); [lia|].
  rewrite Z2Nat.id, <- Htgt in Hadd by lia.
  replace (u16 (seq - u16 (base_seq_no x + len sts))) with (gap x sts seq)
    by (unfold gap, wrap; by rewrite Zminus_mod_idemp_r).
  rewrite Hadd. cbn [mbind option_bind]. destruct r; cbn [negb].
  - subst j x'. rewrite Z2Nat.id in Hsz by lia. by apply (add_received_result x sts).
  - exists false, x'. split; [done|]. subst x'. split; [done|]. split; [done|].
    split; [by eexists|]. destruct Hr as [Hj Hr]. lia.
Qed.

(** ** The objects the public operations build *)

Inductive feedback_built : t -> Prop :=
| built_init ts lost : feedback_built (init ts lost)
| built_base x seq us x' :
    feedback_built x -> in_u 16 seq -> SetBase x seq us = Some x' -> feedback_built x'
| built_number x v : feedback_built x -> byte_ok v -> feedback_built (SetFeedbackSequenceNumber x v)
| built_sender x v : feedback_built x -> in_u 32 v -> feedback_built (SetSenderSsrc x v)
| built_media x v : feedback_built x -> in_u 32 v -> feedback_built (SetMediaSsrc x v)
| built_moved x : feedback_built x -> feedback_built (MoveFrom x).1
| built_left x : feedback_built x -> feedback_built (MoveFrom x).2
| built_add x seq ts r x' :
    feedback_built x -> in_u 16 seq -> AddReceivedPacket x seq ts = Some (r, x') -> feedback_built x'.

(** The operations that leave the chunks alone. *)
Lemma holds_config x y ds suf paid :
  holds x ds suf paid -> num_seq_no y = num_seq_no x -> encoded_chunks y = encoded_chunks x ->
  last_chunk y = last_chunk x -> size_bytes y = size_bytes x -> holds y ds suf paid.
Proof. intros [] E1 E2 E3 E4. split; rewrite ?E1, ?E2, ?E3, ?E4; done. Qed.

Ltac feedback_config := split; try done; try (eexists; by eapply holds_config).

Lemma feedback_of_init ts lost : feedback_of (init ts lost) [].
Proof.
  split; [split; by_compute|by_compute|by_compute|by_compute| |done|constructor|done].
  exists []. split; try done.
  - apply LastChunk.represents_empty. done.
  - by destruct ts.
Qed.

Lemma SetBase_spec x seq us x' sts :
  feedback_of x sts -> in_u 16 seq -> SetBase x seq us = Some x' -> sts = [] /\ feedback_of x' [].
Proof.
  intros [] Hs. destruct of_chunks0 as [suf Hh]. unfold SetBase. intros H.
  apply check_Some in H as [Hn H]. apply check_Some in H as [Hus H]. bool_prop.
  assert (sts = []) as ->.
  { rewrite (holds_num _ _ _ _ Hh), len_fmap in Hn. destruct sts; [done|]. rewrite len_cons in Hn.
    pose proof (len_nonneg sts). lia. }
  split; [done|]. injection H as <-. split; cbn [fb base_seq_no base_time_ticks feedback_seq received_packets
    include_timestamps last_timestamp_us]; try done.
  - change kTimeWrapPeriodUs with 1073741824000. change kBaseScaleFactor with 64000. unfold in_u. zconst.
    Z.to_euclidean_division_equations; lia.
  - exists suf. by eapply holds_config.
  - unfold GetBaseTimeUs. cbn [base_time_ticks]. change (elapsed []) with 0. lia.
Qed.

Lemma MoveFrom_spec x sts :
  feedback_of x sts -> feedback_of (MoveFrom x).1 sts /\ feedback_of (MoveFrom x).2 [].
Proof.
  intros [? ? ? ? [suf Hh] ? ? ?]. split; [by feedback_config|].
  split; try done.
  - exists []. destruct Hh as [_ _ [Hm _ _ _ _ _ _] _ _ _ _ _]. split; try done.
    + by apply LastChunk.represents_empty.
    + cbn. by destruct (include_timestamps x).
  - cbn [MoveFrom snd Clear last_timestamp_us]. change (elapsed []) with 0. unfold GetBaseTimeUs.
    cbn [base_time_ticks Clear]. lia.
Qed.

Lemma built_feedback_of x : feedback_built x -> exists sts, feedback_of x sts.
Proof.
  induction 1 as [ts lost|x seq us x' _ [sts Hx] Hs Hb|x v _ [sts Hx] Hv|x v _ [sts Hx] Hv|x v _ [sts Hx] Hv
                 |x _ [sts Hx]|x _ [sts Hx]|x seq ts r x' _ [sts Hx] Hs Ha].
  - exists []. apply feedback_of_init.
  - exists []. by eapply SetBase_spec.
  - exists sts. destruct Hx as [[] ? ? ? [suf Hh]]. by feedback_config.
  - exists sts. destruct Hx as [[] ? ? ? [suf Hh]]. by feedback_config.
  - exists sts. destruct Hx as [[] ? ? ? [suf Hh]]. by feedback_config.
  - exists sts. by apply MoveFrom_spec.
  - exists []. by eapply MoveFrom_spec.
  - destruct (AddReceivedPacket_spec x sts seq ts Hx Hs) as (r' & y & Hadd & _ & _ & Hr).
    rewrite Ha in Hadd. injection Hadd as -> ->. destruct r'.
    + destruct Hr as (_ & _ & delta & Hf). by eexists.
    + destruct Hr as [[j Hf] _]. by eexists.
Qed.

(** ** The self-check *)

Lemma length_chunk_sizes chunk : (length (LastChunk.chunk_sizes chunk) <= Z.to_nat kMaxReportedPackets)%nat.
Proof.
  unfold LastChunk.chunk_sizes, kMaxReportedPackets. destruct (_ =? 0).
  - rewrite length_replicate. change 0x1fff with (2 ^ 13 - 1). rewrite land_ones_mod by lia.
    pose proof (Z.mod_pos_bound chunk (2 ^ 13) ltac:(lia)) as Hm. change (2 ^ 13) with 8192 in *.
    apply Z2Nat.inj_le; lia.
  - destruct (_ =? 0); rewrite LastChunk.length_decode_loop; lia.
Qed.

Lemma decode_all_spec decoder chunks :
  length (LastChunk.delta_sizes decoder) = 14%nat -> Forall (in_u 16) chunks ->
  decode_all decoder chunks = Some (mjoin (LastChunk.chunk_sizes <$> chunks)).
Proof.
  intros Hd Hc. revert decoder Hd. induction Hc as [|chunk chunks Hu Hc IH]; intros decoder Hd; [done|].
  cbn [decode_all]. destruct (LastChunk.Decode_AppendTo decoder chunk kMaxReportedPackets) as (c & -> & Hl & Ha);
    [done|done|done|]. cbn [mbind option_bind]. rewrite Ha, take_ge by apply length_chunk_sizes.
  cbn [mbind option_bind]. by rewrite IH.
Qed.

Lemma check_deltas_spec timestamps sts seq ts size :
  Forall (status_ok timestamps) sts ->
  check_deltas timestamps (status_size <$> sts) seq (packets_of seq sts) ts size =
  Some ([], ts + kDeltaScaleFactor * elapsed sts, size + deltas_size timestamps sts).
Proof.
  intros Hs. revert seq ts size. induction Hs as [|s sts Hs _ IH]; intros seq ts size.
  - cbn. unfold elapsed, deltas_size. cbn. do 2 f_equal; [|destruct timestamps; lia]. f_equal. lia.
  - rewrite fmap_cons.
    assert (He : elapsed (s :: sts) = default 0 s + elapsed sts) by done.
    assert (Hp : deltas_size timestamps (s :: sts) =
      (if timestamps then status_size s else 0) + deltas_size timestamps sts) by by destruct timestamps.
    rewrite He, Hp. cbn [check_deltas]. destruct s as [delta|]; cbn [packets_of default].
    + replace (0 <? status_size (Some delta)) with true
        by (symmetry; apply Z.ltb_lt; cbn [status_size]; destruct (_ && _); lia).
      cbn [sequence_number Received]. rewrite Z.eqb_refl. cbn [negb].
      replace (_ && (_ || _)) with false.
      2:{ symmetry. cbn [status_size delta_ticks Received].
          destruct (Z.leb_spec 0 delta), (Z.leb_spec delta 0xff); cbn [andb Z.eqb Pos.eqb]; try done.
          apply orb_false_iff. split; apply Z.ltb_ge; lia. }
      rewrite IH. unfold delta_us, id. cbn [delta_ticks Received]. do 2 f_equal; [|lia]. f_equal. lia.
    + cbn [status_size]. change (0 <? 0) with false. rewrite IH.
      do 2 f_equal. destruct timestamps; lia.
Qed.

Lemma IsConsistent_spec x sts :
  feedback_of x sts ->
  IsConsistent x = Some (bool_decide (in_s 32 (base_time_ticks x * kBaseScaleFactor))).
Proof.
  intros []. destruct of_chunks0 as [suf []]. unfold IsConsistent.
  rewrite decode_all_spec by done. cbn [mbind option_bind].
  replace (if LastChunk.Empty (last_chunk x) then Some [] else LastChunk.AppendTo (last_chunk x)) with (Some suf).
  2:{ destruct (LastChunk.Empty _) eqn:E; [by rewrite (Empty_true _ _ holds_last0 E)|].
      by rewrite (LastChunk.AppendTo_spec _ _ holds_last0). }
  cbn [mbind option_bind]. rewrite <- holds_split0, holds_num0, Z.eqb_refl. cbn [negb].
  rewrite of_packets0, check_deltas_spec by done. f_equal.
  rewrite bool_decide_eq_true_2 by done. cbn [andb].
  unfold kChunkSizeBytes. rewrite <- holds_size0, Z.eqb_refl, andb_true_r, of_time0.
  fold (GetBaseTimeUs x). set (b := GetBaseTimeUs x). pose proof (wrap_to_signed 32 (u32 b)) as Hr.
  case_bool_decide as Hb; [rewrite to_signed_wrap by (lia || done); apply Z.eqb_eq; lia|].
  apply Z.eqb_neq. intros He. apply Hb. replace b with (to_signed 32 (u32 b)) by lia.
  apply Hr; [lia|]. apply wrap_range. lia.
Qed.

(** ** Properties *)

(** C1: Refinement.  Every object the public operations build reports a list of packet statuses
    ([feedback_of]: chunks, received packets, counters, size and last timestamp all agree with the
    list, the size never exceeds what the RTCP length field can express).  [AddReceivedPacket] returns
    on every input: accepting a packet appends the lost packets up to its sequence number and the
    packet, and the last timestamp is then its arrival time up to half a tick (125 us) and the
    wrap-around period; refusing it leaves a packet that reports a valid list, and happens only when
    the delta does not fit, the number is not ahead by less than half the range, or the packet is
    full. *)
Theorem feedback_builder_refines x :
  feedback_built x ->
  exists sts, feedback_of x sts /\
    forall seq ts, in_u 16 seq ->
      exists r x', AddReceivedPacket x seq ts = Some (r, x') /\ add_result x sts seq ts r x'.
Proof.
  intros H. destruct (built_feedback_of x H) as [sts Hx]. exists sts. split; [done|].
  intros. by apply AddReceivedPacket_spec.
Qed.

Lemma feedback_builder_refines_witness :
  exists sts, feedback_of (init true false) sts /\
    forall seq ts, in_u 16 seq ->
      exists r x', AddReceivedPacket (init true false) seq ts = Some (r, x') /\
        add_result (init true false) sts seq ts r x'.
Proof. exact (feedback_builder_refines (init true false) (built_init true false)). Defined.

(** C32: [AddReceivedPacket] accepts every packet it can report: less than half the sequence range
    ahead, at most 8 seconds from the last timestamp, with room for the lost packets and for itself. *)
Theorem feedback_accepts x sts seq ts :
  feedback_of x sts -> in_u 16 seq -> gap x sts seq < 2 ^ 15 - 1 ->
  len sts + gap x sts seq < kMaxReportedPackets ->
  size_bytes x + 2 * gap x sts seq + 4 <= kMaxSizeBytes ->
  Z.abs (ts - last_timestamp_us x) <= 32767 * kDeltaScaleFactor ->
  exists x' delta, AddReceivedPacket x seq ts = Some (true, x') /\
    feedback_of x' (sts ++ replicate (Z.to_nat (gap x sts seq)) None ++ [Some delta]).
Proof.
  intros Hx Hs Hg Hn Hsz Hts.
  destruct (AddReceivedPacket_spec x sts seq ts Hx Hs) as ([] & x' & Hadd & _ & _ & Hr).
  - destruct Hr as (_ & _ & delta & Hf). by exists x', delta.
  - exfalso. destruct (ticks_since_near _ _ Hts) as [delta Hd]. rewrite Hd in Hr.
    destruct Hr as [_ [[_ ?]|Hr]]; [done|lia].
Qed.

Lemma feedback_accepts_witness :
  exists x' delta, AddReceivedPacket (init true false) 3 5000 = Some (true, x') /\
    feedback_of x' [None; None; None; Some delta].
Proof.
  apply (feedback_accepts (init true false) [] 3 5000);
    [apply feedback_of_init|by_compute|reflexivity|reflexivity|discriminate|discriminate].
Defined.

(** C33: [IsConsistent] answers [true] on every object the public operations build, as its comment
    asks, exactly when the base time fits in 32 bits: its product [base_time_ticks_ *
    kBaseScaleFactor] is computed in [int], so from base time 33555 (about 36 minutes) on it
    compares a wrapped value with the 64-bit [last_timestamp_us_] and reports a consistent object as
    inconsistent. *)
Theorem feedback_self_check x :
  feedback_built x -> IsConsistent x = Some (bool_decide (in_s 32 (base_time_ticks x * kBaseScaleFactor))).
Proof.
  intros H. destruct (built_feedback_of x H) as [sts Hx]. by apply (IsConsistent_spec x sts).
Qed.

Lemma feedback_self_check_witness :
  exists x, SetBase (init true false) 7 (33555 * 64000) = Some x /\ IsConsistent x = Some false.
Proof.
  eexists. split; [reflexivity|]. rewrite feedback_self_check; [reflexivity|].
  apply (built_base (init true false) 7 (33555 * 64000)); [apply built_init|by_compute|reflexivity].
Defined.

(** The move constructor keeps everything the packet reports and leaves an empty packet behind, but
    not the SSRCs: the base class is default constructed, so the new packet has sender and media
    SSRC 0. *)
Lemma feedback_move x sts :
  feedback_of x sts ->
  feedback_of (MoveFrom x).1 sts /\ feedback_of (MoveFrom x).2 [] /\
  received_packets (MoveFrom x).1 = received_packets x /\
  fb (MoveFrom x).1 = Rtpfb.MkRtpfb 0 0 /\ fb (MoveFrom x).2 = fb x.
Proof. intros Hx. destruct (MoveFrom_spec x sts Hx). done. Qed.

(** [GetBaseDeltaUs] undoes one wrap-around of the base time: for a previous timestamp less than
    three half periods away it returns the distance congruent to the difference modulo the period
    that is at most half a period long. *)
Lemma base_delta_shortest x prev :
  Z.abs (GetBaseTimeUs x - prev) <= 3 * (kTimeWrapPeriodUs / 2) ->
  (GetBaseDeltaUs x prev - (GetBaseTimeUs x - prev)) mod kTimeWrapPeriodUs = 0 /\
  Z.abs (GetBaseDeltaUs x prev) <= kTimeWrapPeriodUs / 2.
Proof.
  unfold GetBaseDeltaUs. change kTimeWrapPeriodUs with 1073741824000. change (1073741824000 / 2) with 536870912000.
  set (d := GetBaseTimeUs x - prev). intros Hd.
  destruct (Z.ltb_spec (Z.abs (d - 1073741824000)) (Z.abs d)).
  { replace (_ - _ - d) with (-1 * 1073741824000) by lia. split; [apply Z_mod_mult|lia]. }
  destruct (Z.ltb_spec (Z.abs (d + 1073741824000)) (Z.abs d)).
  { replace (d + 1073741824000 - d) with (1 * 1073741824000) by lia. split; [apply Z_mod_mult|lia]. }
  rewrite Z.sub_diag. split; [done|lia].
Qed.

