(* ===== verification/FeedbackWire.v ===== *)
(** * Transport feedback on the wire

    [TransportFeedback::Create] and [TransportFeedback::Parse]: the bytes of a packet that reports a
    list of statuses, the round trip, and the safety of the parser on arbitrary payloads. *)

From S2P Require Import Prelude Buffer ByteIo Rtcp Wire Feedback.
From S2P Require Import SeqNum FeedbackChunk TransportFeedback FeedbackBuilder.
Import ByteReader ByteWriter RtcpPacket TransportFeedback.

Module FeedbackPacket.

(** All packets of a list of statuses, as [GetAllPackets] lists them. *)
Fixpoint all_of (seq : Z) (sts : list (option Z)) : list ReceivedPacket :=
  match sts with
  | [] => []
  | s :: sts' =>
      match s with None => Lost seq | Some delta => Received seq delta end :: all_of (u16 (seq + 1)) sts'
  end.

Definition all_if (lost : bool) (seq : Z) (sts : list (option Z)) : list ReceivedPacket :=
  if lost then all_of seq sts else [].

(** ** The bytes *)

Definition delta_wire (r : ReceivedPacket) : list Z :=
  let delta := delta_ticks r in
  if (0 <=? delta) && (delta <=? 0xFF) then [delta] else be_bytes 2 (wrap 16 delta).

Definition deltas_wire (x : t) : list Z :=
  if include_timestamps x then mjoin (delta_wire <$> received_packets x) else [].

Definition last_chunk_wire (x : t) : list Z :=
  if LastChunk.Empty (last_chunk x) then [] else be_bytes 2 (default 0 (LastChunk.EncodeLast (last_chunk x))).

Definition chunks_wire (x : t) : list Z := mjoin (be_bytes 2 <$> encoded_chunks x) ++ last_chunk_wire x.

Definition fixed_wire (x : t) : list Z :=
  Rtpfb.wire (fb x) ++ be_bytes 2 (base_seq_no x) ++ be_bytes 2 (num_seq_no x) ++
  be_bytes 3 (wrap 24 (base_time_ticks x)) ++ be_bytes 1 (feedback_seq x).

Definition padding_wire (n : Z) : list Z :=
  if 0 <? n then replicate (Z.to_nat (n - 1)) 0 ++ [n] else [].

Definition payload_wire (x : t) : list Z := fixed_wire x ++ chunks_wire x ++ deltas_wire x.

Definition wire (x : t) : list Z :=
  header_wire kFeedbackMessageType Rtpfb.kPacketType ((BlockLength x - 4) / 4) (0 <? PaddingLength x) ++
  payload_wire x ++ padding_wire (PaddingLength x).

(** ** Lengths *)

Lemma land_align v : Z.land (v + 3) (Z.lnot 3) = 4 * ((v + 3) / 4).
Proof.
  rewrite <- Z.ldiff_land. change 3 with (Z.ones 2) at 2. rewrite Z.ldiff_ones_r by lia.
  rewrite Z.shiftr_div_pow2, Z.shiftl_mul_pow2 by lia. change (2 ^ 2) with 4. lia.
Qed.

Lemma padding_range x : 0 <= PaddingLength x < 4.
Proof.
  unfold PaddingLength, BlockLength. rewrite land_align. Z.to_euclidean_division_equations; lia.
Qed.

Lemma len_padding n : 0 <= n -> len (padding_wire n) = n.
Proof.
  intros. unfold padding_wire. destruct (Z.ltb_spec 0 n); [|rewrite len_nil; lia].
  rewrite len_app, len_replicate, len_cons, len_nil. lia.
Qed.

Lemma len_delta_wire seq delta : len (delta_wire (Received seq delta)) = status_size (Some delta).
Proof. unfold delta_wire. cbn [delta_ticks Received status_size]. by destruct (_ && _). Qed.

Lemma len_deltas seq sts : len (mjoin (delta_wire <$> packets_of seq sts)) = sum (status_size <$> sts).
Proof.
  revert seq. induction sts as [|[delta|] sts IH]; intros seq; [done| |apply IH].
  cbn [packets_of]. rewrite mjoin_fmap_cons, len_app, IH, len_delta_wire. done.
Qed.

Lemma len_deltas_wire x sts : feedback_of x sts -> len (deltas_wire x) = deltas_size (include_timestamps x) sts.
Proof.
  intros []. unfold deltas_wire, deltas_size. destruct (include_timestamps x); [|done].
  rewrite of_packets. apply len_deltas.
Qed.

Lemma len_chunks_wire x :
  len (chunks_wire x) = 2 * len (encoded_chunks x) + (if LastChunk.Empty (last_chunk x) then 0 else 2).
Proof.
  unfold chunks_wire, last_chunk_wire. rewrite len_app, (len_items _ _ 2) by done.
  by destruct (LastChunk.Empty _).
Qed.

Lemma len_payload x sts : feedback_of x sts -> len (payload_wire x) = size_bytes x - 4.
Proof.
  intros Hx. pose proof Hx as []. destruct of_chunks as [suf []].
  unfold payload_wire. rewrite !len_app, len_chunks_wire, (len_deltas_wire x sts Hx), holds_size.
  unfold fixed_wire, kTransportFeedbackHeaderSizeBytes. len_simpl. zconst. lia.
Qed.

Lemma sizes x sts :
  feedback_of x sts ->
  20 <= size_bytes x /\ BlockLength x = size_bytes x + PaddingLength x /\
  BlockLength x = 4 + 4 * ((BlockLength x - 4) / 4) /\ in_u 16 ((BlockLength x - 4) / 4).
Proof.
  intros Hx. pose proof Hx as []. destruct of_chunks as [suf []].
  assert (0 <= deltas_size (include_timestamps x) sts).
  { rewrite <- (len_deltas_wire x sts Hx). apply len_nonneg. }
  pose proof (len_nonneg (encoded_chunks x)).
  assert (20 <= size_bytes x).
  { rewrite holds_size. unfold kTransportFeedbackHeaderSizeBytes. destruct (LastChunk.Empty _); lia. }
  split; [done|]. unfold PaddingLength, BlockLength, in_u. rewrite land_align. change kMaxSizeBytes with 262144 in *.
  zconst. Z.to_euclidean_division_equations; lia.
Qed.

Lemma FeedbackPacket_len_wire x sts : feedback_of x sts -> len (wire x) = BlockLength x.
Proof.
  intros Hx. pose proof (padding_range x). unfold wire. rewrite !len_app, (len_payload x sts Hx), len_header_wire, len_padding by lia.
  pose proof (sizes x sts Hx). lia.
Qed.

(** ** Create *)

Lemma appends_field f n bs :
  (forall p, stores (f p) p bs) -> n = len bs -> appends (at_index 0 f ;; advance n) bs.
Proof. intros Hf Hn. apply appends_writes; [|done]. by apply writes_at_index. Qed.

Lemma appends_delta r : appends (write_delta r) (delta_wire r).
Proof.
  unfold write_delta, delta_wire. destruct (Z.leb_spec 0 (delta_ticks r)), (Z.leb_spec (delta_ticks r) 0xff);
    cbn [andb]; try (apply appends_field; [intros; apply stores_WriteInt16|done]).
  apply appends_push_byte. unfold byte_ok. lia.
Qed.

Lemma appends_last_chunk x suf :
  LastChunk.represents (last_chunk x) suf -> appends (write_last_chunk (last_chunk x)) (last_chunk_wire x).
Proof.
  intros Hr. unfold write_last_chunk, last_chunk_wire.
  destruct (LastChunk.Empty (last_chunk x)) eqn:E; [apply appends_ret|].
  destruct (LastChunk.EncodeLast_spec _ _ Hr) as (chunk & -> & _).
  { intros ->. by rewrite (represents_Empty _ _ Hr) in E. }
  apply appends_field; [intros; apply stores_WriteBigEndian|done].
Qed.

Lemma appends_padding n : 0 <= n < 4 -> appends (write_padding n) (padding_wire n).
Proof.
  intros Hn. unfold write_padding, padding_wire. destruct (Z.ltb_spec 0 n); [|apply appends_ret].
  eapply appends_seq; [|apply appends_push_byte; unfold byte_ok; lia|reflexivity].
  replace (replicate (Z.to_nat (n - 1)) 0) with (mjoin ((fun b => [b]) <$> replicate (Z.to_nat (n - 1)) 0)) at 2.
  - apply appends_for_each. intros b Hb. apply elem_of_replicate_inv in Hb as ->. by apply appends_push_byte.
  - generalize (Z.to_nat (n - 1)). intros m. induction m as [|m IH]; [done|]. cbn. f_equal. done.
Qed.

Lemma FeedbackPacket_appends_body x sts : feedback_of x sts -> appends (body x) (wire x).
Proof.
  intros Hx. pose proof Hx as []. destruct of_chunks as [suf []]. pose proof (padding_range x).
  destruct (sizes x sts Hx) as (_ & _ & Hb & Hw).
  unfold body. apply RoomFacts.appends_index_end; [intros _|by apply (FeedbackPacket_len_wire x sts)].
  eapply RoomFacts.appends_header; [by_compute|by_compute|exact Hb|done| |reflexivity].
  unfold payload_wire, fixed_wire, chunks_wire. rewrite <- !app_assoc.
  eapply appends_seq; [apply appends_field; [intros; apply Rtpfb.Rtpfb_stores_Create|done]| |reflexivity].
  eapply appends_seq; [apply appends_field; [intros; apply stores_WriteBigEndian|done]| |reflexivity].
  eapply appends_seq; [apply appends_field; [intros; apply stores_WriteBigEndian|done]| |reflexivity].
  eapply appends_seq; [apply appends_field; [intros; apply stores_WriteInt24|done]| |reflexivity].
  eapply appends_seq; [apply appends_push| |].
  - eapply appends_seq; [apply (appends_for_each _ _ (be_bytes 2))| |reflexivity].
    { intros chunk _. apply appends_field; [intros; apply stores_WriteBigEndian|done]. }
    eapply appends_seq; [by eapply appends_last_chunk| |reflexivity].
    eapply appends_seq; [|by apply appends_padding|reflexivity].
    unfold deltas_wire. apply appends_if; intros _; [|apply appends_ret].
    apply appends_for_each. intros r _. apply appends_delta.
  - cbn [be_bytes app]. change (256 ^ Z.of_nat 0) with 1. by rewrite Z.div_1_r.
Qed.

(** The packets [Create] writes: those that report at least one packet. *)
Definition valid (x : t) : Prop := exists sts, feedback_of x sts /\ sts <> [].

Lemma FeedbackPacket_behaves_valid x : valid x -> behaves x (wire x) (eq (wire x)) (Rtcp.BlockLength x).
Proof.
  intros (sts & Hx & Hne). pose proof (sizes x sts Hx). pose proof (padding_range x).
  apply (simple_behaves body); [|by apply (FeedbackPacket_appends_body x sts)|by apply (FeedbackPacket_len_wire x sts)|cbn; lia].
  intros max cb s. cbn [Rtcp.Create Rtcp.BlockLength ops]. unfold Create.
  destruct Hx as [_ _ _ _ [suf []] _ _ _]. rewrite holds_num, len_fmap.
  destruct (Z.eqb_spec (len sts) 0) as [Hz|]; [|done].
  destruct sts; [done|]. rewrite len_cons in Hz. pose proof (len_nonneg sts). lia.
Qed.

#[global] Instance laws : RtcpPacketLaws t :=
  Build_RtcpPacketLaws t _ valid wire (fun x => eq (wire x)) Rtcp.BlockLength FeedbackPacket_behaves_valid.

(** ** Parsing what was written *)

(** One round of the loop over the chunks. *)
Lemma FeedbackPacket_parse_chunks_step fuel payload count stop chunks last ds index chunk rest :
  len ds < count -> index + 2 <= stop -> 0 <= index -> in_u 16 chunk ->
  length (LastChunk.delta_sizes last) = 14%nat ->
  ptr_add payload index = be_bytes 2 chunk ++ rest ->
  exists last', length (LastChunk.delta_sizes last') = 14%nat /\ ptr_add payload (index + 2) = rest /\
    parse_chunks (S fuel) payload count stop chunks last ds index =
    parse_chunks fuel payload count stop (chunks ++ [chunk]) last'
      (ds ++ take (Z.to_nat (count - len ds)) (LastChunk.chunk_sizes chunk)) (index + 2).
Proof.
  intros Hd Hs Hi Hc Hl Hp.
  destruct (LastChunk.Decode_AppendTo last chunk (count - len ds)) as (last' & Hdec & Hl' & Ha); [done|lia|done|].
  exists last'. split; [done|]. split.
  { rewrite <- ptr_add_add, Hp, ptr_add_app_ge by (len_simpl; lia). len_simpl. done. }
  cbn [parse_chunks]. unfold kChunkSizeBytes.
  replace (len ds <? count) with true by (symmetry; by apply Z.ltb_lt).
  replace (stop <? index + 2) with false by (symmetry; by apply Z.ltb_ge).
  rewrite Hp, ReadBigEndian_bytes by (done || lia). cbn [mbind option_bind].
  rewrite Hdec. cbn [mbind option_bind]. rewrite Ha. done.
Qed.

Lemma FeedbackPacket_parse_chunks_wire cs fuel payload count stop chunks last ds index final suf rest :
  (length cs < fuel)%nat -> 0 <= index -> index + 2 * (len cs + 1) <= stop ->
  Forall (in_u 16) cs -> in_u 16 final -> suf <> [] ->
  take (length suf) (LastChunk.chunk_sizes final) = suf ->
  count = len ds + len (mjoin (LastChunk.chunk_sizes <$> cs)) + len suf ->
  length (LastChunk.delta_sizes last) = 14%nat ->
  ptr_add payload index = mjoin (be_bytes 2 <$> cs) ++ be_bytes 2 final ++ rest ->
  exists last', length (LastChunk.delta_sizes last') = 14%nat /\
    ptr_add payload (index + 2 * (len cs + 1)) = rest /\
    parse_chunks fuel payload count stop chunks last ds index =
    Some (ChunksDone (chunks ++ cs ++ [final]) last'
            (ds ++ mjoin (LastChunk.chunk_sizes <$> cs) ++ suf) (index + 2 * (len cs + 1))).
Proof.
  intros Hf Hi Hs Hcs Hfin Hne Ht Hc Hl Hp.
  assert (0 < len suf) by (destruct suf; [done|rewrite len_cons; pose proof (len_nonneg suf); lia]).
  revert fuel chunks last ds index Hf Hi Hs Hc Hl Hp.
  induction Hcs as [|chunk cs Hu Hcs IH]; intros fuel chunks last ds index Hf Hi Hs Hc Hl Hp;
    (destruct fuel as [|fuel]; [cbn in Hf; lia|]).
  - change (len (mjoin (LastChunk.chunk_sizes <$> []))) with 0 in Hc. rewrite len_nil in Hs |- *.
    destruct (FeedbackPacket_parse_chunks_step fuel payload count stop chunks last ds index final rest)
      as (last' & Hl' & Hp' & ->); [lia|lia|done|done|done|done|].
    exists last'. split; [done|]. split; [done|]. cbn [app fmap list_fmap mjoin list_join].
    replace (Z.to_nat (count - len ds)) with (length suf) by (unfold len in *; lia). rewrite Ht.
    destruct fuel; cbn [parse_chunks];
      (replace (len (ds ++ suf) <? count) with false; [done|symmetry; apply Z.ltb_ge; rewrite len_app; lia]).
  - rewrite mjoin_fmap_cons, len_app in Hc. rewrite len_cons in Hs |- *. rewrite mjoin_fmap_cons, <- app_assoc in Hp.
    pose proof (len_nonneg (LastChunk.chunk_sizes chunk)). pose proof (len_nonneg cs).
    pose proof (len_nonneg (mjoin (LastChunk.chunk_sizes <$> cs))).
    destruct (FeedbackPacket_parse_chunks_step fuel payload count stop chunks last ds index chunk
      (mjoin (be_bytes 2 <$> cs) ++ be_bytes 2 final ++ rest)) as (last1 & Hl1 & Hp1 & ->);
      [lia|lia|done|done|done|exact Hp|].
    rewrite take_ge by (unfold len in *; lia).
    destruct (IH fuel (chunks ++ [chunk]) last1 (ds ++ LastChunk.chunk_sizes chunk) (index + 2))
      as (last' & Hl' & Hp' & ->); [cbn in Hf; lia|lia|lia|rewrite len_app; lia|done|done|].
    exists last'. split; [done|]. split; [rewrite <- Hp'; f_equal; lia|].
    rewrite mjoin_fmap_cons, <- !app_assoc. cbn [app]. do 2 f_equal. lia.
Qed.

(** The receive deltas. *)
Lemma parse_deltas_wire sts lost payload stop index seq ts recv all rest :
  0 <= index -> Forall (status_ok true) sts -> index + sum (status_size <$> sts) <= stop ->
  ptr_add payload index = mjoin (delta_wire <$> packets_of seq sts) ++ rest ->
  parse_deltas lost payload stop (status_size <$> sts) index seq ts recv all =
  Some (Some (index + sum (status_size <$> sts), ts + kDeltaScaleFactor * elapsed sts,
              recv ++ packets_of seq sts, all ++ all_if lost seq sts)).
Proof.
  intros Hi Hs. revert index seq ts recv all Hi.
  induction Hs as [|s sts Hs _ IH]; intros index seq ts recv all Hi Hstop Hp.
  { unfold all_if, elapsed, sum. cbn. rewrite !app_nil_r. destruct lost; rewrite ?app_nil_r; repeat f_equal; lia. }
  rewrite fmap_cons in *. change (sum (?a :: ?l)) with (a + sum l) in *.
  assert (He : elapsed (s :: sts) = default 0 s + elapsed sts) by done. rewrite He.
  assert (Hsum : 0 <= sum (status_size <$> sts)) by (rewrite <- (len_deltas (u16 (seq + 1))); apply len_nonneg).
  pose proof (status_size_range s). cbn [parse_deltas].
  replace (stop <? index + status_size s) with false by (symmetry; apply Z.ltb_ge; lia).
  destruct s as [delta|]; cbn [packets_of default] in *.
  - rewrite mjoin_fmap_cons, <- app_assoc in Hp.
    assert (Hp' : ptr_add payload (index + status_size (Some delta)) =
      mjoin (delta_wire <$> packets_of (u16 (seq + 1)) sts) ++ rest).
    { rewrite <- ptr_add_add, Hp, ptr_add_app_ge by (rewrite ?len_delta_wire; lia).
      by rewrite len_delta_wire, Z.sub_diag. }
    destruct Hs as [Hs _].
    assert (Hread : (if status_size (Some delta) =? 1 then byte_at payload index
                     else if status_size (Some delta) =? 2
                          then ReadBigEndianSigned 16 2 (ptr_add payload index) else None) = Some delta /\
                    status_size (Some delta) <> 0 /\ status_size (Some delta) <> 3).
    { unfold byte_at. rewrite Hp. unfold delta_wire. cbn [status_size delta_ticks Received].
      destruct (_ && _) eqn:E; [done|]. cbn [Z.eqb Pos.eqb]. rewrite ReadInt16_bytes by done. done. }
    destruct Hread as (Hread & H0 & H3). rewrite Hread.
    rewrite (proj2 (Z.eqb_neq _ _) H0), (proj2 (Z.eqb_neq _ _) H3). cbn [mbind option_bind].
    rewrite IH by (done || lia). unfold id. rewrite <- !app_assoc. unfold all_if. do 3 f_equal.
    + do 2 f_equal; lia.
    + destruct lost; [by rewrite <- app_assoc|done].
  - cbn [status_size] in *. change (0 =? 0) with true. cbn iota. rewrite IH by (done || lia).
    unfold all_if. do 3 f_equal. destruct lost; [by rewrite <- app_assoc|done].
Qed.

(** A packet without receive deltas. *)
Lemma parse_statuses_wire sts lost seq recv all :
  Forall (status_ok false) sts ->
  parse_statuses lost (status_size <$> sts) seq recv all =
  (recv ++ packets_of seq sts, all ++ all_if lost seq sts).
Proof.
  intros Hs. revert seq recv all. induction Hs as [|s sts Hs _ IH]; intros seq recv all.
  { unfold all_if. cbn. rewrite app_nil_r. destruct lost; by rewrite app_nil_r. }
  rewrite fmap_cons. cbn [parse_statuses]. rewrite IH. unfold all_if.
  destruct s as [delta|]; cbn [packets_of status_size all_of].
  - destruct Hs as [_ Hs]. rewrite (Hs eq_refl). cbn. rewrite <- !app_assoc. cbn [app].
    destruct lost; [by rewrite <- app_assoc|done].
  - cbn. destruct lost; [by rewrite <- app_assoc|done].
Qed.

(** [y] is what a [this] that parses the packet [x] becomes: everything the packet carries; the
    base time as a signed 24-bit number, so up to the wrap-around period. *)
Record reads_as (this x : t) (sts : list (option Z)) (y : t) : Prop := {
  reads_fb : fb y = fb x;
  reads_base : base_seq_no y = base_seq_no x;
  reads_num : num_seq_no y = num_seq_no x;
  reads_seq : feedback_seq y = feedback_seq x;
  reads_ticks : base_time_ticks y = to_signed 24 (base_time_ticks x);
  reads_time : last_timestamp_us y - GetBaseTimeUs y = last_timestamp_us x - GetBaseTimeUs x;
  reads_received : received_packets y = received_packets x;
  reads_all : all_packets y = all_if (include_lost this) (base_seq_no x) sts;
  reads_chunks : encoded_chunks y = encoded_chunks x;
  reads_size : size_bytes y = size_bytes x;
  reads_timestamps : include_timestamps y =
    include_timestamps this && (include_timestamps x || bool_decide (received_packets x = []))
}.

Lemma to_signed_24 v : in_u 24 v -> in_s 24 (to_signed 24 v) /\ wrap 24 (to_signed 24 v) = v.
Proof.
  intros Hv. split; [by apply wrap_to_signed|]. unfold to_signed, in_u, wrap in *. zconst.
  change (2 ^ 24) with 16777216 in *. destruct (Z.ltb_spec v 8388608); Z.to_euclidean_division_equations; lia.
Qed.

Lemma parse_header_wire this x sts rest :
  feedback_of x sts ->
  exists y, parse_header this (fixed_wire x ++ rest) = Some (Clear y, num_seq_no x) /\
    fb y = fb x /\ base_seq_no y = base_seq_no x /\ feedback_seq y = feedback_seq x /\
    base_time_ticks y = to_signed 24 (base_time_ticks x) /\ include_lost y = include_lost this /\
    include_timestamps y = include_timestamps this /\ last_chunk y = last_chunk this.
Proof.
  intros []. destruct of_chunks as [suf []]. unfold parse_header, fixed_wire. rewrite <- !app_assoc.
  rewrite Rtpfb.Rtpfb_Parse_wire by done. cbn [mbind option_bind].
  destruct (to_signed_24 (base_time_ticks x) of_ticks) as [Hs Hw].
  assert (Hn : in_u 16 (num_seq_no x)).
  { rewrite holds_num. unfold in_u, kMaxReportedPackets in *. zconst. pose proof (len_nonneg (status_size <$> sts)). lia. }
  rewrite (wrap_small 24) by done.
  replace (be_bytes 3 (base_time_ticks x)) with (be_bytes 3 (wrap 24 (to_signed 24 (base_time_ticks x)))) by by rewrite Hw.
  read_wire. eexists. split; [reflexivity|]. done.
Qed.

Lemma received_nil seq sts : packets_of seq sts = [] <-> sum (status_size <$> sts) = 0.
Proof.
  rewrite <- (len_deltas seq). split; [by intros ->|].
  destruct (packets_of seq sts) as [|p l]; [done|]. rewrite mjoin_fmap_cons, len_app.
  pose proof (len_nonneg (mjoin (delta_wire <$> l))) as Hm. set (m := len (mjoin _)) in *. clearbody m.
  unfold delta_wire. intros Hz. exfalso. revert Hz.
  destruct (_ && _); rewrite ?len_be_bytes, ?len_cons, ?len_nil; lia.
Qed.

(** The chunks of [x]; the index behind them. *)
Definition deltas_index (x : t) : Z := 16 + 2 * (len (encoded_chunks x) + 1).

Lemma parse_chunks_payload x sts rest last :
  feedback_of x sts -> sts <> [] -> length (LastChunk.delta_sizes last) = 14%nat ->
  exists last' final,
    ptr_add (payload_wire x ++ rest) (deltas_index x) = deltas_wire x ++ rest /\
    size_bytes x - 4 = deltas_index x + deltas_size (include_timestamps x) sts /\
    parse_chunks (Z.to_nat (size_bytes x - 4)) (payload_wire x ++ rest) (len sts) (size_bytes x - 4)
      [] last [] 16 =
    Some (ChunksDone (encoded_chunks x ++ [final]) last' (status_size <$> sts) (deltas_index x)).
Proof.
  intros Hx Hne Hl. pose proof (len_deltas_wire x sts Hx) as Hld. destruct Hx as [_ _ _ _ [suf []] _ _ _].
  assert (Hsuf : suf <> []).
  { intros ->. rewrite holds_nonempty in holds_split by done. by destruct sts. }
  assert (Hemp : LastChunk.Empty (last_chunk x) = false)
    by (rewrite (represents_Empty _ _ holds_last); by apply bool_decide_eq_false_2).
  destruct (LastChunk.EncodeLast_spec _ _ holds_last Hsuf) as (final & Hfin & Hfu & Hft).
  rewrite Hemp in holds_size. unfold kTransportFeedbackHeaderSizeBytes in holds_size.
  pose proof (len_nonneg (encoded_chunks x)) as Hlc. pose proof (len_nonneg (deltas_wire x)) as Hdp.
  assert (H16 : ptr_add (payload_wire x ++ rest) 16 =
    mjoin (be_bytes 2 <$> encoded_chunks x) ++ be_bytes 2 final ++ deltas_wire x ++ rest).
  { unfold payload_wire, chunks_wire, last_chunk_wire. rewrite Hemp, Hfin, <- !app_assoc.
    rewrite ptr_add_app_ge by done. done. }
  destruct (FeedbackPacket_parse_chunks_wire (encoded_chunks x) (Z.to_nat (size_bytes x - 4)) (payload_wire x ++ rest)
    (len sts) (size_bytes x - 4) [] last [] 16 final suf (deltas_wire x ++ rest))
    as (last' & Hl' & Hp' & Hchunks); [unfold len in *; lia|lia|lia|done|done|done|done| |done|done|].
  { rewrite len_nil, <- (len_fmap status_size sts), holds_split, len_app. lia. }
  cbn [app] in Hchunks. rewrite <- holds_split in Hchunks. unfold deltas_index.
  exists last', final. split; [done|]. split; [lia|done].
Qed.

Lemma status_ok_weaken b sts : Forall (status_ok b) sts -> Forall (status_ok true) sts.
Proof. intros H. eapply Forall_impl; [exact H|]. intros [delta|]; [|done]. by intros [? _]. Qed.

Lemma elapsed_zero sts : Forall (status_ok false) sts -> elapsed sts = 0.
Proof.
  induction 1 as [|s sts Hs _ IH]; [done|]. change (elapsed (s :: sts)) with (default 0 s + elapsed sts).
  rewrite IH. destruct s as [delta|]; [|done]. destruct Hs as [_ Hs]. by rewrite (Hs eq_refl).
Qed.

(** The parser on the payload of [x], with anything behind it. *)
Lemma Parse_payload this x sts rest pad :
  feedback_of x sts -> sts <> [] -> length (LastChunk.delta_sizes (last_chunk this)) = 14%nat ->
  exists y, Parse this (CommonHeader.Header Rtpfb.kPacketType kFeedbackMessageType pad (size_bytes x - 4)
                          (payload_wire x ++ rest)) = Some (true, y) /\ reads_as this x sts y.
Proof.
  intros Hx Hne Hl. pose proof Hx as []. destruct of_chunks as [suf Hh].
  pose proof (holds_num _ _ _ _ Hh) as Hnum. rewrite len_fmap in Hnum.
  destruct (parse_header_wire this x sts ((chunks_wire x ++ deltas_wire x) ++ rest) Hx)
    as (y0 & Hhdr & Hfb & Hbase & Hseq & Hticks & Hlost & Htime & Hlast).
  rewrite app_assoc in Hhdr. change (fixed_wire x ++ chunks_wire x ++ deltas_wire x) with (payload_wire x) in Hhdr.
  destruct (parse_chunks_payload x sts rest (last_chunk (Clear y0)) Hx Hne) as (last' & final & Hp & Hsz & Hchunks);
    [cbn; by rewrite Hlast|].
  pose proof (len_nonneg (encoded_chunks x)). pose proof (len_nonneg (deltas_wire x)) as Hdp.
  rewrite (len_deltas_wire x sts Hx) in Hdp.
  assert (Hcount : 0 < len sts) by (destruct sts; [done|rewrite len_cons; pose proof (len_nonneg sts); lia]).
  assert (Hidx : 18 <= deltas_index x) by (unfold deltas_index; lia).
  unfold Parse. hdr. rewrite !Z.eqb_refl. cbn [check mbind option_bind]. unfold kMinPayloadSizeBytes.
  replace (size_bytes x - 4 <? 8 + 8 + 2) with false by (symmetry; apply Z.ltb_ge; lia).
  rewrite Hhdr. cbn [mbind option_bind]. rewrite Hnum.
  replace (len sts =? 0) with false by (symmetry; apply Z.eqb_neq; lia).
  rewrite Hchunks. cbn [mbind option_bind]. rewrite len_fmap, Z.eqb_refl. cbn [check mbind option_bind].
  rewrite length_app, Nat.add_sub, take_app_length.
  cbn [with_chunks include_lost base_seq_no last_timestamp_us Clear]. rewrite Hlost, Hbase.
  assert (Hcase : (include_timestamps x || bool_decide (received_packets x = [])) =
    (deltas_index x + sum (status_size <$> sts) <=? size_bytes x - 4)).
  { rewrite Hsz. unfold deltas_size. destruct (include_timestamps x); cbn [orb].
    - symmetry. apply Z.leb_le. lia.
    - case_bool_decide as Hr; rewrite of_packets, received_nil in Hr; symmetry; [apply Z.leb_le; lia|].
      apply Z.leb_gt. rewrite <- (len_deltas 0) in Hr |- *. pose proof (len_nonneg (mjoin (delta_wire <$> packets_of 0 sts))). lia. }
  rewrite <- Hcase. destruct (include_timestamps x || bool_decide (received_packets x = [])) eqn:E.
  - rewrite (parse_deltas_wire sts _ _ _ _ _ _ _ _ rest);
      [|lia|by eapply status_ok_weaken|symmetry in Hcase; by apply Z.leb_le in Hcase|].
    2:{ rewrite Hp. f_equal. unfold deltas_wire. rewrite <- of_packets. destruct (include_timestamps x); [done|].
        apply bool_decide_eq_true_1 in E. by rewrite E. }
    symmetry in Hcase. apply Z.leb_le in Hcase. cbn [mbind option_bind app].
    replace (_ <=? size_bytes x - 4) with true by (symmetry; by apply Z.leb_le). cbn [check mbind option_bind].
    eexists. split; [reflexivity|].
    assert (Hfull : deltas_index x + sum (status_size <$> sts) = size_bytes x - 4).
    { rewrite Hsz in *. unfold deltas_size in *. destruct (include_timestamps x); [done|].
      apply bool_decide_eq_true_1 in E. rewrite of_packets in E. apply received_nil in E. lia. }
    split; cbn [with_packets with_chunks Clear fb base_seq_no num_seq_no feedback_seq base_time_ticks
      last_timestamp_us received_packets all_packets encoded_chunks size_bytes include_timestamps include_lost]; try done.
    + rewrite of_time. unfold GetBaseTimeUs.
      cbn [base_time_ticks with_packets with_chunks with_timestamps Clear]. lia.
    + unfold kHeaderLength. lia.
    + by rewrite Htime, E, andb_true_r.
  - pose proof E as E'. apply orb_false_iff in E as [E _].
    rewrite parse_statuses_wire by (by rewrite E in of_deltas).
    replace (deltas_index x <=? _) with true by (symmetry; apply Z.leb_le; lia). cbn [check mbind option_bind].
    eexists. split; [reflexivity|].
    unfold deltas_size in Hsz. rewrite E in Hsz, of_deltas.
    split; cbn [with_packets with_timestamps with_chunks Clear fb base_seq_no num_seq_no feedback_seq base_time_ticks
      last_timestamp_us received_packets all_packets encoded_chunks size_bytes include_timestamps include_lost]; try done.
    + rewrite of_time, (elapsed_zero sts) by done. unfold GetBaseTimeUs.
      cbn [base_time_ticks with_packets with_chunks with_timestamps Clear]. lia.
    + unfold kHeaderLength. lia.
    + by rewrite E', andb_false_r.
Qed.

(** Building and parsing. *)
Lemma FeedbackPacket_roundtrip x sts h0 this mem rest :
  feedback_of x sts -> sts <> [] -> length (LastChunk.delta_sizes (last_chunk this)) = 14%nat ->
  len mem = BlockLength x ->
  exists w h y, Build.Build x mem = Some w /\
    CommonHeader.Parse h0 (w ++ rest) (len (w ++ rest)) = Some (true, h) /\
    CommonHeader.NextPacket h = rest /\ Parse this h = Some (true, y) /\ reads_as this x sts y.
Proof.
  intros Hx Hne Hl Hm. destruct (sizes x sts Hx) as (H20 & Hbl & Hb & Hw). pose proof (padding_range x) as Hp.
  pose proof (len_payload x sts Hx) as Hlp. set (words := (BlockLength x - 4) / 4) in *.
  assert (Hw' : 0 <= words < 65536) by exact Hw.
  assert (Hbig : BlockLength x < 2 ^ 64) by (change (2 ^ 64) with 18446744073709551616; lia).
  set (pad := PaddingLength x) in *.
  destruct (Parse_payload this x sts (padding_wire pad ++ rest) pad Hx Hne Hl) as (y & Hy & Hr).
  exists (wire x), (CommonHeader.Header Rtpfb.kPacketType kFeedbackMessageType pad (size_bytes x - 4)
    (payload_wire x ++ padding_wire pad ++ rest)), y.
  split; [eapply BuildFacts.Build_behaves; [apply FeedbackPacket_behaves_valid; by exists sts|done|done]|].
  pose proof (FeedbackPacket_len_wire x sts Hx) as Hlw. pose proof (len_nonneg rest) as Hlr. split; [|split; [|done]].
  - assert (Hws : 4 + words * 4 <= len (wire x ++ rest)) by (rewrite len_app; lia).
    unfold wire in Hws |- *. fold words pad in Hws |- *. rewrite <- !app_assoc in Hws |- *.
    rewrite HeaderFacts.HeaderFacts_Parse_wire; [|by_compute|by_compute|exact Hw|exact Hws].
    destruct (Z.ltb_spec 0 pad) as [Hpos|Hz].
    + replace (words * 4 =? 0) with false by (symmetry; apply Z.eqb_neq; lia).
      assert (Hlast : byte_at (payload_wire x ++ padding_wire pad ++ rest) (words * 4 - 1) = Some pad).
      { rewrite byte_at_app_ge by lia. unfold padding_wire.
        replace (0 <? pad) with true by (symmetry; by apply Z.ltb_lt).
        rewrite <- app_assoc, byte_at_app_ge by (rewrite len_replicate; lia).
        rewrite len_replicate. replace (_ - _ - _) with 0 by lia. done. }
      rewrite Hlast. cbn [mbind option_bind].
      replace (pad =? 0) with false by (symmetry; apply Z.eqb_neq; lia).
      replace (words * 4 <? pad) with false by (symmetry; apply Z.ltb_ge; lia).
      rewrite wrap_small by (unfold in_u; change (2 ^ 32) with 4294967296; lia).
      do 3 f_equal. lia.
    + replace pad with 0 by lia. do 3 f_equal. lia.
  - unfold CommonHeader.NextPacket. cbn [CommonHeader.payload CommonHeader.payload_size CommonHeader.padding_size].
    rewrite ptr_add_app_ge, ptr_add_app_ge by (rewrite ?len_padding; lia).
    rewrite len_padding by lia. replace (_ - _ - _) with 0 by lia. done.
Qed.

(** ** Parsing anything *)

Definition size_ok (d : Z) : Prop := 0 <= d <= 3.

Lemma chunk_sizes_ok chunk : Forall size_ok (LastChunk.chunk_sizes chunk).
Proof.
  assert (Hmask : forall v k, 0 <= k <= 2 -> size_ok (Z.land v (2 ^ k - 1))).
  { intros v k Hk. rewrite land_ones_mod by lia. pose proof (Z.mod_pos_bound v (2 ^ k) ltac:(lia)).
    assert (2 ^ k <= 2 ^ 2) by (apply Z.pow_le_mono_r; lia). unfold size_ok. lia. }
  unfold LastChunk.chunk_sizes. destruct (_ =? 0).
  - apply Forall_replicate. by apply (Hmask _ 2).
  - destruct (_ =? 0); unfold LastChunk.decode_loop; apply Forall_fmap, Forall_forall; intros i _;
      [by apply (Hmask _ 1)|by apply (Hmask _ 2)].
Qed.

(** The loop over the chunks ends, at the end of the payload or with the delta sizes of all
    packets. *)
Lemma FeedbackPacket_parse_chunks_safe fuel payload count stop chunks last ds index :
  bytes_ok payload -> 0 <= index <= stop -> stop <= len payload -> stop - index < Z.of_nat fuel ->
  len ds <= count -> Forall size_ok ds -> length (LastChunk.delta_sizes last) = 14%nat ->
  exists r, parse_chunks fuel payload count stop chunks last ds index = Some r /\
    match r with
    | ChunksOverflow last' => length (LastChunk.delta_sizes last') = 14%nat
    | ChunksDone chunks' last' ds' index' =>
        length (LastChunk.delta_sizes last') = 14%nat /\ len ds' = count /\ Forall size_ok ds' /\
        index' <= stop /\ index' = index + 2 * (len chunks' - len chunks) /\
        len chunks <= len chunks' /\ (len ds < count -> len chunks < len chunks')
    end.
Proof.
  intros Hb. revert chunks last ds index.
  induction fuel as [|fuel IH]; intros chunks last ds index Hi Hs Hf Hd Hok Hl; [lia|].
  cbn [parse_chunks]. destruct (Z.ltb_spec (len ds) count) as [Hlt|Hge].
  2:{ eexists. split; [done|]. cbn. split; [done|]. split; [lia|]. split; [done|]. split; [lia|]. lia. }
  unfold kChunkSizeBytes. destruct (Z.ltb_spec stop (index + 2)); [by eexists|].
  destruct (ReadBigEndian_Some 16 2 (ptr_add payload index)) as (chunk & -> & Hc);
    [done|by apply bytes_ok_ptr_add|rewrite len_ptr_add; lia|]. cbn [mbind option_bind].
  destruct (LastChunk.Decode_AppendTo last chunk (count - len ds)) as (last1 & -> & Hl1 & Ha); [done|lia|done|].
  cbn [mbind option_bind]. rewrite Ha. cbn [mbind option_bind].
  set (new := take (Z.to_nat (count - len ds)) (LastChunk.chunk_sizes chunk)).
  assert (Hnew : len new <= count - len ds) by (unfold new, len in *; rewrite length_take; lia).
  destruct (IH (chunks ++ [chunk]) last1 (ds ++ new) (index + 2)) as (r & Hr & Hpost);
    [lia|done|lia|rewrite len_app; lia| |done|].
  { apply Forall_app. split; [done|]. apply Forall_take, chunk_sizes_ok. }
  exists r. split; [done|]. destruct r as [last'|chunks' last' ds' index']; [done|].
  destruct Hpost as (H1 & H2 & H3 & H4 & H5 & H6 & _). rewrite len_app in H5, H6.
  change (len [chunk]) with 1 in *. split; [done|]. split; [done|]. split; [done|]. split; [done|]. lia.
Qed.

Lemma sum_nonneg ds : Forall size_ok ds -> 0 <= sum ds.
Proof.
  induction 1 as [|d ds Hd _ IH]; [done|]. change (sum (d :: ds)) with (d + sum ds). unfold size_ok in Hd. lia.
Qed.

(** The loop over the receive deltas stays inside the payload; without an invalid delta size it
    reads one delta per received packet. *)
Lemma parse_deltas_safe ds lost payload stop index seq ts recv all :
  bytes_ok payload -> 0 <= index -> stop <= len payload -> Forall size_ok ds -> index + sum ds <= stop ->
  exists r, parse_deltas lost payload stop ds index seq ts recv all = Some r /\
    match r with
    | None => True
    | Some (index', ts', recv', all') =>
        exists sts, length sts = length ds /\ Forall (status_ok true) sts /\ index' = index + sum ds /\
          ts' = ts + kDeltaScaleFactor * elapsed sts /\ recv' = recv ++ packets_of seq sts /\
          all' = all ++ all_if lost seq sts
    end.
Proof.
  intros Hb Hi Hs Hok. revert index seq ts recv all Hi.
  induction Hok as [|d ds Hd Hok IH]; intros index seq ts recv all Hi Hsum.
  { eexists. split; [done|]. exists []. unfold all_if, sum, elapsed. cbn. rewrite app_nil_r.
    split; [done|]. split; [done|]. split; [lia|]. split; [lia|]. split; [done|]. destruct lost; by rewrite app_nil_r. }
  change (sum (d :: ds)) with (d + sum ds) in *.
  pose proof (sum_nonneg ds Hok) as Hp.
  unfold size_ok in Hd. cbn [parse_deltas].
  replace (stop <? index + d) with false by (symmetry; apply Z.ltb_ge; lia).
  destruct (Z.eqb_spec d 0) as [->|H0].
  { destruct (IH index (u16 (seq + 1)) ts recv (if lost then all ++ [Lost seq] else all)) as (r & -> & Hr); [lia|lia|].
    exists r. split; [done|]. destruct r as [[[[index' ts'] recv'] all']|]; [|done].
    destruct Hr as (sts & Hn & Hst & -> & -> & -> & ->). exists (None :: sts). cbn [length packets_of].
    split; [lia|]. split; [by constructor|]. split; [lia|]. split; [done|]. split; [done|].
    unfold all_if. destruct lost; [by rewrite <- app_assoc|done]. }
  destruct (Z.eqb_spec d 3); [by exists None|].
  assert (Hread : exists delta, (if d =? 1 then byte_at payload index
      else if d =? 2 then ReadBigEndianSigned 16 2 (ptr_add payload index) else None) = Some delta /\ in_s 16 delta).
  { assert (d = 1 \/ d = 2) as [->| ->] by lia; cbn [Z.eqb Pos.eqb].
    - destruct (byte_at_Some payload index Hb) as (v & -> & Hv); [lia|]. exists v. split; [done|].
      unfold byte_ok, in_s in *. zconst. lia.
    - destruct (ReadBigEndianSigned_Some 16 2 (ptr_add payload index)) as (v & -> & Hv);
        [lia|done|done|by apply bytes_ok_ptr_add|rewrite len_ptr_add; lia|]. by exists v. }
  destruct Hread as (delta & -> & Hdelta). cbn [mbind option_bind].
  destruct (IH (index + d) (u16 (seq + 1)) (ts + delta * kDeltaScaleFactor) (recv ++ [Received seq delta])
    (if lost then all ++ [Received seq delta] else all)) as (r & -> & Hr); [lia|lia|].
  exists r. split; [done|]. destruct r as [[[[index' ts'] recv'] all']|]; [|done].
  destruct Hr as (sts & Hn & Hst & -> & -> & -> & ->). exists (Some delta :: sts). cbn [length packets_of].
  change (elapsed (Some delta :: sts)) with (delta + elapsed sts).
  split; [lia|]. split; [by constructor|]. split; [lia|]. split; [lia|].
  split; [by rewrite <- app_assoc|]. unfold all_if. destruct lost; [by rewrite <- app_assoc|done].
Qed.

Lemma parse_statuses_safe ds lost seq recv all :
  exists sts, length sts = length ds /\ Forall (status_ok false) sts /\
    parse_statuses lost ds seq recv all = (recv ++ packets_of seq sts, all ++ all_if lost seq sts).
Proof.
  revert seq recv all. induction ds as [|d ds IH]; intros seq recv all.
  { exists []. unfold all_if. cbn. rewrite app_nil_r. split; [done|]. split; [done|]. destruct lost; by rewrite app_nil_r. }
  cbn [parse_statuses].
  destruct (IH (u16 (seq + 1)) (if 0 <? d then recv ++ [Received seq 0] else recv)
    (if lost then all ++ [if 0 <? d then Received seq 0 else Lost seq] else all)) as (sts & Hn & Hs & ->).
  exists ((if 0 <? d then Some 0 else None) :: sts). cbn [length]. split; [lia|]. split.
  - constructor; [|done]. destruct (0 <? d); [split; [by_compute|done]|done].
  - unfold all_if. destruct (0 <? d), lost; cbn [packets_of all_of]; by rewrite <- ?app_assoc.
Qed.

(** A [TransportFeedback] that [Parse] accepted: it reports a list of statuses. *)
Definition parsed_ok (h : CommonHeader.t) (x : t) : Prop :=
  exists sts, num_seq_no x = len sts /\ 0 < num_seq_no x <= kMaxReportedPackets /\
    Rtpfb.valid (fb x) /\ in_u 16 (base_seq_no x) /\ in_s 24 (base_time_ticks x) /\ byte_ok (feedback_seq x) /\
    Forall (status_ok true) sts /\
    received_packets x = packets_of (base_seq_no x) sts /\
    all_packets x = all_if (include_lost x) (base_seq_no x) sts /\
    last_timestamp_us x = GetBaseTimeUs x + kDeltaScaleFactor * elapsed sts /\
    22 + 2 * len (encoded_chunks x) <= size_bytes x <= 4 + CommonHeader.payload_size h.

(** What a [Parse] that fails leaves: the object itself or an empty one. *)
Definition unchanged_or_cleared (this x : t) : Prop := x = this \/ exists z, x = Clear z.

Lemma parse_header_safe this payload :
  bytes_ok payload -> 16 <= len payload ->
  exists y count, parse_header this payload = Some (Clear y, count) /\ in_u 16 count /\
    Rtpfb.valid (fb y) /\ in_u 16 (base_seq_no y) /\ in_s 24 (base_time_ticks y) /\ byte_ok (feedback_seq y) /\
    last_chunk y = last_chunk this /\ include_lost y = include_lost this /\
    include_timestamps y = include_timestamps this.
Proof.
  intros Hb Hl. unfold parse_header. destruct (Rtpfb.Rtpfb_Parse_safe payload Hb) as (f & -> & Hf); [lia|].
  cbn [mbind option_bind]. read_safe. eexists _, _. split; [reflexivity|]. done.
Qed.

Lemma FeedbackPacket_Parse_safe this h :
  header_ok h -> is_rtpfb kFeedbackMessageType h ->
  length (LastChunk.delta_sizes (last_chunk this)) = 14%nat ->
  exists r x, Parse this h = Some (r, x) /\ length (LastChunk.delta_sizes (last_chunk x)) = 14%nat /\
    if r : bool then parsed_ok h x else unchanged_or_cleared this x.
Proof.
  intros [Hcnt Hb Hsz Hw] Ht Hl. unfold Parse. fb_checks Ht. unfold CommonHeader.payload_size_bytes, kMinPayloadSizeBytes.
  set (stop := CommonHeader.payload_size h) in *. set (payload := CommonHeader.payload h) in *.
  destruct (Z.ltb_spec stop (8 + 8 + 2)); [eexists false, this; split; [done|]; split; [done|by left]|].
  destruct (parse_header_safe this payload Hb) as (y & count & -> & Hc & Hfb & Hbase & Htick & Hseq & Hlast & Hlost & Hit);
    [lia|]. cbn [mbind option_bind].
  destruct (Z.eqb_spec count 0) as [|Hnz].
  { eexists false, _. split; [done|]. split; [by rewrite <- Hlast in Hl|]. right. by eexists. }
  unfold in_u in Hc. change (2 ^ 16) with 65536 in Hc.
  destruct (FeedbackPacket_parse_chunks_safe (Z.to_nat stop) payload count stop [] (last_chunk (Clear y)) [] 16) as (r & -> & Hr);
    [done|lia|lia|lia|rewrite len_nil; lia|constructor|by rewrite <- Hlast in Hl|].
  cbn [mbind option_bind]. destruct r as [last'|chunks last' ds index].
  { eexists false, _. split; [done|]. split; [done|]. right. by eexists. }
  destruct Hr as (Hl' & Hn & Hok & Hstop & Hidx & _ & Hne). rewrite Hn, Z.eqb_refl. cbn [check mbind option_bind].
  rewrite len_nil in Hne, Hidx. specialize (Hne ltac:(lia)).
  assert (Hch : len (take (length chunks - 1) chunks) = len chunks - 1)
    by (unfold len in *; rewrite length_take; lia).
  set (this1 := with_chunks _ _ _ _ _).
  destruct (Z.leb_spec (index + sum ds) stop).
  - destruct (parse_deltas_safe ds (include_lost this1) payload stop index (base_seq_no this1) (last_timestamp_us this1) [] [])
      as (r & -> & Hr); [done|lia|lia|done|done|]. cbn [mbind option_bind].
    destruct r as [[[[index' ts'] recv'] all']|].
    2:{ eexists false, _. split; [done|]. split; [done|]. right. by eexists. }
    destruct Hr as (sts & Hlen & Hst & -> & -> & -> & ->).
    replace (index + sum ds <=? stop) with true by (symmetry; by apply Z.leb_le). cbn [check mbind option_bind].
    eexists true, _. split; [done|]. split; [done|]. exists sts. unfold this1.
    cbn [with_packets with_chunks Clear fb base_seq_no num_seq_no feedback_seq base_time_ticks GetBaseTimeUs
      last_timestamp_us received_packets all_packets encoded_chunks size_bytes include_timestamps include_lost app].
    pose proof (sum_nonneg ds Hok). unfold kMaxReportedPackets, kHeaderLength, len in *.
    split; [lia|]. split; [lia|]. split; [done|]. split; [done|]. split; [done|]. split; [done|].
    split; [done|]. split; [done|]. split; [done|]. split; [done|lia].
  - destruct (parse_statuses_safe ds (include_lost this1) (base_seq_no this1) [] []) as (sts & Hlen & Hst & ->).
    replace (index <=? stop) with true by (symmetry; by apply Z.leb_le). cbn [check mbind option_bind].
    eexists true, _. split; [done|]. split; [done|]. exists sts. unfold this1.
    cbn [with_packets with_chunks with_timestamps Clear fb base_seq_no num_seq_no feedback_seq base_time_ticks GetBaseTimeUs
      last_timestamp_us received_packets all_packets encoded_chunks size_bytes include_timestamps include_lost app].
    pose proof (sum_nonneg ds Hok). unfold kMaxReportedPackets, kHeaderLength, len in *.
    split; [lia|]. split; [lia|]. split; [done|]. split; [done|]. split; [done|]. split; [done|].
    split; [by eapply status_ok_weaken|]. split; [done|]. split; [done|].
    split; [rewrite (elapsed_zero sts Hst); unfold GetBaseTimeUs; cbn; lia|lia].
Qed.

End FeedbackPacket.
Import FeedbackPacket.

(** ** Properties *)

(** C2: Transport feedback on the wire.  A packet built by the public operations that reports at
    least one packet status is written in exactly [BlockLength] bytes, padding included; parsed back,
    also from the middle of a datagram and into any object, it gives every field, the received packets
    with their receive deltas, all packets with the lost ones, and the base time up to the wrap-around
    period of 2^24 ticks. *)
Theorem transport_feedback_roundtrip x h0 this mem rest :
  feedback_built x -> 0 < num_seq_no x ->
  length (LastChunk.delta_sizes (last_chunk this)) = 14%nat -> len mem = BlockLength x ->
  exists sts, feedback_of x sts /\
  exists w h y, Build.Build x mem = Some w /\
    CommonHeader.Parse h0 (w ++ rest) (len (w ++ rest)) = Some (true, h) /\
    CommonHeader.NextPacket h = rest /\ Parse this h = Some (true, y) /\ reads_as this x sts y.
Proof.
  intros Hx Hn Hl Hm. destruct (built_feedback_of x Hx) as [sts Hf]. exists sts. split; [done|].
  apply FeedbackPacket_roundtrip; try done. intros ->. destruct Hf as [_ _ _ _ [suf []] _ _ _].
  change (len (status_size <$> [])) with 0 in holds_num. lia.
Qed.

(** The object after a call of [AddReceivedPacket]. *)
Definition added (x : t) (seq ts : Z) : t :=
  match AddReceivedPacket x seq ts with Some (_, y) => y | None => x end.

Lemma built_added x seq ts : feedback_built x -> in_u 16 seq -> feedback_built (added x seq ts).
Proof.
  intros Hx Hs. unfold added. destruct (AddReceivedPacket x seq ts) as [[r y]|] eqn:E; [|done].
  by eapply built_add.
Qed.

(** Three packets, one of them lost, one 99 ms after the first. *)
Definition sample : t := added (added (SetSenderSsrc (init true true) 7) 0 1000) 2 100000.

Lemma transport_feedback_roundtrip_witness :
  exists sts, feedback_of sample sts /\
  exists w h y, Build.Build sample (replicate 28 0) = Some w /\
    CommonHeader.Parse CommonHeader.init (w ++ [1; 2]) (len (w ++ [1; 2])) = Some (true, h) /\
    CommonHeader.NextPacket h = [1; 2] /\ Parse (init true true) h = Some (true, y) /\
    reads_as (init true true) sample sts y.
Proof.
  apply transport_feedback_roundtrip; [|reflexivity|reflexivity|reflexivity].
  apply built_added; [apply built_added|]; [|by_compute..].
  apply built_sender; [apply built_init|by_compute].
Defined.

(** C3: [TransportFeedback::Parse] is safe on every payload: it terminates, never reads outside the
    payload and never fails a check.  What it accepts reports a list of one to 65535 statuses that
    starts at the base sequence number: the received packets and all packets are those of the list,
    the last timestamp is the base time plus the deltas, the size covers the chunks and lies inside
    the payload.  When it fails the object is the one before the call or an empty one. *)
Theorem transport_feedback_parse_safe this h :
  header_ok h -> is_rtpfb kFeedbackMessageType h ->
  length (LastChunk.delta_sizes (last_chunk this)) = 14%nat ->
  exists r x, Parse this h = Some (r, x) /\ length (LastChunk.delta_sizes (last_chunk x)) = 14%nat /\
    if r : bool then parsed_ok h x else unchanged_or_cleared this x.
Proof. apply FeedbackPacket_Parse_safe. Qed.

Lemma transport_feedback_parse_safe_witness :
  exists r x, Parse (init true false) (CommonHeader.Header 205 15 0 20
      [0;0;0;1; 0;0;0;2; 0;9; 0;3; 0;0;1; 4; 0x20;3; 5;6]) = Some (r, x) /\
    length (LastChunk.delta_sizes (last_chunk x)) = 14%nat /\
    if r : bool then parsed_ok (CommonHeader.Header 205 15 0 20
      [0;0;0;1; 0;0;0;2; 0;9; 0;3; 0;0;1; 4; 0x20;3; 5;6]) x else unchanged_or_cleared (init true false) x.
Proof.
  apply transport_feedback_parse_safe; [|split; reflexivity|reflexivity].
  split; cbn; [lia|by_compute|unfold len; cbn; lia|lia].
Defined.
