(* ===== verification/RtcpCompound.v ===== *)
(** * Compound packets and datagrams

    [CompoundPacket] and the two [RtcpPacket::Build] of src/src/myrtc/rtp_rtcp/, against the contract
    [RtcpPacketLaws] that every packet class of the other files implements. *)

From S2P Require Import Prelude Buffer Rtcp Wire Reports SourceDesc Feedback Nack Bitrate ExtendedReports FeedbackChunk.
From S2P Require Import TransportFeedback FeedbackBuilder FeedbackWire.

(** The compound packet that [Append] of each packet builds. *)
Definition compound (l : list LawfulPacket) : CompoundPacket.t :=
  fold_left CompoundPacket.Append (lawful_any <$> l) (CompoundPacket.Compound []).

Lemma compound_appended l : compound l = CompoundPacket.Compound (lawful_any <$> l).
Proof.
  unfold compound. enough (Hg : forall a b, fold_left CompoundPacket.Append a (CompoundPacket.Compound b) =
    CompoundPacket.Compound (b ++ a)) by by rewrite Hg.
  induction a as [|p a IH]; intros b; cbn [fold_left]; [by rewrite app_nil_r|].
  unfold CompoundPacket.Append at 2. cbn [CompoundPacket.appended_packets]. by rewrite IH, <- app_assoc.
Qed.

(** A lawful object as a packet of any class. *)
Definition lawful `{RtcpPacketLaws T} (x : T) (Hx : valid x) : LawfulPacket := Lawful (Any x) _ Hx.

(** [RtcpPacket::Build] of a compound packet gives exactly the bytes of the appended packets, in
    order: it allocates [BlockLength] bytes, the sum of the block lengths, and fills all of them. *)
Lemma compound_build_exact l mem :
  len mem = CompoundPacket.BlockLength (compound l) -> CompoundPacket.BlockLength (compound l) < 2 ^ 64 ->
  Build.Build (compound l) mem = Some (mjoin (lawful_wire <$> l)) /\
  CompoundPacket.BlockLength (compound l) = foldr (fun p n => BlockLength (any_val (lawful_any p)) + n) 0 l.
Proof.
  rewrite compound_appended. intros Hm Hb. split.
  - destruct l as [|p l]; [destruct mem as [|b mem]; [done|pose proof (len_nonneg mem); rewrite len_cons in Hm; cbn in Hm; lia]|].
    eapply BuildFacts.Build_behaves; [by apply CompoundFacts.compound_behaves|done|done].
  - clear. induction l as [|p l IH]; [done|]. rewrite fmap_cons, CompoundFacts.BlockLength_cons, IH. done.
Qed.

(** A picture loss indication and a feedback with three statuses. *)
Lemma sample_pli_valid : valid (Pli.MkPli (Psfb.MkPsfb 1 2)).
Proof. split; by_compute. Qed.

Lemma sample_feedback_valid : valid FeedbackWire.sample.
Proof.
  assert (Hb : feedback_built FeedbackWire.sample).
  { apply built_added; [apply built_added|]; [|by_compute..]. apply built_sender; [apply built_init|by_compute]. }
  destruct (built_feedback_of _ Hb) as [sts Hs]. exists sts. split; [done|]. intros ->.
  destruct Hs as [_ _ _ _ _ Hp _ _]. vm_compute in Hp. discriminate.
Qed.

Definition samples : list LawfulPacket := [lawful _ sample_pli_valid; lawful _ sample_feedback_valid].

(** C24: [RtcpPacket::Build] into datagrams, of a compound packet with any appended packets that satisfy the invariant of
    their class, for every [max_length] up to [IP_PACKET_SIZE].  It returns, and every datagram it delivers is non-empty and
    at most [max_length] long.  It succeeds exactly if something was appended and [max_length] is enough for each packet
    alone: its [BlockLength], or 16 bytes for a NACK, which can be split.  Then the datagrams, concatenated, are encodings
    of the appended packets in order.  A compound packet that fits is delivered whole, as one datagram. *)
Theorem compound_build_datagrams l max mem :
  0 <= max <= RtcpPacket.IP_PACKET_SIZE -> len mem = RtcpPacket.IP_PACKET_SIZE ->
  exists r ds, Build.BuildTo (compound l) max mem = Some (r, ds) /\
    Forall (fun d => 0 < len d <= max) ds /\
    (r = true <-> l <> [] /\ Forall (fun p => lawful_least p <= max) l) /\
    (r = true -> exists ws, mjoin ds = mjoin ws /\ Forall2 lawful_emits l ws) /\
    (l <> [] -> CompoundPacket.BlockLength (compound l) <= max -> ds = [mjoin (lawful_wire <$> l)]).
Proof.
  intros Hmax Hm. rewrite compound_appended. destruct (decide (l = [])) as [->|Hne].
  { exists false, []. unfold Build.BuildTo. rewrite (proj2 (Z.leb_le _ _)) by lia. split; [done|]. split; [done|]. split; [by split; [|intros []]|]. by split. }
  destruct (BuildFacts.BuildTo_behaves _ _ _ _ max mem (CompoundFacts.compound_behaves l Hne) Hmax Hm) as (r & ds & E & Hds & Hr & He & Hw).
  exists r, ds. rewrite <- CompoundFacts.least_all_spec by lia. split; [done|]. split; [done|]. split; [rewrite Hr; tauto|]. by split; [|intros _].
Qed.

(** Of 40 bytes in datagrams of 30: it succeeds and splits. *)
Lemma compound_build_datagrams_witness :
  exists ds ws, Build.BuildTo (compound samples) 30 (replicate 1500 0) = Some (true, ds) /\
    Forall (fun d => 0 < len d <= 30) ds /\ mjoin ds = mjoin ws /\ Forall2 lawful_emits samples ws /\ length ds = 2%nat.
Proof.
  destruct (compound_build_datagrams samples 30 (replicate 1500 0)) as (r & ds & E & Hds & Hr & He & _); [split; discriminate|reflexivity|].
  assert (Hok : r = true) by (apply Hr; split; [discriminate|repeat (constructor; [vm_compute; discriminate|]); constructor]).
  destruct (He Hok) as (ws & Ej & Hws). subst r. exists ds, ws. split; [exact E|]. split; [exact Hds|]. split; [exact Ej|]. split; [exact Hws|].
  vm_compute in E. injection E as <-. reflexivity.
Defined.

(** Split into two datagrams: the compound packet has 40 bytes. *)
Example sample_datagrams :
  Build.BuildTo (compound samples) 30 (replicate 1500 0) =
  Some (true, [lawful_wire (lawful _ sample_pli_valid); lawful_wire (lawful _ sample_feedback_valid)]).
Proof. vm_compute. reflexivity. Qed.

(** C26: the parsers of all RTCP packet classes but transport feedback return on every payload, read only
    inside it and fail no check (their loops stop, lengths inside the packet are tested before they
    are used); what they accept satisfies the invariant of the class, and a refused packet leaves
    the object unchanged, apart from TMMBR, TMMBN, REMB and extended reports, which may have
    overwritten fields before they find an error. *)
Theorem rtcp_parse_safe :
  (safe_parser (fun h => CommonHeader.type h = 200) SenderReport.Parse SenderReport.valid eq /\
   safe_parser (fun h => CommonHeader.type h = 201) ReceiverReport.Parse ReceiverReport.valid eq) /\
  (safe_parser (fun h => CommonHeader.type h = 203) Bye.Parse Bye.valid eq /\
   safe_parser (fun h => CommonHeader.type h = 204) App.Parse App.valid eq /\
   safe_parser (fun h => CommonHeader.type h = 202) Sdes.Parse Sdes.valid eq) /\
  safe_parser (fun h => CommonHeader.type h = 207) ExtendedReports.Parse ExtendedReports.valid
    (fun _ _ => True) /\
  safe_parser (is_rtpfb 1) Nack.Parse Nack.valid eq /\
  (safe_parser (is_psfb 1) Pli.Parse Pli.valid eq /\
   safe_parser (is_rtpfb 5) RapidResyncRequest.Parse RapidResyncRequest.valid eq /\
   safe_parser (is_psfb 4) Fir.Parse Fir.parsed eq /\
   safe_parser (is_rtpfb 3) Tmmbr.Parse Tmmbr.parsed (fun _ _ => True) /\
   safe_parser (is_rtpfb 4) Tmmbn.Parse Tmmbn.parsed (fun _ _ => True) /\
   safe_parser (is_psfb 15) Remb.Parse Remb.parsed (fun _ _ => True) /\
   safe_parser (is_psfb 15) LossNotification.Parse LossNotification.valid eq).
Proof.
  split; [exact reports_parse_safe|]. split; [exact source_desc_parse_safe|].
  split; [exact extended_reports_parse_safe|]. split; [exact nack_parse_safe|exact feedback_parse_safe].
Qed.
