(* ===== verification/TimeUtil.v ===== *)
(** * Conversions of times

    Model of rtp_rtcp/time_util.h/.cc and rtc_base/divide_round.h.  The offset between the local clock
    and NTP time is computed once from the system clocks ([NtpOffsetMsCalledOnce]); where it is used it
    is an argument. *)

From S2P Require Import Prelude Reports.

Definition kNumMicrosecsPerSec : Z := 1000000.

(** On a dividend and a divisor that are checked to be non-negative and positive. *)
Definition DivideRoundToNearest (dividend divisor : Z) : option Z :=
  check (0 <=? dividend) ;; check (0 <? divisor) ;;
  let half_of_divisor := Z.quot (divisor - 1) 2 in
  let quotient := Z.quot dividend divisor in
  let remainder := Z.rem dividend divisor in
  Some (quotient + (if half_of_divisor <? remainder then 1 else 0)).

Definition TimeMicrosToNtpFormat (time_us : Z) : option NtpTime.t :=
  check (0 <=? time_us) ;;
  let ntp_seconds := u32 (u64 (Z.quot time_us kNumMicrosecsPerSec)) in
  let kNtpInSecond := Z.shiftl 1 32 in
  let us_fractions := Z.rem time_us kNumMicrosecsPerSec in
  let ntp_fractions := u32 (Z.quot (us_fractions * kNtpInSecond) kNumMicrosecsPerSec) in
  Some (NtpTime.Ntp (u64 (ntp_seconds * NtpTime.kFractionsPerSecond + ntp_fractions))).

(** The offset between the local clock and NTP time, from one reading of the two clocks. *)
Definition NtpOffsetMsCalledOnce (clock_time utc_time : Z) : Z :=
  let kNtpJan1970Sec := 2208988800 in
  utc_time - clock_time + kNtpJan1970Sec * 1000.

(** [ntp_offset_ms] is that offset. *)
Definition TimeMicrosToNtp (ntp_offset_ms time_us : Z) : option NtpTime.t :=
  TimeMicrosToNtpFormat (time_us + ntp_offset_ms * 1000).

Definition CompactNtp (ntp : NtpTime.t) : Z :=
  Z.lor (u32 (Z.shiftl (NtpTime.seconds ntp) 16)) (Z.shiftr (NtpTime.fractions ntp) 16).

Definition SaturatedUsToCompactNtp (us : Z) : option Z :=
  let kMaxCompactNtp := 0xFFFFFFFF in
  let kCompactNtpInSecond := 0x10000 in
  if us <=? 0 then Some 0 else
  if kMaxCompactNtp * kNumMicrosecsPerSec / kCompactNtpInSecond <=? us then Some kMaxCompactNtp else
  r ← DivideRoundToNearest (us * kCompactNtpInSecond) kNumMicrosecsPerSec; Some (u32 r).

Definition CompactNtpRttToMs (compact_ntp_interval : Z) : option Z :=
  if 0x80000000 <? compact_ntp_interval then Some 1 else
  ms ← DivideRoundToNearest (compact_ntp_interval * 1000) (Z.shiftl 1 16);
  Some (Z.max ms 1).

(** ** Bounds *)

Lemma DivideRoundToNearest_bound x d : 0 <= x -> 0 < d ->
  exists q, DivideRoundToNearest x d = Some q /\ Z.abs (2 * x - 2 * d * q) <= d.
Proof.
  intros Hx Hd. unfold DivideRoundToNearest.
  rewrite (proj2 (Z.leb_le 0 x)), (proj2 (Z.ltb_lt 0 d)) by lia. cbn [check mbind option_bind].
  rewrite !Z.quot_div_nonneg, Z.rem_mod_nonneg by lia. eexists. split; [done|].
  pose proof (Z.div_mod x d ltac:(lia)) as E. pose proof (Z.mod_pos_bound x d Hd).
  pose proof (Z.div_mod (d - 1) 2 ltac:(lia)) as E2. pose proof (Z.mod_pos_bound (d - 1) 2 ltac:(lia)).
  destruct (Z.ltb_spec ((d - 1) / 2) (x mod d)); nia.
Qed.

Lemma rtt_total v : 0 <= v -> exists ms, CompactNtpRttToMs v = Some ms /\ 1 <= ms.
Proof.
  intros Hv. unfold CompactNtpRttToMs. destruct (_ <? _); [exists 1; split; [done|lia]|].
  destruct (DivideRoundToNearest_bound (v * 1000) (Z.shiftl 1 16)) as (q & -> & _); [lia|done|].
  eexists. split; [done|]. lia.
Qed.

Lemma ntp_total offset us : 0 <= us + offset * 1000 ->
  exists n, TimeMicrosToNtp offset us = Some n /\ in_u 64 (NtpTime.value n).
Proof.
  intros H. unfold TimeMicrosToNtp, TimeMicrosToNtpFormat. rewrite (proj2 (Z.leb_le _ _) H).
  eexists. split; [done|]. apply wrap_range. lia.
Qed.

(** ** The compact time *)

(** Ticks of 1/65536 of a second. *)
Definition ticks (time_us : Z) : Z := time_us * 65536 / kNumMicrosecsPerSec.

(** The compact form of an NTP time with the given seconds and fractions. *)
Lemma CompactNtp_parts sec frac : in_u 32 sec -> in_u 32 frac ->
  CompactNtp (NtpTime.Ntp (u64 (sec * NtpTime.kFractionsPerSecond + frac))) = u32 (sec * 65536) + frac / 65536.
Proof.
  intros Hs Hf. unfold in_u in *. change (2 ^ 32) with 4294967296 in *.
  unfold CompactNtp, NtpTime.seconds, NtpTime.fractions, NtpTime.kFractionsPerSecond. cbn [NtpTime.value].
  rewrite (wrap_small 64) by (unfold in_u; change (2 ^ 64) with (4294967296 * 4294967296); lia).
  rewrite Z.div_add_l, (Z.div_small frac), Z.add_0_r by lia.
  rewrite (Z.add_comm _ frac), Z_mod_plus_full, (Z.mod_small frac) by lia.
  rewrite Z.shiftl_mul_pow2, Z.shiftr_div_pow2 by lia. change (2 ^ 16) with 65536. apply (lor_add_low _ _ 16); [lia| |].
  - unfold wrap. change (2 ^ 32) with (65536 * 65536). change (2 ^ 16) with 65536.
    rewrite Z.mul_comm, Z.mul_mod_distr_l by lia. rewrite Z.mul_comm. apply Z_mod_mult.
  - change (2 ^ 16) with 65536. split; [apply Z.div_pos; lia|apply Z.div_lt_upper_bound; lia].
Qed.

(** The compact NTP time of a local time is its number of ticks, modulo 2^32. *)
Lemma compact_ntp_ticks offset us n : 0 <= us + offset * 1000 ->
  TimeMicrosToNtp offset us = Some n -> CompactNtp n = u32 (ticks (us + offset * 1000)).
Proof.
  intros H. unfold TimeMicrosToNtp, TimeMicrosToNtpFormat. rewrite (proj2 (Z.leb_le _ _) H). cbn [check mbind option_bind].
  set (T := us + offset * 1000) in *. intros [= <-]. unfold kNumMicrosecsPerSec. change (Z.shiftl 1 32) with 4294967296.
  rewrite Z.quot_div_nonneg, Z.rem_mod_nonneg by lia. pose proof (Z.mod_pos_bound T 1000000 ltac:(lia)) as Hf.
  set (f := T mod 1000000) in *. rewrite Z.quot_div_nonneg by lia.
  assert (Hfr : 0 <= f * 4294967296 / 1000000 < 4294967296) by (split; [apply Z.div_pos; lia|apply Z.div_lt_upper_bound; lia]).
  rewrite CompactNtp_parts by (apply wrap_range; lia). rewrite (wrap_small 32 (_ / _)) by exact Hfr.
  rewrite Z.div_div by lia. replace (f * 4294967296) with (f * 65536 * 65536) by lia. rewrite Z.div_mul_cancel_r by lia.
  assert (Ht : ticks T = (T / 1000000) * 65536 + f * 65536 / 1000000).
  { unfold ticks, kNumMicrosecsPerSec, f. rewrite (Z.div_mod T 1000000) at 1 by lia.
    replace ((1000000 * (T / 1000000) + T mod 1000000) * 65536) with (T / 1000000 * 65536 * 1000000 + T mod 1000000 * 65536) by lia.
    by rewrite Z.div_add_l by lia. }
  rewrite Ht. set (s := T / 1000000). assert (Hg : 0 <= f * 65536 / 1000000 < 65536) by (split; [apply Z.div_pos; lia|apply Z.div_lt_upper_bound; lia]).
  set (g := f * 65536 / 1000000) in *. assert (Hmod : forall a, u32 (a * 65536) = (a mod 65536) * 65536).
  { intros a. unfold wrap. change (2 ^ 32) with (65536 * 65536). by rewrite Z.mul_mod_distr_r by lia. }
  assert (Hu : (u32 (u64 s)) mod 65536 = s mod 65536).
  { unfold wrap. rewrite !Z.mod_mod_divide; [done|by exists (2 ^ 48)|by exists (2 ^ 16)]. }
  rewrite Hmod, Hu, <- Hmod. unfold wrap. rewrite <- (Zplus_mod_idemp_l (s * 65536)). fold (u32 (s * 65536)). rewrite Hmod.
  symmetry. apply Z.mod_small. pose proof (Z.mod_pos_bound s 65536 ltac:(lia)). change (2 ^ 32) with (65536 * 65536). lia.
Qed.

(** ** Round trip times

    A round trip time of [e] / 65536 microseconds, reported as [r] milliseconds: at least 1, and within
    half a millisecond and one tick unless the time is shorter than that. *)
Definition accurate (e r : Z) : Prop :=
  1 <= r /\ (Z.abs (65536000 * r - e) <= 32768000 + 1000000 \/ (r = 1 /\ e < 32768000 + 1000000)).

(** From the send time, the delay in ticks and the arrival time. *)
Lemma rtt_accurate sent delay received :
  let e := 65536 * (received - sent) - 1000000 * delay in
  - 2147483646 * 1000000 <= e <= 2147483646 * 1000000 ->
  exists r, CompactNtpRttToMs (u32 (u32 (ticks received) - delay - u32 (ticks sent))) = Some r /\ accurate e r.
Proof.
  intros e He. set (X := ticks received - delay - ticks sent).
  replace (u32 (u32 (ticks received) - delay - u32 (ticks sent))) with (u32 X).
  2:{ unfold X, wrap. rewrite Zminus_mod_idemp_r, <- (Z.sub_add_distr (_ mod _)), Zminus_mod_idemp_l. f_equal. lia. }
  assert (HX : e - 1000000 < 1000000 * X < e + 1000000).
  { assert (Ht : forall t, t * 65536 - 1000000 < 1000000 * ticks t <= t * 65536).
    { intros t. unfold ticks, kNumMicrosecsPerSec. pose proof (Z.div_mod (t * 65536) 1000000 ltac:(lia)).
      pose proof (Z.mod_pos_bound (t * 65536) 1000000 ltac:(lia)). lia. }
    pose proof (Ht received). pose proof (Ht sent). unfold X, e. lia. }
  clearbody X. clearbody e. unfold CompactNtpRttToMs. destruct (Z.ltb_spec X 0) as [Hn|Hp].
  - replace (u32 X) with (X + 2 ^ 32) by (unfold wrap; symmetry; rewrite <- (Z_mod_plus_full X 1), Z.mul_1_l; apply Z.mod_small; lia).
    rewrite (proj2 (Z.ltb_lt _ _)) by lia. exists 1. split; [done|]. split; [lia|]. right. lia.
  - rewrite wrap_small by (unfold in_u; lia). rewrite (proj2 (Z.ltb_ge _ _)) by lia.
    destruct (DivideRoundToNearest_bound (X * 1000) (Z.shiftl 1 16)) as (q & -> & Hq); [lia|done|].
    change (Z.shiftl 1 16) with 65536 in Hq. exists (Z.max q 1). split; [done|]. unfold accurate. lia.
Qed.
