(* ===== verification/Float32.v ===== *)
(** * Single precision numbers

    The [float] arithmetic the source uses (conversion of integers, division, comparison), as the
    executable IEEE 754 specification of the standard library at 24 bits of precision, and the one
    fact the program relies on: a quotient of positive integers of its range is not rounded to zero. *)

From Stdlib Require Import SpecFloat.
From S2P Require Import Prelude.

(** The conversion of an integer, rounded to the nearest [float]. *)
Definition to_float (v : Z) : spec_float := binary_normalize 24 128 v 0 false.

Definition fdiv : spec_float -> spec_float -> spec_float := SFdiv 24 128.

(** [std::numeric_limits<float>::max()]. *)
Definition float_max : spec_float := SFmax_float 24 128.

Definition float_zero : spec_float := S754_zero false.

(** ** Digits *)

Lemma digits_log2 p : Zdigits2 (Zpos p) = Z.log2 (Zpos p) + 1.
Proof.
  enough (forall q, digits2_pos q = Pos.size q) as E.
  { cbn [Zdigits2]. rewrite E. destruct p; cbn [Z.log2 Pos.size]; lia. }
  induction q; cbn; congruence.
Qed.

Lemma digits_bounds v : 0 < v -> 2 ^ (Zdigits2 v - 1) <= v < 2 ^ Zdigits2 v /\ 1 <= Zdigits2 v.
Proof.
  intros Hv. destruct v as [|p|]; [lia| |lia]. rewrite digits_log2, Z.add_simpl_r.
  pose proof (Z.log2_spec (Zpos p) Hv). pose proof (Z.log2_nonneg (Zpos p)). rewrite <- Z.add_1_r in *. lia.
Qed.

Lemma digits_at_least v k : 0 <= k -> 2 ^ k <= v -> k + 1 <= Zdigits2 v.
Proof.
  intros Hk Hv. assert (0 < 2 ^ k) by (apply Z.pow_pos_nonneg; lia).
  destruct (digits_bounds v) as [[_ H1] H2]; [lia|].
  assert (k < Zdigits2 v); [|lia]. apply (Z.pow_lt_mono_r_iff 2); lia.
Qed.

(** ** Rounding *)

Lemma shr_m_shr_1 r : 0 <= shr_m r -> shr_m (shr_1 r) = shr_m r / 2.
Proof.
  destruct r as [m rb s]. cbn [shr_m]. intros Hm. destruct m as [|[p|p|]|]; cbn [shr_1 shr_m]; [done| | |done|lia].
  - rewrite Pos2Z.inj_xI, Z.mul_comm, Z.div_add_l by lia. change (1 / 2) with 0. lia.
  - rewrite Pos2Z.inj_xO, Z.mul_comm, Z.div_mul by lia. done.
Qed.

Lemma shr_m_iter p : forall r, 0 <= shr_m r -> shr_m (SpecFloat.iter_pos shr_1 p r) = shr_m r / 2 ^ Zpos p.
Proof.
  assert (Hd : forall a n, 0 <= a -> 0 <= a / 2 ^ Zpos n) by (intros; apply Z.div_pos; lia).
  induction p as [p IH|p IH|]; intros r Hr; cbn [SpecFloat.iter_pos].
  - assert (H1 : 0 <= shr_m (shr_1 r)) by (rewrite shr_m_shr_1 by done; by apply Z.div_pos).
    rewrite IH, IH by (done || rewrite IH by done; by apply Hd).
    rewrite shr_m_shr_1, !Z.div_div by lia. f_equal.
    replace (Zpos p~1) with (1 + (Zpos p + Zpos p)) by lia. rewrite !Z.pow_add_r by lia. lia.
  - rewrite IH, IH by (done || rewrite IH by done; by apply Hd).
    rewrite Z.div_div by lia. f_equal. replace (Zpos p~0) with (Zpos p + Zpos p) by lia. by rewrite Z.pow_add_r by lia.
  - by apply shr_m_shr_1.
Qed.

(** Shifting to the exponent of the format keeps a number that is not below the least one, and does
    not lower its magnitude. *)
Lemma shr_fexp_positive m e l :
  0 < m -> -148 <= Zdigits2 m + e ->
  exists r e', shr_fexp 24 128 m e l = (r, e') /\ 0 < shr_m r /\ Zdigits2 m + e <= Zdigits2 (shr_m r) + e'.
Proof.
  intros Hm He. unfold shr_fexp. set (n := fexp 24 128 (Zdigits2 m + e) - e).
  assert (Hn : n <= Zdigits2 m - 1) by (unfold n, fexp, emin; lia).
  assert (E : shr_m (shr_record_of_loc m l) = m) by (by destruct l as [|[| |]]).
  destruct (digits_bounds m Hm) as [[H1 H2] H3]. unfold shr.
  destruct n as [|p|p] eqn:En; [by exists (shr_record_of_loc m l), e; rewrite E| |by exists (shr_record_of_loc m l), e; rewrite E].
  eexists _, _. split; [done|]. rewrite shr_m_iter, E by lia.
  assert (Hq : 2 ^ (Zdigits2 m - 1 - Zpos p) <= m / 2 ^ Zpos p).
  { apply Z.div_le_lower_bound; [lia|]. rewrite <- Z.pow_add_r by lia.
    replace (Zpos p + (Zdigits2 m - 1 - Zpos p)) with (Zdigits2 m - 1) by lia. done. }
  split; [|apply digits_at_least in Hq; lia].
  apply (Z.lt_le_trans _ (2 ^ (Zdigits2 m - 1 - Zpos p))); [apply Z.pow_pos_nonneg; lia|done].
Qed.

Lemma round_nearest_even_le m l : m <= round_nearest_even m l.
Proof. unfold round_nearest_even. destruct l as [|[| |]]; try lia. destruct (Z.even m); lia. Qed.

Lemma digits_mono a b : 0 < a <= b -> Zdigits2 a <= Zdigits2 b.
Proof.
  intros H. destruct (digits_bounds a) as [[H1 _] H2]; [lia|].
  pose proof (digits_at_least b (Zdigits2 a - 1)). lia.
Qed.

(** A positive number: not zero, not a NaN; finite ones with at least the given magnitude. *)
Definition positive_from (k : Z) (x : spec_float) : Prop :=
  x = S754_infinity false \/ exists m e, x = S754_finite false m e /\ k <= Zdigits2 (Zpos m) + e.

Lemma binary_round_aux_positive m e l :
  0 < m -> -148 <= Zdigits2 m + e -> positive_from (Zdigits2 m + e) (binary_round_aux 24 128 false m e l).
Proof.
  intros Hm He. unfold binary_round_aux.
  destruct (shr_fexp_positive m e l Hm He) as (r & e1 & -> & Hr & H1).
  set (m2 := round_nearest_even _ _). pose proof (round_nearest_even_le (shr_m r) (loc_of_shr_record r)) as H2. fold m2 in H2.
  pose proof (digits_mono (shr_m r) m2 ltac:(lia)).
  destruct (shr_fexp_positive m2 e1 loc_Exact) as (r2 & e2 & -> & Hr2 & H3); [lia|lia|].
  destruct (shr_m r2) as [|p|]; [lia| |lia]. destruct (_ <=? _); [right|by left].
  exists p, e2. split; [done|]. lia.
Qed.

Lemma iter_xO p k : Zpos (Pos.iter xO p k) = Zpos p * 2 ^ Zpos k.
Proof.
  induction k as [|k IH] using Pos.peano_ind; [cbn; lia|].
  rewrite Pos.iter_succ, Pos2Z.inj_xO, IH, Pos2Z.inj_succ, Z.pow_succ_r by lia. lia.
Qed.

Lemma to_float_positive v : 0 < v -> positive_from 1 (to_float v).
Proof.
  intros Hv. unfold to_float, binary_normalize, binary_round. destruct v as [|p|]; [lia| |lia].
  change (Zpos (digits2_pos p)) with (Zdigits2 (Zpos p)).
  destruct (digits_bounds (Zpos p) Hv) as [_ Hd]. unfold shl_align.
  destruct (_ - 0) as [|k|k] eqn:E.
  1,2: apply (binary_round_aux_positive (Zpos p) 0 loc_Exact) in Hv; [|lia];
    destruct Hv as [->|(m & e & -> & Hm)]; [by left|right; exists m, e; split; [done|lia]].
  rewrite iter_xO. assert (Hk : Zdigits2 (Zpos p * 2 ^ Zpos k) = Zdigits2 (Zpos p) + Zpos k).
  { assert (Hp : 0 < Zpos p * 2 ^ Zpos k) by (apply Z.mul_pos_pos; lia).
    destruct (Zpos p * 2 ^ Zpos k) as [|q|] eqn:Eq; [lia| |lia].
    rewrite !digits_log2, <- Eq, Z.log2_mul_pow2 by lia. lia. }
  assert (Hf : fexp 24 128 (Zdigits2 (Zpos p) + 0) = - Zpos k) by (rewrite Z.sub_0_r in E; exact E).
  rewrite Hf. destruct (binary_round_aux_positive (Zpos p * 2 ^ Zpos k) (- Zpos k) loc_Exact) as [->|(m & e & -> & Hm)].
  - apply Z.mul_pos_pos; lia.
  - rewrite Hk. lia.
  - by left.
  - right. exists m, e. split; [done|]. lia.
Qed.

(** ** Division *)

(** Integers of 9 bits are represented exactly. *)
Lemma to_float_small v : 0 < v < 512 ->
  exists m e, to_float v = S754_finite false m e /\ Zdigits2 (Zpos m) + e <= 9.
Proof.
  intros Hv.
  assert (H : forallb (fun n => match to_float (Z.of_nat (S n)) with
                               | S754_finite false m e => Zdigits2 (Zpos m) + e <=? 9
                               | _ => false end) (seq 0 511) = true) by (vm_compute; reflexivity).
  rewrite forallb_forall in H. specialize (H (Z.to_nat (v - 1))).
  replace (Z.of_nat (S (Z.to_nat (v - 1)))) with v in H by lia.
  destruct (to_float v) as [| | |[|] m e]; try (by discriminate H; apply in_seq; lia).
  all: try (exfalso; enough (false = true) by done; apply H, in_seq; lia).
  exists m, e. split; [done|]. apply Z.leb_le, H, in_seq. lia.
Qed.

Lemma fdiv_positive a b : 0 < a -> 0 < b < 512 -> positive_from (-8) (fdiv (to_float a) (to_float b)).
Proof.
  intros Ha Hb. destruct (to_float_small b Hb) as (m2 & e2 & -> & H2).
  destruct (to_float_positive a Ha) as [->|(m1 & e1 & -> & H1)]; [by left|].
  unfold fdiv, SFdiv, SFdiv_core_binary. cbn [xorb].
  set (d1 := Zdigits2 (Zpos m1)) in *. set (d2 := Zdigits2 (Zpos m2)) in *.
  set (e' := Z.min _ _). assert (He : e' <= d1 + e1 - (d2 + e2) - 24 /\ e' <= e1 - e2)
    by (unfold e', fexp, emin; lia).
  destruct (digits_bounds (Zpos m1) ltac:(lia)) as [[L1 _] D1]. destruct (digits_bounds (Zpos m2) ltac:(lia)) as [[_ U2] D2].
  fold d1 in L1, D1. fold d2 in U2, D2.
  set (m' := match _ with Z0 => _ | Zpos _ => _ | Zneg _ => _ end).
  assert (Em : m' = Zpos m1 * 2 ^ (e1 - e2 - e')).
  { unfold m'. destruct (e1 - e2 - e') as [|s|s] eqn:Es; [lia|by rewrite Z.shiftl_mul_pow2|lia]. }
  rewrite Em. clearbody m'. subst m'. set (s := e1 - e2 - e'). 
  destruct (Z.div_eucl _ _) as [q r] eqn:Eq.
  assert (Hq : 2 ^ (d1 - 1 + s - d2) <= q).
  { replace q with (Zpos m1 * 2 ^ s / Zpos m2) by (unfold Z.div; by rewrite Eq).
    apply Z.div_le_lower_bound; [lia|].
    apply (Z.le_trans _ (2 ^ d2 * 2 ^ (d1 - 1 + s - d2))); [apply Z.mul_le_mono_nonneg_r; [apply Z.pow_nonneg; lia|lia]|].
    rewrite <- Z.pow_add_r by lia. replace (d2 + (d1 - 1 + s - d2)) with (d1 - 1 + s) by lia.
    rewrite Z.pow_add_r by lia. apply Z.mul_le_mono_nonneg_r; [apply Z.pow_nonneg; lia|done]. }
  assert (0 < q) by (apply (Z.lt_le_trans _ (2 ^ (d1 - 1 + s - d2))); [apply Z.pow_pos_nonneg; lia|done]).
  apply digits_at_least in Hq; [|lia].
  destruct (binary_round_aux_positive q e' (new_location (Zpos m2) r)) as [->|(m & e & -> & Hm)]; [done|lia|by left|].
  right. exists m, e. split; [done|]. lia.
Qed.

(** A quotient of positive integers is greater than zero. *)
Lemma fdiv_above_zero a b : 0 < a -> 0 < b < 512 -> SFleb (fdiv (to_float a) (to_float b)) float_zero = false.
Proof. intros Ha Hb. by destruct (fdiv_positive a b Ha Hb) as [->|(m & e & -> & _)]. Qed.
