(* ===== verification/TmmbrHelp.v ===== *)
(** * Bounding sets of temporary bandwidth limits

    Model of rtp_rtcp/tmmbr_help.cc: the selection of the limits that bound the bandwidth (RFC 5104,
    section 3.5.4.2).  The vector of candidates is a list; a candidate that is discarded has its
    bitrate set to zero, as in the source.  [absl::c_sort], which may put equal elements in any
    order, is a parameter. *)

From Stdlib Require Import SpecFloat.
From S2P Require Import Prelude Bitrate Float32.

Module TMMBRHelp.
Import TmmbItem.

Definition has_rate (x : TmmbItem.t) : bool := negb (bitrate_bps x =? 0).
Definition clear_rate (x : TmmbItem.t) : TmmbItem.t := set_bitrate_bps x 0.

(** Step 2, the inner loop: [current_min] is followed by [skipped] up to [next_it], which is the first
    of [candidates].  The group with the losers cleared, what follows it, how many were discarded. *)
Fixpoint lowest_of_group (current_min : TmmbItem.t) (skipped candidates : list TmmbItem.t)
    : list TmmbItem.t * list TmmbItem.t * nat :=
  match candidates with
  | next :: rest =>
      if packet_overhead next =? packet_overhead current_min then
        if bitrate_bps next <? bitrate_bps current_min then
          let '(group, rest', n) := lowest_of_group next [] rest in
          (clear_rate current_min :: skipped ++ group, rest', S n)
        else
          let '(group, rest', n) := lowest_of_group current_min (skipped ++ [clear_rate next]) rest in
          (group, rest', S n)
      else (current_min :: skipped, candidates, O)
  | [] => (current_min :: skipped, [], O)
  end.

Fixpoint lowest_per_overhead (fuel : nat) (candidates : list TmmbItem.t) : option (list TmmbItem.t * nat) :=
  match candidates, fuel with
  | [], _ => Some ([], O)
  | _, O => None
  | it :: rest, S fuel' =>
      check (has_rate it) ;;
      let '(group, rest', n) := lowest_of_group it [] rest in
      '(l, k) ← lowest_per_overhead fuel' rest';
      Some (group ++ l, (n + k)%nat)
  end.

(** Step 3: from the first candidate on, the last of those with the lowest bitrate. *)
Fixpoint lowest_from (i : nat) (candidates : list TmmbItem.t) (min : nat * TmmbItem.t) : nat * TmmbItem.t :=
  match candidates with
  | [] => min
  | x :: rest =>
      lowest_from (S i) rest
        (if has_rate x && (bitrate_bps x <=? bitrate_bps min.2) then (i, x) else min)
  end.

(** [None] is the end of the vector, which step 3 would dereference. *)
Definition lowest_rate (candidates : list TmmbItem.t) : option (nat * TmmbItem.t) :=
  '(i, x) ← list_find (fun x => has_rate x = true) candidates;
  Some (lowest_from i (drop i candidates) (i, x)).

(** Step 4. *)
Definition discard (front x : TmmbItem.t) : bool := has_rate x && (packet_overhead x <? packet_overhead front).

(** Step 5: the first candidate left and the candidates without it. *)
Fixpoint remove_first (cur : TmmbItem.t) (candidates : list TmmbItem.t) : TmmbItem.t * list TmmbItem.t :=
  match candidates with
  | [] => (cur, [])
  | x :: rest =>
      if has_rate x then (x, clear_rate x :: rest)
      else let '(cur', rest') := remove_first cur rest in (cur', x :: rest')
  end.

(** Step 6.  The difference of the bitrates is unsigned. *)
Definition packet_rate (cur back : TmmbItem.t) : spec_float :=
  fdiv (to_float (u64 (bitrate_bps cur - bitrate_bps back)))
       (to_float (packet_overhead cur - packet_overhead back)).

(** Where the line of a limit meets the axis. *)
Definition max_rate_of (x : TmmbItem.t) : spec_float :=
  fdiv (to_float (bitrate_bps x)) (to_float (packet_overhead x)).

(** Steps 5 to 9. *)
Fixpoint select (fuel : nat) (num_candidates : Z) (candidates bounding_set : list TmmbItem.t)
    (intersection max_packet_rate : list spec_float) (get_new_candidate : bool) (cur : TmmbItem.t)
    : option (list TmmbItem.t) :=
  if negb (0 <? num_candidates) then Some bounding_set else
  match fuel with
  | O => None
  | S fuel' =>
      let '(cur, candidates) :=
        if get_new_candidate then remove_first cur candidates else (cur, candidates) in
      back ← last bounding_set;
      check (negb (packet_overhead cur =? packet_overhead back)) ;;
      let rate := packet_rate cur back in
      let top := (length bounding_set - 1)%nat in
      last_intersection ← intersection !! top;
      if SFleb rate last_intersection then
        select fuel' num_candidates candidates (removelast bounding_set) intersection max_packet_rate false cur
      else
        last_max ← max_packet_rate !! top;
        if SFltb rate last_max then
          let bounding_set := bounding_set ++ [cur] in
          let top := (length bounding_set - 1)%nat in
          check (top <? length intersection)%nat ;;
          check (negb (packet_overhead cur =? 0)) ;;
          check (top <? length max_packet_rate)%nat ;;
          select fuel' (num_candidates - 1) candidates bounding_set (<[top := rate]> intersection)
            (<[top := max_rate_of cur]> max_packet_rate) true cur
        else select fuel' (num_candidates - 1) candidates bounding_set intersection max_packet_rate true cur
  end.

Definition FindBoundingSet (c_sort : list TmmbItem.t -> list TmmbItem.t) (candidates : list TmmbItem.t)
    : option (list TmmbItem.t) :=
  let candidates := List.filter has_rate candidates in
  if len candidates <=? 1 then Some candidates else
  let candidates := c_sort candidates in
  '(kept, dropped) ← lowest_per_overhead (length candidates) candidates;
  let num_candidates := len candidates - Z.of_nat dropped in
  '(i, front) ← lowest_rate kept;
  let zeros := replicate (Z.to_nat num_candidates) float_zero in
  check (0 <? num_candidates) ;;
  let max_packet_rate :=
    <[0%nat := if packet_overhead front =? 0 then float_max else max_rate_of front]> zeros in
  let candidates := <[i := clear_rate front]> kept in
  let num_candidates := num_candidates - 1 in
  let num_candidates := num_candidates - len (List.filter (discard front) candidates) in
  let candidates := (fun x => if discard front x then clear_rate x else x) <$> candidates in
  b ← select (2 * length candidates + 1) num_candidates candidates [front] zeros max_packet_rate true TmmbItem.init;
  check (negb (bool_decide (b = []))) ;; Some b.

Definition IsOwner (bounding : list TmmbItem.t) (ssrc : Z) : bool :=
  existsb (fun item => TmmbItem.ssrc item =? ssrc) bounding.

Definition CalcMinBitrateBps (candidates : list TmmbItem.t) : option Z :=
  check (negb (bool_decide (candidates = []))) ;;
  Some (fold_left (fun min item => if bitrate_bps item <? min then bitrate_bps item else min)
          candidates (2 ^ 64 - 1)).

End TMMBRHelp.
