(* ===== verification/TmmbrBounding.v ===== *)
(** * What the bounding set guarantees

    [FindBoundingSet] returns on every list of valid limits and fails none of its checks: its loop
    stops, the set is never empty when its last element is read and the vectors of intersections and
    packet rates are indexed inside.  The set is made of the candidates, by increasing overhead, and
    starts with the lowest limit. *)

From Stdlib Require Import SpecFloat.
From stdpp Require Import sorting.
From S2P Require Import Prelude OrderedSet Bitrate Float32 TmmbrHelp.

Import TMMBRHelp.
Import TmmbItem (t, bitrate_bps, packet_overhead, valid, valid_bitrate, valid_overhead).

(** The candidates that are not discarded. *)
Abbreviation live := (List.filter has_rate).

Definition rising : list t -> Prop := StronglySorted (fun a b => packet_overhead a < packet_overhead b).
Definition by_overhead : list t -> Prop := StronglySorted (fun a b => packet_overhead a <= packet_overhead b).

Lemma live_app a b : live (a ++ b) = live a ++ live b.
Proof. apply List.filter_app. Qed.

Lemma live_clear x : has_rate (clear_rate x) = false.
Proof. done. Qed.

Lemma live_none l : Forall (fun x => has_rate x = false) l -> live l = [].
Proof. intros H. apply filter_none. by apply Forall_forall. Qed.

(** ** Step 2 *)

Lemma lowest_of_group_spec l : forall cur skipped g rest n,
  lowest_of_group cur skipped l = (g, rest, n) ->
  has_rate cur = true -> Forall (fun x => has_rate x = true) l -> Forall (fun x => has_rate x = false) skipped ->
  exists best taken, l = taken ++ rest /\ length taken = n /\ live g = [best] /\ best ∈ cur :: taken /\
    (forall x, x ∈ cur :: taken -> packet_overhead x = packet_overhead cur /\ bitrate_bps best <= bitrate_bps x) /\
    (forall y, head rest = Some y -> packet_overhead y <> packet_overhead cur).
Proof.
  induction l as [|next l IH]; intros cur skipped g rest n E Hc Hl Hs; cbn [lowest_of_group] in E.
  { injection E as <- <- <-. exists cur, []. cbn. rewrite Hc, live_none by done. repeat split; try done; [constructor|..].
    all: apply list_elem_of_singleton in H as ->; lia || done. }
  apply Forall_cons in Hl as [Hn Hl]. destruct (Z.eqb_spec (packet_overhead next) (packet_overhead cur)) as [Ho|Ho].
  2:{ injection E as <- <- <-. exists cur, []. cbn. rewrite Hc, live_none by done. repeat split; try done; [constructor|..].
      1,2: apply list_elem_of_singleton in H as ->; lia || done. by intros y [= <-]. }
  destruct (Z.ltb_spec (bitrate_bps next) (bitrate_bps cur)) as [Hr|Hr].
  - destruct (lowest_of_group next [] l) as [[g' rest'] n'] eqn:E'. injection E as <- <- <-.
    destruct (IH _ _ _ _ _ E' Hn Hl ltac:(constructor)) as (best & taken & -> & Hlen & Hg & Hin & Hb & Hh).
    exists best, (next :: taken). cbn [List.filter app length]. rewrite live_clear, live_app, live_none, Hg, Hlen by done.
    split; [done|]. split; [done|]. split; [done|]. split; [by constructor|]. split; [|by rewrite Ho in Hh].
    intros x [->|Hx]%elem_of_cons; [|rewrite <- Ho; by apply Hb].
    split; [done|]. specialize (Hb next ltac:(constructor)). lia.
  - destruct (lowest_of_group cur (skipped ++ _) l) as [[g' rest'] n'] eqn:E'. injection E as <- <- <-.
    destruct (IH _ _ _ _ _ E' Hc Hl) as (best & taken & -> & Hlen & Hg & Hin & Hb & Hh).
    { apply Forall_app. split; [done|]. by repeat constructor. }
    exists best, (next :: taken). cbn [app length]. rewrite Hlen. split; [done|]. split; [done|]. split; [done|].
    split; [apply elem_of_cons in Hin as [->|Hin]; [constructor|by do 2 constructor]|]. split; [|done].
    intros x [->|[->|Hx]%elem_of_cons]%elem_of_cons; [apply Hb; constructor| |apply Hb; by constructor].
    split; [done|]. specialize (Hb cur ltac:(constructor)). lia.
Qed.

Lemma lowest_per_overhead_spec fuel : forall l,
  (length l <= fuel)%nat -> Forall (fun x => has_rate x = true) l -> by_overhead l ->
  exists l' k, lowest_per_overhead fuel l = Some (l', k) /\ rising (live l') /\ (forall x, x ∈ live l' -> x ∈ l) /\
    (forall x, x ∈ l -> exists y, y ∈ live l' /\ packet_overhead y = packet_overhead x /\ bitrate_bps y <= bitrate_bps x) /\
    (length (live l') + k = length l)%nat.
Proof.
  induction fuel as [|fuel IH]; intros [|it rest] Hf Hr Hs; cbn [length] in Hf; try lia.
  1,2: exists [], 0%nat; split; [done|]; split; [constructor|]; split; [by intros x Hx|]; split; [by intros x Hx%elem_of_nil|done].
  apply Forall_cons in Hr as [Hi Hr]. apply StronglySorted_cons in Hs as [Hle Hs].
  cbn [lowest_per_overhead]. rewrite Hi. cbn [check mbind option_bind].
  destruct (lowest_of_group it [] rest) as [[g rest'] n] eqn:E.
  destruct (lowest_of_group_spec _ _ _ _ _ _ E Hi Hr ltac:(constructor)) as (best & taken & -> & <- & Hg & Hin & Hb & Hh).
  apply Forall_app in Hr as [_ Hr]. apply StronglySorted_app in Hs as (_ & _ & Hs). rewrite length_app in Hf.
  destruct (IH rest' ltac:(lia) Hr Hs) as (l' & k & -> & H1 & H2 & H3 & H4). cbn [mbind option_bind].
  eexists _, _. split; [done|]. rewrite live_app, Hg. cbn [app length].
  assert (Hgt : forall x, x ∈ rest' -> packet_overhead it < packet_overhead x).
  { intros x Hx. rewrite Forall_app in Hle. destruct Hle as [_ Hle]. destruct rest' as [|y rest']; [by apply elem_of_nil in Hx|].
    specialize (Hh y eq_refl). apply Forall_cons in Hle as [Hy _]. apply StronglySorted_cons in Hs as [Hs _].
    rewrite Forall_forall in Hs. apply elem_of_cons in Hx as [->|Hx]; [lia|]. specialize (Hs x Hx). lia. }
  destruct (Hb best Hin) as [Hbo _]. split; [|split; [|split]].
  - apply StronglySorted_cons. split; [|done]. apply Forall_forall. intros x Hx. specialize (Hgt x (H2 x Hx)). lia.
  - intros x [->|Hx]%elem_of_cons; [|apply elem_of_cons; right; apply elem_of_app; right; by apply H2].
    apply elem_of_cons in Hin as [->|Hin]; [constructor|]. apply elem_of_cons. right. apply elem_of_app. by left.
  - intros x Hx. rewrite app_comm_cons in Hx. apply elem_of_app in Hx as [Hx|Hx].
    + exists best. split; [constructor|]. destruct (Hb x Hx). split; lia.
    + destruct (H3 x Hx) as (y & Hy & Hyo). exists y. split; [by constructor|done].
  - rewrite length_app. lia.
Qed.

(** ** Step 3 *)

(** The candidate found so far, among those before position [i]: lowest, and lower than all behind it. *)
Definition lowest_before (all : list t) (i : nat) (min : nat * t) : Prop :=
  all !! min.1 = Some min.2 /\ has_rate min.2 = true /\
  forall k x, (k < i)%nat -> all !! k = Some x -> has_rate x = true ->
    bitrate_bps min.2 <= bitrate_bps x /\ ((min.1 < k)%nat -> bitrate_bps min.2 < bitrate_bps x).

Lemma lowest_from_spec rest : forall pre min, lowest_before (pre ++ rest) (length pre) min ->
  lowest_before (pre ++ rest) (length (pre ++ rest)) (lowest_from (length pre) rest min).
Proof.
  induction rest as [|x rest IH]; intros pre min H; cbn [lowest_from]; [by rewrite app_nil_r in *|].
  rewrite (cons_middle x pre rest), (app_assoc pre [x] rest) in *. replace (S (length pre)) with (length (pre ++ [x]))
    by (rewrite length_app; cbn; lia). apply IH.
  assert (Hx : ((pre ++ [x]) ++ rest) !! length pre = Some x) by (rewrite <- app_assoc; by apply list_lookup_middle).
  destruct H as (H1 & H2 & H3). destruct (has_rate x) eqn:Ex; cbn [andb];
    [destruct (Z.leb_spec (bitrate_bps x) (bitrate_bps min.2)) as [Hle|Hgt]|].
  - split; [done|]. split; [done|]. cbn [fst snd]. intros k y Hk Hy Hry. rewrite length_app in Hk. cbn in Hk.
    destruct (decide (k = length pre)) as [->|Hne]; [rewrite Hx in Hy; injection Hy as <-; lia|].
    destruct (H3 k y) as [Ha _]; [lia|done|done|]. split; lia.
  - split; [done|]. split; [done|]. intros k y Hk Hy Hry. rewrite length_app in Hk. cbn in Hk.
    destruct (decide (k = length pre)) as [->|Hne]; [rewrite Hx in Hy; injection Hy as <-; lia|].
    apply H3; [lia|done|done].
  - split; [done|]. split; [done|]. intros k y Hk Hy Hry. rewrite length_app in Hk. cbn in Hk.
    destruct (decide (k = length pre)) as [->|Hne]; [rewrite Hx in Hy; congruence|].
    apply H3; [lia|done|done].
Qed.

Lemma lowest_rate_spec l : live l <> [] ->
  exists pre front post, lowest_rate l = Some (length pre, front) /\ l = pre ++ front :: post /\ has_rate front = true /\
    (forall x, x ∈ live pre -> bitrate_bps front <= bitrate_bps x) /\
    (forall x, x ∈ live post -> bitrate_bps front < bitrate_bps x).
Proof.
  intros Hl. unfold lowest_rate. destruct (list_find _ l) as [[i x]|] eqn:Ef.
  2:{ apply list_find_None in Ef. destruct Hl. apply live_none. eapply Forall_impl; [exact Ef|]. intros x. apply not_true_is_false. }
  apply list_find_Some in Ef as (Hi & Hx & Hb). cbn [mbind option_bind].
  pose proof (lookup_lt_Some _ _ _ Hi) as Hlt.
  assert (Hlen : length (take i l) = i) by (rewrite length_take; lia).
  pose proof (lowest_from_spec (drop i l) (take i l) (i, x)) as H. rewrite take_drop, Hlen in H.
  destruct H as (H1 & H2 & H3).
  { split; [done|]. split; [done|]. intros k y Hk Hy Hry. by destruct (Hb k y Hy Hk). }
  set (min := lowest_from _ _ _) in *. destruct min as [j front]. cbn [fst snd] in *.
  exists (take j l), front, (drop (S j) l). pose proof (lookup_lt_Some _ _ _ H1) as Hj. rewrite length_take.
  replace (j `min` length l)%nat with j by lia. split; [done|]. split; [symmetry; by apply take_drop_middle|].
  split; [done|]. split; intros y [Hy Hry]%elem_of_filter_bool; apply list_elem_of_lookup_1 in Hy as [k Hk].
  - apply lookup_take_Some in Hk as [Hk Hkj]. apply (H3 k y); [lia|done|done].
  - rewrite lookup_drop in Hk. apply (H3 (S j + k)%nat y); [by apply lookup_lt_Some in Hk|done|done|lia].
Qed.

(** ** Steps 5 to 9 *)

Lemma remove_first_spec cur l x rest :
  live l = x :: rest -> exists l', remove_first cur l = (x, l') /\ live l' = rest.
Proof.
  induction l as [|y l IH]; [done|]. cbn [List.filter remove_first]. destruct (has_rate y) eqn:E.
  - intros [= -> <-]. by eexists.
  - intros H. destruct (IH H) as (l' & -> & Hl'). eexists. split; [done|]. cbn. by rewrite E.
Qed.

(** The line of a limit that is steeper and higher than the lowest one meets it at a positive rate. *)
Lemma packet_rate_positive cur front :
  valid cur -> valid front -> packet_overhead front < packet_overhead cur -> bitrate_bps front < bitrate_bps cur ->
  SFleb (packet_rate cur front) float_zero = false.
Proof.
  intros [_ Hc Ho] [_ Hf Ho'] Hov Hr. unfold packet_rate. unfold in_u in *.
  rewrite wrap_small by (unfold in_u; lia). apply fdiv_above_zero; lia.
Qed.

(** The state of the loop: [bs] behind the lowest limit, the candidate being tried, those left. *)
Record selecting (front : t) (bs pending : list t) (cands : list t) (inter maxr : list spec_float) : Prop := {
  sel_front : valid front;
  sel_rising : rising ((front :: bs) ++ pending ++ live cands);
  sel_above : forall x, x ∈ pending ++ live cands -> valid x /\ bitrate_bps front < bitrate_bps x;
  sel_first : inter !! 0%nat = Some float_zero;
  sel_room : (S (length bs) + length (pending ++ live cands) <= length inter)%nat;
  sel_rates : length maxr = length inter
}.

(** Adding the candidate that is tried to the set, or dropping it. *)
Lemma selecting_push front bs cur cands inter maxr r m :
  selecting front bs [cur] cands inter maxr ->
  selecting front (bs ++ [cur]) [] cands (<[S (length bs) := r]> inter) (<[S (length bs) := m]> maxr).
Proof.
  intros [Hf Hr Ha H0 Hl Hm]. split; [done| | | | |].
  - rewrite app_comm_cons, <- app_assoc. exact Hr.
  - intros x Hx. apply Ha. by apply elem_of_cons; right.
  - by rewrite list_lookup_insert_ne.
  - rewrite length_insert, length_app in *. cbn in *. lia.
  - by rewrite !length_insert.
Qed.

Lemma selecting_drop front bs cur cands inter maxr :
  selecting front bs [cur] cands inter maxr -> selecting front bs [] cands inter maxr.
Proof.
  intros [Hf Hr Ha H0 Hl Hm]. split; [done| | |done| |done].
  - apply StronglySorted_app in Hr as (H1 & H2 & H3). apply StronglySorted_cons in H3 as [_ H3].
    apply StronglySorted_app. split; [|done]. intros x y Hx Hy. apply H1; [done|]. by constructor.
  - intros x Hx. apply Ha. by constructor.
  - cbn in *. lia.
Qed.

Lemma selecting_pop front bs y cur cands inter maxr :
  selecting front (bs ++ [y]) [cur] cands inter maxr -> selecting front bs [cur] cands inter maxr.
Proof.
  intros [Hf Hr Ha H0 Hl Hm]. split; [done| |done|done| |done].
  - rewrite app_comm_cons in Hr. apply StronglySorted_app in Hr as (H1 & H2 & H3). apply StronglySorted_app in H2 as (_ & H2 & _).
    apply StronglySorted_app. split; [|done]. intros a b Hx Hy. apply H1; [apply elem_of_app; by left|done].
  - rewrite length_app in Hl. cbn in *. lia.
Qed.

Lemma selecting_take front bs cands cands' x inter maxr :
  live cands = x :: live cands' -> selecting front bs [] cands inter maxr -> selecting front bs [x] cands' inter maxr.
Proof. intros E [Hf Hr Ha H0 Hl Hm]. rewrite E in *. by split. Qed.

(** The result: the lowest limit, then limits of the set and candidates, by increasing overhead. *)
Definition selected (front : t) (from : list t) (b : list t) : Prop :=
  exists rest, b = front :: rest /\ rising b /\ forall x, x ∈ rest -> x ∈ from.

Lemma selected_mono front from from' b :
  (forall x, x ∈ from -> x ∈ from') -> selected front from b -> selected front from' b.
Proof. intros H (rest & -> & Hr & Hx). exists rest. split; [done|]. split; [done|]. auto. Qed.

Lemma next_candidate front bs cands inter maxr (new : bool) cur :
  selecting front bs (if new then [] else [cur]) cands inter maxr -> (if new then [] else [cur]) ++ live cands <> [] ->
  exists c cands', (if new then remove_first cur cands else (cur, cands)) = (c, cands') /\
    selecting front bs [c] cands' inter maxr /\ (if new then [] else [cur]) ++ live cands = c :: live cands'.
Proof.
  intros Hs Hne. destruct new; [|by eexists _, _]. destruct (live cands) as [|x rest] eqn:E; [done|].
  destruct (remove_first_spec cur _ _ _ E) as (l' & Hr & Hl). exists x, l'. split; [done|]. rewrite Hl.
  split; [|done]. eapply selecting_take; [by rewrite E, Hl|done].
Qed.

(** The last limit of the set is flatter than the candidate. *)
Lemma selecting_back front bs cur cands inter maxr :
  selecting front bs [cur] cands inter maxr ->
  exists back, last (front :: bs) = Some back /\ packet_overhead back < packet_overhead cur /\ 0 < packet_overhead cur.
Proof.
  intros [Hf Hr Ha _ _ _]. destruct (last (front :: bs)) as [back|] eqn:E; [|apply last_None in E; discriminate].
  exists back. split; [done|]. assert (Hin : back ∈ front :: bs) by (apply last_Some in E as (l & ->); apply elem_of_app; right; constructor).
  apply StronglySorted_app in Hr as (H1 & _). assert (Hc : cur ∈ [cur] ++ live cands) by constructor.
  split; [by apply H1|]. pose proof (H1 front cur ltac:(constructor) Hc). destruct Hf as [_ _ Ho]. unfold in_u in Ho. lia.
Qed.

Lemma select_spec fuel : forall front bs cands inter maxr (new : bool) cur,
  selecting front bs (if new then [] else [cur]) cands inter maxr ->
  (2 * length ((if new then [] else [cur]) ++ live cands) + length bs <= fuel)%nat ->
  exists b, select fuel (len ((if new then [] else [cur]) ++ live cands)) cands (front :: bs) inter maxr new cur = Some b /\
    selected front (bs ++ (if new then [] else [cur]) ++ live cands) b.
Proof.
  induction fuel as [|fuel IH]; intros front bs cands inter maxr new cur Hs Hf.
  all: destruct ((if new then [] else [cur]) ++ live cands) as [|c0 l0] eqn:E.
  1,3: exists (front :: bs); split; [done|]; exists bs; split; [done|]; destruct Hs as [_ Hr _ _ _ _];
    rewrite E, app_nil_r in Hr; split; [done|]; intros x Hx; apply elem_of_app; by left.
  { cbn [length] in Hf. lia. }
  destruct (next_candidate _ _ _ _ _ _ _ Hs) as (c & cands' & Hn & Hs' & E'); [by rewrite E|].
  rewrite E in E'. injection E' as -> ->. cbn [select]. rewrite len_cons, (proj2 (Z.ltb_lt _ _)) by (pose proof (len_nonneg (live cands')); lia).
  cbn [negb]. rewrite Hn. destruct (selecting_back _ _ _ _ _ _ Hs') as (back & Hback & Hov & Hpos).
  rewrite Hback. cbn [mbind option_bind].
  rewrite (proj2 (Z.eqb_neq (packet_overhead c) (packet_overhead back))) by lia. cbn [negb check mbind option_bind].
  pose proof Hs' as [Hfr _ Ha H0 Hroom Hm]. cbn [length app] in Hroom, Hf. rewrite length_app. cbn [length app mbind option_bind].
  rewrite Nat.sub_succ, Nat.sub_0_r. destruct (lookup_lt_is_Some_2 inter (length bs)) as [li Hli]; [lia|].
  rewrite Hli. cbn [mbind option_bind]. destruct (SFleb _ _) eqn:Ele.
  - destruct bs as [|y bs _] using rev_ind.
    { injection Hback as <-. cbn [length] in Hli. rewrite H0 in Hli. injection Hli as <-.
      destruct (Ha c ltac:(constructor)) as [Hv Hr]. by rewrite packet_rate_positive in Ele. }
    rewrite app_comm_cons, removelast_last. rewrite length_app in Hf. cbn in Hf.
    destruct (IH front bs cands' inter maxr false c (selecting_pop _ _ _ _ _ _ _ Hs')) as (b & Hb & Hsel); [cbn; lia|].
    exists b. split; [rewrite <- Hb; cbn [app]; by rewrite len_cons|]. eapply selected_mono; [|exact Hsel].
    intros x. cbn [app]. rewrite !elem_of_app, !elem_of_cons. tauto.
  - destruct (lookup_lt_is_Some_2 maxr (length bs)) as [lm Hlm]; [lia|]. rewrite Hlm. cbn [mbind option_bind].
    destruct (SFltb _ _).
    + replace (S (length bs) + 1 - 1)%nat with (S (length bs)) by lia. rewrite !(proj2 (Nat.ltb_lt (S (length bs)) _)) by lia.
      rewrite (proj2 (Z.eqb_neq (packet_overhead c) 0)) by lia. cbn [negb check mbind option_bind].
      destruct (IH front (bs ++ [c]) cands' _ _ true c
                 (selecting_push _ _ _ _ _ _ (packet_rate c back) (max_rate_of c) Hs')) as (b & Hb & Hsel).
      { cbn [app]. rewrite length_app. cbn. lia. }
      exists b. split; [rewrite <- Hb; cbn [app]; f_equal; lia|]. eapply selected_mono; [|exact Hsel].
      intros x. cbn [app]. rewrite <- app_assoc. done.
    + destruct (IH front bs cands' inter maxr true c (selecting_drop _ _ _ _ _ _ Hs')) as (b & Hb & Hsel); [cbn; lia|].
      exists b. split; [rewrite <- Hb; cbn [app]; f_equal; lia|]. eapply selected_mono; [|exact Hsel].
      intros x. cbn [app]. rewrite !elem_of_app, elem_of_cons. tauto.
Qed.

(** ** The bounding set *)

(** What [std::sort] guarantees: the same elements, in the order of the comparison. *)
Definition sorts (c_sort : list t -> list t) : Prop := forall l, c_sort l ≡ₚ l /\ by_overhead (c_sort l).

(** After steps 3 and 4, what is left are the limits behind the lowest one. *)
Lemma steeper_left pre front post :
  has_rate front = true -> rising (live (pre ++ front :: post)) ->
  let cands := <[length pre := clear_rate front]> (pre ++ front :: post) in
  len (List.filter (discard front) cands) = len (live pre) /\
  live ((fun x => if discard front x then clear_rate x else x) <$> cands) = live post.
Proof.
  intros Hf Hr cands. assert (Ec : cands = pre ++ clear_rate front :: post).
  { unfold cands. replace (length pre) with (length pre + 0)%nat by lia. by rewrite insert_app_r. }
  rewrite Ec. clear cands Ec. rewrite live_app in Hr. cbn [List.filter] in Hr. rewrite Hf in Hr.
  apply StronglySorted_app in Hr as (H1 & _ & H2). apply StronglySorted_cons in H2 as [H2 _]. rewrite Forall_forall in H2.
  assert (Hpre : forall x, x ∈ pre -> discard front x = has_rate x).
  { intros x Hx. unfold discard. destruct (has_rate x) eqn:E; [|done]. cbn. apply Z.ltb_lt.
    apply H1; [by apply elem_of_filter_bool|constructor]. }
  assert (Hpost : forall x, x ∈ post -> discard front x = false).
  { intros x Hx. unfold discard. destruct (has_rate x) eqn:E; [|done]. cbn. apply Z.ltb_ge.
    specialize (H2 x ltac:(by apply elem_of_filter_bool)). lia. }
  split.
  - rewrite List.filter_app. cbn [List.filter]. change (discard front (clear_rate front)) with false. cbn iota.
    rewrite (filter_none _ post), app_nil_r by done. f_equal. apply List.filter_ext_in. intros x Hx. by apply Hpre, list_elem_of_In.
  - rewrite fmap_app, live_app. cbn [fmap list_fmap List.filter]. change (discard front (clear_rate front)) with false. cbn iota.
    rewrite live_clear. replace (_ <$> post) with post.
    2:{ symmetry. rewrite <- (list_fmap_id post) at 2. apply list_fmap_ext. intros i x Hx.
        by rewrite Hpost by (by eapply list_elem_of_lookup_2). }
    rewrite live_none; [done|]. apply Forall_fmap, Forall_forall. intros x Hx. cbn. rewrite Hpre by done.
    by destruct (has_rate x) eqn:E.
Qed.

(** The candidates that count, their lowest, and of several lowest the one with the largest overhead. *)
Definition lowest_of (candidates : list t) (front : t) : Prop :=
  front ∈ live candidates /\
  forall x, x ∈ live candidates -> bitrate_bps front <= bitrate_bps x /\
    (bitrate_bps x = bitrate_bps front -> packet_overhead x <= packet_overhead front).

Lemma selecting_start front pre post :
  (forall x, x ∈ live (pre ++ front :: post) -> valid x) -> has_rate front = true -> rising (live (pre ++ front :: post)) ->
  (forall x, x ∈ live post -> bitrate_bps front < bitrate_bps x) ->
  forall cands n maxr, live cands = live post -> (1 + length (live post) <= n)%nat -> length maxr = n ->
  selecting front [] [] cands (replicate n float_zero) maxr.
Proof.
  intros Hv Hf Hr Hp cands n maxr E Hn Hm. rewrite live_app in Hr, Hv. cbn [List.filter] in Hr, Hv. rewrite Hf in Hr, Hv.
  assert (Hin : forall x, x ∈ live post -> valid x).
  { intros x Hx. apply Hv. apply elem_of_app. right. by constructor. }
  split; cbn [app]; rewrite ?E.
  - apply Hv, elem_of_app. right. constructor.
  - by apply StronglySorted_app in Hr as (_ & _ & Hr).
  - intros x Hx. split; [by apply Hin|by apply Hp].
  - apply lookup_replicate. split; [done|lia].
  - rewrite length_replicate. cbn. lia.
  - by rewrite length_replicate.
Qed.

Lemma bounding_set_found c_sort candidates :
  sorts c_sort -> Forall valid candidates -> 1 < len (live candidates) ->
  exists front b, FindBoundingSet c_sort candidates = Some b /\ lowest_of candidates front /\ selected front (live candidates) b.
Proof.
  intros Hs Hv Hl. unfold FindBoundingSet. rewrite (proj2 (Z.leb_gt _ _)) by done.
  destruct (Hs (live candidates)) as [Hp Ho]. set (sorted := c_sort (live candidates)) in *.
  assert (Hin : forall x, x ∈ sorted <-> x ∈ live candidates) by (intros x; by rewrite Hp).
  destruct (lowest_per_overhead_spec (length sorted) sorted) as (kept & k & -> & Hr & Hsub & Hmin & Hk); [done| |done|].
  { apply Forall_forall. intros x Hx. rewrite Hin in Hx. by apply elem_of_filter_bool in Hx as []. }
  cbn [mbind option_bind]. assert (Hlen : len sorted = len (live candidates)) by (unfold len; by rewrite Hp).
  assert (Hne : live kept <> []).
  { intros E. destruct sorted as [|x l] eqn:El; [rewrite len_nil in Hlen; lia|].
    destruct (Hmin x ltac:(constructor)) as (y & Hy & _). rewrite E in Hy. by apply elem_of_nil in Hy. }
  destruct (lowest_rate_spec kept Hne) as (pre & front & post & -> & Ekept & Hf & Hpre & Hpost). cbn [mbind option_bind].
  subst kept. destruct (steeper_left pre front post Hf Hr) as [Hd Hc]. rewrite Hd.
  set (cands := _ <$> _) in *. rewrite live_app in Hk. cbn [List.filter] in Hk. rewrite Hf, length_app in Hk. cbn [length] in Hk.
  assert (Hnum : len sorted - Z.of_nat k = 1 + len (live pre) + len (live post)) by (unfold len; lia).
  rewrite Hnum, (proj2 (Z.ltb_lt _ _)) by (unfold len; lia). cbn [check mbind option_bind].
  set (maxr := <[_ := _]> _).
  destruct (select_spec (2 * length cands + 1) front [] cands (replicate (Z.to_nat (1 + len (live pre) + len (live post))) float_zero)
              maxr true TmmbItem.init) as (b & Hb & Hsel).
  - apply (selecting_start front pre post); [|done|done|done|done|unfold len; lia|unfold maxr; by rewrite length_insert, length_replicate].
    intros x Hx. apply Hsub, Hin, elem_of_filter_bool in Hx as [Hx _]. by apply (proj1 (Forall_forall _ _) Hv).
  - cbn [app length]. pose proof (List.filter_length_le has_rate cands). lia.
  - cbn [app] in Hb, Hsel. rewrite Hc in Hb, Hsel. exists front, b.
    replace (1 + len (live pre) + len (live post) - 1 - len (live pre)) with (len (live post)) by lia.
    rewrite Hb. cbn [mbind option_bind]. pose proof Hsel as (rest & -> & _). rewrite bool_decide_eq_false_2 by done.
    split; [done|]. assert (Hfl : front ∈ live (pre ++ front :: post)).
    { rewrite live_app. cbn. rewrite Hf. apply elem_of_app. right. constructor. }
    split; [|eapply selected_mono; [|exact Hsel]; intros x Hx; apply Hin, Hsub; rewrite live_app; cbn; rewrite Hf;
             apply elem_of_app; right; by constructor].
    split; [by apply Hin, Hsub|]. intros x Hx. apply Hin, Hmin in Hx as (y & Hy & Hyo & Hyr).
    rewrite live_app in Hy, Hr. cbn in Hy, Hr. rewrite Hf in Hy, Hr. apply StronglySorted_app in Hr as (Hr & _).
    apply elem_of_app in Hy as [Hy|[->|Hy]%elem_of_cons].
    + specialize (Hpre y Hy). specialize (Hr y front Hy ltac:(constructor)). lia.
    + lia.
    + specialize (Hpost y Hy). lia.
Qed.

Lemma fold_min_first (l : list t) m : (forall x, x ∈ l -> m <= bitrate_bps x) ->
  fold_left (fun min item => if bitrate_bps item <? min then bitrate_bps item else min) l m = m.
Proof.
  induction l as [|x l IH]; intros H; [done|]. cbn. rewrite (proj2 (Z.ltb_ge _ _)) by (apply H; constructor).
  apply IH. intros y Hy. apply H. by constructor.
Qed.

Lemma CalcMinBitrateBps_front front rest :
  valid front -> (forall x, x ∈ rest -> bitrate_bps front <= bitrate_bps x) ->
  CalcMinBitrateBps (front :: rest) = Some (bitrate_bps front).
Proof.
  intros [_ Hb _] H. unfold CalcMinBitrateBps. cbn [fold_left]. rewrite bool_decide_eq_false_2 by done.
  cbn [negb check mbind option_bind]. f_equal. unfold in_u in Hb.
  destruct (Z.ltb_spec (bitrate_bps front) (2 ^ 64 - 1)); [by apply fold_min_first|].
  replace (2 ^ 64 - 1) with (bitrate_bps front) by lia. by apply fold_min_first.
Qed.

(** The part of the properties that a caller needs. *)
Lemma bounding_set_total c_sort candidates :
  sorts c_sort -> Forall valid candidates ->
  exists b, FindBoundingSet c_sort candidates = Some b /\ (b <> [] -> is_Some (CalcMinBitrateBps b)).
Proof.
  intros Hs Hv. assert (Hc : forall b, b <> [] -> is_Some (CalcMinBitrateBps b)).
  { intros b Hb. unfold CalcMinBitrateBps. rewrite bool_decide_eq_false_2 by done. by eexists. }
  destruct (Z.ltb_spec 1 (len (live candidates))) as [Hl|Hl].
  - destruct (bounding_set_found c_sort candidates Hs Hv Hl) as (front & b & Hb & _). exists b. split; [done|apply Hc].
  - unfold FindBoundingSet. rewrite (proj2 (Z.leb_le _ _)) by done. eexists. split; [done|apply Hc].
Qed.

(** C30: [FindBoundingSet] returns on every list of limits and fails no check, whatever order the sort
    gives to equal overheads: its search stops, and the set it reads from is never empty.  The set
    consists of candidates with a nonzero bitrate, by strictly increasing overhead; it is empty only
    when no candidate has a bitrate; and it begins with the lowest limit of all candidates (of several
    the one with the largest overhead), which is what [CalcMinBitrateBps] of the set returns. *)
Theorem bounding_set_sound c_sort candidates :
  sorts c_sort -> Forall valid candidates ->
  exists b, FindBoundingSet c_sort candidates = Some b /\ rising b /\
    (forall x, x ∈ b -> x ∈ candidates /\ bitrate_bps x <> 0) /\
    (live candidates = [] <-> b = []) /\
    (live candidates <> [] -> exists front, head b = Some front /\ lowest_of candidates front /\
       CalcMinBitrateBps b = Some (bitrate_bps front)).
Proof.
  intros Hs Hv. assert (Hlive : forall x, x ∈ live candidates -> x ∈ candidates /\ bitrate_bps x <> 0).
  { intros x [Hx Hr]%elem_of_filter_bool. split; [done|]. unfold has_rate in Hr. bool_prop. lia. }
  assert (Hval : forall x, x ∈ live candidates -> valid x).
  { intros x Hx. apply Hlive in Hx as [Hx _]. by apply (proj1 (Forall_forall _ _) Hv). }
  destruct (Z.ltb_spec 1 (len (live candidates))) as [Hl|Hl].
  - destruct (bounding_set_found c_sort candidates Hs Hv Hl) as (front & b & Hb & Hlow & rest & -> & Hr & Hin).
    exists (front :: rest). split; [done|]. split; [done|]. pose proof Hlow as [Hf Hmin].
    split; [intros x [->|Hx]%elem_of_cons; [by apply Hlive|apply Hlive, Hin, Hx]|].
    split; [split; [intros E; rewrite E in Hl; done|done]|]. intros _. exists front. split; [done|]. split; [done|].
    apply CalcMinBitrateBps_front; [by apply Hval|]. intros x Hx. by apply Hmin, Hin.
  - exists (live candidates). unfold FindBoundingSet. rewrite (proj2 (Z.leb_le _ _)) by done.
    split; [done|]. destruct (live candidates) as [|x [|y l]] eqn:E.
    + split; [constructor|]. done.
    + split; [by repeat constructor|]. split; [done|]. split; [done|]. intros _. exists x. split; [done|].
      assert (Hx : x ∈ live candidates) by (rewrite E; constructor). split.
      * split; [done|]. intros z Hz. rewrite E in Hz. apply list_elem_of_singleton in Hz as ->. lia.
      * apply CalcMinBitrateBps_front; [by apply Hval; constructor|]. intros z Hz. by apply elem_of_nil in Hz.
    + rewrite !len_cons in Hl. pose proof (len_nonneg l). lia.
Qed.

(** A sort that exists. *)
Definition overhead_le (a b : t) : Prop := packet_overhead a <= packet_overhead b.
#[global] Instance overhead_le_dec : RelDecision overhead_le.
Proof. intros a b. unfold overhead_le. apply _. Defined.
#[global] Instance overhead_le_total : Total overhead_le.
Proof. intros a b. unfold overhead_le. lia. Qed.
#[global] Instance overhead_le_trans : Transitive overhead_le.
Proof. intros a b c. unfold overhead_le. lia. Qed.

Definition stable_sort : list t -> list t := merge_sort overhead_le.

Lemma stable_sort_sorts : sorts stable_sort.
Proof.
  intros l. split; [apply merge_sort_Permutation|]. apply (Sorted_StronglySorted overhead_le), (Sorted_merge_sort overhead_le).
Qed.

Definition sample_limits : list t := [TmmbItem.MkItem 1 100 10; TmmbItem.MkItem 2 150 20; TmmbItem.MkItem 3 120 30; TmmbItem.MkItem 4 0 0].

Lemma sample_limits_valid : Forall valid sample_limits.
Proof. repeat constructor; by_compute. Qed.

Lemma bounding_set_sound_witness :
  exists b, FindBoundingSet stable_sort sample_limits = Some b /\ rising b /\ b <> [].
Proof.
  destruct (bounding_set_sound stable_sort sample_limits stable_sort_sorts sample_limits_valid) as (b & Hb & Hr & _ & He & _).
  exists b. split; [exact Hb|]. split; [exact Hr|]. intros E. apply He in E. discriminate E.
Defined.

(** The bitrate a limit leaves for media at a packet rate. *)
Definition media_rate (x : t) (packets : Z) : Z := bitrate_bps x - packets * packet_overhead x.

(** The bounding set may miss a limit that bounds.  The step that intersects a candidate with the
    last selected limit subtracts their bitrates without sign; when the candidate has the lower bitrate
    the difference wraps around and the candidate is dropped.  Of these three limits the third leaves
    less for media than the two others at every packet rate from 3 on, and is not in the set. *)
Lemma bounding_set_underflow :
  let limits := [TmmbItem.MkItem 1 100 10; TmmbItem.MkItem 2 150 20; TmmbItem.MkItem 3 120 30] in
  exists b, FindBoundingSet stable_sort limits = Some b /\
    exists x, x ∈ limits /\ ~ x ∈ b /\ forall y p, y ∈ b -> 3 <= p -> media_rate x p < media_rate y p.
Proof.
  eexists. split; [vm_compute; reflexivity|]. exists (TmmbItem.MkItem 3 120 30).
  split; [by repeat constructor|].
  split; [by intros [[=]|[[=]|[]%elem_of_nil]%elem_of_cons]%elem_of_cons|].
  intros y p [->|[->|[]%elem_of_nil]%elem_of_cons]%elem_of_cons Hp; unfold media_rate; cbn; lia.
Qed.
