(* ===== verification/RtcpReceiver.v ===== *)
(** * The RTCP receiver

    Model of rtp_rtcp/rtcp_receiver.h/.cc with the statistics it keeps (report_block_data.cc,
    rtcp_nack_stats.cc, api/video_bitrate_allocation.cc) and the parser of remote_estimate.cc.

    A [std::map] with integer keys is a list in the order of the keys ([zmap]).  [received_rrtrs_] is a
    [std::list] with a map of iterators into it: a node is a number, an iterator the number of its
    node; using an iterator of an erased node is [None].  The clocks are parameters: [millis n],
    [micros n] and [utc_micros n] are what the [n]-th reading returns; the callbacks are the list of
    calls made.  [absl::c_sort] is a parameter of the search for the bounding set. *)

From S2P Require Import Prelude ByteIo Rtcp Reports SourceDesc Feedback Nack Bitrate ExtendedReports.
From S2P Require Import FeedbackChunk TransportFeedback SeqNum OrderedSet TimeUtil TmmbrHelp.

(** ** Maps with integer keys *)

Definition zmap (V : Type) : Type := list (Z * V).
Definition zlookup {V} (m : zmap V) (k : Z) : option V := value_of k m.
Definition zinsert {V} (m : zmap V) (k : Z) (v : V) : zmap V := below k m ++ (k, v) :: above k m.
Definition zerase {V} (m : zmap V) (k : Z) : zmap V := below k m ++ above k m.

(** ** What it keeps *)

Record RTCPReportBlock := MkReport {
  sender_ssrc : Z;
  source_ssrc : Z;
  fraction_lost : Z;
  packets_lost : Z;
  extended_highest_sequence_number : Z;
  jitter : Z;
  last_sender_report_timestamp : Z;
  delay_since_last_sender_report : Z
}.

Module ReportBlockData.

Record t := Make {
  report_block : RTCPReportBlock;
  report_block_timestamp_utc_us : Z;
  last_rtt_ms : Z;
  min_rtt_ms : Z;
  max_rtt_ms : Z;
  sum_rtt_ms : Z;
  num_rtts : Z
}.

Definition init : t := Make (MkReport 0 0 0 0 0 0 0 0) 0 0 0 0 0 0.

Definition SetReportBlock (this : t) (b : RTCPReportBlock) (timestamp : Z) : t :=
  Make b timestamp (last_rtt_ms this) (min_rtt_ms this) (max_rtt_ms this) (sum_rtt_ms this) (num_rtts this).

Definition AddRoundTripTimeSample (this : t) (rtt_ms : Z) : t :=
  Make (report_block this) (report_block_timestamp_utc_us this) rtt_ms
    (if (num_rtts this =? 0) || (rtt_ms <? min_rtt_ms this) then rtt_ms else min_rtt_ms this)
    (if max_rtt_ms this <? rtt_ms then rtt_ms else max_rtt_ms this)
    (sum_rtt_ms this + rtt_ms) (num_rtts this + 1).

End ReportBlockData.

Module RtcpNackStats.

Record t := Make { max_sequence_number_ : Z; requests_ : Z; unique_requests_ : Z }.

Definition init : t := Make 0 0 0.

Definition ReportRequest (this : t) (sequence_number : Z) : t :=
  let unique := (requests_ this =? 0) || SeqNum.IsNewer 16 sequence_number (max_sequence_number_ this) in
  Make (if unique then sequence_number else max_sequence_number_ this) (u32 (requests_ this + 1))
    (if unique then u32 (unique_requests_ this + 1) else unique_requests_ this).

End RtcpNackStats.

Module VideoBitrateAllocation.

Definition kMaxSpatialLayers : Z := 5.
Definition kMaxTemporalStreams : Z := 4.
Definition kMaxBitrateBps : Z := 2 ^ 32 - 1.

(** [bitrates_[s][t]] is element [4 s + t]; the flag [is_bw_limited_] is not used by the receiver. *)
Record t := Make { sum_ : Z; bitrates_ : list (option Z) }.

Definition init : t := Make 0 (replicate 20 None).

Definition SetBitrate (this : t) (spatial_index temporal_index bitrate_bps : Z) : option (bool * t) :=
  check (spatial_index <? kMaxSpatialLayers) ;; check (temporal_index <? kMaxTemporalStreams) ;;
  let i := Z.to_nat (kMaxTemporalStreams * spatial_index + temporal_index) in
  layer_bitrate ← bitrates_ this !! i;
  check (match layer_bitrate with Some b => b <=? sum_ this | None => true end) ;;
  let new_bitrate_sum_bps := sum_ this - default 0 layer_bitrate + bitrate_bps in
  if kMaxBitrateBps <? new_bitrate_sum_bps then Some (false, this) else
  check (0 <=? new_bitrate_sum_bps) ;;
  Some (true, Make new_bitrate_sum_bps (<[i := Some bitrate_bps]> (bitrates_ this))).

End VideoBitrateAllocation.

Module RemoteEstimate.

Definition kSubType : Z := 13.
Definition kName : Z := 0x676f6f67.
Definition kFieldValueSize : nat := 3.
Definition kFieldSize : Z := 4.
Definition kMaxEncoded : Z := Z.shiftl 1 24 - 1.
Definition kDataRateResolution : Z := 1000.

(** [DataRate] holds an [int64_t]; the extreme values are the infinities. *)
Definition PlusInfinity : Z := 2 ^ 63 - 1.
Definition MinusInfinity : Z := - 2 ^ 63.

(** The two fields of [NetworkStateEstimate] that are transmitted. *)
Record NetworkStateEstimate := Estimate { link_capacity_lower : Z; link_capacity_upper : Z }.

Definition no_estimate : NetworkStateEstimate := Estimate MinusInfinity MinusInfinity.

(** [DataRateSerializer::Read], up to the store into the field. *)
Definition Read (src : list Z) : option Z :=
  scaled ← ByteReader.ReadBigEndian 32 kFieldValueSize src;
  if scaled =? kMaxEncoded then Some PlusInfinity else
  check (kDataRateResolution * scaled <? PlusInfinity) ;; Some (kDataRateResolution * scaled).

(** The loop of [RemoteEstimateSerializerImpl::Parse] over the fields 1 and 2; [n] fields are left. *)
Fixpoint parse_fields (n : nat) (data : list Z) (target : NetworkStateEstimate) : option NetworkStateEstimate :=
  match n with
  | O => Some target
  | S n' =>
      field_id ← ByteReader.ReadBigEndian 8 1 data;
      target' ← (if field_id =? 1 then
                   v ← Read (ptr_add data 1); Some (Estimate v (link_capacity_upper target))
                 else if field_id =? 2 then
                   v ← Read (ptr_add data 1); Some (Estimate (link_capacity_lower target) v)
                 else Some target);
      parse_fields n' (ptr_add data kFieldSize) target'
  end.

Definition ParseData (app : App.t) : option (bool * NetworkStateEstimate) :=
  let src := App.data app in
  if negb (len src mod kFieldSize =? 0) then Some (false, no_estimate) else
  e ← parse_fields (Z.to_nat (len src / kFieldSize)) src no_estimate; Some (true, e).

End RemoteEstimate.

Module RTCPReceiver.

Definition kRrTimeoutIntervals : Z := 3.
Definition kTmmbrTimeoutIntervalMs : Z := 5 * 5000.
Definition kMaxWarningLogIntervalMs : Z := 10000.
Definition kRtcpMinFrameLengthMs : Z := 17.
Definition kMaxNumberOfStoredRrtrs : Z := 200.
Definition RTCP_CNAME_SIZE : Z := 256.

(** [RTCPPacketType]. *)
Definition kRtcpSr : Z := 0x0002.
Definition kRtcpRr : Z := 0x0004.
Definition kRtcpSdes : Z := 0x0008.
Definition kRtcpPli : Z := 0x0020.
Definition kRtcpNack : Z := 0x0040.
Definition kRtcpFir : Z := 0x0080.
Definition kRtcpTmmbr : Z := 0x0100.
Definition kRtcpTmmbn : Z := 0x0200.
Definition kRtcpSrReq : Z := 0x0400.
Definition kRtcpLossNotification : Z := 0x2000.
Definition kRtcpRemb : Z := 0x10000.
Definition kRtcpTransportFeedback : Z := 0x100000.

Record RtcpPacketTypeCounter := Counter {
  first_packet_time_ms : Z;
  nack_packets : Z;
  fir_packets : Z;
  pli_packets : Z;
  nack_requests : Z;
  unique_nack_requests : Z
}.

Record TimedTmmbrItem := Timed { tmmbr_item : TmmbItem.t; last_updated_ms : Z }.

Record TmmbrInformation := MkTmmbrInfo {
  last_time_received_ms : Z;
  ready_for_delete : bool;
  tmmbn : list TmmbItem.t;
  tmmbr : zmap TimedTmmbrItem
}.

Definition no_tmmbr_info : TmmbrInformation := MkTmmbrInfo 0 false [] [].

Record RrtrInformation := MkRrtrInfo {
  rrtr_ssrc : Z;
  received_remote_mid_ntp_time : Z;
  local_receive_mid_ntp_time : Z
}.

Record LastFirStatus := MkFirStatus { request_ms : Z; sequence_number : Z }.

(** The ssrcs a report may be about: the media, its retransmissions, its error correction. *)
Definition GetRegisteredSsrcs (local_media_ssrc : Z) (rtx_send_ssrc flexfec_ssrc : option Z) : list Z :=
  local_media_ssrc :: option_list rtx_send_ssrc ++ option_list flexfec_ssrc.

Definition kDefaultVideoReportInterval : Z := 1000.
Definition kDefaultAudioReportInterval : Z := 5000.

(** The initialisation of [report_interval_ms_]. *)
Definition report_interval (rtcp_report_interval_ms : Z) (audio : bool) : Z :=
  if 0 <? rtcp_report_interval_ms then rtcp_report_interval_ms
  else if audio then kDefaultAudioReportInterval else kDefaultVideoReportInterval.

(** The constant members; an observer is there or not.  [registered_ssrcs_] is a result of
    [GetRegisteredSsrcs] and [report_interval_ms_] one of [report_interval]. *)
Record Configuration := Config {
  receiver_only_ : bool;
  main_ssrc_ : Z;
  registered_ssrcs_ : list Z;
  rtcp_bandwidth_observer_ : bool;
  rtcp_intra_frame_observer_ : bool;
  rtcp_loss_notification_observer_ : bool;
  network_state_estimate_observer_ : bool;
  transport_feedback_observer_ : bool;
  bitrate_allocation_observer_ : bool;
  packet_type_counter_observer_ : bool;
  report_interval_ms_ : Z
}.

Record PacketInformation := Information {
  packet_type_flags : Z;
  info_remote_ssrc : Z;
  nack_sequence_numbers : list Z;
  report_blocks : list RTCPReportBlock;
  report_block_datas : list ReportBlockData.t;
  rtt_ms : Z;
  receiver_estimated_max_bitrate_bps : Z;
  transport_feedback : option TransportFeedback.t;
  target_bitrate_allocation : option VideoBitrateAllocation.t;
  network_state_estimate : option RemoteEstimate.NetworkStateEstimate;
  loss_notification : option LossNotification.t
}.

Definition set_packet_type_flags (v : Z) (x : PacketInformation) : PacketInformation := Information v
  (info_remote_ssrc x) (nack_sequence_numbers x) (report_blocks x) (report_block_datas x) (rtt_ms x)
  (receiver_estimated_max_bitrate_bps x) (transport_feedback x) (target_bitrate_allocation x)
  (network_state_estimate x) (loss_notification x).
Definition set_info_remote_ssrc (v : Z) (x : PacketInformation) : PacketInformation := Information
  (packet_type_flags x) v (nack_sequence_numbers x) (report_blocks x) (report_block_datas x) (rtt_ms x)
  (receiver_estimated_max_bitrate_bps x) (transport_feedback x) (target_bitrate_allocation x)
  (network_state_estimate x) (loss_notification x).
Definition set_nack_sequence_numbers (v : list Z) (x : PacketInformation) : PacketInformation := Information
  (packet_type_flags x) (info_remote_ssrc x) v (report_blocks x) (report_block_datas x) (rtt_ms x)
  (receiver_estimated_max_bitrate_bps x) (transport_feedback x) (target_bitrate_allocation x)
  (network_state_estimate x) (loss_notification x).
Definition set_report_blocks (v : list RTCPReportBlock) (x : PacketInformation) : PacketInformation :=
  Information (packet_type_flags x) (info_remote_ssrc x) (nack_sequence_numbers x) v (report_block_datas x)
  (rtt_ms x) (receiver_estimated_max_bitrate_bps x) (transport_feedback x) (target_bitrate_allocation x)
  (network_state_estimate x) (loss_notification x).
Definition set_report_block_datas (v : list ReportBlockData.t) (x : PacketInformation) : PacketInformation
  := Information (packet_type_flags x) (info_remote_ssrc x) (nack_sequence_numbers x) (report_blocks x) v
  (rtt_ms x) (receiver_estimated_max_bitrate_bps x) (transport_feedback x) (target_bitrate_allocation x)
  (network_state_estimate x) (loss_notification x).
Definition set_rtt_ms (v : Z) (x : PacketInformation) : PacketInformation := Information (packet_type_flags
  x) (info_remote_ssrc x) (nack_sequence_numbers x) (report_blocks x) (report_block_datas x) v
  (receiver_estimated_max_bitrate_bps x) (transport_feedback x) (target_bitrate_allocation x)
  (network_state_estimate x) (loss_notification x).
Definition set_receiver_estimated_max_bitrate_bps (v : Z) (x : PacketInformation) : PacketInformation :=
  Information (packet_type_flags x) (info_remote_ssrc x) (nack_sequence_numbers x) (report_blocks x)
  (report_block_datas x) (rtt_ms x) v (transport_feedback x) (target_bitrate_allocation x)
  (network_state_estimate x) (loss_notification x).
Definition set_transport_feedback (v : option TransportFeedback.t) (x : PacketInformation) :
  PacketInformation := Information (packet_type_flags x) (info_remote_ssrc x) (nack_sequence_numbers x)
  (report_blocks x) (report_block_datas x) (rtt_ms x) (receiver_estimated_max_bitrate_bps x) v
  (target_bitrate_allocation x) (network_state_estimate x) (loss_notification x).
Definition set_target_bitrate_allocation (v : option VideoBitrateAllocation.t) (x : PacketInformation) :
  PacketInformation := Information (packet_type_flags x) (info_remote_ssrc x) (nack_sequence_numbers x)
  (report_blocks x) (report_block_datas x) (rtt_ms x) (receiver_estimated_max_bitrate_bps x)
  (transport_feedback x) v (network_state_estimate x) (loss_notification x).
Definition set_network_state_estimate (v : option RemoteEstimate.NetworkStateEstimate) (x :
  PacketInformation) : PacketInformation := Information (packet_type_flags x) (info_remote_ssrc x)
  (nack_sequence_numbers x) (report_blocks x) (report_block_datas x) (rtt_ms x)
  (receiver_estimated_max_bitrate_bps x) (transport_feedback x) (target_bitrate_allocation x) v
  (loss_notification x).
Definition set_loss_notification (v : option LossNotification.t) (x : PacketInformation) : PacketInformation
  := Information (packet_type_flags x) (info_remote_ssrc x) (nack_sequence_numbers x) (report_blocks x)
  (report_block_datas x) (rtt_ms x) (receiver_estimated_max_bitrate_bps x) (transport_feedback x)
  (target_bitrate_allocation x) (network_state_estimate x) v.

Definition no_information : PacketInformation := Information 0 0 [] [] [] 0 0 None None None None.

Record t := Make {
  remote_ssrc_ : Z;
  remote_sender_ntp_time_ : NtpTime.t;
  remote_sender_rtp_time_ : Z;
  last_received_sr_ntp_ : NtpTime.t;
  received_rrtrs_ : list (nat * RrtrInformation);
  received_rrtrs_ssrc_it_ : zmap nat;
  next_node : nat;
  xr_rrtr_status_ : bool;
  xr_rr_rtt_ms_ : Z;
  oldest_tmmbr_info_ms_ : Z;
  tmmbr_infos_ : zmap TmmbrInformation;
  received_report_blocks_ : zmap (zmap ReportBlockData.t);
  last_fir_ : zmap LastFirStatus;
  received_cnames_ : zmap (list Z);
  last_received_rb_ms_ : Z;
  last_increased_sequence_number_ms_ : Z;
  stats_callback_ : bool;
  cname_callback_ : bool;
  report_block_data_observer_ : bool;
  packet_type_counter_ : RtcpPacketTypeCounter;
  nack_stats_ : RtcpNackStats.t;
  num_skipped_packets_ : Z;
  last_skipped_packets_warning_ms_ : Z
}.

Definition set_remote_ssrc (v : Z) (x : t) : t := Make v (remote_sender_ntp_time_ x)
  (remote_sender_rtp_time_ x) (last_received_sr_ntp_ x) (received_rrtrs_ x) (received_rrtrs_ssrc_it_ x)
  (next_node x) (xr_rrtr_status_ x) (xr_rr_rtt_ms_ x) (oldest_tmmbr_info_ms_ x) (tmmbr_infos_ x)
  (received_report_blocks_ x) (last_fir_ x) (received_cnames_ x) (last_received_rb_ms_ x)
  (last_increased_sequence_number_ms_ x) (stats_callback_ x) (cname_callback_ x)
  (report_block_data_observer_ x) (packet_type_counter_ x) (nack_stats_ x) (num_skipped_packets_ x)
  (last_skipped_packets_warning_ms_ x).
Definition set_remote_sender_ntp_time (v : NtpTime.t) (x : t) : t := Make (remote_ssrc_ x) v
  (remote_sender_rtp_time_ x) (last_received_sr_ntp_ x) (received_rrtrs_ x) (received_rrtrs_ssrc_it_ x)
  (next_node x) (xr_rrtr_status_ x) (xr_rr_rtt_ms_ x) (oldest_tmmbr_info_ms_ x) (tmmbr_infos_ x)
  (received_report_blocks_ x) (last_fir_ x) (received_cnames_ x) (last_received_rb_ms_ x)
  (last_increased_sequence_number_ms_ x) (stats_callback_ x) (cname_callback_ x)
  (report_block_data_observer_ x) (packet_type_counter_ x) (nack_stats_ x) (num_skipped_packets_ x)
  (last_skipped_packets_warning_ms_ x).
Definition set_remote_sender_rtp_time (v : Z) (x : t) : t := Make (remote_ssrc_ x) (remote_sender_ntp_time_
  x) v (last_received_sr_ntp_ x) (received_rrtrs_ x) (received_rrtrs_ssrc_it_ x) (next_node x)
  (xr_rrtr_status_ x) (xr_rr_rtt_ms_ x) (oldest_tmmbr_info_ms_ x) (tmmbr_infos_ x) (received_report_blocks_
  x) (last_fir_ x) (received_cnames_ x) (last_received_rb_ms_ x) (last_increased_sequence_number_ms_ x)
  (stats_callback_ x) (cname_callback_ x) (report_block_data_observer_ x) (packet_type_counter_ x)
  (nack_stats_ x) (num_skipped_packets_ x) (last_skipped_packets_warning_ms_ x).
Definition set_last_received_sr_ntp (v : NtpTime.t) (x : t) : t := Make (remote_ssrc_ x)
  (remote_sender_ntp_time_ x) (remote_sender_rtp_time_ x) v (received_rrtrs_ x) (received_rrtrs_ssrc_it_ x)
  (next_node x) (xr_rrtr_status_ x) (xr_rr_rtt_ms_ x) (oldest_tmmbr_info_ms_ x) (tmmbr_infos_ x)
  (received_report_blocks_ x) (last_fir_ x) (received_cnames_ x) (last_received_rb_ms_ x)
  (last_increased_sequence_number_ms_ x) (stats_callback_ x) (cname_callback_ x)
  (report_block_data_observer_ x) (packet_type_counter_ x) (nack_stats_ x) (num_skipped_packets_ x)
  (last_skipped_packets_warning_ms_ x).
Definition set_received_rrtrs (v : list (nat * RrtrInformation)) (x : t) : t := Make (remote_ssrc_ x)
  (remote_sender_ntp_time_ x) (remote_sender_rtp_time_ x) (last_received_sr_ntp_ x) v
  (received_rrtrs_ssrc_it_ x) (next_node x) (xr_rrtr_status_ x) (xr_rr_rtt_ms_ x) (oldest_tmmbr_info_ms_ x)
  (tmmbr_infos_ x) (received_report_blocks_ x) (last_fir_ x) (received_cnames_ x) (last_received_rb_ms_ x)
  (last_increased_sequence_number_ms_ x) (stats_callback_ x) (cname_callback_ x)
  (report_block_data_observer_ x) (packet_type_counter_ x) (nack_stats_ x) (num_skipped_packets_ x)
  (last_skipped_packets_warning_ms_ x).
Definition set_received_rrtrs_ssrc_it (v : zmap nat) (x : t) : t := Make (remote_ssrc_ x)
  (remote_sender_ntp_time_ x) (remote_sender_rtp_time_ x) (last_received_sr_ntp_ x) (received_rrtrs_ x) v
  (next_node x) (xr_rrtr_status_ x) (xr_rr_rtt_ms_ x) (oldest_tmmbr_info_ms_ x) (tmmbr_infos_ x)
  (received_report_blocks_ x) (last_fir_ x) (received_cnames_ x) (last_received_rb_ms_ x)
  (last_increased_sequence_number_ms_ x) (stats_callback_ x) (cname_callback_ x)
  (report_block_data_observer_ x) (packet_type_counter_ x) (nack_stats_ x) (num_skipped_packets_ x)
  (last_skipped_packets_warning_ms_ x).
Definition set_next_node (v : nat) (x : t) : t := Make (remote_ssrc_ x) (remote_sender_ntp_time_ x)
  (remote_sender_rtp_time_ x) (last_received_sr_ntp_ x) (received_rrtrs_ x) (received_rrtrs_ssrc_it_ x) v
  (xr_rrtr_status_ x) (xr_rr_rtt_ms_ x) (oldest_tmmbr_info_ms_ x) (tmmbr_infos_ x) (received_report_blocks_
  x) (last_fir_ x) (received_cnames_ x) (last_received_rb_ms_ x) (last_increased_sequence_number_ms_ x)
  (stats_callback_ x) (cname_callback_ x) (report_block_data_observer_ x) (packet_type_counter_ x)
  (nack_stats_ x) (num_skipped_packets_ x) (last_skipped_packets_warning_ms_ x).
Definition set_xr_rrtr_status (v : bool) (x : t) : t := Make (remote_ssrc_ x) (remote_sender_ntp_time_ x)
  (remote_sender_rtp_time_ x) (last_received_sr_ntp_ x) (received_rrtrs_ x) (received_rrtrs_ssrc_it_ x)
  (next_node x) v (xr_rr_rtt_ms_ x) (oldest_tmmbr_info_ms_ x) (tmmbr_infos_ x) (received_report_blocks_ x)
  (last_fir_ x) (received_cnames_ x) (last_received_rb_ms_ x) (last_increased_sequence_number_ms_ x)
  (stats_callback_ x) (cname_callback_ x) (report_block_data_observer_ x) (packet_type_counter_ x)
  (nack_stats_ x) (num_skipped_packets_ x) (last_skipped_packets_warning_ms_ x).
Definition set_xr_rr_rtt_ms (v : Z) (x : t) : t := Make (remote_ssrc_ x) (remote_sender_ntp_time_ x)
  (remote_sender_rtp_time_ x) (last_received_sr_ntp_ x) (received_rrtrs_ x) (received_rrtrs_ssrc_it_ x)
  (next_node x) (xr_rrtr_status_ x) v (oldest_tmmbr_info_ms_ x) (tmmbr_infos_ x) (received_report_blocks_ x)
  (last_fir_ x) (received_cnames_ x) (last_received_rb_ms_ x) (last_increased_sequence_number_ms_ x)
  (stats_callback_ x) (cname_callback_ x) (report_block_data_observer_ x) (packet_type_counter_ x)
  (nack_stats_ x) (num_skipped_packets_ x) (last_skipped_packets_warning_ms_ x).
Definition set_oldest_tmmbr_info_ms (v : Z) (x : t) : t := Make (remote_ssrc_ x) (remote_sender_ntp_time_ x)
  (remote_sender_rtp_time_ x) (last_received_sr_ntp_ x) (received_rrtrs_ x) (received_rrtrs_ssrc_it_ x)
  (next_node x) (xr_rrtr_status_ x) (xr_rr_rtt_ms_ x) v (tmmbr_infos_ x) (received_report_blocks_ x)
  (last_fir_ x) (received_cnames_ x) (last_received_rb_ms_ x) (last_increased_sequence_number_ms_ x)
  (stats_callback_ x) (cname_callback_ x) (report_block_data_observer_ x) (packet_type_counter_ x)
  (nack_stats_ x) (num_skipped_packets_ x) (last_skipped_packets_warning_ms_ x).
Definition set_tmmbr_infos (v : zmap TmmbrInformation) (x : t) : t := Make (remote_ssrc_ x)
  (remote_sender_ntp_time_ x) (remote_sender_rtp_time_ x) (last_received_sr_ntp_ x) (received_rrtrs_ x)
  (received_rrtrs_ssrc_it_ x) (next_node x) (xr_rrtr_status_ x) (xr_rr_rtt_ms_ x) (oldest_tmmbr_info_ms_ x)
  v (received_report_blocks_ x) (last_fir_ x) (received_cnames_ x) (last_received_rb_ms_ x)
  (last_increased_sequence_number_ms_ x) (stats_callback_ x) (cname_callback_ x)
  (report_block_data_observer_ x) (packet_type_counter_ x) (nack_stats_ x) (num_skipped_packets_ x)
  (last_skipped_packets_warning_ms_ x).
Definition set_received_report_blocks (v : zmap (zmap ReportBlockData.t)) (x : t) : t := Make (remote_ssrc_
  x) (remote_sender_ntp_time_ x) (remote_sender_rtp_time_ x) (last_received_sr_ntp_ x) (received_rrtrs_ x)
  (received_rrtrs_ssrc_it_ x) (next_node x) (xr_rrtr_status_ x) (xr_rr_rtt_ms_ x) (oldest_tmmbr_info_ms_ x)
  (tmmbr_infos_ x) v (last_fir_ x) (received_cnames_ x) (last_received_rb_ms_ x)
  (last_increased_sequence_number_ms_ x) (stats_callback_ x) (cname_callback_ x)
  (report_block_data_observer_ x) (packet_type_counter_ x) (nack_stats_ x) (num_skipped_packets_ x)
  (last_skipped_packets_warning_ms_ x).
Definition set_last_fir (v : zmap LastFirStatus) (x : t) : t := Make (remote_ssrc_ x)
  (remote_sender_ntp_time_ x) (remote_sender_rtp_time_ x) (last_received_sr_ntp_ x) (received_rrtrs_ x)
  (received_rrtrs_ssrc_it_ x) (next_node x) (xr_rrtr_status_ x) (xr_rr_rtt_ms_ x) (oldest_tmmbr_info_ms_ x)
  (tmmbr_infos_ x) (received_report_blocks_ x) v (received_cnames_ x) (last_received_rb_ms_ x)
  (last_increased_sequence_number_ms_ x) (stats_callback_ x) (cname_callback_ x)
  (report_block_data_observer_ x) (packet_type_counter_ x) (nack_stats_ x) (num_skipped_packets_ x)
  (last_skipped_packets_warning_ms_ x).
Definition set_received_cnames (v : zmap (list Z)) (x : t) : t := Make (remote_ssrc_ x)
  (remote_sender_ntp_time_ x) (remote_sender_rtp_time_ x) (last_received_sr_ntp_ x) (received_rrtrs_ x)
  (received_rrtrs_ssrc_it_ x) (next_node x) (xr_rrtr_status_ x) (xr_rr_rtt_ms_ x) (oldest_tmmbr_info_ms_ x)
  (tmmbr_infos_ x) (received_report_blocks_ x) (last_fir_ x) v (last_received_rb_ms_ x)
  (last_increased_sequence_number_ms_ x) (stats_callback_ x) (cname_callback_ x)
  (report_block_data_observer_ x) (packet_type_counter_ x) (nack_stats_ x) (num_skipped_packets_ x)
  (last_skipped_packets_warning_ms_ x).
Definition set_last_received_rb_ms (v : Z) (x : t) : t := Make (remote_ssrc_ x) (remote_sender_ntp_time_ x)
  (remote_sender_rtp_time_ x) (last_received_sr_ntp_ x) (received_rrtrs_ x) (received_rrtrs_ssrc_it_ x)
  (next_node x) (xr_rrtr_status_ x) (xr_rr_rtt_ms_ x) (oldest_tmmbr_info_ms_ x) (tmmbr_infos_ x)
  (received_report_blocks_ x) (last_fir_ x) (received_cnames_ x) v (last_increased_sequence_number_ms_ x)
  (stats_callback_ x) (cname_callback_ x) (report_block_data_observer_ x) (packet_type_counter_ x)
  (nack_stats_ x) (num_skipped_packets_ x) (last_skipped_packets_warning_ms_ x).
Definition set_last_increased_sequence_number_ms (v : Z) (x : t) : t := Make (remote_ssrc_ x)
  (remote_sender_ntp_time_ x) (remote_sender_rtp_time_ x) (last_received_sr_ntp_ x) (received_rrtrs_ x)
  (received_rrtrs_ssrc_it_ x) (next_node x) (xr_rrtr_status_ x) (xr_rr_rtt_ms_ x) (oldest_tmmbr_info_ms_ x)
  (tmmbr_infos_ x) (received_report_blocks_ x) (last_fir_ x) (received_cnames_ x) (last_received_rb_ms_ x) v
  (stats_callback_ x) (cname_callback_ x) (report_block_data_observer_ x) (packet_type_counter_ x)
  (nack_stats_ x) (num_skipped_packets_ x) (last_skipped_packets_warning_ms_ x).
Definition set_stats_callback (v : bool) (x : t) : t := Make (remote_ssrc_ x) (remote_sender_ntp_time_ x)
  (remote_sender_rtp_time_ x) (last_received_sr_ntp_ x) (received_rrtrs_ x) (received_rrtrs_ssrc_it_ x)
  (next_node x) (xr_rrtr_status_ x) (xr_rr_rtt_ms_ x) (oldest_tmmbr_info_ms_ x) (tmmbr_infos_ x)
  (received_report_blocks_ x) (last_fir_ x) (received_cnames_ x) (last_received_rb_ms_ x)
  (last_increased_sequence_number_ms_ x) v (cname_callback_ x) (report_block_data_observer_ x)
  (packet_type_counter_ x) (nack_stats_ x) (num_skipped_packets_ x) (last_skipped_packets_warning_ms_ x).
Definition set_cname_callback (v : bool) (x : t) : t := Make (remote_ssrc_ x) (remote_sender_ntp_time_ x)
  (remote_sender_rtp_time_ x) (last_received_sr_ntp_ x) (received_rrtrs_ x) (received_rrtrs_ssrc_it_ x)
  (next_node x) (xr_rrtr_status_ x) (xr_rr_rtt_ms_ x) (oldest_tmmbr_info_ms_ x) (tmmbr_infos_ x)
  (received_report_blocks_ x) (last_fir_ x) (received_cnames_ x) (last_received_rb_ms_ x)
  (last_increased_sequence_number_ms_ x) (stats_callback_ x) v (report_block_data_observer_ x)
  (packet_type_counter_ x) (nack_stats_ x) (num_skipped_packets_ x) (last_skipped_packets_warning_ms_ x).
Definition set_report_block_data_observer (v : bool) (x : t) : t := Make (remote_ssrc_ x)
  (remote_sender_ntp_time_ x) (remote_sender_rtp_time_ x) (last_received_sr_ntp_ x) (received_rrtrs_ x)
  (received_rrtrs_ssrc_it_ x) (next_node x) (xr_rrtr_status_ x) (xr_rr_rtt_ms_ x) (oldest_tmmbr_info_ms_ x)
  (tmmbr_infos_ x) (received_report_blocks_ x) (last_fir_ x) (received_cnames_ x) (last_received_rb_ms_ x)
  (last_increased_sequence_number_ms_ x) (stats_callback_ x) (cname_callback_ x) v (packet_type_counter_ x)
  (nack_stats_ x) (num_skipped_packets_ x) (last_skipped_packets_warning_ms_ x).
Definition set_packet_type_counter (v : RtcpPacketTypeCounter) (x : t) : t := Make (remote_ssrc_ x)
  (remote_sender_ntp_time_ x) (remote_sender_rtp_time_ x) (last_received_sr_ntp_ x) (received_rrtrs_ x)
  (received_rrtrs_ssrc_it_ x) (next_node x) (xr_rrtr_status_ x) (xr_rr_rtt_ms_ x) (oldest_tmmbr_info_ms_ x)
  (tmmbr_infos_ x) (received_report_blocks_ x) (last_fir_ x) (received_cnames_ x) (last_received_rb_ms_ x)
  (last_increased_sequence_number_ms_ x) (stats_callback_ x) (cname_callback_ x)
  (report_block_data_observer_ x) v (nack_stats_ x) (num_skipped_packets_ x)
  (last_skipped_packets_warning_ms_ x).
Definition set_nack_stats (v : RtcpNackStats.t) (x : t) : t := Make (remote_ssrc_ x)
  (remote_sender_ntp_time_ x) (remote_sender_rtp_time_ x) (last_received_sr_ntp_ x) (received_rrtrs_ x)
  (received_rrtrs_ssrc_it_ x) (next_node x) (xr_rrtr_status_ x) (xr_rr_rtt_ms_ x) (oldest_tmmbr_info_ms_ x)
  (tmmbr_infos_ x) (received_report_blocks_ x) (last_fir_ x) (received_cnames_ x) (last_received_rb_ms_ x)
  (last_increased_sequence_number_ms_ x) (stats_callback_ x) (cname_callback_ x)
  (report_block_data_observer_ x) (packet_type_counter_ x) v (num_skipped_packets_ x)
  (last_skipped_packets_warning_ms_ x).
Definition set_num_skipped_packets (v : Z) (x : t) : t := Make (remote_ssrc_ x) (remote_sender_ntp_time_ x)
  (remote_sender_rtp_time_ x) (last_received_sr_ntp_ x) (received_rrtrs_ x) (received_rrtrs_ssrc_it_ x)
  (next_node x) (xr_rrtr_status_ x) (xr_rr_rtt_ms_ x) (oldest_tmmbr_info_ms_ x) (tmmbr_infos_ x)
  (received_report_blocks_ x) (last_fir_ x) (received_cnames_ x) (last_received_rb_ms_ x)
  (last_increased_sequence_number_ms_ x) (stats_callback_ x) (cname_callback_ x)
  (report_block_data_observer_ x) (packet_type_counter_ x) (nack_stats_ x) v
  (last_skipped_packets_warning_ms_ x).
Definition set_last_skipped_packets_warning_ms (v : Z) (x : t) : t := Make (remote_ssrc_ x)
  (remote_sender_ntp_time_ x) (remote_sender_rtp_time_ x) (last_received_sr_ntp_ x) (received_rrtrs_ x)
  (received_rrtrs_ssrc_it_ x) (next_node x) (xr_rrtr_status_ x) (xr_rr_rtt_ms_ x) (oldest_tmmbr_info_ms_ x)
  (tmmbr_infos_ x) (received_report_blocks_ x) (last_fir_ x) (received_cnames_ x) (last_received_rb_ms_ x)
  (last_increased_sequence_number_ms_ x) (stats_callback_ x) (cname_callback_ x)
  (report_block_data_observer_ x) (packet_type_counter_ x) (nack_stats_ x) (num_skipped_packets_ x) v.

(** The calls of observers and of the owning module. *)
Inductive event :=
  | OnCname (ssrc : Z) (cname : list Z)
  | RtcpPacketTypesCounterUpdated (ssrc : Z) (counter : RtcpPacketTypeCounter)
  | SetTmmbn (bounding : list TmmbItem.t)
  | OnRequestSendReport
  | OnReceivedNack (ids : list Z)
  | OnReceivedIntraFrameRequest (ssrc : Z)
  | OnReceivedLossNotification (ssrc last_decoded last_received : Z) (decodable : bool)
  | OnReceivedEstimatedBitrate (bitrate : Z)
  | OnReceivedRtcpReceiverReport (blocks : list RTCPReportBlock) (rtt now : Z)
  | OnReceivedRtcpReportBlocks (blocks : list RTCPReportBlock)
  | OnTransportFeedback (feedback : TransportFeedback.t)
  | OnRemoteNetworkEstimate (estimate : RemoteEstimate.NetworkStateEstimate)
  | OnBitrateAllocationUpdated (allocation : VideoBitrateAllocation.t)
  | StatisticsUpdated (packets_lost highest fraction jitter ssrc : Z)
  | OnReportBlockDataUpdated (data : ReportBlockData.t).

(** The receiver, the information on the packet, the number of clock readings, the calls made. *)
Record world := World { this : t; information : PacketInformation; reads : nat; calls : list event }.

Abbreviation R := (ST world).

Definition member {A} (f : t -> A) : R A := fun w => Some (f (this w), w).
Definition modify (f : t -> t) : R unit := fun w =>
  Some (tt, World (f (this w)) (information w) (reads w) (calls w)).
Definition inform (f : PacketInformation -> PacketInformation) : R unit := fun w =>
  Some (tt, World (this w) (f (information w)) (reads w) (calls w)).
Definition call (e : event) : R unit := fun w =>
  Some (tt, World (this w) (information w) (reads w) (calls w ++ [e])).
Definition lift {A} (o : option A) : R A := fun w => a ← o; Some (a, w).

Definition raise_flag (flag : Z) : R unit :=
  inform (fun i => set_packet_type_flags (Z.lor (packet_type_flags i) flag) i).

Definition skip_packet : R unit :=
  modify (fun r => set_num_skipped_packets (u64 (num_skipped_packets_ r + 1)) r).

(** Parse a block into a new object and go on with it, or count it as skipped. *)
Definition parsed {T} (result : option (bool * T)) (k : T -> R unit) : R unit :=
  '(ok, x) ← lift result;
  if (ok : bool) then k x else skip_packet.

Fixpoint each {A} (l : list A) (f : A -> R unit) : R unit :=
  match l with [] => mret tt | x :: r => f x ;; each r f end.

Section Receiver.
Context (config : Configuration) (ntp_offset_ms : Z) (millis micros utc_micros : nat -> Z).
Context (c_sort : list TmmbItem.t -> list TmmbItem.t).

Definition reading (clock : nat -> Z) : R Z := fun w =>
  Some (clock (reads w), World (this w) (information w) (S (reads w)) (calls w)).
Definition TimeInMilliseconds : R Z := reading millis.
Definition TimeInMicroseconds : R Z := reading micros.
Definition TimeUTCMicros : R Z := reading utc_micros.

Definition NowNtp : R NtpTime.t := us ← TimeInMicroseconds; lift (TimeMicrosToNtp ntp_offset_ms us).

Definition registered (ssrc : Z) : bool := bool_decide (ssrc ∈ registered_ssrcs_ config).

(** ** Handlers *)

Definition FindOrCreateTmmbrInfo (remote_ssrc : Z) : R TmmbrInformation :=
  infos ← member tmmbr_infos_;
  now ← TimeInMilliseconds;
  let old := default no_tmmbr_info (zlookup infos remote_ssrc) in
  let info := MkTmmbrInfo now (ready_for_delete old) (tmmbn old) (tmmbr old) in
  modify (set_tmmbr_infos (zinsert infos remote_ssrc info)) ;; mret info.

Definition UpdateTmmbrRemoteIsAlive (remote_ssrc : Z) : R unit :=
  infos ← member tmmbr_infos_;
  match zlookup infos remote_ssrc with
  | Some old =>
      now ← TimeInMilliseconds;
      modify (set_tmmbr_infos (zinsert infos remote_ssrc
        (MkTmmbrInfo now (ready_for_delete old) (tmmbn old) (tmmbr old))))
  | None => mret tt
  end.

Definition GetTmmbrInformation (remote_ssrc : Z) : R (option TmmbrInformation) :=
  infos ← member tmmbr_infos_; mret (zlookup infos remote_ssrc).

Definition HandleReportBlock (report_block : ReportBlock.t) (remote_ssrc : Z) : R unit :=
  let source := ReportBlock.source_ssrc report_block in
  if negb (registered source) then mret tt else
  now ← TimeInMilliseconds;
  modify (set_last_received_rb_ms now) ;;
  blocks ← member received_report_blocks_;
  let of_source := default [] (zlookup blocks source) in
  let data := default ReportBlockData.init (zlookup of_source remote_ssrc) in
  (if extended_highest_sequence_number (ReportBlockData.report_block data)
        <? ReportBlock.extended_high_seq_num report_block then
     now ← TimeInMilliseconds; modify (set_last_increased_sequence_number_ms now)
   else mret tt) ;;
  let rtcp_report_block :=
    MkReport remote_ssrc source (ReportBlock.fraction_lost report_block)
      (ReportBlock.cumulative_lost_ report_block) (ReportBlock.extended_high_seq_num report_block)
      (ReportBlock.jitter report_block) (ReportBlock.last_sr report_block)
      (ReportBlock.delay_since_last_sr report_block) in
  utc ← TimeUTCMicros;
  let data := ReportBlockData.SetReportBlock data rtcp_report_block utc in
  let send_time_ntp := ReportBlock.last_sr report_block in
  data ← (if negb (send_time_ntp =? 0) then
            ntp ← NowNtp;
            let rtt_ntp := u32 (CompactNtp ntp - ReportBlock.delay_since_last_sr report_block - send_time_ntp) in
            rtt ← lift (CompactNtpRttToMs rtt_ntp);
            inform (set_rtt_ms rtt) ;;
            mret (ReportBlockData.AddRoundTripTimeSample data rtt)
          else mret data);
  modify (set_received_report_blocks (zinsert blocks source (zinsert of_source remote_ssrc data))) ;;
  inform (fun i => set_report_blocks (report_blocks i ++ [ReportBlockData.report_block data]) i) ;;
  inform (fun i => set_report_block_datas (report_block_datas i ++ [data]) i).

Definition HandleSenderReport (rtcp_block : CommonHeader.t) : R unit :=
  parsed (SenderReport.Parse SenderReport.init rtcp_block) (fun sender_report =>
    let remote_ssrc := SenderReport.sender_ssrc sender_report in
    inform (set_info_remote_ssrc remote_ssrc) ;;
    UpdateTmmbrRemoteIsAlive remote_ssrc ;;
    mine ← member remote_ssrc_;
    (if mine =? remote_ssrc then
       raise_flag kRtcpSr ;;
       modify (set_remote_sender_ntp_time (SenderReport.ntp sender_report)) ;;
       modify (set_remote_sender_rtp_time (SenderReport.rtp_timestamp sender_report)) ;;
       ntp ← NowNtp; modify (set_last_received_sr_ntp ntp)
     else raise_flag kRtcpRr) ;;
    each (SenderReport.report_blocks sender_report) (fun b => HandleReportBlock b remote_ssrc)).

Definition HandleReceiverReport (rtcp_block : CommonHeader.t) : R unit :=
  parsed (ReceiverReport.Parse ReceiverReport.init rtcp_block) (fun receiver_report =>
    let remote_ssrc := ReceiverReport.sender_ssrc receiver_report in
    inform (set_info_remote_ssrc remote_ssrc) ;;
    UpdateTmmbrRemoteIsAlive remote_ssrc ;;
    raise_flag kRtcpRr ;;
    each (ReceiverReport.report_blocks receiver_report) (fun b => HandleReportBlock b remote_ssrc)).

Definition HandleSdes (rtcp_block : CommonHeader.t) : R unit :=
  parsed (Sdes.Parse Sdes.init rtcp_block) (fun sdes =>
    each (Sdes.chunks sdes) (fun chunk =>
      modify (fun r => set_received_cnames (zinsert (received_cnames_ r) (Sdes.ssrc chunk) (Sdes.cname chunk)) r) ;;
      callback ← member cname_callback_;
      if (callback : bool) then call (OnCname (Sdes.ssrc chunk) (Sdes.cname chunk)) else mret tt) ;;
    raise_flag kRtcpSdes).

Definition HandleNack (rtcp_block : CommonHeader.t) : R unit :=
  parsed (Nack.Parse Nack.init rtcp_block) (fun nack =>
    if receiver_only_ config || negb (main_ssrc_ config =? Rtpfb.media_ssrc (Nack.fb nack)) then mret tt else
    inform (fun i => set_nack_sequence_numbers (nack_sequence_numbers i ++ Nack.packet_ids nack) i) ;;
    each (Nack.packet_ids nack) (fun id =>
      modify (fun r => set_nack_stats (RtcpNackStats.ReportRequest (nack_stats_ r) id) r)) ;;
    if bool_decide (Nack.packet_ids nack = []) then mret tt else
    raise_flag kRtcpNack ;;
    modify (fun r =>
      let c := packet_type_counter_ r in
      set_packet_type_counter
        (Counter (first_packet_time_ms c) (u32 (nack_packets c + 1)) (fir_packets c) (pli_packets c)
           (RtcpNackStats.requests_ (nack_stats_ r)) (RtcpNackStats.unique_requests_ (nack_stats_ r))) r)).

Definition HandleApp (rtcp_block : CommonHeader.t) : R unit :=
  '(ok, app) ← lift (App.Parse App.init rtcp_block);
  if (ok : bool) && (App.name app =? RemoteEstimate.kName) && (App.sub_type app =? RemoteEstimate.kSubType) then
    '(ok', estimate) ← lift (RemoteEstimate.ParseData app);
    if (ok' : bool) then inform (set_network_state_estimate (Some estimate)) else skip_packet
  else skip_packet.

(** Erase a node of [received_rrtrs_] through an iterator. *)
Definition erase_node (node : nat) (l : list (nat * RrtrInformation)) : option (list (nat * RrtrInformation)) :=
  check (existsb (fun x => (x.1 =? node)%nat) l) ;;
  Some (List.filter (fun x => negb (x.1 =? node)%nat) l).

Definition HandleBye (rtcp_block : CommonHeader.t) : R unit :=
  parsed (Bye.Parse Bye.init rtcp_block) (fun bye =>
    let ssrc := Bye.sender_ssrc bye in
    modify (fun r => set_received_report_blocks
      ((fun x => (x.1, zerase x.2 ssrc)) <$> received_report_blocks_ r) r) ;;
    infos ← member tmmbr_infos_;
    match zlookup infos ssrc with
    | Some i => modify (set_tmmbr_infos (zinsert infos ssrc
                  (MkTmmbrInfo (last_time_received_ms i) true (tmmbn i) (tmmbr i))))
    | None => mret tt
    end ;;
    modify (fun r => set_last_fir (zerase (last_fir_ r) ssrc) r) ;;
    modify (fun r => set_received_cnames (zerase (received_cnames_ r) ssrc) r) ;;
    its ← member received_rrtrs_ssrc_it_;
    match zlookup its ssrc with
    | Some node =>
        rrtrs ← member received_rrtrs_;
        rrtrs' ← lift (erase_node node rrtrs);
        modify (set_received_rrtrs rrtrs') ;;
        modify (set_received_rrtrs_ssrc_it (zerase its ssrc))
    | None => mret tt
    end ;;
    modify (set_xr_rr_rtt_ms 0)).

(** Assign the times of the node an iterator points to. *)
Definition update_node (node : nat) (remote_time local_time : Z) (l : list (nat * RrtrInformation))
    : option (list (nat * RrtrInformation)) :=
  check (existsb (fun x => (x.1 =? node)%nat) l) ;;
  Some ((fun x => if (x.1 =? node)%nat then (x.1, MkRrtrInfo (rrtr_ssrc x.2) remote_time local_time) else x) <$> l).

Definition HandleXrReceiveReferenceTime (sender_ssrc : Z) (rrtr : Rrtr.t) : R unit :=
  let remote_time := CompactNtp (Rrtr.ntp rrtr) in
  ntp ← NowNtp;
  let local_time := CompactNtp ntp in
  its ← member received_rrtrs_ssrc_it_;
  rrtrs ← member received_rrtrs_;
  match zlookup its sender_ssrc with
  | Some node =>
      rrtrs' ← lift (update_node node remote_time local_time rrtrs);
      modify (set_received_rrtrs rrtrs')
  | None =>
      if len rrtrs <? kMaxNumberOfStoredRrtrs then
        node ← member next_node;
        modify (set_next_node (S node)) ;;
        modify (set_received_rrtrs (rrtrs ++ [(node, MkRrtrInfo sender_ssrc remote_time local_time)])) ;;
        modify (set_received_rrtrs_ssrc_it (zinsert its sender_ssrc node))
      else mret tt
  end.

Definition HandleXrDlrrReportBlock (rti : Dlrr.ReceiveTimeInfo) : R unit :=
  if negb (registered (Dlrr.ssrc rti)) then mret tt else
  status ← member xr_rrtr_status_;
  if negb status then mret tt else
  let send_time_ntp := Dlrr.last_rr rti in
  if send_time_ntp =? 0 then mret tt else
  ntp ← NowNtp;
  rtt ← lift (CompactNtpRttToMs (u32 (CompactNtp ntp - Dlrr.delay_since_last_rr rti - send_time_ntp)));
  modify (set_xr_rr_rtt_ms rtt).

(** The loop of [HandleXrTargetBitrate]. *)
Fixpoint allocate (items : list TargetBitrate.BitrateItem) (a : VideoBitrateAllocation.t)
    : option VideoBitrateAllocation.t :=
  match items with
  | [] => Some a
  | item :: rest =>
      if (VideoBitrateAllocation.kMaxSpatialLayers <=? TargetBitrate.spatial_layer item)
         || (VideoBitrateAllocation.kMaxTemporalStreams <=? TargetBitrate.temporal_layer item)
      then allocate rest a
      else
        '(_, a') ← VideoBitrateAllocation.SetBitrate a (TargetBitrate.spatial_layer item)
                     (TargetBitrate.temporal_layer item) (u32 (TargetBitrate.target_bitrate_kbps item * 1000));
        allocate rest a'
  end.

Definition HandleXrTargetBitrate (ssrc : Z) (target_bitrate : TargetBitrate.t) : R unit :=
  remote ← member remote_ssrc_;
  if negb (ssrc =? remote) then mret tt else
  a ← lift (allocate (TargetBitrate.bitrates target_bitrate) VideoBitrateAllocation.init);
  inform (set_target_bitrate_allocation (Some a)).

Definition HandleXr (rtcp_block : CommonHeader.t) : R unit :=
  parsed (ExtendedReports.Parse ExtendedReports.init rtcp_block) (fun xr =>
    match ExtendedReports.rrtr_block xr with
    | Some rrtr => HandleXrReceiveReferenceTime (ExtendedReports.sender_ssrc xr) rrtr
    | None => mret tt
    end ;;
    each (Dlrr.sub_blocks (ExtendedReports.dlrr_block xr)) HandleXrDlrrReportBlock ;;
    match ExtendedReports.target_bitrate xr with
    | Some b => HandleXrTargetBitrate (ExtendedReports.sender_ssrc xr) b
    | None => mret tt
    end).

Definition HandlePli (rtcp_block : CommonHeader.t) : R unit :=
  parsed (Pli.Parse Pli.init rtcp_block) (fun pli =>
    if main_ssrc_ config =? Psfb.media_ssrc (Pli.fb pli) then
      modify (fun r =>
        let c := packet_type_counter_ r in
        set_packet_type_counter
          (Counter (first_packet_time_ms c) (nack_packets c) (fir_packets c) (u32 (pli_packets c + 1))
             (nack_requests c) (unique_nack_requests c)) r) ;;
      raise_flag kRtcpPli
    else mret tt).

(** The loop of [HandleTmmbr], which stops at the first request for this sender. *)
Fixpoint first_request (requests : list TmmbItem.t) : option TmmbItem.t :=
  match requests with
  | [] => None
  | r :: rest =>
      if negb (main_ssrc_ config =? TmmbItem.ssrc r) || (TmmbItem.bitrate_bps r =? 0)
      then first_request rest else Some r
  end.

Definition HandleTmmbr (rtcp_block : CommonHeader.t) : R unit :=
  parsed (Tmmbr.Parse Tmmbr.init rtcp_block) (fun x =>
    let from_ssrc := Rtpfb.sender_ssrc (Tmmbr.fb x) in
    let sender_ssrc := if negb (Rtpfb.media_ssrc (Tmmbr.fb x) =? 0) then Rtpfb.media_ssrc (Tmmbr.fb x)
                       else from_ssrc in
    match first_request (Tmmbr.items x) with
    | None => mret tt
    | Some request =>
        info ← FindOrCreateTmmbrInfo from_ssrc;
        item ← lift (TmmbItem.make sender_ssrc (TmmbItem.bitrate_bps request) (TmmbItem.packet_overhead request));
        now ← TimeInMilliseconds;
        modify (fun r => set_tmmbr_infos (zinsert (tmmbr_infos_ r) from_ssrc
          (MkTmmbrInfo (last_time_received_ms info) (ready_for_delete info) (tmmbn info)
             (zinsert (tmmbr info) sender_ssrc (Timed item now)))) r) ;;
        raise_flag kRtcpTmmbr
    end).

Definition HandleTmmbn (rtcp_block : CommonHeader.t) : R unit :=
  parsed (Tmmbn.Parse Tmmbn.init rtcp_block) (fun x =>
    let from_ssrc := Rtpfb.sender_ssrc (Tmmbn.fb x) in
    info ← FindOrCreateTmmbrInfo from_ssrc;
    raise_flag kRtcpTmmbn ;;
    modify (fun r => set_tmmbr_infos (zinsert (tmmbr_infos_ r) from_ssrc
      (MkTmmbrInfo (last_time_received_ms info) (ready_for_delete info) (Tmmbn.items x) (tmmbr info))) r)).

Definition HandleSrReq (rtcp_block : CommonHeader.t) : R unit :=
  parsed (RapidResyncRequest.Parse RapidResyncRequest.init rtcp_block) (fun _ => raise_flag kRtcpSrReq).

Definition HandlePsfbApp (rtcp_block : CommonHeader.t) : R unit :=
  '(ok, remb) ← lift (Remb.Parse Remb.init rtcp_block);
  if (ok : bool) then
    raise_flag kRtcpRemb ;; inform (set_receiver_estimated_max_bitrate_bps (u32 (Remb.bitrate_bps remb)))
  else
    parsed (LossNotification.Parse LossNotification.init rtcp_block) (fun x =>
      raise_flag kRtcpLossNotification ;; inform (set_loss_notification (Some x))).

(** One round of the loop of [HandleFir]. *)
Definition handle_fir_request (sender_ssrc : Z) (request : Fir.Request) : R unit :=
  if negb (main_ssrc_ config =? Fir.ssrc request) then mret tt else
  modify (fun r =>
    let c := packet_type_counter_ r in
    set_packet_type_counter
      (Counter (first_packet_time_ms c) (nack_packets c) (u32 (fir_packets c + 1)) (pli_packets c)
         (nack_requests c) (unique_nack_requests c)) r) ;;
  now ← TimeInMilliseconds;
  fir ← member last_fir_;
  let accept := modify (set_last_fir (zinsert fir sender_ssrc (MkFirStatus now (Fir.seq_nr request)))) ;;
                raise_flag kRtcpFir in
  match zlookup fir sender_ssrc with
  | None => accept
  | Some last =>
      if Fir.seq_nr request =? sequence_number last then mret tt else
      if now - request_ms last <? kRtcpMinFrameLengthMs then mret tt else accept
  end.

Definition HandleFir (rtcp_block : CommonHeader.t) : R unit :=
  parsed (Fir.Parse Fir.init rtcp_block) (fun fir =>
    each (Fir.items fir) (handle_fir_request (Psfb.sender_ssrc (Fir.fb fir)))).

Definition HandleTransportFeedback (rtcp_block : CommonHeader.t) : R unit :=
  parsed (TransportFeedback.Parse (TransportFeedback.init true false) rtcp_block) (fun x =>
    raise_flag kRtcpTransportFeedback ;; inform (set_transport_feedback (Some x))).

(** ** The dispatcher *)

Definition dispatch (h : CommonHeader.t) : R unit :=
  let type := CommonHeader.type h in
  let fmt := CommonHeader.fmt h in
  if type =? SenderReport.kPacketType then HandleSenderReport h
  else if type =? ReceiverReport.kPacketType then HandleReceiverReport h
  else if type =? Sdes.kPacketType then HandleSdes h
  else if type =? ExtendedReports.kPacketType then HandleXr h
  else if type =? Bye.kPacketType then HandleBye h
  else if type =? App.kPacketType then HandleApp h
  else if type =? Rtpfb.kPacketType then
    if fmt =? Nack.kFeedbackMessageType then HandleNack h
    else if fmt =? Tmmbr.kFeedbackMessageType then HandleTmmbr h
    else if fmt =? Tmmbn.kFeedbackMessageType then HandleTmmbn h
    else if fmt =? RapidResyncRequest.kFeedbackMessageType then HandleSrReq h
    else if fmt =? TransportFeedback.kFeedbackMessageType then HandleTransportFeedback h
    else skip_packet
  else if type =? Psfb.kPacketType then
    if fmt =? Pli.kFeedbackMessageType then HandlePli h
    else if fmt =? Fir.kFeedbackMessageType then HandleFir h
    else if fmt =? Psfb.kAfbMessageType then HandlePsfbApp h
    else skip_packet
  else skip_packet.

(** The packet type counter gets the time of the first packet. *)
Definition note_first_packet : R unit :=
  c ← member packet_type_counter_;
  if first_packet_time_ms c =? -1 then
    now ← TimeInMilliseconds;
    modify (set_packet_type_counter
      (Counter now (nack_packets c) (fir_packets c) (pli_packets c) (nack_requests c) (unique_nack_requests c)))
  else mret tt.

(** The loop over the blocks; [first] at [packet_begin].  [false] when the first header is invalid. *)
Fixpoint parse_blocks (fuel : nat) (rtcp_block : CommonHeader.t) (next_block : list Z) (first : bool) : R bool :=
  match next_block with
  | [] => mret true
  | _ =>
      match fuel with
      | O => abort
      | S fuel' =>
          '(ok, h) ← lift (CommonHeader.Parse rtcp_block next_block (len next_block));
          if negb ok then
            if first then mret false else skip_packet ;; mret true
          else
            note_first_packet ;; dispatch h ;;
            parse_blocks fuel' h (CommonHeader.NextPacket h) false
      end
  end.

Definition ParseCompoundPacket (packet : list Z) : R bool :=
  ok ← parse_blocks (length packet) CommonHeader.init packet true;
  if negb ok then mret false else
  counter ← member packet_type_counter_;
  (if packet_type_counter_observer_ config then call (RtcpPacketTypesCounterUpdated (main_ssrc_ config) counter)
   else mret tt) ;;
  now ← TimeInMilliseconds;
  last ← member last_skipped_packets_warning_ms_;
  skipped ← member num_skipped_packets_;
  (if (kMaxWarningLogIntervalMs <=? now - last) && (0 <? skipped)
   then modify (set_last_skipped_packets_warning_ms now) else mret tt) ;;
  mret true.

(** ** Temporary bandwidth limits *)

(** Requests that have not timed out are candidates, the others are erased. *)
Definition TmmbrReceived : R (list TmmbItem.t) :=
  now ← TimeInMilliseconds;
  infos ← member tmmbr_infos_;
  let timeout_ms := now - kTmmbrTimeoutIntervalMs in
  let keep (i : TmmbrInformation) := List.filter (fun x => negb (last_updated_ms x.2 <? timeout_ms)) (tmmbr i) in
  modify (set_tmmbr_infos
    ((fun x => (x.1, MkTmmbrInfo (last_time_received_ms x.2) (ready_for_delete x.2) (tmmbn x.2) (keep x.2))) <$> infos)) ;;
  mret (mjoin ((fun x => (fun y => tmmbr_item y.2) <$> keep x.2) <$> infos)).

Definition NotifyTmmbrUpdated : R unit :=
  candidates ← TmmbrReceived;
  bounding ← lift (TMMBRHelp.FindBoundingSet c_sort candidates);
  (if negb (bool_decide (bounding = [])) && rtcp_bandwidth_observer_ config then
     bitrate ← lift (TMMBRHelp.CalcMinBitrateBps bounding);
     if bitrate <=? 2 ^ 32 - 1 then call (OnReceivedEstimatedBitrate bitrate) else mret tt
   else mret tt) ;;
  call (SetTmmbn bounding).

(** One element of the loop of [UpdateTmmbrTimers]: the element that stays, the oldest time, and
    whether a limit timed out. *)
Definition update_timer (timeout_ms : Z) (i : TmmbrInformation) (oldest : Z)
    : option TmmbrInformation * Z * bool :=
  if 0 <? last_time_received_ms i then
    if last_time_received_ms i <? timeout_ms then
      (Some (MkTmmbrInfo 0 (ready_for_delete i) (tmmbn i) []), oldest, true)
    else if (oldest =? -1) || (last_time_received_ms i <? oldest) then
      (Some i, last_time_received_ms i, false)
    else (Some i, oldest, false)
  else if ready_for_delete i then (None, oldest, false)
  else (Some i, oldest, false).

Fixpoint update_timers (timeout_ms : Z) (infos : zmap TmmbrInformation) (oldest : Z)
    : zmap TmmbrInformation * Z * bool :=
  match infos with
  | [] => ([], oldest, false)
  | (k, i) :: rest =>
      let '(i', oldest', b) := update_timer timeout_ms i oldest in
      let '(rest', oldest'', b') := update_timers timeout_ms rest oldest' in
      (match i' with Some i' => (k, i') :: rest' | None => rest' end, oldest'', b || b')
  end.

Definition UpdateTmmbrTimers : R bool :=
  now ← TimeInMilliseconds;
  let timeout_ms := now - kTmmbrTimeoutIntervalMs in
  oldest ← member oldest_tmmbr_info_ms_;
  if timeout_ms <=? oldest then mret false else
  infos ← member tmmbr_infos_;
  let '(infos', oldest', b) := update_timers timeout_ms infos (-1) in
  modify (set_oldest_tmmbr_info_ms oldest') ;; modify (set_tmmbr_infos infos') ;; mret b.

Definition BoundingSet : R (option (bool * list TmmbItem.t)) :=
  remote ← member remote_ssrc_;
  info ← GetTmmbrInformation remote;
  mret (i ← info; Some (TMMBRHelp.IsOwner (tmmbn i) (main_ssrc_ config), tmmbn i)).

(** ** Callbacks *)

Definition has (flags flag : Z) : bool := negb (Z.land flags flag =? 0).

Definition when (b : bool) (m : R unit) : R unit := if b then m else mret tt.

Definition trigger_intra_frame (flags : Z) : R unit :=
  when (rtcp_intra_frame_observer_ config)
    (dcheck (negb (receiver_only_ config)) ;;
     when (has flags kRtcpPli || has flags kRtcpFir) (call (OnReceivedIntraFrameRequest (main_ssrc_ config)))).

Definition trigger_loss_notification (i : PacketInformation) : R unit :=
  when (rtcp_loss_notification_observer_ config && has (packet_type_flags i) kRtcpLossNotification)
    (x ← lift (loss_notification i);
     when (Psfb.media_ssrc (LossNotification.fb x) =? main_ssrc_ config)
       (call (OnReceivedLossNotification (Psfb.media_ssrc (LossNotification.fb x))
          (LossNotification.last_decoded x) (LossNotification.last_received x)
          (LossNotification.decodability_flag x)))).

Definition trigger_bandwidth (i : PacketInformation) : R unit :=
  let flags := packet_type_flags i in
  when (rtcp_bandwidth_observer_ config)
    (dcheck (negb (receiver_only_ config)) ;;
     when (has flags kRtcpRemb) (call (OnReceivedEstimatedBitrate (receiver_estimated_max_bitrate_bps i))) ;;
     when (has flags kRtcpSr || has flags kRtcpRr)
       (now ← TimeInMilliseconds; call (OnReceivedRtcpReceiverReport (report_blocks i) (rtt_ms i) now))).

Definition trigger_transport_feedback (i : PacketInformation) : R unit :=
  when (transport_feedback_observer_ config && has (packet_type_flags i) kRtcpTransportFeedback)
    (x ← lift (transport_feedback i);
     let media := Rtpfb.media_ssrc (TransportFeedback.fb x) in
     when ((media =? main_ssrc_ config) || registered media) (call (OnTransportFeedback x))).

Definition trigger_statistics (i : PacketInformation) : R unit :=
  when (negb (receiver_only_ config))
    (stats ← member stats_callback_;
     when stats (each (report_blocks i) (fun b =>
       call (StatisticsUpdated (packets_lost b) (extended_highest_sequence_number b) (fraction_lost b)
               (jitter b) (source_ssrc b)))) ;;
     observer ← member report_block_data_observer_;
     when observer (each (report_block_datas i) (fun d => call (OnReportBlockDataUpdated d)))).

Definition TriggerCallbacksFromRtcpPacket (i : PacketInformation) : R unit :=
  let flags := packet_type_flags i in
  when (has flags kRtcpTmmbr) NotifyTmmbrUpdated ;;
  when (negb (receiver_only_ config) && has flags kRtcpSrReq) (call OnRequestSendReport) ;;
  when (negb (receiver_only_ config) && has flags kRtcpNack && negb (bool_decide (nack_sequence_numbers i = [])))
    (call (OnReceivedNack (nack_sequence_numbers i))) ;;
  trigger_intra_frame flags ;;
  trigger_loss_notification i ;;
  trigger_bandwidth i ;;
  when (has flags kRtcpSr || has flags kRtcpRr) (call (OnReceivedRtcpReportBlocks (report_blocks i))) ;;
  trigger_transport_feedback i ;;
  match network_state_estimate i with
  | Some e => when (network_state_estimate_observer_ config) (call (OnRemoteNetworkEstimate e))
  | None => mret tt
  end ;;
  match target_bitrate_allocation i with
  | Some a => when (bitrate_allocation_observer_ config) (call (OnBitrateAllocationUpdated a))
  | None => mret tt
  end ;;
  trigger_statistics i.

Definition current_information : R PacketInformation := fun w => Some (information w, w).

Definition IncomingPacket (packet : list Z) : R unit :=
  if len packet =? 0 then mret tt else
  inform (fun _ => no_information) ;;
  ok ← ParseCompoundPacket packet;
  if negb ok then mret tt else
  i ← current_information; TriggerCallbacksFromRtcpPacket i.

(** ** The other operations *)

Definition SetRemoteSSRC (ssrc : Z) : R unit :=
  modify (set_last_received_sr_ntp (NtpTime.Ntp 0)) ;; modify (set_remote_ssrc ssrc).

Definition LastReceivedReportBlockMs : R Z := member last_received_rb_ms_.
Definition RemoteSSRC : R Z := member remote_ssrc_.
Definition GetRtcpStatisticsCallback : R bool := member stats_callback_.

(** [-1] is [None]; otherwise the last, average, least and greatest round trip time. *)
Definition RTT (remote_ssrc : Z) : R (option (Z * Z * Z * Z)) :=
  blocks ← member received_report_blocks_;
  mret (of_source ← zlookup blocks (main_ssrc_ config);
        d ← zlookup of_source remote_ssrc;
        if ReportBlockData.num_rtts d =? 0 then None else
        Some (ReportBlockData.last_rtt_ms d, ReportBlockData.sum_rtt_ms d / ReportBlockData.num_rtts d,
              ReportBlockData.min_rtt_ms d, ReportBlockData.max_rtt_ms d)).

Definition SetRtcpXrRrtrStatus (enable : bool) : R unit := modify (set_xr_rrtr_status enable).

Definition GetAndResetXrRrRtt : R (option Z) :=
  rtt ← member xr_rr_rtt_ms_;
  if rtt =? 0 then mret None else modify (set_xr_rr_rtt_ms 0) ;; mret (Some rtt).

Definition NTP : R (option (Z * Z * Z * Z * Z)) :=
  last ← member last_received_sr_ntp_;
  ntp ← member remote_sender_ntp_time_;
  rtp ← member remote_sender_rtp_time_;
  mret (if NtpTime.value last =? 0 then None else
        Some (NtpTime.seconds ntp, NtpTime.fractions ntp, NtpTime.seconds last, NtpTime.fractions last, rtp)).

(** The loop of [ConsumeReceivedXrReferenceTimeInfo]; [n] items are taken from the front. *)
Fixpoint consume_rrtrs (n : nat) (now_ntp : Z) (rrtrs : list (nat * RrtrInformation)) (its : zmap nat)
    : option (list Dlrr.ReceiveTimeInfo * list (nat * RrtrInformation) * zmap nat) :=
  match n with
  | O => Some ([], rrtrs, its)
  | S n' =>
      match rrtrs with
      | [] => None
      | (_, i) :: rest =>
          '(l, rrtrs', its') ← consume_rrtrs n' now_ntp rest (zerase its (rrtr_ssrc i));
          Some (Dlrr.MkInfo (rrtr_ssrc i) (received_remote_mid_ntp_time i)
                  (u32 (now_ntp - local_receive_mid_ntp_time i)) :: l, rrtrs', its')
      end
  end.

Definition ConsumeReceivedXrReferenceTimeInfo : R (list Dlrr.ReceiveTimeInfo) :=
  rrtrs ← member received_rrtrs_;
  its ← member received_rrtrs_ssrc_it_;
  ntp ← NowNtp;
  '(l, rrtrs', its') ←
    lift (consume_rrtrs (Z.to_nat (Z.min (len rrtrs) ExtendedReports.kMaxNumberOfDlrrItems)) (CompactNtp ntp) rrtrs its);
  modify (set_received_rrtrs rrtrs') ;; modify (set_received_rrtrs_ssrc_it its') ;; mret l.

Definition GetLatestReportBlockData : R (list ReportBlockData.t) :=
  blocks ← member received_report_blocks_; mret (mjoin ((fun x => snd <$> x.2) <$> blocks)).

Definition StatisticsReceived : R (list RTCPReportBlock) :=
  l ← GetLatestReportBlockData; mret (ReportBlockData.report_block <$> l).

Definition RtcpRrTimeout : R bool :=
  last ← member last_received_rb_ms_;
  if last =? 0 then mret false else
  now ← TimeInMilliseconds;
  if last + kRrTimeoutIntervals * report_interval_ms_ config <? now
  then modify (set_last_received_rb_ms 0) ;; mret true else mret false.

Definition RtcpRrSequenceNumberTimeout : R bool :=
  last ← member last_increased_sequence_number_ms_;
  if last =? 0 then mret false else
  now ← TimeInMilliseconds;
  if last + kRrTimeoutIntervals * report_interval_ms_ config <? now
  then modify (set_last_increased_sequence_number_ms 0) ;; mret true else mret false.

(** The copy into a buffer of [RTCP_CNAME_SIZE] bytes, without the final zero. *)
Definition CNAME (remote_ssrc : Z) : R (option (list Z)) :=
  cnames ← member received_cnames_;
  mret (take (Z.to_nat (RTCP_CNAME_SIZE - 1)) <$> zlookup cnames remote_ssrc).

Definition RegisterRtcpStatisticsCallback (b : bool) : R unit := modify (set_stats_callback b).
Definition RegisterRtcpCnameCallback (b : bool) : R unit := modify (set_cname_callback b).
Definition SetReportBlockDataObserver (b : bool) : R unit := modify (set_report_block_data_observer b).

(** The constructor; [now] is its reading of the clock. *)
Definition construct (now : Z) : t :=
  Make 0 (NtpTime.Ntp 0) 0 (NtpTime.Ntp 0) [] [] 0 false 0 0 [] [] [] [] 0 0 false false false
    (Counter (-1) 0 0 0 0 0) RtcpNackStats.init 0 now.

End Receiver.
End RTCPReceiver.
