(* ===== verification/RtcpReceive.v ===== *)
(** * The RTCP receiver on arbitrary input

    An invariant of the receiver and a logic of total correctness for its computations: [wp m Q w] says
    that [m] returns from [w], fails no check on the way and ends in [Q]. *)

From S2P Require Import Prelude ByteIo Rtcp Wire Reports SourceDesc Feedback Nack Bitrate ExtendedReports.
From S2P Require Import FeedbackChunk TransportFeedback FeedbackWire SeqNum OrderedSet TimeUtil TmmbrHelp TmmbrBounding RtcpReceiver.

(** ** Total correctness *)

Section Logic.
Context {S : Type}.
Implicit Types w : S.

Definition wp {A} (m : ST S A) (Q : A -> S -> Prop) w : Prop := exists a w', m w = Some (a, w') /\ Q a w'.

Lemma wp_ret {A} (a : A) Q w : Q a w -> wp (mret a) Q w.
Proof. intros H. by exists a, w. Qed.

Lemma wp_bind {A B} (m : ST S A) (k : A -> ST S B) Q w : wp m (fun a => wp (k a) Q) w -> wp (m ≫= k) Q w.
Proof. intros (a & w' & E & b & w'' & E' & H). exists b, w''. split; [|done]. by rewrite (ST_bind_ret _ _ _ _ _ E). Qed.

Lemma wp_mono {A} (m : ST S A) (P Q : A -> S -> Prop) w : wp m P w -> (forall a w', P a w' -> Q a w') -> wp m Q w.
Proof. intros (a & w' & E & H) HPQ. exists a, w'. split; [done|]. by apply HPQ. Qed.

Lemma wp_dcheck b Q w : b = true -> Q tt w -> wp (dcheck b) Q w.
Proof. intros -> H. by apply wp_ret. Qed.

(** A computation that keeps an invariant, and the invariant only. *)
Definition keeps {A} (I : S -> Prop) (m : ST S A) : Prop := forall w, I w -> wp m (fun _ => I) w.

Lemma keeps_ret {A} I (a : A) : keeps I (mret a).
Proof. intros w H. by apply wp_ret. Qed.

Lemma keeps_bind {A B} I (m : ST S A) (k : A -> ST S B) : keeps I m -> (forall a, keeps I (k a)) -> keeps I (m ≫= k).
Proof. intros Hm Hk w H. apply wp_bind. eapply wp_mono; [by apply Hm|]. intros a w' H'. by apply Hk. Qed.

End Logic.

Section Receiving.
Import RTCPReceiver.

Lemma wp_lift {A} (o : option A) Q w : (exists a, o = Some a /\ Q a w) -> wp (lift o) Q w.
Proof. intros (a & E & H). exists a, w. split; [|done]. unfold lift. by rewrite E. Qed.

Lemma wp_member {A} (f : t -> A) Q w : Q (f (this w)) w -> wp (member f) Q w.
Proof. intros H. by eexists _, _. Qed.

Lemma wp_modify f Q w : Q tt (World (f (this w)) (information w) (reads w) (calls w)) -> wp (modify f) Q w.
Proof. intros H. by eexists _, _. Qed.

Lemma wp_inform f Q w : Q tt (World (this w) (f (information w)) (reads w) (calls w)) -> wp (inform f) Q w.
Proof. intros H. by eexists _, _. Qed.

Lemma wp_call e Q w : Q tt (World (this w) (information w) (reads w) (calls w ++ [e])) -> wp (call e) Q w.
Proof. intros H. by eexists _, _. Qed.

Lemma wp_each {A} I (l : list A) (f : A -> R unit) :
  (forall x, x ∈ l -> keeps I (f x)) -> keeps I (each l f).
Proof.
  induction l as [|x l IH]; intros H; cbn [each]; [apply keeps_ret|].
  apply keeps_bind; [apply H; constructor|]. intros _. apply IH. intros y Hy. apply H. by constructor.
Qed.

Lemma keeps_when I b m : keeps I m -> keeps I (when b m).
Proof. intros H. destruct b; [done|apply keeps_ret]. Qed.

(** ** Maps *)

Lemma elem_of_zinsert {V} (m : zmap V) k v x : x ∈ zinsert m k v <-> x = (k, v) \/ (x ∈ m /\ x.1 <> k).
Proof.
  unfold zinsert. rewrite elem_of_app, elem_of_cons, elem_of_below, elem_of_above. split; [intuition lia|].
  intros [->|[Hx Hne]]; [by right; left|]. destruct (Z.lt_total x.1 k) as [|[|]]; [by left|done|by right; right].
Qed.

Lemma elem_of_zerase {V} (m : zmap V) k x : x ∈ zerase m k <-> x ∈ m /\ x.1 <> k.
Proof.
  unfold zerase. rewrite elem_of_app, elem_of_below, elem_of_above. split; [intuition lia|].
  intros [Hx Hne]. destruct (Z.lt_total x.1 k) as [|[|]]; [by left|done|by right].
Qed.

Lemma elem_zlookup {V} (m : zmap V) k v : zlookup m k = Some v -> (k, v) ∈ m.
Proof. apply value_of_Some. Qed.

(** A map in order whose elements all satisfy [P]. *)
Definition map_ok {V} (P : Z -> V -> Prop) (m : zmap V) : Prop := increasing m /\ forall x, x ∈ m -> P x.1 x.2.

Lemma map_ok_nil {V} (P : Z -> V -> Prop) : map_ok P [].
Proof. split; [apply increasing_nil|]. by intros x Hx%elem_of_nil. Qed.

Lemma map_ok_insert {V} (P : Z -> V -> Prop) m k v : map_ok P m -> P k v -> map_ok P (zinsert m k v).
Proof. intros [Hi H] Hv. split; [by apply increasing_put|]. intros x [->|[Hx _]]%elem_of_zinsert; [done|by apply H]. Qed.

Lemma map_ok_erase {V} (P : Z -> V -> Prop) m k : map_ok P m -> map_ok P (zerase m k).
Proof. intros [Hi H]. split; [by apply increasing_cut|]. intros x [Hx _]%elem_of_zerase. by apply H. Qed.

Lemma map_ok_lookup {V} (P : Z -> V -> Prop) m k v : map_ok P m -> zlookup m k = Some v -> P k v.
Proof. intros [_ H] E. by apply (H (k, v)), elem_zlookup. Qed.

Lemma map_ok_default {V} (P : Z -> V -> Prop) m k d : map_ok P m -> P k d -> P k (default d (zlookup m k)).
Proof. intros Hm Hd. destruct (zlookup m k) eqn:E; [by eapply map_ok_lookup|done]. Qed.

Lemma map_ok_filter {V} (P : Z -> V -> Prop) f m : map_ok P m -> map_ok P (List.filter f m).
Proof. intros [Hi H]. split; [by apply increasing_filter|]. intros x [Hx _]%elem_of_filter_bool. by apply H. Qed.

Lemma increasing_map_values {V W} (f : Z * V -> W) (m : zmap V) : increasing m -> increasing ((fun x => (x.1, f x)) <$> m).
Proof.
  intros Hi i j x y Hij Hx Hy. rewrite list_lookup_fmap in Hx, Hy.
  apply fmap_Some in Hx as (p & Hp & ->). apply fmap_Some in Hy as (q & Hq & ->). by apply (Hi i j).
Qed.

Lemma map_ok_values {V W} (P : Z -> V -> Prop) (Q : Z -> W -> Prop) (f : Z * V -> W) m :
  map_ok P m -> (forall k v, P k v -> Q k (f (k, v))) -> map_ok Q ((fun x => (x.1, f x)) <$> m).
Proof.
  intros [Hi H] Hf. split; [by apply increasing_map_values|]. intros x Hx. apply list_elem_of_fmap in Hx as ([k v] & -> & Hx).
  apply Hf. by apply (H (k, v)).
Qed.

(** ** The invariant *)

(** Round trip times: none, or from 1 ms on, the last and the average between the extremes. *)
Definition data_ok (d : ReportBlockData.t) : Prop :=
  let n := ReportBlockData.num_rtts d in
  0 <= n /\ (n = 0 -> ReportBlockData.max_rtt_ms d = 0 /\ ReportBlockData.sum_rtt_ms d = 0) /\
  (0 < n -> 1 <= ReportBlockData.min_rtt_ms d <= ReportBlockData.last_rtt_ms d /\
            ReportBlockData.last_rtt_ms d <= ReportBlockData.max_rtt_ms d /\
            n * ReportBlockData.min_rtt_ms d <= ReportBlockData.sum_rtt_ms d <= n * ReportBlockData.max_rtt_ms d).

Lemma data_ok_init : data_ok ReportBlockData.init.
Proof. unfold data_ok. cbn. lia. Qed.

Lemma data_ok_sample d rtt : data_ok d -> 1 <= rtt -> data_ok (ReportBlockData.AddRoundTripTimeSample d rtt).
Proof.
  destruct d as [b ts last mn mx sum n]. unfold data_ok. cbn. intros (Hn & H0 & H1) Hr.
  destruct (Z.eqb_spec n 0) as [->|Hne]; cbn [orb].
  - destruct (H0 eq_refl) as [-> ->]. rewrite (proj2 (Z.ltb_lt _ _)) by lia. lia.
  - destruct H1 as (H1 & H2 & H3); [lia|]. split; [lia|]. split; [lia|]. intros _.
    destruct (Z.ltb_spec rtt mn), (Z.ltb_spec mx rtt); nia.
Qed.

(** The reports on one of our sources, by the ssrc of who sent them. *)
Definition reports_of (source : Z) : zmap ReportBlockData.t -> Prop :=
  map_ok (fun sender d => data_ok d /\ source_ssrc (ReportBlockData.report_block d) = source /\
                          sender_ssrc (ReportBlockData.report_block d) = sender).

Definition reports_ok (config : Configuration) : zmap (zmap ReportBlockData.t) -> Prop :=
  map_ok (fun source m => registered config source = true /\ reports_of source m).

(** The limits a remote asked for. *)
Definition limits_ok : zmap TmmbrInformation -> Prop :=
  map_ok (fun _ i => map_ok (fun _ x => TmmbItem.valid (tmmbr_item x)) (tmmbr i)).

(** The list of reference times and the map of iterators into it: at most 200, one for each ssrc. *)
Record rrtrs_ok (rrtrs : list (nat * RrtrInformation)) (its : zmap nat) (next : nat) : Prop := {
  rrtrs_bounded : len rrtrs <= kMaxNumberOfStoredRrtrs;
  rrtrs_nodes : NoDup rrtrs.*1;
  rrtrs_ssrcs : NoDup (rrtr_ssrc ∘ snd <$> rrtrs);
  rrtrs_fresh : forall x, x ∈ rrtrs -> (x.1 < next)%nat;
  rrtrs_sorted : increasing its;
  rrtrs_iterators : forall s n, (s, n) ∈ its <-> exists i, (n, i) ∈ rrtrs /\ rrtr_ssrc i = s
}.

Definition receiver_ok (config : Configuration) (r : t) : Prop :=
  reports_ok config (received_report_blocks_ r) /\
  limits_ok (tmmbr_infos_ r) /\
  rrtrs_ok (received_rrtrs_ r) (received_rrtrs_ssrc_it_ r) (next_node r) /\
  map_ok (fun _ _ => True) (last_fir_ r) /\
  map_ok (fun _ name => len name <= 255) (received_cnames_ r).

(** What a flag announces is there. *)
Definition information_ok (i : PacketInformation) : Prop :=
  (has (packet_type_flags i) kRtcpLossNotification = true -> is_Some (loss_notification i)) /\
  (has (packet_type_flags i) kRtcpTransportFeedback = true -> is_Some (transport_feedback i)).

Definition ok (config : Configuration) (w : world) : Prop :=
  receiver_ok config (this w) /\ information_ok (information w).

Lemma has_lor a b flag : has (Z.lor a b) flag = has a flag || has b flag.
Proof.
  unfold has. rewrite <- negb_andb. f_equal. rewrite Z.land_lor_distr_l. apply Bool.eq_true_iff_eq.
  by rewrite andb_true_iff, !Z.eqb_eq, Z.lor_eq_0_iff.
Qed.

(** ** Operations that keep the invariant *)

Context (config : Configuration) (ntp_offset_ms : Z) (millis micros utc_micros : nat -> Z).
Context (c_sort : list TmmbItem.t -> list TmmbItem.t).

(** The clock is not before the NTP epoch; an observer of a sender is not given to a receiver. *)
Context (clock_ok : forall n, 0 <= micros n + ntp_offset_ms * 1000).
Context (observers_ok : receiver_only_ config = true ->
  rtcp_intra_frame_observer_ config = false /\ rtcp_bandwidth_observer_ config = false).
Context (sort_ok : sorts c_sort).

Abbreviation keeps_ok := (keeps (ok config)).

Lemma keeps_modify f : (forall r, receiver_ok config r -> receiver_ok config (f r)) -> keeps_ok (modify f).
Proof. intros H w [Hr Hi]. apply wp_modify. split; [by apply H|done]. Qed.

Lemma keeps_inform f : (forall i, information_ok i -> information_ok (f i)) -> keeps_ok (inform f).
Proof. intros H w [Hr Hi]. apply wp_inform. split; [done|by apply H]. Qed.

Lemma keeps_call e : keeps_ok (call e).
Proof. intros w Hw. by apply wp_call. Qed.

Lemma keeps_member {A} (f : t -> A) : keeps_ok (member f).
Proof. intros w Hw. by apply wp_member. Qed.

Lemma wp_reading clock Q w :
  Q (clock (reads w)) (World (this w) (information w) (S (reads w)) (calls w)) -> wp (reading clock) Q w.
Proof. intros H. by eexists _, _. Qed.

Lemma keeps_reading clock : keeps_ok (reading clock).
Proof. intros w Hw. by apply wp_reading. Qed.

Lemma keeps_lift {A} (o : option A) : is_Some o -> keeps_ok (lift o).
Proof. intros [a E] w Hw. apply wp_lift. by exists a. Qed.

Lemma keeps_raise flag :
  has flag kRtcpLossNotification = false -> has flag kRtcpTransportFeedback = false -> keeps_ok (raise_flag flag).
Proof.
  intros H1 H2. apply keeps_inform. intros i [Hl Ht]. split; cbn; rewrite has_lor, ?H1, ?H2, orb_false_r; done.
Qed.

Lemma keeps_skip : keeps_ok skip_packet.
Proof. by apply keeps_modify. Qed.

Lemma wp_NowNtp Q w :
  (forall ntp, Q ntp (World (this w) (information w) (S (reads w)) (calls w))) -> wp (NowNtp ntp_offset_ms micros) Q w.
Proof.
  intros H. apply wp_bind, wp_reading, wp_lift. destruct (ntp_total _ _ (clock_ok (reads w))) as (n & E & _).
  exists n. split; [exact E|apply H].
Qed.

Lemma keeps_NowNtp : keeps_ok (NowNtp ntp_offset_ms micros).
Proof. intros w Hw. by apply wp_NowNtp. Qed.

(** A parser of a packet class and what is done with what it accepts. *)
Lemma keeps_parsed {T} pre (parse : T -> CommonHeader.t -> option (bool * T)) valid failed x0 h k :
  safe_parser pre parse valid failed -> header_ok h -> pre h -> (forall x, valid x -> keeps_ok (k x)) ->
  keeps_ok (parsed (parse x0 h) k).
Proof.
  intros Hp Hh Hpre Hk w Hw. apply wp_bind, wp_lift. destruct (Hp x0 h Hh Hpre) as (r & x & -> & Hr).
  eexists. split; [done|]. destruct r; [by apply Hk|by apply keeps_skip].
Qed.

Lemma keeps_if {A} (b : bool) (m n : R A) : (b = true -> keeps_ok m) -> (b = false -> keeps_ok n) -> keeps_ok (if b then m else n).
Proof. destruct b; auto. Qed.

(** One step along a computation whose values do not matter. *)
Ltac keeps_step :=
  lazymatch goal with
  | |- keeps _ (mret _) => apply keeps_ret
  | |- keeps _ (mbind _ _) => apply keeps_bind; [|intros ?]
  | |- keeps _ (call _) => apply keeps_call
  | |- keeps _ (member _) => apply keeps_member
  | |- keeps _ (raise_flag _) => apply keeps_raise; [reflexivity|reflexivity]
  | |- keeps _ skip_packet => apply keeps_skip
  | |- keeps _ (modify _) => apply keeps_modify; intros ? ?; try done
  | |- keeps _ (inform _) => apply keeps_inform; intros ? ?; try done
  | |- keeps _ (TimeInMilliseconds _) => apply keeps_reading
  | |- keeps _ (TimeUTCMicros _) => apply keeps_reading
  | |- keeps _ (NowNtp _ _) => apply keeps_NowNtp
  | |- keeps _ (when _ _) => apply keeps_when
  | |- keeps _ (each _ _) => apply wp_each; intros ? ?
  | |- keeps _ (if _ then _ else _) => apply keeps_if; intros ?
  | |- keeps _ (match ?x with _ => _ end) => destruct x eqn:?
  end.
Ltac keeps := cbv zeta; repeat keeps_step.

(** One step along a computation from a state. *)
Ltac wp_step :=
  lazymatch goal with
  | |- wp (mret _) _ _ => apply wp_ret
  | |- wp (mbind _ _) _ _ => apply wp_bind
  | |- wp (call _) _ _ => apply wp_call
  | |- wp (member _) _ _ => apply wp_member
  | |- wp (raise_flag _) _ _ => apply wp_inform
  | |- wp (modify _) _ _ => apply wp_modify
  | |- wp (inform _) _ _ => apply wp_inform
  | |- wp (TimeInMilliseconds _) _ _ => apply wp_reading
  | |- wp (TimeUTCMicros _) _ _ => apply wp_reading
  | |- wp (NowNtp _ _) _ _ => apply wp_NowNtp; intros ?
  end.
Ltac wps := repeat (cbv beta zeta; wp_step); cbn [this information reads calls].

(** *** Limits *)

Lemma keeps_alive remote : keeps_ok (UpdateTmmbrRemoteIsAlive millis remote).
Proof.
  intros w [(Hr & Hl & Hrest) Hi]. unfold UpdateTmmbrRemoteIsAlive. wps.
  destruct (zlookup _ remote) as [i|] eqn:E; wps; [|done]. split; [|done]. split; [done|]. split; [|done].
  apply map_ok_insert; [done|]. exact (map_ok_lookup _ _ _ _ Hl E).
Qed.

(** The limits of a remote, with the time of arrival noted. *)
Lemma wp_FindOrCreate remote Q w : ok config w ->
  (forall info w', ok config w' -> map_ok (fun _ x => TmmbItem.valid (tmmbr_item x)) (tmmbr info) -> Q info w') ->
  wp (FindOrCreateTmmbrInfo millis remote) Q w.
Proof.
  intros [(Hr & Hl & Hrest) Hi] HQ. unfold FindOrCreateTmmbrInfo. wps.
  assert (Ho : map_ok (fun _ x => TmmbItem.valid (tmmbr_item x))
                 (tmmbr (default no_tmmbr_info (zlookup (tmmbr_infos_ (this w)) remote)))).
  { apply (map_ok_default (fun _ i => map_ok _ (tmmbr i))); [done|apply map_ok_nil]. }
  apply HQ; [|done]. split; [|done]. split; [done|]. split; [|done]. by apply map_ok_insert.
Qed.

Lemma first_request_in l x : first_request config l = Some x -> x ∈ l.
Proof.
  induction l as [|y l IH]; [done|]. cbn. destruct (_ || _); [intros H; constructor; by apply IH|].
  intros [= ->]. constructor.
Qed.

Lemma keeps_HandleTmmbr h : header_ok h -> is_rtpfb 3 h -> keeps_ok (HandleTmmbr config millis h).
Proof.
  intros Hh Ht. unfold HandleTmmbr. eapply keeps_parsed; [apply Tmmbr.Tmmbr_Parse_safe|done|done|].
  intros x [Hfb Hitems _ _]. cbv zeta. destruct (first_request config _) as [request|] eqn:E; [|keeps].
  intros w Hw. apply wp_bind, wp_FindOrCreate; [done|]. intros info w' Hw' Hinfo.
  apply first_request_in in E. rewrite Forall_forall in Hitems. destruct (Hitems _ E) as [_ Hb Ho].
  set (sender := if _ : bool then _ else _).
  assert (Hs : in_u 32 sender) by (unfold sender; destruct Hfb; by destruct (negb _)).
  apply wp_bind, wp_lift. eexists. split.
  { unfold TmmbItem.make. unfold in_u in Ho. by rewrite (proj2 (Z.leb_le _ _)) by (zconst; lia). }
  destruct Hw' as [(Hr & Hl & Hrest) Hi']. wps. split.
  - split; [done|]. split; [|done]. apply map_ok_insert; [done|]. by apply map_ok_insert.
  - destruct Hi' as [H1 H2]. split; cbn; rewrite has_lor; cbn; rewrite orb_false_r; done.
Qed.

Lemma keeps_HandleTmmbn h : header_ok h -> is_rtpfb 4 h -> keeps_ok (HandleTmmbn millis h).
Proof.
  intros Hh Ht. unfold HandleTmmbn. eapply keeps_parsed; [apply Tmmbn.Tmmbn_Parse_safe|done|done|].
  intros x _. cbv zeta. intros w Hw. apply wp_bind, wp_FindOrCreate; [done|]. intros info w' [(Hr & Hl & Hrest) Hi'] Hinfo.
  wps. split.
  - split; [done|]. split; [|done]. by apply map_ok_insert.
  - destruct Hi' as [H1 H2]. split; cbn; rewrite has_lor; cbn; rewrite orb_false_r; done.
Qed.

(** *** Reports *)

Lemma rtt_sampled v : exists ms, CompactNtpRttToMs (u32 v) = Some ms /\ 1 <= ms.
Proof. apply rtt_total, wrap_range. lia. Qed.

Lemma data_ok_report d b ts : data_ok d -> data_ok (ReportBlockData.SetReportBlock d b ts).
Proof. done. Qed.

Lemma keeps_HandleReportBlock b remote :
  keeps_ok (HandleReportBlock config ntp_offset_ms millis micros utc_micros b remote).
Proof.
  intros w [(Hr & Hrest) Hi]. unfold HandleReportBlock. cbv zeta.
  destruct (registered config (ReportBlock.source_ssrc b)) eqn:Eg; cbn [negb]; [|wps; done].
  wps. cbn [received_report_blocks_ set_last_received_rb_ms].
  set (blocks := received_report_blocks_ (this w)). match goal with |- context [zlookup ?m remote] => set (of_source := m) end.
  assert (Ho : reports_of (ReportBlock.source_ssrc b) of_source).
  { apply (map_ok_default (fun s m => registered config s = true /\ reports_of s m)); [done|]. split; [done|apply map_ok_nil]. }
  set (d0 := default ReportBlockData.init _). assert (Hd : data_ok d0).
  { unfold d0. destruct (zlookup of_source remote) as [d|] eqn:E; [apply (map_ok_lookup _ _ _ _ Ho E)|apply data_ok_init]. }
  eapply (wp_mono _ (fun _ w' => ok config w' /\ received_report_blocks_ (this w') = blocks)).
  { destruct (_ <? _); wps; done. }
  intros [] w1 [[[_ Hrest1] Hi1] Eb1]. wps. set (d1 := ReportBlockData.SetReportBlock d0 _ _).
  eapply (wp_mono _ (fun d w' => ok config w' /\ data_ok d /\ ReportBlockData.report_block d = ReportBlockData.report_block d1)).
  { destruct (negb _); wps.
    - apply wp_lift. destruct (rtt_sampled (CompactNtp ntp - ReportBlock.delay_since_last_sr b - ReportBlock.last_sr b)) as (ms & -> & Hms).
      eexists. split; [done|]. wps. split; [split; [split; [|done]; cbn; by rewrite Eb1|done]|]. split; [by apply data_ok_sample|done].
    - split; [split; [split; [|done]; cbn; by rewrite Eb1|done]|]. done. }
  intros d w2 ([[_ Hrest2] Hi2] & Hd2 & Eb). wps. split; [|done]. split; [|done].
  apply map_ok_insert; [done|]. split; [done|]. apply map_ok_insert; [done|]. by rewrite Eb.
Qed.

Lemma keeps_HandleSenderReport h : header_ok h -> CommonHeader.type h = 200 ->
  keeps_ok (HandleSenderReport config ntp_offset_ms millis micros utc_micros h).
Proof.
  intros Hh Ht. unfold HandleSenderReport. eapply keeps_parsed; [apply reports_parse_safe|done|done|]. intros x Hx. keeps.
  - apply keeps_alive.
  - apply keeps_HandleReportBlock.
Qed.

Lemma keeps_HandleReceiverReport h : header_ok h -> CommonHeader.type h = 201 ->
  keeps_ok (HandleReceiverReport config ntp_offset_ms millis micros utc_micros h).
Proof.
  intros Hh Ht. unfold HandleReceiverReport. eapply keeps_parsed; [apply reports_parse_safe|done|done|]. intros x Hx. keeps.
  - apply keeps_alive.
  - apply keeps_HandleReportBlock.
Qed.

(** *** Source descriptions, BYE and APP *)

Lemma keeps_HandleSdes h : header_ok h -> CommonHeader.type h = 202 -> keeps_ok (HandleSdes h).
Proof.
  intros Hh Ht. unfold HandleSdes. eapply keeps_parsed; [apply source_desc_parse_safe|done|done|]. intros x [Hc _ _]. keeps.
  destruct H0 as (Hr & Hl & Hx & Hf & Hn). split; [done|]. split; [done|]. split; [done|]. split; [done|].
  apply map_ok_insert; [done|]. rewrite Forall_forall in Hc. by apply Hc.
Qed.

Lemma remote_estimate_safe n : forall data e, bytes_ok data -> len data = 4 * Z.of_nat n -> is_Some (RemoteEstimate.parse_fields n data e).
Proof.
  induction n as [|n IH]; intros data e Hb Hl; cbn [RemoteEstimate.parse_fields]; [by eexists|].
  destruct (ReadBigEndian_Some 8 1 data) as (id & -> & _); [done|done|lia|]. cbn [mbind option_bind].
  assert (Hread : is_Some (RemoteEstimate.Read (ptr_add data 1))).
  { unfold RemoteEstimate.Read. destruct (ReadBigEndian_Some 32 3 (ptr_add data 1)) as (v & E & Hv).
    - done.
    - by apply bytes_ok_ptr_add.
    - rewrite len_ptr_add by lia. lia.
    - unfold RemoteEstimate.kFieldValueSize. rewrite E. cbn [mbind option_bind]. destruct (_ =? _); [by eexists|].
      unfold in_u in Hv. change (2 ^ (8 * Z.of_nat 3)) with (2 ^ 24) in Hv.
      rewrite (proj2 (Z.ltb_lt _ _)) by (unfold RemoteEstimate.kDataRateResolution, RemoteEstimate.PlusInfinity; lia). by eexists. }
  destruct Hread as [v Ev]. rewrite Ev.
  destruct (id =? 1), (id =? 2); cbn [mbind option_bind]; (apply IH; [by apply bytes_ok_ptr_add|]);
    unfold RemoteEstimate.kFieldSize; rewrite len_ptr_add by lia; lia.
Qed.

Lemma keeps_HandleApp h : header_ok h -> CommonHeader.type h = 204 -> keeps_ok (HandleApp h).
Proof.
  intros Hh Ht w Hw. unfold HandleApp. apply wp_bind, wp_lift.
  destruct (App.App_Parse_safe App.init h Hh Ht) as (r & app & -> & Hr). eexists. split; [done|].
  destruct r; cbn [andb]; [|by apply keeps_skip]. destruct (_ && _); [|by apply keeps_skip].
  apply wp_bind, wp_lift. destruct Hr as [_ _ _ Hb Ha _].
  unfold RemoteEstimate.ParseData, RemoteEstimate.kFieldSize. rewrite Ha. cbn [Z.eqb negb].
  destruct (remote_estimate_safe (Z.to_nat (len (App.data app) / 4)) (App.data app) RemoteEstimate.no_estimate) as [e ->]; [done| |].
  { pose proof (len_nonneg (App.data app)). Z.to_euclidean_division_equations. lia. }
  eexists. split; [done|]. by apply keeps_inform.
Qed.

(** The node an iterator of an ssrc points to. *)
Lemma iterator_valid rrtrs its next s node : rrtrs_ok rrtrs its next -> zlookup its s = Some node ->
  existsb (fun x => (x.1 =? node)%nat) rrtrs = true /\ exists i, (node, i) ∈ rrtrs /\ rrtr_ssrc i = s.
Proof.
  intros H E. apply elem_zlookup, (rrtrs_iterators _ _ _ H) in E as (i & Hin & Hs). split; [|by exists i].
  apply existsb_exists. exists (node, i). split; [by apply list_elem_of_In|]. apply Nat.eqb_refl.
Qed.

Lemma NoDup_fmap_filter {A B} (f : A -> B) (p : A -> bool) l : NoDup (f <$> l) -> NoDup (f <$> List.filter p l).
Proof.
  induction l as [|x l IH]; [done|]. cbn. intros [Hx Hl]%NoDup_cons. destruct (p x); [|by apply IH]. cbn. apply NoDup_cons.
  split; [|by apply IH]. intros Hin. apply Hx. apply list_elem_of_fmap in Hin as (y & -> & [Hy _]%elem_of_filter_bool).
  by apply list_elem_of_fmap_2.
Qed.

Lemma NoDup_fmap_inj_on {A B} (f : A -> B) l x y : NoDup (f <$> l) -> x ∈ l -> y ∈ l -> f x = f y -> x = y.
Proof.
  induction l as [|z l IH]; [by intros _ Hx%elem_of_nil|]. cbn. intros [Hz Hl]%NoDup_cons [->|Hx]%elem_of_cons [->|Hy]%elem_of_cons E; [done| | |by apply IH].
  - destruct Hz. rewrite E. by apply list_elem_of_fmap_2.
  - destruct Hz. rewrite <- E. by apply list_elem_of_fmap_2.
Qed.

(** Erasing the node of an ssrc with its iterator. *)
Lemma rrtrs_ok_erase rrtrs its next s node : rrtrs_ok rrtrs its next -> zlookup its s = Some node ->
  rrtrs_ok (List.filter (fun x => negb (x.1 =? node)%nat) rrtrs) (zerase its s) next.
Proof.
  intros H E. destruct (iterator_valid _ _ _ _ _ H E) as (_ & i & Hin & Hs). destruct H as [Hb Hn Hss Hf Hi Hit]. split.
  - pose proof (List.filter_length_le (fun x => negb (x.1 =? node)%nat) rrtrs). unfold len in *. lia.
  - by apply NoDup_fmap_filter.
  - by apply NoDup_fmap_filter.
  - intros x [Hx _]%elem_of_filter_bool. by apply Hf.
  - by apply increasing_cut.
  - intros s' n'. rewrite elem_of_zerase, Hit. cbn [fst]. split.
    + intros [(j & Hj & Hsj) Hne]. exists j. split; [|done]. apply elem_of_filter_bool. split; [done|]. cbn.
      apply negb_true_iff, Nat.eqb_neq. intros ->. apply Hne. rewrite <- Hsj, <- Hs. f_equal.
      by injection (NoDup_fmap_inj_on fst rrtrs (node, j) (node, i) Hn Hj Hin eq_refl).
    + intros (j & [Hj Hne]%elem_of_filter_bool & Hsj). split; [by exists j|]. intros ->.
      pose proof (NoDup_fmap_inj_on (rrtr_ssrc ∘ snd) rrtrs (n', j) (node, i) Hss Hj Hin ltac:(cbn; congruence)) as [= -> ->].
      cbn in Hne. by rewrite Nat.eqb_refl in Hne.
Qed.

Lemma keeps_HandleBye h : header_ok h -> CommonHeader.type h = 203 -> keeps_ok (HandleBye h).
Proof.
  intros Hh Ht. unfold HandleBye. eapply keeps_parsed; [apply source_desc_parse_safe|done|done|]. intros x _ w Hw. cbv zeta.
  set (ssrc := Bye.sender_ssrc x). apply wp_bind.
  eapply wp_mono; [apply (keeps_modify (fun r => set_received_report_blocks _ r)); [|exact Hw]|].
  { intros r (Hr & Hrest). split; [|done]. eapply map_ok_values; [exact Hr|]. intros k m [Hk Hm]. split; [done|]. by apply map_ok_erase. }
  intros [] w1 H1. apply wp_bind, wp_member, wp_bind.
  apply (wp_mono _ (fun _ => ok config)).
  { destruct H1 as [(Hr & Hl & Hrest) Hi]. destruct (zlookup (tmmbr_infos_ (this w1)) ssrc) as [i|] eqn:E; wps; [|done].
    split; [|done]. split; [done|]. split; [|done]. apply map_ok_insert; [done|]. exact (map_ok_lookup _ _ _ _ Hl E). }
  intros [] w2 [(Hr & Hl & Hx & Hf & Hn) Hi]. wps.
  destruct (zlookup _ ssrc) as [node|] eqn:E; wps.
  - apply wp_lift. unfold erase_node. cbn [received_rrtrs_ set_last_fir set_received_cnames].
    destruct (iterator_valid _ _ _ _ _ Hx E) as [-> _]. eexists. split; [done|]. wps.
    split; [|done]. split; [done|]. split; [done|]. split; [by apply rrtrs_ok_erase|]. split; by apply map_ok_erase.
  - split; [|done]. split; [done|]. split; [done|]. split; [done|]. split; by apply map_ok_erase.
Qed.

(** *** Extended reports *)

Lemma rrtrs_ok_update rrtrs its next node remote_time local_time : rrtrs_ok rrtrs its next ->
  rrtrs_ok ((fun x => if (x.1 =? node)%nat then (x.1, MkRrtrInfo (rrtr_ssrc x.2) remote_time local_time) else x) <$> rrtrs) its next.
Proof.
  set (f := fun x : nat * RrtrInformation => _).
  assert (Hf : forall x, (f x).1 = x.1 /\ rrtr_ssrc (f x).2 = rrtr_ssrc x.2) by (intros x; unfold f; by destruct (_ =? _)%nat).
  intros [Hb Hn Hs Hfr Hi Hit]. split; [by rewrite len_fmap| | | |done|].
  - rewrite <- list_fmap_compose. rewrite (list_fmap_ext _ fst); [done|]. intros i x _. apply Hf.
  - rewrite <- list_fmap_compose. rewrite (list_fmap_ext _ (rrtr_ssrc ∘ snd)); [done|]. intros i x _. apply Hf.
  - intros x Hx. apply list_elem_of_fmap in Hx as (y & -> & Hy). rewrite (proj1 (Hf y)). by apply Hfr.
  - intros s n. rewrite Hit. split.
    + intros (i & Hin & Hsi). exists (f (n, i)).2. split; [|by rewrite (proj2 (Hf (n, i)))].
      replace (n, (f (n, i)).2) with (f (n, i)) by (by rewrite (surjective_pairing (f (n, i))), (proj1 (Hf (n, i)))).
      by apply list_elem_of_fmap_2.
    + intros (i & Hin & Hsi). apply list_elem_of_fmap in Hin as ([n' j] & E & Hj). destruct (Hf (n', j)) as [E1 E2].
      rewrite <- E in E1, E2. cbn in E1, E2. subst n'. exists j. split; [done|]. congruence.
Qed.

Lemma rrtrs_ok_append rrtrs its next s remote_time local_time :
  rrtrs_ok rrtrs its next -> zlookup its s = None -> len rrtrs < kMaxNumberOfStoredRrtrs ->
  rrtrs_ok (rrtrs ++ [(next, MkRrtrInfo s remote_time local_time)]) (zinsert its s next) (S next).
Proof.
  intros [Hb Hn Hs Hf Hi Hit] E Hl. pose proof (proj1 (value_of_None _ _) E) as Hnone.
  assert (Hnew : forall n i, (n, i) ∈ rrtrs -> rrtr_ssrc i <> s).
  { intros n i Hin Es. apply (Hnone (s, n)); [|done]. apply Hit. by exists i. }
  split.
  - rewrite len_app. change (len [_]) with 1. lia.
  - rewrite fmap_app. apply NoDup_app. split; [done|]. split; [|apply NoDup_singleton].
    intros n Hin Hin'. apply list_elem_of_singleton in Hin'. cbn in Hin'. subst n. apply list_elem_of_fmap in Hin as (x & E' & Hx).
    specialize (Hf x Hx). lia.
  - rewrite fmap_app. apply NoDup_app. split; [done|]. split; [|apply NoDup_singleton].
    intros s' Hin Hin'. apply list_elem_of_singleton in Hin'. cbn in Hin'. subst s'. apply list_elem_of_fmap in Hin as ([n i] & E' & Hx).
    by apply (Hnew n i Hx).
  - intros x [Hx|Hx%list_elem_of_singleton]%elem_of_app; [specialize (Hf x Hx); lia|subst x; cbn; lia].
  - by apply increasing_put.
  - intros s' n'. rewrite elem_of_zinsert, Hit. cbn [fst]. split.
    + intros [[= -> ->]|[(i & Hin & Hsi) Hne]]; eexists; (split; [apply elem_of_app|]); [right; by constructor|done|left; exact Hin|done].
    + intros (i & [Hin|[= -> ->]%list_elem_of_singleton]%elem_of_app & Hsi); [right|by left; rewrite <- Hsi].
      split; [by exists i|]. rewrite <- Hsi. by apply (Hnew n').
Qed.

Lemma keeps_rrtr s rrtr : keeps_ok (HandleXrReceiveReferenceTime ntp_offset_ms micros s rrtr).
Proof.
  intros w [(Hr & Hl & Hx & Hf & Hn) Hi]. unfold HandleXrReceiveReferenceTime. wps.
  destruct (zlookup _ s) as [node|] eqn:E.
  - apply wp_bind, wp_lift. unfold update_node. destruct (iterator_valid _ _ _ _ _ Hx E) as [-> _].
    eexists. split; [done|]. wps. split; [|done]. split; [done|]. split; [done|]. split; [by apply rrtrs_ok_update|done].
  - destruct (Z.ltb_spec (len (received_rrtrs_ (this w))) kMaxNumberOfStoredRrtrs); wps; [|done].
    split; [|done]. split; [done|]. split; [done|]. split; [by apply rrtrs_ok_append|done].
Qed.

Lemma keeps_dlrr x : keeps_ok (HandleXrDlrrReportBlock config ntp_offset_ms micros x).
Proof. unfold HandleXrDlrrReportBlock. keeps. apply keeps_lift. destruct (rtt_sampled (CompactNtp a0 - Dlrr.delay_since_last_rr x - Dlrr.last_rr x)) as (ms & -> & _). by eexists. Qed.

(** The sum of an allocation is the sum of its layers, none of which is negative. *)
Definition layers (l : list (option Z)) : Z := foldr (fun o s => default 0 o + s) 0 l.

Definition allocation_ok (a : VideoBitrateAllocation.t) : Prop :=
  let l := VideoBitrateAllocation.bitrates_ a in
  length l = 20%nat /\ Forall (fun o => 0 <= default 0 o) l /\ VideoBitrateAllocation.sum_ a = layers l.

Lemma layers_cons o l : layers (o :: l) = default 0 o + layers l.
Proof. done. Qed.

Lemma layers_insert l i o v : l !! i = Some o -> layers (<[i := v]> l) = layers l - default 0 o + default 0 v.
Proof.
  revert i. induction l as [|x l IH]; intros [|i] E; [done|done| |].
  - injection E as ->. change (<[0%nat := v]> (o :: l)) with (v :: l). rewrite !layers_cons. lia.
  - change (<[S i := v]> (x :: l)) with (x :: <[i := v]> l). rewrite !layers_cons, (IH i E). lia.
Qed.

Lemma layer_le l i o : Forall (fun o => 0 <= default 0 o) l -> l !! i = Some o -> default 0 o <= layers l.
Proof.
  assert (Hp : forall l, Forall (fun o => 0 <= default 0 o) l -> 0 <= layers l).
  { induction 1; [done|]. rewrite layers_cons. lia. }
  intros H. revert i. induction H as [|x l Hx H IH]; intros [|i] E; [done|done| |].
  - injection E as ->. rewrite layers_cons. specialize (Hp l H). lia.
  - specialize (IH i E). rewrite layers_cons. lia.
Qed.

Lemma SetBitrate_ok a s t b : allocation_ok a -> 0 <= s < 5 -> 0 <= t < 4 -> 0 <= b ->
  exists r a', VideoBitrateAllocation.SetBitrate a s t b = Some (r, a') /\ allocation_ok a'.
Proof.
  intros (Hl & Hn & Hs) H1 H2 Hb. unfold VideoBitrateAllocation.SetBitrate, VideoBitrateAllocation.kMaxSpatialLayers,
    VideoBitrateAllocation.kMaxTemporalStreams. rewrite !(proj2 (Z.ltb_lt _ _)) by lia. cbn [check mbind option_bind].
  destruct (lookup_lt_is_Some_2 (VideoBitrateAllocation.bitrates_ a) (Z.to_nat (4 * s + t))) as [o E]; [lia|]. rewrite E. cbn [mbind option_bind].
  pose proof (layer_le _ _ _ Hn E) as Hle. replace (match o with Some _ => _ | None => _ end) with true.
  2:{ destruct o; [|done]. symmetry. apply Z.leb_le. rewrite Hs. exact Hle. }
  cbn [check mbind option_bind]. destruct (_ <? _); [by eexists _, _|]. rewrite (proj2 (Z.leb_le _ _)) by lia.
  cbn [check mbind option_bind]. eexists _, _. split; [done|]. unfold allocation_ok. cbn [VideoBitrateAllocation.sum_ VideoBitrateAllocation.bitrates_]. cbv zeta.
  split; [by rewrite length_insert|]. split; [by apply Forall_insert|].
  rewrite (layers_insert _ _ _ _ E), Hs. done.
Qed.

Lemma allocate_ok items : forall a, Forall TargetBitrate.item_valid items -> allocation_ok a ->
  exists a', allocate items a = Some a' /\ allocation_ok a'.
Proof.
  induction items as [|x items IH]; intros a Hv Ha; cbn [allocate]; [by eexists|].
  apply Forall_cons in Hv as [[Hs Ht _] Hv]. destruct (_ || _) eqn:E; [by apply IH|].
  unfold VideoBitrateAllocation.kMaxSpatialLayers, VideoBitrateAllocation.kMaxTemporalStreams in E. bool_prop.
  destruct (SetBitrate_ok a (TargetBitrate.spatial_layer x) (TargetBitrate.temporal_layer x)
              (u32 (TargetBitrate.target_bitrate_kbps x * 1000)) Ha) as (r & a' & -> & Ha'); [lia|lia|apply wrap_range; lia|].
  by apply IH.
Qed.

Lemma keeps_HandleXr h : header_ok h -> CommonHeader.type h = 207 -> keeps_ok (HandleXr config ntp_offset_ms micros h).
Proof.
  intros Hh Ht. unfold HandleXr. eapply keeps_parsed; [apply extended_reports_parse_safe|done|done|].
  intros x [[_ _ _ Hb] _]. keeps.
  - apply keeps_rrtr.
  - apply keeps_dlrr.
  - unfold HandleXrTargetBitrate. keeps. apply keeps_lift.
    destruct (Hb _ eq_refl) as [Hv _]. destruct (allocate_ok _ VideoBitrateAllocation.init Hv) as (a' & -> & _); [|by eexists].
    split; [done|]. split; [|done]. by repeat constructor.
Qed.

(** *** Feedback messages *)

Lemma keeps_HandleNack h : header_ok h -> is_rtpfb 1 h -> keeps_ok (HandleNack config h).
Proof. intros Hh Ht. unfold HandleNack. eapply keeps_parsed; [apply nack_parse_safe|done|done|]. intros x _. keeps. Qed.

Lemma keeps_HandlePli h : header_ok h -> is_psfb 1 h -> keeps_ok (HandlePli config h).
Proof. intros Hh Ht. unfold HandlePli. eapply keeps_parsed; [apply feedback_parse_safe|done|done|]. intros x _. keeps. Qed.

Lemma keeps_HandleSrReq h : header_ok h -> is_rtpfb 5 h -> keeps_ok (HandleSrReq h).
Proof. intros Hh Ht. unfold HandleSrReq. eapply keeps_parsed; [apply feedback_parse_safe|done|done|]. intros x _. keeps. Qed.

Lemma keeps_HandleFir h : header_ok h -> is_psfb 4 h -> keeps_ok (HandleFir config millis h).
Proof.
  intros Hh Ht. unfold HandleFir. eapply keeps_parsed; [apply feedback_parse_safe|done|done|]. intros x _.
  apply wp_each. intros request _ w [(Hr & Hl & Hx & Hf & Hn) Hi]. unfold handle_fir_request. destruct (negb _); [wps; done|].
  assert (Ha : forall now fir w', fir = last_fir_ (this w') -> ok config w' ->
    wp (modify (set_last_fir (zinsert fir (Psfb.sender_ssrc (Fir.fb x)) (MkFirStatus now (Fir.seq_nr request)))) ;; raise_flag kRtcpFir)
      (fun _ => ok config) w').
  { intros now fir w' -> [(Hr' & Hl' & Hx' & Hf' & Hn') [H1 H2]]. wps. split.
    - split; [done|]. split; [done|]. split; [done|]. split; [by apply map_ok_insert|done].
    - split; cbn; rewrite has_lor; cbn; rewrite orb_false_r; done. }
  wps. destruct (zlookup _ _) as [last|]; [|by apply Ha].
  destruct (_ =? _); [wps; done|]. destruct (_ <? _); [wps; done|]. by apply Ha.
Qed.

Lemma keeps_HandlePsfbApp h : header_ok h -> is_psfb 15 h -> keeps_ok (HandlePsfbApp h).
Proof.
  intros Hh Ht w Hw. unfold HandlePsfbApp. apply wp_bind, wp_lift.
  destruct (Remb.Remb_Parse_safe Remb.init h Hh Ht) as (r & remb & -> & _). eexists. split; [done|]. destruct r.
  - eapply wp_mono; [eapply keeps_bind; [|intros _|exact Hw]|intros a w' Hw'; exact Hw']; keeps.
  - eapply keeps_parsed; [apply LossNotification.LossNotification_Parse_safe|done|done| |exact Hw].
    intros x _ w' [Hr [H1 H2]]. wps. split; [done|]. split; cbn; rewrite has_lor; [by eexists|].
    change (has kRtcpLossNotification kRtcpTransportFeedback) with false. by rewrite orb_false_r.
Qed.

Lemma keeps_HandleTransportFeedback h : header_ok h -> is_rtpfb 15 h -> keeps_ok (HandleTransportFeedback h).
Proof.
  intros Hh Ht w [Hr [H1 H2]]. unfold HandleTransportFeedback. apply wp_bind, wp_lift.
  destruct (FeedbackPacket.FeedbackPacket_Parse_safe (TransportFeedback.init true false) h Hh Ht eq_refl) as (r & x & -> & _).
  eexists. split; [done|]. destruct r; [|by apply keeps_skip]. wps. split; [done|]. split; cbn; rewrite has_lor; [|by eexists].
  change (has kRtcpTransportFeedback kRtcpLossNotification) with false. by rewrite orb_false_r.
Qed.

(** *** The dispatcher and the loop over the blocks *)

Lemma keeps_dispatch h : header_ok h -> keeps_ok (dispatch config ntp_offset_ms millis micros utc_micros h).
Proof.
  intros Hh. unfold dispatch. cbv zeta.
  repeat lazymatch goal with
  | |- keeps _ skip_packet => apply keeps_skip
  | |- keeps _ (if _ then _ else _) => apply keeps_if; [intros ?%Z.eqb_eq|intros _]
  end.
  - by apply keeps_HandleSenderReport.
  - by apply keeps_HandleReceiverReport.
  - by apply keeps_HandleSdes.
  - by apply keeps_HandleXr.
  - by apply keeps_HandleBye.
  - by apply keeps_HandleApp.
  - by apply keeps_HandleNack.
  - by apply keeps_HandleTmmbr.
  - by apply keeps_HandleTmmbn.
  - by apply keeps_HandleSrReq.
  - by apply keeps_HandleTransportFeedback.
  - by apply keeps_HandlePli.
  - by apply keeps_HandleFir.
  - by apply keeps_HandlePsfbApp.
Qed.

Lemma keeps_note_first_packet : keeps_ok (note_first_packet millis).
Proof. unfold note_first_packet. keeps. Qed.

(** A header that was accepted, and what is left behind its packet. *)
Lemma next_block_ok h0 buffer : bytes_ok buffer ->
  exists r h, CommonHeader.Parse h0 buffer (len buffer) = Some (r, h) /\
    (r = true -> header_ok h /\ bytes_ok (CommonHeader.NextPacket h) /\ (length (CommonHeader.NextPacket h) + 4 <= length buffer)%nat).
Proof.
  intros Hb. destruct (HeaderFacts.HeaderFacts_Parse_safe h0 buffer (len buffer) Hb) as (r & h & E & Hr); [lia|].
  exists r, h. split; [done|]. intros Ht. destruct (Hr Ht) as (H1 & H2 & H3 & H4 & H5 & H6 & H7 & H8 & H9 & H10).
  unfold CommonHeader.packet_size, CommonHeader.kHeaderSizeBytes in *. split; [|split].
  - split; [done|by rewrite H8; apply bytes_ok_ptr_add| |lia].
    rewrite H8, len_ptr_add by lia. lia.
  - rewrite H9. by apply bytes_ok_ptr_add.
  - rewrite H9. unfold ptr_add. rewrite length_drop. unfold len in H1. lia.
Qed.

Lemma keeps_parse_blocks fuel : forall h buffer first, bytes_ok buffer -> (length buffer <= fuel)%nat ->
  keeps_ok (parse_blocks config ntp_offset_ms millis micros utc_micros fuel h buffer first).
Proof.
  induction fuel as [|fuel IH]; intros h [|b buffer] first Hb Hf; cbn [parse_blocks]; [apply keeps_ret|cbn in Hf; lia|apply keeps_ret|].
  intros w Hw. apply wp_bind, wp_lift. destruct (next_block_ok h (b :: buffer) Hb) as (r & h' & -> & Hr).
  eexists. split; [done|]. destruct r; cbn [negb].
  - destruct (Hr eq_refl) as (Hh & Hn & Hlen). eapply (keeps_bind (ok config)); [apply keeps_note_first_packet|intros _|exact Hw].
    apply keeps_bind; [by apply keeps_dispatch|intros _]. apply IH; [done|]. lia.
  - destruct first; [by apply wp_ret|]. eapply (keeps_bind (ok config)); [apply keeps_skip|intros _; apply keeps_ret|exact Hw].
Qed.

Lemma keeps_ParseCompoundPacket packet : bytes_ok packet ->
  keeps_ok (ParseCompoundPacket config ntp_offset_ms millis micros utc_micros packet).
Proof. intros Hb. unfold ParseCompoundPacket. keeps. by apply keeps_parse_blocks. Qed.

(** *** Callbacks *)

Lemma wp_TmmbrReceived Q w : ok config w ->
  (forall l w', ok config w' -> Forall TmmbItem.valid l -> Q l w') -> wp (TmmbrReceived millis) Q w.
Proof.
  intros [(Hr & Hl & Hrest) Hi] HQ. unfold TmmbrReceived. wps. apply HQ.
  - split; [|done]. split; [done|]. split; [|done]. cbn [tmmbr_infos_ set_tmmbr_infos].
    eapply map_ok_values; [exact Hl|]. intros k i Hv. by apply map_ok_filter.
  - apply Forall_forall. intros x Hx. apply list_elem_of_join in Hx as (l & Hx & Hin).
    apply list_elem_of_fmap in Hin as ([k i] & -> & Hin). apply list_elem_of_fmap in Hx as (y & -> & [Hy _]%elem_of_filter_bool).
    destruct Hl as [_ Hl]. destruct (Hl _ Hin) as [_ Hv]. by apply (Hv y).
Qed.

Lemma keeps_NotifyTmmbrUpdated : keeps_ok (NotifyTmmbrUpdated config millis c_sort).
Proof.
  intros w Hw. unfold NotifyTmmbrUpdated. apply wp_bind, wp_TmmbrReceived; [done|]. intros l w' Hw' Hv.
  apply wp_bind, wp_lift. destruct (bounding_set_total c_sort l sort_ok Hv) as (b & Hb & Hmin). exists b. split; [exact Hb|].
  eapply (keeps_bind (ok config)); [|intros _; apply keeps_call|exact Hw'].
  apply keeps_if; [intros E|intros _; apply keeps_ret]. bool_prop. apply bool_decide_eq_false in H.
  destruct (Hmin H) as [m Em]. keeps. apply keeps_lift. by rewrite Em.
Qed.

Lemma keeps_trigger_intra_frame flags : keeps_ok (trigger_intra_frame config flags).
Proof.
  unfold trigger_intra_frame, when. destruct (rtcp_intra_frame_observer_ config) eqn:E; [|keeps].
  destruct (receiver_only_ config) eqn:Er; [by destruct (observers_ok eq_refl)|]. cbn [negb]. keeps. intros w Hw. by apply wp_dcheck.
Qed.

Lemma keeps_trigger_bandwidth i : keeps_ok (trigger_bandwidth config millis i).
Proof.
  unfold trigger_bandwidth, when. destruct (rtcp_bandwidth_observer_ config) eqn:E; [|keeps].
  destruct (receiver_only_ config) eqn:Er; [by destruct (observers_ok eq_refl)|]. cbn [negb]. keeps. intros w Hw. by apply wp_dcheck.
Qed.

Lemma keeps_trigger_loss_notification i : information_ok i -> keeps_ok (trigger_loss_notification config i).
Proof.
  intros [H _]. unfold trigger_loss_notification, when. apply keeps_if; [intros E|intros _; apply keeps_ret]. bool_prop. keeps. apply keeps_lift. by apply H.
Qed.

Lemma keeps_trigger_transport_feedback i : information_ok i -> keeps_ok (trigger_transport_feedback config i).
Proof.
  intros [_ H]. unfold trigger_transport_feedback, when. apply keeps_if; [intros E|intros _; apply keeps_ret]. bool_prop. keeps. apply keeps_lift. by apply H.
Qed.

Lemma keeps_trigger_statistics i : keeps_ok (trigger_statistics config i).
Proof. unfold trigger_statistics. keeps. Qed.

Lemma keeps_TriggerCallbacks i : information_ok i -> keeps_ok (TriggerCallbacksFromRtcpPacket config millis c_sort i).
Proof.
  intros Hi. unfold TriggerCallbacksFromRtcpPacket. keeps.
  - apply keeps_NotifyTmmbrUpdated.
  - apply keeps_trigger_intra_frame.
  - by apply keeps_trigger_loss_notification.
  - apply keeps_trigger_bandwidth.
  - by apply keeps_trigger_transport_feedback.
  - apply keeps_trigger_statistics.
Qed.

Lemma keeps_IncomingPacket packet : bytes_ok packet ->
  keeps_ok (IncomingPacket config ntp_offset_ms millis micros utc_micros c_sort packet).
Proof.
  intros Hb. unfold IncomingPacket. apply keeps_if; intros _; [apply keeps_ret|]. apply keeps_bind; [keeps|intros _].
  apply keeps_bind; [by apply keeps_ParseCompoundPacket|intros r]. apply keeps_if; intros _; [apply keeps_ret|].
  intros w Hw. apply wp_bind. exists (information w), w. split; [done|]. apply keeps_TriggerCallbacks; [apply Hw|done].
Qed.

(** *** The other operations *)

Lemma update_timers_ok timeout infos : forall oldest infos' oldest' b,
  update_timers timeout infos oldest = (infos', oldest', b) -> limits_ok infos ->
  limits_ok infos' /\ forall y, y ∈ infos' -> exists x, x ∈ infos /\ x.1 = y.1.
Proof.
  induction infos as [|[k i] infos IH]; intros oldest infos' oldest' b E H; cbn [update_timers] in E.
  { injection E as <- <- <-. split; [apply map_ok_nil|]. by intros y Hy%elem_of_nil. }
  destruct (update_timer timeout i oldest) as [[i1 o1] b1] eqn:E1.
  destruct (update_timers timeout infos o1) as [[rest o2] b2] eqn:E2. injection E as <- <- <-.
  destruct H as [[Hi Hk]%increasing_cons H].
  destruct (IH _ _ _ _ E2) as [[Hi' H'] Hsub]; [split; [done|]; intros x Hx; apply H; by constructor|].
  assert (Hsub' : forall y, y ∈ rest -> exists x, x ∈ (k, i) :: infos /\ x.1 = y.1).
  { intros y Hy. destruct (Hsub y Hy) as (x & Hx & Ex). exists x. split; [by constructor|done]. }
  assert (Hone : forall j, i1 = Some j -> map_ok (fun _ x => TmmbItem.valid (tmmbr_item x)) (tmmbr j)).
  { intros j ->. specialize (H (k, i) ltac:(constructor)). cbn in H. unfold update_timer in E1.
    destruct (0 <? last_time_received_ms i); [destruct (last_time_received_ms i <? timeout); [|destruct (_ || _)]|destruct (ready_for_delete i)];
      try discriminate; injection E1 as <- _ _; try done. apply map_ok_nil. }
  destruct i1 as [j|]; [|by split; [split|]]. split; [split|].
  - apply increasing_cons. split; [done|]. intros y Hy. destruct (Hsub y Hy) as (x & Hx & <-). by apply Hk.
  - intros y [->|Hy]%elem_of_cons; [by apply Hone|by apply H'].
  - intros y [->|Hy]%elem_of_cons; [|by apply Hsub']. exists (k, i). split; [constructor|done].
Qed.

Lemma keeps_UpdateTmmbrTimers : keeps_ok (UpdateTmmbrTimers millis).
Proof.
  intros w [(Hr & Hl & Hrest) Hi]. unfold UpdateTmmbrTimers. wps. destruct (_ <=? _); wps; [done|].
  destruct (update_timers _ _ _) as [[infos' oldest'] b] eqn:E. wps. split; [|done]. split; [done|]. split; [|done].
  by eapply update_timers_ok.
Qed.

Lemma consume_rrtrs_ok n : forall now rrtrs its next, (n <= length rrtrs)%nat -> rrtrs_ok rrtrs its next ->
  exists l rrtrs' its', consume_rrtrs n now rrtrs its = Some (l, rrtrs', its') /\ rrtrs_ok rrtrs' its' next.
Proof.
  induction n as [|n IH]; intros now [|[node i] rrtrs] its next Hn H; cbn [consume_rrtrs length] in *; [by eexists _, _, _|by eexists _, _, _|lia|].
  assert (E : zlookup its (rrtr_ssrc i) = Some node).
  { apply value_of_elem; [apply H|]. apply (rrtrs_iterators _ _ _ H). exists i. split; [constructor|done]. }
  pose proof (rrtrs_ok_erase _ _ _ _ _ H E) as H'. cbn [List.filter fst] in H'. rewrite Nat.eqb_refl in H'. cbn [negb] in H'.
  rewrite filter_every in H'.
  2:{ intros x Hx. apply negb_true_iff, Nat.eqb_neq. intros Ex. destruct H as [_ Hd _ _ _ _]. cbn in Hd. apply NoDup_cons in Hd as [Hd _].
      apply Hd. rewrite <- Ex. by apply list_elem_of_fmap_2. }
  destruct (IH now rrtrs (zerase its (rrtr_ssrc i)) next ltac:(lia) H') as (l & rrtrs' & its' & -> & Hok).
  cbn [mbind option_bind]. by eexists _, _, _.
Qed.

Lemma keeps_Consume : keeps_ok (ConsumeReceivedXrReferenceTimeInfo ntp_offset_ms micros).
Proof.
  intros w [(Hr & Hl & Hx & Hrest) Hi]. unfold ConsumeReceivedXrReferenceTimeInfo. wps. apply wp_lift.
  set (n := Z.to_nat _). assert (Hn : (n <= length (received_rrtrs_ (this w)))%nat) by (unfold n, len; lia).
  destruct (consume_rrtrs_ok n (CompactNtp ntp) _ _ _ Hn Hx) as (l & rrtrs' & its' & -> & Hok).
  eexists. split; [done|]. cbv beta iota. wps. split; [|done]. split; [done|]. split; [done|]. split; [done|]. apply Hrest.
Qed.

(** Everything a caller may do with a receiver. *)
Inductive operation :=
  | ReceivePacket (packet : list Z)
  | ChangeRemoteSSRC (ssrc : Z)
  | EnableXrRrtr (enable : bool)
  | TakeXrRrRtt
  | TakeReferenceTimes
  | CheckRrTimeout
  | CheckSequenceNumberTimeout
  | CollectTmmbr
  | ExpireTmmbr
  | NotifyTmmbr
  | SetStatisticsCallback (b : bool)
  | SetCnameCallback (b : bool)
  | SetReportObserver (b : bool).

Definition discard {A} (m : R A) : R unit := _ ← m; mret tt.

Definition run (op : operation) : R unit :=
  match op with
  | ReceivePacket packet => IncomingPacket config ntp_offset_ms millis micros utc_micros c_sort packet
  | ChangeRemoteSSRC ssrc => SetRemoteSSRC ssrc
  | EnableXrRrtr enable => SetRtcpXrRrtrStatus enable
  | TakeXrRrRtt => discard GetAndResetXrRrRtt
  | TakeReferenceTimes => discard (ConsumeReceivedXrReferenceTimeInfo ntp_offset_ms micros)
  | CheckRrTimeout => discard (RtcpRrTimeout config millis)
  | CheckSequenceNumberTimeout => discard (RtcpRrSequenceNumberTimeout config millis)
  | CollectTmmbr => discard (TmmbrReceived millis)
  | ExpireTmmbr => discard (UpdateTmmbrTimers millis)
  | NotifyTmmbr => NotifyTmmbrUpdated config millis c_sort
  | SetStatisticsCallback b => RegisterRtcpStatisticsCallback b
  | SetCnameCallback b => RegisterRtcpCnameCallback b
  | SetReportObserver b => SetReportBlockDataObserver b
  end.

(** A packet is made of bytes; there is no other condition. *)
Definition admissible (op : operation) : Prop :=
  match op with ReceivePacket packet => bytes_ok packet | _ => True end.

Lemma keeps_run op : admissible op -> keeps_ok (run op).
Proof.
  intros Ha. destruct op; cbn [run admissible] in *; try (unfold discard; apply keeps_bind; [|intros ?; apply keeps_ret]).
  - by apply keeps_IncomingPacket.
  - unfold SetRemoteSSRC. keeps.
  - unfold SetRtcpXrRrtrStatus. keeps.
  - unfold GetAndResetXrRrRtt. keeps.
  - apply keeps_Consume.
  - unfold RtcpRrTimeout. keeps.
  - unfold RtcpRrSequenceNumberTimeout. keeps.
  - intros w Hw. by apply wp_TmmbrReceived.
  - apply keeps_UpdateTmmbrTimers.
  - apply keeps_NotifyTmmbrUpdated.
  - unfold RegisterRtcpStatisticsCallback. keeps.
  - unfold RegisterRtcpCnameCallback. keeps.
  - unfold SetReportBlockDataObserver. keeps.
Qed.

(** The states a receiver gets into. *)
Inductive reachable : world -> Prop :=
  | reachable_start now n : reachable (World (construct now) no_information n [])
  | reachable_run w op w' : reachable w -> admissible op -> run op w = Some (tt, w') -> reachable w'.

Lemma reachable_ok w : reachable w -> ok config w.
Proof.
  induction 1 as [now n|w op w' _ IH Ha E].
  - split; [|split; discriminate]. split; [apply map_ok_nil|]. split; [apply map_ok_nil|].
    split; [|split; apply map_ok_nil]. split; [done|apply NoDup_nil_2|apply NoDup_nil_2|by intros x Hx%elem_of_nil|apply increasing_nil|].
    intros s n'. split; [by intros H%elem_of_nil|]. by intros (i & H%elem_of_nil & _).
  - destruct (keeps_run op Ha w IH) as ([] & w'' & E' & H). rewrite E in E'. by injection E' as ->.
Qed.

(** *** Results *)

(** Who reports on whom. *)
Definition report_pair (d : ReportBlockData.t) : Z * Z :=
  (source_ssrc (ReportBlockData.report_block d), sender_ssrc (ReportBlockData.report_block d)).

Lemma reports_of_pairs source m : reports_of source m -> report_pair <$> m.*2 = (fun x => (source, x.1)) <$> m.
Proof.
  intros [_ H]. rewrite <- list_fmap_compose. apply list_fmap_ext. intros i x Hx. unfold compose, report_pair.
  destruct (H x) as (_ & -> & ->); [by eapply list_elem_of_lookup_2|done].
Qed.

Lemma increasing_NoDup {V} (m : zmap V) : increasing m -> NoDup m.*1.
Proof.
  induction m as [|x m IH]; [constructor|]. intros [Hi Hx]%increasing_cons. cbn. apply NoDup_cons. split; [|by apply IH].
  intros Hin. apply list_elem_of_fmap in Hin as (y & E & Hy). specialize (Hx y Hy). lia.
Qed.

(** There is one report of each pair of a sender and a source. *)
Lemma latest_reports_unique blocks : reports_ok config blocks ->
  NoDup (report_pair <$> mjoin ((fun x => x.2.*2) <$> blocks)).
Proof.
  induction blocks as [|[source m] blocks IH]; intros [Hi H]; [constructor|]. apply increasing_cons in Hi as [Hi Hx].
  change (mjoin (?f <$> ?x :: ?l)) with (f x ++ mjoin (f <$> l)). rewrite fmap_app. cbn [snd].
  destruct (H (source, m) ltac:(constructor)) as [_ Hm]. cbn [fst snd] in Hm. rewrite (reports_of_pairs _ _ Hm).
  apply NoDup_app. split; [|split].
  - change ((fun x => (source, x.1)) <$> m) with (pair source ∘ fst <$> m). rewrite list_fmap_compose.
    apply NoDup_fmap_2; [by intros a b [=]|]. apply increasing_NoDup, Hm.
  - intros p Hp Hp'. apply list_elem_of_fmap in Hp as (y & -> & _). apply list_elem_of_fmap in Hp' as (d & E & Hd).
    apply list_elem_of_join in Hd as (l & Hd & Hl). apply list_elem_of_fmap in Hl as ([s' m'] & -> & Hin).
    destruct (H (s', m') ltac:(by constructor)) as [_ [_ Hm']]. apply list_elem_of_fmap in Hd as (z & -> & Hz).
    destruct (Hm' z Hz) as (_ & Es & _). specialize (Hx _ Hin). cbn in Hx, Es. unfold report_pair in E. injection E as E1 E2. lia.
  - apply IH. split; [done|]. intros x Hin. apply H. by constructor.
Qed.

(** The four times of [RTT] are in order. *)
Definition rtt_in_order (r : Z * Z * Z * Z) : Prop :=
  let '(last, avg, min, max) := r in 1 <= min <= avg /\ avg <= max /\ min <= last <= max.

Lemma RTT_in_order w remote r w' : ok config w -> RTT config remote w = Some (Some r, w') -> rtt_in_order r.
Proof.
  intros [(Hr & _) _] E. unfold RTT in E. cbn in E. injection E as E _.
  destruct (zlookup (received_report_blocks_ (this w)) (main_ssrc_ config)) as [m|] eqn:E1; [|done]. cbn in E.
  destruct (map_ok_lookup _ _ _ _ Hr E1) as [_ Hm].
  destruct (zlookup m remote) as [d|] eqn:E2; [|done]. cbn in E. destruct (map_ok_lookup _ _ _ _ Hm E2) as [(Hn & _ & H) _].
  destruct (Z.eqb_spec (ReportBlockData.num_rtts d) 0); [done|]. injection E as <-. destruct H as (H1 & H2 & H3); [lia|].
  unfold rtt_in_order. set (avg := _ / _). assert (ReportBlockData.min_rtt_ms d <= avg <= ReportBlockData.max_rtt_ms d); [|lia].
  split; [apply Z.div_le_lower_bound; lia|apply Z.div_le_upper_bound; lia].
Qed.

(** C9: the RTCP receiver on arbitrary input.  Whatever datagrams arrive and in whatever order its
    operations are called, every operation returns (the loop over the blocks of a datagram stops), fails
    no check, reads only inside the datagram and never uses an iterator of an erased element.  The receiver keeps its invariant:
    reports are kept for registered sources only, under the ssrcs they name; limits are valid; at most
    200 reference times are stored, one for each ssrc, with exactly one iterator each; names have at
    most 255 bytes.  The times [RTT] returns are in order (1 ms <= minimum <= average <= maximum, the
    last between the extremes), and [GetLatestReportBlockData] has one report of each pair of ssrcs. *)
Theorem rtcp_receiver_safe w : reachable w ->
  receiver_ok config (this w) /\
  (forall op, admissible op -> exists w', run op w = Some (tt, w') /\ receiver_ok config (this w')) /\
  (forall remote r w', RTT config remote w = Some (Some r, w') -> rtt_in_order r) /\
  (exists l, GetLatestReportBlockData w = Some (l, w) /\ NoDup (report_pair <$> l)).
Proof.
  intros H. pose proof (reachable_ok w H) as Hok. split; [apply Hok|]. split; [|split].
  - intros op Ha. destruct (keeps_run op Ha w Hok) as ([] & w' & E & H'). exists w'. split; [done|apply H'].
  - intros remote r w' E. by eapply RTT_in_order.
  - eexists. split; [done|]. apply latest_reports_unique, Hok.
Qed.

End Receiving.

(** ** A receiver of two sources that got one receiver report *)

Definition sample_config : RTCPReceiver.Configuration :=
  RTCPReceiver.Config false 1 [1; 2] true true true true true true true 1000.
Definition sample_millis (n : nat) : Z := 1000 + Z.of_nat n.
Definition sample_micros (n : nat) : Z := 1000 * sample_millis n.

Definition sample_report : list Z :=
  [0x81; 201; 0; 7; 0; 0; 0; 9; 0; 0; 0; 1; 5; 0; 0; 3; 0; 0; 4; 0; 0; 0; 0; 2; 0; 0; 0xC0; 0; 0; 0; 0x10; 0].

Definition sample_run : operation -> RTCPReceiver.world -> option (unit * RTCPReceiver.world) :=
  run sample_config 0 sample_millis sample_micros sample_micros stable_sort.

Definition sample_start : RTCPReceiver.world :=
  RTCPReceiver.World (RTCPReceiver.construct 1000) RTCPReceiver.no_information 0 [].

Definition sample_world : RTCPReceiver.world :=
  match sample_run (ReceivePacket sample_report) sample_start with Some (_, w) => w | None => sample_start end.

(** One callback of each kind a report causes, and the round trip time it shows. *)
Example sample_round_trip :
  RTCPReceiver.RTT sample_config 9 sample_world = Some (Some (191, 191, 191, 191), sample_world) /\
  length (RTCPReceiver.calls sample_world) = 3%nat.
Proof. vm_compute. split; reflexivity. Qed.

Lemma sample_clock : forall n, 0 <= sample_micros n + 0 * 1000.
Proof. intros n. unfold sample_micros, sample_millis. lia. Qed.

Lemma rtcp_receiver_safe_witness :
  receiver_ok sample_config (RTCPReceiver.this sample_world) /\ rtt_in_order (191, 191, 191, 191) /\
  exists w', sample_run (ReceivePacket [0x80; 203; 0; 0; 1]) sample_world = Some (tt, w').
Proof.
  destruct (rtcp_receiver_safe sample_config 0 sample_millis sample_micros sample_micros stable_sort sample_clock
              (fun H => match Bool.diff_false_true H with end) stable_sort_sorts sample_world) as (Hok & Hrun & Hrtt & _).
  - apply (reachable_run _ _ _ _ _ _ sample_start (ReceivePacket sample_report));
      [apply reachable_start|by_compute|vm_compute; reflexivity].
  - split; [exact Hok|]. split; [apply (Hrtt 9 _ sample_world); vm_compute; reflexivity|].
    destruct (Hrun (ReceivePacket [0x80; 203; 0; 0; 1])) as (w' & E & _); [by_compute|]. exists w'. exact E.
Defined.
