(* ===== verification/RtcpDelivery.v ===== *)
(** * What the RTCP receiver delivers

    Two properties of the way from a packet to the callbacks: a NACK that was built into datagrams reaches
    the owning module complete and in order, and the round trip time computed from a report block is
    accurate to half a millisecond and one tick of the compact NTP time. *)

From stdpp Require Import sorting.
From S2P Require Import Prelude ByteIo Rtcp Wire Reports SourceDesc Feedback Nack Bitrate ExtendedReports.
From S2P Require Import FeedbackChunk TransportFeedback SeqNum OrderedSet TimeUtil TmmbrHelp TmmbrBounding.
From S2P Require Import RtcpReceiver RtcpReceive.

Import RTCPReceiver.

(** ** Request statistics *)

Definition count_requests : list Z -> RtcpNackStats.t -> RtcpNackStats.t := fold_left RtcpNackStats.ReportRequest.

Lemma requests_counted ids : forall s, in_u 32 (RtcpNackStats.requests_ s) ->
  RtcpNackStats.requests_ (count_requests ids s) = u32 (RtcpNackStats.requests_ s + len ids).
Proof.
  induction ids as [|id ids IH]; intros s Hs; cbn [count_requests fold_left].
  - rewrite len_nil, Z.add_0_r. symmetry. by apply wrap_small.
  - fold (count_requests ids (RtcpNackStats.ReportRequest s id)). rewrite IH by (apply wrap_range; lia).
    cbn [RtcpNackStats.requests_ RtcpNackStats.ReportRequest]. rewrite len_cons. unfold wrap. rewrite Zplus_mod_idemp_l. f_equal. lia.
Qed.

Lemma each_request ids : forall w,
  each ids (fun id => modify (fun r => set_nack_stats (RtcpNackStats.ReportRequest (nack_stats_ r) id) r)) w =
  Some (tt, World (set_nack_stats (count_requests ids (nack_stats_ (this w))) (this w)) (information w) (reads w) (calls w)).
Proof.
  induction ids as [|id ids IH]; intros w; cbn [each].
  - by destruct w as [[] i n c].
  - rewrite (ST_bind_ret _ _ _ tt _ eq_refl), IH. done.
Qed.

Section Delivery.
Context (config : Configuration) (ntp_offset_ms : Z) (millis micros utc_micros : nat -> Z).
Context (c_sort : list TmmbItem.t -> list TmmbItem.t).

Abbreviation receive := (IncomingPacket config ntp_offset_ms millis micros utc_micros c_sort).

(** ** A NACK datagram *)

(** The requests among the calls. *)
Definition asked (l : list event) : list Z := mjoin ((fun e => match e with OnReceivedNack ids => ids | _ => [] end) <$> l).

Lemma requested_app a b : asked (a ++ b) = asked a ++ asked b.
Proof. unfold asked. by rewrite fmap_app, join_app. Qed.

(** From one state to another the module was asked for [ids], the requests [counted] were counted, and
    nothing was skipped. *)
Record delivered (ids counted : list Z) (w w' : world) : Prop := {
  delivered_calls : exists l, calls w' = calls w ++ l /\ asked l = ids;
  delivered_stats : nack_stats_ (this w') = count_requests counted (nack_stats_ (this w));
  delivered_skipped : num_skipped_packets_ (this w') = num_skipped_packets_ (this w)
}.

Lemma delivered_trans a b c d w1 w2 w3 : delivered a b w1 w2 -> delivered c d w2 w3 -> delivered (a ++ c) (b ++ d) w1 w3.
Proof.
  intros [(l1 & H1 & A1) S1 K1] [(l2 & H2 & A2) S2 K2]. split.
  - exists (l1 ++ l2). by rewrite H2, H1, app_assoc, requested_app, A1, A2.
  - rewrite S2, S1. unfold count_requests. by rewrite fold_left_app.
  - congruence.
Qed.

(** Steps that neither call nor count. *)
Lemma delivered_quiet w r i n : nack_stats_ r = nack_stats_ (this w) ->
  num_skipped_packets_ r = num_skipped_packets_ (this w) -> delivered [] [] w (World r i n (calls w)).
Proof. intros H1 H2. split; [|done|done]. exists []. by rewrite app_nil_r. Qed.

Lemma delivered_refl w : delivered [] [] w w.
Proof. destruct w as [r i n c]. by apply (delivered_quiet (World r i n c)). Qed.

(** The information of a datagram that has one NACK. *)
Definition nack_information (ids : list Z) : PacketInformation := Information kRtcpNack 0 ids [] [] 0 0 None None None None.

Lemma trigger_nack ids w : receiver_only_ config = false -> ids <> [] ->
  TriggerCallbacksFromRtcpPacket config millis c_sort (nack_information ids) w =
  Some (tt, World (this w) (information w) (reads w) (calls w ++ [OnReceivedNack ids])).
Proof.
  intros Hr Hne. unfold TriggerCallbacksFromRtcpPacket, trigger_intra_frame, trigger_loss_notification, trigger_bandwidth,
    trigger_transport_feedback, trigger_statistics. cbn [nack_information packet_type_flags nack_sequence_numbers report_blocks report_block_datas
      network_state_estimate target_bitrate_allocation].
  rewrite Hr, bool_decide_eq_false_2 by done. change (has kRtcpNack kRtcpTmmbr) with false. change (has kRtcpNack kRtcpSrReq) with false.
  change (has kRtcpNack kRtcpNack) with true. change (has kRtcpNack kRtcpPli) with false. change (has kRtcpNack kRtcpFir) with false.
  change (has kRtcpNack kRtcpLossNotification) with false. change (has kRtcpNack kRtcpRemb) with false.
  change (has kRtcpNack kRtcpSr) with false. change (has kRtcpNack kRtcpRr) with false.
  change (has kRtcpNack kRtcpTransportFeedback) with false. rewrite !andb_false_r. cbn [negb andb orb when].
  destruct w as [r i n c]. cbn [this information reads calls].
  cbv [mbind ST_bind mret ST_ret member when call dcheck each]. cbn [this information reads calls].
  destruct (rtcp_intra_frame_observer_ config), (rtcp_bandwidth_observer_ config); cbn [this];
    destruct (stats_callback_ r); cbn [this]; by destruct (report_block_data_observer_ r).
Qed.

(** [note_first_packet] and the notifications around the handlers deliver nothing. *)
Lemma wp_note_first_packet Q w :
  (forall w', delivered [] [] w w' -> information w' = information w -> Q tt w') -> wp (note_first_packet millis) Q w.
Proof.
  intros HQ. unfold note_first_packet. apply wp_bind, wp_member. destruct (_ =? _).
  - apply wp_bind, wp_reading, wp_modify. apply HQ; [by apply (delivered_quiet w)|done].
  - apply wp_ret. apply HQ; [apply delivered_refl|done].
Qed.

Lemma wp_HandleNack h y Q w :
  receiver_only_ config = false -> Nack.Parse Nack.init h = Some (true, y) -> Rtpfb.media_ssrc (Nack.fb y) = main_ssrc_ config ->
  Nack.packet_ids y <> [] -> information w = no_information ->
  (forall w', delivered [] (Nack.packet_ids y) w w' -> information w' = nack_information (Nack.packet_ids y) -> Q tt w') ->
  wp (HandleNack config h) Q w.
Proof.
  intros Hr E Hm Hne Hi HQ. unfold HandleNack, parsed. rewrite E. apply wp_bind, wp_lift. eexists. split; [done|].
  rewrite Hr, Hm, Z.eqb_refl. cbn [orb negb]. apply wp_bind, wp_inform, wp_bind. eexists tt, _. split; [apply each_request|].
  rewrite bool_decide_eq_false_2 by done. cbn [this information reads calls]. apply wp_bind, wp_inform, wp_modify. apply HQ.
  - split; [|done|done]. exists []. by rewrite app_nil_r.
  - cbn [information]. by rewrite Hi.
Qed.

(** A datagram that is one packet. *)
Lemma wp_single_block d h Q w :
  d <> [] -> CommonHeader.Parse CommonHeader.init d (len d) = Some (true, h) -> CommonHeader.NextPacket h = [] ->
  wp (note_first_packet millis) (fun _ => wp (dispatch config ntp_offset_ms millis micros utc_micros h) (fun _ => Q true)) w ->
  wp (parse_blocks config ntp_offset_ms millis micros utc_micros (length d) CommonHeader.init d true) Q w.
Proof.
  intros Hne E Hn H. destruct d as [|b d]; [done|]. cbn [parse_blocks length]. apply wp_bind, wp_lift. rewrite E. eexists. split; [done|].
  cbn [negb]. rewrite Hn. destruct H as (a & w1 & E1 & a2 & w2 & E2 & HQ). eexists true, w2. split; [|done].
  rewrite (ST_bind_ret _ _ _ _ _ E1). rewrite (ST_bind_ret _ _ _ _ _ E2). by destruct (length d).
Qed.

(** What follows the blocks: the counters are announced and a warning may be logged. *)
Lemma wp_after_blocks Q w : (forall w', delivered [] [] w w' -> information w' = information w -> Q true w') ->
  wp (counter ← member packet_type_counter_;
      (if packet_type_counter_observer_ config then call (RtcpPacketTypesCounterUpdated (main_ssrc_ config) counter) else mret tt) ;;
      now ← TimeInMilliseconds millis;
      last ← member last_skipped_packets_warning_ms_;
      skipped ← member num_skipped_packets_;
      (if (kMaxWarningLogIntervalMs <=? now - last) && (0 <? skipped)
       then modify (set_last_skipped_packets_warning_ms now) else mret tt) ;;
      mret true) Q w.
Proof.
  intros HQ. apply wp_bind, wp_member, wp_bind.
  apply (wp_mono _ (fun _ w' => delivered [] [] w w' /\ information w' = information w)).
  { destruct (packet_type_counter_observer_ config); [apply wp_call|apply wp_ret; split; [apply delivered_refl|done]].
    split; [|done]. split; [by eexists|done|done]. }
  intros [] w1 [D1 I1]. apply wp_bind, wp_reading, wp_bind, wp_member, wp_bind, wp_member, wp_bind.
  destruct (_ && _); [apply wp_modify|apply wp_ret]; apply wp_ret, HQ; try done;
    (eapply (delivered_trans [] [] [] []); [exact D1|by apply (delivered_quiet w1)]).
Qed.

(** The header of a NACK datagram. *)
Lemma fragment_header fb items : len items + 2 <= 0xffff ->
  exists h, CommonHeader.Parse CommonHeader.init (Nack.frag_wire fb items) (len (Nack.frag_wire fb items)) = Some (true, h) /\
    CommonHeader.NextPacket h = [] /\ CommonHeader.type h = Rtpfb.kPacketType /\ CommonHeader.fmt h = Nack.kFeedbackMessageType.
Proof.
  intros Hl. rewrite Nack.len_frag_wire. unfold Nack.frag_wire.
  rewrite HeaderFacts.HeaderFacts_Parse_wire; [|by_compute|by_compute|apply Nack.Nack_words_range; lia|lia].
  eexists. split; [done|]. split; [|done]. unfold CommonHeader.NextPacket, ptr_add.
  cbn [CommonHeader.payload CommonHeader.payload_size CommonHeader.padding_size]. apply drop_ge.
  pose proof (Nack.Nack_len_payload_wire fb items) as E. unfold len in *. lia.
Qed.

(** One NACK packet in a datagram. *)
Lemma fragment_received fb items w :
  Rtpfb.valid fb -> Rtpfb.media_ssrc fb = main_ssrc_ config -> receiver_only_ config = false ->
  Forall Nack.item_valid items -> items <> [] -> 2 + len items <= 0xffff ->
  wp (receive (Nack.frag_wire fb items)) (fun _ => delivered (mjoin (Nack.item_ids <$> items)) (mjoin (Nack.item_ids <$> items)) w) w.
Proof.
  intros Hfb Hm Hr Hv Hne Hl. unfold IncomingPacket. rewrite Nack.len_frag_wire.
  rewrite (proj2 (Z.eqb_neq _ _)) by (pose proof (len_nonneg items); lia). apply wp_bind, wp_inform, wp_bind.
  set (w0 := World _ _ _ _). set (ids := mjoin _). assert (Hids : ids <> []) by (by destruct items).
  destruct (fragment_header fb items) as (h & E & Hn & Ht & Hf); [lia|].
  destruct (Nack.frag_parses fb items CommonHeader.init Nack.init Hfb Hv Hne Hl) as (h' & E' & Hp).
  rewrite E in E'. injection E' as <-. unfold ParseCompoundPacket. apply wp_bind.
  apply (wp_single_block _ h); [done|done|done|]. apply wp_note_first_packet. intros w1 D1 I1.
  assert (Ed : dispatch config ntp_offset_ms millis micros utc_micros h = HandleNack config h).
  { unfold dispatch. by rewrite Ht, Hf. }
  rewrite Ed. apply (wp_HandleNack h _ _ _ Hr Hp); [done|done|by rewrite I1|]. intros w2 D2 I2. cbn [negb].
  apply wp_after_blocks. intros w3 D3 I3. cbn [negb]. apply wp_bind. exists (information w3), w3. split; [done|].
  rewrite I3, I2. eexists tt, _. split; [by apply trigger_nack|].
  assert (D4 : delivered ids [] w3 (World (this w3) (information w3) (reads w3) (calls w3 ++ [OnReceivedNack ids]))).
  { split; [|done|done]. eexists. split; [done|]. unfold asked. cbn. apply app_nil_r. }
  pose proof (delivered_trans _ _ _ _ _ _ _ D1 (delivered_trans _ _ _ _ _ _ _ D2 (delivered_trans _ _ _ _ _ _ _ D3 D4))) as D.
  cbn [app] in D. rewrite app_nil_r in D. destruct D as [Hc Hst Hsk]. by split.
Qed.

(** Fragments in a row. *)
Lemma fragments_received fb parts : forall w,
  Rtpfb.valid fb -> Rtpfb.media_ssrc fb = main_ssrc_ config -> receiver_only_ config = false ->
  Forall (fun items => Forall Nack.item_valid items /\ items <> [] /\ 2 + len items <= 0xffff) parts ->
  wp (each (Nack.frag_wire fb <$> parts) receive)
    (fun _ => delivered (mjoin (Nack.item_ids <$> mjoin parts)) (mjoin (Nack.item_ids <$> mjoin parts)) w) w.
Proof.
  induction parts as [|p parts IH]; intros w Hfb Hm Hr Hp; [apply wp_ret, delivered_refl|].
  apply Forall_cons in Hp as [(H1 & H2 & H3) Hp]. change (Nack.frag_wire fb <$> p :: parts) with (Nack.frag_wire fb p :: (Nack.frag_wire fb <$> parts)).
  cbn [each]. apply wp_bind. eapply wp_mono; [by apply (fragment_received fb p w)|]. intros [] w1 D1.
  eapply wp_mono; [by apply (IH w1)|]. intros [] w2 D2. change (mjoin (p :: parts)) with (p ++ mjoin parts).
  rewrite fmap_app, join_app. by eapply delivered_trans.
Qed.

(** C10: a NACK reaches the module.  The packet ids a receiver of media asks for (increasing sequence
    numbers across at most one period, wrap-around included, no more than fit in one packet) are put
    into a NACK with [SetPacketIds], built into datagrams of at most [max] bytes (16 to 1500) and received one after
    the other by an RTCP receiver in any state that sends media and whose media ssrc it names:
    the calls of [OnReceivedNack] ask for exactly these ids, in order; each is counted once as a request;
    nothing is skipped. *)
Theorem nack_delivered fb seqs max mem w :
  Rtpfb.valid fb -> Rtpfb.media_ssrc fb = main_ssrc_ config -> receiver_only_ config = false ->
  seqs <> [] -> StronglySorted Z.lt seqs -> (forall p q, p ∈ seqs -> q ∈ seqs -> q - p < 2 ^ 16) -> len seqs <= 0xfffd ->
  16 <= max <= RtcpPacket.IP_PACKET_SIZE -> len mem = RtcpPacket.IP_PACKET_SIZE ->
  in_u 32 (RtcpNackStats.requests_ (nack_stats_ (this w))) ->
  exists x ds w', Nack.SetPacketIds (Nack.MkNack fb [] []) (u16 <$> seqs) = Some x /\
    Build.BuildTo x max mem = Some (true, ds) /\ each ds receive w = Some (tt, w') /\
    (exists l, calls w' = calls w ++ l /\ asked l = u16 <$> seqs) /\
    RtcpNackStats.requests_ (nack_stats_ (this w')) = u32 (RtcpNackStats.requests_ (nack_stats_ (this w)) + len seqs) /\
    num_skipped_packets_ (this w') = num_skipped_packets_ (this w).
Proof.
  intros Hfb Hm Hr Hne Hs Hsp Hlen Hmax Hmem Hreq.
  destruct (Nack.pack_loop_sorted (length seqs) seqs) as (l & Hl & Hv & Hids); [done..|].
  destruct (Nack.pack_loop_spec (length seqs) (u16 <$> seqs)) as (l' & Hl' & _ & Hll & Hln & _).
  { by rewrite length_fmap. }
  { apply Forall_fmap, Forall_forall. intros x _. apply wrap_range. lia. }
  rewrite Hl in Hl'. injection Hl' as <-. rewrite len_fmap in Hll.
  assert (Hlne : l <> []) by (apply Hln; by destruct seqs).
  set (x := Nack.MkNack fb l (u16 <$> seqs)).
  destruct (Nack.BuildTo_datagrams x max mem) as (parts & Hb & Hj & Hpne & _); [|done|done|].
  { split; cbn; [done|done|done|lia]. }
  cbn [x Nack.packed Nack.fb] in Hj, Hb. subst l.
  destruct (fragments_received fb parts w Hfb Hm Hr) as ([] & w' & E & [Hc Hst Hsk]).
  { rewrite Forall_forall in Hpne. rewrite Forall_forall in Hv. apply Forall_forall. intros p Hp. split; [|split; [by apply Hpne|]].
    - apply Forall_forall. intros i Hi. apply Hv. apply list_elem_of_join. by exists p.
    - enough (len p <= len (mjoin parts)) by lia. apply list_elem_of_split in Hp as (a & c & ->).
      rewrite join_app. change (mjoin (p :: c)) with (p ++ mjoin c). rewrite !len_app.
      pose proof (len_nonneg (mjoin a)). pose proof (len_nonneg (mjoin c)). lia. }
  rewrite Hids in Hc, Hst. exists x, (Nack.frag_wire fb <$> parts), w'. split.
  { unfold Nack.SetPacketIds, Nack.Pack. cbn [Nack.packet_ids Nack.packed Nack.fb].
    rewrite (bool_decide_eq_false_2 (u16 <$> seqs = [])) by (by destruct seqs). cbn. rewrite length_fmap, Hl. done. }
  split; [done|]. split; [done|]. split; [done|]. split; [|done].
  rewrite Hst, requests_counted, len_fmap by done. done.
Qed.

(** ** Round trip times *)

Context (clock_ok : forall n, 0 <= micros n + ntp_offset_ms * 1000).

(** The compact NTP time of a local time. *)
Definition compact_of (us : Z) : option Z := CompactNtp <$> TimeMicrosToNtp ntp_offset_ms us.

(** The round trip time since the local time [sent], less a delay, at a reading of the clock. *)
Definition round_trip (sent delay : Z) (n : nat) : Z := 65536 * (micros n - sent) - 1000000 * delay.

(** The time computed at a reading of the clock. *)
Lemma rtt_at_reading sent delay stamp n ntp :
  0 <= sent + ntp_offset_ms * 1000 -> compact_of sent = Some stamp ->
  - 2147483646 * 1000000 <= round_trip sent delay n <= 2147483646 * 1000000 ->
  TimeMicrosToNtp ntp_offset_ms (micros n) = Some ntp ->
  exists r, CompactNtpRttToMs (u32 (CompactNtp ntp - delay - stamp)) = Some r /\ accurate (round_trip sent delay n) r.
Proof.
  intros Hs Hst Hb E. rewrite (compact_ntp_ticks _ _ _ (clock_ok n) E).
  unfold compact_of in Hst. destruct (TimeMicrosToNtp ntp_offset_ms sent) as [m|] eqn:Em; [|done]. injection Hst as <-.
  rewrite (compact_ntp_ticks _ _ _ Hs Em).
  destruct (rtt_accurate (sent + ntp_offset_ms * 1000) delay (micros n + ntp_offset_ms * 1000)) as (r & Er & Ha).
  - unfold round_trip in Hb. lia.
  - exists r. split; [done|]. unfold round_trip. by replace (micros n - sent) with (micros n + ntp_offset_ms * 1000 - (sent + ntp_offset_ms * 1000)) by lia.
Qed.

Lemma wp_clock Q w :
  (forall ntp, TimeMicrosToNtp ntp_offset_ms (micros (reads w)) = Some ntp ->
     Q ntp (World (this w) (information w) (S (reads w)) (calls w))) -> wp (NowNtp ntp_offset_ms micros) Q w.
Proof.
  intros H. apply wp_bind, wp_reading, wp_lift. destruct (ntp_total _ _ (clock_ok (reads w))) as (n & E & _).
  exists n. split; [exact E|by apply H].
Qed.

(** C31: round trip times are accurate.  When a report block for a registered source carries the compact
    NTP time of the local time [sent] and the delay at the remote (in ticks of 1/65536 s), the receiver
    computes, at some reading of its clock while the block is handled, the time since [sent] less the
    delay, in milliseconds: at least 1 and off by at most half a millisecond and one tick (or 1 when it is shorter than
    that, or negative).  This is the time handed to the callbacks and kept with the report.  The same
    holds of the time computed from a DLRR block of an extended report.  The times may be up to nine
    hours apart. *)
Theorem round_trip_accurate b rti remote sent w :
  0 <= sent + ntp_offset_ms * 1000 ->
  registered config (ReportBlock.source_ssrc b) = true -> ReportBlock.last_sr b <> 0 ->
  compact_of sent = Some (ReportBlock.last_sr b) ->
  registered config (Dlrr.ssrc rti) = true -> Dlrr.last_rr rti = ReportBlock.last_sr b ->
  Dlrr.delay_since_last_rr rti = ReportBlock.delay_since_last_sr b -> xr_rrtr_status_ (this w) = true ->
  (forall n, (reads w <= n <= reads w + 3)%nat ->
     - 2147483646 * 1000000 <= round_trip sent (ReportBlock.delay_since_last_sr b) n <= 2147483646 * 1000000) ->
  wp (HandleReportBlock config ntp_offset_ms millis micros utc_micros b remote)
    (fun _ w' => exists n d, (reads w <= n < reads w')%nat /\
       accurate (round_trip sent (ReportBlock.delay_since_last_sr b) n) (rtt_ms (information w')) /\
       report_block_datas (information w') = report_block_datas (information w) ++ [d] /\
       ReportBlockData.last_rtt_ms d = rtt_ms (information w')) w /\
  wp (HandleXrDlrrReportBlock config ntp_offset_ms micros rti)
    (fun _ w' => accurate (round_trip sent (ReportBlock.delay_since_last_sr b) (reads w)) (xr_rr_rtt_ms_ (this w'))) w.
Proof.
  intros Hs Hreg Hnz Hst Hreg2 Hlrr Hdel Hxr Hb. split.
  - unfold HandleReportBlock. rewrite Hreg. cbn [negb]. cbv zeta. apply wp_bind, wp_reading, wp_bind, wp_modify, wp_bind, wp_member, wp_bind.
    set (w1 := World _ _ _ _). set (cond := _ <? _).
    apply (wp_mono _ (fun _ w' => (reads w < reads w' <= reads w + 2)%nat /\ information w' = information w)).
    { destruct cond; [apply wp_bind, wp_reading, wp_modify|apply wp_ret]; (split; [cbn; lia|done]). }
    intros [] w2 [R2 I2]. apply wp_bind, wp_reading, wp_bind.
    rewrite (proj2 (Z.eqb_neq _ _)) by done. cbn [negb]. apply wp_bind, wp_clock. cbn [reads]. intros ntp E.
    destruct (rtt_at_reading _ _ _ _ _ Hs Hst (Hb (S (reads w2)) ltac:(lia)) E) as (r & Er & Ha).
    apply wp_bind, wp_lift. exists r. split; [done|]. apply wp_bind, wp_inform, wp_ret, wp_bind, wp_modify, wp_bind, wp_inform, wp_inform.
    eexists (S (reads w2)), _. split; [cbn; lia|]. split; [done|]. split; [cbn; by rewrite I2|done].
  - unfold HandleXrDlrrReportBlock. rewrite Hreg2. cbn [negb]. apply wp_bind, wp_member. rewrite Hxr. cbn [negb]. cbv zeta.
    rewrite Hlrr, (proj2 (Z.eqb_neq _ _)) by done. apply wp_bind, wp_clock. intros ntp E. rewrite Hdel.
    destruct (rtt_at_reading _ _ _ _ _ Hs Hst (Hb (reads w) ltac:(lia)) E) as (r & Er & Ha).
    apply wp_bind, wp_lift. exists r. split; [done|]. by apply wp_modify.
Qed.

End Delivery.

(** ** Examples *)

(** Five requests across the wrap-around, in datagrams of one item each. *)
Lemma nack_delivered_witness :
  exists x ds w', Nack.SetPacketIds (Nack.MkNack (Rtpfb.MkRtpfb 7 1) [] []) [65534; 65535; 0; 14; 300] = Some x /\
    Build.BuildTo x 16 (replicate 1500 0) = Some (true, ds) /\ length ds = 2%nat /\
    each ds (IncomingPacket sample_config 0 sample_millis sample_micros sample_micros stable_sort) sample_start = Some (tt, w') /\
    exists l, calls w' = calls sample_start ++ l /\ asked l = [65534; 65535; 0; 14; 300].
Proof.
  destruct (nack_delivered sample_config 0 sample_millis sample_micros sample_micros stable_sort
              (Rtpfb.MkRtpfb 7 1) [65534; 65535; 65536; 65550; 65836] 16 (replicate 1500 0) sample_start)
    as (x & ds & w' & Hx & Hds & Hw & Hc & _).
  - split; by_compute.
  - reflexivity.
  - reflexivity.
  - discriminate.
  - repeat constructor; lia.
  - intros p q Hp Hq. rewrite !elem_of_cons, elem_of_nil in Hp, Hq. intuition lia.
  - by_compute.
  - by_compute.
  - reflexivity.
  - by_compute.
  - exists x, ds, w'. split; [exact Hx|]. split; [exact Hds|]. split; [|split; [exact Hw|exact Hc]].
    assert (Hx' : Some x = Some (Nack.MkNack (Rtpfb.MkRtpfb 7 1) [Nack.MkPacked 65534 0x8003; Nack.MkPacked 300 0] [65534; 65535; 0; 14; 300]))
      by (rewrite <- Hx; vm_compute; reflexivity).
    injection Hx' as ->. assert (E : Some (true, ds) = Some (true, ds)) by reflexivity. rewrite <- Hds in E at 1.
    vm_compute in E. injection E as <-. reflexivity.
Defined.

(** A sender report of the local time 0.75 s, held for 1/16 s at the remote. *)
Definition sample_block : ReportBlock.t := ReportBlock.Block 1 5 3 1024 2 0xC000 0x1000.

Lemma round_trip_accurate_witness :
  wp (HandleReportBlock sample_config 0 sample_millis sample_micros sample_micros sample_block 9)
    (fun _ w' => exists n d, (0 <= n < reads w')%nat /\
       accurate (round_trip sample_micros 750000 0x1000 n) (rtt_ms (information w')) /\
       report_block_datas (information w') = [d] /\ ReportBlockData.last_rtt_ms d = rtt_ms (information w'))
    (World (set_xr_rrtr_status true (construct 1000)) no_information 0 []).
Proof.
  apply (round_trip_accurate sample_config 0 sample_millis sample_micros sample_micros sample_clock sample_block
           (Dlrr.MkInfo 1 0xC000 0x1000) 9 750000).
  - lia.
  - reflexivity.
  - discriminate.
  - reflexivity.
  - reflexivity.
  - reflexivity.
  - reflexivity.
  - reflexivity.
  - intros n Hn. cbn [reads] in Hn. unfold round_trip, sample_micros, sample_millis. cbn. lia.
Defined.
