(* ===== verification/Packetize.v ===== *)
(** * Splitting payloads

    Model of [RtpPacketizer::SplitAboutEqually] (rtp_rtcp/rtp_format.cc), on which all packetisers
    stand, and the proof that it is optimal: it finds a split within the limits whenever there is
    one, with the least number of packets. *)

From S2P Require Import Prelude.

Module RtpPacketizer.

Record PayloadSizeLimits := Limits {
  max_payload_len : Z;
  first_packet_reduction_len : Z;
  last_packet_reduction_len : Z;
  single_packet_reduction_len : Z
}.

(** The value of an expression of type [int]; an overflow is undefined. *)
Definition int (v : Z) : option Z := check (bool_decide (in_s 32 v)) ;; Some v.

(** The loop of [SplitAboutEqually]; the vector from here on. *)
Fixpoint split_loop (fuel : nat) (limits : PayloadSizeLimits) (num_larger_packets num_packets_left
    bytes_per_packet remaining_data : Z) (first_packet : bool) : option (list Z) :=
  if negb (0 <? remaining_data) then Some [] else
  match fuel with
  | O => None
  | S fuel' =>
      let bytes_per_packet :=
        if num_packets_left =? num_larger_packets then bytes_per_packet + 1 else bytes_per_packet in
      let current_packet_bytes :=
        if first_packet then
          if first_packet_reduction_len limits + 1 <? bytes_per_packet
          then bytes_per_packet - first_packet_reduction_len limits else 1
        else bytes_per_packet in
      let current_packet_bytes :=
        if remaining_data <? current_packet_bytes then remaining_data else current_packet_bytes in
      let current_packet_bytes :=
        if (num_packets_left =? 2) && (current_packet_bytes =? remaining_data)
        then current_packet_bytes - 1 else current_packet_bytes in
      result ← split_loop fuel' limits num_larger_packets (num_packets_left - 1) bytes_per_packet
                 (remaining_data - current_packet_bytes) false;
      Some (current_packet_bytes :: result)
  end.

Definition SplitAboutEqually (payload_len : Z) (limits : PayloadSizeLimits) : option (list Z) :=
  check (0 <? payload_len) ;;
  check (0 <=? first_packet_reduction_len limits) ;;
  check (0 <=? last_packet_reduction_len limits) ;;
  single ← int (single_packet_reduction_len limits + payload_len);
  if single <=? max_payload_len limits then Some [payload_len] else
  first_capacity ← int (max_payload_len limits - first_packet_reduction_len limits);
  last_capacity ← int (max_payload_len limits - last_packet_reduction_len limits);
  if (first_capacity <? 1) || (last_capacity <? 1) then Some [] else
  sum ← int (payload_len + first_packet_reduction_len limits);
  total_bytes ← int (sum + last_packet_reduction_len limits);
  rounded_up ← int (total_bytes + max_payload_len limits);
  let num_packets_left := Z.quot (rounded_up - 1) (max_payload_len limits) in
  let num_packets_left := if num_packets_left =? 1 then 2 else num_packets_left in
  if payload_len <? num_packets_left then Some [] else
  split_loop (S (Z.to_nat payload_len)) limits (Z.rem total_bytes num_packets_left) num_packets_left
    (Z.quot total_bytes num_packets_left) payload_len true.

End RtpPacketizer.

Import RtpPacketizer.

Lemma int_ok v : - 2 ^ 31 <= v < 2 ^ 31 -> int v = Some v.
Proof. intros H. unfold int. by rewrite bool_decide_eq_true_2. Qed.

(** ** What a split has to satisfy *)

Definition total : list Z -> Z := foldr Z.add 0.

Lemma total_cons x l : total (x :: l) = x + total l.
Proof. done. Qed.

Lemma total_app a b : total (a ++ b) = total a + total b.
Proof. induction a as [|x a IH]; cbn [app]; rewrite ?total_cons, ?IH; cbn; lia. Qed.

Definition within (limits : PayloadSizeLimits) (s : Z) : Prop := 1 <= s <= max_payload_len limits.

(** Packets of at least one byte within the limits: those of the first, the last, the only one and
    the others. *)
Definition split_ok (limits : PayloadSizeLimits) (payload_len : Z) (l : list Z) : Prop :=
  total l = payload_len /\
  match l with
  | [] => False
  | [s] => s + single_packet_reduction_len limits <= max_payload_len limits
  | s :: rest =>
      Forall (within limits) l /\
      s + first_packet_reduction_len limits <= max_payload_len limits /\
      exists e, last rest = Some e /\ e + last_packet_reduction_len limits <= max_payload_len limits
  end.

Lemma total_bounds m l : Forall (fun s => 1 <= s <= m) l -> len l <= total l <= len l * m.
Proof.
  induction 1 as [|s l [H1 H2] Hl IH]; [change (total []) with 0; rewrite len_nil; lia|]. rewrite len_cons, total_cons. lia.
Qed.

Section Split.
Context (limits : PayloadSizeLimits) (payload_len : Z).
Local Abbreviation max := (max_payload_len limits).
Local Abbreviation red1 := (first_packet_reduction_len limits).
Local Abbreviation red2 := (last_packet_reduction_len limits).
Context (payload_pos : 0 < payload_len) (red1_nonneg : 0 <= red1) (red2_nonneg : 0 <= red2).

(** A split into several packets has room for the reductions. *)
Lemma several_room s rest : rest <> [] -> split_ok limits payload_len (s :: rest) ->
  1 <= max - red1 /\ 1 <= max - red2 /\ len (s :: rest) <= payload_len /\
  payload_len + red1 + red2 <= len (s :: rest) * max.
Proof.
  intros Hne [Ht H]. destruct rest as [|x rest]; [done|]. destruct H as (Hw & Hf & e & He & Hl).
  rewrite last_Some in He. destruct He as [l' El]. rewrite El in *.
  apply Forall_cons in Hw as [Hs Hw]. apply Forall_app in Hw as [Hw [He _]%Forall_cons].
  pose proof (total_bounds max l' Hw). unfold within in *.
  rewrite total_cons, total_app, total_cons in Ht. change (total []) with 0 in Ht.
  rewrite len_cons, len_app, len_cons, len_nil. lia.
Qed.

(** ** The loop *)

Context (n b r : Z).
Context (total_eq : payload_len + red1 + red2 = n * b + r) (r_range : 0 <= r < n) (two_packets : 2 <= n).
Context (enough : payload_len + red1 + red2 <= n * max) (least : n = 2 \/ (n - 1) * max < payload_len + red1 + red2).
Context (first_fits : 1 <= max - red1) (last_fits : 1 <= max - red2) (one_each : n <= payload_len).

(** The bytes of the packet with [k] packets left, and of all of them but the reduction of the last. *)
Definition share (k : Z) : Z := b + (if k <=? r then 1 else 0).
Definition shares (k : Z) : Z := k * b + Z.min r k - red2.

Lemma share_pos : 1 <= b.
Proof. clear least. nia. Qed.

Lemma share_max k : 1 <= k <= n -> 1 <= share k <= max.
Proof. intros Hk. pose proof share_pos. unfold share. destruct (Z.leb_spec k r); nia. Qed.

Lemma shares_step k : 1 <= k -> shares k = shares (k - 1) + share k.
Proof. intros Hk. unfold shares, share. destruct (Z.leb_spec k r); lia. Qed.

Lemma shares_mono k : 2 <= k -> shares 2 <= shares k.
Proof. intros Hk. pose proof share_pos. unfold shares. nia. Qed.

Lemma shares_one : shares 1 = share 1 - red2.
Proof. unfold shares, share. destruct (Z.leb_spec 1 r); lia. Qed.

(** Two packets left have more than two bytes. *)
Lemma two_left : 2 < n -> 2 <= shares 2.
Proof.
  intros Hn. unfold shares. enough (max + 1 <= 2 * b + Z.min r 2) by lia.
  destruct least as [?|Hl]; [lia|]. destruct (Z.leb_spec 2 r); nia.
Qed.

Lemma three_left : 3 < n -> red1 + 3 <= shares 2 + b.
Proof.
  intros Hn. unfold shares. enough (2 * max + 1 <= 3 * b + Z.min r 2) by lia.
  destruct least as [?|Hl]; [lia|]. destruct (Z.leb_spec 2 r); nia.
Qed.

(** What is left for [k] packets behind the first. *)
Definition left_ok (k rem : Z) : Prop :=
  if k =? 1 then 1 <= rem <= share 1 /\ rem <= max - red2
  else 2 + (shares k - shares 2) <= rem <= shares k.

(** The packets behind the first, with [k] left; [l] is balanced when nothing was cut off. *)
Definition tail_ok (k rem : Z) (l : list Z) : Prop :=
  total l = rem /\ len l = k /\ Forall (within limits) l /\
  (exists e, last l = Some e /\ e + red2 <= max) /\
  (rem = shares k -> red2 < b -> exists m e, l = m ++ [e] /\ Forall (fun s => b <= s <= b + 1) (m ++ [e + red2])).

Lemma tail_last e : 1 <= e <= share 1 -> e <= max - red2 -> tail_ok 1 e [e].
Proof.
  intros He Hm. pose proof (share_max 1). split; [cbn; lia|]. split; [done|]. split; [|split].
  - apply Forall_singleton. unfold within. lia.
  - exists e. split; [done|lia].
  - intros Hs _. exists [], e. split; [done|]. apply Forall_singleton. rewrite shares_step in Hs by lia.
    unfold shares, share in *. destruct (Z.leb_spec 1 r); lia.
Qed.

Lemma tail_cons k rem s l : 2 <= k <= n -> 1 <= s <= share k -> tail_ok (k - 1) (rem - s) l ->
  (rem = shares k -> red2 < b -> s = share k) -> tail_ok k rem (s :: l).
Proof.
  intros Hk Hs (Ht & Hl & Hw & (e & He & Hm) & Hb) Heq. pose proof (share_max k).
  split; [rewrite total_cons; lia|]. split; [rewrite len_cons; lia|]. split; [|split].
  - constructor; [unfold within; lia|done].
  - exists e. split; [|done]. destruct l; [done|exact He].
  - intros Hr Hp. specialize (Heq Hr Hp). subst s. destruct (Hb ltac:(rewrite Hr, (shares_step k) by lia; lia) Hp) as (m & e' & -> & Hf).
    exists (share k :: m), e'. split; [done|]. cbn [app]. constructor; [|done].
    unfold share. destruct (Z.leb_spec k r); lia.
Qed.

(** The share of a packet as the loop computes it. *)
Definition next_share (k : Z) : Z := b + (if k <? r then 1 else 0).

Lemma loop_tail k : 1 <= k < n -> forall fuel rem, (Z.to_nat k < fuel)%nat -> left_ok k rem ->
  exists l, split_loop fuel limits r k (next_share k) rem false = Some l /\ tail_ok k rem l.
Proof.
  intros Hk. assert (Hnat : exists j, k = Z.of_nat j) by (exists (Z.to_nat k); lia). destruct Hnat as [j ->].
  induction j as [|j IH]; [lia|]. intros fuel rem Hf Hok. destruct fuel as [|fuel]; [lia|].
  set (k := Z.of_nat (S j)) in *. assert (Hk1 : k - 1 = Z.of_nat j) by lia.
  cbn [split_loop].
  assert (Hsh : (if k =? r then next_share k + 1 else next_share k) = share k).
  { unfold next_share, share. destruct (Z.eqb_spec k r), (Z.ltb_spec k r), (Z.leb_spec k r); lia. }
  rewrite Hsh. pose proof (share_max k ltac:(lia)). unfold left_ok in Hok. pose proof share_pos.
  assert (Hnext : next_share (k - 1) = share k).
  { unfold next_share, share. destruct (Z.ltb_spec (k - 1) r), (Z.leb_spec k r); lia. }
  destruct (Z.eqb_spec k 1) as [E|Ne].
  - rewrite (proj2 (Z.ltb_lt 0 rem)) by lia. cbn [negb]. rewrite E in *.
    assert (Ec : (if rem <? share 1 then rem else share 1) = rem) by (destruct (Z.ltb_spec rem (share 1)); lia).
    rewrite Ec. change (1 =? 2) with false. cbn [andb]. rewrite (Z.sub_diag rem).
    exists [rem]. split; [destruct fuel; [lia|done]|]. by apply tail_last; apply Hok.
  - assert (Hstep := shares_step k ltac:(lia)). pose proof (share_max (k - 1) ltac:(lia)).
    assert (H2 : 2 <= rem).
    { pose proof (shares_mono k ltac:(lia)). lia. }
    rewrite (proj2 (Z.ltb_lt 0 rem)) by lia. cbn [negb]. set (cur := if (k =? 2) && _ then _ else _).
    assert (Hcur : 1 <= cur <= share k /\ left_ok (k - 1) (rem - cur) /\ (rem = shares k -> red2 < b -> cur = share k)).
    { subst cur. unfold left_ok. destruct (Z.eqb_spec k 2) as [E2|Ne2]; cbn [andb].
      - rewrite E2 in *. change (2 - 1) with 1 in *. rewrite Z.eqb_refl. rewrite shares_one in Hstep.
        assert (b <= share 1) by (unfold share; destruct (Z.leb_spec 1 r); lia).
        destruct (Z.ltb_spec rem (share 2)); [rewrite Z.eqb_refl; lia|]. destruct (Z.eqb_spec (share 2) rem); lia.
      - rewrite (proj2 (Z.eqb_neq (k - 1) 1)) by lia.
        assert (share k < rem) by (pose proof (shares_mono (k - 1) ltac:(lia)); lia).
        rewrite (proj2 (Z.ltb_ge rem (share k))) by lia. lia. }
    destruct Hcur as (Hc1 & Hc2 & Hc3). rewrite <- Hnext.
    destruct (IH ltac:(lia) fuel (rem - cur)) as (l & El & Hl); [lia|by rewrite <- Hk1|].
    rewrite <- Hk1 in El, Hl. rewrite El. exists (cur :: l). split; [done|]. apply tail_cons; [lia|lia|done|done].
Qed.

(** All packets have [b] or [b + 1] bytes when those the reductions take are counted. *)
Definition balanced (l : list Z) : Prop :=
  exists s m e, l = s :: m ++ [e] /\ Forall (fun x => b <= x <= b + 1) (s + red1 :: m ++ [e + red2]).

(** The first packet. *)
Lemma first_packet :
  exists s, (if red1 + 1 <? b then b - red1 else 1) = s /\ 1 <= s /\ s + red1 <= max /\
    (2 < n -> s < payload_len /\ left_ok (n - 1) (payload_len - s)) /\
    (n = 2 -> s < payload_len -> left_ok 1 (payload_len - s)) /\
    (red1 + 1 < b -> s = b - red1 /\ payload_len - s = shares (n - 1)).
Proof.
  pose proof share_pos as Hb. pose proof (share_max n ltac:(lia)) as Hn. pose proof (share_max 1 ltac:(lia)).
  assert (En : share n = b) by (unfold share; destruct (Z.leb_spec n r); lia). rewrite En in Hn.
  assert (Hs : payload_len = shares n - red1) by (unfold shares; lia).
  pose proof (shares_step n ltac:(lia)) as Hstep. rewrite En in Hstep. pose proof shares_one.
  eexists. split; [done|]. set (s := if _ <? _ then _ else _).
  assert (H1 : 1 <= s /\ s + red1 <= max /\ b - red1 <= s) by (subst s; destruct (Z.ltb_spec (red1 + 1) b); lia).
  split; [lia|]. split; [lia|]. split; [|split].
  - intros H3. pose proof (two_left H3). unfold left_ok. destruct (Z.eqb_spec (n - 1) 1); [lia|].
    pose proof (shares_mono (n - 1) ltac:(lia)).
    enough (2 + (shares (n - 1) - shares 2) <= payload_len - s) by lia.
    subst s. destruct (Z.ltb_spec (red1 + 1) b); [lia|].
    destruct (Z.eq_dec n 3) as [E3|]; [rewrite E3 in *; change (3 - 1) with 2; lia|pose proof (three_left ltac:(lia)); lia].
  - intros E2 Hlt. rewrite E2 in *. change (2 - 1) with 1 in *. unfold left_ok. cbn [Z.eqb Pos.eqb]. lia.
  - intros Hr. subst s. rewrite (proj2 (Z.ltb_lt _ _)) by lia. lia.
Qed.

Lemma loop_split :
  exists l, split_loop (S (Z.to_nat payload_len)) limits r n b payload_len true = Some l /\
    split_ok limits payload_len l /\ len l = n /\ (red1 + 1 < b -> red2 < b -> balanced l).
Proof.
  destruct first_packet as (s & Es & H1 & Hm & H3 & H2 & Hb). cbn [split_loop].
  rewrite (proj2 (Z.ltb_lt 0 payload_len)) by lia. cbn [negb]. rewrite (proj2 (Z.eqb_neq n r)) by lia. rewrite Es.
  set (cur := if (n =? 2) && _ then _ else _).
  assert (Hc : 1 <= cur <= s /\ left_ok (n - 1) (payload_len - cur) /\ (red1 + 1 < b -> red2 < b -> cur = s)).
  { subst cur. destruct (Z.eqb_spec n 2) as [E2|]; cbn [andb].
    - pose proof shares_one. assert (b <= share 1) by (unfold share; destruct (Z.leb_spec 1 r); lia).
      pose proof (share_max 1 ltac:(lia)). pose proof share_pos. replace (n - 1) with 1 in * by lia.
      assert (left_ok 1 1) by (unfold left_ok; cbn [Z.eqb Pos.eqb]; lia).
      destruct (Z.ltb_spec payload_len s); [rewrite Z.eqb_refl|destruct (Z.eqb_spec s payload_len)].
      1: replace (payload_len - (payload_len - 1)) with 1 by lia. 2: replace (payload_len - (s - 1)) with 1 by lia.
      1,2: split; [lia|]; split; [done|]; lia.
      split; [lia|]. split; [apply H2; lia|lia].
    - destruct H3 as [Hlt Hl]; [lia|]. rewrite (proj2 (Z.ltb_ge payload_len s)) by lia. split; [lia|done]. }
  destruct Hc as (Hc1 & Hc2 & Hc3).
  assert (Hnext : next_share (n - 1) = b) by (unfold next_share; destruct (Z.ltb_spec (n - 1) r); lia).
  destruct (loop_tail (n - 1) ltac:(lia) (Z.to_nat payload_len) (payload_len - cur)) as (l & El & Ht & Hl & Hw & He & Hbal);
    [lia|done|]. rewrite Hnext in El. rewrite El. exists (cur :: l).
  assert (Hne : l <> []) by (intros ->; rewrite len_nil in Hl; lia).
  split; [done|]. split; [|split].
  - split; [rewrite total_cons; lia|]. destruct l as [|x l]; [done|]. split; [|split; [lia|done]].
    constructor; [unfold within; lia|done].
  - rewrite len_cons. lia.
  - intros Hr1 Hr2. destruct (Hb Hr1) as [Hs1 Hs2]. specialize (Hc3 Hr1 Hr2). rewrite Hc3 in Hbal.
    destruct (Hbal Hs2 Hr2) as (m & e & -> & Hf). exists cur, m, e. split; [done|]. constructor; [lia|done].
Qed.

End Split.

(** What a split needs when the payload does not fit into one packet. *)
Lemma split_needs limits payload_len l :
  0 <= first_packet_reduction_len limits -> 0 <= last_packet_reduction_len limits ->
  max_payload_len limits < single_packet_reduction_len limits + payload_len -> split_ok limits payload_len l ->
  2 <= len l <= payload_len /\
  payload_len + first_packet_reduction_len limits + last_packet_reduction_len limits <= len l * max_payload_len limits /\
  1 <= max_payload_len limits - first_packet_reduction_len limits /\ 1 <= max_payload_len limits - last_packet_reduction_len limits.
Proof.
  intros H1 H2 Hs Hok. pose proof Hok as [Ht H]. destruct l as [|s [|x rest]]; [done| |].
  { rewrite total_cons in Ht. change (total []) with 0 in Ht. lia. }
  destruct (several_room limits payload_len s (x :: rest)) as (Ha & Hb & Hc & Hd); [done|done|].
  rewrite !len_cons in *. pose proof (len_nonneg rest). lia.
Qed.

(** The number of packets the code computes. *)
Lemma packet_count t m : 1 <= m -> 1 <= t ->
  exists n, (if Z.quot (t + m - 1) m =? 1 then 2 else Z.quot (t + m - 1) m) = n /\ 2 <= n /\ t <= n * m /\
    (n = 2 \/ (n - 1) * m < t) /\ (forall k, 2 <= k -> t <= k * m -> n <= k).
Proof.
  intros Hm Ht. rewrite Z.quot_div_nonneg by lia. eexists. split; [done|].
  pose proof (Z.div_mod (t + m - 1) m ltac:(lia)). pose proof (Z.mod_pos_bound (t + m - 1) m ltac:(lia)).
  set (q := (t + m - 1) / m) in *. assert (1 <= q) by nia.
  assert (Hk : forall k, 2 <= k -> t <= k * m -> q <= k) by (intros k _ Hk; nia).
  destruct (Z.eqb_spec q 1) as [E|]; [rewrite E in *|]; (split; [lia|]; split; [nia|]; split; [|intros k H2 Hk2; pose proof (Hk k H2 Hk2); lia]).
  - by left.
  - right. nia.
Qed.

(** The case of several packets. *)
Lemma split_found limits payload_len n :
  0 < payload_len -> 0 <= first_packet_reduction_len limits -> 0 <= last_packet_reduction_len limits ->
  let t := payload_len + first_packet_reduction_len limits + last_packet_reduction_len limits in
  2 <= n -> t <= n * max_payload_len limits -> n = 2 \/ (n - 1) * max_payload_len limits < t ->
  1 <= max_payload_len limits - first_packet_reduction_len limits ->
  1 <= max_payload_len limits - last_packet_reduction_len limits -> n <= payload_len ->
  exists l, split_loop (S (Z.to_nat payload_len)) limits (Z.rem t n) n (Z.quot t n) payload_len true = Some l /\
    split_ok limits payload_len l /\ len l = n /\
    (first_packet_reduction_len limits + 1 < t / n -> last_packet_reduction_len limits < t / n -> balanced limits (t / n) l).
Proof.
  intros Hp H1 H2 t Hn He Hl Hf1 Hf2 Hone. rewrite Z.rem_mod_nonneg, Z.quot_div_nonneg by lia.
  apply (loop_split limits payload_len Hp H1 H2); try done; [|apply Z.mod_pos_bound; lia].
  pose proof (Z.div_mod t n ltac:(lia)). lia.
Qed.

Ltac int_ops := repeat (rewrite int_ok by lia; cbn [mbind option_bind]).

(** The result of [SplitAboutEqually] on all its branches. *)
Lemma split_spec payload_len limits :
  0 < payload_len < 2 ^ 28 -> 0 <= first_packet_reduction_len limits < 2 ^ 28 ->
  0 <= last_packet_reduction_len limits < 2 ^ 28 -> 0 <= single_packet_reduction_len limits < 2 ^ 28 ->
  in_s 29 (max_payload_len limits) ->
  exists l, SplitAboutEqually payload_len limits = Some l /\
    (l = [] -> forall l', ~ split_ok limits payload_len l') /\
    (l <> [] -> split_ok limits payload_len l /\
       (forall l', split_ok limits payload_len l' -> len l <= len l') /\
       (forall b, b = (payload_len + first_packet_reduction_len limits + last_packet_reduction_len limits) / len l ->
          1 < len l -> first_packet_reduction_len limits + 1 < b -> last_packet_reduction_len limits < b -> balanced limits b l)).
Proof.
  intros Hp H1 H2 Hs Hm. unfold in_s in Hm. unfold SplitAboutEqually.
  rewrite (proj2 (Z.ltb_lt 0 payload_len)), !(proj2 (Z.leb_le 0 _)) by lia. cbn [check mbind option_bind].
  int_ops.
  destruct (Z.leb_spec (single_packet_reduction_len limits + payload_len) (max_payload_len limits)) as [Hone|Hone].
  { exists [payload_len]. split; [done|]. split; [done|]. intros _. split; [|split].
    - split; [cbn; lia|lia].
    - intros l' [_ Hl']. destruct l'; [done|]. rewrite !len_cons, len_nil. pose proof (len_nonneg l'). lia.
    - intros b _ Hlt. discriminate. }
  int_ops.
  assert (Hneeds := fun l' => split_needs limits payload_len l' ltac:(lia) ltac:(lia) ltac:(lia)).
  destruct (_ || _) eqn:Eroom.
  { exists []. split; [done|]. split; [|done]. intros _ l' Hl'. apply Hneeds in Hl'. apply orb_true_iff in Eroom as [?%Z.ltb_lt|?%Z.ltb_lt]; lia. }
  apply orb_false_iff in Eroom as [Hr1%Z.ltb_ge Hr2%Z.ltb_ge].
  int_ops.
  set (t := payload_len + _ + _) in *.
  destruct (packet_count t (max_payload_len limits)) as (n & -> & Hn2 & Hfit & Hleast & Hmin); [lia|lia|].
  destruct (Z.ltb_spec payload_len n) as [Hlt|Hge].
  { exists []. split; [done|]. split; [|done]. intros _ l' Hl'. apply Hneeds in Hl' as (Hl1 & Hl2 & _).
    pose proof (Hmin (len l') ltac:(lia) Hl2). lia. }
  destruct (split_found limits payload_len n) as (l & El & Hok & Hlen & Hbal); try done; try lia.
  exists l. split; [done|]. split; [intros ->; rewrite len_nil in Hlen; lia|]. intros _. split; [done|]. split.
  - intros l' Hl'. apply Hneeds in Hl' as (Hl1 & Hl2 & _). rewrite Hlen. apply Hmin; [lia|done].
  - intros b -> _. rewrite Hlen. exact Hbal.
Qed.

(** C20: [SplitAboutEqually] is optimal.  For every payload and every limits (with reductions that are
    not negative and sizes below 2^28, so that no [int] overflows) it returns.  When it returns
    sizes, they are at least one byte each, add up to the payload, respect the maximum and the
    reductions of the first, the last or the only packet, and no split within the limits has fewer packets; the sizes, with
    the reductions counted, differ by at most one byte when the reductions are below the average.  When it returns no size, no
    split within the limits exists. *)
Theorem split_optimal payload_len limits :
  0 < payload_len < 2 ^ 28 -> 0 <= first_packet_reduction_len limits < 2 ^ 28 ->
  0 <= last_packet_reduction_len limits < 2 ^ 28 -> 0 <= single_packet_reduction_len limits < 2 ^ 28 ->
  in_s 29 (max_payload_len limits) ->
  exists l, SplitAboutEqually payload_len limits = Some l /\
    (l = [] -> forall l', ~ split_ok limits payload_len l') /\
    (l <> [] -> split_ok limits payload_len l /\
       (forall l', split_ok limits payload_len l' -> len l <= len l') /\
       (forall b, b = (payload_len + first_packet_reduction_len limits + last_packet_reduction_len limits) / len l ->
          1 < len l -> first_packet_reduction_len limits + 1 < b -> last_packet_reduction_len limits < b -> balanced limits b l)).
Proof. apply split_spec. Qed.

(** A payload of 13 bytes in packets of 6, the first of which gives up one byte and the last two. *)
Lemma split_optimal_witness :
  let limits := Limits 6 1 2 3 in
  SplitAboutEqually 13 limits = Some [4; 5; 4] /\ split_ok limits 13 [4; 5; 4] /\
  forall l', split_ok limits 13 l' -> 3 <= len l'.
Proof.
  destruct (split_optimal 13 (Limits 6 1 2 3)) as (l & El & _ & Hl).
  - by_compute.
  - by_compute.
  - by_compute.
  - by_compute.
  - by_compute.
  - vm_compute in El. injection El as <-. destruct Hl as (Hok & Hmin & _); [discriminate|].
    split; [reflexivity|]. split; [exact Hok|exact Hmin].
Defined.
