(* ===== verification/BitBuffer.v ===== *)
(** * Reading and writing bits

    Model of rtc_base/bit_buffer.h/.cc.  A buffer is the memory it was given, a count of bytes and a
    position in bytes and bits.  A read returns [Some v] where the source returns true and stores [v];
    a computation that is [None] fails a check, leaves the memory or shifts by the width of a type. *)

From S2P Require Import Prelude.

(** ** Helpers of the source *)

Definition LowestBits (byte bit_count : Z) : option Z :=
  check (bit_count <=? 8) ;; Some (Z.land byte (Z.shiftl 1 bit_count - 1)).

Definition HighestBits (byte bit_count : Z) : option Z :=
  check (bit_count <=? 8) ;;
  let shift := u8 (8 - u8 bit_count) in
  let mask := u8 (Z.shiftl 0xFF shift) in
  Some (Z.shiftr (Z.land byte mask) shift).

Definition HighestByte (val : Z) : Z := u8 (Z.shiftr val 56).

Definition WritePartialByte (source source_bit_count target target_bit_offset : Z) : option Z :=
  check (target_bit_offset <? 8) ;; check (source_bit_count <? 9) ;;
  check (source_bit_count <=? 8 - target_bit_offset) ;;
  let mask := Z.shiftr (u8 (Z.shiftl 0xFF (8 - source_bit_count))) target_bit_offset in
  Some (u8 (Z.lor (Z.land target (Z.lnot mask)) (Z.shiftr source target_bit_offset))).

(** The number of bits used; a [uint64_t] has at most 64. *)
Fixpoint count_bits_loop (fuel : nat) (val : Z) : Z :=
  match fuel with
  | O => 0
  | S fuel' => if val =? 0 then 0 else 1 + count_bits_loop fuel' (Z.shiftr val 1)
  end.

Definition CountBits (val : Z) : Z := count_bits_loop 64 val.

(** A left shift of an unsigned type of [w] bits. *)
Definition shl (w val k : Z) : option Z := check ((0 <=? k) && (k <? w)) ;; Some (wrap w (Z.shiftl val k)).

Module BitBuffer.

Record t := Bits { bytes_ : list Z; byte_count_ : Z; byte_offset_ : Z; bit_offset_ : Z }.

Definition construct (bytes : list Z) (byte_count : Z) : option t :=
  check (byte_count <=? 2 ^ 32 - 1) ;; Some (Bits bytes byte_count 0 0).

Definition lift {A} (m : option A) : ST t A := fun s => (fun a => (a, s)) <$> m.
Definition get : ST t t := fun s => Some (s, s).
Definition put (s : t) : ST t unit := fun _ => Some (tt, s).

Definition RemainingBitCount (this : t) : Z := u64 ((byte_count_ this - byte_offset_ this) * 8 - bit_offset_ this).

(** The loop of [PeekBits] over full bytes. *)
Fixpoint peek_bytes (n : nat) (bytes : list Z) (bits : Z) : option (Z * list Z) :=
  match n with
  | O => Some (bits, bytes)
  | S n' => b ← deref bytes; peek_bytes n' (ptr_add bytes 1) (u32 (Z.lor (Z.shiftl bits 8) b))
  end.

Definition PeekBits (this : t) (bit_count : Z) : option (option Z) :=
  check (0 <? bit_count) ;;
  if (RemainingBitCount this <? bit_count) || (32 <? bit_count) then Some None else
  let bytes := ptr_add (bytes_ this) (byte_offset_ this) in
  let remaining_bits_in_current_byte := 8 - bit_offset_ this in
  b ← deref bytes;
  bits ← LowestBits b remaining_bits_in_current_byte;
  let bytes := ptr_add bytes 1 in
  if bit_count <? remaining_bits_in_current_byte then
    v ← HighestBits bits (bit_offset_ this + bit_count); Some (Some v)
  else
  let bit_count := bit_count - remaining_bits_in_current_byte in
  '(bits, bytes) ← peek_bytes (Z.to_nat (bit_count / 8)) bytes bits;
  let bit_count := bit_count mod 8 in
  if 0 <? bit_count then
    b ← deref bytes; h ← HighestBits b bit_count;
    Some (Some (Z.lor (u32 (Z.shiftl bits bit_count)) h))
  else Some (Some bits).

Definition ConsumeBits (bit_count : Z) : ST t bool :=
  this ← get;
  if RemainingBitCount this <? bit_count then mret false else
  put (Bits (bytes_ this) (byte_count_ this) (byte_offset_ this + (bit_offset_ this + bit_count) / 8)
         ((bit_offset_ this + bit_count) mod 8)) ;;
  mret true.

Definition ConsumeBytes (byte_count : Z) : ST t bool := ConsumeBits (byte_count * 8).

Definition ReadBits (bit_count : Z) : ST t (option Z) :=
  this ← get;
  val ← lift (PeekBits this bit_count);
  match val with
  | None => mret None
  | Some v => ok ← ConsumeBits bit_count; mret (if ok : bool then Some v else None)
  end.

Definition ReadUInt8 : ST t (option Z) :=
  val ← ReadBits 8;
  match val with None => mret None | Some v => dcheck (v <=? 0xFF) ;; mret (Some (u8 v)) end.

Definition ReadUInt16 : ST t (option Z) :=
  val ← ReadBits 16;
  match val with None => mret None | Some v => dcheck (v <=? 0xFFFF) ;; mret (Some (u16 v)) end.

Definition ReadUInt32 : ST t (option Z) := ReadBits 32.

(** The number of values that take one bit less, as the reader and the writer compute it. *)
Definition min_bits_values (num_values : Z) : option Z :=
  p ← shl 32 1 (CountBits num_values); Some (u32 (p - num_values)).

Definition ReadNonSymmetric (num_values : Z) : ST t (option Z) :=
  dcheck (0 <? num_values) ;; dcheck (num_values <=? 2 ^ 31) ;;
  let count_bits := CountBits num_values in
  num_min_bits_values ← lift (min_bits_values num_values);
  val ← ReadBits (count_bits - 1);
  match val with
  | None => mret None
  | Some v =>
      if v <? num_min_bits_values then mret (Some v) else
      extra_bit ← ReadBits 1;
      match extra_bit with
      | None => mret None
      | Some e => mret (Some (u32 (u32 (u32 (Z.shiftl v 1) + e) - num_min_bits_values)))
      end
  end.

Definition Seek (byte_offset bit_offset : Z) : ST t bool :=
  this ← get;
  if (byte_count_ this <? byte_offset) || (7 <? bit_offset) ||
     ((byte_offset =? byte_count_ this) && (0 <? bit_offset)) then mret false
  else put (Bits (bytes_ this) (byte_count_ this) byte_offset bit_offset) ;; mret true.

Definition GetCurrentOffset (this : t) : Z * Z := (byte_offset_ this, bit_offset_ this).

(** The loop of [ReadExponentialGolomb] over leading zeros. *)
Fixpoint skip_zeros (fuel : nat) (zero_bit_count : Z) : ST t Z :=
  match fuel with
  | O => abort
  | S fuel' =>
      this ← get;
      peeked_bit ← lift (PeekBits this 1);
      match peeked_bit with
      | Some 0 => ConsumeBits 1 ;; skip_zeros fuel' (zero_bit_count + 1)
      | _ => mret zero_bit_count
      end
  end.

Definition ReadExponentialGolomb : ST t (option Z) :=
  this ← get;
  let '(original_byte_offset, original_bit_offset) := GetCurrentOffset this in
  zero_bit_count ← skip_zeros (S (Z.to_nat (RemainingBitCount this))) 0;
  this ← get;
  peeked_bit ← lift (PeekBits this 1);
  dcheck (match peeked_bit with Some b => b =? 1 | None => true end) ;;
  let value_bit_count := zero_bit_count + 1 in
  val ← (if 32 <? value_bit_count then mret None else ReadBits value_bit_count);
  match val with
  | Some v => mret (Some (u32 (v - 1)))
  | None => ok ← Seek original_byte_offset original_bit_offset; dcheck ok ;; mret None
  end.

(** The results are within [int32_t]. *)
Definition ReadSignedExponentialGolomb : ST t (option Z) :=
  val ← ReadExponentialGolomb;
  match val with
  | None => mret None
  | Some unsigned_val =>
      mret (Some (if Z.land unsigned_val 1 =? 0 then - (unsigned_val / 2) else u32 (unsigned_val + 1) / 2))
  end.

End BitBuffer.

(** A writer reads and writes the same memory at the same position. *)
Module BitBufferWriter.
Import BitBuffer.

(** The bytes behind the first: full bytes and the last, partial one. *)
Fixpoint write_bytes (fuel : nat) (bytes : list Z) (pos val bit_count : Z) : option (list Z) :=
  if 8 <=? bit_count then
    match fuel with
    | O => None
    | S fuel' =>
        check (pos <? len bytes) ;;
        v ← shl 64 val 8;
        write_bytes fuel' (<[Z.to_nat pos := HighestByte val]> bytes) (pos + 1) v (bit_count - 8)
    end
  else if 0 <? bit_count then
    b ← byte_at bytes pos;
    w ← WritePartialByte (HighestByte val) bit_count b 0;
    Some (<[Z.to_nat pos := w]> bytes)
  else Some bytes.

Definition WriteBits (val bit_count : Z) : ST t bool :=
  this ← get;
  if RemainingBitCount this <? bit_count then mret false else
  let total_bits := bit_count in
  val ← lift (shl 64 val (64 - bit_count));
  let remaining_bits_in_current_byte := 8 - bit_offset_ this in
  let bits_in_first_byte := Z.min bit_count remaining_bits_in_current_byte in
  b ← lift (byte_at (bytes_ this) (byte_offset_ this));
  w ← lift (WritePartialByte (HighestByte val) bits_in_first_byte b (bit_offset_ this));
  let bytes := <[Z.to_nat (byte_offset_ this) := w]> (bytes_ this) in
  bytes ← (if bit_count <=? remaining_bits_in_current_byte then mret bytes else
             val ← lift (shl 64 val bits_in_first_byte);
             lift (write_bytes 8 bytes (byte_offset_ this + 1) val (bit_count - bits_in_first_byte)));
  put (Bits bytes (byte_count_ this) (byte_offset_ this) (bit_offset_ this)) ;;
  ConsumeBits total_bits.

Definition WriteUInt8 (val : Z) : ST t bool := WriteBits val 8.
Definition WriteUInt16 (val : Z) : ST t bool := WriteBits val 16.
Definition WriteUInt32 (val : Z) : ST t bool := WriteBits val 32.

Definition WriteNonSymmetric (val num_values : Z) : ST t bool :=
  dcheck (val <? num_values) ;; dcheck (num_values <=? 2 ^ 31) ;;
  let count_bits := CountBits num_values in
  num_min_bits_values ← lift (min_bits_values num_values);
  if val <? num_min_bits_values then WriteBits val (count_bits - 1)
  else WriteBits (u32 (val + num_min_bits_values)) count_bits.

Definition SizeNonSymmetricBits (val num_values : Z) : option Z :=
  check (val <? num_values) ;; check (num_values <=? 2 ^ 31) ;;
  let count_bits := CountBits num_values in
  num_min_bits_values ← min_bits_values num_values;
  Some (if val <? num_min_bits_values then count_bits - 1 else count_bits).

Definition WriteExponentialGolomb (val : Z) : ST t bool :=
  if val =? 2 ^ 32 - 1 then mret false else
  let val_to_encode := val + 1 in
  WriteBits val_to_encode (CountBits val_to_encode * 2 - 1).

Definition WriteSignedExponentialGolomb (val : Z) : ST t bool :=
  if val =? 0 then WriteExponentialGolomb 0
  else if 0 <? val then WriteExponentialGolomb (u32 (u32 (val * 2) - 1))
  else if val =? - 2 ^ 31 then mret false
  else WriteExponentialGolomb (u32 (- val * 2)).

End BitBufferWriter.
