(* ===== verification/BitCodec.v ===== *)
(** * What a buffer of bits does

    The abstract buffer is a list of bits that is split at the position: reading moves bits from
    behind the position to its front, writing replaces them.  [reads m x a] says that [m] moves over
    the bits [x] and returns [a], [writes m x] that it replaces as many bits by [x]; both compose. *)

From S2P Require Import Prelude BitBuffer.

(** ** Lists of bits, the most significant first *)

Fixpoint zbits (n : nat) (v : Z) : list bool :=
  match n with O => [] | S m => Z.testbit v (Z.of_nat m) :: zbits m v end.

Fixpoint bits_val (l : list bool) : Z :=
  match l with [] => 0 | b :: l' => Z.b2z b * 2 ^ len l' + bits_val l' end.

Lemma len_zbits n v : len (zbits n v) = Z.of_nat n.
Proof. induction n as [|n IH]; [done|]. cbn [zbits]. rewrite len_cons, IH. lia. Qed.
#[export] Hint Rewrite len_zbits : len.

Lemma length_zbits n v : length (zbits n v) = n.
Proof. pose proof (len_zbits n v). unfold len in *. lia. Qed.

Lemma zbits_add n m v : zbits (n + m) v = zbits n (v / 2 ^ Z.of_nat m) ++ zbits m v.
Proof.
  induction n as [|n IH]; [done|]. cbn [zbits Nat.add app]. rewrite IH. f_equal.
  rewrite Nat2Z.inj_add, <- Z.div_pow2_bits by lia. done.
Qed.

Lemma zbits_ext n a b : (forall i, 0 <= i < Z.of_nat n -> Z.testbit a i = Z.testbit b i) -> zbits n a = zbits n b.
Proof. induction n as [|n IH]; intros H; [done|]. cbn [zbits]. rewrite H by lia. f_equal. apply IH. intros i Hi. apply H. lia. Qed.

Lemma zbits_mod n k v : Z.of_nat n <= k -> zbits n (v mod 2 ^ k) = zbits n v.
Proof. intros Hk. apply zbits_ext. intros i Hi. apply Z.mod_pow2_bits_low. lia. Qed.

Lemma bits_val_app a b : bits_val (a ++ b) = bits_val a * 2 ^ len b + bits_val b.
Proof.
  induction a as [|x a IH]; [done|]. cbn [bits_val app]. rewrite IH, len_app, Z.pow_add_r by apply len_nonneg. ring.
Qed.

Lemma bits_val_range l : 0 <= bits_val l < 2 ^ len l.
Proof.
  induction l as [|x l IH]; [done|]. cbn [bits_val]. rewrite len_cons, Z.pow_add_r by (pose proof (len_nonneg l); lia). destruct x; cbn [Z.b2z]; lia.
Qed.

Lemma bits_val_zbits n v : bits_val (zbits n v) = v mod 2 ^ Z.of_nat n.
Proof.
  induction n as [|n IH]; [by rewrite Z.mod_1_r|]. cbn [zbits bits_val].
  rewrite IH, len_zbits, Nat2Z.inj_succ, Z.pow_succ_r, (Z.mul_comm 2), Z.rem_mul_r by lia.
  rewrite Z.testbit_spec' by lia. ring.
Qed.

Lemma bits_val_exact n v : in_u (Z.of_nat n) v -> bits_val (zbits n v) = v.
Proof. intros H. rewrite bits_val_zbits. by apply Z.mod_small. Qed.

Lemma zbits_val l n : length l = n -> zbits n (bits_val l) = l.
Proof.
  intros <-. induction l as [|x l IH]; [done|]. cbn [zbits length bits_val]. pose proof (bits_val_range l). unfold len in *. f_equal.
  - apply Z.b2z_inj. rewrite Z.testbit_spec', Z.div_add_l, (Z.div_small (bits_val l)) by lia. by destruct x.
  - rewrite <- (zbits_mod _ (Z.of_nat (length l)) (_ + _)) by lia. rewrite Z.add_comm, Z_mod_plus_full, zbits_mod by lia. done.
Qed.

Lemma drop_zbits n k v : (k <= n)%nat -> drop k (zbits n v) = zbits (n - k) v.
Proof. intros H. replace n with (k + (n - k))%nat at 1 by lia. rewrite zbits_add. by rewrite drop_app_length' by (by rewrite length_zbits). Qed.

Lemma take_zbits n k v : (k <= n)%nat -> take k (zbits n v) = zbits k (v / 2 ^ Z.of_nat (n - k)).
Proof. intros H. replace n with (k + (n - k))%nat at 1 by lia. rewrite zbits_add. by rewrite take_app_length' by (by rewrite length_zbits). Qed.

(** Two ways to split a list. *)
Lemma app_split {A} (a b c d : list A) : a ++ b = c ++ d -> len c <= len a -> exists e, a = c ++ e /\ d = e ++ b.
Proof.
  intros E Hl. apply app_eq_inv in E as [(k & -> & ->)|(k & -> & ->)]; [by exists k|].
  rewrite len_app in Hl. destruct k as [|x k]; [exists []; by rewrite !app_nil_r|rewrite len_cons in Hl; pose proof (len_nonneg k); lia].
Qed.

Definition bits_of (bytes : list Z) : list bool := mjoin (zbits 8 <$> bytes).

Lemma bits_of_app a b : bits_of (a ++ b) = bits_of a ++ bits_of b.
Proof. unfold bits_of. by rewrite fmap_app, join_app. Qed.

Lemma bits_of_cons x b : bits_of (x :: b) = zbits 8 x ++ bits_of b.
Proof. done. Qed.

Lemma len_bits_of b : len (bits_of b) = 8 * len b.
Proof. induction b as [|x b IH]; [done|]. rewrite bits_of_cons, len_app, len_zbits, len_cons, IH. lia. Qed.
#[export] Hint Rewrite len_bits_of : len.

(** ** The position of a buffer in its bits *)

Import BitBuffer.

Record position (s : t) (d r : list bool) : Prop := {
  at_bits : bits_of (bytes_ s) = d ++ r;
  at_pos : len d = 8 * byte_offset_ s + bit_offset_ s;
  at_bit : 0 <= bit_offset_ s < 8;
  at_byte : 0 <= byte_offset_ s;
  at_count : byte_count_ s = len (bytes_ s);
  at_bytes : bytes_ok (bytes_ s);
  at_max : len (bytes_ s) <= 2 ^ 32 - 1
}.

Lemma position_start bytes : bytes_ok bytes -> len bytes <= 2 ^ 32 - 1 ->
  exists s, construct bytes (len bytes) = Some s /\ position s [] (bits_of bytes).
Proof.
  intros Hb Hl. exists (Bits bytes (len bytes) 0 0). split; [|by split].
  unfold construct. by rewrite (proj2 (Z.leb_le _ _)) by lia.
Qed.

Lemma position_len s d r : position s d r -> len d + len r = 8 * len (bytes_ s).
Proof. intros [E _ _ _ _ _ _]. rewrite <- len_bits_of, E, len_app. done. Qed.

Lemma remaining_bits s d r : position s d r -> RemainingBitCount s = len r.
Proof.
  intros H. pose proof (position_len s d r H). destruct H as [_ Hp Hb Ho Hc _ Hm]. unfold RemainingBitCount.
  pose proof (len_nonneg r). rewrite wrap_small; [lia|]. unfold in_u. lia.
Qed.

(** The byte the position is in. *)
Lemma position_byte s d r : position s d r -> r <> [] ->
  exists pre b post, bytes_ s = pre ++ b :: post /\ byte_offset_ s = len pre /\ byte_ok b /\ bytes_ok post /\
    d = bits_of pre ++ take (Z.to_nat (bit_offset_ s)) (zbits 8 b) /\
    r = zbits (Z.to_nat (8 - bit_offset_ s)) b ++ bits_of post.
Proof.
  intros H Hr. pose proof (position_len s d r H) as Hl. destruct H as [E Hp Hb Ho Hc Hok Hm].
  assert (0 < len r) by (destruct r; [done|rewrite len_cons; pose proof (len_nonneg r); lia]).
  assert (Hlt : (Z.to_nat (byte_offset_ s) < length (bytes_ s))%nat) by (unfold len in *; lia).
  destruct (lookup_lt_is_Some_2 _ _ Hlt) as [b Eb]. pose proof (take_drop_middle _ _ _ Eb) as Es.
  set (pre := take _ _) in Es. set (post := drop _ _) in Es.
  assert (Hpre : len pre = byte_offset_ s) by (unfold len, pre; rewrite length_take; lia).
  exists pre, b, post. split; [done|]. split; [done|]. rewrite <- Es in Hok, E.
  apply bytes_ok_app in Hok as [_ [Hb1 Hb2]%Forall_cons]. split; [done|]. split; [done|].
  rewrite bits_of_app, bits_of_cons in E.
  rewrite <- (take_drop (Z.to_nat (bit_offset_ s)) (zbits 8 b)), <- (app_assoc (take _ _)), (app_assoc (bits_of pre)) in E.
  apply app_inj_1 in E as [<- <-].
  - split; [done|]. rewrite drop_zbits by lia. do 2 f_equal. lia.
  - apply Nat2Z.inj. change (len (bits_of pre ++ take (Z.to_nat (bit_offset_ s)) (zbits 8 b)) = len d).
    rewrite len_app, len_bits_of. unfold len at 2. rewrite length_take, length_zbits. lia.
Qed.

(** ** Reading *)

Lemma HighestBits_val v c : byte_ok v -> 0 <= c <= 8 -> HighestBits v c = Some (v / 2 ^ (8 - c)).
Proof.
  intros Hv Hc.
  assert (H : Forall (fun c => Forall (fun v => HighestBits v c = Some (v / 2 ^ (8 - c))) (seqZ 0 256)) (seqZ 0 9)) by by_compute.
  rewrite Forall_forall in H. specialize (H c ltac:(apply elem_of_seqZ; lia)). rewrite Forall_forall in H.
  apply H, elem_of_seqZ. unfold byte_ok in Hv. lia.
Qed.

Lemma LowestBits_val v c : 0 <= c <= 8 -> LowestBits v c = Some (bits_val (zbits (Z.to_nat c) v)).
Proof.
  intros Hc. unfold LowestBits. rewrite (proj2 (Z.leb_le c 8)) by lia. cbn [check mbind option_bind].
  rewrite Z.shiftl_1_l, land_ones_mod, bits_val_zbits, Z2Nat.id by lia. done.
Qed.

Lemma bits_val_u32 l : len l <= 32 -> u32 (bits_val l) = bits_val l.
Proof. intros H. apply wrap_small. pose proof (bits_val_range l). pose proof (Z.pow_le_mono_r 2 (len l) 32). unfold in_u. lia. Qed.

Lemma bits_val_byte b : byte_ok b -> bits_val (zbits 8 b) = b.
Proof. intros H. by apply bits_val_exact. Qed.

(** Full bytes are shifted in. *)
Lemma peek_bytes_val bs : forall post l, bytes_ok bs -> len l + 8 * len bs <= 32 ->
  peek_bytes (length bs) (bs ++ post) (bits_val l) = Some (bits_val (l ++ bits_of bs), post).
Proof.
  induction bs as [|b bs IH]; intros post l Hb Hl; [by rewrite app_nil_r|].
  apply Forall_cons in Hb as [Hb1 Hb2]. rewrite len_cons in Hl. cbn [length peek_bytes app deref head mbind option_bind].
  pose proof (len_nonneg l). pose proof (len_nonneg bs).
  change (ptr_add (b :: bs ++ post) 1) with (bs ++ post). rewrite lor_shiftl_low by (unfold byte_ok in Hb1; lia).
  rewrite <- (bits_val_byte b Hb1) at 1. change (2 ^ 8) with (2 ^ len (zbits 8 b)).
  rewrite <- bits_val_app, bits_val_u32, IH by (rewrite ?len_app, ?len_zbits; try done; lia).
  by rewrite bits_of_cons, <- app_assoc.
Qed.

Lemma quot_val a b : (bits_val (a ++ b)) / 2 ^ len b = bits_val a.
Proof. rewrite bits_val_app, Z.div_add_l, Z.div_small; [lia|apply bits_val_range|pose proof (bits_val_range b); lia]. Qed.

(** A value of the first byte alone. *)
Lemma peek_first b c x y : byte_ok b -> 0 <= c < 8 -> zbits (Z.to_nat (8 - c)) b = x ++ y ->
  HighestBits (bits_val (zbits (Z.to_nat (8 - c)) b)) (c + len x) = Some (bits_val x).
Proof.
  intros Hb Hc E. assert (El : len x + len y = 8 - c) by (rewrite <- len_app, <- E, len_zbits; lia).
  rewrite E. pose proof (bits_val_range (x ++ y)) as Hr. rewrite len_app, El in Hr.
  pose proof (len_nonneg x). pose proof (len_nonneg y). pose proof (Z.pow_le_mono_r 2 (8 - c) 8).
  rewrite HighestBits_val by (unfold byte_ok; lia). replace (8 - (c + len x)) with (len y) by lia. by rewrite quot_val.
Qed.

(** The bits behind the full bytes. *)
Lemma peek_last bs l y r : bytes_ok bs -> bits_of bs = y ++ r -> len y < 8 -> len l + len y <= 32 ->
  (if 0 <? len y then b ← deref bs; h ← HighestBits b (len y); Some (Some (Z.lor (u32 (Z.shiftl (bits_val l) (len y))) h))
   else Some (Some (bits_val l))) = Some (Some (bits_val (l ++ y))).
Proof.
  intros Hb E Hy Hl. pose proof (len_nonneg y). destruct (Z.ltb_spec 0 (len y)) as [Hp|Hp].
  2:{ destruct y as [|? y]; [by rewrite app_nil_r|]. rewrite len_cons in Hp. pose proof (len_nonneg y). lia. }
  destruct bs as [|b bs].
  { destruct y; [done|discriminate]. }
  apply Forall_cons in Hb as [Hb1 Hb2]. rewrite bits_of_cons in E.
  destruct (app_split (zbits 8 b) (bits_of bs) y r E) as (z & Ez & _); [rewrite len_zbits; lia|].
  pose proof (peek_first b 0 y z Hb1 ltac:(lia) Ez) as Hh. change (Z.to_nat (8 - 0)) with 8%nat in Hh.
  rewrite bits_val_byte, Z.add_0_l in Hh by done. cbn [deref head mbind option_bind]. rewrite Hh. cbn [mbind option_bind].
  do 2 f_equal. pose proof (bits_val_range y) as Hy2.
  rewrite Z.shiftl_mul_pow2 by lia.
  rewrite wrap_small.
  - rewrite (lor_add_low _ _ (len y)) by (try apply Z_mod_mult; lia). by rewrite bits_val_app.
  - pose proof (bits_val_range (l ++ y)) as Hr. rewrite bits_val_app, len_app in Hr. pose proof (bits_val_range l).
    pose proof (Z.pow_le_mono_r 2 (len l + len y) 32). unfold in_u. nia.
Qed.

Lemma peek_bits s d x r : position s d (x ++ r) -> 0 < len x <= 32 -> PeekBits s (len x) = Some (Some (bits_val x)).
Proof.
  intros Hp Hx. unfold PeekBits. rewrite (proj2 (Z.ltb_lt 0 (len x))) by lia. cbn [check mbind option_bind].
  rewrite (remaining_bits _ _ _ Hp), len_app. pose proof (len_nonneg r).
  rewrite (proj2 (Z.ltb_ge (len x + len r) (len x))), (proj2 (Z.ltb_ge 32 (len x))) by lia. cbn [orb].
  destruct (position_byte _ _ _ Hp) as (pre & b & post & Es & Eo & Hb & Hpost & _ & E).
  { destruct x; [by destruct Hx|done]. }
  pose proof (at_bit _ _ _ Hp) as Hbit. set (c := bit_offset_ s) in *.
  rewrite Es, Eo, ptr_add_app_ge, Z.sub_diag, ptr_add_0 by lia. cbn [deref head mbind option_bind].
  rewrite LowestBits_val by lia. cbn [mbind option_bind].
  destruct (Z.ltb_spec (len x) (8 - c)) as [Hlt|Hge].
  { symmetry in E. destruct (app_split _ _ _ _ E) as (y & Ey & _); [rewrite len_zbits; lia|].
    by rewrite (peek_first b c x y) by done. }
  destruct (app_split _ _ _ _ E) as (x' & -> & E'); [rewrite len_zbits; lia|].
  rewrite len_app, len_zbits in Hx, Hge |- *. replace (Z.of_nat (Z.to_nat (8 - c)) + len x' - (8 - c)) with (len x') by lia.
  set (k := Z.to_nat (len x' / 8)). pose proof (Z.div_mod (len x') 8 ltac:(lia)) as Hdm. pose proof (Z.mod_pos_bound (len x') 8 ltac:(lia)) as Hmod. pose proof (len_nonneg x').
  assert (Hk0 : Z.of_nat k = len x' / 8) by lia. clearbody k.
  change (ptr_add (b :: post) 1) with post.
  assert (Hk : (k <= length post)%nat).
  { apply (f_equal len) in E'. rewrite len_bits_of, len_app in E'. unfold len in *. lia. }
  rewrite <- (take_drop k post) in E' |- *. rewrite bits_of_app in E'. apply Forall_take with (n := k) in Hpost as Ht. apply Forall_drop with (n := k) in Hpost as Hd.
  assert (Hkl : len (take k post) = len x' / 8) by (unfold len at 1; rewrite length_take, Nat.min_l by done; lia).
  symmetry in E'. destruct (app_split _ _ _ _ E') as (y & -> & E''); [rewrite len_bits_of; lia|].
  replace k with (length (take k post)) at 1 by (rewrite length_take; lia).
  rewrite peek_bytes_val by (try done; rewrite len_zbits; lia). cbn [mbind option_bind].
  rewrite len_app, len_bits_of in Hkl, Hdm, Hmod, Hx |- *. replace ((8 * len (take k post) + len y) mod 8) with (len y) by lia.
  rewrite (app_assoc (zbits _ _)). apply (peek_last _ _ _ r); [done|done|lia|]. rewrite len_app, len_zbits, len_bits_of. lia.
Qed.

Lemma peek_short s d r n : position s d r -> 0 < n -> len r < n \/ 32 < n -> PeekBits s n = Some None.
Proof.
  intros Hp Hn H. unfold PeekBits. rewrite (proj2 (Z.ltb_lt 0 n)) by lia. cbn [check mbind option_bind].
  rewrite (remaining_bits _ _ _ Hp). by destruct (Z.ltb_spec (len r) n), (Z.ltb_spec 32 n); try lia.
Qed.

(** [m] moves over the bits [x] and returns [a]. *)
Definition reads {A} (m : ST t A) (x : list bool) (a : A) : Prop :=
  forall s d r, position s d (x ++ r) -> exists s', m s = Some (a, s') /\ bytes_ s' = bytes_ s /\ position s' (d ++ x) r.

Lemma reads_ret {A} (a : A) : reads (mret a) [] a.
Proof. intros s d r H. exists s. split; [done|]. split; [done|]. by rewrite app_nil_r. Qed.

Lemma reads_bind {A B} (m : ST t A) (k : A -> ST t B) x y a b : reads m x a -> reads (k a) y b -> reads (m ≫= k) (x ++ y) b.
Proof.
  intros Hm Hk s d r H. rewrite <- app_assoc in H. destruct (Hm s d (y ++ r) H) as (s1 & E1 & B1 & H1).
  destruct (Hk s1 (d ++ x) r H1) as (s2 & E2 & B2 & H2). exists s2.
  rewrite (ST_bind_ret _ _ _ _ _ E1). split; [done|]. split; [congruence|]. by rewrite app_assoc.
Qed.

Lemma reads_then {A B} (m : ST t A) (k : A -> ST t B) x a b : reads m x a -> reads (k a) [] b -> reads (m ≫= k) x b.
Proof. intros Hm Hk. rewrite <- (app_nil_r x). by eapply reads_bind. Qed.

Lemma reads_consume x : reads (ConsumeBits (len x)) x true.
Proof.
  intros s d r H. unfold ConsumeBits, mbind, ST_bind, get, put. rewrite (remaining_bits _ _ _ H), len_app.
  pose proof (len_nonneg r). rewrite (proj2 (Z.ltb_ge _ _)) by lia. eexists. split; [done|]. split; [done|].
  destruct H as [E Hp Hb Ho Hc Hok Hm]. pose proof (len_nonneg x).
  pose proof (Z.div_mod (bit_offset_ s + len x) 8 ltac:(lia)). pose proof (Z.mod_pos_bound (bit_offset_ s + len x) 8 ltac:(lia)).
  split; cbn; try done; [by rewrite <- app_assoc|rewrite len_app; lia|pose proof (Z.div_pos (bit_offset_ s + len x) 8); lia].
Qed.

Lemma reads_ReadBits x : 0 < len x <= 32 -> reads (ReadBits (len x)) x (Some (bits_val x)).
Proof.
  intros Hx s d r H. unfold ReadBits, lift. unfold mbind at 1, ST_bind at 1, get. unfold mbind at 1, ST_bind at 1.
  rewrite (peek_bits _ _ _ _ H Hx). cbn [fmap option_fmap option_map].
  destruct (reads_consume x s d r H) as (s' & E & B & H'). exists s'. by rewrite (ST_bind_ret _ _ _ _ _ E).
Qed.

Lemma ReadBits_short s d r n : position s d r -> 0 < n -> len r < n \/ 32 < n -> ReadBits n s = Some (None, s).
Proof.
  intros H Hn Hr. unfold ReadBits, lift, mbind, ST_bind, get. by rewrite (peek_short _ _ _ _ H Hn Hr).
Qed.

(** ** Exponential Golomb codes *)

Definition golomb (v : Z) : list bool :=
  let k := Z.to_nat (Z.log2 (v + 1)) in replicate k false ++ zbits (S k) (v + 1).

Lemma zbits_top k v : 2 ^ Z.of_nat k <= v < 2 ^ (Z.of_nat k + 1) -> exists l, zbits (S k) v = true :: l /\ length l = k.
Proof.
  intros Hv. exists (zbits k v). split; [|apply length_zbits]. cbn [zbits]. f_equal.
  apply Z.b2z_inj. rewrite Z.testbit_spec' by lia. rewrite Z.pow_add_r in Hv by lia.
  replace (v / 2 ^ Z.of_nat k) with 1; [done|]. apply (Z.div_unique_pos _ _ _ (v - 2 ^ Z.of_nat k)); lia.
Qed.

Lemma golomb_shape v : 0 <= v -> exists l, golomb v = replicate (Z.to_nat (Z.log2 (v + 1))) false ++ true :: l /\
  length l = Z.to_nat (Z.log2 (v + 1)) /\ bits_val (true :: l) = v + 1.
Proof.
  intros Hv. pose proof (Z.log2_spec (v + 1) ltac:(lia)) as Hl. pose proof (Z.log2_nonneg (v + 1)).
  destruct (zbits_top (Z.to_nat (Z.log2 (v + 1))) (v + 1)) as (l & El & Hlen); [rewrite Z2Nat.id by lia; lia|].
  exists l. unfold golomb. rewrite El. split; [done|]. split; [done|]. rewrite <- El. apply bits_val_exact.
  unfold in_u. rewrite Nat2Z.inj_succ, Z2Nat.id by lia. lia.
Qed.

Lemma len_golomb v : 0 <= v -> len (golomb v) = 2 * Z.log2 (v + 1) + 1.
Proof. intros Hv. unfold golomb. rewrite len_app, len_replicate, len_zbits. pose proof (Z.log2_nonneg (v + 1)). lia. Qed.

(** Every list of bits starts with zeros. *)
Lemma leading_zeros (r : list bool) : exists z r', r = replicate z false ++ r' /\ head r' <> Some false.
Proof.
  induction r as [|[|] r (z & r' & E & H)]; [by exists O, []|by exists O, (true :: r)|]. rewrite E. by exists (S z), r'.
Qed.

Lemma skip_zeros_spec z : forall fuel c s d r, position s d (replicate z false ++ r) -> head r <> Some false -> (z < fuel)%nat ->
  exists s', skip_zeros fuel c s = Some (c + Z.of_nat z, s') /\ bytes_ s' = bytes_ s /\ position s' (d ++ replicate z false) r /\
    PeekBits s' 1 = Some (match r with [] => None | b :: _ => Some (Z.b2z b) end).
Proof.
  induction z as [|z IH]; intros fuel c s d r H Hr Hf; (destruct fuel as [|fuel]; [lia|]); cbn [skip_zeros].
  - assert (Hpeek : PeekBits s 1 = Some (match r with [] => None | b :: _ => Some (Z.b2z b) end)).
    { destruct r as [|b r]; [apply (peek_short _ _ _ _ H); [lia|by left]|].
      pose proof (peek_bits s d [b] r H ltac:(done)) as Hp. change (len [b]) with 1 in Hp. rewrite Hp. by destruct b. }
    exists s. unfold mbind, ST_bind, get, lift. rewrite Hpeek. cbn [fmap option_fmap option_map app].
    split; [|split; [done|split; [by rewrite app_nil_r|done]]].
    destruct r as [|[|] r]; [by rewrite Z.add_0_r|by rewrite Z.add_0_r|done].
  - unfold mbind at 1, ST_bind at 1, get. unfold mbind at 1, ST_bind at 1, lift.
    pose proof (peek_bits s d [false] (replicate z false ++ r) H ltac:(done)) as Hp. change (len [false]) with 1 in Hp. rewrite Hp.
    cbn [fmap option_fmap option_map]. change (bits_val [false]) with 0.
    destruct (reads_consume [false] s d (replicate z false ++ r) H) as (s1 & E1 & B1 & H1). change (len [false]) with 1 in E1.
    rewrite (ST_bind_ret _ _ _ _ _ E1).
    destruct (IH fuel (c + 1) s1 (d ++ [false]) r H1 Hr ltac:(lia)) as (s2 & E2 & B2 & H2 & P2). exists s2.
    rewrite E2. rewrite <- app_assoc in H2. split; [do 2 f_equal; lia|]. split; [congruence|done].
Qed.

Lemma zeros_unique z k r l : replicate z false ++ r = replicate k false ++ true :: l -> head r <> Some false ->
  z = k /\ r = true :: l.
Proof.
  revert k. induction z as [|z IH]; intros k E Hr; destruct k as [|k]; cbn in E; try done.
  - by subst r.
  - injection E as E. destruct (IH k E Hr) as [-> ->]. done.
Qed.

(** The bits the reader takes for a value. *)
Lemma golomb_value z l : (z < 32)%nat -> length l = z ->
  exists v, 0 <= v < 2 ^ 32 - 1 /\ bits_val (true :: l) = v + 1 /\ golomb v = replicate z false ++ true :: l.
Proof.
  intros Hz Hl. set (b := bits_val (true :: l)).
  assert (Hb : 2 ^ Z.of_nat z <= b < 2 ^ (Z.of_nat z + 1)).
  { subst b. cbn [bits_val Z.b2z]. pose proof (bits_val_range l). unfold len in *. rewrite Hl in *. rewrite Z.pow_add_r by lia. lia. }
  assert (Hk : Z.log2 b = Z.of_nat z) by (apply Z.log2_unique; [lia|by rewrite <- Z.add_1_r]).
  exists (b - 1). pose proof (Z.pow_le_mono_r 2 (Z.of_nat z + 1) 32). assert (0 < 2 ^ Z.of_nat z) by lia.
  split; [lia|]. split; [lia|]. unfold golomb. rewrite Z.sub_add, Hk, Nat2Z.id. f_equal. apply zbits_val. cbn [length]. lia.
Qed.

Lemma ret_bind {A B} (a : A) (k : A -> ST t B) s : (mret a ≫= k) s = k a s.
Proof. done. Qed.

Lemma position_seek s d r s' d' r' : position s d r -> position s' d' r' -> bytes_ s' = bytes_ s ->
  Seek (byte_offset_ s) (bit_offset_ s) s' = Some (true, s).
Proof.
  intros H H' Hb. pose proof (position_len _ _ _ H). pose proof (len_nonneg r). destruct H as [_ Hp Hbit Ho Hc _ _], H' as [_ _ _ _ Hc' _ _].
  unfold Seek, mbind, ST_bind, get, put. rewrite Hc', Hb.
  rewrite (proj2 (Z.ltb_ge _ _)), (proj2 (Z.ltb_ge 7 _)) by lia. cbn [orb].
  destruct (Z.eqb_spec (byte_offset_ s) (len (bytes_ s))) as [E|]; cbn [andb].
  - rewrite (proj2 (Z.ltb_ge 0 _)) by lia. rewrite <- Hc. by destruct s.
  - rewrite <- Hc. by destruct s.
Qed.

(** [ReadExponentialGolomb] reads a code that is there; otherwise it fails and stays where it was. *)
Lemma golomb_read s d r : position s d r ->
  (exists v r' s', r = golomb v ++ r' /\ 0 <= v < 2 ^ 32 - 1 /\ ReadExponentialGolomb s = Some (Some v, s') /\
     bytes_ s' = bytes_ s /\ position s' (d ++ golomb v) r') \/
  (ReadExponentialGolomb s = Some (None, s) /\ forall v r', 0 <= v < 2 ^ 32 - 1 -> r <> golomb v ++ r').
Proof.
  intros H. destruct (leading_zeros r) as (z & r1 & -> & Hr1).
  assert (Hf : (z < S (Z.to_nat (RemainingBitCount s)))%nat).
  { rewrite (remaining_bits _ _ _ H), len_app, len_replicate. pose proof (len_nonneg r1). lia. }
  destruct (skip_zeros_spec z _ 0 s d r1 H Hr1 Hf) as (s1 & E1 & B1 & H1 & P1).
  assert (Em : ReadExponentialGolomb s =
    (val ← (if 32 <? Z.of_nat z + 1 then mret None else ReadBits (Z.of_nat z + 1));
     match val with
     | Some v => mret (Some (u32 (v - 1)))
     | None => ok ← Seek (byte_offset_ s) (bit_offset_ s); dcheck ok ;; mret None
     end) s1).
  { unfold ReadExponentialGolomb. unfold mbind at 1, ST_bind at 1, get at 1. cbn [GetCurrentOffset].
    rewrite (ST_bind_ret _ _ _ _ _ E1). unfold mbind at 1, ST_bind at 1, get at 1. unfold mbind at 1, ST_bind at 1, lift. rewrite P1.
    by destruct r1 as [|[|] r1]. }
  rewrite Em. clear Em.
  destruct (Z.ltb_spec 32 (Z.of_nat z + 1)) as [Hz|Hz]; [|destruct (Z.ltb_spec (len r1) (Z.of_nat z + 1)) as [Hs|Hs]].
  - right. rewrite ret_bind. rewrite (ST_bind_ret _ _ _ _ _ (position_seek _ _ _ _ _ _ H H1 B1)).
    split; [done|]. intros v r' Hv E. destruct (golomb_shape v ltac:(lia)) as (l & El & Hl & _). rewrite El, <- app_assoc in E. cbn [app] in E.
    apply zeros_unique in E as [-> _]; [|done]. pose proof (proj1 (Z.log2_lt_pow2 (v + 1) 32 ltac:(lia)) ltac:(lia)). pose proof (Z.log2_nonneg (v + 1)). lia.
  - right. rewrite (ST_bind_ret _ _ _ _ _ (ReadBits_short s1 _ _ (Z.of_nat z + 1) H1 ltac:(lia) (or_introl Hs))).
    rewrite (ST_bind_ret _ _ _ _ _ (position_seek _ _ _ _ _ _ H H1 B1)).
    split; [done|]. intros v r' Hv E. destruct (golomb_shape v ltac:(lia)) as (l & El & Hl & _). rewrite El, <- app_assoc in E. cbn [app] in E.
    apply zeros_unique in E as [-> ->]; [|done]. rewrite len_cons, len_app in Hs. pose proof (len_nonneg r'). unfold len in Hs at 1. lia.
  - left. assert (Hcut : exists l r', r1 = true :: l ++ r' /\ length l = z).
    { destruct r1 as [|[|] r1]; [rewrite len_nil in Hs; lia| |done]. exists (take z r1), (drop z r1). rewrite take_drop. split; [done|].
      rewrite length_take. rewrite len_cons in Hs. unfold len in Hs. lia. }
    destruct Hcut as (l & r' & -> & Hl). destruct (golomb_value z l ltac:(lia) Hl) as (v & Hv & Hval & Hg).
    change (true :: l ++ r') with ((true :: l) ++ r') in H1.
    destruct (reads_ReadBits (true :: l) ltac:(rewrite len_cons; unfold len; lia) s1 _ r' H1) as (s2 & E2 & B2 & H2).
    rewrite len_cons in E2. unfold len in E2. rewrite Hl, Z.add_comm in E2. rewrite (ST_bind_ret _ _ _ _ _ E2), Hval.
    exists v, r', s2. rewrite Hg, <- !app_assoc in *. split; [done|]. split; [done|]. split; [|split; [congruence|done]].
    rewrite Z.add_simpl_r, wrap_small by (unfold in_u; lia). done.
Qed.

Lemma reads_golomb v : 0 <= v < 2 ^ 32 - 1 -> reads ReadExponentialGolomb (golomb v) (Some v).
Proof.
  intros Hv s d r H. destruct (golomb_read _ _ _ H) as [(v' & r' & s' & E & Hv' & Er & B & H')|[_ Hn]]; [|by destruct (Hn v r Hv)].
  enough (v' = v /\ r' = r) as [-> ->] by (by exists s').
  destruct (golomb_shape v ltac:(lia)) as (l & El & Hl & Hb). destruct (golomb_shape v' ltac:(lia)) as (l' & El' & Hl' & Hb').
  rewrite El, El', <- !app_assoc in E. cbn [app] in E. apply zeros_unique in E as [Ez E]; [|done]. injection E as E.
  apply app_inj_1 in E as [-> ->]; [split; [lia|done]|lia].
Qed.

(** ** Writing *)

Import BitBufferWriter.

Lemma testbit_above b i : byte_ok b -> 8 <= i -> Z.testbit b i = false.
Proof.
  intros Hb Hi. unfold byte_ok in Hb. destruct (Z.eq_dec b 0) as [->|]; [apply Z.bits_0|].
  apply Z.bits_above_log2; [lia|]. apply Z.log2_lt_pow2; [lia|]. pose proof (Z.pow_le_mono_r 2 8 i). lia.
Qed.

Lemma byte_ok_u8 v : byte_ok (u8 v).
Proof. apply (wrap_range 8). lia. Qed.

Lemma zbits_byte b :
  zbits 8 b = [Z.testbit b 7; Z.testbit b 6; Z.testbit b 5; Z.testbit b 4; Z.testbit b 3; Z.testbit b 2; Z.testbit b 1; Z.testbit b 0].
Proof. done. Qed.

(** The bits of a partial byte, one at a time. *)
Lemma partial_bit target source m o i : 0 <= i < 8 -> 0 <= o ->
  Z.testbit (u8 (Z.lor (Z.land target (Z.lnot m)) (Z.shiftr source o))) i =
  (Z.testbit target i && negb (Z.testbit m i)) || Z.testbit source (i + o).
Proof. intros Hi Ho. unfold wrap. by rewrite Z.mod_pow2_bits_low, Z.lor_spec, Z.land_spec, Z.lnot_spec, Z.shiftr_spec by lia. Qed.

Lemma write_partial o c source target y z : (o < 8)%nat -> (c + o <= 8)%nat -> byte_ok source -> length y = c ->
  zbits 8 source = y ++ z -> take (8 - o - c) z = replicate (8 - o - c) false ->
  exists w, WritePartialByte source (Z.of_nat c) target (Z.of_nat o) = Some w /\ byte_ok w /\
    zbits 8 w = take o (zbits 8 target) ++ y ++ drop (o + c) (zbits 8 target).
Proof.
  intros Ho Hc Hs Hy Ey Hz. unfold WritePartialByte.
  rewrite (proj2 (Z.ltb_lt (Z.of_nat o) 8)), (proj2 (Z.ltb_lt (Z.of_nat c) 9)), (proj2 (Z.leb_le (Z.of_nat c) (8 - Z.of_nat o))) by lia. cbn [check mbind option_bind].
  eexists. split; [done|]. split; [apply byte_ok_u8|]. rewrite (zbits_byte (u8 _)), !partial_bit by lia.
  pose proof (fun i => testbit_above source i Hs) as Habove. rewrite !zbits_byte in *. clear Hs.
  revert Ey Habove. generalize (Z.testbit source) as fs, (Z.testbit target) as ft. intros fs ft Ey Habove.
  do 8 (destruct o as [|o]; [do 9 (destruct c as [|c]; [ try (exfalso; clear - Hc; lia);
    repeat (destruct y as [|? y]; try discriminate Hy); simplify_eq/=;
    repeat match goal with |- context [fs ?e] => let v := eval vm_compute in e in progress change (fs e) with (fs v) end;
    repeat match goal with H : fs _ = false |- _ => rewrite H end; rewrite ?Habove by lia;
    rewrite ?andb_true_r, ?andb_false_r, ?orb_false_r, ?orb_false_l; reflexivity|]); clear - Hc; lia|]). clear - Ho; lia.
Qed.

Lemma zbits_zeros k v : zbits k (v * 2 ^ Z.of_nat k) = replicate k false.
Proof.
  transitivity (zbits k 0); [apply zbits_ext; intros i Hi; rewrite Z.bits_0; apply Z.mul_pow2_bits_low; lia|].
  induction k as [|k IH]; [done|]. cbn [zbits replicate]. by rewrite Z.bits_0, IH.
Qed.

Lemma shl_bits v k : (k < 64)%nat ->
  exists w, shl 64 v (Z.of_nat k) = Some w /\ zbits 64 w = drop k (zbits 64 v) ++ replicate k false.
Proof.
  intros Hk. eexists. unfold shl. rewrite (proj2 (Z.leb_le 0 (Z.of_nat k))), (proj2 (Z.ltb_lt (Z.of_nat k) 64)) by lia.
  split; [done|]. unfold wrap. rewrite zbits_mod, Z.shiftl_mul_pow2 by lia.
  replace 64%nat with ((64 - k) + k)%nat at 1 by lia. rewrite zbits_add, zbits_zeros, Z.div_mul, drop_zbits by lia. done.
Qed.

Lemma highest_byte_bits v : zbits 8 (HighestByte v) = take 8 (zbits 64 v).
Proof. rewrite take_zbits by lia. unfold HighestByte, wrap. by rewrite zbits_mod, Z.shiftr_div_pow2 by lia. Qed.

Lemma take_zeros {A} k (y : list A) n (x : A) : (length y <= k)%nat -> (k <= length y + n)%nat ->
  take k (y ++ replicate n x) = y ++ replicate (k - length y) x.
Proof. intros H1 H2. rewrite take_app_ge by lia. f_equal. rewrite take_replicate. f_equal. lia. Qed.

Lemma byte_at_middle pre (b : Z) post : byte_at (pre ++ b :: post) (len pre) = Some b.
Proof. unfold byte_at. by rewrite ptr_add_app_ge, Z.sub_diag, ptr_add_0 by lia. Qed.

Lemma insert_at_middle pre (b w : Z) post : <[Z.to_nat (len pre) := w]> (pre ++ b :: post) = pre ++ w :: post.
Proof. unfold len. rewrite Nat2Z.id. by rewrite insert_app_r_alt, Nat.sub_diag by lia. Qed.

Lemma nonempty_len {A} (l : list A) : 0 < len l <-> l <> [].
Proof. destruct l as [|x l]; [done|]. rewrite len_cons. pose proof (len_nonneg l). split; [done|lia]. Qed.

(** What is left for the last, partial byte. *)
Lemma write_rest fuel pre post val todo old r : bytes_ok post ->
  zbits 64 val = todo ++ replicate (64 - length todo) false -> (length todo < 8)%nat ->
  bits_of post = old ++ r -> length old = length todo ->
  exists post', write_bytes fuel (pre ++ post) (len pre) val (len todo) = Some (pre ++ post') /\
    bits_of post' = todo ++ r /\ bytes_ok post' /\ len post' = len post.
Proof.
  intros Hpost Hv Hl8 Hp Hol.
  assert (E : write_bytes fuel (pre ++ post) (len pre) val (len todo) =
    if 0 <? len todo then b ← byte_at (pre ++ post) (len pre); w ← WritePartialByte (HighestByte val) (len todo) b 0;
      Some (<[Z.to_nat (len pre) := w]> (pre ++ post)) else Some (pre ++ post)).
  { destruct fuel; cbn [write_bytes]; rewrite (proj2 (Z.leb_gt 8 (len todo))) by (unfold len; lia); done. }
  rewrite E. clear E. destruct (Z.ltb_spec 0 (len todo)) as [H0|H0].
  2:{ destruct todo; [|rewrite len_cons in H0; pose proof (len_nonneg todo); lia]. destruct old; [|done]. by exists post. }
  destruct post as [|b post]; [destruct old; [by destruct todo|done]|].
  apply Forall_cons in Hpost as [Hb Hpost]. rewrite byte_at_middle. cbn [mbind option_bind].
  assert (Hh : zbits 8 (HighestByte val) = todo ++ replicate (8 - length todo) false).
  { rewrite highest_byte_bits, Hv, take_zeros by lia. done. }
  destruct (write_partial 0 (length todo) (HighestByte val) b todo (replicate (8 - length todo) false)) as (w & Ew & Hw & Hwb);
    [lia|lia|apply byte_ok_u8|done|done|rewrite take_replicate; f_equal; lia|].
  change (Z.of_nat 0) with 0 in Ew. change (Z.of_nat (length todo)) with (len todo) in Ew. rewrite Ew. cbn [mbind option_bind].
  rewrite insert_at_middle. exists (w :: post). split; [done|].
  split; [|split; [by constructor|by rewrite !len_cons]]. rewrite bits_of_cons in Hp |- *. rewrite Hwb, take_0. cbn [app Nat.add]. rewrite <- app_assoc. f_equal.
  destruct (app_split _ _ _ _ Hp) as (e & Ee & ->).
  - rewrite len_zbits. unfold len. lia.
  - f_equal. rewrite Ee, <- Hol. apply drop_app_length.
Qed.

(** The bytes behind the first one: [todo] is what is left to write. *)
Lemma write_bytes_spec fuel : forall pre post val todo old r, bytes_ok post ->
  zbits 64 val = todo ++ replicate (64 - length todo) false -> (length todo <= 64)%nat ->
  bits_of post = old ++ r -> length old = length todo -> (length todo < 8 * fuel + 8)%nat ->
  exists post', write_bytes fuel (pre ++ post) (len pre) val (len todo) = Some (pre ++ post') /\
    bits_of post' = todo ++ r /\ bytes_ok post' /\ len post' = len post.
Proof.
  induction fuel as [|fuel IH]; intros pre post val todo old r Hpost Hv Hl64 Hp Hol Hf.
  { by apply (write_rest O pre post val todo old r). }
  destruct (Nat.lt_ge_cases (length todo) 8) as [H8|H8]; [by apply (write_rest (S fuel) pre post val todo old r)|].
  cbn [write_bytes]. rewrite (proj2 (Z.leb_le 8 (len todo))) by (unfold len; lia).
  destruct post as [|b post]; [destruct old; [destruct todo; cbn in *; lia|done]|].
  rewrite (proj2 (Z.ltb_lt _ _)) by (rewrite len_app, len_cons; pose proof (len_nonneg post); lia). cbn [check mbind option_bind].
  destruct (shl_bits val 8 ltac:(lia)) as (v & Ev & Hvb). change (Z.of_nat 8) with 8 in Ev. rewrite Ev. cbn [mbind option_bind].
  rewrite insert_at_middle. apply Forall_cons in Hpost as [Hb Hpost].
  rewrite bits_of_cons in Hp. symmetry in Hp. destruct (app_split _ _ _ _ Hp) as (old' & -> & Hp').
  { rewrite len_zbits. unfold len. lia. }
  rewrite length_app, length_zbits in Hol.
  assert (Hdrop : zbits 64 v = drop 8 todo ++ replicate (64 - length (drop 8 todo)) false).
  { rewrite Hvb, Hv, drop_app_le, <- app_assoc by lia. f_equal. rewrite <- replicate_add, length_drop. f_equal. lia. }
  destruct (IH (pre ++ [HighestByte val]) post v (drop 8 todo) old' r) as (post' & E & Hb' & Hok & Hl); try done.
  { rewrite length_drop. lia. } { rewrite length_drop. lia. } { rewrite length_drop. lia. }
  rewrite <- app_assoc, len_app, len_cons, len_nil in E. cbn [app] in E. rewrite Z.add_0_r in E.
  replace (len todo - 8) with (len (drop 8 todo)) by (unfold len; rewrite length_drop; lia).
  rewrite E. exists (HighestByte val :: post'). rewrite <- app_assoc. split; [done|]. split; [|split; [|by rewrite !len_cons, Hl]].
  - rewrite bits_of_cons, highest_byte_bits, Hv, Hb', take_app_le, app_assoc, take_drop by lia. done.
  - constructor; [apply byte_ok_u8|done].
Qed.

(** [m] replaces as many bits behind the position as [x] has by [x]. *)
Definition writes (m : ST t bool) (x : list bool) : Prop :=
  forall s d old r, position s d (old ++ r) -> length old = length x ->
  exists s', m s = Some (true, s') /\ position s' (d ++ x) r /\ len (bytes_ s') = len (bytes_ s).

Lemma WriteBits_short s d r v n : position s d r -> len r < n -> WriteBits v n s = Some (false, s).
Proof.
  intros H Hn. unfold WriteBits, mbind, ST_bind, get. rewrite (remaining_bits _ _ _ H).
  by rewrite (proj2 (Z.ltb_lt _ _)) by lia.
Qed.

(** New bytes at the same position. *)
Lemma position_put s d r bytes d' r' : position s d r -> bytes_ok bytes -> len bytes = len (bytes_ s) ->
  bits_of bytes = d' ++ r' -> len d' = len d -> position (Bits bytes (byte_count_ s) (byte_offset_ s) (bit_offset_ s)) d' r'.
Proof. intros [E Hp Hb Ho Hc Hok Hm] Hbo Hl Eb Hd. split; cbn; try done; lia. Qed.

(** The bytes [WriteBits] leaves. *)
Lemma write_memory n v pre b post c old r : (0 < n <= 64)%nat -> (c < 8)%nat -> byte_ok b -> bytes_ok post ->
  zbits (8 - c) b ++ bits_of post = old ++ r -> length old = n ->
  exists val w bytes, shl 64 v (64 - Z.of_nat n) = Some val /\
    WritePartialByte (HighestByte val) (Z.min (Z.of_nat n) (8 - Z.of_nat c)) b (Z.of_nat c) = Some w /\
    (if Z.of_nat n <=? 8 - Z.of_nat c then Some (pre ++ w :: post) else
       val ← shl 64 val (Z.min (Z.of_nat n) (8 - Z.of_nat c));
       write_bytes 8 (pre ++ w :: post) (len pre + 1) val (Z.of_nat n - Z.min (Z.of_nat n) (8 - Z.of_nat c))) = Some (pre ++ w :: bytes) /\
    zbits 8 w ++ bits_of bytes = take c (zbits 8 b) ++ zbits n v ++ r /\ byte_ok w /\ bytes_ok bytes /\ len bytes = len post.
Proof.
  intros Hn Hc Hb Hpost E Hol. destruct (shl_bits v (64 - n) ltac:(lia)) as (val & Ev & Hv).
  replace (Z.of_nat (64 - n)) with (64 - Z.of_nat n) in Ev by lia. rewrite drop_zbits in Hv by lia. replace (64 - (64 - n))%nat with n in Hv by lia.
  set (todo := zbits n v) in *. assert (Hlt : length todo = n) by apply length_zbits.
  destruct (Nat.le_gt_cases n (8 - c)) as [Hs|Hs].
  - replace (Z.min (Z.of_nat n) (8 - Z.of_nat c)) with (Z.of_nat n) by lia.
    destruct (write_partial c n (HighestByte val) b todo (replicate (8 - n) false)) as (w & Ew & Hw & Hwb); [lia|lia|apply byte_ok_u8|done| |rewrite take_replicate; f_equal; lia|].
    { rewrite highest_byte_bits, Hv, take_zeros by lia. by rewrite Hlt. }
    exists val, w, post. split; [done|]. split; [done|]. rewrite (proj2 (Z.leb_le _ _)) by lia. split; [done|].
    split; [|done]. rewrite Hwb, <- !app_assoc. do 2 f_equal.
    destruct (app_split _ _ _ _ E) as (e & Ee & ->); [rewrite len_zbits; unfold len; lia|]. f_equal.
    rewrite <- drop_drop, drop_zbits, Ee by lia. rewrite <- Hol. apply drop_app_length.
  - replace (Z.min (Z.of_nat n) (8 - Z.of_nat c)) with (Z.of_nat (8 - c)) by lia.
    symmetry in E. destruct (app_split _ _ _ _ E) as (old' & -> & E'); [rewrite len_zbits; unfold len; lia|].
    rewrite length_app, length_zbits in Hol.
    destruct (write_partial c (8 - c) (HighestByte val) b (take (8 - c) todo) (take c (drop (8 - c) todo ++ replicate (64 - n) false))) as (w & Ew & Hw & Hwb);
      [lia|lia|apply byte_ok_u8|rewrite length_take; lia| |by replace (8 - c - (8 - c))%nat with O by lia|].
    { rewrite highest_byte_bits, Hv. rewrite <- (take_drop (8 - c) todo) at 1. rewrite <- app_assoc, take_app_ge by (rewrite length_take; lia).
      do 2 f_equal. rewrite length_take. lia. }
    destruct (shl_bits val (8 - c) ltac:(lia)) as (val' & Ev' & Hv').
    assert (Hdl : length (drop (8 - c) todo) = (n - (8 - c))%nat) by (rewrite length_drop; lia).
    destruct (write_bytes_spec 8 (pre ++ [w]) post val' (drop (8 - c) todo) old' r) as (bytes & Eb & Hbb & Hok & Hl); try done; try lia.
    { rewrite Hv', Hv, drop_app_le, <- app_assoc by lia. f_equal. rewrite <- replicate_add. f_equal. lia. }
    exists val, w, bytes. split; [done|]. split; [done|]. rewrite (proj2 (Z.leb_gt _ _)) by lia. rewrite Ev'. cbn [mbind option_bind].
    rewrite <- !app_assoc, len_app, len_cons, len_nil, Z.add_0_r in Eb. cbn [app] in Eb.
    replace (Z.of_nat n - Z.of_nat (8 - c)) with (len (drop (8 - c) todo)) by (unfold len; lia). split; [done|].
    split; [|done]. rewrite Hwb, Hbb. replace (c + (8 - c))%nat with 8%nat by lia.
    rewrite (drop_ge (zbits 8 b)), app_nil_r by (rewrite length_zbits; lia).
    rewrite <- !app_assoc. f_equal. by rewrite app_assoc, take_drop.
Qed.

Lemma writes_bits n v : (0 < n <= 64)%nat -> writes (WriteBits v (Z.of_nat n)) (zbits n v).
Proof.
  intros Hn s d old r H Hol. rewrite length_zbits in Hol.
  destruct (position_byte _ _ _ H) as (pre & b & post & Es & Eo & Hb & Hpost & Ed & E).
  { intros E. apply app_eq_nil in E as [-> _]. cbn in Hol. lia. }
  pose proof (at_bit _ _ _ H) as Hbit. set (c := Z.to_nat (bit_offset_ s)) in *. assert (Ec : bit_offset_ s = Z.of_nat c) by lia.
  rewrite Ec in E. replace (Z.to_nat (8 - Z.of_nat c)) with (8 - c)%nat in E by lia. symmetry in E.
  destruct (write_memory n v pre b post c old r Hn ltac:(lia) Hb Hpost E Hol) as (val & w & bytes & Ev & Ew & Ebs & Hbits & Hw & Hbo & Hl).
  assert (Hp' : position (Bits (pre ++ w :: bytes) (byte_count_ s) (byte_offset_ s) (bit_offset_ s)) d (zbits n v ++ r)).
  { pose proof (at_bytes _ _ _ H) as Hok. rewrite Es in Hok. apply bytes_ok_app in Hok as [Hok _].
    apply (position_put s d (old ++ r)); try done.
    - apply bytes_ok_app. split; [done|]. by constructor.
    - by rewrite Es, !len_app, !len_cons, Hl.
    - rewrite bits_of_app, bits_of_cons, Hbits, Ed, <- app_assoc. done. }
  destruct (reads_consume (zbits n v) _ _ _ Hp') as (s' & Ec' & B & H'). exists s'. split; [|split; [done|]].
  - unfold WriteBits. unfold mbind at 1, ST_bind at 1, get. rewrite (remaining_bits _ _ _ H), len_app.
    pose proof (len_nonneg r). assert (len old = Z.of_nat n) by (unfold len; lia).
    rewrite (proj2 (Z.ltb_ge (len old + len r) (Z.of_nat n))) by lia.
    unfold mbind at 1, ST_bind at 1, lift at 1. rewrite Ev. cbn [fmap option_fmap option_map].
    unfold mbind at 1, ST_bind at 1, lift at 1. rewrite Es, Eo, byte_at_middle. cbn [fmap option_fmap option_map].
    unfold mbind at 1, ST_bind at 1, lift at 1. rewrite Ec, Ew. cbn [fmap option_fmap option_map]. rewrite insert_at_middle.
    rewrite len_zbits, Eo, Ec in Ec'. destruct (Z.of_nat n <=? 8 - Z.of_nat c).
    + injection Ebs as Ebs. rewrite <- Ebs in Ec'. exact Ec'.
    + destruct (shl 64 val _) as [val'|]; [|done]. cbn [mbind option_bind] in Ebs. unfold mbind at 1, ST_bind at 1, mbind at 1, ST_bind at 1, lift.
      cbn [fmap option_fmap option_map]. rewrite Ebs. exact Ec'.
  - rewrite B. cbn. by rewrite Es, !len_app, !len_cons, Hl.
Qed.

(** ** Codes of variable length *)

Lemma count_bits_loop_log2 fuel : forall v, 0 < v < 2 ^ Z.of_nat fuel -> count_bits_loop fuel v = Z.log2 v + 1.
Proof.
  induction fuel as [|fuel IH]; intros v Hv; [cbn in Hv; lia|]. cbn [count_bits_loop]. rewrite (proj2 (Z.eqb_neq v 0)) by lia.
  rewrite Nat2Z.inj_succ, Z.pow_succ_r in Hv by lia. rewrite Z.shiftr_div_pow2 by lia. change (2 ^ 1) with 2.
  destruct (Z.eq_dec v 1) as [->|Hne]; [by destruct fuel|].
  rewrite IH by (split; [apply Z.div_str_pos; lia|apply Z.div_lt_upper_bound; lia]). pose proof (Z.log2_shiftr v 1 ltac:(lia)) as Hl. rewrite Z.shiftr_div_pow2 in Hl by lia. change (2 ^ 1) with 2 in Hl.
  pose proof (Z.log2_le_mono 2 v ltac:(lia)) as H2. change (Z.log2 2) with 1 in H2. lia.
Qed.

Lemma CountBits_log2 v : 0 < v < 2 ^ 64 -> CountBits v = Z.log2 v + 1.
Proof. apply (count_bits_loop_log2 64). Qed.

(** [m] writes the bits [x] with one call of [WriteBits]. *)
Definition writes_as (m : ST t bool) (x : list bool) : Prop :=
  exists n v, (0 < n <= 64)%nat /\ x = zbits n v /\ forall s, m s = WriteBits v (Z.of_nat n) s.

Lemma as_writes m x : writes_as m x -> writes m x.
Proof. intros (n & v & Hn & -> & E) s d old r H Ho. rewrite E. by eapply writes_bits. Qed.

Lemma as_short m x s d r : writes_as m x -> position s d r -> len r < len x -> m s = Some (false, s).
Proof. intros (n & v & Hn & -> & E) H Hl. rewrite E. rewrite len_zbits in Hl. by eapply WriteBits_short. Qed.

Lemma as_golomb v : 0 <= v < 2 ^ 32 - 1 -> writes_as (WriteExponentialGolomb v) (golomb v).
Proof.
  intros Hv. unfold writes_as, WriteExponentialGolomb. rewrite (proj2 (Z.eqb_neq v _)) by lia. rewrite CountBits_log2 by lia.
  pose proof (Z.log2_nonneg (v + 1)). pose proof (proj1 (Z.log2_lt_pow2 (v + 1) 32 ltac:(lia)) ltac:(lia)).
  set (k := Z.to_nat (Z.log2 (v + 1))). replace ((Z.log2 (v + 1) + 1) * 2 - 1) with (Z.of_nat (k + S k)) by lia.
  assert (Hg : golomb v = zbits (k + S k) (v + 1)).
  { rewrite zbits_add. unfold golomb. fold k. f_equal. rewrite Z.div_small; [|pose proof (Z.log2_spec (v + 1)); rewrite Nat2Z.inj_succ; subst k; rewrite Z2Nat.id by lia; lia].
    symmetry. apply (zbits_zeros k 0). }
  exists (k + S k)%nat, (v + 1). split; [lia|]. by split.
Qed.

(** The value and the code of a signed number. *)
Definition signed_index (v : Z) : Z := if 0 <? v then 2 * v - 1 else - 2 * v.

Lemma signed_index_range v : - 2 ^ 31 < v < 2 ^ 31 -> 0 <= signed_index v < 2 ^ 32 - 1.
Proof. intros Hv. unfold signed_index. destruct (Z.ltb_spec 0 v); lia. Qed.

Lemma as_signed v : - 2 ^ 31 < v < 2 ^ 31 -> writes_as (WriteSignedExponentialGolomb v) (golomb (signed_index v)).
Proof.
  intros Hv. unfold WriteSignedExponentialGolomb. pose proof (signed_index_range v Hv) as Hr. unfold signed_index in *.
  destruct (Z.eqb_spec v 0) as [->|Hne]; [by apply as_golomb|]. destruct (Z.ltb_spec 0 v) as [Hp|Hp].
  - rewrite (wrap_small 32 (v * 2)), wrap_small by (unfold in_u; lia). replace (v * 2 - 1) with (2 * v - 1) by lia. by apply as_golomb.
  - rewrite (proj2 (Z.eqb_neq v _)) by lia. rewrite wrap_small by (unfold in_u; lia). replace (- v * 2) with (-2 * v) by lia. by apply as_golomb.
Qed.

Lemma reads_signed v : - 2 ^ 31 < v < 2 ^ 31 -> reads ReadSignedExponentialGolomb (golomb (signed_index v)) (Some v).
Proof.
  intros Hv. pose proof (signed_index_range v Hv) as Hr. eapply reads_then; [by apply reads_golomb|]. cbn.
  replace (if _ =? 0 then _ else _) with v; [apply reads_ret|].
  change (Z.land (signed_index v) 1) with (Z.land (signed_index v) (2 ^ 1 - 1)). rewrite land_ones_mod by lia. change (2 ^ 1) with 2. unfold signed_index in *. destruct (Z.ltb_spec 0 v).
  - replace ((2 * v - 1) mod 2) with 1 by (apply (Z.mod_unique_pos _ 2 (v - 1) 1); lia). cbn [Z.eqb].
    rewrite Z.sub_add, wrap_small by (unfold in_u; lia). rewrite Z.mul_comm, Z.div_mul; lia.
  - replace (-2 * v) with ((- v) * 2) by lia. rewrite Z.mod_mul, Z.div_mul by lia. cbn [Z.eqb]. lia.
Qed.

(** The code of a value below [num]. *)
Definition nonsymmetric (v num : Z) : list bool :=
  let n := Z.to_nat (Z.log2 num + 1) in let m := 2 ^ (Z.log2 num + 1) - num in
  if v <? m then zbits (n - 1) v else zbits n (v + m).

Section NonSymmetric.
Context (v num : Z) (num_range : 2 <= num < 2 ^ 31) (v_range : 0 <= v < num).
Local Abbreviation n := (Z.log2 num + 1).
Local Abbreviation m := (2 ^ (Z.log2 num + 1) - num).

Lemma nonsymmetric_facts : 2 <= n <= 31 /\ 0 < m <= 2 ^ (n - 1) /\ CountBits num = n /\ min_bits_values num = Some m.
Proof.
  pose proof (Z.log2_spec num ltac:(lia)) as Hl. rewrite <- Z.add_1_r in Hl. pose proof (Z.log2_le_mono 2 num ltac:(lia)) as H2. change (Z.log2 2) with 1 in H2.
  pose proof (proj1 (Z.log2_lt_pow2 num 31 ltac:(lia)) ltac:(lia)). replace (n - 1) with (Z.log2 num) by lia.
  split; [lia|]. rewrite Z.pow_add_r in * by lia. change (2 ^ 1) with 2 in *. split; [lia|].
  assert (HC : CountBits num = n) by (apply CountBits_log2; lia). split; [done|]. unfold min_bits_values, shl. rewrite HC.
  rewrite (proj2 (Z.leb_le 0 n)), (proj2 (Z.ltb_lt n 32)) by lia. cbn [andb check mbind option_bind]. f_equal.
  pose proof (Z.pow_le_mono_r 2 n 31). rewrite Z.shiftl_1_l, Z.pow_add_r in * by lia. change (2 ^ 1) with 2 in *.
  rewrite (wrap_small 32 (_ * 2)), wrap_small by (unfold in_u; lia). done.
Qed.

Lemma as_nonsymmetric : writes_as (WriteNonSymmetric v num) (nonsymmetric v num).
Proof.
  destruct nonsymmetric_facts as (Hn & Hm & HC & Hmin). pose proof (Z.pow_le_mono_r 2 (n - 1) 30 ltac:(lia) ltac:(lia)).
  assert (E : forall s, WriteNonSymmetric v num s =
    (if v <? m then WriteBits v (n - 1) else WriteBits (u32 (v + m)) n) s).
  { intros s. unfold WriteNonSymmetric. rewrite (proj2 (Z.ltb_lt v num)), (proj2 (Z.leb_le num _)) by lia. cbn [dcheck]. rewrite !ret_bind.
    unfold mbind at 1, ST_bind at 1, lift. rewrite Hmin. cbn [fmap option_fmap option_map]. by rewrite HC. }
  unfold writes_as, nonsymmetric. destruct (Z.ltb_spec v m) as [Hv|Hv].
  - exists (Z.to_nat n - 1)%nat, v. split; [lia|]. split; [done|]. intros s. rewrite E. do 2 f_equal. lia.
  - exists (Z.to_nat n), (v + m). split; [lia|]. split; [done|]. intros s. rewrite E, wrap_small, Z2Nat.id by (unfold in_u; lia). done.
Qed.

Lemma reads_nonsymmetric : reads (ReadNonSymmetric num) (nonsymmetric v num) (Some v).
Proof.
  destruct nonsymmetric_facts as (Hn & Hm & HC & Hmin). intros s d r H. unfold ReadNonSymmetric.
  rewrite (proj2 (Z.ltb_lt 0 num)), (proj2 (Z.leb_le num _)) by lia. cbn [dcheck]. rewrite !ret_bind.
  unfold mbind at 1, ST_bind at 1, lift. rewrite Hmin. cbn [fmap option_fmap option_map]. rewrite HC.
  revert s d r H. unfold nonsymmetric. pose proof (Z.pow_le_mono_r 2 (n - 1) 30 ltac:(lia) ltac:(lia)) as H30.
  assert (H2n : 2 ^ n = 2 * 2 ^ (n - 1)) by (rewrite <- Z.pow_succ_r by lia; f_equal; lia).
  set (k := (Z.to_nat n - 1)%nat). assert (Ek : n - 1 = Z.of_nat k) by lia. replace (Z.to_nat n) with (k + 1)%nat by lia.
  destruct (Z.ltb_spec v m) as [Hv|Hv].
  - rewrite Ek, <- (len_zbits k v). eapply reads_then; [apply reads_ReadBits; rewrite len_zbits; lia|]. cbn beta iota.
    rewrite bits_val_exact by (unfold in_u; rewrite <- Ek; lia). rewrite (proj2 (Z.ltb_lt v m)) by lia. apply reads_ret.
  - rewrite zbits_add. change (2 ^ Z.of_nat 1) with 2. rewrite Ek, <- (len_zbits k ((v + m) / 2)).
    eapply reads_bind; [apply reads_ReadBits; rewrite len_zbits; lia|]. cbn beta iota.
    rewrite bits_val_exact by (unfold in_u; rewrite <- Ek; split; [apply Z.div_pos; lia|apply Z.div_lt_upper_bound; lia]).
    rewrite (proj2 (Z.ltb_ge _ m)) by (apply Z.div_le_lower_bound; lia). eapply reads_then; [apply (reads_ReadBits (zbits 1 (v + m))); by rewrite len_zbits|].
    rewrite bits_val_zbits. change (2 ^ Z.of_nat 1) with 2. rewrite Z.shiftl_mul_pow2 by lia. change (2 ^ 1) with 2.
    pose proof (Z.div_mod (v + m) 2 ltac:(lia)). pose proof (Z.mod_pos_bound (v + m) 2 ltac:(lia)).
    rewrite (wrap_small 32 (_ * 2)), (wrap_small 32 (_ + _)), wrap_small by (unfold in_u; lia).
    replace (_ * 2 + _ - m) with v by lia. apply reads_ret.
Qed.

End NonSymmetric.

(** ** Readers on arbitrary bits

    [m] returns, moves forward and leaves the bytes. *)
Definition safe_reader {A} (m : ST t A) : Prop :=
  forall s d r, position s d r -> exists a s' x r', m s = Some (a, s') /\ bytes_ s' = bytes_ s /\ r = x ++ r' /\ position s' (d ++ x) r'.

Lemma safe_ret {A} (a : A) : safe_reader (mret a).
Proof. intros s d r H. exists a, s, [], r. rewrite app_nil_r. done. Qed.

Lemma safe_bind {A B} (m : ST t A) (k : A -> ST t B) : safe_reader m -> (forall a, safe_reader (k a)) -> safe_reader (m ≫= k).
Proof.
  intros Hm Hk s d r H. destruct (Hm s d r H) as (a & s1 & x & r1 & E1 & B1 & -> & H1).
  destruct (Hk a s1 (d ++ x) r1 H1) as (b & s2 & y & r2 & E2 & B2 & -> & H2). exists b, s2, (x ++ y), r2.
  rewrite (ST_bind_ret _ _ _ _ _ E1). rewrite <- !app_assoc in *. split; [done|]. split; [congruence|done].
Qed.

Lemma safe_if {A} (b : bool) (m m' : ST t A) : safe_reader m -> safe_reader m' -> safe_reader (if b then m else m').
Proof. by destruct b. Qed.

(** A list cut at a length. *)
Lemma cut {A} (r : list A) n : 0 <= n <= len r -> exists x r', r = x ++ r' /\ len x = n.
Proof.
  intros Hn. exists (take (Z.to_nat n) r), (drop (Z.to_nat n) r). rewrite take_drop. split; [done|].
  unfold len in *. rewrite length_take. lia.
Qed.

Lemma safe_consume n : 0 <= n -> safe_reader (ConsumeBits n).
Proof.
  intros Hn s d r H. destruct (Z.ltb_spec (len r) n) as [Hl|Hl].
  - exists false, s, [], r. rewrite app_nil_r. split; [|done]. unfold ConsumeBits, mbind, ST_bind, get.
    by rewrite (remaining_bits _ _ _ H), (proj2 (Z.ltb_lt _ _)) by lia.
  - destruct (cut r n) as (x & r' & -> & <-); [lia|]. destruct (reads_consume x s d r' H) as (s' & E & B & H'). by exists true, s', x, r'.
Qed.

Lemma ReadBits_spec n s d r : 0 < n -> position s d r ->
  (exists x r' s', r = x ++ r' /\ len x = n /\ n <= 32 /\ ReadBits n s = Some (Some (bits_val x), s') /\ bytes_ s' = bytes_ s /\ position s' (d ++ x) r') \/
  ReadBits n s = Some (None, s) /\ (len r < n \/ 32 < n).
Proof.
  intros Hn H. destruct (Z.ltb_spec (len r) n) as [Hl|Hl]; [right; split; [eapply ReadBits_short; try done; by left|by left]|].
  destruct (Z.ltb_spec 32 n) as [H32|H32]; [right; split; [eapply ReadBits_short; try done; by right|by right]|].
  left. destruct (cut r n) as (x & r' & -> & <-); [lia|]. destruct (reads_ReadBits x ltac:(lia) s d r' H) as (s' & E & B & H').
  by exists x, r', s'.
Qed.

Lemma safe_ReadBits n : 0 < n -> safe_reader (ReadBits n).
Proof.
  intros Hn s d r H. destruct (ReadBits_spec n s d r Hn H) as [(x & r' & s' & -> & _ & _ & E & B & H')|[E _]].
  - by exists (Some (bits_val x)), s', x, r'.
  - exists None, s, [], r. by rewrite app_nil_r.
Qed.

Lemma safe_golomb : safe_reader ReadExponentialGolomb.
Proof.
  intros s d r H. destruct (golomb_read s d r H) as [(v & r' & s' & -> & _ & E & B & H')|[E _]].
  - by exists (Some v), s', (golomb v), r'.
  - exists None, s, [], r. by rewrite app_nil_r.
Qed.

Lemma safe_signed : safe_reader ReadSignedExponentialGolomb.
Proof. apply safe_bind; [apply safe_golomb|]. intros [v|]; apply safe_ret. Qed.

Lemma safe_ReadUInt8 : safe_reader ReadUInt8.
Proof.
  intros s d r H. unfold ReadUInt8. destruct (ReadBits_spec 8 s d r ltac:(lia) H) as [(x & r' & s' & -> & Hx & _ & E & B & H')|[E _]];
    rewrite (ST_bind_ret _ _ _ _ _ E).
  - pose proof (bits_val_range x) as Hr. rewrite Hx in Hr. rewrite (proj2 (Z.leb_le _ _)) by lia. by eexists _, s', x, r'.
  - exists None, s, [], r. by rewrite app_nil_r.
Qed.

Create HintDb bits.
#[export] Hint Resolve safe_ret safe_golomb safe_signed safe_ReadUInt8 : bits.

(** ** Sequences of fields *)

Inductive field :=
  | FBits (n : nat) (v : Z)
  | FGolomb (v : Z)
  | FSigned (v : Z)
  | FNonSymmetric (v num : Z).

(** The values that have a code.  A non-symmetric range of 1 or of 2^31 values passes the checks at the start of its reader and its
    writer and fails in them, see [nonsymmetric_undefined]. *)
Definition field_ok (f : field) : Prop :=
  match f with
  | FBits n v => (0 < n <= 32)%nat /\ in_u (Z.of_nat n) v
  | FGolomb v => 0 <= v < 2 ^ 32 - 1
  | FSigned v => - 2 ^ 31 < v < 2 ^ 31
  | FNonSymmetric v num => 0 <= v < num /\ 2 <= num < 2 ^ 31
  end.

Definition field_code (f : field) : list bool :=
  match f with
  | FBits n v => zbits n v
  | FGolomb v => golomb v
  | FSigned v => golomb (signed_index v)
  | FNonSymmetric v num => nonsymmetric v num
  end.

Definition field_value (f : field) : Z :=
  match f with FBits _ v | FGolomb v | FSigned v | FNonSymmetric v _ => v end.

Definition write_field (f : field) : ST t bool :=
  match f with
  | FBits n v => WriteBits v (Z.of_nat n)
  | FGolomb v => WriteExponentialGolomb v
  | FSigned v => WriteSignedExponentialGolomb v
  | FNonSymmetric v num => WriteNonSymmetric v num
  end.

Definition read_field (f : field) : ST t (option Z) :=
  match f with
  | FBits n _ => ReadBits (Z.of_nat n)
  | FGolomb _ => ReadExponentialGolomb
  | FSigned _ => ReadSignedExponentialGolomb
  | FNonSymmetric _ num => ReadNonSymmetric num
  end.

Fixpoint write_fields (l : list field) : ST t bool :=
  match l with [] => mret true | f :: l' => ok ← write_field f; if ok : bool then write_fields l' else mret false end.

Fixpoint read_fields (l : list field) : ST t (option (list Z)) :=
  match l with
  | [] => mret (Some [])
  | f :: l' =>
      v ← read_field f;
      match v with None => mret None | Some v => vs ← read_fields l'; mret ((fun vs => v :: vs) <$> vs) end
  end.

Definition fields_code (l : list field) : list bool := mjoin (field_code <$> l).

Lemma field_as f : field_ok f -> writes_as (write_field f) (field_code f).
Proof.
  destruct f as [n v|v|v|v num]; intros H.
  - exists n, v. destruct H. split; [lia|done].
  - by apply as_golomb.
  - by apply as_signed.
  - by apply as_nonsymmetric; destruct H.
Qed.

Lemma field_reads f : field_ok f -> reads (read_field f) (field_code f) (Some (field_value f)).
Proof.
  destruct f as [n v|v|v|v num]; intros H; cbn [field_code read_field field_value].
  - destruct H as [Hn Hv]. pose proof (reads_ReadBits (zbits n v)) as Hr. rewrite len_zbits, bits_val_exact in Hr by done. apply Hr. lia.
  - by apply reads_golomb.
  - by apply reads_signed.
  - by apply reads_nonsymmetric; destruct H.
Qed.

Lemma fields_write l : Forall field_ok l -> writes (write_fields l) (fields_code l).
Proof.
  induction 1 as [|f l Hf Hl IH]; intros s d old r H Ho.
  - destruct old; [|done]. exists s. rewrite app_nil_r. done.
  - change (fields_code (f :: l)) with (field_code f ++ fields_code l) in *. rewrite length_app in Ho.
    rewrite <- (take_drop (length (field_code f)) old), <- app_assoc in H.
    destruct (as_writes _ _ (field_as f Hf) s d _ _ H) as (s1 & E1 & H1 & L1); [rewrite length_take; lia|].
    destruct (IH s1 _ _ _ H1) as (s2 & E2 & H2 & L2); [rewrite length_drop; lia|]. exists s2.
    cbn [write_fields]. rewrite (ST_bind_ret _ _ _ _ _ E1), app_assoc. split; [done|]. split; [done|lia].
Qed.

Lemma fields_read l : Forall field_ok l -> reads (read_fields l) (fields_code l) (Some (field_value <$> l)).
Proof.
  induction 1 as [|f l Hf Hl IH]; [apply reads_ret|]. change (fields_code (f :: l)) with (field_code f ++ fields_code l).
  cbn [read_fields]. eapply reads_bind; [by apply field_reads|]. cbn beta iota. eapply reads_then; [exact IH|]. apply reads_ret.
Qed.

Lemma safe_nonsymmetric num : 2 <= num < 2 ^ 31 -> safe_reader (ReadNonSymmetric num).
Proof.
  intros Hn. destruct (nonsymmetric_facts num Hn) as (Hlog & Hm & HC & Hmin). intros s d r H. unfold ReadNonSymmetric.
  rewrite (proj2 (Z.ltb_lt 0 num)), (proj2 (Z.leb_le num _)) by lia. cbn [dcheck]. rewrite !ret_bind.
  unfold mbind at 1, ST_bind at 1, lift. rewrite Hmin. cbn [fmap option_fmap option_map]. rewrite HC. revert s d r H.
  apply safe_bind; [apply safe_ReadBits; lia|]. intros [v|]; [|apply safe_ret]. apply safe_if; [apply safe_ret|].
  apply safe_bind; [apply safe_ReadBits; lia|]. intros [e|]; apply safe_ret.
Qed.

Lemma field_read_safe f : field_ok f -> safe_reader (read_field f).
Proof.
  destruct f as [n v|v|v|v num]; intros H; cbn [read_field]; auto with bits.
  - apply safe_ReadBits. destruct H. lia.
  - apply safe_nonsymmetric. by destruct H.
Qed.

(** The ends of the non-symmetric ranges: with one value the bit count is 0, which the reader and the writer do not expect; with 2^31 values the
    shift that counts the short codes is as wide as its type. *)
Lemma nonsymmetric_undefined v num s : 0 <= v < num -> num <= 2 ^ 31 -> ~ 2 <= num < 2 ^ 31 ->
  ReadNonSymmetric num s = None /\ WriteNonSymmetric v num s = None.
Proof.
  intros Hv Hn Hout. assert (num = 1 \/ num = 2 ^ 31) as [-> | ->] by lia.
  - assert (v = 0) as -> by lia. split; [done|]. change (WriteNonSymmetric 0 1 s) with (WriteBits 0 0 s). unfold WriteBits, mbind, ST_bind, get.
    rewrite (proj2 (Z.ltb_ge _ 0)); [done|]. apply wrap_range. lia.
  - unfold ReadNonSymmetric, WriteNonSymmetric. rewrite (proj2 (Z.ltb_lt v _)) by lia. by split.
Qed.

(** C19: bits and variable length codes round-trip at every bit position.  Fields (numbers of 1 to 32
    bits, unsigned and signed exponential Golomb codes, non-symmetric numbers of 2 to 2^31 - 1 values) written one after the
    other at any position of a buffer with room for them are all accepted; they replace exactly the
    bits of their codes, all bits before and behind stay; read from the same position they give the
    same values and end where the writer ended.  A field without room is refused and changes nothing.
    On arbitrary bits every reader returns, reads only inside the buffer, fails no check and moves
    forward over what it read.  These are all the values: the largest number and the smallest signed one have no Golomb code and are refused, and
    a range of 1 or of 2^31 values, which the checks on [num_values] admit, makes the reader and the writer fail a check or shift by the
    width of the type. *)
Theorem bit_buffer_codec fields s d old r :
  Forall field_ok fields -> position s d (old ++ r) -> len old = len (fields_code fields) ->
  (exists s1 s2 s3, write_fields fields s = Some (true, s1) /\ position s1 (d ++ fields_code fields) r /\
     Seek (byte_offset_ s) (bit_offset_ s) s1 = Some (true, s2) /\
     read_fields fields s2 = Some (Some (field_value <$> fields), s3) /\ position s3 (d ++ fields_code fields) r) /\
  (forall f, f ∈ fields -> len (old ++ r) < len (field_code f) -> write_field f s = Some (false, s)) /\
  (forall f, f ∈ fields -> exists v s' x r', read_field f s = Some (v, s') /\ old ++ r = x ++ r' /\ position s' (d ++ x) r') /\
  (write_field (FGolomb (2 ^ 32 - 1)) s = Some (false, s) /\ write_field (FSigned (- 2 ^ 31)) s = Some (false, s) /\
   forall v num, 0 <= v < num -> num <= 2 ^ 31 -> ~ 2 <= num < 2 ^ 31 ->
     read_field (FNonSymmetric v num) s = None /\ write_field (FNonSymmetric v num) s = None).
Proof.
  intros Hf H Ho. split; [|split; [|split; [|split; [done|split; [done|intros v num; apply nonsymmetric_undefined]]]]].
  - assert (Ho' : length old = length (fields_code fields)) by (unfold len in Ho; lia).
    destruct (fields_write fields Hf s d old r H Ho') as (s1 & E1 & H1 & L1).
    set (s2 := Bits (bytes_ s1) (byte_count_ s1) (byte_offset_ s) (bit_offset_ s)).
    assert (H2 : position s2 d (fields_code fields ++ r)).
    { destruct H as [_ Hp Hb Hoff _ _ _], H1 as [E _ _ _ Hc Hok Hm]. split; subst s2; cbn [bytes_ byte_count_ byte_offset_ bit_offset_]; try done. by rewrite E, <- app_assoc. }
    destruct (fields_read fields Hf s2 d r H2) as (s3 & E3 & _ & H3). exists s1, s2, s3.
    split; [done|]. split; [done|]. split; [|done].
    exact (position_seek s2 _ _ s1 _ _ H2 H1 eq_refl).
  - intros f Hin Hl. rewrite Forall_forall in Hf. eapply as_short; [by apply field_as, Hf|done|done].
  - intros f Hin. rewrite Forall_forall in Hf. destruct (field_read_safe f (Hf f Hin) s d _ H) as (v & s' & x & r' & E & _ & Er & H').
    by exists v, s', x, r'.
Qed.

(** Four fields from the third bit of a buffer of six bytes on. *)
Definition sample_fields : list field := [FBits 5 19; FGolomb 6; FSigned 3; FNonSymmetric 4 5].

Lemma bit_buffer_codec_witness :
  exists s1 s2 s3, write_fields sample_fields (Bits [255; 255; 255; 255; 255; 255] 6 0 3) = Some (true, s1) /\
    bytes_ s1 = [0xF3; 0x39; 0xBF; 0xFF; 0xFF; 0xFF] /\ Seek 0 3 s1 = Some (true, s2) /\
    read_fields sample_fields s2 = Some (Some [19; 6; 3; 4], s3).
Proof.
  destruct (bit_buffer_codec sample_fields (Bits [255; 255; 255; 255; 255; 255] 6 0 3) (replicate 3 true)
              (replicate 18 true) (replicate 27 true)) as ((s1 & s2 & s3 & E1 & _ & E2 & E3 & _) & _).
  - repeat constructor; by_compute.
  - split; by_compute.
  - reflexivity.
  - exists s1, s2, s3. split; [exact E1|]. split; [|split; [exact E2|exact E3]].
    vm_compute in E1. injection E1 as <-. reflexivity.
Defined.

(** A range of a single value fails the check of [PeekBits], one of 2^31 values shifts by the width. *)
Example nonsymmetric_one_value : ReadNonSymmetric 1 (Bits [255] 1 0 0) = None /\ WriteNonSymmetric 0 1 (Bits [255] 1 0 0) = None.
Proof. by_compute. Qed.

Example nonsymmetric_all_values : ReadNonSymmetric (2 ^ 31) (Bits [0; 0; 0; 0; 0] 5 0 0) = None.
Proof. by_compute. Qed.
