(* ===== verification/H264Common.v ===== *)
(** * H.264 byte streams

    Model of video/h264_common.h/.cc: NAL units in a byte stream and the escaping of their payload.
    The search for start codes skips bytes; it is proved equivalent to a search at every position. *)

From S2P Require Import Prelude.

Module H264.

Definition kNaluLongStartSequenceSize : Z := 4.
Definition kNaluShortStartSequenceSize : Z := 3.
Definition kNaluTypeSize : Z := 1.

(** [NaluType] *)
Definition kSlice : Z := 1.
Definition kIdr : Z := 5.
Definition kSei : Z := 6.
Definition kSps : Z := 7.
Definition kPps : Z := 8.
Definition kAud : Z := 9.
Definition kEndOfSequence : Z := 10.
Definition kEndOfStream : Z := 11.
Definition kFiller : Z := 12.
Definition kPrefix : Z := 14.
Definition kStapA : Z := 24.
Definition kFuA : Z := 28.

Definition kNaluTypeMask : Z := 0x1F.

Record NaluIndex := Index { start_offset : Z; payload_start_offset : Z; payload_size : Z }.

(** Sets the payload size of the last entry, if any, so that it ends at [end_offset]. *)
Fixpoint update_last (sequences : list NaluIndex) (end_offset : Z) : list NaluIndex :=
  match sequences with
  | [] => []
  | [it] => [Index (start_offset it) (payload_start_offset it) (end_offset - payload_start_offset it)]
  | it :: rest => it :: update_last rest end_offset
  end.

Fixpoint find_loop (fuel : nat) (buffer : list Z) (end_ i : Z) (sequences : list NaluIndex) : option (list NaluIndex) :=
  if negb (i <? end_) then Some sequences else
  match fuel with
  | O => None
  | S fuel' =>
      b2 ← byte_at buffer (i + 2); b1 ← byte_at buffer (i + 1); b0 ← byte_at buffer i;
      if 1 <? b2 then find_loop fuel' buffer end_ (i + 3) sequences
      else if (b2 =? 1) && (b1 =? 0) && (b0 =? 0) then
        start ← (if 0 <? i then before ← byte_at buffer (i - 1); Some (if before =? 0 then i - 1 else i) else Some i);
        find_loop fuel' buffer end_ (i + 3) (update_last sequences start ++ [Index start (i + 3) 0])
      else find_loop fuel' buffer end_ (i + 1) sequences
  end.

Definition FindNaluIndices (buffer : list Z) (buffer_size : Z) : option (list NaluIndex) :=
  if buffer_size <? kNaluShortStartSequenceSize then Some [] else
  let end_ := buffer_size - kNaluShortStartSequenceSize in
  sequences ← find_loop (Z.to_nat end_) buffer end_ 0 [];
  Some (update_last sequences buffer_size).

Definition ParseNaluType (data : Z) : Z := Z.land data kNaluTypeMask.

(** The loop of [ParseRbsp] on the bytes that are left. *)
Fixpoint parse_rbsp (data : list Z) : list Z :=
  match data with
  | b0 :: ((b1 :: (b2 :: rest)) as next) =>
      if (b0 =? 0) && (b1 =? 0) && (b2 =? 3) then b0 :: b1 :: parse_rbsp rest else b0 :: parse_rbsp next
  | b0 :: next => b0 :: parse_rbsp next
  | [] => []
  end.

Definition ParseRbsp (data : list Z) (length : Z) : option (list Z) :=
  check (length <=? len data) ;; Some (parse_rbsp (take (Z.to_nat length) data)).

Definition kZerosInStartSequence : Z := 2.
Definition kEmulationByte : Z := 3.

(** The loop of [WriteRbsp]; what it appends to the destination. *)
Fixpoint write_rbsp (num_consecutive_zeros : Z) (bytes : list Z) : list Z :=
  match bytes with
  | [] => []
  | byte :: rest =>
      if (byte <=? kEmulationByte) && (kZerosInStartSequence <=? num_consecutive_zeros) then
        kEmulationByte :: byte :: write_rbsp (if byte =? 0 then 1 else 0) rest
      else byte :: write_rbsp (if byte =? 0 then num_consecutive_zeros + 1 else 0) rest
  end.

Definition WriteRbsp (bytes : list Z) (length : Z) (destination : list Z) : option (list Z) :=
  check (length <=? len bytes) ;; Some (destination ++ write_rbsp 0 (take (Z.to_nat length) bytes)).

End H264.

Import H264.

(** ** Escaping *)

(** No two zeros are followed by a byte below 3, wherever they are. *)
Fixpoint escaped (l : list Z) : Prop :=
  match l with
  | b0 :: ((b1 :: (b2 :: rest)) as next) => ~ (b0 = 0 /\ b1 = 0 /\ b2 < 3) /\ escaped next
  | _ => True
  end.

Lemma parse_rbsp_eq b0 b1 b2 rest : parse_rbsp (b0 :: b1 :: b2 :: rest) =
  if (b0 =? 0) && (b1 =? 0) && (b2 =? 3) then b0 :: b1 :: parse_rbsp rest else b0 :: parse_rbsp (b1 :: b2 :: rest).
Proof. done. Qed.

Lemma parse_rbsp_step b0 b1 b2 rest : ~ (b0 = 0 /\ b1 = 0 /\ b2 = 3) ->
  parse_rbsp (b0 :: b1 :: b2 :: rest) = b0 :: parse_rbsp (b1 :: b2 :: rest).
Proof. intros H. cbn [parse_rbsp]. destruct (Z.eqb_spec b0 0), (Z.eqb_spec b1 0), (Z.eqb_spec b2 3); cbn; try done. lia. Qed.

Lemma parse_rbsp_nonzero b rest : b <> 0 -> parse_rbsp (b :: rest) = b :: parse_rbsp rest.
Proof. intros H. destruct rest as [|b1 [|b2 rest]]; [done|done|]. apply parse_rbsp_step. lia. Qed.

Lemma parse_rbsp_pass b0 b1 rest : b1 <> 0 -> parse_rbsp (b0 :: b1 :: rest) = b0 :: b1 :: parse_rbsp rest.
Proof.
  intros H. rewrite <- (parse_rbsp_nonzero b1) by done. destruct rest as [|b2 rest]; [done|]. apply parse_rbsp_step. lia.
Qed.

Lemma parse_rbsp_escape rest : parse_rbsp (0 :: 0 :: 3 :: rest) = 0 :: 0 :: parse_rbsp rest.
Proof. done. Qed.

(** After no, one or two zeros. *)
Lemma rbsp_round_trip l : bytes_ok l ->
  parse_rbsp (write_rbsp 0 l) = l /\ parse_rbsp (0 :: write_rbsp 1 l) = 0 :: l /\
  parse_rbsp (0 :: 0 :: write_rbsp 2 l) = 0 :: 0 :: l.
Proof.
  induction 1 as [|b l Hb Hl (IH0 & IH1 & IH2)]; [done|]. unfold byte_ok in Hb. cbn [write_rbsp].
  change (kZerosInStartSequence <=? 0) with false. change (kZerosInStartSequence <=? 1) with false. change (kZerosInStartSequence <=? 2) with true.
  rewrite !andb_false_r, andb_true_r. change (1 + 1) with 2. change (0 + 1) with 1. unfold kEmulationByte.
  destruct (Z.eqb_spec b 0) as [->|Hne].
  - split; [done|]. split; [done|]. change (0 <=? 3) with true. cbv iota. by rewrite parse_rbsp_escape, IH1.
  - split; [by rewrite parse_rbsp_nonzero, IH0|].
    split; [by rewrite parse_rbsp_pass, IH0|]. destruct (Z.leb_spec b 3) as [H3|H3].
    + by rewrite parse_rbsp_escape, parse_rbsp_nonzero, IH0.
    + rewrite parse_rbsp_step by lia. by rewrite parse_rbsp_pass, IH0.
Qed.

Lemma parse_rbsp_ok l : bytes_ok l -> bytes_ok (parse_rbsp l) /\ len (parse_rbsp l) <= len l.
Proof.
  remember (length l) as n eqn:E. revert l E. induction (lt_wf n) as [n _ IH]. intros l -> Hl.
  destruct l as [|b0 [|b1 [|b2 rest]]]; [done|done|done|].
  apply Forall_cons in Hl as [H0 Hl]. pose proof Hl as Hl'. apply Forall_cons in Hl as [H1 Hl]. apply Forall_cons in Hl as [H2 Hl].
  rewrite parse_rbsp_eq. destruct (_ && _).
  - destruct (IH (length rest)) with (l := rest) as [Hb Hle]; [cbn; lia|done|done|].
    split; [constructor; [done|]; by constructor|]. rewrite !len_cons. lia.
  - destruct (IH (length (b1 :: b2 :: rest))) with (l := b1 :: b2 :: rest) as [Hb Hle]; [cbn; lia|done|done|].
    split; [by constructor|]. rewrite len_cons. rewrite (len_cons b0). lia.
Qed.

Lemma escaped_nonzero b l : b <> 0 -> escaped l -> escaped (b :: l).
Proof. intros Hb H. destruct l as [|b1 [|b2 l]]; [done|done|]. split; [lia|done]. Qed.

Lemma escaped_pass b0 b1 l : b1 <> 0 -> escaped l -> escaped (b0 :: b1 :: l).
Proof. intros Hb H. pose proof (escaped_nonzero b1 l Hb H). destruct l as [|b2 l]; [done|]. split; [lia|done]. Qed.

Lemma rbsp_escaped l : escaped (write_rbsp 0 l) /\ escaped (0 :: write_rbsp 1 l) /\ escaped (0 :: 0 :: write_rbsp 2 l).
Proof.
  induction l as [|b l (IH0 & IH1 & IH2)]; [done|]. cbn [write_rbsp].
  change (kZerosInStartSequence <=? 0) with false. change (kZerosInStartSequence <=? 1) with false. change (kZerosInStartSequence <=? 2) with true.
  rewrite !andb_false_r, andb_true_r. change (1 + 1) with 2. change (0 + 1) with 1. unfold kEmulationByte.
  destruct (Z.eqb_spec b 0) as [->|Hne].
  - split; [done|]. split; [done|]. change (0 <=? 3) with true. cbv iota. split; [lia|]. by apply escaped_pass.
  - split; [by apply escaped_nonzero|]. split; [by apply escaped_pass|]. destruct (Z.leb_spec b 3).
    + split; [lia|]. apply escaped_pass; [done|]. by apply escaped_nonzero.
    + split; [lia|]. by apply escaped_pass.
Qed.

Lemma write_rbsp_ok l : bytes_ok l -> forall z, bytes_ok (write_rbsp z l).
Proof.
  induction 1 as [|b l Hb Hl IH]; intros z; [constructor|]. cbn [write_rbsp]. destruct (_ && _); [constructor; [by_compute|]|]; (constructor; [done|apply IH]).
Qed.

Lemma last_write_rbsp l : forall z, last (write_rbsp z l) = last l.
Proof.
  induction l as [|b l IH]; intros z; [done|]. cbn [write_rbsp].
  assert (Hc : forall x (m m' : list Z), last m = last m' -> last (x :: m) = last (x :: m')).
  { intros x m m' E. destruct m as [|y m], m' as [|y' m']; try done.
    - destruct (last_is_Some (y' :: m')) as [_ [w Hw]]; [done|]. by rewrite Hw in E.
    - destruct (last_is_Some (y :: m)) as [_ [w Hw]]; [done|]. by rewrite Hw in E. }
  destruct (_ && _); [change (last (kEmulationByte :: b :: ?m)) with (last (b :: m))|]; apply Hc, IH.
Qed.

(** ** Start codes *)

(** A start code that is followed by a byte. *)
Definition starts_here (l : list Z) : bool :=
  match l with b0 :: b1 :: b2 :: _ :: _ => (b0 =? 0) && (b1 =? 0) && (b2 =? 1) | _ => false end.

(** All positions of start codes, the first byte of [l] at [off]. *)
Fixpoint starts (off : Z) (l : list Z) : list Z :=
  match l with
  | [] => []
  | _ :: rest => (if starts_here l then [off] else []) ++ starts (off + 1) rest
  end.

(** Where the start code with three bytes at [j] begins: a zero before it belongs to it. *)
Definition start_of (buffer : list Z) (j : Z) : Z :=
  if (0 <? j) && bool_decide (byte_at buffer (j - 1) = Some 0) then j - 1 else j.

(** The entries for the start codes at [js], for a buffer that ends at [size]. *)
Fixpoint indices (buffer : list Z) (size : Z) (js : list Z) : list NaluIndex :=
  match js with
  | [] => []
  | j :: rest =>
      Index (start_of buffer j) (j + 3) (match rest with [] => size | k :: _ => start_of buffer k end - (j + 3)) :: indices buffer size rest
  end.

Lemma update_last_app a x e : update_last (a ++ [x]) e = a ++ [Index (start_offset x) (payload_start_offset x) (e - payload_start_offset x)].
Proof. induction a as [|y a IH]; [done|]. cbn [app update_last]. rewrite IH. by destruct a. Qed.

Lemma indices_size buffer size size' e js : update_last (indices buffer size js) e = update_last (indices buffer size' js) e.
Proof. induction js as [|j [|k rest] IH]; [done|done|]. cbn [indices update_last] in *. by rewrite IH. Qed.

(** The entries with the last one still open. *)
Definition opened (buffer : list Z) (js : list Z) : list NaluIndex :=
  match last js with
  | None => []
  | Some j => removelast (indices buffer 0 js) ++ [Index (start_of buffer j) (j + 3) 0]
  end.

Lemma indices_app buffer size a j : indices buffer size (a ++ [j]) =
  update_last (indices buffer size a) (start_of buffer j) ++ [Index (start_of buffer j) (j + 3) (size - (j + 3))].
Proof.
  induction a as [|x a IH]; [done|]. cbn [app indices]. rewrite IH. destruct a as [|y a]; [done|].
  cbn [app indices]. done.
Qed.

Lemma opened_app buffer a j : opened buffer (a ++ [j]) = update_last (opened buffer a) (start_of buffer j) ++ [Index (start_of buffer j) (j + 3) 0].
Proof.
  unfold opened. rewrite last_snoc, indices_app, removelast_last. f_equal.
  destruct (last a) as [k|] eqn:E; [|apply last_None in E; by subst a].
  apply last_Some in E as [a' ->]. rewrite indices_app, removelast_last, !update_last_app. done.
Qed.

Lemma opened_closed buffer size js : update_last (opened buffer js) size = indices buffer size js.
Proof.
  destruct (last js) as [j|] eqn:E; [|apply last_None in E; by subst js].
  apply last_Some in E as [a ->]. rewrite opened_app, update_last_app, indices_app. f_equal.
  clear. unfold opened. destruct (last a) as [k|] eqn:E; [|apply last_None in E; by subst a].
  apply last_Some in E as [a' ->]. rewrite !indices_app, removelast_last, !update_last_app. f_equal. apply indices_size.
Qed.

Lemma starts_step off x l : starts_here (x :: l) = false -> starts off (x :: l) = starts (off + 1) l.
Proof. intros H. cbn [starts]. by rewrite H. Qed.

Lemma no_start_nonzero x l : x <> 0 -> starts_here (x :: l) = false.
Proof. intros H. destruct l as [|b1 [|b2 [|b3 l]]]; try done. cbn. by rewrite (proj2 (Z.eqb_neq x 0)). Qed.

Lemma no_start_second x y l : y <> 0 -> starts_here (x :: y :: l) = false.
Proof. intros H. destruct l as [|b2 [|b3 l]]; try done. cbn. by rewrite (proj2 (Z.eqb_neq y 0)), andb_false_r. Qed.

(** Less than four bytes hold no start code that is followed by a byte. *)
Lemma starts_short l : forall off, len l <= 3 -> starts off l = [].
Proof.
  induction l as [|x l IH]; intros off H; [done|]. rewrite len_cons in H. cbn [starts]. rewrite IH by lia.
  destruct l as [|? [|? [|? l]]]; try done. rewrite !len_cons in H. pose proof (len_nonneg l). lia.
Qed.

(** The step of three bytes misses nothing. *)
Lemma starts_skip off b0 b1 b2 l : b2 <> 0 -> starts off (b0 :: b1 :: b2 :: l) =
  (if starts_here (b0 :: b1 :: b2 :: l) then [off] else []) ++ starts (off + 3) l.
Proof.
  intros H. cbn [starts]. rewrite (no_start_second b1 b2 l H), (no_start_nonzero b2 l H). cbn [app]. do 2 f_equal. lia.
Qed.

Lemma byte_at_drop buffer i k : 0 <= i -> 0 <= k -> byte_at buffer (i + k) = byte_at (ptr_add buffer i) k.
Proof. intros. unfold byte_at. by rewrite ptr_add_add. Qed.

Lemma drop_further buffer i k l pre : 0 <= i -> ptr_add buffer i = pre ++ l -> k = len pre -> ptr_add buffer (i + k) = l.
Proof.
  intros Hi E ->. pose proof (len_nonneg pre). rewrite <- ptr_add_add, E by lia. by rewrite ptr_add_app_ge, Z.sub_diag, ptr_add_0 by lia.
Qed.

(** The start of an entry as the loop computes it. *)
Lemma start_of_loop buffer j : bytes_ok buffer -> 0 <= j <= len buffer ->
  (if 0 <? j then before ← byte_at buffer (j - 1); Some (if before =? 0 then j - 1 else j) else Some j) = Some (start_of buffer j).
Proof.
  intros Hb Hj. unfold start_of. destruct (Z.ltb_spec 0 j) as [H0|H0]; [|done]. cbn [andb].
  assert (Hs : is_Some (byte_at buffer (j - 1))).
  { unfold byte_at, ptr_add, deref. rewrite head_lookup, lookup_drop. apply lookup_lt_is_Some. unfold len in Hj. lia. }
  destruct Hs as [b ->]. cbn [mbind option_bind]. destruct (Z.eqb_spec b 0) as [->|Hne]; [done|].
  by rewrite bool_decide_eq_false_2 by congruence.
Qed.

Lemma find_loop_spec fuel : forall buffer i js, bytes_ok buffer -> 0 <= i -> len buffer - 3 - i <= Z.of_nat fuel ->
  find_loop fuel buffer (len buffer - 3) i (opened buffer js) = Some (opened buffer (js ++ starts i (ptr_add buffer i))).
Proof.
  induction fuel as [|fuel IH]; intros buffer i js Hb Hi Hf; cbn [find_loop]; destruct (Z.ltb_spec i (len buffer - 3)) as [Hl|Hl]; cbn [negb]; try lia.
  1,3: rewrite starts_short, app_nil_r; [done|]; destruct (Z.le_gt_cases i (len buffer)); [rewrite len_ptr_add; lia|
    unfold ptr_add; rewrite drop_ge, len_nil by (unfold len in *; lia); lia].
  assert (Hlen : 4 <= len (ptr_add buffer i)) by (rewrite len_ptr_add; lia).
  destruct (ptr_add buffer i) as [|b0 [|b1 [|b2 [|b3 l]]]] eqn:E;
    try (exfalso; revert Hlen; rewrite ?len_cons, ?len_nil; lia).
  pose proof (bytes_ok_ptr_add buffer i Hb) as Hbi. rewrite E in Hbi. apply Forall_cons in Hbi as [_ Hbi]. apply Forall_cons in Hbi as [_ Hbi]. apply Forall_cons in Hbi as [H2 _]. unfold byte_ok in H2.
  assert (Hb0 : byte_at buffer i = Some b0) by (unfold byte_at; by rewrite E).
  assert (Hb1 : byte_at buffer (i + 1) = Some b1) by (rewrite byte_at_drop, E by lia; done).
  assert (Hb2 : byte_at buffer (i + 2) = Some b2) by (rewrite byte_at_drop, E by lia; done).
  rewrite Hb0, Hb1, Hb2. cbn [mbind option_bind].
  pose proof (drop_further buffer i 3 (b3 :: l) [b0; b1; b2] Hi E eq_refl) as E3. pose proof (drop_further buffer i 1 (b1 :: b2 :: b3 :: l) [b0] Hi E eq_refl) as E1.
  destruct (Z.ltb_spec 1 b2) as [H1|H1].
  - rewrite starts_skip by lia. cbn [starts_here]. rewrite (proj2 (Z.eqb_neq b2 1)), !andb_false_r by lia. cbn [app].
    rewrite <- E3. apply IH; [done|lia|lia].
  - destruct ((b2 =? 1) && (b1 =? 0) && (b0 =? 0)) eqn:Es.
    + bool_prop. subst. rewrite (start_of_loop buffer i) by (try done; lia). cbn [mbind option_bind].
      rewrite <- opened_app. rewrite IH by (try done; lia). rewrite <- app_assoc, E3. by rewrite starts_skip.
    + rewrite IH by (try done; lia). rewrite E1. do 3 f_equal. symmetry. apply starts_step. cbn.
      destruct (b0 =? 0), (b1 =? 0), (b2 =? 1); done.
Qed.

(** [FindNaluIndices] finds what a search at every position finds. *)
Lemma FindNaluIndices_starts buffer : bytes_ok buffer ->
  FindNaluIndices buffer (len buffer) = Some (indices buffer (len buffer) (starts 0 buffer)).
Proof.
  intros Hb. unfold FindNaluIndices, kNaluShortStartSequenceSize. destruct (Z.ltb_spec (len buffer) 3) as [H|H].
  - by rewrite starts_short by lia.
  - change [] with (opened buffer []) at 1. rewrite find_loop_spec by (try done; lia). cbn [mbind option_bind].
    rewrite opened_closed. done.
Qed.

(** ** Byte streams of units *)

Definition start_code (long : bool) : list Z := if long then [0; 0; 0; 1] else [0; 0; 1].

Definition byte_stream (units : list (bool * list Z)) : list Z := mjoin ((fun u => start_code u.1 ++ u.2) <$> units).

Lemma byte_stream_cons long body units : byte_stream ((long, body) :: units) = (start_code long ++ body) ++ byte_stream units.
Proof. done. Qed.

(** A unit in a byte stream: not empty, escaped, and its last byte is not zero. *)
Definition unit_ok (u : bool * list Z) : Prop := bytes_ok u.2 /\ escaped u.2 /\ exists b, last u.2 = Some b /\ b <> 0.

Lemma starts_body body rest : forall off, escaped body -> (exists b, last body = Some b /\ b <> 0) ->
  starts off (body ++ rest) = starts (off + len body) rest.
Proof.
  induction body as [|x t IH]; intros off He (b & Hb & Hnz); [done|].
  assert (Hs : starts_here ((x :: t) ++ rest) = false).
  { destruct t as [|y [|z t]].
    - injection Hb as ->. by apply no_start_nonzero.
    - injection Hb as ->. by apply no_start_second.
    - destruct He as [He _]. destruct (t ++ rest) eqn:E; cbn [app] in *; rewrite E; cbn; [done|].
      destruct (Z.eqb_spec x 0), (Z.eqb_spec y 0), (Z.eqb_spec z 1); cbn; try done. lia. }
  cbn [app] in *. rewrite starts_step by done. destruct t as [|y t].
  - done.
  - rewrite IH; [rewrite !len_cons; f_equal; lia| |exists b; done].
    destruct t as [|z t]; [done|]. apply He.
Qed.

(** The position of the three bytes of a start code that begins at [off]. *)
Definition code_at (off : Z) (long : bool) : Z := off + (if long then 1 else 0).

Lemma starts_unit off long body rest : escaped body -> (exists b, last body = Some b /\ b <> 0) ->
  starts off (start_code long ++ body ++ rest) = code_at off long :: starts (off + len (start_code long) + len body) rest.
Proof.
  intros He Hb. assert (Hne : exists c t, body ++ rest = c :: t).
  { destruct Hb as (b & Hb & _). destruct body as [|c t]; [done|]. by exists c, (t ++ rest). }
  assert (H3 : forall o, starts o ([0; 0; 1] ++ body ++ rest) = o :: starts (o + 3) (body ++ rest)).
  { intros o. destruct Hne as (c & t & E). rewrite E. cbn [app]. rewrite starts_skip by done. done. }
  unfold code_at. destruct long; cbn [start_code].
  - change ([0; 0; 0; 1] ++ body ++ rest) with (0 :: ([0; 0; 1] ++ body ++ rest)). rewrite starts_step by done.
    rewrite H3, starts_body by done. do 2 f_equal. rewrite !len_cons, len_nil. lia.
  - rewrite H3, starts_body, Z.add_0_r by done. do 2 f_equal.
Qed.

Fixpoint unit_codes (off : Z) (units : list (bool * list Z)) : list Z :=
  match units with
  | [] => []
  | (long, body) :: rest => code_at off long :: unit_codes (off + len (start_code long) + len body) rest
  end.

Lemma starts_stream units : Forall unit_ok units -> forall off, starts off (byte_stream units) = unit_codes off units.
Proof.
  induction 1 as [|[long body] units (Hb & He & Hl) Hu IH]; intros off; [done|].
  rewrite byte_stream_cons, <- app_assoc, starts_unit by done. cbn [unit_codes]. by rewrite IH.
Qed.

(** The bytes of an entry. *)
Definition nalu_bytes (buffer : list Z) (it : NaluIndex) : list Z :=
  take (Z.to_nat (payload_size it)) (ptr_add buffer (payload_start_offset it)).

Lemma start_of_code pre long body rest : (pre = [] \/ exists b, last pre = Some b /\ b <> 0) ->
  start_of (pre ++ start_code long ++ body ++ rest) (code_at (len pre) long) = len pre.
Proof.
  intros Hp. unfold start_of, code_at. pose proof (len_nonneg pre). destruct long.
  - rewrite (proj2 (Z.ltb_lt 0 _)) by lia. rewrite Z.add_simpl_r. unfold byte_at. rewrite ptr_add_app_ge, Z.sub_diag by lia. done.
  - rewrite Z.add_0_r. destruct Hp as [->|(b & Hb & Hnz)]; [done|]. apply last_Some in Hb as [pre' ->].
    assert (El : len (pre' ++ [b]) = len pre' + 1) by (rewrite len_app; done). rewrite El.
    rewrite (proj2 (Z.ltb_lt 0 _)) by (pose proof (len_nonneg pre'); lia).
    rewrite bool_decide_eq_false_2; [done|]. unfold byte_at. rewrite <- !app_assoc.
    rewrite Z.add_simpl_r, ptr_add_app_ge, Z.sub_diag, ptr_add_0 by lia. intros [= ->]. done.
Qed.

Lemma stream_units units : Forall unit_ok units -> forall pre, (pre = [] \/ exists b, last pre = Some b /\ b <> 0) ->
  let buffer := pre ++ byte_stream units in
  nalu_bytes buffer <$> indices buffer (len buffer) (unit_codes (len pre) units) = units.*2.
Proof.
  induction 1 as [|[long body] units (Hb & He & Hl) Hu IH]; intros pre Hp buffer; [done|]. cbn [snd] in *.
  assert (Ebuf : buffer = (pre ++ start_code long ++ body) ++ byte_stream units) by (subst buffer; rewrite byte_stream_cons; by rewrite <- !app_assoc).
  set (pre' := pre ++ start_code long ++ body) in *.
  assert (Hl' : len pre' = len pre + len (start_code long) + len body) by (subst pre'; rewrite !len_app; lia).
  assert (Hlast : exists b, last pre' = Some b /\ b <> 0).
  { destruct Hl as (b & Hb' & Hnz). exists b. split; [|done]. subst pre'. by rewrite !last_app, Hb'. }
  specialize (IH pre' (or_intror Hlast)). cbv zeta in IH. rewrite <- Ebuf in IH.
  cbn [unit_codes indices fmap list_fmap]. rewrite <- Hl'. rewrite IH. f_equal.
  assert (Hend : match unit_codes (len pre') units with [] => len buffer | k :: _ => start_of buffer k end = len pre').
  { destruct units as [|[long2 body2] units]; [by rewrite Ebuf, app_nil_r|]. cbn [unit_codes]. rewrite Ebuf.
    rewrite byte_stream_cons, <- (app_assoc (start_code long2)).
    apply start_of_code. by right. }
  rewrite Hend. unfold nalu_bytes. cbn [payload_size payload_start_offset].
  assert (Hc : code_at (len pre) long + 3 = len (pre ++ start_code long)) by (unfold code_at; rewrite len_app; destruct long; [change (len (start_code true)) with 4|change (len (start_code false)) with 3]; lia).
  assert (Eb2 : pre' ++ byte_stream units = (pre ++ start_code long) ++ body ++ byte_stream units) by (subst pre'; by rewrite <- !app_assoc).
  rewrite Hc, Ebuf, Eb2, ptr_add_app_ge, Z.sub_diag, ptr_add_0 by lia. subst pre'.
  replace (len (pre ++ start_code long ++ body) - len (pre ++ start_code long)) with (len body) by (rewrite !len_app; lia).
  unfold len. rewrite Nat2Z.id. apply take_app_length.
Qed.

(** C18: H.264 byte streams.  [ParseRbsp] undoes [WriteRbsp] on every payload, and what [WriteRbsp] writes
    holds no start code.  [FindNaluIndices], which steps over bytes that cannot belong to one, finds on
    every buffer exactly the entries a search at every position gives, without reading outside.  So units
    that were escaped by [WriteRbsp] and put behind start codes of three or four bytes are found again, all of them,
    in order and byte for byte. *)
Theorem byte_stream_roundtrip payloads longs destination buffer :
  Forall bytes_ok payloads -> Forall (fun p => exists b, last p = Some b /\ b <> 0) payloads ->
  length longs = length payloads -> bytes_ok buffer ->
  (forall p, p ∈ payloads -> exists w, WriteRbsp p (len p) destination = Some (destination ++ w) /\
     ParseRbsp w (len w) = Some p /\ escaped w) /\
  FindNaluIndices buffer (len buffer) = Some (indices buffer (len buffer) (starts 0 buffer)) /\
  (let stream := byte_stream (zip longs (write_rbsp 0 <$> payloads)) in
   exists l, FindNaluIndices stream (len stream) = Some l /\
     (parse_rbsp ∘ nalu_bytes stream) <$> l = payloads).
Proof.
  intros Hb Hl Hlen Hbuf. split; [|split].
  - intros p Hp. rewrite Forall_forall in Hb. specialize (Hb p Hp). exists (write_rbsp 0 p). unfold WriteRbsp, ParseRbsp.
    rewrite !(proj2 (Z.leb_le _ _)) by lia. unfold len. rewrite !Nat2Z.id, !firstn_all.
    split; [done|]. destruct (rbsp_round_trip p Hb) as [-> _]. split; [done|]. apply rbsp_escaped.
  - by apply FindNaluIndices_starts.
  - intros stream. set (units := zip longs (write_rbsp 0 <$> payloads)) in *.
    assert (Hsnd : units.*2 = write_rbsp 0 <$> payloads) by (apply snd_zip; rewrite length_fmap; lia).
    assert (Hu : Forall unit_ok units).
    { apply Forall_forall. intros u Hu. assert (Hin : u.2 ∈ write_rbsp 0 <$> payloads) by (rewrite <- Hsnd; by apply list_elem_of_fmap_2).
      apply list_elem_of_fmap in Hin as (p & Ep & Hp). rewrite Forall_forall in Hb. rewrite Forall_forall in Hl. unfold unit_ok. rewrite Ep. split; [apply write_rbsp_ok, Hb, Hp|].
      split; [apply rbsp_escaped|]. rewrite last_write_rbsp. by apply Hl. }
    pose proof (stream_units units Hu [] (or_introl eq_refl)) as Hst. cbn [app] in Hst. change (len []) with 0 in Hst.
    assert (Hok : bytes_ok stream).
    { subst stream. clear -Hu. induction Hu as [|[long body] us (Hb & _) Hus IH]; [constructor|].
      rewrite byte_stream_cons, !bytes_ok_app. split; [|done]. split; [|done].
      by destruct long; by_compute. }
    eexists. split; [by apply FindNaluIndices_starts|]. subst stream. rewrite starts_stream by done. rewrite list_fmap_compose, Hst, Hsnd, <- list_fmap_compose.
    rewrite <- (list_fmap_id payloads) at 2. apply list_fmap_ext. intros i p Hp. apply list_elem_of_lookup_2 in Hp. rewrite Forall_forall in Hb.
    apply (rbsp_round_trip p), Hb, Hp.
Qed.

(** Two units, the second of which needs an escape. *)
Lemma byte_stream_roundtrip_witness :
  let stream := [0; 0; 0; 1; 0x67; 1; 0; 0; 1; 0x68; 0; 0; 3; 1; 9] in
  exists l, FindNaluIndices stream (len stream) = Some l /\ l = [Index 0 4 2; Index 6 9 6] /\
    (parse_rbsp ∘ nalu_bytes stream) <$> l = [[0x67; 1]; [0x68; 0; 0; 1; 9]].
Proof.
  destruct (byte_stream_roundtrip [[0x67; 1]; [0x68; 0; 0; 1; 9]] [true; false] [] []) as (_ & _ & l & El & Hl).
  - by_compute.
  - repeat constructor; eexists; split; [reflexivity|discriminate|reflexivity|discriminate].
  - reflexivity.
  - constructor.
  - exists l. split; [exact El|]. split; [|exact Hl]. vm_compute in El. injection El as <-. reflexivity.
Defined.
