(* ===== verification/H264Params.v ===== *)
(** * Parameter sets

    Model of video/pps_parser.h/.cc and video/sps_parser.h/.cc on the bits of an unescaped payload.  A
    parser that returns [None] returned an empty optional; [x ⇐ m; k] is RETURN_EMPTY_ON_FAIL. *)

From S2P Require Import Prelude BitBuffer H264Common.

Import BitBuffer H264.

Definition read_or_fail {A B} (m : ST t (option A)) (k : A -> ST t (option B)) : ST t (option B) :=
  v ← m; match v with None => mret None | Some v => k v end.

Definition do_or_fail {B} (m : ST t bool) (k : ST t (option B)) : ST t (option B) :=
  ok ← m; if ok : bool then k else mret None.

Declare Scope bits_scope.
Delimit Scope bits_scope with bits.
Notation "x ⇐ m ; k" := (read_or_fail m (fun x => k)) (at level 20, m at level 100, k at level 200, right associativity) : bits_scope.
Notation "'ensure' m ; k" := (do_or_fail m k) (at level 20, m at level 100, k at level 200, right associativity) : bits_scope.
Open Scope bits_scope.

(** [count] times a reader whose result is ignored; it reads a bit or fails. *)
Fixpoint repeat_loop (fuel : nat) (count : Z) (m : ST t (option Z)) : ST t (option unit) :=
  if count <=? 0 then mret (Some tt) else
  match fuel with
  | O => abort
  | S fuel' => _ ⇐ m; repeat_loop fuel' (count - 1) m
  end.

Definition repeat_read (count : Z) (m : ST t (option Z)) : ST t (option unit) :=
  this ← get; repeat_loop (S (Z.to_nat (RemainingBitCount this))) count m.

Module PpsParser.

Definition kMaxPicInitQpDeltaValue : Z := 25.
Definition kMinPicInitQpDeltaValue : Z := -26.

Record PpsState := Pps {
  bottom_field_pic_order_in_frame_present_flag : bool;
  weighted_pred_flag : bool;
  entropy_coding_mode_flag : bool;
  weighted_bipred_idc : Z;
  redundant_pic_cnt_present_flag : Z;
  pic_init_qp_minus26 : Z;
  id : Z;
  sps_id : Z
}.

Definition ParsePpsIdsInternal : ST t (option (Z * Z)) :=
  pps_id ⇐ ReadExponentialGolomb;
  sps_id ⇐ ReadExponentialGolomb;
  mret (Some (pps_id, sps_id)).

(** The loop that counts the bits of a slice group id; a [uint32_t] has at most 32. *)
Fixpoint slice_group_bits (fuel : nat) (num_slice_groups slice_group_id_bits : Z) : Z :=
  match fuel with
  | O => slice_group_id_bits
  | S fuel' =>
      if 0 <? num_slice_groups then slice_group_bits fuel' (Z.shiftr num_slice_groups 1) (slice_group_id_bits + 1)
      else slice_group_id_bits
  end.

Definition slice_group_id_bits (num_slice_groups_minus1 : Z) : Z :=
  let num_slice_groups := u32 (num_slice_groups_minus1 + 1) in
  let extra := if Z.land num_slice_groups (u32 (num_slice_groups - 1)) =? 0 then 0 else 1 in
  slice_group_bits 32 num_slice_groups extra.

(** The slice groups, which are skipped. *)
Definition skip_slice_groups (num_slice_groups_minus1 : Z) : ST t (option unit) :=
  slice_group_map_type ⇐ ReadExponentialGolomb;
  if slice_group_map_type =? 0 then repeat_read (num_slice_groups_minus1 + 1) ReadExponentialGolomb
  else if slice_group_map_type =? 1 then mret (Some tt)
  else if slice_group_map_type =? 2 then
    repeat_read (num_slice_groups_minus1 + 1) (_ ⇐ ReadExponentialGolomb; ReadExponentialGolomb)
  else if (slice_group_map_type =? 3) || (slice_group_map_type =? 4) || (slice_group_map_type =? 5) then
    _ ⇐ ReadBits 1; _ ⇐ ReadExponentialGolomb; mret (Some tt)
  else if slice_group_map_type =? 6 then
    pic_size_in_map_units_minus1 ⇐ ReadExponentialGolomb;
    repeat_read (pic_size_in_map_units_minus1 + 1) (ReadBits (slice_group_id_bits num_slice_groups_minus1))
  else mret (Some tt).

Definition ParseInternal : ST t (option PpsState) :=
  ids ⇐ ParsePpsIdsInternal;
  entropy_coding_mode_flag ⇐ ReadBits 1;
  bottom_field_pic_order_in_frame_present_flag ⇐ ReadBits 1;
  num_slice_groups_minus1 ⇐ ReadExponentialGolomb;
  _ ⇐ (if 0 <? num_slice_groups_minus1 then skip_slice_groups num_slice_groups_minus1 else mret (Some tt));
  _ ⇐ ReadExponentialGolomb;
  _ ⇐ ReadExponentialGolomb;
  weighted_pred_flag ⇐ ReadBits 1;
  weighted_bipred_idc ⇐ ReadBits 2;
  pic_init_qp_minus26 ⇐ ReadSignedExponentialGolomb;
  if (kMaxPicInitQpDeltaValue <? pic_init_qp_minus26) || (pic_init_qp_minus26 <? kMinPicInitQpDeltaValue)
  then mret None else
  _ ⇐ ReadExponentialGolomb;
  _ ⇐ ReadExponentialGolomb;
  _ ⇐ ReadBits 2;
  redundant_pic_cnt_present_flag ⇐ ReadBits 1;
  mret (Some (Pps (negb (bottom_field_pic_order_in_frame_present_flag =? 0)) (negb (weighted_pred_flag =? 0))
    (negb (entropy_coding_mode_flag =? 0)) weighted_bipred_idc redundant_pic_cnt_present_flag pic_init_qp_minus26
    (fst ids) (snd ids))).

(** A parser of bits on the unescaped payload. *)
Definition on_rbsp {A} (m : ST t A) (data : list Z) (length : Z) : option A :=
  unpacked_buffer ← ParseRbsp data length;
  bit_buffer ← construct unpacked_buffer (len unpacked_buffer);
  fst <$> m bit_buffer.

Definition ParsePps : list Z -> Z -> option (option PpsState) := on_rbsp ParseInternal.

Definition ParsePpsIds : list Z -> Z -> option (option (Z * Z)) := on_rbsp ParsePpsIdsInternal.

Definition ParsePpsIdFromSlice : list Z -> Z -> option (option Z) :=
  on_rbsp (_ ⇐ ReadExponentialGolomb; _ ⇐ ReadExponentialGolomb; ReadExponentialGolomb).

End PpsParser.

Module SpsParser.

Definition kScalingDeltaMin : Z := -128.
Definition kScaldingDeltaMax : Z := 127.
Definition kMaxLog2Minus4 : Z := 32 - 4.

Record SpsState := Sps {
  width : Z;
  height : Z;
  delta_pic_order_always_zero_flag : Z;
  separate_colour_plane_flag : Z;
  frame_mbs_only_flag : Z;
  log2_max_frame_num : Z;
  log2_max_pic_order_cnt_lsb : Z;
  pic_order_cnt_type : Z;
  max_num_ref_frames : Z;
  vui_params_present : Z;
  id : Z
}.

Definition has_chroma_format (profile_idc : Z) : bool :=
  existsb (Z.eqb profile_idc) [100; 110; 122; 244; 44; 83; 86; 118; 128; 138; 139; 134].

(** The entries of a scaling list that are left. *)
Fixpoint skip_scaling_list (size : nat) (last_scale next_scale : Z) : ST t (option unit) :=
  match size with
  | O => mret (Some tt)
  | S size' =>
      next_scale ⇐
        (if next_scale =? 0 then mret (Some next_scale) else
           delta_scale ⇐ ReadSignedExponentialGolomb;
           if (kScalingDeltaMin <=? delta_scale) && (delta_scale <=? kScaldingDeltaMax)
           then mret (Some (Z.rem (last_scale + delta_scale + 256) 256)) else mret None);
      skip_scaling_list size' (if next_scale =? 0 then last_scale else next_scale) next_scale
  end.

(** [count] scaling lists, the first with the number [i]. *)
Fixpoint skip_scaling_lists (count : nat) (i : Z) : ST t (option unit) :=
  match count with
  | O => mret (Some tt)
  | S count' =>
      seq_scaling_list_present_flags ⇐ ReadBits 1;
      _ ⇐ (if seq_scaling_list_present_flags =? 0 then mret (Some tt)
           else skip_scaling_list (if i <? 6 then 16%nat else 64%nat) 8 8);
      skip_scaling_lists count' (i + 1)
  end.

(** The chroma information of some profiles: the chroma format and whether the planes are separate. *)
Definition read_chroma : ST t (option (Z * Z)) :=
  chroma_format_idc ⇐ ReadExponentialGolomb;
  separate_colour_plane_flag ⇐ (if chroma_format_idc =? 3 then ReadBits 1 else mret (Some 0));
  _ ⇐ ReadExponentialGolomb;
  _ ⇐ ReadExponentialGolomb;
  ensure ConsumeBits 1;
  seq_scaling_matrix_present_flag ⇐ ReadBits 1;
  _ ⇐ (if seq_scaling_matrix_present_flag =? 0 then mret (Some tt)
       else skip_scaling_lists (if chroma_format_idc =? 3 then 12%nat else 8%nat) 0);
  mret (Some (chroma_format_idc, separate_colour_plane_flag)).

(** The picture order count: its type, [log2_max_pic_order_cnt_lsb] and the flag of type 1. *)
Definition read_poc : ST t (option (Z * Z * Z)) :=
  pic_order_cnt_type ⇐ ReadExponentialGolomb;
  if pic_order_cnt_type =? 0 then
    log2_max_pic_order_cnt_lsb_minus4 ⇐ ReadExponentialGolomb;
    if kMaxLog2Minus4 <? log2_max_pic_order_cnt_lsb_minus4 then mret None
    else mret (Some (pic_order_cnt_type, log2_max_pic_order_cnt_lsb_minus4 + 4, 0))
  else if pic_order_cnt_type =? 1 then
    delta_pic_order_always_zero_flag ⇐ ReadBits 1;
    _ ⇐ ReadExponentialGolomb;
    _ ⇐ ReadExponentialGolomb;
    num_ref_frames_in_pic_order_cnt_cycle ⇐ ReadExponentialGolomb;
    _ ⇐ repeat_read num_ref_frames_in_pic_order_cnt_cycle ReadExponentialGolomb;
    mret (Some (pic_order_cnt_type, 4, delta_pic_order_always_zero_flag))
  else mret (Some (pic_order_cnt_type, 4, 0)).

(** The crop offsets left, right, top and bottom. *)
Definition read_crop : ST t (option (Z * Z * Z * Z)) :=
  frame_cropping_flag ⇐ ReadBits 1;
  if frame_cropping_flag =? 0 then mret (Some (0, 0, 0, 0)) else
  l ⇐ ReadExponentialGolomb; r ⇐ ReadExponentialGolomb; t ⇐ ReadExponentialGolomb; b ⇐ ReadExponentialGolomb;
  mret (Some (l, r, t, b)).

(** The resolution from the sizes in macroblocks and the crop offsets, in [uint32_t]. *)
Definition resolution (pic_width_in_mbs_minus1 pic_height_in_map_units_minus1 frame_mbs_only_flag chroma_format_idc
    separate_colour_plane_flag : Z) (crop : Z * Z * Z * Z) : Z * Z :=
  let '(crop_left, crop_right, crop_top, crop_bottom) := crop in
  let width := u32 (16 * (pic_width_in_mbs_minus1 + 1)) in
  let height := u32 (16 * (2 - frame_mbs_only_flag) * (pic_height_in_map_units_minus1 + 1)) in
  let '(crop_left, crop_right, crop_top, crop_bottom) :=
    if negb (separate_colour_plane_flag =? 0) || (chroma_format_idc =? 0) then
      (crop_left, crop_right, u32 (crop_top * (2 - frame_mbs_only_flag)), u32 (crop_bottom * (2 - frame_mbs_only_flag)))
    else
      let '(crop_left, crop_right) :=
        if (chroma_format_idc =? 1) || (chroma_format_idc =? 2) then (u32 (crop_left * 2), u32 (crop_right * 2)) else (crop_left, crop_right) in
      if chroma_format_idc =? 1 then (crop_left, crop_right, u32 (crop_top * 2), u32 (crop_bottom * 2)) else (crop_left, crop_right, crop_top, crop_bottom) in
  (u32 (width - u32 (crop_left + crop_right)), u32 (height - u32 (crop_top + crop_bottom))).

Definition ParseSpsUpToVui : ST t (option SpsState) :=
  profile_idc ⇐ ReadUInt8;
  ensure ConsumeBytes 1;
  ensure ConsumeBytes 1;
  id ⇐ ReadExponentialGolomb;
  chroma ⇐ (if has_chroma_format profile_idc then read_chroma else mret (Some (1, 0)));
  log2_max_frame_num_minus4 ⇐ ReadExponentialGolomb;
  if kMaxLog2Minus4 <? log2_max_frame_num_minus4 then mret None else
  poc ⇐ read_poc;
  max_num_ref_frames ⇐ ReadExponentialGolomb;
  ensure ConsumeBits 1;
  pic_width_in_mbs_minus1 ⇐ ReadExponentialGolomb;
  pic_height_in_map_units_minus1 ⇐ ReadExponentialGolomb;
  frame_mbs_only_flag ⇐ ReadBits 1;
  ensure (if frame_mbs_only_flag =? 0 then ConsumeBits 1 else mret true);
  ensure ConsumeBits 1;
  crop ⇐ read_crop;
  vui_params_present ⇐ ReadBits 1;
  let '(chroma_format_idc, separate_colour_plane_flag) := chroma in
  let '(pic_order_cnt_type, log2_max_pic_order_cnt_lsb, delta_pic_order_always_zero_flag) := poc in
  let '(width, height) := resolution pic_width_in_mbs_minus1 pic_height_in_map_units_minus1 frame_mbs_only_flag
    chroma_format_idc separate_colour_plane_flag crop in
  mret (Some (Sps width height delta_pic_order_always_zero_flag separate_colour_plane_flag frame_mbs_only_flag
    (log2_max_frame_num_minus4 + 4) log2_max_pic_order_cnt_lsb pic_order_cnt_type max_num_ref_frames vui_params_present id)).

Definition ParseSps : list Z -> Z -> option (option SpsState) := PpsParser.on_rbsp ParseSpsUpToVui.

End SpsParser.
