(* ===== verification/SpsSyntax.v ===== *)
(** * The syntax of sequence parameter sets

    The sequence parameter set of the H.264 standard (7.3.2.1.1) up to its VUI parameters, as data and as
    bits, with the picture size the standard derives from it.  The parser of the source reads the bits of every such set and returns
    its values, and that size unless an interlaced picture is cropped vertically; the parsers of parameter sets return on arbitrary bytes. *)

From S2P Require Import Prelude BitBuffer BitCodec H264Common H264Params.

Import BitBuffer H264.

(** ** Readers in sequence *)

Lemma reads_try {A B} (m : ST t (option A)) (k : A -> ST t (option B)) x y a b :
  reads m x (Some a) -> reads (k a) y b -> reads (read_or_fail m k) (x ++ y) b.
Proof. intros Hm Hk. by eapply reads_bind. Qed.

Lemma reads_ensure {B} (m : ST t bool) (k : ST t (option B)) x y b :
  reads m x true -> reads k y b -> reads (do_or_fail m k) (x ++ y) b.
Proof. intros Hm Hk. by eapply reads_bind. Qed.

Lemma safe_try {A B} (m : ST t (option A)) (k : A -> ST t (option B)) :
  safe_reader m -> (forall a, safe_reader (k a)) -> safe_reader (read_or_fail m k).
Proof. intros Hm Hk. apply safe_bind; [done|]. intros [a|]; [done|apply safe_ret]. Qed.

Lemma safe_ensure {B} (m : ST t bool) (k : ST t (option B)) : safe_reader m -> safe_reader k -> safe_reader (do_or_fail m k).
Proof. intros Hm Hk. apply safe_bind; [done|]. intros [|]; [done|apply safe_ret]. Qed.

Lemma reads_flag b : reads (ReadBits 1) [b] (Some (Z.b2z b)).
Proof. pose proof (reads_ReadBits [b] ltac:(done)) as H. by destruct b. Qed.

Lemma reads_bits n v : (0 < n <= 32)%nat -> in_u (Z.of_nat n) v -> reads (ReadBits (Z.of_nat n)) (zbits n v) (Some v).
Proof.
  intros Hn Hv. pose proof (reads_ReadBits (zbits n v)) as H. rewrite len_zbits, bits_val_exact in H by done. apply H. lia.
Qed.

Lemma reads_ReadUInt8 v : byte_ok v -> reads ReadUInt8 (zbits 8 v) (Some v).
Proof.
  intros Hv. eapply reads_then; [apply (reads_bits 8 v); [lia|done]|]. cbn. unfold byte_ok in Hv. rewrite (proj2 (Z.leb_le v _)) by lia.
  cbn [dcheck]. rewrite wrap_small by done. apply reads_ret.
Qed.

(** A skipped flag, a skipped byte. *)
Lemma reads_skip_flag b : reads (ConsumeBits 1) [b] true.
Proof. apply (reads_consume [b]). Qed.

Lemma reads_skip_byte v : reads (ConsumeBytes 1) (zbits 8 v) true.
Proof. apply (reads_consume (zbits 8 v)). Qed.

Lemma golomb_not_nil v : golomb v <> [].
Proof. unfold golomb. intros E. apply app_eq_nil in E as [_ E]. done. Qed.

(** A skipped list of codes. *)
Lemma repeat_loop_reads m codes : Forall (fun c => exists a, reads m c (Some a)) codes -> forall fuel, (length codes < fuel)%nat ->
  reads (repeat_loop fuel (len codes) m) (mjoin codes) (Some tt).
Proof.
  induction 1 as [|c codes [a Ha] Hc IH]; intros fuel Hf; (destruct fuel as [|fuel]; [lia|]); cbn [repeat_loop].
  - apply reads_ret.
  - rewrite len_cons. pose proof (len_nonneg codes). rewrite (proj2 (Z.leb_gt _ 0)) by lia.
    change (mjoin (c :: codes)) with (c ++ mjoin codes). eapply reads_try; [exact Ha|].
    replace (1 + len codes - 1) with (len codes) by lia. apply IH. cbn in Hf. lia.
Qed.

Lemma join_length_ge {A} (codes : list (list A)) : Forall (fun c => c <> []) codes -> len codes <= len (mjoin codes).
Proof.
  induction 1 as [|c codes Hc Hcs IH]; [done|]. change (mjoin (c :: codes)) with (c ++ mjoin codes).
  rewrite len_cons, len_app. apply nonempty_len in Hc. lia.
Qed.

Lemma repeat_reads m codes n : n = len codes -> Forall (fun c => c <> [] /\ exists a, reads m c (Some a)) codes ->
  reads (repeat_read n m) (mjoin codes) (Some tt).
Proof.
  intros -> Hc s d r H. unfold repeat_read. unfold mbind, ST_bind, get. apply Forall_and in Hc as [Hne Hr].
  apply (repeat_loop_reads m codes Hr); [|done].
  rewrite (remaining_bits _ _ _ H), len_app. pose proof (join_length_ge codes Hne). pose proof (len_nonneg r). unfold len in *. lia.
Qed.

Lemma repeat_golomb vs n : n = len vs -> Forall (fun v => 0 <= v < 2 ^ 32 - 1) vs ->
  reads (repeat_read n ReadExponentialGolomb) (mjoin (golomb <$> vs)) (Some tt).
Proof.
  intros -> Hv. apply repeat_reads; [by rewrite len_fmap|]. apply Forall_fmap. eapply Forall_impl; [exact Hv|].
  intros v Hr. split; [apply golomb_not_nil|]. exists v. by apply reads_golomb.
Qed.

(** A reader that reads a bit when it succeeds. *)
Definition progress {A} (m : ST t (option A)) : Prop :=
  forall s d r, position s d r -> exists a s' x r', m s = Some (a, s') /\ bytes_ s' = bytes_ s /\ r = x ++ r' /\ position s' (d ++ x) r' /\
    (a <> None -> x <> []).

Lemma progress_safe {A} (m : ST t (option A)) : progress m -> safe_reader m.
Proof. intros Hm s d r H. destruct (Hm s d r H) as (a & s' & x & r' & E & B & Er & H' & _). by exists a, s', x, r'. Qed.

Lemma progress_golomb : progress ReadExponentialGolomb.
Proof.
  intros s d r H. destruct (golomb_read s d r H) as [(v & r' & s' & -> & _ & E & B & H')|[E _]].
  - exists (Some v), s', (golomb v), r'. repeat (split; [done|]). intros _. apply golomb_not_nil.
  - exists None, s, [], r. rewrite app_nil_r. repeat (split; [done|]). done.
Qed.

Lemma progress_bits n : 0 < n -> progress (ReadBits n).
Proof.
  intros Hn s d r H. destruct (ReadBits_spec n s d r Hn H) as [(x & r' & s' & -> & Hx & _ & E & B & H')|[E _]].
  - exists (Some (bits_val x)), s', x, r'. repeat (split; [done|]). intros _. apply nonempty_len. lia.
  - exists None, s, [], r. rewrite app_nil_r. repeat (split; [done|]). done.
Qed.

Lemma progress_try {A B} (m : ST t (option A)) (k : A -> ST t (option B)) :
  progress m -> (forall a, safe_reader (k a)) -> progress (read_or_fail m k).
Proof.
  intros Hm Hk s d r H. destruct (Hm s d r H) as (a & s1 & x & r1 & E1 & B1 & -> & H1 & P1). unfold read_or_fail. rewrite (ST_bind_ret _ _ _ _ _ E1).
  destruct a as [a|]; [|by exists None, s1, x, r1].
  destruct (Hk a s1 (d ++ x) r1 H1) as (b & s2 & y & r2 & E2 & B2 & -> & H2). exists b, s2, (x ++ y), r2.
  rewrite <- !app_assoc in *. split; [done|]. split; [congruence|]. split; [done|]. split; [done|].
  intros _ E. apply app_eq_nil in E as [-> _]. by apply P1.
Qed.

Lemma safe_repeat_loop m : progress m -> forall fuel n s d r, position s d r -> len r < Z.of_nat fuel ->
  exists a s' x r', repeat_loop fuel n m s = Some (a, s') /\ bytes_ s' = bytes_ s /\ r = x ++ r' /\ position s' (d ++ x) r'.
Proof.
  intros Hm. induction fuel as [|fuel IH]; intros n s d r H Hf; [pose proof (len_nonneg r); lia|]. cbn [repeat_loop].
  destruct (n <=? 0); [apply (safe_ret (Some tt) s d r H)|].
  destruct (Hm s d r H) as (a & s1 & x & r1 & E1 & B1 & -> & H1 & P1). unfold read_or_fail. rewrite (ST_bind_ret _ _ _ _ _ E1).
  destruct a as [a|]; [|by exists None, s1, x, r1].
  assert (0 < len x) by (apply nonempty_len; by apply P1). rewrite len_app in Hf.
  destruct (IH (n - 1) s1 (d ++ x) r1 H1 ltac:(lia)) as (b & s2 & y & r2 & E2 & B2 & -> & H2).
  exists b, s2, (x ++ y), r2. rewrite <- !app_assoc in *. split; [done|]. split; [congruence|done].
Qed.

Lemma safe_repeat n m : progress m -> safe_reader (repeat_read n m).
Proof.
  intros Hm s d r H. apply (safe_repeat_loop m Hm _ n s d r H). rewrite (remaining_bits _ _ _ H). lia.
Qed.

(** ** The parsers on arbitrary bytes *)

#[export] Hint Resolve safe_try safe_ensure safe_if safe_repeat progress_golomb progress_bits progress_try : bits.

(** Splits a parser into its readers. *)
Ltac safe_parse :=
  repeat lazymatch goal with
  | |- safe_reader (read_or_fail _ _) => apply safe_try; [|intros ?]
  | |- safe_reader (do_or_fail _ _) => apply safe_ensure
  | |- safe_reader (if _ then _ else _) => apply safe_if
  | |- safe_reader (mret _) => apply safe_ret
  | |- safe_reader ReadExponentialGolomb => apply safe_golomb
  | |- safe_reader ReadSignedExponentialGolomb => apply safe_signed
  | |- safe_reader ReadUInt8 => apply safe_ReadUInt8
  | |- safe_reader (ReadBits (Zpos _)) => apply safe_ReadBits; lia
  | |- safe_reader (ConsumeBits _) => apply safe_consume; lia
  | |- safe_reader (repeat_read _ _) => apply safe_repeat
  | |- progress ReadExponentialGolomb => apply progress_golomb
  | |- safe_reader (match ?p with (_, _) => _ end) => destruct p
  end.

Lemma slice_group_bits_pos fuel : forall n k, 0 <= k -> k <= PpsParser.slice_group_bits fuel n k.
Proof.
  induction fuel as [|fuel IH]; intros n k Hk; cbn [PpsParser.slice_group_bits]; [lia|].
  destruct (0 <? n); [|lia]. specialize (IH (Z.shiftr n 1) (k + 1) ltac:(lia)). lia.
Qed.

Lemma slice_group_bits_S fuel n k : PpsParser.slice_group_bits (S fuel) n k =
  if 0 <? n then PpsParser.slice_group_bits fuel (Z.shiftr n 1) (k + 1) else k.
Proof. done. Qed.

Lemma slice_group_id_bits_pos n : 0 < n < 2 ^ 32 - 1 -> 0 < PpsParser.slice_group_id_bits n.
Proof.
  intros Hn. unfold PpsParser.slice_group_id_bits. rewrite wrap_small by (unfold in_u; lia). set (extra := if _ =? 0 then _ else _).
  assert (0 <= extra) by (subst extra; by destruct (_ =? 0)). rewrite (slice_group_bits_S 31), (proj2 (Z.ltb_lt 0 _)) by lia.
  pose proof (slice_group_bits_pos 31 (Z.shiftr (n + 1) 1) (extra + 1) ltac:(lia)). lia.
Qed.

(** A code that was read is in the range of the reader. *)
Lemma safe_try_golomb {B} (k : Z -> ST t (option B)) : (forall v, 0 <= v < 2 ^ 32 - 1 -> safe_reader (k v)) ->
  safe_reader (read_or_fail ReadExponentialGolomb k).
Proof.
  intros Hk s d r H. unfold read_or_fail. destruct (golomb_read s d r H) as [(v & r' & s1 & -> & Hv & E & B1 & H1)|[E _]]; rewrite (ST_bind_ret _ _ _ _ _ E).
  - destruct (Hk v Hv s1 _ _ H1) as (b & s2 & y & r2 & E2 & B2 & -> & H2). exists b, s2, (golomb v ++ y), r2.
    rewrite <- !app_assoc in *. split; [done|]. split; [congruence|done].
  - exists None, s, [], r. by rewrite app_nil_r.
Qed.

Lemma safe_slice_groups n : 0 < n < 2 ^ 32 - 1 -> safe_reader (PpsParser.skip_slice_groups n).
Proof.
  intros Hn. unfold PpsParser.skip_slice_groups. safe_parse.
  - apply progress_try; [apply progress_golomb|]. intros _. apply safe_golomb.
  - apply progress_bits. by apply slice_group_id_bits_pos.
Qed.

Lemma safe_ParsePpsIds : safe_reader PpsParser.ParsePpsIdsInternal.
Proof. unfold PpsParser.ParsePpsIdsInternal. safe_parse. Qed.

Lemma safe_ParsePps : safe_reader PpsParser.ParseInternal.
Proof.
  unfold PpsParser.ParseInternal. apply safe_try; [apply safe_ParsePpsIds|intros ids]. do 2 (apply safe_try; [apply safe_ReadBits; lia|intros ?]).
  apply safe_try_golomb. intros n Hn. apply safe_try; [|intros _; safe_parse].
  destruct (Z.ltb_spec 0 n); [apply safe_slice_groups; lia|apply safe_ret].
Qed.

Lemma safe_scaling_list size : forall l n, safe_reader (SpsParser.skip_scaling_list size l n).
Proof. induction size as [|size IH]; intros l n; cbn [SpsParser.skip_scaling_list]; safe_parse. apply IH. Qed.

Lemma safe_scaling_lists count : forall i, safe_reader (SpsParser.skip_scaling_lists count i).
Proof. induction count as [|count IH]; intros i; cbn [SpsParser.skip_scaling_lists]; safe_parse; [apply safe_scaling_list|apply IH]. Qed.

Lemma safe_ParseSps : safe_reader SpsParser.ParseSpsUpToVui.
Proof.
  unfold SpsParser.ParseSpsUpToVui, SpsParser.read_chroma, SpsParser.read_poc, SpsParser.read_crop, ConsumeBytes.
  safe_parse. apply safe_scaling_lists.
Qed.

(** Every parser on the unescaped payload. *)
Lemma on_rbsp_total {A} (m : ST t A) data length : safe_reader m -> bytes_ok data -> 0 <= length <= len data -> len data <= 2 ^ 32 - 1 ->
  exists a, PpsParser.on_rbsp m data length = Some a.
Proof.
  intros Hm Hd Hl Hmax. unfold PpsParser.on_rbsp, ParseRbsp. rewrite (proj2 (Z.leb_le _ _)) by lia. cbn [check mbind option_bind].
  set (x := take _ data). assert (Hx : bytes_ok (parse_rbsp x) /\ len (parse_rbsp x) <= len x).
  { apply parse_rbsp_ok. by apply Forall_take. }
  destruct (position_start (parse_rbsp x)) as (s & Es & Hs); [apply Hx| |].
  { destruct Hx as [_ Hx]. subst x. unfold len in *. rewrite length_take in Hx. lia. }
  rewrite Es. cbn [mbind option_bind]. destruct (Hm s _ _ Hs) as (a & s' & _ & _ & E & _). rewrite E. by exists a.
Qed.

(** ** Sequence parameter sets *)

(** The deltas of a scaling list of [size] entries: none follows a zero scale. *)
Fixpoint scaling_ok (size : nat) (last_scale next_scale : Z) (ds : list Z) : Prop :=
  match size with
  | O => ds = []
  | S size' =>
      if next_scale =? 0 then scaling_ok size' last_scale next_scale ds else
      match ds with
      | [] => False
      | d :: ds' =>
          let next := (last_scale + d + 256) mod 256 in
          -128 <= d <= 127 /\ scaling_ok size' (if next =? 0 then last_scale else next) next ds'
      end
  end.

Definition scaling_code (l : option (list Z)) : list bool :=
  match l with None => [false] | Some ds => true :: mjoin ((fun d => golomb (signed_index d)) <$> ds) end.

Fixpoint scalings_ok (i : Z) (ls : list (option (list Z))) : Prop :=
  match ls with
  | [] => True
  | l :: rest =>
      match l with None => True | Some ds => scaling_ok (if i <? 6 then 16%nat else 64%nat) 8 8 ds end /\ scalings_ok (i + 1) rest
  end.

(** The chroma information of the high profiles. *)
Record chroma_syntax := Chroma {
  chroma_format : Z; separate_planes : bool; luma_depth : Z; chroma_depth : Z; bypass : bool;
  scaling : option (list (option (list Z)))
}.

Definition code_ok (v : Z) : Prop := 0 <= v < 2 ^ 32 - 1.

Definition chroma_ok (c : chroma_syntax) : Prop :=
  code_ok (chroma_format c) /\ code_ok (luma_depth c) /\ code_ok (chroma_depth c) /\
  (separate_planes c = true -> chroma_format c = 3) /\
  match scaling c with
  | None => True
  | Some ls => length ls = (if chroma_format c =? 3 then 12%nat else 8%nat) /\ scalings_ok 0 ls
  end.

Definition chroma_code (c : chroma_syntax) : list bool :=
  golomb (chroma_format c) ++ (if chroma_format c =? 3 then [separate_planes c] else []) ++
  golomb (luma_depth c) ++ golomb (chroma_depth c) ++ [bypass c] ++
  match scaling c with None => [false] | Some ls => true :: mjoin (scaling_code <$> ls) end.

(** The picture order count of types 0, 1 and others. *)
Inductive poc_syntax :=
  | Poc0 (log2_lsb_minus4 : Z)
  | Poc1 (always_zero : bool) (non_ref top_to_bottom : Z) (ref_frames : list Z)
  | PocOther (type : Z).

Definition poc_ok (p : poc_syntax) : Prop :=
  match p with
  | Poc0 v => 0 <= v <= 28
  | Poc1 _ a b l => code_ok a /\ code_ok b /\ Forall code_ok l /\ code_ok (len l)
  | PocOther ty => 2 <= ty < 2 ^ 32 - 1
  end.

Definition poc_code (p : poc_syntax) : list bool :=
  match p with
  | Poc0 v => golomb 0 ++ golomb v
  | Poc1 z a b l => golomb 1 ++ [z] ++ golomb a ++ golomb b ++ golomb (len l) ++ mjoin (golomb <$> l)
  | PocOther ty => golomb ty
  end.

Definition poc_values (p : poc_syntax) : Z * Z * Z :=
  match p with Poc0 v => (0, v + 4, 0) | Poc1 z _ _ _ => (1, 4, Z.b2z z) | PocOther ty => (ty, 4, 0) end.

Record sps_syntax := SpsSyntax {
  profile : Z; constraints : Z; level : Z; set_id : Z; chroma_info : option chroma_syntax; log2_frame_num_minus4 : Z;
  poc : poc_syntax; num_ref_frames : Z; gaps_allowed : bool; width_mbs_minus1 : Z; height_units_minus1 : Z;
  frame_mbs_only : bool; adaptive : bool; direct_8x8 : bool; cropping : option (Z * Z * Z * Z)
}.

(** The profiles with chroma information.  Later editions of the standard add 135, which the source does not know. *)
Definition high_profiles : list Z := [44; 83; 86; 100; 110; 118; 122; 128; 134; 138; 139; 244].

Definition high_profile (profile_idc : Z) : bool := existsb (Z.eqb profile_idc) high_profiles.

Definition sps_ok (p : sps_syntax) : Prop :=
  byte_ok (profile p) /\ profile p <> 135 /\ code_ok (set_id p) /\
  match chroma_info p with
  | None => high_profile (profile p) = false
  | Some c => high_profile (profile p) = true /\ chroma_ok c
  end /\
  0 <= log2_frame_num_minus4 p <= 28 /\ poc_ok (poc p) /\ code_ok (num_ref_frames p) /\
  code_ok (width_mbs_minus1 p) /\ code_ok (height_units_minus1 p) /\
  match cropping p with None => True | Some (l, r, t, b) => code_ok l /\ code_ok r /\ code_ok t /\ code_ok b end.

Definition crop_code (c : option (Z * Z * Z * Z)) : list bool :=
  match c with None => [false] | Some (l, r, t, b) => true :: golomb l ++ golomb r ++ golomb t ++ golomb b end.

(** The bits up to the flag that says whether VUI parameters follow. *)
Definition sps_code (p : sps_syntax) : list bool :=
  zbits 8 (profile p) ++ zbits 8 (constraints p) ++ zbits 8 (level p) ++ golomb (set_id p) ++
  match chroma_info p with None => [] | Some c => chroma_code c end ++
  golomb (log2_frame_num_minus4 p) ++ poc_code (poc p) ++ golomb (num_ref_frames p) ++ [gaps_allowed p] ++
  golomb (width_mbs_minus1 p) ++ golomb (height_units_minus1 p) ++ [frame_mbs_only p] ++
  (if frame_mbs_only p then [] else [adaptive p]) ++ [direct_8x8 p] ++ crop_code (cropping p).

(** ** The size of the pictures (7.4.2.1.1) *)

(** [ChromaArrayType]: 0 for pictures of one colour component each. *)
Definition chroma_array_type (p : sps_syntax) : Z :=
  match chroma_info p with None => 1 | Some c => if separate_planes c then 0 else chroma_format c end.

(** The units of the crop offsets: 4:2:0 and 4:2:2 halve the chroma columns, 4:2:0 halves its lines; a line of a field is two of the frame. *)
Definition crop_unit_x (p : sps_syntax) : Z := if (chroma_array_type p =? 1) || (chroma_array_type p =? 2) then 2 else 1.
Definition sub_height (p : sps_syntax) : Z := if chroma_array_type p =? 1 then 2 else 1.
Definition crop_unit_y (p : sps_syntax) : Z := sub_height p * (if frame_mbs_only p then 1 else 2).

(** The cropped columns and lines, in units. *)
Definition cropped_columns (p : sps_syntax) : Z := match cropping p with None => 0 | Some (l, r, _, _) => l + r end.
Definition cropped_lines (p : sps_syntax) : Z := match cropping p with None => 0 | Some (_, _, t, b) => t + b end.

Definition picture_width (p : sps_syntax) : Z := 16 * (width_mbs_minus1 p + 1) - crop_unit_x p * cropped_columns p.
Definition picture_height (p : sps_syntax) : Z :=
  16 * (if frame_mbs_only p then 1 else 2) * (height_units_minus1 p + 1) - crop_unit_y p * cropped_lines p.

(** The lines the parser leaves: it takes a crop unit of pictures that may be interlaced for one of frames, unless they have one colour component. *)
Definition lines_left (p : sps_syntax) : Z :=
  if frame_mbs_only p || (chroma_array_type p =? 0) then 0 else sub_height p * cropped_lines p.

(** What the parser keeps of it. *)
Definition sps_state (p : sps_syntax) (vui_present : bool) : SpsParser.SpsState :=
  let '(ty, log2_lsb, always_zero) := poc_values (poc p) in
  SpsParser.Sps (u32 (picture_width p)) (u32 (picture_height p + lines_left p)) always_zero
    (match chroma_info p with None => 0 | Some c => Z.b2z (separate_planes c) end) (Z.b2z (frame_mbs_only p))
    (log2_frame_num_minus4 p + 4) log2_lsb ty (num_ref_frames p) (Z.b2z vui_present) (set_id p).

Lemma high_profile_ok profile_idc : SpsParser.has_chroma_format profile_idc = high_profile profile_idc.
Proof. unfold high_profile, SpsParser.has_chroma_format, high_profiles. cbn [existsb]. lia. Qed.

(** Arithmetic in [uint32_t] is arithmetic modulo 2^32. *)
Ltac mod_arith := unfold wrap; rewrite ?Zplus_mod_idemp_l, ?Zplus_mod_idemp_r, ?Zminus_mod_idemp_l, ?Zminus_mod_idemp_r; f_equal; lia.

(** The arithmetic of the parser. *)
Lemma resolution_size p :
  SpsParser.resolution (width_mbs_minus1 p) (height_units_minus1 p) (Z.b2z (frame_mbs_only p))
    (match chroma_info p with None => 1 | Some c => chroma_format c end) (match chroma_info p with None => 0 | Some c => Z.b2z (separate_planes c) end)
    (default (0, 0, 0, 0) (cropping p)) = (u32 (picture_width p), u32 (picture_height p + lines_left p)).
Proof.
  unfold picture_width, picture_height, lines_left, crop_unit_x, crop_unit_y, sub_height, cropped_columns, cropped_lines, chroma_array_type, SpsParser.resolution.
  generalize (width_mbs_minus1 p), (height_units_minus1 p). intros w h.
  destruct (chroma_info p) as [[cf sep ld cd by_ sc]|]; cbn [chroma_format separate_planes];
    destruct (cropping p) as [[[[l r] tp] b]|]; cbn [default];
    [destruct sep; [|destruct (Z.eqb_spec cf 0) as [->|H0]; [|destruct (Z.eqb_spec cf 1) as [->|H1]; [|destruct (Z.eqb_spec cf 2) as [->|H2]]]]..| |];
    destruct (frame_mbs_only p); cbn [Z.b2z negb orb Z.eqb Pos.eqb]; rewrite ?(proj2 (Z.eqb_neq cf 0)), ?(proj2 (Z.eqb_neq cf 1)), ?(proj2 (Z.eqb_neq cf 2)) by done;
    cbn [orb]; f_equal; mod_arith.
Qed.

Lemma scaling_list_reads size : forall l n ds, scaling_ok size l n ds -> 0 <= l < 256 -> Forall (fun d => -128 <= d <= 127) ds ->
  reads (SpsParser.skip_scaling_list size l n) (mjoin ((fun d => golomb (signed_index d)) <$> ds)) (Some tt).
Proof.
  induction size as [|size IH]; intros l n ds H Hl Hds; cbn [SpsParser.skip_scaling_list scaling_ok] in *.
  - subst ds. apply reads_ret.
  - destruct (Z.eqb_spec n 0) as [->|Hn].
    + change (mjoin _) with ([] ++ mjoin ((fun d => golomb (signed_index d)) <$> ds)). eapply reads_try; [apply reads_ret|]. by apply IH.
    + destruct ds as [|d ds]; [done|]. destruct H as [Hd H]. apply Forall_cons in Hds as [_ Hds].
      rewrite mjoin_fmap_cons. eapply reads_try; [|apply IH; [exact H| |done]].
      * rewrite <- (app_nil_r (golomb _)). eapply reads_try; [apply reads_signed; lia|].
        unfold SpsParser.kScalingDeltaMin, SpsParser.kScaldingDeltaMax. rewrite (proj2 (Z.leb_le _ d)), (proj2 (Z.leb_le d _)) by lia.
        cbn [andb]. rewrite Z.rem_mod_nonneg by lia. apply reads_ret.
      * destruct (Z.eqb_spec ((l + d + 256) mod 256) 0); [done|apply Z.mod_pos_bound; lia].
Qed.

Lemma scaling_ok_range size : forall l n ds, scaling_ok size l n ds -> Forall (fun d => -128 <= d <= 127) ds.
Proof.
  induction size as [|size IH]; intros l n ds H; cbn in H; [by subst ds|]. destruct (n =? 0); [by eapply IH|].
  destruct ds as [|d ds]; [done|]. destruct H as [Hd H]. constructor; [done|by eapply IH].
Qed.

Lemma scaling_lists_reads ls : forall i, scalings_ok i ls ->
  reads (SpsParser.skip_scaling_lists (length ls) i) (mjoin (scaling_code <$> ls)) (Some tt).
Proof.
  induction ls as [|l ls IH]; intros i H; cbn [SpsParser.skip_scaling_lists length]; [apply reads_ret|].
  destruct H as [Hl H]. rewrite mjoin_fmap_cons. destruct l as [ds|]; cbn [scaling_code].
  - rewrite <- app_comm_cons. eapply (reads_try _ _ [true]); [apply (reads_flag true)|]. cbn.
    eapply reads_try; [|by apply IH]. apply scaling_list_reads; [done|lia|by eapply scaling_ok_range].
  - eapply (reads_try _ _ [false]); [apply (reads_flag false)|]. cbn. change (mjoin _) with ([] ++ mjoin (scaling_code <$> ls)).
    eapply reads_try; [apply reads_ret|by apply IH].
Qed.

(** A code of no bits in front. *)
Lemma reads_nothing {A B} (m : ST t (option A)) (k : A -> ST t (option B)) y a b :
  reads m [] (Some a) -> reads (k a) y b -> reads (read_or_fail m k) y b.
Proof. apply (reads_try m k []). Qed.

(** The last reader of a parser. *)
Lemma reads_last {A B} (m : ST t (option A)) (k : A -> ST t (option B)) x a b :
  reads m x (Some a) -> reads (k a) [] b -> reads (read_or_fail m k) x b.
Proof. intros Hm Hk. rewrite <- (app_nil_r x). by eapply reads_try. Qed.

(** Reads the next field of the syntax. *)
Ltac next_field :=
  lazymatch goal with
  | |- reads (read_or_fail ReadExponentialGolomb _) (golomb _ ++ _) _ => eapply reads_try; [apply reads_golomb; assumption|]
  | |- reads (read_or_fail (ReadBits 1) _) ([_] ++ _) _ => eapply reads_try; [apply reads_flag|]
  | |- reads (do_or_fail (ConsumeBits 1) _) ([_] ++ _) _ => eapply reads_ensure; [apply reads_skip_flag|]
  end; cbn beta.

Lemma chroma_reads c : chroma_ok c -> reads SpsParser.read_chroma (chroma_code c) (Some (chroma_format c, Z.b2z (separate_planes c))).
Proof.
  intros (Hf & Hl & Hc & Hs & Hsc). unfold SpsParser.read_chroma, chroma_code. next_field.
  assert (Hsep : reads (if chroma_format c =? 3 then ReadBits 1 else mret (Some 0)) (if chroma_format c =? 3 then [separate_planes c] else [])
    (Some (Z.b2z (separate_planes c)))).
  { destruct (Z.eqb_spec (chroma_format c) 3); [apply reads_flag|]. destruct (separate_planes c); [by destruct n; apply Hs|apply reads_ret]. }
  eapply reads_try; [exact Hsep|]. do 3 next_field. destruct (scaling c) as [ls|].
  - destruct Hsc as [Hlen Hls]. eapply (reads_try _ _ [true]); [apply (reads_flag true)|]. cbn beta. cbn [Z.b2z Z.eqb].
    eapply reads_last; [rewrite <- Hlen; by apply scaling_lists_reads|apply reads_ret].
  - eapply reads_last; [apply (reads_flag false)|]. cbn beta. cbn [Z.b2z Z.eqb]. eapply reads_nothing; apply reads_ret.
Qed.

Lemma poc_reads p : poc_ok p -> reads SpsParser.read_poc (poc_code p) (Some (poc_values p)).
Proof.
  intros Hp. unfold SpsParser.read_poc. destruct p as [v|z a b l|ty]; cbn [poc_code poc_values poc_ok] in *.
  - eapply reads_try; [by apply reads_golomb|]. cbn [Z.eqb]. eapply reads_last; [apply reads_golomb; lia|]. cbn beta.
    unfold SpsParser.kMaxLog2Minus4. rewrite (proj2 (Z.ltb_ge _ v)) by lia. apply reads_ret.
  - destruct Hp as (Ha & Hb & Hl & Hn). eapply reads_try; [by apply reads_golomb|]. cbn [Z.eqb Pos.eqb]. do 4 next_field.
    eapply reads_last; [by apply repeat_golomb|apply reads_ret].
  - eapply reads_last; [apply reads_golomb; lia|]. rewrite (proj2 (Z.eqb_neq ty 0)), (proj2 (Z.eqb_neq ty 1)) by lia. apply reads_ret.
Qed.

Lemma crop_reads c : match c with None => True | Some (l, r, t, b) => code_ok l /\ code_ok r /\ code_ok t /\ code_ok b end ->
  reads SpsParser.read_crop (crop_code c) (Some (default (0, 0, 0, 0) c)).
Proof.
  intros Hc. unfold SpsParser.read_crop. destruct c as [[[[l r] tp] b]|]; cbn [crop_code default].
  - destruct Hc as (Hl & Hr & Ht & Hb). eapply (reads_try _ _ [true]); [apply (reads_flag true)|]. cbn beta. cbn [Z.b2z Z.eqb].
    do 3 next_field. eapply reads_last; [by apply reads_golomb|apply reads_ret].
  - eapply reads_last; [apply (reads_flag false)|]. apply reads_ret.
Qed.

Lemma sps_reads p vui_present : sps_ok p ->
  reads SpsParser.ParseSpsUpToVui (sps_code p ++ [vui_present]) (Some (sps_state p vui_present)).
Proof.
  intros (Hp & _ & Hid & Hch & Hlog & Hpoc & Href & Hw & Hh & Hcrop). unfold SpsParser.ParseSpsUpToVui, sps_code. rewrite <- !app_assoc.
  eapply reads_try; [by apply reads_ReadUInt8|]. do 2 (eapply reads_ensure; [apply reads_skip_byte|]). next_field.
  assert (Hc : reads (if SpsParser.has_chroma_format (profile p) then SpsParser.read_chroma else mret (Some (1, 0)))
    (match chroma_info p with None => [] | Some c => chroma_code c end)
    (Some (match chroma_info p with None => (1, 0) | Some c => (chroma_format c, Z.b2z (separate_planes c)) end))).
  { rewrite high_profile_ok. destruct (chroma_info p) as [c|]; [destruct Hch as [-> Hc]; by apply chroma_reads|rewrite Hch; apply reads_ret]. }
  eapply reads_try; [exact Hc|]. cbn beta. eapply reads_try; [apply reads_golomb; lia|].
  unfold SpsParser.kMaxLog2Minus4. rewrite (proj2 (Z.ltb_ge _ (log2_frame_num_minus4 p))) by lia.
  eapply reads_try; [by apply poc_reads|]. do 5 next_field.
  eapply reads_ensure; [destruct (frame_mbs_only p); [apply reads_ret|apply reads_skip_flag]|].
  next_field. eapply reads_try; [by apply crop_reads|]. cbn beta. eapply reads_last; [apply reads_flag|]. cbn beta.
  unfold sps_state. pose proof (resolution_size p) as Hsize. clear -Hsize. destruct (poc_values (poc p)) as [[ty l2] z].
  destruct (chroma_info p); rewrite Hsize; apply reads_ret.
Qed.

Lemma sps_state_size p vui : (in_u 32 (picture_width p) -> SpsParser.width (sps_state p vui) = picture_width p) /\
  (in_u 32 (picture_height p) -> frame_mbs_only p = true \/ chroma_array_type p = 0 \/ cropped_lines p = 0 ->
     SpsParser.height (sps_state p vui) = picture_height p).
Proof.
  unfold sps_state. destruct (poc_values (poc p)) as [[ty l2] z]. cbn [SpsParser.width SpsParser.height]. split; [apply wrap_small|].
  intros Hh Hl. assert (lines_left p = 0) as ->; [|rewrite Z.add_0_r; by apply wrap_small].
  unfold lines_left. destruct Hl as [->|[->| ->]]; [done|by rewrite orb_true_r|rewrite Z.mul_0_r; by destruct (_ || _)].
Qed.

(** ** Picture parameter sets *)

(** The slice groups: one, interleaved runs, dispersed, or evolving. *)
Inductive groups_syntax :=
  | OneGroup
  | Runs (first : Z) (others : list Z)
  | Dispersed (num_minus1 : Z)
  | Evolving (type num_minus1 : Z) (direction : bool) (rate : Z).

Definition groups_ok (g : groups_syntax) : Prop :=
  match g with
  | OneGroup => True
  | Runs v l => l <> [] /\ code_ok (len l) /\ Forall code_ok (v :: l)
  | Dispersed n => 0 < n /\ code_ok n
  | Evolving ty n _ r => 3 <= ty <= 5 /\ 0 < n /\ code_ok n /\ code_ok r
  end.

Definition groups_minus1 (g : groups_syntax) : Z :=
  match g with OneGroup => 0 | Runs _ l => len l | Dispersed n => n | Evolving _ n _ _ => n end.

Definition groups_code (g : groups_syntax) : list bool :=
  match g with
  | OneGroup => []
  | Runs v l => golomb 0 ++ mjoin (golomb <$> (v :: l))
  | Dispersed _ => golomb 1
  | Evolving ty _ d r => golomb ty ++ [d] ++ golomb r
  end.

Record pps_syntax := PpsSyntax {
  pps_id : Z; pps_sps_id : Z; entropy_coding : bool; bottom_field : bool; groups : groups_syntax; l0_minus1 : Z; l1_minus1 : Z;
  weighted_pred : bool; weighted_bipred : Z; init_qp : Z; init_qs : Z; chroma_qp : Z; deblocking : bool; constrained_intra : bool;
  redundant_cnt : bool
}.

Definition pps_ok (p : pps_syntax) : Prop :=
  code_ok (pps_id p) /\ code_ok (pps_sps_id p) /\ groups_ok (groups p) /\ code_ok (l0_minus1 p) /\ code_ok (l1_minus1 p) /\
  in_u 2 (weighted_bipred p) /\ -26 <= init_qp p <= 25 /\ - 2 ^ 31 < init_qs p < 2 ^ 31 /\ - 2 ^ 31 < chroma_qp p < 2 ^ 31.

Definition pps_code (p : pps_syntax) : list bool :=
  (golomb (pps_id p) ++ golomb (pps_sps_id p)) ++ [entropy_coding p] ++ [bottom_field p] ++ golomb (groups_minus1 (groups p)) ++
  groups_code (groups p) ++ golomb (l0_minus1 p) ++ golomb (l1_minus1 p) ++ [weighted_pred p] ++ zbits 2 (weighted_bipred p) ++
  golomb (signed_index (init_qp p)) ++ golomb (signed_index (init_qs p)) ++ golomb (signed_index (chroma_qp p)) ++
  [deblocking p; constrained_intra p] ++ [redundant_cnt p].

Definition pps_state (p : pps_syntax) : PpsParser.PpsState :=
  PpsParser.Pps (bottom_field p) (weighted_pred p) (entropy_coding p) (weighted_bipred p) (Z.b2z (redundant_cnt p)) (init_qp p)
    (pps_id p) (pps_sps_id p).

Lemma groups_reads g : groups_ok g ->
  reads (if 0 <? groups_minus1 g then PpsParser.skip_slice_groups (groups_minus1 g) else mret (Some tt)) (groups_code g) (Some tt).
Proof.
  intros Hg. destruct g as [|v l|n|ty n d r]; cbn [groups_minus1 groups_code groups_ok] in *; [apply reads_ret| | |].
  - destruct Hg as (Hl & Hlen & Hv). apply nonempty_len in Hl. rewrite (proj2 (Z.ltb_lt 0 _)) by lia. unfold PpsParser.skip_slice_groups.
    eapply reads_try; [by apply reads_golomb|]. cbn [Z.eqb]. apply repeat_golomb; [rewrite len_cons; lia|done].
  - destruct Hg as [H0 Hn]. rewrite (proj2 (Z.ltb_lt 0 _)) by lia. unfold PpsParser.skip_slice_groups.
    eapply reads_last; [by apply reads_golomb|]. apply reads_ret.
  - destruct Hg as (Hty & H0 & Hn & Hr). rewrite (proj2 (Z.ltb_lt 0 _)) by lia. unfold PpsParser.skip_slice_groups.
    eapply reads_try; [apply reads_golomb; lia|]. rewrite (proj2 (Z.eqb_neq ty 0)), (proj2 (Z.eqb_neq ty 1)), (proj2 (Z.eqb_neq ty 2)) by lia.
    assert (E : (ty =? 3) || (ty =? 4) || (ty =? 5) = true) by lia. rewrite E.
    next_field. eapply reads_last; [by apply reads_golomb|apply reads_ret].
Qed.

Lemma flag_value b : negb (Z.b2z b =? 0) = b.
Proof. by destruct b. Qed.

Lemma pps_ids_read p : pps_ok p ->
  reads PpsParser.ParsePpsIdsInternal (golomb (pps_id p) ++ golomb (pps_sps_id p)) (Some (pps_id p, pps_sps_id p)).
Proof. intros (Hid & Hsps & _). unfold PpsParser.ParsePpsIdsInternal. next_field. eapply reads_last; [by apply reads_golomb|apply reads_ret]. Qed.

Lemma pps_reads p : pps_ok p -> reads PpsParser.ParseInternal (pps_code p) (Some (pps_state p)).
Proof.
  intros Hok. pose proof Hok as (Hid & Hsps & Hg & Hl0 & Hl1 & Hbi & Hqp & Hqs & Hc). unfold PpsParser.ParseInternal, pps_code.
  eapply reads_try; [by apply pps_ids_read|]. cbn beta. do 2 next_field.
  assert (code_ok (groups_minus1 (groups p))) by (unfold code_ok; destruct (groups p); cbn in Hg |- *; unfold code_ok in Hg; lia).
  next_field. eapply reads_try; [by apply groups_reads|]. cbn beta. do 3 next_field.
  eapply reads_try; [apply (reads_bits 2); [lia|done]|]. cbn beta. eapply reads_try; [apply reads_signed; lia|]. cbn beta.
  unfold PpsParser.kMaxPicInitQpDeltaValue, PpsParser.kMinPicInitQpDeltaValue. rewrite (proj2 (Z.ltb_ge 25 _)), (proj2 (Z.ltb_ge _ (-26))) by lia. cbn [orb].
  do 2 (eapply reads_try; [apply reads_golomb, signed_index_range; lia|]; cbn beta).
  eapply reads_try; [by apply (reads_ReadBits [_; _])|]. cbn beta. eapply reads_last; [apply reads_flag|]. cbn [fst snd].
  rewrite !flag_value. apply reads_ret.
Qed.

(** ** Parsing bytes *)

(** A parser on bytes whose unescaped bits begin with what it reads. *)
Lemma on_rbsp_reads {A} (m : ST t A) x a data length rest : reads m x a -> bytes_ok data -> 0 <= length <= len data -> len data <= 2 ^ 32 - 1 ->
  bits_of (parse_rbsp (take (Z.to_nat length) data)) = x ++ rest -> PpsParser.on_rbsp m data length = Some a.
Proof.
  intros Hm Hd Hl Hmax Hb. unfold PpsParser.on_rbsp, ParseRbsp. rewrite (proj2 (Z.leb_le _ _)) by lia. cbn [check mbind option_bind].
  set (y := take _ data) in *. assert (Hx : bytes_ok (parse_rbsp y) /\ len (parse_rbsp y) <= len y).
  { apply parse_rbsp_ok. by apply Forall_take. }
  destruct (position_start (parse_rbsp y)) as (s & Es & Hs); [apply Hx| |].
  { destruct Hx as [_ Hx]. subst y. unfold len in *. rewrite length_take in Hx. lia. }
  rewrite Es. cbn [mbind option_bind]. rewrite Hb in Hs. destruct (Hm s _ _ Hs) as (s' & E & _). by rewrite E.
Qed.

(** C17: parsing parameter sets.  The parsers of sequence and picture parameter sets, of their ids and of the id
    in a slice header return on arbitrary bytes: no read is outside the buffer, no check fails and every
    loop ends.  On the bits of a sequence parameter set [p] (of any profile but 135), whatever follows them, [ParseSps] returns its
    values.  The width is that of the standard; so is the height, unless the pictures may be interlaced, have chroma and are
    cropped vertically: then the parser leaves half of the lines to crop, [lines_left] (both modulo 2^32).  On the bits of a picture
    parameter set [q] (of slice group types 0, 1, 3, 4 and 5 when it has several groups) [ParsePps] returns its values and
    [ParsePpsIds] its ids. *)
Theorem param_sets_parse data length p vui q rest :
  bytes_ok data -> 0 <= length <= len data -> len data <= 2 ^ 32 - 1 -> sps_ok p -> pps_ok q ->
  let bits := bits_of (parse_rbsp (take (Z.to_nat length) data)) in
  (is_Some (SpsParser.ParseSps data length) /\ is_Some (PpsParser.ParsePps data length) /\
   is_Some (PpsParser.ParsePpsIds data length) /\ is_Some (PpsParser.ParsePpsIdFromSlice data length)) /\
  (bits = sps_code p ++ vui :: rest -> exists s, SpsParser.ParseSps data length = Some (Some s) /\ s = sps_state p vui /\
     (in_u 32 (picture_width p) -> SpsParser.width s = picture_width p) /\
     (in_u 32 (picture_height p) -> frame_mbs_only p = true \/ chroma_array_type p = 0 \/ cropped_lines p = 0 ->
        SpsParser.height s = picture_height p)) /\
  (bits = pps_code q ++ rest -> PpsParser.ParsePps data length = Some (Some (pps_state q)) /\
     PpsParser.ParsePpsIds data length = Some (Some (pps_id q, pps_sps_id q))) /\
  (forall first ty, code_ok first -> code_ok ty -> bits = golomb first ++ golomb ty ++ golomb (pps_id q) ++ rest ->
     PpsParser.ParsePpsIdFromSlice data length = Some (Some (pps_id q))).
Proof.
  intros Hd Hl Hmax Hp Hq bits. split; [|split; [|split]].
  - assert (Hall : forall A (m : ST t A), safe_reader m -> is_Some (PpsParser.on_rbsp m data length)).
    { intros A m Hm. destruct (on_rbsp_total m data length Hm Hd Hl Hmax) as [a Ha]. by exists a. }
    repeat split; apply Hall; [apply safe_ParseSps|apply safe_ParsePps|apply safe_ParsePpsIds|]. safe_parse.
  - intros Hb. exists (sps_state p vui). split; [|split; [done|apply sps_state_size]].
    eapply (on_rbsp_reads _ (sps_code p ++ [vui])); [by apply sps_reads|done..|]. rewrite <- app_assoc. exact Hb.
  - intros Hb. split; [by eapply on_rbsp_reads; [apply pps_reads|..]|].
    eapply on_rbsp_reads; [by apply pps_ids_read|done..|]. fold bits. rewrite Hb. unfold pps_code. by rewrite <- app_assoc.
  - intros first ty Hf Ht Hb. destruct Hq as [Hid _]. eapply (on_rbsp_reads _ (golomb first ++ golomb ty ++ golomb (pps_id q))); [|done..|].
    + do 2 next_field. by apply reads_golomb.
    + rewrite <- !app_assoc. exact Hb.
Qed.

(** A baseline set of 1280x720. *)
Definition sample_sps : sps_syntax :=
  SpsSyntax 66 0xC0 31 0 None 0 (PocOther 2) 1 false 79 44 true false true None.

Definition sample_pps : pps_syntax := PpsSyntax 1 0 true false (Runs 3 [5]) 0 0 false 0 (-3) 0 2 true false false.

Lemma param_sets_parse_witness :
  sps_ok sample_sps /\ exists s, SpsParser.ParseSps [66; 0xC0; 31; 0xda; 1; 0x40; 0x16; 0xe4] 8 = Some (Some s) /\
  s = sps_state sample_sps false /\ (SpsParser.width s, SpsParser.height s) = (1280, 720).
Proof.
  assert (Hok : sps_ok sample_sps) by (vm_compute; intuition discriminate).
  split; [exact Hok|].
  destruct (param_sets_parse [66; 0xC0; 31; 0xda; 1; 0x40; 0x16; 0xe4] 8 sample_sps false sample_pps [true; false; false]) as (_ & Hs & _).
  - by_compute.
  - by_compute.
  - by_compute.
  - exact Hok.
  - unfold pps_ok, groups_ok. cbn [sample_pps groups]. unfold code_ok, in_u. by_compute.
  - destruct Hs as (s & E & Es & Hw & Hh); [vm_compute; reflexivity|]. exists s. split; [exact E|]. split; [exact Es|].
    rewrite Hw, Hh; [reflexivity|vm_compute; intuition discriminate|left; reflexivity|vm_compute; intuition discriminate].
Defined.

(** Interlaced video of 1920x1080: 68 rows of macroblocks in 34 units, of which the crop offset removes two units
    of four lines.  The parser counts two lines for each. *)
Example interlaced_height :
  let p := SpsSyntax 100 0 40 0 (Some (Chroma 1 false 0 0 false None)) 0 (Poc0 2) 4 false 119 33 false true true (Some (0, 0, 0, 2)) in
  sps_ok p /\ (picture_width p, picture_height p) = (1920, 1080) /\
  (SpsParser.width (sps_state p false), SpsParser.height (sps_state p false)) = (1920, 1084).
Proof. split; [vm_compute; intuition discriminate|by vm_compute]. Qed.

(** Picture parameter sets whose slice groups are mapped one by one: the ids of two groups take two bits and not
    the one bit of ceil(log2(2)). *)
Example slice_group_id_width : PpsParser.slice_group_id_bits 1 = 2 /\ PpsParser.slice_group_id_bits 2 = 3.
Proof. done. Qed.
