(* ===== verification/SpsVui.v ===== *)
(** * Rewriting the VUI of a sequence parameter set

    Model of video/sps_vui_rewriter.h/.cc: a sequence parameter set is copied bit by bit and its VUI
    parameters are changed on the way so that decoders do not reorder frames.  The state of a
    computation is the buffer that is read and the buffer that is written; the contents of the new
    buffer before it is written are arbitrary ([mem]).  The histograms are not modelled. *)

From S2P Require Import Prelude BitBuffer H264Common H264Params.

Import BitBuffer BitBufferWriter H264.

(** The part of api/color_space.h the rewriter uses. *)
Module ColorSpace.
Record t := Color { primaries : Z; transfer : Z; matrix : Z; range : Z }.
Definition PrimaryID_kUnspecified : Z := 2.
Definition TransferID_kUnspecified : Z := 2.
Definition MatrixID_kUnspecified : Z := 2.
Definition RangeID_kFull : Z := 2.
End ColorSpace.

Module SpsVuiRewriter.
Import SpsParser.

Definition kMaxVuiSpsIncrease : Z := 64.

Inductive ParseResult := kFailure | kVuiOk | kVuiRewritten.

(** A computation on the source and the destination. *)
Definition copier (A : Type) : Type := ST (t * t) A.

Definition source {A} (m : ST t A) : copier A := fun s =>
  match m (fst s) with Some (a, src) => Some (a, (src, snd s)) | None => None end.

Definition destination {A} (m : ST t A) : copier A := fun s =>
  match m (snd s) with Some (a, dst) => Some (a, (fst s, dst)) | None => None end.

(** RETURN_FALSE_ON_FAIL of a reader and of a writer. *)
Definition read_or_false {A B} (m : copier (option A)) (k : A -> copier (option B)) : copier (option B) :=
  v ← m; match v with None => mret None | Some v => k v end.

Definition do_or_false {B} (m : copier bool) (k : copier (option B)) : copier (option B) :=
  ok ← m; if ok : bool then k else mret None.

Notation "x ⟸ m ; k" := (read_or_false m (fun x => k)) (at level 20, m at level 100, k at level 200, right associativity) : bits_scope.
Notation "'write' m ; k" := (do_or_false (destination m) k) (at level 20, m at level 100, k at level 200, right associativity) : bits_scope.
Open Scope bits_scope.

(** COPY_BITS and COPY_EXP_GOLOMB *)
Definition copy_bits (bits : Z) : copier (option Z) :=
  tmp ⟸ source (ReadBits bits); write WriteBits tmp bits; mret (Some tmp).

Definition copy_exp_golomb : copier (option Z) :=
  tmp ⟸ source ReadExponentialGolomb; write WriteExponentialGolomb tmp; mret (Some tmp).

(** Copies what a flag says is there. *)
Definition copy_if (flag : Z) (m : copier (option unit)) : copier (option unit) :=
  if flag =? 1 then m else mret (Some tt).

(** The loop of [CopyHrdParameters]. *)
Fixpoint copy_cpbs (fuel : nat) (count : Z) : copier (option unit) :=
  if count <=? 0 then mret (Some tt) else
  match fuel with
  | O => abort
  | S fuel' => _ ⟸ copy_exp_golomb; _ ⟸ copy_exp_golomb; _ ⟸ copy_bits 1; copy_cpbs fuel' (count - 1)
  end.

Definition source_bits : copier Z := fun s => Some (RemainingBitCount (fst s), s).

Definition CopyHrdParameters : copier (option unit) :=
  cbp_cnt_minus1 ⟸ copy_exp_golomb;
  _ ⟸ copy_bits 8;
  n ← source_bits;
  _ ⟸ copy_cpbs (S (Z.to_nat n)) (cbp_cnt_minus1 + 1);
  _ ⟸ copy_bits 5; _ ⟸ copy_bits 5; _ ⟸ copy_bits 5; _ ⟸ copy_bits 5;
  mret (Some tt).

Definition AddBitstreamRestriction (max_num_ref_frames : Z) : copier (option unit) :=
  write WriteBits 1 1;
  write WriteExponentialGolomb 2;
  write WriteExponentialGolomb 1;
  write WriteExponentialGolomb 16;
  write WriteExponentialGolomb 16;
  write WriteExponentialGolomb 0;
  write WriteExponentialGolomb max_num_ref_frames;
  mret (Some tt).

Definition IsDefaultColorSpace (color_space : ColorSpace.t) : bool :=
  negb (ColorSpace.range color_space =? ColorSpace.RangeID_kFull) &&
  (ColorSpace.primaries color_space =? ColorSpace.PrimaryID_kUnspecified) &&
  (ColorSpace.transfer color_space =? ColorSpace.TransferID_kUnspecified) &&
  (ColorSpace.matrix color_space =? ColorSpace.MatrixID_kUnspecified).

Definition full_range (color_space : ColorSpace.t) : Z := Z.b2z (ColorSpace.range color_space =? ColorSpace.RangeID_kFull).

Definition AddVideoSignalTypeInfo (color_space : ColorSpace.t) : copier (option unit) :=
  write WriteBits 5 3;
  write WriteBits (full_range color_space) 1;
  write WriteBits 1 1;
  write WriteUInt8 (ColorSpace.primaries color_space);
  write WriteUInt8 (ColorSpace.transfer color_space);
  write WriteUInt8 (ColorSpace.matrix color_space);
  mret (Some tt).

(** The video signal type: whether it is present, the format, the range flag, whether colours are
    described, and the three numbers that describe them. *)
Record signal_info := Signal {
  signal_present : Z; video_format : Z; full_range_flag : Z; description_present : Z;
  colour_primaries : Z; transfer_characteristics : Z; matrix_coefficients : Z
}.

Definition read_signal : copier (option signal_info) :=
  present ⟸ source (ReadBits 1);
  if present =? 0 then mret (Some (Signal present 5 0 0 3 3 3)) else
  format ⟸ source (ReadBits 3);
  full ⟸ source (ReadBits 1);
  described ⟸ source (ReadBits 1);
  if described =? 0 then mret (Some (Signal present format full described 3 3 3)) else
  p ⟸ source ReadUInt8; tr ⟸ source ReadUInt8; m ⟸ source ReadUInt8;
  mret (Some (Signal present format full described p tr m)).

Definition override_signal (color_space : option ColorSpace.t) (i : signal_info) : signal_info :=
  match color_space with
  | None => i
  | Some c =>
      if IsDefaultColorSpace c then
        Signal 0 (video_format i) (full_range_flag i) (description_present i)
          (colour_primaries i) (transfer_characteristics i) (matrix_coefficients i)
      else
        Signal 1 5 (full_range c)
          (Z.b2z (negb (ColorSpace.primaries c =? ColorSpace.PrimaryID_kUnspecified) ||
                  negb (ColorSpace.transfer c =? ColorSpace.TransferID_kUnspecified) ||
                  negb (ColorSpace.matrix c =? ColorSpace.MatrixID_kUnspecified)))
          (ColorSpace.primaries c) (ColorSpace.transfer c) (ColorSpace.matrix c)
  end.

Definition write_signal (o : signal_info) : copier (option unit) :=
  write WriteBits (signal_present o) 1;
  if signal_present o =? 0 then mret (Some tt) else
  write WriteBits (video_format o) 3;
  write WriteBits (full_range_flag o) 1;
  write WriteBits (description_present o) 1;
  if description_present o =? 0 then mret (Some tt) else
  write WriteUInt8 (colour_primaries o);
  write WriteUInt8 (transfer_characteristics o);
  write WriteUInt8 (matrix_coefficients o);
  mret (Some tt).

Definition signal_changed (i o : signal_info) : bool :=
  negb ((signal_present o =? signal_present i) && (video_format o =? video_format i) &&
        (full_range_flag o =? full_range_flag i) && (description_present o =? description_present i) &&
        (colour_primaries o =? colour_primaries i) && (transfer_characteristics o =? transfer_characteristics i) &&
        (matrix_coefficients o =? matrix_coefficients i)).

(** Whether the VUI was rewritten; [None] where the source returns false. *)
Definition CopyOrRewriteVideoSignalTypeInfo (color_space : option ColorSpace.t) : copier (option bool) :=
  i ⟸ read_signal;
  let o := override_signal color_space i in
  _ ⟸ write_signal o;
  mret (Some (signal_changed i o)).

(** The bitstream restriction at the end of the VUI; whether it was rewritten. *)
Definition rewrite_restriction (sps : SpsState) : copier (option bool) :=
  bitstream_restriction_flag ⟸ source (ReadBits 1);
  write WriteBits 1 1;
  if bitstream_restriction_flag =? 0 then
    _ ⟸ AddBitstreamRestriction (max_num_ref_frames sps); mret (Some true)
  else
  _ ⟸ copy_bits 1;
  _ ⟸ copy_exp_golomb; _ ⟸ copy_exp_golomb; _ ⟸ copy_exp_golomb; _ ⟸ copy_exp_golomb;
  max_num_reorder_frames ⟸ source ReadExponentialGolomb;
  max_dec_frame_buffering ⟸ source ReadExponentialGolomb;
  write WriteExponentialGolomb 0;
  write WriteExponentialGolomb (max_num_ref_frames sps);
  mret (Some (negb (max_num_reorder_frames =? 0) || (max_num_ref_frames sps <? max_dec_frame_buffering))).

Definition CopyAndRewriteVui (sps : SpsState) (color_space : option ColorSpace.t) : copier (option ParseResult) :=
  write WriteBits 1 1;
  if vui_params_present sps =? 0 then
    write WriteBits 0 2;
    let video_signal_type_present_flag :=
      match color_space with Some c => negb (IsDefaultColorSpace c) | None => false end in
    write WriteBits (Z.b2z video_signal_type_present_flag) 1;
    _ ⟸ (match color_space with
         | Some c => if video_signal_type_present_flag then AddVideoSignalTypeInfo c else mret (Some tt)
         | None => mret (Some tt)
         end);
    write WriteBits 0 5;
    write WriteBits 1 1;
    _ ⟸ AddBitstreamRestriction (max_num_ref_frames sps);
    mret (Some kVuiRewritten)
  else
  aspect_ratio_info_present_flag ⟸ copy_bits 1;
  _ ⟸ copy_if aspect_ratio_info_present_flag
         (aspect_ratio_idc ⟸ copy_bits 8;
          if aspect_ratio_idc =? 255 then _ ⟸ copy_bits 32; mret (Some tt) else mret (Some tt));
  overscan_info_present_flag ⟸ copy_bits 1;
  _ ⟸ copy_if overscan_info_present_flag (_ ⟸ copy_bits 1; mret (Some tt));
  signal ← CopyOrRewriteVideoSignalTypeInfo color_space;
  chroma_loc_info_present_flag ⟸ copy_bits 1;
  _ ⟸ copy_if chroma_loc_info_present_flag (_ ⟸ copy_exp_golomb; _ ⟸ copy_exp_golomb; mret (Some tt));
  timing_info_present_flag ⟸ copy_bits 1;
  _ ⟸ copy_if timing_info_present_flag (_ ⟸ copy_bits 32; _ ⟸ copy_bits 32; _ ⟸ copy_bits 1; mret (Some tt));
  nal_hrd_parameters_present_flag ⟸ copy_bits 1;
  _ ⟸ copy_if nal_hrd_parameters_present_flag CopyHrdParameters;
  vcl_hrd_parameters_present_flag ⟸ copy_bits 1;
  _ ⟸ copy_if vcl_hrd_parameters_present_flag CopyHrdParameters;
  _ ⟸ (if (nal_hrd_parameters_present_flag =? 1) || (vcl_hrd_parameters_present_flag =? 1)
       then _ ⟸ copy_bits 1; mret (Some tt) else mret (Some tt));
  _ ⟸ copy_bits 1;
  restriction ⟸ rewrite_restriction sps;
  mret (Some (if restriction || default false signal then kVuiRewritten else kVuiOk)).

(** The loop of [CopyRemainingBits]. *)
Fixpoint copy_remaining (fuel : nat) : copier (option unit) :=
  n ← source_bits;
  if negb (0 <? n) then mret (Some tt) else
  match fuel with
  | O => abort
  | S fuel' => _ ⟸ copy_bits (Z.min 32 n); copy_remaining fuel'
  end.

Definition CopyRemainingBits : copier (option unit) :=
  n ← source_bits;
  _ ⟸ (if (0 <? n) && negb (n mod 8 =? 0) then _ ⟸ copy_bits (n mod 8); mret (Some tt) else mret (Some tt));
  n ← source_bits;
  copy_remaining (Z.to_nat n).

(** The copy behind the VUI and the padding; the bytes written. *)
Definition finish_copy (length : Z) : copier (option (list Z)) :=
  _ ⟸ CopyRemainingBits;
  w ← destination get;
  let '(byte_offset, bit_offset) := GetCurrentOffset w in
  byte_offset ←
    (if 0 <? bit_offset then destination (WriteBits 0 (8 - bit_offset)) ;; mret (byte_offset + 1) else mret byte_offset);
  dcheck (byte_offset <=? length + kMaxVuiSpsIncrease) ;;
  w ← destination get;
  mret (Some (take (Z.to_nat byte_offset) (bytes_ w))).

(** The result, the state of the parameter set and what the destination holds then. *)
Definition ParseAndRewriteSps (buffer : list Z) (length : Z) (sps : option SpsState) (color_space : option ColorSpace.t)
    (dest mem : list Z) : option (ParseResult * option SpsState * list Z) :=
  rbsp_buffer ← ParseRbsp buffer length;
  source_buffer ← construct rbsp_buffer (len rbsp_buffer);
  '(sps_state, source_buffer) ← ParseSpsUpToVui source_buffer;
  match sps_state with
  | None => Some (kFailure, sps, dest)
  | Some state =>
      check (len mem =? length + kMaxVuiSpsIncrease) ;;
      let '(byte_offset, bit_offset) := GetCurrentOffset source_buffer in
      let copied := byte_offset + (if 0 <? bit_offset then 1 else 0) in
      check ((copied <=? len rbsp_buffer) && (copied <=? len mem)) ;;
      let out_buffer := take (Z.to_nat copied) rbsp_buffer ++ drop (Z.to_nat copied) mem in
      sps_writer ← construct out_buffer (len out_buffer);
      let '(byte_offset, bit_offset) := if bit_offset =? 0 then (byte_offset - 1, 7) else (byte_offset, bit_offset - 1) in
      '(_, sps_writer) ← Seek byte_offset bit_offset sps_writer;
      '(vui_updated, bufs) ← CopyAndRewriteVui state color_space (source_buffer, sps_writer);
      match vui_updated with
      | None | Some kFailure => Some (kFailure, Some state, dest)
      | Some kVuiOk => Some (kVuiOk, Some state, dest)
      | Some kVuiRewritten =>
          '(out, _) ← finish_copy length bufs;
          match out with
          | None => Some (kFailure, Some state, dest)
          | Some out => dest' ← WriteRbsp out (len out) dest; Some (kVuiRewritten, Some state, dest')
          end
      end
  end.

(** The loop of [ParseOutgoingBitstreamAndRewriteSps]: the output buffer, the offsets and lengths of the
    units in it; [prev_end] is the end of the unit before.  [mems] are the new buffers. *)
Fixpoint rewrite_nalus (buffer : list Z) (color_space : option ColorSpace.t) (mem : nat -> list Z) (i : nat) (nalus : list (Z * Z))
    (prev_end : Z) (output_buffer : list Z) : option (list Z * list (Z * Z)) :=
  match nalus with
  | [] => Some (output_buffer, [])
  | (nalu_offset, nalu_length) :: rest =>
      check ((0 <=? prev_end) && (prev_end <=? nalu_offset) && (0 <=? nalu_length) && (nalu_offset + nalu_length <=? len buffer)) ;;
      let nalu_ptr := ptr_add buffer nalu_offset in
      let output_buffer := output_buffer ++ take (Z.to_nat (nalu_offset - prev_end)) (ptr_add buffer prev_end) in
      header ← deref nalu_ptr;
      rewritten ←
        (if ParseNaluType header =? kSps then
           check (kNaluTypeSize <=? nalu_length) ;;
           '(result, _, output_nalu) ← ParseAndRewriteSps (ptr_add nalu_ptr kNaluTypeSize) (nalu_length - kNaluTypeSize) None
              color_space [header] (mem i);
           Some (match result with kVuiRewritten => Some output_nalu | _ => None end)
         else Some None);
      let nalu := default (take (Z.to_nat nalu_length) nalu_ptr) rewritten in
      '(out, l) ← rewrite_nalus buffer color_space mem (S i) rest (nalu_offset + nalu_length) (output_buffer ++ nalu);
      Some (out, (len output_buffer, len nalu) :: l)
  end.

Definition ParseOutgoingBitstreamAndRewriteSps (buffer : list Z) (nalus : list (Z * Z)) (color_space : option ColorSpace.t)
    (mem : nat -> list Z) (output_buffer : list Z) : option (list Z * list (Z * Z)) :=
  rewrite_nalus buffer color_space mem 0 nalus 0 output_buffer.

End SpsVuiRewriter.
