(* ===== verification/SpsRewrite.v ===== *)
(** * What the rewriter does to the VUI

    The VUI parameters of the H.264 standard (E.1.1) as data and as bits, and the rewriter as a function
    on them: it reads the bits of a set with VUI parameters and writes those of the set with the
    restriction of frame reordering, everything else unchanged.  [copies m x y a] says that [m] reads [x]
    from the source, writes [y] to the destination and returns [a]. *)

From S2P Require Import Prelude BitBuffer BitCodec H264Common H264Params SpsSyntax SpsVui.

Import BitBuffer BitBufferWriter H264 SpsVuiRewriter SpsParser.

Definition copies {A} (m : copier A) (x y : list bool) (a : A) : Prop :=
  forall s w d r d' old r', position s d (x ++ r) -> position w d' (old ++ r') -> length old = length y ->
  exists s' w', m (s, w) = Some (a, (s', w')) /\ bytes_ s' = bytes_ s /\ len (bytes_ w') = len (bytes_ w) /\
    position s' (d ++ x) r /\ position w' (d' ++ y) r'.

Lemma copies_ret {A} (a : A) : copies (mret a) [] [] a.
Proof. intros s w d r d' old r' Hs Hw Ho. destruct old; [|done]. exists s, w. by rewrite !app_nil_r. Qed.

Lemma copies_source {A} (m : ST t A) x a : reads m x a -> copies (source m) x [] a.
Proof.
  intros Hm s w d r d' old r' Hs Hw Ho. destruct old; [|done]. destruct (Hm s d r Hs) as (s' & E & B & H).
  exists s', w. unfold source. cbn [fst snd]. rewrite E, app_nil_r. done.
Qed.

Lemma copies_destination (m : ST t bool) y : writes m y -> copies (destination m) [] y true.
Proof.
  intros Hm s w d r d' old r' Hs Hw Ho. destruct (Hm w d' old r' Hw Ho) as (w' & E & H & L).
  exists s, w'. unfold destination. cbn [fst snd]. rewrite E, app_nil_r. done.
Qed.

Lemma copies_bind {A B} (m : copier A) (k : A -> copier B) x1 x2 y1 y2 a b :
  copies m x1 y1 a -> copies (k a) x2 y2 b -> copies (m ≫= k) (x1 ++ x2) (y1 ++ y2) b.
Proof.
  intros Hm Hk s w d r d' old r' Hs Hw Ho. rewrite length_app in Ho. rewrite <- app_assoc in Hs.
  rewrite <- (take_drop (length y1) old), <- app_assoc in Hw.
  destruct (Hm s w d _ d' _ _ Hs Hw) as (s1 & w1 & E1 & B1 & L1 & H1 & W1); [rewrite length_take; lia|].
  destruct (Hk s1 w1 _ _ _ _ _ H1 W1) as (s2 & w2 & E2 & B2 & L2 & H2 & W2); [rewrite length_drop; lia|].
  exists s2, w2. rewrite (ST_bind_ret _ _ _ _ _ E1), !app_assoc. split; [done|]. split; [congruence|]. split; [lia|done].
Qed.

Lemma copies_try {A B} (m : copier (option A)) (k : A -> copier (option B)) x1 x2 y1 y2 a b :
  copies m x1 y1 (Some a) -> copies (k a) x2 y2 b -> copies (read_or_false m k) (x1 ++ x2) (y1 ++ y2) b.
Proof. intros Hm Hk. by eapply copies_bind. Qed.

Lemma copies_read {A B} (m : ST t (option A)) (k : A -> copier (option B)) x1 x2 y a b :
  reads m x1 (Some a) -> copies (k a) x2 y b -> copies (read_or_false (source m) k) (x1 ++ x2) y b.
Proof. intros Hm Hk. apply (copies_try _ _ x1 x2 [] y a b); [by apply copies_source|done]. Qed.

Lemma copies_write {B} (m : ST t bool) (k : copier (option B)) x y1 y2 b :
  writes m y1 -> copies k x y2 b -> copies (do_or_false (destination m) k) x (y1 ++ y2) b.
Proof. intros Hm Hk. apply (copies_bind _ _ [] x y1 y2 true b); [by apply copies_destination|done]. Qed.

Lemma copies_eq {A} (m : copier A) x y a x' y' : copies m x y a -> x = x' -> y = y' -> copies m x' y' a.
Proof. by intros H -> ->. Qed.

(** A reader whose result is all that is left to do. *)
Lemma copies_last {A B} (m : copier (option A)) (k : A -> copier (option B)) x y a b :
  copies m x y (Some a) -> copies (k a) [] [] b -> copies (read_or_false m k) x y b.
Proof. intros Hm Hk. rewrite <- (app_nil_r x), <- (app_nil_r y). by eapply copies_try. Qed.

Lemma copy_bits_copies x : 0 < len x <= 32 -> copies (copy_bits (len x)) x x (Some (bits_val x)).
Proof.
  intros Hx. unfold copy_bits. eapply copies_eq; [|apply app_nil_r|apply app_nil_r].
  eapply copies_read; [by apply reads_ReadBits|]. cbn beta. eapply copies_write; [|apply copies_ret].
  pose proof (writes_bits (length x) (bits_val x)) as H. rewrite zbits_val in H by done. apply H. unfold len in Hx. lia.
Qed.

Lemma copy_field_copies n v : (0 < n <= 32)%nat -> in_u (Z.of_nat n) v -> copies (copy_bits (Z.of_nat n)) (zbits n v) (zbits n v) (Some v).
Proof.
  intros Hn Hv. pose proof (copy_bits_copies (zbits n v)) as H. rewrite len_zbits, bits_val_exact in H by done. apply H. lia.
Qed.

Lemma copy_flag_copies b : copies (copy_bits 1) [b] [b] (Some (Z.b2z b)).
Proof. pose proof (copy_bits_copies [b] ltac:(done)) as H. by destruct b. Qed.

Lemma copy_golomb_copies v : code_ok v -> copies copy_exp_golomb (golomb v) (golomb v) (Some v).
Proof.
  intros Hv. unfold copy_exp_golomb. eapply copies_eq; [|apply app_nil_r|apply app_nil_r].
  eapply copies_read; [by apply reads_golomb|]. cbn beta. eapply copies_write; [|apply copies_ret]. by apply as_writes, as_golomb.
Qed.

(** ** The syntax of the VUI *)

Definition opt_code {A} (code : A -> list bool) (o : option A) : list bool :=
  match o with None => [false] | Some a => true :: code a end.

Definition opt_ok {A} (ok : A -> Prop) (o : option A) : Prop := match o with None => True | Some a => ok a end.

(** A sample aspect ratio; 255 announces one of 16 and 16 bits. *)
Definition aspect_ok (a : Z * Z) : Prop := byte_ok a.1 /\ in_u 32 a.2.
Definition aspect_code (a : Z * Z) : list bool := zbits 8 a.1 ++ if a.1 =? 255 then zbits 32 a.2 else [].

(** The colours: their primaries, transfer and matrix. *)
Record colours := Colours { cprimaries : Z; ctransfer : Z; cmatrix : Z }.
Definition colours_ok (c : colours) : Prop := byte_ok (cprimaries c) /\ byte_ok (ctransfer c) /\ byte_ok (cmatrix c).
Definition colours_code (c : colours) : list bool := zbits 8 (cprimaries c) ++ zbits 8 (ctransfer c) ++ zbits 8 (cmatrix c).

Record signal_syntax := SignalType { sformat : Z; sfull : bool; scolours : option colours }.
Definition signal_ok (s : signal_syntax) : Prop := in_u 3 (sformat s) /\ opt_ok colours_ok (scolours s).
Definition signal_code (s : signal_syntax) : list bool := zbits 3 (sformat s) ++ [sfull s] ++ opt_code colours_code (scolours s).

Definition chroma_loc_ok (c : Z * Z) : Prop := code_ok c.1 /\ code_ok c.2.
Definition chroma_loc_code (c : Z * Z) : list bool := golomb c.1 ++ golomb c.2.

Definition timing_ok (x : Z * Z * bool) : Prop := in_u 32 x.1.1 /\ in_u 32 x.1.2.
Definition timing_code (x : Z * Z * bool) : list bool := zbits 32 x.1.1 ++ zbits 32 x.1.2 ++ [x.2].

(** The parameters of a hypothetical reference decoder, with one buffer at least. *)
Record hrd_syntax := Hrd { scales : Z; buffers : list (Z * Z * bool); delays : list Z }.
Definition hrd_ok (h : hrd_syntax) : Prop :=
  byte_ok (scales h) /\ buffers h <> [] /\ code_ok (len (buffers h) - 1) /\
  Forall (fun b => code_ok b.1.1 /\ code_ok b.1.2) (buffers h) /\ length (delays h) = 4%nat /\ Forall (in_u 5) (delays h).
Definition buffer_code (b : Z * Z * bool) : list bool := golomb b.1.1 ++ golomb b.1.2 ++ [b.2].
Definition hrd_code (h : hrd_syntax) : list bool :=
  golomb (len (buffers h) - 1) ++ zbits 8 (scales h) ++ mjoin (buffer_code <$> buffers h) ++ mjoin (zbits 5 <$> delays h).

Record restriction_syntax := Restriction {
  over_boundaries : bool; bytes_denom : Z; bits_denom : Z; mv_horizontal : Z; mv_vertical : Z; reorder_frames : Z; frame_buffering : Z
}.
Definition restriction_ok (r : restriction_syntax) : Prop :=
  code_ok (bytes_denom r) /\ code_ok (bits_denom r) /\ code_ok (mv_horizontal r) /\ code_ok (mv_vertical r) /\
  code_ok (reorder_frames r) /\ code_ok (frame_buffering r).
Definition restriction_code (r : restriction_syntax) : list bool :=
  [over_boundaries r] ++ golomb (bytes_denom r) ++ golomb (bits_denom r) ++ golomb (mv_horizontal r) ++ golomb (mv_vertical r) ++
  golomb (reorder_frames r) ++ golomb (frame_buffering r).

Record vui_syntax := Vui {
  aspect : option (Z * Z); overscan : option bool; signal : option signal_syntax; chroma_loc : option (Z * Z);
  timing : option (Z * Z * bool); nal_hrd : option hrd_syntax; vcl_hrd : option hrd_syntax; low_delay : bool; pic_struct : bool;
  restriction : option restriction_syntax
}.

Definition vui_ok (v : vui_syntax) : Prop :=
  opt_ok aspect_ok (aspect v) /\ opt_ok signal_ok (signal v) /\ opt_ok chroma_loc_ok (chroma_loc v) /\ opt_ok timing_ok (timing v) /\
  opt_ok hrd_ok (nal_hrd v) /\ opt_ok hrd_ok (vcl_hrd v) /\ opt_ok restriction_ok (restriction v).

Definition present {A} (o : option A) : bool := match o with None => false | Some _ => true end.

(** The fields before the signal type and those between it and the restriction. *)
Definition vui_front (v : vui_syntax) : list bool := opt_code aspect_code (aspect v) ++ opt_code (fun b => [b]) (overscan v).

Definition vui_middle (v : vui_syntax) : list bool :=
  opt_code chroma_loc_code (chroma_loc v) ++ opt_code timing_code (timing v) ++
  opt_code hrd_code (nal_hrd v) ++ opt_code hrd_code (vcl_hrd v) ++
  (if present (nal_hrd v) || present (vcl_hrd v) then [low_delay v] else []) ++ [pic_struct v].

Definition vui_code (v : vui_syntax) : list bool :=
  vui_front v ++ opt_code signal_code (signal v) ++ vui_middle v ++ opt_code restriction_code (restriction v).

(** ** What becomes of it *)

(** The restriction of a set with [n] reference frames. *)
Definition new_restriction (n : Z) (r : option restriction_syntax) : restriction_syntax :=
  match r with
  | None => Restriction true 2 1 16 16 0 n
  | Some r => Restriction (over_boundaries r) (bytes_denom r) (bits_denom r) (mv_horizontal r) (mv_vertical r) 0 n
  end.

Definition restriction_changed (n : Z) (r : option restriction_syntax) : bool :=
  match r with None => true | Some r => negb (reorder_frames r =? 0) || (n <? frame_buffering r) end.

(** The signal type of a colour space, when one is given. *)
Definition space_colours (c : ColorSpace.t) : colours :=
  Colours (ColorSpace.primaries c) (ColorSpace.transfer c) (ColorSpace.matrix c).

Definition unspecified : colours := Colours 2 2 2.

Global Instance colours_eq_dec : EqDecision colours.
Proof. solve_decision. Defined.

Definition new_signal (color : option ColorSpace.t) (s : option signal_syntax) : option signal_syntax :=
  match color with
  | None => s
  | Some c =>
      if IsDefaultColorSpace c then None else
      Some (SignalType 5 (ColorSpace.range c =? 2) (if bool_decide (space_colours c = unspecified) then None else Some (space_colours c)))
  end.

Definition rewrite_vui (n : Z) (color : option ColorSpace.t) (v : vui_syntax) : vui_syntax :=
  Vui (aspect v) (overscan v) (new_signal color (signal v)) (chroma_loc v) (timing v) (nal_hrd v) (vcl_hrd v) (low_delay v) (pic_struct v)
    (Some (new_restriction n (restriction v))).

(** The VUI of a set that has none. *)
Definition added_vui (n : Z) (color : option ColorSpace.t) : vui_syntax :=
  Vui None None
    (match color with
     | None => None
     | Some c => if IsDefaultColorSpace c then None else Some (SignalType 5 (ColorSpace.range c =? 2) (Some (space_colours c)))
     end) None None None None false false (Some (new_restriction n None)).

Definition color_ok (c : ColorSpace.t) : Prop := colours_ok (space_colours c).

(** ** The copier on the syntax *)

(** A field that is copied, in front of others. *)
Lemma copies_step {A B} (m : copier (option A)) (k : A -> copier (option B)) z x y a b :
  copies m z z (Some a) -> copies (k a) x y b -> copies (read_or_false m k) (z ++ x) (z ++ y) b.
Proof. apply copies_try. Qed.

Lemma copies_opt {A B} (code : A -> list bool) (o : option A) m (k : Z -> copier (option B)) x y b :
  (forall a, o = Some a -> copies m (code a) (code a) (Some tt)) -> copies (k (Z.b2z (present o))) x y b ->
  copies (read_or_false (copy_bits 1) (fun f => read_or_false (copy_if f m) (fun _ => k f))) (opt_code code o ++ x) (opt_code code o ++ y) b.
Proof.
  intros Hm Hk. destruct o as [a|]; cbn [opt_code present] in *.
  - apply (copies_step _ _ [true] _ _ (Z.b2z true)); [apply copy_flag_copies|]. cbn beta. eapply copies_step; [by apply Hm|done].
  - apply (copies_step _ _ [false] _ _ (Z.b2z false)); [apply copy_flag_copies|]. cbn beta. apply (copies_try _ _ [] x [] y tt); [apply copies_ret|done].
Qed.

(** A loop with the bits that are left as its fuel. *)
Lemma copies_fuel {A} (k : Z -> copier A) x y a : (forall n, len x <= n -> copies (k n) x y a) -> copies (source_bits ≫= k) x y a.
Proof.
  intros Hk s w d r d' old r' Hs Hw Ho. unfold source_bits, mbind, ST_bind. cbn [fst].
  eapply Hk; [|done..]. rewrite (remaining_bits _ _ _ Hs), len_app. pose proof (len_nonneg r). lia.
Qed.

Lemma copies_done {A B} (m : copier (option A)) z a (b : option B) : copies m z z (Some a) -> copies (read_or_false m (fun _ => mret b)) z z b.
Proof. intros Hm. eapply copies_last; [exact Hm|apply copies_ret]. Qed.

(** Copies the next field. *)
Ltac copy_field :=
  lazymatch goal with
  | |- copies (read_or_false copy_exp_golomb _) (golomb _ ++ _) _ _ => eapply copies_step; [apply copy_golomb_copies; try assumption|]
  | |- copies (read_or_false (copy_bits 1) _) ([_] ++ _) _ _ => eapply copies_step; [apply copy_flag_copies|]
  | |- copies (read_or_false (copy_bits _) _) (zbits ?n _ ++ _) _ _ => eapply copies_step; [apply (copy_field_copies n); [lia|try assumption]|]
  | |- copies (read_or_false copy_exp_golomb _) (golomb _) _ _ => eapply copies_done; apply copy_golomb_copies; assumption
  | |- copies (read_or_false (copy_bits 1) _) [_] _ _ => eapply copies_done; apply copy_flag_copies
  | |- copies (read_or_false (copy_bits _) _) (zbits ?n _) _ _ => eapply copies_done; apply (copy_field_copies n); [lia|assumption]
  end; cbn beta.

Lemma buffer_code_nonempty b : buffer_code b <> [].
Proof. unfold buffer_code. intros E. apply app_eq_nil in E as [E _]. by apply golomb_not_nil in E. Qed.

Lemma copy_cpbs_copies bs : Forall (fun b => code_ok b.1.1 /\ code_ok b.1.2) bs -> forall fuel, (length bs <= fuel)%nat ->
  copies (copy_cpbs fuel (len bs)) (mjoin (buffer_code <$> bs)) (mjoin (buffer_code <$> bs)) (Some tt).
Proof.
  induction 1 as [|b bs [Hr Hs] Hbs IH]; intros fuel Hf; [destruct fuel; apply copies_ret|].
  destruct fuel as [|fuel]; cbn [length] in Hf; [lia|]. cbn [copy_cpbs]. rewrite len_cons. pose proof (len_nonneg bs).
  rewrite (proj2 (Z.leb_gt _ 0)) by lia. rewrite mjoin_fmap_cons. unfold buffer_code at 1 3. rewrite <- !app_assoc.
  do 3 copy_field. replace (1 + len bs - 1) with (len bs) by lia. apply IH. lia.
Qed.

Lemma copy_hrd_copies h : hrd_ok h -> copies CopyHrdParameters (hrd_code h) (hrd_code h) (Some tt).
Proof.
  intros (Hs & Hne & Hn & Hb & Hl & Hd). unfold CopyHrdParameters, hrd_code. do 2 copy_field. apply copies_fuel. intros n Hfuel.
  eapply copies_step.
  - replace (len (buffers h) - 1 + 1) with (len (buffers h)) by lia. apply copy_cpbs_copies; [done|].
    rewrite len_app in Hfuel. pose proof (len_nonneg (mjoin (zbits 5 <$> delays h))).
    pose proof (join_length_ge (buffer_code <$> buffers h)) as Hj. rewrite len_fmap in Hj.
    unfold len in *. specialize (Hj ltac:(apply Forall_fmap, Forall_forall; intros b _; apply buffer_code_nonempty)). lia.
  - destruct (delays h) as [|d1 [|d2 [|d3 [|d4 [|]]]]]; try done. repeat (apply Forall_cons in Hd as [? Hd]).
    rewrite !mjoin_fmap_cons. cbn [fmap list_fmap mjoin list_join]. rewrite app_nil_r. do 4 copy_field.
Qed.

(** The signal type as the rewriter reads it. *)
Definition signal_values (s : option signal_syntax) : signal_info :=
  match s with
  | None => Signal 0 5 0 0 3 3 3
  | Some s =>
      let c := default (Colours 3 3 3) (scolours s) in
      Signal 1 (sformat s) (Z.b2z (sfull s)) (Z.b2z (present (scolours s))) (cprimaries c) (ctransfer c) (cmatrix c)
  end.

Lemma read_signal_copies s : opt_ok signal_ok s -> copies read_signal (opt_code signal_code s) [] (Some (signal_values s)).
Proof.
  intros Hs. unfold read_signal. destruct s as [s|]; cbn [opt_code].
  - destruct Hs as [Hf Hc]. apply (copies_read _ _ [true] _ _ (Z.b2z true)); [apply reads_flag|]. cbn [Z.b2z Z.eqb]. unfold signal_code.
    eapply copies_read; [apply (reads_bits 3); [lia|done]|]. cbn beta.
    eapply copies_read; [apply reads_flag|]. cbn beta. unfold signal_values. destruct (scolours s) as [c|]; cbn [opt_code present default].
    + destruct Hc as (Hp & Ht & Hm). apply (copies_read _ _ [true] _ _ (Z.b2z true)); [apply reads_flag|]. cbn [Z.b2z Z.eqb]. unfold colours_code.
      do 2 (eapply copies_read; [by apply reads_ReadUInt8|]). eapply copies_last; [by apply copies_source, reads_ReadUInt8|]. apply copies_ret.
    + eapply copies_last; [apply copies_source, (reads_flag false)|]. apply copies_ret.
  - eapply copies_last; [apply copies_source, (reads_flag false)|]. apply copies_ret.
Qed.

Lemma writes_flag b : writes (WriteBits (Z.b2z b) 1) [b].
Proof. pose proof (writes_bits 1 (Z.b2z b) ltac:(lia)) as H. by destruct b. Qed.

Lemma writes_field n v : (0 < n <= 64)%nat -> writes (WriteBits v (Z.of_nat n)) (zbits n v).
Proof. apply writes_bits. Qed.

Lemma writes_WriteUInt8 v : writes (WriteUInt8 v) (zbits 8 v).
Proof. apply (writes_bits 8). lia. Qed.

Lemma writes_golomb v : code_ok v -> writes (WriteExponentialGolomb v) (golomb v).
Proof. intros Hv. by apply as_writes, as_golomb. Qed.

(** The last field that is written. *)
Lemma copies_write_last {B} (m : ST t bool) (b : option B) y : writes m y -> copies (do_or_false (destination m) (mret b)) [] y b.
Proof. intros Hm. eapply copies_eq; [eapply copies_write; [exact Hm|apply copies_ret]|done|apply app_nil_r]. Qed.

(** What is written stands for a signal type. *)
Definition stands_for (o : signal_info) (s : option signal_syntax) : Prop :=
  match s with
  | None => signal_present o = 0
  | Some s =>
      signal_present o = 1 /\ video_format o = sformat s /\ full_range_flag o = Z.b2z (sfull s) /\ description_present o = Z.b2z (present (scolours s)) /\
      opt_ok (fun c => colour_primaries o = cprimaries c /\ transfer_characteristics o = ctransfer c /\ matrix_coefficients o = cmatrix c) (scolours s)
  end.

Lemma write_signal_copies o s : stands_for o s -> copies (write_signal o) [] (opt_code signal_code s) (Some tt).
Proof.
  intros H. unfold write_signal. destruct s as [s|]; cbn [opt_code stands_for] in *.
  - destruct H as (-> & -> & -> & -> & Hc). apply (copies_write _ _ _ [true]); [apply (writes_flag true)|]. cbn [Z.eqb]. unfold signal_code.
    eapply copies_write; [by apply (writes_field 3); lia|]. eapply copies_write; [apply writes_flag|].
    destruct (scolours s) as [c|]; cbn [opt_code present Z.b2z Z.eqb].
    + destruct Hc as (-> & -> & ->). apply (copies_write _ _ _ [true]); [apply (writes_flag true)|]. unfold colours_code.
      do 2 (eapply copies_write; [apply writes_WriteUInt8|]). apply copies_write_last, writes_WriteUInt8.
    + apply copies_write_last, (writes_flag false).
  - rewrite H. apply copies_write_last, (writes_flag false).
Qed.

Lemma override_stands color s : stands_for (override_signal color (signal_values s)) (new_signal color s).
Proof.
  destruct color as [c|]; cbn [override_signal new_signal].
  - destruct (IsDefaultColorSpace c); [done|]. cbn [stands_for sformat sfull scolours signal_present video_format full_range_flag
      description_present colour_primaries transfer_characteristics matrix_coefficients].
    repeat (split; [done|]). destruct c as [p tr m r]. unfold ColorSpace.PrimaryID_kUnspecified, ColorSpace.TransferID_kUnspecified, ColorSpace.MatrixID_kUnspecified, unspecified, space_colours. cbn [ColorSpace.primaries ColorSpace.transfer ColorSpace.matrix].
    case_bool_decide as E; cbn [present opt_ok].
    + injection E as -> -> ->. done.
    + split; [|done]. destruct (Z.eqb_spec p 2) as [->|], (Z.eqb_spec tr 2) as [->|], (Z.eqb_spec m 2) as [->|]; done.
  - destruct s as [s|]; [|done]. cbn. repeat (split; [done|]). by destruct (scolours s).
Qed.

Definition new_signal_changed (color : option ColorSpace.t) (s : option signal_syntax) : bool :=
  signal_changed (signal_values s) (override_signal color (signal_values s)).

Lemma signal_copies color s : opt_ok signal_ok s ->
  copies (CopyOrRewriteVideoSignalTypeInfo color) (opt_code signal_code s) (opt_code signal_code (new_signal color s)) (Some (new_signal_changed color s)).
Proof.
  intros Hs. unfold CopyOrRewriteVideoSignalTypeInfo. rewrite <- (app_nil_r (opt_code signal_code s)).
  apply (copies_try _ _ _ _ [] _ (signal_values s)); [by apply read_signal_copies|]. cbv zeta.
  eapply copies_last; [apply write_signal_copies, override_stands|]. apply copies_ret.
Qed.

Lemma add_restriction_copies n : code_ok n -> copies (AddBitstreamRestriction n) [] (restriction_code (new_restriction n None)) (Some tt).
Proof.
  intros Hn. unfold AddBitstreamRestriction, restriction_code, new_restriction.
  cbn [over_boundaries bytes_denom bits_denom mv_horizontal mv_vertical reorder_frames frame_buffering].
  eapply copies_write; [apply (writes_flag true)|]. do 5 (eapply copies_write; [by apply writes_golomb|]). by apply copies_write_last, writes_golomb.
Qed.

Lemma restriction_copies sps r : code_ok (max_num_ref_frames sps) -> opt_ok restriction_ok r ->
  copies (rewrite_restriction sps) (opt_code restriction_code r) (true :: restriction_code (new_restriction (max_num_ref_frames sps) r))
    (Some (restriction_changed (max_num_ref_frames sps) r)).
Proof.
  intros Hn Hr. unfold rewrite_restriction. destruct r as [r|]; cbn [opt_code].
  - destruct Hr as (H1 & H2 & H3 & H4 & H5 & H6). apply (copies_read _ _ [true] _ _ (Z.b2z true)); [apply reads_flag|]. cbn [Z.b2z Z.eqb].
    apply (copies_write _ _ _ [true]); [apply (writes_flag true)|]. unfold restriction_code, new_restriction.
    cbn [over_boundaries bytes_denom bits_denom mv_horizontal mv_vertical reorder_frames frame_buffering]. do 5 copy_field.
    eapply copies_read; [by apply reads_golomb|]. cbn beta. rewrite <- (app_nil_r (golomb (frame_buffering r))). eapply copies_read; [by apply reads_golomb|]. cbn beta.
    eapply copies_write; [by apply writes_golomb|]. by apply copies_write_last, writes_golomb.
  - apply (copies_read _ _ [false] [] _ (Z.b2z false)); [apply reads_flag|]. cbn [Z.b2z Z.eqb].
    apply (copies_write _ _ _ [true]); [apply (writes_flag true)|]. eapply copies_last; [|apply copies_ret].
    apply add_restriction_copies. done.
Qed.

Definition vui_changed (n : Z) (color : option ColorSpace.t) (v : vui_syntax) : bool :=
  restriction_changed n (restriction v) || new_signal_changed color (signal v).

Lemma vui_copies sps color v : vui_params_present sps = 1 -> code_ok (max_num_ref_frames sps) -> vui_ok v ->
  copies (CopyAndRewriteVui sps color) (vui_code v) (true :: vui_code (rewrite_vui (max_num_ref_frames sps) color v))
    (Some (if vui_changed (max_num_ref_frames sps) color v then kVuiRewritten else kVuiOk)).
Proof.
  intros Hp Hn (Ha & Hs & Hc & Ht & Hh & Hv & Hr). unfold CopyAndRewriteVui. rewrite Hp. cbn [Z.eqb].
  apply (copies_write _ _ _ [true]); [apply (writes_flag true)|].
  unfold vui_code, vui_front, vui_middle, rewrite_vui. cbn [aspect overscan signal chroma_loc timing nal_hrd vcl_hrd low_delay pic_struct restriction].
  rewrite <- !app_assoc. apply copies_opt.
  { intros [idc ext] Ea. rewrite Ea in Ha. destruct Ha as [Hi He]. unfold aspect_code. cbn [fst snd] in *. copy_field.
    destruct (Z.eqb_spec idc 255); [copy_field|apply copies_ret]. }
  apply copies_opt; [intros b _; copy_field|].
  eapply copies_bind; [by apply signal_copies|]. cbn beta. apply copies_opt.
  { intros [x y] E. rewrite E in Hc. destruct Hc. unfold chroma_loc_code. do 2 copy_field. }
  apply copies_opt.
  { intros [[x y] z] E. rewrite E in Ht. destruct Ht. unfold timing_code. do 3 copy_field. }
  apply copies_opt; [intros h E; rewrite E in Hh; by apply copy_hrd_copies|].
  apply copies_opt; [intros h E; rewrite E in Hv; by apply copy_hrd_copies|].
  eapply (copies_step _ _ _ _ _ tt).
  { destruct (present (nal_hrd v)), (present (vcl_hrd v)); cbn; try copy_field; apply copies_ret. }
  copy_field. eapply copies_last; [by apply restriction_copies|]. cbn [default]. apply copies_ret.
Qed.

Lemma add_vui_copies sps color : vui_params_present sps = 0 -> code_ok (max_num_ref_frames sps) ->
  copies (CopyAndRewriteVui sps color) [] (true :: vui_code (added_vui (max_num_ref_frames sps) color)) (Some kVuiRewritten).
Proof.
  intros Hp Hn. unfold CopyAndRewriteVui. rewrite Hp. cbn [Z.eqb].
  apply (copies_write _ _ _ [true]); [apply (writes_flag true)|].
  apply (copies_write _ _ _ [false; false]); [by apply (writes_field 2); lia|].
  change (vui_middle _ ++ opt_code restriction_code _) with
    ([false; false; false; false; false] ++ [true] ++ restriction_code (new_restriction (max_num_ref_frames sps) None)).
  assert (Hend : copies (do_or_false (destination (WriteBits 0 5)) (do_or_false (destination (WriteBits 1 1))
    (read_or_false (AddBitstreamRestriction (max_num_ref_frames sps)) (fun _ => mret (Some kVuiRewritten))))) []
    ([false; false; false; false; false] ++ [true] ++ restriction_code (new_restriction (max_num_ref_frames sps) None)) (Some kVuiRewritten)).
  { eapply copies_write; [by apply (writes_field 5); lia|]. eapply copies_write; [apply (writes_flag true)|].
    eapply copies_last; [by apply add_restriction_copies|apply copies_ret]. }
  destruct color as [c|]; cbn [added_vui signal]; [destruct (IsDefaultColorSpace c); cbn [negb Z.b2z]|].
  - apply (copies_write _ _ _ [false]); [apply (writes_flag false)|]. by apply (copies_try _ _ [] [] [] _ tt); [apply copies_ret|].
  - cbn [opt_code]. apply (copies_write _ _ _ [true]); [apply (writes_flag true)|]. apply (copies_try _ _ [] [] _ _ tt); [|done].
    unfold AddVideoSignalTypeInfo, signal_code. cbn [sformat sfull scolours opt_code].
    eapply copies_write; [by apply (writes_field 3); lia|]. eapply copies_write; [apply writes_flag|].
    apply (copies_write _ _ _ [true]); [apply (writes_flag true)|]. do 2 (eapply copies_write; [apply writes_WriteUInt8|]).
    apply copies_write_last, writes_WriteUInt8.
  - apply (copies_write _ _ _ [false]); [apply (writes_flag false)|]. by apply (copies_try _ _ [] [] [] _ tt); [apply copies_ret|].
Qed.

(** ** The rest of the set *)

(** [m] copies everything that is left. *)
Definition copies_all (m : copier (option unit)) : Prop :=
  forall s w d r d' old r', position s d r -> position w d' (old ++ r') -> length old = length r ->
  exists s' w', m (s, w) = Some (Some tt, (s', w')) /\ len (bytes_ w') = len (bytes_ w) /\ position w' (d' ++ r) r'.

Lemma copy_remaining_all fuel : forall s w d r d' old r', (length r <= fuel)%nat ->
  position s d r -> position w d' (old ++ r') -> length old = length r ->
  exists s' w', copy_remaining fuel (s, w) = Some (Some tt, (s', w')) /\ len (bytes_ w') = len (bytes_ w) /\ position w' (d' ++ r) r'.
Proof.
  induction fuel as [|fuel IH]; intros s w d r d' old r' Hf Hs Hw Ho; cbn [copy_remaining]; unfold mbind at 1, ST_bind at 1, source_bits; cbn [fst];
    rewrite (remaining_bits _ _ _ Hs).
  - destruct r; [|cbn in Hf; lia]. destruct old; [|done]. exists s, w. rewrite app_nil_r. done.
  - destruct r as [|b r]; [destruct old; [|done]; exists s, w; by rewrite app_nil_r|]. rewrite (proj2 (Z.ltb_lt 0 _)) by (rewrite len_cons; pose proof (len_nonneg r); lia). cbn [negb].
    set (n := Z.min 32 (len (b :: r))). assert (Hn : 0 < n <= 32 /\ n <= len (b :: r)) by (subst n; rewrite len_cons; pose proof (len_nonneg r); lia).
    destruct (cut (b :: r) n) as (x & r1 & E & Hx); [lia|]. rewrite E in *. clear E.
    assert (Hol : length (x ++ r1) = (length x + length r1)%nat) by apply length_app.
    rewrite <- (take_drop (length x) old), <- app_assoc in Hw.
    destruct (copy_bits_copies x ltac:(lia) s w d r1 d' _ _ Hs Hw) as (s1 & w1 & E1 & _ & L1 & H1 & W1); [rewrite length_take; lia|].
    rewrite Hx in E1. destruct (IH s1 w1 _ r1 _ _ _ ltac:(unfold len in Hx; lia) H1 W1) as (s2 & w2 & E2 & L2 & W2); [rewrite length_drop; lia|].
    exists s2, w2. unfold read_or_false. rewrite (ST_bind_ret _ _ _ _ _ E1). split; [exact E2|]. split; [lia|]. by rewrite app_assoc.
Qed.

Lemma copy_remaining_bits : copies_all CopyRemainingBits.
Proof.
  intros s w d r d' old r' Hs Hw Ho. unfold CopyRemainingBits. unfold mbind at 1, ST_bind at 1, source_bits at 1. cbn [fst].
  rewrite (remaining_bits _ _ _ Hs). destruct ((0 <? len r) && negb (len r mod 8 =? 0)) eqn:E.
  - pose proof (Z.mod_pos_bound (len r) 8 ltac:(lia)). pose proof (Z.mod_le (len r) 8). destruct (cut r (len r mod 8)) as (x & r1 & Er & Hx); [lia|].
    rewrite <- Hx in *. clear Hx. subst r. rewrite length_app in Ho. rewrite <- (take_drop (length x) old), <- app_assoc in Hw.
    destruct (copies_done _ _ _ (Some tt) (copy_bits_copies x ltac:(lia)) s w d r1 d' _ _ Hs Hw) as (s1 & w1 & E1 & _ & L1 & H1 & W1); [rewrite length_take; lia|].
    destruct (copy_remaining_all (length r1) s1 w1 _ r1 _ _ _ ltac:(lia) H1 W1) as (s2 & w2 & E2 & L2 & W2); [rewrite length_drop; lia|].
    exists s2, w2. unfold read_or_false at 1. rewrite (ST_bind_ret _ _ _ _ _ E1). unfold mbind at 1, ST_bind at 1, source_bits at 1. cbn [fst].
    rewrite (remaining_bits _ _ _ H1). unfold len. rewrite Nat2Z.id. split; [exact E2|]. split; [unfold len in *; lia|]. by rewrite app_assoc.
  - destruct (copy_remaining_all (length r) s w _ r _ _ _ ltac:(lia) Hs Hw Ho) as (s2 & w2 & E2 & L2 & W2). exists s2, w2.
    split; [|done]. unfold read_or_false at 1, mbind at 1, ST_bind at 1, mret, ST_ret. unfold mbind at 1, ST_bind at 1, source_bits at 1. cbn [fst].
    rewrite (remaining_bits _ _ _ Hs). unfold len. rewrite Nat2Z.id. exact E2.
Qed.

Lemma bits_of_take bytes n : (n <= length bytes)%nat -> bits_of (take n bytes) = take (8 * n) (bits_of bytes).
Proof.
  intros Hn. pose proof (len_bits_of (take n bytes)) as H. unfold len in H. rewrite length_take in H.
  rewrite <- (take_drop n bytes) at 2. rewrite bits_of_app, take_app_le by lia. symmetry. apply take_ge. lia.
Qed.

(** The padding: zero bits up to the next byte. *)
Definition pad (x : list bool) : list bool := replicate (Z.to_nat ((- len x) mod 8)) false.

Lemma zbits_of_zero n : zbits n 0 = replicate n false.
Proof. pose proof (zbits_zeros n 0) as H. by rewrite Z.mul_0_l in H. Qed.

Lemma finish_copy_spec length s w d r d' old : position s d r -> position w d' old -> len (bytes_ w) <= length + kMaxVuiSpsIncrease ->
  len (d' ++ r) + 8 <= 8 * len (bytes_ w) ->
  exists out s', finish_copy length (s, w) = Some (Some out, s') /\ len out <= len (bytes_ w) /\ bytes_ok out /\ bits_of out = (d' ++ r) ++ pad (d' ++ r).
Proof.
  intros Hs Hw Hlen Hroom. pose proof (position_len _ _ _ Hw) as Hl. rewrite len_app in Hroom.
  destruct (cut old (len r)) as (o & r' & -> & Ho); [pose proof (len_nonneg r); lia|].
  destruct (copy_remaining_bits s w d r d' o r' Hs Hw) as (s1 & w1 & E1 & L1 & W1); [unfold len in Ho; lia|].
  unfold finish_copy, read_or_false. rewrite (ST_bind_ret _ _ _ _ _ E1). unfold mbind at 1, ST_bind at 1, destination at 1, get. cbn [fst snd GetCurrentOffset].
  pose proof (at_pos _ _ _ W1) as Hpos. pose proof (at_bit _ _ _ W1) as Hbit. pose proof (position_len _ _ _ W1) as Hl1.
  set (x := d' ++ r) in *. assert (Hx : len x = len d' + len r) by (subst x; apply len_app).
  assert (Hout : forall w2 pd, position w2 (x ++ pd) (drop (List.length pd) r') -> len (bytes_ w2) = len (bytes_ w1) ->
    8 * ((len x + 7) / 8) = len (x ++ pd) -> bits_of (take (Z.to_nat ((len x + 7) / 8)) (bytes_ w2)) = x ++ pd).
  { intros w2 pd H2 L2 Hm. rewrite bits_of_take.
    - rewrite (at_bits _ _ _ H2). replace (8 * Z.to_nat ((len x + 7) / 8))%nat with (List.length (x ++ pd)) by (unfold len in *; lia).
      apply take_app_length.
    - pose proof (position_len _ _ _ H2). pose proof (len_nonneg (drop (List.length pd) r')). unfold len in *. lia. }
  destruct (Z.ltb_spec 0 (bit_offset_ w1)).
  - set (c := bit_offset_ w1) in *. assert (Hr' : 8 <= len r') by lia.
    destruct (cut r' (8 - c)) as (o2 & r2 & -> & Ho2); [lia|].
    destruct (writes_field (Z.to_nat (8 - c)) 0 ltac:(lia) w1 x o2 r2 W1) as (w2 & E2 & H2 & L2).
    { rewrite length_zbits. unfold len in Ho2. lia. }
    rewrite Z2Nat.id in E2 by lia. rewrite zbits_of_zero in H2.
    assert (Hq : (len x + 7) / 8 = byte_offset_ w1 + 1 /\ (- len x) mod 8 = 8 - c) by (clear Hout; Z.to_euclidean_division_equations; lia).
    destruct Hq as [Hq Hm]. assert (Hpad : pad x = replicate (Z.to_nat (8 - c)) false) by (unfold pad; by rewrite Hm).
    exists (take (Z.to_nat (byte_offset_ w1 + 1)) (bytes_ w2)), (s1, w2).
    unfold mbind at 1, ST_bind at 1, mbind at 1, ST_bind at 1, destination at 1. cbn [fst snd]. rewrite E2. cbn [mret].
    unfold mret, ST_ret. cbn [fst snd]. unfold dcheck. pose proof (position_len _ _ _ H2) as Hl2. rewrite len_app in Hl2. pose proof (len_nonneg r2).
    assert (len (replicate (Z.to_nat (8 - c)) false) = 8 - c) by (unfold len; rewrite length_replicate; lia).
    rewrite (proj2 (Z.leb_le (byte_offset_ w1 + 1) (length + kMaxVuiSpsIncrease))) by lia.
    split; [done|]. split; [rewrite <- L1, <- L2; unfold len; rewrite length_take; lia|].
    split; [by apply Forall_take, (at_bytes _ _ _ H2)|]. rewrite Hpad.
    rewrite <- Hq. apply Hout.
    + replace (drop _ (o2 ++ r2)) with r2; [done|]. rewrite length_replicate. replace (Z.to_nat (8 - c)) with (List.length o2) by (unfold len in Ho2; lia). by rewrite drop_app_length.
    + done.
    + rewrite len_app, Hq. lia.
  - exists (take (Z.to_nat (byte_offset_ w1)) (bytes_ w1)), (s1, w1).
    unfold mbind at 1, ST_bind at 1, mret at 1, ST_ret at 1. unfold dcheck.
    pose proof (len_nonneg r'). rewrite (proj2 (Z.leb_le (byte_offset_ w1) (length + kMaxVuiSpsIncrease))) by lia.
    split; [done|]. split; [rewrite <- L1; unfold len; rewrite length_take; lia|].
    split; [by apply Forall_take, (at_bytes _ _ _ W1)|].
    assert (Hq : (len x + 7) / 8 = byte_offset_ w1 /\ (- len x) mod 8 = 0) by (clear Hout; Z.to_euclidean_division_equations; lia).
    destruct Hq as [Hq Hm]. assert (Hpad : pad x = []) by (unfold pad; by rewrite Hm). rewrite Hpad.
    rewrite <- Hq. apply Hout; [by rewrite app_nil_r|done|rewrite app_nil_r, Hq; lia].
Qed.

(** ** The rewriter *)

Lemma len_golomb_max v : code_ok v -> 1 <= len (golomb v) <= 63.
Proof.
  intros Hv. unfold code_ok in Hv. rewrite len_golomb by lia. pose proof (Z.log2_nonneg (v + 1)).
  assert (Z.log2 (v + 1) < 32) by (apply Z.log2_lt_pow2; lia). lia.
Qed.

Lemma len_opt_code {A} (code : A -> list bool) o : 1 <= len (opt_code code o).
Proof. destruct o as [a|]; cbn [opt_code]; rewrite len_cons; pose proof (len_nonneg (A := bool)) as H; [specialize (H (code a))|specialize (H [])]; lia. Qed.

Lemma len_signal_code s : len (opt_code signal_code s) <= 30.
Proof.
  destruct s as [s|]; [|by vm_compute]. cbn [opt_code]. unfold signal_code. rewrite len_cons, !len_app, len_zbits.
  destruct (scolours s); cbn [opt_code]; unfold colours_code; rewrite ?len_cons, ?len_app, ?len_zbits, ?len_nil; lia.
Qed.

Lemma len_restriction_code n r : code_ok n -> len (true :: restriction_code (new_restriction n r)) <= len (opt_code restriction_code r) + 100.
Proof.
  intros Hn. pose proof (len_golomb_max n Hn). destruct r as [r|]; unfold restriction_code, new_restriction; cbn [opt_code];
    cbn [over_boundaries bytes_denom bits_denom mv_horizontal mv_vertical reorder_frames frame_buffering].
  - rewrite !len_cons, !len_app. change (len (golomb 0)) with 1. pose proof (len_nonneg (golomb (reorder_frames r))).
    pose proof (len_nonneg (golomb (frame_buffering r))). rewrite !len_cons, len_nil. lia.
  - rewrite !len_cons, !len_app. change (len (golomb 2)) with 3. change (len (golomb 1)) with 3. change (len (golomb 16)) with 9.
    change (len (golomb 0)) with 1. rewrite !len_cons, len_nil. lia.
Qed.

Lemma len_rewritten n color v : code_ok n -> len (vui_code (rewrite_vui n color v)) <= len (vui_code v) + 150.
Proof.
  intros Hn. unfold vui_code. rewrite !len_app. change (vui_front (rewrite_vui n color v)) with (vui_front v).
  change (vui_middle (rewrite_vui n color v)) with (vui_middle v). cbn [rewrite_vui signal restriction opt_code].
  pose proof (len_restriction_code n (restriction v) Hn). pose proof (len_signal_code (new_signal color (signal v))).
  pose proof (len_opt_code signal_code (signal v)). lia.
Qed.

Lemma len_added n color : code_ok n -> len (vui_code (added_vui n color)) <= 150.
Proof.
  intros Hn. unfold vui_code. rewrite !len_app. change (vui_front (added_vui n color)) with [false; false].
  change (vui_middle (added_vui n color)) with [false; false; false; false; false]. cbn [added_vui restriction opt_code].
  pose proof (len_restriction_code n None Hn). pose proof (len_signal_code (signal (added_vui n color))).
  cbn [opt_code] in *. rewrite !len_cons, ?len_nil in *. cbn [added_vui signal] in *. lia.
Qed.

(** A writer that is set back to a position. *)
Lemma seek_to w d r byte bit : position w [] (d ++ r) -> 0 < len r -> 0 <= byte -> 0 <= bit < 8 -> len d = 8 * byte + bit ->
  exists w', Seek byte bit w = Some (true, w') /\ position w' d r /\ bytes_ w' = bytes_ w.
Proof.
  intros H Hr Hb Hbit Hd. pose proof (position_len _ _ _ H) as Hl. change (len []) with 0 in Hl. rewrite len_app in Hl. destruct H as [E Hp _ _ Hc Hok Hm].
  exists (Bits (bytes_ w) (byte_count_ w) byte bit). split; [|split; [by split|done]]. unfold Seek, mbind, ST_bind, get, put.
  rewrite (proj2 (Z.ltb_ge (byte_count_ w) byte)), (proj2 (Z.ltb_ge 7 bit)), (proj2 (Z.eqb_neq byte (byte_count_ w))) by lia. done.
Qed.

Lemma construct_bytes bytes s : construct bytes (len bytes) = Some s -> bytes_ s = bytes.
Proof.
  unfold construct. destruct (_ <=? _); [|done]. cbn. by intros [= <-].
Qed.

Lemma take_bits_prefix bytes x y n : bits_of bytes = x ++ y -> len x <= 8 * Z.of_nat n -> (n <= length bytes)%nat ->
  exists z, bits_of (take n bytes) = x ++ z.
Proof.
  intros E Hx Hn. rewrite bits_of_take, E, take_app_ge by (unfold len in Hx; lia). by eexists.
Qed.

Lemma len_write_rbsp l : forall z, len (write_rbsp z l) <= 2 * len l.
Proof.
  induction l as [|b l IH]; intros z; cbn [write_rbsp]; [done|]. destruct (_ && _); rewrite ?len_cons;
    [specialize (IH (if b =? 0 then 1 else 0))|specialize (IH (if b =? 0 then z + 1 else 0))]; lia.
Qed.

Section rewriter.
Context (buffer : list Z) (length : Z) (color : option ColorSpace.t) (dest mem : list Z) (p : sps_syntax) (flag : bool).
Context (x y rest : list bool) (res : ParseResult) (sps : option SpsState).

Hypothesis Hbuf : bytes_ok buffer.
Hypothesis Hlen : 0 <= length <= len buffer.
Hypothesis Hmax : length + 64 <= 2 ^ 32 - 1.
Hypothesis Hmem : bytes_ok mem /\ len mem = length + 64.
Hypothesis Hp : sps_ok p.
Hypothesis Hbits : bits_of (parse_rbsp (take (Z.to_nat length) buffer)) = sps_code p ++ flag :: x ++ rest.
Hypothesis Hcopy : copies (CopyAndRewriteVui (sps_state p flag) color) x y (Some res).
Hypothesis Hroom : 0 < len y <= len x + 200.
Hypothesis Hres : res <> kFailure.

(** The result is the copier's: its bits between what was parsed and what was not. *)
Lemma rewrite_result :
  let new := sps_code p ++ y ++ rest in
  exists out, bytes_ok out /\ len out <= length + 64 /\ bits_of out = new ++ pad new /\
  ParseAndRewriteSps buffer length sps color dest mem =
    Some (res, Some (sps_state p flag), match res with kVuiRewritten => dest ++ write_rbsp 0 out | _ => dest end).
Proof.
  intros new. set (rbsp := parse_rbsp (take (Z.to_nat length) buffer)) in *.
  assert (Hrbsp : bytes_ok rbsp /\ len rbsp <= length).
  { destruct (parse_rbsp_ok (take (Z.to_nat length) buffer)) as [Hok Hl]; [by apply Forall_take|]. split; [done|].
    unfold len in *. rewrite length_take in Hl. subst rbsp. lia. }
  destruct Hrbsp as [Hrok Hrl]. destruct Hmem as [Hmok Hml].
  destruct (position_start rbsp Hrok ltac:(lia)) as (s0 & E0 & H0). rewrite Hbits in H0.
  rewrite cons_middle, app_assoc in H0.
  destruct (sps_reads p flag Hp s0 _ _ H0) as (s1 & E1 & B1 & H1).
  pose proof (position_len _ _ _ H1) as Hl1. cbn [app] in H1, Hl1. rewrite !len_app in Hl1. change (len [flag]) with 1 in Hl1.
  assert (Eb0 : bytes_ s0 = rbsp) by (by apply construct_bytes).
  rewrite B1, Eb0 in Hl1. pose proof (at_pos _ _ _ H1) as Hpos. pose proof (at_bit _ _ _ H1) as Hbit. pose proof (at_byte _ _ _ H1) as Hbyte.
  rewrite len_app in Hpos. change (len [flag]) with 1 in Hpos.
  pose proof (len_nonneg (sps_code p)). pose proof (len_nonneg x). pose proof (len_nonneg rest).
  set (copied := byte_offset_ s1 + (if 0 <? bit_offset_ s1 then 1 else 0)).
  assert (Hcop : len (sps_code p) + 1 <= 8 * copied /\ 0 <= copied <= len rbsp) by (subst copied; destruct (Z.ltb_spec 0 (bit_offset_ s1)); lia).
  set (out0 := take (Z.to_nat copied) rbsp ++ drop (Z.to_nat copied) mem).
  assert (Hout0 : bytes_ok out0 /\ len out0 = length + 64).
  { subst out0. split; [apply bytes_ok_app; split; [by apply Forall_take|by apply Forall_drop]|]. unfold len in *. rewrite length_app, length_take, length_drop. lia. }
  destruct Hout0 as [Hook Hol]. destruct (position_start out0 Hook ltac:(lia)) as (w0 & Ew0 & Hw0).
  destruct (take_bits_prefix rbsp (sps_code p) (flag :: x ++ rest) (Z.to_nat copied) Hbits) as (z & Ez); [lia|unfold len in *; lia|].
  assert (Eout : bits_of out0 = sps_code p ++ z ++ bits_of (drop (Z.to_nat copied) mem)) by (subst out0; rewrite bits_of_app, Ez, <- app_assoc; done).
  set (tail := z ++ bits_of (drop (Z.to_nat copied) mem)) in *. rewrite Eout in Hw0.
  assert (Htail : len (sps_code p) + len tail = 8 * (length + 64)) by (rewrite <- Hol, <- len_bits_of, Eout, len_app; done).
  set (back := if bit_offset_ s1 =? 0 then (byte_offset_ s1 - 1, 7) else (byte_offset_ s1, bit_offset_ s1 - 1)).
  destruct (seek_to w0 (sps_code p) tail (fst back) (snd back) Hw0) as (w1 & Ew1 & Hw1 & Bw1); [lia|subst back; destruct (Z.eqb_spec (bit_offset_ s1) 0); cbn [fst snd]; lia..|].
  destruct (cut tail (len y)) as (o & r' & Et & Ho); [lia|]. rewrite Et in Hw1.
  destruct (Hcopy s1 w1 _ _ _ _ _ H1 Hw1) as (s2 & w2 & E2 & B2 & L2 & Hs2 & W2); [unfold len in Ho; lia|].
  assert (Ebw : bytes_ w0 = out0) by (by apply construct_bytes).
  destruct (finish_copy_spec length s2 w2 _ _ _ _ Hs2 W2) as (out & s3 & E3 & Hsz & Hoo & Hob).
  { unfold kMaxVuiSpsIncrease. rewrite L2, Bw1, Ebw. lia. }
  { rewrite L2, Bw1, Ebw, !len_app. lia. }
  exists out. split; [done|]. split; [by rewrite <- Hol, <- Ebw, <- Bw1, <- L2|]. rewrite <- (app_assoc (sps_code p)) in Hob. fold new in Hob. split; [done|].
  unfold ParseAndRewriteSps, ParseRbsp. rewrite (proj2 (Z.leb_le length _)) by lia. cbn [check mbind option_bind]. fold rbsp. rewrite E0. cbn [mbind option_bind].
  rewrite E1. cbn [mbind option_bind]. unfold kMaxVuiSpsIncrease at 1. rewrite Hml, Z.eqb_refl. cbn [check mbind option_bind GetCurrentOffset].
  fold copied. rewrite (proj2 (Z.leb_le copied (len rbsp))), (proj2 (Z.leb_le copied (length + 64))) by lia. cbn [andb check mbind option_bind]. fold out0. rewrite Ew0. cbn [mbind option_bind].
  fold back. destruct back as [bb bt]. cbn [fst snd] in Ew1. rewrite Ew1. cbn [mbind option_bind]. rewrite E2. cbn [mbind option_bind].
  destruct res; [done|done|]. rewrite E3. cbn [mbind option_bind]. unfold WriteRbsp. rewrite (proj2 (Z.leb_le (len out) _)) by lia. cbn [check mbind option_bind].
  unfold len. by rewrite Nat2Z.id, firstn_all.
Qed.

End rewriter.

(** What the rewriter makes of the VUI, and whether it keeps the set as it is. *)
Definition new_vui (n : Z) (color : option ColorSpace.t) (vui : option vui_syntax) : vui_syntax :=
  match vui with None => added_vui n color | Some v => rewrite_vui n color v end.

Definition sps_kept (n : Z) (color : option ColorSpace.t) (vui : option vui_syntax) : bool :=
  match vui with None => false | Some v => negb (vui_changed n color v) end.

Lemma state_fields p flag : vui_params_present (sps_state p flag) = Z.b2z flag /\ max_num_ref_frames (sps_state p flag) = num_ref_frames p.
Proof.
  unfold sps_state. by destruct (poc_values (poc p)) as [[? ?] ?].
Qed.

Lemma rewrite_sps buffer length color dest mem p vui rest sps :
  bytes_ok buffer -> 0 <= length <= len buffer -> length + 64 <= 2 ^ 32 - 1 -> bytes_ok mem -> len mem = length + 64 ->
  sps_ok p -> opt_ok vui_ok vui ->
  bits_of (parse_rbsp (take (Z.to_nat length) buffer)) = sps_code p ++ opt_code vui_code vui ++ rest ->
  let new := sps_code p ++ true :: vui_code (new_vui (num_ref_frames p) color vui) ++ rest in
  let kept := sps_kept (num_ref_frames p) color vui in
  exists out, bytes_ok out /\ len out <= length + 64 /\ bits_of out = new ++ pad new /\
  ParseAndRewriteSps buffer length sps color dest mem =
    Some (if kept then kVuiOk else kVuiRewritten, Some (sps_state p (present vui)), if kept then dest else dest ++ write_rbsp 0 out).
Proof.
  intros Hbuf Hlen Hmax Hmok Hml Hp Hv Hbits. pose proof (state_fields p (present vui)) as [Hpres Href].
  assert (Hn : code_ok (num_ref_frames p)) by apply Hp. rewrite <- Href in *. destruct vui as [v|]; cbn [new_vui sps_kept opt_code present opt_ok Z.b2z] in *.
  - set (n := max_num_ref_frames _) in *. set (y := true :: vui_code (rewrite_vui n color v)).
    assert (Hy : 0 < len y <= len (vui_code v) + 200).
    { subst y. rewrite len_cons. pose proof (len_rewritten n color v Hn). pose proof (len_nonneg (vui_code (rewrite_vui n color v))). lia. }
    destruct (rewrite_result buffer length color dest mem p true (vui_code v) y rest _ sps Hbuf Hlen Hmax (conj Hmok Hml) Hp Hbits (vui_copies _ _ _ Hpres Hn Hv) Hy)
      as (out & Hok & Hsz & Hob & E); [by destruct (vui_changed _ _ _)|].
    exists out. split; [done|]. split; [done|]. split; [exact Hob|]. rewrite E. fold n. by destruct (vui_changed _ _ _).
  - set (n := max_num_ref_frames _) in *. set (y := true :: vui_code (added_vui n color)).
    assert (Hy : 0 < len y <= len (@nil bool) + 200).
    { subst y. rewrite len_cons. pose proof (len_added n color Hn). pose proof (len_nonneg (vui_code (added_vui n color))). change (len []) with 0. lia. }
    destruct (rewrite_result buffer length color dest mem p false [] y rest _ sps Hbuf Hlen Hmax (conj Hmok Hml) Hp Hbits (add_vui_copies _ _ Hpres Hn) Hy)
      as (out & Hok & Hsz & Hob & E); [done|]. exists out. done.
Qed.

(** The new VUI is well formed and is kept as it is when no colour space is asked for. *)
Lemma new_vui_ok n vui : code_ok n -> opt_ok vui_ok vui -> vui_ok (new_vui n None vui).
Proof.
  intros Hn Hv. destruct vui as [v|]; cbn [new_vui opt_ok] in *.
  - destruct Hv as (Ha & Hs & Hc & Ht & Hh & Hvh & Hr). unfold vui_ok, rewrite_vui. cbn. repeat (split; [done|]).
    destruct (restriction v) as [r|]; unfold restriction_ok; cbn; [destruct Hr as (? & ? & ? & ? & _)|]; repeat match goal with |- _ /\ _ => split end; done.
  - unfold vui_ok, added_vui, restriction_ok. cbn. repeat match goal with |- _ /\ _ => split end; done.
Qed.

Lemma new_vui_kept n vui : sps_kept n None (Some (new_vui n None vui)) = true.
Proof.
  unfold sps_kept, vui_changed, restriction_changed, new_signal_changed, signal_changed. cbn [override_signal]. rewrite !Z.eqb_refl. cbn [andb negb].
  destruct vui as [v|]; cbn; [destruct (restriction v)|]; cbn; by rewrite Z.ltb_irrefl.
Qed.


