(* ===== verification/SpsSafe.v ===== *)
(** * The VUI rewriter on arbitrary bytes

    [ParseAndRewriteSps] returns whatever bytes it is given: every read is inside the source, every write inside the
    buffer, the checks hold and the loops end. *)

From S2P Require Import Prelude BitBuffer BitCodec H264Common H264Params SpsSyntax SpsVui SpsRewrite.

Import BitBuffer BitBufferWriter H264 SpsVuiRewriter SpsParser.

(** ** Writers and copiers that always return *)

Definition safe_writer (m : ST t bool) : Prop :=
  forall w d r, position w d r -> exists b w' d1 r1, m w = Some (b, w') /\ position w' d1 r1 /\ len (bytes_ w') = len (bytes_ w).

(** A copier that returns when fewer than [n] bits are left. *)
Definition safe_copier {A} (n : Z) (m : copier A) : Prop :=
  forall s w d r d' r', position s d r -> position w d' r' -> len r < n ->
  exists a s' w' x r1 d1 r1', m (s, w) = Some (a, (s', w')) /\ r = x ++ r1 /\ position s' (d ++ x) r1 /\ position w' d1 r1' /\
    len (bytes_ w') = len (bytes_ w).

Lemma safe_writes m n : (forall w d r, position w d r -> len r < Z.of_nat n -> m w = Some (false, w)) ->
  (exists x, length x = n /\ writes m x) -> safe_writer m.
Proof.
  intros Hshort (x & Hx & Hw) w d r H. destruct (Z.lt_ge_cases (len r) (Z.of_nat n)) as [Hlt|Hge].
  - exists false, w, d, r. by rewrite (Hshort w d r H Hlt).
  - destruct (cut r (Z.of_nat n)) as (old & r' & -> & Ho); [lia|].
    destruct (Hw w d old r' H) as (w' & E & H' & L); [unfold len in Ho; lia|]. exists true, w', (d ++ x), r'. done.
Qed.

Lemma safe_WriteBits v n : 0 < n <= 64 -> safe_writer (WriteBits v n).
Proof.
  intros Hn. replace n with (Z.of_nat (Z.to_nat n)) by lia. apply (safe_writes _ (Z.to_nat n)); [intros; by eapply WriteBits_short|].
  exists (zbits (Z.to_nat n) v). split; [apply length_zbits|]. apply writes_bits. lia.
Qed.

Lemma safe_WriteUInt8 v : safe_writer (WriteUInt8 v).
Proof. apply safe_WriteBits. lia. Qed.

Lemma safe_WriteGolomb v : in_u 32 v -> safe_writer (WriteExponentialGolomb v).
Proof.
  intros Hv. destruct (decide (v = 2 ^ 32 - 1)) as [->|Hne].
  - intros w d r H. exists false, w, d, r. split; [|done]. unfold WriteExponentialGolomb. by vm_compute.
  - assert (Hok : code_ok v) by (unfold code_ok, in_u in *; lia). apply (safe_writes _ (length (golomb v))).
    + intros w d r H Hlt. by eapply as_short; [apply as_golomb|exact H|].
    + exists (golomb v). split; [done|]. by apply writes_golomb.
Qed.

Section copiers.
Context (n : Z).

Lemma copier_ret {A} (a : A) : safe_copier n (mret a).
Proof. intros s w d r d' r' Hs Hw _. exists a, s, w, [], r, d', r'. by rewrite app_nil_r. Qed.

Lemma copier_bind {A B} (m : copier A) (k : A -> copier B) : safe_copier n m -> (forall a, safe_copier n (k a)) -> safe_copier n (m ≫= k).
Proof.
  intros Hm Hk s w d r d' r' Hs Hw Hn. destruct (Hm s w d r d' r' Hs Hw Hn) as (a & s1 & w1 & x & r1 & d1 & r1' & E1 & -> & H1 & W1 & L1).
  rewrite len_app in Hn. pose proof (len_nonneg x).
  destruct (Hk a s1 w1 _ _ _ _ H1 W1 ltac:(lia)) as (b & s2 & w2 & y & r2 & d2 & r2' & E2 & -> & H2 & W2 & L2).
  exists b, s2, w2, (x ++ y), r2, d2, r2'. rewrite (ST_bind_ret _ _ _ _ _ E1), <- !app_assoc in *. split; [done|]. split; [done|]. split; [done|]. split; [done|lia].
Qed.

Lemma copier_if {A} (b : bool) (m k : copier A) : safe_copier n m -> safe_copier n k -> safe_copier n (if b then m else k).
Proof. by destruct b. Qed.

Lemma copier_source {A} (m : ST t A) : safe_reader m -> safe_copier n (source m).
Proof.
  intros Hm s w d r d' r' Hs Hw _. destruct (Hm s d r Hs) as (a & s' & x & r1 & E & _ & -> & H). exists a, s', w, x, r1, d', r'.
  unfold source. cbn [fst snd]. by rewrite E.
Qed.

Lemma copier_destination m : safe_writer m -> safe_copier n (destination m).
Proof.
  intros Hm s w d r d' r' Hs Hw _. destruct (Hm w d' r' Hw) as (b & w' & d1 & r1 & E & H & L). exists b, s, w', [], r, d1, r1.
  unfold destination. cbn [fst snd]. by rewrite E, app_nil_r.
Qed.

Lemma copier_try {A B} (m : copier (option A)) (k : A -> copier (option B)) :
  safe_copier n m -> (forall a, safe_copier n (k a)) -> safe_copier n (read_or_false m k).
Proof. intros Hm Hk. apply copier_bind; [done|]. intros [a|]; [done|apply copier_ret]. Qed.

Lemma copier_write {B} (m : ST t bool) (k : copier (option B)) : safe_writer m -> safe_copier n k -> safe_copier n (do_or_false (destination m) k).
Proof. intros Hm Hk. apply copier_bind; [by apply copier_destination|]. intros [|]; [done|apply copier_ret]. Qed.

(** A value that was read is in the range of the writer, and a bit less is left. *)
Lemma copier_golomb {B} (k : Z -> copier (option B)) : (forall v, code_ok v -> safe_copier (n - 1) (k v)) ->
  safe_copier n (read_or_false (source ReadExponentialGolomb) k).
Proof.
  intros Hk s w d r d' r' Hs Hw Hn. unfold read_or_false.
  destruct (golomb_read s d r Hs) as [(v & r1 & s1 & -> & Hv & E & _ & H1)|[E _]].
  - rewrite (ST_bind_ret _ _ _ (Some v) (s1, w)) by (unfold source; cbn [fst snd]; by rewrite E).
    rewrite len_app in Hn. pose proof (proj2 (nonempty_len _) (golomb_not_nil v)).
    destruct (Hk v Hv s1 w _ _ _ _ H1 Hw ltac:(lia)) as (b & s2 & w2 & y & r2 & d2 & r2' & E2 & -> & H2 & W2 & L2).
    exists b, s2, w2, (golomb v ++ y), r2, d2, r2'. rewrite <- !app_assoc in *. done.
  - rewrite (ST_bind_ret _ _ _ None (s, w)) by (unfold source; cbn [fst snd]; by rewrite E). exact (copier_ret None s w d r d' r' Hs Hw Hn).
Qed.

Lemma copier_bits {B} bits (k : Z -> copier (option B)) : 0 < bits -> (forall v, safe_copier (n - 1) (k v)) ->
  safe_copier n (read_or_false (source (ReadBits bits)) k).
Proof.
  intros Hb Hk s w d r d' r' Hs Hw Hn. unfold read_or_false.
  destruct (ReadBits_spec bits s d r Hb Hs) as [(x & r1 & s1 & -> & Hx & _ & E & _ & H1)|[E _]].
  - rewrite (ST_bind_ret _ _ _ (Some (bits_val x)) (s1, w)) by (unfold source; cbn [fst snd]; by rewrite E). rewrite len_app in Hn.
    destruct (Hk (bits_val x) s1 w _ _ _ _ H1 Hw ltac:(lia)) as (b & s2 & w2 & y & r2 & d2 & r2' & E2 & -> & H2 & W2 & L2).
    exists b, s2, w2, (x ++ y), r2, d2, r2'. rewrite <- !app_assoc in *. done.
  - rewrite (ST_bind_ret _ _ _ None (s, w)) by (unfold source; cbn [fst snd]; by rewrite E). exact (copier_ret None s w d r d' r' Hs Hw Hn).
Qed.

(** A loop whose fuel is the number of bits left. *)
Lemma copier_fuel {A} (k : Z -> copier A) : (forall m, m < n -> safe_copier (m + 1) (k m)) -> safe_copier n (source_bits ≫= k).
Proof.
  intros Hk s w d r d' r' Hs Hw Hn. unfold mbind, ST_bind, source_bits. cbn [fst]. rewrite (remaining_bits _ _ _ Hs).
  apply (Hk (len r) Hn s w d r d' r'); [done|done|lia].
Qed.
End copiers.

Lemma copier_weaken {A} n n' (m : copier A) : safe_copier n m -> n' <= n -> safe_copier n' m.
Proof. intros Hm Hn s w d r d' r' Hs Hw Hr. apply (Hm s w d r d' r'); [done|done|lia]. Qed.

Lemma code_u32 v : code_ok v -> in_u 32 v.
Proof. unfold code_ok, in_u. lia. Qed.

Lemma safe_copy_golomb n : safe_copier n copy_exp_golomb.
Proof. apply copier_golomb. intros v Hv. apply copier_write; [by apply safe_WriteGolomb, code_u32|apply copier_ret]. Qed.

Lemma safe_copy_bits n bits : 0 < bits <= 64 -> safe_copier n (copy_bits bits).
Proof. intros Hb. apply copier_bits; [lia|]. intros v. apply copier_write; [by apply safe_WriteBits|apply copier_ret]. Qed.

(** Splits a copier into its steps. *)
Ltac safe_copy :=
  repeat lazymatch goal with
  | |- safe_copier _ (read_or_false _ _) => apply copier_try; [|intros ?]
  | |- safe_copier _ (do_or_false _ _) => apply copier_write
  | |- safe_copier _ (if _ then _ else _) => apply copier_if
  | |- safe_copier _ (copy_if _ _) => apply copier_if
  | |- safe_copier _ (mret _) => apply copier_ret
  | |- safe_copier _ copy_exp_golomb => apply safe_copy_golomb
  | |- safe_copier _ (copy_bits _) => apply safe_copy_bits; lia
  | |- safe_copier _ (source _) => apply copier_source
  | |- safe_reader (ReadBits _) => apply safe_ReadBits; lia
  | |- safe_reader ReadUInt8 => apply safe_ReadUInt8
  | |- safe_reader ReadExponentialGolomb => apply safe_golomb
  | |- safe_writer (WriteBits _ _) => apply safe_WriteBits; lia
  | |- safe_writer (WriteUInt8 _) => apply safe_WriteUInt8
  | |- safe_writer (WriteExponentialGolomb _) => apply safe_WriteGolomb; (done || by vm_compute)
  | |- safe_copier _ (match ?o with Some _ => _ | None => _ end) => destruct o
  end.

Lemma safe_cpbs fuel : forall count, safe_copier (Z.of_nat fuel) (copy_cpbs fuel count).
Proof.
  induction fuel as [|fuel IH]; intros count; cbn [copy_cpbs]; destruct (count <=? 0); [apply copier_ret| |apply copier_ret|].
  - intros s w d r d' r' _ _ H. pose proof (len_nonneg r). lia.
  - unfold copy_exp_golomb at 1. intros s w d r d' r' Hs Hw Hn.
    assert (E : forall st, read_or_false (read_or_false (source ReadExponentialGolomb) (fun tmp => do_or_false (destination (WriteExponentialGolomb tmp)) (mret (Some tmp))))
      (fun _ => read_or_false copy_exp_golomb (fun _ => read_or_false (copy_bits 1) (fun _ => copy_cpbs fuel (count - 1)))) st =
      read_or_false (source ReadExponentialGolomb) (fun tmp => do_or_false (destination (WriteExponentialGolomb tmp))
        (read_or_false copy_exp_golomb (fun _ => read_or_false (copy_bits 1) (fun _ => copy_cpbs fuel (count - 1))))) st).
    { intros st. unfold read_or_false, do_or_false, mbind, ST_bind. destruct (source ReadExponentialGolomb st) as [[[v|] st1]|]; [|done|done].
      destruct (destination (WriteExponentialGolomb v) st1) as [[[|] st2]|]; done. }
    rewrite E. revert s w d r d' r' Hs Hw Hn. apply copier_golomb. intros v Hv. replace (Z.of_nat (S fuel) - 1) with (Z.of_nat fuel) by lia.
    apply copier_write; [by apply safe_WriteGolomb, code_u32|]. safe_copy. apply IH.
Qed.

Lemma safe_hrd n : safe_copier n CopyHrdParameters.
Proof.
  unfold CopyHrdParameters. safe_copy. apply copier_fuel. intros m Hm.
  destruct (Z.lt_ge_cases m 0) as [Hneg|Hpos]; [intros s w d r d' r' _ _ H; pose proof (len_nonneg r); lia|].
  apply copier_try; [|intros ?; safe_copy]. eapply copier_weaken; [apply safe_cpbs|]. lia.
Qed.

Lemma safe_restriction n k : in_u 32 k -> safe_copier n (AddBitstreamRestriction k).
Proof. intros Hk. unfold AddBitstreamRestriction. safe_copy. Qed.

Lemma safe_signal n color : safe_copier n (CopyOrRewriteVideoSignalTypeInfo color).
Proof. unfold CopyOrRewriteVideoSignalTypeInfo, read_signal, write_signal. cbv zeta. safe_copy. Qed.

Lemma safe_vui n sps color : in_u 32 (max_num_ref_frames sps) -> safe_copier n (CopyAndRewriteVui sps color).
Proof.
  intros Hk. unfold CopyAndRewriteVui, rewrite_restriction, AddVideoSignalTypeInfo. cbv zeta. safe_copy; try apply safe_hrd; try by apply safe_restriction.
  apply copier_bind; [apply safe_signal|]. intros signal. safe_copy; try apply safe_hrd; by apply safe_restriction.
Qed.

(** A copy of bits, a bit less is left. *)
Lemma copier_copy {B} n bits (k : copier (option B)) : 0 < bits <= 64 -> safe_copier (n - 1) k -> safe_copier n (read_or_false (copy_bits bits) (fun _ => k)).
Proof.
  intros Hb Hk s w d r d' r' Hs Hw Hn.
  assert (E : read_or_false (copy_bits bits) (fun _ => k) (s, w) = read_or_false (source (ReadBits bits)) (fun tmp => do_or_false (destination (WriteBits tmp bits)) k) (s, w)).
  { unfold copy_bits, read_or_false, do_or_false, mbind, ST_bind. destruct (source (ReadBits bits) (s, w)) as [[[v|] st1]|]; [|done|done].
    destruct (destination (WriteBits v bits) st1) as [[[|] st2]|]; done. }
  rewrite E. refine (copier_bits n bits (fun tmp => do_or_false (destination (WriteBits tmp bits)) k) _ _ s w d r d' r' Hs Hw Hn); [lia|].
  intros v. apply copier_write; [by apply safe_WriteBits|done].
Qed.

Lemma safe_remaining fuel : safe_copier (Z.of_nat fuel + 1) (copy_remaining fuel).
Proof.
  induction fuel as [|fuel IH]; cbn [copy_remaining]; apply copier_fuel; intros m Hm.
  - destruct (Z.ltb_spec 0 m); [lia|]. apply copier_ret.
  - destruct (Z.ltb_spec 0 m); cbn [negb]; [|apply copier_ret]. apply copier_copy; [lia|]. eapply copier_weaken; [exact IH|]. lia.
Qed.

Lemma safe_CopyRemainingBits n : safe_copier n CopyRemainingBits.
Proof.
  unfold CopyRemainingBits. apply copier_fuel. intros m Hm. apply copier_try.
  - destruct ((0 <? m) && negb (m mod 8 =? 0)) eqn:E; [|apply copier_ret]. apply copier_try; [|intros ?; apply copier_ret].
    apply safe_copy_bits. pose proof (Z.mod_pos_bound m 8 ltac:(lia)). lia.
  - intros _. apply copier_fuel. intros k Hk. destruct (Z.lt_ge_cases k 0) as [Hneg|Hpos]; [intros s w d r d' r' _ _ H; pose proof (len_nonneg r); lia|].
    eapply copier_weaken; [apply safe_remaining|]. lia.
Qed.

Lemma safe_finish length s w d r d' r' : position s d r -> position w d' r' -> len (bytes_ w) <= length + kMaxVuiSpsIncrease ->
  exists out st, finish_copy length (s, w) = Some (out, st) /\ match out with Some l => bytes_ok l /\ len l <= len (bytes_ w) | None => True end.
Proof.
  intros Hs Hw Hl. destruct (safe_CopyRemainingBits (len r + 1) s w d r d' r' Hs Hw ltac:(lia)) as (a & s1 & w1 & x & r1 & d1 & r1' & E & _ & H1 & W1 & L1).
  unfold finish_copy, read_or_false. rewrite (ST_bind_ret _ _ _ _ _ E). destruct a as [a|]; [|by exists None, (s1, w1)].
  unfold mbind at 1, ST_bind at 1, destination at 1, get. cbn [fst snd GetCurrentOffset].
  pose proof (at_pos _ _ _ W1) as Hpos. pose proof (at_bit _ _ _ W1) as Hbit. pose proof (position_len _ _ _ W1) as Hlen. pose proof (len_nonneg r1').
  pose proof (at_byte _ _ _ W1). rewrite <- L1 in *. set (c := bit_offset_ w1) in *. destruct (Z.ltb_spec 0 c).
  - destruct (safe_WriteBits 0 (8 - c) ltac:(lia) w1 d1 r1' W1) as (b & w2 & d2 & r2 & E2 & W2 & L2).
    exists (Some (take (Z.to_nat (byte_offset_ w1 + 1)) (bytes_ w2))), (s1, w2). split.
    + unfold mbind at 1, ST_bind at 1, mbind at 1, ST_bind at 1, destination at 1. cbn [fst snd]. rewrite E2. unfold mret, ST_ret. cbn [fst snd]. unfold dcheck.
      rewrite (proj2 (Z.leb_le (byte_offset_ w1 + 1) (length + kMaxVuiSpsIncrease))) by lia. done.
    + split; [apply Forall_take, (at_bytes _ _ _ W2)|]. rewrite <- L2. unfold len. rewrite length_take. lia.
  - exists (Some (take (Z.to_nat (byte_offset_ w1)) (bytes_ w1))), (s1, w1). split.
    + unfold mbind at 1, ST_bind at 1, mret at 1, ST_ret at 1. unfold dcheck. rewrite (proj2 (Z.leb_le (byte_offset_ w1) (length + kMaxVuiSpsIncrease))) by lia. done.
    + split; [apply Forall_take, (at_bytes _ _ _ W1)|]. unfold len. rewrite length_take. lia.
Qed.

(** ** What the parser returns *)

Definition ensures {A} (m : ST t A) (P : A -> Prop) : Prop := forall s a s', m s = Some (a, s') -> P a.

Lemma ensures_ret {A} (a : A) (P : A -> Prop) : P a -> ensures (mret a) P.
Proof. intros H s a' s' [= <- _]. done. Qed.

Lemma ensures_bind {A B} (m : ST t A) (k : A -> ST t B) P Q : ensures m P -> (forall a, P a -> ensures (k a) Q) -> ensures (m ≫= k) Q.
Proof.
  intros Hm Hk s b s' E. unfold mbind, ST_bind in E. destruct (m s) as [[a s1]|] eqn:E1; [|done]. by eapply (Hk a); [eapply Hm|].
Qed.

Lemma ensures_any {A} (m : ST t A) : ensures m (fun _ => True).
Proof. done. Qed.

Lemma golomb_range : ensures ReadExponentialGolomb (fun o => match o with Some v => in_u 32 v | None => True end).
Proof.
  unfold ReadExponentialGolomb. eapply ensures_bind; [apply ensures_any|]. intros this _. cbn [GetCurrentOffset].
  do 4 (eapply ensures_bind; [apply ensures_any|]; intros ? _). eapply ensures_bind; [apply ensures_any|]. intros [v|] _.
  - apply ensures_ret. apply wrap_range. lia.
  - do 2 (eapply ensures_bind; [apply ensures_any|]; intros ? _). by apply ensures_ret.
Qed.

(** The property of a state that was parsed. *)
Definition frames_ok (o : option SpsState) : Prop := match o with Some sps => in_u 32 (max_num_ref_frames sps) | None => True end.

Lemma ensures_try {A} (m : ST t (option A)) (k : A -> ST t (option SpsState)) : (forall a, ensures (k a) frames_ok) -> ensures (read_or_fail m k) frames_ok.
Proof. intros Hk. eapply ensures_bind; [apply ensures_any|]. intros [a|] _; [apply Hk|by apply ensures_ret]. Qed.

Lemma ensures_golomb (k : Z -> ST t (option SpsState)) : (forall v, in_u 32 v -> ensures (k v) frames_ok) -> ensures (read_or_fail ReadExponentialGolomb k) frames_ok.
Proof. intros Hk. eapply ensures_bind; [apply golomb_range|]. intros [v|] Hv; [by apply Hk|by apply ensures_ret]. Qed.

Lemma ensures_do (m : ST t bool) (k : ST t (option SpsState)) : ensures k frames_ok -> ensures (do_or_fail m k) frames_ok.
Proof. intros Hk. eapply ensures_bind; [apply ensures_any|]. intros [|] _; [done|by apply ensures_ret]. Qed.

Lemma sps_frames : ensures ParseSpsUpToVui frames_ok.
Proof.
  unfold ParseSpsUpToVui. repeat lazymatch goal with
  | |- ensures (read_or_fail ReadExponentialGolomb _) _ => apply ensures_golomb; intros
  | |- ensures (read_or_fail _ _) _ => apply ensures_try; intros
  | |- ensures (do_or_fail _ _) _ => apply ensures_do
  | |- ensures (if ?b then _ else _) _ => destruct b
  | |- ensures (mret None) _ => by apply ensures_ret
  end. repeat case_match. by apply ensures_ret.
Qed.

Lemma progress_ReadUInt8 : progress ReadUInt8.
Proof.
  intros s d r H. unfold ReadUInt8. destruct (ReadBits_spec 8 s d r ltac:(lia) H) as [(x & r' & s' & -> & Hx & _ & E & B & H')|[E _]];
    rewrite (ST_bind_ret _ _ _ _ _ E).
  - pose proof (bits_val_range x) as Hr. rewrite Hx in Hr. rewrite (proj2 (Z.leb_le _ _)) by lia. eexists _, s', x, r'.
    split; [done|]. split; [done|]. split; [done|]. split; [done|]. intros _. apply nonempty_len. lia.
  - exists None, s, [], r. rewrite app_nil_r. done.
Qed.

Lemma progress_ParseSps : progress ParseSpsUpToVui.
Proof.
  unfold ParseSpsUpToVui, read_chroma, read_poc, read_crop, ConsumeBytes. apply progress_try; [apply progress_ReadUInt8|]. intros profile.
  safe_parse. apply safe_scaling_lists.
Qed.

(** ** The rewriter *)

(** What a call appends to the destination. *)
Definition appended (length : Z) (dest : list Z) (res : ParseResult) (dest' : list Z) : Prop :=
  match res with
  | kVuiRewritten => exists w, dest' = dest ++ w /\ bytes_ok w /\ escaped w /\ len w <= 2 * (length + kMaxVuiSpsIncrease)
  | _ => dest' = dest
  end.

Section total.
Context (buffer : list Z) (length : Z) (color : option ColorSpace.t) (sps : option SpsState) (dest mem : list Z).
Context (Hbuf : bytes_ok buffer) (Hlen : 0 <= length <= len buffer) (Hmax : length + 64 <= 2 ^ 32 - 1) (Hmok : bytes_ok mem) (Hml : len mem = length + 64).

(** The copier from a position behind the state. *)
Lemma rewrite_tail state s w d r d' r' : position s d r -> position w d' r' -> len (bytes_ w) = length + 64 -> in_u 32 (max_num_ref_frames state) ->
  exists res dest', ('(vui_updated, bufs) ← CopyAndRewriteVui state color (s, w);
      match vui_updated with
      | None | Some kFailure => Some (kFailure, Some state, dest)
      | Some kVuiOk => Some (kVuiOk, Some state, dest)
      | Some kVuiRewritten =>
          '(out, _) ← finish_copy length bufs;
          match out with
          | None => Some (kFailure, Some state, dest)
          | Some out => dest' ← WriteRbsp out (len out) dest; Some (kVuiRewritten, Some state, dest')
          end
      end) = Some (res, Some state, dest') /\ appended length dest res dest'.
Proof using Type.
  clear Hbuf Hlen Hmax Hmok Hml. intros Hs Hw Hl Hk. destruct (safe_vui (len r + 1) state color Hk s w d r d' r' Hs Hw ltac:(lia)) as (a & s1 & w1 & x & r1 & d1 & r1' & E & _ & H1 & W1 & L1).
  rewrite E. cbn [mbind option_bind]. destruct a as [[| |]|]; try by eexists _, dest.
  destruct (safe_finish length s1 w1 _ _ _ _ H1 W1) as (out & st & E2 & Hout); [unfold kMaxVuiSpsIncrease; lia|]. rewrite E2. cbn [mbind option_bind].
  destruct out as [out|]; [|by eexists _, dest]. destruct Hout as [Hok Hol]. unfold WriteRbsp. rewrite (proj2 (Z.leb_le (len out) _)) by lia. cbn [check mbind option_bind].
  eexists kVuiRewritten, _. split; [done|]. eexists. split; [done|]. unfold len at 1 2 4. rewrite Nat2Z.id, firstn_all.
  split; [by apply write_rbsp_ok|]. split; [apply rbsp_escaped|]. pose proof (len_write_rbsp out 0). unfold kMaxVuiSpsIncrease. unfold len in *. lia.
Qed.

Lemma rewrite_total : exists res sps' dest', ParseAndRewriteSps buffer length sps color dest mem = Some (res, sps', dest') /\ appended length dest res dest'.
Proof using All.
  set (rbsp := parse_rbsp (take (Z.to_nat length) buffer)).
  assert (Hrbsp : bytes_ok rbsp /\ len rbsp <= length).
  { destruct (parse_rbsp_ok (take (Z.to_nat length) buffer)) as [Hok Hl]; [by apply Forall_take|]. split; [done|].
    unfold len in *. rewrite length_take in Hl. subst rbsp. lia. }
  destruct Hrbsp as [Hrok Hrl]. destruct (position_start rbsp Hrok ltac:(lia)) as (s0 & E0 & H0). pose proof (len_bits_of rbsp) as Hbl.
  destruct (progress_ParseSps s0 _ _ H0) as (o & s1 & x & r1 & E1 & B1 & Ebits & H1 & Hprog). cbn [app] in H1.
  unfold ParseAndRewriteSps, ParseRbsp. rewrite (proj2 (Z.leb_le length _)) by lia. cbn [check mbind option_bind]. fold rbsp. rewrite E0. cbn [mbind option_bind].
  rewrite E1. cbn [mbind option_bind]. pose proof (sps_frames _ _ _ E1) as Hk. destruct o as [state|]; [|by exists kFailure, sps, dest].
  assert (Hx : 0 < len x) by (apply nonempty_len; by apply Hprog). rewrite Ebits, len_app in Hbl. pose proof (len_nonneg r1).
  pose proof (at_pos _ _ _ H1) as Hpos. pose proof (at_bit _ _ _ H1) as Hbit. pose proof (at_byte _ _ _ H1) as Hbyte.
  unfold kMaxVuiSpsIncrease at 1. rewrite Hml, Z.eqb_refl. cbn [check mbind option_bind GetCurrentOffset].
  set (copied := byte_offset_ s1 + (if 0 <? bit_offset_ s1 then 1 else 0)).
  assert (Hcop : 0 <= copied <= len rbsp) by (subst copied; destruct (Z.ltb_spec 0 (bit_offset_ s1)); lia).
  rewrite (proj2 (Z.leb_le copied (len rbsp))), (proj2 (Z.leb_le copied (length + 64))) by lia. cbn [andb check mbind option_bind].
  set (out0 := take (Z.to_nat copied) rbsp ++ drop (Z.to_nat copied) mem).
  assert (Hout0 : bytes_ok out0 /\ len out0 = length + 64).
  { subst out0. split; [apply bytes_ok_app; split; [by apply Forall_take|by apply Forall_drop]|]. unfold len in *. rewrite length_app, length_take, length_drop. lia. }
  destruct Hout0 as [Hook Hol]. destruct (position_start out0 Hook ltac:(lia)) as (w0 & Ew0 & Hw0). rewrite Ew0. cbn [mbind option_bind].
  pose proof (len_bits_of out0) as Hob. destruct (cut (bits_of out0) (len x - 1)) as (d' & r' & Eout & Hd'); [lia|]. rewrite Eout in Hw0. rewrite Eout, len_app in Hob.
  set (back := if bit_offset_ s1 =? 0 then (byte_offset_ s1 - 1, 7) else (byte_offset_ s1, bit_offset_ s1 - 1)).
  destruct (seek_to w0 d' r' (fst back) (snd back) Hw0) as (w1 & Ew1 & Hw1 & Bw1); [lia|subst back; destruct (Z.eqb_spec (bit_offset_ s1) 0); cbn [fst snd]; lia..|].
  destruct back as [bb bt]. cbn [fst snd] in Ew1. rewrite Ew1. cbn [mbind option_bind].
  assert (Ebw : bytes_ w0 = out0) by (by apply construct_bytes).
  destruct (rewrite_tail state s1 w1 _ _ _ _ H1 Hw1) as (res & dest' & E & Ha); [by rewrite Bw1, Ebw|done|].
  exists res, (Some state), dest'. split; [exact E|done].
Qed.

End total.
