(* ===== verification/RtpExtensionMap.v ===== *)
(** * The map between header extension ids and extension types

    Model of [rtp_header_extension_map.h/.cc], of the enumeration [RTPExtensionType] of
    [rtp_rtcp_defines.h] and of [rtp_header_extension_size.cc].  The array [ids_] is a list that
    is indexed by the integer value of the type; [None] is an access outside the array or a
    failed check. *)

From stdpp Require Import strings.
From S2P Require Import Prelude.

(** ** The enumeration *)

Inductive RTPExtensionType :=
| kRtpExtensionNone
| kRtpExtensionTransmissionTimeOffset
| kRtpExtensionAudioLevel
| kRtpExtensionAbsoluteSendTime
| kRtpExtensionAbsoluteCaptureTime
| kRtpExtensionVideoRotation
| kRtpExtensionTransportSequenceNumber
| kRtpExtensionTransportSequenceNumber02
| kRtpExtensionPlayoutDelay
| kRtpExtensionVideoContentType
| kRtpExtensionVideoTiming
| kRtpExtensionFrameMarking
| kRtpExtensionRtpStreamId
| kRtpExtensionRepairedRtpStreamId
| kRtpExtensionMid
| kRtpExtensionGenericFrameDescriptor00
| kRtpExtensionGenericFrameDescriptor01
| kRtpExtensionGenericFrameDescriptor02
| kRtpExtensionColorSpace
| kRtpExtensionNumberOfExtensions.

#[global] Instance RTPExtensionType_eq_dec : EqDecision RTPExtensionType.
Proof. solve_decision. Defined.

(** The enumerators in the order of their values. *)
Definition enumerators : list RTPExtensionType :=
  [ kRtpExtensionNone; kRtpExtensionTransmissionTimeOffset; kRtpExtensionAudioLevel;
    kRtpExtensionAbsoluteSendTime; kRtpExtensionAbsoluteCaptureTime; kRtpExtensionVideoRotation;
    kRtpExtensionTransportSequenceNumber; kRtpExtensionTransportSequenceNumber02;
    kRtpExtensionPlayoutDelay; kRtpExtensionVideoContentType; kRtpExtensionVideoTiming;
    kRtpExtensionFrameMarking; kRtpExtensionRtpStreamId; kRtpExtensionRepairedRtpStreamId;
    kRtpExtensionMid; kRtpExtensionGenericFrameDescriptor00;
    kRtpExtensionGenericFrameDescriptor01; kRtpExtensionGenericFrameDescriptor02;
    kRtpExtensionColorSpace; kRtpExtensionNumberOfExtensions ].

(** The value of an enumerator, and [static_cast<RTPExtensionType>]. *)
Definition to_int (type : RTPExtensionType) : Z :=
  match type with
  | kRtpExtensionNone => 0
  | kRtpExtensionTransmissionTimeOffset => 1
  | kRtpExtensionAudioLevel => 2
  | kRtpExtensionAbsoluteSendTime => 3
  | kRtpExtensionAbsoluteCaptureTime => 4
  | kRtpExtensionVideoRotation => 5
  | kRtpExtensionTransportSequenceNumber => 6
  | kRtpExtensionTransportSequenceNumber02 => 7
  | kRtpExtensionPlayoutDelay => 8
  | kRtpExtensionVideoContentType => 9
  | kRtpExtensionVideoTiming => 10
  | kRtpExtensionFrameMarking => 11
  | kRtpExtensionRtpStreamId => 12
  | kRtpExtensionRepairedRtpStreamId => 13
  | kRtpExtensionMid => 14
  | kRtpExtensionGenericFrameDescriptor00 => 15
  | kRtpExtensionGenericFrameDescriptor01 => 16
  | kRtpExtensionGenericFrameDescriptor02 => 17
  | kRtpExtensionColorSpace => 18
  | kRtpExtensionNumberOfExtensions => 19
  end.

Definition of_int (v : Z) : option RTPExtensionType := enumerators !! Z.to_nat v.

(** The limits of [RtpExtension] in [api/rtp_parameters.h]. *)
Definition kMinId : Z := 1.
Definition kMaxId : Z := 255.
Definition kMaxValueSize : Z := 255.
Definition kOneByteHeaderExtensionMaxId : Z := 14.
Definition kOneByteHeaderExtensionMaxValueSize : Z := 16.

Module RtpHeaderExtensionMap.

(** [kExtensions]: the type and the uri of every known extension. *)
Definition kExtensions : list (RTPExtensionType * string) :=
  [ (kRtpExtensionTransmissionTimeOffset, "urn:ietf:params:rtp-hdrext:toffset");
    (kRtpExtensionAudioLevel, "urn:ietf:params:rtp-hdrext:ssrc-audio-level");
    (kRtpExtensionAbsoluteSendTime,
     "http://www.webrtc.org/experiments/rtp-hdrext/abs-send-time");
    (kRtpExtensionAbsoluteCaptureTime,
     "http://www.webrtc.org/experiments/rtp-hdrext/abs-capture-time");
    (kRtpExtensionVideoRotation, "urn:3gpp:video-orientation");
    (kRtpExtensionTransportSequenceNumber,
     "http://www.ietf.org/id/draft-holmer-rmcat-transport-wide-cc-extensions-01");
    (kRtpExtensionTransportSequenceNumber02,
     "http://www.webrtc.org/experiments/rtp-hdrext/transport-wide-cc-02");
    (kRtpExtensionPlayoutDelay, "http://www.webrtc.org/experiments/rtp-hdrext/playout-delay");
    (kRtpExtensionVideoContentType,
     "http://www.webrtc.org/experiments/rtp-hdrext/video-content-type");
    (kRtpExtensionVideoTiming, "http://www.webrtc.org/experiments/rtp-hdrext/video-timing");
    (kRtpExtensionFrameMarking,
     "http://tools.ietf.org/html/draft-ietf-avtext-framemarking-07");
    (kRtpExtensionRtpStreamId, "urn:ietf:params:rtp-hdrext:sdes:rtp-stream-id");
    (kRtpExtensionRepairedRtpStreamId,
     "urn:ietf:params:rtp-hdrext:sdes:repaired-rtp-stream-id");
    (kRtpExtensionMid, "urn:ietf:params:rtp-hdrext:sdes:mid");
    (kRtpExtensionGenericFrameDescriptor00,
     "http://www.webrtc.org/experiments/rtp-hdrext/generic-frame-descriptor-00");
    (kRtpExtensionGenericFrameDescriptor01,
     "http://www.webrtc.org/experiments/rtp-hdrext/generic-frame-descriptor-01");
    (kRtpExtensionGenericFrameDescriptor02,
     "http://www.webrtc.org/experiments/rtp-hdrext/generic-frame-descriptor-02");
    (kRtpExtensionColorSpace, "http://www.webrtc.org/experiments/rtp-hdrext/color-space") ]%string.

Definition kInvalidType : RTPExtensionType := kRtpExtensionNone.
Definition kInvalidId : Z := 0.

Record t := Make {
  ids_ : list Z;
  extmap_allow_mixed_ : bool
}.

Definition init (extmap_allow_mixed : bool) : t :=
  Make (replicate (Z.to_nat (to_int kRtpExtensionNumberOfExtensions)) kInvalidId)
       extmap_allow_mixed.

Definition ExtmapAllowMixed (this : t) : bool := extmap_allow_mixed_ this.

Definition SetExtmapAllowMixed (this : t) (b : bool) : t := Make (ids_ this) b.

(** [ids_[type] = id]. *)
Definition set_id (this : t) (type : RTPExtensionType) (id : Z) : option t :=
  check (to_int type <? len (ids_ this)) ;;
  Some (Make (<[Z.to_nat (to_int type) := id]> (ids_ this)) (extmap_allow_mixed_ this)).

Definition GetId (this : t) (type : RTPExtensionType) : option Z :=
  check (to_int kRtpExtensionNone <? to_int type) ;;
  check (to_int type <? to_int kRtpExtensionNumberOfExtensions) ;;
  ids_ this !! Z.to_nat (to_int type).

Definition IsRegistered (this : t) (type : RTPExtensionType) : option bool :=
  id ← GetId this type; Some (negb (id =? kInvalidId)).

(** The loop of [GetType]; [n] types from [type] on are left. *)
Fixpoint find_type (n : nat) (type id : Z) (ids : list Z) : option RTPExtensionType :=
  match n with
  | O => Some kInvalidType
  | S n' =>
      x ← ids !! Z.to_nat type;
      if x =? id then of_int type else find_type n' (type + 1) id ids
  end.

Definition GetType (this : t) (id : Z) : option RTPExtensionType :=
  check (kMinId <=? id) ;; check (id <=? kMaxId) ;;
  find_type (Z.to_nat (to_int kRtpExtensionNumberOfExtensions - 1))
            (to_int kRtpExtensionNone + 1) id (ids_ this).

(** The private [Register]; [uri] is only printed. *)
Definition Register (this : t) (id : Z) (type : RTPExtensionType) : option (bool * t) :=
  check (to_int kRtpExtensionNone <? to_int type) ;;
  check (to_int type <? to_int kRtpExtensionNumberOfExtensions) ;;
  if (id <? kMinId) || (kMaxId <? id) then Some (false, this) else
  registered_type ← GetType this id;
  if bool_decide (registered_type = type) then Some (true, this) else
  if bool_decide (registered_type <> kInvalidType) then Some (false, this) else
  registered ← IsRegistered this type;
  check (negb registered) ;;
  this' ← set_id this type (u8 id);
  Some (true, this').

Definition RegisterByType (this : t) (id : Z) (type : RTPExtensionType) : option (bool * t) :=
  match list_find (fun e => type = e.1) kExtensions with
  | Some (_, e) => Register this id e.1
  | None => None (* RTC_NOTREACHED *)
  end.

Definition RegisterByUri (this : t) (id : Z) (uri : string) : option (bool * t) :=
  match list_find (fun e => uri = e.2) kExtensions with
  | Some (_, e) => Register this id e.1
  | None => Some (false, this)
  end.

(** The constructor from a list of [RtpExtension]s: the result of a registration is ignored. *)
Fixpoint register_all (this : t) (extensions : list (Z * string)) : option t :=
  match extensions with
  | [] => Some this
  | (id, uri) :: rest =>
      r ← RegisterByUri this id uri;
      register_all r.2 rest
  end.

Definition of_extensions (extensions : list (Z * string)) : option t :=
  register_all (init false) extensions.

Definition Deregister (this : t) (type : RTPExtensionType) : option t :=
  registered ← IsRegistered this type;
  if registered : bool then set_id this type kInvalidId else Some this.

Definition DeregisterByUri (this : t) (uri : string) : option t :=
  match list_find (fun e => e.2 = uri) kExtensions with
  | Some (_, e) => set_id this e.1 kInvalidId
  | None => Some this
  end.

End RtpHeaderExtensionMap.

(** [RtpHeaderExtensionSize] *)
Module RtpHeaderExtensionSize.
Import RtpHeaderExtensionMap.

Definition kExtensionBlockHeaderSize : Z := 4.

(** The loop: the sum of the value sizes, the number of extensions, the size of each header. *)
Fixpoint size_loop (extensions : list (RTPExtensionType * Z)) (registered_extensions : t)
    (values_size num_extensions each_extension_header_size : Z) : option (Z * Z * Z) :=
  match extensions with
  | [] => Some (values_size, num_extensions, each_extension_header_size)
  | (type, value_size) :: rest =>
      id ← GetId registered_extensions type;
      if id =? kInvalidId then
        size_loop rest registered_extensions values_size num_extensions each_extension_header_size
      else
        size_loop rest registered_extensions (values_size + value_size) (num_extensions + 1)
          (if (kOneByteHeaderExtensionMaxId <? id) ||
              (kOneByteHeaderExtensionMaxValueSize <? value_size)
           then 2 else each_extension_header_size)
  end.

Definition RtpHeaderExtensionSize (extensions : list (RTPExtensionType * Z))
    (registered_extensions : t) : option Z :=
  r ← size_loop extensions registered_extensions 0 0 1;
  let '(values_size, num_extensions, each_extension_header_size) := r in
  if values_size =? 0 then Some 0 else
  let size := kExtensionBlockHeaderSize +
              each_extension_header_size * num_extensions + values_size in
  Some (size + 3 - (size + 3) mod 4).

End RtpHeaderExtensionSize.

(** ** The invariant *)

Import RtpHeaderExtensionMap.

(** The types that can be registered. *)
Definition known (type : RTPExtensionType) : Prop := 0 < to_int type < 19.

#[global] Instance known_dec type : Decision (known type).
Proof. unfold known. apply _. Defined.

Record wf (m : t) : Prop := {
  wf_length : length (ids_ m) = 19%nat;
  wf_bytes : bytes_ok (ids_ m);
  wf_none : ids_ m !! 0%nat = Some 0;
  wf_distinct : forall i j x,
    ids_ m !! i = Some x -> ids_ m !! j = Some x -> x <> 0 -> i = j
}.

(** The states a program can bring a map into. *)
Inductive reachable : t -> Prop :=
| reach_init b : reachable (init b)
| reach_mixed m b : reachable m -> reachable (SetExtmapAllowMixed m b)
| reach_by_type m id type r m' :
    reachable m -> RegisterByType m id type = Some (r, m') -> reachable m'
| reach_by_uri m id uri r m' :
    reachable m -> RegisterByUri m id uri = Some (r, m') -> reachable m'
| reach_deregister m type m' : reachable m -> Deregister m type = Some m' -> reachable m'
| reach_deregister_uri m uri m' : reachable m -> DeregisterByUri m uri = Some m' -> reachable m'.

Lemma to_int_lookup type : enumerators !! Z.to_nat (to_int type) = Some type.
Proof. by destruct type. Qed.

Lemma of_int_to_int type : of_int (to_int type) = Some type.
Proof. apply to_int_lookup. Qed.

Lemma to_int_of_int v type : 0 <= v -> of_int v = Some type -> to_int type = v.
Proof.
  unfold of_int. intros Hv H.
  assert (Hl : (Z.to_nat v < 20)%nat) by (apply lookup_lt_Some in H; exact H).
  destruct v as [|p|p]; [by injection H as <-| |lia].
  do 20 (destruct p as [p|p|]; try (cbn in Hl; lia); try (injection H as <-; done)).
Qed.

Lemma known_extensions : Forall (fun e => known e.1) kExtensions.
Proof. by_compute. Qed.

Lemma known_in type : known type -> type ∈ kExtensions.*1.
Proof.
  intros H. destruct type; try (unfold known in H; cbn in H; lia);
    apply (bool_decide_unpack _); vm_compute; exact I.
Qed.

(** ** Lookups *)

Lemma find_type_spec n k id ids :
  0 <= k -> k + Z.of_nat n <= len ids ->
  (exists i, k <= i < k + Z.of_nat n /\ ids !! Z.to_nat i = Some id /\
             find_type n k id ids = of_int i) \/
  (find_type n k id ids = Some kInvalidType /\
   forall i, k <= i < k + Z.of_nat n -> ids !! Z.to_nat i <> Some id).
Proof.
  revert k. induction n as [|n IH]; intros k Hk Hl; cbn [find_type].
  { right. split; [done|]. lia. }
  destruct (ids !! Z.to_nat k) as [x|] eqn:E.
  2:{ apply lookup_ge_None in E. unfold len in Hl. lia. }
  cbn [mbind option_bind]. destruct (Z.eqb_spec x id) as [->|Hne].
  { left. exists k. split; [lia|]. done. }
  destruct (IH (k + 1)) as [(i & Hi & Hx & Hf)|[Hf Hn]]; [lia|lia| |].
  - left. exists i. split; [lia|]. done.
  - right. split; [done|]. intros i Hi. destruct (decide (i = k)) as [->|]; [congruence|].
    apply Hn. lia.
Qed.

Lemma known_type type : known type <-> type <> kRtpExtensionNone /\
  type <> kRtpExtensionNumberOfExtensions.
Proof. unfold known. destruct type; cbn; intuition (congruence || lia). Qed.

Lemma GetId_lookup m type :
  known type -> GetId m type = ids_ m !! Z.to_nat (to_int type).
Proof.
  intros [H1 H2]. unfold GetId, check. cbn [to_int].
  rewrite (proj2 (Z.ltb_lt 0 _) H1), (proj2 (Z.ltb_lt _ 19) H2). done.
Qed.

Lemma GetId_Some m type id :
  GetId m type = Some id <-> known type /\ ids_ m !! Z.to_nat (to_int type) = Some id.
Proof.
  split.
  - intros H. assert (known type).
    { unfold GetId in H. apply check_Some in H as [H1 H]. apply check_Some in H as [H2 _].
      bool_prop. by split. }
    by rewrite GetId_lookup in H.
  - intros [Hk H]. by rewrite GetId_lookup.
Qed.

Section Wf.
Context (m : t) (Hwf : wf m).

Lemma len_ids : len (ids_ m) = 19.
Proof using Hwf. unfold len. by rewrite wf_length. Qed.

Lemma GetId_total type : known type -> exists id, GetId m type = Some id /\ byte_ok id.
Proof using Hwf.
  intros Hk. rewrite GetId_lookup by done. unfold known in Hk.
  destruct (ids_ m !! Z.to_nat (to_int type)) as [x|] eqn:E.
  - exists x. split; [done|]. eapply Forall_lookup_1; [apply wf_bytes|]; done.
  - apply lookup_ge_None in E. rewrite wf_length in E by done. lia.
Qed.

(** What [GetType] returns for a valid id: the type registered with it, or none. *)
Lemma GetType_spec id :
  kMinId <= id <= kMaxId ->
  (exists type, GetType m id = Some type /\ known type /\ GetId m type = Some id) \/
  (GetType m id = Some kInvalidType /\ forall type, GetId m type <> Some id).
Proof using Hwf.
  intros Hid. unfold kMinId, kMaxId in *. unfold GetType, check, kMinId, kMaxId.
  rewrite (proj2 (Z.leb_le 1 _)), (proj2 (Z.leb_le _ 255)) by lia.
  change (Z.to_nat (to_int kRtpExtensionNumberOfExtensions - 1)) with 18%nat.
  change (to_int kRtpExtensionNone + 1) with 1. cbn [mbind option_bind].
  destruct (find_type_spec 18 1 id (ids_ m)) as [(i & Hi & Hx & Hf)|[Hf Hn]];
    [lia|rewrite len_ids; lia| |].
  - left. destruct (of_int i) as [type|] eqn:E.
    2:{ apply lookup_ge_None in E. unfold enumerators in E. cbn [length] in E. lia. }
    assert (Ht : to_int type = i) by (apply to_int_of_int; [lia|done]).
    exists type. rewrite Hf. split; [done|].
    assert (known type) by (unfold known; lia). split; [done|].
    by rewrite GetId_lookup, Ht.
  - right. split; [done|]. intros type [Hk Hl]%GetId_Some. unfold known in Hk.
    apply (Hn (to_int type)); [lia|done].
Qed.

Lemma GetType_GetId id type :
  kMinId <= id <= kMaxId -> known type ->
  GetType m id = Some type <-> GetId m type = Some id.
Proof using Hwf.
  intros Hid Hk. destruct (GetType_spec id Hid) as [(type' & Ht & Hk' & Hi)|[Ht Hn]].
  - rewrite Ht. split; intros H.
    + by injection H as ->.
    + apply GetId_Some in H as [_ H]. apply GetId_Some in Hi as [_ Hi].
      assert (Hij := wf_distinct m Hwf _ _ _ H Hi ltac:(unfold kMinId in *; lia)).
      pose proof (of_int_to_int type) as H1. unfold of_int in H1.
      rewrite Hij in H1. pose proof (of_int_to_int type') as H2. unfold of_int in H2.
      congruence.
  - rewrite Ht. split; intros H; [|by destruct (Hn type)].
    injection H as <-. apply known_type in Hk. by destruct Hk.
Qed.

(** Storing a fresh id, or clearing an entry, keeps the ids distinct. *)
Lemma wf_set_id type id m' :
  known type -> byte_ok id -> (id <> 0 -> forall type', GetId m type' <> Some id) ->
  set_id m type id = Some m' ->
  wf m' /\ extmap_allow_mixed_ m' = extmap_allow_mixed_ m /\ GetId m' type = Some id /\
  forall type', type' <> type -> GetId m' type' = GetId m type'.
Proof using Hwf.
  intros Hk Hb Hfresh Hs. unfold set_id in Hs. apply check_Some in Hs as [_ Hs].
  injection Hs as <-. pose proof Hk as [Hk1 Hk2]. pose proof (wf_length m Hwf) as Hl.
  assert (Hat : forall i x, <[Z.to_nat (to_int type) := id]> (ids_ m) !! i = Some x ->
    (i = Z.to_nat (to_int type) /\ x = id) \/
    (i <> Z.to_nat (to_int type) /\ ids_ m !! i = Some x)).
  { intros i x. destruct (decide (i = Z.to_nat (to_int type))) as [->|Hne].
    - rewrite list_lookup_insert_eq by lia. intros [=->]. by left.
    - rewrite list_lookup_insert_ne by done. by right. }
  assert (Hold : forall i x, ids_ m !! i = Some x -> x = id -> id <> 0 -> False).
  { intros i x Hi -> Hid. pose proof (lookup_lt_Some _ _ _ Hi) as Hlt.
    destruct (decide (i = 0%nat)) as [->|].
    - rewrite wf_none in Hi by done. congruence.
    - destruct (lookup_lt_is_Some_2 enumerators i) as [type' Ht]; [cbn; lia|].
      assert (Hv : to_int type' = Z.of_nat i)
        by (apply to_int_of_int; [lia|unfold of_int; by rewrite Nat2Z.id]).
      apply (Hfresh Hid type'). apply GetId_Some. unfold known. rewrite Hv, Nat2Z.id.
      split; [lia|done]. }
  split; [|split; [done|split]].
  - constructor; cbn [ids_].
    + by rewrite length_insert.
    + apply Forall_insert; [apply wf_bytes|]; done.
    + rewrite list_lookup_insert_ne by lia. by apply wf_none.
    + intros i j x Hi%Hat Hj%Hat Hx.
      destruct Hi as [[-> ->]|[Hi1 Hi2]], Hj as [[-> Hj]|[Hj1 Hj2]]; [done| | |].
      * by destruct (Hold j id Hj2 eq_refl).
      * by destruct (Hold i x Hi2 Hj); subst.
      * by eapply wf_distinct.
  - apply GetId_Some. split; [done|]. cbn [ids_]. apply list_lookup_insert_eq. lia.
  - intros type' Hne. unfold GetId. cbn [ids_].
    rewrite list_lookup_insert_ne; [done|]. intros E. apply Hne.
    pose proof (to_int_lookup type) as H1. rewrite E in H1. rewrite to_int_lookup in H1.
    by injection H1.
Qed.
End Wf.

(** The outcome of a registration, on every branch. *)
Lemma Register_spec m id type :
  wf m -> known type ->
  (~ kMinId <= id <= kMaxId /\ Register m id type = Some (false, m)) \/
  (kMinId <= id <= kMaxId /\
   ((GetId m type = Some id /\ Register m id type = Some (true, m)) \/
    (exists other, other <> type /\ GetId m other = Some id /\
                   Register m id type = Some (false, m)) \/
    ((forall other, GetId m other <> Some id) /\ GetId m type <> Some 0 /\
     Register m id type = None) \/
    ((forall other, GetId m other <> Some id) /\ GetId m type = Some 0 /\
     exists m', Register m id type = Some (true, m') /\ wf m' /\
       extmap_allow_mixed_ m' = extmap_allow_mixed_ m /\ GetId m' type = Some id /\
       forall other, other <> type -> GetId m' other = GetId m other))).
Proof.
  intros Hwf Hk. pose proof Hk as [Hk1 Hk2]. unfold Register, check at 1 2. cbn [to_int].
  rewrite (proj2 (Z.ltb_lt 0 _) Hk1), (proj2 (Z.ltb_lt _ 19) Hk2). cbn [mbind option_bind].
  destruct (Z.ltb_spec id kMinId) as [Hlo|Hlo]; [left; split; [lia|done]|].
  destruct (Z.ltb_spec kMaxId id) as [Hhi|Hhi]; [left; split; [lia|done]|].
  right. split; [lia|]. cbn [orb].
  assert (Hid : kMinId <= id <= kMaxId) by lia.
  destruct (GetType_spec m Hwf id Hid) as [(type' & Ht & Hk' & Hi)|[Ht Hn]];
    rewrite Ht; cbn [mbind option_bind].
  - destruct (decide (type' = type)) as [->|Hne].
    + left. by rewrite bool_decide_true by done.
    + right; left. exists type'. split; [done|]. split; [done|].
      rewrite bool_decide_false by done. rewrite bool_decide_true; [done|].
      by apply known_type in Hk' as [].
  - right; right. rewrite bool_decide_false by (apply known_type in Hk as []; unfold kInvalidType; congruence).
    rewrite bool_decide_false by (intros E; by apply E).
    unfold IsRegistered. destruct (GetId_total m Hwf type Hk) as (x & Hx & Hb).
    rewrite Hx. cbn [mbind option_bind]. unfold kInvalidId. destruct (Z.eqb_spec x 0) as [->|Hx0].
    + right. split; [done|]. split; [done|]. cbn [negb check mbind option_bind].
      unfold kMinId, kMaxId in *.
      assert (Hu : u8 id = id) by (apply wrap_small; unfold in_u; lia). rewrite Hu.
      assert (Hs : exists m', set_id m type id = Some m').
      { unfold set_id, check. rewrite len_ids by done.
        rewrite (proj2 (Z.ltb_lt _ 19) Hk2). by eexists. }
      destruct Hs as [m' Hs]. rewrite Hs. exists m'. split; [done|].
      eapply wf_set_id; try done. unfold byte_ok. lia.
    + left. split; [done|]. split; [congruence|done].
Qed.

(** ** Every reachable map is well formed *)

Lemma find_known P `{forall e, Decision (P e)} i e :
  list_find P kExtensions = Some (i, e) -> known e.1 /\ P e.
Proof.
  intros (Hl & HP & _)%list_find_Some. split; [|done].
  apply (Forall_lookup_1 _ _ _ _ known_extensions Hl).
Qed.

Lemma RegisterByType_Register m id type :
  known type -> RegisterByType m id type = Register m id type.
Proof.
  intros Hk. unfold RegisterByType.
  destruct (list_find _ kExtensions) as [[i e]|] eqn:E.
  - apply find_known in E as [_ ->]. done.
  - apply list_find_None in E. apply known_in, list_elem_of_fmap in Hk as (e & -> & He).
    rewrite Forall_forall in E. by destruct (E e He).
Qed.

Lemma wf_init b : wf (init b).
Proof.
  assert (Hrep : forall i x, ids_ (init b) !! i = Some x -> x = 0)
    by (intros i x Hx; apply lookup_replicate in Hx as [-> _]; done).
  constructor; [done|apply Forall_replicate; unfold byte_ok, kInvalidId; lia|done|].
  intros i j x Hi _ Hx. apply Hrep in Hi. done.
Qed.

Lemma wf_Register m id type r m' :
  wf m -> known type -> Register m id type = Some (r, m') -> wf m'.
Proof.
  intros Hwf Hk Hr. destruct (Register_spec m id type Hwf Hk) as
    [[_ H]|[_ [[_ H]|[(? & _ & _ & H)|[(_ & _ & H)|(_ & _ & m2 & H & Hw & _)]]]]];
    rewrite H in Hr; first [discriminate|by injection Hr as <- <-].
Qed.

Lemma wf_clear m type m' : wf m -> known type -> set_id m type kInvalidId = Some m' -> wf m'.
Proof.
  intros Hwf Hk Hs. eapply (wf_set_id m Hwf type kInvalidId); [done| |done|exact Hs].
  unfold byte_ok, kInvalidId. lia.
Qed.

Lemma reachable_wf m : reachable m -> wf m.
Proof.
  induction 1 as [b|m b _ IH|m id type r m' _ IH H|m id uri r m' _ IH H|m type m' _ IH H
                 |m uri m' _ IH H].
  - apply wf_init.
  - destruct IH. by constructor.
  - unfold RegisterByType in H. destruct (list_find _ _) as [[i e]|] eqn:E; [|done].
    apply find_known in E as [Hk _]. by eapply wf_Register.
  - unfold RegisterByUri in H. destruct (list_find _ _) as [[i e]|] eqn:E; [|by injection H as <- <-].
    apply find_known in E as [Hk _]. by eapply wf_Register.
  - unfold Deregister, IsRegistered in H.
    destruct (GetId m type) as [id|] eqn:Hi; cbn in H; [|done].
    apply GetId_Some in Hi as [Hk _].
    destruct (negb _); [by eapply wf_clear|by injection H as <-].
  - unfold DeregisterByUri in H. destruct (list_find _ _) as [[i e]|] eqn:E; [|by injection H as <-].
    apply find_known in E as [Hk _]. by eapply wf_clear.
Qed.

(** C21: whatever registrations and deregistrations a program performs on a
    RtpHeaderExtensionMap, ids and types stay in one-to-one correspondence: [GetType] returns a
    type for an id exactly when [GetId] returns that id for the type, and every type has an id
    (0 when it is not registered) that fits a byte.  A registration that succeeds gives the type
    the id and changes no other type; one that fails leaves the map as it is, and happens only
    when the id is outside 1..255 or belongs to another type; it aborts only when the type is
    already registered under another id. *)
Theorem ext_map_bijection m :
  reachable m ->
  (forall id type, kMinId <= id <= kMaxId -> known type ->
     GetType m id = Some type <-> GetId m type = Some id) /\
  (forall type, known type -> exists id, GetId m type = Some id /\ byte_ok id) /\
  (forall id type, known type ->
     match RegisterByType m id type with
     | Some (true, m') =>
         GetId m' type = Some id /\
         forall other, other <> type -> GetId m' other = GetId m other
     | Some (false, m') =>
         m' = m /\
         (id < kMinId \/ kMaxId < id \/ exists other, other <> type /\ GetId m other = Some id)
     | None =>
         (forall other, GetId m other <> Some id) /\
         exists id', GetId m type = Some id' /\ id' <> 0 /\ id' <> id
     end).
Proof.
  intros Hr. pose proof (reachable_wf m Hr) as Hwf.
  split; [intros; by apply GetType_GetId|]. split; [intros; by apply GetId_total|].
  intros id type Hk. rewrite RegisterByType_Register by done.
  destruct (Register_spec m id type Hwf Hk) as
    [[Hid ->]|[_ [[Hi ->]|[(o & Ho & Hi & ->)|[(Hn & H0 & ->)|(_ & _ & m2 & -> & _ & _ & H1 & H2)]]]]].
  - split; [done|]. unfold kMinId, kMaxId in *. lia.
  - done.
  - split; [done|]. right; right. by exists o.
  - split; [done|]. destruct (GetId_total m Hwf type Hk) as (x & Hx & _).
    exists x. split; [done|]. split; congruence.
  - done.
Qed.

(** A map with two registrations and one deregistration. *)
Definition sample_map : t :=
  Make [0; 0; 0; 3; 0; 0; 200; 0; 0; 0; 0; 0; 0; 0; 0; 0; 0; 0; 0] true.

Lemma sample_map_reachable : reachable sample_map.
Proof.
  eapply (reach_deregister _ kRtpExtensionAudioLevel).
  - eapply (reach_by_uri _ 200 "http://www.ietf.org/id/draft-holmer-rmcat-transport-wide-cc-extensions-01").
    + eapply (reach_by_type _ 3 kRtpExtensionAbsoluteSendTime).
      * eapply (reach_by_type _ 1 kRtpExtensionAudioLevel); [apply (reach_init true)|reflexivity].
      * reflexivity.
    + vm_compute. reflexivity.
  - reflexivity.
Qed.

Lemma ext_map_bijection_witness :
  reachable sample_map /\ GetType sample_map 200 = Some kRtpExtensionTransportSequenceNumber.
Proof.
  split; [exact sample_map_reachable|].
  apply (ext_map_bijection sample_map sample_map_reachable).
  - unfold kMinId, kMaxId. lia.
  - unfold known. cbn. lia.
  - reflexivity.
Defined.
