(* ===== verification/CowBuffer.v ===== *)
(** * Copy-on-write buffers

    Model of [rtc_base/buffer.h] and [rtc_base/copy_on_write_buffer.h/.cc].  Several
    [CopyOnWriteBuffer] objects can point to one reference counted [Buffer]; [heap] keeps the
    buffers and the objects, and the reference count of a buffer is the number of objects that
    point to it.  [Value] is the abstract view of one object: the memory it can reach and its
    size.  The refinement theorem says that every operation acts on its object as the abstract
    operation does and changes no byte of any other object.

    Memory that the source leaves uninitialised holds arbitrary bytes: the operations that
    allocate take the bytes [g] the allocator happens to return. *)

From stdpp Require Import gmap.
From S2P Require Import Prelude Buffer.

(** [n] bytes of fresh memory. *)
Definition fresh_mem (g : list Z) (n : Z) : list Z :=
  take (Z.to_nat n) (g ++ replicate (Z.to_nat n) 0).

Lemma len_fresh_mem g n : 0 <= n -> len (fresh_mem g n) = n.
Proof.
  intros. unfold fresh_mem, len. rewrite length_take, length_app, length_replicate. lia.
Qed.

Lemma bytes_ok_fresh_mem g n : bytes_ok g -> bytes_ok (fresh_mem g n).
Proof.
  intros. unfold fresh_mem. apply Forall_take, Forall_app. split; [done|].
  apply Forall_replicate. unfold byte_ok. lia.
Qed.

(** [memcpy] into memory that starts at the list's head: [None] when it does not fit. *)
Definition copy_into (m : list Z) (pos : Z) (bs : list Z) : option (list Z) :=
  if (0 <=? pos) && (pos + len bs <=? len m) then Some (splice pos bs m) else None.

(** ** [rtc::BufferT<uint8_t>] *)
Module BufferT.

(** [data_] has [capacity_] elements, of which [size_] are in use. *)
Record t := Make {
  data_ : list Z;
  size_ : Z
}.

Definition capacity (b : t) : Z := len (data_ b).

Definition IsConsistent (b : t) : bool := size_ b <=? capacity b.

Definition with_capacity (g : list Z) (size capacity : Z) : t :=
  Make (fresh_mem g (Z.max size capacity)) size.

Definition of_size (g : list Z) (size : Z) : t := with_capacity g size size.

Definition of_data_capacity (g : list Z) (data : list Z) (capacity : Z) : option t :=
  let b := with_capacity g (len data) capacity in
  m ← copy_into (data_ b) 0 data; Some (Make m (size_ b)).

Definition of_data (g : list Z) (data : list Z) : option t :=
  of_data_capacity g data (len data).

Definition EnsureCapacityWithHeadroom (g : list Z) (b : t) (new_cap : Z) (extra_headroom : bool)
    : option t :=
  check (IsConsistent b) ;;
  if new_cap <=? capacity b then Some b else
  let new_capacity := if extra_headroom then Z.max new_cap (capacity b + capacity b / 2)
                      else new_cap in
  m ← copy_into (fresh_mem g new_capacity) 0 (take (Z.to_nat (size_ b)) (data_ b));
  Some (Make m (size_ b)).

Definition SetSize (g : list Z) (b : t) (size : Z) : option t :=
  b' ← EnsureCapacityWithHeadroom g b size true;
  Some (Make (data_ b') size).

Definition AppendData (g : list Z) (b : t) (data : list Z) : option t :=
  check (IsConsistent b) ;;
  let new_size := size_ b + len data in
  b' ← EnsureCapacityWithHeadroom g b new_size true;
  m ← copy_into (data_ b') (size_ b') data;
  Some (Make m new_size).

Definition SetData (g : list Z) (b : t) (data : list Z) : option t :=
  check (IsConsistent b) ;;
  AppendData g (Make (data_ b) 0) data.

Definition Clear (b : t) : t := Make (data_ b) 0.

End BufferT.

(** ** The objects and the buffers they share *)
Module CopyOnWriteBuffer.

Record t := Make {
  buffer_ : option nat;  (* the shared buffer, or null *)
  offset_ : Z;
  size_ : Z
}.

Record heap := Heap {
  buffers : gmap nat BufferT.t;
  objects : gmap nat t
}.

Definition null_object : t := Make None 0 0.

(** The number of objects that point to the buffer at [l]. *)
Definition ref_count (h : heap) (l : nat) : nat :=
  size (dom (filter (fun x : nat * t => buffer_ x.2 = Some l) (objects h)) : gset nat).

Definition HasOneRef (h : heap) (l : nat) : bool := bool_decide (ref_count h l = 1%nat).

Definition get_buffer (h : heap) (o : t) : option (option BufferT.t) :=
  match buffer_ o with
  | None => Some None
  | Some l => b ← buffers h !! l; Some (Some b)
  end.

Definition IsConsistent (h : heap) (o : t) : bool :=
  match buffer_ o with
  | None => (size_ o =? 0) && (offset_ o =? 0)
  | Some l =>
      match buffers h !! l with
      | Some b =>
          (0 <? BufferT.capacity b) && (offset_ o <=? BufferT.size_ b) &&
          (offset_ o + size_ o <=? BufferT.size_ b)
      | None => false
      end
  end.

Definition set_object (h : heap) (x : nat) (o : t) : heap :=
  Heap (buffers h) (<[x := o]> (objects h)).

Definition set_buffer (h : heap) (l : nat) (b : BufferT.t) : heap :=
  Heap (<[l := b]> (buffers h)) (objects h).

(** [buffer_ = new RefCountedObject<Buffer>(...)], with the new offset and size. *)
Definition new_buffer (h : heap) (x : nat) (b : BufferT.t) (size : Z) : heap :=
  let l := fresh (dom (buffers h)) in
  set_object (set_buffer h l b) x (Make (Some l) 0 size).

(** The check at the end of an operation on [x]. *)
Definition checked (x : nat) (h : heap) : option heap :=
  o ← objects h !! x; check (IsConsistent h o) ;; Some h.

Definition capacity (h : heap) (o : t) : option Z :=
  check (IsConsistent h o) ;;
  b ← get_buffer h o;
  Some (match b with Some b => BufferT.capacity b - offset_ o | None => 0 end).

(** ** Constructors, assignments and the destructor *)

Definition construct_size (g : list Z) (h : heap) (x : nat) (size : Z) : option heap :=
  checked x (if 0 <? size then new_buffer h x (BufferT.of_size g size) size
             else set_object h x (Make None 0 size)).

Definition construct_capacity (g : list Z) (h : heap) (x : nat) (size capacity : Z)
    : option heap :=
  checked x (if (0 <? size) || (0 <? capacity)
             then new_buffer h x (BufferT.with_capacity g size capacity) size
             else set_object h x (Make None 0 size)).

(** The copy constructor, [operator=] and [SetData(const CopyOnWriteBuffer&)]. *)
Definition copy_construct (h : heap) (x y : nat) : option heap :=
  o ← objects h !! y; Some (set_object h x o).

(** The move constructor and the move assignment. *)
Definition move_construct (h : heap) (x y : nat) : option heap :=
  o ← objects h !! y; Some (set_object (set_object h y null_object) x o).

Definition destroy (h : heap) (x : nat) : heap :=
  Heap (buffers h) (delete x (objects h)).

Definition Slice (h : heap) (x y : nat) (offset length : Z) : option heap :=
  o ← objects h !! y;
  check (offset <=? size_ o) ;; check (length + offset <=? size_ o) ;;
  Some (set_object h x (Make (buffer_ o) (offset_ o + offset) length)).

(** ** Operations *)

Definition UnshareAndEnsureCapacity (g : list Z) (h : heap) (x : nat) (new_capacity : Z)
    : option heap :=
  o ← objects h !! x;
  l ← buffer_ o;
  b ← buffers h !! l;
  cap ← capacity h o;
  if HasOneRef h l && (new_capacity <=? cap) then Some h else
  b' ← BufferT.of_data_capacity g
         (take (Z.to_nat (size_ o)) (ptr_add (BufferT.data_ b) (offset_ o))) new_capacity;
  checked x (new_buffer h x b' (size_ o)).

(** The non-const [data()], followed by a write of [bs] at the pointer plus [pos]. *)
Definition write (g : list Z) (h : heap) (x : nat) (pos : Z) (bs : list Z) : option heap :=
  o ← objects h !! x;
  check (IsConsistent h o) ;;
  cap ← capacity h o;
  h' ← UnshareAndEnsureCapacity g h x cap;
  o' ← objects h' !! x;
  l ← buffer_ o';
  b ← buffers h' !! l;
  check (0 <=? pos) ;;
  m ← copy_into (BufferT.data_ b) (offset_ o' + pos) bs;
  Some (set_buffer h' l (BufferT.Make m (BufferT.size_ b))).

(** The bytes [cdata()[0] .. cdata()[size() - 1]]. *)
Definition contents (h : heap) (x : nat) : option (list Z) :=
  o ← objects h !! x;
  match buffer_ o with
  | None => Some []
  | Some l =>
      b ← buffers h !! l;
      Some (take (Z.to_nat (size_ o)) (ptr_add (BufferT.data_ b) (offset_ o)))
  end.

Definition SetSize (g : list Z) (h : heap) (x : nat) (size : Z) : option heap :=
  o ← objects h !! x;
  check (IsConsistent h o) ;;
  match buffer_ o with
  | None =>
      checked x (if 0 <? size then new_buffer h x (BufferT.of_size g size) size else h)
  | Some _ =>
      if size <=? size_ o then Some (set_object h x (Make (buffer_ o) (offset_ o) size)) else
      cap ← capacity h o;
      h' ← UnshareAndEnsureCapacity g h x (Z.max cap size);
      o' ← objects h' !! x;
      l ← buffer_ o';
      b ← buffers h' !! l;
      b' ← BufferT.SetSize g b (size + offset_ o');
      checked x (set_object (set_buffer h' l b') x (Make (Some l) (offset_ o') size))
  end.

Definition EnsureCapacity (g : list Z) (h : heap) (x : nat) (new_capacity : Z) : option heap :=
  o ← objects h !! x;
  check (IsConsistent h o) ;;
  match buffer_ o with
  | None =>
      checked x (if 0 <? new_capacity
                 then new_buffer h x (BufferT.with_capacity g 0 new_capacity) 0 else h)
  | Some _ =>
      cap ← capacity h o;
      if new_capacity <=? cap then Some h else
      h' ← UnshareAndEnsureCapacity g h x new_capacity; checked x h'
  end.

Definition Clear (g : list Z) (h : heap) (x : nat) : option heap :=
  o ← objects h !! x;
  match buffer_ o with
  | None => Some h
  | Some l =>
      b ← buffers h !! l;
      if HasOneRef h l then
        checked x (set_object (set_buffer h l (BufferT.Clear b)) x (Make (Some l) 0 0))
      else
        cap ← capacity h o;
        checked x (new_buffer h x (BufferT.with_capacity g 0 cap) 0)
  end.

Definition SetData (g : list Z) (h : heap) (x : nat) (data : list Z) : option heap :=
  o ← objects h !! x;
  check (IsConsistent h o) ;;
  match buffer_ o with
  | None =>
      if 0 <? len data then
        b ← BufferT.of_data g data; checked x (new_buffer h x b (len data))
      else checked x (set_object h x (Make None 0 (len data)))
  | Some l =>
      if negb (HasOneRef h l) then
        cap ← capacity h o;
        b ← BufferT.of_data_capacity g data cap;
        checked x (new_buffer h x b (len data))
      else
        b ← buffers h !! l;
        b' ← BufferT.SetData g b data;
        checked x (set_object (set_buffer h l b') x (Make (Some l) 0 (len data)))
  end.

Definition AppendData (g : list Z) (h : heap) (x : nat) (data : list Z) : option heap :=
  o ← objects h !! x;
  check (IsConsistent h o) ;;
  match buffer_ o with
  | None => b ← BufferT.of_data g data; checked x (new_buffer h x b (len data))
  | Some _ =>
      cap ← capacity h o;
      h' ← UnshareAndEnsureCapacity g h x (Z.max cap (size_ o + len data));
      o' ← objects h' !! x;
      l ← buffer_ o';
      b ← buffers h' !! l;
      b1 ← BufferT.SetSize g b (offset_ o' + size_ o');
      b2 ← BufferT.AppendData g b1 data;
      checked x (set_object (set_buffer h' l b2) x (Make (Some l) (offset_ o') (size_ o' + len data)))
  end.

End CopyOnWriteBuffer.

(** ** The abstract view of one object

    [mem] is the memory from [data()] to the end of the allocation, [prefix] the memory in front
    of it (of a slice), [shared] whether another object points to the same buffer.  A null object
    has neither. *)
Module Value.

Record t := Make {
  prefix : list Z;
  mem : list Z;
  size : Z;
  shared : bool
}.

Definition null : t := Make [] [] 0 false.

Definition is_null (v : t) : bool :=
  match prefix v, mem v with [], [] => true | _, _ => false end.

(** The bytes an owner of the object sees. *)
Definition contents (v : t) : list Z := take (Z.to_nat (size v)) (mem v).

Definition capacity (v : t) : Z := len (mem v).

(** A new allocation of at least [cap] bytes that starts with [bs]. *)
Definition realloc (g bs : list Z) (cap : Z) : t :=
  Make [] (splice 0 bs (fresh_mem g (Z.max (len bs) cap))) (len bs) false.

Definition unshare (g : list Z) (v : t) (new_capacity : Z) : option t :=
  if negb (shared v) && (new_capacity <=? capacity v) then Some v
  else if Z.max (size v) new_capacity =? 0 then None
  else Some (realloc g (contents v) new_capacity).

Definition with_mem (v : t) (m : list Z) : t := Make (prefix v) m (size v) (shared v).

Definition with_size (v : t) (n : Z) : t := Make (prefix v) (mem v) n (shared v).

(** The pointer returned by the non-const [data()]. *)
Definition data (g : list Z) (v : t) : option t :=
  if is_null v then None else unshare g v (capacity v).

Definition write (g : list Z) (v : t) (pos : Z) (bs : list Z) : option t :=
  v' ← data g v;
  m ← copy_into (mem v') pos bs;
  Some (with_mem v' m).

Definition SetSize (g : list Z) (v : t) (n : Z) : option t :=
  if is_null v then Some (if 0 <? n then realloc g (fresh_mem g n) n else v) else
  if n <=? size v then Some (with_size v n) else
  v' ← unshare g v (Z.max (capacity v) n);
  Some (with_size v' n).

Definition EnsureCapacity (g : list Z) (v : t) (n : Z) : option t :=
  if is_null v then Some (if 0 <? n then realloc g [] n else v) else
  if n <=? capacity v then Some v else unshare g v n.

Definition Clear (g : list Z) (v : t) : option t :=
  if is_null v then Some v else
  if shared v then
    if capacity v =? 0 then None else Some (realloc g [] (capacity v))
  else Some (Make [] (prefix v ++ mem v) 0 false).

Definition SetData (g : list Z) (v : t) (bs : list Z) : option t :=
  if is_null v then Some (if 0 <? len bs then realloc g bs (len bs) else v) else
  if shared v then
    if Z.max (len bs) (capacity v) =? 0 then None else Some (realloc g bs (capacity v))
  else
    let whole := prefix v ++ mem v in
    Some (if len bs <=? len whole then Make [] (splice 0 bs whole) (len bs) false
          else realloc g bs (len whole + len whole / 2)).

Definition AppendData (g : list Z) (v : t) (bs : list Z) : option t :=
  if is_null v then if 0 <? len bs then Some (realloc g bs (len bs)) else None else
  v' ← unshare g v (Z.max (capacity v) (size v + len bs));
  Some (Make (prefix v') (splice (size v') bs (mem v')) (size v' + len bs) (shared v')).

End Value.

(** ** Runs of operations *)

Inductive op :=
| OpSetSize (n : Z)
| OpEnsureCapacity (n : Z)
| OpClear
| OpSetData (bs : list Z)
| OpAppendData (bs : list Z)
| OpWrite (pos : Z) (bs : list Z).

(** Sizes are [size_t] in the source. *)
Definition op_ok (o : op) : Prop :=
  match o with OpSetSize n | OpEnsureCapacity n => 0 <= n | _ => True end.

Definition heap_run (g : list Z) (h : CopyOnWriteBuffer.heap) (x : nat) (o : op)
    : option CopyOnWriteBuffer.heap :=
  match o with
  | OpSetSize n => CopyOnWriteBuffer.SetSize g h x n
  | OpEnsureCapacity n => CopyOnWriteBuffer.EnsureCapacity g h x n
  | OpClear => CopyOnWriteBuffer.Clear g h x
  | OpSetData bs => CopyOnWriteBuffer.SetData g h x bs
  | OpAppendData bs => CopyOnWriteBuffer.AppendData g h x bs
  | OpWrite pos bs => CopyOnWriteBuffer.write g h x pos bs
  end.

Definition value_run (g : list Z) (v : Value.t) (o : op) : option Value.t :=
  match o with
  | OpSetSize n => Value.SetSize g v n
  | OpEnsureCapacity n => Value.EnsureCapacity g v n
  | OpClear => Value.Clear g v
  | OpSetData bs => Value.SetData g v bs
  | OpAppendData bs => Value.AppendData g v bs
  | OpWrite pos bs => Value.write g v pos bs
  end.

Module Refinement.
Import CopyOnWriteBuffer.

(** An object of the heap is consistent: the class invariant of the source. *)
Definition obj_ok (h : heap) (o : t) : Prop :=
  match buffer_ o with
  | None => offset_ o = 0 /\ size_ o = 0
  | Some l => exists b, buffers h !! l = Some b /\ 0 < BufferT.capacity b /\
      0 <= offset_ o /\ 0 <= size_ o /\
      offset_ o + size_ o <= BufferT.size_ b <= BufferT.capacity b
  end.

Definition wf (h : heap) : Prop := forall x o, objects h !! x = Some o -> obj_ok h o.

(** The abstraction function. *)
Definition view (h : heap) (x : nat) : option Value.t :=
  o ← objects h !! x;
  match buffer_ o with
  | None => Some Value.null
  | Some l =>
      b ← buffers h !! l;
      let i := Z.to_nat (offset_ o) in
      Some (Value.Make (take i (BufferT.data_ b)) (drop i (BufferT.data_ b)) (size_ o)
                       (negb (HasOneRef h l)))
  end.

(** What must not change of the objects an operation is not called on. *)
Definition bytes_of (v : Value.t) : list Z * list Z * Z :=
  (Value.prefix v, Value.mem v, Value.size v).

Definition others_same (h h' : heap) (x : nat) : Prop :=
  forall y, y <> x -> bytes_of <$> view h y = bytes_of <$> view h' y.

Lemma others_same_trans h1 h2 h3 x :
  others_same h1 h2 x -> others_same h2 h3 x -> others_same h1 h3 x.
Proof. intros H1 H2 y Hy. by rewrite H1, H2. Qed.

Lemma HasOneRef_iff h l :
  HasOneRef h l = true <->
  exists x o, objects h !! x = Some o /\ buffer_ o = Some l /\
    forall y o', objects h !! y = Some o' -> buffer_ o' = Some l -> y = x.
Proof.
  unfold HasOneRef, ref_count. rewrite bool_decide_eq_true.
  assert (Hin : forall y, y ∈ (dom (filter (fun x : nat * t => buffer_ x.2 = Some l)
      (objects h)) : gset nat) <-> exists o, objects h !! y = Some o /\ buffer_ o = Some l).
  { intros y. rewrite elem_of_dom. unfold is_Some. by setoid_rewrite map_lookup_filter_Some. }
  split.
  - intros [x Hx]%size_1_elem_of. assert (Hx' : x ∈ ({[x]} : gset nat)) by set_solver.
    rewrite <- Hx, Hin in Hx'. destruct Hx' as (o & H1 & H2). exists x, o.
    split; [done|]. split; [done|]. intros y o' H3 H4.
    assert (Hy : y ∈ ({[x]} : gset nat)) by (rewrite <- Hx, Hin; eauto). set_solver.
  - intros (x & o & H1 & H2 & H3). rewrite <- (size_singleton (C := gset nat) x).
    apply set_size_proper. intros y. rewrite Hin. rewrite elem_of_singleton.
    split; [intros (o' & H4 & H5); eauto|intros ->; eauto].
Qed.

Lemma one_ref_unique h l x y o o' :
  HasOneRef h l = true -> objects h !! x = Some o -> buffer_ o = Some l ->
  objects h !! y = Some o' -> buffer_ o' = Some l -> y = x.
Proof.
  intros (z & oz & _ & _ & Hz)%HasOneRef_iff H1 H2 H3 H4.
  rewrite (Hz _ _ H1 H2). by apply (Hz _ _ H3 H4).
Qed.

Lemma IsConsistent_ok h o : obj_ok h o -> IsConsistent h o = true.
Proof.
  unfold obj_ok, IsConsistent. destruct (buffer_ o) as [l|].
  - intros (b & -> & H). apply andb_true_iff. split; [apply andb_true_iff; split|]; try apply Z.leb_le;
      try apply Z.ltb_lt; lia.
  - intros [-> ->]. done.
Qed.

(** The view of an object depends on its buffer and on the sharing only. *)
Lemma view_same h h' y :
  objects h' !! y = objects h !! y ->
  (forall o l, objects h !! y = Some o -> buffer_ o = Some l -> buffers h' !! l = buffers h !! l) ->
  bytes_of <$> view h y = bytes_of <$> view h' y.
Proof.
  intros Ho Hb. unfold view. rewrite Ho. destruct (objects h !! y) as [o|] eqn:E; [|done].
  cbn [mbind option_bind]. destruct (buffer_ o) as [l|] eqn:El; [|done].
  rewrite (Hb o l) by done. by destruct (buffers h !! l).
Qed.

(** A new buffer for one object. *)
Lemma new_buffer_ok h x b n :
  wf h -> 0 < BufferT.capacity b -> 0 <= n <= BufferT.size_ b ->
  BufferT.size_ b <= BufferT.capacity b ->
  let h' := new_buffer h x b n in
  wf h' /\ view h' x = Some (Value.Make [] (BufferT.data_ b) n false) /\ others_same h h' x /\
  checked x h' = Some h'.
Proof.
  intros Hwf Hc Hn Hs h'. set (l := fresh (dom (buffers h))) in *.
  assert (Hl : buffers h !! l = None) by (apply not_elem_of_dom, is_fresh).
  assert (Hx : objects h' !! x = Some (Make (Some l) 0 n)) by apply lookup_insert_eq.
  assert (Hb : buffers h' !! l = Some b) by apply lookup_insert_eq.
  assert (Hy : forall y o, y <> x -> objects h' !! y = Some o -> objects h !! y = Some o)
    by (intros y o Hne H; unfold h', new_buffer in H; cbn [objects set_object set_buffer] in H;
      by rewrite lookup_insert_ne in H).
  assert (Hold : forall y o l', objects h !! y = Some o -> buffer_ o = Some l' -> l' <> l).
  { intros y o l' H1 H2 ->. pose proof (Hwf y o H1) as Hok. unfold obj_ok in Hok.
    rewrite H2 in Hok. destruct Hok as (? & ? & _). congruence. }
  assert (Hok : obj_ok h' (Make (Some l) 0 n)) by (exists b; cbn [offset_ size_]; repeat split; done || lia).
  split; [|split; [|split]].
  - intros y o Ho. destruct (decide (y = x)) as [->|Hne]; [congruence|].
    pose proof (Hy y o Hne Ho) as Ho'. pose proof (Hwf y o Ho') as Hok'.
    unfold obj_ok in *. destruct (buffer_ o) as [l'|] eqn:El; [|done].
    destruct Hok' as (b' & Hb' & ?). exists b'. split; [|done].
    unfold h', new_buffer, set_object, set_buffer. cbn [buffers]. rewrite lookup_insert_ne; [done|].
    intros <-. by eapply (Hold y o _ Ho' El).
  - unfold view. rewrite Hx. cbn [mbind option_bind buffer_ offset_ size_]. rewrite Hb.
    cbn [mbind option_bind]. do 2 f_equal.
    rewrite (proj2 (HasOneRef_iff h' l)); [done|]. exists x, (Make (Some l) 0 n).
    split; [done|]. split; [done|]. intros y o Ho Hl'. destruct (decide (y = x)) as [|Hne]; [done|].
    by destruct (Hold y o l (Hy y o Hne Ho) Hl').
  - intros y Hne. apply view_same.
    + unfold h', new_buffer, set_object, set_buffer. cbn [objects]. by rewrite lookup_insert_ne.
    + intros o l' Ho Hl'. unfold h', new_buffer, set_object, set_buffer. cbn [buffers].
      rewrite lookup_insert_ne; [done|]. intros <-. by eapply (Hold y o _ Ho Hl').
  - unfold checked. rewrite Hx. cbn [mbind option_bind]. by rewrite IsConsistent_ok.
Qed.

(** A store into a buffer that only one object points to, with a new offset and size. *)
Lemma in_place_ok h x o l b' off n :
  wf h -> objects h !! x = Some o -> buffer_ o = Some l -> HasOneRef h l = true ->
  0 < BufferT.capacity b' -> 0 <= off -> 0 <= n ->
  off + n <= BufferT.size_ b' <= BufferT.capacity b' ->
  let h' := set_object (set_buffer h l b') x (Make (Some l) off n) in
  wf h' /\
  view h' x = Some (Value.Make (take (Z.to_nat off) (BufferT.data_ b'))
                               (drop (Z.to_nat off) (BufferT.data_ b')) n false) /\
  others_same h h' x /\ checked x h' = Some h'.
Proof.
  intros Hwf Hx Hl H1 Hc Hoff Hn Hs h'.
  assert (Hx' : objects h' !! x = Some (Make (Some l) off n)) by apply lookup_insert_eq.
  assert (Hb' : buffers h' !! l = Some b') by apply lookup_insert_eq.
  assert (Hy : forall y oy, y <> x -> objects h' !! y = Some oy -> objects h !! y = Some oy)
    by (intros y oy Hne H; unfold h' in H; cbn [objects set_object set_buffer] in H;
      by rewrite lookup_insert_ne in H).
  assert (Hothers : forall y oy l', y <> x -> objects h !! y = Some oy -> buffer_ oy = Some l' ->
    l' <> l) by (intros y oy l' Hne Ho Hl' ->; by apply Hne, (one_ref_unique h l x y o oy)).
  assert (Hok : obj_ok h' (Make (Some l) off n)) by (exists b'; cbn [offset_ size_]; repeat split; done || lia).
  split; [|split; [|split]].
  - intros y oy Ho. destruct (decide (y = x)) as [->|Hne]; [congruence|].
    pose proof (Hwf y oy (Hy y oy Hne Ho)) as Hok'. unfold obj_ok in *.
    destruct (buffer_ oy) as [l'|] eqn:El; [|done].
    destruct Hok' as (b & Hb & ?). exists b. split; [|done].
    unfold h', set_object, set_buffer. cbn [buffers]. rewrite lookup_insert_ne; [done|].
    intros <-. by eapply (Hothers y oy); [|apply Hy| |].
  - unfold view. rewrite Hx'. cbn [mbind option_bind buffer_ offset_ size_]. rewrite Hb'.
    cbn [mbind option_bind]. do 2 f_equal.
    rewrite (proj2 (HasOneRef_iff h' l)); [done|]. exists x, (Make (Some l) off n).
    split; [done|]. split; [done|]. intros y oy Ho Hl'. destruct (decide (y = x)) as [|Hne]; [done|].
    by destruct (Hothers y oy l Hne (Hy y oy Hne Ho) Hl').
  - intros y Hne. apply view_same.
    + unfold h', set_object, set_buffer. cbn [objects]. by rewrite lookup_insert_ne.
    + intros oy l' Ho Hl'. unfold h', set_object, set_buffer. cbn [buffers].
      rewrite lookup_insert_ne; [done|]. intros <-. by eapply (Hothers y oy).
  - unfold checked. rewrite Hx'. cbn [mbind option_bind]. by rewrite IsConsistent_ok.
Qed.

(** The cases of an object of a well-formed heap. *)
Lemma object_cases h x o :
  wf h -> objects h !! x = Some o ->
  IsConsistent h o = true /\
  ((buffer_ o = None /\ offset_ o = 0 /\ size_ o = 0 /\ view h x = Some Value.null) \/
   exists l b v, buffer_ o = Some l /\ buffers h !! l = Some b /\ view h x = Some v /\
     v = Value.Make (take (Z.to_nat (offset_ o)) (BufferT.data_ b))
           (drop (Z.to_nat (offset_ o)) (BufferT.data_ b)) (size_ o) (negb (HasOneRef h l)) /\
     Value.is_null v = false /\ capacity h o = Some (Value.capacity v) /\
     Value.capacity v = BufferT.capacity b - offset_ o /\
     0 < BufferT.capacity b /\ 0 <= offset_ o /\ 0 <= size_ o /\
     offset_ o + size_ o <= BufferT.size_ b <= BufferT.capacity b).
Proof.
  intros Hwf Hx. pose proof (Hwf x o Hx) as Hok.
  pose proof (IsConsistent_ok h o Hok) as Hcons. split; [done|].
  unfold obj_ok in Hok. destruct (buffer_ o) as [l|] eqn:El.
  - right. destruct Hok as (b & Hb & Hc & H1 & H2 & H3). do 3 eexists.
    split; [done|]. split; [done|]. unfold view. rewrite Hx. cbn [mbind option_bind].
    rewrite El, Hb. cbn [mbind option_bind]. split; [done|]. split; [done|].
    unfold BufferT.capacity, len in *.
    assert (Hv : length (drop (Z.to_nat (offset_ o)) (BufferT.data_ b)) =
      (length (BufferT.data_ b) - Z.to_nat (offset_ o))%nat) by apply length_drop.
    split; [|split; [|split]].
    + unfold Value.is_null. cbn [Value.prefix Value.mem].
      destruct (take _ _) eqn:E1; [|done]. destruct (drop _ _) eqn:E2; [|done].
      pose proof (take_drop (Z.to_nat (offset_ o)) (BufferT.data_ b)) as E.
      rewrite E1, E2 in E. rewrite <- E in Hc. cbn in Hc. lia.
    + unfold capacity, get_buffer, Value.capacity. rewrite Hcons, El, Hb.
      cbn [check mbind option_bind Value.mem]. f_equal. unfold BufferT.capacity, len. lia.
    + unfold Value.capacity, len. cbn [Value.mem]. lia.
    + lia.
  - left. destruct Hok as [H1 H2]. repeat split; try done. unfold view. rewrite Hx.
    cbn [mbind option_bind]. by rewrite El.
Qed.

Lemma copy_fresh g n bs :
  len bs <= n -> copy_into (fresh_mem g n) 0 bs = Some (splice 0 bs (fresh_mem g n)).
Proof.
  intros H. unfold copy_into. pose proof (len_nonneg bs). rewrite len_fresh_mem by lia.
  by rewrite (proj2 (Z.leb_le (0 + len bs) _)) by lia.
Qed.

Lemma of_data_capacity_eq g data cap :
  BufferT.of_data_capacity g data cap =
  Some (BufferT.Make (splice 0 data (fresh_mem g (Z.max (len data) cap))) (len data)).
Proof.
  unfold BufferT.of_data_capacity, BufferT.with_capacity. cbn [BufferT.data_ BufferT.size_].
  by rewrite copy_fresh by lia.
Qed.

Lemma len_realloc_mem g bs cap :
  len (splice 0 bs (fresh_mem g (Z.max (len bs) cap))) = Z.max (len bs) cap.
Proof.
  pose proof (len_nonneg bs). rewrite len_splice; rewrite ?len_fresh_mem; lia.
Qed.

(** What an operation on [x] must establish. *)
Definition refines (h : heap) (x : nat) (h' : option heap) (v' : option Value.t) : Prop :=
  match h' with
  | Some h' => wf h' /\ others_same h h' x /\ exists v, v' = Some v /\ view h' x = Some v
  | None => v' = None
  end.

(** The object of [x] gets a new allocation that starts with [data]. *)
Lemma refines_realloc g h x data cap :
  wf h ->
  refines h x (b ← BufferT.of_data_capacity g data cap; checked x (new_buffer h x b (len data)))
    (if Z.max (len data) cap =? 0 then None else Some (Value.realloc g data cap)).
Proof.
  intros Hwf. rewrite of_data_capacity_eq. cbn [mbind option_bind].
  set (b := BufferT.Make _ _). pose proof (len_nonneg data) as Hd.
  assert (Hc : BufferT.capacity b = Z.max (len data) cap) by apply len_realloc_mem.
  destruct (Z.eqb_spec (Z.max (len data) cap) 0) as [E|E].
  - unfold checked. unfold new_buffer, set_object, set_buffer. cbn [objects].
    rewrite lookup_insert_eq. cbn [mbind option_bind]. unfold IsConsistent. cbn [buffer_ buffers].
    rewrite lookup_insert_eq, Hc, E. cbn. done.
  - destruct (new_buffer_ok h x b (len data)) as (H1 & H2 & H3 & H4);
      [done|lia|cbn; lia|rewrite Hc; cbn; lia|].
    rewrite H4. split; [done|]. split; [done|]. eexists. by rewrite H2.
Qed.

Lemma contents_slice (o : t) (b : BufferT.t) one :
  offset_ o + size_ o <= BufferT.size_ b <= BufferT.capacity b -> 0 <= offset_ o -> 0 <= size_ o ->
  let v := Value.Make (take (Z.to_nat (offset_ o)) (BufferT.data_ b))
             (drop (Z.to_nat (offset_ o)) (BufferT.data_ b)) (size_ o) one in
  take (Z.to_nat (size_ o)) (ptr_add (BufferT.data_ b) (offset_ o)) = Value.contents v /\
  len (Value.contents v) = size_ o.
Proof.
  intros H1 H2 H3 v. split; [done|]. unfold Value.contents, v. cbn [Value.mem Value.size].
  unfold BufferT.capacity, len in *. rewrite length_take, length_drop. lia.
Qed.

Lemma unshare_ok g h x o l v nc :
  wf h -> objects h !! x = Some o -> buffer_ o = Some l -> view h x = Some v ->
  refines h x (UnshareAndEnsureCapacity g h x nc) (Value.unshare g v nc).
Proof.
  intros Hwf Hx Hl Hv.
  destruct (object_cases h x o Hwf Hx) as [Hcons [(E & _)|H]]; [congruence|].
  destruct H as (l' & b & v' & Hl' & Hb & Hv' & Ev & Hnn & Hcap & Hcv & Hb0 & Ho & Hs & Hbs).
  rewrite Hl in Hl'. injection Hl' as <-. rewrite Hv in Hv'. injection Hv' as <-.
  unfold UnshareAndEnsureCapacity. rewrite Hx. cbn [mbind option_bind]. rewrite Hl.
  cbn [mbind option_bind]. rewrite Hb. cbn [mbind option_bind]. rewrite Hcap. cbn [mbind option_bind].
  assert (Hsh : negb (Value.shared v) = HasOneRef h l) by (subst v; cbn; apply negb_involutive).
  unfold Value.unshare. rewrite Hsh.
  destruct (HasOneRef h l && (nc <=? Value.capacity v)) eqn:E.
  - split; [done|]. split; [by intros y Hy|]. by exists v.
  - destruct (contents_slice o b (negb (HasOneRef h l)) Hbs Ho Hs) as [Hc Hlc].
    rewrite <- Ev in Hc, Hlc. rewrite Hc. pose proof (refines_realloc g h x (Value.contents v) nc Hwf) as R.
    rewrite Hlc in R. replace (Value.size v) with (size_ o) by by subst v. exact R.
Qed.

(** After unsharing, the object owns its buffer. *)
Lemma unshare_owned g v nc v' :
  Value.unshare g v nc = Some v' -> Value.shared v' = false /\ nc <= Value.capacity v' /\
  (0 <= Value.size v -> Value.size v <= Value.capacity v ->
   Value.size v' = Value.size v /\ Value.contents v' = Value.contents v).
Proof.
  unfold Value.unshare. destruct (negb (Value.shared v) && (nc <=? Value.capacity v)) eqn:E.
  - intros [= <-]. apply andb_true_iff in E as [E1 E2]. apply negb_true_iff in E1.
    apply Z.leb_le in E2. done.
  - destruct (Z.max (Value.size v) nc =? 0); intros [= <-].
    split; [done|]. split; [unfold Value.capacity, Value.realloc; cbn [Value.mem]; rewrite len_realloc_mem; lia|].
    intros H0 Hs. assert (Hl : len (Value.contents v) = Value.size v)
      by (unfold Value.contents, Value.capacity, len in *; rewrite length_take; lia).
    cbn [Value.realloc Value.size]. split; [done|]. unfold Value.contents at 1. cbn [Value.realloc Value.mem Value.size].
    pose proof (take_splice 0 (Value.contents v)
      (fresh_mem g (Z.max (len (Value.contents v)) nc))) as Ht.
    rewrite len_fresh_mem in Ht by lia. rewrite Z.add_0_l in Ht. rewrite Ht by lia. done.
Qed.

Lemma unshare_not_null g v nc v' :
  Value.unshare g v nc = Some v' -> Value.is_null v = false ->
  0 <= Value.size v <= Value.capacity v -> Value.is_null v' = false.
Proof.
  intros H Hn Hs. pose proof (unshare_owned g v nc v' H) as (_ & Hc & _).
  unfold Value.unshare in H. destruct (negb _ && _); [congruence|].
  destruct (Z.eqb_spec (Z.max (Value.size v) nc) 0) as [|E]; [done|]. injection H as <-.
  unfold Value.is_null. cbn [Value.realloc Value.prefix Value.mem].
  destruct (splice _ _ _) as [|] eqn:Es; [|done].
  assert (Hl := f_equal len Es). rewrite len_realloc_mem, len_nil in Hl.
  assert (len (Value.contents v) = Value.size v)
    by (unfold Value.contents, Value.capacity, len in *; rewrite length_take; lia). lia.
Qed.

(** Code that goes on after [UnshareAndEnsureCapacity] works on a buffer it owns. *)
Lemma refines_unshare g h x o l v nc (k : heap -> option heap) (k' : Value.t -> option Value.t) :
  wf h -> objects h !! x = Some o -> buffer_ o = Some l -> view h x = Some v ->
  (forall h' o' l' b' v', wf h' -> objects h' !! x = Some o' -> buffer_ o' = Some l' ->
     HasOneRef h' l' = true -> buffers h' !! l' = Some b' ->
     v' = Value.Make (take (Z.to_nat (offset_ o')) (BufferT.data_ b'))
            (drop (Z.to_nat (offset_ o')) (BufferT.data_ b')) (size_ o') false ->
     0 < BufferT.capacity b' -> 0 <= offset_ o' -> 0 <= size_ o' ->
     offset_ o' + size_ o' <= BufferT.size_ b' <= BufferT.capacity b' ->
     nc <= BufferT.capacity b' - offset_ o' -> size_ o' = size_ o ->
     view h' x = Some v' -> refines h' x (k h') (k' v')) ->
  refines h x (UnshareAndEnsureCapacity g h x nc ≫= k) (Value.unshare g v nc ≫= k').
Proof.
  intros Hwf Hx Hl Hv Hk. pose proof (unshare_ok g h x o l v nc Hwf Hx Hl Hv) as Hu.
  destruct (UnshareAndEnsureCapacity g h x nc) as [h'|]; cbn [mbind option_bind].
  2:{ cbn in Hu. by rewrite Hu. }
  destruct Hu as (Hwf' & Hoth & v' & Hv' & Hview'). rewrite Hv'. cbn [mbind option_bind].
  destruct (object_cases h x o Hwf Hx) as [_ [(E & _)|H]]; [congruence|].
  destruct H as (l1 & b1 & v1 & _ & _ & Hv1 & Ev1 & Hn1 & _ & Hc1 & _ & Ho1 & Hs1 & Hb1).
  rewrite Hv in Hv1. injection Hv1 as <-.
  assert (Hsv : Value.size v = size_ o) by by subst v.
  destruct (unshare_owned g v nc v' Hv') as (Hsh & Hnc & Hsz).
  destruct Hsz as [Hsz _]; [lia|lia|].
  pose proof (unshare_not_null g v nc v' Hv' Hn1 ltac:(lia)) as Hn'.
  destruct (objects h' !! x) as [o'|] eqn:Hx'.
  2:{ unfold view in Hview'. by rewrite Hx' in Hview'. }
  destruct (object_cases h' x o' Hwf' Hx') as [_ [(_ & _ & _ & E)|H]].
  { rewrite Hview' in E. injection E as ->. done. }
  destruct H as (l2 & b2 & v2 & Hl2 & Hb2 & Hv2 & Ev2 & _ & _ & Hc2 & Hb0 & Ho2 & Hs2 & Hbb2).
  rewrite Hview' in Hv2. injection Hv2 as <-.
  assert (H1 : HasOneRef h' l2 = true).
  { rewrite Ev2 in Hsh. cbn in Hsh. by apply negb_false_iff in Hsh. }
  rewrite H1 in Ev2. cbn [negb] in Ev2.
  assert (Hso : size_ o' = size_ o) by (rewrite Ev2 in Hsz; cbn [Value.size] in Hsz; lia).
  specialize (Hk h' o' l2 b2 v' Hwf' Hx' Hl2 H1 Hb2 Ev2 Hb0 Ho2 Hs2 Hbb2 ltac:(lia) Hso Hview').
  unfold refines in *. destruct (k h') as [h2|]; [|done].
  destruct Hk as (Hw & Hot & Hex). split; [done|]. split; [|done].
  by eapply others_same_trans.
Qed.

(** The end of an operation that stores into a buffer it owns. *)
Lemma refines_in_place h x o l b' off n v :
  wf h -> objects h !! x = Some o -> buffer_ o = Some l -> HasOneRef h l = true ->
  0 < BufferT.capacity b' -> 0 <= off -> 0 <= n ->
  off + n <= BufferT.size_ b' <= BufferT.capacity b' ->
  v = Value.Make (take (Z.to_nat off) (BufferT.data_ b'))
                 (drop (Z.to_nat off) (BufferT.data_ b')) n false ->
  refines h x (checked x (set_object (set_buffer h l b') x (Make (Some l) off n))) (Some v).
Proof.
  intros. subst v. destruct (in_place_ok h x o l b' off n) as (Hw & Hv & Ho & ->); [done..|].
  split; [done|]. split; [done|]. eexists. by rewrite Hv.
Qed.

Lemma take_splice_prefix i pos bs (m : list Z) :
  Z.of_nat i <= pos -> pos + len bs <= len m ->
  take i (splice pos bs m) = take i m /\
  drop i (splice pos bs m) = splice (pos - Z.of_nat i) bs (drop i m).
Proof.
  intros Hi Hl. unfold splice. pose proof (len_nonneg bs). unfold len in *. split.
  - rewrite take_app_le by (rewrite length_take; lia). rewrite take_take. f_equal. lia.
  - rewrite drop_app_le by (rewrite length_take; lia).
    rewrite drop_drop. f_equal; [|f_equal; f_equal; lia].
    rewrite take_drop_commute. f_equal. f_equal. lia.
Qed.

(** The object of [x] gets the new buffer [b]. *)
Lemma refines_new h x b n v :
  wf h -> 0 < BufferT.capacity b -> 0 <= n <= BufferT.size_ b ->
  BufferT.size_ b <= BufferT.capacity b -> v = Value.Make [] (BufferT.data_ b) n false ->
  refines h x (checked x (new_buffer h x b n)) (Some v).
Proof.
  intros Hwf H1 H2 H3 ->. destruct (new_buffer_ok h x b n) as (Hw & Hv & Ho & ->); [done..|].
  split; [done|]. split; [done|]. eexists. by rewrite Hv.
Qed.

Lemma refines_of_size g h x n :
  wf h -> 0 < n ->
  refines h x (checked x (new_buffer h x (BufferT.of_size g n) n))
    (Some (Value.realloc g (fresh_mem g n) n)).
Proof.
  intros Hwf Hn. assert (Hl : len (fresh_mem g (Z.max n n)) = n)
    by (rewrite len_fresh_mem; lia).
  apply refines_new; try done;
    unfold BufferT.of_size, BufferT.with_capacity, BufferT.capacity; cbn [BufferT.data_ BufferT.size_];
    try lia.
  unfold Value.realloc. rewrite Z.max_id in *. rewrite Hl, Z.max_id, splice_all by done. done.
Qed.

(** The counts depend on which buffer each object points to only. *)
Lemma HasOneRef_set_object h x o o' :
  objects h !! x = Some o -> buffer_ o' = buffer_ o ->
  forall l, HasOneRef (set_object h x o') l = HasOneRef h l.
Proof.
  intros Hx Hb l. unfold HasOneRef, ref_count. cbn [objects set_object].
  replace (dom (filter _ (<[x:=o']> (objects h))) : gset nat)
    with (dom (filter (fun x : nat * t => buffer_ x.2 = Some l) (objects h)) : gset nat); [done|].
  apply set_eq. intros y. rewrite !elem_of_dom. unfold is_Some.
  setoid_rewrite map_lookup_filter_Some. destruct (decide (y = x)) as [->|Hne].
  - rewrite Hx, lookup_insert_eq. cbn [snd]. split; intros (oy & [= <-] & Hl); eexists; split;
      try done; congruence.
  - by rewrite lookup_insert_ne by done.
Qed.

Lemma SetSize_refines g h x o v n :
  wf h -> objects h !! x = Some o -> view h x = Some v -> 0 <= n ->
  refines h x (SetSize g h x n) (Value.SetSize g v n).
Proof.
  intros Hwf Hx Hv Hn. unfold SetSize, Value.SetSize. rewrite Hx. cbn [mbind option_bind].
  destruct (object_cases h x o Hwf Hx) as [Hcons [(El & _ & _ & Ev)|H]].
  - rewrite Hcons, El. rewrite Hv in Ev. injection Ev as ->.
    cbn [check mbind option_bind Value.is_null Value.null Value.prefix Value.mem].
    destruct (Z.ltb_spec 0 n) as [Hp|Hp].
    + by apply refines_of_size.
    + unfold checked. rewrite Hx. cbn [mbind option_bind]. rewrite Hcons. cbn.
      split; [done|]. split; [by intros y Hy|]. by exists Value.null.
  - destruct H as (l & b & v1 & Hl & Hb & Hv1 & Ev & Hnn & Hcap & Hcv & Hb0 & Ho & Hs & Hbs).
    rewrite Hv in Hv1. injection Hv1 as <-. rewrite Hcons, Hl, Hnn.
    cbn [check mbind option_bind]. replace (Value.size v) with (size_ o) by by subst v.
    destruct (Z.leb_spec n (size_ o)) as [Hle|Hgt].
    + assert (Href := HasOneRef_set_object h x o (Make (Some l) (offset_ o) n) Hx (eq_sym Hl)).
      split; [|split].
      * intros y oy Hy. cbn [objects set_object] in Hy. destruct (decide (y = x)) as [->|Hne].
        -- rewrite lookup_insert_eq in Hy. injection Hy as <-. exists b. cbn [offset_ size_].
           repeat split; done || lia.
        -- rewrite lookup_insert_ne in Hy by done. by apply (Hwf y).
      * intros y Hne. apply view_same; [|done]. cbn [objects set_object]. by rewrite lookup_insert_ne.
      * eexists. split; [done|]. unfold view. cbn [objects set_object buffers].
        rewrite lookup_insert_eq. cbn [mbind option_bind buffer_ offset_ size_]. rewrite Hb.
        cbn [mbind option_bind]. rewrite Href. by subst v.
    + rewrite Hcap. cbn [mbind option_bind]. apply (refines_unshare g h x o l v); try done.
      intros h' o' l' b' v' Hwf' Hx' Hl' H1 Hb' Ev' Hb0' Ho' Hs' Hbs' Hnc Hso Hvw.
      rewrite Hx'. cbn [mbind option_bind]. rewrite Hl'. cbn [mbind option_bind]. rewrite Hb'.
      cbn [mbind option_bind]. unfold BufferT.SetSize, BufferT.EnsureCapacityWithHeadroom.
      unfold BufferT.IsConsistent. rewrite (proj2 (Z.leb_le (BufferT.size_ b') _)) by lia.
      cbn [check mbind option_bind].
      rewrite (proj2 (Z.leb_le (n + offset_ o') (BufferT.capacity b'))) by lia.
      cbn [mbind option_bind]. apply (refines_in_place h' x o' l'); try done;
        unfold BufferT.capacity in *; cbn [BufferT.data_ BufferT.size_]; try lia.
      by subst v'.
Qed.

Lemma refines_same h x o v :
  wf h -> objects h !! x = Some o -> view h x = Some v ->
  refines h x (checked x h) (Some v) /\ refines h x (Some h) (Some v).
Proof.
  intros Hwf Hx Hv. assert (Hs : refines h x (Some h) (Some v))
    by (split; [done|split; [by intros y Hy|by exists v]]).
  split; [|done]. unfold checked. rewrite Hx. cbn [mbind option_bind].
  by rewrite (proj1 (object_cases h x o Hwf Hx)).
Qed.

Lemma EnsureCapacity_refines g h x o v n :
  wf h -> objects h !! x = Some o -> view h x = Some v -> 0 <= n ->
  refines h x (EnsureCapacity g h x n) (Value.EnsureCapacity g v n).
Proof.
  intros Hwf Hx Hv Hn. unfold EnsureCapacity, Value.EnsureCapacity. rewrite Hx.
  cbn [mbind option_bind]. destruct (refines_same h x o v Hwf Hx Hv) as [Hsc Hs].
  destruct (object_cases h x o Hwf Hx) as [Hcons [(El & _ & _ & Ev)|H]].
  - rewrite Hcons, El. rewrite Hv in Ev. injection Ev as ->.
    cbn [check mbind option_bind Value.is_null Value.null Value.prefix Value.mem].
    destruct (Z.ltb_spec 0 n) as [Hp|Hp]; [|done].
    assert (Hl : len (fresh_mem g (Z.max 0 n)) = n) by (rewrite len_fresh_mem; lia).
    apply refines_new; try done; unfold BufferT.with_capacity, BufferT.capacity;
      cbn [BufferT.data_ BufferT.size_]; try lia.
  - destruct H as (l & b & v1 & Hl & Hb & Hv1 & Ev & Hnn & Hcap & _).
    rewrite Hv in Hv1. injection Hv1 as <-. rewrite Hcons, Hl, Hnn.
    cbn [check mbind option_bind]. rewrite Hcap. cbn [mbind option_bind].
    destruct (n <=? Value.capacity v); [done|].
    replace (Value.unshare g v n) with (Value.unshare g v n ≫= Some) by by destruct (Value.unshare g v n).
    apply (refines_unshare g h x o l v); try done.
    intros h' o' l' b' v' Hwf' Hx' _ _ _ _ _ _ _ _ _ _ Hv'.
    by apply (refines_same h' x o' v').
Qed.

Lemma Clear_refines g h x o v :
  wf h -> objects h !! x = Some o -> view h x = Some v ->
  refines h x (Clear g h x) (Value.Clear g v).
Proof.
  intros Hwf Hx Hv. unfold Clear, Value.Clear. rewrite Hx. cbn [mbind option_bind].
  destruct (refines_same h x o v Hwf Hx Hv) as [_ Hs].
  destruct (object_cases h x o Hwf Hx) as [Hcons [(El & _ & _ & Ev)|H]].
  - rewrite El. rewrite Hv in Ev. injection Ev as ->. done.
  - destruct H as (l & b & v1 & Hl & Hb & Hv1 & Ev & Hnn & Hcap & Hcv & Hb0 & Ho & Hsz & Hbs).
    rewrite Hv in Hv1. injection Hv1 as <-. rewrite Hl, Hnn.
    cbn [mbind option_bind]. rewrite Hb. cbn [mbind option_bind].
    replace (Value.shared v) with (negb (HasOneRef h l)) by by subst v.
    destruct (HasOneRef h l) eqn:E1; cbn [negb].
    + apply (refines_in_place h x o l); try done; unfold BufferT.Clear, BufferT.capacity;
        cbn [BufferT.data_ BufferT.size_]; unfold BufferT.capacity in *; try lia.
      rewrite Ev. cbn [Value.prefix Value.mem]. by rewrite take_drop.
    + rewrite Hcap. cbn [mbind option_bind].
      pose proof (refines_realloc g h x [] (Value.capacity v) Hwf) as R.
      rewrite of_data_capacity_eq in R. rewrite splice_nil, len_nil in R. cbn [mbind option_bind] in R.
      rewrite Z.max_r in R by lia. unfold BufferT.with_capacity. rewrite Z.max_r by lia. done.
Qed.

Lemma append_into m off bs b g :
  BufferT.size_ b = off -> BufferT.data_ b = m -> 0 <= off -> off + len bs <= len m ->
  BufferT.AppendData g b bs = Some (BufferT.Make (splice off bs m) (off + len bs)).
Proof.
  intros <- <- H1 H2. pose proof (len_nonneg bs).
  unfold BufferT.AppendData, BufferT.EnsureCapacityWithHeadroom, BufferT.IsConsistent, BufferT.capacity.
  rewrite (proj2 (Z.leb_le (BufferT.size_ b) _)) by lia. cbn [check mbind option_bind].
  rewrite (proj2 (Z.leb_le (BufferT.size_ b + len bs) _)) by lia. cbn [mbind option_bind].
  unfold copy_into. rewrite (proj2 (Z.leb_le 0 _)), (proj2 (Z.leb_le (BufferT.size_ b + len bs) _)) by lia.
  done.
Qed.

(** [Buffer::SetData]: in place when the data fits, else in a larger allocation. *)
Lemma buffer_SetData g b bs :
  0 <= BufferT.size_ b <= BufferT.capacity b ->
  BufferT.SetData g b bs =
  Some (BufferT.Make
    (splice 0 bs (if len bs <=? BufferT.capacity b then BufferT.data_ b
                  else fresh_mem g (Z.max (len bs) (BufferT.capacity b + BufferT.capacity b / 2))))
    (len bs)).
Proof.
  intros Hb. pose proof (len_nonneg bs). unfold BufferT.SetData, BufferT.IsConsistent.
  rewrite (proj2 (Z.leb_le (BufferT.size_ b) _)) by lia. cbn [check mbind option_bind].
  destruct (Z.leb_spec (len bs) (BufferT.capacity b)) as [Hle|Hgt].
  - rewrite (append_into (BufferT.data_ b) 0) by (try done; cbn [BufferT.size_]; unfold BufferT.capacity in *; lia).
    by rewrite Z.add_0_l.
  - unfold BufferT.AppendData, BufferT.EnsureCapacityWithHeadroom, BufferT.IsConsistent.
    cbn [BufferT.size_ BufferT.data_]. unfold BufferT.capacity in *. cbn [BufferT.data_] in *.
    rewrite (proj2 (Z.leb_le 0 _)) by lia. cbn [check mbind option_bind]. rewrite Z.add_0_l.
    rewrite (proj2 (Z.leb_gt (len bs) _)) by lia. change (take (Z.to_nat 0) _) with (@nil Z).
    rewrite copy_fresh by (rewrite len_nil; lia). rewrite splice_nil.
    cbn [mbind option_bind BufferT.data_ BufferT.size_]. by rewrite copy_fresh by lia.
Qed.

Lemma SetData_refines g h x o v bs :
  wf h -> objects h !! x = Some o -> view h x = Some v ->
  refines h x (SetData g h x bs) (Value.SetData g v bs).
Proof.
  intros Hwf Hx Hv. unfold SetData, Value.SetData. rewrite Hx. cbn [mbind option_bind].
  pose proof (len_nonneg bs) as Hbs0.
  destruct (object_cases h x o Hwf Hx) as [Hcons [(El & H1 & H2 & Ev)|H]].
  - rewrite Hcons, El. rewrite Hv in Ev. injection Ev as ->.
    cbn [check mbind option_bind Value.is_null Value.null Value.prefix Value.mem].
    destruct (Z.ltb_spec 0 (len bs)) as [Hp|Hp].
    + pose proof (refines_realloc g h x bs (len bs) Hwf) as R.
      rewrite Z.max_id in R. destruct (Z.eqb_spec (len bs) 0); [lia|done].
    + replace (len bs) with 0 by lia. replace (Make None 0 0) with o
        by (destruct o; cbn in *; congruence).
      replace (set_object h x o) with h.
      2:{ unfold set_object. rewrite insert_id by done. by destruct h. }
      by apply (refines_same h x o).
  - destruct H as (l & b & v1 & Hl & Hb & Hv1 & Ev & Hnn & Hcap & Hcv & Hb0 & Ho & Hsz & Hbs).
    rewrite Hv in Hv1. injection Hv1 as <-. rewrite Hcons, Hl, Hnn. cbn [check mbind option_bind].
    replace (Value.shared v) with (negb (HasOneRef h l)) by by subst v.
    destruct (HasOneRef h l) eqn:E1; cbn [negb].
    + rewrite Hb. cbn [mbind option_bind]. rewrite buffer_SetData by lia. cbn [mbind option_bind].
      assert (Hw : Value.prefix v ++ Value.mem v = BufferT.data_ b) by (subst v; apply take_drop).
      rewrite Hw. fold (BufferT.capacity b).
      apply (refines_in_place h x o l); try done; unfold BufferT.capacity in *;
        cbn [BufferT.data_ BufferT.size_]; try lia;
        destruct (Z.leb_spec (len bs) (len (BufferT.data_ b)));
        rewrite ?len_realloc_mem, ?len_splice by lia; try lia; done.
    + rewrite Hcap. cbn [mbind option_bind]. apply (refines_realloc g h x bs _ Hwf).
Qed.

Lemma AppendData_refines g h x o v bs :
  wf h -> objects h !! x = Some o -> view h x = Some v ->
  refines h x (AppendData g h x bs) (Value.AppendData g v bs).
Proof.
  intros Hwf Hx Hv. unfold AppendData, Value.AppendData. rewrite Hx. cbn [mbind option_bind].
  pose proof (len_nonneg bs) as Hbs0.
  destruct (object_cases h x o Hwf Hx) as [Hcons [(El & _ & _ & Ev)|H]].
  - rewrite Hcons, El. rewrite Hv in Ev. injection Ev as ->.
    cbn [check mbind option_bind Value.is_null Value.null Value.prefix Value.mem].
    pose proof (refines_realloc g h x bs (len bs) Hwf) as R. rewrite Z.max_id in R.
    destruct (Z.eqb_spec (len bs) 0), (Z.ltb_spec 0 (len bs)); try lia; done.
  - destruct H as (l & b & v1 & Hl & Hb & Hv1 & Ev & Hnn & Hcap & Hcv & Hb0 & Ho & Hsz & Hbs).
    rewrite Hv in Hv1. injection Hv1 as <-. rewrite Hcons, Hl, Hnn. cbn [check mbind option_bind].
    rewrite Hcap. cbn [mbind option_bind]. replace (Value.size v) with (size_ o) by by subst v.
    apply (refines_unshare g h x o l v); try done.
    intros h' o' l' b' v' Hwf' Hx' Hl' H1 Hb' Ev' Hb0' Ho' Hs' Hbs' Hnc Hso Hvw.
    rewrite Hx'. cbn [mbind option_bind]. rewrite Hl'. cbn [mbind option_bind]. rewrite Hb'.
    cbn [mbind option_bind]. unfold BufferT.SetSize, BufferT.EnsureCapacityWithHeadroom, BufferT.IsConsistent.
    rewrite (proj2 (Z.leb_le (BufferT.size_ b') _)) by lia. cbn [check mbind option_bind].
    rewrite (proj2 (Z.leb_le (offset_ o' + size_ o') (BufferT.capacity b'))) by lia.
    cbn [mbind option_bind].
    rewrite (append_into (BufferT.data_ b') (offset_ o' + size_ o'))
      by (try done; unfold BufferT.capacity in *; lia).
    cbn [mbind option_bind]. unfold BufferT.capacity in *.
    apply (refines_in_place h' x o' l'); try done; unfold BufferT.capacity;
      cbn [BufferT.data_ BufferT.size_]; rewrite ?len_splice by lia; try lia.
    subst v'. cbn [Value.prefix Value.mem Value.size Value.shared].
    destruct (take_splice_prefix (Z.to_nat (offset_ o')) (offset_ o' + size_ o') bs
      (BufferT.data_ b')) as [-> ->]; [lia|lia|].
    do 2 f_equal. lia.
Qed.

Lemma write_refines g h x o v pos bs :
  wf h -> objects h !! x = Some o -> view h x = Some v ->
  refines h x (write g h x pos bs) (Value.write g v pos bs).
Proof.
  intros Hwf Hx Hv. unfold write, Value.write, Value.data. rewrite Hx. cbn [mbind option_bind].
  pose proof (len_nonneg bs) as Hbs0.
  destruct (object_cases h x o Hwf Hx) as [Hcons [(El & _ & _ & Ev)|H]].
  - rewrite Hcons. rewrite Hv in Ev. injection Ev as ->. cbn [check mbind option_bind].
    unfold capacity, get_buffer. rewrite Hcons, El. cbn [check mbind option_bind].
    unfold UnshareAndEnsureCapacity. rewrite Hx. cbn [mbind option_bind]. by rewrite El.
  - destruct H as (l & b & v1 & Hl & Hb & Hv1 & Ev & Hnn & Hcap & Hcv & Hb0 & Ho & Hsz & Hbs).
    rewrite Hv in Hv1. injection Hv1 as <-. rewrite Hcons, Hnn. cbn [check mbind option_bind].
    rewrite Hcap. cbn [mbind option_bind].
    apply (refines_unshare g h x o l v); try done.
    intros h' o' l' b' v' Hwf' Hx' Hl' H1 Hb' Ev' Hb0' Ho' Hs' Hbs' Hnc Hso Hvw.
    rewrite Hx'. cbn [mbind option_bind]. rewrite Hl'. cbn [mbind option_bind]. rewrite Hb'.
    cbn [mbind option_bind]. unfold copy_into.
    assert (Hm : len (Value.mem v') = len (BufferT.data_ b') - offset_ o').
    { subst v'. cbn [Value.mem]. unfold BufferT.capacity, len in *. rewrite length_drop. lia. }
    rewrite Hm. destruct (Z.leb_spec 0 pos) as [Hp|Hp]; [|done]. cbn [check mbind option_bind andb].
    rewrite (proj2 (Z.leb_le 0 (offset_ o' + pos))) by lia. cbn [andb].
    destruct (Z.leb_spec (pos + len bs) (len (BufferT.data_ b') - offset_ o')) as [Hle|Hgt].
    2:{ rewrite (proj2 (Z.leb_gt _ _)) by lia. done. }
    rewrite (proj2 (Z.leb_le (offset_ o' + pos + len bs) _)) by lia. cbn [mbind option_bind].
    assert (Eh : forall b2, set_buffer h' l' b2 = set_object (set_buffer h' l' b2) x
        (Make (Some l') (offset_ o') (size_ o'))).
    { intros b2. unfold set_object, set_buffer. cbn [buffers objects].
      rewrite (insert_id (objects h') x); [done|].
      rewrite Hx'. f_equal. destruct o'. cbn in *. congruence. }
    rewrite Eh. unfold BufferT.capacity in *.
    destruct (in_place_ok h' x o' l' (BufferT.Make (splice (offset_ o' + pos) bs (BufferT.data_ b'))
      (BufferT.size_ b')) (offset_ o') (size_ o')) as (Hw & Hvw' & Hot & _); try done;
      unfold BufferT.capacity; cbn [BufferT.data_ BufferT.size_]; rewrite ?len_splice by lia; try lia.
    split; [done|]. split; [done|]. eexists. split; [done|]. rewrite Hvw'.
    cbn [BufferT.data_ BufferT.size_]. subst v'.
    unfold Value.with_mem. cbn [Value.prefix Value.mem Value.size Value.shared].
    destruct (take_splice_prefix (Z.to_nat (offset_ o')) (offset_ o' + pos) bs
      (BufferT.data_ b')) as [-> ->]; [lia|lia|].
    do 3 f_equal. lia.
Qed.

End Refinement.

(** ** Reachable heaps *)
Module CowFacts.
Import CopyOnWriteBuffer Refinement.

(** Heaps built by constructors, copies, moves, slices, destructors and operations. *)
Inductive reachable : heap -> Prop :=
| reach_empty : reachable (Heap ∅ ∅)
| reach_size g h x n h' :
    reachable h -> 0 <= n -> construct_size g h x n = Some h' -> reachable h'
| reach_capacity g h x n cap h' :
    reachable h -> 0 <= n -> construct_capacity g h x n cap = Some h' -> reachable h'
| reach_copy h x y h' : reachable h -> copy_construct h x y = Some h' -> reachable h'
| reach_move h x y h' : reachable h -> move_construct h x y = Some h' -> reachable h'
| reach_destroy h x : reachable h -> reachable (destroy h x)
| reach_slice h x y off n h' :
    reachable h -> 0 <= off -> 0 <= n -> Slice h x y off n = Some h' -> reachable h'
| reach_op g h x o h' : reachable h -> op_ok o -> heap_run g h x o = Some h' -> reachable h'.

Lemma run_refines g h x obj v o :
  wf h -> objects h !! x = Some obj -> view h x = Some v -> op_ok o ->
  refines h x (heap_run g h x o) (value_run g v o).
Proof.
  destruct o; cbn [op_ok heap_run value_run];
    eauto using SetSize_refines, EnsureCapacity_refines, Clear_refines, SetData_refines,
      AppendData_refines, write_refines.
Qed.

Lemma wf_set_object h x o : wf h -> obj_ok h o -> wf (set_object h x o).
Proof.
  intros Hwf Ho y oy Hy. cbn [objects set_object] in Hy. destruct (decide (y = x)) as [->|Hne].
  - rewrite lookup_insert_eq in Hy. by injection Hy as <-.
  - rewrite lookup_insert_ne in Hy by done. by apply (Hwf y).
Qed.

Lemma checked_Some x h h' : checked x h = Some h' -> h' = h.
Proof.
  unfold checked. destruct (objects h !! x); cbn; [|done]. destruct (IsConsistent h _); cbn; congruence.
Qed.

Lemma obj_ok_slice h o off n :
  obj_ok h o -> 0 <= off -> 0 <= n -> n + off <= size_ o ->
  obj_ok h (Make (buffer_ o) (offset_ o + off) n).
Proof.
  unfold obj_ok. cbn [buffer_ offset_ size_]. destruct (buffer_ o) as [l|].
  - intros (b & Hb & H) H1 H2 H3. exists b. split; [done|]. lia.
  - intros [H1 H2] H3 H4 H5. lia.
Qed.

Lemma wf_new_buffer g h x n cap h' :
  wf h -> 0 <= n -> 0 < n \/ 0 < cap ->
  checked x (new_buffer h x (BufferT.with_capacity g n cap) n) = Some h' -> wf h'.
Proof.
  intros Hwf Hn Hc H. apply checked_Some in H as ->.
  assert (Hl : len (fresh_mem g (Z.max n cap)) = Z.max n cap) by (apply len_fresh_mem; lia).
  destruct (new_buffer_ok h x (BufferT.with_capacity g n cap) n) as (Hw & _); [done| | | |done];
    unfold BufferT.with_capacity, BufferT.capacity; cbn [BufferT.data_ BufferT.size_]; lia.
Qed.

Lemma reachable_wf_heap h : reachable h -> wf h.
Proof.
  induction 1 as [|g h x n h' _ IH Hn H|g h x n cap h' _ IH Hn H|h x y h' _ IH H|h x y h' _ IH H
    |h x _ IH|h x y off n h' _ IH Ho Hn H|g h x o h' _ IH Ho H].
  - intros x o Hx. done.
  - unfold construct_size in H. destruct (Z.ltb_spec 0 n).
    + eapply (wf_new_buffer g h x n n); [done|done|by left|exact H].
    + apply checked_Some in H as ->. apply wf_set_object; [done|]. cbn. lia.
  - unfold construct_capacity in H. destruct (Z.ltb_spec 0 n), (Z.ltb_spec 0 cap); cbn [orb] in H;
      try (by eapply (wf_new_buffer g h x n cap); auto).
    apply checked_Some in H as ->. apply wf_set_object; [done|]. cbn. lia.
  - unfold copy_construct in H. destruct (objects h !! y) as [o|] eqn:E; [|done]. injection H as <-.
    apply wf_set_object; [done|]. by apply (IH y).
  - unfold move_construct in H. destruct (objects h !! y) as [o|] eqn:E; [|done]. injection H as <-.
    pose proof (IH y o E) as Hok. apply wf_set_object; [by apply wf_set_object|]. exact Hok.
  - intros y o Hy. cbn [destroy objects] in Hy. apply lookup_delete_Some in Hy as [_ Hy].
    by apply (IH y).
  - unfold Slice in H. destruct (objects h !! y) as [o|] eqn:E; [|done]. cbn [mbind option_bind] in H.
    apply check_Some in H as [H1 H]. apply check_Some in H as [H2 H]. injection H as <-. bool_prop.
    apply wf_set_object; [done|]. apply obj_ok_slice; [by apply (IH y)|lia..].
  - destruct (objects h !! x) as [obj|] eqn:E.
    2:{ destruct o; cbn [heap_run] in H;
        unfold SetSize, EnsureCapacity, Clear, SetData, AppendData, write in H; by rewrite E in H. }
    assert (Hv : exists v, view h x = Some v).
    { destruct (object_cases h x obj IH E) as [_ [(_ & _ & _ & Hv)|(l & b & v & _ & _ & Hv & _)]]; eauto. }
    destruct Hv as [v Hv]. pose proof (run_refines g h x obj v o IH E Hv Ho) as R.
    rewrite H in R. by destruct R as (Hw & _).
Qed.

Lemma view_contents h x v : view h x = Some v -> contents h x = Some (Value.contents v).
Proof.
  unfold view, contents. destruct (objects h !! x) as [o|]; [|done]. cbn [mbind option_bind].
  destruct (buffer_ o) as [l|]; [|by intros [= <-]].
  destruct (buffers h !! l); [|done]. by intros [= <-].
Qed.

(** C8: copy-on-write buffers have value semantics.  In a heap reached by any sequence of
    constructions, copies, moves, slices, destructions and operations, an operation on one object
    ([SetSize], [EnsureCapacity], [Clear], [SetData], [AppendData], a write through [data()])
    does to that object what the same operation does to the abstract value (it aborts in the same
    cases), and leaves the memory, the contents and the size of every other object as they were,
    however many objects share the buffer.  A slice shows the bytes it was cut from and changes no
    other object. *)
Theorem cow_value_semantics g h x obj o :
  reachable h -> objects h !! x = Some obj -> op_ok o ->
  (exists v, view h x = Some v /\ contents h x = Some (Value.contents v) /\
     match heap_run g h x o with
     | Some h' =>
         exists v', value_run g v o = Some v' /\ view h' x = Some v' /\
           contents h' x = Some (Value.contents v') /\
           forall y, y <> x -> bytes_of <$> view h y = bytes_of <$> view h' y
     | None => value_run g v o = None
     end) /\
  (forall y off n h', 0 <= off -> 0 <= n -> Slice h y x off n = Some h' ->
     contents h' y = (fun c => take (Z.to_nat n) (drop (Z.to_nat off) c)) <$> contents h x /\
     forall z, z <> y -> bytes_of <$> view h z = bytes_of <$> view h' z).
Proof.
  intros Hr Hx Ho. pose proof (reachable_wf_heap h Hr) as Hwf. split.
  - assert (Hv : exists v, view h x = Some v).
    { destruct (object_cases h x obj Hwf Hx) as [_ [(_ & _ & _ & Hv)|(l & b & v & _ & _ & Hv & _)]]; eauto. }
    destruct Hv as [v Hv]. exists v. split; [done|]. split; [by apply view_contents|].
    pose proof (run_refines g h x obj v o Hwf Hx Hv Ho) as R. unfold refines in R.
    destruct (heap_run g h x o) as [h'|]; [|done].
    destruct R as (_ & Hoth & v' & H1 & H2). exists v'. split; [done|]. split; [done|].
    split; [by apply view_contents|done].
  - intros y off n h' H1 H2 Hs. unfold Slice in Hs. rewrite Hx in Hs. cbn [mbind option_bind] in Hs.
    apply check_Some in Hs as [H3 Hs]. apply check_Some in Hs as [H4 Hs]. injection Hs as <-.
    bool_prop. split.
    + unfold contents. cbn [objects set_object buffers]. rewrite lookup_insert_eq, Hx.
      cbn [mbind option_bind buffer_ offset_ size_].
      pose proof (Hwf x obj Hx) as Hok. unfold obj_ok in Hok.
      destruct (buffer_ obj) as [l|]; [|cbn; by rewrite drop_nil, take_nil].
      destruct Hok as (b & -> & Hb). cbn [mbind option_bind fmap option_fmap option_map].
      f_equal. unfold ptr_add. rewrite Z2Nat.inj_add by lia. rewrite <- drop_drop.
      rewrite !take_drop_commute, take_take, Nat.min_l by lia. done.
    + intros z Hz. apply view_same; [|done]. cbn [objects set_object]. by rewrite lookup_insert_ne.
Qed.

(** Object 0 holds four bytes, object 1 a slice of the middle two; 0 is then overwritten. *)
Definition sample_heap : heap :=
  Heap {[ 0%nat := BufferT.Make [1; 2; 3; 4] 4 ]}
       (<[ 1%nat := Make (Some 0%nat) 1 2 ]> {[ 0%nat := Make (Some 0%nat) 0 4 ]}).

Lemma sample_heap_reachable : reachable sample_heap.
Proof.
  eapply (reach_slice (Heap {[ 0%nat := BufferT.Make [1; 2; 3; 4] 4 ]}
    {[ 0%nat := Make (Some 0%nat) 0 4 ]}) 1 0 1 2); [|lia|lia|vm_compute; reflexivity].
  eapply (reach_size [1; 2; 3; 4] _ 0 4); [exact reach_empty|lia|vm_compute; reflexivity].
Qed.

Lemma cow_value_semantics_witness :
  exists h', heap_run [] sample_heap 0 (OpWrite 1 [9; 9]) = Some h' /\
    contents h' 0 = Some [1; 9; 9; 4] /\ bytes_of <$> view h' 1 = Some ([1], [2; 3; 4], 2).
Proof.
  destruct (cow_value_semantics [] sample_heap 0 (Make (Some 0%nat) 0 4) (OpWrite 1 [9; 9])
    sample_heap_reachable eq_refl I) as [(v & Hv & _ & H) _].
  assert (Hv0 : view sample_heap 0 = Some (Value.Make [] [1; 2; 3; 4] 4 true)) by (vm_compute; done).
  rewrite Hv0 in Hv. injection Hv as <-.
  destruct (heap_run [] sample_heap 0 (OpWrite 1 [9; 9])) as [h'|]; [|discriminate].
  destruct H as (v' & Hr & _ & Hc & Ho). exists h'. split; [done|].
  vm_compute in Hr. injection Hr as <-. split; [exact Hc|].
  rewrite <- (Ho 1%nat) by done. vm_compute. reflexivity.
Defined.

End CowFacts.
