(* ===== verification/HeaderExtensions.v ===== *)
(** * The values of RTP header extensions

    Model of [rtp_header_extensions.h/.cc], [rtp_cvo.h] and of the helpers of
    [api/video_content_type.cc].  The [rtc::ArrayView] an extension is written to is the buffer of
    the writer monad; the view it is parsed from is a list of bytes.  [Parse] receives the object
    it fills, since some parsers leave parts of it as they were.

    [Extension] is what [RtpPacket::GetExtension] and [SetExtension] use of an extension class,
    [ExtensionLaws] what every class promises to them.  The color space extension, whose HDR part
    is floating point, is not modelled; the generic frame descriptors, which have files of their
    own in the source, are in [FrameDescriptor]. *)

From S2P Require Import Prelude Buffer ByteIo RtpExtensionMap.
Import ByteReader ByteWriter.

(** ** The interface *)

Record Extension := {
  value_type : Type;
  kId : RTPExtensionType;
  ValueSize : value_type -> Z;
  Write : value_type -> W bool;
  (* the flag the source returns and the object it fills *)
  Parse : list Z -> value_type -> option (bool * value_type)
}.

(** The size of the view a writer was given. *)
Definition view_size : W Z := fun s => Some (len (packet s), s).

(** A writer run on a view: the flag and the new bytes. *)
Definition write_view {A} (m : W A) (view : list Z) : option (A * list Z) :=
  match m (WState view 0 []) with
  | Some (a, s) => Some (a, packet s)
  | None => None
  end.

(** What an extension class promises.  [valid] are the values a caller may write, [wire] their
    bytes, [parsed] what the receiver gets for them. *)
Class ExtensionLaws (E : Extension) := {
  valid : value_type E -> Prop;
  wire : value_type E -> list Z;
  parsed : value_type E -> value_type E -> value_type E;
  write_ok : forall v view, valid v -> len view = ValueSize E v ->
    write_view (Write E v) view = Some (true, wire v);
  wire_size : forall v, valid v ->
    len (wire v) = ValueSize E v /\ 1 <= ValueSize E v <= kMaxValueSize /\ bytes_ok (wire v);
  parse_wire : forall v prev, valid v -> Parse E (wire v) prev = Some (true, parsed v prev);
  parse_safe : forall data prev, bytes_ok data -> exists r, Parse E data prev = Some r
}.

(** ** Generic lemmas *)

(** A property of all bytes, by evaluation. *)
Lemma byte_forall (P : Z -> Prop) `{forall b, Decision (P b)} :
  bool_decide (Forall P (seqZ 0 256)) = true -> forall b, byte_ok b -> P b.
Proof.
  intros E b Hb. apply bool_decide_eq_true in E. rewrite Forall_forall in E.
  apply E, elem_of_seqZ. unfold byte_ok in Hb. lia.
Qed.

Ltac by_bytes :=
  lazymatch goal with |- forall b, byte_ok b -> @?P b => apply (byte_forall P) end;
  vm_compute; reflexivity.

(** A writer of the view's size that stores [bs] from its start. *)
Lemma write_view_stores (m : W unit) (view bs : list Z) (n : Z) :
  stores m 0 bs -> len bs = n -> len view = n ->
  write_view (m ;; mret true) view = Some (true, bs).
Proof.
  intros Hs Hb Hv. unfold write_view, mbind, ST_bind. rewrite Hs by (cbn; lia).
  unfold put. cbn. rewrite splice_all by lia. done.
Qed.

Lemma view_check {A} n (m : W A) (view : list Z) :
  len view = n -> write_view (s ← view_size; dcheck (s =? n) ;; m) view = write_view m view.
Proof.
  intros H. unfold write_view, view_size, mbind, ST_bind. cbn [packet].
  rewrite (proj2 (Z.eqb_eq _ _) H). done.
Qed.

Lemma dcheck_true {S A} b (m : ST S A) s : b = true -> (dcheck b ;; m) s = m s.
Proof. by intros ->. Qed.

(** A parser that needs exactly [n] bytes. *)
Lemma len_eqb_false (data : list Z) n : len data <> n -> negb (len data =? n) = true.
Proof. intros H. by rewrite (proj2 (Z.eqb_neq _ _) H). Qed.

Lemma be3_bytes_ok v : bytes_ok (be_bytes 3 v).
Proof. apply be_bytes_ok. Qed.

(** ** Absolute send time *)
Module AbsoluteSendTime.

Definition kValueSizeBytes : Z := 3.

Definition Parse (data : list Z) (time_24bits : Z) : option (bool * Z) :=
  if negb (len data =? 3) then Some (false, time_24bits) else
  v ← ReadBigEndian 32 3 data; Some (true, v).

Definition ValueSize (time_24bits : Z) : Z := kValueSizeBytes.

Definition Write (time_24bits : Z) : W bool :=
  size ← view_size; dcheck (size =? 3) ;;
  dcheck (time_24bits <=? 0x00FFFFFF) ;;
  WriteBigEndian 3 0 time_24bits ;; mret true.

(** [MsTo24Bits]: the 64-bit arithmetic truncates towards zero. *)
Definition MsTo24Bits (time_ms : Z) : Z :=
  Z.land (u32 (Z.quot (Z.shiftl time_ms 18 + 500) 1000)) 0x00FFFFFF.

Definition ops : Extension := {|
  value_type := Z; kId := kRtpExtensionAbsoluteSendTime;
  HeaderExtensions.ValueSize := ValueSize; HeaderExtensions.Write := Write;
  HeaderExtensions.Parse := Parse |}.

End AbsoluteSendTime.

(** ** Absolute capture time *)
Module AbsoluteCaptureTimeExtension.

Record t := Make {
  absolute_capture_timestamp : Z;
  estimated_capture_clock_offset : option Z
}.

Definition kValueSizeBytes : Z := 16.
Definition kValueSizeBytesWithoutEstimatedCaptureClockOffset : Z := 8.

(** The offset keeps its old value when the short form arrives. *)
Definition Parse (data : list Z) (extension : t) : option (bool * t) :=
  if negb (len data =? kValueSizeBytes) &&
     negb (len data =? kValueSizeBytesWithoutEstimatedCaptureClockOffset)
  then Some (false, extension) else
  ts ← ReadBigEndian 64 8 data;
  if negb (len data =? kValueSizeBytesWithoutEstimatedCaptureClockOffset) then
    off ← ReadBigEndianSigned 64 8 (ptr_add data 8);
    Some (true, Make ts (Some off))
  else Some (true, Make ts (estimated_capture_clock_offset extension)).

Definition ValueSize (extension : t) : Z :=
  match estimated_capture_clock_offset extension with
  | Some _ => kValueSizeBytes
  | None => kValueSizeBytesWithoutEstimatedCaptureClockOffset
  end.

Definition Write (extension : t) : W bool :=
  size ← view_size; dcheck (size =? ValueSize extension) ;;
  WriteBigEndian 8 0 (absolute_capture_timestamp extension) ;;
  (if negb (size =? kValueSizeBytesWithoutEstimatedCaptureClockOffset) then
     match estimated_capture_clock_offset extension with
     | Some off => WriteBigEndianSigned 64 8 8 off
     | None => abort
     end
   else mret tt) ;;
  mret true.

Definition ops : Extension := {|
  value_type := t; kId := kRtpExtensionAbsoluteCaptureTime;
  HeaderExtensions.ValueSize := ValueSize; HeaderExtensions.Write := Write;
  HeaderExtensions.Parse := Parse |}.

End AbsoluteCaptureTimeExtension.

(** ** Audio level *)
Module AudioLevel.

Definition kValueSizeBytes : Z := 1.

(** The pair of [voice_activity] and [audio_level]. *)
Definition Parse (data : list Z) (prev : bool * Z) : option (bool * (bool * Z)) :=
  if negb (len data =? 1) then Some (false, prev) else
  b ← byte_at data 0;
  Some (true, (negb (Z.land b 0x80 =? 0), Z.land b 0x7F)).

Definition ValueSize (v : bool * Z) : Z := kValueSizeBytes.

Definition Write (v : bool * Z) : W bool :=
  size ← view_size; dcheck (size =? 1) ;;
  dcheck (v.2 <=? 0x7f) ;;
  store 0 (Z.lor (if v.1 : bool then 0x80 else 0x00) v.2) ;; mret true.

Definition ops : Extension := {|
  value_type := bool * Z; kId := kRtpExtensionAudioLevel;
  HeaderExtensions.ValueSize := ValueSize; HeaderExtensions.Write := Write;
  HeaderExtensions.Parse := Parse |}.

End AudioLevel.

(** ** Transmission time offset *)
Module TransmissionOffset.

Definition kValueSizeBytes : Z := 3.

Definition Parse (data : list Z) (rtp_time : Z) : option (bool * Z) :=
  if negb (len data =? 3) then Some (false, rtp_time) else
  v ← ReadBigEndianSigned 32 3 data; Some (true, v).

Definition ValueSize (rtp_time : Z) : Z := kValueSizeBytes.

Definition Write (rtp_time : Z) : W bool :=
  size ← view_size; dcheck (size =? 3) ;;
  dcheck (rtp_time <=? 0x00ffffff) ;;
  WriteBigEndianSigned 32 3 0 rtp_time ;; mret true.

Definition ops : Extension := {|
  value_type := Z; kId := kRtpExtensionTransmissionTimeOffset;
  HeaderExtensions.ValueSize := ValueSize; HeaderExtensions.Write := Write;
  HeaderExtensions.Parse := Parse |}.

End TransmissionOffset.

(** ** Transport sequence number *)
Module TransportSequenceNumber.

Definition kValueSizeBytes : Z := 2.

Definition Parse (data : list Z) (transport_sequence_number : Z) : option (bool * Z) :=
  if negb (len data =? kValueSizeBytes) then Some (false, transport_sequence_number) else
  v ← ReadBigEndian 16 2 data; Some (true, v).

Definition ValueSize (transport_sequence_number : Z) : Z := kValueSizeBytes.

Definition Write (transport_sequence_number : Z) : W bool :=
  size ← view_size; dcheck (size =? ValueSize transport_sequence_number) ;;
  WriteBigEndian 2 0 transport_sequence_number ;; mret true.

Definition ops : Extension := {|
  value_type := Z; kId := kRtpExtensionTransportSequenceNumber;
  HeaderExtensions.ValueSize := ValueSize; HeaderExtensions.Write := Write;
  HeaderExtensions.Parse := Parse |}.

End TransportSequenceNumber.

(** ** Transport sequence number with a feedback request *)
Module TransportSequenceNumberV2.

Record FeedbackRequest := Request {
  include_timestamps : bool;
  sequence_count : Z
}.

Definition t : Type := Z * option FeedbackRequest.

Definition kValueSizeBytes : Z := 4.
Definition kValueSizeBytesWithoutFeedbackRequest : Z := 2.
Definition kIncludeTimestampsBit : Z := Z.shiftl 1 15.

Definition Parse (data : list Z) (prev : t) : option (bool * t) :=
  if negb (len data =? kValueSizeBytes) &&
     negb (len data =? kValueSizeBytesWithoutFeedbackRequest)
  then Some (false, prev) else
  transport_sequence_number ← ReadBigEndian 16 2 data;
  if len data =? kValueSizeBytes then
    feedback_request_raw ← ReadBigEndian 16 2 (ptr_add data 2);
    let include_timestamps := negb (Z.land feedback_request_raw kIncludeTimestampsBit =? 0) in
    let sequence_count := u16 (Z.land feedback_request_raw (Z.lnot kIncludeTimestampsBit)) in
    Some (true, (transport_sequence_number,
      if negb (sequence_count =? 0) then Some (Request include_timestamps sequence_count)
      else None))
  else Some (true, (transport_sequence_number, None)).

Definition ValueSize (v : t) : Z :=
  match v.2 with
  | Some _ => kValueSizeBytes
  | None => kValueSizeBytesWithoutFeedbackRequest
  end.

Definition Write (v : t) : W bool :=
  size ← view_size; dcheck (size =? ValueSize v) ;;
  WriteBigEndian 2 0 v.1 ;;
  match v.2 with
  | Some r =>
      dcheck (0 <=? sequence_count r) ;;
      dcheck (sequence_count r <? kIncludeTimestampsBit) ;;
      WriteBigEndian 2 2
        (u16 (Z.lor (sequence_count r)
                (if include_timestamps r then kIncludeTimestampsBit else 0)))
  | None => mret tt
  end ;;
  mret true.

Definition ops : Extension := {|
  value_type := t; kId := kRtpExtensionTransportSequenceNumber02;
  HeaderExtensions.ValueSize := ValueSize; HeaderExtensions.Write := Write;
  HeaderExtensions.Parse := Parse |}.

End TransportSequenceNumberV2.

(** ** Video orientation *)
Module VideoOrientation.

Inductive VideoRotation :=
| kVideoRotation_0 | kVideoRotation_90 | kVideoRotation_180 | kVideoRotation_270.

Definition ConvertVideoRotationToCVOByte (rotation : VideoRotation) : Z :=
  match rotation with
  | kVideoRotation_0 => 0
  | kVideoRotation_90 => 1
  | kVideoRotation_180 => 2
  | kVideoRotation_270 => 3
  end.

Definition ConvertCVOByteToVideoRotation (cvo_byte : Z) : option VideoRotation :=
  let rotation_bits := Z.land cvo_byte 0x3 in
  if rotation_bits =? 0 then Some kVideoRotation_0 else
  if rotation_bits =? 1 then Some kVideoRotation_90 else
  if rotation_bits =? 2 then Some kVideoRotation_180 else
  if rotation_bits =? 3 then Some kVideoRotation_270 else None (* RTC_NOTREACHED *).

Definition kValueSizeBytes : Z := 1.

Definition Parse (data : list Z) (rotation : VideoRotation) : option (bool * VideoRotation) :=
  if negb (len data =? 1) then Some (false, rotation) else
  b ← byte_at data 0;
  r ← ConvertCVOByteToVideoRotation b;
  Some (true, r).

Definition ValueSize (rotation : VideoRotation) : Z := kValueSizeBytes.

Definition Write (rotation : VideoRotation) : W bool :=
  size ← view_size; dcheck (size =? 1) ;;
  store 0 (ConvertVideoRotationToCVOByte rotation) ;; mret true.

(** The overloads on the raw byte. *)
Definition ParseByte (data : list Z) (value : Z) : option (bool * Z) :=
  if negb (len data =? 1) then Some (false, value) else
  b ← byte_at data 0; Some (true, b).

Definition WriteByte (value : Z) : W bool :=
  size ← view_size; dcheck (size =? 1) ;; store 0 value ;; mret true.

Definition ops : Extension := {|
  value_type := VideoRotation; kId := kRtpExtensionVideoRotation;
  HeaderExtensions.ValueSize := ValueSize; HeaderExtensions.Write := Write;
  HeaderExtensions.Parse := Parse |}.

End VideoOrientation.

(** ** Playout delay limits *)
Module PlayoutDelayLimits.

Record PlayoutDelay := Make { min_ms : Z; max_ms : Z }.

Definition kValueSizeBytes : Z := 3.
Definition kGranularityMs : Z := 10.
Definition kMaxMs : Z := 0xfff * kGranularityMs.

Definition Parse (data : list Z) (playout_delay : PlayoutDelay) : option (bool * PlayoutDelay) :=
  if negb (len data =? 3) then Some (false, playout_delay) else
  raw ← ReadBigEndian 32 3 data;
  let min_raw := u16 (Z.shiftr raw 12) in
  let max_raw := u16 (Z.land raw 0xfff) in
  if max_raw <? min_raw then Some (false, playout_delay) else
  Some (true, Make (min_raw * kGranularityMs) (max_raw * kGranularityMs)).

Definition ValueSize (playout_delay : PlayoutDelay) : Z := kValueSizeBytes.

Definition Write (playout_delay : PlayoutDelay) : W bool :=
  size ← view_size; dcheck (size =? 3) ;;
  dcheck (0 <=? min_ms playout_delay) ;;
  dcheck (min_ms playout_delay <=? max_ms playout_delay) ;;
  dcheck (max_ms playout_delay <=? kMaxMs) ;;
  let min_delay := min_ms playout_delay / kGranularityMs in
  let max_delay := max_ms playout_delay / kGranularityMs in
  WriteBigEndian 3 0 (Z.lor (Z.shiftl min_delay 12) max_delay) ;; mret true.

Definition ops : Extension := {|
  value_type := PlayoutDelay; kId := kRtpExtensionPlayoutDelay;
  HeaderExtensions.ValueSize := ValueSize; HeaderExtensions.Write := Write;
  HeaderExtensions.Parse := Parse |}.

End PlayoutDelayLimits.

(** ** Video content type *)
Module VideoContentTypeExtension.

Definition kScreenshareBitsSize : Z := 1.
Definition kScreenshareBitsMask : Z := Z.shiftl 1 kScreenshareBitsSize - 1.
Definition kSimulcastShift : Z := 1.
Definition kSimulcastBitsSize : Z := 2.
Definition kSimulcastBitsMask : Z := Z.shiftl (Z.shiftl 1 kSimulcastBitsSize - 1) kSimulcastShift.
Definition kExperimentShift : Z := 3.
Definition kExperimentBitsSize : Z := 3.
Definition kExperimentBitsMask : Z :=
  Z.shiftl (Z.shiftl 1 kExperimentBitsSize - 1) kExperimentShift.
Definition kTotalBitsSize : Z := kScreenshareBitsSize + kSimulcastBitsSize + kExperimentBitsSize.

(** A content type is its byte; the setters return whether they changed it. *)
Definition SetExperimentId (content_type experiment_id : Z) : bool * Z :=
  if Z.shiftl 1 kExperimentBitsSize <=? experiment_id then (false, content_type) else
  (true, u8 (Z.lor (Z.land content_type (Z.lnot kExperimentBitsMask))
                   (Z.land (Z.shiftl experiment_id kExperimentShift) kExperimentBitsMask))).

Definition SetSimulcastId (content_type simulcast_id : Z) : bool * Z :=
  if Z.shiftl 1 kSimulcastBitsSize <=? simulcast_id then (false, content_type) else
  (true, u8 (Z.lor (Z.land content_type (Z.lnot kSimulcastBitsMask))
                   (Z.land (Z.shiftl simulcast_id kSimulcastShift) kSimulcastBitsMask))).

Definition GetExperimentId (content_type : Z) : Z :=
  Z.shiftr (Z.land content_type kExperimentBitsMask) kExperimentShift.

Definition GetSimulcastId (content_type : Z) : Z :=
  Z.shiftr (Z.land content_type kSimulcastBitsMask) kSimulcastShift.

Definition IsScreenshare (content_type : Z) : bool :=
  0 <? Z.land content_type kScreenshareBitsMask.

Definition IsValidContentType (value : Z) : bool := value <? Z.shiftl 1 kTotalBitsSize.

Definition kValueSizeBytes : Z := 1.

Definition Parse (data : list Z) (content_type : Z) : option (bool * Z) :=
  if negb (len data =? 1) then Some (false, content_type) else
  b ← byte_at data 0;
  if IsValidContentType b then Some (true, b) else Some (false, content_type).

Definition ValueSize (content_type : Z) : Z := kValueSizeBytes.

Definition Write (content_type : Z) : W bool :=
  size ← view_size; dcheck (size =? 1) ;; store 0 content_type ;; mret true.

Definition ops : Extension := {|
  value_type := Z; kId := kRtpExtensionVideoContentType;
  HeaderExtensions.ValueSize := ValueSize; HeaderExtensions.Write := Write;
  HeaderExtensions.Parse := Parse |}.

End VideoContentTypeExtension.

(** ** Video timing *)
Module VideoTimingExtension.

Record VideoSendTiming := Make {
  encode_start_delta_ms : Z;
  encode_finish_delta_ms : Z;
  packetization_finish_delta_ms : Z;
  pacer_exit_delta_ms : Z;
  network_timestamp_delta_ms : Z;
  network2_timestamp_delta_ms : Z;
  flags : Z
}.

Definition kFlagsOffset : Z := 0.
Definition kEncodeStartDeltaOffset : Z := 1.
Definition kEncodeFinishDeltaOffset : Z := 3.
Definition kPacketizationFinishDeltaOffset : Z := 5.
Definition kPacerExitDeltaOffset : Z := 7.
Definition kNetworkTimestampDeltaOffset : Z := 9.
Definition kNetwork2TimestampDeltaOffset : Z := 11.
Definition kValueSizeBytes : Z := 13.

(** The fields behind the flags; [off] is 1 in the old format, which has no flags. *)
Definition parse_deltas (data : list Z) (off flags : Z) : option (bool * VideoSendTiming) :=
  encode_start ← ReadBigEndian 16 2 (ptr_add data (kEncodeStartDeltaOffset - off));
  encode_finish ← ReadBigEndian 16 2 (ptr_add data (kEncodeFinishDeltaOffset - off));
  packetization_finish ← ReadBigEndian 16 2 (ptr_add data (kPacketizationFinishDeltaOffset - off));
  pacer_exit ← ReadBigEndian 16 2 (ptr_add data (kPacerExitDeltaOffset - off));
  network ← ReadBigEndian 16 2 (ptr_add data (kNetworkTimestampDeltaOffset - off));
  network2 ← ReadBigEndian 16 2 (ptr_add data (kNetwork2TimestampDeltaOffset - off));
  Some (true, Make encode_start encode_finish packetization_finish pacer_exit network network2 flags).

Definition Parse (data : list Z) (timing : VideoSendTiming) : option (bool * VideoSendTiming) :=
  if len data =? kValueSizeBytes - 1 then parse_deltas data 1 0 else
  if len data =? kValueSizeBytes then
    flags ← ReadBigEndian 8 1 data;
    parse_deltas data 0 flags
  else Some (false, timing).

Definition ValueSize (timing : VideoSendTiming) : Z := kValueSizeBytes.

Definition Write (timing : VideoSendTiming) : W bool :=
  size ← view_size; dcheck (size =? 1 + 2 * 6) ;;
  (WriteBigEndian 1 kFlagsOffset (flags timing) ;;
   WriteBigEndian 2 kEncodeStartDeltaOffset (encode_start_delta_ms timing) ;;
   WriteBigEndian 2 kEncodeFinishDeltaOffset (encode_finish_delta_ms timing) ;;
   WriteBigEndian 2 kPacketizationFinishDeltaOffset (packetization_finish_delta_ms timing) ;;
   WriteBigEndian 2 kPacerExitDeltaOffset (pacer_exit_delta_ms timing) ;;
   WriteBigEndian 2 kNetworkTimestampDeltaOffset (network_timestamp_delta_ms timing) ;;
   WriteBigEndian 2 kNetwork2TimestampDeltaOffset (network2_timestamp_delta_ms timing)) ;;
  mret true.

(** The overload that writes one delta. *)
Definition WriteDelta (time_delta_ms offset : Z) : W bool :=
  size ← view_size;
  dcheck (offset + 2 <=? size) ;;
  dcheck (offset <=? kValueSizeBytes - 2) ;;
  WriteBigEndian 2 offset time_delta_ms ;; mret true.

Definition ops : Extension := {|
  value_type := VideoSendTiming; kId := kRtpExtensionVideoTiming;
  HeaderExtensions.ValueSize := ValueSize; HeaderExtensions.Write := Write;
  HeaderExtensions.Parse := Parse |}.

End VideoTimingExtension.

(** ** Frame marking *)
Module FrameMarkingExtension.

Record FrameMarking := Make {
  start_of_frame : bool;
  end_of_frame : bool;
  independent_frame : bool;
  discardable_frame : bool;
  base_layer_sync : bool;
  temporal_id : Z;
  layer_id : Z;
  tl0_pic_idx : Z
}.

Definition kNoTemporalIdx : Z := 0xFF.
Definition kNoSpatialIdx : Z := 0xFF.

Definition IsScalable (temporal_id layer_id : Z) : bool :=
  negb (temporal_id =? kNoTemporalIdx) || negb (layer_id =? kNoSpatialIdx).

Definition Parse (data : list Z) (frame_marking : FrameMarking) : option (bool * FrameMarking) :=
  if negb (len data =? 1) && negb (len data =? 3) then Some (false, frame_marking) else
  d0 ← byte_at data 0;
  let bit m := negb (Z.land d0 m =? 0) in
  if len data =? 3 then
    d1 ← byte_at data 1;
    d2 ← byte_at data 2;
    Some (true, Make (bit 0x80) (bit 0x40) (bit 0x20) (bit 0x10) (bit 0x08) (Z.land d0 0x7) d1 d2)
  else
    Some (true, Make (bit 0x80) (bit 0x40) (bit 0x20) (bit 0x10) false kNoTemporalIdx
                     kNoSpatialIdx 0).

Definition ValueSize (frame_marking : FrameMarking) : Z :=
  if IsScalable (temporal_id frame_marking) (layer_id frame_marking) then 3 else 1.

(** The first byte, as the sequence of [|=] builds it. *)
Definition flag_bits (fm : FrameMarking) : Z :=
  Z.lor (Z.lor (Z.lor (if start_of_frame fm then 0x80 else 0x00)
                      (if end_of_frame fm then 0x40 else 0x00))
               (if independent_frame fm then 0x20 else 0x00))
        (if discardable_frame fm then 0x10 else 0x00).

Definition Write (fm : FrameMarking) : W bool :=
  size ← view_size; dcheck (1 <=? size) ;;
  dcheck (temporal_id fm <=? 0x07) ;;
  (if IsScalable (temporal_id fm) (layer_id fm) then
     dcheck (size =? 3) ;;
     store 0 (Z.lor (Z.lor (flag_bits fm) (if base_layer_sync fm then 0x08 else 0x00))
                    (Z.land (temporal_id fm) 0x07)) ;;
     store 1 (layer_id fm) ;;
     store 2 (tl0_pic_idx fm)
   else store 0 (flag_bits fm)) ;;
  mret true.

Definition ops : Extension := {|
  value_type := FrameMarking; kId := kRtpExtensionFrameMarking;
  HeaderExtensions.ValueSize := ValueSize; HeaderExtensions.Write := Write;
  HeaderExtensions.Parse := Parse |}.

End FrameMarkingExtension.

(** ** Strings *)
Module BaseRtpStringExtension.

Definition kMaxValueSizeBytes : Z := 16.

(** [strnlen]: the bytes in front of the first zero. *)
Fixpoint until_zero (data : list Z) : list Z :=
  match data with
  | [] => []
  | b :: t => if b =? 0 then [] else b :: until_zero t
  end.

Definition Parse (data : list Z) (str : list Z) : option (bool * list Z) :=
  if len data =? 0 then Some (false, str) else
  d0 ← byte_at data 0;
  if d0 =? 0 then Some (false, str) else
  let str' := until_zero data in
  check (negb (len str' =? 0)) ;;
  Some (true, str').

Definition ValueSize (str : list Z) : Z := len str.

Definition Write (str : list Z) : W bool :=
  if kMaxValueSizeBytes <? len str then mret false else
  size ← view_size; dcheck (size =? len str) ;;
  dcheck (1 <=? len str) ;;
  memcpy 0 str ;; mret true.

Definition ops (id : RTPExtensionType) : Extension := {|
  value_type := list Z; kId := id;
  HeaderExtensions.ValueSize := ValueSize; HeaderExtensions.Write := Write;
  HeaderExtensions.Parse := Parse |}.

End BaseRtpStringExtension.

Definition RtpStreamId : Extension := BaseRtpStringExtension.ops kRtpExtensionRtpStreamId.
Definition RepairedRtpStreamId : Extension :=
  BaseRtpStringExtension.ops kRtpExtensionRepairedRtpStreamId.
Definition RtpMid : Extension := BaseRtpStringExtension.ops kRtpExtensionMid.

(** ** The laws *)

Lemma write_view_size {A} (k : Z -> W A) view :
  write_view (view_size ≫= k) view = write_view (k (len view)) view.
Proof. done. Qed.

Lemma write_view_dcheck {A} b (m : W A) view :
  b = true -> write_view (dcheck b ;; m) view = write_view m view.
Proof. by intros ->. Qed.

Lemma write_view_assoc (a b : W unit) (c : W bool) view :
  write_view (a ;; b ;; c) view = write_view ((a ;; b) ;; c) view.
Proof.
  unfold write_view, mbind, ST_bind. destruct (a _) as [[[] s]|]; done.
Qed.

Lemma read_be_exact w B v :
  8 * Z.of_nat B <= w -> in_u (8 * Z.of_nat B) v -> ReadBigEndian w B (be_bytes B v) = Some v.
Proof. intros. rewrite <- (app_nil_r (be_bytes B v)). by apply ReadBigEndian_bytes. Qed.

(** Goals about the size of a view or a checked range. *)
Ltac ext_bool :=
  first [apply Z.eqb_eq | apply Z.leb_le | apply Z.ltb_lt]; len_simpl; try lia.

(** Runs a writer up to its stores. *)
Ltac ext_write :=
  rewrite ?write_view_size; repeat rewrite write_view_dcheck by ext_bool.

(** Evaluates the length tests of a parser. *)
Ltac ext_len n :=
  match goal with
  | H : len ?d = n |- _ => rewrite ?(proj2 (Z.eqb_eq (len d) n) H)
  | |- context [len ?d =? n] =>
      rewrite ?(proj2 (Z.eqb_eq (len d) n) ltac:(len_simpl; reflexivity))
  end; cbn [negb andb].

(** A parser that rejects every size but [n]. *)
Lemma parse_size_cases {A} (data : list Z) n (x : A) (k : option (bool * A)) :
  (len data = n -> exists r, k = Some r) ->
  exists r, (if negb (len data =? n) then Some (false, x) else k) = Some r.
Proof. intros H. destruct (Z.eqb_spec (len data) n) as [E|E]; cbn; eauto. Qed.

#[global, program] Instance AbsoluteSendTime_laws : ExtensionLaws AbsoluteSendTime.ops := {|
  valid := in_u 24; wire := be_bytes 3; parsed v _ := v |}.
Next Obligation.
  intros v view [H1 H2] Hv. change (len view = 3) in Hv.
  cbn [Write AbsoluteSendTime.ops]. unfold AbsoluteSendTime.Write. ext_write.
  eapply write_view_stores; [apply stores_WriteBigEndian|by len_simpl|done].
Qed.
Next Obligation.
  intros v _. cbn [ValueSize AbsoluteSendTime.ops]. len_simpl. unfold AbsoluteSendTime.ValueSize, AbsoluteSendTime.kValueSizeBytes, kMaxValueSize.
  split; [done|]. split; [lia|apply be_bytes_ok].
Qed.
Next Obligation.
  intros v prev H. cbn [Parse AbsoluteSendTime.ops]. unfold AbsoluteSendTime.Parse. ext_len 3. by rewrite read_be_exact.
Qed.
Next Obligation.
  intros data prev Hd. apply parse_size_cases. intros Hl.
  destruct (ReadBigEndian_Some 32 3 data) as (v & -> & _); [lia|done|lia|]. by eexists.
Qed.

#[global, program] Instance AbsoluteCaptureTime_laws :
    ExtensionLaws AbsoluteCaptureTimeExtension.ops := {|
  valid v := in_u 64 (AbsoluteCaptureTimeExtension.absolute_capture_timestamp v) /\
    match AbsoluteCaptureTimeExtension.estimated_capture_clock_offset v with
    | Some off => in_s 64 off | None => True end;
  wire v := be_bytes 8 (AbsoluteCaptureTimeExtension.absolute_capture_timestamp v) ++
    match AbsoluteCaptureTimeExtension.estimated_capture_clock_offset v with
    | Some off => be_bytes 8 (wrap 64 off) | None => [] end;
  (* the short form keeps the offset of the object it is parsed into *)
  parsed v prev := AbsoluteCaptureTimeExtension.Make
    (AbsoluteCaptureTimeExtension.absolute_capture_timestamp v)
    match AbsoluteCaptureTimeExtension.estimated_capture_clock_offset v with
    | Some off => Some off
    | None => AbsoluteCaptureTimeExtension.estimated_capture_clock_offset prev end |}.
Next Obligation.
  intros [ts [off|]] view [H1 H2] Hv; cbn in *;
    unfold AbsoluteCaptureTimeExtension.Write, AbsoluteCaptureTimeExtension.ValueSize in *;
    cbn [AbsoluteCaptureTimeExtension.absolute_capture_timestamp
         AbsoluteCaptureTimeExtension.estimated_capture_clock_offset] in *; ext_write.
  - rewrite Hv. cbn [negb Z.eqb Pos.eqb AbsoluteCaptureTimeExtension.kValueSizeBytes
      AbsoluteCaptureTimeExtension.kValueSizeBytesWithoutEstimatedCaptureClockOffset].
    rewrite write_view_assoc. apply (write_view_stores _ _ _ 16); [|by len_simpl|exact Hv].
    eapply stores_seq; [apply stores_WriteBigEndian|apply (stores_WriteBigEndianSigned 64 8); lia
      |by len_simpl|done].
  - rewrite Hv. cbn [negb Z.eqb Pos.eqb AbsoluteCaptureTimeExtension.kValueSizeBytes
      AbsoluteCaptureTimeExtension.kValueSizeBytesWithoutEstimatedCaptureClockOffset].
    rewrite write_view_assoc. apply (write_view_stores _ _ _ 8); [|by len_simpl|exact Hv].
    eapply stores_seq; [apply stores_WriteBigEndian|apply (stores_ret (0 + 8)); lia
      |by len_simpl|done].
Qed.
Next Obligation.
  intros [ts [off|]] _; cbn [ValueSize AbsoluteCaptureTimeExtension.ops];
    unfold AbsoluteCaptureTimeExtension.ValueSize, kMaxValueSize,
      AbsoluteCaptureTimeExtension.kValueSizeBytes,
      AbsoluteCaptureTimeExtension.kValueSizeBytesWithoutEstimatedCaptureClockOffset;
    cbn [AbsoluteCaptureTimeExtension.absolute_capture_timestamp
         AbsoluteCaptureTimeExtension.estimated_capture_clock_offset]; len_simpl; (split; [done|]); (split; [lia|]);
    apply bytes_ok_app; split; first [apply be_bytes_ok|constructor].
Qed.
Next Obligation.
  intros [ts [off|]] [ts0 off0] [H1 H2]; cbn [Parse AbsoluteCaptureTimeExtension.ops
    AbsoluteCaptureTimeExtension.absolute_capture_timestamp
    AbsoluteCaptureTimeExtension.estimated_capture_clock_offset] in *;
    unfold AbsoluteCaptureTimeExtension.Parse, AbsoluteCaptureTimeExtension.kValueSizeBytes,
      AbsoluteCaptureTimeExtension.kValueSizeBytesWithoutEstimatedCaptureClockOffset.
  - ext_len 16.
    rewrite (ReadBigEndian_bytes 64 8) by (try done; lia). cbn [mbind option_bind].
    rewrite (proj2 (Z.eqb_neq (len (be_bytes 8 ts ++ be_bytes 8 (wrap 64 off))) 8))
      by (len_simpl; lia). cbn [negb].
    rewrite ptr_add_app_ge by (len_simpl; lia). len_simpl. rewrite ptr_add_0.
    rewrite <- (app_nil_r (be_bytes 8 (wrap 64 off))).
    by rewrite (ReadBigEndianSigned_bytes 64 8) by (try done; lia).
  - ext_len 8. by rewrite andb_false_r, (ReadBigEndian_bytes 64 8) by (try done; lia).
Qed.
Next Obligation.
  intros data prev Hd. cbn. unfold AbsoluteCaptureTimeExtension.Parse,
    AbsoluteCaptureTimeExtension.kValueSizeBytes,
    AbsoluteCaptureTimeExtension.kValueSizeBytesWithoutEstimatedCaptureClockOffset.
  destruct (Z.eqb_spec (len data) 16) as [E|E], (Z.eqb_spec (len data) 8) as [E'|E']; try lia;
    cbn [negb andb]; [| |by eexists].
  - destruct (ReadBigEndian_Some 64 8 data) as (v & -> & _); [lia|done|lia|]. cbn [mbind option_bind].
    destruct (ReadBigEndianSigned_Some 64 8 (ptr_add data 8)) as (v' & -> & _);
      [lia|lia|done|by apply bytes_ok_ptr_add|rewrite len_ptr_add; lia|]. by eexists.
  - destruct (ReadBigEndian_Some 64 8 data) as (v & -> & _); [lia|done|lia|]. by eexists.
Qed.

(** One byte written and read back. *)
Lemma write_one_byte v b view :
  u8 v = b -> len view = 1 -> write_view (store 0 v ;; mret true) view = Some (true, [b]).
Proof. intros <- Hv. by apply (write_view_stores _ _ _ 1); [apply stores_store| |]. Qed.

Lemma one_byte_size b : byte_ok b -> len [b] = 1 /\ 1 <= 1 <= kMaxValueSize /\ bytes_ok [b].
Proof.
  intros H. split; [done|]. split; [unfold kMaxValueSize; lia|]. by constructor; [|constructor].
Qed.

Lemma byte_at_0 (data : list Z) : bytes_ok data -> 1 <= len data ->
  exists b, byte_at data 0 = Some b /\ byte_ok b.
Proof.
  intros Hd Hl. destruct data as [|b t]; [rewrite len_nil in Hl; lia|]. exists b. split; [done|]. by inversion Hd.
Qed.

Definition audio_byte (v : bool * Z) : Z := Z.lor (if v.1 then 0x80 else 0) v.2.

Lemma audio_byte_ok (a : bool) l :
  0 <= l < 128 -> byte_ok (audio_byte (a, l)) /\
  negb (Z.land (audio_byte (a, l)) 0x80 =? 0) = a /\ Z.land (audio_byte (a, l)) 0x7F = l.
Proof.
  intros Hl. assert (Hb : byte_ok l) by (unfold byte_ok; lia). revert l Hb Hl.
  apply (byte_forall (fun l => 0 <= l < 128 -> byte_ok (audio_byte (a, l)) /\
    negb (Z.land (audio_byte (a, l)) 0x80 =? 0) = a /\ Z.land (audio_byte (a, l)) 0x7F = l)).
  by destruct a; vm_compute.
Qed.

#[global, program] Instance AudioLevel_laws : ExtensionLaws AudioLevel.ops := {|
  valid v := 0 <= v.2 < 128; wire v := [audio_byte v]; parsed v _ := v |}.
Next Obligation.
  intros [a l] view H Hv. change (len view = 1) in Hv. cbn [snd] in H.
  cbn [Write AudioLevel.ops]. unfold AudioLevel.Write. cbn [fst snd]. ext_write.
  apply write_one_byte; [|done]. apply wrap_small, (audio_byte_ok a l H).
Qed.
Next Obligation. intros [a l] H. by apply one_byte_size, audio_byte_ok. Qed.
Next Obligation.
  intros [a l] prev H. cbn [Parse AudioLevel.ops]. unfold AudioLevel.Parse. ext_len 1.
  change (byte_at [audio_byte (a, l)] 0) with (Some (audio_byte (a, l))). cbn [mbind option_bind].
  destruct (audio_byte_ok a l H) as (_ & -> & ->). done.
Qed.
Next Obligation.
  intros data prev Hd. apply parse_size_cases. intros Hl.
  destruct (byte_at_0 data) as (b & -> & _); [done|lia|]. by eexists.
Qed.

#[global, program] Instance TransmissionOffset_laws : ExtensionLaws TransmissionOffset.ops := {|
  valid := in_s 24; wire v := be_bytes 3 (wrap 24 v); parsed v _ := v |}.
Next Obligation.
  intros v view [H1 H2] Hv. change (len view = 3) in Hv. zconst.
  cbn [Write TransmissionOffset.ops]. unfold TransmissionOffset.Write. ext_write.
  apply (write_view_stores _ _ _ 3); [apply stores_WriteInt24|by len_simpl|done].
Qed.
Next Obligation.
  intros v _. cbn [ValueSize TransmissionOffset.ops]. len_simpl.
  unfold TransmissionOffset.ValueSize, TransmissionOffset.kValueSizeBytes, kMaxValueSize.
  split; [done|]. split; [lia|apply be_bytes_ok].
Qed.
Next Obligation.
  intros v prev H. cbn [Parse TransmissionOffset.ops]. unfold TransmissionOffset.Parse. ext_len 3.
  rewrite <- (app_nil_r (be_bytes 3 _)). by rewrite ReadInt24_bytes.
Qed.
Next Obligation.
  intros data prev Hd. apply parse_size_cases. intros Hl.
  destruct (ReadBigEndianSigned_Some 32 3 data) as (v & -> & _); [lia|lia|done|done|lia|]. by eexists.
Qed.

#[global, program] Instance TransportSequenceNumber_laws :
    ExtensionLaws TransportSequenceNumber.ops := {|
  valid := in_u 16; wire := be_bytes 2; parsed v _ := v |}.
Next Obligation.
  intros v view H Hv. change (len view = 2) in Hv.
  cbn [Write TransportSequenceNumber.ops]. unfold TransportSequenceNumber.Write,
    TransportSequenceNumber.ValueSize, TransportSequenceNumber.kValueSizeBytes. ext_write.
  apply (write_view_stores _ _ _ 2); [apply stores_WriteBigEndian|by len_simpl|done].
Qed.
Next Obligation.
  intros v _. cbn [ValueSize TransportSequenceNumber.ops]. len_simpl.
  unfold TransportSequenceNumber.ValueSize, TransportSequenceNumber.kValueSizeBytes, kMaxValueSize.
  split; [done|]. split; [lia|apply be_bytes_ok].
Qed.
Next Obligation.
  intros v prev H. cbn [Parse TransportSequenceNumber.ops]. unfold TransportSequenceNumber.Parse,
    TransportSequenceNumber.kValueSizeBytes. ext_len 2. by rewrite read_be_exact.
Qed.
Next Obligation.
  intros data prev Hd. apply parse_size_cases. intros Hl. change (len data = 2) in Hl.
  destruct (ReadBigEndian_Some 16 2 data) as (v & -> & _); [lia|done|lia|]. by eexists.
Qed.

Module V2 := TransportSequenceNumberV2.

(** The two bytes of a feedback request. *)
Definition request_word (r : V2.FeedbackRequest) : Z :=
  V2.sequence_count r + (if V2.include_timestamps r then 2 ^ 15 else 0).

Lemma request_word_ok r :
  0 <= V2.sequence_count r < 2 ^ 15 ->
  u16 (Z.lor (V2.sequence_count r)
         (if V2.include_timestamps r then V2.kIncludeTimestampsBit else 0)) = request_word r /\
  in_u 16 (request_word r) /\
  negb (Z.land (request_word r) V2.kIncludeTimestampsBit =? 0) = V2.include_timestamps r /\
  u16 (Z.land (request_word r) (Z.lnot V2.kIncludeTimestampsBit)) = V2.sequence_count r.
Proof.
  destruct r as [i c]. cbn [V2.sequence_count V2.include_timestamps]. intros Hc.
  change V2.kIncludeTimestampsBit with (2 ^ 15). unfold request_word.
  cbn [V2.sequence_count V2.include_timestamps].
  assert (Hu : in_u 16 (c + (if i then 2 ^ 15 else 0))) by (unfold in_u; destruct i; lia).
  assert (Hl : Z.lor c (if i then 2 ^ 15 else 0) = c + (if i then 2 ^ 15 else 0)).
  { rewrite Z.lor_comm, Z.add_comm. apply (lor_add_low _ _ 15); [lia|by destruct i|lia]. }
  rewrite Hl. split; [by apply wrap_small|]. split; [done|]. destruct i.
  - rewrite land_top_bit by done. rewrite (proj2 (Z.leb_le (2 ^ 15) _)) by lia. split; [done|].
    rewrite clear_top_bit by (cbn; lia). replace (c + 2 ^ 15 - 2 ^ 15) with c by ring.
    apply wrap_small. unfold in_u. lia.
  - rewrite Z.add_0_r. rewrite land_top_bit by (unfold in_u; cbn; lia).
    rewrite (proj2 (Z.leb_gt (2 ^ 15) _)) by lia. split; [done|].
    assert (Hz : Z.land c (Z.lnot (2 ^ 15)) = c).
    { apply Z.bits_inj'. intros i Hi. rewrite Z.land_spec, Z.lnot_spec by done.
      rewrite Z.pow2_bits_eqb by lia. destruct (Z.eqb_spec 15 i) as [<-|]; cbn [negb]; [|apply andb_true_r].
      rewrite andb_false_r. symmetry. destruct (decide (c = 0)) as [->|]; [apply Z.bits_0|].
      apply Z.bits_above_log2; [lia|]. apply Z.log2_lt_pow2; lia. }
    rewrite Hz. apply wrap_small. unfold in_u. lia.
Qed.

(** A request for zero packets is no request. *)
Definition received_request (v : V2.t) : V2.t :=
  (v.1, match v.2 with
        | Some r => if V2.sequence_count r =? 0 then None else Some r
        | None => None
        end).

#[global, program] Instance TransportSequenceNumberV2_laws : ExtensionLaws V2.ops := {|
  valid v := in_u 16 v.1 /\
    match v.2 with Some r => 0 <= V2.sequence_count r < 2 ^ 15 | None => True end;
  wire v := be_bytes 2 v.1 ++
    match v.2 with Some r => be_bytes 2 (request_word r) | None => [] end;
  parsed v _ := received_request v |}.
Next Obligation.
  intros [n [r|]] view [H1 H2] Hv; cbn [fst snd value_type V2.ops] in *;
    cbn [Write V2.ops]; unfold V2.Write; cbn [fst snd].
  - change (len view = 4) in Hv. rewrite write_view_size, write_view_dcheck by (by apply Z.eqb_eq).
    change V2.kIncludeTimestampsBit with (2 ^ 15) in *.
    rewrite (proj2 (Z.leb_le 0 _)), (proj2 (Z.ltb_lt _ (2 ^ 15))) by lia.
    rewrite write_view_assoc. apply (write_view_stores _ _ _ 4); [|by len_simpl|exact Hv].
    destruct (request_word_ok r H2) as (Hw & _). change V2.kIncludeTimestampsBit with (2 ^ 15) in Hw.
    rewrite Hw. eapply stores_seq; [apply stores_WriteBigEndian| |by len_simpl|done].
    do 2 (apply stores_dcheck; [done|]). apply stores_WriteBigEndian.
  - change (len view = 2) in Hv. rewrite write_view_size, write_view_dcheck by (by apply Z.eqb_eq).
    rewrite write_view_assoc. apply (write_view_stores _ _ _ 2); [|by len_simpl|exact Hv].
    eapply stores_seq; [apply stores_WriteBigEndian|apply (stores_ret (0 + 2))|by len_simpl|done].
Qed.
Next Obligation.
  intros [n [r|]] _; cbn [ValueSize V2.ops fst snd]; unfold V2.ValueSize, kMaxValueSize,
    V2.kValueSizeBytes, V2.kValueSizeBytesWithoutFeedbackRequest; cbn [fst snd]; len_simpl;
    (split; [done|]); (split; [lia|]);
    apply bytes_ok_app; split; first [apply be_bytes_ok|constructor].
Qed.
Next Obligation.
  intros [n [r|]] prev [H1 H2]; cbn [Parse V2.ops fst snd] in *; unfold V2.Parse, V2.kValueSizeBytes,
    V2.kValueSizeBytesWithoutFeedbackRequest.
  - ext_len 4. rewrite (ReadBigEndian_bytes 16 2) by (try done; lia). cbn [mbind option_bind].
    rewrite ptr_add_app_ge by (len_simpl; lia). len_simpl. rewrite ptr_add_0.
    destruct (request_word_ok r H2) as (_ & Hu & Hi & Hc).
    rewrite read_be_exact by (try done; lia). cbn [mbind option_bind]. rewrite Hi, Hc.
    destruct r as [i c]. unfold received_request.
    cbn [fst snd V2.sequence_count V2.include_timestamps]. by destruct (c =? 0).
  - ext_len 2. rewrite andb_false_r, (ReadBigEndian_bytes 16 2) by (try done; lia).
    cbn [mbind option_bind]. rewrite (proj2 (Z.eqb_neq (len (be_bytes 2 n ++ [])) 4)) by (len_simpl; lia).
    done.
Qed.
Next Obligation.
  intros data prev Hd. cbn [Parse V2.ops]. unfold V2.Parse, V2.kValueSizeBytes,
    V2.kValueSizeBytesWithoutFeedbackRequest.
  destruct (Z.eqb_spec (len data) 4) as [E|E], (Z.eqb_spec (len data) 2) as [E'|E']; try lia;
    cbn [negb andb]; [| |by eexists].
  - destruct (ReadBigEndian_Some 16 2 data) as (v & -> & _); [lia|done|lia|]. cbn [mbind option_bind].
    destruct (ReadBigEndian_Some 16 2 (ptr_add data 2)) as (v' & -> & _);
      [lia|by apply bytes_ok_ptr_add|rewrite len_ptr_add; lia|]. by eexists.
  - destruct (ReadBigEndian_Some 16 2 data) as (v & -> & _); [lia|done|lia|]. by eexists.
Qed.

Lemma cvo_total b : byte_ok b -> is_Some (VideoOrientation.ConvertCVOByteToVideoRotation b).
Proof. revert b. by_bytes. Qed.

#[global, program] Instance VideoOrientation_laws : ExtensionLaws VideoOrientation.ops := {|
  valid _ := True; wire v := [VideoOrientation.ConvertVideoRotationToCVOByte v]; parsed v _ := v |}.
Next Obligation.
  intros v view _ Hv. change (len view = 1) in Hv. cbn [Write VideoOrientation.ops].
  unfold VideoOrientation.Write. ext_write. apply write_one_byte; [by destruct v|done].
Qed.
Next Obligation. intros v _. apply one_byte_size. destruct v; cbn; unfold byte_ok; lia. Qed.
Next Obligation. intros v prev _. by destruct v. Qed.
Next Obligation.
  intros data prev Hd. apply parse_size_cases. intros Hl.
  destruct (byte_at_0 data) as (b & -> & Hb); [done|lia|]. cbn [mbind option_bind].
  destruct (cvo_total b Hb) as [r ->]. by eexists.
Qed.

Module PD := PlayoutDelayLimits.

(** The 24 bits of a playout delay. *)
Definition delay_word (v : PD.PlayoutDelay) : Z :=
  PD.min_ms v / 10 * 2 ^ 12 + PD.max_ms v / 10.

#[global, program] Instance PlayoutDelayLimits_laws : ExtensionLaws PD.ops := {|
  valid v := 0 <= PD.min_ms v <= PD.max_ms v /\ PD.max_ms v <= 40950;
  wire v := be_bytes 3 (delay_word v);
  (* delays are rounded down to ten milliseconds *)
  parsed v _ := PD.Make (PD.min_ms v / 10 * 10) (PD.max_ms v / 10 * 10) |}.
Next Obligation.
  intros [mn mx] view [[H1 H2] H3] Hv. cbn [PD.min_ms PD.max_ms] in *. change (len view = 3) in Hv.
  cbn [Write PD.ops]. unfold PD.Write. cbn [PD.min_ms PD.max_ms].
  change PD.kMaxMs with 40950. ext_write.
  change PD.kGranularityMs with 10.
  rewrite lor_shiftl_low by (try lia; Z.to_euclidean_division_equations; lia).
  apply (write_view_stores _ _ _ 3); [apply stores_WriteBigEndian|by len_simpl|done].
Qed.
Next Obligation.
  intros v _. cbn [ValueSize PD.ops]. len_simpl. unfold PD.ValueSize, PD.kValueSizeBytes, kMaxValueSize.
  split; [done|]. split; [lia|apply be_bytes_ok].
Qed.
Next Obligation.
  intros [mn mx] prev [[H1 H2] H3]. cbn [PD.min_ms PD.max_ms] in *.
  cbn [Parse PD.ops]. unfold PD.Parse. ext_len 3. unfold delay_word. cbn [PD.min_ms PD.max_ms].
  assert (Ha : 0 <= mn / 10 <= mx / 10 /\ mx / 10 < 2 ^ 12)
    by (Z.to_euclidean_division_equations; lia).
  set (a := mn / 10) in *. set (b := mx / 10) in *. clearbody a b.
  rewrite read_be_exact by (unfold in_u; lia). cbn [mbind option_bind].
  rewrite Z.shiftr_div_pow2, Z.div_add_l, (Z.div_small b), Z.add_0_r by lia.
  change 0xfff with (2 ^ 12 - 1). rewrite land_ones_mod, Z.add_comm, Z_mod_plus_full, Z.mod_small by lia.
  rewrite !wrap_small by (unfold in_u; lia). rewrite (proj2 (Z.ltb_ge b a)) by lia. done.
Qed.
Next Obligation.
  intros data prev Hd. apply parse_size_cases. intros Hl.
  destruct (ReadBigEndian_Some 32 3 data) as (v & -> & _); [lia|done|lia|]. cbn [mbind option_bind].
  destruct (_ <? _); by eexists.
Qed.

Module VC := VideoContentTypeExtension.

#[global, program] Instance VideoContentType_laws : ExtensionLaws VC.ops := {|
  valid v := 0 <= v < 64; wire v := [v]; parsed v _ := v |}.
Next Obligation.
  intros v view H Hv. change (len view = 1) in Hv. cbn [Write VC.ops]. unfold VC.Write. ext_write.
  apply write_one_byte; [|done]. apply wrap_small. unfold in_u. cbn [value_type VC.ops] in *. lia.
Qed.
Next Obligation.
  intros v H. change (0 <= v < 64) in H. apply one_byte_size. unfold byte_ok. cbn in *. lia.
Qed.
Next Obligation.
  intros v prev H. cbn [Parse VC.ops]. unfold VC.Parse. ext_len 1.
  change (byte_at [v] 0) with (Some v). cbn [mbind option_bind].
  assert (Hok : VC.IsValidContentType v = true)
    by (apply Z.ltb_lt; change (v < 64); cbn in *; lia).
  by rewrite Hok.
Qed.
Next Obligation.
  intros data prev Hd. apply parse_size_cases. intros Hl.
  destruct (byte_at_0 data) as (b & -> & _); [done|lia|]. cbn [mbind option_bind].
  destruct (VC.IsValidContentType b); by eexists.
Qed.

(** The fields inside a content type are independent. *)
Lemma content_type_fields ct id :
  byte_ok ct -> 0 <= id ->
  (VC.SetExperimentId ct id = (false, ct) /\ 8 <= id \/
   exists ct', VC.SetExperimentId ct id = (true, ct') /\ VC.GetExperimentId ct' = id /\
     VC.GetSimulcastId ct' = VC.GetSimulcastId ct /\ VC.IsScreenshare ct' = VC.IsScreenshare ct) /\
  (VC.SetSimulcastId ct id = (false, ct) /\ 4 <= id \/
   exists ct', VC.SetSimulcastId ct id = (true, ct') /\ VC.GetSimulcastId ct' = id /\
     VC.GetExperimentId ct' = VC.GetExperimentId ct /\ VC.IsScreenshare ct' = VC.IsScreenshare ct).
Proof.
  intros Hb Hid. split.
  - destruct (decide (8 <= id)) as [Hge|Hlt].
    + left. split; [|done]. unfold VC.SetExperimentId.
      change (Z.shiftl 1 VC.kExperimentBitsSize) with 8. by rewrite (proj2 (Z.leb_le 8 id)).
    + right. exists (VC.SetExperimentId ct id).2.
      assert (Hi : id = 0 \/ id = 1 \/ id = 2 \/ id = 3 \/ id = 4 \/ id = 5 \/ id = 6 \/ id = 7) by lia.
      clear Hid Hlt. revert ct Hb.
      destruct Hi as [->|[->|[->|[->|[->|[->|[->| ->]]]]]]]; by_bytes.
  - destruct (decide (4 <= id)) as [Hge|Hlt].
    + left. split; [|done]. unfold VC.SetSimulcastId.
      change (Z.shiftl 1 VC.kSimulcastBitsSize) with 4. by rewrite (proj2 (Z.leb_le 4 id)).
    + right. exists (VC.SetSimulcastId ct id).2.
      assert (Hi : id = 0 \/ id = 1 \/ id = 2 \/ id = 3) by lia.
      clear Hid Hlt. revert ct Hb.
      destruct Hi as [->|[->|[->| ->]]]; by_bytes.
Qed.

Module VT := VideoTimingExtension.

Definition timing_wire (v : VT.VideoSendTiming) : list Z :=
  be_bytes 1 (VT.flags v) ++ be_bytes 2 (VT.encode_start_delta_ms v) ++
  be_bytes 2 (VT.encode_finish_delta_ms v) ++ be_bytes 2 (VT.packetization_finish_delta_ms v) ++
  be_bytes 2 (VT.pacer_exit_delta_ms v) ++ be_bytes 2 (VT.network_timestamp_delta_ms v) ++
  be_bytes 2 (VT.network2_timestamp_delta_ms v).

Definition timing_valid (v : VT.VideoSendTiming) : Prop :=
  byte_ok (VT.flags v) /\ in_u 16 (VT.encode_start_delta_ms v) /\
  in_u 16 (VT.encode_finish_delta_ms v) /\ in_u 16 (VT.packetization_finish_delta_ms v) /\
  in_u 16 (VT.pacer_exit_delta_ms v) /\ in_u 16 (VT.network_timestamp_delta_ms v) /\
  in_u 16 (VT.network2_timestamp_delta_ms v).

Lemma bind_step {A B} (m : option A) (k : A -> option B) x r :
  m = Some x -> k x = r -> (m ≫= k) = r.
Proof. by intros -> <-. Qed.

(** Reads a 16-bit field of a wire image. *)
Ltac read_field :=
  repeat (rewrite ptr_add_app_ge by (len_simpl; lia));
  len_simpl; zconst; rewrite ?ptr_add_0;
  first [apply (ReadBigEndian_bytes 16 2)|apply (read_be_exact 16 2)]; [lia|done].

Lemma timing_deltas_safe data off flags :
  bytes_ok data -> 0 <= off <= 1 -> len data = 13 - off ->
  exists r, VT.parse_deltas data off flags = Some r.
Proof.
  intros Hd Ho Hl.
  assert (Hr : forall i, 1 <= i <= 11 -> exists v, ReadBigEndian 16 2 (ptr_add data (i - off)) = Some v).
  { intros i Hi. destruct (ReadBigEndian_Some 16 2 (ptr_add data (i - off))) as (v & -> & _);
      [lia|by apply bytes_ok_ptr_add|rewrite len_ptr_add; lia|by eexists]. }
  unfold VT.parse_deltas, VT.kEncodeStartDeltaOffset, VT.kEncodeFinishDeltaOffset,
    VT.kPacketizationFinishDeltaOffset, VT.kPacerExitDeltaOffset, VT.kNetworkTimestampDeltaOffset,
    VT.kNetwork2TimestampDeltaOffset.
  destruct (Hr 1 ltac:(lia)) as [? ->], (Hr 3 ltac:(lia)) as [? ->], (Hr 5 ltac:(lia)) as [? ->],
    (Hr 7 ltac:(lia)) as [? ->], (Hr 9 ltac:(lia)) as [? ->], (Hr 11 ltac:(lia)) as [? ->].
  by eexists.
Qed.

#[global, program] Instance VideoTiming_laws : ExtensionLaws VT.ops := {|
  valid := timing_valid; wire := timing_wire; parsed v _ := v |}.
Next Obligation.
  intros v view H Hv. change (len view = 13) in Hv. cbn [Write VT.ops]. unfold VT.Write. ext_write.
  apply (write_view_stores _ _ _ 13); [|by unfold timing_wire; len_simpl|done]. unfold timing_wire.
  repeat (eapply stores_seq; [apply stores_WriteBigEndian| |by len_simpl|reflexivity]).
  apply stores_WriteBigEndian.
Qed.
Next Obligation.
  intros v _. cbn [ValueSize VT.ops]. unfold timing_wire, VT.ValueSize, VT.kValueSizeBytes, kMaxValueSize.
  len_simpl. split; [done|]. split; [lia|]. repeat (apply bytes_ok_app; split); apply be_bytes_ok.
Qed.
Next Obligation.
  intros v prev (H1 & H2 & H3 & H4 & H5 & H6 & H7). cbn [Parse VT.ops].
  unfold VT.Parse, VT.kValueSizeBytes.
  assert (Hl : len (timing_wire v) = 13) by by unfold timing_wire; len_simpl.
  rewrite Hl. change (13 =? 13 - 1) with false. change (13 =? 13) with true. cbv iota.
  unfold timing_wire. rewrite (ReadBigEndian_bytes 8 1) by (unfold in_u, byte_ok in *; lia).
  cbn [mbind option_bind]. unfold VT.parse_deltas.
  change (VT.kEncodeStartDeltaOffset - 0) with 1. change (VT.kEncodeFinishDeltaOffset - 0) with 3.
  change (VT.kPacketizationFinishDeltaOffset - 0) with 5. change (VT.kPacerExitDeltaOffset - 0) with 7.
  change (VT.kNetworkTimestampDeltaOffset - 0) with 9.
  change (VT.kNetwork2TimestampDeltaOffset - 0) with 11.
  repeat (eapply bind_step; [read_field|]). by destruct v.
Qed.
Next Obligation.
  intros data prev Hd. cbn [Parse VT.ops]. unfold VT.Parse, VT.kValueSizeBytes.
  destruct (Z.eqb_spec (len data) (13 - 1)) as [E|E]; [apply timing_deltas_safe; try done; lia|].
  destruct (Z.eqb_spec (len data) 13) as [E'|E']; [|by eexists].
  destruct (ReadBigEndian_Some 8 1 data) as (v & -> & _); [lia|done|lia|]. cbn [mbind option_bind].
  apply timing_deltas_safe; try done; lia.
Qed.

Module FM := FrameMarkingExtension.

Definition marking_byte (fm : FM.FrameMarking) : Z :=
  Z.lor (Z.lor (FM.flag_bits fm) (if FM.base_layer_sync fm then 0x08 else 0x00))
        (Z.land (FM.temporal_id fm) 0x07).

Lemma marking_byte_ok (s e i d b : bool) tid l p :
  0 <= tid <= 7 ->
  let fm := FM.Make s e i d b tid l p in
  let bit m := negb (Z.land (marking_byte fm) m =? 0) in
  byte_ok (marking_byte fm) /\
  (bit 0x80, bit 0x40, bit 0x20, bit 0x10, bit 0x08) = (s, e, i, d, b) /\
  Z.land (marking_byte fm) 0x7 = tid.
Proof.
  intros Ht. assert (Hi : tid = 0 \/ tid = 1 \/ tid = 2 \/ tid = 3 \/ tid = 4 \/ tid = 5 \/ tid = 6 \/ tid = 7) by lia.
  destruct Hi as [->|[->|[->|[->|[->|[->|[->| ->]]]]]]];
    destruct s, e, i, d, b; cbv zeta beta; by_compute.
Qed.

Lemma scalable_small tid l : 0 <= tid <= 7 -> FM.IsScalable tid l = true.
Proof.
  intros H. unfold FM.IsScalable, FM.kNoTemporalIdx. by rewrite (proj2 (Z.eqb_neq tid 255)) by lia.
Qed.

#[global, program] Instance FrameMarking_laws : ExtensionLaws FM.ops := {|
  valid v := 0 <= FM.temporal_id v <= 7 /\ byte_ok (FM.layer_id v) /\ byte_ok (FM.tl0_pic_idx v);
  wire v := [marking_byte v; FM.layer_id v; FM.tl0_pic_idx v]; parsed v _ := v |}.
Next Obligation.
  intros [s e i d b tid l p] view (Ht & Hl & Hp) Hv.
  cbn [FM.temporal_id FM.layer_id FM.tl0_pic_idx] in *.
  assert (Hv3 : len view = 3).
  { rewrite Hv. cbn [ValueSize FM.ops]. unfold FM.ValueSize. cbn [FM.temporal_id FM.layer_id].
    by rewrite scalable_small. }
  cbn [Write FM.ops]. unfold FM.Write. cbn [FM.temporal_id FM.layer_id FM.tl0_pic_idx].
  rewrite scalable_small by done. ext_write.
  destruct (marking_byte_ok s e i d b tid l p Ht) as (Hb & _).
  apply (write_view_stores _ _ _ 3); [|done|done]. apply stores_dcheck; [by apply Z.eqb_eq|].
  change [?a; ?b; ?c] with ([a] ++ [b] ++ [c]).
  repeat (eapply stores_seq; [apply stores_store| |by len_simpl|]); [apply stores_store|..];
    cbn [app]; rewrite !wrap_small by done; done.
Qed.
Next Obligation.
  intros [s e i d b tid l p] (Ht & Hl & Hp). cbn [FM.temporal_id FM.layer_id FM.tl0_pic_idx] in *.
  cbn [ValueSize FM.ops]. unfold FM.ValueSize, kMaxValueSize.
  cbn [FM.temporal_id FM.layer_id FM.tl0_pic_idx].
  rewrite scalable_small by done. split; [done|]. split; [lia|].
  repeat constructor; try apply Hl; try apply Hp; by apply marking_byte_ok.
Qed.
Next Obligation.
  intros [s e i d b tid l p] prev (Ht & Hl & Hp). cbn [FM.temporal_id FM.layer_id FM.tl0_pic_idx] in *.
  destruct (marking_byte_ok s e i d b tid l p Ht) as (_ & Hbits & Htid).
  cbn [Parse FM.ops]. unfold FM.Parse.
  set (m := marking_byte _) in *. clearbody m.
  change (len [m; l; p]) with 3. cbn [negb andb Z.eqb Pos.eqb mbind option_bind byte_at deref ptr_add].
  change (byte_at [m; l; p] 0) with (Some m). change (byte_at [m; l; p] 1) with (Some l).
  change (byte_at [m; l; p] 2) with (Some p). cbn [mbind option_bind].
  injection Hbits as -> -> -> -> ->. by rewrite Htid.
Qed.
Next Obligation.
  intros data prev Hd. cbn [Parse FM.ops]. unfold FM.Parse.
  destruct data as [|d0 [|d1 [|d2 [|d3 data]]]]; try by eexists.
  rewrite !(proj2 (Z.eqb_neq (len (d0 :: d1 :: d2 :: d3 :: data)) _))
    by (rewrite !len_cons; pose proof (len_nonneg data); lia). by eexists.
Qed.

(** The one-byte form of the frame marking, which [ValueSize] announces and [Parse] accepts for a
    stream that is not scalable, cannot be written: the check on the temporal id fails first. *)
Lemma frame_marking_nonscalable_aborts s e i d b p view :
  let fm := FM.Make s e i d b FM.kNoTemporalIdx FM.kNoSpatialIdx p in
  FM.ValueSize fm = 1 /\ write_view (FM.Write fm) view = None.
Proof.
  split; [done|]. unfold FM.Write. rewrite write_view_size. unfold write_view, mbind, ST_bind.
  destruct (1 <=? len view); done.
Qed.

Module Str := BaseRtpStringExtension.

Definition nonzero_bytes (l : list Z) : Prop := Forall (fun b => 0 < b < 256) l.

Lemma until_zero_id l : nonzero_bytes l -> Str.until_zero l = l.
Proof.
  induction 1 as [|b l Hb _ IH]; cbn [Str.until_zero]; [done|].
  rewrite (proj2 (Z.eqb_neq b 0)) by lia. by rewrite IH.
Qed.

Lemma nonzero_bytes_ok l : nonzero_bytes l -> bytes_ok l.
Proof. intros H. eapply Forall_impl; [exact H|]. unfold byte_ok. intros. lia. Qed.

#[global, program] Instance String_laws id : ExtensionLaws (Str.ops id) := {|
  valid v := nonzero_bytes v /\ 1 <= len v <= 16; wire v := v; parsed v _ := v |}.
Next Obligation.
  intros id v view [H1 [H2 H3]] Hv. change (len view = len v) in Hv. cbn [value_type Str.ops] in v.
  cbn [Write Str.ops]. unfold Str.Write, Str.kMaxValueSizeBytes.
  rewrite (proj2 (Z.ltb_ge 16 (len v))) by done. ext_write.
  apply (write_view_stores _ _ _ (len v)); [|done|done]. by apply stores_memcpy, nonzero_bytes_ok.
Qed.
Next Obligation.
  intros id v [H1 [H2 H3]]. cbn [ValueSize Str.ops value_type] in *. unfold Str.ValueSize, kMaxValueSize.
  split; [done|]. split; [lia|by apply nonzero_bytes_ok].
Qed.
Next Obligation.
  intros id v prev [H1 [H2 H3]]. cbn [Parse Str.ops value_type] in *. unfold Str.Parse.
  rewrite (proj2 (Z.eqb_neq (len v) 0)) by lia. rewrite until_zero_id by done.
  destruct H1 as [|b l Hb Hl]; [rewrite len_nil in H2; lia|].
  change (byte_at (b :: l) 0) with (Some b). cbn [mbind option_bind].
  rewrite (proj2 (Z.eqb_neq b 0)) by lia. rewrite (proj2 (Z.eqb_neq (len (b :: l)) 0)) by lia. done.
Qed.
Next Obligation.
  intros id data prev Hd. cbn [Parse Str.ops]. unfold Str.Parse.
  destruct data as [|b l]; [by eexists|].
  rewrite (proj2 (Z.eqb_neq (len (b :: l)) 0)) by (rewrite len_cons; pose proof (len_nonneg l); lia).
  change (byte_at (b :: l) 0) with (Some b). cbn [mbind option_bind Str.until_zero].
  destruct (b =? 0); [by eexists|].
  rewrite (proj2 (Z.eqb_neq (len (b :: _)) 0))
    by (rewrite len_cons; pose proof (len_nonneg (Str.until_zero l)); lia). by eexists.
Qed.

(** What a class has to do to be usable in a packet: a valid value fills a view of the announced
    size, which is one an extension can have, the bytes parse to the value the receiver is meant
    to get, and no bytes of the network make the parser fail or read outside its view. *)
Definition sound_codec (E : Extension) (ok : value_type E -> Prop)
    (sent_as : value_type E -> value_type E -> value_type E) : Prop :=
  (forall v view, ok v -> len view = ValueSize E v ->
     1 <= ValueSize E v <= kMaxValueSize /\
     exists bs, write_view (Write E v) view = Some (true, bs) /\ len bs = ValueSize E v /\
       bytes_ok bs /\ forall prev, Parse E bs prev = Some (true, sent_as v prev)) /\
  (forall data prev, bytes_ok data -> exists r, Parse E data prev = Some r).

Lemma laws_sound E {L : ExtensionLaws E} : sound_codec E valid parsed.
Proof.
  split.
  - intros v view Hv Hl. destruct (wire_size v Hv) as (H1 & H2 & H3). split; [done|].
    exists (wire v). split; [by apply write_ok|]. split; [done|]. split; [done|].
    intros prev. by apply parse_wire.
  - apply parse_safe.
Qed.
