(* ===== verification/FrameDescriptor.v ===== *)
(** * Generic frame descriptors

    Model of [rtp_generic_frame_descriptor.h/.cc] and [rtp_generic_frame_descriptor_extension.cc]:
    the descriptor of a frame that travels in the packets of that frame, its byte representation
    for frame authentication, and the header extension in its versions 00 and 01, as two more
    instances of [ExtensionLaws].

    A descriptor keeps its dependencies as the list of the first [num_frame_deps_] elements of the
    array [frame_deps_id_diffs_]; the elements behind them are never read.  The getters that check
    [FirstPacketInSubFrame] are options; [ValueSize] and [Write] call them behind that very test,
    so there the fields are read directly. *)

From S2P Require Import Prelude Buffer ByteIo Rtcp Wire RtpExtensionMap HeaderExtensions.
Import ByteReader ByteWriter.

(** ** The descriptor *)
Module RtpGenericFrameDescriptor.

Definition kMaxNumFrameDependencies : Z := 8.
Definition kMaxTemporalLayers : Z := 8.

Record t := Make {
  beginning_of_subframe : bool;
  end_of_subframe : bool;
  discardable : option bool;
  frame_id : Z;
  spatial_layers : Z;
  temporal_layer : Z;
  frame_deps_id_diffs : list Z;
  width : Z;
  height : Z;
  byte_representation : list Z
}.

Definition construct : t := Make false false None 0 1 0 [] 0 0 [].

Definition SetFirstPacketInSubFrame (first : bool) (d : t) : t :=
  Make first (end_of_subframe d) (discardable d) (frame_id d) (spatial_layers d)
    (temporal_layer d) (frame_deps_id_diffs d) (width d) (height d) (byte_representation d).

Definition SetLastPacketInSubFrame (last : bool) (d : t) : t :=
  Make (beginning_of_subframe d) last (discardable d) (frame_id d) (spatial_layers d)
    (temporal_layer d) (frame_deps_id_diffs d) (width d) (height d) (byte_representation d).

Definition SetDiscardable (b : bool) (d : t) : t :=
  Make (beginning_of_subframe d) (end_of_subframe d) (Some b) (frame_id d) (spatial_layers d)
    (temporal_layer d) (frame_deps_id_diffs d) (width d) (height d) (byte_representation d).

Definition TemporalLayer (d : t) : option Z :=
  check (beginning_of_subframe d) ;; Some (temporal_layer d).

Definition SetTemporalLayer (l : Z) (d : t) : option t :=
  check (0 <=? l) ;; check (l <? kMaxTemporalLayers) ;;
  Some (Make (beginning_of_subframe d) (end_of_subframe d) (discardable d) (frame_id d)
    (spatial_layers d) (u8 l) (frame_deps_id_diffs d) (width d) (height d)
    (byte_representation d)).

(** The loop of [SpatialLayer]; it tests the member, not its copy, against zero. *)
Fixpoint spatial_loop (fuel : nat) (member spatial_layers layer : Z) : option Z :=
  if negb (member =? 0) && (Z.land spatial_layers 1 =? 0) then
    match fuel with
    | O => None
    | S n => spatial_loop n member (Z.shiftr spatial_layers 1) (layer + 1)
    end
  else Some layer.

Definition SpatialLayer (d : t) : option Z :=
  check (beginning_of_subframe d) ;;
  spatial_loop 8 (spatial_layers d) (spatial_layers d) 0.

Definition SpatialLayersBitmask (d : t) : option Z :=
  check (beginning_of_subframe d) ;; Some (spatial_layers d).

Definition SetSpatialLayersBitmask (mask : Z) (d : t) : option t :=
  check (beginning_of_subframe d) ;;
  Some (Make (beginning_of_subframe d) (end_of_subframe d) (discardable d) (frame_id d)
    mask (temporal_layer d) (frame_deps_id_diffs d) (width d) (height d)
    (byte_representation d)).

Definition SetResolution (w h : Z) (d : t) : option t :=
  check (beginning_of_subframe d) ;;
  check (0 <=? w) ;; check (w <=? 0xFFFF) ;; check (0 <=? h) ;; check (h <=? 0xFFFF) ;;
  Some (Make (beginning_of_subframe d) (end_of_subframe d) (discardable d) (frame_id d)
    (spatial_layers d) (temporal_layer d) (frame_deps_id_diffs d) w h (byte_representation d)).

Definition FrameId (d : t) : option Z :=
  check (beginning_of_subframe d) ;; Some (frame_id d).

Definition SetFrameId (id : Z) (d : t) : option t :=
  check (beginning_of_subframe d) ;;
  Some (Make (beginning_of_subframe d) (end_of_subframe d) (discardable d) id
    (spatial_layers d) (temporal_layer d) (frame_deps_id_diffs d) (width d) (height d)
    (byte_representation d)).

Definition FrameDependenciesDiffs (d : t) : option (list Z) :=
  check (beginning_of_subframe d) ;; Some (frame_deps_id_diffs d).

Definition set_deps (deps : list Z) (d : t) : t :=
  Make (beginning_of_subframe d) (end_of_subframe d) (discardable d) (frame_id d)
    (spatial_layers d) (temporal_layer d) deps (width d) (height d) (byte_representation d).

Definition ClearFrameDependencies (d : t) : t := set_deps [] d.

Definition AddFrameDependencyDiff (fdiff : Z) (d : t) : option (bool * t) :=
  check (beginning_of_subframe d) ;;
  if len (frame_deps_id_diffs d) =? kMaxNumFrameDependencies then Some (false, d) else
  if fdiff =? 0 then Some (false, d) else
  check (fdiff <? Z.shiftl 1 14) ;; check (0 <? fdiff) ;;
  Some (true, set_deps (frame_deps_id_diffs d ++ [fdiff]) d).

(** The end-of-subframe bit is not part of what a frame is authenticated with. *)
Definition SetByteRepresentation (representation : list Z) (d : t) : option t :=
  match representation with
  | [] => None
  | b :: l =>
      Some (Make (beginning_of_subframe d) (end_of_subframe d) (discardable d) (frame_id d)
        (spatial_layers d) (temporal_layer d) (frame_deps_id_diffs d) (width d) (height d)
        (Z.land b (Z.lnot 0x40) :: l))
  end.

Definition GetByteRepresentation (d : t) : list Z := byte_representation d.

End RtpGenericFrameDescriptor.

Module GFD := RtpGenericFrameDescriptor.

(** ** The header extension *)
Module RtpGenericFrameDescriptorExtension.

Definition kMaxSizeBytes : Z := 16.

Definition kFlagBeginOfSubframe : Z := 0x80.
Definition kFlagEndOfSubframe : Z := 0x40.
Definition kFlagFirstSubframeV00 : Z := 0x20.
Definition kFlagLastSubframeV00 : Z := 0x10.
Definition kFlagDiscardableV01 : Z := 0x10.
Definition kFlagDependencies : Z := 0x08.
Definition kMaskTemporalLayer : Z := 0x07.
Definition kFlagMoreDependencies : Z := 0x01.
Definition kFlageXtendedOffset : Z := 0x02.

(** The loop over the dependencies; every round reads a byte, so the size of the data bounds it. *)
Fixpoint parse_deps (fuel : nat) (data : list Z) (offset : Z) (has_more_dependencies : bool)
    (d : GFD.t) : option (bool * GFD.t) :=
  if negb has_more_dependencies then Some (true, d) else
  match fuel with
  | O => None
  | S n =>
      if len data =? offset then Some (false, d) else
      b ← byte_at data offset;
      let more := negb (Z.land b kFlagMoreDependencies =? 0) in
      let extended := negb (Z.land b kFlageXtendedOffset =? 0) in
      let fdiff := Z.shiftr b 2 in
      let offset := offset + 1 in
      let add fdiff offset :=
        '(ok, d') ← GFD.AddFrameDependencyDiff fdiff d;
        if negb ok then Some (false, d') else parse_deps n data offset more d' in
      if extended then
        if len data =? offset then Some (false, d) else
        x ← byte_at data offset;
        add (u16 (Z.lor fdiff (Z.shiftl x 6))) (offset + 1)
      else add fdiff offset
  end.

(** [RtpGenericFrameDescriptorExtensionParse]. *)
Definition Parse (version : Z) (data : list Z) (d : GFD.t) : option (bool * GFD.t) :=
  if len data =? 0 then Some (false, d) else
  b0 ← byte_at data 0;
  let begins_subframe := negb (Z.land b0 kFlagBeginOfSubframe =? 0) in
  let d := GFD.SetFirstPacketInSubFrame begins_subframe d in
  let d := GFD.SetLastPacketInSubFrame (negb (Z.land b0 kFlagEndOfSubframe =? 0)) d in
  let d := if 1 <=? version
           then GFD.SetDiscardable (negb (Z.land b0 kFlagDiscardableV01 =? 0)) d else d in
  if negb begins_subframe then Some (len data =? 1, d) else
  if len data <? 4 then Some (false, d) else
  d ← GFD.SetTemporalLayer (Z.land b0 kMaskTemporalLayer) d;
  b1 ← byte_at data 1;
  d ← GFD.SetSpatialLayersBitmask b1 d;
  b2 ← byte_at data 2; b3 ← byte_at data 3;
  d ← GFD.SetFrameId (u16 (Z.lor b2 (Z.shiftl b3 8))) d;
  let d := GFD.ClearFrameDependencies d in
  let has_more_dependencies := negb (Z.land b0 kFlagDependencies =? 0) in
  if negb has_more_dependencies && (4 + 4 <=? len data) then
    w1 ← byte_at data 4; w0 ← byte_at data 5;
    h1 ← byte_at data 6; h0 ← byte_at data 7;
    d ← GFD.SetResolution (u16 (Z.lor (Z.shiftl w1 8) w0)) (u16 (Z.lor (Z.shiftl h1 8) h0)) d;
    parse_deps (length data) data 8 has_more_dependencies d
  else parse_deps (length data) data 4 has_more_dependencies d.

Definition fdiff_size (fdiff : Z) : Z := if Z.shiftl 1 6 <=? fdiff then 2 else 1.

(** The resolution is written for a frame without dependencies that has one. *)
Definition has_resolution (d : GFD.t) : bool :=
  GFD.beginning_of_subframe d && (len (GFD.frame_deps_id_diffs d) =? 0) &&
  (0 <? GFD.width d) && (0 <? GFD.height d).

Definition sizes (fdiffs : list Z) : Z := foldl (fun size f => size + fdiff_size f) 4 fdiffs.

(** [RtpGenericFrameDescriptorExtensionValueSize]. *)
Definition ValueSize (d : GFD.t) : Z :=
  if negb (GFD.beginning_of_subframe d) then 1 else
  let size := sizes (GFD.frame_deps_id_diffs d) in
  if has_resolution d then size + 4 else size.

Definition base_header (version : Z) (d : GFD.t) : Z :=
  let base := Z.lor (if GFD.beginning_of_subframe d then kFlagBeginOfSubframe else 0)
                    (if GFD.end_of_subframe d then kFlagEndOfSubframe else 0) in
  if version =? 0 then Z.lor (Z.lor base kFlagFirstSubframeV00) kFlagLastSubframeV00
  else if 1 <=? version then
    Z.lor base (if default false (GFD.discardable d) then kFlagDiscardableV01 else 0)
  else base.

(** The loop that writes the dependencies; [more] says that one follows. *)
Fixpoint write_fdiffs (offset : Z) (fdiffs : list Z) : W unit :=
  match fdiffs with
  | [] => mret tt
  | f :: rest =>
      let extended := Z.shiftl 1 6 <=? f in
      let more := 0 <? len rest in
      store offset (Z.lor (Z.lor (Z.shiftl (Z.land f 0x3f) 2)
                                 (if extended then kFlageXtendedOffset else 0))
                          (if more then kFlagMoreDependencies else 0)) ;;
      if extended then store (offset + 1) (Z.shiftr f 6) ;; write_fdiffs (offset + 2) rest
      else write_fdiffs (offset + 1) rest
  end.

Definition write_resolution (offset : Z) (d : GFD.t) : W unit :=
  store offset (Z.shiftr (GFD.width d) 8) ;;
  store (offset + 1) (Z.land (GFD.width d) 0xFF) ;;
  store (offset + 2) (Z.shiftr (GFD.height d) 8) ;;
  store (offset + 3) (Z.land (GFD.height d) 0xFF).

(** [RtpGenericFrameDescriptorExtensionWrite]. *)
Definition Write (version : Z) (d : GFD.t) : W bool :=
  size ← view_size; dcheck (size =? ValueSize d) ;;
  let base_header := base_header version d in
  (if negb (GFD.beginning_of_subframe d) then store 0 base_header
   else
     store 0 (Z.lor (Z.lor base_header
                       (if len (GFD.frame_deps_id_diffs d) =? 0 then 0 else kFlagDependencies))
                    (GFD.temporal_layer d)) ;;
     store 1 (GFD.spatial_layers d) ;;
     store 2 (Z.land (GFD.frame_id d) 0xff) ;;
     store 3 (Z.shiftr (GFD.frame_id d) 8) ;;
     if has_resolution d
     then write_resolution 4 d ;; write_fdiffs 8 (GFD.frame_deps_id_diffs d)
     else write_fdiffs 4 (GFD.frame_deps_id_diffs d)) ;;
  mret true.

Definition ops (id : RTPExtensionType) (version : Z) : Extension := {|
  value_type := GFD.t; kId := id;
  HeaderExtensions.ValueSize := ValueSize; HeaderExtensions.Write := Write version;
  HeaderExtensions.Parse := Parse version |}.

End RtpGenericFrameDescriptorExtension.

Module GFDE := RtpGenericFrameDescriptorExtension.

Definition RtpGenericFrameDescriptorExtension00 : Extension :=
  GFDE.ops kRtpExtensionGenericFrameDescriptor00 0.
Definition RtpGenericFrameDescriptorExtension01 : Extension :=
  GFDE.ops kRtpExtensionGenericFrameDescriptor01 1.

(** ** Spatial layers *)

(** The loop's result is the lowest set bit of the mask. *)
Definition lowest_ok (m : Z) : bool :=
  match GFD.spatial_loop 8 m m 0 with
  | Some l =>
      (0 <=? l) && (l <? 8) &&
      (if m =? 0 then l =? 0
       else Z.testbit m l && forallb (fun k => negb (Z.testbit m k)) (seqZ 0 l))
  | None => false
  end.

(** [SpatialLayer] stops within eight rounds, at the lowest layer of the mask (0 for an empty
    one). *)
Lemma spatial_layer_lowest (d : GFD.t) :
  GFD.beginning_of_subframe d = true -> byte_ok (GFD.spatial_layers d) ->
  exists l, GFD.SpatialLayer d = Some l /\ 0 <= l < 8 /\
    (if GFD.spatial_layers d =? 0 then l = 0
     else Z.testbit (GFD.spatial_layers d) l = true /\
          forall k, 0 <= k < l -> Z.testbit (GFD.spatial_layers d) k = false).
Proof.
  intros Hb. unfold GFD.SpatialLayer. rewrite Hb. cbn [check mbind option_bind].
  generalize (GFD.spatial_layers d). clear d Hb. intros m Hm.
  assert (H : lowest_ok m = true).
  { revert m Hm. by_bytes. }
  unfold lowest_ok in H. destruct (GFD.spatial_loop 8 m m 0) as [l|]; [|done].
  apply andb_prop in H as [H H3]. apply andb_prop in H as [H1 H2].
  apply Z.leb_le in H1. apply Z.ltb_lt in H2.
  exists l. split; [done|]. split; [done|]. destruct (m =? 0); [by apply Z.eqb_eq|].
  apply andb_prop in H3 as [H3 H4]. split; [done|]. intros k Hk.
  rewrite forallb_forall in H4. apply negb_true_iff, H4, list_elem_of_In, elem_of_seqZ. lia.
Qed.

(** ** The wire format *)

(** What a setter accepts and the wire can carry. *)
Definition dep_ok (f : Z) : Prop := 0 < f < 2 ^ 14.

Definition descriptor_valid (d : GFD.t) : Prop :=
  GFD.beginning_of_subframe d = true ->
  0 <= GFD.temporal_layer d < 8 /\ byte_ok (GFD.spatial_layers d) /\ in_u 16 (GFD.frame_id d) /\
  len (GFD.frame_deps_id_diffs d) <= 8 /\ Forall dep_ok (GFD.frame_deps_id_diffs d) /\
  in_u 16 (GFD.width d) /\ in_u 16 (GFD.height d).

(** The first byte of a dependency: its low six bits and two flags. *)
Definition dep_byte (low : Z) (extended more : bool) : Z :=
  4 * low + (if extended then 2 else 0) + (if more then 1 else 0).

Fixpoint deps_wire (fdiffs : list Z) : list Z :=
  match fdiffs with
  | [] => []
  | f :: rest =>
      dep_byte (f mod 64) (64 <=? f) (0 <? len rest) ::
      (if 64 <=? f then [f / 64] else []) ++ deps_wire rest
  end.

Definition head_byte (version : Z) (d : GFD.t) : Z :=
  Z.lor (Z.lor (GFDE.base_header version d)
               (if len (GFD.frame_deps_id_diffs d) =? 0 then 0 else GFDE.kFlagDependencies))
        (GFD.temporal_layer d).

Definition resolution_wire (d : GFD.t) : list Z :=
  if GFDE.has_resolution d then be_bytes 2 (GFD.width d) ++ be_bytes 2 (GFD.height d) else [].

Definition descriptor_wire (version : Z) (d : GFD.t) : list Z :=
  if GFD.beginning_of_subframe d then
    [head_byte version d; GFD.spatial_layers d; GFD.frame_id d mod 256; GFD.frame_id d / 256] ++
    resolution_wire d ++ deps_wire (GFD.frame_deps_id_diffs d)
  else [GFDE.base_header version d].

(** What the receiver's object becomes: version 00 has no discardable flag, a packet inside a
    subframe says nothing about the frame, and a descriptor without resolution leaves the one the
    object had. *)
Definition descriptor_parsed (version : Z) (d prev : GFD.t) : GFD.t :=
  let disc := if version =? 0 then GFD.discardable prev
              else Some (default false (GFD.discardable d)) in
  if GFD.beginning_of_subframe d then
    let r := GFDE.has_resolution d in
    GFD.Make true (GFD.end_of_subframe d) disc (GFD.frame_id d) (GFD.spatial_layers d)
      (GFD.temporal_layer d) (GFD.frame_deps_id_diffs d)
      (if r then GFD.width d else GFD.width prev) (if r then GFD.height d else GFD.height prev)
      (GFD.byte_representation prev)
  else
    GFD.Make false (GFD.end_of_subframe d) disc (GFD.frame_id prev) (GFD.spatial_layers prev)
      (GFD.temporal_layer prev) (GFD.frame_deps_id_diffs prev) (GFD.width prev)
      (GFD.height prev) (GFD.byte_representation prev).

(** *** Dependencies *)

Lemma dep_byte_bits low (extended more : bool) :
  0 <= low < 64 ->
  byte_ok (dep_byte low extended more) /\
  Z.lor (Z.lor (Z.shiftl low 2) (if extended then 2 else 0)) (if more then 1 else 0) =
    dep_byte low extended more /\
  negb (Z.land (dep_byte low extended more) 1 =? 0) = more /\
  negb (Z.land (dep_byte low extended more) 2 =? 0) = extended /\
  Z.shiftr (dep_byte low extended more) 2 = low.
Proof.
  intros H. assert (Hi : low ∈ seqZ 0 64) by (apply elem_of_seqZ; lia).
  assert (HF : Forall (fun low => byte_ok (dep_byte low extended more) /\
    Z.lor (Z.lor (Z.shiftl low 2) (if extended then 2 else 0)) (if more then 1 else 0) =
      dep_byte low extended more /\
    negb (Z.land (dep_byte low extended more) 1 =? 0) = more /\
    negb (Z.land (dep_byte low extended more) 2 =? 0) = extended /\
    Z.shiftr (dep_byte low extended more) 2 = low) (seqZ 0 64))
    by (destruct extended, more; by_compute).
  rewrite Forall_forall in HF. exact (HF low Hi).
Qed.

Lemma dep_halves f : dep_ok f -> 0 <= f mod 64 < 64 /\ 0 <= f / 64 < 256 /\ f = f mod 64 + 64 * (f / 64).
Proof.
  unfold dep_ok. intros H. pose proof (Z.mod_pos_bound f 64). pose proof (Z.div_mod f 64).
  assert (f / 64 < 256) by (apply Z.div_lt_upper_bound; lia).
  pose proof (Z.div_pos f 64). lia.
Qed.

Lemma deps_wire_size fdiffs : len (deps_wire fdiffs) + 4 = GFDE.sizes fdiffs.
Proof.
  unfold GFDE.sizes. rewrite (Z.add_comm _ 4). generalize 4.
  induction fdiffs as [|f rest IH]; intros s; cbn [deps_wire foldl]; [rewrite len_nil; lia|].
  rewrite <- IH. unfold GFDE.fdiff_size. change (Z.shiftl 1 6) with 64. len_simpl.
  destruct (64 <=? f); len_simpl; lia.
Qed.

Lemma deps_wire_bytes fdiffs : Forall dep_ok fdiffs -> bytes_ok (deps_wire fdiffs).
Proof.
  induction 1 as [|f rest Hf _ IH]; cbn [deps_wire]; [constructor|].
  destruct (dep_halves f Hf) as (H1 & H2 & _). constructor; [by apply dep_byte_bits|].
  apply bytes_ok_app. split; [|done]. destruct (64 <=? f); repeat constructor; unfold byte_ok; lia.
Qed.

Lemma deps_wire_len fdiffs :
  len fdiffs <= len (deps_wire fdiffs) <= 2 * len fdiffs.
Proof.
  induction fdiffs as [|f rest IH]; cbn [deps_wire]; [rewrite !len_nil; lia|]. len_simpl.
  destruct (64 <=? f); len_simpl; lia.
Qed.

(** [write_fdiffs] writes that format. *)
Lemma stores_fdiffs fdiffs offset :
  Forall dep_ok fdiffs -> stores (GFDE.write_fdiffs offset fdiffs) offset (deps_wire fdiffs).
Proof.
  intros H. revert offset. induction H as [|f rest Hf _ IH]; intros offset;
    cbn [GFDE.write_fdiffs deps_wire]; [apply stores_ret|].
  destruct (dep_halves f Hf) as (H1 & H2 & _). change (Z.shiftl 1 6) with 64.
  destruct (dep_byte_bits (f mod 64) (64 <=? f) (0 <? len rest) H1) as (Hb & Hlor & _).
  change 0x3f with (Z.ones 6). rewrite Z.land_ones by lia. change (2 ^ 6) with 64.
  unfold GFDE.kFlageXtendedOffset, GFDE.kFlagMoreDependencies. rewrite Hlor.
  eapply stores_seq; [apply stores_store|..]; cycle 1.
  { by len_simpl. }
  { rewrite (wrap_small 8) by done. reflexivity. }
  destruct (64 <=? f); [|apply IH]. eapply stores_seq; [apply stores_store|apply IH|len_simpl; lia|].
  rewrite Z.shiftr_div_pow2 by lia. change (2 ^ 6) with 64. by rewrite (wrap_small 8).
Qed.

(** *** The parser's loop *)

Lemma add_dep_ok f d :
  GFD.beginning_of_subframe d = true -> len (GFD.frame_deps_id_diffs d) < 8 -> dep_ok f ->
  GFD.AddFrameDependencyDiff f d =
    Some (true, GFD.set_deps (GFD.frame_deps_id_diffs d ++ [f]) d).
Proof.
  intros Hb Hl [H1 H2]. unfold GFD.AddFrameDependencyDiff, GFD.kMaxNumFrameDependencies.
  rewrite Hb. cbn [check mbind option_bind]. change (Z.shiftl 1 14) with (2 ^ 14).
  rewrite (proj2 (Z.eqb_neq _ 8)), (proj2 (Z.eqb_neq f 0)) by lia.
  rewrite (proj2 (Z.ltb_lt f _)), (proj2 (Z.ltb_lt 0 f)) by lia. done.
Qed.

Lemma byte_at_pre pre b l : byte_at (pre ++ b :: l) (len pre) = Some b.
Proof. unfold byte_at. rewrite ptr_add_app_ge by lia. by rewrite Z.sub_diag. Qed.

Lemma len_pre (pre : list Z) b l : (len (pre ++ b :: l) =? len pre) = false.
Proof. apply Z.eqb_neq. len_simpl. pose proof (len_nonneg l). lia. Qed.

Lemma dep_join f : dep_ok f -> u16 (Z.lor (f mod 64) (Z.shiftl (f / 64) 6)) = f.
Proof.
  intros Hf. destruct (dep_halves f Hf) as (H1 & H2 & H3).
  rewrite Z.shiftl_mul_pow2 by lia. change (2 ^ 6) with 64. rewrite Z.lor_comm.
  rewrite (lor_add_low _ _ 6) by (try lia; apply Z_mod_mult).
  rewrite (wrap_small 16); unfold in_u, dep_ok in *; lia.
Qed.

Lemma parse_deps_wire fdiffs n pre d :
  (length fdiffs <= n)%nat -> GFD.beginning_of_subframe d = true -> Forall dep_ok fdiffs ->
  len (GFD.frame_deps_id_diffs d) + len fdiffs <= 8 ->
  GFDE.parse_deps n (pre ++ deps_wire fdiffs) (len pre) (0 <? len fdiffs) d =
    Some (true, GFD.set_deps (GFD.frame_deps_id_diffs d ++ fdiffs) d).
Proof.
  intros Hn Hb HF. revert n pre d Hn Hb.
  induction HF as [|f rest Hf _ IH]; intros n pre d Hn Hb Hl.
  { cbn [deps_wire]. rewrite !app_nil_r. by destruct n, d. }
  destruct n as [|n]; [cbn in Hn; lia|]. cbn [length] in Hn.
  rewrite len_cons in Hl. pose proof (len_nonneg rest).
  rewrite (proj2 (Z.ltb_lt 0 (len (f :: rest)))) by (rewrite len_cons; lia).
  destruct (dep_halves f Hf) as (H1 & H2 & H3). cbn [deps_wire GFDE.parse_deps negb].
  destruct (dep_byte_bits (f mod 64) (64 <=? f) (0 <? len rest) H1) as (_ & _ & Hm & Hx & Hs).
  rewrite len_pre, byte_at_pre. cbn [mbind option_bind].
  unfold GFDE.kFlagMoreDependencies, GFDE.kFlageXtendedOffset. rewrite Hm, Hx, Hs.
  set (b := dep_byte _ _ _). clearbody b.
  assert (Hsnoc : forall d', GFD.frame_deps_id_diffs d' = GFD.frame_deps_id_diffs d ++ [f] ->
    len (GFD.frame_deps_id_diffs d') + len rest <= 8) by (intros d' ->; len_simpl; lia).
  destruct (Z.leb_spec 64 f) as [E|E]; cbn [app].
  - change (pre ++ b :: f / 64 :: deps_wire rest) with (pre ++ [b] ++ f / 64 :: deps_wire rest).
    rewrite app_assoc. replace (len pre + 1) with (len (pre ++ [b])) by by len_simpl.
    rewrite len_pre, byte_at_pre. cbn [mbind option_bind]. rewrite dep_join by done.
    rewrite add_dep_ok by (done || lia). cbn [mbind option_bind negb].
    change (?p ++ f / 64 :: ?l) with (p ++ [f / 64] ++ l). rewrite app_assoc.
    replace (len (pre ++ [b]) + 1) with (len ((pre ++ [b]) ++ [f / 64])) by by len_simpl.
    rewrite IH; [|lia|done|by apply Hsnoc]. cbn. by rewrite <- app_assoc.
  - rewrite (Z.mod_small f 64) by (unfold dep_ok in Hf; lia).
    rewrite add_dep_ok by (done || lia). cbn [mbind option_bind negb].
    change (pre ++ b :: deps_wire rest) with (pre ++ [b] ++ deps_wire rest). rewrite app_assoc.
    replace (len pre + 1) with (len (pre ++ [b])) by by len_simpl.
    rewrite IH; [|lia|done|by apply Hsnoc]. cbn. by rewrite <- app_assoc.
Qed.

(** *** The first byte *)

Definition header_bits (version : Z) (first last disc nodeps : bool) (temporal : Z) : Z :=
  let base := Z.lor (if first then 0x80 else 0) (if last then 0x40 else 0) in
  let base := if version =? 0 then Z.lor (Z.lor base 0x20) 0x10
              else if 1 <=? version then Z.lor base (if disc then 0x10 else 0) else base in
  Z.lor (Z.lor base (if nodeps then 0 else 0x08)) temporal.

Lemma head_byte_bits version d :
  head_byte version d =
    header_bits version (GFD.beginning_of_subframe d) (GFD.end_of_subframe d)
      (default false (GFD.discardable d)) (len (GFD.frame_deps_id_diffs d) =? 0)
      (GFD.temporal_layer d).
Proof. done. Qed.

Lemma base_header_bits version d :
  GFDE.base_header version d =
    header_bits version (GFD.beginning_of_subframe d) (GFD.end_of_subframe d)
      (default false (GFD.discardable d)) true 0.
Proof. unfold header_bits. rewrite !Z.lor_0_r. done. Qed.

(** Each field of the first byte can be read back. *)
Lemma header_bits_fields version (first last disc nodeps : bool) temporal :
  (version = 0 \/ version = 1) -> 0 <= temporal < 8 ->
  let h := header_bits version first last disc nodeps temporal in
  byte_ok h /\ negb (Z.land h GFDE.kFlagBeginOfSubframe =? 0) = first /\
  negb (Z.land h GFDE.kFlagEndOfSubframe =? 0) = last /\
  negb (Z.land h GFDE.kFlagDependencies =? 0) = negb nodeps /\
  Z.land h GFDE.kMaskTemporalLayer = temporal /\
  (version = 1 -> negb (Z.land h GFDE.kFlagDiscardableV01 =? 0) = disc).
Proof.
  intros Hv Ht. assert (Hi : temporal ∈ seqZ 0 8) by (apply elem_of_seqZ; lia).
  revert Hi. generalize temporal. rewrite <- Forall_forall. clear Ht.
  destruct Hv as [-> | ->], first, last, disc, nodeps; by_compute.
Qed.

(** Both versions say the same about an object once the flags are read. *)
Lemma set_flags version (first last disc : bool) (d0 prev : GFD.t) :
  (version = 0 \/ version = 1) -> (version = 1 -> disc = default false (GFD.discardable d0)) ->
  (if 1 <=? version
   then GFD.SetDiscardable disc (GFD.SetLastPacketInSubFrame last
          (GFD.SetFirstPacketInSubFrame first prev))
   else GFD.SetLastPacketInSubFrame last (GFD.SetFirstPacketInSubFrame first prev)) =
  GFD.Make first last
    (if version =? 0 then GFD.discardable prev else Some (default false (GFD.discardable d0)))
    (GFD.frame_id prev) (GFD.spatial_layers prev) (GFD.temporal_layer prev)
    (GFD.frame_deps_id_diffs prev) (GFD.width prev) (GFD.height prev)
    (GFD.byte_representation prev).
Proof. intros [-> | ->] H; [done|]. by rewrite H. Qed.

(** *** Writing *)

Lemma word_halves v : in_u 16 v -> byte_ok (v mod 256) /\ byte_ok (v / 256).
Proof.
  unfold in_u, byte_ok. intros H. pose proof (Z.mod_pos_bound v 256).
  pose proof (Z.div_pos v 256). assert (v / 256 < 256) by (apply Z.div_lt_upper_bound; lia). lia.
Qed.

Lemma low_byte v : Z.land v 0xff = v mod 256.
Proof. change 0xff with (Z.ones 8). by rewrite Z.land_ones by lia. Qed.

Lemma high_byte v : Z.shiftr v 8 = v / 256.
Proof. by rewrite Z.shiftr_div_pow2 by lia. Qed.

Lemma be2_halves v : in_u 16 v -> be_bytes 2 v = [v / 256; v mod 256].
Proof.
  intros H. destruct (word_halves v H) as [_ H2]. unfold byte_ok in H2.
  cbn [be_bytes]. change (256 ^ Z.of_nat 1) with 256. change (256 ^ Z.of_nat 0) with 1.
  rewrite Z.div_1_r, (Z.mod_small (v / 256)) by lia. done.
Qed.

(** A store in front of a list. *)
Lemma stores_cons m pos pos' b bs :
  byte_ok b -> stores m pos' bs -> pos' = pos + 1 -> stores (store pos b ;; m) pos (b :: bs).
Proof.
  intros Hb Hm ->. eapply stores_seq; [by apply stores_byte|exact Hm|done|done].
Qed.

Lemma stores_resolution d pos :
  in_u 16 (GFD.width d) -> in_u 16 (GFD.height d) ->
  stores (GFDE.write_resolution pos d) pos
    (be_bytes 2 (GFD.width d) ++ be_bytes 2 (GFD.height d)).
Proof.
  intros Hw Hh. rewrite !be2_halves by done. unfold GFDE.write_resolution.
  rewrite !low_byte, !high_byte. cbn [app].
  destruct (word_halves _ Hw), (word_halves _ Hh).
  apply (stores_cons _ pos (pos + 1)); [done| |lia].
  apply (stores_cons _ _ (pos + 2)); [done| |lia].
  apply (stores_cons _ _ (pos + 3)); [done| |lia]. by apply stores_byte.
Qed.

Lemma has_resolution_nodeps d :
  GFDE.has_resolution d = true -> GFD.frame_deps_id_diffs d = [].
Proof.
  unfold GFDE.has_resolution. rewrite !andb_true_iff. intros [[[_ H] _] _].
  apply Z.eqb_eq in H. destruct (GFD.frame_deps_id_diffs d) as [|f l]; [done|].
  rewrite len_cons in H. pose proof (len_nonneg l). lia.
Qed.

Lemma len_resolution d :
  len (resolution_wire d) = if GFDE.has_resolution d then 4 else 0.
Proof. unfold resolution_wire. destruct (GFDE.has_resolution d); by len_simpl. Qed.

Lemma descriptor_wire_size version d :
  len (descriptor_wire version d) = GFDE.ValueSize d.
Proof.
  unfold descriptor_wire, GFDE.ValueSize. destruct (GFD.beginning_of_subframe d); [|done].
  cbn [negb]. rewrite <- deps_wire_size. len_simpl. rewrite len_resolution.
  destruct (GFDE.has_resolution d); lia.
Qed.

Lemma descriptor_wire_bytes version d :
  (version = 0 \/ version = 1) -> descriptor_valid d -> bytes_ok (descriptor_wire version d).
Proof.
  intros Hv H. unfold descriptor_wire, descriptor_valid in *.
  destruct (GFD.beginning_of_subframe d) eqn:Eb.
  - destruct (H eq_refl) as (Ht & Hs & Hf & _ & Hd & Hw & Hh).
    destruct (word_halves _ Hf).
    apply bytes_ok_app; split; [|apply bytes_ok_app; split; [|by apply deps_wire_bytes]].
    + rewrite head_byte_bits. repeat (apply Forall_cons; split); try done.
      by apply header_bits_fields.
    + unfold resolution_wire. destruct (GFDE.has_resolution d); [|constructor].
      apply bytes_ok_app; split; apply be_bytes_ok.
  - rewrite base_header_bits. constructor; [by apply header_bits_fields|constructor].
Qed.

Lemma stores_descriptor version d :
  (version = 0 \/ version = 1) -> descriptor_valid d ->
  stores (if negb (GFD.beginning_of_subframe d) then store 0 (GFDE.base_header version d)
          else
            store 0 (head_byte version d) ;; store 1 (GFD.spatial_layers d) ;;
            store 2 (Z.land (GFD.frame_id d) 0xff) ;; store 3 (Z.shiftr (GFD.frame_id d) 8) ;;
            if GFDE.has_resolution d
            then GFDE.write_resolution 4 d ;; GFDE.write_fdiffs 8 (GFD.frame_deps_id_diffs d)
            else GFDE.write_fdiffs 4 (GFD.frame_deps_id_diffs d)) 0
    (descriptor_wire version d).
Proof.
  intros Hv H. unfold descriptor_wire. pose proof H as Hval.
  destruct (GFD.beginning_of_subframe d) eqn:Eb; cbn [negb].
  - destruct (H Eb) as (Ht & Hs & Hf & _ & Hd & Hw & Hh).
    destruct (word_halves _ Hf). rewrite low_byte, high_byte. cbn [app].
    eapply stores_cons; [rewrite head_byte_bits; by apply header_bits_fields| |done].
    repeat (eapply stores_cons; [done| |reflexivity]). unfold resolution_wire.
    destruct (GFDE.has_resolution d); [|by apply stores_fdiffs].
    eapply stores_seq; [by apply stores_resolution|by apply stores_fdiffs|by len_simpl|done].
  - apply stores_byte. rewrite base_header_bits. by apply header_bits_fields.
Qed.

(** *** Parsing *)

Lemma word_join lo hi : byte_ok lo -> byte_ok hi -> u16 (Z.lor lo (Z.shiftl hi 8)) = lo + 256 * hi.
Proof.
  unfold byte_ok. intros H1 H2. rewrite Z.shiftl_mul_pow2 by lia. change (2 ^ 8) with 256.
  rewrite Z.lor_comm, (lor_add_low _ _ 8) by (try lia; apply Z_mod_mult).
  rewrite (wrap_small 16); unfold in_u; lia.
Qed.

Lemma word_split v : in_u 16 v -> u16 (Z.lor (v mod 256) (Z.shiftl (v / 256) 8)) = v.
Proof.
  intros H. destruct (word_halves v H). rewrite word_join by done.
  pose proof (Z.div_mod v 256). lia.
Qed.

Lemma set_temporal_ok l d :
  0 <= l < 8 -> GFD.SetTemporalLayer l d =
    Some (GFD.Make (GFD.beginning_of_subframe d) (GFD.end_of_subframe d) (GFD.discardable d)
      (GFD.frame_id d) (GFD.spatial_layers d) l (GFD.frame_deps_id_diffs d) (GFD.width d)
      (GFD.height d) (GFD.byte_representation d)).
Proof.
  intros H. unfold GFD.SetTemporalLayer, GFD.kMaxTemporalLayers.
  rewrite (proj2 (Z.leb_le 0 l)), (proj2 (Z.ltb_lt l 8)) by lia. cbn [check mbind option_bind].
  rewrite (wrap_small 8); [done|unfold in_u; lia].
Qed.

Lemma set_resolution_ok w h d :
  GFD.beginning_of_subframe d = true -> in_u 16 w -> in_u 16 h ->
  GFD.SetResolution w h d =
    Some (GFD.Make true (GFD.end_of_subframe d) (GFD.discardable d) (GFD.frame_id d)
      (GFD.spatial_layers d) (GFD.temporal_layer d) (GFD.frame_deps_id_diffs d) w h
      (GFD.byte_representation d)).
Proof.
  unfold in_u. intros Hb Hw Hh. unfold GFD.SetResolution. rewrite Hb.
  rewrite !(proj2 (Z.leb_le 0 _)), !(proj2 (Z.leb_le _ 0xFFFF)) by lia. done.
Qed.

(** The part of [Parse] behind the flags, on the fields of the first four bytes. *)
Definition parse_body (data : list Z) (nodeps : bool) (d : GFD.t) : option (bool * GFD.t) :=
  if nodeps && (4 + 4 <=? len data) then
    w1 ← byte_at data 4; w0 ← byte_at data 5; h1 ← byte_at data 6; h0 ← byte_at data 7;
    d ← GFD.SetResolution (u16 (Z.lor (Z.shiftl w1 8) w0)) (u16 (Z.lor (Z.shiftl h1 8) h0)) d;
    GFDE.parse_deps (length data) data 8 (negb nodeps) d
  else GFDE.parse_deps (length data) data 4 (negb nodeps) d.

Lemma parse_begin version h s f0 f1 rest disc' prev :
  let data := h :: s :: f0 :: f1 :: rest in
  (version = 0 \/ version = 1) -> byte_ok h -> byte_ok f0 -> byte_ok f1 ->
  negb (Z.land h GFDE.kFlagBeginOfSubframe =? 0) = true ->
  disc' = (if version =? 0 then GFD.discardable prev
           else Some (negb (Z.land h GFDE.kFlagDiscardableV01 =? 0))) ->
  GFDE.Parse version data prev =
    parse_body data (Z.land h GFDE.kFlagDependencies =? 0)
      (GFD.Make true (negb (Z.land h GFDE.kFlagEndOfSubframe =? 0)) disc' (f0 + 256 * f1) s
        (Z.land h GFDE.kMaskTemporalLayer) [] (GFD.width prev) (GFD.height prev)
        (GFD.byte_representation prev)).
Proof.
  intros data Hv Hh H0 H1 Hb ->. unfold GFDE.Parse, data.
  rewrite (proj2 (Z.eqb_neq (len _) 0)), (proj2 (Z.ltb_ge (len _) 4))
    by (rewrite !len_cons; pose proof (len_nonneg rest); lia).
  change (byte_at (h :: s :: f0 :: f1 :: rest) 0) with (Some h).
  change (byte_at (h :: s :: f0 :: f1 :: rest) 1) with (Some s).
  change (byte_at (h :: s :: f0 :: f1 :: rest) 2) with (Some f0).
  change (byte_at (h :: s :: f0 :: f1 :: rest) 3) with (Some f1).
  cbn [mbind option_bind]. rewrite Hb. cbn [negb].
  assert (Ht : 0 <= Z.land h GFDE.kMaskTemporalLayer < 8).
  { unfold GFDE.kMaskTemporalLayer. change 7 with (Z.ones 3). rewrite Z.land_ones by lia.
    apply Z.mod_pos_bound. lia. }
  rewrite (set_temporal_ok _ _ Ht), word_join by done. unfold parse_body.
  rewrite negb_involutive. by destruct Hv as [-> | ->].
Qed.

Lemma be2_join v : in_u 16 v -> u16 (Z.lor (Z.shiftl (v / 256) 8) (v mod 256)) = v.
Proof. intros H. rewrite Z.lor_comm. by apply word_split. Qed.

Lemma parse_body_wire version d disc prev :
  GFD.beginning_of_subframe d = true -> descriptor_valid d ->
  let start := GFD.Make true (GFD.end_of_subframe d) disc (GFD.frame_id d)
    (GFD.spatial_layers d) (GFD.temporal_layer d) [] (GFD.width prev) (GFD.height prev)
    (GFD.byte_representation prev) in
  let r := GFDE.has_resolution d in
  parse_body (descriptor_wire version d) (len (GFD.frame_deps_id_diffs d) =? 0) start =
    Some (true, GFD.Make true (GFD.end_of_subframe d) disc (GFD.frame_id d)
      (GFD.spatial_layers d) (GFD.temporal_layer d) (GFD.frame_deps_id_diffs d)
      (if r then GFD.width d else GFD.width prev) (if r then GFD.height d else GFD.height prev)
      (GFD.byte_representation prev)).
Proof.
  intros Hb H start r. destruct (H Hb) as (_ & _ & _ & Hn & Hd & Hw & Hh).
  unfold descriptor_wire. rewrite Hb. unfold parse_body, resolution_wire. fold r.
  set (h := head_byte version d). clearbody h. destruct r eqn:Er.
  - rewrite (has_resolution_nodeps d Er). rewrite !be2_halves by done.
    cbn [app deps_wire]. change (len [] =? 0) with true. cbn [andb].
    change (4 + 4 <=? len _) with true. cbv iota.
    repeat match goal with |- context [byte_at ?l ?i] =>
      let v := eval cbv [byte_at deref ptr_add drop head Z.to_nat Pos.to_nat Pos.iter_op Nat.add]
        in (byte_at l i) in change (byte_at l i) with v end.
    cbn [mbind option_bind]. rewrite !be2_join by done.
    by rewrite set_resolution_ok.
  - cbn [app]. pose proof (len_nonneg (GFD.frame_deps_id_diffs d)) as Hge.
    pose proof (deps_wire_len (GFD.frame_deps_id_diffs d)) as Hdl.
    set (pre := [h; GFD.spatial_layers d; GFD.frame_id d mod 256; GFD.frame_id d / 256]).
    change (h :: GFD.spatial_layers d :: ?b :: ?c :: ?l) with (pre ++ l).
    replace (negb (len (GFD.frame_deps_id_diffs d) =? 0)) with (0 <? len (GFD.frame_deps_id_diffs d))
      by (destruct (Z.eqb_spec (len (GFD.frame_deps_id_diffs d)) 0); bdestr; lia || done).
    assert (Hif : (len (GFD.frame_deps_id_diffs d) =? 0) &&
      (4 + 4 <=? len (pre ++ deps_wire (GFD.frame_deps_id_diffs d))) = false).
    { apply andb_false_iff. destruct (Z.eqb_spec (len (GFD.frame_deps_id_diffs d)) 0) as [E|E];
        [right|by left]. apply Z.leb_gt. rewrite len_app. change (len pre) with 4. lia. }
    rewrite Hif. change 4 with (len pre) at 1. rewrite parse_deps_wire; try done.
    rewrite length_app. unfold len in Hdl. lia.
Qed.

Lemma parse_descriptor_wire version d prev :
  (version = 0 \/ version = 1) -> descriptor_valid d ->
  GFDE.Parse version (descriptor_wire version d) prev =
    Some (true, descriptor_parsed version d prev).
Proof.
  intros Hv H. unfold descriptor_parsed. destruct (GFD.beginning_of_subframe d) eqn:Eb.
  - destruct (H Eb) as (Ht & Hs & Hf & _). destruct (word_halves _ Hf).
    pose proof (parse_body_wire version d
      (if version =? 0 then GFD.discardable prev else Some (default false (GFD.discardable d)))
      prev Eb H) as Hbody.
    unfold descriptor_wire in Hbody |- *. rewrite Eb in Hbody |- *. cbn [app] in Hbody |- *.
    rewrite head_byte_bits, Eb in Hbody |- *.
    destruct (header_bits_fields version true (GFD.end_of_subframe d)
      (default false (GFD.discardable d)) (len (GFD.frame_deps_id_diffs d) =? 0)
      (GFD.temporal_layer d) Hv Ht) as (Hh & Hb1 & Hb2 & Hb3 & Hb4 & Hb5).
    erewrite parse_begin; [|done..|reflexivity].
    rewrite Hb2, Hb4. apply (f_equal negb) in Hb3. rewrite !negb_involutive in Hb3. rewrite Hb3.
    replace (GFD.frame_id d mod 256 + 256 * (GFD.frame_id d / 256)) with (GFD.frame_id d)
      by (pose proof (Z.div_mod (GFD.frame_id d) 256); lia).
    rewrite <- Hbody. do 2 f_equal. destruct Hv as [-> | ->]; [done|]. by rewrite Hb5.
  - unfold descriptor_wire. rewrite Eb, base_header_bits, Eb.
    destruct (header_bits_fields version false (GFD.end_of_subframe d)
      (default false (GFD.discardable d)) true 0 Hv ltac:(lia)) as (Hh & Hb1 & Hb2 & _ & _ & Hb5).
    set (h := header_bits _ _ _ _ _ _) in *. clearbody h. unfold GFDE.Parse.
    change (len [h] =? 0) with false. change (byte_at [h] 0) with (Some h).
    cbn [mbind option_bind]. rewrite Hb1, Hb2, (set_flags version _ _ _ d prev Hv Hb5). done.
Qed.

(** *** Arbitrary bytes *)

Lemma add_dep_total f d :
  GFD.beginning_of_subframe d = true -> 0 <= f < 2 ^ 14 ->
  len (GFD.frame_deps_id_diffs d) <= 8 -> Forall dep_ok (GFD.frame_deps_id_diffs d) ->
  exists ok deps, GFD.AddFrameDependencyDiff f d = Some (ok, GFD.set_deps deps d) /\
    len deps <= 8 /\ Forall dep_ok deps.
Proof.
  intros Hb Hf Hl HF.
  assert (Hsame : GFD.set_deps (GFD.frame_deps_id_diffs d) d = d) by by destruct d.
  destruct (decide (len (GFD.frame_deps_id_diffs d) = 8 \/ f = 0)) as [Hc|Hc].
  - exists false, (GFD.frame_deps_id_diffs d). rewrite Hsame. split; [|done].
    unfold GFD.AddFrameDependencyDiff, GFD.kMaxNumFrameDependencies. rewrite Hb.
    cbn [check mbind option_bind].
    destruct (Z.eqb_spec (len (GFD.frame_deps_id_diffs d)) 8); [done|].
    by rewrite (proj2 (Z.eqb_eq f 0)) by tauto.
  - exists true, (GFD.frame_deps_id_diffs d ++ [f]).
    assert (dep_ok f) by (unfold dep_ok; lia).
    rewrite add_dep_ok by (done || lia). split; [done|]. len_simpl. split; [lia|].
    apply Forall_app. split; [done|]. by apply Forall_singleton.
Qed.

Lemma dep_bytes_range b x : byte_ok b -> byte_ok x -> 
  0 <= Z.shiftr b 2 < 2 ^ 14 /\ 0 <= u16 (Z.lor (Z.shiftr b 2) (Z.shiftl x 6)) < 2 ^ 14.
Proof.
  unfold byte_ok. intros Hb Hx. rewrite Z.shiftr_div_pow2, Z.shiftl_mul_pow2 by lia.
  change (2 ^ 2) with 4. change (2 ^ 6) with 64.
  pose proof (Z.div_pos b 4). assert (b / 4 < 64) by (apply Z.div_lt_upper_bound; lia).
  rewrite Z.lor_comm, (lor_add_low _ _ 6) by (try lia; apply Z_mod_mult).
  rewrite (wrap_small 16); unfold in_u; lia.
Qed.

(** The loop ends on every input: the fuel is more than the bytes that are left. *)
Lemma parse_deps_total n data offset more d :
  bytes_ok data -> 0 <= offset <= len data -> len data - offset < Z.of_nat n ->
  GFD.beginning_of_subframe d = true ->
  len (GFD.frame_deps_id_diffs d) <= 8 -> Forall dep_ok (GFD.frame_deps_id_diffs d) ->
  exists ok deps, GFDE.parse_deps n data offset more d = Some (ok, GFD.set_deps deps d) /\
    len deps <= 8 /\ Forall dep_ok deps.
Proof.
  intros Hd. revert offset more d. induction n as [|n IH]; intros offset more d Ho Hn Hb Hl HF;
    [lia|].
  assert (Hsame : GFD.set_deps (GFD.frame_deps_id_diffs d) d = d) by by destruct d.
  assert (Hstop : forall ok : bool, exists (ok' : bool) deps, Some (ok, d) = Some (ok', GFD.set_deps deps d) /\
    len deps <= 8 /\ Forall dep_ok deps)
    by (intros ok; exists ok, (GFD.frame_deps_id_diffs d); by rewrite Hsame).
  cbn [GFDE.parse_deps]. destruct more; cbn [negb]; [|apply Hstop].
  destruct (Z.eqb_spec (len data) offset) as [E|E]; [apply Hstop|].
  destruct (byte_at_Some data offset) as (b & Eb & Hbb); [done|lia|]. rewrite Eb.
  cbn [mbind option_bind].
  assert (Hadd : forall f o, 0 <= f < 2 ^ 14 -> offset < o <= len data ->
    forall m, exists ok deps,
      ('(ok, d') ← GFD.AddFrameDependencyDiff f d;
       if negb ok then Some (false, d') else GFDE.parse_deps n data o m d') =
      Some (ok, GFD.set_deps deps d) /\ len deps <= 8 /\ Forall dep_ok deps).
  { intros f o Hf Hoo m. destruct (add_dep_total f d Hb Hf Hl HF) as ([] & deps & -> & H1 & H2);
      cbn [mbind option_bind negb]; [|by exists false, deps].
    destruct (IH o m (GFD.set_deps deps d)) as (ok & deps' & -> & H); try done; try lia.
    exists ok, deps'. by destruct d. }
  destruct (negb (Z.land b GFDE.kFlageXtendedOffset =? 0)).
  - destruct (Z.eqb_spec (len data) (offset + 1)) as [E'|E']; [apply Hstop|].
    destruct (byte_at_Some data (offset + 1)) as (x & Ex & Hx); [done|lia|]. rewrite Ex.
    cbn [mbind option_bind]. apply Hadd; [by apply dep_bytes_range|lia].
  - apply Hadd; [by apply (dep_bytes_range b 0)|lia].
Qed.

Lemma parse_short version h rest prev :
  let data := h :: rest in
  negb (Z.land h GFDE.kFlagBeginOfSubframe =? 0) = false \/ len data < 4 ->
  exists ok d, GFDE.Parse version data prev = Some (ok, d) /\
    (ok = true -> GFD.beginning_of_subframe d = false).
Proof.
  intros data H. unfold GFDE.Parse.
  rewrite (proj2 (Z.eqb_neq (len data) 0))
    by (unfold data; rewrite len_cons; pose proof (len_nonneg rest); lia).
  change (byte_at data 0) with (Some h). cbn [mbind option_bind].
  destruct (negb (Z.land h GFDE.kFlagBeginOfSubframe =? 0)); cbn [negb].
  - destruct H as [H|H]; [done|]. rewrite (proj2 (Z.ltb_lt (len data) 4)) by done. by do 2 eexists.
  - do 2 eexists. split; [reflexivity|]. intros _. by destruct (1 <=? version).
Qed.

Lemma parse_body_total data nodeps d :
  bytes_ok data -> 4 <= len data -> GFD.beginning_of_subframe d = true ->
  GFD.frame_deps_id_diffs d = [] -> 0 <= GFD.temporal_layer d < 8 ->
  byte_ok (GFD.spatial_layers d) -> in_u 16 (GFD.frame_id d) ->
  exists ok d', parse_body data nodeps d = Some (ok, d') /\
    (in_u 16 (GFD.width d) -> in_u 16 (GFD.height d) -> descriptor_valid d').
Proof.
  intros Hd Hl Hb Hn Ht Hs Hf.
  assert (Hrun : forall offset d0, 4 <= offset <= len data ->
    GFD.beginning_of_subframe d0 = true -> GFD.frame_deps_id_diffs d0 = [] ->
    0 <= GFD.temporal_layer d0 < 8 -> byte_ok (GFD.spatial_layers d0) -> in_u 16 (GFD.frame_id d0) ->
    exists ok d', GFDE.parse_deps (length data) data offset (negb nodeps) d0 = Some (ok, d') /\
      (in_u 16 (GFD.width d0) -> in_u 16 (GFD.height d0) -> descriptor_valid d')).
  { intros offset d0 Ho H0 H1 H2 H3 H4.
    destruct (parse_deps_total (length data) data offset (negb nodeps) d0)
      as (ok & deps & -> & Hd1 & Hd2); try done; rewrite ?H1; try done; try (unfold len in *; lia).
    exists ok. eexists. split; [done|]. by intros Hw Hh _. }
  unfold parse_body. destruct nodeps; cbn [andb negb]; [|apply Hrun; (done || lia)].
  destruct (Z.leb_spec (4 + 4) (len data)) as [E|E]; [|apply Hrun; (done || lia)].
  destruct (byte_at_Some data 4 Hd ltac:(lia)) as (w1 & -> & Hw1).
  destruct (byte_at_Some data 5 Hd ltac:(lia)) as (w0 & -> & Hw0).
  destruct (byte_at_Some data 6 Hd ltac:(lia)) as (h1 & -> & Hh1).
  destruct (byte_at_Some data 7 Hd ltac:(lia)) as (h0 & -> & Hh0).
  cbn [mbind option_bind]. rewrite !(Z.lor_comm (Z.shiftl _ 8)), !word_join by done.
  assert (in_u 16 (w0 + 256 * w1) /\ in_u 16 (h0 + 256 * h1)) as [Hw Hh]
    by (unfold in_u, byte_ok in *; lia).
  rewrite set_resolution_ok by done. cbn [mbind option_bind].
  destruct (Hrun 8 (GFD.Make true (GFD.end_of_subframe d) (GFD.discardable d) (GFD.frame_id d)
      (GFD.spatial_layers d) (GFD.temporal_layer d) (GFD.frame_deps_id_diffs d)
      (w0 + 256 * w1) (h0 + 256 * h1) (GFD.byte_representation d)))
    as (ok & d' & Hp & Hval); try done; try lia.
  exists ok, d'. split; [exact Hp|]. intros _ _. by apply Hval.
Qed.

(** No bytes make the parser fail, and what it accepts is a descriptor that may be written. *)
Lemma parse_total version data prev :
  (version = 0 \/ version = 1) -> bytes_ok data ->
  exists ok d, GFDE.Parse version data prev = Some (ok, d) /\
    (ok = true -> in_u 16 (GFD.width prev) -> in_u 16 (GFD.height prev) -> descriptor_valid d).
Proof.
  intros Hv Hd. destruct data as [|h rest]; [by exists false, prev|].
  destruct (decide (negb (Z.land h GFDE.kFlagBeginOfSubframe =? 0) = false \/ len (h :: rest) < 4))
    as [Hc|Hc].
  { destruct (parse_short version h rest prev Hc) as (ok & d & -> & H). exists ok, d.
    split; [done|]. intros Hok _ _ Hb. by rewrite H in Hb. }
  destruct rest as [|s [|f0 [|f1 rest]]]; [exfalso; apply Hc; right; reflexivity..|].
  apply Decidable.not_or in Hc as [Hb _]. apply not_false_is_true in Hb.
  pose proof Hd as Hd'. unfold bytes_ok in Hd'. rewrite !Forall_cons in Hd'.
  destruct Hd' as (Hh & Hs & H0 & H1 & _).
  erewrite parse_begin by done.
  assert (0 <= Z.land h GFDE.kMaskTemporalLayer < 8).
  { unfold GFDE.kMaskTemporalLayer. change 7 with (Z.ones 3). rewrite Z.land_ones by lia.
    apply Z.mod_pos_bound. lia. }
  edestruct parse_body_total as (ok & d & Hp & Hval); cycle 7.
  { rewrite Hp. exists ok, d. split; [done|]. intros _. exact Hval. }
  all: try done.
  - rewrite !len_cons. pose proof (len_nonneg rest). lia.
  - cbn. unfold in_u, byte_ok in *. lia.
Qed.

(** ** The laws *)

Section Laws.
Context (id : RTPExtensionType) (version : Z) (Hv : version = 0 \/ version = 1).

#[program] Definition descriptor_laws : ExtensionLaws (GFDE.ops id version) := {|
  valid := descriptor_valid; wire := descriptor_wire version;
  parsed := descriptor_parsed version |}.
Next Obligation.
  intros d view H Hl. change (len view = GFDE.ValueSize d) in Hl.
  cbn [Write GFDE.ops]. unfold GFDE.Write. ext_write.
  eapply write_view_stores; [by apply stores_descriptor|apply descriptor_wire_size|done].
Qed.
Next Obligation.
  intros d H. cbn [ValueSize GFDE.ops]. rewrite <- (descriptor_wire_size version).
  split; [done|]. split; [|by apply descriptor_wire_bytes].
  unfold descriptor_wire, kMaxValueSize. destruct (GFD.beginning_of_subframe d) eqn:Eb;
    [|rewrite len_cons, len_nil; lia].
  destruct (H Eb) as (_ & _ & _ & Hn & _).
  pose proof (deps_wire_len (GFD.frame_deps_id_diffs d)). len_simpl. rewrite len_resolution.
  pose proof (len_nonneg (GFD.frame_deps_id_diffs d)).
  destruct (GFDE.has_resolution d); lia.
Qed.
Next Obligation.
  intros d prev H. by apply parse_descriptor_wire.
Qed.
Next Obligation.
  intros data prev Hd. cbn [Parse GFDE.ops]. destruct (parse_total version data prev Hv Hd) as (ok & d & -> & _).
  by eexists.
Qed.
End Laws.

#[global] Instance Descriptor00_laws : ExtensionLaws RtpGenericFrameDescriptorExtension00 :=
  descriptor_laws _ 0 (or_introl eq_refl).
#[global] Instance Descriptor01_laws : ExtensionLaws RtpGenericFrameDescriptorExtension01 :=
  descriptor_laws _ 1 (or_intror eq_refl).

(** ** Frame authentication *)

(** The bytes a frame is authenticated with do not depend on where in the subframe its packet is:
    the sender computes them before it knows which packet is the last. *)
Lemma authenticated_bytes version (last : bool) d d0 :
  (version = 0 \/ version = 1) -> descriptor_valid d ->
  option_map GFD.GetByteRepresentation
    (GFD.SetByteRepresentation (descriptor_wire version (GFD.SetLastPacketInSubFrame last d)) d0) =
  Some (descriptor_wire version (GFD.SetLastPacketInSubFrame false d)).
Proof.
  intros Hv H.
  assert (Hclear : forall first disc nodeps temporal, 0 <= temporal < 8 ->
    Z.land (header_bits version first last disc nodeps temporal) (Z.lnot 0x40) =
    header_bits version first false disc nodeps temporal).
  { intros first disc nodeps temporal Ht.
    assert (Hi : temporal ∈ seqZ 0 8) by (apply elem_of_seqZ; lia).
    revert Hi. generalize temporal. rewrite <- Forall_forall. clear Ht.
    destruct Hv as [-> | ->], first, last, disc, nodeps; by_compute. }
  unfold descriptor_wire. change (GFD.beginning_of_subframe (GFD.SetLastPacketInSubFrame ?l d))
    with (GFD.beginning_of_subframe d).
  destruct (GFD.beginning_of_subframe d) eqn:Eb.
  - destruct (H Eb) as (Ht & _). cbn [app GFD.SetByteRepresentation option_map].
    rewrite !head_byte_bits. cbn. rewrite Hclear by done. done.
  - rewrite !base_header_bits. cbn [GFD.SetByteRepresentation option_map]. cbn.
    rewrite Hclear by lia. done.
Qed.

(** ** The size senders plan with *)

(** A valid descriptor takes at most [kMaxSizeBytes], the size a sender reserves for it in every
    packet, unless it has more than six dependencies. *)
Lemma descriptor_size_bound d :
  GFDE.ValueSize d <= 4 + 2 * Z.max 2 (len (GFD.frame_deps_id_diffs d)).
Proof.
  unfold GFDE.ValueSize. rewrite <- deps_wire_size.
  pose proof (deps_wire_len (GFD.frame_deps_id_diffs d)).
  destruct (GFD.beginning_of_subframe d); cbn [negb]; [|lia].
  destruct (GFDE.has_resolution d) eqn:E; [|lia].
  rewrite (has_resolution_nodeps d E). change (len (deps_wire [])) with 0. lia.
Qed.

(** With eight far dependencies, which [AddFrameDependencyDiff] accepts, it takes 20 bytes. *)
Lemma descriptor_over_max :
  let d := GFD.Make true false None 0 1 0 (replicate 8 64) 0 0 [] in
  descriptor_valid d /\ GFDE.ValueSize d = 20 /\ GFDE.kMaxSizeBytes < GFDE.ValueSize d.
Proof.
  split; [|split; reflexivity]. intros _. split_and!; try done; try (cbn; lia).
  cbn. repeat constructor.
Qed.

(** ** All extensions *)

(** A frame marking without temporal layers fails the check of its writer. *)
Lemma frame_marking_unwritable v view : 7 < FM.temporal_id v -> write_view (Write FM.ops v) view = None.
Proof.
  intros Hv. unfold write_view. cbn [FM.ops Write]. unfold FM.Write, view_size, mbind, ST_bind. cbn beta iota.
  destruct (1 <=? _); [|done]. cbn. by rewrite (proj2 (Z.leb_gt _ 7)).
Qed.

(** C22: the values of the header extensions round-trip.  For absolute send time,
    absolute capture time, audio level, transmission offset, transport sequence number (with and
    without feedback request), video orientation, playout delay, video content type, video
    timing, frame marking with a temporal id of at most 7 (the writer aborts on any other), the string extensions of 1 to 16 bytes
    and both versions of the generic frame descriptor (not the colour space): [Write] fills a view of exactly
    [ValueSize] bytes, a size that fits an extension, [Parse] reads the value back (a playout
    delay rounded down to 10 ms, a feedback request for zero packets as none, the short absolute
    capture time with the offset of the object it is parsed into, a frame descriptor with the
    resolution of that object when it carries none and, in version 00, its discardable flag), and [Parse] of arbitrary bytes
    never reads outside its view or aborts. *)
Theorem header_extension_roundtrip :
  sound_codec AbsoluteSendTime.ops (in_u 24) (fun v _ => v) /\
  sound_codec AbsoluteCaptureTimeExtension.ops valid parsed /\
  sound_codec AudioLevel.ops (fun v => 0 <= v.2 < 128) (fun v _ => v) /\
  sound_codec TransmissionOffset.ops (in_s 24) (fun v _ => v) /\
  sound_codec TransportSequenceNumber.ops (in_u 16) (fun v _ => v) /\
  sound_codec V2.ops valid (fun v _ => received_request v) /\
  sound_codec VideoOrientation.ops (fun _ => True) (fun v _ => v) /\
  sound_codec PD.ops (fun v => 0 <= PD.min_ms v <= PD.max_ms v /\ PD.max_ms v <= 40950)
    (fun v _ => PD.Make (PD.min_ms v / 10 * 10) (PD.max_ms v / 10 * 10)) /\
  sound_codec VC.ops (fun v => 0 <= v < 64) (fun v _ => v) /\
  sound_codec VT.ops timing_valid (fun v _ => v) /\
  sound_codec FM.ops
    (fun v => 0 <= FM.temporal_id v <= 7 /\ byte_ok (FM.layer_id v) /\ byte_ok (FM.tl0_pic_idx v))
    (fun v _ => v) /\
  (forall v view, 7 < FM.temporal_id v -> write_view (Write FM.ops v) view = None) /\
  (forall id, sound_codec (Str.ops id) (fun v => nonzero_bytes v /\ 1 <= len v <= 16)
                (fun v _ => v)) /\
  sound_codec RtpGenericFrameDescriptorExtension00 descriptor_valid (descriptor_parsed 0) /\
  sound_codec RtpGenericFrameDescriptorExtension01 descriptor_valid (descriptor_parsed 1).
Proof.
  split; [exact (laws_sound AbsoluteSendTime.ops)|].
  split; [exact (laws_sound AbsoluteCaptureTimeExtension.ops)|].
  split; [exact (laws_sound AudioLevel.ops)|].
  split; [exact (laws_sound TransmissionOffset.ops)|].
  split; [exact (laws_sound TransportSequenceNumber.ops)|].
  split; [exact (laws_sound V2.ops)|].
  split; [exact (laws_sound VideoOrientation.ops)|].
  split; [exact (laws_sound PD.ops)|].
  split; [exact (laws_sound VC.ops)|].
  split; [exact (laws_sound VT.ops)|].
  split; [exact (laws_sound FM.ops)|]. split; [exact frame_marking_unwritable|].
  split; [intros id; exact (laws_sound (Str.ops id))|].
  split; [exact (laws_sound RtpGenericFrameDescriptorExtension00)|].
  exact (laws_sound RtpGenericFrameDescriptorExtension01).
Qed.

(** A playout delay of 45 to 1234 ms, and the times of a frame. *)
Lemma header_extension_roundtrip_witness : exists bs bs',
  write_view (Write PD.ops (PD.Make 45 1234)) [0; 0; 0] = Some (true, bs) /\
  Parse PD.ops bs (PD.Make 0 0) = Some (true, PD.Make 40 1230) /\
  write_view (Write VT.ops (VT.Make 1 2 3 4 5 6 7)) (replicate 13 0) = Some (true, bs') /\ len bs' = 13 /\
  Parse VT.ops bs' (VT.Make 0 0 0 0 0 0 0) = Some (true, VT.Make 1 2 3 4 5 6 7).
Proof.
  destruct header_extension_roundtrip as (_ & _ & _ & _ & _ & _ & _ & [Hpd _] & _ & [Hvt _] & _).
  destruct (Hpd (PD.Make 45 1234) [0; 0; 0]) as (_ & bs & E & _ & _ & Ep); [vm_compute; intuition discriminate|reflexivity|].
  destruct (Hvt (VT.Make 1 2 3 4 5 6 7) (replicate 13 0)) as (_ & bs' & E' & Hl & _ & Ep'); [vm_compute; intuition discriminate|reflexivity|].
  exists bs, bs'. split; [exact E|]. split; [exact (Ep (PD.Make 0 0))|]. split; [exact E'|]. split; [exact Hl|]. exact (Ep' (VT.Make 0 0 0 0 0 0 0)).
Defined.
