(* ===== verification/RtpPacket.v ===== *)
(** * RTP packets

    Model of [rtp_packet.h/.cc].  [t] has the members of the class; the buffer is the abstract
    view of a copy-on-write buffer ([CowBuffer.Value]), so that writing through a shared buffer
    first copies the bytes in use and leaves the rest of the new allocation with the arbitrary
    bytes [g].  Operations are computations on the packet: [None] is a failed check or an access
    outside the buffer's memory; a returned [rtc::ArrayView] is a pair of offset and length. *)

From S2P Require Import Prelude Buffer ByteIo CowBuffer RtpExtensionMap HeaderExtensions.
Import ByteReader ByteWriter.

Definition kFixedHeaderSize : Z := 12.
Definition kRtpVersion : Z := 2.
Definition kOneByteExtensionProfileId : Z := 0xBEDE.
Definition kTwoByteExtensionProfileId : Z := 0x1000.
Definition kOneByteExtensionHeaderLength : Z := 1.
Definition kTwoByteExtensionHeaderLength : Z := 2.
Definition kDefaultPacketSize : Z := 1500.

Module RtpPacket.

Record ExtensionInfo := Info { id : Z; length : Z; offset : Z }.

Record t := Make {
  marker_ : bool;
  payload_type_ : Z;
  padding_size_ : Z;
  sequence_number_ : Z;
  timestamp_ : Z;
  ssrc_ : Z;
  payload_offset_ : Z;
  payload_size_ : Z;
  extensions_ : RtpHeaderExtensionMap.t;
  extension_entries_ : list ExtensionInfo;
  extensions_size_ : Z;
  buffer_ : Value.t
}.

(** Assignments to the members. *)
Definition set_marker (v : bool) (p : t) : t :=
  Make v (payload_type_ p) (padding_size_ p) (sequence_number_ p) (timestamp_ p) (ssrc_ p)
    (payload_offset_ p) (payload_size_ p) (extensions_ p) (extension_entries_ p)
    (extensions_size_ p) (buffer_ p).
Definition set_payload_type (v : Z) (p : t) : t :=
  Make (marker_ p) v (padding_size_ p) (sequence_number_ p) (timestamp_ p) (ssrc_ p)
    (payload_offset_ p) (payload_size_ p) (extensions_ p) (extension_entries_ p)
    (extensions_size_ p) (buffer_ p).
Definition set_padding_size (v : Z) (p : t) : t :=
  Make (marker_ p) (payload_type_ p) v (sequence_number_ p) (timestamp_ p) (ssrc_ p)
    (payload_offset_ p) (payload_size_ p) (extensions_ p) (extension_entries_ p)
    (extensions_size_ p) (buffer_ p).
Definition set_sequence_number (v : Z) (p : t) : t :=
  Make (marker_ p) (payload_type_ p) (padding_size_ p) v (timestamp_ p) (ssrc_ p)
    (payload_offset_ p) (payload_size_ p) (extensions_ p) (extension_entries_ p)
    (extensions_size_ p) (buffer_ p).
Definition set_timestamp (v : Z) (p : t) : t :=
  Make (marker_ p) (payload_type_ p) (padding_size_ p) (sequence_number_ p) v (ssrc_ p)
    (payload_offset_ p) (payload_size_ p) (extensions_ p) (extension_entries_ p)
    (extensions_size_ p) (buffer_ p).
Definition set_ssrc (v : Z) (p : t) : t :=
  Make (marker_ p) (payload_type_ p) (padding_size_ p) (sequence_number_ p) (timestamp_ p) v
    (payload_offset_ p) (payload_size_ p) (extensions_ p) (extension_entries_ p)
    (extensions_size_ p) (buffer_ p).
Definition set_payload_offset (v : Z) (p : t) : t :=
  Make (marker_ p) (payload_type_ p) (padding_size_ p) (sequence_number_ p) (timestamp_ p)
    (ssrc_ p) v (payload_size_ p) (extensions_ p) (extension_entries_ p) (extensions_size_ p)
    (buffer_ p).
Definition set_payload_size (v : Z) (p : t) : t :=
  Make (marker_ p) (payload_type_ p) (padding_size_ p) (sequence_number_ p) (timestamp_ p)
    (ssrc_ p) (payload_offset_ p) v (extensions_ p) (extension_entries_ p) (extensions_size_ p)
    (buffer_ p).
Definition set_extensions (v : RtpHeaderExtensionMap.t) (p : t) : t :=
  Make (marker_ p) (payload_type_ p) (padding_size_ p) (sequence_number_ p) (timestamp_ p)
    (ssrc_ p) (payload_offset_ p) (payload_size_ p) v (extension_entries_ p)
    (extensions_size_ p) (buffer_ p).
Definition set_entries (v : list ExtensionInfo) (p : t) : t :=
  Make (marker_ p) (payload_type_ p) (padding_size_ p) (sequence_number_ p) (timestamp_ p)
    (ssrc_ p) (payload_offset_ p) (payload_size_ p) (extensions_ p) v (extensions_size_ p)
    (buffer_ p).
Definition set_extensions_size (v : Z) (p : t) : t :=
  Make (marker_ p) (payload_type_ p) (padding_size_ p) (sequence_number_ p) (timestamp_ p)
    (ssrc_ p) (payload_offset_ p) (payload_size_ p) (extensions_ p) (extension_entries_ p) v
    (buffer_ p).
Definition set_buffer (v : Value.t) (p : t) : t :=
  Make (marker_ p) (payload_type_ p) (padding_size_ p) (sequence_number_ p) (timestamp_ p)
    (ssrc_ p) (payload_offset_ p) (payload_size_ p) (extensions_ p) (extension_entries_ p)
    (extensions_size_ p) v.

Definition P : Type -> Type := ST t.

Definition get : P t := fun p => Some (p, p).
Definition modify (f : t -> t) : P unit := fun p => Some (tt, f p).

(** ** Accessors *)

Definition Marker (p : t) : bool := marker_ p.
Definition PayloadType (p : t) : Z := payload_type_ p.
Definition SequenceNumber (p : t) : Z := sequence_number_ p.
Definition Timestamp (p : t) : Z := timestamp_ p.
Definition Ssrc (p : t) : Z := ssrc_ p.
Definition headers_size (p : t) : Z := payload_offset_ p.
Definition payload_size (p : t) : Z := payload_size_ p.
Definition padding_size (p : t) : Z := padding_size_ p.
Definition capacity (p : t) : Z := Value.capacity (buffer_ p).
Definition size (p : t) : Z := payload_offset_ p + payload_size_ p + padding_size_ p.
Definition FreeCapacity (p : t) : Z := capacity p - size p.
Definition MaxPayloadSize (p : t) : Z := capacity p - headers_size p.

(** [data()]: the memory the packet can reach. *)
Definition data (p : t) : list Z := Value.mem (buffer_ p).

(** The bytes of the view [(offset, length)] of the packet. *)
Definition view_bytes (p : t) (v : Z * Z) : option (list Z) :=
  if (0 <=? v.1) && (v.1 + v.2 <=? capacity p)
  then Some (take (Z.to_nat v.2) (ptr_add (data p) v.1)) else None.

Definition payload (p : t) : option (list Z) :=
  view_bytes p (payload_offset_ p, payload_size_ p).

Section Operations.
(* The bytes fresh memory happens to hold. *)
Variable g : list Z.

(** [data()[i]] and [ByteReader::ReadBigEndian(data() + off)]. *)
Definition read (i : Z) : P Z := fun p =>
  match byte_at (data p) i with Some b => Some (b, p) | None => None end.

Definition read_be (w : Z) (B : nat) (off : Z) : P Z := fun p =>
  match ReadBigEndian w B (ptr_add (data p) off) with Some v => Some (v, p) | None => None end.

(** A write through the pointer [WriteAt(0)]. *)
Definition on_data (m : W unit) : P unit := fun p =>
  match Value.data g (buffer_ p) with
  | None => None
  | Some b =>
      match m (WState (Value.mem b) 0 []) with
      | Some (_, s) => Some (tt, set_buffer (Value.with_mem b (packet s)) p)
      | None => None
      end
  end.

(** [WriteAt(offset, byte)]. *)
Definition WriteAt (offset byte : Z) : P unit := on_data (store offset byte).

Definition buffer_SetSize (n : Z) : P unit := fun p =>
  match Value.SetSize g (buffer_ p) n with
  | Some b => Some (tt, set_buffer b p)
  | None => None
  end.

(** ** Clear and the constructors *)

Definition Clear : P unit :=
  modify (fun p => Make false 0 0 0 0 0 kFixedHeaderSize 0 (extensions_ p) [] 0 (buffer_ p)) ;;
  on_data (memset 0 0 kFixedHeaderSize) ;;
  buffer_SetSize kFixedHeaderSize ;;
  WriteAt 0 (Z.shiftl kRtpVersion 6).

Definition construct (extensions : option RtpHeaderExtensionMap.t) (cap : Z) : option t :=
  check (kFixedHeaderSize <=? cap) ;;
  let p := Make false 0 0 0 0 0 0 0
             (default (RtpHeaderExtensionMap.init false) extensions) [] 0
             (Value.Make [] (fresh_mem g cap) cap false) in
  snd <$> Clear p.

Definition IdentifyExtensions (extensions : RtpHeaderExtensionMap.t) : P unit :=
  modify (set_extensions extensions).

(** ** Header setters *)

Definition SetMarker (marker_bit : bool) : P unit :=
  modify (set_marker marker_bit) ;;
  d1 ← read 1;
  if marker_bit then WriteAt 1 (Z.lor d1 0x80) else WriteAt 1 (Z.land d1 0x7F).

Definition SetPayloadType (payload_type : Z) : P unit :=
  dcheck (payload_type <=? 0x7F) ;;
  modify (set_payload_type payload_type) ;;
  d1 ← read 1;
  WriteAt 1 (Z.lor (Z.land d1 0x80) payload_type).

Definition SetSequenceNumber (seq_no : Z) : P unit :=
  modify (set_sequence_number seq_no) ;; on_data (WriteBigEndian 2 2 seq_no).

Definition SetTimestamp (timestamp : Z) : P unit :=
  modify (set_timestamp timestamp) ;; on_data (WriteBigEndian 4 4 timestamp).

Definition SetSsrc (ssrc : Z) : P unit :=
  modify (set_ssrc ssrc) ;; on_data (WriteBigEndian 4 8 ssrc).

(** The loop of [Csrcs]: [n] entries from index [i] on. *)
Fixpoint read_csrcs (n : nat) (i : Z) (p : t) : option (list Z) :=
  match n with
  | O => Some []
  | S n' =>
      c ← ReadBigEndian 32 4 (ptr_add (data p) (kFixedHeaderSize + i * 4));
      rest ← read_csrcs n' (i + 1) p;
      Some (c :: rest)
  end.

Definition Csrcs (p : t) : option (list Z) :=
  d0 ← byte_at (data p) 0;
  let num_csrc := Z.land d0 0x0F in
  check (kFixedHeaderSize + num_csrc * 4 <=? capacity p) ;;
  read_csrcs (Z.to_nat num_csrc) 0 p.

(** The loop of [SetCsrcs]. *)
Fixpoint write_csrcs (offset : Z) (csrcs : list Z) : P unit :=
  match csrcs with
  | [] => mret tt
  | csrc :: rest => on_data (WriteBigEndian 4 offset csrc) ;; write_csrcs (offset + 4) rest
  end.

Definition SetCsrcs (csrcs : list Z) : P unit :=
  p ← get;
  dcheck (extensions_size_ p =? 0) ;;
  dcheck (payload_size_ p =? 0) ;;
  dcheck (padding_size_ p =? 0) ;;
  dcheck (len csrcs <=? 0x0f) ;;
  dcheck (kFixedHeaderSize + 4 * len csrcs <=? capacity p) ;;
  modify (set_payload_offset (kFixedHeaderSize + 4 * len csrcs)) ;;
  d0 ← read 0;
  WriteAt 0 (Z.lor (Z.land d0 0xF0) (len csrcs)) ;;
  write_csrcs kFixedHeaderSize csrcs ;;
  buffer_SetSize (kFixedHeaderSize + 4 * len csrcs).

(** The assignments of [CopyHeaderFrom]; the slice of the buffer is shared with its owner. *)
Definition CopyHeaderFrom (src : t) : P unit :=
  this ← get;
  dcheck (headers_size src <=? capacity this) ;;
  dcheck (0 <=? Value.size (buffer_ src)) ;;
  dcheck (headers_size src <=? Value.size (buffer_ src)) ;;
  modify (fun _ =>
    Make (marker_ src) (payload_type_ src) 0 (sequence_number_ src) (timestamp_ src) (ssrc_ src)
      (payload_offset_ src) 0 (extensions_ src) (extension_entries_ src) (extensions_size_ src)
      (Value.Make (Value.prefix (buffer_ src)) (Value.mem (buffer_ src)) (headers_size src) true)).

(** ** Header extensions *)

Fixpoint find_info (entries : list ExtensionInfo) (i : Z) : option ExtensionInfo :=
  match entries with
  | [] => None
  | e :: rest => if id e =? i then Some e else find_info rest i
  end.

Definition FindExtensionInfo (p : t) (i : Z) : option ExtensionInfo :=
  find_info (extension_entries_ p) i.

(** [FindOrCreateExtensionInfo] followed by the assignment of length and offset to the entry;
    the new entry of an unknown id has length and offset 0. *)
Fixpoint find_or_create (entries : list ExtensionInfo) (i : Z) (f : ExtensionInfo -> ExtensionInfo)
    : list ExtensionInfo :=
  match entries with
  | [] => [f (Info i 0 0)]
  | e :: rest => if id e =? i then f e :: rest else e :: find_or_create rest i f
  end.

Definition SetExtensionLengthMaybeAddZeroPadding (extensions_offset : Z) : P Z :=
  p ← get;
  let extensions_words := (extensions_size_ p + 3) / 4 in
  dcheck (extensions_words <=? 0xFFFF) ;;
  on_data (WriteBigEndian 2 (extensions_offset - 2) extensions_words) ;;
  let extension_padding_size := 4 * extensions_words - extensions_size_ p in
  on_data (memset (extensions_offset + extensions_size_ p) 0 extension_padding_size) ;;
  mret (u16 (4 * extensions_words)).

(** The loop of [PromoteToTwoByteHeaderExtension], over the entries from the last to the first;
    the result is in the order of the entries. *)
Fixpoint promote_loop (rev_entries : list ExtensionInfo) (write_read_delta : Z)
    : P (list ExtensionInfo) :=
  match rev_entries with
  | [] => mret []
  | e :: rest =>
      let read_index := offset e in
      let write_index := read_index + write_read_delta in
      dcheck (write_index <=? 0xFFFF) ;;
      p ← get;
      match view_bytes p (read_index, length e) with
      | None => abort
      | Some bs =>
          on_data (memcpy write_index bs) ;;
          WriteAt (write_index - 1) (length e) ;;
          WriteAt (write_index - 2) (id e) ;;
          es ← promote_loop rest (write_read_delta - 1);
          mret (es ++ [Info (id e) (length e) write_index])
      end
  end.

Definition PromoteToTwoByteHeaderExtension : P unit :=
  d0 ← read 0;
  let num_csrc := Z.land d0 0x0F in
  let extensions_offset := kFixedHeaderSize + num_csrc * 4 + 4 in
  p ← get;
  dcheck (0 <? len (extension_entries_ p)) ;;
  dcheck (payload_size_ p =? 0) ;;
  profile ← read_be 16 2 (extensions_offset - 4);
  dcheck (kOneByteExtensionProfileId =? profile) ;;
  entries ← promote_loop (rev (extension_entries_ p)) (len (extension_entries_ p));
  modify (set_entries entries) ;;
  on_data (WriteBigEndian 2 (extensions_offset - 4) kTwoByteExtensionProfileId) ;;
  modify (set_extensions_size (extensions_size_ p + len entries)) ;;
  extensions_size_padded ← SetExtensionLengthMaybeAddZeroPadding extensions_offset;
  modify (set_payload_offset (extensions_offset + extensions_size_padded)) ;;
  buffer_SetSize (extensions_offset + extensions_size_padded).

(** The second half of [AllocateRawExtension]: the extension is new, the profile is known. *)
Definition append_extension (i len_ext extensions_offset num_csrc profile_id : Z)
    : P (option (Z * Z)) :=
  p ← get;
  let extension_header_size :=
    if profile_id =? kOneByteExtensionProfileId then kOneByteExtensionHeaderLength
    else kTwoByteExtensionHeaderLength in
  let new_extensions_size := extensions_size_ p + extension_header_size + len_ext in
  if capacity p <? extensions_offset + new_extensions_size then mret None else
  (if extensions_size_ p =? 0 then
     dcheck (payload_offset_ p =? kFixedHeaderSize + num_csrc * 4) ;;
     d0 ← read 0;
     WriteAt 0 (Z.lor d0 0x10) ;;
     on_data (WriteBigEndian 2 (extensions_offset - 4) profile_id)
   else mret tt) ;;
  (if profile_id =? kOneByteExtensionProfileId then
     dcheck (i <=? 0xFF) ;; dcheck (len_ext - 1 <=? 0xFF) ;;
     WriteAt (extensions_offset + extensions_size_ p) (Z.lor (u8 (Z.shiftl i 4)) (len_ext - 1))
   else
     dcheck (i <=? 0xFF) ;;
     WriteAt (extensions_offset + extensions_size_ p) i ;;
     dcheck (len_ext <=? 0xFF) ;;
     WriteAt (extensions_offset + extensions_size_ p + 1) len_ext) ;;
  let extension_info_offset := extensions_offset + extensions_size_ p + extension_header_size in
  dcheck (extension_info_offset <=? 0xFFFF) ;;
  dcheck (len_ext <=? 0xFF) ;;
  modify (fun p => set_entries (extension_entries_ p ++ [Info i len_ext extension_info_offset]) p) ;;
  modify (set_extensions_size new_extensions_size) ;;
  extensions_size_padded ← SetExtensionLengthMaybeAddZeroPadding extensions_offset;
  modify (set_payload_offset (extensions_offset + extensions_size_padded)) ;;
  buffer_SetSize (extensions_offset + extensions_size_padded) ;;
  mret (Some (extension_info_offset, len_ext)).

Definition AllocateRawExtension (i len_ext : Z) : P (option (Z * Z)) :=
  dcheck (kMinId <=? i) ;; dcheck (i <=? kMaxId) ;;
  dcheck (1 <=? len_ext) ;; dcheck (len_ext <=? kMaxValueSize) ;;
  p ← get;
  match FindExtensionInfo p i with
  | Some e =>
      if length e =? len_ext then on_data (mret tt) ;; mret (Some (offset e, len_ext)) else mret None
  | None =>
      if 0 <? payload_size_ p then mret None else
      if 0 <? padding_size_ p then mret None else
      d0 ← read 0;
      let num_csrc := Z.land d0 0x0F in
      let extensions_offset := kFixedHeaderSize + num_csrc * 4 + 4 in
      let two_byte_header_required :=
        (kOneByteHeaderExtensionMaxId <? i) ||
        (kOneByteHeaderExtensionMaxValueSize <? len_ext) || (len_ext =? 0) in
      dcheck (negb two_byte_header_required ||
              RtpHeaderExtensionMap.ExtmapAllowMixed (extensions_ p)) ;;
      if 0 <? extensions_size_ p then
        profile_id ← read_be 16 2 (extensions_offset - 4);
        if (profile_id =? kOneByteExtensionProfileId) && two_byte_header_required then
          let expected_new_extensions_size :=
            extensions_size_ p + len (extension_entries_ p) + kTwoByteExtensionHeaderLength +
            len_ext in
          if capacity p <? extensions_offset + expected_new_extensions_size then mret None else
          PromoteToTwoByteHeaderExtension ;;
          append_extension i len_ext extensions_offset num_csrc kTwoByteExtensionProfileId
        else append_extension i len_ext extensions_offset num_csrc profile_id
      else
        append_extension i len_ext extensions_offset num_csrc
          (if two_byte_header_required then kTwoByteExtensionProfileId
           else kOneByteExtensionProfileId)
  end.

Definition AllocateExtension (type : RTPExtensionType) (len_ext : Z) : P (option (Z * Z)) :=
  p ← get;
  let mixed := RtpHeaderExtensionMap.ExtmapAllowMixed (extensions_ p) in
  if (len_ext =? 0) || (kMaxValueSize <? len_ext) ||
     (negb mixed && (kOneByteHeaderExtensionMaxValueSize <? len_ext)) then mret None else
  match RtpHeaderExtensionMap.GetId (extensions_ p) type with
  | None => abort
  | Some i =>
      if i =? RtpHeaderExtensionMap.kInvalidId then mret None else
      if negb mixed && (kOneByteHeaderExtensionMaxId <? i) then mret None else
      AllocateRawExtension i len_ext
  end.

(** The view of an extension, empty when it is not there. *)
Definition FindExtension (p : t) (type : RTPExtensionType) : option (option (Z * Z)) :=
  i ← RtpHeaderExtensionMap.GetId (extensions_ p) type;
  if i =? RtpHeaderExtensionMap.kInvalidId then Some None else
  Some (e ← FindExtensionInfo p i; Some (offset e, length e)).

Definition HasExtension (p : t) (type : RTPExtensionType) : option bool :=
  v ← FindExtension p type;
  Some (match v with Some (_, n) => negb (n =? 0) | None => false end).

Definition IsExtensionReserved (p : t) (type : RTPExtensionType) : option bool :=
  i ← RtpHeaderExtensionMap.GetId (extensions_ p) type;
  if i =? RtpHeaderExtensionMap.kInvalidId then Some false else
  Some (match FindExtensionInfo p i with Some _ => true | None => false end).

(** [GetExtension<E>(value)]: the flag and the object that was passed. *)
Definition GetExtension (E : Extension) (p : t) (prev : value_type E)
    : option (bool * value_type E) :=
  v ← FindExtension p (kId E);
  match v with
  | Some (off, n) =>
      if n =? 0 then Some (false, prev) else
      raw ← view_bytes p (off, n); Parse E raw prev
  | None => Some (false, prev)
  end.

(** A writer run on the view [(off, n)] of the packet. *)
Definition write_to_view (off n : Z) (m : W bool) : P bool := fun p =>
  match view_bytes p (off, n) with
  | None => None
  | Some bs =>
      match write_view m bs with
      | None => None
      | Some (r, bs') =>
          match on_data (memcpy off bs') p with
          | Some (_, p') => Some (r, p')
          | None => None
          end
      end
  end.

(** [SetExtension<E>(values)]. *)
Definition SetExtension (E : Extension) (v : value_type E) : P bool :=
  view ← AllocateExtension (kId E) (ValueSize E v);
  match view with
  | Some (off, n) => if n =? 0 then mret false else write_to_view off n (Write E v)
  | None => mret false
  end.

(** [ReserveExtension<E>()]; [n] is [E::kValueSizeBytes]. *)
Definition ReserveExtension (type : RTPExtensionType) (n : Z) : P bool :=
  view ← AllocateExtension type n;
  match view with
  | Some (off, m) => if m =? 0 then mret false else on_data (memset off 0 n) ;; mret true
  | None => mret false
  end.

(** What [ZeroMutableExtensions] overwrites for one extension: offset and length. *)
Definition mutable_range (type : RTPExtensionType) (e : ExtensionInfo) : option (Z * Z) :=
  match type with
  | kRtpExtensionVideoTiming =>
      Some (offset e + VideoTimingExtension.kPacerExitDeltaOffset, 6)
  | kRtpExtensionTransportSequenceNumber | kRtpExtensionTransportSequenceNumber02
  | kRtpExtensionTransmissionTimeOffset | kRtpExtensionAbsoluteSendTime =>
      Some (offset e, length e)
  | _ => None
  end.

Fixpoint zero_mutable (entries : list ExtensionInfo) : P unit :=
  match entries with
  | [] => mret tt
  | e :: rest =>
      p ← get;
      match RtpHeaderExtensionMap.GetType (extensions_ p) (id e) with
      | None => abort
      | Some type =>
          match mutable_range type e with
          | Some (off, n) => on_data (memset off 0 n)
          | None => mret tt
          end
      end ;;
      zero_mutable rest
  end.

Definition ZeroMutableExtensions : P unit := p ← get; zero_mutable (extension_entries_ p).

(** ** Payload and padding *)

Definition SetPayloadSize (size_bytes : Z) : P (option Z) :=
  p ← get;
  dcheck (padding_size_ p =? 0) ;;
  if capacity p <? payload_offset_ p + size_bytes then mret None else
  modify (set_payload_size size_bytes) ;;
  buffer_SetSize (payload_offset_ p + size_bytes) ;;
  on_data (mret tt) ;;
  mret (Some (payload_offset_ p)).

Definition AllocatePayload (size_bytes : Z) : P (option Z) :=
  SetPayloadSize 0 ;; SetPayloadSize size_bytes.

Definition SetPadding (padding_bytes : Z) : P bool :=
  p ← get;
  if capacity p <? payload_offset_ p + payload_size_ p + padding_bytes then mret false else
  dcheck (padding_bytes <=? 0xFF) ;;
  modify (set_padding_size padding_bytes) ;;
  buffer_SetSize (payload_offset_ p + payload_size_ p + padding_bytes) ;;
  let padding_offset := payload_offset_ p + payload_size_ p in
  (if 0 <? padding_bytes then
     let padding_end := padding_offset + padding_bytes in
     on_data (memset padding_offset 0 (padding_bytes - 1)) ;;
     WriteAt (padding_end - 1) padding_bytes ;;
     d0 ← read 0;
     WriteAt 0 (Z.lor d0 0x20)
   else
     d0 ← read 0;
     WriteAt 0 (Z.land d0 (Z.lnot 0x20))) ;;
  mret true.

(** ** Parsing *)

(** The loop of [ParseBuffer] over the extension block: the number of bytes consumed and the
    entries.  Each round that does not leave the loop consumes a byte, so the size of the block
    is fuel enough. *)
Fixpoint parse_extensions (fuel : nat) (buffer : list Z) (one_byte : bool)
    (extension_offset extensions_capacity extensions_size : Z) (entries : list ExtensionInfo)
    : option (Z * list ExtensionInfo) :=
  let extension_header_length :=
    if one_byte then kOneByteExtensionHeaderLength else kTwoByteExtensionHeaderLength in
  if negb (extensions_size + extension_header_length <? extensions_capacity)
  then Some (extensions_size, entries) else
  match fuel with
  | O => None
  | S fuel' =>
      b ← byte_at buffer (extension_offset + extensions_size);
      if b =? 0 then
        parse_extensions fuel' buffer one_byte extension_offset extensions_capacity
          (extensions_size + 1) entries
      else
      hdr ← (if one_byte then Some (Z.shiftr b 4, 1 + Z.land b 0xf)
             else n ← byte_at buffer (extension_offset + extensions_size + 1); Some (b, n));
      let '(i, n) := hdr in
      if one_byte && ((i =? 15) || ((i =? 0) && negb (n =? 1)))
      then Some (extensions_size, entries) else
      if extensions_capacity <? extensions_size + extension_header_length + n
      then Some (extensions_size, entries) else
      let offset := extension_offset + extensions_size + extension_header_length in
      if 0xFFFF <? offset
      then Some (extensions_size, find_or_create entries i (fun e => e)) else
      parse_extensions fuel' buffer one_byte extension_offset extensions_capacity
        (extensions_size + extension_header_length + n)
        (find_or_create entries i (fun e => Info (id e) n offset))
  end.

(** The part of [ParseBuffer] for a set extension bit: the payload offset, the consumed size and
    the entries, or failure. *)
Definition parse_extension_block (buffer : list Z) (payload_offset : Z)
    : option (option (Z * Z * list ExtensionInfo)) :=
  let extension_offset := payload_offset + 4 in
  if len buffer <? extension_offset then Some None else
  profile ← ReadBigEndian 16 2 (ptr_add buffer payload_offset);
  words ← ReadBigEndian 16 2 (ptr_add buffer (payload_offset + 2));
  let extensions_capacity := words * 4 in
  if len buffer <? extension_offset + extensions_capacity then Some None else
  r ← (if negb (profile =? kOneByteExtensionProfileId) &&
          negb (profile =? kTwoByteExtensionProfileId)
       then Some (0, [])
       else parse_extensions (Z.to_nat extensions_capacity) buffer
              (profile =? kOneByteExtensionProfileId) extension_offset extensions_capacity 0 []);
  Some (Some (extension_offset + extensions_capacity, r.1, r.2)).

(** [ParseBuffer]: the flag and the members it has set; the buffer stays as it is. *)
Definition ParseBuffer (buffer : list Z) (p : t) : option (bool * t) :=
  let size := len buffer in
  if size <? kFixedHeaderSize then Some (false, p) else
  b0 ← byte_at buffer 0;
  if negb (Z.shiftr b0 6 =? kRtpVersion) then Some (false, p) else
  let has_padding := negb (Z.land b0 0x20 =? 0) in
  let has_extension := negb (Z.land b0 0x10 =? 0) in
  let number_of_crcs := Z.land b0 0x0f in
  b1 ← byte_at buffer 1;
  seq ← ReadBigEndian 16 2 (ptr_add buffer 2);
  ts ← ReadBigEndian 32 4 (ptr_add buffer 4);
  ssrc ← ReadBigEndian 32 4 (ptr_add buffer 8);
  let p1 := set_ssrc ssrc (set_timestamp ts (set_sequence_number seq
              (set_payload_type (Z.land b1 0x7f) (set_marker (negb (Z.land b1 0x80 =? 0)) p)))) in
  if size <? kFixedHeaderSize + number_of_crcs * 4 then Some (false, p1) else
  let payload_offset := kFixedHeaderSize + number_of_crcs * 4 in
  padding ← (if has_padding then byte_at buffer (size - 1) else Some 0);
  let p2 := set_padding_size padding (set_payload_offset payload_offset p1) in
  if has_padding && (padding =? 0) then Some (false, p2) else
  let p3 := set_entries [] (set_extensions_size 0 p2) in
  ext ← (if has_extension then parse_extension_block buffer payload_offset
         else Some (Some (payload_offset, 0, [])));
  match ext with
  | None => Some (false, p3)
  | Some (payload_offset, extensions_size, entries) =>
      let p4 := set_payload_offset payload_offset
                  (set_entries entries (set_extensions_size extensions_size p3)) in
      if size <? payload_offset + padding then Some (false, p4) else
      Some (true, set_payload_size (size - payload_offset - padding) p4)
  end.

(** [Parse(const uint8_t* buffer, size_t)]. *)
Definition ParsePacket (buffer : list Z) : P bool := fun p =>
  match ParseBuffer buffer p with
  | None => None
  | Some (false, p') => (Clear ;; mret false) p'
  | Some (true, p') =>
      match Value.SetData g (buffer_ p') buffer with
      | None => None
      | Some b =>
          let p'' := set_buffer b p' in
          dcheck (size p'' =? len buffer) p'' ≫= fun '(_, q) => Some (true, q)
      end
  end.

(** [Parse(rtc::CopyOnWriteBuffer buffer)]: the packet takes over the buffer. *)
Definition ParseShared (buffer : Value.t) : P bool := fun p =>
  match ParseBuffer (Value.contents buffer) p with
  | None => None
  | Some (false, p') => (Clear ;; mret false) p'
  | Some (true, p') =>
      let p'' := set_buffer buffer p' in
      dcheck (size p'' =? Value.size buffer) p'' ≫= fun '(_, q) => Some (true, q)
  end.

(** ** Removing an extension *)

(** The loop over the entries of the old packet [old]: the flag [found_extension], or [None] for
    an early return. *)
Fixpoint copy_extensions (old : t) (entries : list ExtensionInfo) (id_to_remove : Z)
    (found_extension : bool) : P (option bool) :=
  match entries with
  | [] => mret (Some found_extension)
  | e :: rest =>
      if id e =? id_to_remove then copy_extensions old rest id_to_remove true else
      view ← AllocateRawExtension (id e) (length e);
      match view with
      | None => mret None
      | Some (off, n) =>
          match view_bytes old (offset e, length e) with
          | None => abort
          | Some bs => on_data (memcpy off bs) ;; copy_extensions old rest id_to_remove found_extension
          end
      end
  end.

(** The new packet of [RemoveExtension], from the cleared packet on. *)
Definition rebuild_without (old : t) (id_to_remove : Z) : P bool :=
  SetMarker (Marker old) ;;
  SetPayloadType (PayloadType old) ;;
  SetSequenceNumber (SequenceNumber old) ;;
  SetTimestamp (Timestamp old) ;;
  SetSsrc (Ssrc old) ;;
  IdentifyExtensions (extensions_ old) ;;
  found ← copy_extensions old (extension_entries_ old) id_to_remove false;
  match found with
  | Some true =>
      dst ← AllocatePayload (payload_size old);
      match payload old with
      | None => abort
      | Some bs =>
          match dst with
          | Some off => on_data (memcpy off bs)
          | None => dcheck (len bs =? 0)
          end ;;
          SetPadding (padding_size old) ;;
          mret true
      end
  | _ => mret false
  end.

Definition RemoveExtension (type : RTPExtensionType) : P bool := fun this =>
  id_to_remove ← RtpHeaderExtensionMap.GetId (extensions_ this) type;
  if id_to_remove =? RtpHeaderExtensionMap.kInvalidId then Some (false, this) else
  new_packet ← construct None kDefaultPacketSize;
  r ← rebuild_without this id_to_remove new_packet;
  Some (if r.1 : bool then r else (false, this)).

End Operations.

End RtpPacket.
