(* ===== verification/RtpSpec.v ===== *)
(** * What an RTP packet is

    The abstract packet [rtp], its bytes on the wire, the relation [repr] between the members and
    the buffer of an [RtpPacket] and an abstract packet, and the rules for reading and writing the
    buffer of a packet that the proofs about building and parsing share. *)

From S2P Require Import Prelude Buffer ByteIo CowBuffer RtpExtensionMap HeaderExtensions.
From S2P Require Import RtpPacket.
Import ByteReader ByteWriter.

(** ** Abstract packets *)

Record rtp := Rtp {
  marker : bool;
  payload_type : Z;
  sequence_number : Z;
  timestamp : Z;
  ssrc : Z;
  csrcs : list Z;
  two_byte : bool;                (* the form of the extension headers *)
  exts : list (Z * list Z);       (* id and value *)
  payload : list Z;
  padding : Z
}.

Definition empty_rtp : rtp := Rtp false 0 0 0 0 [] false [] [] 0.

Definition header_length (two : bool) : Z := if two then 2 else 1.

(** One extension on the wire. *)
Definition ext_header (two : bool) (i n : Z) : list Z :=
  if two then [i; n] else [i * 16 + (n - 1)].

Definition item (two : bool) (e : Z * list Z) : list Z := ext_header two e.1 (len e.2) ++ e.2.

Definition block (two : bool) (es : list (Z * list Z)) : list Z := mjoin (item two <$> es).

Definition ext_words (n : Z) : Z := (n + 3) / 4.

Definition ext_pad (n : Z) : list Z := replicate (Z.to_nat (4 * ext_words n - n)) 0.

Definition profile (two : bool) : Z :=
  if two then kTwoByteExtensionProfileId else kOneByteExtensionProfileId.

Definition ext_bytes (two : bool) (es : list (Z * list Z)) : list Z :=
  match es with
  | [] => []
  | _ => be_bytes 2 (profile two) ++ be_bytes 2 (ext_words (len (block two es))) ++
         block two es ++ ext_pad (len (block two es))
  end.

Definition first_byte (a : rtp) : Z :=
  128 + (if 0 <? padding a then 32 else 0) + match exts a with [] => 0 | _ => 16 end + len (csrcs a).

Definition second_byte (a : rtp) : Z := (if marker a then 128 else 0) + payload_type a.

Definition fixed (a : rtp) : list Z :=
  [first_byte a; second_byte a] ++ be_bytes 2 (sequence_number a) ++
  be_bytes 4 (timestamp a) ++ be_bytes 4 (ssrc a).

Definition csrc_bytes (l : list Z) : list Z := mjoin (be_bytes 4 <$> l).

Definition header (a : rtp) : list Z :=
  fixed a ++ csrc_bytes (csrcs a) ++ ext_bytes (two_byte a) (exts a).

Definition padding_bytes (n : Z) : list Z :=
  if n =? 0 then [] else replicate (Z.to_nat (n - 1)) 0 ++ [n].

Definition rtp_wire (a : rtp) : list Z := header a ++ payload a ++ padding_bytes (padding a).

(** The position of the first extension. *)
Definition ext_start (a : rtp) : Z := 12 + 4 * len (csrcs a) + 4.

Fixpoint entries_of (two : bool) (off : Z) (es : list (Z * list Z))
    : list RtpPacket.ExtensionInfo :=
  match es with
  | [] => []
  | (i, d) :: rest =>
      RtpPacket.Info i (len d) (off + header_length two) ::
      entries_of two (off + header_length two + len d) rest
  end.

Definition ext_ok (two : bool) (e : Z * list Z) : Prop :=
  1 <= e.1 <= (if two then 255 else 14) /\ 1 <= len e.2 <= (if two then 255 else 16) /\
  bytes_ok e.2.

Record rtp_ok (a : rtp) : Prop := {
  ok_pt : 0 <= payload_type a < 128;
  ok_seq : in_u 16 (sequence_number a);
  ok_ts : in_u 32 (timestamp a);
  ok_ssrc : in_u 32 (ssrc a);
  ok_csrcs : len (csrcs a) <= 15;
  ok_csrc : Forall (in_u 32) (csrcs a);
  ok_exts : Forall (ext_ok (two_byte a)) (exts a);
  ok_ids : NoDup (exts a).*1;
  ok_payload : bytes_ok (payload a);
  ok_padding : 0 <= padding a <= 255
}.

(** ** Representation *)

(** The members that describe the packet.  [slack] is the part of the padding of the extension
    block that the packet counts as used: none in a packet that was built, up to three bytes in
    one that was parsed. *)
Record fields_ok (p : RtpPacket.t) (a : rtp) (slack : Z) : Prop := {
  f_marker : RtpPacket.marker_ p = marker a;
  f_pt : RtpPacket.payload_type_ p = payload_type a;
  f_seq : RtpPacket.sequence_number_ p = sequence_number a;
  f_ts : RtpPacket.timestamp_ p = timestamp a;
  f_ssrc : RtpPacket.ssrc_ p = ssrc a;
  f_offset : RtpPacket.payload_offset_ p = len (header a);
  f_payload : RtpPacket.payload_size_ p = len (payload a);
  f_padding : RtpPacket.padding_size_ p = padding a;
  f_entries : RtpPacket.extension_entries_ p = entries_of (two_byte a) (ext_start a) (exts a);
  f_ext_size : RtpPacket.extensions_size_ p = len (block (two_byte a) (exts a)) + slack;
  f_slack : 0 <= slack <= len (ext_pad (len (block (two_byte a) (exts a))))
}.

(** The buffer holds the bytes [w]; more memory may follow. *)
Record holds (p : RtpPacket.t) (w : list Z) : Prop := {
  h_mem : exists rest, RtpPacket.data p = w ++ rest;
  h_size : Value.size (RtpPacket.buffer_ p) = len w;
  h_bytes : bytes_ok (RtpPacket.data p);
  h_cap : RtpPacket.capacity p <= 65535
}.

Record repr (p : RtpPacket.t) (a : rtp) (slack : Z) : Prop := {
  r_ok : rtp_ok a;
  r_fields : fields_ok p a slack;
  r_holds : holds p (rtp_wire a)
}.

(** A packet that was built by the setters. *)
Definition built (p : RtpPacket.t) (a : rtp) : Prop := repr p a 0.

(** What building never changes. *)
Definition kept (p p' : RtpPacket.t) : Prop :=
  RtpPacket.capacity p' = RtpPacket.capacity p /\
  RtpPacket.extensions_ p' = RtpPacket.extensions_ p.

(** The operation returns [r] and leaves the packet as the abstract packet [a]. *)
Definition does {A} (m : RtpPacket.P A) (p : RtpPacket.t) (r : A) (a : rtp) (slack : Z) : Prop :=
  exists p', m p = Some (r, p') /\ repr p' a slack /\ kept p p'.

(** ** Lengths *)

Lemma len_ext_header two i n : len (ext_header two i n) = header_length two.
Proof. by destruct two. Qed.

Lemma len_item two e : len (item two e) = header_length two + len e.2.
Proof. unfold item. by rewrite len_app, len_ext_header. Qed.

Lemma block_app two es fs : block two (es ++ fs) = block two es ++ block two fs.
Proof. unfold block. by rewrite fmap_app, join_app. Qed.

Lemma block_cons two e es : block two (e :: es) = item two e ++ block two es.
Proof. done. Qed.

Lemma block_one two e : block two [e] = item two e.
Proof. unfold block. cbn. by rewrite app_nil_r. Qed.

Lemma len_fixed a : len (fixed a) = 12.
Proof. done. Qed.

Lemma len_csrc_bytes l : len (csrc_bytes l) = 4 * len l.
Proof.
  unfold csrc_bytes. induction l as [|c l IH]; [done|].
  rewrite mjoin_fmap_cons. len_simpl. lia.
Qed.
#[export] Hint Rewrite len_ext_header len_item len_fixed len_csrc_bytes : len.

Lemma ext_words_spec n : 0 <= n -> n <= 4 * ext_words n <= n + 3.
Proof. intros. unfold ext_words. Z.to_euclidean_division_equations; lia. Qed.

Lemma len_ext_pad n : 0 <= n -> len (ext_pad n) = 4 * ext_words n - n.
Proof. intros. unfold ext_pad. len_simpl. pose proof (ext_words_spec n). lia. Qed.

Lemma len_ext_bytes two es :
  len (ext_bytes two es) = match es with [] => 0 | _ => 4 + 4 * ext_words (len (block two es)) end.
Proof.
  unfold ext_bytes. destruct es; [done|]. len_simpl.
  rewrite len_ext_pad by apply len_nonneg. lia.
Qed.

Lemma len_padding_bytes n : 0 <= n -> len (padding_bytes n) = n.
Proof.
  intros. unfold padding_bytes. destruct (Z.eqb_spec n 0); [by subst|].
  len_simpl. lia.
Qed.

Lemma len_header a :
  len (header a) = 12 + 4 * len (csrcs a) + len (ext_bytes (two_byte a) (exts a)).
Proof. unfold header. len_simpl. lia. Qed.

Lemma len_rtp_wire a : rtp_ok a ->
  len (rtp_wire a) = len (header a) + len (payload a) + padding a.
Proof. intros [? ? ? ? ? ? ? ? ? ?]. unfold rtp_wire. len_simpl. rewrite len_padding_bytes; lia. Qed.

Lemma header_pos a : 12 <= len (header a).
Proof.
  rewrite len_header. pose proof (len_nonneg (csrcs a)).
  pose proof (len_nonneg (ext_bytes (two_byte a) (exts a))). lia.
Qed.

Lemma entries_of_app two off es fs :
  entries_of two off (es ++ fs) = entries_of two off es ++ entries_of two (off + len (block two es)) fs.
Proof.
  revert off. induction es as [|[i d] es IH]; intros off; cbn [app entries_of].
  - change (len (block two [])) with 0. by rewrite Z.add_0_r.
  - rewrite IH, block_cons. len_simpl. cbn [snd]. do 2 f_equal. f_equal. lia.
Qed.

Lemma len_entries_of two off es : len (entries_of two off es) = len es.
Proof.
  revert off. induction es as [|[i d] es IH]; intros off; cbn [entries_of]; [done|].
  by rewrite !len_cons, IH.
Qed.

(** ** Bytes of the wire are bytes *)

Lemma ext_header_ok two i (d : list Z) :
  ext_ok two (i, d) -> bytes_ok (ext_header two i (len d)).
Proof.
  intros (H1 & H2 & _). cbn [fst snd] in *. unfold ext_header.
  destruct two; repeat constructor; unfold byte_ok; lia.
Qed.

Lemma block_ok two es : Forall (ext_ok two) es -> bytes_ok (block two es).
Proof.
  induction 1 as [|[i d] es He _ IH]; [constructor|]. rewrite block_cons. unfold item.
  apply bytes_ok_app. split; [|done]. apply bytes_ok_app. cbn [fst snd].
  split; [by apply ext_header_ok|]. apply He.
Qed.

Lemma ext_pad_ok n : bytes_ok (ext_pad n).
Proof. apply Forall_replicate. unfold byte_ok. lia. Qed.

Lemma csrc_bytes_ok l : bytes_ok (csrc_bytes l).
Proof.
  induction l as [|c l IH]; [constructor|]. unfold csrc_bytes. rewrite mjoin_fmap_cons.
  apply bytes_ok_app. split; [apply be_bytes_ok|done].
Qed.

Lemma first_byte_ok a : rtp_ok a -> byte_ok (first_byte a).
Proof.
  intros [? ? ? ? ? ? ? ? ? ?]. unfold first_byte, byte_ok. pose proof (len_nonneg (csrcs a)).
  destruct (0 <? padding a), (exts a); lia.
Qed.

Lemma second_byte_ok a : rtp_ok a -> byte_ok (second_byte a).
Proof. intros [? ? ? ? ? ? ? ? ? ?]. unfold second_byte, byte_ok. destruct (marker a); lia. Qed.

Lemma rtp_wire_ok a : rtp_ok a -> bytes_ok (rtp_wire a).
Proof.
  intros Ha. pose proof (first_byte_ok a Ha). pose proof (second_byte_ok a Ha).
  destruct Ha. unfold rtp_wire, header, fixed, ext_bytes, padding_bytes. rewrite !bytes_ok_app.
  pose proof (be_bytes_ok 2 (sequence_number a)). pose proof (be_bytes_ok 4 (timestamp a)).
  pose proof (be_bytes_ok 4 (ssrc a)). pose proof (csrc_bytes_ok (csrcs a)).
  assert (bytes_ok [first_byte a; second_byte a]) by (constructor; [done|by constructor; [|constructor]]).
  assert (bytes_ok match exts a with
    | [] => []
    | _ => be_bytes 2 (profile (two_byte a)) ++
           be_bytes 2 (ext_words (len (block (two_byte a) (exts a)))) ++
           block (two_byte a) (exts a) ++ ext_pad (len (block (two_byte a) (exts a)))
    end).
  { destruct (exts a) eqn:E; [constructor|]. rewrite <- E in *. rewrite !bytes_ok_app.
    repeat split; try apply be_bytes_ok; [by apply block_ok|apply ext_pad_ok]. }
  assert (bytes_ok (if padding a =? 0 then [] else replicate (Z.to_nat (padding a - 1)) 0 ++ [padding a])).
  { destruct (padding a =? 0); [constructor|]. rewrite bytes_ok_app.
    split; [apply Forall_replicate; unfold byte_ok; lia|].
    constructor; [unfold byte_ok; lia|constructor]. }
  done.
Qed.

(** ** Writing into the buffer of a packet *)

(** Replacing a piece of a list. *)
Lemma splice_app (pre new old post : list Z) pos :
  pos = len pre -> len old = len new -> splice pos new (pre ++ old ++ post) = pre ++ new ++ post.
Proof.
  intros -> Hl. unfold splice, len in *. rewrite Nat2Z.id, take_app_length. do 2 f_equal.
  rewrite app_assoc. apply drop_app_length'. rewrite length_app. lia.
Qed.

Lemma split_len (l : list Z) n : 0 <= n <= len l -> exists a b, l = a ++ b /\ len a = n.
Proof.
  intros H. exists (take (Z.to_nat n) l), (drop (Z.to_nat n) l). split; [by rewrite take_drop|].
  unfold len in *. rewrite length_take. lia.
Qed.

(** A buffer only this packet points to. *)
Definition own (pf m : list Z) (sz : Z) : Value.t := Value.Make pf m sz false.

Lemma data_own g pf m sz : m <> [] -> Value.data g (own pf m sz) = Some (own pf m sz).
Proof.
  intros Hm. unfold Value.data, Value.is_null, own, Value.unshare, Value.capacity.
  cbn [Value.prefix Value.mem Value.shared]. rewrite Z.leb_refl.
  destruct pf, m; done.
Qed.

(** [data()] on a buffer that may be shared: the bytes in use are kept. *)
Lemma data_shared g (b : Value.t) w rest :
  Value.mem b = w ++ rest -> Value.size b = len w -> w <> [] -> bytes_ok g ->
  bytes_ok (Value.mem b) ->
  exists pf rest', Value.data g b = Some (own pf (w ++ rest') (len w)) /\
    len rest' = len rest /\ bytes_ok rest'.
Proof.
  intros Hm Hs Hw Hg Hb. assert (Hn : Value.is_null b = false).
  { unfold Value.is_null. rewrite Hm. destruct (Value.prefix b), w; done. }
  assert (Hlw : 0 < len w) by (destruct w; [done|rewrite len_cons; pose proof (len_nonneg w); lia]).
  rewrite Hm in Hb. apply bytes_ok_app in Hb as [Hbw Hbr]. pose proof (len_nonneg rest).
  unfold Value.data. rewrite Hn. unfold Value.unshare. rewrite Z.leb_refl.
  destruct (Value.shared b) eqn:Esh; cbn [negb andb].
  - assert (Hc : Value.contents b = w).
    { unfold Value.contents, len in *. rewrite Hm, Hs, Nat2Z.id. apply take_app_length. }
    assert (Hcap : Value.capacity b = len w + len rest)
      by (unfold Value.capacity; rewrite Hm, len_app; done).
    rewrite Hc, Hcap, Hs. destruct (Z.eqb_spec (Z.max (len w) (len w + len rest)) 0); [lia|].
    unfold Value.realloc. rewrite Z.max_r by lia.
    exists [], (drop (Z.to_nat (len w)) (fresh_mem g (len w + len rest))).
    split; [done|]. split; [|by apply Forall_drop, bytes_ok_fresh_mem].
    pose proof (len_fresh_mem g (len w + len rest)). unfold len in *. rewrite length_drop. lia.
  - exists (Value.prefix b), rest. split; [|done]. destruct b. cbn in *. subst. done.
Qed.

Section Writes.
Context (g : list Z).

(** The first write of an operation works on the packet's own copy. *)
Lemma on_data_own m p b :
  Value.data g (RtpPacket.buffer_ p) = Some b -> Value.data g b = Some b ->
  RtpPacket.on_data g m p = RtpPacket.on_data g m (RtpPacket.set_buffer b p).
Proof using.
  intros H1 H2. unfold RtpPacket.on_data. cbn [RtpPacket.buffer_ RtpPacket.set_buffer].
  by rewrite H1, H2.
Qed.

(** A write that replaces [old] by [bs]. *)
Lemma on_data_write w p pf m sz pos pre old post bs :
  RtpPacket.buffer_ p = own pf m sz -> stores w pos bs -> m = pre ++ old ++ post ->
  pos = len pre -> len old = len bs -> m <> [] ->
  RtpPacket.on_data g w p =
  Some (tt, RtpPacket.set_buffer (own pf (pre ++ bs ++ post) sz) p).
Proof using.
  intros Hb Hw Hm Hpos Hl Hne. unfold RtpPacket.on_data. rewrite Hb, data_own by done.
  pose proof (len_nonneg pre). pose proof (len_nonneg post).
  cbn [own Value.mem]. rewrite Hw; [|lia|cbn; rewrite Hm; len_simpl; lia].
  unfold put. cbn [packet]. rewrite Hm, splice_app by done. done.
Qed.

Lemma buffer_SetSize_own p pf m sz n :
  RtpPacket.buffer_ p = own pf m sz -> m <> [] -> n <= len m ->
  RtpPacket.buffer_SetSize g n p = Some (tt, RtpPacket.set_buffer (own pf m n) p).
Proof using.
  intros Hb Hne Hn. unfold RtpPacket.buffer_SetSize. rewrite Hb. unfold Value.SetSize.
  assert (Hnn : Value.is_null (own pf m sz) = false) by (destruct pf, m; done).
  rewrite Hnn. cbn [own Value.size]. destruct (n <=? sz); [done|].
  unfold Value.unshare, Value.capacity. cbn [own Value.shared Value.mem negb andb].
  rewrite (proj2 (Z.leb_le (Z.max (len m) n) (len m))) by lia. done.
Qed.

Lemma read_own p pf m sz i pre b post :
  RtpPacket.buffer_ p = own pf m sz -> m = pre ++ b :: post -> i = len pre ->
  RtpPacket.read i p = Some (b, p).
Proof using.
  intros Hb -> ->. unfold RtpPacket.read, RtpPacket.data. rewrite Hb. cbn [own Value.mem].
  unfold byte_at. rewrite ptr_add_app_ge by lia. by rewrite Z.sub_diag.
Qed.
End Writes.

(** The packet's own copy of a buffer that holds [w]. *)
Lemma holds_own g p w :
  holds p w -> w <> [] -> bytes_ok g ->
  exists pf rest, Value.data g (RtpPacket.buffer_ p) = Some (own pf (w ++ rest) (len w)) /\
    len w + len rest = RtpPacket.capacity p /\ bytes_ok w /\ bytes_ok rest /\
    Value.data g (own pf (w ++ rest) (len w)) = Some (own pf (w ++ rest) (len w)).
Proof.
  intros Hr Hw Hg. destruct (h_mem p w Hr) as [rest Hm].
  destruct (data_shared g (RtpPacket.buffer_ p) w rest) as (pf & rest' & Hd & Hl & Hb);
    [done|apply Hr|done|done|apply Hr|].
  exists pf, rest'. split; [done|]. split; [|split; [|split; [done|]]].
  - unfold RtpPacket.capacity, Value.capacity. fold (RtpPacket.data p). rewrite Hm, len_app. lia.
  - pose proof (h_bytes p w Hr) as Hbm. rewrite Hm in Hbm. by apply bytes_ok_app in Hbm as [].
  - apply data_own. by destruct w.
Qed.

Lemma holds_intro p pf w rest :
  RtpPacket.buffer_ p = own pf (w ++ rest) (len w) -> bytes_ok w -> bytes_ok rest ->
  len w + len rest <= 65535 -> holds p w.
Proof.
  intros Hb H1 H2 H3. constructor; unfold RtpPacket.capacity, Value.capacity, RtpPacket.data;
    rewrite Hb; cbn [own Value.mem Value.size].
  - by eexists.
  - done.
  - by apply bytes_ok_app.
  - by rewrite len_app.
Qed.

(** A write that turns the bytes [w] into [w'] of the same length. *)
Lemma holds_write g p w w' m pos pre old post bs :
  bytes_ok g -> holds p w -> w <> [] -> stores m pos bs -> w = pre ++ old ++ post ->
  w' = pre ++ bs ++ post -> pos = len pre -> len old = len bs -> bytes_ok bs ->
  exists b, RtpPacket.on_data g m p = Some (tt, RtpPacket.set_buffer b p) /\
    holds (RtpPacket.set_buffer b p) w' /\ Value.capacity b = RtpPacket.capacity p.
Proof.
  intros Hg Hh Hw Hs Ew Ew' Hpos Hl Hbs.
  destruct (holds_own g p w Hh Hw Hg) as (pf & rest & Hd & Hcap & Hbw & Hbr & Hd').
  assert (Hlen : len w' = len w) by (subst; len_simpl; lia).
  eexists. split.
  - rewrite (on_data_own g m p _ Hd Hd').
    rewrite (on_data_write g m _ pf (w ++ rest) (len w) pos pre old (post ++ rest) bs); try done.
    + by rewrite Ew, <- !app_assoc.
    + by destruct w.
  - replace (pre ++ bs ++ post ++ rest) with (w' ++ rest) by (by rewrite Ew', <- !app_assoc).
    split; [|unfold Value.capacity; cbn [own Value.mem]; rewrite len_app; lia].
    apply (holds_intro _ pf w' rest); cbn [RtpPacket.buffer_ RtpPacket.set_buffer]; try done.
    + by rewrite Hlen.
    + rewrite Ew' in *. rewrite Ew in Hbw. rewrite !bytes_ok_app in *. tauto.
    + rewrite Hlen, Hcap. apply Hh.
Qed.

(** The buffer is the same, so it holds the same. *)
Lemma holds_same p q w :
  RtpPacket.buffer_ q = RtpPacket.buffer_ p -> holds p w -> holds q w.
Proof.
  intros E [H1 H2 H3 H4]. constructor;
    unfold RtpPacket.capacity, RtpPacket.data in *; by rewrite E.
Qed.

Lemma read_holds p w i b pre post :
  holds p w -> w = pre ++ b :: post -> i = len pre -> RtpPacket.read i p = Some (b, p).
Proof.
  intros Hh -> ->. destruct (h_mem p _ Hh) as [rest Hm]. unfold RtpPacket.read. rewrite Hm.
  unfold byte_at. rewrite <- app_assoc, ptr_add_app_ge by lia. by rewrite Z.sub_diag.
Qed.
