(* ===== verification/RtpBuild.v ===== *)
(** * Building RTP packets

    Every operation that builds a packet does on the members and the buffer what the same step
    does on the abstract packet: it never fails a check or leaves the buffer, it reports failure
    exactly when the abstract step is not possible, and it leaves the packet as it was then. *)

From S2P Require Import Prelude Buffer ByteIo CowBuffer RtpExtensionMap HeaderExtensions.
From S2P Require Import RtpPacket RtpSpec.
Import ByteReader ByteWriter.

(** ** Steps of a computation on a packet *)

Lemma dcheck_pass {S} b (s : S) : b = true -> dcheck b s = Some (tt, s).
Proof. by intros ->. Qed.

Lemma P_bind {A B} (m : RtpPacket.P A) (k : A -> RtpPacket.P B) p a p' :
  m p = Some (a, p') -> @mbind RtpPacket.P (ST_bind RtpPacket.t) A B k m p = k a p'.
Proof. apply ST_bind_ret. Qed.

(** The next action of the goal's computation is known to return. *)
Ltac step_with H := try unfold does; erewrite P_bind; [|exact H].

Ltac step_get := try unfold does; erewrite P_bind; [|reflexivity].

Ltac step_check :=
  try unfold does; erewrite P_bind;
    [|apply dcheck_pass; first [apply Z.leb_le | apply Z.eqb_eq | apply Z.ltb_lt]; try lia].

Lemma P_then_ret {A} (m : RtpPacket.P unit) (r : A) p (Q : RtpPacket.t -> Prop) :
  (exists p', m p = Some (tt, p') /\ Q p') ->
  exists p', @mbind RtpPacket.P (ST_bind RtpPacket.t) unit A (fun _ => mret r) m p = Some (r, p') /\ Q p'.
Proof. intros (p' & R & H). exists p'. step_with R. done. Qed.

(** ** Bits of the first two bytes *)

Definition byte0 (padded extended : bool) (cc : Z) : Z :=
  128 + (if padded then 32 else 0) + (if extended then 16 else 0) + cc.

Definition has_exts (a : rtp) : bool := match exts a with [] => false | _ => true end.

Lemma first_byte_eq a : first_byte a = byte0 (0 <? padding a) (has_exts a) (len (csrcs a)).
Proof. unfold first_byte, byte0, has_exts. by destruct (exts a). Qed.

Lemma byte0_bits (pd ex : bool) cc :
  0 <= cc <= 15 ->
  Z.land (byte0 pd ex cc) 0x0F = cc /\
  Z.lor (byte0 pd ex cc) 0x10 = byte0 pd true cc /\
  Z.lor (byte0 pd ex cc) 0x20 = byte0 true ex cc /\
  Z.land (byte0 pd ex cc) (Z.lnot 0x20) = byte0 false ex cc /\
  Z.land (byte0 pd ex cc) 0xF0 = byte0 pd ex 0 /\
  Z.lor (byte0 pd ex 0) cc = byte0 pd ex cc /\
  Z.shiftr (byte0 pd ex cc) 6 = 2 /\
  negb (Z.land (byte0 pd ex cc) 0x20 =? 0) = pd /\
  negb (Z.land (byte0 pd ex cc) 0x10 =? 0) = ex /\
  byte_ok (byte0 pd ex cc).
Proof.
  intros Hc. assert (Hb : byte_ok cc) by (unfold byte_ok; lia). revert Hc. revert cc Hb.
  destruct pd, ex; by_bytes.
Qed.

Definition byte1 (m : bool) (pt : Z) : Z := (if m then 128 else 0) + pt.

Lemma byte1_bits (m : bool) pt :
  0 <= pt <= 127 ->
  Z.lor (byte1 m pt) 0x80 = byte1 true pt /\
  Z.land (byte1 m pt) 0x7F = pt /\
  Z.land (byte1 m pt) 0x80 = byte1 m 0 /\
  Z.lor (byte1 m 0) pt = byte1 m pt /\
  negb (Z.land (byte1 m pt) 0x80 =? 0) = m /\
  byte_ok (byte1 m pt).
Proof.
  intros Hc. assert (Hb : byte_ok pt) by (unfold byte_ok; lia). revert Hc. revert pt Hb.
  destruct m; by_bytes.
Qed.

(** ** Updates of the abstract packet *)

Definition with_marker (v : bool) (a : rtp) : rtp :=
  Rtp v (payload_type a) (sequence_number a) (timestamp a) (ssrc a) (csrcs a) (two_byte a)
    (exts a) (payload a) (padding a).
Definition with_payload_type (v : Z) (a : rtp) : rtp :=
  Rtp (marker a) v (sequence_number a) (timestamp a) (ssrc a) (csrcs a) (two_byte a) (exts a)
    (payload a) (padding a).
Definition with_sequence_number (v : Z) (a : rtp) : rtp :=
  Rtp (marker a) (payload_type a) v (timestamp a) (ssrc a) (csrcs a) (two_byte a) (exts a)
    (payload a) (padding a).
Definition with_timestamp (v : Z) (a : rtp) : rtp :=
  Rtp (marker a) (payload_type a) (sequence_number a) v (ssrc a) (csrcs a) (two_byte a) (exts a)
    (payload a) (padding a).
Definition with_ssrc (v : Z) (a : rtp) : rtp :=
  Rtp (marker a) (payload_type a) (sequence_number a) (timestamp a) v (csrcs a) (two_byte a)
    (exts a) (payload a) (padding a).
Definition with_csrcs (v : list Z) (a : rtp) : rtp :=
  Rtp (marker a) (payload_type a) (sequence_number a) (timestamp a) (ssrc a) v (two_byte a)
    (exts a) (payload a) (padding a).
Definition with_exts (two : bool) (es : list (Z * list Z)) (a : rtp) : rtp :=
  Rtp (marker a) (payload_type a) (sequence_number a) (timestamp a) (ssrc a) (csrcs a) two es
    (payload a) (padding a).
Definition with_payload (v : list Z) (a : rtp) : rtp :=
  Rtp (marker a) (payload_type a) (sequence_number a) (timestamp a) (ssrc a) (csrcs a)
    (two_byte a) (exts a) v (padding a).
Definition with_padding (v : Z) (a : rtp) : rtp :=
  Rtp (marker a) (payload_type a) (sequence_number a) (timestamp a) (ssrc a) (csrcs a)
    (two_byte a) (exts a) (payload a) v.

(** The bytes behind the fixed header. *)
Definition body (a : rtp) : list Z :=
  csrc_bytes (csrcs a) ++ ext_bytes (two_byte a) (exts a) ++ payload a ++ padding_bytes (padding a).

Lemma rtp_wire_fixed a :
  rtp_wire a = [first_byte a; second_byte a] ++ be_bytes 2 (sequence_number a) ++
    be_bytes 4 (timestamp a) ++ be_bytes 4 (ssrc a) ++ body a.
Proof. unfold rtp_wire, header, fixed, body. by rewrite <- !app_assoc. Qed.

Lemma wire_not_nil a : rtp_wire a <> [].
Proof. by rewrite rtp_wire_fixed. Qed.

(** ** The setters of the fixed header *)

(** A setter that changes one member and the bytes of one field. *)
Lemma field_write g p q a a' s m pos pre old post bs :
  bytes_ok g -> repr p a s -> RtpPacket.buffer_ q = RtpPacket.buffer_ p ->
  stores m pos bs -> rtp_wire a = pre ++ old ++ post -> rtp_wire a' = pre ++ bs ++ post ->
  pos = len pre -> len old = len bs -> bytes_ok bs -> rtp_ok a' -> fields_ok q a' s ->
  does (RtpPacket.on_data g m) q tt a' s.
Proof.
  intros Hg [Hok Hf Hh] Hq Hs E E' Hpos Hl Hb Hok' Hf'.
  destruct (holds_write g q (rtp_wire a) (rtp_wire a') m pos pre old post bs) as (b & Hr & Hh' & Hc');
    try done; [by eapply holds_same|].
  eexists. split; [exact Hr|]. split; [|done]. constructor; [done| |done]. destruct Hf'. by constructor.
Qed.

Section Setters.
Context (g : list Z) (Hg : bytes_ok g).

Lemma read_second p a s : repr p a s -> RtpPacket.read 1 p = Some (byte1 (marker a) (payload_type a), p).
Proof using.
  intros Hr. eapply (read_holds p (rtp_wire a) 1 _ [first_byte a]); [apply Hr| |done].
  by rewrite rtp_wire_fixed.
Qed.

Lemma read_first p a s :
  repr p a s -> RtpPacket.read 0 p = Some (byte0 (0 <? padding a) (has_exts a) (len (csrcs a)), p).
Proof using.
  intros Hr. eapply (read_holds p (rtp_wire a) 0 _ []); [apply Hr| |done].
  rewrite rtp_wire_fixed, <- first_byte_eq. done.
Qed.

Lemma repr_read p q a s i x :
  repr p a s -> RtpPacket.buffer_ q = RtpPacket.buffer_ p -> RtpPacket.read i p = Some (x, p) ->
  RtpPacket.read i q = Some (x, q).
Proof using.
  intros _ Hq. unfold RtpPacket.read, RtpPacket.data. rewrite Hq.
  destruct (byte_at _ _); [|done]. by intros [= ->].
Qed.

(** Writing the second byte. *)
Lemma write_second p q a a' s v :
  repr p a s -> RtpPacket.buffer_ q = RtpPacket.buffer_ p -> v = second_byte a' ->
  rtp_wire a' = [first_byte a] ++ [second_byte a'] ++ drop 2 (rtp_wire a) ->
  rtp_ok a' -> fields_ok q a' s ->
  does (RtpPacket.WriteAt g 1 v) q tt a' s.
Proof using Hg.
  intros Hr Hq -> Hw Hok Hf. unfold RtpPacket.WriteAt.
  pose proof (second_byte_ok a' Hok) as Hb.
  eapply (field_write g p q a a' s _ 1 [first_byte a] [second_byte a]); try done.
  - by apply stores_byte.
  - by constructor.
Qed.

Lemma SetMarker_ok b p a s :
  repr p a s -> does (RtpPacket.SetMarker g b) p tt (with_marker b a) s.
Proof using Hg.
  intros Hr. pose proof (r_ok p a s Hr) as Hok. unfold RtpPacket.SetMarker.
  set (q := RtpPacket.set_marker b p).
  assert (Hrd : RtpPacket.read 1 q = Some (byte1 (marker a) (payload_type a), q))
    by (eapply repr_read; [exact Hr|done|by apply (read_second p a s)]).
  step_get. step_with Hrd.
  destruct (byte1_bits (marker a) (payload_type a)) as (B1 & B2 & _); [destruct Hok; lia|].
  assert (Hf : fields_ok q (with_marker b a) s) by (destruct (r_fields p a s Hr); by constructor).
  assert (Hok' : rtp_ok (with_marker b a)) by (destruct Hok; by constructor).
  destruct b; eapply (write_second p q a _ s); try done; by rewrite rtp_wire_fixed.
Qed.

Lemma SetPayloadType_ok v p a s :
  repr p a s -> 0 <= v <= 127 ->
  does (RtpPacket.SetPayloadType g v) p tt (with_payload_type v a) s.
Proof using Hg.
  intros Hr Hv. pose proof (r_ok p a s Hr) as Hok. unfold RtpPacket.SetPayloadType.
  step_check.
  set (q := RtpPacket.set_payload_type v p).
  assert (Hrd : RtpPacket.read 1 q = Some (byte1 (marker a) (payload_type a), q))
    by (eapply repr_read; [exact Hr|done|by apply (read_second p a s)]).
  step_get. step_with Hrd.
  destruct (byte1_bits (marker a) (payload_type a)) as (_ & _ & B3 & _); [destruct Hok; lia|].
  destruct (byte1_bits (marker a) v) as (_ & _ & _ & B4 & _); [lia|].
  eapply (write_second p q a (with_payload_type v a) s); try done.
  - by rewrite B3, B4.
  - destruct Hok. constructor; try done. cbn. lia.
  - destruct (r_fields p a s Hr). by constructor.
Qed.

Lemma SetSequenceNumber_ok v p a s :
  repr p a s -> in_u 16 v ->
  does (RtpPacket.SetSequenceNumber g v) p tt (with_sequence_number v a) s.
Proof using Hg.
  intros Hr Hv. pose proof (r_ok p a s Hr) as Hok. unfold RtpPacket.SetSequenceNumber. step_get.
  eapply (field_write g p (RtpPacket.set_sequence_number v p) a (with_sequence_number v a) s _ 2 [first_byte a; second_byte a]
    (be_bytes 2 (sequence_number a)) _ (be_bytes 2 v)); try done.
  - apply stores_WriteBigEndian.
  - apply be_bytes_ok.
  - destruct Hok. by constructor.
  - destruct (r_fields p a s Hr). by constructor.
Qed.

Lemma SetTimestamp_ok v p a s :
  repr p a s -> in_u 32 v ->
  does (RtpPacket.SetTimestamp g v) p tt (with_timestamp v a) s.
Proof using Hg.
  intros Hr Hv. pose proof (r_ok p a s Hr) as Hok. unfold RtpPacket.SetTimestamp. step_get.
  eapply (field_write g p (RtpPacket.set_timestamp v p) a (with_timestamp v a) s _ 4
    ([first_byte a; second_byte a] ++ be_bytes 2 (sequence_number a))
    (be_bytes 4 (timestamp a)) _ (be_bytes 4 v)); try done.
  - apply stores_WriteBigEndian.
  - apply be_bytes_ok.
  - destruct Hok. by constructor.
  - destruct (r_fields p a s Hr). by constructor.
Qed.

Lemma SetSsrc_ok v p a s :
  repr p a s -> in_u 32 v ->
  does (RtpPacket.SetSsrc g v) p tt (with_ssrc v a) s.
Proof using Hg.
  intros Hr Hv. pose proof (r_ok p a s Hr) as Hok. unfold RtpPacket.SetSsrc. step_get.
  eapply (field_write g p (RtpPacket.set_ssrc v p) a (with_ssrc v a) s _ 8
    ([first_byte a; second_byte a] ++ be_bytes 2 (sequence_number a) ++ be_bytes 4 (timestamp a))
    (be_bytes 4 (ssrc a)) _ (be_bytes 4 v)); try done.
  - apply stores_WriteBigEndian.
  - apply be_bytes_ok.
  - destruct Hok. by constructor.
  - destruct (r_fields p a s Hr). by constructor.
Qed.
End Setters.

(** ** Clear, sizes and CSRCs *)

Lemma len_0_nil {A} (l : list A) : len l = 0 -> l = [].
Proof. destruct l; [done|]. rewrite len_cons. pose proof (len_nonneg l). lia. Qed.

Lemma not_nil_len (l : list Z) : 0 < len l -> l <> [].
Proof. intros H E. rewrite E in H. change (len []) with 0 in H. lia. Qed.

Section Sizes.
Context (g : list Z) (Hg : bytes_ok g).

(** What [SetSize] does to a buffer that holds [w]: the bytes up to the new size stay. *)
Lemma SetSize_holds p w n :
  holds p w -> 0 < n <= RtpPacket.capacity p -> w <> [] ->
  exists b x, RtpPacket.buffer_SetSize g n p = Some (tt, RtpPacket.set_buffer b p) /\
    holds (RtpPacket.set_buffer b p) (take (Z.to_nat n) w ++ x) /\
    len (take (Z.to_nat n) w ++ x) = n /\ RtpPacket.capacity (RtpPacket.set_buffer b p) = RtpPacket.capacity p.
Proof using Hg.
  intros Hh Hn Hw. destruct (h_mem p w Hh) as [rest Hm].
  pose proof (h_bytes p w Hh) as Hb. pose proof (h_size p w Hh) as Hsz. pose proof (h_cap p w Hh) as Hcap.
  assert (Hc : RtpPacket.capacity p = len w + len rest)
    by (unfold RtpPacket.capacity, Value.capacity; fold (RtpPacket.data p); by rewrite Hm, len_app).
  pose proof (len_nonneg rest) as Hlr.
  assert (Hnn : Value.is_null (RtpPacket.buffer_ p) = false).
  { unfold Value.is_null, RtpPacket.data in *. rewrite Hm. destruct (Value.prefix _), w; done. }
  unfold RtpPacket.buffer_SetSize, Value.SetSize. rewrite Hnn, Hsz.
  destruct (Z.leb_spec n (len w)) as [Hle|Hgt].
  - exists (Value.with_size (RtpPacket.buffer_ p) n), [].
    assert (Hl : len (take (Z.to_nat n) w) = n) by (unfold len in *; rewrite length_take; lia).
    split; [done|]. rewrite app_nil_r. split; [|done]. constructor; try done.
    exists (drop (Z.to_nat n) w ++ rest).
    change (RtpPacket.data (RtpPacket.set_buffer _ p)) with (RtpPacket.data p).
    by rewrite Hm, app_assoc, take_drop.
  - assert (Ht : take (Z.to_nat n) w = w) by (apply firstn_all2; unfold len in Hgt; lia).
    rewrite Ht. unfold Value.unshare. fold (RtpPacket.capacity p).
    rewrite (Z.max_l (RtpPacket.capacity p) n) by lia. rewrite Z.leb_refl.
    rewrite Hm in Hb. apply bytes_ok_app in Hb as [Hbw Hbr].
    destruct (Value.shared (RtpPacket.buffer_ p)); cbn [negb andb].
    + assert (Hcc : Value.contents (RtpPacket.buffer_ p) = w).
      { unfold Value.contents, RtpPacket.data, len in *. rewrite Hm, Hsz, Nat2Z.id. apply take_app_length. }
      rewrite Hcc, Hsz. destruct (Z.eqb_spec (Z.max (len w) (RtpPacket.capacity p)) 0); [lia|].
      cbn [mbind option_bind]. unfold Value.realloc, Value.with_size. rewrite Z.max_r by lia.
      cbn [Value.prefix Value.mem Value.shared].
      set (rest' := drop (Z.to_nat (len w)) (fresh_mem g (RtpPacket.capacity p))).
      assert (Hlr' : len rest' = len rest).
      { pose proof (len_fresh_mem g (RtpPacket.capacity p) ltac:(lia)).
        unfold rest', len in *. rewrite length_drop. lia. }
      assert (Hbr' : bytes_ok rest') by (by apply Forall_drop, bytes_ok_fresh_mem).
      change (splice 0 w _) with (w ++ rest').
      destruct (split_len rest' (n - len w)) as (x & y & Exy & Hx); [lia|].
      eexists _, x. split; [done|]. rewrite Exy in *. rewrite app_assoc. apply bytes_ok_app in Hbr' as [? ?].
      split; [|split].
      * apply (holds_intro _ [] (w ++ x) y); try done.
        -- unfold own. cbn [RtpPacket.buffer_ RtpPacket.set_buffer]. f_equal. len_simpl. lia.
        -- by apply bytes_ok_app.
        -- len_simpl. lia.
      * len_simpl. lia.
      * unfold RtpPacket.capacity at 1, Value.capacity. cbn. len_simpl. lia.
    + cbn [mbind option_bind]. destruct (split_len rest (n - len w)) as (x & y & Exy & Hx); [lia|].
      exists (Value.with_size (RtpPacket.buffer_ p) n), x. split; [done|].
      rewrite Exy in *. apply bytes_ok_app in Hbr as [? ?].
      split; [|split; [len_simpl; lia|done]]. constructor.
      * exists y. change (RtpPacket.data (RtpPacket.set_buffer _ p)) with (RtpPacket.data p).
        by rewrite Hm, app_assoc.
      * cbn. len_simpl. lia.
      * change (RtpPacket.data (RtpPacket.set_buffer _ p)) with (RtpPacket.data p).
        rewrite Hm. by repeat (apply bytes_ok_app; split).
      * done.
Qed.

Lemma empty_ok : rtp_ok empty_rtp.
Proof using. constructor; cbn; unfold in_u; try lia; try constructor; rewrite ?len_nil; lia. Qed.

Lemma Clear_ok p w :
  holds p w -> w <> [] -> 12 <= RtpPacket.capacity p ->
  exists p', RtpPacket.Clear g p = Some (tt, p') /\ built p' empty_rtp /\
    RtpPacket.extensions_ p' = RtpPacket.extensions_ p /\
    RtpPacket.capacity p' = RtpPacket.capacity p.
Proof using Hg.
  intros Hh Hw Hc. unfold RtpPacket.Clear, kFixedHeaderSize. step_get.
  set (q := RtpPacket.Make _ _ _ _ _ _ _ _ _ _ _ _).
  assert (Hq : holds q w) by (by apply (holds_same p)).
  destruct (holds_own g q w Hq Hw Hg) as (pf & rest & Hd & Hcap & Hbw & Hbr & Hd').
  change (RtpPacket.capacity q) with (RtpPacket.capacity p) in Hcap.
  pose proof (h_cap p w Hh) as Hmax.
  destruct (split_len (w ++ rest) 12) as (old & post & Eop & Hold); [len_simpl; lia|].
  assert (Hbp : bytes_ok post) by (assert (H : bytes_ok (w ++ rest)) by (by apply bytes_ok_app);
    rewrite Eop in H; by apply bytes_ok_app in H as []).
  assert (Hlp : 12 + len post = RtpPacket.capacity p)
    by (apply (f_equal len) in Eop; len_simpl; lia).
  set (z := replicate (Z.to_nat 12) 0 : list Z).
  erewrite P_bind.
  2:{ rewrite (on_data_own g _ q _ Hd Hd').
      apply (on_data_write g _ _ pf (w ++ rest) (len w) 0 [] old post z); try done.
      - apply stores_memset. unfold byte_ok. lia.
      - by destruct w. }
  erewrite P_bind.
  2:{ apply (buffer_SetSize_own g _ pf (z ++ post) (len w)); [done|done|].
      rewrite len_app. change (len z) with 12. lia. }
  exists (RtpPacket.set_buffer (own pf (rtp_wire empty_rtp ++ post) 12) q). split; [|split; [|split]].
  - unfold RtpPacket.WriteAt.
    rewrite (on_data_write g _ _ pf (z ++ post) 12 0 [] [0] (replicate 11 0 ++ post) [128]); try done.
    apply stores_store.
  - constructor; [exact empty_ok| |].
    + by constructor.
    + apply (holds_intro _ pf _ post); try done.
      * apply rtp_wire_ok, empty_ok.
      * change (len (rtp_wire empty_rtp)) with 12. lia.
  - done.
  - unfold RtpPacket.capacity at 1, Value.capacity. cbn [RtpPacket.buffer_ RtpPacket.set_buffer own Value.mem].
    rewrite len_app. change (len (rtp_wire empty_rtp)) with 12. lia.
Qed.

(** A new packet. *)
Lemma construct_ok ext cap :
  12 <= cap <= 65535 ->
  exists p, RtpPacket.construct g ext cap = Some p /\ built p empty_rtp /\
    RtpPacket.capacity p = cap /\
    RtpPacket.extensions_ p = default (RtpHeaderExtensionMap.init false) ext.
Proof using Hg.
  intros Hc. unfold RtpPacket.construct. unfold kFixedHeaderSize at 1.
  rewrite (proj2 (Z.leb_le 12 cap)) by lia. cbn [check mbind option_bind].
  set (p0 := RtpPacket.Make _ _ _ _ _ _ _ _ _ _ _ _).
  assert (Hl : len (fresh_mem g cap) = cap) by (apply len_fresh_mem; lia).
  assert (Hcp : RtpPacket.capacity p0 = cap) by exact Hl.
  destruct (Clear_ok p0 (fresh_mem g cap)) as (p & Hp & Hb & He & Hcap); [|apply not_nil_len; lia|lia|].
  - apply (holds_intro _ [] (fresh_mem g cap) []); rewrite ?app_nil_r; try done.
    + cbn [p0 RtpPacket.buffer_]. unfold own. by rewrite Hl.
    + by apply bytes_ok_fresh_mem.
    + constructor.
    + rewrite len_nil. lia.
  - exists p. rewrite Hp. split; [done|]. split; [done|]. split; [lia|done].
Qed.
End Sizes.

(** ** CSRCs, payload and padding *)

Section Body.
Context (g : list Z) (Hg : bytes_ok g).

Lemma write_csrcs_own l p pf pre old post sz off :
  RtpPacket.buffer_ p = own pf (pre ++ old ++ post) sz -> off = len pre ->
  len old = 4 * len l -> pre <> [] ->
  RtpPacket.write_csrcs g off l p =
  Some (tt, RtpPacket.set_buffer (own pf (pre ++ csrc_bytes l ++ post) sz) p).
Proof using.
  revert p pre old off. induction l as [|c l IH]; intros p pre old off Hb Hoff Hl Hne;
    cbn [RtpPacket.write_csrcs].
  - apply len_0_nil in Hl as ->.
    destruct p; cbn in *. subst. done.
  - rewrite len_cons in Hl. pose proof (len_nonneg l).
    destruct (split_len old 4) as (o1 & o2 & -> & Ho1); [lia|]. rewrite <- app_assoc in Hb.
    erewrite P_bind.
    2:{ apply (on_data_write g _ _ pf _ sz off pre o1 (o2 ++ post) (be_bytes 4 c) Hb
          (stores_WriteBigEndian 4 off c)); try done. by destruct pre. }
    rewrite (IH _ (pre ++ be_bytes 4 c) o2).
    + unfold csrc_bytes. by rewrite mjoin_fmap_cons, <- !app_assoc.
    + cbn [RtpPacket.buffer_ RtpPacket.set_buffer]. by rewrite <- !app_assoc.
    + len_simpl. lia.
    + len_simpl. lia.
    + by destruct pre.
Qed.

Lemma SetCsrcs_ok l p a :
  built p a -> exts a = [] -> payload a = [] -> padding a = 0 -> len l <= 15 ->
  Forall (in_u 32) l -> 12 + 4 * len l <= RtpPacket.capacity p ->
  does (RtpPacket.SetCsrcs g l) p tt (with_csrcs l a) 0.
Proof using Hg.
  intros Hr He Hp Hpd Hl Hlu Hc. pose proof (r_ok _ _ _ Hr) as Hok.
  pose proof (r_fields _ _ _ Hr) as Hf. pose proof (len_nonneg l) as Hl0.
  assert (H0 : RtpPacket.extensions_size_ p = 0) by (rewrite (f_ext_size _ _ _ Hf), He; done).
  assert (H1 : RtpPacket.payload_size_ p = 0) by (rewrite (f_payload _ _ _ Hf), Hp; done).
  assert (H2 : RtpPacket.padding_size_ p = 0) by (rewrite (f_padding _ _ _ Hf); done).
  unfold RtpPacket.SetCsrcs, kFixedHeaderSize. step_get. do 5 step_check. step_get.
  set (q := RtpPacket.set_payload_offset _ p).
  erewrite P_bind by (eapply (repr_read p q); [exact Hr|done|by apply (read_first p a 0)]).
  pose proof (len_nonneg (csrcs a)). pose proof (ok_csrcs a Hok).
  destruct (byte0_bits (0 <? padding a) (has_exts a) (len (csrcs a))) as (_ & _ & _ & _ & B5 & _); [lia|].
  destruct (byte0_bits (0 <? padding a) (has_exts a) (len l)) as (_ & _ & _ & _ & _ & B6 & _ & _ & _ & B10); [lia|].
  rewrite B5, B6. set (a' := with_csrcs l a).
  assert (Hok' : rtp_ok a') by (destruct Hok; by constructor).
  assert (Hw : rtp_wire a = [first_byte a] ++ drop 1 (fixed a) ++ csrc_bytes (csrcs a)).
  { unfold rtp_wire, header. rewrite He, Hp, Hpd. cbn [ext_bytes padding_bytes Z.eqb]. by rewrite !app_nil_r. }
  assert (Hw' : rtp_wire a' = [first_byte a'] ++ drop 1 (fixed a) ++ csrc_bytes l).
  { unfold rtp_wire, header, a'. cbn [csrcs exts payload padding with_csrcs]. rewrite He, Hp, Hpd.
    cbn [ext_bytes padding_bytes Z.eqb]. by rewrite !app_nil_r. }
  destruct (holds_own g q (rtp_wire a)) as (pf & rest & Hd & Hcap & Hbw & Hbr & Hd');
    [by apply (holds_same p), Hr|apply wire_not_nil|done|].
  change (RtpPacket.capacity q) with (RtpPacket.capacity p) in Hcap.
  assert (Hlw : len (rtp_wire a) = 12 + 4 * len (csrcs a)) by (rewrite Hw; len_simpl; change (len (drop 1 (fixed a))) with 11; lia).
  destruct (split_len (csrc_bytes (csrcs a) ++ rest) (4 * len l)) as (old & post & Eop & Hold); [len_simpl; lia|].
  assert (Hbp : bytes_ok post).
  { assert (H' : bytes_ok (csrc_bytes (csrcs a) ++ rest)) by (apply bytes_ok_app; split; [apply csrc_bytes_ok|done]).
    rewrite Eop in H'. by apply bytes_ok_app in H' as []. }
  assert (Hlp : 12 + 4 * len l + len post = RtpPacket.capacity p)
    by (apply (f_equal len) in Eop; len_simpl; lia).
  erewrite P_bind.
  2:{ unfold RtpPacket.WriteAt. rewrite (on_data_own g _ q _ Hd Hd').
      apply (on_data_write g _ _ pf (rtp_wire a ++ rest) (len (rtp_wire a)) 0 [] [first_byte a]
        (drop 1 (fixed a) ++ old ++ post) [first_byte a']); try done.
      - rewrite first_byte_eq. by apply stores_byte.
      - rewrite Hw, <- !app_assoc, Eop. done. }
  erewrite P_bind.
  2:{ apply (write_csrcs_own l _ pf ([first_byte a'] ++ drop 1 (fixed a)) old post (len (rtp_wire a)));
        [cbn [RtpPacket.buffer_ RtpPacket.set_buffer]; by rewrite <- app_assoc|done|lia|done]. }
  rewrite <- app_assoc in *.
  replace ([first_byte a'] ++ drop 1 (fixed a) ++ csrc_bytes l ++ post) with (rtp_wire a' ++ post)
    by (rewrite Hw', <- !app_assoc; done).
  assert (Hlw' : len (rtp_wire a') = 12 + 4 * len l) by (rewrite Hw'; len_simpl; change (len (drop 1 (fixed a))) with 11; lia).
  exists (RtpPacket.set_buffer (own pf (rtp_wire a' ++ post) (12 + 4 * len l)) q).
  split; [|split; [|split; [|done]]].
  - erewrite buffer_SetSize_own; [done|done| |len_simpl; lia].
    apply not_nil_len. len_simpl. pose proof (len_nonneg post). lia.
  - constructor; [done| |].
    + destruct Hf as [? ? ? ? ? ? ? ? Hen ? ?]. rewrite He in Hen. constructor; try done.
      * change (12 + 4 * len l = len (header a')). rewrite len_header, len_ext_bytes.
        change (exts a') with (exts a). rewrite He. change (csrcs a') with l. lia.
      * change (exts a') with (exts a). by rewrite He.
    + apply (holds_intro _ pf _ post); [by rewrite Hlw'|by apply rtp_wire_ok|done|].
      rewrite Hlw'. pose proof (h_cap _ _ (r_holds _ _ _ Hr)). lia.
  - unfold RtpPacket.capacity at 1, Value.capacity. cbn [RtpPacket.buffer_ RtpPacket.set_buffer own Value.mem].
    rewrite len_app. lia.
Qed.

(** The bytes behind the first one, up to the payload. *)
Definition rest_header (a : rtp) : list Z :=
  drop 1 (fixed a) ++ csrc_bytes (csrcs a) ++ ext_bytes (two_byte a) (exts a).

Lemma header_first a : header a = first_byte a :: rest_header a.
Proof using. done. Qed.

Lemma wire_no_padding a : padding a = 0 -> rtp_wire a = header a ++ payload a.
Proof using. intros H. unfold rtp_wire. rewrite H. cbn. by rewrite app_nil_r. Qed.

Lemma wire_first a :
  rtp_wire a = first_byte a :: (rest_header a ++ payload a) ++ padding_bytes (padding a).
Proof using. unfold rtp_wire. rewrite header_first. by rewrite <- !app_assoc. Qed.

(** [WriteAt(0)] alone: the buffer holds the same bytes afterwards. *)
Lemma on_data_id p w :
  holds p w -> w <> [] ->
  exists b, RtpPacket.on_data g (mret tt) p = Some (tt, RtpPacket.set_buffer b p) /\
    holds (RtpPacket.set_buffer b p) w /\ Value.capacity b = RtpPacket.capacity p.
Proof using Hg.
  intros Hh Hw. eapply (holds_write g p w w _ 0 [] [] w []); try done; [apply stores_ret|constructor].
Qed.

(** Cutting or growing the bytes behind a part that stays. *)
Lemma SetSize_keeps p hd tl n :
  holds p (hd ++ tl) -> 0 <= n -> len hd + n <= RtpPacket.capacity p -> 0 < len hd ->
  exists b x, RtpPacket.buffer_SetSize g (len hd + n) p = Some (tt, RtpPacket.set_buffer b p) /\
    holds (RtpPacket.set_buffer b p) (hd ++ take (Z.to_nat n) tl ++ x) /\
    len (take (Z.to_nat n) tl ++ x) = n /\ Value.capacity b = RtpPacket.capacity p.
Proof using Hg.
  intros Hh Hn Hc Hp.
  destruct (SetSize_holds g Hg p (hd ++ tl) (len hd + n)) as (b & x & R & Hb & Hl & Hcb);
    [done|lia|by apply not_nil_len; rewrite len_app; pose proof (len_nonneg tl); lia|].
  exists b, x. rewrite R. split; [done|].
  assert (Ht : take (Z.to_nat (len hd + n)) (hd ++ tl) = hd ++ take (Z.to_nat n) tl).
  { rewrite take_app_ge by (unfold len in *; lia). do 2 f_equal. unfold len in *. lia. }
  rewrite Ht, <- app_assoc in Hb, Hl. split; [done|]. split; [rewrite len_app in Hl; lia|done].
Qed.

Lemma SetPayloadSize_full n p a s :
  repr p a s -> padding a = 0 -> RtpPacket.capacity p < len (header a) + n ->
  RtpPacket.SetPayloadSize g n p = Some (None, p).
Proof using.
  intros [Hok Hf Hh] Hpd Hc. unfold RtpPacket.SetPayloadSize. step_get.
  pose proof (f_padding _ _ _ Hf). step_check. rewrite (f_offset _ _ _ Hf).
  rewrite (proj2 (Z.ltb_lt _ _)) by lia. done.
Qed.

(** The payload keeps its first bytes; new ones are arbitrary. *)
Lemma SetPayloadSize_ok n p a s :
  repr p a s -> padding a = 0 -> 0 <= n -> len (header a) + n <= RtpPacket.capacity p ->
  exists x, len (take (Z.to_nat n) (payload a) ++ x) = n /\
    does (RtpPacket.SetPayloadSize g n) p (Some (len (header a)))
      (with_payload (take (Z.to_nat n) (payload a) ++ x) a) s.
Proof using Hg.
  intros [Hok Hf Hh] Hpd Hn Hc. pose proof (header_pos a) as Hhp.
  rewrite wire_no_padding in Hh by done. set (q := RtpPacket.set_payload_size n p).
  destruct (SetSize_keeps q (header a) (payload a) n) as (b & x & R & Hb & Hl & Hcb);
    [by apply (holds_same p)|done|done|lia|].
  destruct (on_data_id _ _ Hb) as (b' & R' & Hb' & Hcb'); [by rewrite header_first|].
  exists x. split; [done|]. unfold RtpPacket.SetPayloadSize. step_get.
  pose proof (f_padding _ _ _ Hf). step_check. rewrite (f_offset _ _ _ Hf).
  rewrite (proj2 (Z.ltb_ge _ _)) by lia. step_get. fold q. step_with R. step_with R'.
  eexists. split; [done|]. split; [|split; [|done]].
  - set (a' := with_payload _ a). constructor.
    + destruct Hok. constructor; try done. cbn [payload a' with_payload].
      pose proof (h_bytes _ _ Hb) as Hbs. destruct (h_mem _ _ Hb) as [r Hr]. rewrite Hr in Hbs.
      rewrite !bytes_ok_app in Hbs. apply bytes_ok_app. tauto.
    + destruct Hf. by constructor.
    + rewrite wire_no_padding by done. exact Hb'.
  - change (Value.capacity b' = RtpPacket.capacity p). rewrite Hcb'. exact Hcb.
Qed.

Lemma AllocatePayload_ok n p a s :
  repr p a s -> padding a = 0 -> 0 <= n -> len (header a) + n <= RtpPacket.capacity p ->
  exists x, len x = n /\
    does (RtpPacket.AllocatePayload g n) p (Some (len (header a))) (with_payload x a) s.
Proof using Hg.
  intros Hr Hpd Hn Hc.
  destruct (SetPayloadSize_ok 0 p a s) as (x0 & Hx0 & p0 & R0 & Hr0 & Hk0 & He0); [done..|lia|].
  destruct (SetPayloadSize_ok n p0 _ s Hr0) as (x & Hx & p1 & R1 & Hr1 & Hk1 & He1); [done|done| |].
  { rewrite Hk0. exact Hc. }
  eexists. split; [exact Hx|]. exists p1. unfold RtpPacket.AllocatePayload. step_with R0.
  split; [exact R1|]. split; [exact Hr1|]. split; congruence.
Qed.

Lemma AllocatePayload_full n p a s :
  repr p a s -> padding a = 0 -> RtpPacket.capacity p < len (header a) + n ->
  len (header a) <= RtpPacket.capacity p ->
  does (RtpPacket.AllocatePayload g n) p None (with_payload [] a) s.
Proof using Hg.
  intros Hr Hpd Hc Hh.
  destruct (SetPayloadSize_ok 0 p a s) as (x0 & Hx0 & p0 & R0 & Hr0 & Hk0 & He0); [done..|lia|].
  unfold RtpPacket.AllocatePayload. step_with R0. exists p0.
  change (take (Z.to_nat 0) (payload a) ++ x0) with x0 in *. apply len_0_nil in Hx0 as ->.
  split; [|done]. eapply SetPayloadSize_full; [exact Hr0|done|]. rewrite Hk0. exact Hc.
Qed.

Lemma padding_bytes_pos n : 0 < n -> padding_bytes n = replicate (Z.to_nat (n - 1)) 0 ++ [n].
Proof using. intros. unfold padding_bytes. by destruct (Z.eqb_spec n 0); [lia|]. Qed.

Lemma with_padding_ok n a : rtp_ok a -> 0 <= n <= 255 -> rtp_ok (with_padding n a).
Proof using. intros [] ?. by constructor. Qed.

(** The two writes behind the payload. *)
Lemma write_padding n p hd y :
  holds p (hd ++ y) -> len y = n -> 0 < n <= 255 -> 0 < len hd ->
  exists b1 b,
    RtpPacket.on_data g (memset (len hd) 0 (n - 1)) p = Some (tt, RtpPacket.set_buffer b1 p) /\
    RtpPacket.WriteAt g (len hd + n - 1) n (RtpPacket.set_buffer b1 p) =
      Some (tt, RtpPacket.set_buffer b p) /\
    holds (RtpPacket.set_buffer b p) (hd ++ padding_bytes n) /\
    Value.capacity b = RtpPacket.capacity p.
Proof using Hg.
  intros Hh Hy Hn Hl. destruct (split_len y (n - 1)) as (y1 & y2 & -> & Hy1); [lia|].
  set (z := replicate (Z.to_nat (n - 1)) 0). assert (Hz : len z = n - 1) by (unfold z; len_simpl; lia).
  assert (Hne : forall u : list Z, hd ++ u <> []) by (intros; apply not_nil_len; rewrite len_app;
    pose proof (len_nonneg u); lia).
  destruct (holds_write g p (hd ++ y1 ++ y2) (hd ++ z ++ y2) (memset (len hd) 0 (n - 1)) (len hd) hd y1 y2 z)
    as (b1 & R1 & H1 & C1); try done.
  { apply stores_memset. unfold byte_ok. lia. } { lia. } { apply Forall_replicate. unfold byte_ok. lia. }
  destruct (holds_write g _ _ ((hd ++ z) ++ [n] ++ []) (store (len hd + n - 1) n) (len hd + n - 1) (hd ++ z) y2 [] [n] Hg H1)
    as (b2 & R2 & H2 & C2); try done.
  { apply stores_byte. unfold byte_ok. lia. }
  { by rewrite app_nil_r, <- app_assoc. } { len_simpl. lia. } { len_simpl. lia. }
  { constructor; [unfold byte_ok; lia|constructor]. }
  exists b1, b2. split; [exact R1|]. split; [exact R2|]. split; [|by rewrite C2].
  rewrite padding_bytes_pos by lia. fold z. rewrite app_nil_r, <- app_assoc in H2. exact H2.
Qed.

(** A change of flags in the first byte. *)
Lemma write_first p v x tl :
  holds p (x :: tl) -> byte_ok v ->
  exists b, RtpPacket.WriteAt g 0 v p = Some (tt, RtpPacket.set_buffer b p) /\
    holds (RtpPacket.set_buffer b p) (v :: tl) /\ Value.capacity b = RtpPacket.capacity p.
Proof using Hg.
  intros Hh Hv. eapply (holds_write g p (x :: tl) (v :: tl) _ 0 [] [x] tl [v]); try done.
  - by apply stores_byte.
  - by constructor.
Qed.

Lemma SetPadding_ok n p a s :
  repr p a s -> 0 <= n <= 255 ->
  len (header a) + len (payload a) + n <= RtpPacket.capacity p ->
  does (RtpPacket.SetPadding g n) p true (with_padding n a) s.
Proof using Hg.
  intros [Hok Hf Hh] Hn Hc. set (hd := header a ++ payload a).
  assert (Hhd : len hd = RtpPacket.payload_offset_ p + RtpPacket.payload_size_ p)
    by (unfold hd; rewrite len_app, (f_offset _ _ _ Hf), (f_payload _ _ _ Hf); done).
  assert (Hpos : 0 < len hd) by (pose proof (header_pos a); pose proof (len_nonneg (payload a));
    unfold hd; len_simpl; lia).
  set (q := RtpPacket.set_padding_size n p).
  destruct (SetSize_keeps q hd (padding_bytes (padding a)) n) as (b & x & R & Hb & Hl & Hcb);
    [apply (holds_same p); [done|]; unfold hd; by rewrite <- app_assoc|lia| |done|].
  { change (RtpPacket.capacity q) with (RtpPacket.capacity p). unfold hd. len_simpl. lia. }
  set (y := _ ++ x) in *. set (cc := len (csrcs a)).
  destruct (byte0_bits (0 <? padding a) (has_exts a) cc) as (_ & _ & B3 & B4 & _);
    [pose proof (len_nonneg (csrcs a)); destruct Hok; lia|].
  assert (Hfin : forall b0 v tl, holds (RtpPacket.set_buffer b0 q) (byte0 (0 <? padding a) (has_exts a) cc :: tl) ->
    Value.capacity b0 = RtpPacket.capacity p -> v = first_byte (with_padding n a) ->
    v :: tl = rtp_wire (with_padding n a) ->
    exists p', RtpPacket.WriteAt g 0 v (RtpPacket.set_buffer b0 q) = Some (tt, p') /\
      repr p' (with_padding n a) s /\ kept p p').
  { intros b0 v tl H0 Hc0 Hv Ht. destruct (write_first _ v _ _ H0) as (b3 & R3 & H3 & C3).
    { rewrite Hv. apply first_byte_ok. by apply with_padding_ok. }
    eexists. split; [exact R3|]. split; [|split; [rewrite <- Hc0; exact C3|done]].
    constructor; [by apply with_padding_ok| |by rewrite <- Ht]. destruct Hf. by constructor. }
  unfold RtpPacket.SetPadding. step_get.
  rewrite (proj2 (Z.ltb_ge _ _)) by (rewrite <- Hhd; unfold hd; len_simpl; lia).
  step_check. step_get. fold q. rewrite <- Hhd. step_with R.
  assert (Hrd : forall b0 tl, holds (RtpPacket.set_buffer b0 q) (hd ++ tl) ->
    RtpPacket.read 0 (RtpPacket.set_buffer b0 q) =
    Some (byte0 (0 <? padding a) (has_exts a) cc, RtpPacket.set_buffer b0 q)).
  { intros b0 tl H0. eapply (read_holds _ _ 0 _ []); [exact H0| |done].
    unfold hd. rewrite header_first, first_byte_eq. done. }
  assert (Hhd' : forall tl, hd ++ tl = byte0 (0 <? padding a) (has_exts a) cc :: (rest_header a ++ payload a) ++ tl)
    by (intros; unfold hd; rewrite header_first, first_byte_eq, <- !app_assoc; done).
  apply P_then_ret. destruct (Z.ltb_spec 0 n) as [Hn0|Hn0].
  - destruct (write_padding n _ hd y Hb) as (b1 & b2 & R1 & R2 & H2 & C2); [done|lia|lia|].
    step_with R1. step_with R2. step_with (Hrd b2 _ H2). rewrite B3.
    rewrite Hhd' in H2. eapply Hfin; [exact H2|rewrite C2; exact Hcb| |].
    + rewrite first_byte_eq. cbn [padding with_padding]. by rewrite (proj2 (Z.ltb_lt 0 n)) by lia.
    + rewrite wire_first, first_byte_eq. cbn [padding with_padding].
      by rewrite (proj2 (Z.ltb_lt 0 n)) by lia.
  - assert (n = 0) as -> by lia. apply len_0_nil in Hl. rewrite Hl in Hb.
    step_with (Hrd b _ Hb). rewrite B4. rewrite Hhd' in Hb.
    eapply Hfin; [exact Hb|exact Hcb|by rewrite first_byte_eq|].
    by rewrite wire_first, first_byte_eq.
Qed.

Lemma SetPadding_full n p a s :
  repr p a s -> RtpPacket.capacity p < len (header a) + len (payload a) + n ->
  RtpPacket.SetPadding g n p = Some (false, p).
Proof using.
  intros [Hok Hf Hh] Hc. unfold RtpPacket.SetPadding. step_get.
  rewrite (f_offset _ _ _ Hf), (f_payload _ _ _ Hf), (proj2 (Z.ltb_lt _ _)) by lia. done.
Qed.
End Body.
