(* ===== verification/RtpExtend.v ===== *)
(** * Adding header extensions to RTP packets

    [AllocateRawExtension] appends an extension to the block, starts the block, or first rewrites
    a block of one-byte headers to two-byte headers; each leaves the bytes of a well-formed packet
    with the new extension last. *)

From S2P Require Import Prelude Buffer ByteIo CowBuffer RtpExtensionMap HeaderExtensions.
From S2P Require Import RtpPacket RtpSpec RtpBuild.
Import ByteReader ByteWriter.

(** ** Writes to a packet whose own copy of the buffer is known *)

(** [owns g p m]: writing through [p] works on the memory [m]. *)
Definition owns (g : list Z) (p : RtpPacket.t) (pf m : list Z) (sz : Z) : Prop :=
  Value.data g (RtpPacket.buffer_ p) = Some (own pf m sz) /\ m <> [].

Lemma owns_own g p pf m sz : RtpPacket.buffer_ p = own pf m sz -> m <> [] -> owns g p pf m sz.
Proof. intros E Hm. split; [|done]. rewrite E. by apply data_own. Qed.

Lemma owns_same g p q pf m sz :
  RtpPacket.buffer_ q = RtpPacket.buffer_ p -> owns g p pf m sz -> owns g q pf m sz.
Proof. unfold owns. by intros ->. Qed.

Lemma owns_write g w p pf m sz pos pre old post bs :
  owns g p pf m sz -> stores w pos bs -> m = pre ++ old ++ post -> pos = len pre ->
  len old = len bs ->
  RtpPacket.on_data g w p = Some (tt, RtpPacket.set_buffer (own pf (pre ++ bs ++ post) sz) p).
Proof.
  intros [Hd Hm] Hw E Hpos Hl. rewrite (on_data_own g w p _ Hd) by (by apply data_own).
  by rewrite (on_data_write g w _ pf m sz pos pre old post bs).
Qed.

Lemma app_not_nil_len (l r : list Z) : 0 < len l -> l ++ r <> [].
Proof. by destruct l. Qed.

(** The length field and the padding of an extension block. *)
Lemma set_length_ok g p pf h w2 blk z r sz off :
  owns g p pf (h ++ w2 ++ blk ++ z ++ r) sz -> len w2 = 2 -> off = len h + 2 ->
  RtpPacket.extensions_size_ p = len blk -> len z = len (ext_pad (len blk)) ->
  len (h ++ w2 ++ blk ++ z ++ r) <= 65535 ->
  RtpPacket.SetExtensionLengthMaybeAddZeroPadding g off p =
  Some (4 * ext_words (len blk), RtpPacket.set_buffer
    (own pf (h ++ be_bytes 2 (ext_words (len blk)) ++ blk ++ ext_pad (len blk) ++ r) sz) p).
Proof.
  intros Ho Hw ->  Hs Hz Hm. unfold RtpPacket.SetExtensionLengthMaybeAddZeroPadding.
  pose proof (len_nonneg blk) as Hb0. pose proof (ext_words_spec (len blk) Hb0) as Hws.
  rewrite len_ext_pad in Hz by done. len_simpl. pose proof (len_nonneg h). pose proof (len_nonneg r).
  step_get. rewrite Hs. fold (ext_words (len blk)). step_check.
  erewrite P_bind.
  2:{ eapply (owns_write g _ p pf _ sz _ h w2); [exact Ho|apply stores_WriteBigEndian|done|lia|].
      rewrite Hw. done. }
  erewrite P_bind.
  2:{ eapply (owns_write g _ _ pf _ sz _ (h ++ be_bytes 2 (ext_words (len blk)) ++ blk) z r).
      - apply owns_own; [done|]. apply not_nil_len. len_simpl. pose proof (len_nonneg z). lia.
      - apply stores_memset. unfold byte_ok. lia.
      - by rewrite <- !app_assoc.
      - len_simpl. lia.
      - len_simpl. lia. }
  rewrite wrap_small by (unfold in_u; lia). rewrite <- !app_assoc. done.
Qed.

(** ** The header of one extension *)

Definition ext_fits (two : bool) (i n : Z) : Prop :=
  1 <= i <= (if two then 255 else 14) /\ 1 <= n <= (if two then 255 else 16).

Lemma one_byte_header i n :
  ext_fits false i n -> Z.lor (u8 (Z.shiftl i 4)) (n - 1) = i * 16 + (n - 1).
Proof.
  intros [Hi Hn]. rewrite Z.shiftl_mul_pow2 by lia. change (2 ^ 4) with 16.
  rewrite wrap_small by (unfold in_u; lia).
  rewrite (lor_add_low _ _ 4); [done|lia|by apply Z_mod_mult|lia].
Qed.

Lemma write_item_header g two i n p pf pre h post sz pos :
  owns g p pf (pre ++ h ++ post) sz -> len h = header_length two -> pos = len pre ->
  ext_fits two i n ->
  (if profile two =? kOneByteExtensionProfileId then
     dcheck (i <=? 0xFF) ;; dcheck (n - 1 <=? 0xFF) ;;
     RtpPacket.WriteAt g pos (Z.lor (u8 (Z.shiftl i 4)) (n - 1))
   else
     dcheck (i <=? 0xFF) ;; RtpPacket.WriteAt g pos i ;;
     dcheck (n <=? 0xFF) ;; RtpPacket.WriteAt g (pos + 1) n) p =
  Some (tt, RtpPacket.set_buffer (own pf (pre ++ ext_header two i n ++ post) sz) p).
Proof.
  intros Ho Hh Hpos Hf. pose proof Hf as [Hi Hn]. pose proof (len_nonneg pre).
  destruct two; cbn [profile kTwoByteExtensionProfileId kOneByteExtensionProfileId Z.eqb Pos.eqb header_length] in *.
  - destruct h as [|h1 [|h2 [|? ?]]]; try (unfold len in Hh; cbn in Hh; lia).
    step_check. erewrite P_bind.
    2:{ eapply (owns_write g _ p pf _ sz _ pre [h1] ([h2] ++ post) [i]); [exact Ho| |done|done|done].
        apply stores_byte. unfold byte_ok. lia. }
    step_check. unfold RtpPacket.WriteAt.
    rewrite (owns_write g _ _ pf (pre ++ [i] ++ [h2] ++ post) sz (pos + 1) (pre ++ [i]) [h2] post [n]).
    + by rewrite <- !app_assoc.
    + apply owns_own; [done|]. by destruct pre.
    + apply stores_byte. unfold byte_ok. lia.
    + by rewrite <- !app_assoc.
    + rewrite len_app. change (len [i]) with 1. lia.
    + done.
  - step_check. step_check. unfold RtpPacket.WriteAt. rewrite one_byte_header by done.
    apply (owns_write g _ p pf _ sz pos pre h post [i * 16 + (n - 1)] Ho); try done.
    apply stores_byte. unfold byte_ok. lia.
Qed.

(** The bytes before the profile and the length field of the extension block. *)
Definition pre_profile (a : rtp) : list Z :=
  [byte0 (0 <? padding a) true (len (csrcs a))] ++ drop 1 (fixed a) ++ csrc_bytes (csrcs a).

Definition pre_block (two : bool) (a : rtp) : list Z := pre_profile a ++ be_bytes 2 (profile two).

Lemma len_pre_profile a : len (pre_profile a) = ext_start a - 4.
Proof.
  unfold pre_profile, ext_start. len_simpl. change (len (drop 1 (fixed a))) with 11. lia.
Qed.

Lemma len_pre_block two a : len (pre_block two a) = ext_start a - 2.
Proof. unfold pre_block. rewrite len_app, len_pre_profile, len_be_bytes. lia. Qed.

Lemma with_exts_wire two es a :
  es <> [] -> payload a = [] -> padding a = 0 ->
  rtp_wire (with_exts two es a) =
  pre_block two a ++ be_bytes 2 (ext_words (len (block two es))) ++ block two es ++
  ext_pad (len (block two es)).
Proof.
  intros He Hp Hpd. rewrite wire_no_padding by done. cbn [payload with_exts]. rewrite Hp, app_nil_r.
  rewrite header_first, first_byte_eq. unfold rest_header, pre_block, pre_profile, has_exts.
  cbn [exts two_byte csrcs with_exts padding]. unfold ext_bytes. destruct es; [done|].
  rewrite <- !app_assoc. done.
Qed.

(** ** Appending to the block *)

Lemma block_nonempty two es : Forall (ext_ok two) es -> es <> [] -> 0 < len (block two es).
Proof.
  intros H Hne. destruct H as [|e es He]; [done|]. rewrite block_cons. len_simpl.
  pose proof (len_nonneg (block two es)). pose proof (len_nonneg e.2). destruct two; cbn; lia.
Qed.

Lemma header_size_eq two :
  (if profile two =? kOneByteExtensionProfileId then kOneByteExtensionHeaderLength
   else kTwoByteExtensionHeaderLength) = header_length two.
Proof. by destruct two. Qed.

(** The last step of an operation that has written the block. *)
Lemma finish_block g p q a two es pf r sz n :
  n = len (block two es) ->
  RtpPacket.buffer_ q =
    own pf (pre_block two a ++ be_bytes 2 (ext_words n) ++ block two es ++ ext_pad n ++ r) sz ->
  es <> [] -> payload a = [] -> padding a = 0 -> rtp_ok (with_exts two es a) ->
  (forall b, fields_ok (RtpPacket.set_buffer b q) (with_exts two es a) 0) -> bytes_ok r ->
  ext_start a + 4 * ext_words n + len r = RtpPacket.capacity p -> RtpPacket.capacity p <= 65535 ->
  RtpPacket.extensions_ q = RtpPacket.extensions_ p ->
  exists p', RtpPacket.buffer_SetSize g (ext_start a + 4 * ext_words n) q = Some (tt, p') /\
    repr p' (with_exts two es a) 0 /\ kept p p'.
Proof.
  intros -> Hb He Hp Hpd Hok Hf Hr Hc Hmax Hx.
  assert (Hlw : len (rtp_wire (with_exts two es a)) = ext_start a + 4 * ext_words (len (block two es))).
  { rewrite (with_exts_wire two es a) by done.
    rewrite !len_app, len_pre_block, len_ext_pad, len_be_bytes by apply len_nonneg. lia. }
  replace (pre_block two a ++ _) with (rtp_wire (with_exts two es a) ++ r) in Hb
    by (rewrite (with_exts_wire two es a) by done; by rewrite <- !app_assoc).
  pose proof (wire_not_nil (with_exts two es a)) as Hne. eexists. split.
  - eapply buffer_SetSize_own; [exact Hb|by destruct (rtp_wire _)|].
    rewrite len_app. pose proof (len_nonneg r). lia.
  - split; [|split; [|done]].
    + constructor; [done|done|]. apply (holds_intro _ pf _ r); [by rewrite Hlw|by apply rtp_wire_ok|done|lia].
    + change (len (rtp_wire (with_exts two es a) ++ r) = RtpPacket.capacity p). rewrite len_app. lia.
Qed.

Section Append.
Context (g : list Z) (Hg : bytes_ok g) (p : RtpPacket.t) (a : rtp) (two : bool).
Context (Hr : built p a) (Hp : payload a = []) (Hpd : padding a = 0).
Context (Htwo : exts a = [] \/ two = two_byte a).
Context (Hroom : ext_start a <= RtpPacket.capacity p).

Let cc := len (csrcs a).

Lemma cc_range : 0 <= cc <= 15.
Proof using Hr.
  unfold cc. pose proof (len_nonneg (csrcs a)). destruct (r_ok _ _ _ Hr). lia.
Qed.

Lemma ext_size_eq : RtpPacket.extensions_size_ p = len (block two (exts a)).
Proof using Hr Htwo.
  rewrite (f_ext_size _ _ _ (r_fields _ _ _ Hr)), Z.add_0_r.
  by destruct Htwo as [->| ->].
Qed.

(** The first extension sets the extension bit and writes the profile. *)
Lemma start_block :
  exists b pf w2 r sz,
    (if RtpPacket.extensions_size_ p =? 0 then
       dcheck (RtpPacket.payload_offset_ p =? kFixedHeaderSize + cc * 4) ;;
       d0 ← RtpPacket.read 0;
       RtpPacket.WriteAt g 0 (Z.lor d0 0x10) ;;
       RtpPacket.on_data g (WriteBigEndian 2 (ext_start a - 4) (profile two))
     else mret tt) p = Some (tt, RtpPacket.set_buffer b p) /\
    owns g (RtpPacket.set_buffer b p) pf (pre_block two a ++ w2 ++ block two (exts a) ++ r) sz /\
    len w2 = 2 /\ len (pre_block two a ++ w2 ++ block two (exts a) ++ r) = RtpPacket.capacity p /\
    bytes_ok r.
Proof using Hg Hr Hp Hpd Htwo Hroom.
  pose proof (r_ok _ _ _ Hr) as Hok. pose proof (r_holds _ _ _ Hr) as Hh.
  destruct (holds_own g p _ Hh (wire_not_nil a) Hg) as (pf & rest & Hd & Hcap & Hbw & Hbr & Hd').
  assert (Ho : owns g p pf (rtp_wire a ++ rest) (len (rtp_wire a)))
    by (split; [done|]; pose proof (wire_not_nil a); by destruct (rtp_wire a)).
  rewrite ext_size_eq. destruct (decide (exts a = [])) as [He|He].
  - rewrite He. change (block two []) with (@nil Z). change (len [] =? 0) with true. cbv iota.
    assert (Hw : rtp_wire a = [first_byte a] ++ drop 1 (fixed a) ++ csrc_bytes (csrcs a)).
    { rewrite wire_no_padding, header_first by done. unfold rest_header. rewrite He, Hp.
      cbn [ext_bytes]. by rewrite !app_nil_r. }
    assert (Hlw : len (rtp_wire a) = ext_start a - 4).
    { rewrite Hw. unfold ext_start. len_simpl. change (len (drop 1 (fixed a))) with 11. lia. }
    destruct (split_len rest 4) as (r4 & r & -> & H4); [lia|].
    destruct (split_len r4 2) as (w1 & w2 & -> & H2); [lia|].
    destruct (byte0_bits (0 <? padding a) false cc cc_range) as (_ & B2 & _).
    destruct (byte0_bits (0 <? padding a) true cc cc_range) as (_ & _ & _ & _ & _ & _ & _ & _ & _ & B10).
    exists (own pf (pre_block two a ++ w2 ++ [] ++ r) (len (rtp_wire a))), pf, w2, r, (len (rtp_wire a)).
    assert (Hl : len (pre_block two a ++ w2 ++ [] ++ r) = RtpPacket.capacity p)
      by (rewrite <- Hcap, !len_app, len_pre_block; len_simpl; lia).
    split; [|split; [|split; [len_simpl; lia|split; [done|]]]].
    + pose proof (f_offset _ _ _ (r_fields _ _ _ Hr)) as Hoff.
      rewrite len_header, len_ext_bytes, He in Hoff. unfold kFixedHeaderSize, cc. step_check.
      step_with (read_first p a 0 Hr). unfold has_exts. rewrite He. fold cc. rewrite B2.
      erewrite P_bind.
      2:{ eapply (owns_write g _ p pf _ _ 0 [] [first_byte a] _ [_]); [exact Ho|by apply stores_byte| |done|done].
          rewrite Hw, <- !app_assoc. done. }
      rewrite (owns_write g _ _ pf ([byte0 (0 <? padding a) true cc] ++ drop 1 (fixed a) ++
          csrc_bytes (csrcs a) ++ w1 ++ w2 ++ r) (len (rtp_wire a)) (ext_start a - 4)
          ([byte0 (0 <? padding a) true cc] ++ drop 1 (fixed a) ++ csrc_bytes (csrcs a))
          w1 (w2 ++ r) (be_bytes 2 (profile two))).
      * unfold pre_block, pre_profile. rewrite <- !app_assoc. done.
      * by apply owns_own.
      * apply stores_WriteBigEndian.
      * by rewrite <- !app_assoc.
      * rewrite <- Hlw, Hw. done.
      * rewrite H2. done.
    + apply owns_own; [done|]. apply not_nil_len. rewrite Hl. unfold ext_start in Hroom.
      pose proof cc_range. unfold cc in *. lia.
    + rewrite !bytes_ok_app in Hbr. tauto.
  - destruct Htwo as [|Et]; [done|]. rewrite Et.
    pose proof (block_nonempty _ _ (ok_exts a Hok) He) as Hb.
    rewrite (proj2 (Z.eqb_neq _ 0)) by lia.
    assert (Hwe : with_exts (two_byte a) (exts a) a = a) by (by destruct a).
    pose proof (with_exts_wire (two_byte a) (exts a) a He Hp Hpd) as Hw. rewrite Hwe in Hw.
    exists (RtpPacket.buffer_ p), pf. eexists (be_bytes 2 _), (ext_pad (len (block (two_byte a) (exts a))) ++ rest), _.
    assert (Hs : RtpPacket.set_buffer (RtpPacket.buffer_ p) p = p) by (by destruct p). rewrite Hs.
    rewrite Hw in Ho. rewrite <- !app_assoc in Ho.
    split; [done|]. split; [exact Ho|]. split; [done|]. split.
    + rewrite <- Hcap, Hw, <- len_app, <- !app_assoc. done.
    + apply bytes_ok_app. split; [apply ext_pad_ok|done].
Qed.

Context (i n : Z) (Hfit : ext_fits two i n).

Let old := len (block two (exts a)).
Let new := old + header_length two + n.

Lemma append_full :
  RtpPacket.capacity p < ext_start a + new ->
  RtpPacket.append_extension g i n (ext_start a) cc (profile two) p = Some (None, p).
Proof using Hr Htwo.
  intros Hc. unfold RtpPacket.append_extension. step_get. rewrite header_size_eq, ext_size_eq.
  fold old. fold new. by rewrite (proj2 (Z.ltb_lt _ _)) by lia.
Qed.

Lemma append_fields x b es :
  es = exts a ++ [(i, x)] -> len x = n ->
  fields_ok (RtpPacket.set_buffer b (RtpPacket.set_payload_offset (ext_start a + 4 * ext_words new)
    (RtpPacket.set_extensions_size new (RtpPacket.set_entries
      (RtpPacket.extension_entries_ p ++ [RtpPacket.Info i n (ext_start a + old + header_length two)]) p))))
    (with_exts two es a) 0.
Proof using Hr Htwo Hfit.
  intros -> Hx.
  assert (Hnew : len (block two (exts a ++ [(i, x)])) = new).
  { rewrite block_app, block_one, len_app, len_item. cbn [snd]. unfold new, old. lia. }
  destruct (r_fields _ _ _ Hr) as [? ? ? ? ? ? ? ? Hen ? ?]. constructor; try done.
  - rewrite len_header, len_ext_bytes. cbn [RtpPacket.payload_offset_ RtpPacket.set_buffer
      RtpPacket.set_payload_offset csrcs two_byte exts with_exts]. rewrite Hnew. unfold ext_start.
    destruct (exts a); cbn [app]; lia.
  - cbn [RtpPacket.extension_entries_ RtpPacket.set_buffer RtpPacket.set_payload_offset
      RtpPacket.set_extensions_size RtpPacket.set_entries two_byte exts with_exts].
    change (ext_start (with_exts _ _ a)) with (ext_start a). rewrite entries_of_app, Hen.
    cbn [entries_of]. rewrite Hx. f_equal. by destruct Htwo as [->| ->].
  - cbn [RtpPacket.extensions_size_ RtpPacket.set_buffer RtpPacket.set_payload_offset
      RtpPacket.set_extensions_size two_byte exts with_exts]. rewrite Hnew. lia.
  - split; [lia|apply len_nonneg].
Qed.

Lemma append_ok :
  i ∉ (exts a).*1 -> ext_start a + 4 * ext_words new <= RtpPacket.capacity p ->
  exists x, len x = n /\
    does (RtpPacket.append_extension g i n (ext_start a) cc (profile two)) p
      (Some (ext_start a + old + header_length two, n)) (with_exts two (exts a ++ [(i, x)]) a) 0.
Proof using All.
  intros Hi Hc. destruct start_block as (b & pf & w2 & r & sz & R1 & Ho & Hw2 & Hl & Hbr).
  pose proof (h_cap _ _ (r_holds _ _ _ Hr)) as Hmax. pose proof (r_ok _ _ _ Hr) as Hok.
  assert (Hhl : 1 <= header_length two <= 2) by (destruct two; cbn; lia).
  assert (Hn : 1 <= n <= 255) by (destruct Hfit as [_ ?], two; lia).
  assert (Ho0 : 0 <= old) by apply len_nonneg.
  pose proof (ext_words_spec new ltac:(unfold new; lia)) as Hws.
  pose proof cc_range as Hcc. assert (Hes : 16 <= ext_start a) by (unfold ext_start, cc in *; lia).
  assert (Hlr : ext_start a + old + len r = RtpPacket.capacity p)
    by (rewrite <- Hl, !len_app, len_pre_block, Hw2; unfold old; lia).
  destruct (split_len r (header_length two)) as (h & r1 & -> & Hh); [lia|]. rewrite len_app in Hlr.
  destruct (split_len r1 n) as (x & r2 & -> & Hx); [unfold new in *; lia|]. rewrite len_app in Hlr.
  destruct (split_len r2 (4 * ext_words new - new)) as (z & r3 & -> & Hz); [unfold new in *; lia|].
  rewrite len_app in Hlr. set (es := exts a ++ [(i, x)]).
  assert (Hblk : block two es = block two (exts a) ++ ext_header two i n ++ x).
  { unfold es. rewrite block_app, block_one. unfold item. cbn [fst snd]. by rewrite Hx. }
  assert (Hnew : len (block two es) = new) by (rewrite Hblk; len_simpl; unfold new, old; lia).
  assert (Hoke : rtp_ok (with_exts two es a)).
  { rewrite !bytes_ok_app in Hbr. destruct Hok. constructor; try done; cbn [exts two_byte with_exts].
    - apply Forall_app. split.
      + destruct Htwo as [->| ->]; [constructor|done].
      + constructor; [|constructor]. unfold ext_ok. cbn [fst snd]. rewrite Hx.
        destruct Hfit. tauto.
    - unfold es. rewrite fmap_app. apply NoDup_app. split; [done|]. split; [|apply NoDup_singleton].
      intros j Hj Hj'. apply list_elem_of_singleton in Hj' as ->. done. }
  exists x. split; [done|]. unfold RtpPacket.append_extension. step_get.
  rewrite header_size_eq, ext_size_eq. fold old. fold new.
  rewrite (proj2 (Z.ltb_ge _ _)) by lia. rewrite ext_size_eq in R1.
  step_with R1. set (q := RtpPacket.set_buffer b p) in *.
  erewrite P_bind.
  2:{ eapply (write_item_header g two i n q pf (pre_block two a ++ w2 ++ block two (exts a)) h
        (x ++ z ++ r3) sz); [|done| |done].
      - by rewrite <- !app_assoc.
      - rewrite !len_app, len_pre_block, Hw2. unfold old. lia. }
  step_check. step_check. step_get. step_get.
  erewrite P_bind.
  2:{ apply (set_length_ok g _ pf (pre_block two a) w2 (block two es) z r3 sz).
      - apply owns_own; [|apply not_nil_len; rewrite len_app, len_pre_block;
          pose proof (len_nonneg (w2 ++ block two es ++ z ++ r3)); lia].
        rewrite Hblk, <- !app_assoc. done.
      - done.
      - rewrite len_pre_block. lia.
      - done.
      - rewrite Hnew, len_ext_pad; [done|unfold new; lia].
      - rewrite !len_app, len_pre_block, Hw2, Hnew. unfold new. lia. }
  rewrite Hnew. step_get.
  fold es. destruct (finish_block g p (RtpPacket.set_payload_offset (ext_start a + 4 * ext_words new)
    (RtpPacket.set_buffer (own pf (pre_block two a ++ be_bytes 2 (ext_words new) ++ block two es ++ ext_pad new ++ r3) sz)
    (RtpPacket.set_extensions_size new (RtpPacket.set_entries (RtpPacket.extension_entries_ p ++
      [RtpPacket.Info i n (ext_start a + old + header_length two)]) q)))) a two es pf r3 sz new)
    as (p' & R & Hrk); try done.
  - unfold es. by destruct (exts a).
  - intros b'. by apply (append_fields x).
  - rewrite !bytes_ok_app in Hbr. tauto.
  - unfold new in *. lia.
  - step_with R. by exists p'.
Qed.
End Append.

(** ** From one-byte to two-byte headers *)

Lemma len_block_two es : len (block true es) = len (block false es) + len es.
Proof.
  induction es as [|e es IH]; [done|]. rewrite !block_cons. len_simpl. cbn [header_length]. lia.
Qed.

(** What the loop copies: the value of the last extension. *)
Lemma view_bytes_at p pre d post off n :
  RtpPacket.data p = pre ++ d ++ post -> off = len pre -> n = len d ->
  RtpPacket.view_bytes p (off, n) = Some d.
Proof.
  intros Hd -> ->. unfold RtpPacket.view_bytes, RtpPacket.capacity, Value.capacity. cbn [fst snd].
  fold (RtpPacket.data p). rewrite Hd, !len_app. pose proof (len_nonneg pre). pose proof (len_nonneg post).
  rewrite (proj2 (Z.leb_le 0 _)), (proj2 (Z.leb_le (len pre + _) _)) by lia. cbn [andb].
  rewrite ptr_add_app_ge, Z.sub_diag by lia. rewrite ptr_add_0. unfold len. by rewrite Nat2Z.id, take_app_length.
Qed.

(** Moving one value up by [k + 1] bytes and writing its new header before it. *)
Lemma promote_item g p pf pre hdr d j post sz i k :
  owns g p pf (pre ++ [hdr] ++ d ++ j ++ post) sz -> 0 <= k -> len j = k + 1 -> bytes_ok d ->
  byte_ok i -> byte_ok (len d) ->
  exists j' b1 b2,
    RtpPacket.on_data g (memcpy (len pre + 1 + (k + 1)) d) p =
      Some (tt, RtpPacket.set_buffer b1 p) /\
    RtpPacket.WriteAt g (len pre + 1 + (k + 1) - 1) (len d) (RtpPacket.set_buffer b1 p) =
      Some (tt, RtpPacket.set_buffer b2 p) /\
    RtpPacket.WriteAt g (len pre + 1 + (k + 1) - 2) i (RtpPacket.set_buffer b2 p) =
      Some (tt, RtpPacket.set_buffer (own pf (pre ++ j' ++ item true (i, d) ++ post) sz) p) /\
    len j' = k.
Proof.
  intros Ho Hk Hj Hd Hi Hn. pose proof (len_nonneg pre). pose proof (len_nonneg d).
  set (old := [hdr] ++ d ++ j). assert (Hold : len old = k + 2 + len d) by (unfold old; len_simpl; lia).
  destruct (split_len old k) as (j' & o1 & E1 & Hj'); [lia|].
  assert (Ho1 : len o1 = 2 + len d) by (rewrite E1, len_app in Hold; lia).
  destruct o1 as [|y1 [|y2 o2]]; try (unfold len in Ho1; cbn in Ho1; lia).
  rewrite !len_cons in Ho1.
  assert (Hm : forall u, pre ++ [hdr] ++ d ++ j ++ u = pre ++ j' ++ y1 :: y2 :: o2 ++ u).
  { intros u. transitivity (pre ++ old ++ u); [unfold old; by rewrite <- !app_assoc|].
    rewrite E1, <- !app_assoc. done. }
  rewrite Hm in Ho. exists j', (own pf (pre ++ j' ++ [y1] ++ [y2] ++ d ++ post) sz),
    (own pf (pre ++ j' ++ [y1] ++ [len d] ++ d ++ post) sz).
  assert (Hne : forall u y, pre ++ j' ++ [y] ++ u <> []) by (intros; by destruct pre, j').
  split; [|split; [|split; [|done]]].
  - rewrite (owns_write g _ p pf _ sz (len pre + 1 + (k + 1)) (pre ++ j' ++ [y1; y2]) o2 post d Ho).
    + by rewrite <- !app_assoc.
    + by apply stores_memcpy.
    + by rewrite <- !app_assoc.
    + rewrite !len_app. change (len [y1; y2]) with 2. lia.
    + lia.
  - unfold RtpPacket.WriteAt.
    rewrite (owns_write g _ _ pf (pre ++ j' ++ [y1] ++ [y2] ++ d ++ post) sz
      (len pre + 1 + (k + 1) - 1) (pre ++ j' ++ [y1]) [y2] (d ++ post) [len d]).
    + by rewrite <- !app_assoc.
    + by apply owns_own.
    + by apply stores_byte.
    + by rewrite <- !app_assoc.
    + rewrite !len_app. change (len [y1]) with 1. lia.
    + done.
  - unfold RtpPacket.WriteAt.
    rewrite (owns_write g _ _ pf (pre ++ j' ++ [y1] ++ [len d] ++ d ++ post) sz
      (len pre + 1 + (k + 1) - 2) (pre ++ j') [y1] ([len d] ++ d ++ post) [i]).
    + unfold item, ext_header. cbn [fst snd]. rewrite <- !app_assoc. done.
    + by apply owns_own.
    + by apply stores_byte.
    + by rewrite <- !app_assoc.
    + rewrite len_app. lia.
    + done.
Qed.

Lemma promote_loop_ok g pf pre sz es p j post tl :
  Forall (ext_ok false) es ->
  owns g p pf (pre ++ block false es ++ j ++ post) sz -> len j = len es ->
  RtpPacket.data p = pre ++ block false es ++ tl ->
  len (pre ++ block false es ++ j ++ post) <= 65535 ->
  exists q, RtpPacket.promote_loop g (rev (entries_of false (len pre) es)) (len es) p =
      Some (entries_of true (len pre) es, RtpPacket.set_buffer (RtpPacket.buffer_ q) p) /\
    owns g q pf (pre ++ block true es ++ post) sz.
Proof.
  revert p j post tl. induction es as [|[i d] es IH] using rev_ind; intros p j post tl He Ho Hj Hd Hl.
  - exists p. cbn [rev entries_of RtpPacket.promote_loop]. apply len_0_nil in Hj as ->.
    split; [|done]. by destruct p.
  - rewrite len_app in Hj. change (len [(i, d)]) with 1 in Hj.
    apply Forall_app in He as [He Hid]. apply Forall_inv in Hid as (Hi & Hn & Hbd).
    cbn [fst snd] in Hi, Hn, Hbd. pose proof (len_nonneg es).
    rewrite block_app, block_one in Ho, Hd, Hl. unfold item, ext_header in Ho, Hd, Hl. cbn [fst snd] in Ho, Hd, Hl.
    set (pre' := pre ++ block false es).
    destruct (promote_item g p pf pre' (i * 16 + (len d - 1)) d j post sz i (len es))
      as (j' & b1 & b2 & R1 & R2 & R3 & Hj'); [|lia|done|done|unfold byte_ok; lia|unfold byte_ok; lia|].
    { unfold pre'. by rewrite <- !app_assoc in Ho |- *. }
    rewrite entries_of_app. cbn [entries_of]. rewrite rev_app_distr. cbn [rev app RtpPacket.promote_loop].
    cbn [RtpPacket.offset RtpPacket.length RtpPacket.id header_length].
    assert (Hlp : len pre' = len pre + len (block false es)) by (unfold pre'; by rewrite len_app).
    rewrite <- Hlp, len_app. change (len [(i, d)]) with 1.
    assert (Hlm : len pre' + 1 + len d + len j <= 65535).
    { rewrite Hlp. len_simpl. pose proof (len_nonneg post). lia. }
    step_check. step_get.
    rewrite (view_bytes_at p (pre' ++ [i * 16 + (len d - 1)]) d tl);
      [|rewrite Hd; unfold pre'; by rewrite <- !app_assoc|by rewrite len_app|done].
    step_with R1. step_with R2. step_with R3.
    set (q := RtpPacket.set_buffer _ p).
    destruct (IH q j' (item true (i, d) ++ post) (j' ++ item true (i, d) ++ post)) as (q' & R & Ho'); try done.
    + apply owns_own; [unfold q, pre'; cbn [RtpPacket.buffer_ RtpPacket.set_buffer]; by rewrite <- !app_assoc|].
      apply not_nil_len. len_simpl. pose proof (len_nonneg pre). pose proof (len_nonneg (block false es)).
      pose proof (len_nonneg post). cbn [header_length snd] in *. lia.
    + unfold q, pre', RtpPacket.data. cbn [RtpPacket.buffer_ RtpPacket.set_buffer own Value.mem].
      by rewrite <- !app_assoc.
    + len_simpl. cbn [header_length snd]. lia.
    + replace (len es + 1 - 1) with (len es) by lia. step_with R.
      exists q'. split.
      * rewrite entries_of_app, len_block_two. cbn [entries_of header_length].
        by replace (len pre' + 1 + (len es + 1)) with (len pre + (len (block false es) + len es) + 2) by lia.
      * rewrite block_app, block_one, <- app_assoc. exact Ho'.
Qed.

(** Reading the profile of a packet with extensions. *)
Lemma read_profile p a s :
  repr p a s -> payload a = [] -> padding a = 0 -> exts a <> [] ->
  RtpPacket.read_be 16 2 (ext_start a - 4) p = Some (profile (two_byte a), p).
Proof.
  intros [Hok Hf Hh] Hp Hpd He. destruct (h_mem _ _ Hh) as [tl Hm].
  assert (Hwe : with_exts (two_byte a) (exts a) a = a) by (by destruct a).
  pose proof (with_exts_wire (two_byte a) (exts a) a He Hp Hpd) as Hw. rewrite Hwe in Hw.
  unfold RtpPacket.read_be. rewrite Hm, Hw. unfold pre_block. rewrite <- !app_assoc.
  rewrite ptr_add_app_ge, len_pre_profile, Z.sub_diag, ptr_add_0 by (rewrite len_pre_profile; lia).
  rewrite ReadBigEndian_bytes; [done|lia|by destruct (two_byte a)].
Qed.

Lemma promote_fields p a b :
  built p a -> exts a <> [] -> two_byte a = false ->
  fields_ok (RtpPacket.set_buffer b (RtpPacket.set_payload_offset
    (ext_start a + 4 * ext_words (len (block true (exts a))))
    (RtpPacket.set_extensions_size (RtpPacket.extensions_size_ p + len (exts a))
      (RtpPacket.set_entries (entries_of true (ext_start a) (exts a)) p))))
    (with_exts true (exts a) a) 0.
Proof.
  intros Hr He Ht. destruct (r_fields _ _ _ Hr) as [? ? ? ? ? ? ? ? Hen Hsz ?]. constructor; try done.
  - rewrite len_header, len_ext_bytes. cbn [RtpPacket.payload_offset_ RtpPacket.set_buffer
      RtpPacket.set_payload_offset csrcs two_byte exts with_exts]. unfold ext_start.
    destruct (exts a); [done|]. lia.
  - change (RtpPacket.extensions_size_ p + len (exts a) = len (block true (exts a)) + 0).
    rewrite Hsz, Ht, len_block_two. lia.
  - split; [lia|apply len_nonneg].
Qed.

Lemma rtp_ok_two a : rtp_ok a -> two_byte a = false -> rtp_ok (with_exts true (exts a) a).
Proof.
  intros [? ? ? ? ? ? He ? ? ?] Ht. constructor; try done. cbn [exts two_byte with_exts].
  rewrite Ht in He. eapply Forall_impl; [exact He|]. intros e (H1 & H2 & H3).
  split; [lia|]. split; [lia|done].
Qed.

(** [PromoteToTwoByteHeaderExtension]: the same extensions behind two-byte headers. *)
Lemma Promote_ok g p a :
  bytes_ok g -> built p a -> payload a = [] -> padding a = 0 -> exts a <> [] ->
  two_byte a = false ->
  ext_start a + 4 * ext_words (len (block true (exts a))) <= RtpPacket.capacity p ->
  does (RtpPacket.PromoteToTwoByteHeaderExtension g) p tt (with_exts true (exts a) a) 0.
Proof.
  intros Hg Hr Hp Hpd He Ht Hc. pose proof Hr as [Hok Hf Hh]. set (es := exts a) in *.
  set (cc := len (csrcs a)). assert (Hcc : 0 <= cc <= 15) by (apply (cc_range p a Hr)).
  assert (Hst : ext_start a = 12 + cc * 4 + 4) by (unfold ext_start, cc; lia).
  assert (Hoe : Forall (ext_ok false) es) by (destruct Hok; unfold es; by rewrite <- Ht).
  destruct (holds_own g p _ Hh (wire_not_nil a) Hg) as (pf & rest & Hd & Hcap & Hbw & Hbr & Hd').
  assert (Hwe : with_exts false es a = a) by (destruct a; cbn in *; by subst).
  pose proof (with_exts_wire false es a He Hp Hpd) as Hw. rewrite Hwe in Hw.
  set (blk := block false es) in *. pose proof (len_nonneg es) as Hes0. pose proof (len_block_two es) as Hl2.
  fold blk in Hl2. set (blk2 := block true es) in *.
  set (pre := pre_block false a ++ be_bytes 2 (ext_words (len blk))).
  assert (Hlp : len pre = ext_start a) by (unfold pre; rewrite len_app, len_pre_block, len_be_bytes; lia).
  assert (Hm : forall u, rtp_wire a ++ u = pre ++ blk ++ ext_pad (len blk) ++ u)
    by (intros; unfold pre; rewrite Hw, <- !app_assoc; done).
  pose proof (ext_words_spec (len blk2) (len_nonneg blk2)) as Hws.
  assert (Hlm : len pre + len blk + len (ext_pad (len blk) ++ rest) = RtpPacket.capacity p)
    by (pose proof (f_equal len (Hm rest)) as E; rewrite !len_app in *; lia).
  destruct (split_len (ext_pad (len blk) ++ rest) (len es)) as (j & r & Er & Hj); [lia|].
  rewrite Er in Hlm. rewrite len_app in Hlm. pose proof (h_cap _ _ Hh) as Hmax.
  destruct (split_len r (4 * ext_words (len blk2) - len blk2)) as (z & r3 & -> & Hz); [lia|].
  rewrite len_app in Hlm. destruct (h_mem _ _ Hh) as [tl Htl]. rewrite Hm in Htl.
  destruct (promote_loop_ok g pf pre (len (rtp_wire a)) es p j (z ++ r3) (ext_pad (len blk) ++ tl))
    as (q & Rl & Ho); [done| |done|done|rewrite !len_app; fold blk; lia|].
  { split; [rewrite Hd, Hm, Er; done|]. apply not_nil_len. rewrite len_app.
    pose proof (len_nonneg (block false es ++ j ++ z ++ r3)). lia. }
  pose proof (f_entries _ _ _ Hf) as Hen. rewrite Ht in Hen. fold es in Hen.
  assert (Hlen : len (RtpPacket.extension_entries_ p) = len es) by (rewrite Hen; apply len_entries_of).
  assert (Hes1 : 0 < len es) by (destruct es; [done|rewrite len_cons; pose proof (len_nonneg es); lia]).
  destruct (byte0_bits (0 <? padding a) (has_exts a) cc Hcc) as (B1 & _).
  unfold RtpPacket.PromoteToTwoByteHeaderExtension, kFixedHeaderSize. step_with (read_first p a 0 Hr).
  fold cc. rewrite B1, <- Hst. step_get. step_check.
  pose proof (f_payload _ _ _ Hf) as Hps. rewrite Hp in Hps. change (len []) with 0 in Hps. step_check.
  step_with (read_profile p a 0 Hr Hp Hpd He). rewrite Ht. step_get.
  rewrite Hlen, Hen, <- Hlp. step_with Rl. step_get. rewrite Hlp.
  erewrite P_bind.
  2:{ eapply (owns_write g _ _ pf _ _ (ext_start a - 4) (pre_profile a) (be_bytes 2 (profile false))
        (be_bytes 2 (ext_words (len blk)) ++ blk2 ++ z ++ r3)); [by eapply owns_same; [|exact Ho]| | | |].
      - apply stores_WriteBigEndian.
      - unfold pre, pre_block. by rewrite <- !app_assoc.
      - by rewrite len_pre_profile.
      - done. }
  rewrite len_entries_of. step_get.
  erewrite P_bind.
  2:{ apply (set_length_ok g _ pf (pre_block true a) (be_bytes 2 (ext_words (len blk))) blk2 z r3 (len (rtp_wire a))).
      - apply owns_own; [unfold pre_block; cbn; rewrite <- !app_assoc; done|]. by unfold pre_block, pre_profile.
      - done.
      - rewrite len_pre_block. lia.
      - pose proof (f_ext_size _ _ _ Hf) as E. rewrite Ht in E. fold es blk in E. cbn. lia.
      - rewrite len_ext_pad; [done|apply len_nonneg].
      - rewrite !len_app, len_pre_block, len_be_bytes. lia. }
  step_get. eapply finish_block; try done.
  - apply (rtp_ok_two a Hok Ht).
  - intros b. by apply promote_fields.
  - assert (H : bytes_ok (ext_pad (len blk) ++ rest)) by (apply bytes_ok_app; split; [apply ext_pad_ok|done]).
    rewrite Er, !bytes_ok_app in H. tauto.
  - lia.
Qed.

(** ** Allocating an extension *)

(** The position of the value of an extension. *)
Fixpoint find_ext (two : bool) (off : Z) (es : list (Z * list Z)) (i : Z) : option (Z * list Z) :=
  match es with
  | [] => None
  | (j, d) :: rest =>
      if j =? i then Some (off + header_length two, d)
      else find_ext two (off + header_length two + len d) rest i
  end.

Lemma find_info_entries two off es i :
  RtpPacket.find_info (entries_of two off es) i =
  (fun od => RtpPacket.Info i (len od.2) od.1) <$> find_ext two off es i.
Proof.
  revert off. induction es as [|[j d] es IH]; intros off; cbn [entries_of RtpPacket.find_info find_ext]; [done|].
  cbn [RtpPacket.id]. destruct (Z.eqb_spec j i) as [->|]; [done|]. apply IH.
Qed.

Lemma find_ext_None two off es i : (find_ext two off es i = None) <-> (i ∉ es.*1).
Proof.
  revert off. induction es as [|[j d] es IH]; intros off; cbn [find_ext fmap list_fmap fst].
  - split; [intros _; apply not_elem_of_nil|done].
  - rewrite not_elem_of_cons. destruct (Z.eqb_spec j i) as [->|Hne].
    + split; [done|intros [? _]; congruence].
    + rewrite IH. split; [by intros; split; [intros ->|]|tauto].
Qed.

(** The bytes around the value of an extension. *)
Lemma find_ext_split two off es i o d :
  find_ext two off es i = Some (o, d) ->
  exists l r, es = l ++ ((i, d) :: r) /\ (i ∉ l.*1) /\ o = off + len (block two l) + header_length two.
Proof.
  revert off. induction es as [|[j e] es IH]; intros off; cbn [find_ext]; [done|].
  destruct (Z.eqb_spec j i) as [->|Hne].
  - intros [= <- <-]. exists [], es. split; [done|]. split; [apply not_elem_of_nil|].
    change (len (block two [])) with 0. lia.
  - intros H. apply IH in H as (l & r & -> & Hl & ->). exists ((j, e) :: l), r. split; [done|].
    split; [by apply not_elem_of_cons; split; [intros ->|]|]. rewrite block_cons. len_simpl. cbn [snd]. lia.
Qed.

Definition needs_two (i n : Z) : bool := (14 <? i) || (16 <? n).

Definition new_two (a : rtp) (i n : Z) : bool :=
  match exts a with [] => needs_two i n | _ => two_byte a || needs_two i n end.

(** The size of the block with the new extension. *)
Definition new_size (a : rtp) (i n : Z) : Z :=
  len (block (new_two a i n) (exts a)) + header_length (new_two a i n) + n.

Lemma ext_fits_needs a i n :
  1 <= i <= 255 -> 1 <= n <= 255 -> ext_fits (new_two a i n) i n.
Proof.
  intros Hi Hn. unfold ext_fits, new_two, needs_two.
  destruct (Z.ltb_spec 14 i), (Z.ltb_spec 16 n), (exts a), (two_byte a); cbn; lia.
Qed.

Lemma repr_keeps p a s b :
  repr p a s -> holds (RtpPacket.set_buffer b p) (rtp_wire a) -> repr (RtpPacket.set_buffer b p) a s.
Proof. intros [Hok Hf Hh] Hb. constructor; [done| |done]. destruct Hf. by constructor. Qed.

Section Allocate.
Context (g : list Z) (Hg : bytes_ok g) (p : RtpPacket.t) (a : rtp).
Context (i n : Z) (Hi : 1 <= i <= 255) (Hn : 1 <= n <= 255).

Lemma alloc_checks {A} (k : RtpPacket.P A) q :
  (dcheck (kMinId <=? i) ;; dcheck (i <=? kMaxId) ;; dcheck (1 <=? n) ;;
   dcheck (n <=? kMaxValueSize) ;; k) q = k q.
Proof using Hi Hn.
  unfold kMinId, kMaxId, kMaxValueSize. by do 4 step_check.
Qed.

Lemma alloc_found_info s o d :
  repr p a s -> find_ext (two_byte a) (ext_start a) (exts a) i = Some (o, d) ->
  RtpPacket.FindExtensionInfo p i = Some (RtpPacket.Info i (len d) o).
Proof using.
  intros Hr Hfi. unfold RtpPacket.FindExtensionInfo.
  by rewrite (f_entries _ _ _ (r_fields _ _ _ Hr)), find_info_entries, Hfi.
Qed.

Lemma alloc_new_info s :
  repr p a s -> i ∉ (exts a).*1 -> RtpPacket.FindExtensionInfo p i = None.
Proof using.
  intros Hr Hfi. unfold RtpPacket.FindExtensionInfo.
  rewrite (f_entries _ _ _ (r_fields _ _ _ Hr)), find_info_entries.
  by rewrite (proj2 (find_ext_None (two_byte a) (ext_start a) (exts a) i) Hfi).
Qed.

(** The extension is there with this length: its place is returned. *)
Lemma alloc_again s o d :
  repr p a s -> find_ext (two_byte a) (ext_start a) (exts a) i = Some (o, d) -> len d = n ->
  does (RtpPacket.AllocateRawExtension g i n) p (Some (o, n)) a s.
Proof using Hg Hi Hn.
  intros Hr Hfi Hd. unfold RtpPacket.AllocateRawExtension. unfold does. rewrite alloc_checks. step_get.
  rewrite (alloc_found_info s o d Hr Hfi). cbn [RtpPacket.length RtpPacket.offset]. rewrite Hd, Z.eqb_refl.
  destruct (on_data_id g Hg p _ (r_holds _ _ _ Hr) (wire_not_nil a)) as (b & R & Hb & Hc).
  step_with R. eexists. split; [done|]. split; [by apply repr_keeps|]. done.
Qed.

Lemma alloc_mismatch s o d :
  repr p a s -> find_ext (two_byte a) (ext_start a) (exts a) i = Some (o, d) -> len d <> n ->
  RtpPacket.AllocateRawExtension g i n p = Some (None, p).
Proof using Hi Hn.
  intros Hr Hfi Hd. unfold RtpPacket.AllocateRawExtension. rewrite alloc_checks. step_get.
  rewrite (alloc_found_info s o d Hr Hfi). cbn [RtpPacket.length]. by rewrite (proj2 (Z.eqb_neq _ _) Hd).
Qed.

Lemma alloc_late s :
  repr p a s -> i ∉ (exts a).*1 -> payload a <> [] \/ padding a <> 0 ->
  RtpPacket.AllocateRawExtension g i n p = Some (None, p).
Proof using Hi Hn.
  intros Hr Hfi Hd. pose proof Hr as [Hok Hf Hh].
  unfold RtpPacket.AllocateRawExtension. rewrite alloc_checks. step_get.
  rewrite (alloc_new_info s Hr Hfi), (f_payload _ _ _ Hf), (f_padding _ _ _ Hf).
  destruct (payload a) as [|x l] eqn:E.
  - destruct Hd as [|Hd]; [done|]. cbn [len length Z.of_nat Z.ltb]. pose proof (ok_padding a Hok).
    rewrite (proj2 (Z.ltb_lt 0 (padding a))) by lia. done.
  - rewrite len_cons. pose proof (len_nonneg l). by rewrite (proj2 (Z.ltb_lt _ _)) by lia.
Qed.

(** Adding the extension in a packet that has no payload and no padding yet. *)
Context (Hr : built p a) (Hp : payload a = []) (Hpd : padding a = 0) (Hfi : i ∉ (exts a).*1).
Context (Hmix : needs_two i n = true ->
  RtpHeaderExtensionMap.ExtmapAllowMixed (RtpPacket.extensions_ p) = true).

Let two := new_two a i n.

(** The choice of the header form, up to the call of the second half. *)
Lemma alloc_start :
  RtpPacket.AllocateRawExtension g i n p =
  (if negb (has_exts a) || Bool.eqb (two_byte a) two then
     RtpPacket.append_extension g i n (ext_start a) (len (csrcs a)) (profile two)
   else if RtpPacket.capacity p <? ext_start a + new_size a i n then mret None else
     RtpPacket.PromoteToTwoByteHeaderExtension g ;;
     RtpPacket.append_extension g i n (ext_start a) (len (csrcs a)) (profile two)) p.
Proof using Hr Hi Hn Hp Hpd Hfi Hmix.
  pose proof Hr as [Hok Hf Hh]. unfold RtpPacket.AllocateRawExtension. rewrite alloc_checks by done. step_get.
  rewrite (alloc_new_info 0 Hr Hfi), (f_payload _ _ _ Hf), (f_padding _ _ _ Hf), Hp, Hpd.
  change (0 <? len []) with false. change (0 <? 0) with false. cbv iota. step_with (read_first p a 0 Hr).
  destruct (byte0_bits (0 <? padding a) (has_exts a) (len (csrcs a)) (cc_range p a Hr)) as (B1 & _).
  rewrite B1. unfold kFixedHeaderSize.
  replace (12 + len (csrcs a) * 4 + 4) with (ext_start a) by (unfold ext_start; lia).
  assert (Hreq : (kOneByteHeaderExtensionMaxId <? i) || (kOneByteHeaderExtensionMaxValueSize <? n) || (n =? 0) = needs_two i n).
  { unfold needs_two, kOneByteHeaderExtensionMaxId, kOneByteHeaderExtensionMaxValueSize.
    rewrite (proj2 (Z.eqb_neq n 0)) by lia. apply orb_false_r. }
  rewrite Hreq. erewrite P_bind; [|apply dcheck_pass; destruct (needs_two i n); cbn; auto].
  rewrite (f_ext_size _ _ _ Hf). destruct (decide (exts a = [])) as [He|He].
  - unfold two, new_two, has_exts. rewrite He. change (0 <? len (block (two_byte a) []) + 0) with false.
    cbn [negb orb]. by destruct (needs_two i n).
  - pose proof (block_nonempty _ _ (ok_exts a Hok) He) as Hb. rewrite (proj2 (Z.ltb_lt 0 _)) by lia.
    step_with (read_profile p a 0 Hr Hp Hpd He).
    assert (Ht2 : two = two_byte a || needs_two i n) by (unfold two, new_two; by destruct (exts a)).
    assert (Hhas : has_exts a = true) by (unfold has_exts; by destruct (exts a)).
    rewrite Hhas, Ht2. cbn [negb orb]. destruct (two_byte a) eqn:Et; [by cbn|].
    destruct (needs_two i n) eqn:En; [|by cbn]. cbn [orb Bool.eqb profile andb].
    rewrite Z.eqb_refl. cbn [andb].
    replace (ext_start a + _) with (ext_start a + new_size a i n); [done|].
    rewrite (f_entries _ _ _ Hf), len_entries_of. unfold new_size. fold two. rewrite Ht2.
    cbn [orb header_length]. rewrite len_block_two. unfold kTwoByteExtensionHeaderLength. lia.
Qed.

Lemma alloc_no_room :
  RtpPacket.capacity p < ext_start a + new_size a i n ->
  RtpPacket.AllocateRawExtension g i n p = Some (None, p).
Proof using Hr Hi Hn Hp Hpd Hfi Hmix.
  intros Hc. rewrite alloc_start. destruct (negb (has_exts a) || Bool.eqb (two_byte a) two) eqn:E.
  - apply append_full; [done| |exact Hc]. unfold has_exts in E. destruct (exts a); [by left|right].
    cbn [negb orb] in E. symmetry. by apply eqb_prop.
  - by rewrite (proj2 (Z.ltb_lt _ _)) by lia.
Qed.

Lemma alloc_ok :
  ext_start a + 4 * ext_words (new_size a i n) <= RtpPacket.capacity p ->
  exists x, len x = n /\
    does (RtpPacket.AllocateRawExtension g i n) p
      (Some (ext_start a + len (block two (exts a)) + header_length two, n))
      (with_exts two (exts a ++ [(i, x)]) a) 0.
Proof using Hg Hr Hi Hn Hp Hpd Hfi Hmix.
  intros Hc. pose proof (ext_fits_needs a i n Hi Hn) as Hfit. fold two in Hfit.
  pose proof (len_nonneg (block two (exts a))) as Hb0.
  assert (Hhl : 1 <= header_length two <= 2) by (destruct two; cbn; lia).
  assert (Hns : new_size a i n = len (block two (exts a)) + header_length two + n) by done.
  pose proof (ext_words_spec (new_size a i n) ltac:(lia)) as Hws.
  unfold does. setoid_rewrite alloc_start.
  destruct (negb (has_exts a) || Bool.eqb (two_byte a) two) eqn:E.
  - apply append_ok; try done; [|lia]. unfold has_exts in E. destruct (exts a); [by left|right].
    cbn [negb orb] in E. symmetry. by apply eqb_prop.
  - rewrite (proj2 (Z.ltb_ge _ _)) by lia.
    assert (Hhas : has_exts a = true) by (by destruct (has_exts a)).
    assert (He : exts a <> []) by (unfold has_exts in Hhas; by destruct (exts a)).
    assert (Ht2 : two = true /\ two_byte a = false).
    { rewrite Hhas in E. cbn [negb orb] in E. unfold two, new_two in *. destruct (exts a); [done|].
      destruct (two_byte a), (needs_two i n); done. }
    destruct Ht2 as [Ht2 Ht]. rewrite Ht2 in *.
    destruct (Promote_ok g p a) as (p1 & R1 & Hr1 & Hc1 & Hx1); try done.
    { unfold ext_words in *. Z.to_euclidean_division_equations; lia. }
    destruct (append_ok g Hg p1 (with_exts true (exts a) a) true) with (i := i) (n := n) as (x & Hx & p2 & R2 & Hr2 & Hc2 & Hx2);
      try done; [by right|rewrite Hc1; change (ext_start (with_exts true (exts a) a)) with (ext_start a); lia| |].
    { rewrite Hc1. rewrite Hns in Hc. exact Hc. }
    exists x. split; [done|]. step_with R1. exists p2. split; [exact R2|]. split; [exact Hr2|].
    split; congruence.
Qed.
End Allocate.
