(* ===== verification/RtpRefine.v ===== *)
(** * RTP packets refine their abstract specification

    Sequences of building operations against the abstract packet, and the typed header extensions
    on top of the raw ones. *)

From S2P Require Import Prelude Buffer ByteIo CowBuffer RtpExtensionMap HeaderExtensions.
From S2P Require Import RtpPacket RtpSpec RtpBuild RtpExtend.
Import ByteReader ByteWriter.

Lemma kept_refl p : kept p p.
Proof. done. Qed.

Lemma kept_trans p q r : kept p q -> kept q r -> kept p r.
Proof. unfold kept. intros [] []. split; congruence. Qed.

Lemma does_ret {A} (r : A) p a s : repr p a s -> does (mret r) p r a s.
Proof. intros. by exists p. Qed.

Lemma does_bind {A B} (m : RtpPacket.P A) (k : A -> RtpPacket.P B) p r r' a1 a2 s1 s2 :
  does m p r a1 s1 ->
  (forall p1, repr p1 a1 s1 -> kept p p1 -> does (k r) p1 r' a2 s2) ->
  does (@mbind RtpPacket.P (ST_bind RtpPacket.t) A B k m) p r' a2 s2.
Proof.
  intros (p1 & R1 & Hr1 & Hk1) H. destruct (H p1 Hr1 Hk1) as (p2 & R2 & Hr2 & Hk2).
  exists p2. step_with R1. split; [done|]. split; [done|]. by eapply kept_trans.
Qed.

(** ** Writing the value of an extension *)

Definition set_ext (i : Z) (d : list Z) (es : list (Z * list Z)) : list (Z * list Z) :=
  (fun e => if e.1 =? i then (i, d) else e) <$> es.

Lemma set_ext_fresh i d es : i ∉ es.*1 -> set_ext i d es = es.
Proof.
  induction es as [|[j e] es IH]; [done|]. cbn [fmap list_fmap fst]. rewrite not_elem_of_cons.
  intros [Hj Hi]. unfold set_ext in *. cbn [fmap list_fmap fst]. rewrite IH by done.
  by rewrite (proj2 (Z.eqb_neq j i)) by congruence.
Qed.

Lemma set_ext_split i d d' l r :
  NoDup (l ++ (i, d) :: r).*1 -> set_ext i d' (l ++ (i, d) :: r) = l ++ (i, d') :: r.
Proof.
  rewrite fmap_app. cbn [fmap list_fmap fst]. intros Hn. apply NoDup_app in Hn as (_ & Hl & Hr).
  apply NoDup_cons in Hr as [Hr _]. unfold set_ext. rewrite fmap_app.
  fold (set_ext i d' l). rewrite set_ext_fresh by (intros Hin; apply (Hl i Hin); constructor).
  cbn [fmap list_fmap fst]. rewrite Z.eqb_refl. do 2 f_equal. by apply set_ext_fresh.
Qed.

(** The bytes before and behind the value of an extension. *)
Lemma wire_at_ext a l i d r d' :
  exts a = l ++ (i, d) :: r -> len d' = len d ->
  exists pre post, rtp_wire a = pre ++ d ++ post /\
    rtp_wire (with_exts (two_byte a) (l ++ (i, d') :: r) a) = pre ++ d' ++ post /\
    len pre = ext_start a + len (block (two_byte a) l) + header_length (two_byte a).
Proof.
  intros He Hd. set (t := two_byte a).
  assert (Hl : len (block t (l ++ (i, d') :: r)) = len (block t (l ++ (i, d) :: r))).
  { rewrite !block_app, !block_cons. len_simpl. cbn [snd]. lia. }
  assert (Hne : forall x, l ++ (i, x) :: r <> []) by (intros; by destruct l).
  set (w := be_bytes 2 (ext_words (len (block t (exts a))))).
  exists (fixed a ++ csrc_bytes (csrcs a) ++ be_bytes 2 (profile t) ++ w ++ block t l ++
          ext_header t i (len d)),
    (block t r ++ ext_pad (len (block t (exts a))) ++ payload a ++ padding_bytes (padding a)).
  assert (Hx : forall x, len x = len d ->
    ext_bytes t (l ++ (i, x) :: r) ++ payload a ++ padding_bytes (padding a) =
    be_bytes 2 (profile t) ++ w ++ block t l ++ ext_header t i (len d) ++ x ++ block t r ++
    ext_pad (len (block t (exts a))) ++ payload a ++ padding_bytes (padding a)).
  { intros x Hlx. unfold ext_bytes, w. pose proof (Hne x) as Hnx.
    assert (Hlen : len (block t (l ++ (i, x) :: r)) = len (block t (exts a))).
    { rewrite He, !block_app, !block_cons. len_simpl. cbn [snd]. lia. }
    destruct (l ++ (i, x) :: r) eqn:E; [done|]. rewrite <- E in *. rewrite Hlen.
    rewrite block_app, block_cons. unfold item. cbn [fst snd]. rewrite Hlx, <- !app_assoc. done. }
  split; [|split].
  - unfold rtp_wire, header. fold t. rewrite He at 1. rewrite <- !app_assoc, Hx by done. done.
  - unfold rtp_wire, header. cbn [two_byte exts csrcs payload padding with_exts].
    rewrite <- !app_assoc, Hx by done. unfold fixed, first_byte, second_byte.
    cbn [exts csrcs payload padding marker payload_type sequence_number timestamp ssrc with_exts].
    rewrite He. by destruct l.
  - unfold w, ext_start. len_simpl. lia.
Qed.

Lemma entries_of_lengths two off es es' :
  (fun e => (e.1, len e.2)) <$> es = (fun e => (e.1, len e.2)) <$> es' ->
  entries_of two off es = entries_of two off es'.
Proof.
  revert off es'. induction es as [|[i d] es IH]; intros off [|[j e] es'] H; try done.
  cbn [fmap list_fmap fst snd] in H. injection H as -> Hd H. cbn [entries_of]. rewrite Hd. f_equal.
  by apply IH.
Qed.

Section Value.
Context (g : list Z) (Hg : bytes_ok g).

Lemma write_value p a s l i d r d' o :
  repr p a s -> exts a = l ++ (i, d) :: r -> len d' = len d -> bytes_ok d' ->
  o = ext_start a + len (block (two_byte a) l) + header_length (two_byte a) ->
  does (RtpPacket.on_data g (memcpy o d')) p tt (with_exts (two_byte a) (l ++ (i, d') :: r) a) s.
Proof using Hg.
  intros Hr He Hl Hb ->. pose proof Hr as [Hok Hf Hh].
  destruct (wire_at_ext a l i d r d' He Hl) as (pre & post & Hw & Hw' & Hpre).
  assert (Hblk : len (block (two_byte a) (l ++ (i, d') :: r)) = len (block (two_byte a) (exts a))).
  { rewrite He, !block_app, !block_cons. len_simpl. cbn [snd]. lia. }
  eapply (field_write g p p a _ s _ _ pre d post d'); try done.
  - by apply stores_memcpy.
  - destruct Hok as [? ? ? ? ? ? Hoe Hid ? ?]. rewrite He in Hoe, Hid. constructor; try done; cbn [exts two_byte with_exts].
    + apply Forall_app in Hoe as [H1 H2]. apply Forall_cons in H2 as [(H2 & H3 & _) H4].
      apply Forall_app. split; [done|]. constructor; [|done].
      split; [done|]. cbn [snd] in *. by rewrite Hl.
    + rewrite fmap_app in Hid |- *. done.
  - destruct Hf as [? ? ? ? ? Hoff ? ? Hen Hsz Hsl]. constructor; try done; cbn [exts two_byte with_exts].
    + rewrite Hoff, !len_header, !len_ext_bytes. cbn [exts two_byte with_exts csrcs]. rewrite Hblk, He.
      by destruct l.
    + rewrite Hen, He. apply entries_of_lengths. rewrite !fmap_app. cbn [fmap list_fmap fst snd]. by rewrite Hl.
    + by rewrite Hblk.
    + by rewrite Hblk.
Qed.

(** A view of the value of an extension. *)
Lemma view_value p a s l i d r o :
  repr p a s -> exts a = l ++ (i, d) :: r ->
  o = ext_start a + len (block (two_byte a) l) + header_length (two_byte a) ->
  RtpPacket.view_bytes p (o, len d) = Some d.
Proof using.
  intros Hr He ->. destruct (wire_at_ext a l i d r d He eq_refl) as (pre & post & Hw & _ & Hpre).
  destruct (h_mem _ _ (r_holds _ _ _ Hr)) as [tl Hm].
  eapply (view_bytes_at p pre d (post ++ tl)); [|done|done]. by rewrite Hm, Hw, <- !app_assoc.
Qed.

(** A writer that fills the view with [d']. *)
Lemma write_to_value p a s l i d r d' o m :
  repr p a s -> exts a = l ++ (i, d) :: r -> len d' = len d -> bytes_ok d' ->
  o = ext_start a + len (block (two_byte a) l) + header_length (two_byte a) ->
  (forall view, len view = len d' -> write_view m view = Some (true, d')) ->
  does (RtpPacket.write_to_view g o (len d) m) p true (with_exts (two_byte a) (l ++ (i, d') :: r) a) s.
Proof using Hg.
  intros Hr He Hl Hb Ho Hm. unfold does, RtpPacket.write_to_view.
  rewrite (view_value p a s l i d r o Hr He Ho), Hm by done.
  destruct (write_value p a s l i d r d' o Hr He Hl Hb Ho) as (p' & R & H). rewrite R. by exists p'.
Qed.
End Value.

(** ** Adding or replacing an extension *)

(** The abstract operation; [None] when the packet refuses. *)
Definition add_ext (cap : Z) (a : rtp) (i : Z) (d : list Z) : option rtp :=
  match find_ext (two_byte a) (ext_start a) (exts a) i with
  | Some (_, old) =>
      if len old =? len d then Some (with_exts (two_byte a) (set_ext i d (exts a)) a) else None
  | None =>
      if bool_decide (payload a <> []) || negb (padding a =? 0) then None else
      if cap <? ext_start a + new_size a i (len d) then None else
      Some (with_exts (new_two a i (len d)) (exts a ++ [(i, d)]) a)
  end.

(** [AllocateRawExtension] and a writer for the view it returns. *)
Definition fill_extension (g : list Z) (i n : Z) (m : W bool) : RtpPacket.P bool :=
  view ← RtpPacket.AllocateRawExtension g i n;
  match view with
  | Some (off, n) => if n =? 0 then mret false else RtpPacket.write_to_view g off n m
  | None => mret false
  end.

Lemma round_up n cap : n <= cap -> cap mod 4 = 0 -> n <= 4 * ext_words n <= Z.max cap n.
Proof. intros. unfold ext_words. Z.to_euclidean_division_equations; lia. Qed.

Lemma fill_ok g p a i d m :
  bytes_ok g -> built p a -> RtpPacket.capacity p mod 4 = 0 ->
  1 <= i <= 255 -> 1 <= len d <= 255 -> bytes_ok d ->
  (needs_two i (len d) = true ->
   RtpHeaderExtensionMap.ExtmapAllowMixed (RtpPacket.extensions_ p) = true) ->
  (forall view, len view = len d -> write_view m view = Some (true, d)) ->
  match add_ext (RtpPacket.capacity p) a i d with
  | Some a' => does (fill_extension g i (len d) m) p true a' 0
  | None => does (fill_extension g i (len d) m) p false a 0
  end.
Proof.
  intros Hg Hr Hc4 Hi Hn Hb Hmix Hm. unfold add_ext, fill_extension.
  pose proof (r_ok _ _ _ Hr) as Hok.
  destruct (find_ext (two_byte a) (ext_start a) (exts a) i) as [[o old]|] eqn:Ef.
  - destruct (Z.eqb_spec (len old) (len d)) as [Hl|Hl].
    + eapply does_bind; [by eapply alloc_again|]. intros p1 Hr1 _.
      apply find_ext_split in Ef as (l & r & He & _ & Ho).
      cbv beta iota. rewrite (proj2 (Z.eqb_neq (len d) 0)) by lia. rewrite <- Hl, He.
      rewrite set_ext_split by (rewrite <- He; apply Hok). by eapply write_to_value.
    + exists p. step_with (alloc_mismatch g p a i (len d) Hi Hn 0 o old Hr Ef Hl). done.
  - pose proof (proj1 (find_ext_None _ _ _ _) Ef) as Hfi.
    destruct (bool_decide (payload a <> []) || negb (padding a =? 0)) eqn:El.
    { exists p. step_with (alloc_late g p a i (len d) Hi Hn 0 Hr Hfi ltac:(
        apply orb_true_iff in El as [El%bool_decide_eq_true|El]; [by left|right; by destruct (Z.eqb_spec (padding a) 0)])). done. }
    apply orb_false_iff in El as [El%bool_decide_eq_false Epd]. apply dec_stable in El.
    bool_prop. destruct (Z.ltb_spec (RtpPacket.capacity p) (ext_start a + new_size a i (len d))) as [Hlt|Hge].
    + exists p. step_with (alloc_no_room g p a i (len d) Hi Hn Hr El Epd Hfi Hmix Hlt). done.
    + destruct (alloc_ok g Hg p a i (len d) Hi Hn Hr El Epd Hfi Hmix) as (x & Hx & Hd).
      { unfold ext_start in *. unfold ext_words. Z.to_euclidean_division_equations. lia. }
      eapply does_bind; [exact Hd|]. intros p1 Hr1 _. cbv beta iota.
      rewrite (proj2 (Z.eqb_neq (len d) 0)) by lia.
      set (t := new_two a i (len d)) in *. rewrite <- Hx.
      exact (write_to_value g Hg p1 (with_exts t (exts a ++ [(i, x)]) a) 0 (exts a) i x [] d _ m Hr1
        eq_refl (eq_sym Hx) Hb eq_refl Hm).
Qed.

(** ** The values of the extensions of a packet *)

Fixpoint ext_value (es : list (Z * list Z)) (i : Z) : option (list Z) :=
  match es with
  | [] => None
  | (j, d) :: rest => if j =? i then Some d else ext_value rest i
  end.

Lemma find_ext_value two off es i : snd <$> find_ext two off es i = ext_value es i.
Proof.
  revert off. induction es as [|[j d] es IH]; intros off; cbn [find_ext ext_value]; [done|].
  destruct (j =? i); [done|]. apply IH.
Qed.

Lemma ext_value_set es i d j :
  ext_value (set_ext i d es) j =
  if i =? j then (fun _ => d) <$> ext_value es i else ext_value es j.
Proof.
  induction es as [|[k e] es IH]; [by destruct (i =? j)|]. unfold set_ext in *.
  cbn [fmap list_fmap fst ext_value]. destruct (Z.eqb_spec k i) as [->|Hk]; cbn [ext_value].
  - rewrite IH. by destruct (Z.eqb_spec i j) as [->|].
  - rewrite IH. destruct (Z.eqb_spec i j) as [->|]; [|done].
    by rewrite (proj2 (Z.eqb_neq k j)) by done.
Qed.

Lemma ext_value_app es i d j :
  ext_value es i = None ->
  ext_value (es ++ [(i, d)]) j = if i =? j then Some d else ext_value es j.
Proof.
  intros Hi. induction es as [|[k e] es IH]; cbn [app ext_value] in *.
  - by destruct (i =? j).
  - destruct (Z.eqb_spec k i) as [->|Hk]; [done|]. rewrite IH by done.
    destruct (Z.eqb_spec k j) as [->|]; [|done]. by destruct (Z.eqb_spec i j) as [->|].
Qed.

(** What adding or replacing an extension does to the packet. *)
Lemma add_ext_values cap a i d a' :
  add_ext cap a i d = Some a' ->
  a' = with_exts (two_byte a') (exts a') a /\
  (forall j, ext_value (exts a') j = if i =? j then Some d else ext_value (exts a) j).
Proof.
  unfold add_ext. pose proof (find_ext_value (two_byte a) (ext_start a) (exts a) i) as Hv.
  destruct (find_ext (two_byte a) (ext_start a) (exts a) i) as [[o old]|]; cbn in Hv.
  - destruct (len old =? len d); [|done]. intros [= <-]. split; [done|]. intros j.
    cbn [exts with_exts]. by rewrite ext_value_set, <- Hv.
  - destruct (_ || _); [done|]. destruct (_ <? _); [done|]. intros [= <-]. split; [done|]. intros j.
    cbn [exts with_exts]. by apply ext_value_app.
Qed.

Lemma ext_value_In es i d : ext_value es i = Some d -> (i, d) ∈ es.
Proof.
  induction es as [|[j e] es IH]; cbn [ext_value]; [done|].
  destruct (Z.eqb_spec j i) as [->|]; [intros [= ->]; constructor|]. intros H. constructor. by apply IH.
Qed.

(** [GetExtension] parses the value of the packet. *)
Lemma GetExtension_spec E p a s i prev :
  repr p a s -> RtpHeaderExtensionMap.GetId (RtpPacket.extensions_ p) (kId E) = Some i ->
  RtpPacket.GetExtension E p prev =
  match ext_value (exts a) i with
  | Some d => Parse E d prev
  | None => Some (false, prev)
  end.
Proof.
  intros Hr Hid. rewrite <- (find_ext_value (two_byte a) (ext_start a)).
  unfold RtpPacket.GetExtension, RtpPacket.FindExtension. rewrite Hid. cbn [mbind option_bind].
  unfold RtpHeaderExtensionMap.kInvalidId.
  destruct (find_ext (two_byte a) (ext_start a) (exts a) i) as [[o d]|] eqn:Ef; cbn [fmap option_fmap option_map snd].
  - pose proof (alloc_found_info p a i s o d Hr Ef) as Hfi.
    apply find_ext_split in Ef as (l & r & He & _ & Ho).
    assert (Hx : ext_ok (two_byte a) (i, d)).
    { pose proof (ok_exts a (r_ok _ _ _ Hr)) as H. rewrite He in H.
      apply Forall_app in H as [_ H]. by apply Forall_inv in H. }
    destruct Hx as (Hi & Hd & _). cbn [fst snd] in Hi, Hd.
    rewrite (proj2 (Z.eqb_neq i 0)), Hfi by lia. cbn [mbind option_bind RtpPacket.offset RtpPacket.length].
    rewrite (proj2 (Z.eqb_neq (len d) 0)) by lia. by rewrite (view_value p a s l i d r o Hr He Ho).
  - destruct (i =? 0); [done|].
    rewrite (alloc_new_info p a i s Hr (proj1 (find_ext_None _ _ _ _) Ef)). done.
Qed.

(** When [SetExtension] accepts a value for the extension [i]. *)
Definition accepts (p : RtpPacket.t) (a : rtp) (i : Z) (d : list Z) : option rtp :=
  if needs_two i (len d) && negb (RtpHeaderExtensionMap.ExtmapAllowMixed (RtpPacket.extensions_ p))
  then None else add_ext (RtpPacket.capacity p) a i d.

Lemma SetExtension_ok E `{ExtensionLaws E} g p a v i :
  bytes_ok g -> built p a -> RtpPacket.capacity p mod 4 = 0 ->
  RtpHeaderExtensionMap.GetId (RtpPacket.extensions_ p) (kId E) = Some i -> 1 <= i <= 255 ->
  valid v ->
  match accepts p a i (wire v) with
  | Some a' => does (RtpPacket.SetExtension g E v) p true a' 0
  | None => does (RtpPacket.SetExtension g E v) p false a 0
  end.
Proof.
  intros Hg Hr Hc4 Hid Hi Hv. destruct (wire_size v Hv) as (Hl & Hn & Hb). unfold kMaxValueSize in Hn.
  set (mixed := RtpHeaderExtensionMap.ExtmapAllowMixed (RtpPacket.extensions_ p)).
  assert (HA : RtpPacket.AllocateExtension g (kId E) (ValueSize E v) p =
    (if needs_two i (len (wire v)) && negb mixed then mret None
     else RtpPacket.AllocateRawExtension g i (ValueSize E v)) p).
  { unfold RtpPacket.AllocateExtension. step_get. rewrite Hid.
    unfold needs_two, kMaxValueSize, kOneByteHeaderExtensionMaxValueSize, kOneByteHeaderExtensionMaxId,
      RtpHeaderExtensionMap.kInvalidId. fold mixed. rewrite Hl.
    rewrite (proj2 (Z.eqb_neq (ValueSize E v) 0)), (proj2 (Z.ltb_ge 255 _)), (proj2 (Z.eqb_neq i 0)) by lia.
    by destruct mixed, (16 <? ValueSize E v), (14 <? i). }
  assert (HS : forall q, RtpPacket.AllocateExtension g (kId E) (ValueSize E v) q =
     RtpPacket.AllocateRawExtension g i (ValueSize E v) q ->
     RtpPacket.SetExtension g E v q = fill_extension g i (ValueSize E v) (Write E v) q).
  { intros q Hq. unfold RtpPacket.SetExtension, fill_extension, mbind, ST_bind. by rewrite Hq. }
  unfold accepts. fold mixed. destruct (needs_two i (len (wire v)) && negb mixed) eqn:En.
  - exists p. unfold RtpPacket.SetExtension. step_with HA. done.
  - unfold does. rewrite (HS p HA), <- Hl.
    apply (fill_ok g p a i (wire v) (Write E v)); try done; [lia| |].
    + fold mixed. intros Hnt. rewrite Hnt in En. by destruct mixed.
    + intros view Hview. apply write_ok; [done|lia].
Qed.

(** ** Sequences of building operations *)

Inductive rtp_op :=
  | OpMarker (b : bool)
  | OpPayloadType (v : Z)
  | OpSequenceNumber (v : Z)
  | OpTimestamp (v : Z)
  | OpSsrc (v : Z)
  | OpCsrcs (l : list Z)
  | OpExtension (i : Z) (d : list Z)   (* [AllocateRawExtension] and the bytes of the value *)
  | OpPayload (d : list Z)             (* [AllocatePayload] and the bytes of the payload *)
  | OpPadding (n : Z).

(** [memcpy(packet.AllocatePayload(n), d, n)] where the pointer is not null. *)
Definition fill_payload (g : list Z) (d : list Z) : RtpPacket.P bool :=
  dst ← RtpPacket.AllocatePayload g (len d);
  match dst with
  | Some off => RtpPacket.on_data g (memcpy off d) ;; mret true
  | None => mret false
  end.

Definition rtp_exec (g : list Z) (o : rtp_op) : RtpPacket.P bool :=
  match o with
  | OpMarker b => RtpPacket.SetMarker g b ;; mret true
  | OpPayloadType v => RtpPacket.SetPayloadType g v ;; mret true
  | OpSequenceNumber v => RtpPacket.SetSequenceNumber g v ;; mret true
  | OpTimestamp v => RtpPacket.SetTimestamp g v ;; mret true
  | OpSsrc v => RtpPacket.SetSsrc g v ;; mret true
  | OpCsrcs l => RtpPacket.SetCsrcs g l ;; mret true
  | OpExtension i d => fill_extension g i (len d) (memcpy 0 d ;; mret true)
  | OpPayload d => fill_payload g d
  | OpPadding n => RtpPacket.SetPadding g n
  end.

Fixpoint rtp_execs (g : list Z) (os : list rtp_op) : RtpPacket.P (list bool) :=
  match os with
  | [] => mret []
  | o :: rest => r ← rtp_exec g o; rs ← rtp_execs g rest; mret (r :: rs)
  end.

(** The specification of one operation on a packet of capacity [cap]: the flag and the new
    packet; [None] where the source's checks forbid the call. *)
Definition rtp_step (mixed : bool) (cap : Z) (o : rtp_op) (a : rtp) : option (bool * rtp) :=
  match o with
  | OpMarker b => Some (true, with_marker b a)
  | OpPayloadType v => if decide (0 <= v <= 127) then Some (true, with_payload_type v a) else None
  | OpSequenceNumber v => if decide (in_u 16 v) then Some (true, with_sequence_number v a) else None
  | OpTimestamp v => if decide (in_u 32 v) then Some (true, with_timestamp v a) else None
  | OpSsrc v => if decide (in_u 32 v) then Some (true, with_ssrc v a) else None
  | OpCsrcs l =>
      if decide (exts a = [] /\ payload a = [] /\ padding a = 0 /\ len l <= 15 /\
                 Forall (in_u 32) l /\ 12 + 4 * len l <= cap)
      then Some (true, with_csrcs l a) else None
  | OpExtension i d =>
      if decide (1 <= i <= 255 /\ 1 <= len d <= 255 /\ bytes_ok d /\
                 (needs_two i (len d) = true -> mixed = true))
      then Some (match add_ext cap a i d with Some a' => (true, a') | None => (false, a) end)
      else None
  | OpPayload d =>
      if decide (padding a = 0 /\ bytes_ok d)
      then Some (if len (header a) + len d <=? cap then (true, with_payload d a)
                 else (false, with_payload [] a))
      else None
  | OpPadding n =>
      if decide (0 <= n <= 255)
      then Some (if len (header a) + len (payload a) + n <=? cap then (true, with_padding n a)
                 else (false, a))
      else None
  end.

Fixpoint rtp_steps (mixed : bool) (cap : Z) (os : list rtp_op) (a : rtp) : option (list bool * rtp) :=
  match os with
  | [] => Some ([], a)
  | o :: rest =>
      '(r, a') ← rtp_step mixed cap o a;
      '(rs, a'') ← rtp_steps mixed cap rest a';
      Some (r :: rs, a'')
  end.

Lemma does_true {A} (m : RtpPacket.P unit) (r : A) p a s :
  does m p tt a s -> does (@mbind RtpPacket.P (ST_bind RtpPacket.t) unit A (fun _ => mret r) m) p r a s.
Proof. intros. eapply does_bind; [done|]. intros. by apply does_ret. Qed.

Lemma repr_size p a s : repr p a s -> len (rtp_wire a) <= RtpPacket.capacity p.
Proof.
  intros Hr. destruct (h_mem _ _ (r_holds _ _ _ Hr)) as [tl Hm].
  unfold RtpPacket.capacity, Value.capacity. fold (RtpPacket.data p). rewrite Hm, len_app.
  pose proof (len_nonneg tl). lia.
Qed.

Lemma write_payload g p a s d :
  bytes_ok g -> repr p a s -> len d = len (payload a) -> bytes_ok d ->
  does (RtpPacket.on_data g (memcpy (len (header a)) d)) p tt (with_payload d a) s.
Proof.
  intros Hg Hr Hl Hb. pose proof Hr as [Hok Hf Hh].
  eapply (field_write g p p a _ s _ _ (header a) (payload a) (padding_bytes (padding a)) d); try done.
  - by apply stores_memcpy.
  - destruct Hok. by constructor.
  - destruct Hf. constructor; try done. cbn [payload with_payload]. lia.
Qed.

Lemma fill_payload_ok g p a d :
  bytes_ok g -> built p a -> padding a = 0 -> bytes_ok d ->
  if len (header a) + len d <=? RtpPacket.capacity p
  then does (fill_payload g d) p true (with_payload d a) 0
  else does (fill_payload g d) p false (with_payload [] a) 0.
Proof.
  intros Hg Hr Hpd Hb. pose proof (len_nonneg d) as Hd. unfold fill_payload.
  destruct (Z.leb_spec (len (header a) + len d) (RtpPacket.capacity p)) as [Hle|Hgt].
  - destruct (AllocatePayload_ok g Hg (len d) p a 0) as (x & Hx & Hdo); [done..|].
    eapply does_bind; [exact Hdo|]. intros p1 Hr1 _. apply does_true.
    eapply (write_payload g p1 _ 0 d Hg Hr1); [|done]. by rewrite <- Hx.
  - eapply does_bind; [apply AllocatePayload_full; try done|intros; by apply does_ret].
    pose proof (repr_size _ _ _ Hr) as Hs. rewrite len_rtp_wire in Hs by apply Hr.
    pose proof (len_nonneg (payload a)). lia.
Qed.

Lemma memcpy_view d view :
  bytes_ok d -> len view = len d -> write_view (memcpy 0 d ;; mret true) view = Some (true, d).
Proof.
  intros Hb Hl. unfold write_view. rewrite (ST_bind_ret _ _ _ tt (put 0 d (WState view 0 []))).
  - cbn [mret ST_ret packet put]. unfold splice. do 2 f_equal. cbn [Z.to_nat take app].
    rewrite drop_ge, app_nil_r; [done|]. unfold len in *. lia.
  - apply stores_memcpy; [done|lia|]. cbn [packet]. lia.
Qed.

Lemma rtp_exec_ok g p a o r a' :
  bytes_ok g -> built p a -> RtpPacket.capacity p mod 4 = 0 ->
  rtp_step (RtpHeaderExtensionMap.ExtmapAllowMixed (RtpPacket.extensions_ p))
    (RtpPacket.capacity p) o a = Some (r, a') ->
  does (rtp_exec g o) p r a' 0.
Proof.
  intros Hg Hr Hc4 H. destruct o; cbn [rtp_step rtp_exec] in *; repeat case_decide; try done; simplify_eq.
  - by apply does_true, SetMarker_ok.
  - by apply does_true, SetPayloadType_ok.
  - by apply does_true, SetSequenceNumber_ok.
  - by apply does_true, SetTimestamp_ok.
  - by apply does_true, SetSsrc_ok.
  - destruct_and!. by apply does_true, SetCsrcs_ok.
  - destruct H0 as (Hi & Hn & Hb & Hm).
    pose proof (fill_ok g p a i d (memcpy 0 d ;; mret true) Hg Hr Hc4 Hi Hn Hb Hm (fun view => memcpy_view d view Hb)) as Hd.
    destruct (add_ext _ a i d); by simplify_eq.
  - destruct H0 as [Hpd Hb]. pose proof (fill_payload_ok g p a d Hg Hr Hpd Hb) as Hd.
    destruct (_ <=? _); by simplify_eq.
  - destruct (Z.leb_spec (len (header a) + len (payload a) + n) (RtpPacket.capacity p)); simplify_eq.
    + by apply SetPadding_ok.
    + exists p. split; [|done]. apply (SetPadding_full g n p _ 0 Hr). lia.
Qed.

Lemma rtp_execs_ok g os p a rs a' :
  bytes_ok g -> built p a -> RtpPacket.capacity p mod 4 = 0 ->
  rtp_steps (RtpHeaderExtensionMap.ExtmapAllowMixed (RtpPacket.extensions_ p))
    (RtpPacket.capacity p) os a = Some (rs, a') ->
  does (rtp_execs g os) p rs a' 0.
Proof.
  intros Hg. revert p a rs. induction os as [|o os IH]; intros p a rs Hr Hc4; cbn [rtp_steps rtp_execs].
  - intros [= <- <-]. by apply does_ret.
  - destruct (rtp_step _ _ o a) as [[r a1]|] eqn:E1; cbn; [|done].
    destruct (rtp_steps _ _ os a1) as [[rs1 a2]|] eqn:E2; cbn; [|done]. intros [= <- <-].
    eapply does_bind; [by eapply rtp_exec_ok|]. intros p1 Hr1 [Hc1 Hx1].
    eapply does_bind; [eapply (IH p1 a1 rs1); [done|by rewrite Hc1|by rewrite Hc1, Hx1]|].
    intros. by apply does_ret.
Qed.

(** ** What the accessors return *)

Record observed (p : RtpPacket.t) (a : rtp) : Prop := {
  o_marker : RtpPacket.Marker p = marker a;
  o_pt : RtpPacket.PayloadType p = payload_type a;
  o_seq : RtpPacket.SequenceNumber p = sequence_number a;
  o_ts : RtpPacket.Timestamp p = timestamp a;
  o_ssrc : RtpPacket.Ssrc p = ssrc a;
  o_csrcs : RtpPacket.Csrcs p = Some (csrcs a);
  o_headers : RtpPacket.headers_size p = len (header a);
  o_payload : RtpPacket.payload p = Some (payload a);
  o_padding : RtpPacket.padding_size p = padding a;
  o_size : RtpPacket.size p = len (rtp_wire a);
  o_wire : Value.contents (RtpPacket.buffer_ p) = rtp_wire a
}.

Lemma read_csrcs_ok l p pre post i :
  RtpPacket.data p = pre ++ csrc_bytes l ++ post -> len pre = kFixedHeaderSize + i * 4 ->
  Forall (in_u 32) l -> 0 <= i -> RtpPacket.read_csrcs (length l) i p = Some l.
Proof.
  revert pre i. induction l as [|c l IH]; intros pre i Hd Hl Hf Hi; cbn [length RtpPacket.read_csrcs]; [done|].
  apply Forall_cons in Hf as [Hc Hf]. unfold csrc_bytes in Hd. rewrite mjoin_fmap_cons in Hd.
  fold (csrc_bytes l) in Hd. rewrite Hd.
  rewrite ptr_add_app_ge, Hl, Z.sub_diag, ptr_add_0 by lia. rewrite <- app_assoc.
  rewrite ReadBigEndian_bytes by (done || lia). cbn [mbind option_bind].
  rewrite (IH (pre ++ be_bytes 4 c) (i + 1)); [done| | |done|lia].
  - by rewrite Hd, <- !app_assoc.
  - rewrite len_app, len_be_bytes. lia.
Qed.

Lemma repr_observed p a s : repr p a s -> observed p a.
Proof.
  intros Hr. pose proof Hr as [Hok Hf Hh]. destruct (h_mem _ _ Hh) as [tl Hm].
  pose proof (repr_size p a s Hr) as Hsz. pose proof (len_nonneg (csrcs a)) as Hcc. pose proof (ok_csrcs a Hok).
  pose proof (len_rtp_wire a Hok) as Hlw. pose proof (len_header a) as Hlh.
  pose proof (len_nonneg (ext_bytes (two_byte a) (exts a))). pose proof (len_nonneg (payload a)).
  pose proof (ok_padding a Hok). destruct Hf. constructor; try done.
  - unfold RtpPacket.Csrcs. rewrite Hm, wire_first, first_byte_eq. unfold byte_at. rewrite ptr_add_0.
    cbn [deref head app mbind option_bind].
    destruct (byte0_bits (0 <? padding a) (has_exts a) (len (csrcs a))) as (B1 & _); [lia|].
    rewrite B1. unfold kFixedHeaderSize. rewrite (proj2 (Z.leb_le _ _)) by lia. cbn [check mbind option_bind].
    replace (Z.to_nat (len (csrcs a))) with (length (csrcs a)) by (unfold len; lia).
    apply (read_csrcs_ok _ p (fixed a) (ext_bytes (two_byte a) (exts a) ++ payload a ++ padding_bytes (padding a) ++ tl));
      [|done|by destruct Hok|lia].
    rewrite Hm. unfold rtp_wire, header. by rewrite <- !app_assoc.
  - unfold RtpPacket.payload. apply (view_bytes_at p (header a) (payload a) (padding_bytes (padding a) ++ tl)); [|done|done].
    rewrite Hm. unfold rtp_wire. by rewrite <- !app_assoc.
  - unfold RtpPacket.size. rewrite f_offset, f_payload, f_padding. lia.
  - unfold Value.contents. fold (RtpPacket.data p). rewrite Hm, (h_size _ _ Hh). unfold len.
    by rewrite Nat2Z.id, take_app_length.
Qed.

(** ** Claims *)

(** C4: building RTP packets refines the abstract packet.  For a packet whose capacity is a
    multiple of four between 12 and 65535 bytes (with another one the padding of the extensions may be written behind the buffer),
    whatever its fresh memory holds, every sequence of setter calls the source's
    checks allow (marker, payload type, sequence number, timestamp, SSRC, CSRCs, header extensions
    by id with the switch from one-byte to two-byte headers, payload, padding) runs without a
    failed check and without leaving the buffer, returns the flags of the specification (false
    exactly when there is no room, an extension changes its length or comes after payload or
    padding, and then the packet is as it was), and ends with the bytes of the specified packet
    in the buffer and its fields in the accessors. *)
Theorem rtp_build_refines g ext cap os rs a :
  bytes_ok g -> 12 <= cap <= 65535 -> cap mod 4 = 0 ->
  rtp_steps (RtpHeaderExtensionMap.ExtmapAllowMixed (default (RtpHeaderExtensionMap.init false) ext))
    cap os empty_rtp = Some (rs, a) ->
  exists p p', RtpPacket.construct g ext cap = Some p /\ rtp_execs g os p = Some (rs, p') /\
    observed p' a /\ RtpPacket.capacity p' = cap.
Proof.
  intros Hg Hc Hc4 Hs. destruct (construct_ok g Hg ext cap Hc) as (p & Hp & Hb & Hcap & Hx).
  destruct (rtp_execs_ok g os p empty_rtp rs a Hg Hb) as (p' & R & Hr & Hk & _);
    [by rewrite Hcap|by rewrite Hcap, Hx|].
  exists p, p'. split; [done|]. split; [done|]. split; [by eapply repr_observed|]. by rewrite Hk.
Qed.

Definition sample_ops : list rtp_op :=
  [OpMarker true; OpPayloadType 96; OpSequenceNumber 65535; OpTimestamp 90000; OpSsrc 0xDEADBEEF;
   OpCsrcs [1; 2]; OpExtension 3 [1; 2; 3]; OpExtension 1 [7]; OpExtension 3 [9; 9];
   OpExtension 20 [1; 2; 3; 4; 5; 6; 7; 8; 9; 10; 11; 12; 13; 14; 15; 16; 17]; OpExtension 1 [8];
   OpPayload [10; 20; 30]; OpExtension 5 [1]; OpPadding 4; OpPadding 200].

Definition sample_flags : list bool :=
  [true; true; true; true; true; true; true; true; false; true; true; true; false; true; false].

Definition sample_rtp : rtp :=
  match rtp_steps true 100 sample_ops empty_rtp with Some (_, a) => a | None => empty_rtp end.

Lemma rtp_build_refines_witness :
  rtp_steps true 100 sample_ops empty_rtp = Some (sample_flags, sample_rtp) /\
  exists p p',
    RtpPacket.construct [170] (Some (RtpHeaderExtensionMap.init true)) 100 = Some p /\
    rtp_execs [170] sample_ops p = Some (sample_flags, p') /\
    observed p' sample_rtp /\ RtpPacket.capacity p' = 100.
Proof.
  assert (E : rtp_steps true 100 sample_ops empty_rtp = Some (sample_flags, sample_rtp))
    by (vm_compute; reflexivity).
  split; [exact E|].
  exact (rtp_build_refines [170] (Some (RtpHeaderExtensionMap.init true)) 100 sample_ops sample_flags
    sample_rtp ltac:(by_compute) ltac:(lia) eq_refl E).
Defined.

(** C7: a header extension that was set is read back.  For every extension class that keeps its
    promises ([ExtensionLaws], which all modelled classes do), a valid value of it, registered under the id [i], and a packet that was built
    with a capacity that is a multiple of four: [SetExtension] never fails a check or
    leaves the buffer; when it returns false the packet is the same; when it returns true
    [GetExtension] returns [parsed] of the value, what a receiver is to get for it (for most classes the value itself, for some a rounded one), every other registered
    extension reads as before, and the packet is otherwise unchanged, also when the headers of the
    other extensions had to move to the two-byte form. *)
Theorem set_get_extension E `{ExtensionLaws E} g p a v i prev :
  bytes_ok g -> built p a -> RtpPacket.capacity p mod 4 = 0 ->
  RtpHeaderExtensionMap.GetId (RtpPacket.extensions_ p) (kId E) = Some i -> 1 <= i <= 255 ->
  valid v ->
  exists r p', RtpPacket.SetExtension g E v p = Some (r, p') /\
    (r = false -> built p' a /\ accepts p a i (wire v) = None) /\
    (r = true ->
     RtpPacket.GetExtension E p' prev = Some (true, parsed v prev) /\
     (forall E' j prev', RtpHeaderExtensionMap.GetId (RtpPacket.extensions_ p) (kId E') = Some j ->
        j <> i -> RtpPacket.GetExtension E' p' prev' = RtpPacket.GetExtension E' p prev') /\
     exists a', built p' a' /\ a' = with_exts (two_byte a') (exts a') a).
Proof.
  intros Hg Hr Hc4 Hid Hi Hv. pose proof (SetExtension_ok E g p a v i Hg Hr Hc4 Hid Hi Hv) as Hs.
  destruct (accepts p a i (wire v)) as [a'|] eqn:Ea; destruct Hs as (p' & R & Hr' & Hk & Hx).
  - exists true, p'. split; [done|]. split; [done|]. intros _.
    unfold accepts in Ea. destruct (_ && _); [done|]. apply add_ext_values in Ea as [Hw Hval].
    split; [|split; [|by exists a']].
    + rewrite (GetExtension_spec E p' a' 0 i prev Hr') by (by rewrite Hx).
      rewrite Hval, Z.eqb_refl. by apply parse_wire.
    + intros E' j prev' Hj Hne. rewrite (GetExtension_spec E' p' a' 0 j prev' Hr') by (by rewrite Hx).
      rewrite (GetExtension_spec E' p a 0 j prev' Hr Hj), Hval. by rewrite (proj2 (Z.eqb_neq i j)) by congruence.
  - exists false, p'. split; [done|]. split; [done|]. done.
Qed.

(** Absolute send time under the id 3. *)
Definition send_time_map : RtpHeaderExtensionMap.t :=
  match RtpHeaderExtensionMap.Register (RtpHeaderExtensionMap.init false) 3 kRtpExtensionAbsoluteSendTime with
  | Some (_, m) => m
  | None => RtpHeaderExtensionMap.init false
  end.

Lemma set_get_extension_witness :
  exists p r p', RtpPacket.construct [170] (Some send_time_map) 100 = Some p /\
    RtpPacket.SetExtension [170] AbsoluteSendTime.ops 0x123456 p = Some (r, p') /\
    (r = true -> RtpPacket.GetExtension AbsoluteSendTime.ops p' 0 = Some (true, 0x123456)).
Proof.
  destruct (construct_ok [170] ltac:(by_compute) (Some send_time_map) 100 ltac:(lia))
    as (p & Hp & Hb & Hcap & Hx).
  destruct (set_get_extension AbsoluteSendTime.ops [170] p empty_rtp 0x123456 3 0) as (r & p' & R & _ & Ht).
  - by_compute.
  - exact Hb.
  - by rewrite Hcap.
  - rewrite Hx. vm_compute. reflexivity.
  - lia.
  - cbn. unfold in_u. lia.
  - exists p, r, p'. split; [exact Hp|]. split; [exact R|]. intros Hr. apply (Ht Hr).
Defined.
