(* ===== verification/RtpParse.v ===== *)
(** * Parsing RTP packets

    [ParseBuffer] on the bytes of an abstract packet restores it, and on arbitrary bytes it stays
    inside them, ends, and leaves members the accessors can rely on. *)

From S2P Require Import Prelude Buffer ByteIo CowBuffer RtpExtensionMap HeaderExtensions.
From S2P Require Import RtpPacket RtpSpec RtpBuild RtpExtend RtpRefine.
Import ByteReader ByteWriter.

(** ** The loop over the extension block *)

Lemma byte_at_app pre b post i : i = len pre -> byte_at (pre ++ b :: post) i = Some b.
Proof. intros ->. unfold byte_at. rewrite ptr_add_app_ge by lia. by rewrite Z.sub_diag. Qed.

Lemma find_or_create_fresh es i f :
  i ∉ RtpPacket.id <$> es -> RtpPacket.find_or_create es i f = es ++ [f (RtpPacket.Info i 0 0)].
Proof.
  induction es as [|e es IH]; [done|]. cbn [fmap list_fmap RtpPacket.find_or_create]. rewrite not_elem_of_cons.
  intros [He Hi]. rewrite (proj2 (Z.eqb_neq (RtpPacket.id e) i)) by congruence. by rewrite IH.
Qed.

Lemma ids_entries two off es : RtpPacket.id <$> entries_of two off es = es.*1.
Proof.
  revert off. induction es as [|[i d] es IH]; intros off; cbn [entries_of fmap list_fmap]; [done|].
  f_equal. apply IH.
Qed.

(** The part of the padding the loop skips. *)
Definition skipped (two : bool) (k : nat) : Z := Z.max 0 (Z.of_nat k - header_length two).

Lemma parse_padding two k fuel buffer pre post off cap size acc :
  buffer = pre ++ replicate k 0 ++ post -> len pre = off + size -> cap = size + Z.of_nat k ->
  0 <= size -> 0 <= off -> (k <= fuel)%nat ->
  RtpPacket.parse_extensions fuel buffer (negb two) off cap size acc =
  Some (size + skipped two k, acc).
Proof.
  revert fuel pre size. induction k as [|k IH]; intros fuel pre size Hb Hl Hc Hs Ho Hf.
  - assert (Hlt : (size + (if negb two then 1 else 2) <? cap) = false) by (apply Z.ltb_ge; destruct two; cbn; lia).
    assert (Hsk : skipped two 0 = 0) by (unfold skipped; destruct two; cbn; lia). rewrite Hsk, Z.add_0_r.
    destruct fuel; cbn [RtpPacket.parse_extensions]; unfold kOneByteExtensionHeaderLength, kTwoByteExtensionHeaderLength;
      by rewrite Hlt.
  - destruct fuel as [|fuel]; [lia|]. cbn [RtpPacket.parse_extensions].
    unfold kOneByteExtensionHeaderLength, kTwoByteExtensionHeaderLength.
    assert (Hhl : (if negb two then 1 else 2) = header_length two) by (by destruct two). rewrite Hhl.
    destruct (Z.ltb_spec (size + header_length two) cap) as [Hlt|Hge]; cbn [negb].
    + assert (H0 : byte_at buffer (off + size) = Some 0) by (rewrite Hb; apply byte_at_app; lia).
      rewrite H0. cbn [mbind option_bind Z.eqb].
      rewrite (IH fuel (pre ++ [0]) (size + 1)); try lia.
      * f_equal. f_equal. unfold skipped. lia.
      * by rewrite <- app_assoc.
      * rewrite len_app. change (len [0]) with 1. lia.
    + do 2 f_equal. unfold skipped. lia.
Qed.

Lemma one_byte_fields i n :
  ext_fits false i n -> Z.shiftr (i * 16 + (n - 1)) 4 = i /\ 1 + Z.land (i * 16 + (n - 1)) 0xf = n.
Proof.
  intros [Hi Hn]. split.
  - rewrite Z.shiftr_div_pow2 by lia. change (2 ^ 4) with 16. Z.to_euclidean_division_equations; lia.
  - change 0xf with (2 ^ 4 - 1). rewrite land_ones_mod by lia. change (2 ^ 4) with 16.
    Z.to_euclidean_division_equations; lia.
Qed.

Lemma parse_items two es fuel buffer pre post k off cap size acc :
  Forall (ext_ok two) es -> buffer = pre ++ block two es ++ replicate k 0 ++ post ->
  NoDup ((RtpPacket.id <$> acc) ++ es.*1) ->
  len pre = off + size -> cap = size + len (block two es) + Z.of_nat k ->
  0 <= size -> 0 <= off -> len buffer <= 65535 -> len (block two es) + Z.of_nat k <= Z.of_nat fuel ->
  RtpPacket.parse_extensions fuel buffer (negb two) off cap size acc =
  Some (size + len (block two es) + skipped two k, acc ++ entries_of two (off + size) es).
Proof.
  intros Hes. revert fuel pre size acc. induction Hes as [|[i d] es (Hi & Hn & Hbd) Hes IH];
    intros fuel pre size acc Hb Hnd Hl Hc Hs Ho Hmax Hf.
  - change (len (block two [])) with 0 in *. cbn [entries_of]. rewrite app_nil_r.
    rewrite (parse_padding two k fuel buffer pre post off cap size acc); try done; [|lia|lia].
    do 2 f_equal. lia.
  - cbn [fst snd] in Hi, Hn, Hbd. pose proof (len_nonneg (block two es)). rewrite block_cons in Hb, Hc, Hf |- *.
    rewrite len_app, len_item in Hc, Hf |- *. cbn [snd] in Hc, Hf |- *.
    destruct fuel as [|fuel]; [destruct two; cbn [header_length] in *; lia|]. cbn [RtpPacket.parse_extensions].
    unfold kOneByteExtensionHeaderLength, kTwoByteExtensionHeaderLength.
    assert (Hhl : (if negb two then 1 else 2) = header_length two) by (by destruct two). rewrite Hhl.
    assert (H12 : 1 <= header_length two <= 2) by (destruct two; cbn; lia).
    rewrite (proj2 (Z.ltb_lt (size + header_length two) cap)) by lia. cbn [negb].
    pose proof (f_equal len Hb) as Hlb. rewrite !len_app, len_item in Hlb. cbn [snd] in Hlb.
    pose proof (len_nonneg post). pose proof (len_nonneg (replicate k 0)).
    cbn [fmap list_fmap fst] in Hnd. apply NoDup_app in Hnd as (Hn1 & Hn2 & Hn3).
    apply NoDup_cons in Hn3 as [Hn3 Hn4].
    assert (Hfresh : i ∉ RtpPacket.id <$> acc) by (intros Hin; apply (Hn2 i Hin); constructor).
    assert (Hstep : RtpPacket.parse_extensions fuel buffer (negb two) off cap (size + header_length two + len d)
        (acc ++ [RtpPacket.Info i (len d) (off + size + header_length two)]) =
      Some (size + (header_length two + len d + len (block two es)) + skipped two k,
        acc ++ entries_of two (off + size) ((i, d) :: es))).
    { rewrite (IH fuel (pre ++ item two (i, d)) (size + header_length two + len d)); try lia.
      - cbn [entries_of]. rewrite <- app_assoc. cbn [app]. do 3 f_equal; [lia|]. f_equal. f_equal. lia.
      - by rewrite Hb, <- !app_assoc.
      - rewrite fmap_app. cbn [fmap list_fmap RtpPacket.id]. rewrite <- app_assoc. apply NoDup_app.
        split; [done|]. split; [done|]. by apply NoDup_cons.
      - rewrite len_app, len_item. cbn [snd]. lia. }
    assert (Hoff : (65535 <? off + size + header_length two) = false) by (apply Z.ltb_ge; lia).
    assert (Hcap : (cap <? size + header_length two + len d) = false) by (apply Z.ltb_ge; lia).
    destruct two; cbn [negb header_length] in *.
    + assert (Hy0 : byte_at buffer (off + size) = Some i) by (rewrite Hb; apply byte_at_app; lia).
      assert (Hy1 : byte_at buffer (off + size + 1) = Some (len d)).
      { rewrite Hb. replace (pre ++ _) with ((pre ++ [i]) ++ len d :: d ++ block true es ++ replicate k 0 ++ post)
          by (unfold item, ext_header; cbn [fst snd]; rewrite <- !app_assoc; done).
        apply byte_at_app. rewrite len_app. change (len [i]) with 1. lia. }
      rewrite Hy0. cbn [mbind option_bind]. rewrite (proj2 (Z.eqb_neq i 0)) by lia. rewrite Hy1.
      cbn [mbind option_bind andb]. rewrite Hcap, Hoff, find_or_create_fresh by done. exact Hstep.
    + assert (Hy0 : byte_at buffer (off + size) = Some (i * 16 + (len d - 1)))
        by (rewrite Hb; apply byte_at_app; lia).
      rewrite Hy0. cbn [mbind option_bind]. rewrite (proj2 (Z.eqb_neq _ 0)) by lia.
      destruct (one_byte_fields i (len d)) as [-> ->]; [done|].
      rewrite (proj2 (Z.eqb_neq i 15)), (proj2 (Z.eqb_neq i 0)) by lia.
      cbn [andb orb]. rewrite Hcap, Hoff, find_or_create_fresh by done. exact Hstep.
Qed.

(** ** The bytes of a packet *)

Lemma parse_block_ok a :
  rtp_ok a -> exts a <> [] -> len (rtp_wire a) <= 65535 ->
  exists slack, 0 <= slack <= len (ext_pad (len (block (two_byte a) (exts a)))) /\
    RtpPacket.parse_extension_block (rtp_wire a) (12 + 4 * len (csrcs a)) =
    Some (Some (len (header a), len (block (two_byte a) (exts a)) + slack,
                entries_of (two_byte a) (ext_start a) (exts a))).
Proof.
  intros Hok He Hl. set (t := two_byte a). set (es := exts a) in *. set (n := len (block t es)).
  set (k := Z.to_nat (4 * ext_words n - n)).
  pose proof (ext_words_spec n (len_nonneg _)) as Hws. exists (skipped t k).
  assert (Hk : len (ext_pad n) = Z.of_nat k) by (rewrite len_ext_pad by apply len_nonneg; unfold k; lia).
  split; [rewrite Hk; unfold skipped; destruct t; cbn [header_length]; lia|].
  set (pre := fixed a ++ csrc_bytes (csrcs a)).
  set (tl := payload a ++ padding_bytes (padding a)).
  assert (Hw : rtp_wire a = pre ++ be_bytes 2 (profile t) ++ be_bytes 2 (ext_words n) ++ block t es ++ replicate k 0 ++ tl).
  { unfold rtp_wire, header, ext_bytes, pre, tl. fold t es n. destruct es eqn:E; [done|]. by rewrite <- !app_assoc. }
  assert (Hpre : len pre = 12 + 4 * len (csrcs a)) by (unfold pre; len_simpl; lia).
  pose proof (f_equal len Hw) as Hlw. rewrite !len_app, !len_be_bytes, len_replicate, Hpre in Hlw. fold n in Hlw.
  pose proof (len_nonneg tl). pose proof (len_nonneg (csrcs a)). assert (0 <= n) by apply len_nonneg.
  unfold RtpPacket.parse_extension_block. rewrite (proj2 (Z.ltb_ge (len (rtp_wire a)) _)) by lia.
  rewrite <- Hpre. rewrite Hw at 1. rewrite ptr_add_app_ge, Z.sub_diag, ptr_add_0 by lia.
  rewrite ReadBigEndian_bytes by (lia || by destruct t). cbn [mbind option_bind].
  rewrite Hw at 1. rewrite app_assoc, ptr_add_app_ge by (rewrite len_app, len_be_bytes; lia).
  rewrite len_app, len_be_bytes. replace (len pre + 2 - (len pre + Z.of_nat 2)) with 0 by lia. rewrite ptr_add_0.
  rewrite ReadBigEndian_bytes by (unfold in_u; lia). cbn [mbind option_bind].
  rewrite (proj2 (Z.ltb_ge (len (rtp_wire a)) _)) by lia.
  assert (Hnt : (profile t =? kOneByteExtensionProfileId) = negb t) by (by destruct t).
  assert (Hnk : negb (negb t) && negb (profile t =? kTwoByteExtensionProfileId) = false) by (by destruct t).
  rewrite Hnt, Hnk.
  rewrite (parse_items t es _ (rtp_wire a) (pre ++ be_bytes 2 (profile t) ++ be_bytes 2 (ext_words n)) tl k); try lia.
  - cbn [mbind option_bind fst snd]. rewrite len_header, len_ext_bytes. fold t es n.
    assert (Hst : len pre + 4 + 0 = ext_start a) by (unfold ext_start; lia). rewrite Hst.
    do 3 f_equal. f_equal. destruct es; [done|]. lia.
  - unfold t, es. apply Hok.
  - by rewrite <- !app_assoc.
  - cbn [fmap list_fmap app]. apply Hok.
  - rewrite !len_app, !len_be_bytes. lia.
Qed.

(** [ParseBuffer] restores the packet. *)
Lemma ParseBuffer_ok a p :
  rtp_ok a -> len (rtp_wire a) <= 65535 ->
  exists p' slack, RtpPacket.ParseBuffer (rtp_wire a) p = Some (true, p') /\ fields_ok p' a slack /\
    RtpPacket.buffer_ p' = RtpPacket.buffer_ p /\ RtpPacket.extensions_ p' = RtpPacket.extensions_ p.
Proof.
  intros Hok Hmax. pose proof (len_rtp_wire a Hok) as Hlw. pose proof (header_pos a) as Hhp.
  pose proof (len_nonneg (payload a)) as Hp0. pose proof (ok_padding a Hok) as Hpd.
  pose proof (len_nonneg (csrcs a)) as Hc0. pose proof (ok_csrcs a Hok) as Hcc.
  pose proof (len_header a) as Hlh. pose proof (len_nonneg (ext_bytes (two_byte a) (exts a))) as Hx0.
  destruct (byte0_bits (0 <? padding a) (has_exts a) (len (csrcs a))) as (B1 & _ & _ & _ & _ & _ & B7 & B8 & B9 & _); [lia|].
  destruct (byte1_bits (marker a) (payload_type a)) as (_ & C2 & _ & _ & C5 & _); [destruct Hok; lia|].
  unfold RtpPacket.ParseBuffer, kFixedHeaderSize. rewrite (proj2 (Z.ltb_ge _ 12)) by lia.
  assert (R0 : byte_at (rtp_wire a) 0 = Some (byte0 (0 <? padding a) (has_exts a) (len (csrcs a))))
    by (rewrite wire_first, first_byte_eq; done).
  assert (R1 : byte_at (rtp_wire a) 1 = Some (byte1 (marker a) (payload_type a)))
    by (rewrite rtp_wire_fixed; done).
  assert (R2 : ReadBigEndian 16 2 (ptr_add (rtp_wire a) 2) = Some (sequence_number a)).
  { rewrite rtp_wire_fixed, ptr_add_app_ge by (autorewrite with len; lia). apply ReadBigEndian_bytes; [lia|apply Hok]. }
  assert (R4 : ReadBigEndian 32 4 (ptr_add (rtp_wire a) 4) = Some (timestamp a)).
  { rewrite rtp_wire_fixed, !ptr_add_app_ge by (autorewrite with len; lia). apply ReadBigEndian_bytes; [lia|apply Hok]. }
  assert (R8 : ReadBigEndian 32 4 (ptr_add (rtp_wire a) 8) = Some (ssrc a)).
  { rewrite rtp_wire_fixed, !ptr_add_app_ge by (autorewrite with len; lia). apply ReadBigEndian_bytes; [lia|apply Hok]. }
  rewrite R0. cbn [mbind option_bind]. rewrite B7, Z.eqb_refl. cbn [negb].
  rewrite R1, R2, R4, R8. cbn [mbind option_bind]. rewrite B1, B8, B9, C2, C5.
  rewrite (proj2 (Z.ltb_ge _ (12 + len (csrcs a) * 4))) by lia.
  assert (Rp : (if 0 <? padding a then byte_at (rtp_wire a) (len (rtp_wire a) - 1) else Some 0) = Some (padding a)).
  { destruct (Z.ltb_spec 0 (padding a)) as [Hpos|]; [|f_equal; lia].
    unfold rtp_wire at 1. rewrite padding_bytes_pos by done. rewrite !app_assoc. apply byte_at_app.
    rewrite Hlw, !len_app, len_replicate. lia. }
  rewrite Rp. cbn [mbind option_bind].
  assert (Hpz : (0 <? padding a) && (padding a =? 0) = false)
    by (destruct (Z.ltb_spec 0 (padding a)), (Z.eqb_spec (padding a) 0); try done; lia).
  rewrite Hpz. replace (12 + len (csrcs a) * 4) with (12 + 4 * len (csrcs a)) by lia.
  assert (Hext : exists slack, 0 <= slack <= len (ext_pad (len (block (two_byte a) (exts a)))) /\
    (if has_exts a then RtpPacket.parse_extension_block (rtp_wire a) (12 + 4 * len (csrcs a))
     else Some (Some (12 + 4 * len (csrcs a), 0, []))) =
    Some (Some (len (header a), len (block (two_byte a) (exts a)) + slack,
                entries_of (two_byte a) (ext_start a) (exts a)))).
  { unfold has_exts. rewrite len_ext_bytes in Hlh. destruct (exts a) eqn:E.
    - exists 0. split; [done|]. cbn [entries_of]. rewrite Hlh. do 3 f_equal. f_equal. lia.
    - rewrite <- E. apply parse_block_ok; [done|by rewrite E|done]. }
  destruct Hext as (slack & Hsl & Hext). rewrite Hext. cbn [mbind option_bind].
  rewrite (proj2 (Z.ltb_ge _ (len (header a) + padding a))) by lia.
  eexists _, slack. split; [done|]. split; [|done].
  constructor; try done.
  change (len (rtp_wire a) - len (header a) - padding a = len (payload a)). lia.
Qed.

(** ** Taking over the bytes *)

Lemma SetData_holds g v bs :
  bytes_ok g -> bytes_ok bs -> 0 < len bs -> bytes_ok (Value.prefix v ++ Value.mem v) ->
  exists rest, Value.SetData g v bs = Some (own [] (bs ++ rest) (len bs)) /\ bytes_ok rest /\
    len bs + len rest <= Z.max (len bs) (len (Value.prefix v ++ Value.mem v) * 3 / 2).
Proof.
  intros Hg Hb Hl Hv.
  assert (Hre : forall cap, exists rest, Value.realloc g bs cap = own [] (bs ++ rest) (len bs) /\ bytes_ok rest /\
    len bs + len rest = Z.max (len bs) cap).
  { intros cap. exists (drop (Z.to_nat (len bs)) (fresh_mem g (Z.max (len bs) cap))). split; [done|].
    split; [by apply Forall_drop, bytes_ok_fresh_mem|].
    pose proof (len_fresh_mem g (Z.max (len bs) cap) ltac:(lia)). unfold len in *. rewrite length_drop. lia. }
  set (whole := Value.prefix v ++ Value.mem v) in *.
  assert (Hcap : Value.capacity v <= len whole) by (unfold Value.capacity, whole; rewrite len_app;
    pose proof (len_nonneg (Value.prefix v)); lia).
  pose proof (len_nonneg whole) as Hw0. unfold Value.SetData. fold whole.
  destruct (Value.is_null v); [|destruct (Value.shared v); [|destruct (Z.leb_spec (len bs) (len whole))]].
  - rewrite (proj2 (Z.ltb_lt 0 _)) by done. destruct (Hre (len bs)) as (r & -> & Hr & Hc).
    exists r. split; [done|]. split; [done|]. lia.
  - rewrite (proj2 (Z.eqb_neq _ 0)) by lia. destruct (Hre (Value.capacity v)) as (r & -> & Hr & Hc).
    exists r. split; [done|]. split; [done|]. Z.to_euclidean_division_equations; lia.
  - exists (drop (Z.to_nat (len bs)) whole). split; [done|]. split; [by apply Forall_drop|].
    unfold len in *. rewrite length_drop. Z.to_euclidean_division_equations; lia.
  - destruct (Hre (len whole + len whole / 2)) as (r & -> & Hr & Hc).
    exists r. split; [done|]. split; [done|]. Z.to_euclidean_division_equations; lia.
Qed.

(** A packet object that bytes may be parsed into: its memory is at most [n] bytes. *)
Definition target (n : Z) (p : RtpPacket.t) : Prop :=
  let b := RtpPacket.buffer_ p in
  bytes_ok (Value.prefix b ++ Value.mem b) /\ len (Value.prefix b ++ Value.mem b) <= n.

Lemma ParsePacket_ok g a p :
  bytes_ok g -> rtp_ok a -> len (rtp_wire a) <= 65535 -> target 43690 p ->
  exists p' slack, RtpPacket.ParsePacket g (rtp_wire a) p = Some (true, p') /\ repr p' a slack /\
    RtpPacket.extensions_ p' = RtpPacket.extensions_ p.
Proof.
  intros Hg Hok Hmax [Hb Hn]. destruct (ParseBuffer_ok a p Hok Hmax) as (q & slack & R & Hf & Hbq & Hxq).
  assert (Hl : 0 < len (rtp_wire a)) by (pose proof (wire_not_nil a); destruct (rtp_wire a); [done|];
    rewrite len_cons; pose proof (len_nonneg l); lia).
  destruct (SetData_holds g (RtpPacket.buffer_ p) (rtp_wire a) Hg (rtp_wire_ok a Hok) Hl Hb) as (rest & Hs & Hr & Hc).
  unfold RtpPacket.ParsePacket. rewrite R, Hbq, Hs.
  set (q' := RtpPacket.set_buffer _ q).
  assert (Hrep : repr q' a slack).
  { constructor; [done|destruct Hf; by constructor|].
    apply (holds_intro _ [] _ rest); [done|by apply rtp_wire_ok|done|].
    Z.to_euclidean_division_equations; lia. }
  exists q', slack. rewrite (o_size _ _ (repr_observed _ _ _ Hrep)), Z.eqb_refl. done.
Qed.

Lemma ParseShared_ok g a b p :
  rtp_ok a -> Value.contents b = rtp_wire a -> Value.size b = len (rtp_wire a) ->
  bytes_ok (Value.mem b) -> len (Value.mem b) <= 65535 ->
  exists p' slack, RtpPacket.ParseShared g b p = Some (true, p') /\ repr p' a slack /\
    RtpPacket.extensions_ p' = RtpPacket.extensions_ p /\ RtpPacket.buffer_ p' = b.
Proof.
  intros Hok Hc Hs Hb Hmax.
  assert (Hm : Value.mem b = rtp_wire a ++ drop (Z.to_nat (Value.size b)) (Value.mem b))
    by (rewrite <- Hc; unfold Value.contents; by rewrite take_drop).
  assert (Hle : len (rtp_wire a) <= 65535).
  { rewrite Hm, len_app in Hmax. pose proof (len_nonneg (drop (Z.to_nat (Value.size b)) (Value.mem b))). lia. }
  destruct (ParseBuffer_ok a p Hok Hle) as (q & slack & R & Hf & Hbq & Hxq).
  unfold RtpPacket.ParseShared. rewrite Hc, R. set (q' := RtpPacket.set_buffer _ q).
  assert (Hrep : repr q' a slack).
  { constructor; [done|destruct Hf; by constructor|]. constructor; try done. by eexists. }
  exists q', slack. rewrite (o_size _ _ (repr_observed _ _ _ Hrep)).
  cbn [q' RtpPacket.buffer_ RtpPacket.set_buffer]. rewrite Hs, Z.eqb_refl. done.
Qed.


(** ** Arbitrary bytes *)

(** An entry of the extension table that points into the block ending at [bound]. *)
Definition entry_ok (bound : Z) (e : RtpPacket.ExtensionInfo) : Prop :=
  1 <= RtpPacket.id e <= 255 /\ 0 <= RtpPacket.length e <= 255 /\ 0 <= RtpPacket.offset e /\
  RtpPacket.offset e + RtpPacket.length e <= bound.

Lemma find_or_create_ok bound es i f :
  0 <= bound -> 1 <= i <= 255 -> Forall (entry_ok bound) es ->
  (forall e, entry_ok bound e -> RtpPacket.id e = i -> entry_ok bound (f e)) ->
  Forall (entry_ok bound) (RtpPacket.find_or_create es i f).
Proof.
  intros Hb Hi He Hf. induction He as [|e es He Hes IH]; cbn [RtpPacket.find_or_create].
  - repeat constructor; apply Hf; unfold entry_ok; cbn; lia.
  - destruct (Z.eqb_spec (RtpPacket.id e) i); by constructor; auto.
Qed.

Lemma rtp_byte_at_Some buffer i : bytes_ok buffer -> 0 <= i < len buffer -> exists b, byte_at buffer i = Some b /\ byte_ok b.
Proof.
  intros Hb Hi. unfold byte_at, ptr_add, deref.
  destruct (drop (Z.to_nat i) buffer) as [|b r] eqn:E.
  - apply (f_equal length) in E. rewrite length_drop in E. unfold len in Hi. cbn in E. lia.
  - exists b. split; [done|]. assert (H : bytes_ok (drop (Z.to_nat i) buffer)) by (by apply Forall_drop).
    rewrite E in H. by apply Forall_inv in H.
Qed.

Lemma one_byte_range b :
  byte_ok b -> b <> 0 -> 0 <= Z.shiftr b 4 <= 15 /\ 1 <= 1 + Z.land b 0xf <= 16 /\
  (Z.shiftr b 4 = 0 -> 1 + Z.land b 0xf <> 1).
Proof. revert b. by_bytes. Qed.

Lemma parse_extensions_safe fuel buffer one_byte off cap size acc :
  bytes_ok buffer -> 0 <= off -> 0 <= size -> off + cap <= len buffer -> size <= cap ->
  cap - size <= Z.of_nat fuel -> Forall (entry_ok (off + cap)) acc ->
  exists sz es, RtpPacket.parse_extensions fuel buffer one_byte off cap size acc = Some (sz, es) /\
    size <= sz <= cap /\ Forall (entry_ok (off + cap)) es.
Proof.
  intros Hb Ho. revert size acc. induction fuel as [|fuel IH]; intros size acc Hs Hc Hsc Hf Ha;
    cbn [RtpPacket.parse_extensions]; unfold kOneByteExtensionHeaderLength, kTwoByteExtensionHeaderLength;
    set (hl := if one_byte then 1 else 2); assert (Hhl : 1 <= hl <= 2) by (unfold hl; destruct one_byte; lia).
  - rewrite (proj2 (Z.ltb_ge _ _)) by lia. by exists size, acc; cbn [negb]; repeat split; try lia.
  - destruct (Z.ltb_spec (size + hl) cap) as [Hlt|Hge]; cbn [negb].
    2:{ exists size, acc. repeat split; (done || lia). }
    destruct (rtp_byte_at_Some buffer (off + size)) as (b & -> & Hbb); [done|lia|]. cbn [mbind option_bind].
    destruct (Z.eqb_spec b 0) as [|Hb0].
    { destruct (IH (size + 1) acc) as (sz & es & R & Hsz & He); try (done || lia).
      exists sz, es. split; [exact R|]. split; [lia|done]. }
    assert (Hhdr : exists i n, (if one_byte then Some (Z.shiftr b 4, 1 + Z.land b 0xf)
        else n ← byte_at buffer (off + size + 1); Some (b, n)) = Some (i, n) /\ 0 <= n <= 255 /\
        (one_byte && ((i =? 15) || ((i =? 0) && negb (n =? 1))) = false -> 1 <= i <= 255)).
    { destruct one_byte.
      - destruct (one_byte_range b Hbb Hb0) as (H1 & H2 & H3). eexists _, _. split; [done|]. split; [lia|].
        cbn [andb]. intros Hno. apply orb_false_iff in Hno as [_ Hno].
        destruct (Z.eqb_spec (Z.shiftr b 4) 0) as [E|]; [|lia].
        by rewrite (proj2 (Z.eqb_neq _ 1) (H3 E)) in Hno.
      - destruct (rtp_byte_at_Some buffer (off + size + 1)) as (n & -> & Hn); [done|unfold hl in *; lia|].
        exists b, n. split; [done|]. unfold byte_ok in *. split; [lia|]. intros _. lia. }
    destruct Hhdr as (i & n & -> & Hn & Hi). cbn [mbind option_bind].
    destruct (one_byte && _) eqn:Estop; [exists size, acc; repeat split; (done || lia)|].
    specialize (Hi eq_refl).
    destruct (Z.ltb_spec cap (size + hl + n)) as [|Hfit]; [exists size, acc; repeat split; (done || lia)|].
    destruct (Z.ltb_spec 65535 (off + size + hl)) as [|Hoff].
    + eexists size, _. split; [done|]. split; [lia|]. apply find_or_create_ok; try done; lia.
    + destruct (IH (size + hl + n) (RtpPacket.find_or_create acc i
        (fun e => RtpPacket.Info (RtpPacket.id e) n (off + size + hl)))) as (sz & es & R & Hsz & He); try lia.
      { apply find_or_create_ok; try (done || lia). intros e _ Hid. unfold entry_ok. cbn. lia. }
      exists sz, es. split; [exact R|]. split; [lia|done].
Qed.

(** The members [ParseBuffer] leaves when it accepts. *)
Record parsed_ok (buffer : list Z) (p : RtpPacket.t) : Prop := {
  po_offset : 12 <= RtpPacket.payload_offset_ p;
  po_payload : 0 <= RtpPacket.payload_size_ p;
  po_padding : 0 <= RtpPacket.padding_size_ p <= 255;
  po_size : RtpPacket.size p = len buffer;
  po_csrc : forall b, byte_at buffer 0 = Some b ->
    12 + Z.land b 0x0F * 4 <= RtpPacket.payload_offset_ p;
  po_entries : Forall (entry_ok (RtpPacket.payload_offset_ p)) (RtpPacket.extension_entries_ p);
  po_pt : 0 <= RtpPacket.payload_type_ p <= 127;
  po_seq : in_u 16 (RtpPacket.sequence_number_ p);
  po_ts : in_u 32 (RtpPacket.timestamp_ p);
  po_ssrc : in_u 32 (RtpPacket.ssrc_ p)
}.

Lemma parse_extension_block_safe buffer off :
  bytes_ok buffer -> 0 <= off -> off <= len buffer ->
  exists r, RtpPacket.parse_extension_block buffer off = Some r /\
    forall po sz es, r = Some (po, sz, es) ->
      off <= po <= len buffer /\ Forall (entry_ok po) es.
Proof.
  intros Hb Ho Hle. unfold RtpPacket.parse_extension_block.
  destruct (Z.ltb_spec (len buffer) (off + 4)) as [|Hl]; [by exists None|].
  destruct (ReadBigEndian_Some 16 2 (ptr_add buffer off)) as (pr & -> & Hpr);
    [lia|by apply bytes_ok_ptr_add|rewrite len_ptr_add by lia; lia|]. cbn [mbind option_bind].
  destruct (ReadBigEndian_Some 16 2 (ptr_add buffer (off + 2))) as (w & -> & Hw);
    [lia|by apply bytes_ok_ptr_add|rewrite len_ptr_add by lia; lia|]. cbn [mbind option_bind].
  assert (Hw0 : 0 <= w) by (destruct Hw; lia).
  destruct (Z.ltb_spec (len buffer) (off + 4 + w * 4)) as [|Hl2]; [by exists None|].
  destruct (_ && _); cbn [mbind option_bind].
  - eexists. split; [done|]. intros po sz es [= <- <- <-]. split; [lia|constructor].
  - destruct (parse_extensions_safe (Z.to_nat (w * 4)) buffer (pr =? kOneByteExtensionProfileId) (off + 4) (w * 4) 0 [])
      as (sz & es & -> & Hsz & He); try (done || lia).
    cbn [mbind option_bind fst snd]. eexists. split; [done|]. intros po sz' es' [= <- <- <-]. split; [lia|done].
Qed.

Lemma land_csrc b : byte_ok b -> 0 <= Z.land b 0x0F <= 15.
Proof. revert b. by_bytes. Qed.

Lemma land_pt b : byte_ok b -> 0 <= Z.land b 0x7F <= 127.
Proof. revert b. by_bytes. Qed.

Lemma ParseBuffer_safe buffer p :
  bytes_ok buffer ->
  exists r p', RtpPacket.ParseBuffer buffer p = Some (r, p') /\
    RtpPacket.buffer_ p' = RtpPacket.buffer_ p /\ RtpPacket.extensions_ p' = RtpPacket.extensions_ p /\
    (r = true -> parsed_ok buffer p').
Proof.
  intros Hb. unfold RtpPacket.ParseBuffer, kFixedHeaderSize.
  destruct (Z.ltb_spec (len buffer) 12) as [|Hl]; [by eexists false, _|].
  destruct (rtp_byte_at_Some buffer 0) as (b0 & E0 & Hb0); [done|lia|]. rewrite E0. cbn [mbind option_bind].
  destruct (negb _); [by eexists false, _|].
  destruct (rtp_byte_at_Some buffer 1) as (b1 & -> & Hb1); [done|lia|]. cbn [mbind option_bind].
  destruct (ReadBigEndian_Some 16 2 (ptr_add buffer 2)) as (seq & -> & Hseq);
    [lia|by apply bytes_ok_ptr_add|rewrite len_ptr_add by lia; lia|]. cbn [mbind option_bind].
  destruct (ReadBigEndian_Some 32 4 (ptr_add buffer 4)) as (ts & -> & Hts);
    [lia|by apply bytes_ok_ptr_add|rewrite len_ptr_add by lia; lia|]. cbn [mbind option_bind].
  destruct (ReadBigEndian_Some 32 4 (ptr_add buffer 8)) as (ss & -> & Hss);
    [lia|by apply bytes_ok_ptr_add|rewrite len_ptr_add by lia; lia|]. cbn [mbind option_bind].
  pose proof (land_csrc b0 Hb0) as Hcc. pose proof (land_pt b1 Hb1) as Hpt.
  destruct (Z.ltb_spec (len buffer) (12 + Z.land b0 15 * 4)) as [|Hlc]; [by eexists false, _|].
  assert (Hpad : exists n, (if negb (Z.land b0 32 =? 0) then byte_at buffer (len buffer - 1) else Some 0) = Some n /\
    byte_ok n).
  { destruct (negb _); [apply rtp_byte_at_Some; [done|lia]|]. exists 0. split; [done|]. unfold byte_ok. lia. }
  destruct Hpad as (n & -> & Hn). cbn [mbind option_bind]. destruct (_ && _); [by eexists false, _|].
  assert (Hext : exists r, (if negb (Z.land b0 16 =? 0)
      then RtpPacket.parse_extension_block buffer (12 + Z.land b0 15 * 4)
      else Some (Some (12 + Z.land b0 15 * 4, 0, []))) = Some r /\
    forall po sz es, r = Some (po, sz, es) ->
      12 + Z.land b0 15 * 4 <= po <= len buffer /\ Forall (entry_ok po) es).
  { destruct (negb _); [apply parse_extension_block_safe; (done || lia)|].
    eexists. split; [done|]. intros po sz es [= <- <- <-]. split; [lia|constructor]. }
  destruct Hext as ([[[po sz] es]|] & -> & He); cbn [mbind option_bind]; [|by eexists false, _].
  destruct (He po sz es eq_refl) as [Hpo Hes]. unfold byte_ok in Hn.
  destruct (Z.ltb_spec (len buffer) (po + n)) as [|Hfit]; [by eexists false, _|].
  eexists true, _. split; [done|]. split; [done|]. split; [done|]. intros _. constructor; try done.
  - change (12 <= po). lia.
  - change (0 <= len buffer - po - n). lia.
  - change (0 <= n <= 255). lia.
  - change (po + (len buffer - po - n) + n = len buffer). lia.
  - intros b. rewrite E0. intros [= <-]. exact (proj1 Hpo).
Qed.

Lemma find_info_ok bound es i e :
  Forall (entry_ok bound) es -> RtpPacket.find_info es i = Some e -> entry_ok bound e.
Proof.
  induction 1 as [|x es Hx Hes IH]; cbn [RtpPacket.find_info]; [done|].
  destruct (RtpPacket.id x =? i); [by intros [= ->]|done].
Qed.

Lemma view_bytes_inside p buffer rest off n :
  RtpPacket.data p = buffer ++ rest -> 0 <= off -> 0 <= n -> off + n <= len buffer ->
  RtpPacket.view_bytes p (off, n) = Some (take (Z.to_nat n) (ptr_add buffer off)).
Proof.
  intros Hd Ho Hn Hle. unfold RtpPacket.view_bytes, RtpPacket.capacity, Value.capacity. cbn [fst snd].
  fold (RtpPacket.data p). rewrite Hd, len_app. pose proof (len_nonneg rest).
  rewrite (proj2 (Z.leb_le 0 off)), (proj2 (Z.leb_le (off + n) _)) by lia. cbn [andb].
  unfold ptr_add, len in *. f_equal. rewrite drop_app_le by lia. apply take_app_le.
  rewrite length_drop. lia.
Qed.

Section Received.
Context (buffer rest : list Z) (p : RtpPacket.t) (Hb : bytes_ok buffer).
Context (Hp : parsed_ok buffer p) (Hd : RtpPacket.data p = buffer ++ rest).

Lemma header_inside : RtpPacket.payload_offset_ p <= len buffer.
Proof using Hp.
  pose proof (po_size _ _ Hp) as E. unfold RtpPacket.size in E.
  pose proof (po_payload _ _ Hp). pose proof (po_padding _ _ Hp). lia.
Qed.

Lemma received_payload :
  RtpPacket.payload p = Some (take (Z.to_nat (RtpPacket.payload_size p)) (ptr_add buffer (RtpPacket.headers_size p))).
Proof using Hp Hd.
  pose proof (po_size _ _ Hp) as E. unfold RtpPacket.size in E. pose proof (po_padding _ _ Hp).
  pose proof (po_offset _ _ Hp). pose proof (po_payload _ _ Hp).
  unfold RtpPacket.payload, RtpPacket.payload_size, RtpPacket.headers_size. apply (view_bytes_inside p buffer rest); [exact Hd|lia|lia|lia].
Qed.

Lemma read_csrcs_safe n i :
  0 <= i -> 12 + (i + Z.of_nat n) * 4 <= len buffer -> bytes_ok rest ->
  exists l, RtpPacket.read_csrcs n i p = Some l /\ length l = n.
Proof using Hd Hb.
  intros Hi Hn Hr. revert i Hi Hn. induction n as [|n IH]; intros i Hi Hn; cbn [RtpPacket.read_csrcs]; [by exists []|].
  unfold kFixedHeaderSize. destruct (ReadBigEndian_Some 32 4 (ptr_add (RtpPacket.data p) (12 + i * 4))) as (c & -> & _).
  - lia.
  - apply bytes_ok_ptr_add. rewrite Hd. by apply bytes_ok_app.
  - rewrite Hd, len_ptr_add; rewrite len_app; pose proof (len_nonneg rest); lia.
  - destruct (IH (i + 1)) as (l & -> & Hl); [lia|lia|]. cbn [mbind option_bind]. exists (c :: l).
    split; [done|]. cbn. by rewrite Hl.
Qed.

Lemma received_csrcs : bytes_ok rest -> exists l, RtpPacket.Csrcs p = Some l.
Proof using Hp Hd Hb.
  intros Hr. pose proof header_inside as Hh. pose proof (po_offset _ _ Hp). unfold RtpPacket.Csrcs.
  destruct (rtp_byte_at_Some buffer 0) as (b & E & Hbb); [done|lia|]. pose proof (po_csrc _ _ Hp b E) as Hc.
  assert (E' : byte_at (RtpPacket.data p) 0 = Some b) by (rewrite Hd; by destruct buffer).
  rewrite E'. cbn [mbind option_bind]. pose proof (land_csrc b Hbb).
  unfold kFixedHeaderSize, RtpPacket.capacity, Value.capacity. fold (RtpPacket.data p).
  rewrite (proj2 (Z.leb_le _ _)) by (rewrite Hd, len_app; pose proof (len_nonneg rest); lia).
  cbn [check mbind option_bind]. destruct (read_csrcs_safe (Z.to_nat (Z.land b 15)) 0) as (l & -> & _); [lia|lia|done|].
  by exists l.
Qed.

Lemma received_extension E `{ExtensionLaws E} i prev :
  RtpHeaderExtensionMap.GetId (RtpPacket.extensions_ p) (kId E) = Some i ->
  exists r, RtpPacket.GetExtension E p prev = Some r.
Proof using Hp Hd Hb.
  intros Hid. unfold RtpPacket.GetExtension, RtpPacket.FindExtension. rewrite Hid. cbn [mbind option_bind].
  destruct (i =? _); [by eexists|]. unfold RtpPacket.FindExtensionInfo.
  destruct (RtpPacket.find_info _ i) as [e|] eqn:Ef; cbn [mbind option_bind]; [|by eexists].
  destruct (find_info_ok _ _ _ _ (po_entries _ _ Hp) Ef) as (_ & Hl & Ho & Hbd).
  destruct (_ =? 0); [by eexists|]. pose proof header_inside.
  rewrite (view_bytes_inside p buffer rest) by (done || lia). cbn [mbind option_bind].
  apply parse_safe. by apply Forall_take, Forall_drop.
Qed.
End Received.

(** ** Claims *)

(** C5: parsing restores every RTP packet.  Whatever object it runs on (of at most 43690 bytes,
    so that the buffer stays addressable by 16 bits), [Parse] accepts the bytes of every
    well-formed packet of at most 65535 bytes: one-byte and two-byte extension headers with the
    padding of the block, CSRCs, payload and padding.  The accessors then return its fields, the
    payload and the CSRCs, the buffer holds the bytes, and [GetExtension] of every extension
    class parses the value the packet has for the registered id, or reports that there is none. *)
Theorem rtp_parse_wire g a p :
  bytes_ok g -> rtp_ok a -> len (rtp_wire a) <= 65535 -> target 43690 p ->
  exists p', RtpPacket.ParsePacket g (rtp_wire a) p = Some (true, p') /\ observed p' a /\
    forall E i prev, RtpHeaderExtensionMap.GetId (RtpPacket.extensions_ p) (kId E) = Some i ->
      RtpPacket.GetExtension E p' prev =
      match ext_value (exts a) i with
      | Some d => Parse E d prev
      | None => Some (false, prev)
      end.
Proof.
  intros Hg Hok Hl Ht. destruct (ParsePacket_ok g a p Hg Hok Hl Ht) as (p' & slack & R & Hr & Hx).
  exists p'. split; [done|]. split; [by eapply repr_observed|]. intros E i prev Hid.
  apply (GetExtension_spec E p' a slack); [done|]. by rewrite Hx.
Qed.

#[global] Instance ext_ok_dec two e : Decision (ext_ok two e).
Proof. unfold ext_ok. apply _. Defined.

Lemma sample_rtp_ok : rtp_ok sample_rtp.
Proof. constructor; by_compute. Qed.

(** A packet with two-byte extension headers, CSRCs and padding. *)
Lemma rtp_parse_wire_witness :
  exists p p', RtpPacket.construct [170] None 1500 = Some p /\
    RtpPacket.ParsePacket [170] (rtp_wire sample_rtp) p = Some (true, p') /\ observed p' sample_rtp.
Proof.
  destruct (construct_ok [170] ltac:(by_compute) None 1500 ltac:(lia)) as (p & Hp & Hb & Hcap & Hx).
  assert (Ht : target 43690 p).
  { vm_compute in Hp. injection Hp as <-. split; by_compute. }
  destruct (rtp_parse_wire [170] sample_rtp p ltac:(by_compute) sample_rtp_ok ltac:(vm_compute; discriminate) Ht)
    as (p' & R & Ho & _).
  exists p, p'. split; [exact Hp|]. split; [exact R|exact Ho].
Defined.

(** C6: parsing arbitrary bytes is safe and ends.  [Parse] of any bytes never reads outside them,
    never fails a check and always returns.  When it refuses, the packet is an empty one that
    keeps its extension map.  When it accepts, the header, payload and padding sizes add up to
    the size of the packet, the buffer holds the bytes, and every accessor stays inside them: the
    CSRCs are there, the payload is the middle part, every entry of the extension table points
    into the header, and [GetExtension] of every extension class that keeps its promises returns
    without leaving the buffer. *)
Theorem rtp_parse_safe g buffer p w n :
  bytes_ok g -> bytes_ok buffer -> holds p w -> w <> [] -> 12 <= RtpPacket.capacity p ->
  target n p ->
  exists r p', RtpPacket.ParsePacket g buffer p = Some (r, p') /\
    RtpPacket.extensions_ p' = RtpPacket.extensions_ p /\
    (r = false -> observed p' empty_rtp) /\
    (r = true ->
      Value.contents (RtpPacket.buffer_ p') = buffer /\ parsed_ok buffer p' /\
      RtpPacket.payload p' = Some (take (Z.to_nat (RtpPacket.payload_size p'))
                                     (ptr_add buffer (RtpPacket.headers_size p'))) /\
      (exists csrcs, RtpPacket.Csrcs p' = Some csrcs) /\
      forall E (L : ExtensionLaws E) i prev,
        RtpHeaderExtensionMap.GetId (RtpPacket.extensions_ p) (kId E) = Some i ->
        exists v, RtpPacket.GetExtension E p' prev = Some v).
Proof.
  intros Hg Hb Hh Hw Hc [Hbm _]. destruct (ParseBuffer_safe buffer p Hb) as (r & q & R & Hbq & Hxq & Hok).
  unfold RtpPacket.ParsePacket. rewrite R. destruct r.
  - specialize (Hok eq_refl). pose proof (header_inside buffer q Hok) as Hin. pose proof (po_offset _ _ Hok).
    destruct (SetData_holds g (RtpPacket.buffer_ p) buffer Hg Hb ltac:(lia) Hbm) as (rest & Hs & Hr & _).
    rewrite Hbq, Hs. set (q' := RtpPacket.set_buffer _ q).
    assert (Hq' : parsed_ok buffer q') by (destruct Hok; by constructor).
    assert (Hd : RtpPacket.data q' = buffer ++ rest) by done.
    rewrite (proj2 (Z.eqb_eq _ _) (po_size _ _ Hq')). exists true, q'. split; [done|]. split; [done|].
    split; [done|]. intros _. split; [|split; [done|split; [by eapply received_payload|split]]].
    + unfold Value.contents. cbn [q' RtpPacket.buffer_ RtpPacket.set_buffer own Value.mem Value.size].
      unfold len. by rewrite Nat2Z.id, take_app_length.
    + exact (received_csrcs buffer rest q' Hb Hq' Hd Hr).
    + intros E L i prev Hid. eapply (received_extension buffer rest q'); try done.
      change (RtpPacket.extensions_ q') with (RtpPacket.extensions_ q). by rewrite Hxq.
  - destruct (Clear_ok g Hg q w) as (q' & Rq & Hbuilt & Hx & _);
      [by apply (holds_same p)|done|unfold RtpPacket.capacity; by rewrite Hbq|].
    step_with Rq. exists false, q'. split; [done|]. split; [by rewrite Hx|]. split; [|done].
    intros _. by eapply repr_observed.
Qed.

Definition garbage : list Z :=
  [0xB1; 0x60; 0; 1; 0; 0; 0; 2; 0; 0; 0; 3; 0; 0; 0; 4; 0xBE; 0xDE; 0; 2;
   0x32; 1; 2; 3; 0; 0x0F; 0xF0; 0x55; 9; 9; 1].

Lemma rtp_parse_safe_witness :
  exists p r p', RtpPacket.construct [170] None 1500 = Some p /\
    RtpPacket.ParsePacket [170] garbage p = Some (r, p') /\
    (r = true -> Value.contents (RtpPacket.buffer_ p') = garbage).
Proof.
  destruct (construct_ok [170] ltac:(by_compute) None 1500 ltac:(lia)) as (p & Hp & Hb & Hcap & Hx).
  assert (Ht : target 1500 p).
  { vm_compute in Hp. injection Hp as <-. split; by_compute. }
  destruct (rtp_parse_safe [170] garbage p (rtp_wire empty_rtp) 1500) as (r & p' & R & _ & _ & Hr).
  - by_compute.
  - by_compute.
  - apply Hb.
  - discriminate.
  - rewrite Hcap. lia.
  - exact Ht.
  - exists p, r, p'. split; [exact Hp|]. split; [exact R|]. intros E. apply (Hr E).
Defined.
