(* ===== verification/RtpRemove.v ===== *)
(** * Copying headers and removing extensions

    [RemoveExtension] rebuilds the packet without one extension; [CopyHeaderFrom] shares the
    header of another packet. *)

From S2P Require Import Prelude Buffer ByteIo CowBuffer RtpExtensionMap HeaderExtensions.
From S2P Require Import RtpPacket RtpSpec RtpBuild RtpExtend RtpRefine RtpParse.
Import ByteReader ByteWriter.

(** The extensions that stay, and the form of their headers. *)
Definition keep (i : Z) (es : list (Z * list Z)) : list (Z * list Z) :=
  filter (fun e => e.1 <> i) es.

Definition mode (es : list (Z * list Z)) : bool :=
  existsb (fun e => needs_two e.1 (len e.2)) es.

(** The packet without the extension [i] (and, as in the source, without CSRCs). *)
Definition without (i : Z) (a : rtp) : rtp :=
  with_csrcs [] (with_exts (mode (keep i (exts a))) (keep i (exts a)) a).

Lemma len_block_keep two i es : len (block two (keep i es)) <= len (block two es).
Proof.
  induction es as [|e es IH]; [done|]. unfold keep in *. rewrite filter_cons.
  destruct (decide (e.1 <> i)); rewrite ?block_cons, ?len_app; pose proof (len_nonneg (item two e)); lia.
Qed.

Lemma len_block_prefix two l r : len (block two l) <= len (block two (l ++ r)).
Proof. rewrite block_app, len_app. pose proof (len_nonneg (block two r)). lia. Qed.

Lemma len_block_mode (t t' : bool) es : (t' = true -> t = true) -> len (block t' es) <= len (block t es).
Proof.
  intros H. pose proof (len_block_two es). pose proof (len_nonneg es).
  destruct t, t'; lia.
Qed.

Lemma mode_false es : Forall (ext_ok false) es -> mode es = false.
Proof.
  induction 1 as [|e es (Hi & Hn & _) _ IH]; [done|]. unfold mode in *. cbn [existsb]. rewrite IH, orb_false_r.
  unfold needs_two. rewrite (proj2 (Z.ltb_ge _ _)), (proj2 (Z.ltb_ge _ _)) by lia. done.
Qed.

Lemma mode_app es fs : mode (es ++ fs) = mode es || mode fs.
Proof. unfold mode. apply existsb_app. Qed.

Lemma keep_app i es fs : keep i (es ++ fs) = keep i es ++ keep i fs.
Proof. unfold keep. apply filter_app. Qed.

Lemma keep_ids i es : (keep i es).*1 ⊆ es.*1.
Proof.
  intros j Hj. apply list_elem_of_fmap in Hj as (e & -> & He). apply list_elem_of_filter in He as [_ He].
  by apply list_elem_of_fmap_2.
Qed.

Section Copy.
Context (g : list Z) (Hg : bytes_ok g) (old : RtpPacket.t) (a : rtp) (s : Z) (i : Z).
Context (Hold : repr old a s).

Let t := two_byte a.

(** The state of the new packet after the extensions [l]. *)
Definition copied (b0 : rtp) (l : list (Z * list Z)) : rtp :=
  with_exts (mode (keep i l)) (keep i l) b0.

Lemma mode_sound l r : exts a = l ++ r -> mode (keep i l) = true -> t = true.
Proof using Hold.
  intros He Hm. unfold t. destruct (two_byte a) eqn:Et; [done|].
  assert (Hf : Forall (ext_ok false) (keep i l)).
  { pose proof (ok_exts a (r_ok _ _ _ Hold)) as H. rewrite Et, He in H. apply Forall_app in H as [H _].
    apply Forall_forall. intros e Hin. apply list_elem_of_filter in Hin as [_ Hin].
    by eapply Forall_forall in H. }
  by rewrite (mode_false _ Hf) in Hm.
Qed.

Lemma size_bound l r : exts a = l ++ r -> len (block (mode (keep i l)) (keep i l)) <= len (block t (exts a)).
Proof using Hold.
  intros He. etransitivity; [apply (len_block_mode t), (mode_sound l r He)|].
  etransitivity; [apply len_block_keep|]. rewrite He. apply len_block_prefix.
Qed.

Context (b0 : rtp) (cap : Z).
Context (Hb0 : csrcs b0 = [] /\ payload b0 = [] /\ padding b0 = 0 /\ exts b0 = []).
Context (Hcap : 16 + 4 * ext_words (len (block t (exts a))) <= cap).

Lemma copy_one p l j d r :
  exts a = l ++ (j, d) :: r -> j <> i -> built p (copied b0 l) -> RtpPacket.capacity p = cap ->
  (t = true -> RtpHeaderExtensionMap.ExtmapAllowMixed (RtpPacket.extensions_ p) = true) ->
  exists off x, len x = len d /\
    does (RtpPacket.AllocateRawExtension g j (len d)) p (Some (off, len d))
      (with_exts (mode (keep i (l ++ [(j, d)]))) (keep i l ++ [(j, x)]) b0) 0 /\
    off = 16 + len (block (mode (keep i (l ++ [(j, d)]))) (keep i l)) + header_length (mode (keep i (l ++ [(j, d)]))).
Proof using Hg Hold Hb0 Hcap.
  intros He Hj Hp Hc Hmix. destruct Hb0 as (Hcs & Hpl & Hpd & Hex).
  assert (Hjd : ext_ok t (j, d)).
  { pose proof (ok_exts a (r_ok _ _ _ Hold)) as H. rewrite He in H.
    apply Forall_app in H as [_ H]. by apply Forall_inv in H. }
  destruct Hjd as (Hji & Hjn & Hjb). cbn [fst snd] in Hji, Hjn, Hjb.
  assert (Hki : keep i (l ++ [(j, d)]) = keep i l ++ [(j, d)]).
  { rewrite keep_app. f_equal. unfold keep. rewrite filter_cons. cbn [fst].
    by rewrite decide_True. }
  assert (Hnt : new_two (copied b0 l) j (len d) = mode (keep i (l ++ [(j, d)]))).
  { rewrite Hki, mode_app. unfold new_two, copied. cbn [exts two_byte with_exts].
    assert (Hm1 : mode [(j, d)] = needs_two j (len d)) by (unfold mode; cbn; apply orb_false_r).
    rewrite Hm1. by destruct (keep i l). }
  assert (He' : exts a = (l ++ [(j, d)]) ++ r) by (by rewrite <- app_assoc).
  assert (Hns : new_size (copied b0 l) j (len d) = len (block (mode (keep i (l ++ [(j, d)]))) (keep i (l ++ [(j, d)])))).
  { unfold new_size. rewrite Hnt. cbn [exts copied with_exts]. set (m := mode _). rewrite Hki.
    rewrite block_app, block_one, len_app, len_item. cbn [snd]. lia. }
  pose proof (size_bound (l ++ [(j, d)]) r He') as Hsb. rewrite <- Hns in Hsb.
  destruct (alloc_ok g Hg p (copied b0 l) j (len d)) as (x & Hx & Hdo).
  - destruct t; lia.
  - destruct t; lia.
  - exact Hp.
  - exact Hpl.
  - exact Hpd.
  - cbn [exts copied with_exts]. intros Hin. apply keep_ids in Hin.
    pose proof (ok_ids a (r_ok _ _ _ Hold)) as Hnd. rewrite He, fmap_app in Hnd.
    apply NoDup_app in Hnd as (_ & Hnd & _). apply (Hnd j Hin). constructor.
  - intros Hneed. apply Hmix, (mode_sound (l ++ [(j, d)]) r He'). rewrite Hki, mode_app.
    apply orb_true_iff. right. unfold mode. cbn [existsb fst snd]. by rewrite Hneed.
  - unfold ext_start. cbn [csrcs copied with_exts]. rewrite Hcs, Hc. change (len []) with 0.
    unfold ext_words in *. Z.to_euclidean_division_equations; lia.
  - eexists _, x. split; [done|]. rewrite Hnt in Hdo. split; [exact Hdo|].
    unfold ext_start. cbn [csrcs copied with_exts exts]. rewrite Hcs. change (len []) with 0. lia.
Qed.

Lemma copy_all r : forall p l found,
  exts a = l ++ r -> built p (copied b0 l) -> RtpPacket.capacity p = cap ->
  (t = true -> RtpHeaderExtensionMap.ExtmapAllowMixed (RtpPacket.extensions_ p) = true) ->
  does (RtpPacket.copy_extensions g old (entries_of t (ext_start a + len (block t l)) r) i found) p
    (Some (found || existsb (fun e => e.1 =? i) r)) (copied b0 (l ++ r)) 0.
Proof using Hg Hold Hb0 Hcap.
  induction r as [|[j d] r IH]; intros p l found He Hp Hc Hmix; cbn [entries_of RtpPacket.copy_extensions existsb].
  - rewrite orb_false_r, app_nil_r. by apply does_ret.
  - cbn [RtpPacket.id RtpPacket.length RtpPacket.offset fst].
    assert (He' : exts a = (l ++ [(j, d)]) ++ r) by (by rewrite <- app_assoc).
    assert (Hoff : ext_start a + len (block t l) + header_length t + len d =
      ext_start a + len (block t (l ++ [(j, d)])))
      by (rewrite block_app, block_one, len_app, len_item; cbn [snd]; lia).
    rewrite Hoff. replace (l ++ (j, d) :: r) with ((l ++ [(j, d)]) ++ r) by (by rewrite <- app_assoc).
    destruct (Z.eqb_spec j i) as [->|Hj].
    + cbn [orb]. rewrite orb_true_r.
      assert (Hk : copied b0 (l ++ [(i, d)]) = copied b0 l).
      { unfold copied. rewrite keep_app. unfold keep at 2 4. rewrite filter_cons. cbn [fst].
        rewrite decide_False by (intros H; by apply H). by rewrite app_nil_r. }
      apply (IH p (l ++ [(i, d)]) true); try done. by rewrite Hk.
    + cbn [orb]. destruct (copy_one p l j d r He Hj Hp Hc Hmix) as (off & x & Hx & Hdo & Ho).
      assert (Hki : keep i (l ++ [(j, d)]) = keep i l ++ [(j, d)]).
      { rewrite keep_app. f_equal. unfold keep. rewrite filter_cons. cbn [fst]. by rewrite decide_True. }
      eapply does_bind; [exact Hdo|]. intros p1 Hr1 [Hc1 Hx1]. cbv beta iota.
      pose proof (view_value old a s l j d r _ Hold He eq_refl) as Hv. fold t in Hv. rewrite Hv.
      pose proof (ok_exts a (r_ok _ _ _ Hold)) as Hf. rewrite He in Hf.
      apply Forall_app in Hf as [_ Hf]. apply Forall_inv in Hf as (_ & _ & Hbd). cbn [snd] in Hbd.
      eapply does_bind.
      { apply (write_value g Hg p1 _ 0 (keep i l) j x [] d off Hr1); [done|done|done|].
        rewrite Ho. unfold ext_start. cbn [csrcs with_exts two_byte]. destruct Hb0 as (-> & _).
        change (len []) with 0. lia. }
      intros p2 Hr2 [Hc2 Hx2]. apply (IH p2 (l ++ [(j, d)])); [done| |congruence|by rewrite Hx2, Hx1].
      unfold copied. rewrite Hki in Hr2 |- *. exact Hr2.
Qed.
End Copy.

(** The fixed header of the new packet. *)
Definition bare (a : rtp) : rtp :=
  Rtp (marker a) (payload_type a) (sequence_number a) (timestamp a) (ssrc a) [] false [] [] 0.

Lemma without_eq i a :
  without i a = with_padding (padding a) (with_payload (payload a) (copied i (bare a) (exts a))).
Proof. done. Qed.

Lemma repr_set_extensions p a s m : repr p a s -> repr (RtpPacket.set_extensions m p) a s.
Proof.
  intros [Hok Hf Hh]. constructor; [done| |by apply (holds_same p)]. destruct Hf. by constructor.
Qed.

Section Rebuild.
Context (g : list Z) (Hg : bytes_ok g) (old : RtpPacket.t) (a : rtp) (s i : Z).
Context (Hold : repr old a s) (Hfit : len (rtp_wire a) <= 1500).
Context (Hmix : two_byte a = true ->
  RtpHeaderExtensionMap.ExtmapAllowMixed (RtpPacket.extensions_ old) = true).

Lemma header_start : exists p, RtpPacket.construct g None kDefaultPacketSize = Some p /\
  forall k : RtpPacket.P bool, exists q,
    (RtpPacket.SetMarker g (RtpPacket.Marker old) ;;
     RtpPacket.SetPayloadType g (RtpPacket.PayloadType old) ;;
     RtpPacket.SetSequenceNumber g (RtpPacket.SequenceNumber old) ;;
     RtpPacket.SetTimestamp g (RtpPacket.Timestamp old) ;;
     RtpPacket.SetSsrc g (RtpPacket.Ssrc old) ;;
     RtpPacket.IdentifyExtensions (RtpPacket.extensions_ old) ;; k) p = k q /\
    built q (bare a) /\ RtpPacket.capacity q = 1500 /\
    RtpPacket.extensions_ q = RtpPacket.extensions_ old.
Proof using Hg Hold.
  pose proof (repr_observed _ _ _ Hold) as Ho. pose proof (r_ok _ _ _ Hold) as Hok.
  destruct (construct_ok g Hg None kDefaultPacketSize) as (p & Hp & Hb & Hcap & _); [unfold kDefaultPacketSize; lia|].
  exists p. split; [done|]. intros k.
  rewrite (o_marker _ _ Ho), (o_pt _ _ Ho), (o_seq _ _ Ho), (o_ts _ _ Ho), (o_ssrc _ _ Ho).
  destruct (SetMarker_ok g Hg (marker a) p _ 0 Hb) as (p1 & R1 & H1 & K1).
  destruct (SetPayloadType_ok g Hg (payload_type a) p1 _ 0 H1) as (p2 & R2 & H2 & K2); [destruct Hok; lia|].
  destruct (SetSequenceNumber_ok g Hg (sequence_number a) p2 _ 0 H2) as (p3 & R3 & H3 & K3); [apply Hok|].
  destruct (SetTimestamp_ok g Hg (timestamp a) p3 _ 0 H3) as (p4 & R4 & H4 & K4); [apply Hok|].
  destruct (SetSsrc_ok g Hg (ssrc a) p4 _ 0 H4) as (p5 & R5 & H5 & K5); [apply Hok|].
  exists (RtpPacket.set_extensions (RtpPacket.extensions_ old) p5).
  step_with R1. step_with R2. step_with R3. step_with R4. step_with R5.
  split; [done|]. split; [by apply repr_set_extensions|]. split; [|done].
  change (RtpPacket.capacity p5 = 1500).
  destruct K1 as [K1 _], K2 as [K2 _], K3 as [K3 _], K4 as [K4 _], K5 as [K5 _].
  rewrite K5, K4, K3, K2, K1. exact Hcap.
Qed.

Lemma without_header : len (header (copied i (bare a) (exts a))) <= len (header a).
Proof using Hold.
  rewrite !len_header, !len_ext_bytes. cbn [csrcs exts two_byte copied with_exts bare].
  pose proof (size_bound old a s i Hold (exts a) []) as Hb. rewrite app_nil_r in Hb. specialize (Hb eq_refl).
  pose proof (len_nonneg (csrcs a)). change (len (@nil Z)) with 0.
  assert (Hw : ext_words (len (block (mode (keep i (exts a))) (keep i (exts a)))) <= ext_words (len (block (two_byte a) (exts a)))).
  { unfold ext_words. apply Z.div_le_mono; lia. }
  pose proof (ext_words_spec (len (block (two_byte a) (exts a))) (len_nonneg _)).
  pose proof (len_nonneg (block (two_byte a) (exts a))).
  destruct (keep i (exts a)) eqn:E; [destruct (exts a); lia|].
  destruct (exts a); [done|]. lia.
Qed.

Lemma rebuild_ok p :
  RtpPacket.construct g None kDefaultPacketSize = Some p ->
  exists p', RtpPacket.rebuild_without g old i p =
    Some (existsb (fun e => e.1 =? i) (exts a), p') /\
    (existsb (fun e => e.1 =? i) (exts a) = true ->
     built p' (without i a) /\ RtpPacket.capacity p' = 1500 /\
     RtpPacket.extensions_ p' = RtpPacket.extensions_ old).
Proof using Hg Hold Hfit Hmix.
  intros Hp. destruct header_start as (p0 & Hp0 & Hk). rewrite Hp0 in Hp. injection Hp as <-.
  unfold RtpPacket.rebuild_without. edestruct Hk as (q & -> & Hq & Hc & Hx).
  pose proof (r_ok _ _ _ Hold) as Hok. pose proof (r_fields _ _ _ Hold) as Hf.
  pose proof (repr_observed _ _ _ Hold) as Ho. pose proof (len_rtp_wire a Hok) as Hlw.
  pose proof without_header as Hwh. pose proof (ok_padding a Hok). pose proof (len_nonneg (payload a)).
  destruct (copy_all g Hg old a s i Hold (bare a) 1500) with (r := exts a) (p := q) (l := @nil (Z * list Z)) (found := false)
    as (q1 & R1 & Hr1 & Hc1 & Hx1); try done.
  - rewrite len_header, len_ext_bytes in Hlw. pose proof (len_nonneg (csrcs a)).
    destruct (exts a); [vm_compute; discriminate|]. lia.
  - rewrite Hx. exact Hmix.
  - change (len (block (two_byte a) [])) with 0 in R1. rewrite Z.add_0_r, <- (f_entries _ _ _ Hf) in R1.
    cbn [orb app] in R1, Hr1. step_with R1. destruct (existsb _ (exts a)); [|by exists q1].
    destruct (AllocatePayload_ok g Hg (len (payload a)) q1 _ 0 Hr1) as (x & Hxl & q2 & R2 & Hr2 & Hc2 & Hx2);
      [done|lia|rewrite Hc1, Hc; lia|].
    rewrite (o_payload _ _ Ho). unfold RtpPacket.payload_size. rewrite (f_payload _ _ _ Hf). step_with R2.
    destruct (write_payload g q2 _ 0 (payload a) Hg Hr2) as (q3 & R3 & Hr3 & Hc3 & Hx3); [by rewrite <- Hxl|apply Hok|].
    step_with R3. unfold RtpPacket.padding_size. rewrite (f_padding _ _ _ Hf).
    destruct (SetPadding_ok g Hg (padding a) q3 _ 0 Hr3) as (q4 & R4 & Hr4 & Hc4 & Hx4); [done| |].
    { rewrite Hc3, Hc2, Hc1, Hc. change (header (with_payload (payload a) (with_payload x (copied i (bare a) (exts a)))))
        with (header (copied i (bare a) (exts a))). cbn [payload with_payload]. lia. }
    step_with R4. exists q4. split; [done|]. intros _. split; [|split; congruence].
    by rewrite without_eq.
Qed.
End Rebuild.

Lemma existsb_ext_value es i : existsb (fun e => e.1 =? i) es = true <-> ext_value es i <> None.
Proof.
  induction es as [|[j d] es IH]; cbn [existsb ext_value fst]; [done|]. by destruct (j =? i).
Qed.

Lemma ext_value_keep es i j : ext_value (keep i es) j = if i =? j then None else ext_value es j.
Proof.
  induction es as [|[k d] es IH]; [by destruct (i =? j)|]. unfold keep in *. rewrite filter_cons. cbn [fst].
  case_decide as Hk; cbn [ext_value]; rewrite IH.
  - destruct (Z.eqb_spec k j) as [->|]; [|done]. by rewrite (proj2 (Z.eqb_neq i j)) by congruence.
  - subst k. by destruct (Z.eqb_spec i j).
Qed.

(** Sharing the header of a packet without padding. *)
Lemma CopyHeaderFrom_ok src a s p :
  repr src a s -> padding a = 0 -> len (header a) <= RtpPacket.capacity p ->
  exists p', RtpPacket.CopyHeaderFrom src p = Some (tt, p') /\ repr p' (with_payload [] a) s /\
    RtpPacket.extensions_ p' = RtpPacket.extensions_ src.
Proof.
  intros Hr Hpd Hc. pose proof Hr as [Hok Hf Hh]. pose proof (len_rtp_wire a Hok) as Hlw.
  pose proof (len_nonneg (payload a)). pose proof (header_pos a).
  unfold RtpPacket.CopyHeaderFrom, RtpPacket.headers_size. rewrite (f_offset _ _ _ Hf), (h_size _ _ Hh). step_get.
  do 3 step_check. eexists. split; [done|]. split; [|done]. constructor.
  - destruct Hok. constructor; try done. constructor.
  - destruct Hf. by constructor.
  - destruct (h_mem _ _ Hh) as [rest Hm]. rewrite wire_no_padding by done. cbn [payload with_payload].
    rewrite app_nil_r. constructor; try apply Hh; [|done].
    exists (payload a ++ rest). change (RtpPacket.data src = header a ++ payload a ++ rest).
    rewrite Hm, wire_no_padding, <- app_assoc by done. done.
Qed.

(** C23: [RemoveExtension] takes out exactly one extension.  For a packet of at most 1500 bytes on the wire
    that was built, or parsed with its extensions one behind the other, with two-byte headers only if the map allows mixed ones, and an extension that
    is registered: whatever fresh memory holds, it never fails a check or leaves a
    buffer; it returns true exactly when the packet has the extension and leaves the packet as it
    was otherwise.  The new packet has the same fixed header, payload and padding, no CSRCs, and
    the other extensions with their values, behind the shortest form of extension headers; the
    removed extension reads as missing and every other one as before. *)
Theorem remove_extension_spec g p a s type i :
  bytes_ok g -> repr p a s -> len (rtp_wire a) <= 1500 ->
  (two_byte a = true ->
   RtpHeaderExtensionMap.ExtmapAllowMixed (RtpPacket.extensions_ p) = true) ->
  RtpHeaderExtensionMap.GetId (RtpPacket.extensions_ p) type = Some i ->
  exists r p', RtpPacket.RemoveExtension g type p = Some (r, p') /\
    (r = true <-> ext_value (exts a) i <> None) /\
    (r = false -> p' = p) /\
    (r = true ->
     observed p' (without i a) /\
     forall E j prev, RtpHeaderExtensionMap.GetId (RtpPacket.extensions_ p) (kId E) = Some j ->
       RtpPacket.GetExtension E p' prev =
       if i =? j then Some (false, prev) else RtpPacket.GetExtension E p prev).
Proof.
  intros Hg Hr Hfit Hmix Hid. pose proof (r_ok _ _ _ Hr) as Hok. unfold RtpPacket.RemoveExtension.
  rewrite Hid. cbn [mbind option_bind]. unfold RtpHeaderExtensionMap.kInvalidId. destruct (Z.eqb_spec i 0) as [->|Hi].
  - exists false, p. split; [done|]. split; [|done]. split; [done|]. intros Hv. exfalso. apply Hv.
    destruct (ext_value (exts a) 0) as [d|] eqn:E; [|done].
    apply ext_value_In in E. pose proof (proj1 (Forall_forall _ _) (ok_exts a Hok) _ E) as (H0 & _). cbn [fst] in H0. lia.
  - destruct (header_start g Hg p a s Hr) as (p0 & Hp0 & _). rewrite Hp0. cbn [mbind option_bind].
    destruct (rebuild_ok g Hg p a s i Hr Hfit Hmix p0 Hp0) as (p' & R & Hb). rewrite R. cbn [mbind option_bind fst].
    pose proof (existsb_ext_value (exts a) i) as Hex. destruct (existsb _ (exts a)).
    + destruct (Hb eq_refl) as (Hb' & _ & Hx). exists true, p'. split; [done|]. split; [done|]. split; [done|].
      intros _. split; [by eapply repr_observed|]. intros E j prev Hj.
      rewrite (GetExtension_spec E p' _ 0 j prev Hb') by (by rewrite Hx).
      rewrite (GetExtension_spec E p a s j prev Hr Hj). cbn [exts without with_csrcs with_exts].
      rewrite ext_value_keep. by destruct (i =? j).
    + exists false, p. split; [done|]. split; [done|]. done.
Qed.

Definition removable_ops : list rtp_op :=
  [OpExtension 3 [1; 2; 3]; OpExtension 4 [7]; OpPayload [5; 6]; OpPadding 2].

Definition removable : rtp :=
  Rtp false 0 0 0 0 [] false [(3, [1; 2; 3]); (4, [7])] [5; 6] 2.

Lemma remove_extension_spec_witness :
  exists p r p', repr p removable 0 /\
    RtpPacket.RemoveExtension [170] kRtpExtensionAbsoluteSendTime p = Some (r, p') /\ r = true /\
    (r = true -> observed p' (without 3 removable)).
Proof.
  destruct (construct_ok [170] ltac:(by_compute) (Some send_time_map) 100 ltac:(lia))
    as (p0 & Hp0 & Hb0 & Hcap & Hx0).
  destruct (rtp_execs_ok [170] removable_ops p0 empty_rtp [true; true; true; true] removable)
    as (p & _ & Hr & _ & Hx); [by_compute|exact Hb0|by rewrite Hcap|rewrite Hcap, Hx0; vm_compute; reflexivity|].
  destruct (remove_extension_spec [170] p removable 0 kRtpExtensionAbsoluteSendTime 3)
    as (r & p' & R & Hiff & _ & Ht).
  - by_compute.
  - exact Hr.
  - vm_compute. discriminate.
  - discriminate.
  - rewrite Hx, Hx0. vm_compute. reflexivity.
  - exists p, r, p'. split; [exact Hr|]. split; [exact R|]. split; [|intros E; exact (proj1 (Ht E))].
    apply Hiff. discriminate.
Defined.
