(* ===== verification/RtpEdgeCases.v ===== *)
(** * Edge cases of RTP packets

    Calls outside the conditions of the theorems about [RtpPacket], evaluated: what the code does
    with a packet whose capacity is no multiple of four, with a parsed extension block that has
    padding between its entries, with a short video timing extension, and what [CopyHeaderFrom]
    and [RemoveExtension] leave out. *)

From S2P Require Import Prelude Buffer ByteIo CowBuffer RtpExtensionMap HeaderExtensions.
From S2P Require Import RtpPacket RtpSpec RtpBuild RtpExtend RtpRefine RtpParse.

(** The packet after a computation. *)
Definition after {A} (m : RtpPacket.P A) (p : option RtpPacket.t) : option RtpPacket.t :=
  q ← p; snd <$> m q.

Definition bytes_of (p : option RtpPacket.t) : option (list Z) :=
  (fun q => Value.contents (RtpPacket.buffer_ q)) <$> p.

Definition ids_of (p : option RtpPacket.t) : option (list Z) :=
  (fun q => RtpPacket.id <$> RtpPacket.extension_entries_ q) <$> p.

Definition mixed_packet : option RtpPacket.t :=
  RtpPacket.construct [] (Some (RtpHeaderExtensionMap.init true)) 100.

(** [AllocateRawExtension] checks the room for the extension and not for the zero padding behind
    it: with a capacity of 18 bytes a one-byte extension is accepted and the padding is written
    behind the buffer. *)
Lemma alloc_pads_behind_the_buffer :
  RtpPacket.capacity <$> RtpPacket.construct [] None 18 = Some 18 /\
  after (RtpPacket.AllocateRawExtension [] 1 1) (RtpPacket.construct [] None 18) = None /\
  after (RtpPacket.AllocateRawExtension [] 1 1) (RtpPacket.construct [] None 20) <> None.
Proof. split; [|split]; vm_compute; [reflexivity|reflexivity|discriminate]. Qed.

(** A received packet whose one extension is followed by padding, to which two are added: the
    second needs two-byte headers. *)
Definition padded_block : list Z :=
  [0x90; 0; 0; 1; 0; 0; 0; 0; 0; 0; 0; 9; 0xBE; 0xDE; 0; 1; 0x30; 0xAA; 0; 0].

Definition promoted : option RtpPacket.t :=
  after (RtpPacket.AllocateRawExtension [] 50 1)
    (after (RtpPacket.AllocateRawExtension [] 4 1)
       (after (RtpPacket.ParsePacket [] padded_block) mixed_packet)).

(** The packet says it has the extensions 3, 4 and 50; a receiver of its bytes finds others. *)
Lemma promotion_after_parse_breaks_the_block :
  ids_of promoted = Some [3; 4; 50] /\
  exists bs, bytes_of promoted = Some bs /\
    ids_of (after (RtpPacket.ParsePacket [] bs) mixed_packet) <> Some [3; 4; 50].
Proof.
  split; [vm_compute; reflexivity|]. eexists. split; [vm_compute; reflexivity|].
  vm_compute. discriminate.
Qed.

(** A packet with video timing under the id 1, in a value of one byte at the end of the block. *)
Definition timing_map : RtpHeaderExtensionMap.t :=
  match RtpHeaderExtensionMap.Register (RtpHeaderExtensionMap.init false) 1 kRtpExtensionVideoTiming with
  | Some (_, m) => m
  | None => RtpHeaderExtensionMap.init false
  end.

Definition short_timing : list Z :=
  [0x90; 0; 0; 1; 0; 0; 0; 0; 0; 0; 0; 9; 0xBE; 0xDE; 0; 1; 0x10; 0xAA; 0; 0; 1; 2; 3; 4; 5; 6; 7; 8].

(** [ZeroMutableExtensions] clears six bytes of a video timing extension whatever its length: it
    overwrites the payload, and leaves the buffer when the packet ends there. *)
Lemma zero_mutable_overwrites_payload :
  exists p, RtpPacket.construct [] (Some timing_map) 100 = Some p /\
    bytes_of (after (RtpPacket.ZeroMutableExtensions [])
                (after (RtpPacket.ParsePacket [] short_timing) (Some p))) =
    Some (take 24 short_timing ++ [0; 0; 0; 0]) /\
  exists q, RtpPacket.construct [] (Some timing_map) 20 = Some q /\
    after (RtpPacket.ParsePacket [] (take 20 short_timing)) (Some q) <> None /\
    after (RtpPacket.ZeroMutableExtensions [])
      (after (RtpPacket.ParsePacket [] (take 20 short_timing)) (Some q)) = None.
Proof.
  eexists. split; [vm_compute; reflexivity|]. split; [vm_compute; reflexivity|].
  eexists. split; [vm_compute; reflexivity|]. split; [vm_compute; discriminate|vm_compute; reflexivity].
Qed.

(** [CopyHeaderFrom] keeps the padding bit of a padded packet but not its padding: a receiver of
    the copied header refuses it. *)
Definition padded_source : option RtpPacket.t :=
  after (RtpPacket.SetPadding [] 4) (RtpPacket.construct [] None 100).

Lemma copy_header_keeps_padding_bit :
  exists src, padded_source = Some src /\
  exists q, after (RtpPacket.CopyHeaderFrom src) mixed_packet = Some q /\
    RtpPacket.padding_size q = 0 /\
    Value.contents (RtpPacket.buffer_ q) = [0xA0; 0; 0; 0; 0; 0; 0; 0; 0; 0; 0; 0] /\
    (q0 ← mixed_packet; fst <$> RtpPacket.ParsePacket [] (Value.contents (RtpPacket.buffer_ q)) q0) =
      Some false.
Proof.
  eexists. split; [vm_compute; reflexivity|]. eexists. split; [vm_compute; reflexivity|].
  split; [|split]; vm_compute; reflexivity.
Qed.

(** [RemoveExtension] loses the CSRCs. *)
Definition with_contributor : option RtpPacket.t :=
  after (fill_extension [] 3 3 (memcpy 0 [1; 2; 3] ;; mret true))
    (after (RtpPacket.SetCsrcs [] [77]) (RtpPacket.construct [] (Some send_time_map) 100)).

Lemma remove_extension_loses_csrcs :
  (with_contributor ≫= RtpPacket.Csrcs) = Some [77] /\
  (after (RtpPacket.RemoveExtension [] kRtpExtensionAbsoluteSendTime) with_contributor
     ≫= RtpPacket.Csrcs) = Some [].
Proof. split; vm_compute; reflexivity. Qed.

(** [RemoveExtension] copies the payload to the null pointer [AllocatePayload] returns when the
    packet does not fit the default size of 1500 bytes. *)
Definition large_packet : option RtpPacket.t :=
  after (RtpPacket.AllocatePayload [] 1600)
    (after (fill_extension [] 3 3 (memcpy 0 [1; 2; 3] ;; mret true))
       (RtpPacket.construct [] (Some send_time_map) 1700)).

Lemma remove_extension_of_large_packet :
  RtpPacket.payload_size <$> large_packet = Some 1600 /\
  after (RtpPacket.RemoveExtension [] kRtpExtensionAbsoluteSendTime) large_packet = None.
Proof. split; vm_compute; reflexivity. Qed.
