(* ===== verification/H264Packetizer.v ===== *)
(** * The H.264 packetiser

    Model of RtpPacketizerH264 in rtp_rtcp/rtp_format_h264.h/.cc on the model of RTP packets.  A view of
    the payload is the list of its bytes; the NAL units of a frame are the fragments. *)

From S2P Require Import Prelude Buffer ByteIo H264Common Packetize RtpPacket.

Import H264 RtpPacketizer ByteWriter.

(** The conversion to [int]. *)
Definition to_int (v : Z) : Z := if u32 v <? 2 ^ 31 then u32 v else u32 v - 2 ^ 32.

(** [rtc::ArrayView::subview] *)
Definition subview (view : list Z) (offset size : Z) : list Z :=
  if offset <? len view then take (Z.to_nat (Z.min size (len view - offset))) (ptr_add view offset) else [].

Definition kNalHeaderSize : Z := 1.
Definition kFuAHeaderSize : Z := 2.
Definition kLengthFieldSize : Z := 2.
Definition kStapAHeaderSize : Z := kNalHeaderSize + kLengthFieldSize.

Definition kFBit : Z := 0x80.
Definition kNriMask : Z := 0x60.
Definition kTypeMask : Z := 0x1F.
Definition kSBit : Z := 0x80.
Definition kEBit : Z := 0x40.

Inductive H264PacketizationMode := NonInterleaved | SingleNalUnit.

Module RtpPacketizerH264.

Record PacketUnit := Unit {
  source_fragment : list Z;
  first_fragment : bool;
  last_fragment : bool;
  aggregated : bool;
  header : Z
}.

Record t := Packetizer {
  limits_ : PayloadSizeLimits;
  num_packets_left_ : Z;
  input_fragments_ : list (list Z);
  packets_ : list PacketUnit
}.

Definition push (units : list PacketUnit) (count : Z) (this : t) : t :=
  Packetizer (limits_ this) (u64 (num_packets_left_ this + count)) (input_fragments_ this) (packets_ this ++ units).

Definition NumPackets (this : t) : Z := num_packets_left_ this.

Definition fragment_at (this : t) (i : Z) : option (list Z) :=
  check (0 <=? i) ;; input_fragments_ this !! Z.to_nat i.

(** The limits of a fragment that is split. *)
Definition fua_limits (this : t) (fragment_index : Z) : option PayloadSizeLimits :=
  let l := limits_ this in
  let count := len (input_fragments_ this) in
  let max := to_int (max_payload_len l - kFuAHeaderSize) in
  let single :=
    if negb (count =? 1) then
      if fragment_index =? count - 1 then last_packet_reduction_len l
      else if fragment_index =? 0 then first_packet_reduction_len l
      else 0
    else single_packet_reduction_len l in
  Some (Limits max
    (if negb (fragment_index =? 0) then 0 else first_packet_reduction_len l)
    (if negb (fragment_index =? count - 1) then 0 else last_packet_reduction_len l)
    single).

(** The loop of [PacketizeFuA]; what is left of the payload. *)
Fixpoint fua_units (fragment : list Z) (h : Z) (payload_sizes : list Z) (first : bool) (offset payload_left : Z) :
    option (list PacketUnit * Z) :=
  match payload_sizes with
  | [] => Some ([], payload_left)
  | packet_length :: rest =>
      check (0 <? packet_length) ;;
      offset' ← int (offset + packet_length);
      '(units, remaining) ← fua_units fragment h rest false offset' (u64 (payload_left - packet_length));
      Some (Unit (subview fragment offset packet_length) first (bool_decide (rest = [])) false h :: units, remaining)
  end.

Definition PacketizeFuA (this : t) (fragment_index : Z) : option (bool * t) :=
  fragment ← fragment_at this fragment_index;
  limits ← fua_limits this fragment_index;
  let payload_left := u64 (len fragment - kNalHeaderSize) in
  payload_sizes ← SplitAboutEqually (to_int payload_left) limits;
  if bool_decide (payload_sizes = []) then Some (false, this) else
  h ← deref fragment;
  '(units, remaining) ← fua_units fragment h payload_sizes true kNalHeaderSize payload_left;
  check (remaining =? 0) ;;
  Some (true, push units (len payload_sizes) this).

(** The loop of [PacketizeStapA] from a fragment on: the units and the index of the next fragment. *)
Fixpoint stapa_loop (this : t) (fragments : list (list Z)) (fragment_index payload_size_left fragment_headers_length aggregated_fragments : Z) :
    option (list PacketUnit * Z) :=
  match fragments with
  | [] => Some ([], fragment_index)
  | fragment :: rest =>
      let count := len (input_fragments_ this) in
      let fragment_size := u64 (len fragment + fragment_headers_length) in
      let payload_size_needed :=
        if count =? 1 then fragment_size
        else if fragment_index =? count - 1 then u64 (fragment_size + last_packet_reduction_len (limits_ this))
        else fragment_size in
      if negb (payload_size_needed <=? payload_size_left) then Some ([], fragment_index) else
      check (0 <? len fragment) ;;
      h ← deref fragment;
      '(units, next) ← stapa_loop this rest (fragment_index + 1)
         (u64 (u64 (payload_size_left - len fragment) - fragment_headers_length))
         (if aggregated_fragments =? 0 then kLengthFieldSize + (kNalHeaderSize + kLengthFieldSize) else kLengthFieldSize)
         (aggregated_fragments + 1);
      Some (Unit fragment (aggregated_fragments =? 0) false true h :: units, next)
  end.

(** [packets_.back().last_fragment = true] *)
Fixpoint mark_last (units : list PacketUnit) : list PacketUnit :=
  match units with
  | [] => []
  | [u] => [Unit (source_fragment u) (first_fragment u) true (aggregated u) (header u)]
  | u :: rest => u :: mark_last rest
  end.

Definition PacketizeStapA (this : t) (fragment_index : Z) : option (Z * t) :=
  let payload_size_left := u64 (max_payload_len (limits_ this)) in
  let payload_size_left :=
    if len (input_fragments_ this) =? 1 then u64 (payload_size_left - single_packet_reduction_len (limits_ this))
    else if fragment_index =? 0 then u64 (payload_size_left - first_packet_reduction_len (limits_ this))
    else payload_size_left in
  fragment ← fragment_at this fragment_index;
  check (len fragment <=? payload_size_left) ;;
  '(units, next) ← stapa_loop this (drop (Z.to_nat fragment_index) (input_fragments_ this)) fragment_index payload_size_left 0 0;
  check (0 <? len units) ;;
  Some (next, push (mark_last units) 1 this).

Definition PacketizeSingleNalu (this : t) (fragment_index : Z) : option (bool * t) :=
  let payload_size_left := u64 (max_payload_len (limits_ this)) in
  let count := len (input_fragments_ this) in
  let payload_size_left :=
    if count =? 1 then u64 (payload_size_left - single_packet_reduction_len (limits_ this))
    else if fragment_index =? 0 then u64 (payload_size_left - first_packet_reduction_len (limits_ this))
    else if fragment_index + 1 =? count then u64 (payload_size_left - last_packet_reduction_len (limits_ this))
    else payload_size_left in
  fragment ← fragment_at this fragment_index;
  if payload_size_left <? len fragment then Some (false, this) else
  check (0 <? len fragment) ;;
  h ← deref fragment;
  Some (true, push [Unit fragment true true false h] 1 this).

(** The loop of [GeneratePackets]. *)
Fixpoint generate_loop (fuel : nat) (packetization_mode : H264PacketizationMode) (this : t) (i : Z) : option (bool * t) :=
  if negb (i <? len (input_fragments_ this)) then Some (true, this) else
  match fuel with
  | O => None
  | S fuel' =>
      match packetization_mode with
      | SingleNalUnit =>
          '(ok, this) ← PacketizeSingleNalu this i;
          if ok : bool then generate_loop fuel' packetization_mode this (i + 1) else Some (false, this)
      | NonInterleaved =>
          fragment ← fragment_at this i;
          let l := limits_ this in
          let count := len (input_fragments_ this) in
          single_packet_capacity ←
            (if count =? 1 then int (max_payload_len l - single_packet_reduction_len l)
             else if i =? 0 then int (max_payload_len l - first_packet_reduction_len l)
             else if i + 1 =? count then int (max_payload_len l - last_packet_reduction_len l)
             else Some (max_payload_len l));
          if single_packet_capacity <? to_int (len fragment) then
            '(ok, this) ← PacketizeFuA this i;
            if ok : bool then generate_loop fuel' packetization_mode this (i + 1) else Some (false, this)
          else
            '(next, this) ← PacketizeStapA this i;
            generate_loop fuel' packetization_mode this next
      end
  end.

Definition GeneratePackets (packetization_mode : H264PacketizationMode) (this : t) : option (bool * t) :=
  generate_loop (length (input_fragments_ this)) packetization_mode this 0.

(** The fragmentation header is the list of its offsets and lengths. *)
Definition construct (payload : list Z) (limits : PayloadSizeLimits) (packetization_mode : H264PacketizationMode)
    (fragmentation : list (Z * Z)) : option t :=
  let input_fragments := (fun f => subview payload f.1 f.2) <$> fragmentation in
  '(ok, this) ← GeneratePackets packetization_mode (Packetizer limits 0 input_fragments []);
  Some (if ok : bool then this else Packetizer (limits_ this) 0 (input_fragments_ this) []).

(** [pop_front] of a queue that is not empty. *)
Definition pop {A} (l : list A) : option (list A) := match l with [] => None | _ :: rest => Some rest end.

Definition lift {A} (m : option A) : RtpPacket.P A := fun p => (fun a => (a, p)) <$> m.

Section NextPacket.
(* The bytes fresh memory happens to hold. *)
Variable g : list Z.

(** The loop of [NextAggregatePacket] on the units left; the queues and the index behind. *)
Fixpoint aggregate_loop (packets : list PacketUnit) (fragments : list (list Z)) (buffer payload_capacity index : Z) (is_last_fragment : bool) :
    RtpPacket.P (list PacketUnit * list (list Z) * Z * bool) :=
  match packets with
  | [] => abort
  | packet :: rest =>
      if negb (aggregated packet) then mret (packets, fragments, index, is_last_fragment) else
      let fragment := source_fragment packet in
      dcheck (index + kLengthFieldSize + len fragment <=? payload_capacity) ;;
      RtpPacket.on_data g (WriteBigEndian 2 (buffer + index) (u16 (len fragment))) ;;
      let index := index + kLengthFieldSize in
      RtpPacket.on_data g (memcpy (buffer + index) fragment) ;;
      let index := index + len fragment in
      fragments ← lift (pop fragments);
      if is_last_fragment then mret (rest, fragments, index, is_last_fragment) else
      next ← lift (head rest);
      aggregate_loop rest fragments buffer payload_capacity index (last_fragment next)
  end.

Definition NextAggregatePacket (this : t) : RtpPacket.P t :=
  rtp_packet ← RtpPacket.get;
  let payload_capacity := RtpPacket.FreeCapacity rtp_packet in
  dcheck (kNalHeaderSize <=? payload_capacity) ;;
  buffer ← RtpPacket.AllocatePayload g payload_capacity;
  buffer ← lift buffer;
  packet ← lift (head (packets_ this));
  dcheck (first_fragment packet) ;;
  RtpPacket.on_data g (store buffer (Z.lor (Z.land (header packet) (Z.lor kFBit kNriMask)) kStapA)) ;;
  '(packets, fragments, index, is_last_fragment) ←
    aggregate_loop (packets_ this) (input_fragments_ this) buffer payload_capacity kNalHeaderSize (last_fragment packet);
  dcheck is_last_fragment ;;
  RtpPacket.SetPayloadSize g index ;;
  mret (Packetizer (limits_ this) (num_packets_left_ this) fragments packets).

Definition fu_indicator (h : Z) : Z := Z.lor (Z.land h (Z.lor kFBit kNriMask)) kFuA.

Definition fu_header (packet : PacketUnit) : Z :=
  Z.lor (Z.lor (if first_fragment packet then kSBit else 0) (if last_fragment packet then kEBit else 0))
    (Z.land (header packet) kTypeMask).

Definition NextFragmentPacket (this : t) : RtpPacket.P t :=
  packet ← lift (head (packets_ this));
  let fragment := source_fragment packet in
  buffer ← RtpPacket.AllocatePayload g (kFuAHeaderSize + len fragment);
  buffer ← lift buffer;
  RtpPacket.on_data g (store buffer (fu_indicator (header packet))) ;;
  RtpPacket.on_data g (store (buffer + 1) (fu_header packet)) ;;
  RtpPacket.on_data g (memcpy (buffer + kFuAHeaderSize) fragment) ;;
  fragments ← (if last_fragment packet then lift (pop (input_fragments_ this)) else mret (input_fragments_ this));
  packets ← lift (pop (packets_ this));
  mret (Packetizer (limits_ this) (num_packets_left_ this) fragments packets).

Definition NextPacket (this : t) : RtpPacket.P (bool * t) :=
  match packets_ this with
  | [] => mret (false, this)
  | packet :: rest =>
      this ←
        (if first_fragment packet && last_fragment packet then
           let bytes_to_send := len (source_fragment packet) in
           buffer ← RtpPacket.AllocatePayload g bytes_to_send;
           buffer ← lift buffer;
           RtpPacket.on_data g (memcpy buffer (source_fragment packet)) ;;
           fragments ← lift (pop (input_fragments_ this));
           mret (Packetizer (limits_ this) (num_packets_left_ this) fragments rest)
         else if aggregated packet then NextAggregatePacket this
         else NextFragmentPacket this);
      RtpPacket.SetMarker g (bool_decide (packets_ this = [])) ;;
      mret (true, Packetizer (limits_ this) (u64 (num_packets_left_ this - 1)) (input_fragments_ this) (packets_ this))
  end.

End NextPacket.

End RtpPacketizerH264.
