(* ===== verification/H264Packets.v ===== *)
(** * What the H.264 packetiser produces

    The packets of a frame as data: single NAL units, aggregates (STAP-A) and fragmented units (FU-A).  The
    packetiser covers the NAL units of the frame in order by such packets, within the limits. *)

From S2P Require Import Prelude Buffer ByteIo BitCodec H264Common Packetize RtpPacket H264Packetizer.

Import H264 RtpPacketizer RtpPacketizerH264.

(** One NAL unit alone, several in an aggregate, or one in parts behind its header. *)
Inductive chunk :=
  | One (unit : bool) (f : list Z)
  | Many (f : list Z) (fs : list (list Z))
  | Parts (h : Z) (parts : list (list Z)).

Definition nal_header (f : list Z) : Z := default 0 (head f).

(** The NAL units of a chunk. *)
Definition chunk_nalus (c : chunk) : list (list Z) :=
  match c with One _ f => [f] | Many f fs => f :: fs | Parts h parts => [h :: mjoin parts] end.

(** The units the packetiser queues for it. *)
Definition stapa_units (first : bool) (fs : list (list Z)) : list PacketUnit :=
  match fs with
  | [] => []
  | f :: fs => Unit f first false true (nal_header f) :: ((fun f => Unit f false false true (nal_header f)) <$> fs)
  end.

Fixpoint parts_units (h : Z) (first : bool) (parts : list (list Z)) : list PacketUnit :=
  match parts with
  | [] => []
  | p :: rest => Unit p first (bool_decide (rest = [])) false h :: parts_units h false rest
  end.

Definition chunk_units (c : chunk) : list PacketUnit :=
  match c with
  | One agg f => [Unit f true true agg (nal_header f)]
  | Many f fs => mark_last (stapa_units true (f :: fs))
  | Parts h parts => parts_units h true parts
  end.

(** The payloads on the wire. *)
Definition stapa_entry (f : list Z) : list Z := be_bytes 2 (len f) ++ f.

Definition stapa_header (h : Z) : Z := Z.lor (Z.land h (Z.lor kFBit kNriMask)) kStapA.

Definition fua_header (h : Z) (first last : bool) : Z :=
  Z.lor (Z.lor (if first then kSBit else 0) (if last then kEBit else 0)) (Z.land h kTypeMask).

Fixpoint fua_payloads (h : Z) (first : bool) (parts : list (list Z)) : list (list Z) :=
  match parts with
  | [] => []
  | p :: rest => (fu_indicator h :: fua_header h first (bool_decide (rest = [])) :: p) :: fua_payloads h false rest
  end.

Definition chunk_payloads (c : chunk) : list (list Z) :=
  match c with
  | One _ f => [f]
  | Many f fs => [stapa_header (nal_header f) :: mjoin (stapa_entry <$> (f :: fs))]
  | Parts h parts => fua_payloads h true parts
  end.

Definition chunk_ok (c : chunk) : Prop :=
  match c with
  | One _ f => f <> []
  | Many f fs => fs <> [] /\ Forall (fun f => f <> []) (f :: fs)
  | Parts h parts => 2 <= len parts /\ Forall (fun p => p <> []) parts
  end.

(** ** The limits *)

Section limits.
Context (l : PayloadSizeLimits).

(** What the packetiser guarantees of a chunk at the start or the end of a frame.  The reduction for a packet that is the first and the last is
    used only if the frame is one NAL unit ([alone]); for several units in one packet the other two reductions are added, see
    [within_limits]. *)
Definition chunk_fits (alone first last : bool) (c : chunk) : Prop :=
  Forall (fun p => len p <= max_payload_len l) (chunk_payloads c) /\
  match chunk_payloads c with
  | [] => False
  | [p] =>
      len p + (if alone then single_packet_reduction_len l else
        (if first then first_packet_reduction_len l else 0) + (if last then last_packet_reduction_len l else 0)) <= max_payload_len l
  | p :: rest =>
      len p + (if first then first_packet_reduction_len l else 0) <= max_payload_len l /\
      exists e, list.last rest = Some e /\ len e + (if last then last_packet_reduction_len l else 0) <= max_payload_len l
  end.

Fixpoint chunks_fit (alone first : bool) (cs : list chunk) : Prop :=
  match cs with
  | [] => True
  | c :: rest => chunk_ok c /\ chunk_fits alone first (bool_decide (rest = [])) c /\ chunks_fit alone false rest
  end.

Definition payloads (cs : list chunk) : list (list Z) := mjoin (chunk_payloads <$> cs).

(** ** Aggregation *)

Fixpoint stapa_cost (k : Z) (hdr : Z) (fs : list (list Z)) : Z :=
  match fs with [] => 0 | f :: rest => len f + hdr + stapa_cost (k + 1) (if k =? 0 then 5 else 2) rest end.

Lemma stapa_cost_later k fs : 0 < k -> stapa_cost k 2 fs = len (mjoin (stapa_entry <$> fs)).
Proof.
  intros Hk. revert k Hk. induction fs as [|f fs IH]; intros k Hk; [done|]. cbn [stapa_cost]. rewrite (proj2 (Z.eqb_neq k 0)) by lia.
  rewrite IH, mjoin_fmap_cons, len_app by lia. unfold stapa_entry at 2. rewrite len_app. change (len (be_bytes 2 (len f))) with 2. lia.
Qed.

Lemma stapa_cost_many f fs : fs <> [] -> stapa_cost 0 0 (f :: fs) = 1 + len (mjoin (stapa_entry <$> (f :: fs))).
Proof.
  intros Hne. destruct fs as [|f2 fs]; [done|]. cbn [stapa_cost Z.eqb Z.add]. rewrite stapa_cost_later by lia.
  rewrite !mjoin_fmap_cons, !len_app. unfold stapa_entry at 2 3. rewrite !len_app. change (len (be_bytes 2 (len f))) with 2. change (len (be_bytes 2 (len f2))) with 2. lia.
Qed.

(** The chunk of the NAL units that were aggregated. *)
Definition stapa_chunk (fs : list (list Z)) : chunk := match fs with [f] => One true f | f :: fs => Many f fs | [] => Many [] [] end.

Lemma stapa_chunk_units f fs : mark_last (stapa_units true (f :: fs)) = chunk_units (stapa_chunk (f :: fs)).
Proof. by destruct fs. Qed.

Lemma stapa_chunk_nalus f fs : chunk_nalus (stapa_chunk (f :: fs)) = f :: fs.
Proof. by destruct fs. Qed.

Lemma stapa_chunk_payload f fs : exists p, chunk_payloads (stapa_chunk (f :: fs)) = [p] /\ len p = stapa_cost 0 0 (f :: fs).
Proof.
  destruct fs as [|f2 fs]; [exists f; split; [done|cbn; lia]|]. eexists. split; [done|]. by rewrite stapa_cost_many, len_cons.
Qed.
End limits.

(** Limits that are sensible: the reductions leave room for a byte, and no [int] overflows. *)
Definition limits_ok (l : PayloadSizeLimits) : Prop :=
  0 <= first_packet_reduction_len l < max_payload_len l /\ 0 <= last_packet_reduction_len l < max_payload_len l /\
  0 <= single_packet_reduction_len l < max_payload_len l /\ max_payload_len l < 2 ^ 26.

(** A byte fits into a packet of a fragmented unit, whatever the reductions. *)
Definition roomy (l : PayloadSizeLimits) : Prop :=
  3 + first_packet_reduction_len l + last_packet_reduction_len l <= max_payload_len l /\
  3 + single_packet_reduction_len l <= max_payload_len l.

Definition fragment_ok (f : list Z) : Prop := bytes_ok f /\ 0 < len f < 2 ^ 26.

Lemma position_first (pre : list (list Z)) : (len pre =? 0) = bool_decide (pre = []).
Proof. destruct pre; [done|]. rewrite len_cons. pose proof (len_nonneg pre). case_bool_decide; [done|]. lia. Qed.

Lemma u64_small v : 0 <= v < 2 ^ 64 -> u64 v = v.
Proof. intros. by apply wrap_small. Qed.

Lemma deref_header f : f <> [] -> deref f = Some (nal_header f).
Proof. by destruct f. Qed.

(** ** Fragmentation *)

Fixpoint cut_all (sizes : list Z) (body : list Z) : list (list Z) :=
  match sizes with [] => [] | n :: rest => take (Z.to_nat n) body :: cut_all rest (drop (Z.to_nat n) body) end.

Lemma total_nonneg sizes : Forall (fun s => 1 <= s) sizes -> 0 <= total sizes.
Proof. induction 1 as [|s sizes H Hs IH]; [done|]. rewrite total_cons. lia. Qed.

Lemma cut_all_spec sizes : forall body, Forall (fun s => 1 <= s) sizes -> total sizes = len body ->
  mjoin (cut_all sizes body) = body /\ len <$> cut_all sizes body = sizes.
Proof.
  induction sizes as [|n sizes IH]; intros body Hs Ht; cbn [cut_all].
  - change (total []) with 0 in Ht. destruct body; [done|]. rewrite len_cons in Ht. pose proof (len_nonneg body). lia.
  - apply Forall_cons in Hs as [Hn Hs]. rewrite total_cons in Ht. pose proof (total_nonneg sizes Hs).
    destruct (IH (drop (Z.to_nat n) body) Hs) as [Hj Hm]; [unfold len in *; rewrite length_drop; lia|].
    split; [change (take (Z.to_nat n) body ++ mjoin (cut_all sizes (drop (Z.to_nat n) body)) = body); rewrite Hj; apply take_drop|]. cbn [fmap list_fmap]. rewrite Hm. f_equal. unfold len in *. rewrite length_take. lia.
Qed.

Lemma cut_all_nil sizes body : bool_decide (cut_all sizes body = []) = bool_decide (sizes = []).
Proof. by destruct sizes. Qed.

Lemma fua_units_spec h fragment : len fragment < 2 ^ 26 -> forall sizes done body first, fragment = done ++ body ->
  Forall (fun s => 1 <= s) sizes -> total sizes = len body ->
  fua_units fragment h sizes first (len done) (len body) = Some (parts_units h first (cut_all sizes body), 0).
Proof.
  intros Hlen. induction sizes as [|n sizes IH]; intros done body first Hfr Hs Ht; cbn [fua_units cut_all parts_units].
  - change (total []) with 0 in Ht. by rewrite <- Ht.
  - apply Forall_cons in Hs as [Hn Hs]. rewrite total_cons in Ht. pose proof (total_nonneg sizes Hs). pose proof (len_nonneg done).
    rewrite Hfr, len_app in Hlen. rewrite (proj2 (Z.ltb_lt 0 n)) by lia. cbn [check mbind option_bind]. rewrite int_ok by lia. cbn [mbind option_bind].
    assert (Htake : len (take (Z.to_nat n) body) = n) by (unfold len in *; rewrite length_take; lia).
    assert (Hdrop : len (drop (Z.to_nat n) body) = len body - n) by (unfold len in *; rewrite length_drop; lia).
    rewrite u64_small by lia. specialize (IH (done ++ take (Z.to_nat n) body) (drop (Z.to_nat n) body) false).
    rewrite len_app, Htake, Hdrop in IH. rewrite IH; [|by rewrite <- app_assoc, take_drop|done|lia]. cbn [mbind option_bind].
    do 3 f_equal. rewrite cut_all_nil. f_equal. unfold subview. rewrite Hfr, len_app, (proj2 (Z.ltb_lt _ _)) by lia.
    rewrite Z.min_l by lia. unfold ptr_add, len. by rewrite Nat2Z.id, drop_app_length.
Qed.

Lemma fua_payloads_lengths h : forall parts first, len <$> fua_payloads h first parts = (fun p => 2 + len p) <$> parts.
Proof. induction parts as [|p parts IH]; intros first; [done|]. cbn [fua_payloads fmap list_fmap]. rewrite !len_cons. f_equal; [lia|apply IH]. Qed.

Lemma to_int_small v : - 2 ^ 31 <= v < 2 ^ 31 -> to_int v = v.
Proof.
  intros Hv. unfold to_int, wrap. destruct (Z.ltb_spec (v mod 2 ^ 32) (2 ^ 31)); Z.to_euclidean_division_equations; lia.
Qed.

Section generation.
Context (this : t).
Let l := limits_ this.
Let count := len (input_fragments_ this).
Hypothesis Hl : limits_ok l.
Hypothesis Hf : Forall fragment_ok (input_fragments_ this).
Hypothesis Hcount : 0 < count < 2 ^ 16.

(** What the last fragment asks for in addition. *)
Definition extra (rest : list (list Z)) : Z := if (count =? 1) || negb (bool_decide (rest = [])) then 0 else last_packet_reduction_len l.

Lemma extra_nonneg rest : 0 <= extra rest.
Proof using Hl. destruct Hl as (_ & H & _). unfold extra. destruct ((count =? 1) || negb (bool_decide (rest = []))); clear -H; lia. Qed.

Lemma stapa_loop_spec pre rest left hdr k :
  input_fragments_ this = pre ++ rest -> 0 <= left < 2 ^ 62 -> 0 <= hdr <= 5 -> 0 <= k ->
  exists fs1 fs2, rest = fs1 ++ fs2 /\
    stapa_loop this rest (len pre) left hdr k = Some (stapa_units (k =? 0) fs1, len pre + len fs1) /\
    (fs1 = [] \/ stapa_cost k hdr fs1 + extra fs2 <= left) /\
    (fs1 = [] -> rest = [] \/ exists f rest', rest = f :: rest' /\ left < len f + hdr + extra rest').
Proof using Hl Hf Hcount.
  revert pre left hdr k. induction rest as [|f rest IH]; intros pre left hdr k Hin Hleft Hhdr Hk; cbn [stapa_loop].
  - exists [], []. rewrite Z.add_0_r. split; [done|]. split; [done|]. split; [by left|]. intros _. by left.
  - assert (Hok : fragment_ok f) by (rewrite Hin in Hf; apply Forall_app in Hf as [_ Hf']; by apply Forall_cons in Hf' as [? _]).
    destruct Hok as [_ Hlen]. destruct Hl as (_ & Hlast & _ & Hmax).
    assert (Hpos : (len pre =? count - 1) = bool_decide (rest = [])).
    { unfold count. rewrite Hin, len_app, len_cons. pose proof (len_nonneg rest). case_bool_decide as E; [subst rest; change (len []) with 0; lia|].
      apply Z.eqb_neq. destruct rest; [done|]. rewrite len_cons. pose proof (len_nonneg rest). lia. }
    fold count l. rewrite Hpos, (u64_small (len f + hdr)), (u64_small (len f + hdr + last_packet_reduction_len l)) by lia.
    set (need := if count =? 1 then _ else _).
    assert (Hneed : need = len f + hdr + extra rest) by (unfold need, extra; destruct (count =? 1), (bool_decide (rest = [])); cbn [orb negb]; lia).
    destruct (Z.leb_spec need left) as [Hfit|Hfull]; cbn [negb].
    + assert (Hne : f <> []) by (apply nonempty_len; lia). rewrite (proj2 (Z.ltb_lt 0 (len f))), deref_header by (done || lia). cbn [check mbind option_bind].
      assert (0 <= extra rest) by apply extra_nonneg.
      rewrite (u64_small (left - len f)), (u64_small (left - len f - hdr)) by lia.
      destruct (IH (pre ++ [f]) (left - len f - hdr) (if k =? 0 then 5 else 2) (k + 1)) as (fs1 & fs2 & -> & E & Hc & Hn);
        [by rewrite <- app_assoc|lia|by destruct (k =? 0)|lia|].
      assert (Elen : len (pre ++ [f]) = len pre + 1) by (rewrite len_app; done). rewrite Elen in E.
      change (if k =? 0 then kLengthFieldSize + (kNalHeaderSize + kLengthFieldSize) else kLengthFieldSize) with (if k =? 0 then 5 else 2).
      rewrite E. cbn [mbind option_bind]. exists (f :: fs1), fs2. split; [done|]. split.
      * rewrite (proj2 (Z.eqb_neq (k + 1) 0)) by lia. rewrite len_cons. f_equal. f_equal; [|lia]. by destruct fs1.
      * split; [|done]. right. cbn [stapa_cost]. destruct Hc as [->|Hc]; [cbn [stapa_cost app] in *; lia|lia].
    + exists [], (f :: rest). rewrite Z.add_0_r. split; [done|]. split; [done|]. split; [by left|]. intros _. right. exists f, rest. split; [done|]. lia.
Qed.

(** The capacity of a packet for a NAL unit alone. *)
Definition capacity (pre rest : list (list Z)) : Z :=
  max_payload_len l - (if count =? 1 then single_packet_reduction_len l else if bool_decide (pre = []) then first_packet_reduction_len l
    else if bool_decide (rest = []) then last_packet_reduction_len l else 0).

Lemma position_last pre f rest : input_fragments_ this = pre ++ f :: rest -> (len pre + 1 =? count) = bool_decide (rest = []).
Proof using Type.
  intros Hin. unfold count. rewrite Hin, len_app, len_cons. destruct rest; [change (len []) with 0; case_bool_decide; [lia|done]|].
  rewrite len_cons. pose proof (len_nonneg rest). case_bool_decide; [done|lia].
Qed.

Lemma fragment_there pre f rest : input_fragments_ this = pre ++ f :: rest -> fragment_at this (len pre) = Some f.
Proof using Type.
  intros Hin. unfold fragment_at. rewrite (proj2 (Z.leb_le 0 _)) by apply len_nonneg. cbn [check mbind option_bind].
  rewrite Hin. unfold len. rewrite Nat2Z.id. by apply list_lookup_middle.
Qed.

Lemma capacity_range pre rest : 1 <= capacity pre rest <= max_payload_len l.
Proof using Hl Hcount. destruct Hl as (? & ? & ? & ?). unfold capacity. repeat case_match; lia. Qed.

(** [PacketizeStapA] of a NAL unit that fits. *)
Lemma stapa_spec pre f rest : input_fragments_ this = pre ++ f :: rest -> len f <= capacity pre rest ->
  exists fs1 fs2, rest = fs1 ++ fs2 /\
    PacketizeStapA this (len pre) = Some (len pre + 1 + len fs1, push (chunk_units (stapa_chunk (f :: fs1))) 1 this) /\
    chunk_fits l (count =? 1) (bool_decide (pre = [])) (bool_decide (fs2 = [])) (stapa_chunk (f :: fs1)).
Proof using Hl Hf Hcount.
  intros Hin Hfit. pose proof (capacity_range pre rest) as Hcap. pose proof Hl as (Hl1 & Hl2 & Hl3 & Hmax).
  set (left0 := max_payload_len l - (if count =? 1 then single_packet_reduction_len l else if bool_decide (pre = []) then first_packet_reduction_len l else 0)).
  assert (Hleft : 0 <= left0 < 2 ^ 62 /\ len f + 0 + extra rest <= left0).
  { split; [unfold left0; repeat case_match; lia|]. unfold left0, extra, capacity in *. destruct (Z.eqb_spec count 1); cbn [orb]; [lia|].
    assert (~ (pre = [] /\ rest = [])) by (intros [-> ->]; unfold count in *; by rewrite Hin in n).
    repeat case_bool_decide; cbn [negb]; try lia. exfalso. by tauto. }
  destruct Hleft as [Hleft Hroom].
  destruct (stapa_loop_spec pre (f :: rest) left0 0 0 Hin Hleft ltac:(lia) ltac:(lia)) as (gs & fs2 & Egs & E & Hc & Hn).
  destruct gs as [|f' fs1].
  { destruct (Hn eq_refl) as [?|(f' & r' & [= <- <-] & Hlt)]; [done|lia]. }
  injection Egs as <- ->. exists fs1, fs2. split; [done|]. destruct Hc as [?|Hc]; [done|].
  unfold PacketizeStapA. fold l count. rewrite position_first.
  assert (Hu : (if count =? 1 then u64 (u64 (max_payload_len l) - single_packet_reduction_len l) else
     if bool_decide (pre = []) then u64 (u64 (max_payload_len l) - first_packet_reduction_len l) else u64 (max_payload_len l)) = left0).
  { unfold left0. rewrite (u64_small (max_payload_len l)) by lia. repeat case_match; rewrite ?u64_small; lia. }
  rewrite Hu, (fragment_there pre f (fs1 ++ fs2) Hin). cbn [mbind option_bind].
  assert (0 <= extra (fs1 ++ fs2)) by apply extra_nonneg. rewrite (proj2 (Z.leb_le (len f) left0)) by lia. cbn [check mbind option_bind].
  replace (drop (Z.to_nat (len pre)) (input_fragments_ this)) with (f :: fs1 ++ fs2) by (rewrite Hin; unfold len; by rewrite Nat2Z.id, drop_app_length).
  rewrite E. cbn [mbind option_bind].
  rewrite (proj2 (Z.ltb_lt 0 (len (stapa_units _ _)))) by (apply nonempty_len; done). cbn [check mbind option_bind Z.eqb].
  split; [rewrite <- stapa_chunk_units; f_equal; f_equal; rewrite len_cons; lia|].
  destruct (stapa_chunk_payload f fs1) as (p & Ep & Hp). unfold chunk_fits. rewrite Ep.
  assert (Hall : len p + (if count =? 1 then single_packet_reduction_len l else
    (if bool_decide (pre = []) then first_packet_reduction_len l else 0) + (if bool_decide (fs2 = []) then last_packet_reduction_len l else 0)) <= max_payload_len l).
  { rewrite Hp. unfold left0, extra in Hc. destruct (count =? 1); cbn [orb] in Hc; [lia|]. repeat case_bool_decide; cbn [negb] in Hc; lia. }
  split; [|exact Hall]. constructor; [|constructor]. repeat case_match; lia.
Qed.

(** The limits of the parts of a NAL unit. *)
Definition part_limits (pre rest : list (list Z)) : PayloadSizeLimits :=
  Limits (max_payload_len l - 2) (if bool_decide (pre = []) then first_packet_reduction_len l else 0)
    (if bool_decide (rest = []) then last_packet_reduction_len l else 0)
    (if count =? 1 then single_packet_reduction_len l else if bool_decide (rest = []) then last_packet_reduction_len l
     else if bool_decide (pre = []) then first_packet_reduction_len l else 0).

Lemma fua_limits_spec pre f rest : input_fragments_ this = pre ++ f :: rest -> fua_limits this (len pre) = Some (part_limits pre rest).
Proof using Hl Hcount.
  intros Hin. pose proof Hl as (Hl1 & Hl2 & Hl3 & Hmax). pose proof (position_last pre f rest Hin) as Hp. unfold fua_limits. fold l count.
  assert (Hc : (len pre =? count - 1) = (len pre + 1 =? count)) by lia. rewrite Hc, Hp, position_first.
  rewrite to_int_small by (unfold kFuAHeaderSize; lia). unfold part_limits, kFuAHeaderSize.
  destruct (count =? 1), (bool_decide (pre = [])), (bool_decide (rest = [])); done.
Qed.

Lemma part_capacity pre f rest : input_fragments_ this = pre ++ f :: rest ->
  capacity pre rest = max_payload_len l - single_packet_reduction_len (part_limits pre rest).
Proof using Hcount.
  intros Hin. unfold capacity, part_limits. cbn [single_packet_reduction_len]. destruct (Z.eqb_spec count 1) as [E|E]; [done|].
  case_bool_decide as E1; case_bool_decide as E2; try done. subst. unfold count in E. by rewrite Hin in E.
Qed.

(** The parts of a NAL unit that was split. *)
Lemma parts_fit pre f rest sizes h : input_fragments_ this = pre ++ f :: rest -> capacity pre rest < len f ->
  sizes <> [] -> split_ok (part_limits pre rest) (len f - 1) sizes ->
  let parts := cut_all sizes (drop 1 f) in
  Forall (fun s => 1 <= s) sizes /\ total sizes = len (drop 1 f) /\
  chunk_ok (Parts h parts) /\ chunk_fits l (count =? 1) (bool_decide (pre = [])) (bool_decide (rest = [])) (Parts h parts).
Proof using Hl Hf Hcount.
  intros Hin Hcap Hne [Htot Hok] parts. rewrite (part_capacity pre f rest Hin) in Hcap. pose proof Hl as (Hl1 & Hl2 & Hl3 & Hmax).
  assert (Hfl : 0 < len f) by (rewrite Hin in Hf; apply Forall_app in Hf as [_ H]; apply Forall_cons in H as [[_ H] _]; lia).
  assert (Hd : len (drop 1 f) = len f - 1) by (unfold len in *; rewrite length_drop; lia).
  destruct sizes as [|s1 [|s2 sizes]]; [done| |].
  { change (total [s1]) with (s1 + 0) in Htot. unfold part_limits in *. cbn [max_payload_len single_packet_reduction_len] in *. lia. }
  destruct Hok as (Hw & H1 & e & He & H2). assert (Hpos : Forall (fun s => 1 <= s) (s1 :: s2 :: sizes)) by (eapply Forall_impl; [exact Hw|]; by intros ? [? _]).
  split; [done|]. split; [lia|]. destruct (cut_all_spec _ (drop 1 f) Hpos ltac:(lia)) as [Hj Hm]. fold parts in Hj, Hm.
  assert (Hlens : len <$> fua_payloads h true parts = (fun s => 2 + s) <$> (s1 :: s2 :: sizes)).
  { rewrite fua_payloads_lengths, <- Hm. by rewrite <- list_fmap_compose. }
  split.
  - split; [rewrite <- (len_fmap len), Hm, !len_cons; pose proof (len_nonneg sizes); lia|].
    apply Forall_forall. intros p Hp -> . apply (list_elem_of_fmap_2 len) in Hp. rewrite Hm in Hp. rewrite Forall_forall in Hpos. specialize (Hpos _ Hp). done.
  - unfold chunk_fits. cbn [chunk_payloads]. remember (fua_payloads h true parts) as ps eqn:Eps. clear Eps.
    destruct ps as [|p1 [|p2 ps]]; [done|done|]. cbn [fmap list_fmap] in Hlens. injection Hlens as Hp1 Hp2 Hps.
    unfold part_limits, within in *. cbn [max_payload_len first_packet_reduction_len last_packet_reduction_len] in *. split.
    + apply Forall_forall. intros p Hp. apply (list_elem_of_fmap_2 len) in Hp.
      change (len <$> p1 :: p2 :: ps) with (len p1 :: len p2 :: (len <$> ps)) in Hp. rewrite Hp1, Hp2, Hps in Hp.
      change (len p ∈ (fun s => 2 + s) <$> (s1 :: s2 :: sizes)) in Hp. apply list_elem_of_fmap in Hp as (s & -> & Hs).
      rewrite Forall_forall in Hw. specialize (Hw s Hs). cbn beta in Hw. lia.
    + split; [lia|]. assert (Hlast : len <$> list.last (p2 :: ps) = Some (2 + e)).
      { rewrite <- fmap_last. cbn [fmap list_fmap]. rewrite Hp2, Hps. change (list.last ((fun s => 2 + s) <$> (s2 :: sizes)) = Some (2 + e)).
        by rewrite fmap_last, He. }
      apply fmap_Some in Hlast as (e' & -> & He'). exists e'. split; [done|]. lia.
Qed.

Lemma fragment_range pre f rest : input_fragments_ this = pre ++ f :: rest -> 0 < len f < 2 ^ 26.
Proof using Hf. intros Hin. rewrite Hin in Hf. apply Forall_app in Hf as [_ H]. by apply Forall_cons in H as [[_ H] _]. Qed.

(** Single bytes are a split when the limits leave room. *)
Lemma bytes_split pre f rest : input_fragments_ this = pre ++ f :: rest -> roomy l -> capacity pre rest < len f ->
  split_ok (part_limits pre rest) (len f - 1) (replicate (Z.to_nat (len f - 1)) 1).
Proof using Hl Hcount.
  intros Hin [Hr1 Hr2] Hcap. rewrite (part_capacity pre f rest Hin) in Hcap. pose proof Hl as (Hl1 & Hl2 & Hl3 & Hmax).
  unfold part_limits in *. cbn [single_packet_reduction_len] in Hcap.
  assert (Hn : exists n, Z.to_nat (len f - 1) = S (S n) /\ len f - 1 = Z.of_nat (S (S n))).
  { exists (Z.to_nat (len f - 3)). repeat case_match; lia. }
  destruct Hn as (n & En & ->). rewrite Nat2Z.id. split.
  - clear. induction (S (S n)) as [|k IH]; [done|]. cbn [replicate]. rewrite total_cons, IH. lia.
  - cbn [replicate]. cbn [max_payload_len first_packet_reduction_len last_packet_reduction_len]. split; [|split; [repeat case_match; lia|]].
    + change (1 :: 1 :: replicate n 1) with (replicate (S (S n)) 1). apply Forall_replicate. unfold within. cbn. lia.
    + exists 1. split; [|repeat case_match; lia]. change (1 :: replicate n 1) with (replicate (S n) 1). by rewrite replicate_S_end, last_snoc.
Qed.

(** [PacketizeFuA] of a NAL unit that does not fit. *)
Lemma fua_spec pre f rest : input_fragments_ this = pre ++ f :: rest -> capacity pre rest < len f ->
  (PacketizeFuA this (len pre) = Some (false, this) /\ ~ roomy l) \/
  exists parts, let c := Parts (nal_header f) parts in
    chunk_nalus c = [f] /\ len parts < 2 ^ 26 /\
    PacketizeFuA this (len pre) = Some (true, push (chunk_units c) (len parts) this) /\
    chunk_ok c /\ chunk_fits l (count =? 1) (bool_decide (pre = [])) (bool_decide (rest = [])) c.
Proof using Hl Hf Hcount.
  intros Hin Hcap. pose proof (fragment_range pre f rest Hin) as Hlen. pose proof Hl as (Hl1 & Hl2 & Hl3 & Hmax). pose proof (capacity_range pre rest) as Hcr.
  destruct (split_spec (len f - 1) (part_limits pre rest)) as (sizes & Es & Hnone & Hsome).
  1-5: unfold part_limits, in_s; cbn [first_packet_reduction_len last_packet_reduction_len single_packet_reduction_len max_payload_len]; repeat case_match; lia.
  assert (E : PacketizeFuA this (len pre) = (if bool_decide (sizes = []) then Some (false, this) else
    '(units, remaining) ← fua_units f (nal_header f) sizes true kNalHeaderSize (len f - 1);
    check (remaining =? 0) ;; Some (true, push units (len sizes) this))).
  { unfold PacketizeFuA. rewrite (fragment_there pre f rest Hin). cbn [mbind option_bind]. rewrite (fua_limits_spec pre f rest Hin). cbn [mbind option_bind].
    change kNalHeaderSize with 1. rewrite (u64_small (len f - 1)), to_int_small, Es by lia. cbn [mbind option_bind].
    case_bool_decide; [done|]. by rewrite deref_header by (apply nonempty_len; lia). }
  rewrite E. case_bool_decide as Hs.
  - left. split; [done|]. intros Hroomy. eapply (Hnone Hs). by apply bytes_split.
  - right. destruct (Hsome Hs) as (Hok & _). destruct (parts_fit pre f rest sizes (nal_header f) Hin Hcap Hs Hok) as (Hpos & Htot & Hcok & Hcf).
    set (parts := cut_all sizes (drop 1 f)) in *. exists parts. cbn zeta. destruct (cut_all_spec sizes (drop 1 f) Hpos Htot) as [Hj Hm]. fold parts in Hj, Hm.
    assert (Hd : len (drop 1 f) = len f - 1) by (unfold len in *; rewrite length_drop; lia).
    assert (Hparts : len parts = len sizes) by (rewrite <- Hm; by rewrite len_fmap).
    split; [cbn [chunk_nalus]; rewrite Hj; by destruct f|]. split.
    { rewrite Hparts. pose proof (total_bounds (len f) sizes) as Hb.
      assert (len sizes <= total sizes) by (clear -Hpos; induction Hpos as [|s sizes H Hs IH]; [done|rewrite len_cons, total_cons; lia]). lia. }
    split; [|done]. rewrite <- Hd. change kNalHeaderSize with (len [nal_header f]).
    rewrite (fua_units_spec (nal_header f) f ltac:(lia) sizes [nal_header f] (drop 1 f) true); [|destruct f; [change (len []) with 0 in Hlen; lia|done]|done|done].
    cbn [mbind option_bind Z.eqb check]. rewrite Hparts. done.
Qed.

(** [PacketizeSingleNalu] *)
Lemma single_spec pre f rest : input_fragments_ this = pre ++ f :: rest ->
  PacketizeSingleNalu this (len pre) =
    (if capacity pre rest <? len f then Some (false, this) else Some (true, push (chunk_units (One false f)) 1 this)) /\
  (len f <= capacity pre rest -> chunk_ok (One false f) /\ chunk_fits l (count =? 1) (bool_decide (pre = [])) (bool_decide (rest = [])) (One false f)).
Proof using Hl Hf Hcount.
  intros Hin. pose proof (fragment_range pre f rest Hin) as Hlen. pose proof Hl as (Hl1 & Hl2 & Hl3 & Hmax).
  pose proof (position_last pre f rest Hin) as Hp. assert (Hne : f <> []) by (apply nonempty_len; lia). split.
  - unfold PacketizeSingleNalu. fold l count. rewrite Hp, position_first.
    set (size := if count =? 1 then _ else _). assert (Hsize : size = capacity pre rest).
    { unfold size, capacity. rewrite (u64_small (max_payload_len l)) by lia. repeat case_match; rewrite ?u64_small; lia. }
    rewrite Hsize, (fragment_there pre f rest Hin). cbn [mbind option_bind]. destruct (capacity pre rest <? len f); [done|].
    rewrite (proj2 (Z.ltb_lt 0 (len f))), deref_header by (done || lia). done.
  - intros Hfit. split; [done|]. pose proof (capacity_range pre rest). unfold chunk_fits. cbn [chunk_payloads]. split; [constructor; [lia|constructor]|].
    assert (Hboth : (count =? 1) = false -> bool_decide (pre = []) = true -> bool_decide (rest = []) = true -> False).
    { intros Hc ->%bool_decide_eq_true ->%bool_decide_eq_true. unfold count in Hc. by rewrite Hin in Hc. }
    unfold capacity in Hfit. destruct (count =? 1), (bool_decide (pre = [])), (bool_decide (rest = [])); try lia.
Qed.

End generation.

(** ** The whole frame *)

(** A state on the way through the NAL units [fs] under the limits [l]. *)
Record running (l : PayloadSizeLimits) (fs : list (list Z)) (i : Z) (this : t) : Prop := {
  run_limits : limits_ this = l;
  run_input : input_fragments_ this = fs;
  run_count : 0 <= num_packets_left_ this <= 2 ^ 26 * i
}.

(** The state after a chunk was queued. *)
Lemma running_push l fs i j c n this : running l fs i this -> len fs < 2 ^ 16 -> j <= len fs -> i + 1 <= j -> 0 <= n < 2 ^ 26 ->
  running l fs j (push (chunk_units c) n this) /\
  packets_ (push (chunk_units c) n this) = packets_ this ++ chunk_units c /\
  num_packets_left_ (push (chunk_units c) n this) = num_packets_left_ this + n.
Proof.
  intros [Hl Hi Hn] Hfs Hj Hij Hc. assert (E : num_packets_left_ (push (chunk_units c) n this) = num_packets_left_ this + n).
  { cbn [push num_packets_left_]. rewrite u64_small; lia. }
  split; [|done]. split; [done|done|]. rewrite E. lia.
Qed.

(** What generation promises: the chunks of what is left. *)
Definition generates (l : PayloadSizeLimits) (fs : list (list Z)) (pre rest : list (list Z)) (this : t) (r : bool * t) : Prop :=
  (r.1 = true -> exists cs, running l fs (len fs) r.2 /\ packets_ r.2 = packets_ this ++ mjoin (chunk_units <$> cs) /\
     mjoin (chunk_nalus <$> cs) = rest /\ chunks_fit l (len fs =? 1) (bool_decide (pre = [])) cs /\
     num_packets_left_ r.2 = num_packets_left_ this + len (payloads cs)).

Lemma chunks_nil_nalus cs l alone first : chunks_fit l alone first cs -> bool_decide (cs = []) = bool_decide (mjoin (chunk_nalus <$> cs) = []).
Proof. destruct cs as [|c cs]; [done|]. intros _. rewrite mjoin_fmap_cons. by destruct c. Qed.

Lemma generates_cons l fs pre f a b this c n r : fs = pre ++ f :: a ++ b -> len fs < 2 ^ 16 -> running l fs (len pre) this ->
  chunk_nalus c = f :: a -> len (chunk_payloads c) = n -> 0 <= n < 2 ^ 26 -> chunk_ok c ->
  chunk_fits l (len fs =? 1) (bool_decide (pre = [])) (bool_decide (b = [])) c ->
  generates l fs (pre ++ f :: a) b (push (chunk_units c) n this) r -> generates l fs pre (f :: a ++ b) this r.
Proof.
  intros Hfs Hlen Hrun Hnalus Hn Hnr Hok Hfit Hgen E. destruct (Hgen E) as (cs & Hr & Hp & Hm & Hcf & Hc).
  destruct (running_push l fs (len pre) (len pre + 1 + len a) c n this Hrun Hlen) as (_ & Hpk & Hnum); [|pose proof (len_nonneg a); lia|done|].
  { rewrite Hfs, len_app, len_cons, len_app. pose proof (len_nonneg b). lia. }
  exists (c :: cs). split; [done|]. split; [rewrite Hp, Hpk, mjoin_fmap_cons, <- app_assoc; done|].
  split; [rewrite mjoin_fmap_cons, Hm, Hnalus; done|]. split.
  - cbn [chunks_fit]. split; [done|]. rewrite (chunks_nil_nalus _ _ _ _ Hcf), Hm. split; [done|].
    rewrite (bool_decide_eq_false_2 (pre ++ f :: a = [])) in Hcf; [done|]. intros E0. apply app_eq_nil in E0 as [_ ?]. done.
  - rewrite Hc, Hnum. unfold payloads. rewrite mjoin_fmap_cons, len_app, Hn. lia.
Qed.

(** The NAL units that fit into a packet of their own. *)
Fixpoint all_fit (l : PayloadSizeLimits) (count : Z) (first : bool) (rest : list (list Z)) : bool :=
  match rest with
  | [] => true
  | f :: rest =>
      (len f + (if count =? 1 then single_packet_reduction_len l else if first then first_packet_reduction_len l
         else if bool_decide (rest = []) then last_packet_reduction_len l else 0) <=? max_payload_len l) &&
      all_fit l count false rest
  end.

Section whole.
Context (l : PayloadSizeLimits) (fs : list (list Z)).
Hypothesis Hl : limits_ok l.
Hypothesis Hf : Forall fragment_ok fs.
Hypothesis Hlen : len fs < 2 ^ 16.

Lemma not_nil_middle (pre : list (list Z)) f a : bool_decide (pre ++ f :: a = []) = false.
Proof using Type. apply bool_decide_eq_false_2. intros E. apply app_eq_nil in E as [_ ?]. done. Qed.

(** Nothing is left. *)
Lemma generate_end fuel mode this pre : fs = pre ++ [] -> running l fs (len pre) this ->
  generate_loop fuel mode this (len pre) = Some (true, this) /\ generates l fs pre [] this (true, this).
Proof using Type.
  rewrite app_nil_r. intros Hfs Hrun. rewrite <- Hfs in *. split.
  - destruct fuel; cbn [generate_loop]; by rewrite (run_input _ _ _ _ Hrun), Z.ltb_irrefl.
  - intros _. exists []. split; [done|]. split; [by rewrite app_nil_r|]. split; [done|]. split; [done|]. change (len (payloads [])) with 0. symmetry. apply Z.add_0_r.
Qed.

Lemma generate_single fuel : forall this pre rest, fs = pre ++ rest -> running l fs (len pre) this -> (length rest <= fuel)%nat ->
  exists r, generate_loop fuel SingleNalUnit this (len pre) = Some r /\ generates l fs pre rest this r /\
    r.1 = all_fit l (len fs) (bool_decide (pre = [])) rest.
Proof using Hl Hf Hlen.
  induction fuel as [|fuel IH]; intros this pre rest Hfs Hrun Hfuel; (destruct rest as [|f rest]; [|try (cbn in Hfuel; lia)]).
  1, 2: exists (true, this); split; [by apply generate_end|]; split; [by apply (generate_end 0 SingleNalUnit)|done].
  cbn [generate_loop]. rewrite (run_input _ _ _ _ Hrun).
  assert (Hc : 0 < len fs < 2 ^ 16) by (rewrite Hfs, len_app, len_cons in *; pose proof (len_nonneg pre); pose proof (len_nonneg rest); lia).
  rewrite (proj2 (Z.ltb_lt (len pre) (len fs))) by (rewrite Hfs, len_app, len_cons; pose proof (len_nonneg rest); lia). cbn [negb].
  pose proof (run_limits _ _ _ _ Hrun) as El. pose proof (run_input _ _ _ _ Hrun) as Ei.
  destruct (single_spec this) with (pre := pre) (f := f) (rest := rest) as [E Hfit]; [by rewrite El|by rewrite Ei|by rewrite Ei|by rewrite Ei|].
  rewrite E. clear E. rewrite El, Ei in Hfit. cbn [all_fit].
  assert (Ecap : (capacity this pre rest <? len f) = negb (len f + (if len fs =? 1 then single_packet_reduction_len l else if bool_decide (pre = [])
    then first_packet_reduction_len l else if bool_decide (rest = []) then last_packet_reduction_len l else 0) <=? max_payload_len l)).
  { unfold capacity. rewrite El, Ei. set (X := if len fs =? 1 then _ else _). lia. }
  destruct (Z.ltb_spec (capacity this pre rest) (len f)) as [Hbig|Hok]; cbn [mbind option_bind].
  - exists (false, this). split; [done|]. split; [done|]. cbn [fst]. destruct (_ <=? _); done.
  - destruct (Hfit Hok) as [Hcok Hcf].
    destruct (running_push l fs (len pre) (len pre + 1) (One false f) 1 this Hrun Hlen) as (Hrun' & _); [rewrite Hfs, len_app, len_cons; pose proof (len_nonneg rest); lia|lia|lia|].
    assert (Epre : len (pre ++ [f]) = len pre + 1) by (rewrite len_app; done). rewrite <- Epre in Hrun' |- *.
    destruct (IH (push (chunk_units (One false f)) 1 this) (pre ++ [f]) rest ltac:(by rewrite <- app_assoc) Hrun' ltac:(cbn in Hfuel; lia)) as (r & Er & Hgen & Hall).
    exists r. split; [exact Er|]. split.
    + eapply (generates_cons l fs pre f [] rest this (One false f) 1 r); try done.
    + rewrite Hall, not_nil_middle. destruct (_ <=? _); done.
Qed.

Lemma len_payload_parts h : forall parts first, len (fua_payloads h first parts) = len parts.
Proof using Type. induction parts as [|p parts IH]; intros first; [done|]. cbn [fua_payloads]. by rewrite !len_cons, IH. Qed.

Lemma generate_interleaved fuel : forall this pre rest, fs = pre ++ rest -> running l fs (len pre) this -> (length rest <= fuel)%nat ->
  exists r, generate_loop fuel NonInterleaved this (len pre) = Some r /\ generates l fs pre rest this r /\ (roomy l -> r.1 = true).
Proof using Hl Hf Hlen.
  induction fuel as [|fuel IH]; intros this pre rest Hfs Hrun Hfuel; (destruct rest as [|f rest]; [|try (cbn in Hfuel; lia)]).
  1, 2: exists (true, this); split; [by apply generate_end|]; split; [by apply (generate_end 0 SingleNalUnit)|done].
  cbn [generate_loop]. rewrite (run_input _ _ _ _ Hrun).
  assert (Hc : 0 < len fs < 2 ^ 16) by (rewrite Hfs, len_app, len_cons in *; pose proof (len_nonneg pre); pose proof (len_nonneg rest); lia).
  rewrite (proj2 (Z.ltb_lt (len pre) (len fs))) by (rewrite Hfs, len_app, len_cons; pose proof (len_nonneg rest); lia). cbn [negb].
  pose proof (run_limits _ _ _ _ Hrun) as El. pose proof (run_input _ _ _ _ Hrun) as Ei.
  assert (Hin : input_fragments_ this = pre ++ f :: rest) by by rewrite Ei.
  assert (Hl' : limits_ok (limits_ this)) by by rewrite El. assert (Hf' : Forall fragment_ok (input_fragments_ this)) by by rewrite Ei.
  assert (Hc' : 0 < len (input_fragments_ this) < 2 ^ 16) by by rewrite Ei.
  pose proof (fragment_range this Hf' pre f rest Hin) as Hfl.
  rewrite (fragment_there this pre f rest Hin). cbn [mbind option_bind].
  assert (Ecap : (if len fs =? 1 then int (max_payload_len (limits_ this) - single_packet_reduction_len (limits_ this))
    else if len pre =? 0 then int (max_payload_len (limits_ this) - first_packet_reduction_len (limits_ this))
    else if len pre + 1 =? len fs then int (max_payload_len (limits_ this) - last_packet_reduction_len (limits_ this))
    else Some (max_payload_len (limits_ this))) = Some (capacity this pre rest)).
  { pose proof (position_last this pre f rest Hin) as Hp. rewrite Ei in Hp. rewrite Hp, position_first. unfold capacity. rewrite Ei.
    destruct Hl' as (? & ? & ? & ?). repeat case_match; rewrite ?int_ok by lia; f_equal; lia. }
  rewrite Ecap. cbn [mbind option_bind]. rewrite to_int_small by lia.
  destruct (Z.ltb_spec (capacity this pre rest) (len f)) as [Hbig|Hok].
  - destruct (fua_spec this Hl' Hf' Hc' pre f rest Hin Hbig) as [[E Hno]|(parts & Hn & Hpl & E & Hcok & Hcf)]; rewrite E; cbn [mbind option_bind].
    + exists (false, this). split; [done|]. split; [done|]. rewrite El in Hno. done.
    + rewrite El, Ei in Hcf. set (c := Parts (nal_header f) parts) in *. pose proof (len_nonneg parts).
      destruct (running_push l fs (len pre) (len pre + 1) c (len parts) this Hrun Hlen) as (Hrun' & _); [rewrite Hfs, len_app, len_cons; pose proof (len_nonneg rest); lia|lia|lia|].
      assert (Epre : len (pre ++ [f]) = len pre + 1) by (rewrite len_app; done). rewrite <- Epre in Hrun' |- *.
      destruct (IH (push (chunk_units c) (len parts) this) (pre ++ [f]) rest ltac:(by rewrite <- app_assoc) Hrun' ltac:(cbn in Hfuel; lia)) as (r & Er & Hgen & Hroom).
      exists r. split; [exact Er|]. split; [|done]. eapply (generates_cons l fs pre f [] rest this c (len parts) r); try done; apply len_payload_parts.
  - destruct (stapa_spec this Hl' Hf' Hc' pre f rest Hin Hok) as (a & b & -> & E & Hcf). rewrite E. cbn [mbind option_bind]. rewrite El, Ei in Hcf.
    set (c := stapa_chunk (f :: a)) in *. destruct (stapa_chunk_payload f a) as (p & Ep & _). fold c in Ep.
    destruct (running_push l fs (len pre) (len pre + 1 + len a) c 1 this Hrun Hlen) as (Hrun' & _);
      [rewrite Hfs, len_app, len_cons, len_app; pose proof (len_nonneg b); lia|pose proof (len_nonneg a); lia|lia|].
    assert (Epre : len (pre ++ f :: a) = len pre + 1 + len a) by (rewrite len_app, len_cons; lia). rewrite <- Epre in Hrun' |- *.
    destruct (IH (push (chunk_units c) 1 this) (pre ++ f :: a) b ltac:(by rewrite <- app_assoc) Hrun' ltac:(cbn in Hfuel; rewrite length_app in Hfuel; lia)) as (r & Er & Hgen & Hroom).
    exists r. split; [exact Er|]. split; [|done]. eapply (generates_cons l fs pre f a b this c 1 r); try done; [apply stapa_chunk_nalus|by rewrite Ep|].
    assert (Hne : Forall (fun f => f <> []) (f :: a)).
    { apply Forall_forall. intros x Hx ->. rewrite Forall_forall in Hf. destruct (Hf []) as [_ H0]; [|change (len []) with 0 in H0; lia].
      rewrite Hfs. apply elem_of_app. right. rewrite app_comm_cons. apply elem_of_app. by left. }
    subst c. destruct a; [by apply Forall_cons in Hne as [? _]|]. by split.
Qed.

(** The packetiser of a frame. *)
Lemma construct_spec mode payload fragmentation : (fun f => subview payload f.1 f.2) <$> fragmentation = fs ->
  exists this ok, construct payload l mode fragmentation = Some this /\
    (if ok : bool then exists cs, mjoin (chunk_nalus <$> cs) = fs /\ chunks_fit l (len fs =? 1) true cs /\
       input_fragments_ this = fs /\ packets_ this = mjoin (chunk_units <$> cs) /\ NumPackets this = len (payloads cs)
     else packets_ this = [] /\ NumPackets this = 0) /\
    (mode = NonInterleaved -> roomy l -> ok = true) /\ (mode = SingleNalUnit -> ok = all_fit l (len fs) true fs).
Proof using Hl Hf Hlen.
  intros Hfs. set (start := Packetizer l 0 fs []). assert (Hrun : running l fs (len (@nil (list Z))) start) by (by split).
  assert (Hgen : exists r, generate_loop (length fs) mode start 0 = Some r /\ generates l fs [] fs start r /\
    (mode = NonInterleaved -> roomy l -> r.1 = true) /\ (mode = SingleNalUnit -> r.1 = all_fit l (len fs) true fs)).
  { destruct mode.
    - destruct (generate_interleaved (length fs) start [] fs eq_refl Hrun ltac:(lia)) as (r & E & Hg & Hr). exists r. by repeat split.
    - destruct (generate_single (length fs) start [] fs eq_refl Hrun ltac:(lia)) as (r & E & Hg & Hr). exists r. by repeat split. }
  destruct Hgen as ([ok this] & E & Hg & Hr). unfold construct, GeneratePackets. rewrite Hfs. fold start. cbn [input_fragments_ start].
  rewrite E. cbn [mbind option_bind]. cbn [fst] in Hr. eexists _, ok. split; [done|]. split; [|done]. destruct ok; [|done].
  destruct (Hg eq_refl) as (cs & [_ Hi _] & Hp & Hm & Hcf & Hn). exists cs. cbn [fst snd] in *. split; [done|]. split; [done|]. split; [done|]. split; [done|].
  unfold NumPackets. rewrite Hn. done.
Qed.

End whole.
