(* ===== verification/H264Send.v ===== *)
(** * Sending an H.264 frame

    [NextPacket] on the RTP packets of [RtpSpec]: each call takes the next chunk of the queue, or the next
    part of one, into the payload of the packet. *)

From S2P Require Import Prelude Buffer ByteIo BitCodec H264Common Packetize RtpPacket RtpSpec RtpBuild RtpRefine H264Packetizer H264Packets.

Import H264 RtpPacketizer ByteWriter RtpPacketizerH264.

Section send.
Context (g : list Z) (Hg : bytes_ok g).

(** A write inside the payload. *)
Lemma payload_write p a m i x old y new : built p a -> RtpSpec.payload a = x ++ old ++ y -> stores m (len (RtpSpec.header a) + i) new ->
  i = len x -> len old = len new -> bytes_ok new -> does (RtpPacket.on_data g m) p tt (with_payload (x ++ new ++ y) a) 0.
Proof using Hg.
  intros Hr Hp Hs -> Hl Hb. pose proof Hr as [Hok Hf Hh].
  eapply (field_write g p p a _ 0 m _ (RtpSpec.header a ++ x) old (y ++ padding_bytes (padding a)) new); try done.
  - unfold rtp_wire. rewrite Hp. by rewrite <- !app_assoc.
  - unfold rtp_wire. cbn [RtpSpec.payload with_payload padding]. change (RtpSpec.header (with_payload (x ++ new ++ y) a)) with (RtpSpec.header a). by rewrite <- !app_assoc.
  - by rewrite len_app.
  - destruct Hok. constructor; try done. cbn [RtpSpec.payload with_payload]. rewrite Hp in *. rewrite !bytes_ok_app in *. tauto.
  - destruct Hf. constructor; try done. cbn [RtpSpec.payload with_payload]. rewrite Hp in f_payload. rewrite f_payload, !len_app. lia.
Qed.

Lemma does_lift {A} (o : option A) (r : A) p a s : repr p a s -> o = Some r -> does (lift o) p r a s.
Proof using Type. intros Hr ->. by exists p. Qed.

Lemma does_check b p a s : repr p a s -> b = true -> does (dcheck b : RtpPacket.P unit) p tt a s.
Proof using Type. intros Hr ->. by exists p. Qed.

(** A packet without payload and padding with room for [n] bytes. *)
Definition empty_for (n : Z) (p : RtpPacket.t) (a : rtp) : Prop :=
  built p a /\ RtpSpec.payload a = [] /\ padding a = 0 /\ len (RtpSpec.header a) + n <= RtpPacket.capacity p.

(** A payload that is allocated and written in one piece. *)
Lemma fill_does p a n d : empty_for n p a -> len d <= n -> bytes_ok d ->
  exists x, len x = len d /\ does (RtpPacket.AllocatePayload g (len d)) p (Some (len (RtpSpec.header a))) (with_payload x a) 0.
Proof using Hg.
  intros (Hr & Hp & Hpd & Hc) Hd Hb. apply AllocatePayload_ok; [done|done|done|apply len_nonneg|lia].
Qed.

Lemma empty_for_kept n p p1 a : empty_for n p a -> kept p p1 -> built p1 a -> empty_for n p1 a.
Proof using Type. intros (Hr & Hp & Hpd & Hc) [Hk _] Hr1. split; [done|]. split; [done|]. split; [done|]. by rewrite Hk. Qed.

(** The packet a call returns. *)
Definition packed (d : list Z) (mark : bool) (a : rtp) : rtp := with_marker mark (with_payload d a).

Definition emptied (this : t) (fs : list (list Z)) (us : list PacketUnit) : t := Packetizer (limits_ this) (u64 (num_packets_left_ this - 1)) fs us.

Lemma next_done (this this' : t) n p a d (m : RtpPacket.P t) :
  does m p this' (with_payload d a) 0 -> limits_ this' = limits_ this -> num_packets_left_ this' = n ->
  does (this ← m; RtpPacket.SetMarker g (bool_decide (packets_ this = [])) ;;
    mret (true, Packetizer (limits_ this) (u64 (num_packets_left_ this - 1)) (input_fragments_ this) (packets_ this))) p
    (true, Packetizer (limits_ this) (u64 (n - 1)) (input_fragments_ this') (packets_ this'))
    (packed d (bool_decide (packets_ this' = [])) a) 0.
Proof using Hg.
  intros Hm <- <-. eapply does_bind; [exact Hm|]. intros p1 Hr1 _. apply does_true. by apply SetMarker_ok.
Qed.

(** ** A NAL unit alone *)
Lemma next_one this p a n agg f us fs : empty_for n p a -> len f <= n -> bytes_ok f -> f <> [] ->
  packets_ this = chunk_units (One agg f) ++ us -> input_fragments_ this = f :: fs ->
  does (NextPacket g this) p (true, emptied this fs us) (packed f (bool_decide (us = [])) a) 0.
Proof using Hg.
  intros He Hn Hb Hne Hp Hi. unfold NextPacket. rewrite Hp. cbn [chunk_units app first_fragment last_fragment andb source_fragment].
  destruct (fill_does p a n f He Hn Hb) as (x & Hx & Hdo). pose proof He as (Hr & Hpay & Hpad & Hc).
  change (emptied this fs us) with (Packetizer (limits_ this) (u64 (num_packets_left_ this - 1)) (input_fragments_ (Packetizer (limits_ this) (num_packets_left_ this) fs us))
    (packets_ (Packetizer (limits_ this) (num_packets_left_ this) fs us))).
  eapply (next_done this (Packetizer (limits_ this) (num_packets_left_ this) fs us)); [|done|done].
  eapply does_bind; [exact Hdo|]. intros p1 Hr1 _. eapply does_bind; [by apply does_lift|]. intros p2 Hr2 _.
  eapply does_bind.
  { eapply (payload_write p2 (with_payload x a) _ 0 [] x [] f); [done|by rewrite app_nil_r| |done|done|done].
    rewrite Z.add_0_r. by apply stores_memcpy. }
  intros p3 Hr3 _. rewrite app_nil_r in Hr3. cbn [app] in Hr3. rewrite Hi. eapply does_bind; [by eapply does_lift|]. intros p4 Hr4 _. by apply does_ret.
Qed.

(** ** A part of a NAL unit *)
Definition part_payload (h : Z) (first last : bool) (d : list Z) : list Z := fu_indicator h :: fua_header h first last :: d.

Lemma byte_of_bits v : (forall i, 8 <= i -> Z.testbit v i = false) -> byte_ok v.
Proof using Type.
  intros H. replace v with (v mod 2 ^ 8); [apply Z.mod_pos_bound; lia|]. apply Z.bits_inj'. intros i Hi. destruct (Z.lt_ge_cases i 8).
  - apply Z.mod_pow2_bits_low. lia.
  - rewrite Z.mod_pow2_bits_high by lia. by rewrite H.
Qed.

Lemma byte_lor a b : byte_ok a -> byte_ok b -> byte_ok (Z.lor a b).
Proof using Type. intros Ha Hb. apply byte_of_bits. intros i Hi. by rewrite Z.lor_spec, !testbit_above. Qed.

Lemma byte_land a b : byte_ok b -> byte_ok (Z.land a b).
Proof using Type. intros Hb. apply byte_of_bits. intros i Hi. by rewrite Z.land_spec, (testbit_above b), andb_false_r. Qed.

Lemma indicator_byte h : byte_ok (fu_indicator h).
Proof using Type. apply byte_lor; [apply byte_land|]; by_compute. Qed.

Lemma stapa_header_byte h : byte_ok (stapa_header h).
Proof using Type. apply byte_lor; [apply byte_land|]; by_compute. Qed.

Lemma fua_header_byte h first last : byte_ok (fua_header h first last).
Proof using Type. apply byte_lor; [destruct first, last; by_compute|apply byte_land; by_compute]. Qed.

Lemma next_part this p a n h first last d us fs f : empty_for n p a -> 2 + len d <= n -> bytes_ok d -> first && last = false ->
  packets_ this = Unit d first last false h :: us -> input_fragments_ this = f :: fs ->
  does (NextPacket g this) p (true, emptied this (if last then fs else f :: fs) us) (packed (part_payload h first last d) (bool_decide (us = [])) a) 0.
Proof using Hg.
  intros He Hn Hb Hfl Hp Hi. unfold NextPacket. rewrite Hp. cbn [first_fragment last_fragment aggregated]. rewrite Hfl.
  set (fs' := if last then fs else f :: fs). set (this' := Packetizer (limits_ this) (num_packets_left_ this) fs' us).
  change (emptied this fs' us) with (Packetizer (limits_ this) (u64 (num_packets_left_ this - 1)) (input_fragments_ this') (packets_ this')).
  change (bool_decide (us = [])) with (bool_decide (packets_ this' = [])). eapply (next_done this this'); [|done|done].
  pose proof He as (Hr & Hpay & Hpad & Hc). pose proof (len_nonneg d).
  assert (Hbytes : bytes_ok (part_payload h first last d)) by (constructor; [apply indicator_byte|constructor; [apply fua_header_byte|done]]).
  unfold NextFragmentPacket. rewrite Hp. eapply does_bind; [by eapply does_lift|]. intros p0 Hr0 Hk0. cbn [source_fragment header last_fragment].
  destruct (fill_does p0 a n (part_payload h first last d) (empty_for_kept n p p0 a He Hk0 Hr0)) as (x0 & Hx0 & Hdo0); [unfold part_payload; rewrite !len_cons; lia|done|].
  unfold part_payload in Hdo0. rewrite !len_cons in Hdo0. change kFuAHeaderSize with 2. replace (1 + (1 + len d)) with (2 + len d) in Hdo0 by lia.
  eapply does_bind; [exact Hdo0|]. intros p1 Hr1 _. eapply does_bind; [by apply does_lift|]. intros p2 Hr2 _.
  unfold part_payload in Hx0. rewrite !len_cons in Hx0. destruct x0 as [|x1 [|x2 x]]; [change (len []) with 0 in Hx0; lia|rewrite len_cons in Hx0; change (len []) with 0 in Hx0; lia|].
  rewrite !len_cons in Hx0.
  eapply does_bind.
  { eapply (payload_write p2 (with_payload (x1 :: x2 :: x) a) _ 0 [] [x1] (x2 :: x) [u8 (fu_indicator h)]); [done|done| |done|done|apply Forall_singleton, byte_ok_u8].
    rewrite Z.add_0_r. apply stores_store. }
  intros p3 Hr3 _. eapply does_bind.
  { eapply (payload_write p3 _ _ 1 [u8 (fu_indicator h)] [x2] x [u8 (fua_header h first last)]); [exact Hr3|done| |done|done|apply Forall_singleton, byte_ok_u8].
    apply stores_store. }
  intros p4 Hr4 _. eapply does_bind.
  { eapply (payload_write p4 _ _ 2 [u8 (fu_indicator h); u8 (fua_header h first last)] x [] d); [exact Hr4|by rewrite app_nil_r| |done|lia|done]. by apply stores_memcpy. }
  intros p5 Hr5 _. rewrite app_nil_r in Hr5. cbn [app] in Hr5. rewrite !wrap_small in Hr5 by (apply fua_header_byte || apply indicator_byte).
  eapply (does_bind _ _ _ fs'); [|].
  { subst fs'. rewrite Hi. destruct last; [by apply does_lift|by apply does_ret]. }
  intros p6 Hr6 _. eapply does_bind; [by eapply does_lift|]. intros p7 Hr7 _. apply does_ret. exact Hr7.
Qed.

(** ** An aggregate *)
Definition agg_units (first : bool) (fs : list (list Z)) : list PacketUnit := mark_last (stapa_units first fs).

Lemma agg_units_cons b f fs : agg_units b (f :: fs) = Unit f b (bool_decide (fs = [])) true (nal_header f) :: agg_units false fs.
Proof using Type. by destruct fs. Qed.

Lemma stapa_entry_ok f : bytes_ok f -> bytes_ok (stapa_entry f).
Proof using Type. intros Hf. apply bytes_ok_app. split; [apply be_bytes_ok|done]. Qed.

Lemma entries_ok fs : Forall bytes_ok fs -> bytes_ok (mjoin (stapa_entry <$> fs)).
Proof using Type. induction 1 as [|f fs Hf Hfs IH]; [constructor|]. rewrite mjoin_fmap_cons. apply bytes_ok_app. split; [by apply stapa_entry_ok|done]. Qed.

Lemma len_entry f : len (stapa_entry f) = 2 + len f.
Proof using Type. unfold stapa_entry. by rewrite len_app, len_be_bytes. Qed.

(** One entry behind what was written. *)
Lemma entry_written p a done free f : built p a -> RtpSpec.payload a = done ++ free -> 2 + len f <= len free -> bytes_ok f -> len f < 2 ^ 16 ->
  exists p1 p2 free', RtpPacket.on_data g (WriteBigEndian 2 (len (RtpSpec.header a) + len done) (u16 (len f))) p = Some (tt, p1) /\
    RtpPacket.on_data g (memcpy (len (RtpSpec.header a) + (len done + kLengthFieldSize)) f) p1 = Some (tt, p2) /\
    built p2 (with_payload ((done ++ stapa_entry f) ++ free') a) /\ kept p p2 /\ len free' = len free - (2 + len f).
Proof using Hg.
  intros Hr Hp Hfit Hb Hs. pose proof (len_nonneg f) as Hlf. destruct (cut free 2) as (old1 & free1 & -> & Ho1); [lia|]. rewrite len_app in Hfit.
  destruct (cut free1 (len f)) as (old2 & free2 & -> & Ho2); [lia|].
  destruct (payload_write p a (WriteBigEndian 2 (len (RtpSpec.header a) + len done) (u16 (len f))) (len done) done old1 (old2 ++ free2) (be_bytes 2 (len f)))
    as (p1 & E1 & Hr1 & Hk1); [done|done| |done|by rewrite len_be_bytes|apply be_bytes_ok|].
  { rewrite (wrap_small 16) by (unfold in_u; lia). apply stores_WriteBigEndian. }
  destruct (payload_write p1 (with_payload (done ++ be_bytes 2 (len f) ++ old2 ++ free2) a) (memcpy (len (RtpSpec.header a) + (len done + kLengthFieldSize)) f)
    (len done + kLengthFieldSize) (done ++ be_bytes 2 (len f)) old2 free2 f) as (p2 & E2 & Hr2 & Hk2);
    [done|by rewrite <- app_assoc|by apply stores_memcpy|by rewrite len_app, len_be_bytes|done|done|].
  exists p1, p2, free2. split; [done|]. split; [done|]. split; [|split; [by eapply kept_trans|rewrite !len_app; lia]].
  unfold stapa_entry. rewrite <- !app_assoc in *. exact Hr2.
Qed.

(** The loop writes the entries behind what was written. *)
Lemma aggregate_loop_does fs : forall b f us rest cap p a done free, built p a ->
  RtpSpec.payload a = done ++ free -> len done + len free = cap -> Forall bytes_ok (f :: fs) -> Forall (fun f => len f < 2 ^ 16) (f :: fs) ->
  len done + len (mjoin (stapa_entry <$> (f :: fs))) <= cap ->
  exists free', does (aggregate_loop g (agg_units b (f :: fs) ++ us) ((f :: fs) ++ rest) (len (RtpSpec.header a)) cap (len done) (bool_decide (fs = []))) p
    (us, rest, len done + len (mjoin (stapa_entry <$> (f :: fs))), true) (with_payload ((done ++ mjoin (stapa_entry <$> (f :: fs))) ++ free') a) 0.
Proof using Hg.
  induction fs as [|f2 fs IH]; intros b f us rest cap p a done free Hr Hp Hcap Hb Hs Hfit; rewrite mjoin_fmap_cons, len_app, len_entry in *;
    apply Forall_cons in Hb as [Hbf Hb]; apply Forall_cons in Hs as [Hsf Hs]; rewrite agg_units_cons; cbn [app aggregate_loop aggregated negb source_fragment].
  - change (mjoin (stapa_entry <$> [])) with (@nil Z) in *. change (len []) with 0 in *.
    destruct (entry_written p a done free f Hr Hp ltac:(lia) Hbf Hsf) as (p1 & p2 & free' & E1 & E2 & Hr2 & Hk2 & _).
    exists free', p2. rewrite app_nil_r. split; [|done]. rewrite (bool_decide_eq_true_2 (@nil (list Z) = [])) by done.
    rewrite (ST_bind_ret _ _ _ tt p) by (unfold dcheck; change kLengthFieldSize with 2; rewrite (proj2 (Z.leb_le (len done + 2 + len f) cap)) by lia; done).
    rewrite (ST_bind_ret _ _ _ _ _ E1), (ST_bind_ret _ _ _ _ _ E2).
    rewrite (ST_bind_ret _ _ _ rest p2) by done. unfold mret, ST_ret. change kLengthFieldSize with 2. do 4 f_equal. lia.
  - pose proof (len_nonneg (mjoin (stapa_entry <$> (f2 :: fs)))).
    destruct (entry_written p a done free f Hr Hp ltac:(lia) Hbf Hsf) as (p1 & p2 & free' & E1 & E2 & Hr2 & Hk2 & Hl2).
    set (a2 := with_payload ((done ++ stapa_entry f) ++ free') a) in *.
    destruct (IH false f2 us rest cap p2 a2 (done ++ stapa_entry f) free' Hr2 eq_refl) as (free2 & p3 & E3 & Hr3 & Hk3); [rewrite len_app, len_entry; lia|done|done|rewrite len_app, len_entry; lia|].
    exists free2, p3. split; [|split; [|by eapply kept_trans]].
    + rewrite (bool_decide_eq_false_2 (f2 :: fs = [])) by done.
      rewrite (ST_bind_ret _ _ _ tt p) by (unfold dcheck; change kLengthFieldSize with 2; rewrite (proj2 (Z.leb_le (len done + 2 + len f) cap)) by lia; done).
      rewrite (ST_bind_ret _ _ _ _ _ E1), (ST_bind_ret _ _ _ _ _ E2). rewrite len_app, len_entry in E3.
      rewrite (ST_bind_ret _ _ _ ((f2 :: fs) ++ rest) p2) by done. rewrite agg_units_cons in E3 |- *. rewrite (ST_bind_ret _ _ _ (Unit f2 false (bool_decide (fs = [])) true (nal_header f2)) p2) by done.
      cbn [last_fragment]. change kLengthFieldSize with 2. rewrite <- Z.add_assoc in E3. rewrite <- (Z.add_assoc (len done) 2). exact E3.
    + rewrite <- app_assoc in Hr3 |- *. rewrite <- !app_assoc in *. exact Hr3.
Qed.

Lemma next_many this p a n f fs us rest : empty_for n p a -> fs <> [] -> Forall bytes_ok (f :: fs) -> Forall (fun f => len f < 2 ^ 16) (f :: fs) ->
  let d := stapa_header (nal_header f) :: mjoin (stapa_entry <$> (f :: fs)) in
  len d <= n -> packets_ this = chunk_units (Many f fs) ++ us -> input_fragments_ this = (f :: fs) ++ rest ->
  does (NextPacket g this) p (true, emptied this rest us) (packed d (bool_decide (us = [])) a) 0.
Proof using Hg.
  intros He Hne Hb Hs d Hn Hp Hi. unfold NextPacket. rewrite Hp. change (chunk_units (Many f fs)) with (agg_units true (f :: fs)).
  rewrite agg_units_cons. cbn [app first_fragment last_fragment aggregated]. rewrite (bool_decide_eq_false_2 (fs = [])) by done. cbn [andb].
  set (this' := Packetizer (limits_ this) (num_packets_left_ this) rest us).
  change (emptied this rest us) with (Packetizer (limits_ this) (u64 (num_packets_left_ this - 1)) (input_fragments_ this') (packets_ this')).
  change (bool_decide (us = [])) with (bool_decide (packets_ this' = [])). eapply (next_done this this'); [|done|done].
  pose proof He as (Hr & Hpay & Hpad & Hc). set (hdr := len (RtpSpec.header a)) in *. subst d. rewrite len_cons in Hn. set (entries := mjoin _) in *.
  pose proof (len_nonneg entries) as Hle. set (cap := RtpPacket.capacity p - hdr).
  assert (Efree : RtpPacket.FreeCapacity p = cap).
  { unfold RtpPacket.FreeCapacity, RtpPacket.size. destruct Hr as [_ Hf _]. rewrite (f_offset _ _ _ Hf), (f_payload _ _ _ Hf), (f_padding _ _ _ Hf), Hpay, Hpad. subst cap hdr. change (len []) with 0. lia. }
  destruct (AllocatePayload_ok g Hg cap p a 0 Hr Hpad) as (x & Hx & p1 & E1 & Hr1 & Hk1); [subst cap; lia|subst cap; lia|].
  destruct x as [|x0 x]; [change (len []) with 0 in Hx; subst cap; lia|]. rewrite len_cons in Hx.
  destruct (payload_write p1 (with_payload (x0 :: x) a) (store hdr (stapa_header (nal_header f))) 0 [] [x0] x [stapa_header (nal_header f)]) as (p2 & E2 & Hr2 & Hk2);
    [done|done| |done|done|apply Forall_singleton, stapa_header_byte|].
  { rewrite Z.add_0_r. rewrite <- (wrap_small 8 (stapa_header (nal_header f))) at 2 by apply stapa_header_byte. apply stores_store. }
  destruct (aggregate_loop_does fs true f us rest cap p2 (with_payload ([stapa_header (nal_header f)] ++ x) a) [stapa_header (nal_header f)] x Hr2 eq_refl)
    as (free & p3 & E3 & Hr3 & Hk3); [change (len [stapa_header (nal_header f)]) with 1; lia|done|done|change (len [stapa_header (nal_header f)]) with 1; fold entries; subst cap; lia|].
  change (len [stapa_header (nal_header f)]) with 1 in E3. fold entries in E3, Hr3. set (d := [stapa_header (nal_header f)] ++ entries) in *.
  destruct (SetPayloadSize_ok g Hg (1 + len entries) p3 (with_payload (d ++ free) a) 0 Hr3 Hpad) as (y & Hy & p4 & E4 & Hr4 & Hk4); [lia| |].
  { destruct Hk1 as [Hk1 _], Hk2 as [Hk2 _], Hk3 as [Hk3 _]. rewrite Hk3, Hk2, Hk1. change (len (RtpSpec.header (with_payload (d ++ free) a))) with hdr. lia. }
  cbn [RtpSpec.payload with_payload] in Hy, Hr4.
  assert (Ed : Z.to_nat (1 + len entries) = length d) by (subst d; unfold len; cbn; lia). rewrite Ed, take_app_length in Hy, Hr4.
  assert (y = []) as ->. { rewrite len_app in Hy. assert (len d = 1 + len entries) by (subst d; rewrite len_app; done). destruct y; [done|]. rewrite len_cons in Hy. pose proof (len_nonneg y). lia. }
  rewrite app_nil_r in Hr4. exists p4. split; [|split; [exact Hr4|do 3 (eapply kept_trans; [done|]); done]].
  unfold NextAggregatePacket. rewrite (ST_bind_ret _ _ _ p p) by done. rewrite Efree.
  rewrite (ST_bind_ret _ _ _ tt p) by (unfold dcheck; change kNalHeaderSize with 1; rewrite (proj2 (Z.leb_le 1 cap)) by (subst cap; lia); done).
  rewrite (ST_bind_ret _ _ _ _ _ E1), (ST_bind_ret _ _ _ hdr p1) by done. rewrite Hp. change (chunk_units (Many f fs)) with (agg_units true (f :: fs)).
  rewrite (ST_bind_ret _ _ _ (Unit f true (bool_decide (fs = [])) true (nal_header f)) p1) by (rewrite agg_units_cons; done).
  cbn [first_fragment header last_fragment]. rewrite (ST_bind_ret _ _ _ tt p1) by done. rewrite (ST_bind_ret _ _ _ _ _ E2), Hi.
  change kNalHeaderSize with 1. change (len (RtpSpec.header (with_payload ([stapa_header (nal_header f)] ++ x) a))) with hdr in E3.
  rewrite (ST_bind_ret _ _ _ _ _ E3). cbv beta iota. rewrite (ST_bind_ret _ _ _ tt p3) by done. rewrite (ST_bind_ret _ _ _ _ _ E4). done.
Qed.

(** ** The queue *)

(** The queue will give the payloads [ds]; its units and the NAL units they come from. *)
Inductive pending (max : Z) : list (list Z) -> list PacketUnit -> list (list Z) -> Prop :=
  | pending_none : pending max [] [] []
  | pending_one agg f ds us fs : len f <= max -> bytes_ok f -> f <> [] -> pending max ds us fs ->
      pending max (f :: ds) (chunk_units (One agg f) ++ us) (f :: fs)
  | pending_many f fs ds us rest : fs <> [] -> Forall bytes_ok (f :: fs) -> Forall (fun f => len f < 2 ^ 16) (f :: fs) ->
      len (stapa_header (nal_header f) :: mjoin (stapa_entry <$> (f :: fs))) <= max -> pending max ds us rest ->
      pending max ((stapa_header (nal_header f) :: mjoin (stapa_entry <$> (f :: fs))) :: ds) (chunk_units (Many f fs) ++ us) ((f :: fs) ++ rest)
  | pending_part h first last d ds us f fs : 2 + len d <= max -> bytes_ok d -> first && last = false ->
      pending max ds us (if last then fs else f :: fs) ->
      pending max (part_payload h first last d :: ds) (Unit d first last false h :: us) (f :: fs).

Lemma pending_empty max ds us fs : pending max ds us fs -> bool_decide (us = []) = bool_decide (ds = []).
Proof using Type. by destruct 1 as [| |? [|] | ]. Qed.

Lemma next_pending max this p a d ds us fs : pending max (d :: ds) us fs -> packets_ this = us -> input_fragments_ this = fs -> empty_for max p a ->
  exists us' fs', pending max ds us' fs' /\ does (NextPacket g this) p (true, emptied this fs' us') (packed d (bool_decide (ds = [])) a) 0.
Proof using Hg.
  intros Hp Hus Hfs He. inversion Hp as [|agg f ds' us' fs' Hn Hb Hne Hrest|f fs1 ds' us' fs' Hne Hb Hs Hn Hrest|h first last d' ds' us' f fs' Hn Hb Hfl Hrest]; subst ds';
    pose proof (pending_empty _ _ _ _ Hrest) as Hemp; rewrite <- Hemp; subst.
  - exists us', fs'. split; [done|]. by eapply next_one.
  - exists us', fs'. split; [done|]. by apply (next_many this p a max).
  - exists us', (if last then fs' else f :: fs'). split; [done|]. by apply (next_part this p a max).
Qed.

(** The caller's loop over empty packets. *)
Fixpoint next_all (this : t) (ps : list RtpPacket.t) : option (t * list (bool * RtpPacket.t)) :=
  match ps with
  | [] => Some (this, [])
  | p :: rest =>
      '(ok, this, p) ← NextPacket g this p;
      '(this, sent) ← next_all this rest;
      Some (this, (ok, p) :: sent)
  end.

(** The packets that are sent: each payload in its packet, the marker on the last. *)
Fixpoint sent_ok (ds : list (list Z)) (rs : list rtp) (sent : list (bool * RtpPacket.t)) : Prop :=
  match ds, rs, sent with
  | [], [], [] => True
  | d :: ds, a :: rs, (ok, p) :: sent => ok = true /\ built p (packed d (bool_decide (ds = [])) a) /\ sent_ok ds rs sent
  | _, _, _ => False
  end.

Lemma next_all_sent max ds : forall this us fs ps rs, pending max ds us fs -> packets_ this = us -> input_fragments_ this = fs ->
  0 <= num_packets_left_ this < 2 ^ 63 -> len ds <= num_packets_left_ this -> Forall2 (empty_for max) ps rs -> length ps = length ds ->
  exists this' sent, next_all this ps = Some (this', sent) /\ sent_ok ds rs sent /\ packets_ this' = [] /\ num_packets_left_ this' = num_packets_left_ this - len ds.
Proof using Hg.
  induction ds as [|d ds IH]; intros this us fs ps rs Hp Hus Hfs Hnum Hle Hps Hlen.
  - destruct ps; [|done]. inversion Hps. subst rs. inversion Hp. subst. exists this, []. repeat split; try done. change (len []) with 0. lia.
  - destruct ps as [|p ps]; [done|]. inversion Hps as [|? a ? rs' He Hrest]. subst.
    destruct (next_pending max this p a d ds _ _ Hp eq_refl eq_refl He) as (us' & fs' & Hp' & q & E & Hq & _).
    rewrite len_cons in Hle. pose proof (len_nonneg ds).
    destruct (IH (emptied this fs' us') us' fs' ps rs' Hp' eq_refl eq_refl) as (this' & sent & E' & Hs & Hempty & Hn);
      [cbn [emptied num_packets_left_]; rewrite u64_small; lia|cbn [emptied num_packets_left_]; rewrite u64_small; lia|done|by injection Hlen|].
    exists this', ((true, q) :: sent). cbn [next_all]. rewrite E. cbn [mbind option_bind]. rewrite E'. cbn [mbind option_bind].
    split; [done|]. split; [done|]. split; [done|]. rewrite Hn, len_cons. cbn [emptied num_packets_left_]. rewrite u64_small; lia.
Qed.

(** The chunks of a frame are pending. *)
Lemma parts_pending max h parts f ds us fs : pending max ds us fs -> Forall bytes_ok parts -> Forall (fun d => 2 + len d <= max) parts -> parts <> [] ->
  forall first, (first = true -> 2 <= len parts) -> pending max (fua_payloads h first parts ++ ds) (parts_units h first parts ++ us) (f :: fs).
Proof using Type.
  intros Hrest Hb Hn Hne. induction parts as [|d parts IH]; [done|]. intros first Hfirst. apply Forall_cons in Hb as [Hbd Hb]. apply Forall_cons in Hn as [Hnd Hn].
  cbn [fua_payloads parts_units app]. rewrite len_cons in Hfirst. destruct parts as [|d2 parts].
  - apply pending_part; [done|done| |done]. destruct first; [|done]. specialize (Hfirst eq_refl). change (len []) with 0 in Hfirst. lia.
  - apply pending_part; [done|done|by destruct first|]. by apply (IH Hb Hn).
Qed.

Lemma bytes_ok_join parts : bytes_ok (mjoin parts) -> Forall bytes_ok parts.
Proof using Type.
  induction parts as [|p parts IH]; [constructor|]. change (mjoin (p :: parts)) with (p ++ mjoin parts). rewrite bytes_ok_app.
  intros [Hp Hrest]. constructor; [done|by apply IH].
Qed.

Lemma entry_lengths fs : Forall (fun f => len f <= len (mjoin (stapa_entry <$> fs))) fs.
Proof using Type.
  induction fs as [|f fs IH]; [constructor|]. rewrite mjoin_fmap_cons, len_app, len_entry. pose proof (len_nonneg f). pose proof (len_nonneg (mjoin (stapa_entry <$> fs))).
  constructor; [lia|]. eapply Forall_impl; [exact IH|]. cbn beta. lia.
Qed.

Lemma part_lengths max h first parts : Forall (fun p => len p <= max) (fua_payloads h first parts) -> Forall (fun d => 2 + len d <= max) parts.
Proof using Type.
  revert first. induction parts as [|d parts IH]; intros first; [constructor|]. cbn [fua_payloads]. intros [Hd Hp]%Forall_cons. rewrite !len_cons in Hd.
  constructor; [lia|by eapply IH].
Qed.

Lemma chunks_pending l alone cs : max_payload_len l < 2 ^ 16 -> Forall bytes_ok (mjoin (chunk_nalus <$> cs)) -> forall first, chunks_fit l alone first cs ->
  pending (max_payload_len l) (payloads cs) (mjoin (chunk_units <$> cs)) (mjoin (chunk_nalus <$> cs)).
Proof using Type.
  intros Hmax. induction cs as [|c cs IH]; intros Hb first Hfit; [constructor|]. destruct Hfit as (Hok & [Hlens _] & Hfit).
  unfold payloads. rewrite !mjoin_fmap_cons in *. apply Forall_app in Hb as [Hbc Hb]. specialize (IH Hb false Hfit).
  destruct c as [agg f|f fs|h parts]; cbn [chunk_nalus chunk_payloads app] in *.
  - apply Forall_cons in Hlens as [Hl _]. apply Forall_cons in Hbc as [Hbf _]. by constructor.
  - destruct Hok as [Hne _]. apply Forall_cons in Hlens as [Hl _]. apply (pending_many _ f fs); try done.
    rewrite len_cons in Hl. eapply Forall_impl; [apply entry_lengths|]. cbn beta. intros x Hx. lia.
  - destruct Hok as [Hlen Hne]. apply Forall_cons in Hbc as [Hbf _]. apply Forall_cons in Hbf as [_ Hbf].
    apply parts_pending; [done|by apply bytes_ok_join|by eapply part_lengths| |done]. apply nonempty_len. lia.
Qed.

End send.
