(* ===== verification/H264Depacketizer.v ===== *)
(** * The H.264 depacketiser

    Model of RtpDepacketizerH264 in rtp_rtcp/rtp_format_h264.h/.cc with the structures of
    video/h264_globals.h and rtp_rtcp/rtp_video_header.h it fills in.  The payload of a packet is the list of its
    bytes; an [rtc::Buffer] of its own is the list of the bytes it holds. *)

From S2P Require Import Prelude Buffer ByteIo CowBuffer H264Common Packetize H264Params SpsVui RtpPacket H264Packetizer.

Import H264 ByteReader ByteWriter.

Inductive VideoFrameType := kEmptyFrame | kVideoFrameKey | kVideoFrameDelta.
Inductive VideoCodecType := kVideoCodecGeneric | kVideoCodecVP8 | kVideoCodecVP9 | kVideoCodecH264 | kVideoCodecMultiplex.
Inductive H264PacketizationTypes := kH264SingleNalu | kH264StapA | kH264FuA.

Definition kMaxNalusPerPacket : Z := 10.

Record NaluInfo := Nalu { type : Z; sps_id : Z; pps_id : Z }.

(** [nalus] are the first [nalus_length] entries of the array. *)
Record RTPVideoHeaderH264 := H264Header {
  nalu_type : Z;
  packetization_type : H264PacketizationTypes;
  nalus : list NaluInfo;
  packetization_mode : H264PacketizationMode
}.

(** The fields of the video header that the depacketiser sets. *)
Record RTPVideoHeader := VideoHeader {
  frame_type : VideoFrameType;
  width : Z;
  height : Z;
  is_first_packet_in_frame : bool;
  simulcastIdx : Z;
  codec : VideoCodecType;
  video_type_header : option RTPVideoHeaderH264
}.

(** The pointer [payload] is the bytes from it on. *)
Record ParsedPayload := Parsed { video : RTPVideoHeader; payload : list Z; payload_length : Z }.

(** [video_type_header.emplace<RTPVideoHeaderH264>()] *)
Definition emplace_h264 (v : RTPVideoHeader) : RTPVideoHeader :=
  VideoHeader (frame_type v) (width v) (height v) (is_first_packet_in_frame v) (simulcastIdx v) (codec v)
    (Some (H264Header 0 kH264SingleNalu [] NonInterleaved)).

Definition set_frame_type (f : VideoFrameType) (v : RTPVideoHeader) : RTPVideoHeader :=
  VideoHeader f (width v) (height v) (is_first_packet_in_frame v) (simulcastIdx v) (codec v) (video_type_header v).

(** The fields are [uint16_t]. *)
Definition set_resolution (w h : Z) (v : RTPVideoHeader) : RTPVideoHeader :=
  VideoHeader (frame_type v) (u16 w) (u16 h) (is_first_packet_in_frame v) (simulcastIdx v) (codec v) (video_type_header v).

(** The fields every H.264 packet sets. *)
Definition start_video (first_packet : bool) (v : RTPVideoHeader) : RTPVideoHeader :=
  VideoHeader (frame_type v) 0 0 first_packet 0 kVideoCodecH264 (video_type_header v).

(** [absl::get<RTPVideoHeaderH264>]: throws when the variant holds something else. *)
Definition on_h264 (f : RTPVideoHeaderH264 -> option RTPVideoHeaderH264) (v : RTPVideoHeader) : option RTPVideoHeader :=
  h ← video_type_header v;
  h' ← f h;
  Some (VideoHeader (frame_type v) (width v) (height v) (is_first_packet_in_frame v) (simulcastIdx v) (codec v) (Some h')).

Definition set_types (nal : Z) (p : H264PacketizationTypes) (h : RTPVideoHeaderH264) : RTPVideoHeaderH264 :=
  H264Header nal p (nalus h) (packetization_mode h).

(** [ParseStapAStartOffsets] from [nalu_ptr] on: [Some None] when it returns false. *)
Fixpoint ParseStapAStartOffsets (fuel : nat) (nalu_ptr : list Z) (length_remaining offset : Z) : option (option (list Z)) :=
  if negb (0 <? length_remaining) then Some (Some []) else
  match fuel with
  | O => None
  | S fuel' =>
      if length_remaining <? 2 then Some None else
      nalu_size ← ReadBigEndian 16 2 nalu_ptr;
      let nalu_ptr := ptr_add nalu_ptr 2 in
      let length_remaining := length_remaining - 2 in
      if length_remaining <? nalu_size then Some None else
      offsets ← ParseStapAStartOffsets fuel' (ptr_add nalu_ptr nalu_size) (length_remaining - nalu_size) (offset + (kLengthFieldSize + nalu_size));
      Some (match offsets with Some offsets => Some (offset + kStapAHeaderSize :: offsets) | None => None end)
  end.

Module RtpDepacketizerH264.

Record t := Depacketizer { offset_ : Z; length_ : Z; modified_buffer_ : option (list Z) }.

Definition construct : t := Depacketizer 0 0 None.

Section depacketizer.
(* The bytes fresh memory happens to hold. *)
Variable g : list Z.

(** [ByteWriter<uint16_t>::WriteBigEndian] into a buffer. *)
Definition write_length (offset value : Z) (buffer : list Z) : option (list Z) :=
  '(_, s) ← WriteBigEndian 2 offset (u16 value) (WState buffer 0 []);
  Some (packet s).

(** [n] bytes at [offset] of the payload. *)
Definition bytes_at (payload_data : list Z) (offset n : Z) : option (list Z) :=
  check ((0 <=? n) && (offset + n <=? len payload_data)) ;; Some (take (Z.to_nat n) (ptr_add payload_data offset)).

(** The case of a sequence parameter set whose bytes start at [start_offset], behind the header. *)
Definition process_sps (payload_data : list Z) (nalu_length start_offset end_offset : Z) (stap_a : bool) (this : t) (v : RTPVideoHeader) :
    option (Z * t * RTPVideoHeader) :=
  output_buffer ← bytes_at payload_data 0 start_offset;
  let length := end_offset - start_offset in
  '(result, sps, output_buffer) ← SpsVuiRewriter.ParseAndRewriteSps (ptr_add payload_data start_offset) length None None output_buffer
    (fresh_mem g (length + SpsVuiRewriter.kMaxVuiSpsIncrease));
  this ← match result with
    | SpsVuiRewriter.kVuiRewritten =>
        output_buffer ← (if stap_a then
            let length_field_offset := start_offset - (kNaluTypeSize + kLengthFieldSize) in
            let rewritten_size := len output_buffer - start_offset + kNaluTypeSize in
            write_length length_field_offset rewritten_size output_buffer
          else Some output_buffer);
        rest ← bytes_at payload_data end_offset (nalu_length + kNalHeaderSize - end_offset);
        let output_buffer := output_buffer ++ rest in
        Some (Depacketizer (offset_ this) (len output_buffer) (Some output_buffer))
    | _ => Some this
    end;
  let '(id, v) := match sps with
    | Some sps => (to_int (SpsParser.id sps), set_resolution (SpsParser.width sps) (SpsParser.height sps) v)
    | None => (-1, v)
    end in
  Some (id, this, set_frame_type kVideoFrameKey v).

(** The body of the loop of [ProcessStapAOrSingleNalu]; [Some None] when it returns false. *)
Definition process_nalu (payload_data : list Z) (nalu_length start_offset end_offset : Z) (stap_a : bool) (this : t) (v : RTPVideoHeader) :
    option (option (NaluInfo * t * RTPVideoHeader)) :=
  if u64 (end_offset - start_offset) <? kNaluTypeSize then Some None else
  b ← byte_at payload_data start_offset;
  let type := Z.land b kTypeMask in
  let start_offset := start_offset + kNaluTypeSize in
  let data := ptr_add payload_data start_offset in
  if type =? kSps then
    '(id, this, v) ← process_sps payload_data nalu_length start_offset end_offset stap_a this v;
    Some (Some (Nalu type id (-1), this, v))
  else if type =? kPps then
    ids ← PpsParser.ParsePpsIds data (end_offset - start_offset);
    Some (Some (match ids with Some (pps, sps) => Nalu type (to_int sps) (to_int pps) | None => Nalu type (-1) (-1) end, this, v))
  else if (type =? kIdr) || (type =? kSlice) then
    let v := if type =? kIdr then set_frame_type kVideoFrameKey v else v in
    id ← PpsParser.ParsePpsIdFromSlice data (end_offset - start_offset);
    Some (Some (Nalu type (-1) (match id with Some pps => to_int pps | None => -1 end), this, v))
  else if (type =? kStapA) || (type =? kFuA) then Some None
  else Some (Some (Nalu type (-1) (-1), this, v)).

(** [h264_header.nalus[h264_header.nalus_length++] = nalu], unless the array is full. *)
Definition add_nalu (nalu : NaluInfo) (h : RTPVideoHeaderH264) : option RTPVideoHeaderH264 :=
  if len (nalus h) =? kMaxNalusPerPacket then Some h else
  check (len (nalus h) <? kMaxNalusPerPacket) ;;
  Some (H264Header (nalu_type h) (packetization_type h) (nalus h ++ [nalu]) (packetization_mode h)).

(** The loop of [ProcessStapAOrSingleNalu]. *)
Fixpoint process_loop (payload_data : list Z) (nalu_length : Z) (nalu_start_offsets : list Z) (stap_a : bool) (this : t) (v : RTPVideoHeader) :
    option (bool * t * RTPVideoHeader) :=
  match nalu_start_offsets with
  | start_offset :: ((next :: _) as rest) =>
      r ← process_nalu payload_data nalu_length start_offset (next - kLengthFieldSize) stap_a this v;
      match r with
      | None => Some (false, this, v)
      | Some (nalu, this, v) =>
          v ← on_h264 (add_nalu nalu) v;
          process_loop payload_data nalu_length rest stap_a this v
      end
  | _ => Some (true, this, v)
  end.

Definition ProcessStapAOrSingleNalu (payload_data : list Z) (this : t) (v : RTPVideoHeader) : option (bool * t * RTPVideoHeader) :=
  let v := start_video true v in
  let nalu_length := length_ this - kNalHeaderSize in
  b ← byte_at payload_data 0;
  let nal_type := Z.land b kTypeMask in
  if nal_type =? kStapA then
    if length_ this <=? kStapAHeaderSize then Some (false, this, v) else
    offsets ← ParseStapAStartOffsets (Z.to_nat nalu_length) (ptr_add payload_data kNalHeaderSize) nalu_length 0;
    match offsets with
    | None => Some (false, this, v)
    | Some nalu_start_offsets =>
        b ← byte_at payload_data kStapAHeaderSize;
        v ← on_h264 (fun h => Some (set_types (Z.land b kTypeMask) kH264StapA h)) v;
        process_loop payload_data nalu_length (nalu_start_offsets ++ [length_ this + kLengthFieldSize]) true this (set_frame_type kVideoFrameDelta v)
    end
  else
    v ← on_h264 (fun h => Some (set_types nal_type kH264SingleNalu h)) v;
    process_loop payload_data nalu_length [0; length_ this + kLengthFieldSize] false this (set_frame_type kVideoFrameDelta v).

Definition ParseFuaNalu (payload_data : list Z) (this : t) (v : RTPVideoHeader) : option (bool * t * RTPVideoHeader) :=
  if length_ this <? kFuAHeaderSize then Some (false, this, v) else
  b0 ← byte_at payload_data 0;
  b1 ← byte_at payload_data 1;
  let fnri := Z.land b0 (Z.lor kFBit kNriMask) in
  let original_nal_type := Z.land b1 kTypeMask in
  let first_fragment := 0 <? Z.land b1 kSBit in
  '(pps, this) ← (if first_fragment then
      let length := length_ this - kNalHeaderSize in
      id ← PpsParser.ParsePpsIdFromSlice (ptr_add payload_data (2 * kNalHeaderSize)) (length - kNalHeaderSize);
      data ← bytes_at payload_data kNalHeaderSize length;
      check (0 <? len data) ;;
      Some (match id with Some pps => to_int pps | None => -1 end,
            Depacketizer 0 length (Some (<[0%nat := Z.lor fnri original_nal_type]> data)))
    else Some (-1, Depacketizer kFuAHeaderSize (length_ this - kFuAHeaderSize) (modified_buffer_ this)));
  let v := set_frame_type (if original_nal_type =? kIdr then kVideoFrameKey else kVideoFrameDelta) v in
  v ← on_h264 (fun h =>
      let h := set_types original_nal_type kH264FuA h in
      if first_fragment then
        check (len (nalus h) <? kMaxNalusPerPacket) ;;
        Some (H264Header (nalu_type h) (packetization_type h) (take 1 (nalus h ++ [Nalu original_nal_type (-1) pps])) (packetization_mode h))
      else Some h) (start_video first_fragment v);
  Some (true, this, v).

Definition Parse (payload_data : list Z) (payload_data_length : Z) (this : t) (parsed_payload : ParsedPayload) : option (bool * t * ParsedPayload) :=
  if payload_data_length =? 0 then Some (false, this, parsed_payload) else
  let this := Depacketizer 0 payload_data_length None in
  b ← byte_at payload_data 0;
  let nal_type := Z.land b kTypeMask in
  let v := emplace_h264 (video parsed_payload) in
  '(ok, this, v) ← (if nal_type =? kFuA then ParseFuaNalu payload_data this v else ProcessStapAOrSingleNalu payload_data this v);
  let parsed_payload := Parsed v (payload parsed_payload) (payload_length parsed_payload) in
  if negb ok then Some (false, this, parsed_payload) else
  let buffer := default payload_data (modified_buffer_ this) in
  check (offset_ this + length_ this <=? len buffer) ;;
  Some (true, this, Parsed v (ptr_add buffer (offset_ this)) (length_ this)).

End depacketizer.

End RtpDepacketizerH264.
