(* ===== verification/H264Receive.v ===== *)
(** * What the H.264 depacketiser makes of a payload

    The header, the buffer and the result of [Parse] as functions of the NAL units in the payload; every
    payload that is not refused has that shape. *)

From S2P Require Import Prelude Buffer ByteIo CowBuffer BitBuffer BitCodec H264Common Packetize H264Params SpsSyntax SpsVui SpsRewrite SpsSafe RtpPacket H264Packetizer H264Packets H264Depacketizer.

Import H264 ByteReader ByteWriter RtpDepacketizerH264.

(** ** Bytes behind a NAL unit do not matter *)

Lemma take_prefix {A} (x y : list A) : take (Z.to_nat (len x)) (x ++ y) = x.
Proof. unfold len. rewrite Nat2Z.id. apply take_app_length. Qed.

Lemma ParseRbsp_prefix x y : ParseRbsp (x ++ y) (len x) = ParseRbsp x (len x).
Proof.
  unfold ParseRbsp. assert (Ht : take (Z.to_nat (len x)) x = x) by (unfold len; by rewrite Nat2Z.id, firstn_all).
  rewrite take_prefix, Ht, len_app. pose proof (len_nonneg y). by rewrite !(proj2 (Z.leb_le (len x) _)) by lia.
Qed.

Lemma on_rbsp_prefix {A} (m : ST BitBuffer.t A) x y : PpsParser.on_rbsp m (x ++ y) (len x) = PpsParser.on_rbsp m x (len x).
Proof. unfold PpsParser.on_rbsp. by rewrite ParseRbsp_prefix. Qed.

Lemma rewrite_prefix x y sps color dest mem :
  SpsVuiRewriter.ParseAndRewriteSps (x ++ y) (len x) sps color dest mem = SpsVuiRewriter.ParseAndRewriteSps x (len x) sps color dest mem.
Proof. unfold SpsVuiRewriter.ParseAndRewriteSps. by rewrite ParseRbsp_prefix. Qed.

Lemma bind_through {A B C} (o : option A) (k1 : A -> option C) (k2 : A -> option B) (f : B -> option C) :
  (forall a, k1 a = (k2 a ≫= f)) -> (o ≫= k1) = ((o ≫= k2) ≫= f).
Proof. intros H. destruct o; [apply H|done]. Qed.

(** The rewriter appends; what is there does not matter. *)
Lemma rewrite_dest buffer length sps color dest mem :
  SpsVuiRewriter.ParseAndRewriteSps buffer length sps color dest mem =
  '(r, s, w) ← SpsVuiRewriter.ParseAndRewriteSps buffer length sps color [] mem; Some (r, s, dest ++ w).
Proof.
  unfold SpsVuiRewriter.ParseAndRewriteSps, WriteRbsp.
  repeat first [apply bind_through; intros ? |
    match goal with |- match ?x with _ => _ end = _ => destruct x | |- (let '(_, _) := ?x in _) = _ => destruct x end]; cbn [mbind option_bind]; try by rewrite app_nil_r.
  by destruct (check _).
Qed.

Section receive.
Context (g : list Z) (Hg : bytes_ok g).

(** ** A NAL unit *)

Definition nal_type (f : list Z) : Z := Z.land (nal_header f) kTypeMask.

Definition rewriter (f : list Z) : option (SpsVuiRewriter.ParseResult * option SpsParser.SpsState * list Z) :=
  SpsVuiRewriter.ParseAndRewriteSps (drop 1 f) (len f - 1) None None [] (fresh_mem g (len f - 1 + SpsVuiRewriter.kMaxVuiSpsIncrease)).

(** What replaces a parameter set that is rewritten. *)
Definition rewritten (f : list Z) : option (list Z) :=
  if nal_type f =? kSps then
    match rewriter f with Some (SpsVuiRewriter.kVuiRewritten, _, w) => Some (nal_header f :: w) | _ => None end
  else None.

Definition sps_of (f : list Z) : option SpsParser.SpsState := match rewriter f with Some (_, s, _) => s | None => None end.

Definition nalu_info (f : list Z) : NaluInfo :=
  let type := nal_type f in
  if type =? kSps then Nalu type (match sps_of f with Some s => to_int (SpsParser.id s) | None => -1 end) (-1)
  else if type =? kPps then
    match PpsParser.ParsePpsIds (drop 1 f) (len f - 1) with
    | Some (Some (pps, sps)) => Nalu type (to_int sps) (to_int pps)
    | _ => Nalu type (-1) (-1)
    end
  else if (type =? kIdr) || (type =? kSlice) then
    Nalu type (-1) (match PpsParser.ParsePpsIdFromSlice (drop 1 f) (len f - 1) with Some (Some pps) => to_int pps | _ => -1 end)
  else Nalu type (-1) (-1).

Definition nalu_video (f : list Z) (v : RTPVideoHeader) : RTPVideoHeader :=
  let type := nal_type f in
  if type =? kSps then
    set_frame_type kVideoFrameKey (match sps_of f with Some s => set_resolution (SpsParser.width s) (SpsParser.height s) v | None => v end)
  else if type =? kIdr then set_frame_type kVideoFrameKey v
  else v.

(** The units the depacketiser refuses. *)
Definition acceptable (f : list Z) : bool := (0 <? len f) && negb (nal_type f =? kStapA) && negb (nal_type f =? kFuA).

(** The state behind a unit between [pre] and [post]. *)
Definition replaced (stap_a : bool) (pre f post : list Z) (this : t) : t :=
  match rewritten f with
  | None => this
  | Some w =>
      let out := (if stap_a then take (Z.to_nat (len pre - 2)) pre ++ be_bytes 2 (len w) else pre) ++ w ++ post in
      Depacketizer (offset_ this) (len out) (Some out)
  end.

Lemma rewriter_total f : bytes_ok f -> f <> [] -> len f < 2 ^ 31 -> exists r s w, rewriter f = Some (r, s, w) /\ bytes_ok w.
Proof using Hg.
  intros Hf Hne Hl. apply nonempty_len in Hne. assert (Hd : len (drop 1 f) = len f - 1) by (unfold len in *; rewrite length_drop; lia).
  unfold rewriter. destruct (rewrite_total (drop 1 f) (len f - 1) None None [] (fresh_mem g (len f - 1 + SpsVuiRewriter.kMaxVuiSpsIncrease)))
    as (r & s & w & E & Ha); [by apply Forall_drop|lia|lia|by apply bytes_ok_fresh_mem|apply len_fresh_mem; unfold SpsVuiRewriter.kMaxVuiSpsIncrease; lia|].
  exists r, s, w. split; [done|]. destruct r; cbn in Ha; [by rewrite Ha; constructor..|].
  destruct Ha as (w' & -> & Hok & _). done.
Qed.

Lemma write_length_spec offset value buffer : 0 <= offset -> offset + 2 <= len buffer ->
  write_length offset value buffer = Some (splice offset (be_bytes 2 value) buffer).
Proof using Type.
  intros Ho Hl. unfold write_length. rewrite stores_WriteBigEndian; [|done|by rewrite len_be_bytes]. cbn [mbind option_bind put packet].
  do 2 f_equal. rewrite <- (be_bytes_mod 2 value). done.
Qed.

Lemma bytes_at_spec pre x post : bytes_at (pre ++ x ++ post) (len pre) (len x) = Some x.
Proof using Type.
  unfold bytes_at. pose proof (len_nonneg x). pose proof (len_nonneg post). rewrite !len_app, !(proj2 (Z.leb_le _ _)) by lia. cbn [andb check mbind option_bind].
  rewrite ptr_add_app_ge, Z.sub_diag, ptr_add_0, take_prefix by lia. done.
Qed.

Lemma ptr_add_mid pre x post : ptr_add (pre ++ x ++ post) (len pre) = x ++ post.
Proof using Type. by rewrite ptr_add_app_ge, Z.sub_diag, ptr_add_0 by lia. Qed.

Lemma process_sps_spec pre h f post stap_a this v : let data := pre ++ (h :: f) ++ post in
  bytes_ok data -> len data < 2 ^ 31 -> Z.land h kTypeMask = kSps -> (stap_a = true -> 2 <= len pre) ->
  process_sps g data (len data - 1) (len pre + 1) (len pre + len (h :: f)) stap_a this v =
    Some (sps_id (nalu_info (h :: f)), replaced stap_a pre (h :: f) post this, nalu_video (h :: f) v).
Proof using Hg.
  intros data Hok Hl Htype Hstap. assert (Ef : drop 1 (h :: f) = f) by done. assert (El : len (h :: f) - 1 = len f) by (rewrite len_cons; lia).
  assert (Hf : bytes_ok (h :: f) /\ len (h :: f) < 2 ^ 31).
  { subst data. rewrite !bytes_ok_app in Hok. rewrite !len_app in Hl. pose proof (len_nonneg pre). pose proof (len_nonneg post). split; [tauto|lia]. }
  destruct Hf as [Hfb Hfl]. destruct (rewriter_total (h :: f) Hfb ltac:(done) Hfl) as (r & s & w & Er & Hw).
  assert (Ht : nal_type (h :: f) = kSps) by done. unfold process_sps, nalu_info, nalu_video, replaced, rewritten, sps_of. rewrite Ht, Er, !Z.eqb_refl.
  assert (Edata : data = [] ++ (pre ++ [h]) ++ f ++ post) by (subst data; cbn [app]; by rewrite <- !app_assoc).
  assert (Eb : bytes_at data 0 (len pre + 1) = Some (pre ++ [h])).
  { rewrite Edata. change 0 with (len (@nil Z)). replace (len pre + 1) with (len (pre ++ [h])) by (by rewrite len_app). apply bytes_at_spec. }
  rewrite Eb. cbn [mbind option_bind]. replace (len pre + len (h :: f) - (len pre + 1)) with (len f) by (rewrite len_cons; lia).
  assert (Ep : ptr_add data (len pre + 1) = f ++ post).
  { rewrite Edata. cbn [app]. replace (len pre + 1) with (len (pre ++ [h])) by (by rewrite len_app). apply ptr_add_mid. }
  rewrite Ep, rewrite_prefix, rewrite_dest. unfold rewriter in Er. rewrite Ef, El in Er. rewrite Er. cbn [mbind option_bind].
  assert (Erest : bytes_at data (len pre + len (h :: f)) (len data - 1 + kNalHeaderSize - (len pre + len (h :: f))) = Some post).
  { replace (len data - 1 + kNalHeaderSize - _) with (len post) by (subst data; rewrite !len_app; change kNalHeaderSize with 1; lia).
    replace data with ((pre ++ h :: f) ++ post ++ []) by (rewrite app_nil_r, <- app_assoc; done). rewrite <- len_app. apply bytes_at_spec. }
  destruct r; cbn [mbind option_bind sps_id]; [by destruct s..|].
  destruct stap_a; cbn [mbind option_bind].
  - specialize (Hstap eq_refl). change (kNaluTypeSize + kLengthFieldSize) with 3. change kNaluTypeSize with 1.
    rewrite write_length_spec; [|lia|rewrite !len_app; change (len [h]) with 1; pose proof (len_nonneg w); lia].
    cbn [mbind option_bind]. rewrite Erest. cbn [mbind option_bind].
    assert (Eout : splice (len pre + 1 - 3) (be_bytes 2 (len ((pre ++ [h]) ++ w) - (len pre + 1) + 1)) ((pre ++ [h]) ++ w) ++ post =
      (take (Z.to_nat (len pre - 2)) pre ++ be_bytes 2 (len (nal_header (h :: f) :: w))) ++ (nal_header (h :: f) :: w) ++ post).
    { change (nal_header (h :: f)) with h. replace (len pre + 1 - 3) with (len pre - 2) by lia. unfold splice. rewrite len_be_bytes, <- !app_assoc.
      rewrite take_app_le by (unfold len in *; lia). f_equal. f_equal; [f_equal; rewrite !len_app, !len_cons, len_nil; lia|].
      replace (len pre - 2 + Z.of_nat 2) with (len pre) by lia. unfold len. rewrite Nat2Z.id, drop_app_length. by rewrite <- !app_assoc. }
    rewrite Eout. by destruct s.
  - rewrite Erest. cbn [mbind option_bind]. rewrite <- !app_assoc. by destruct s.
Qed.

Lemma slice_total f post : bytes_ok f -> len f < 2 ^ 31 ->
  exists a, PpsParser.ParsePpsIdFromSlice f (len f) = Some a /\ PpsParser.ParsePpsIdFromSlice (f ++ post) (len f) = Some a.
Proof using Type.
  intros Hf Hl. unfold PpsParser.ParsePpsIdFromSlice. rewrite on_rbsp_prefix. pose proof (len_nonneg f).
  lazymatch goal with |- context [PpsParser.on_rbsp ?m f (len f)] => destruct (on_rbsp_total m f (len f) ltac:(safe_parse) Hf ltac:(lia) ltac:(lia)) as (a & E) end.
  by exists a.
Qed.

(** The body of the loop. *)
Lemma process_nalu_spec pre f post stap_a this v : let data := pre ++ f ++ post in
  bytes_ok data -> len data < 2 ^ 31 -> (stap_a = true -> 2 <= len pre) ->
  process_nalu g data (len data - 1) (len pre) (len pre + len f) stap_a this v =
    Some (if acceptable f then Some (nalu_info f, replaced stap_a pre f post this, nalu_video f v) else None).
Proof using Hg.
  intros data Hok Hl Hstap. unfold process_nalu, acceptable. replace (len pre + len f - len pre) with (len f) by lia. pose proof (len_nonneg pre). pose proof (len_nonneg post).
  assert (Hlf : 0 <= len f < 2 ^ 31) by (subst data; rewrite !len_app in Hl; pose proof (len_nonneg f); lia). rewrite wrap_small by (unfold in_u; lia). change kNaluTypeSize with 1.
  destruct f as [|h f]; [done|]. rewrite len_cons in Hlf |- *. pose proof (len_nonneg f). rewrite (proj2 (Z.ltb_ge (1 + len f) 1)), (proj2 (Z.ltb_lt 0 (1 + len f))) by lia. cbn [andb].
  assert (Eb : byte_at data (len pre) = Some h) by (unfold byte_at; subst data; by rewrite ptr_add_mid). rewrite Eb. cbn [mbind option_bind].
  assert (Hf : bytes_ok f) by (subst data; rewrite !bytes_ok_app in Hok; destruct Hok as (_ & Hh & _); by inversion Hh).
  assert (Et : nal_type (h :: f) = Z.land h kTypeMask) by done. rewrite <- Et.
  assert (Ep : ptr_add data (len pre + 1) = f ++ post).
  { replace data with ((pre ++ [h]) ++ f ++ post) by (subst data; cbn [app]; by rewrite <- !app_assoc). replace (len pre + 1) with (len (pre ++ [h])) by (by rewrite len_app). apply ptr_add_mid. }
  rewrite Ep. replace (len pre + (1 + len f) - (len pre + 1)) with (len f) by lia. rewrite <- len_cons with (x := h).
  assert (Hother : nal_type (h :: f) <> kSps -> replaced stap_a pre (h :: f) post this = this).
  { intros Hne. unfold replaced, rewritten. by rewrite (proj2 (Z.eqb_neq _ _) Hne). }
  assert (Ef : len (h :: f) - 1 = len f) by (rewrite len_cons; lia).
  destruct (Z.eqb_spec (nal_type (h :: f)) kSps) as [Hs|Hs].
  { rewrite Et in Hs. pose proof (process_sps_spec pre h f post stap_a this v Hok Hl Hs Hstap) as E. cbv zeta in E. fold data in E. rewrite E. cbn [mbind option_bind]. rewrite <- Et in Hs. rewrite Hs.
    unfold nalu_info. by rewrite Hs. }
  rewrite (Hother Hs). unfold nalu_info, nalu_video. rewrite (proj2 (Z.eqb_neq _ _) Hs), Ef. change (drop 1 (h :: f)) with f.
  destruct (Z.eqb_spec (nal_type (h :: f)) kPps) as [Hp|Hp].
  { unfold PpsParser.ParsePpsIds. rewrite on_rbsp_prefix. destruct (on_rbsp_total PpsParser.ParsePpsIdsInternal f (len f) safe_ParsePpsIds Hf ltac:(lia) ltac:(lia)) as (a & E).
    rewrite E, Hp. cbn [mbind option_bind]. by destruct a as [[? ?]|]. }
  destruct (slice_total f post Hf ltac:(lia)) as (a & E1 & E2). rewrite E1, E2. cbn [mbind option_bind].
  destruct (Z.eqb_spec (nal_type (h :: f)) kIdr) as [Hi|Hi]; [rewrite Hi; by destruct a|].
  destruct (Z.eqb_spec (nal_type (h :: f)) kSlice) as [Hsl|Hsl]; [rewrite Hsl; by destruct a|]. cbn [orb].
  by destruct (Z.eqb_spec (nal_type (h :: f)) kStapA), (Z.eqb_spec (nal_type (h :: f)) kFuA).
Qed.

(** ** The units of a payload *)

Definition entries (fs : list (list Z)) : list Z := mjoin (stapa_entry <$> fs).

Lemma entries_cons f fs : entries (f :: fs) = stapa_entry f ++ entries fs.
Proof using Type. done. Qed.

Lemma len_stapa_entry f : len (stapa_entry f) = 2 + len f.
Proof using Type. unfold stapa_entry. by rewrite len_app, len_be_bytes. Qed.

Definition changed (f : list Z) : bool := match rewritten f with Some _ => true | None => false end.

(** The units that are handed on: the last parameter set that needs it is replaced. *)
Fixpoint deliver (fs : list (list Z)) : list (list Z) :=
  match fs with
  | [] => []
  | f :: rest => (if existsb changed rest then f else default f (rewritten f)) :: deliver rest
  end.

Definition delivered (pre : list Z) (fs : list (list Z)) (this : t) : t :=
  if existsb changed fs then let out := pre ++ entries (deliver fs) in Depacketizer (offset_ this) (len out) (Some out) else this.

Definition header_ok (v : RTPVideoHeader) : Prop := exists h, video_type_header v = Some h /\ len (nalus h) <= kMaxNalusPerPacket.

(** The video header behind a unit. *)
Definition video_nalu (v : RTPVideoHeader) (f : list Z) : RTPVideoHeader :=
  let v := nalu_video f v in
  VideoHeader (frame_type v) (width v) (height v) (is_first_packet_in_frame v) (simulcastIdx v) (codec v)
    (match video_type_header v with
     | Some h => Some (H264Header (nalu_type h) (packetization_type h) (take 10 (nalus h ++ [nalu_info f])) (packetization_mode h))
     | None => None
     end).

Lemma nalu_video_header f v : video_type_header (nalu_video f v) = video_type_header v.
Proof using Type. unfold nalu_video. repeat case_match; done. Qed.

Lemma add_nalu_spec f v : header_ok v -> on_h264 (add_nalu (nalu_info f)) (nalu_video f v) = Some (video_nalu v f) /\ header_ok (video_nalu v f).
Proof using Type.
  intros (h & Eh & Hl). unfold on_h264, video_nalu, add_nalu, header_ok. cbn [video_type_header]. rewrite nalu_video_header, Eh. cbn [mbind option_bind]. unfold kMaxNalusPerPacket in *.
  split; [|eexists; split; [done|]; cbn [nalus]; unfold len; rewrite length_take; lia].
  destruct (Z.eqb_spec (len (nalus h)) 10) as [E|E].
  - cbn [mbind option_bind]. rewrite take_app_le, firstn_all2 by (unfold len in E; lia). by destruct h.
  - rewrite (proj2 (Z.ltb_lt (len (nalus h)) 10)) by lia. cbn [check mbind option_bind]. rewrite (firstn_all2 (_ ++ _)); [done|]. rewrite length_app. unfold len in *. cbn [length]. lia.
Qed.

(** Where the units start, and the end. *)
Fixpoint bounds (offset : Z) (fs : list (list Z)) : list Z :=
  match fs with [] => [offset + 3] | f :: rest => offset + 3 :: bounds (offset + (2 + len f)) rest end.

Lemma bounds_head offset fs : exists rest, bounds offset fs = offset + 3 :: rest.
Proof using Type. destruct fs; by eexists. Qed.

Lemma deliver_same fs : existsb changed fs = false -> deliver fs = fs.
Proof using Type.
  induction fs as [|f fs IH]; [done|]. cbn [existsb deliver]. intros [Hf Hfs]%orb_false_iff. rewrite Hfs, IH by done. unfold changed in Hf. by destruct (rewritten f).
Qed.

Lemma delivered_step pre f fs this :
  delivered (pre ++ stapa_entry f) fs (replaced true (pre ++ be_bytes 2 (len f)) f (entries fs) this) = delivered pre (f :: fs) this.
Proof using Type.
  unfold delivered, replaced. cbn [existsb deliver]. rewrite !entries_cons.
  assert (Ep : take (Z.to_nat (len (pre ++ be_bytes 2 (len f)) - 2)) (pre ++ be_bytes 2 (len f)) = pre).
  { rewrite len_app, len_be_bytes. replace (len pre + Z.of_nat 2 - 2) with (len pre) by lia. apply take_prefix. }
  rewrite Ep. destruct (existsb changed fs) eqn:Efs; cbn [orb].
  - rewrite orb_true_r. rewrite <- (app_assoc pre). by destruct (rewritten f).
  - rewrite orb_false_r, (deliver_same fs Efs). unfold changed. destruct (rewritten f) as [w|]; [|done]. cbn [default]. unfold stapa_entry. by rewrite <- !app_assoc.
Qed.

Lemma process_loop_step data n start next rest stap_a this v : process_loop g data n (start :: next :: rest) stap_a this v =
  r ← process_nalu g data n start (next - kLengthFieldSize) stap_a this v;
  match r with
  | None => Some (false, this, v)
  | Some (nalu, this, v) => v ← on_h264 (add_nalu nalu) v; process_loop g data n (next :: rest) stap_a this v
  end.
Proof using Type. done. Qed.

Lemma process_loop_stapa fs : forall pre offset this v, bytes_ok (pre ++ entries fs) -> len (pre ++ entries fs) < 2 ^ 31 -> header_ok v -> len pre = offset + 1 -> 0 <= offset ->
  let data := pre ++ entries fs in
  exists r, process_loop g data (len data - 1) (bounds offset fs) true this v = Some r /\
    if forallb acceptable fs then r = (true, delivered pre fs this, foldl video_nalu v fs) else r.1.1 = false.
Proof using Hg.
  induction fs as [|f fs IH]; intros pre offset this v Hok Hl Hv Hpre Hoff data; [by eexists|].
  assert (Edata : data = (pre ++ be_bytes 2 (len f)) ++ f ++ entries fs) by (subst data; rewrite entries_cons; unfold stapa_entry; by rewrite <- !app_assoc).
  assert (Edata2 : data = (pre ++ stapa_entry f) ++ entries fs) by (subst data; by rewrite entries_cons, <- app_assoc).
  fold data in Hok, Hl. destruct (bounds_head (offset + (2 + len f)) fs) as (more & Em). cbn [bounds]. rewrite Em, process_loop_step, <- Em.
  assert (El : len (pre ++ be_bytes 2 (len f)) = offset + 3) by (rewrite len_app, len_be_bytes; lia).
  replace (offset + (2 + len f) + 3 - kLengthFieldSize) with (offset + 3 + len f) by (change kLengthFieldSize with 2; lia).
  pose proof (process_nalu_spec (pre ++ be_bytes 2 (len f)) f (entries fs) true this v) as En. cbv zeta in En. rewrite <- Edata, El in En. rewrite En by (done || lia).
  cbn [mbind option_bind forallb]. destruct (acceptable f); cbn [andb]; [|by eexists]. destruct (add_nalu_spec f v Hv) as [E Hv'].
  rewrite E. cbn [mbind option_bind]. rewrite Edata2. rewrite Edata2 in Hok, Hl.
  destruct (IH (pre ++ stapa_entry f) (offset + (2 + len f)) (replaced true (pre ++ be_bytes 2 (len f)) f (entries fs) this) (video_nalu v f) Hok Hl Hv') as (r & Er & Hr);
    [rewrite len_app, len_stapa_entry; lia|pose proof (len_nonneg f); lia|].
  exists r. split; [done|]. destruct (forallb acceptable fs); [|done]. rewrite Hr. cbn [foldl]. by rewrite delivered_step.
Qed.

(** A NAL unit alone. *)
Lemma process_single f this v : bytes_ok f -> len f < 2 ^ 31 -> header_ok v ->
  exists r, process_loop g f (len f - 1) [0; len f + kLengthFieldSize] false this v = Some r /\
    if acceptable f then r = (true, replaced false [] f [] this, video_nalu v f) else r.1.1 = false.
Proof using Hg.
  intros Hok Hl Hv. cbn [process_loop]. pose proof (process_nalu_spec [] f [] false this v) as E. cbv zeta in E. rewrite app_nil_r in E. cbn [app] in E. change (len []) with 0 in E.
  replace (len f + kLengthFieldSize - kLengthFieldSize) with (0 + len f) by (change kLengthFieldSize with 2; lia).
  rewrite E by done. cbn [mbind option_bind]. destruct (acceptable f); [|by eexists]. destruct (add_nalu_spec f v Hv) as [Ea _]. rewrite Ea. cbn [mbind option_bind]. by eexists.
Qed.

(** ** The entries of an aggregate *)

Lemma offsets_entries fs : forall fuel offset, Forall (fun f => len f < 2 ^ 16) fs -> len (entries fs) <= Z.of_nat fuel ->
  ParseStapAStartOffsets fuel (entries fs) (len (entries fs)) offset = Some (Some (removelast (bounds offset fs))).
Proof using Type.
  induction fs as [|f fs IH]; intros fuel offset Hs Hfuel; [by destruct fuel|]. apply Forall_cons in Hs as [Hf Hs].
  rewrite entries_cons, len_app, len_stapa_entry in Hfuel |- *. pose proof (len_nonneg f). pose proof (len_nonneg (entries fs)).
  destruct fuel as [|fuel]; [lia|]. cbn [ParseStapAStartOffsets]. rewrite (proj2 (Z.ltb_lt 0 _)), (proj2 (Z.ltb_ge (2 + len f + _) 2)) by lia. cbn [negb].
  unfold stapa_entry. rewrite <- app_assoc, ReadBigEndian_bytes by (done || lia). cbn [mbind option_bind].
  rewrite (proj2 (Z.ltb_ge _ (len f))) by lia.
  rewrite (ptr_add_app_ge (be_bytes 2 (len f))) by (by rewrite len_be_bytes). rewrite len_be_bytes. change (2 - Z.of_nat 2) with 0. rewrite ptr_add_0.
  rewrite ptr_add_app_ge, Z.sub_diag, ptr_add_0 by lia.
  replace (2 + len f + len (entries fs) - 2 - len f) with (len (entries fs)) by lia. change kLengthFieldSize with 2. rewrite IH by (done || lia). cbn [mbind option_bind bounds].
  destruct (bounds_head (offset + (2 + len f)) fs) as (more & Em). rewrite Em. done.
Qed.

(** A payload is refused or is a list of entries. *)
Lemma offsets_total data : forall fuel offset, bytes_ok data -> len data <= Z.of_nat fuel ->
  (exists fs, data = entries fs /\ Forall (fun f => len f < 2 ^ 16) fs) \/ ParseStapAStartOffsets fuel data (len data) offset = Some None.
Proof using Type.
  intros fuel. revert data. induction fuel as [|fuel IH]; intros data offset Hok Hfuel.
  { destruct data; [left; by exists []|]. rewrite len_cons in Hfuel. pose proof (len_nonneg data). lia. }
  cbn [ParseStapAStartOffsets]. destruct (Z.ltb_spec 0 (len data)) as [Hpos|Hz]; cbn [negb].
  2:{ left. exists []. split; [|constructor]. destruct data; [done|]. rewrite len_cons in Hz. pose proof (len_nonneg data). lia. }
  destruct (Z.ltb_spec (len data) 2) as [Hlt|Hge]; [by right|].
  destruct (cut data 2) as (b & rest & -> & Hb); [lia|]. apply bytes_ok_app in Hok as [Hbo Hro]. rewrite len_app in *.
  pose proof (be_val_range b Hbo) as Hr. rewrite Hb in Hr.
  assert (Eb : be_bytes 2 (be_val b) = b) by (apply be_bytes_val; [done|unfold len in Hb; lia]).
  rewrite <- Eb at 1. rewrite ReadBigEndian_bytes by (done || lia). cbn [mbind option_bind].
  destruct (Z.ltb_spec (len b + len rest - 2) (be_val b)) as [Hshort|Hlong]; [by right|].
  destruct (cut rest (be_val b)) as (f & rest' & -> & Hf); [lia|]. rewrite len_app in *. apply bytes_ok_app in Hro as [Hfo Hro].
  rewrite (ptr_add_app_ge b) by lia. rewrite Hb. change (2 - 2) with 0. rewrite ptr_add_0, ptr_add_app_ge, Hf, Z.sub_diag, ptr_add_0 by lia.
  replace (2 + (be_val b + len rest') - 2 - be_val b) with (len rest') by lia.
  destruct (IH rest' (offset + (kLengthFieldSize + be_val b)) Hro ltac:(lia)) as [(fs & -> & Hfs)|E].
  - left. exists (f :: fs). split; [|constructor; [lia|done]]. rewrite entries_cons. unfold stapa_entry. by rewrite Hf, Eb, <- app_assoc.
  - right. by rewrite E.
Qed.

(** ** Parse *)

(** The video header before the units are looked at. *)
Definition opened (type : Z) (p : H264PacketizationTypes) (v : RTPVideoHeader) : RTPVideoHeader :=
  VideoHeader kVideoFrameDelta 0 0 true 0 kVideoCodecH264 (Some (H264Header type p [] NonInterleaved)).

Lemma opened_ok type p v : header_ok (opened type p v).
Proof using Type. by eexists. Qed.

(** The result of a packet whose units end in the state [this]. *)
Definition handed_on (data : list Z) (this : t) (v : RTPVideoHeader) : bool * t * ParsedPayload :=
  (true, this, Parsed v (ptr_add (default data (modified_buffer_ this)) (offset_ this)) (length_ this)).

Lemma parse_plain data this p0 h rest : data = h :: rest -> bytes_ok data -> len data < 2 ^ 31 -> Z.land h kTypeMask <> kFuA -> Z.land h kTypeMask <> kStapA ->
  exists this', this' = replaced false [] data [] (Depacketizer 0 (len data) None) /\
  Parse g data (len data) this p0 = Some (handed_on data this' (video_nalu (opened (nal_type data) kH264SingleNalu (video p0)) data)).
Proof using Hg.
  intros -> Hok Hl Hfu Hst. eexists. split; [done|]. unfold Parse. rewrite (proj2 (Z.eqb_neq (len (h :: rest)) 0)) by (rewrite len_cons; pose proof (len_nonneg rest); lia).
  change (byte_at (h :: rest) 0) with (Some h). cbn [mbind option_bind]. rewrite (proj2 (Z.eqb_neq _ _) Hfu). unfold ProcessStapAOrSingleNalu.
  change (byte_at (h :: rest) 0) with (Some h). cbn [mbind option_bind length_]. rewrite (proj2 (Z.eqb_neq _ _) Hst). cbn [on_h264 emplace_h264 start_video video_type_header mbind option_bind].
  destruct (process_single (h :: rest) (Depacketizer 0 (len (h :: rest)) None) (opened (nal_type (h :: rest)) kH264SingleNalu (video p0)) Hok Hl (opened_ok _ _ _)) as (r & E & Hr).
  assert (Ha : acceptable (h :: rest) = true).
  { unfold acceptable. change (nal_type (h :: rest)) with (Z.land h kTypeMask). rewrite (proj2 (Z.eqb_neq _ _) Hfu), (proj2 (Z.eqb_neq _ _) Hst).
    rewrite (proj2 (Z.ltb_lt _ _)); [done|]. rewrite len_cons. pose proof (len_nonneg rest). lia. }
  rewrite Ha in Hr. subst r. change kNalHeaderSize with 1.
  match goal with |- context [process_loop g (h :: rest) (len (h :: rest) - 1) [0; len (h :: rest) + kLengthFieldSize] false ?this ?v] =>
    change this with (Depacketizer 0 (len (h :: rest)) None); change v with (opened (nal_type (h :: rest)) kH264SingleNalu (video p0)) end.
  rewrite E. cbn [mbind option_bind negb]. unfold handed_on. rewrite (proj2 (Z.leb_le _ _)); [done|].
  unfold replaced. destruct (rewritten (h :: rest)); cbn [offset_ length_ modified_buffer_ default]; unfold id; lia.
Qed.

Lemma bounds_last fs : forall offset, bounds offset fs = removelast (bounds offset fs) ++ [offset + 3 + len (entries fs)].
Proof using Type.
  induction fs as [|f fs IH]; intros offset; [change (len (entries [])) with 0; by rewrite Z.add_0_r|]. cbn [bounds]. destruct (bounds_head (offset + (2 + len f)) fs) as (more & Em).
  rewrite entries_cons, len_app, len_stapa_entry. replace (offset + 3 + (2 + len f + len (entries fs))) with (offset + (2 + len f) + 3 + len (entries fs)) by lia.
  specialize (IH (offset + (2 + len f))). rewrite Em in *. change (removelast (offset + 3 :: offset + (2 + len f) + 3 :: more)) with (offset + 3 :: removelast (offset + (2 + len f) + 3 :: more)).
  cbn [app]. by rewrite <- IH.
Qed.

Lemma parse_aggregate h fs this p0 : let data := h :: entries fs in
  bytes_ok data -> len data < 2 ^ 31 -> Z.land h kTypeMask = kStapA -> fs <> [] -> Forall (fun f => len f < 2 ^ 16) fs ->
  exists r, Parse g data (len data) this p0 = Some r /\
    if forallb acceptable fs then
      r = handed_on data (delivered [h] fs (Depacketizer 0 (len data) None)) (foldl video_nalu (opened (nal_type (default [] (head fs))) kH264StapA (video p0)) fs)
    else r.1.1 = false.
Proof using Hg.
  intros data Hok Hl Hst Hne Hs. destruct fs as [|f fs]; [done|]. set (all := f :: fs) in *. unfold Parse. pose proof (len_nonneg (entries all)) as Hle.
  assert (Hld : len data = 1 + len (entries all)) by (subst data; by rewrite len_cons). rewrite (proj2 (Z.eqb_neq (len data) 0)) by lia.
  change (byte_at data 0) with (Some h). cbn [mbind option_bind]. rewrite Hst. change (kStapA =? kFuA) with false. cbv iota. unfold ProcessStapAOrSingleNalu.
  change (byte_at data 0) with (Some h). cbn [mbind option_bind length_]. rewrite Hst, Z.eqb_refl. change kStapAHeaderSize with 3. change kNalHeaderSize with 1.
  assert (Hent : entries all = be_bytes 2 (len f) ++ f ++ entries fs) by (subst all; rewrite entries_cons; unfold stapa_entry; by rewrite <- app_assoc).
  destruct (Z.leb_spec (len data) 3) as [Hshort|Hlong].
  { (* A unit of no bytes is all there is room for. *)
    cbn [mbind option_bind negb]. eexists. split; [done|]. pose proof (len_nonneg f). pose proof (len_nonneg (entries fs)).
    rewrite Hld, Hent, !len_app, len_be_bytes in Hshort. assert (Hf0 : len f = 0) by lia. subst all. cbn [forallb]. unfold acceptable at 1. by rewrite Hf0. }
  change (ptr_add data 1) with (entries all). replace (len data - 1) with (len (entries all)) by lia.
  rewrite (offsets_entries all) by (done || lia). cbn [mbind option_bind].
  destruct (byte_at data 3) as [b|] eqn:Eb.
  2:{ exfalso. assert (Hz : ptr_add data 3 = []) by (unfold byte_at, deref in Eb; by destruct (ptr_add data 3)). assert (Hl3 : len (ptr_add data 3) = len data - 3) by (apply len_ptr_add; lia).
      rewrite Hz in Hl3. change (len []) with 0 in Hl3. lia. }
  cbn [mbind option_bind on_h264 emplace_h264 start_video video_type_header].
  destruct (process_loop_stapa all [h] 0 (Depacketizer 0 (len data) None) (opened (Z.land b kTypeMask) kH264StapA (video p0)) Hok Hl (opened_ok _ _ _) eq_refl (Z.le_refl 0)) as (r & E & Hr).
  change ([h] ++ entries all) with data in E. replace (len data - 1) with (len (entries all)) in E by lia. rewrite (bounds_last all 0) in E.
  replace (len data + kLengthFieldSize) with (0 + 3 + len (entries all)) by (change kLengthFieldSize with 2; lia).
  match goal with |- context [process_loop g data _ _ true ?this ?v] =>
    change this with (Depacketizer 0 (len data) None); change v with (opened (Z.land b kTypeMask) kH264StapA (video p0)) end.
  rewrite E. cbn [mbind option_bind]. destruct (forallb acceptable all) eqn:Ha; [|destruct r as [[ok ?] ?]; cbn [fst] in Hr; rewrite Hr; by eexists].
  rewrite Hr. cbn [negb]. unfold handed_on.
  assert (Hb : Z.land b kTypeMask = nal_type f).
  { subst all. cbn [forallb] in Ha. apply andb_true_iff in Ha as [Ha _]. unfold acceptable in Ha. destruct f as [|h1 f]; [done|].
    assert (E3 : byte_at data 3 = Some h1) by (subst data; rewrite Hent; done). rewrite E3 in Eb. by injection Eb as <-. }
  change (default [] (head all)) with f. rewrite Hb. rewrite (proj2 (Z.leb_le _ _)); [by eexists|].
  unfold delivered. destruct (existsb changed all); cbn [offset_ length_ modified_buffer_ default]; unfold id; lia.
Qed.

(** A fragment of a unit. *)
Definition fragment_video (b1 : Z) (d : list Z) (v : RTPVideoHeader) : RTPVideoHeader :=
  let type := Z.land b1 kTypeMask in
  let first := 0 <? Z.land b1 kSBit in
  VideoHeader (if type =? kIdr then kVideoFrameKey else kVideoFrameDelta) 0 0 first 0 kVideoCodecH264
    (Some (H264Header type kH264FuA
      (if first then [Nalu type (-1) (match PpsParser.ParsePpsIdFromSlice d (len d) with Some (Some pps) => to_int pps | _ => -1 end)] else []) NonInterleaved)).

Definition fragment_payload (b0 b1 : Z) (d : list Z) : list Z :=
  if 0 <? Z.land b1 kSBit then Z.lor (Z.land b0 (Z.lor kFBit kNriMask)) (Z.land b1 kTypeMask) :: d else d.

Lemma parse_fragment b0 b1 d this p0 : let data := b0 :: b1 :: d in
  bytes_ok data -> len data < 2 ^ 31 -> Z.land b0 kTypeMask = kFuA ->
  exists this', Parse g data (len data) this p0 = Some (true, this', Parsed (fragment_video b1 d (video p0)) (fragment_payload b0 b1 d) (len (fragment_payload b0 b1 d))).
Proof using Type.
  intros data Hok Hl Hfu. pose proof (len_nonneg d) as Hld. assert (El : len data = 2 + len d) by (subst data; rewrite !len_cons; lia). unfold Parse.
  rewrite (proj2 (Z.eqb_neq (len data) 0)) by lia. change (byte_at data 0) with (Some b0). cbn [mbind option_bind]. rewrite Hfu, Z.eqb_refl. unfold ParseFuaNalu. cbn [length_].
  change kFuAHeaderSize with 2. rewrite (proj2 (Z.ltb_ge (len data) 2)) by lia. change (byte_at data 0) with (Some b0). change (byte_at data 1) with (Some b1). cbn [mbind option_bind].
  change (2 * kNalHeaderSize) with 2. change kNalHeaderSize with 1. change (ptr_add data 2) with d.
  assert (Hd : bytes_ok d) by (subst data; inversion Hok as [|? ? _ Hr]; by inversion Hr).
  destruct (slice_total d [] Hd ltac:(lia)) as (a & Ea & _). unfold fragment_video, fragment_payload. destruct (0 <? Z.land b1 kSBit).
  - replace (len data - 1 - 1) with (len d) by lia. rewrite Ea. cbn [mbind option_bind].
    assert (Eb : bytes_at data 1 (len data - 1) = Some (b1 :: d)).
    { replace (len data - 1) with (len (b1 :: d)) by (rewrite len_cons; lia). change data with ([b0] ++ (b1 :: d)). rewrite <- (app_nil_r (b1 :: d)) at 1. apply (bytes_at_spec [b0]). }
    rewrite Eb. cbn [mbind option_bind]. rewrite (proj2 (Z.ltb_lt 0 (len (b1 :: d)))) by (rewrite len_cons; lia). cbn.
    change (len (@nil NaluInfo) <? kMaxNalusPerPacket) with true. cbn. rewrite (proj2 (Z.leb_le _ _)); [|unfold id; rewrite El, len_cons; lia]. eexists. unfold mbind, option_bind, check. do 3 f_equal. rewrite len_cons. lia.
  - cbn. rewrite (proj2 (Z.leb_le _ _)) by lia. eexists. unfold mbind, option_bind, check. do 3 f_equal. lia.
Qed.

End receive.
