(* ===== verification/H264Delivery.v ===== *)
(** * H.264 frames from the encoder to the receiver

    The packetiser, RTP packets, the parser of RTP packets and the depacketiser together; the units of a
    frame are put together again as RFC 6184 says. *)

From S2P Require Import Prelude Buffer ByteIo CowBuffer BitCodec H264Common Packetize H264Params SpsVui SpsSafe RtpPacket RtpSpec RtpBuild RtpRefine RtpParse H264Packetizer H264Packets H264Send H264Depacketizer H264Receive.

Import H264 RtpPacketizer RtpDepacketizerH264.

(** ** The parsed payload is well formed *)

Definition nalu_ok (n : NaluInfo) : Prop := 0 <= type n < 32 /\ in_s 32 (sps_id n) /\ in_s 32 (pps_id n).

Record video_ok (v : RTPVideoHeader) (h : RTPVideoHeaderH264) : Prop := {
  v_h264 : video_type_header v = Some h;
  v_codec : codec v = kVideoCodecH264;
  v_frame : frame_type v <> kEmptyFrame;
  v_width : in_u 16 (width v);
  v_height : in_u 16 (height v);
  v_type : 0 <= nalu_type h < 32;
  v_count : len (nalus h) <= kMaxNalusPerPacket;
  v_nalus : Forall nalu_ok (nalus h)
}.

Lemma to_int_range v : in_s 32 (to_int v).
Proof. unfold to_int, in_s. pose proof (wrap_range 32 v ltac:(lia)). destruct (Z.ltb_spec (u32 v) (2 ^ 31)); lia. Qed.

Lemma masked_type b : 0 <= Z.land b kTypeMask < 32.
Proof. change kTypeMask with (2 ^ 5 - 1). rewrite land_ones_mod by lia. apply Z.mod_pos_bound. lia. Qed.

Lemma minus_one_int : in_s 32 (-1).
Proof. by_compute. Qed.

#[local] Hint Resolve to_int_range minus_one_int masked_type : core.

Lemma nalu_info_ok g f : nalu_ok (nalu_info g f).
Proof. unfold nalu_info, nalu_ok, nal_type. repeat case_match; cbn [type sps_id pps_id]; auto. Qed.

Lemma video_nalu_ok g v h f : video_ok v h -> exists h', video_ok (video_nalu g v f) h' /\ packetization_type h' = packetization_type h /\ nalus h' <> [].
Proof.
  intros [Hh Hc Hf Hw Hhe Ht Hn Hns]. unfold video_nalu. rewrite nalu_video_header, Hh.
  exists (H264Header (nalu_type h) (packetization_type h) (take 10 (nalus h ++ [nalu_info g f])) (packetization_mode h)). split; [|split; [done|cbn [nalus]; by destruct (nalus h)]].
  assert (Hv : codec (nalu_video g f v) = codec v /\ frame_type (nalu_video g f v) <> kEmptyFrame /\ in_u 16 (width (nalu_video g f v)) /\ in_u 16 (height (nalu_video g f v))).
  { unfold nalu_video. destruct (nal_type f =? kSps); [destruct (sps_of g f)|destruct (nal_type f =? kIdr)]; cbn; (split; [done|]); (split; [done|]); split; first [done|apply wrap_range; lia]. }
  destruct Hv as (Ec & Ef & Ew & Ehe). split; cbn [codec frame_type width height video_type_header nalu_type nalus packetization_type]; try done; [congruence|unfold len, kMaxNalusPerPacket; rewrite length_take; lia|].
  apply Forall_take, Forall_app. split; [done|]. constructor; [apply nalu_info_ok|constructor].
Qed.

Lemma video_nalus_ok g fs : forall v h, video_ok v h -> exists h', video_ok (foldl (video_nalu g) v fs) h' /\ packetization_type h' = packetization_type h.
Proof.
  induction fs as [|f fs IH]; intros v h Hv; [by exists h|]. destruct (video_nalu_ok g v h f Hv) as (h1 & Hv1 & E1 & _). destruct (IH _ _ Hv1) as (h2 & Hv2 & E2).
  exists h2. split; [done|congruence].
Qed.

Lemma opened_video_ok f p v : video_ok (opened (nal_type f) p v) (H264Header (nal_type f) p [] NonInterleaved).
Proof. split; try done; apply masked_type. Qed.

Section delivery.
Context (g : list Z) (Hg : bytes_ok g).

Lemma rewritten_ok f w : bytes_ok f -> len f < 2 ^ 31 -> rewritten g f = Some w -> bytes_ok w /\ 0 < len w <= 2 * len f + 128.
Proof using Hg.
  intros Hf Hl. unfold rewritten. destruct (nal_type f =? kSps) eqn:Et; [|done]. destruct f as [|h f]; [done|]. pose proof (len_nonneg f). rewrite len_cons in Hl.
  unfold rewriter. destruct (rewrite_total (drop 1 (h :: f)) (len (h :: f) - 1) None None [] (fresh_mem g (len (h :: f) - 1 + SpsVuiRewriter.kMaxVuiSpsIncrease)))
    as (r & s & w' & E & Ha); [by apply Forall_drop|change (drop 1 (h :: f)) with f; rewrite len_cons; lia|rewrite len_cons; lia|by apply bytes_ok_fresh_mem|
    rewrite len_cons; apply len_fresh_mem; unfold SpsVuiRewriter.kMaxVuiSpsIncrease; lia|].
  rewrite E. destruct r; [done|done|]. intros [= <-]. destruct Ha as (w'' & -> & Hok & _ & Hw). cbn [app]. rewrite !len_cons. unfold SpsVuiRewriter.kMaxVuiSpsIncrease in Hw. rewrite len_cons in Hw.
  pose proof (len_nonneg w''). split; [|lia]. constructor; [by inversion Hf|done].
Qed.

(** What replaces the units of an aggregate. *)
Lemma deliver_ok fs : Forall (fun f => bytes_ok f /\ f <> [] /\ len f < 2 ^ 31) fs ->
  Forall2 (fun f u => bytes_ok u /\ u <> [] /\ len u <= 2 * len f + 128) fs (deliver g fs).
Proof using Hg.
  induction 1 as [|f fs (Hf & Hne & Hl) Hfs IH]; [constructor|]. cbn [deliver]. constructor; [|done]. pose proof (len_nonneg f).
  destruct (existsb (changed g) fs); [split; [done|split; [done|lia]]|]. destruct (rewritten g f) as [w|] eqn:E; [|split; [done|split; [done|cbn; unfold id; lia]]].
  destruct (rewritten_ok f w Hf Hl E) as [Hw Hlw]. split; [done|]. split; [apply nonempty_len; cbn; unfold id; lia|cbn; unfold id; lia].
Qed.

(** ** What is handed on *)

Lemma plain_handed f v : exists this, handed_on f (replaced g false [] f [] (Depacketizer 0 (len f) None)) v =
  (true, this, Parsed v (default f (rewritten g f)) (len (default f (rewritten g f)))).
Proof using Type.
  unfold handed_on, replaced. destruct (rewritten g f) as [w|]; cbn [offset_ length_ modified_buffer_ default app]; unfold id; [rewrite app_nil_r|]; by eexists.
Qed.

Lemma aggregate_handed h fs v : exists this, handed_on (h :: entries fs) (delivered g [h] fs (Depacketizer 0 (len (h :: entries fs)) None)) v =
  (true, this, Parsed v (h :: entries (deliver g fs)) (len (h :: entries (deliver g fs)))).
Proof using Type.
  unfold handed_on, delivered. destruct (existsb (changed g) fs) eqn:E; cbn [offset_ length_ modified_buffer_ default app]; unfold id; [by eexists|].
  rewrite (deliver_same g fs E). by eexists.
Qed.

(** The payload of a packet of [n] bytes by its kind; a rewritten set is at most twice as long and 128 bytes. *)
Definition shape (n : Z) (h : RTPVideoHeaderH264) (p : ParsedPayload) : Prop :=
  match packetization_type h with
  | kH264SingleNalu => payload p <> [] /\ nalus h <> []
  | kH264StapA => is_first_packet_in_frame (video p) = true /\
      exists b units, payload p = b :: entries units /\ units <> [] /\ Forall (fun u => u <> [] /\ len u <= 2 * n + 128) units
  | kH264FuA => if is_first_packet_in_frame (video p) then payload p <> [] /\ nalus h <> [] else nalus h = []
  end.

Definition payload_ok (n : Z) (p : ParsedPayload) : Prop :=
  payload_length p = len (payload p) /\ bytes_ok (payload p) /\ exists h, video_ok (video p) h /\ shape n h p.

Lemma entries_bytes fs : bytes_ok (entries fs) -> Forall bytes_ok fs.
Proof using Type.
  induction fs as [|f fs IH]; [constructor|]. rewrite entries_cons, bytes_ok_app. unfold stapa_entry. rewrite bytes_ok_app. intros [[_ Hf] Hfs]. constructor; [done|by apply IH].
Qed.

Lemma entries_len fs : Forall (fun f => len f <= len (entries fs)) fs.
Proof using Type. exact (entry_lengths fs). Qed.

Lemma Forall2_right {A B} (P : A -> B -> Prop) (Q : B -> Prop) l k : (forall a b, P a b -> Q b) -> Forall2 P l k -> Forall Q k.
Proof using Type. intros H. induction 1; constructor; [by eapply H|done]. Qed.

Lemma acceptable_not_nil f : acceptable f = true -> f <> [].
Proof using Type. by destruct f. Qed.

(** The units of an aggregate that is accepted. *)
Lemma units_ok fs : bytes_ok (entries fs) -> len (entries fs) < 2 ^ 31 -> forallb acceptable fs = true ->
  Forall (fun f => bytes_ok f /\ f <> [] /\ len f < 2 ^ 31) fs.
Proof using Type.
  intros Hb Hl Ha. pose proof (entries_bytes fs Hb) as Hbs. pose proof (entries_len fs) as Hls. rewrite forallb_forall in Ha. rewrite Forall_forall in *.
  intros f Hf. split; [by apply Hbs|]. split; [apply acceptable_not_nil, Ha; by apply list_elem_of_In|]. specialize (Hls f Hf). cbn in Hls. lia.
Qed.

Lemma video_nalus_first fs : forall v, is_first_packet_in_frame (foldl (video_nalu g) v fs) = is_first_packet_in_frame v.
Proof using Type.
  induction fs as [|f fs IH]; intros v; [done|]. cbn [foldl]. rewrite IH. unfold video_nalu, nalu_video. cbn [is_first_packet_in_frame]. by repeat case_match.
Qed.

Lemma deliver_bound n (fs us : list (list Z)) : Forall (fun f => len f <= n) fs -> Forall2 (fun f u => bytes_ok u /\ u <> [] /\ len u <= 2 * len f + 128) fs us ->
  Forall (fun u => u <> [] /\ len u <= 2 * n + 128) us.
Proof using Type.
  intros Hn H. induction H as [|f u fs us (_ & Hu & Hl) _ IH]; [constructor|]. apply Forall_cons in Hn as [Hf Hn]. constructor; [split; [done|lia]|by apply IH].
Qed.

Lemma plain_safe data this p0 h rest : data = h :: rest -> bytes_ok data -> len data <= 65535 -> Z.land h kTypeMask <> kFuA -> Z.land h kTypeMask <> kStapA ->
  exists ok this' p', Parse g data (len data) this p0 = Some (ok, this', p') /\ (ok = true -> payload_ok (len data) p').
Proof using Hg.
  intros Ed Hok Hl Hfu Hst. destruct (parse_plain g Hg data this p0 h rest Ed Hok ltac:(lia) Hfu Hst) as (this' & -> & E).
  destruct (plain_handed data (video_nalu g (opened (nal_type data) kH264SingleNalu (video p0)) data)) as (this2 & E2). rewrite E2 in E.
  eexists _, _, _. split; [exact E|]. intros _. split; [done|]. cbn [payload video].
  assert (Hne : data <> []) by (by rewrite Ed). destruct (video_nalu_ok g _ _ data (opened_video_ok data kH264SingleNalu (video p0))) as (h' & Hv & Et & Hns).
  assert (Hp : bytes_ok (default data (rewritten g data)) /\ default data (rewritten g data) <> []).
  { destruct (rewritten g data) as [w|] eqn:Ew; [|done]. destruct (rewritten_ok data w Hok ltac:(lia) Ew) as [Hw Hlw]. split; [done|]. apply nonempty_len. cbn. unfold id. lia. }
  split; [by apply Hp|]. exists h'. split; [done|]. unfold shape. rewrite Et. split; [by apply Hp|done].
Qed.

Lemma aggregate_safe data this p0 h rest : data = h :: rest -> bytes_ok data -> len data <= 65535 -> Z.land h kTypeMask = kStapA ->
  exists ok this' p', Parse g data (len data) this p0 = Some (ok, this', p') /\ (ok = true -> payload_ok (len data) p').
Proof using Hg.
  intros -> Hok Hl Hst. inversion Hok as [|? ? Hh Hrest]. subst. rewrite len_cons in Hl. pose proof (len_nonneg rest).
  destruct (offsets_total rest (Z.to_nat (len rest)) 0 Hrest ltac:(lia)) as [(fs & -> & Hs)|Ebad].
  - destruct fs as [|f fs].
    { exists false. do 2 eexists. split; [|done]. unfold Parse. change (byte_at (h :: entries []) 0) with (Some h). cbn [mbind option_bind]. rewrite Hst. change (kStapA =? kFuA) with false.
      cbv iota. unfold ProcessStapAOrSingleNalu. change (byte_at (h :: entries []) 0) with (Some h). cbn [mbind option_bind]. rewrite Hst. done. }
    set (all := f :: fs) in *. destruct (parse_aggregate g Hg h all this p0 Hok ltac:(rewrite len_cons; lia) Hst ltac:(done) Hs) as ([[ok this'] p'] & E & Hr).
    exists ok, this', p'. split; [exact E|]. intros ->. destruct (forallb acceptable all) eqn:Ha; [|done].
    destruct (aggregate_handed h all (foldl (video_nalu g) (opened (nal_type (default [] (head all))) kH264StapA (video p0)) all)) as (this2 & E2). rewrite E2 in Hr.
    injection Hr as _ ->. split; [done|]. cbn [payload video].
    pose proof (deliver_ok all (units_ok all Hrest ltac:(lia) Ha)) as Hd.
    split. { constructor; [done|]. apply (entries_ok (deliver g all)). eapply Forall2_right; [|exact Hd]. by intros ? ? [? _]. }
    destruct (video_nalus_ok g all _ _ (opened_video_ok (default [] (head all)) kH264StapA (video p0))) as (h' & Hv & Et).
    exists h'. split; [done|]. unfold shape. rewrite Et. cbn [packetization_type payload]. split; [exact (video_nalus_first all _)|]. exists h, (deliver g all). split; [done|]. split; [by subst all|].
    eapply deliver_bound; [|exact Hd]. rewrite len_cons. eapply Forall_impl; [apply entries_len|]. cbn beta. lia.
  - unfold Parse. rewrite (proj2 (Z.eqb_neq (len (h :: rest)) 0)) by (rewrite len_cons; lia). change (byte_at (h :: rest) 0) with (Some h). cbn [mbind option_bind]. rewrite Hst.
    change (kStapA =? kFuA) with false. cbv iota. unfold ProcessStapAOrSingleNalu. change (byte_at (h :: rest) 0) with (Some h). cbn [mbind option_bind length_]. rewrite Hst, Z.eqb_refl.
    destruct (len (h :: rest) <=? kStapAHeaderSize); [by exists false; do 2 eexists|]. change (ptr_add (h :: rest) kNalHeaderSize) with rest.
    replace (len (h :: rest) - kNalHeaderSize) with (len rest) by (rewrite len_cons; change kNalHeaderSize with 1; lia). rewrite Ebad. by exists false; do 2 eexists.
Qed.

Lemma fragment_safe data this p0 h rest : data = h :: rest -> bytes_ok data -> len data <= 65535 -> Z.land h kTypeMask = kFuA ->
  exists ok this' p', Parse g data (len data) this p0 = Some (ok, this', p') /\ (ok = true -> payload_ok (len data) p').
Proof using Hg.
  intros -> Hok Hl Hfu. destruct rest as [|b1 d].
  { exists false. do 2 eexists. split; [|done]. unfold Parse. change (byte_at [h] 0) with (Some h). cbn [mbind option_bind]. rewrite Hfu. done. }
  destruct (parse_fragment g h b1 d this p0 Hok ltac:(lia) Hfu) as (this' & E). eexists _, _, _. split; [exact E|]. intros _. split; [done|]. cbn [payload video].
  apply Forall_cons in Hok as [Hh Hok]. apply Forall_cons in Hok as [Hb Hd]. unfold fragment_payload, fragment_video. destruct (0 <? Z.land b1 kSBit) eqn:Es.
  - split; [constructor; [apply byte_lor; apply byte_land; by_compute|done]|]. eexists. split; [split; [done|done|by destruct (_ =? kIdr)|done|done|apply masked_type|done|]|done].
    constructor; [|constructor]. unfold nalu_ok. cbn. repeat case_match; auto.
  - split; [done|]. eexists. split; [split; [done|done|by destruct (_ =? kIdr)|done|done|apply masked_type|done|constructor]|done].
Qed.

End delivery.

Lemma parse_safe g data this p0 : bytes_ok g -> bytes_ok data -> len data <= 65535 ->
  exists ok this' p', Parse g data (len data) this p0 = Some (ok, this', p') /\ (ok = true -> payload_ok (len data) p').
Proof.
  intros Hg Hok Hl. destruct data as [|h rest]; [by exists false; do 2 eexists|].
  destruct (decide (Z.land h kTypeMask = kFuA)) as [Hfu|Hfu]; [by eapply fragment_safe|].
  destruct (decide (Z.land h kTypeMask = kStapA)) as [Hst|Hst]; [by eapply aggregate_safe|by eapply plain_safe].
Qed.

(** C13: the H.264 depacketiser on arbitrary bytes.  Whatever the payload of an RTP packet holds and whatever state the
    depacketiser is in, [Parse] returns: every read is inside the payload, the scan of an aggregate ends, the
    parsers of parameter sets and slices return and the copies fit.  When it accepts the packet, the pointer and length it hands on
    are inside a buffer, the fields of the video header are in the range of their types, at most ten
    NAL units are noted, and an aggregate starts a frame and is a list of units with their lengths, none of them
    empty, at most twice as long as the packet and 128 bytes. *)
Theorem depacketize_safe g data this p0 : bytes_ok g -> bytes_ok data -> len data <= 65535 ->
  exists ok this' p', Parse g data (len data) this p0 = Some (ok, this', p') /\ (ok = true -> payload_ok (len data) p').
Proof. apply parse_safe. Qed.

(** A payload object nothing was parsed into. *)
Definition empty_parsed : ParsedPayload := Parsed (VideoHeader kEmptyFrame 0 0 false 0 kVideoCodecGeneric None) [] 0.

(** An aggregate whose second unit announces more bytes than there are, and one that is right. *)
Lemma depacketize_safe_witness :
  Parse [170] [0x18; 0; 2; 0x09; 0x10; 0; 9; 0x61] 8 construct empty_parsed = Some (false, Depacketizer 0 8 None,
    Parsed (VideoHeader kEmptyFrame 0 0 true 0 kVideoCodecH264 (Some (H264Header 0 kH264SingleNalu [] NonInterleaved))) [] 0) /\
  exists this p, Parse [170] [0x18; 0; 2; 0x09; 0x10; 0; 1; 0x65] 8 construct empty_parsed = Some (true, this, p) /\ payload_ok 8 p /\ frame_type (video p) = kVideoFrameKey.
Proof.
  split; [vm_compute; reflexivity|].
  destruct (depacketize_safe [170] [0x18; 0; 2; 0x09; 0x10; 0; 1; 0x65] construct empty_parsed) as (ok & this & p & E & Hp); [by_compute|by_compute|by_compute|].
  vm_compute in E. injection E as <- <- <-. eexists _, _. split; [vm_compute; reflexivity|]. split; [by apply Hp|reflexivity].
Defined.

(** ** Putting the units together *)

(** The units of an aggregate, by their lengths. *)
Fixpoint split_entries (fuel : nat) (data : list Z) : list (list Z) :=
  match fuel, data with
  | S fuel, a :: b :: rest => let n := Z.to_nat (be_val [a; b]) in take n rest :: split_entries fuel (drop n rest)
  | _, _ => []
  end.

Fixpoint extend (units : list (list Z)) (d : list Z) : list (list Z) :=
  match units with [] => [d] | [u] => [u ++ d] | u :: rest => u :: extend rest d end.

(** A unit, the units of an aggregate, the start of a unit or the next part of it. *)
Definition add_payload (units : list (list Z)) (p : ParsedPayload) : list (list Z) :=
  match video_type_header (video p) with
  | None => units
  | Some h =>
      match packetization_type h with
      | kH264SingleNalu => units ++ [payload p]
      | kH264StapA => units ++ split_entries (length (payload p)) (drop 1 (payload p))
      | kH264FuA => if is_first_packet_in_frame (video p) then units ++ [payload p] else extend units (payload p)
      end
  end.

Definition reassemble (ps : list ParsedPayload) : list (list Z) := foldl add_payload [] ps.

Lemma split_entries_ok fs : Forall (fun f => len f < 2 ^ 16) fs -> forall fuel, (length (entries fs) <= fuel)%nat -> split_entries fuel (entries fs) = fs.
Proof.
  induction 1 as [|f fs Hf Hfs IH]; intros fuel Hfuel; [by destruct fuel|]. rewrite entries_cons in Hfuel |- *. rewrite length_app in Hfuel. pose proof (len_stapa_entry f) as Hl.
  destruct fuel as [|fuel]; [unfold len in *; lia|]. unfold stapa_entry. rewrite <- app_assoc. destruct (be_bytes 2 (len f)) as [|a [|b [|]]] eqn:E; try done.
  cbn [app split_entries]. rewrite <- E, be_val_bytes, Z.mod_small by (pose proof (len_nonneg f); change (256 ^ Z.of_nat 2) with (2 ^ 16); lia).
  rewrite take_prefix. unfold len at 1. rewrite Nat2Z.id, drop_app_length. f_equal. apply IH. unfold len in *. lia.
Qed.

Lemma extend_app units u d : extend (units ++ [u]) d = units ++ [u ++ d].
Proof. induction units as [|x units IH]; [done|]. cbn [app extend]. rewrite IH. by destruct (units ++ [u]) eqn:E; [destruct units|]. Qed.

(** ** The headers on the wire *)

Lemma stapa_header_type h : Z.land (stapa_header h) kTypeMask = kStapA.
Proof. unfold stapa_header. rewrite Z.land_lor_distr_l, <- Z.land_assoc. change (Z.land (Z.lor kFBit kNriMask) kTypeMask) with 0. by rewrite Z.land_0_r. Qed.

Lemma indicator_type h : Z.land (RtpPacketizerH264.fu_indicator h) kTypeMask = kFuA.
Proof. unfold RtpPacketizerH264.fu_indicator. rewrite Z.land_lor_distr_l, <- Z.land_assoc. change (Z.land (Z.lor kFBit kNriMask) kTypeMask) with 0. by rewrite Z.land_0_r. Qed.

Lemma fua_header_type h first last : Z.land (fua_header h first last) kTypeMask = Z.land h kTypeMask.
Proof.
  unfold fua_header. rewrite Z.land_lor_distr_l, <- Z.land_assoc, Z.land_diag. by destruct first, last.
Qed.

Lemma fua_header_start h first last : (0 <? Z.land (fua_header h first last) kSBit) = first.
Proof.
  unfold fua_header. rewrite Z.land_lor_distr_l, <- Z.land_assoc. change (Z.land kTypeMask kSBit) with 0. rewrite Z.land_0_r. by destruct first, last.
Qed.

Lemma header_restored h first last : byte_ok h ->
  Z.lor (Z.land (RtpPacketizerH264.fu_indicator h) (Z.lor kFBit kNriMask)) (Z.land (fua_header h first last) kTypeMask) = h.
Proof.
  intros Hh. rewrite fua_header_type. unfold RtpPacketizerH264.fu_indicator. rewrite Z.land_lor_distr_l, <- Z.land_assoc, Z.land_diag.
  change (Z.land kFuA (Z.lor kFBit kNriMask)) with 0. rewrite Z.lor_0_r, <- Z.land_lor_distr_r. change (Z.lor (Z.lor kFBit kNriMask) kTypeMask) with (2 ^ 8 - 1).
  rewrite land_ones_mod by lia. apply Z.mod_small. exact Hh.
Qed.

(** ** The receiver *)

Section receiver.
Context (g : list Z) (Hg : bytes_ok g).
(* The packet object that datagrams are parsed into, and the one the payload is parsed into. *)
Context (q : RtpPacket.t) (p0 : ParsedPayload).

(** A datagram is parsed as an RTP packet and its payload as H.264. *)
Definition receive_one (datagram : list Z) (this : t) : option (t * ParsedPayload) :=
  '(ok, q') ← RtpPacket.ParsePacket g datagram q;
  check ok ;;
  d ← RtpPacket.payload q';
  '(ok, this, p) ← Parse g d (len d) this p0;
  check ok ;;
  Some (this, p).

Fixpoint receive (datagrams : list (list Z)) (this : t) : option (list ParsedPayload) :=
  match datagrams with
  | [] => Some []
  | d :: rest => '(this, p) ← receive_one d this; ps ← receive rest this; Some (p :: ps)
  end.

(** What the receiver makes of the units of a packet. *)
Definition chunk_delivered (c : chunk) : list (list Z) :=
  match c with
  | One _ f => [default f (rewritten g f)]
  | Many f fs => deliver g (f :: fs)
  | Parts h parts => [h :: mjoin parts]
  end.

Fixpoint parse_all (ds : list (list Z)) (this : t) : option (t * list ParsedPayload) :=
  match ds with
  | [] => Some (this, [])
  | d :: rest => '(ok, this, p) ← Parse g d (len d) this p0; check ok ;; '(this, ps) ← parse_all rest this; Some (this, p :: ps)
  end.

(** The first packet does not go on with a unit. *)
Definition opens (ps : list ParsedPayload) : Prop := match ps with p :: _ => is_first_packet_in_frame (video p) = true | [] => True end.

(** The payloads [ds] are accepted and change the units as [F] says; with [o] they start with a unit. *)
Definition accepted (o : bool) (ds : list (list Z)) (F : list (list Z) -> list (list Z)) : Prop :=
  forall this, exists this' ps, parse_all ds this = Some (this', ps) /\ (forall units, foldl add_payload units ps = F units) /\ (o = true -> opens ps).

Lemma accepted_nil o : accepted o [] id.
Proof using Type. intros this. by exists this, []. Qed.

Lemma accepted_cons o o' d ds F G :
  (forall this, exists this' p, Parse g d (len d) this p0 = Some (true, this', p) /\ (forall units, add_payload units p = F units) /\ (o = true -> is_first_packet_in_frame (video p) = true)) ->
  accepted o' ds G -> accepted o (d :: ds) (fun units => G (F units)).
Proof using Type.
  intros Hd Hds this. destruct (Hd this) as (this1 & p & E1 & H1 & Ho). destruct (Hds this1) as (this2 & ps & E2 & H2 & _). exists this2, (p :: ps).
  cbn [parse_all]. rewrite E1. cbn [mbind option_bind check]. rewrite E2. cbn [mbind option_bind]. split; [done|]. split; [|done]. intros units. cbn [foldl]. by rewrite H1, H2.
Qed.

Lemma accepted_app o ds ds' F G : accepted o ds F -> accepted o ds' G -> accepted o (ds ++ ds') (fun units => G (F units)).
Proof using Type.
  intros H H' this. destruct (H this) as (this1 & ps & E & Hf & Ho). destruct (H' this1) as (this2 & ps' & E' & Hf' & Ho'). exists this2, (ps ++ ps'). split; [|split].
  - clear H Hf Ho. revert this ps E. induction ds as [|d ds IH]; intros this ps; cbn [parse_all app]; [by intros [= -> <-]|].
    destruct (Parse g d (len d) this p0) as [[[ok this3] p]|]; [|done]. cbn [mbind option_bind]. destruct ok; [|done]. cbn [mbind option_bind check].
    destruct (parse_all ds this3) as [[this4 ps4]|] eqn:E4; [|done]. cbn [mbind option_bind]. intros [= -> <-]. rewrite (IH _ _ E4). done.
  - intros units. by rewrite foldl_app, Hf, Hf'.
  - intros Hopen. specialize (Ho Hopen). destruct ps; [by apply Ho'|done].
Qed.

Lemma accepted_same o ds F G : accepted o ds F -> (forall units, F units = G units) -> accepted o ds G.
Proof using Type. intros H E this. destruct (H this) as (this' & ps & Ep & Hf & Ho). exists this', ps. split; [done|]. split; [|done]. intros units. by rewrite Hf. Qed.

(** ** The packets of a chunk *)

Lemma video_nalus_kind fs : forall v, match video_type_header v with
  | Some h => exists h', video_type_header (foldl (video_nalu g) v fs) = Some h' /\ packetization_type h' = packetization_type h
  | None => True end.
Proof using Type.
  induction fs as [|f fs IH]; intros v; destruct (video_type_header v) as [h|] eqn:E; try done; [by exists h|]. cbn [foldl]. specialize (IH (video_nalu g v f)).
  unfold video_nalu at 1 in IH. cbn [video_type_header] in IH. by rewrite nalu_video_header, E in IH.
Qed.

Lemma one_accepted f : bytes_ok f -> len f < 2 ^ 31 -> acceptable f = true -> accepted true [f] (fun units => units ++ [default f (rewritten g f)]).
Proof using Hg.
  intros Hf Hl Ha. apply (accepted_cons true true f [] (fun units => units ++ [default f (rewritten g f)]) id); [|apply accepted_nil]. intros this.
  unfold acceptable, nal_type in Ha. destruct f as [|h f]; [done|]. change (nal_header (h :: f)) with h in Ha. bool_prop.
  destruct (parse_plain g Hg (h :: f) this p0 h f eq_refl Hf Hl) as (this' & -> & E); [done|done|].
  destruct (plain_handed g (h :: f) (video_nalu g (opened (nal_type (h :: f)) kH264SingleNalu (video p0)) (h :: f))) as (this2 & E2). rewrite E2 in E.
  eexists _, _. split; [exact E|]. split; [|intros _; exact (video_nalus_first g [h :: f] _)]. intros units. unfold add_payload. cbn [video payload].
  destruct (video_nalus_kind [h :: f] (opened (nal_type (h :: f)) kH264SingleNalu (video p0))) as (h' & Eh & Ek). cbn [foldl] in Eh. rewrite Eh, Ek. done.
Qed.

Lemma many_accepted f fs : let all := f :: fs in bytes_ok (entries all) -> byte_ok (nal_header f) -> 1 + len (entries all) <= 2 ^ 14 -> Forall (fun f => acceptable f = true) all ->
  accepted true [stapa_header (nal_header f) :: entries all] (fun units => units ++ deliver g all).
Proof using Hg.
  intros all Hb Hh Hl Ha. apply (accepted_cons true true _ [] (fun units => units ++ deliver g all) id); [|apply accepted_nil]. intros this.
  set (b := stapa_header (nal_header f)). assert (Hok : bytes_ok (b :: entries all)) by (constructor; [apply stapa_header_byte|done]).
  assert (Hlens : Forall (fun f => len f < 2 ^ 14) all) by (eapply Forall_impl; [apply entries_len|]; cbn beta; intros ? ?; lia).
  assert (Hfa : forallb acceptable all = true) by (apply forallb_forall; intros x Hx; rewrite Forall_forall in Ha; apply Ha; by apply list_elem_of_In).
  destruct (parse_aggregate g Hg b all this p0 Hok ltac:(rewrite len_cons; lia) (stapa_header_type _) ltac:(done)) as (r & E & Hr).
  { eapply Forall_impl; [exact Hlens|]. cbn beta. lia. }
  rewrite Hfa in Hr. destruct (aggregate_handed g b all (foldl (video_nalu g) (opened (nal_type (default [] (head all))) kH264StapA (video p0)) all)) as (this2 & E2). rewrite E2 in Hr. subst r.
  eexists _, _. split; [exact E|]. split; [|intros _; exact (video_nalus_first g all _)]. intros units. unfold add_payload. cbn [video payload].
  destruct (video_nalus_kind all (opened (nal_type (default [] (head all))) kH264StapA (video p0))) as (h' & Eh & Ek). rewrite Eh, Ek. cbn [packetization_type]. f_equal.
  change (drop 1 (b :: entries (deliver g all))) with (entries (deliver g all)). apply split_entries_ok; [|cbn [length]; lia].
  pose proof (deliver_ok g Hg all (units_ok all Hb ltac:(lia) Hfa)) as Hd. clear -Hd Hlens. revert Hlens. generalize dependent (deliver g all). generalize all. clear all.
  intros l k. induction 1 as [|x y l k Hxy _ IH]; [constructor|]. intros [Hx Hl]%Forall_cons. constructor; [|by apply IH]. destruct Hxy as (_ & _ & H). lia.
Qed.

(** A part of a unit. *)
Lemma part_accepted h first last d : byte_ok h -> bytes_ok d -> 2 + len d < 2 ^ 31 -> forall this,
  exists this' p, Parse g (part_payload h first last d) (len (part_payload h first last d)) this p0 = Some (true, this', p) /\
    (forall units, add_payload units p = if first then units ++ [h :: d] else extend units d) /\ (first = true -> is_first_packet_in_frame (video p) = true).
Proof using Type.
  intros Hh Hd Hl this. destruct (parse_fragment g (RtpPacketizerH264.fu_indicator h) (fua_header h first last) d this p0) as (this' & E).
  - constructor; [apply indicator_byte|constructor; [apply fua_header_byte|done]].
  - rewrite !len_cons. lia.
  - apply indicator_type.
  - eexists _, _. split; [exact E|]. split; [|intros ->; cbn [video fragment_video is_first_packet_in_frame]; apply fua_header_start].
    intros units. unfold add_payload, fragment_video, fragment_payload. cbn [video payload video_type_header packetization_type is_first_packet_in_frame].
    rewrite fua_header_start. destruct first; [|done]. by rewrite header_restored.
Qed.

Lemma parts_accepted h parts : byte_ok h -> Forall bytes_ok parts -> Forall (fun d => 2 + len d < 2 ^ 31) parts ->
  accepted false (fua_payloads h false parts) (fun units => foldl extend units parts).
Proof using Type.
  intros Hh Hb Hl. induction parts as [|d parts IH]; [apply accepted_nil|]. apply Forall_cons in Hb as [Hbd Hb]. apply Forall_cons in Hl as [Hld Hl].
  cbn [fua_payloads foldl]. apply (accepted_cons false false _ _ (fun units => extend units d) (fun units => foldl extend units parts)); [|by apply IH].
  exact (part_accepted h false _ d Hh Hbd Hld).
Qed.

Lemma extend_all parts : forall units u, foldl extend (units ++ [u]) parts = units ++ [u ++ mjoin parts].
Proof using Type.
  induction parts as [|d parts IH]; intros units u; cbn [foldl]; [by rewrite app_nil_r|]. rewrite extend_app, IH. change (mjoin (d :: parts)) with (d ++ mjoin parts). by rewrite app_assoc.
Qed.

Lemma chunk_accepted l alone first last c : max_payload_len l <= 2 ^ 14 -> chunk_ok c -> chunk_fits l alone first last c ->
  Forall (fun f => bytes_ok f /\ acceptable f = true) (chunk_nalus c) -> accepted true (chunk_payloads c) (fun units => units ++ chunk_delivered c).
Proof using Hg.
  intros Hmax Hc [Hlens _] Hn. destruct c as [agg f|f fs|h parts]; cbn [chunk_nalus chunk_payloads chunk_delivered] in *.
  - apply Forall_cons in Hlens as [Hl _]. apply Forall_cons in Hn as [[Hb Ha] _]. apply one_accepted; [done|lia|done].
  - apply Forall_cons in Hlens as [Hl _]. rewrite len_cons in Hl. apply many_accepted.
    + apply entries_ok. eapply Forall_impl; [exact Hn|]. by intros ? [? _].
    + apply Forall_cons in Hn as [[Hb _] _]. destruct f; [done|]. by inversion Hb.
    + unfold entries. lia.
    + eapply Forall_impl; [exact Hn|]. by intros ? [_ ?].
  - destruct parts as [|d parts]; [destruct Hc as [Hc _]; done|]. apply Forall_cons in Hn as [[Hb _] _]. apply Forall_cons in Hb as [Hh Hb].
    pose proof (part_lengths _ _ _ _ Hlens) as Hpl. assert (Hbs : Forall bytes_ok (d :: parts)) by (by apply bytes_ok_join).
    apply Forall_cons in Hbs as [Hbd Hbs]. apply Forall_cons in Hpl as [Hd Hpl]. cbn [fua_payloads].
    eapply accepted_same; [apply (accepted_cons true false _ _ (fun units => units ++ [h :: d]) (fun units => foldl extend units parts))|].
    + apply (part_accepted h true _ d Hh Hbd). lia.
    + apply parts_accepted; [done|done|]. eapply Forall_impl; [exact Hpl|]. cbn beta. lia.
    + intros units. cbn beta. by rewrite extend_all.
Qed.

Lemma chunks_accepted l alone cs : max_payload_len l <= 2 ^ 14 -> forall first, chunks_fit l alone first cs ->
  Forall (fun f => bytes_ok f /\ acceptable f = true) (mjoin (chunk_nalus <$> cs)) -> accepted true (payloads cs) (fun units => units ++ mjoin (chunk_delivered <$> cs)).
Proof using Hg.
  intros Hmax. unfold payloads. induction cs as [|c cs IH]; intros first Hfit Hn; [eapply accepted_same; [apply accepted_nil|]; intros; by rewrite app_nil_r|].
  destruct Hfit as (Hok & Hf & Hfit). rewrite !mjoin_fmap_cons in *. apply Forall_app in Hn as [Hn1 Hn2].
  eapply accepted_same; [eapply accepted_app; [by eapply chunk_accepted|by eapply IH]|]. intros units. cbn beta. by rewrite app_assoc.
Qed.

Lemma chunks_kept cs : Forall (fun f => rewritten g f = None) (mjoin (chunk_nalus <$> cs)) -> mjoin (chunk_delivered <$> cs) = mjoin (chunk_nalus <$> cs).
Proof using Type.
  induction cs as [|c cs IH]; [done|]. rewrite !mjoin_fmap_cons. intros [Hc Hcs]%Forall_app. rewrite (IH Hcs). f_equal.
  destruct c as [agg f|f fs|h parts]; cbn [chunk_nalus chunk_delivered] in *; [by apply Forall_cons in Hc as [-> _]| |done].
  apply deliver_same. apply not_true_iff_false. intros (x & Hx & Hch)%existsb_exists. rewrite Forall_forall in Hc. specialize (Hc x). unfold changed in Hch.
  rewrite Hc in Hch; [done|]. by apply list_elem_of_In.
Qed.

End receiver.

(** ** The frame *)

Lemma len_join {A} (ls : list (list A)) : Forall (fun x => x <> []) ls -> len ls <= len (mjoin ls).
Proof.
  induction 1 as [|x ls Hx Hls IH]; [done|]. change (mjoin (x :: ls)) with (x ++ mjoin ls). rewrite len_cons, len_app. apply nonempty_len in Hx. lia.
Qed.

Lemma chunks_count l alone cs : forall first, chunks_fit l alone first cs -> len (payloads cs) <= len (mjoin (mjoin (chunk_nalus <$> cs))).
Proof.
  unfold payloads. induction cs as [|c cs IH]; intros first Hfit; [done|]. destruct Hfit as (Hok & _ & Hfit). specialize (IH false Hfit).
  rewrite !mjoin_fmap_cons, join_app, !len_app. enough (len (chunk_payloads c) <= len (mjoin (chunk_nalus c))) by lia.
  destruct c as [agg f|f fs|h parts]; cbn [chunk_payloads chunk_nalus chunk_ok] in *.
  - change (mjoin [f]) with (f ++ []). rewrite app_nil_r. apply nonempty_len in Hok. change (len [f]) with 1. lia.
  - destruct Hok as [_ Hok]. apply Forall_cons in Hok as [Hf _]. apply nonempty_len in Hf. change (mjoin (f :: fs)) with (f ++ mjoin fs). rewrite len_app.
    pose proof (len_nonneg (mjoin fs)). change (len [stapa_header (nal_header f) :: mjoin (stapa_entry <$> f :: fs)]) with 1. lia.
  - destruct Hok as [_ Hok]. change (mjoin [h :: mjoin parts]) with ((h :: mjoin parts) ++ []). rewrite app_nil_r, len_cons, len_payload_parts. pose proof (len_join parts Hok). lia.
Qed.

Lemma frame_size fs : Forall fragment_ok fs -> len (mjoin fs) <= len fs * 2 ^ 26.
Proof.
  induction 1 as [|f fs [_ Hf] Hfs IH]; [done|]. change (mjoin (f :: fs)) with (f ++ mjoin fs). rewrite len_app, len_cons. lia.
Qed.

Lemma frame_sent g l this cs ps rs : bytes_ok g -> max_payload_len l < 2 ^ 16 -> Forall fragment_ok (mjoin (chunk_nalus <$> cs)) -> len (mjoin (chunk_nalus <$> cs)) < 2 ^ 16 ->
  chunks_fit l (len (mjoin (chunk_nalus <$> cs)) =? 1) true cs -> RtpPacketizerH264.input_fragments_ this = mjoin (chunk_nalus <$> cs) ->
  RtpPacketizerH264.packets_ this = mjoin (chunk_units <$> cs) -> RtpPacketizerH264.NumPackets this = len (payloads cs) ->
  Forall2 (empty_for (max_payload_len l)) ps rs -> len ps = RtpPacketizerH264.NumPackets this ->
  exists this' sent, next_all g this ps = Some (this', sent) /\ sent_ok (payloads cs) rs sent /\ RtpPacketizerH264.NumPackets this' = 0 /\ RtpPacketizerH264.packets_ this' = [].
Proof.
  intros Hg Hmax Hf Hn Hfit Hi Hp Hnum Hps Hlen. pose proof (chunks_count _ _ _ _ Hfit) as Hc. pose proof (frame_size _ Hf) as Hs. pose proof (len_nonneg (payloads cs)).
  assert (Hb : Forall bytes_ok (mjoin (chunk_nalus <$> cs))) by (eapply Forall_impl; [exact Hf|]; by intros ? [? _]).
  unfold RtpPacketizerH264.NumPackets in *.
  destruct (next_all_sent g Hg (max_payload_len l) (payloads cs) this _ _ ps rs (chunks_pending l _ cs Hmax Hb true Hfit) Hp Hi) as (this' & sent & E & Hsent & He & Hn');
    [rewrite Hnum; lia|lia|done|unfold len in *; lia|]. exists this', sent. split; [done|]. split; [done|]. split; [lia|done].
Qed.

(** The datagrams of packets that were built. *)
Definition datagrams (sent : list (bool * RtpPacket.t)) : list (list Z) := (fun s => Value.contents (RtpPacket.buffer_ s.2)) <$> sent.

Lemma built_datagram p a : built p a -> Value.contents (RtpPacket.buffer_ p) = rtp_wire a /\ len (rtp_wire a) <= 65535.
Proof.
  intros [_ _ [(rest & Hm) Hsz _ Hc]]. unfold Value.contents, RtpPacket.capacity, Value.capacity, RtpPacket.data in *. rewrite Hm, len_app in *. pose proof (len_nonneg rest).
  rewrite Hsz. split; [apply take_prefix|lia].
Qed.

Lemma receive_sent g q p0 ds : bytes_ok g -> target 43690 q -> forall rs sent this this' ps, sent_ok ds rs sent -> parse_all g p0 ds this = Some (this', ps) ->
  receive g q p0 (datagrams sent) this = Some ps.
Proof.
  intros Hg Hq. unfold datagrams. induction ds as [|d ds IH]; intros rs sent this this' ps Hs; (destruct rs as [|a rs]; [|]); (destruct sent as [|[ok p] sent]; [|]); try done; [by intros [= _ <-]|].
  destruct Hs as (_ & Hb & Hs). destruct (built_datagram _ _ Hb) as [Ed Hl]. rewrite fmap_cons. cbn [parse_all receive snd]. rewrite Ed. unfold receive_one.
  destruct (ParsePacket_ok g _ q Hg (r_ok _ _ _ Hb) Hl Hq) as (q' & slack & E & Hr & _). rewrite E. cbn [mbind option_bind check].
  rewrite (o_payload _ _ (repr_observed _ _ _ Hr)). cbn [mbind option_bind RtpSpec.payload packed with_marker with_payload].
  destruct (Parse g d (len d) this p0) as [[[[|] this1] x]|]; [|done|done]. cbn [mbind option_bind check].
  destruct (parse_all g p0 ds this1) as [[this2 xs]|] eqn:E2; [|done]. cbn [mbind option_bind]. intros [= _ <-]. by rewrite (IH rs sent this1 this2 xs Hs E2).
Qed.

(** ** The limits as documented *)

(** Every packet within the limit, with the reduction of the first, of the last, or of the packet that is both. *)
Definition within_limits (l : PayloadSizeLimits) (ps : list (list Z)) : Prop :=
  Forall (fun p => len p <= max_payload_len l) ps /\
  match ps with
  | [] => True
  | [p] => len p + single_packet_reduction_len l <= max_payload_len l
  | p :: _ => len p + first_packet_reduction_len l <= max_payload_len l /\
      exists e, list.last ps = Some e /\ len e + last_packet_reduction_len l <= max_payload_len l
  end.

Lemma payloads_short l alone cs : forall first, chunks_fit l alone first cs -> Forall (fun d => len d <= max_payload_len l) (payloads cs).
Proof.
  unfold payloads. induction cs as [|c cs IH]; intros first Hfit; [constructor|]. destruct Hfit as (_ & [Hc _] & Hfit). rewrite mjoin_fmap_cons. apply Forall_app.
  split; [done|by eapply IH].
Qed.

(** The ends of a chunk of a frame of several units. *)
Lemma chunk_ends l first last c : limits_ok l -> chunk_fits l false first last c ->
  exists p ps e, chunk_payloads c = p :: ps /\ len p + (if first then first_packet_reduction_len l else 0) <= max_payload_len l /\
    list.last (p :: ps) = Some e /\ len e + (if last then last_packet_reduction_len l else 0) <= max_payload_len l.
Proof.
  intros Hl [_ Hc]. unfold limits_ok in Hl. destruct (chunk_payloads c) as [|p [|q ps]]; [done| |].
  - exists p, [], p. split; [done|]. destruct first, last; (split; [lia|]); (split; [done|lia]).
  - destruct Hc as (Hp & e & He & Hlast). exists p, (q :: ps), e. by rewrite last_cons_cons.
Qed.

(** The last packet of a frame. *)
Lemma chunks_last l first cs : limits_ok l -> chunks_fit l false first cs -> cs <> [] ->
  exists e, list.last (payloads cs) = Some e /\ len e + last_packet_reduction_len l <= max_payload_len l.
Proof.
  intros Hl. revert first. induction cs as [|c cs IH]; intros first Hfit Hne; [done|]. destruct Hfit as (_ & Hc & Hfit). unfold payloads. rewrite mjoin_fmap_cons. fold (payloads cs).
  destruct cs as [|c' cs].
  - destruct (chunk_ends l first true c Hl Hc) as (p & ps & e & Ep & _ & He & Hle). exists e. change (payloads []) with (@nil (list Z)). rewrite app_nil_r, Ep. done.
  - destruct (IH false Hfit ltac:(done)) as (e & He & Hle). exists e. split; [|done]. rewrite last_app, He. done.
Qed.

Lemma chunk_nalus_some c : chunk_nalus c <> [].
Proof. by destruct c. Qed.

(** What the packetiser guarantees implies the documented limits, if the two reductions cover the third or there is one unit. *)
Lemma chunks_within l cs : limits_ok l -> chunks_fit l (len (mjoin (chunk_nalus <$> cs)) =? 1) true cs ->
  len (mjoin (chunk_nalus <$> cs)) = 1 \/ single_packet_reduction_len l <= first_packet_reduction_len l + last_packet_reduction_len l -> within_limits l (payloads cs).
Proof.
  intros Hl Hfit Hred. split; [by eapply payloads_short|]. destruct cs as [|c cs]; [done|]. rewrite mjoin_fmap_cons, len_app in *.
  pose proof (proj2 (nonempty_len _) (chunk_nalus_some c)) as Hc1. destruct (Z.eqb_spec (len (chunk_nalus c) + len (mjoin (chunk_nalus <$> cs))) 1) as [H1|H1].
  - assert (cs = []) as ->.
    { destruct cs as [|c' cs]; [done|]. rewrite mjoin_fmap_cons, len_app in H1. pose proof (proj2 (nonempty_len _) (chunk_nalus_some c')). pose proof (len_nonneg (mjoin (chunk_nalus <$> cs))). lia. }
    destruct Hfit as (_ & [_ Hc] & _). unfold payloads. rewrite mjoin_fmap_cons. change (mjoin _) with (@nil (list Z)). rewrite app_nil_r.
    destruct (chunk_payloads c) as [|p [|q ps]]; [done|done|]. destruct Hc as (Hp & e & He & Hle). split; [done|]. exists e. by rewrite last_cons_cons.
  - destruct Hred as [Hred|Hred]; [done|]. destruct (chunks_last l true (c :: cs) Hl Hfit ltac:(done)) as (e & He & Hle). destruct Hfit as (_ & Hc & Hrest).
    pose proof (chunk_ends l true _ c Hl Hc) as (p & ps & _ & Ep & Hp & _). unfold payloads in *. rewrite mjoin_fmap_cons, Ep in *. cbn [app] in *.
    destruct (ps ++ mjoin (chunk_payloads <$> cs)) as [|q qs] eqn:Eq; [|split; [done|by exists e]].
    apply app_eq_nil in Eq as [-> Ecs]. assert (cs = []) as ->.
    { destruct cs as [|c' cs]; [done|]. rewrite mjoin_fmap_cons in Ecs. apply app_eq_nil in Ecs as [Ecs _]. destruct Hrest as (_ & [_ Hc'] & _). by rewrite Ecs in Hc'. }
    destruct Hc as [_ Hc]. rewrite Ep in Hc. cbn in Hc. lia.
Qed.

(** C12: packetising an H.264 frame.  The constructor returns for every frame of fewer than 2^16 non-empty NAL units, every
    packetisation mode and limits below 2^16 bytes whose reductions are smaller than the limit.  With aggregation and fragmentation it always succeeds when the limits leave room for a byte behind
    the fragment header; with single units it succeeds exactly if every unit fits.  When it succeeds the units
    are covered in order by packets of one unit, aggregates and fragments of at most the limit.  The first and the last packet leave their reductions free;
    a packet that is both leaves its own reduction free if the frame is one unit or the sum of the other two is not smaller, and otherwise, when it
    aggregates several units, that sum.  [NumPackets] is the number of packets.  Then that many calls of [NextPacket] on empty packets with
    room for the limit all return true: each payload is in its packet, the marker bit is on the last and nothing is left; one more call returns false. *)
Theorem h264_packetize g l mode payload fragmentation : let fs := (fun f => subview payload f.1 f.2) <$> fragmentation in
  bytes_ok g -> limits_ok l -> max_payload_len l < 2 ^ 16 -> Forall fragment_ok fs -> len fs < 2 ^ 16 ->
  exists this ok, RtpPacketizerH264.construct payload l mode fragmentation = Some this /\
    (mode = NonInterleaved -> roomy l -> ok = true) /\ (mode = SingleNalUnit -> ok = all_fit l (len fs) true fs) /\
    if ok : bool then
      exists cs, mjoin (chunk_nalus <$> cs) = fs /\ chunks_fit l (len fs =? 1) true cs /\
      (len fs = 1 \/ single_packet_reduction_len l <= first_packet_reduction_len l + last_packet_reduction_len l -> within_limits l (payloads cs)) /\
      RtpPacketizerH264.NumPackets this = len (payloads cs) /\
      forall ps rs, Forall2 (empty_for (max_payload_len l)) ps rs -> len ps = RtpPacketizerH264.NumPackets this ->
      exists this' sent, next_all g this ps = Some (this', sent) /\ sent_ok (payloads cs) rs sent /\ RtpPacketizerH264.NumPackets this' = 0 /\
        forall p, RtpPacketizerH264.NextPacket g this' p = Some (false, this', p)
    else RtpPacketizerH264.NumPackets this = 0.
Proof.
  intros fs Hg Hl Hmax Hf Hn. destruct (construct_spec l fs Hl Hf Hn mode payload fragmentation eq_refl) as (this & ok & E & Hcase & Hm1 & Hm2).
  exists this, ok. split; [done|]. split; [done|]. split; [done|]. destruct ok; [|by destruct Hcase]. destruct Hcase as (cs & Hcs & Hfit & Hi & Hp & Hnum).
  exists cs. split; [done|]. split; [done|]. split; [intros Hred; apply chunks_within; [done|by rewrite Hcs..]|]. split; [done|]. intros ps rs Hps Hlen. rewrite <- Hcs in Hf, Hn, Hfit, Hi.
  destruct (frame_sent g l this cs ps rs) as (this' & sent & Es & Hs & Hn0 & He); try done.
  exists this', sent. split; [done|]. split; [done|]. split; [done|]. intros p. unfold RtpPacketizerH264.NextPacket. by rewrite He.
Qed.

(** A delimiter and a slice share a packet, a picture of 20 bytes takes two. *)
Definition sample_frame : list Z := [0x09; 0x10; 0x61; 0x88; 0x84] ++ 0x41 :: replicate 19 0xAB.
Definition sample_fragments : list (Z * Z) := [(0, 2); (2, 3); (5, 20)].
Definition sample_limits : PayloadSizeLimits := Limits 16 0 0 0.

Lemma sample_room g : bytes_ok g -> exists p, RtpPacket.construct g None 1500 = Some p /\ empty_for 16 p empty_rtp.
Proof.
  intros Hg. destruct (construct_ok g Hg None 1500 ltac:(lia)) as (p & E & Hb & Hc & _). exists p. split; [done|]. split; [done|]. split; [done|]. split; [done|].
  rewrite Hc. by vm_compute.
Qed.

Lemma h264_packetize_witness : exists this p this' sent, RtpPacketizerH264.construct sample_frame sample_limits NonInterleaved sample_fragments = Some this /\
  RtpPacketizerH264.NumPackets this = 3 /\ RtpPacket.construct [170] None 1500 = Some p /\ next_all [170] this [p; p; p] = Some (this', sent) /\ RtpPacketizerH264.NumPackets this' = 0.
Proof.
  destruct (sample_room [170] ltac:(by_compute)) as (p & Ep & Hp).
  destruct (h264_packetize [170] sample_limits NonInterleaved sample_frame sample_fragments) as (this & ok & E & Hm & _ & Hok).
  - by_compute.
  - vm_compute; intuition discriminate.
  - by_compute.
  - repeat (constructor; [split; [by_compute|vm_compute; intuition discriminate]|]); constructor.
  - by_compute.
  - assert (Hr : roomy sample_limits) by (vm_compute; intuition discriminate). rewrite (Hm eq_refl Hr) in Hok. destruct Hok as (cs & _ & _ & _ & _ & Hsend).
    assert (Hn : RtpPacketizerH264.NumPackets this = 3) by (vm_compute in E; injection E as <-; reflexivity).
    destruct (Hsend [p; p; p] [empty_rtp; empty_rtp; empty_rtp]) as (this' & sent & Es & _ & H0 & _); [repeat (constructor; [exact Hp|]); constructor|by rewrite Hn|].
    exists this, p, this', sent. exact (conj E (conj Hn (conj Ep (conj Es H0)))).
Defined.

(** ** Every packet that is received *)

Lemma sent_bytes ds : forall rs sent, sent_ok ds rs sent -> Forall bytes_ok ds.
Proof.
  induction ds as [|d ds IH]; intros rs sent Hs; [constructor|]. destruct rs as [|a rs]; [done|]. destruct sent as [|[ok p] sent]; [done|]. destruct Hs as (_ & Hb & Hs).
  constructor; [exact (ok_payload _ (r_ok _ _ _ Hb))|by eapply IH].
Qed.

Lemma parse_all_ok g p0 n ds : bytes_ok g -> n <= 65535 -> Forall bytes_ok ds -> Forall (fun d => len d <= n) ds -> forall this this' ps, parse_all g p0 ds this = Some (this', ps) ->
  Forall (fun p => exists k, k <= n /\ payload_ok k p) ps.
Proof.
  intros Hg Hn Hb. induction Hb as [|d ds Hd Hb IH]; intros Hl this this' ps; cbn [parse_all]; [intros [= _ <-]; constructor|]. apply Forall_cons in Hl as [Hld Hl].
  destruct (parse_safe g d this p0 Hg Hd ltac:(lia)) as (ok & this1 & p & E & Hp). rewrite E. cbn [mbind option_bind]. destruct ok; [|done]. cbn [mbind option_bind check].
  destruct (parse_all g p0 ds this1) as [[this2 ps2]|] eqn:E2; [|done]. cbn [mbind option_bind]. intros [= _ <-]. constructor; [exists (len d); split; [done|by apply Hp]|by eapply IH].
Qed.

(** A frame that is sent and received. *)
Lemma frame_received g l payload fragmentation ps rs q p0 d : let fs := (fun f => subview payload f.1 f.2) <$> fragmentation in
  bytes_ok g -> limits_ok l -> roomy l -> max_payload_len l <= 2 ^ 14 -> Forall fragment_ok fs -> len fs < 2 ^ 16 -> Forall (fun f => acceptable f = true) fs ->
  Forall2 (empty_for (max_payload_len l)) ps rs -> RtpPacketizerH264.NumPackets <$> RtpPacketizerH264.construct payload l NonInterleaved fragmentation = Some (len ps) ->
  target 43690 q ->
  exists this this' sent out cs, RtpPacketizerH264.construct payload l NonInterleaved fragmentation = Some this /\ next_all g this ps = Some (this', sent) /\
    receive g q p0 (datagrams sent) d = Some out /\ mjoin (chunk_nalus <$> cs) = fs /\ reassemble out = mjoin (chunk_delivered g <$> cs) /\
    opens out /\ Forall (fun p => exists n, n <= 2 ^ 14 /\ payload_ok n p) out.
Proof.
  intros fs Hg Hl Hroom Hmax Hf Hn Ha Hps Hlen Hq. destruct (construct_spec l fs Hl Hf Hn NonInterleaved payload fragmentation eq_refl) as (this & ok & E & Hcase & Hm & _).
  rewrite (Hm eq_refl Hroom) in Hcase. destruct Hcase as (cs & Hcs & Hfit & Hi & Hp & Hnum). rewrite E in Hlen. injection Hlen as Hlen.
  rewrite <- Hcs in Hf, Hn, Ha, Hfit, Hi |- *. destruct (frame_sent g l this cs ps rs) as (this' & sent & Es & Hs & _); try done; [lia|].
  assert (Hacc : Forall (fun f => bytes_ok f /\ acceptable f = true) (mjoin (chunk_nalus <$> cs))).
  { apply Forall_and. split; [eapply Forall_impl; [exact Hf|]; by intros ? [? _]|done]. }
  destruct (chunks_accepted g Hg p0 l _ cs Hmax true Hfit Hacc d) as (d' & out & Eout & Hout & Hopen). specialize (Hout []). cbn [app] in Hout.
  exists this, this', sent, out, cs. split; [done|]. split; [done|]. split; [by eapply receive_sent|]. split; [done|]. split; [done|]. split; [by apply Hopen|].
  eapply (parse_all_ok g p0 (2 ^ 14) (payloads cs)); [done|lia|by eapply sent_bytes| |done]. eapply Forall_impl; [by eapply payloads_short|]. cbn beta. lia.
Qed.

(** Two units that share the only packet of the frame: the reduction for a single packet is not taken into account. *)
Lemma aggregate_single_reduction : let l := Limits 16 0 0 10 in let c := Many [0x61; 2; 3] [[0x61; 5; 6]] in
  exists this, RtpPacketizerH264.construct [0x61; 2; 3; 0x61; 5; 6] l NonInterleaved [(0, 3); (3, 3)] = Some this /\
    RtpPacketizerH264.NumPackets this = 1 /\ RtpPacketizerH264.packets_ this = chunk_units c /\
    len (mjoin (chunk_payloads c)) + single_packet_reduction_len l > max_payload_len l.
Proof. eexists. split; [vm_compute; reflexivity|]. by vm_compute. Qed.
