(* ===== verification/H264Tracker.v ===== *)
(** * Parameter sets and start codes on the receiving side

    Model of H264SpsPpsTracker in video/h264_sps_pps_tracker.h/.cc on the packets of video/packet.h: it remembers which
    parameter sets were received, asks for a key frame when a picture refers to one that was not, and copies the
    payload of a packet into a bit stream with start codes. *)

From stdpp Require Import gmap.
From S2P Require Import Prelude Buffer CowBuffer H264Common H264Params RtpPacket H264Packetizer H264Depacketizer.

Import H264.

Definition start_code_h264 : list Z := [0; 0; 0; 1].

(** The members of a packet that the tracker uses; a pointer is the bytes from it on. *)
Record VCMPacket := Packet { dataPtr : list Z; sizeBytes : Z; video_header : RTPVideoHeader }.

Module H264SpsPpsTracker.

Inductive PacketAction := kInsert | kDrop | kRequestKeyframe.

Record PpsInfo := Pps { pps_sps_id : Z; pps_size : Z; pps_data : option (list Z) }.
Record SpsInfo := Sps { sps_size : Z; sps_width : Z; sps_height : Z; sps_data : option (list Z) }.

(** The maps by [uint32_t]. *)
Record t := Tracker { pps_data_ : gmap Z PpsInfo; sps_data_ : gmap Z SpsInfo }.

Definition construct : t := Tracker ∅ ∅.

(** The variables of the loop over the NAL units; an iterator is the key of its entry, the end is [None]. *)
Record search := Search { tracker : t; header : RTPVideoHeader; append_sps_pps : bool; sps : option Z; pps : option Z }.

(** The entry of a map that [operator[]] returns. *)
Definition sps_entry (this : t) (id : Z) : SpsInfo := default (Sps 0 (-1) (-1) None) (sps_data_ this !! id).
Definition pps_entry (this : t) (id : Z) : PpsInfo := default (Pps (-1) 0 None) (pps_data_ this !! id).

Definition present {A} (data : option A) : bool := match data with Some _ => true | None => false end.

(** The body of the loop: false when it returns [kRequestKeyframe]. *)
Definition track_nalu (nalu : NaluInfo) (s : search) : option (bool * search) :=
  let this := tracker s in
  if type nalu =? kSps then
    let e := sps_entry this (u32 (sps_id nalu)) in
    let e := Sps (sps_size e) (width (header s)) (height (header s)) (sps_data e) in
    Some (true, Search (Tracker (pps_data_ this) (<[u32 (sps_id nalu) := e]> (sps_data_ this))) (header s) (append_sps_pps s) (sps s) (pps s))
  else if type nalu =? kPps then
    let e := pps_entry this (u32 (pps_id nalu)) in
    let e := Pps (sps_id nalu) (pps_size e) (pps_data e) in
    Some (true, Search (Tracker (<[u32 (pps_id nalu) := e]> (pps_data_ this)) (sps_data_ this)) (header s) (append_sps_pps s) (sps s) (pps s))
  else if type nalu =? kIdr then
    if negb (is_first_packet_in_frame (header s)) then Some (true, s) else
    if pps_id nalu =? -1 then Some (false, s) else
    match pps_data_ this !! u32 (pps_id nalu) with
    | None => Some (false, s)
    | Some p =>
        match sps_data_ this !! u32 (pps_sps_id p) with
        | None => Some (false, s)
        | Some e =>
            let v := set_resolution (sps_width e) (sps_height e) (header s) in
            append ← (if present (sps_data e) && present (pps_data p) then check ((0 <? sps_size e) && (0 <? pps_size p)) ;; Some true else Some (append_sps_pps s));
            Some (true, Search this v append (Some (u32 (pps_sps_id p))) (Some (u32 (pps_id nalu))))
        end
    end
  else Some (true, s).

Fixpoint track_nalus (nalus : list NaluInfo) (s : search) : option (bool * search) :=
  match nalus with
  | [] => Some (true, s)
  | nalu :: rest => '(ok, s) ← track_nalu nalu s; if ok : bool then track_nalus rest s else Some (false, s)
  end.

(** The length of the segment at an offset. *)
Definition segment_length (data : list Z) (offset : Z) : option Z :=
  b0 ← byte_at data offset; b1 ← byte_at data (offset + 1); Some (u16 (Z.lor (Z.shiftl b0 8) b1)).

(** The first loop over an aggregate, from an offset on. *)
Fixpoint stapa_size (fuel : nat) (data : list Z) (data_size offset : Z) (first : bool) : option Z :=
  if negb (offset <? data_size) then Some 0 else
  match fuel with
  | O => None
  | S fuel' =>
      check first ;;
      n ← segment_length data offset;
      rest ← stapa_size fuel' data data_size (offset + 2 + n) first;
      Some (len start_code_h264 + n + rest)
  end.

(** [memcpy] to [insert_at] and its increment. *)
Definition insert (bs : list Z) : W unit := at_index 0 (fun insert_at => memcpy insert_at bs) ;; advance (len bs).

(** [n] bytes of the source of a copy. *)
Definition source (data : list Z) (offset n : Z) : W (list Z) := fun s =>
  if offset + n <=? len data then Some (take (Z.to_nat n) (ptr_add data offset), s) else None.

Definition wlift {A} (m : option A) : W A := fun s => match m with Some a => Some (a, s) | None => None end.

(** The second loop: false when a segment leaves the packet. *)
Fixpoint stapa_copy (fuel : nat) (data : list Z) (data_size offset : Z) : W bool :=
  if negb (offset <? data_size) then mret true else
  match fuel with
  | O => abort
  | S fuel' =>
      insert start_code_h264 ;;
      n ← wlift (segment_length data offset);
      let offset := offset + 2 in
      if data_size <? offset + n then mret false else
      segment ← source data offset n;
      insert segment ;;
      stapa_copy fuel' data data_size (offset + n)
  end.

(** The parameter sets in front. *)
Definition insert_sets (e : SpsInfo) (p : PpsInfo) : W unit :=
  insert start_code_h264 ;;
  data ← source (default [] (sps_data e)) 0 (sps_size e); insert data ;;
  insert start_code_h264 ;;
  data ← source (default [] (pps_data p)) 0 (pps_size p); insert data.

(** The units that are noted for them. *)
Definition note_sets (sps_id pps_id : Z) (h : RTPVideoHeaderH264) : RTPVideoHeaderH264 :=
  if len (nalus h) + 2 <=? kMaxNalusPerPacket then
    H264Header (nalu_type h) (packetization_type h) (nalus h ++ [Nalu kSps (to_int sps_id) (-1); Nalu kPps (to_int sps_id) (to_int pps_id)]) (packetization_mode h)
  else h.

Definition is_stapa (h : RTPVideoHeaderH264) : bool := match packetization_type h with kH264StapA => true | _ => false end.

Definition is_h264 (v : RTPVideoHeader) : bool := match codec v with kVideoCodecH264 => true | _ => false end.

Section tracker.
(* The bytes fresh memory happens to hold. *)
Variable g : list Z.

Definition CopyAndFixBitstream (packet : VCMPacket) (this : t) : option (PacketAction * t * VCMPacket) :=
  check (is_h264 (video_header packet)) ;;
  let data := dataPtr packet in
  let data_size := sizeBytes packet in
  h264_header ← video_type_header (video_header packet);
  '(ok, s) ← track_nalus (nalus h264_header) (Search this (video_header packet) false None None);
  let this := tracker s in
  if negb ok then Some (kRequestKeyframe, this, Packet data data_size (header s)) else
  check (negb (append_sps_pps s) || (present (sps s) && present (pps s))) ;;
  let sps_key := default 0 (sps s) in
  let pps_key := default 0 (pps s) in
  let e := sps_entry this sps_key in
  let p := pps_entry this pps_key in
  let sets := if append_sps_pps s then sps_size e + len start_code_h264 + (pps_size p + len start_code_h264) else 0 in
  rest ← (if is_stapa h264_header then stapa_size (Z.to_nat data_size) data data_size 1 (is_first_packet_in_frame (header s))
          else Some ((if 0 <? len (nalus h264_header) then len start_code_h264 else 0) + data_size));
  let required_size := sets + rest in
  let h264_header := if append_sps_pps s then note_sets sps_key pps_key h264_header else h264_header in
  v ← on_h264 (fun _ => Some h264_header) (header s);
  '(ok, w) ← ((if append_sps_pps s then insert_sets e p else mret tt) ;;
     if is_stapa h264_header then stapa_copy (Z.to_nat data_size) data data_size 1
     else
       (if 0 <? len (nalus h264_header) then insert start_code_h264 else mret tt) ;;
       bs ← source data 0 data_size; insert bs ;; mret true) (WState (fresh_mem g required_size) 0 []);
  if negb ok then Some (kDrop, this, Packet data data_size v) else
  Some (kInsert, this, Packet (Buffer.packet w) required_size v).

End tracker.

Definition InsertSpsPpsNalus (sps pps : list Z) (this : t) : option t :=
  if len sps <? 1 then Some this else
  b ← byte_at sps 0;
  if negb (Z.land b 0x1f =? kSps) then Some this else
  if len pps <? 1 then Some this else
  b ← byte_at pps 0;
  if negb (Z.land b 0x1f =? kPps) then Some this else
  parsed_sps ← SpsParser.ParseSps (ptr_add sps 1) (len sps - 1);
  parsed_pps ← PpsParser.ParsePps (ptr_add pps 1) (len pps - 1);
  match parsed_sps, parsed_pps with
  | Some s, Some p =>
      let sps_info := Sps (len sps) (to_int (SpsParser.width s)) (to_int (SpsParser.height s)) (Some sps) in
      let pps_info := Pps (to_int (PpsParser.sps_id p)) (len pps) (Some pps) in
      Some (Tracker (<[PpsParser.id p := pps_info]> (pps_data_ this)) (<[SpsParser.id s := sps_info]> (sps_data_ this)))
  | _, _ => Some this
  end.

End H264SpsPpsTracker.
