(* ===== verification/H264Stream.v ===== *)
(** * From packets to the bit stream of the decoder

    The tracker of parameter sets refines an abstract set of known parameter sets; on what the depacketiser hands on it
    never reads outside and never drops.  The bit stream of a frame is its units behind start codes. *)

From stdpp Require Import gmap.
From S2P Require Import Prelude Buffer ByteIo CowBuffer BitCodec H264Common Packetize H264Params SpsSyntax SpsSafe RtpPacket RtpSpec RtpBuild RtpParse H264Packetizer H264Packets H264Send H264Depacketizer H264Receive H264Delivery H264Tracker.

Import H264 RtpPacketizer H264SpsPpsTracker.

(** ** Known parameter sets *)

(** The sets that were given out of band, by their ids. *)
Record out_of_band := OutOfBand { given_sps : gmap Z (list Z); given_pps : gmap Z (list Z) }.

(** Which sequence parameter set each known picture parameter set refers to, the known sequence parameter sets, and those given. *)
Record known := Known { pps_refs : gmap Z Z; sps_ids : gset Z; given : out_of_band }.

Definition abs (this : t) : known :=
  Known (pps_sps_id <$> pps_data_ this) (dom (sps_data_ this)) (OutOfBand (omap sps_data (sps_data_ this)) (omap pps_data (pps_data_ this))).

(** What a unit adds; [None] for a picture that refers to an unknown set. *)
Definition learn (first : bool) (n : NaluInfo) (k : known) : option known :=
  if type n =? kSps then Some (Known (pps_refs k) ({[u32 (sps_id n)]} ∪ sps_ids k) (given k))
  else if type n =? kPps then Some (Known (<[u32 (pps_id n) := sps_id n]> (pps_refs k)) (sps_ids k) (given k))
  else if (type n =? kIdr) && first then
    if pps_id n =? -1 then None else
    match pps_refs k !! u32 (pps_id n) with
    | Some s => if decide (u32 s ∈ sps_ids k) then Some k else None
    | None => None
    end
  else Some k.

Fixpoint learn_all (first : bool) (ns : list NaluInfo) (k : known) : option known :=
  match ns with [] => Some k | n :: rest => match learn first n k with Some k => learn_all first rest k | None => None end end.

(** The sets a picture at the start of a frame refers to: the keys of its sequence and of its picture parameter set. *)
Definition refer (first : bool) (n : NaluInfo) (k : known) : list (Z * Z) :=
  if (type n =? kIdr) && first then match pps_refs k !! u32 (pps_id n) with Some s => [(u32 s, u32 (pps_id n))] | None => [] end else [].

Fixpoint references (first : bool) (ns : list NaluInfo) (k : known) : list (Z * Z) :=
  match ns with [] => [] | n :: rest => match learn first n k with Some k' => refer first n k ++ references first rest k' | None => [] end end.

(** Both sets were given. *)
Definition both_given (o : out_of_band) (r : Z * Z) : bool := present (given_sps o !! r.1) && present (given_pps o !! r.2).

(** What goes in front of a packet whose pictures refer to [refs]: if both sets of some picture were given, the given sets of the last one. *)
Definition prepended (o : out_of_band) (refs : list (Z * Z)) : list (list Z) :=
  match last refs with
  | Some r => if existsb (both_given o) refs then [default [] (given_sps o !! r.1); default [] (given_pps o !! r.2)] else []
  | None => []
  end.

(** ** The invariant *)

(** A set that was given out of band is there with its size. *)
Definition stored_ok (size : Z) (data : option (list Z)) : Prop :=
  match data with Some d => size = len d /\ d <> [] /\ bytes_ok d | None => size = 0 end.

Definition tracker_ok (this : t) : Prop :=
  map_Forall (fun _ e => stored_ok (sps_size e) (sps_data e)) (sps_data_ this) /\
  map_Forall (fun _ e => stored_ok (pps_size e) (pps_data e)) (pps_data_ this).

(** No set was given out of band. *)
Definition in_band (this : t) : Prop := given_sps (given (abs this)) = ∅.

Lemma sps_entry_ok this k : tracker_ok this -> stored_ok (sps_size (sps_entry this k)) (sps_data (sps_entry this k)).
Proof. intros [Hs _]. unfold sps_entry. destruct (sps_data_ this !! k) as [e|] eqn:E; [exact (Hs k e E)|done]. Qed.

Lemma pps_entry_ok this k : tracker_ok this -> stored_ok (pps_size (pps_entry this k)) (pps_data (pps_entry this k)).
Proof. intros [_ Hp]. unfold pps_entry. destruct (pps_data_ this !! k) as [e|] eqn:E; [exact (Hp k e E)|done]. Qed.

Lemma sps_entry_given this k : sps_data (sps_entry this k) = given_sps (given (abs this)) !! k.
Proof. cbn. rewrite lookup_omap. unfold sps_entry. by destruct (sps_data_ this !! k). Qed.

Lemma pps_entry_given this k : pps_data (pps_entry this k) = given_pps (given (abs this)) !! k.
Proof. cbn. rewrite lookup_omap. unfold pps_entry. by destruct (pps_data_ this !! k). Qed.

(** An entry that keeps its optional part. *)
Lemma omap_insert_same {A B} (f : A -> option B) (m : gmap Z A) i x : f x = omap f m !! i -> omap f (<[i := x]> m) = omap f m.
Proof.
  intros Hx. apply map_eq. intros j. rewrite lookup_omap. destruct (decide (j = i)) as [->|Hne].
  - by rewrite lookup_insert_eq.
  - by rewrite lookup_insert_ne, lookup_omap by done.
Qed.

Lemma in_band_prepended this refs : in_band this -> prepended (given (abs this)) refs = [].
Proof.
  intros Hb. unfold prepended. destruct (last refs) as [r|]; [|done]. replace (existsb _ refs) with false; [done|]. symmetry.
  induction refs as [|x refs IH]; [done|]. cbn [existsb]. unfold both_given at 1. rewrite Hb, lookup_empty. destruct refs as [|y refs]; [done|]. by apply IH.
Qed.

(** What the loop over the units keeps. *)
Record search_ok (v : RTPVideoHeader) (s : search) : Prop := {
  s_tracker : tracker_ok (tracker s);
  s_h264 : video_type_header (header s) = video_type_header v;
  s_first : is_first_packet_in_frame (header s) = is_first_packet_in_frame v;
  s_codec : codec (header s) = codec v
}.

(** The variables of the loop after pictures that refer to [refs]. *)
Definition points (refs : list (Z * Z)) (s : search) : Prop :=
  sps s = fst <$> last refs /\ pps s = snd <$> last refs /\ append_sps_pps s = existsb (both_given (given (abs (tracker s)))) refs.

Definition tracked (n : NaluInfo) (s : search) (ok : bool) (s' : search) : Prop :=
  given (abs (tracker s')) = given (abs (tracker s)) /\
  match learn (is_first_packet_in_frame (header s)) n (abs (tracker s)) with
  | Some k => ok = true /\ abs (tracker s') = k /\
      forall refs, points refs s -> points (refs ++ refer (is_first_packet_in_frame (header s)) n (abs (tracker s))) s'
  | None => ok = false
  end.

Lemma points_same refs s s' : given (abs (tracker s')) = given (abs (tracker s)) -> sps s' = sps s -> pps s' = pps s -> append_sps_pps s' = append_sps_pps s ->
  points refs s -> points (refs ++ []) s'.
Proof. intros Hg Hs Hp Ha (H1 & H2 & H3). rewrite app_nil_r. unfold points. by rewrite Hg, Hs, Hp, Ha. Qed.

Lemma track_sps v n s : search_ok v s -> type n = kSps -> exists s', track_nalu n s = Some (true, s') /\ search_ok v s' /\ tracked n s true s'.
Proof.
  intros [Ht Hh Hf Hc] Hn. unfold track_nalu. rewrite Hn, Z.eqb_refl. eexists. split; [done|]. set (key := u32 (sps_id n)).
  pose proof (sps_entry_ok (tracker s) key Ht) as He. set (e := Sps _ _ _ _).
  assert (Hgiven : omap sps_data (<[key := e]> (sps_data_ (tracker s))) = omap sps_data (sps_data_ (tracker s))) by (apply omap_insert_same, (sps_entry_given (tracker s))).
  split; [split; try done|].
  - destruct Ht as [Hts Htp]. split; [|done]. by apply map_Forall_insert_2.
  - split; [unfold abs; cbn [given tracker sps_data_ pps_data_]; by rewrite Hgiven|]. unfold learn, refer. rewrite Hn, Z.eqb_refl. split; [done|]. split.
    + unfold abs. cbn [tracker sps_data_ pps_data_ pps_refs sps_ids given]. by rewrite dom_insert_L, Hgiven.
    + intros refs. apply points_same; try done. unfold abs. cbn [given tracker sps_data_ pps_data_]. by rewrite Hgiven.
Qed.

Lemma track_pps v n s : search_ok v s -> type n = kPps -> exists s', track_nalu n s = Some (true, s') /\ search_ok v s' /\ tracked n s true s'.
Proof.
  intros [Ht Hh Hf Hc] Hn. unfold track_nalu. rewrite Hn. change (kPps =? kSps) with false. rewrite Z.eqb_refl. eexists. split; [done|]. set (key := u32 (pps_id n)). set (e := Pps _ _ _).
  assert (Hgiven : omap pps_data (<[key := e]> (pps_data_ (tracker s))) = omap pps_data (pps_data_ (tracker s))) by (apply omap_insert_same, (pps_entry_given (tracker s))).
  split; [split; try done|].
  - destruct Ht as [Hts Htp]. split; [done|]. apply map_Forall_insert_2; [|done]. by apply pps_entry_ok.
  - split; [unfold abs; cbn [given tracker sps_data_ pps_data_]; by rewrite Hgiven|]. unfold learn, refer. rewrite Hn. change (kPps =? kSps) with false. rewrite Z.eqb_refl. split; [done|]. split.
    + unfold abs. cbn [tracker sps_data_ pps_data_ pps_refs sps_ids given]. by rewrite fmap_insert, Hgiven.
    + intros refs. apply points_same; try done. unfold abs. cbn [given tracker sps_data_ pps_data_]. by rewrite Hgiven.
Qed.

(** One more picture. *)
Lemma points_picture refs s s' sk pk : tracker s' = tracker s -> sps s' = Some sk -> pps s' = Some pk ->
  append_sps_pps s' = (both_given (given (abs (tracker s))) (sk, pk) || append_sps_pps s) -> points refs s -> points (refs ++ [(sk, pk)]) s'.
Proof.
  intros Ht Hs Hp Ha (_ & _ & H). unfold points. rewrite last_snoc, Ht, Hs, Hp, Ha, H, existsb_app. cbn [existsb]. rewrite orb_false_r. split; [done|]. split; [done|]. apply orb_comm.
Qed.

Lemma track_idr v n s : search_ok v s -> type n = kIdr -> exists ok s', track_nalu n s = Some (ok, s') /\ search_ok v s' /\ tracked n s ok s'.
Proof.
  intros Hok Hn. pose proof Hok as [Ht Hh Hf Hc]. unfold track_nalu, tracked, learn, refer. rewrite Hn. change (kIdr =? kSps) with false. change (kIdr =? kPps) with false. rewrite Z.eqb_refl.
  destruct (is_first_packet_in_frame (header s)) eqn:Ef; cbn [negb andb].
  2:{ exists true, s. split; [done|]. split; [done|]. split; [done|]. split; [done|]. split; [done|]. intros refs. by apply points_same. }
  destruct (pps_id n =? -1); [by exists false, s|]. change (pps_refs (abs (tracker s))) with (pps_sps_id <$> pps_data_ (tracker s)). rewrite lookup_fmap.
  destruct (pps_data_ (tracker s) !! u32 (pps_id n)) as [p|] eqn:Ep; cbn [fmap option_fmap option_map].
  2:{ by exists false, s. }
  change (sps_ids (abs (tracker s))) with (dom (sps_data_ (tracker s))). destruct (sps_data_ (tracker s) !! u32 (pps_sps_id p)) as [e|] eqn:Es.
  2:{ exists false, s. split; [done|]. split; [done|]. split; [done|]. rewrite decide_False; [done|]. by apply not_elem_of_dom. }
  rewrite decide_True by (by eapply elem_of_dom_2). destruct Ht as [Hts Htp]. pose proof (Hts _ _ Es) as He. pose proof (Htp _ _ Ep) as Hp. cbn beta in He, Hp.
  assert (Hboth : both_given (given (abs (tracker s))) (u32 (pps_sps_id p), u32 (pps_id n)) = present (sps_data e) && present (pps_data p)).
  { unfold both_given. cbn. by rewrite !lookup_omap, Es, Ep. }
  destruct (present (sps_data e) && present (pps_data p)) eqn:Ed.
  - apply andb_true_iff in Ed as [Ed1 Ed2]. destruct (sps_data e) as [de|]; [|done]. destruct (pps_data p) as [dp|]; [|done]. destruct He as (-> & Hde & _). destruct Hp as (-> & Hdp & _).
    apply nonempty_len in Hde, Hdp. rewrite !(proj2 (Z.ltb_lt 0 _)) by done. cbn [andb check mbind option_bind]. eexists true, _. split; [done|].
    split; [split; [done|done|exact (eq_trans Ef Hf)|done]|]. split; [done|]. split; [done|]. split; [done|]. intros refs. apply points_picture; try done. by rewrite Hboth.
  - cbn [mbind option_bind]. eexists true, _. split; [done|]. split; [split; [done|done|exact (eq_trans Ef Hf)|done]|]. split; [done|]. split; [done|]. split; [done|].
    intros refs. apply points_picture; try done. by rewrite Hboth.
Qed.

Lemma track_nalu_ok v n s : search_ok v s -> exists ok s', track_nalu n s = Some (ok, s') /\ search_ok v s' /\ tracked n s ok s'.
Proof.
  intros Hok. destruct (decide (type n = kSps)) as [Hs|Hs]; [destruct (track_sps v n s Hok Hs) as (s' & H); by exists true, s'|].
  destruct (decide (type n = kPps)) as [Hp|Hp]; [destruct (track_pps v n s Hok Hp) as (s' & H); by exists true, s'|].
  destruct (decide (type n = kIdr)) as [Hi|Hi]; [by apply track_idr|]. exists true, s. unfold track_nalu, tracked, learn, refer.
  rewrite (proj2 (Z.eqb_neq _ _) Hs), (proj2 (Z.eqb_neq _ _) Hp), (proj2 (Z.eqb_neq _ _) Hi). cbn [andb].
  do 4 (split; [done|]). split; [done|]. intros refs. by apply points_same.
Qed.

Lemma track_nalus_ok v ns : forall s refs, search_ok v s -> points refs s -> exists ok s', track_nalus ns s = Some (ok, s') /\ search_ok v s' /\
  given (abs (tracker s')) = given (abs (tracker s)) /\
  match learn_all (is_first_packet_in_frame v) ns (abs (tracker s)) with
  | Some k => ok = true /\ abs (tracker s') = k /\ points (refs ++ references (is_first_packet_in_frame v) ns (abs (tracker s))) s'
  | None => ok = false
  end.
Proof.
  induction ns as [|n ns IH]; intros s refs Hs Hr; [exists true, s; cbn [references]; by rewrite app_nil_r|].
  destruct (track_nalu_ok v n s Hs) as (ok & s1 & E1 & Hs1 & Hb1 & Hl1). rewrite (s_first _ _ Hs) in Hl1.
  cbn [track_nalus learn_all references]. rewrite E1. cbn [mbind option_bind]. destruct (learn _ n _) as [k|]; [destruct Hl1 as (-> & Hk & Hp)|subst ok; by exists false, s1].
  destruct (IH s1 _ Hs1 (Hp _ Hr)) as (ok & s2 & E2 & Hs2 & Hb2 & Hl2). exists ok, s2. rewrite Hk in Hl2. rewrite <- app_assoc in Hl2. split; [done|]. split; [done|]. split; [by rewrite Hb2|done].
Qed.

(** ** Writing the stream *)

(** [m] returns [a] and appends [bs]. *)
Definition yields {A} (m : W A) (a : A) (bs : list Z) : Prop :=
  forall s, 0 <= index s -> index s + len bs <= len (Buffer.packet s) -> m s = Some (a, append bs s).

Lemma append_nil s : append [] s = s.
Proof. unfold append. rewrite splice_nil, len_nil, Z.add_0_r. by destruct s. Qed.

Lemma yields_ret {A} (a : A) : yields (mret a) a [].
Proof. intros s _ _. by rewrite append_nil. Qed.

Lemma yields_bind {A B} (m : W A) (k : A -> W B) a b x y z : yields m a x -> yields (k a) b y -> z = x ++ y -> yields (m ≫= k) b z.
Proof.
  intros Hm Hk -> s H1 H2. rewrite len_app in H2. pose proof (len_nonneg x). pose proof (len_nonneg y). rewrite (ST_bind_ret _ _ _ _ _ (Hm s H1 ltac:(lia))).
  rewrite Hk by (cbn; rewrite ?len_splice; lia). unfold append. cbn. rewrite splice_splice, len_app, Z.add_assoc by lia. done.
Qed.

Lemma yields_insert bs : bytes_ok bs -> yields (insert bs) tt bs.
Proof. intros Hb. apply appends_writes; [|done]. apply writes_at_index. intros p. by apply stores_memcpy. Qed.

Lemma yields_pure {A} (m : W A) a : (forall s, m s = Some (a, s)) -> yields m a [].
Proof. intros H s _ _. by rewrite H, append_nil. Qed.

Lemma yields_source data offset n bs : offset + n <= len data -> take (Z.to_nat n) (ptr_add data offset) = bs -> yields (source data offset n) bs [].
Proof. intros Hl <-. apply yields_pure. intros s. unfold source. by rewrite (proj2 (Z.leb_le _ _)). Qed.

(** The buffer of a computation that fills it. *)
Lemma yields_fill {A} (m : W A) a bs g : yields m a bs -> exists w, m (WState (fresh_mem g (len bs)) 0 []) = Some (a, w) /\ Buffer.packet w = bs.
Proof.
  intros Hm. pose proof (len_nonneg bs). assert (Hl : len (fresh_mem g (len bs)) = len bs) by (by apply len_fresh_mem).
  eexists. split; [apply Hm; cbn [index Buffer.packet]; lia|]. cbn [append Buffer.packet index]. by apply splice_all.
Qed.

Lemma start_code_ok : bytes_ok start_code_h264.
Proof. by_compute. Qed.

(** Units behind start codes. *)
Definition stream (units : list (list Z)) : list Z := mjoin ((fun u => start_code_h264 ++ u) <$> units).

Lemma stream_cons u units : stream (u :: units) = start_code_h264 ++ u ++ stream units.
Proof. unfold stream. rewrite mjoin_fmap_cons. by rewrite <- app_assoc. Qed.

Lemma segment_spec pre n rest : 0 <= n < 2 ^ 16 -> segment_length (pre ++ be_bytes 2 n ++ rest) (len pre) = Some n.
Proof.
  intros Hn. pose proof (ReadBigEndian_bytes 16 2 n rest) as E. unfold segment_length. set (data := pre ++ _).
  assert (Ep : ptr_add data (len pre) = be_bytes 2 n ++ rest) by apply ptr_add_mid.
  rewrite <- Ep in E. cbn [ByteReader.ReadBigEndian] in E. unfold ByteReader.ReadBigEndian2 in E. pose proof (len_nonneg pre).
  rewrite <- (byte_at_drop data (len pre) 0), <- (byte_at_drop data (len pre) 1), Z.add_0_r in E by lia. apply E; [done|exact Hn].
Qed.

Section aggregate.
Context (first : bool) (Hfirst : first = true).

Lemma stapa_size_spec units : forall fuel pre, Forall (fun u => len u < 2 ^ 16) units -> len (entries units) <= Z.of_nat fuel ->
  let data := pre ++ entries units in stapa_size fuel data (len data) (len pre) first = Some (len (stream units)).
Proof using Hfirst.
  induction units as [|u units IH]; intros fuel pre Hs Hfuel data.
  { assert (Ed : len data = len pre) by (subst data; rewrite len_app; change (len (entries [])) with 0; lia). rewrite Ed. destruct fuel; cbn [stapa_size]; rewrite Z.ltb_irrefl; done. }
  apply Forall_cons in Hs as [Hu Hs]. rewrite entries_cons, len_app, len_stapa_entry in Hfuel. pose proof (len_nonneg u). pose proof (len_nonneg (entries units)).
  destruct fuel as [|fuel]; [lia|]. cbn [stapa_size].
  assert (Ed : data = (pre ++ stapa_entry u) ++ entries units) by (subst data; by rewrite entries_cons, <- app_assoc).
  assert (El : len data = len pre + 2 + len u + len (entries units)) by (rewrite Ed, !len_app, len_stapa_entry; lia).
  rewrite (proj2 (Z.ltb_lt (len pre) (len data))) by lia. cbn [negb]. rewrite Hfirst. cbn [check mbind option_bind].
  assert (Es : segment_length data (len pre) = Some (len u)).
  { subst data. rewrite entries_cons. unfold stapa_entry. rewrite <- app_assoc. apply segment_spec. lia. }
  rewrite Es. cbn [mbind option_bind]. replace (len pre + 2 + len u) with (len (pre ++ stapa_entry u)) by (rewrite len_app, len_stapa_entry; lia).
  rewrite Hfirst in IH. rewrite Ed, IH by (done || lia). cbn [mbind option_bind]. f_equal. rewrite stream_cons, !len_app. lia.
Qed.

Lemma stapa_copy_spec units : forall fuel pre, Forall (fun u => len u < 2 ^ 16) units -> bytes_ok (entries units) -> len (entries units) <= Z.of_nat fuel ->
  let data := pre ++ entries units in yields (stapa_copy fuel data (len data) (len pre)) true (stream units).
Proof using Type.
  clear Hfirst. induction units as [|u units IH]; intros fuel pre Hs Hb Hfuel data.
  { assert (Ed : len data = len pre) by (subst data; rewrite len_app; change (len (entries [])) with 0; lia). rewrite Ed. destruct fuel; cbn [stapa_copy]; rewrite Z.ltb_irrefl; apply yields_ret. }
  apply Forall_cons in Hs as [Hu Hs]. rewrite entries_cons, len_app, len_stapa_entry in Hfuel. pose proof (len_nonneg u). pose proof (len_nonneg (entries units)).
  rewrite entries_cons, bytes_ok_app in Hb. destruct Hb as [Hbu Hb]. unfold stapa_entry in Hbu. apply bytes_ok_app in Hbu as [_ Hbu].
  destruct fuel as [|fuel]; [lia|]. cbn [stapa_copy].
  assert (Ed : data = (pre ++ stapa_entry u) ++ entries units) by (subst data; by rewrite entries_cons, <- app_assoc).
  assert (El : len data = len pre + 2 + len u + len (entries units)) by (rewrite Ed, !len_app, len_stapa_entry; lia).
  rewrite (proj2 (Z.ltb_lt (len pre) (len data))) by lia. cbn [negb].
  assert (Es : segment_length data (len pre) = Some (len u)).
  { subst data. rewrite entries_cons. unfold stapa_entry. rewrite <- app_assoc. apply segment_spec. lia. }
  rewrite stream_cons. eapply yields_bind; [apply yields_insert, start_code_ok| |done].
  eapply yields_bind; [apply yields_pure; intros s; unfold wlift; by rewrite Es| |done].
  rewrite (proj2 (Z.ltb_ge (len data) (len pre + 2 + len u))) by lia.
  eapply yields_bind; [apply (yields_source data (len pre + 2) (len u) u)| |done].
  - lia.
  - replace data with ((pre ++ be_bytes 2 (len u)) ++ u ++ entries units) by (rewrite Ed; unfold stapa_entry; by rewrite <- !app_assoc).
    replace (len pre + 2) with (len (pre ++ be_bytes 2 (len u))) by (by rewrite len_app, len_be_bytes). rewrite ptr_add_mid. apply take_prefix.
  - eapply yields_bind; [by apply yields_insert| |done]. replace (len pre + 2 + len u) with (len (pre ++ stapa_entry u)) by (rewrite len_app, len_stapa_entry; lia).
    rewrite Ed. apply IH; [done|done|lia].
Qed.
End aggregate.

(** ** The packet *)

(** What the tracker relies on. *)
Record packet_ok (packet : VCMPacket) (h : RTPVideoHeaderH264) : Prop := {
  k_codec : codec (video_header packet) = kVideoCodecH264;
  k_h264 : video_type_header (video_header packet) = Some h;
  k_size : sizeBytes packet = len (dataPtr packet);
  k_bytes : bytes_ok (dataPtr packet);
  k_units : is_stapa h = true -> is_first_packet_in_frame (video_header packet) = true /\
    exists b units, dataPtr packet = b :: entries units /\ Forall (fun u => len u < 2 ^ 16) units
}.

(** The payload with start codes: none in front of the next part of a unit. *)
Definition body (h : RTPVideoHeaderH264) (data : list Z) : list Z :=
  if is_stapa h then stream (split_entries (length data) (drop 1 data)) else (if 0 <? len (nalus h) then start_code_h264 else []) ++ data.

Lemma note_stapa sk pk h : is_stapa (note_sets sk pk h) = is_stapa h.
Proof. unfold note_sets. by destruct (_ <=? _). Qed.

Lemma note_units sk pk h : 0 < len (nalus h) -> 0 < len (nalus (note_sets sk pk h)).
Proof. intros Hl. unfold note_sets. destruct (_ <=? _); [|done]. cbn [nalus]. rewrite len_app. pose proof (len_nonneg [Nalu kSps (to_int sk) (-1); Nalu kPps (to_int sk) (to_int pk)]). lia. Qed.

(** The sets in front of the stream. *)
Definition set_units (append : bool) (e : SpsInfo) (p : PpsInfo) : list (list Z) :=
  if append then [default [] (sps_data e); default [] (pps_data p)] else [].

(** The loop leaves the right sets. *)
Lemma points_present refs s : points refs s -> append_sps_pps s = true -> present (sps s) = true /\ present (pps s) = true.
Proof. intros (-> & -> & ->). destruct (last refs) as [r|] eqn:E; [done|]. apply last_None in E as ->. done. Qed.

Lemma prepended_points refs s o : points refs s -> given (abs (tracker s)) = o ->
  prepended o refs = set_units (append_sps_pps s) (sps_entry (tracker s) (default 0 (sps s))) (pps_entry (tracker s) (default 0 (pps s))).
Proof.
  intros (-> & -> & ->) <-. unfold prepended, set_units. destruct (last refs) as [r|] eqn:E; [|apply last_None in E as ->; done].
  cbn [fmap option_fmap option_map default]. by rewrite sps_entry_given, pps_entry_given.
Qed.

Lemma stored_len size data : stored_ok size data -> size = len (default [] data) /\ bytes_ok (default [] data).
Proof. destruct data as [d|]; cbn; [by intros (-> & _ & ?)|intros ->; split; [done|constructor]]. Qed.

Lemma sets_size (append : bool) e p : stored_ok (sps_size e) (sps_data e) -> stored_ok (pps_size p) (pps_data p) ->
  (if append then sps_size e + len start_code_h264 + (pps_size p + len start_code_h264) else 0) = len (stream (set_units append e p)).
Proof.
  intros [-> _]%stored_len [-> _]%stored_len. destruct append; [|done]. cbn [set_units]. rewrite !stream_cons, !len_app. change (len (stream [])) with 0. lia.
Qed.

Lemma take_whole (d : list Z) : take (Z.to_nat (len d)) (ptr_add d 0) = d.
Proof. rewrite ptr_add_0. unfold len. by rewrite Nat2Z.id, firstn_all. Qed.

Lemma yields_sets (append : bool) e p : stored_ok (sps_size e) (sps_data e) -> stored_ok (pps_size p) (pps_data p) ->
  yields (if append then insert_sets e p else mret tt) tt (stream (set_units append e p)).
Proof.
  intros [Es Hs]%stored_len [Ep Hp]%stored_len. destruct append; [|apply yields_ret]. cbn [set_units]. rewrite !stream_cons. unfold insert_sets. rewrite Es, Ep.
  eapply yields_bind; [apply yields_insert, start_code_ok| |done]. eapply yields_bind; [apply yields_source; [lia|apply take_whole]| |done].
  eapply yields_bind; [by apply yields_insert| |done]. eapply yields_bind; [apply yields_insert, start_code_ok| |done].
  change (stream []) with (@nil Z). rewrite app_nil_r. eapply yields_bind; [apply yields_source; [lia|apply take_whole]|by apply yields_insert|done].
Qed.

(** The size of the rest and what is copied for it. *)
Lemma body_size packet h : packet_ok packet h ->
  (if is_stapa h then stapa_size (Z.to_nat (sizeBytes packet)) (dataPtr packet) (sizeBytes packet) 1 (is_first_packet_in_frame (video_header packet))
   else Some ((if 0 <? len (nalus h) then len start_code_h264 else 0) + sizeBytes packet)) = Some (len (body h (dataPtr packet))).
Proof.
  intros [_ _ Hsz Hb Hu]. unfold body. rewrite Hsz. destruct (is_stapa h).
  - destruct (Hu eq_refl) as (Hf & b & units & Ed & Hl). rewrite Ed in *. change (drop 1 (b :: entries units)) with (entries units).
    rewrite (split_entries_ok units Hl) by (cbn [length]; lia). pose proof (len_nonneg (entries units)).
    apply (stapa_size_spec _ Hf units _ [b] Hl). rewrite len_cons. lia.
  - rewrite len_app. by destruct (0 <? len (nalus h)).
Qed.

Lemma yields_body packet h n : packet_ok packet h -> (0 <? n) = (0 <? len (nalus h)) ->
  yields (if is_stapa h then stapa_copy (Z.to_nat (sizeBytes packet)) (dataPtr packet) (sizeBytes packet) 1
     else (if 0 <? n then insert start_code_h264 else mret tt) ;; bs ← source (dataPtr packet) 0 (sizeBytes packet); insert bs ;; mret true) true (body h (dataPtr packet)).
Proof.
  intros [_ _ Hsz Hb Hu] ->. unfold body. rewrite Hsz. destruct (is_stapa h).
  - destruct (Hu eq_refl) as (Hf & b & units & Ed & Hl). rewrite Ed in *. change (drop 1 (b :: entries units)) with (entries units).
    rewrite (split_entries_ok units Hl) by (cbn [length]; lia). pose proof (len_nonneg (entries units)). apply Forall_cons in Hb as [_ Hb].
    apply (stapa_copy_spec units _ [b] Hl Hb). rewrite len_cons. lia.
  - eapply (yields_bind _ _ tt true (if 0 <? len (nalus h) then start_code_h264 else []) (dataPtr packet)); [destruct (0 <? len (nalus h)); [apply yields_insert, start_code_ok|apply yields_ret]| |done].
    eapply (yields_bind _ _ (dataPtr packet) true [] (dataPtr packet)); [apply yields_source; [lia|apply take_whole]| |done].
    eapply (yields_bind _ _ tt true (dataPtr packet) []); [by apply yields_insert|apply yields_ret|by rewrite app_nil_r].
Qed.

(** One packet. *)
Lemma copy_ok g packet h this : tracker_ok this -> packet_ok packet h ->
  exists action this' packet', CopyAndFixBitstream g packet this = Some (action, this', packet') /\ tracker_ok this' /\ given (abs this') = given (abs this) /\
  match learn_all (is_first_packet_in_frame (video_header packet)) (nalus h) (abs this) with
  | None => action = kRequestKeyframe /\ dataPtr packet' = dataPtr packet
  | Some k => action = kInsert /\ abs this' = k /\ sizeBytes packet' = len (dataPtr packet') /\
      dataPtr packet' = stream (prepended (given (abs this)) (references (is_first_packet_in_frame (video_header packet)) (nalus h) (abs this))) ++ body h (dataPtr packet)
  end.
Proof.
  intros Ht Hp. pose proof Hp as [Hc Hh Hsz Hb Hu]. unfold CopyAndFixBitstream, is_h264. rewrite Hc, Hh. cbn [check mbind option_bind].
  set (s0 := Search this (video_header packet) false None None). assert (Hs0 : search_ok (video_header packet) s0) by (by split).
  destruct (track_nalus_ok (video_header packet) (nalus h) s0 [] Hs0) as (ok & s & E & Hs & Hgiven & Hl); [done|]. rewrite E. cbn [mbind option_bind]. change (tracker s0) with this in *.
  destruct (learn_all _ (nalus h) (abs this)) as [k|]; [destruct Hl as (-> & Hk & Hrefs)|subst ok; eexists _, _, _; split; [done|]; split; [apply Hs|]; done].
  cbn [negb app] in *. destruct Hs as [Htr Hh264 Hfirst Hcodec]. rewrite (prepended_points _ s _ Hrefs Hgiven). pose proof (points_present _ s Hrefs) as Hsets.
  assert (Hpres : (negb (append_sps_pps s) || present (sps s) && present (pps s)) = true) by (destruct (append_sps_pps s); [destruct (Hsets eq_refl) as [-> ->]|]; done).
  rewrite Hpres. cbn [check mbind option_bind]. set (sk := default 0 (sps s)). set (pk := default 0 (pps s)). set (e := sps_entry (tracker s) sk). set (p := pps_entry (tracker s) pk).
  pose proof (sps_entry_ok (tracker s) sk Htr) as He. pose proof (pps_entry_ok (tracker s) pk Htr) as Hpe. fold e in He. fold p in Hpe.
  rewrite (sets_size (append_sps_pps s) e p He Hpe), Hfirst, (body_size packet h Hp). cbn [mbind option_bind]. rewrite <- len_app.
  set (h' := if append_sps_pps s then note_sets sk pk h else h).
  assert (Hst : is_stapa h' = is_stapa h) by (subst h'; destruct (append_sps_pps s); [apply note_stapa|done]).
  assert (Hn : (0 <? len (nalus h')) = (0 <? len (nalus h))).
  { subst h'. destruct (append_sps_pps s) eqn:Ea; [|done]. destruct (nalus h) as [|n ns] eqn:En; [injection E as <-; done|].
    assert (Hpos : 0 < len (nalus h)) by (rewrite En, len_cons; pose proof (len_nonneg ns); lia). pose proof (note_units sk pk h Hpos). rewrite <- En. by rewrite !(proj2 (Z.ltb_lt 0 _)). }
  unfold on_h264. rewrite Hh264, Hh. cbn [mbind option_bind]. rewrite Hst.
  assert (Hy : yields ((if append_sps_pps s then insert_sets e p else mret tt) ;;
     if is_stapa h then stapa_copy (Z.to_nat (sizeBytes packet)) (dataPtr packet) (sizeBytes packet) 1
     else (if 0 <? len (nalus h') then insert start_code_h264 else mret tt) ;; bs ← source (dataPtr packet) 0 (sizeBytes packet); insert bs ;; mret true) true
     (stream (set_units (append_sps_pps s) e p) ++ body h (dataPtr packet))).
  { eapply yields_bind; [by apply yields_sets|by apply yields_body|done]. }
  destruct (yields_fill _ _ _ g Hy) as (w & Ew & Hw). rewrite Ew. cbn [mbind option_bind negb].
  eexists kInsert, (tracker s), _. split; [done|]. split; [done|]. split; [done|]. split; [done|]. split; [done|].
  cbn [dataPtr sizeBytes]. by rewrite Hw.
Qed.

(** ** What the depacketiser hands on *)

Definition to_packet (p : ParsedPayload) : VCMPacket := Packet (payload p) (payload_length p) (video p).

Lemma parsed_packet n p : n <= 2 ^ 14 -> payload_ok n p -> exists h, packet_ok (to_packet p) h /\ shape n h p.
Proof.
  intros Hn (Hl & Hb & h & Hv & Hs). exists h. split; [|done]. destruct Hv as [Hh Hc _ _ _ _ _ _]. split; try done. cbn [to_packet video_header dataPtr]. unfold shape in Hs. unfold is_stapa.
  destruct (packetization_type h); try done. intros _. destruct Hs as (Hf & b & units & Ep & _ & Hu). split; [done|]. exists b, units. split; [done|].
  eapply Forall_impl; [exact Hu|]. cbn beta. intros u [_ Hlu]. lia.
Qed.

(** The sets given out of band. *)
Definition learn_sets (sps pps : list Z) (k : known) : known :=
  match SpsParser.ParseSps (drop 1 sps) (len sps - 1), PpsParser.ParsePps (drop 1 pps) (len pps - 1) with
  | Some (Some s), Some (Some p) =>
      if (0 <? len sps) && (nal_type sps =? kSps) && (0 <? len pps) && (nal_type pps =? kPps)
      then Known (<[PpsParser.id p := to_int (PpsParser.sps_id p)]> (pps_refs k)) ({[SpsParser.id s]} ∪ sps_ids k)
        (OutOfBand (<[SpsParser.id s := sps]> (given_sps (given k))) (<[PpsParser.id p := pps]> (given_pps (given k)))) else k
  | _, _ => k
  end.

Lemma insert_ok sps pps this : tracker_ok this -> bytes_ok sps -> bytes_ok pps -> len sps < 2 ^ 31 -> len pps < 2 ^ 31 ->
  exists this', InsertSpsPpsNalus sps pps this = Some this' /\ tracker_ok this' /\ abs this' = learn_sets sps pps (abs this).
Proof.
  intros Ht Hs Hp Hls Hlp. unfold InsertSpsPpsNalus, learn_sets.
  assert (Hsame : exists this', Some this = Some this' /\ tracker_ok this' /\ abs this' = abs this) by (by exists this).
  destruct sps as [|bs sps]; [change (len [] <? 1) with true; cbn [len length]; by repeat case_match|]. rewrite len_cons in *. pose proof (len_nonneg sps).
  rewrite (proj2 (Z.ltb_ge _ 1)), (proj2 (Z.ltb_lt 0 _)) by lia. change (byte_at (bs :: sps) 0) with (Some bs). cbn [mbind option_bind].
  change (nal_type (bs :: sps)) with (Z.land bs 0x1f). replace (1 + len sps - 1) with (len sps) by lia. change (drop 1 (bs :: sps)) with sps. change (ptr_add (bs :: sps) 1) with sps.
  pose proof Hs as Hs0. apply Forall_cons in Hs as [_ Hs].
  destruct (on_rbsp_total SpsParser.ParseSpsUpToVui sps (len sps) safe_ParseSps Hs ltac:(lia) ltac:(lia)) as (os & Es). change (SpsParser.ParseSps sps (len sps) = Some os) in Es. rewrite Es.
  destruct (Z.land bs 0x1f =? kSps); cbn [negb andb]; [|by repeat case_match].
  destruct pps as [|bp pps]; [change (len [] <? 1) with true; change (0 <? len []) with false; cbn [andb]; by repeat case_match|]. rewrite len_cons in *. pose proof (len_nonneg pps).
  rewrite (proj2 (Z.ltb_ge _ 1)), (proj2 (Z.ltb_lt 0 _)) by lia. change (byte_at (bp :: pps) 0) with (Some bp). cbn [mbind option_bind].
  change (nal_type (bp :: pps)) with (Z.land bp 0x1f). replace (1 + len pps - 1) with (len pps) by lia. change (drop 1 (bp :: pps)) with pps. change (ptr_add (bp :: pps) 1) with pps.
  pose proof Hp as Hp0. apply Forall_cons in Hp as [_ Hp].
  destruct (on_rbsp_total PpsParser.ParseInternal pps (len pps) safe_ParsePps Hp ltac:(lia) ltac:(lia)) as (op & Ep). change (PpsParser.ParsePps pps (len pps) = Some op) in Ep. rewrite Ep.
  destruct (Z.land bp 0x1f =? kPps); cbn [negb andb mbind option_bind]; [|by repeat case_match].
  destruct os as [s|]; [|done]. destruct op as [p|]; [|done]. eexists. split; [done|]. destruct Ht as [Hts Htp]. split.
  - split; cbn [sps_data_ pps_data_]; (apply map_Forall_insert_2; [|done]); (split; [by rewrite ?len_cons|]); split; done.
  - unfold abs. cbn [sps_data_ pps_data_ pps_refs sps_ids given given_sps given_pps].
    by rewrite dom_insert_L, fmap_insert, (omap_insert_Some sps_data _ _ _ (bs :: sps)), (omap_insert_Some pps_data _ _ _ (bp :: pps)).
Qed.

(** The trackers of a receiver: sets are given out of band and packets come from the depacketiser. *)
Inductive reached (g : list Z) : t -> Prop :=
  | reached_start : reached g construct
  | reached_insert sps pps this this' : reached g this -> bytes_ok sps -> bytes_ok pps -> len sps < 2 ^ 31 -> len pps < 2 ^ 31 ->
      InsertSpsPpsNalus sps pps this = Some this' -> reached g this'
  | reached_packet data d p0 d' p this action this' packet' : reached g this -> bytes_ok data -> len data <= 2 ^ 14 ->
      RtpDepacketizerH264.Parse g data (len data) d p0 = Some (true, d', p) ->
      CopyAndFixBitstream g (to_packet p) this = Some (action, this', packet') -> reached g this'.

Lemma depacketized_ok g data d p0 d' p : bytes_ok g -> bytes_ok data -> len data <= 2 ^ 14 -> RtpDepacketizerH264.Parse g data (len data) d p0 = Some (true, d', p) ->
  payload_ok (len data) p.
Proof.
  intros Hg Hb Hl E. destruct (parse_safe g data d p0 Hg Hb ltac:(lia)) as (ok & d1 & p1 & E1 & Hp). rewrite E in E1. injection E1 as <- <- <-. by apply Hp.
Qed.

Lemma reached_ok g this : bytes_ok g -> reached g this -> tracker_ok this.
Proof.
  intros Hg. induction 1 as [|sps pps this this' _ IH Hs Hp Hls Hlp E|data d p0 d' p this action this' packet' _ IH Hb Hl E Ec].
  - split; apply map_Forall_empty.
  - destruct (insert_ok sps pps this IH Hs Hp Hls Hlp) as (this1 & E1 & H1 & _). rewrite E in E1. by injection E1 as <-.
  - destruct (parsed_packet _ _ Hl (depacketized_ok g data d p0 d' p Hg Hb Hl E)) as (h & Hp & _).
    destruct (copy_ok g (to_packet p) h this IH Hp) as (a & this1 & packet1 & E1 & H1 & _). rewrite Ec in E1. by injection E1 as _ <- _.
Qed.

(** C14: the tracker of parameter sets.  In every state that sets given out of band and packets of the depacketiser (any bytes, at
    most 2^14 of them) can lead to, both operations return without an access outside a buffer or a failed check.  The state stands for the
    known parameter sets, the picture sets' references and the sets given out of band.  A packet is refused, with a request for a key frame,
    exactly if it starts a frame and one of its IDR pictures refers to parameter sets that are not known when its turn comes; otherwise it is inserted, never
    dropped: its units get start codes, a part of a unit none, and the buffer is filled exactly.  In front go, if both sets of one of its pictures
    were given out of band, the given sets of its last picture, and nothing otherwise. *)
Theorem tracker_follows g this : bytes_ok g -> reached g this ->
  (forall sps pps, bytes_ok sps -> bytes_ok pps -> len sps < 2 ^ 31 -> len pps < 2 ^ 31 ->
     exists this', InsertSpsPpsNalus sps pps this = Some this' /\ abs this' = learn_sets sps pps (abs this)) /\
  forall data d p0 d' p, bytes_ok data -> len data <= 2 ^ 14 -> RtpDepacketizerH264.Parse g data (len data) d p0 = Some (true, d', p) ->
    exists h action this' packet', video_type_header (video p) = Some h /\ CopyAndFixBitstream g (to_packet p) this = Some (action, this', packet') /\
    given (abs this') = given (abs this) /\ let first := is_first_packet_in_frame (video p) in
    match learn_all first (nalus h) (abs this) with
    | None => action = kRequestKeyframe /\ dataPtr packet' = payload p
    | Some k => action = kInsert /\ abs this' = k /\ sizeBytes packet' = len (dataPtr packet') /\
        dataPtr packet' = stream (prepended (given (abs this)) (references first (nalus h) (abs this))) ++ body h (payload p)
    end.
Proof.
  intros Hg Hr. pose proof (reached_ok g this Hg Hr) as Ht. split.
  - intros sps pps Hs Hp Hls Hlp. destruct (insert_ok sps pps this Ht Hs Hp Hls Hlp) as (this' & E & _ & Ha). by exists this'.
  - intros data d p0 d' p Hb Hl E. destruct (parsed_packet _ _ Hl (depacketized_ok g data d p0 d' p Hg Hb Hl E)) as (h & Hp & _).
    destruct (copy_ok g (to_packet p) h this Ht Hp) as (a & this1 & packet1 & E1 & _ & Hgiven & H1). exists h, a, this1, packet1. split; [exact (k_h264 _ _ Hp)|]. done.
Qed.

(** ** The stream of a frame *)

Lemma stream_app a b : stream (a ++ b) = stream a ++ stream b.
Proof. unfold stream. by rewrite fmap_app, join_app. Qed.

Lemma stream_one u : stream [u] = start_code_h264 ++ u.
Proof. by rewrite stream_cons, app_nil_r. Qed.

Lemma stream_extend units d : units <> [] -> stream (extend units d) = stream units ++ d /\ extend units d <> [].
Proof.
  intros Hne. destruct (exists_last Hne) as (us & u & ->). rewrite extend_app, !stream_app, !stream_one. split; [by rewrite <- !app_assoc|]. by destruct us.
Qed.

Definition packet_body (p : ParsedPayload) : list Z := match video_type_header (video p) with Some h => body h (payload p) | None => [] end.

(** The stream grows by what the tracker copies. *)
Lemma stream_add n units p : payload_ok n p -> units <> [] \/ is_first_packet_in_frame (video p) = true ->
  stream (add_payload units p) = stream units ++ packet_body p /\ add_payload units p <> [].
Proof.
  intros (Hl & Hb & h & Hv & Hs) Hstart. unfold add_payload, packet_body, body, is_stapa. rewrite (v_h264 _ _ Hv). unfold shape in Hs. destruct (packetization_type h).
  - destruct Hs as [_ Hns]. apply nonempty_len in Hns. rewrite (proj2 (Z.ltb_lt 0 _)) by done. rewrite stream_app, stream_one. split; [done|]. by destruct units.
  - destruct Hs as (_ & b & us & Ep & Hne & Hu). rewrite stream_app. split; [done|]. rewrite Ep. change (drop 1 (b :: entries us)) with (entries us). destruct us as [|u us]; [done|].
    rewrite entries_cons. unfold stapa_entry. destruct (be_bytes 2 (len u)) as [|x [|y [|]]] eqn:E; try done. by destruct units.
  - destruct (is_first_packet_in_frame (video p)).
    + destruct Hs as [_ Hns]. apply nonempty_len in Hns. rewrite (proj2 (Z.ltb_lt 0 _)) by done. rewrite stream_app, stream_one. split; [done|]. by destruct units.
    + rewrite Hs. cbn. destruct Hstart as [Hne|]; [|done]. by apply stream_extend.
Qed.

Definition good_payload (p : ParsedPayload) : Prop := exists n, n <= 2 ^ 14 /\ payload_ok n p.

Lemma stream_frame ps : Forall good_payload ps -> forall units, units <> [] \/ opens ps ->
  stream (foldl add_payload units ps) = stream units ++ mjoin (packet_body <$> ps).
Proof.
  induction 1 as [|p ps (n & _ & Hp) _ IH]; intros units Ho; [by rewrite app_nil_r|]. cbn [foldl]. rewrite mjoin_fmap_cons.
  destruct (stream_add n units p Hp Ho) as [E Hne]. rewrite IH by (by left). by rewrite E, <- app_assoc.
Qed.

(** The caller's loop over the packets of a frame. *)
Fixpoint track_all (g : list Z) (ps : list ParsedPayload) (this : t) : option (t * list (PacketAction * VCMPacket)) :=
  match ps with
  | [] => Some (this, [])
  | p :: rest => '(action, this, packet) ← CopyAndFixBitstream g (to_packet p) this; '(this, rs) ← track_all g rest this; Some (this, (action, packet) :: rs)
  end.

(** What the frame adds. *)
Fixpoint learn_frame (ps : list ParsedPayload) (k : known) : option known :=
  match ps with
  | [] => Some k
  | p :: rest => match learn_all (is_first_packet_in_frame (video p)) (match video_type_header (video p) with Some h => nalus h | None => [] end) k with
    | Some k => learn_frame rest k
    | None => None
    end
  end.

Definition bit_stream (rs : list (PacketAction * VCMPacket)) : list Z := mjoin ((fun r => dataPtr r.2) <$> rs).

Lemma track_all_ok g ps : Forall good_payload ps -> forall this, tracker_ok this -> in_band this -> exists this' rs, track_all g ps this = Some (this', rs) /\
  match learn_frame ps (abs this) with
  | Some k => abs this' = k /\ Forall (fun r => r.1 = kInsert) rs /\ bit_stream rs = mjoin (packet_body <$> ps)
  | None => Exists (fun r => r.1 = kRequestKeyframe) rs
  end.
Proof.
  induction 1 as [|p ps (n & Hn & Hp) _ IH]; intros this Ht Hband; [by exists this, []|]. destruct (parsed_packet n p Hn Hp) as (h & Hpk & _).
  destruct (copy_ok g (to_packet p) h this Ht Hpk) as (a & this1 & packet1 & E1 & Ht1 & Hb1 & H1). destruct (IH this1 Ht1 ltac:(unfold in_band; by rewrite Hb1)) as (this2 & rs & E2 & H2).
  pose proof (k_h264 _ _ Hpk) as Hh. cbn [to_packet video_header] in Hh, H1. cbn [track_all learn_frame]. rewrite Hh, E1. cbn [mbind option_bind]. rewrite E2. cbn [mbind option_bind].
  eexists _, _. split; [done|]. destruct (learn_all _ (nalus h) (abs this)) as [k|]; [|apply Exists_cons_hd; apply H1].
  destruct H1 as (-> & Hk & _ & Ed). rewrite (in_band_prepended _ _ Hband) in Ed. rewrite <- Hk. destruct (learn_frame ps (abs this1)) as [k2|]; [|by apply Exists_cons_tl].
  destruct H2 as (Hk2 & Hall & Ebits). split; [done|]. split; [by constructor|]. unfold bit_stream. rewrite !mjoin_fmap_cons. cbn [snd]. fold (bit_stream rs). rewrite Ebits, Ed.
  unfold packet_body. by rewrite Hh.
Qed.

Lemma stream_byte_stream units : stream units = byte_stream ((fun u => (true, u)) <$> units).
Proof. unfold stream, byte_stream. by rewrite <- list_fmap_compose. Qed.

Lemma stream_bytes units : Forall bytes_ok units -> bytes_ok (stream units).
Proof. induction 1 as [|u units Hu _ IH]; [constructor|]. rewrite stream_cons, !bytes_ok_app. split; [apply start_code_ok|done]. Qed.

(** The scanner finds the units. *)
Lemma stream_found units : Forall (fun u => unit_ok (true, u)) units -> exists l, FindNaluIndices (stream units) (len (stream units)) = Some l /\ nalu_bytes (stream units) <$> l = units.
Proof.
  intros Hu. assert (Hs : Forall unit_ok ((fun u => (true, u)) <$> units)) by (by apply Forall_fmap). pose proof (stream_units _ Hs [] (or_introl eq_refl)) as E. cbn [app] in E.
  eexists. split; [apply FindNaluIndices_starts, stream_bytes; eapply Forall_impl; [exact Hu|]; by intros u [? _]|].
  rewrite stream_byte_stream, starts_stream by done. change (len []) with 0 in E. rewrite E, <- list_fmap_compose. apply list_fmap_id.
Qed.

(** A picture that refers to sets given out of band: they go in front of it.  Without them it is refused. *)
Lemma tracker_follows_witness :
  let sps := [0x67; 66; 0xC0; 31; 0xda; 1; 0x40; 0x16; 0xe4] in let pps := [0x68; 0xCE; 0x3C; 0x80] in
  exists this this' packet' d' p, InsertSpsPpsNalus sps pps construct = Some this /\
    RtpDepacketizerH264.Parse [170] [0x65; 0xE0] 2 RtpDepacketizerH264.construct empty_parsed = Some (true, d', p) /\
    CopyAndFixBitstream [170] (to_packet p) this = Some (kInsert, this', packet') /\ dataPtr packet' = stream [sps; pps; [0x65; 0xE0]] /\
    learn_all true [nalu_info [170] [0x65; 0xE0]] (abs construct) = None.
Proof.
  intros sps pps.
  destruct (tracker_follows [170] construct) as [Hins _]; [by_compute|apply reached_start|].
  destruct (Hins sps pps) as (this & E & _); [by_compute|by_compute|by_compute|by_compute|].
  destruct (RtpDepacketizerH264.Parse [170] [0x65; 0xE0] 2 RtpDepacketizerH264.construct empty_parsed) as [[[ok d'] p]|] eqn:Ep; [|vm_compute in Ep; discriminate].
  assert (Eok : ok = true) by (vm_compute in Ep; injection Ep as <- _ _; reflexivity). subst ok.
  destruct (tracker_follows [170] this) as [_ Hcopy]; [by_compute|eapply (reached_insert [170] sps pps construct this); [apply reached_start|by_compute|by_compute|by_compute|by_compute|exact E]|].
  destruct (Hcopy [0x65; 0xE0] RtpDepacketizerH264.construct empty_parsed d' p) as (h & action & this' & packet' & Eh & Ec & _ & Hm); [by_compute|by_compute|exact Ep|].
  pose proof E as E0. pose proof Ep as Ep0. vm_compute in E. injection E as <-. vm_compute in Ep. injection Ep as <- <-. injection Eh as <-.
  assert (Hk : action = kInsert /\ dataPtr packet' = stream [sps; pps; [0x65; 0xE0]]) by (vm_compute in Hm; destruct Hm as (H1 & _ & _ & H2); split; [exact H1|exact H2]).
  destruct Hk as [-> Hd]. eexists _, this', packet', _, _. split; [exact E0|]. split; [exact Ep0|]. split; [exact Ec|]. split; [exact Hd|]. vm_compute. reflexivity.
Defined.

(** C11: H.264 frames from the encoder to the decoder.  The NAL units of a frame (none of them empty or of the types of aggregates and
    fragments, which the depacketiser refuses) are packetised with aggregation and
    fragmentation, with limits that leave room for a byte behind the fragment header and a payload of at most 2^14 bytes, into RTP packets, whatever header extensions they carry; the datagrams are parsed, the depacketiser takes the payloads and
    the tracker, which was given no sequence parameter sets out of band, copies them into a bit stream.  Every step returns and accepts.  The units put together again are those of the
    frame in their order, with each sequence parameter set whose VUI delays the decoder replaced by the rewritten one, except
    a set that was fragmented or that another one follows in its aggregate.  Unless a picture refers to unknown sets, in which case a
    key frame is requested, the bit stream is exactly these units behind start codes.  A frame without a set to rewrite arrives as it was, and the
    scanner for start codes finds its units. *)
Theorem h264_delivery g l payload fragmentation ps rs q p0 d tr : let fs := (fun f => subview payload f.1 f.2) <$> fragmentation in
  bytes_ok g -> limits_ok l -> roomy l -> max_payload_len l <= 2 ^ 14 -> Forall fragment_ok fs -> len fs < 2 ^ 16 -> Forall (fun f => acceptable f = true) fs ->
  Forall2 (empty_for (max_payload_len l)) ps rs -> RtpPacketizerH264.NumPackets <$> RtpPacketizerH264.construct payload l NonInterleaved fragmentation = Some (len ps) ->
  target 43690 q -> reached g tr -> in_band tr ->
  exists this this' sent out cs tr' res, RtpPacketizerH264.construct payload l NonInterleaved fragmentation = Some this /\ next_all g this ps = Some (this', sent) /\
    receive g q p0 (datagrams sent) d = Some out /\ mjoin (chunk_nalus <$> cs) = fs /\ reassemble out = mjoin (chunk_delivered g <$> cs) /\
    track_all g out tr = Some (tr', res) /\
    match learn_frame out (abs tr) with
    | Some k => abs tr' = k /\ Forall (fun r => r.1 = kInsert) res /\ bit_stream res = stream (reassemble out)
    | None => Exists (fun r => r.1 = kRequestKeyframe) res
    end /\
    (Forall (fun f => rewritten g f = None) fs -> reassemble out = fs) /\
    (Forall (fun f => unit_ok (true, f)) fs -> exists found, FindNaluIndices (stream fs) (len (stream fs)) = Some found /\ nalu_bytes (stream fs) <$> found = fs).
Proof.
  intros fs Hg Hl Hroom Hmax Hf Hn Ha Hps Hlen Hq Hr Hband.
  destruct (frame_received g l payload fragmentation ps rs q p0 d Hg Hl Hroom Hmax Hf Hn Ha Hps Hlen Hq) as (this & this' & sent & out & cs & E & Es & Er & Hcs & Hre & Ho & Hgood).
  destruct (track_all_ok g out Hgood tr (reached_ok g tr Hg Hr) Hband) as (tr' & res & Et & Hres). pose proof (stream_frame out Hgood [] (or_intror Ho)) as Hst.
  exists this, this', sent, out, cs, tr', res. do 6 (split; [done|]). split; [|split].
  - destruct (learn_frame out (abs tr)) as [k|]; [|done]. destruct Hres as (Hk & Hall & Hbits). split; [done|]. split; [done|]. rewrite Hbits. symmetry. exact Hst.
  - intros Hk. rewrite Hre. transitivity (mjoin (chunk_nalus <$> cs)); [|exact Hcs]. apply chunks_kept. rewrite Hcs. exact Hk.
  - apply stream_found.
Qed.

(** The frame goes through three datagrams into a stream of its three units. *)
Lemma h264_delivery_witness : exists p this this' sent out tr' res, RtpPacket.construct [170] None 1500 = Some p /\
  RtpPacketizerH264.construct sample_frame sample_limits NonInterleaved sample_fragments = Some this /\ next_all [170] this [p; p; p] = Some (this', sent) /\
  receive [170] p empty_parsed (datagrams sent) RtpDepacketizerH264.construct = Some out /\
  reassemble out = [[0x09; 0x10]; [0x61; 0x88; 0x84]; 0x41 :: replicate 19 0xAB] /\ track_all [170] out construct = Some (tr', res).
Proof.
  destruct (sample_room [170] ltac:(by_compute)) as (p & Ep & Hp).
  assert (Ht : target 43690 p) by (vm_compute in Ep; injection Ep as <-; split; by_compute).
  destruct (h264_delivery [170] sample_limits sample_frame sample_fragments [p; p; p] [empty_rtp; empty_rtp; empty_rtp] p empty_parsed RtpDepacketizerH264.construct construct)
    as (this & this' & sent & out & cs & tr' & res & E & Es & Er & _ & _ & Et & _ & Hk & _).
  - by_compute.
  - vm_compute; intuition discriminate.
  - vm_compute; intuition discriminate.
  - by_compute.
  - repeat (constructor; [split; [by_compute|vm_compute; intuition discriminate]|]); constructor.
  - by_compute.
  - repeat (constructor; [vm_compute; reflexivity|]); constructor.
  - repeat (constructor; [exact Hp|]); constructor.
  - vm_compute. reflexivity.
  - exact Ht.
  - apply reached_start.
  - reflexivity.
  - exists p, this, this', sent, out, tr', res. split; [exact Ep|]. split; [exact E|]. split; [exact Es|]. split; [exact Er|]. split; [|exact Et].
    apply Hk. repeat (constructor; [vm_compute; reflexivity|]); constructor.
Defined.

(** The tracker alone: a payload whose last length field is cut off is read behind its end. *)
Lemma cut_length_field : CopyAndFixBitstream [] (Packet [0x18; 0; 1; 9; 0] 5 (opened 9 kH264StapA (video empty_parsed))) construct = None.
Proof. vm_compute. reflexivity. Qed.
