(* ===== verification/PacketBuffer.v ===== *)
(** * Assembling frames from packets

    Model of [PacketBuffer] in video/packet_buffer.h/.cc: the rings of packets and of continuity
    information, their growth, the search for complete frames, the set of missing packets, and the
    removal of old packets.

    A vector is a list and an access outside it fails.  A pointer to a payload is the bytes it points
    to, null is [None].  Of a packet the members are modelled that the buffer uses; the others are
    copied with it.  An [RtpFrameObject] is the arguments of its constructor: those that are
    members of the first or the last packet of the frame are represented by that packet.
    [frame_size] and the counters are sizes of objects in memory, far from the width of [size_t].
    [InsertPacket] takes the payload of the packet in every case. *)

From stdpp Require Import gmap.
From S2P Require Import Prelude SeqNum SeqRing SeqMap OrderedSet NackModule H264Common CowBuffer H264Packetizer H264Depacketizer FrameDescriptor.
Import RtpSequenceNumberMap.

(** The numbers that [RtpPacketInfo] holds. *)
Record RtpPacketInfo := PacketInfo { ssrc : Z; rtp_timestamp : Z; receive_time_ms : Z }.

Record VCMPacket := VCM {
  payloadType : Z;
  timestamp : Z;
  ntp_time_ms_ : Z;
  seqNum : Z;
  dataPtr : option (list Z);
  sizeBytes : Z;
  markerBit : bool;
  timesNacked : Z;
  video_header : RTPVideoHeader;
  (* two more members of the video header *)
  is_last_packet_in_frame : bool;
  temporal_id : Z;
  generic_descriptor : option GFD.t;
  packet_info : RtpPacketInfo
}.

Definition kNoTemporalIdx : Z := 0xFF.

(** [VCMPacket()] *)
Definition no_packet : VCMPacket :=
  VCM 0 0 0 0 None 0 false (-1)
    (VideoHeader kEmptyFrame 0 0 false 0 kVideoCodecGeneric None) false kNoTemporalIdx None
    (PacketInfo 0 0 (-1)).

Definition set_dataPtr (d : option (list Z)) (p : VCMPacket) : VCMPacket :=
  VCM (payloadType p) (timestamp p) (ntp_time_ms_ p) (seqNum p) d (sizeBytes p) (markerBit p)
    (timesNacked p) (video_header p) (is_last_packet_in_frame p) (temporal_id p)
    (generic_descriptor p) (packet_info p).

Definition set_packet_type (f : VideoFrameType) (p : VCMPacket) : VCMPacket :=
  VCM (payloadType p) (timestamp p) (ntp_time_ms_ p) (seqNum p) (dataPtr p) (sizeBytes p)
    (markerBit p) (timesNacked p) (set_frame_type f (video_header p)) (is_last_packet_in_frame p)
    (temporal_id p) (generic_descriptor p) (packet_info p).

Module PacketBuffer.

Record ContinuityInfo := Continuity {
  seq_num : Z;
  frame_begin : bool;
  frame_end : bool;
  used : bool;
  continuous : bool;
  frame_created : bool
}.

Definition no_info : ContinuityInfo := Continuity 0 false false false false false.

Definition set_used (b : bool) (c : ContinuityInfo) : ContinuityInfo :=
  Continuity (seq_num c) (frame_begin c) (frame_end c) b (continuous c) (frame_created c).
Definition set_continuous (b : bool) (c : ContinuityInfo) : ContinuityInfo :=
  Continuity (seq_num c) (frame_begin c) (frame_end c) (used c) b (frame_created c).
Definition set_created (b : bool) (c : ContinuityInfo) : ContinuityInfo :=
  Continuity (seq_num c) (frame_begin c) (frame_end c) (used c) (continuous c) b.

(** The arguments of the constructor of [RtpFrameObject]. *)
Record RtpFrameObject := Frame {
  first_seq_num : Z;
  last_seq_num : Z;
  times_nacked : Z;
  first_packet_received_time : Z;
  last_packet_received_time : Z;
  first_packet : VCMPacket;
  last_packet : VCMPacket;
  infos : list RtpPacketInfo;
  image_buffer : list Z
}.

(** [missing_packets_] is in iteration order; of the histories of time stamps one is a set, the other
    the queue of its elements. *)
Record t := Make {
  size_ : Z;
  max_size_ : Z;
  first_seq_num_ : Z;
  first_packet_received_ : bool;
  is_cleared_to_first_seq_num_ : bool;
  data_buffer_ : list VCMPacket;
  sequence_buffer_ : list ContinuityInfo;
  last_received_packet_ms_ : option Z;
  last_received_keyframe_packet_ms_ : option Z;
  unique_frames_seen_ : Z;
  newest_inserted_seq_num_ : option Z;
  missing_packets_ : list (Z * unit);
  sps_pps_idr_is_h264_keyframe_ : bool;
  rtp_timestamps_history_set_ : gset Z;
  rtp_timestamps_history_queue_ : list Z
}.

Definition construct (start_buffer_size max_buffer_size : Z) (field_trial : bool) : option t :=
  check (start_buffer_size <=? max_buffer_size) ;;
  check (Z.land start_buffer_size (start_buffer_size - 1) =? 0) ;;
  check (Z.land max_buffer_size (max_buffer_size - 1) =? 0) ;;
  Some (Make start_buffer_size max_buffer_size 0 false false
    (replicate (Z.to_nat start_buffer_size) no_packet)
    (replicate (Z.to_nat start_buffer_size) no_info)
    None None 0 None [] field_trial ∅ []).

(** ** Members *)

Definition data_at (this : t) (i : Z) : option VCMPacket := data_buffer_ this !! Z.to_nat i.
Definition info_at (this : t) (i : Z) : option ContinuityInfo := sequence_buffer_ this !! Z.to_nat i.

Definition with_rings (size : Z) (data : list VCMPacket) (infos : list ContinuityInfo) (this : t) : t :=
  Make size (max_size_ this) (first_seq_num_ this) (first_packet_received_ this)
    (is_cleared_to_first_seq_num_ this) data infos (last_received_packet_ms_ this)
    (last_received_keyframe_packet_ms_ this) (unique_frames_seen_ this)
    (newest_inserted_seq_num_ this) (missing_packets_ this) (sps_pps_idr_is_h264_keyframe_ this)
    (rtp_timestamps_history_set_ this) (rtp_timestamps_history_queue_ this).

Definition with_first (first : Z) (received cleared : bool) (this : t) : t :=
  Make (size_ this) (max_size_ this) first received cleared (data_buffer_ this)
    (sequence_buffer_ this) (last_received_packet_ms_ this) (last_received_keyframe_packet_ms_ this)
    (unique_frames_seen_ this) (newest_inserted_seq_num_ this) (missing_packets_ this)
    (sps_pps_idr_is_h264_keyframe_ this) (rtp_timestamps_history_set_ this)
    (rtp_timestamps_history_queue_ this).

Definition with_missing (newest : option Z) (missing : list (Z * unit)) (this : t) : t :=
  Make (size_ this) (max_size_ this) (first_seq_num_ this) (first_packet_received_ this)
    (is_cleared_to_first_seq_num_ this) (data_buffer_ this) (sequence_buffer_ this)
    (last_received_packet_ms_ this) (last_received_keyframe_packet_ms_ this)
    (unique_frames_seen_ this) newest missing (sps_pps_idr_is_h264_keyframe_ this)
    (rtp_timestamps_history_set_ this) (rtp_timestamps_history_queue_ this).

Definition with_received (packet_ms keyframe_ms : option Z) (this : t) : t :=
  Make (size_ this) (max_size_ this) (first_seq_num_ this) (first_packet_received_ this)
    (is_cleared_to_first_seq_num_ this) (data_buffer_ this) (sequence_buffer_ this) packet_ms
    keyframe_ms (unique_frames_seen_ this) (newest_inserted_seq_num_ this) (missing_packets_ this)
    (sps_pps_idr_is_h264_keyframe_ this) (rtp_timestamps_history_set_ this)
    (rtp_timestamps_history_queue_ this).

Definition with_history (seen : Z) (s : gset Z) (q : list Z) (this : t) : t :=
  Make (size_ this) (max_size_ this) (first_seq_num_ this) (first_packet_received_ this)
    (is_cleared_to_first_seq_num_ this) (data_buffer_ this) (sequence_buffer_ this)
    (last_received_packet_ms_ this) (last_received_keyframe_packet_ms_ this) seen
    (newest_inserted_seq_num_ this) (missing_packets_ this) (sps_pps_idr_is_h264_keyframe_ this) s q.

(** Assignments to members of the elements at an index of both rings. *)
Definition at_slot (i : Z) (f : VCMPacket -> VCMPacket) (g : ContinuityInfo -> ContinuityInfo)
    (this : t) : option t :=
  d ← data_at this i; c ← info_at this i;
  Some (with_rings (size_ this) (<[Z.to_nat i := f d]> (data_buffer_ this))
          (<[Z.to_nat i := g c]> (sequence_buffer_ this)) this).

(** ** Old packets *)

(** [delete[] dataPtr; dataPtr = nullptr; used = false] *)
Definition release (i : Z) (this : t) : option t :=
  at_slot i (set_dataPtr None) (set_used false) this.

Fixpoint clear_to_loop (iterations : nat) (seq_num' : Z) (this : t) : option t :=
  match iterations with
  | O => Some this
  | S n =>
      let index := first_seq_num_ this mod size_ this in
      d ← data_at this index; c ← info_at this index;
      check (seqNum d =? seq_num c) ;;
      this ← (if AheadOf seq_num' (seq_num c) then release index this else Some this);
      clear_to_loop n seq_num'
        (with_first (u16 (first_seq_num_ this + 1)) (first_packet_received_ this)
           (is_cleared_to_first_seq_num_ this) this)
  end.

Definition ClearTo (seq_num' : Z) (this : t) : option t :=
  if is_cleared_to_first_seq_num_ this && AheadOf (first_seq_num_ this) seq_num' then Some this else
  if negb (first_packet_received_ this) then Some this else
  let seq_num' := u16 (seq_num' + 1) in
  diff ← ModOps.ForwardDiff 16 0 (first_seq_num_ this) seq_num';
  this ← clear_to_loop (Z.to_nat (Z.min diff (size_ this))) seq_num' this;
  let this := with_first seq_num' (first_packet_received_ this) true this in
  p ← upper_bound_pos NackModule.comp (missing_packets_ this) seq_num';
  Some (if (p =? 0)%nat then this
        else with_missing (newest_inserted_seq_num_ this) (drop (p - 1) (missing_packets_ this)) this).

Fixpoint clear_interval_loop (iterations : nat) (seq : Z) (this : t) : option t :=
  match iterations with
  | O => Some this
  | S n =>
      let index := seq mod size_ this in
      d ← data_at this index; c ← info_at this index;
      check (seq_num c =? seq) ;;
      check (seq_num c =? seqNum d) ;;
      this ← release index this;
      clear_interval_loop n (u16 (seq + 1)) this
  end.

Definition ClearInterval (start_seq_num stop_seq_num : Z) (this : t) : option t :=
  iterations ← ModOps.ForwardDiff 16 0 start_seq_num (u16 (stop_seq_num + 1));
  check (iterations <=? size_ this) ;;
  clear_interval_loop (Z.to_nat iterations) start_seq_num this.

(** The loop runs over all elements. *)
Definition Clear (this : t) : t :=
  with_missing None []
    (with_received None None
      (with_first (first_seq_num_ this) false false
        (with_rings (size_ this) (set_dataPtr None <$> data_buffer_ this)
           (set_used false <$> sequence_buffer_ this) this))).

(** ** Growing *)

(** The loop over the old elements. *)
Fixpoint rehash (new_size : Z) (data : list VCMPacket) (infos : list ContinuityInfo)
    (new_data : list VCMPacket) (new_infos : list ContinuityInfo)
    : list VCMPacket * list ContinuityInfo :=
  match data, infos with
  | d :: data, c :: infos =>
      if used c then
        let index := Z.to_nat (seq_num c mod new_size) in
        rehash new_size data infos (<[index := d]> new_data) (<[index := c]> new_infos)
      else rehash new_size data infos new_data new_infos
  | _, _ => (new_data, new_infos)
  end.

Definition ExpandBufferSize (this : t) : bool * t :=
  if size_ this =? max_size_ this then (false, this) else
  let new_size := Z.min (max_size_ this) (2 * size_ this) in
  let '(data, infos) := rehash new_size (data_buffer_ this) (sequence_buffer_ this)
    (replicate (Z.to_nat new_size) no_packet) (replicate (Z.to_nat new_size) no_info) in
  (true, with_rings new_size data infos this).

(** [while (ExpandBufferSize() && sequence_buffer_[seq_num % size_].used) {}] *)
Fixpoint expand_loop (fuel : nat) (seq : Z) (this : t) : option t :=
  match fuel with
  | O => None
  | S n =>
      let '(expanded, this) := ExpandBufferSize this in
      if negb expanded then Some this else
      c ← info_at this (seq mod size_ this);
      if used c then expand_loop n seq this else Some this
  end.

(** ** Missing packets and time stamps *)

Definition kMaxPaddingAge : Z := 1000.

(** The loop that inserts the numbers in front of [seq]. *)
Fixpoint insert_missing (fuel : nat) (seq newest : Z) (missing : list (Z * unit))
    : option (Z * list (Z * unit)) :=
  if negb (AheadOf seq newest) then Some (newest, missing) else
  match fuel with
  | O => None
  | S n =>
      missing ← insert_new NackModule.comp missing newest tt;
      insert_missing n seq (u16 (newest + 1)) missing
  end.

Definition UpdateMissingPackets (seq : Z) (this : t) : option t :=
  let newest := default seq (newest_inserted_seq_num_ this) in
  if AheadOf seq newest then
    let old_seq_num := u16 (seq - kMaxPaddingAge) in
    missing ← erase_below NackModule.comp (missing_packets_ this) old_seq_num;
    let newest := if AheadOf old_seq_num newest then old_seq_num else newest in
    '(newest, missing) ← insert_missing (Z.to_nat kMaxPaddingAge) seq (u16 (newest + 1)) missing;
    Some (with_missing (Some newest) missing this)
  else
    missing ← erase_key NackModule.comp (missing_packets_ this) seq;
    Some (with_missing (Some newest) missing this).

Definition kMaxTimestampsHistory : Z := 1000.

Definition OnTimestampReceived (timestamp : Z) (this : t) : option t :=
  if decide (timestamp ∈ rtp_timestamps_history_set_ this) then Some this else
  let s := {[timestamp]} ∪ rtp_timestamps_history_set_ this in
  let q := rtp_timestamps_history_queue_ this ++ [timestamp] in
  let seen := unique_frames_seen_ this + 1 in
  if kMaxTimestampsHistory <? Z.of_nat (size s) then
    discarded ← head q;
    Some (with_history seen (s ∖ {[discarded]}) (tail q) this)
  else Some (with_history seen s q this).

(** ** Complete frames *)

Definition PotentialNewFrame (seq : Z) (this : t) : option bool :=
  let index := seq mod size_ this in
  let prev_index := if 0 <? index then index - 1 else size_ this - 1 in
  c ← info_at this index;
  if negb (used c) then Some false else
  if negb (seq_num c =? seq) then Some false else
  if frame_created c then Some false else
  if frame_begin c then Some true else
  prev ← info_at this prev_index;
  if negb (used prev) then Some false else
  if frame_created prev then Some false else
  if negb (seq_num prev =? u16 (seq_num c - 1)) then Some false else
  prev_data ← data_at this prev_index; data ← data_at this index;
  if negb (timestamp prev_data =? timestamp data) then Some false else
  Some (continuous prev).

(** The variables of the search for the first packet of a frame. *)
Record walk := Walk {
  start_index : Z;
  start_seq_num : Z;
  frame_size : Z;
  max_nack_count : Z;
  min_recv_time : Z;
  max_recv_time : Z;
  packet_infos : list RtpPacketInfo;
  has_h264_sps : bool;
  has_h264_pps : bool;
  has_h264_idr : bool;
  is_h264_keyframe : bool
}.

Definition account (d : VCMPacket) (w : walk) : walk :=
  Walk (start_index w) (start_seq_num w) (frame_size w + sizeBytes d)
    (Z.max (max_nack_count w) (timesNacked d))
    (Z.min (min_recv_time w) (receive_time_ms (packet_info d)))
    (Z.max (max_recv_time w) (receive_time_ms (packet_info d)))
    (packet_infos w ++ [packet_info d])
    (has_h264_sps w) (has_h264_pps w) (has_h264_idr w) (is_h264_keyframe w).

Definition note_nalus (trial : bool) (l : list NaluInfo) (w : walk) : walk :=
  let has ty := existsb (fun nalu => type nalu =? ty) l in
  let sps := has_h264_sps w || has H264.kSps in
  let pps := has_h264_pps w || has H264.kPps in
  let idr := has_h264_idr w || has H264.kIdr in
  Walk (start_index w) (start_seq_num w) (frame_size w) (max_nack_count w) (min_recv_time w)
    (max_recv_time w) (packet_infos w) sps pps idr
    (is_h264_keyframe w || (trial && idr && sps && pps) || (negb trial && idr)).

Definition move (index seq : Z) (w : walk) : walk :=
  Walk index seq (frame_size w) (max_nack_count w) (min_recv_time w) (max_recv_time w)
    (packet_infos w) (has_h264_sps w) (has_h264_pps w) (has_h264_idr w) (is_h264_keyframe w).

(** The loop; the inner [None] is a return from [FindFrames]. *)
Fixpoint look_for_frame (fuel : nat) (tested_packets : Z) (is_h264 : bool) (frame_timestamp : Z)
    (w : walk) (this : t) : option (option walk * t) :=
  match fuel with
  | O => None
  | S n =>
      let tested_packets := tested_packets + 1 in
      d ← data_at this (start_index w);
      this ← at_slot (start_index w) id (set_created true) this;
      c ← info_at this (start_index w);
      let w := account d w in
      if negb is_h264 && frame_begin c then Some (Some w, this) else
      let nalus_ok := match video_type_header (video_header d) with
                      | None => false
                      | Some h => len (nalus h) <? kMaxNalusPerPacket
                      end in
      if is_h264 && negb nalus_ok then Some (None, this) else
      let w := match video_type_header (video_header d) with
               | Some h => if is_h264 then note_nalus (sps_pps_idr_is_h264_keyframe_ this) (nalus h) w
                           else w
               | None => w
               end in
      if tested_packets =? size_ this then Some (Some w, this) else
      let index := if 0 <? start_index w then start_index w - 1 else size_ this - 1 in
      d ← data_at this index; c ← info_at this index;
      if is_h264 && (negb (used c) || negb (timestamp d =? frame_timestamp))
      then Some (Some (move index (start_seq_num w) w), this)
      else look_for_frame n tested_packets is_h264 frame_timestamp
             (move index (u16 (start_seq_num w - 1)) w) this
  end.

(** [while (start_index != stop_index)] of the packets that wait for a gap to be filled. *)
Fixpoint uncreate_loop (fuel : nat) (index stop_index : Z) (this : t) : option t :=
  if index =? stop_index then Some this else
  match fuel with
  | O => None
  | S n =>
      this ← at_slot index id (set_created false) this;
      uncreate_loop n ((index + 1) mod size_ this) stop_index this
  end.

(** The rest for H.264: false when a frame has to wait. *)
Definition finish_h264 (index : Z) (w : walk) (this : t) : option (bool * t) :=
  let first_packet_index := start_seq_num w mod size_ this in
  check (first_packet_index <? size_ this) ;;
  this ← at_slot first_packet_index
           (set_packet_type (if is_h264_keyframe w then kVideoFrameKey else kVideoFrameDelta)) id this;
  d ← data_at this (start_index w);
  let h264tid := temporal_id d in
  if (h264tid =? kNoTemporalIdx) && negb (is_h264_keyframe w) then
    p ← upper_bound_pos NackModule.comp (missing_packets_ this) (start_seq_num w);
    if (p =? 0)%nat then Some (true, this) else
    this ← uncreate_loop (Z.to_nat (size_ this)) (start_index w) (u16 ((index + 1) mod size_ this)) this;
    Some (false, this)
  else Some (true, this).

(** Null is [None]. *)
Definition GetPacket (seq : Z) (this : t) : option VCMPacket :=
  let index := seq mod size_ this in
  c ← info_at this index;
  if negb (used c) || negb (seq =? seq_num c) then None else data_at this index.

Definition is_h264_packet (d : VCMPacket) : bool :=
  match codec (video_header d) with kVideoCodecH264 => true | _ => false end.

Section FindFrames.
(* The bytes fresh memory happens to hold. *)
Variable g : list Z.

(** The loop over the packets of a frame; [acc] is what was copied. *)
Fixpoint copy_loop (fuel : nat) (index stop frame_size : Z) (acc : list Z) (this : t) : option (list Z) :=
  match fuel with
  | O => None
  | S n =>
      c ← info_at this index;
      check (used c) ;;
      d ← data_at this index;
      let length := sizeBytes d in
      check (len acc + length <=? frame_size) ;;
      bytes ← (if length =? 0 then Some [] else
               bs ← dataPtr d; check (length <=? len bs) ;; Some (take (Z.to_nat length) bs));
      let acc := acc ++ bytes in
      let index := (index + 1) mod size_ this in
      if index =? stop then Some acc else copy_loop n index stop frame_size acc this
  end.

Definition GetEncodedImageBuffer (frame_size first_seq last_seq : Z) (this : t) : option (list Z) :=
  acc ← copy_loop (Z.to_nat (size_ this)) (first_seq mod size_ this)
          ((last_seq + 1) mod size_ this) frame_size [] this;
  Some (acc ++ take (Z.to_nat (frame_size - len acc)) g).

(** The body of the loop for the last packet of a frame; the inner [None] is a return. *)
Definition assemble (seq : Z) (this : t) : option (option RtpFrameObject * t) :=
  let index := seq mod size_ this in
  d ← data_at this index;
  let recv := receive_time_ms (packet_info d) in
  '(r, this) ← look_for_frame (Z.to_nat (size_ this)) 0 (is_h264_packet d) (timestamp d)
                 (Walk index seq 0 (-1) recv recv [] false false false false) this;
  match r with
  | None => Some (None, this)
  | Some w =>
      let packet_infos := rev (packet_infos w) in
      '(ok, this) ← (if is_h264_packet d then finish_h264 index w this else Some (true, this));
      if negb ok then Some (None, this) else
      missing ← erase_through NackModule.comp (missing_packets_ this) seq;
      let this := with_missing (newest_inserted_seq_num_ this) missing this in
      first_packet ← GetPacket (start_seq_num w) this;
      last_packet ← GetPacket seq this;
      image ← GetEncodedImageBuffer (frame_size w) (start_seq_num w) seq this;
      let frame := Frame (start_seq_num w) seq (max_nack_count w) (min_recv_time w) (max_recv_time w)
                     first_packet last_packet packet_infos image in
      this ← ClearInterval (start_seq_num w) seq this;
      Some (Some frame, this)
  end.

Fixpoint find_loop (n : nat) (seq : Z) (found_frames : list RtpFrameObject) (this : t)
    : option (list RtpFrameObject * t) :=
  match n with
  | O => Some (found_frames, this)
  | S n =>
      potential ← PotentialNewFrame seq this;
      if negb potential then Some (found_frames, this) else
      let index := seq mod size_ this in
      this ← at_slot index id (set_continuous true) this;
      c ← info_at this index;
      if frame_end c then
        '(r, this) ← assemble seq this;
        match r with
        | None => Some (found_frames, this)
        | Some frame => find_loop n (u16 (seq + 1)) (found_frames ++ [frame]) this
        end
      else find_loop n (u16 (seq + 1)) found_frames this
  end.

Definition FindFrames (seq : Z) (this : t) : option (list RtpFrameObject * t) :=
  find_loop (Z.to_nat (size_ this)) seq [] this.

(** ** Incoming packets *)

Definition new_info (packet : VCMPacket) : ContinuityInfo :=
  Continuity (seqNum packet) (is_first_packet_in_frame (video_header packet))
    (is_last_packet_in_frame packet) true false false.

(** [now_ms] is the reading of the clock; the frames are handed to the callback in order. *)
Definition store_packet (packet : VCMPacket) (now_ms : Z) (this : t)
    : option (bool * list RtpFrameObject * t) :=
  this ← at_slot (seqNum packet mod size_ this) (fun _ => packet) (fun _ => new_info packet) this;
  this ← UpdateMissingPackets (seqNum packet) this;
  let keyframe_ms := match frame_type (video_header packet) with
                     | kVideoFrameKey => Some now_ms
                     | _ => last_received_keyframe_packet_ms_ this
                     end in
  let this := with_received (Some now_ms) keyframe_ms this in
  '(found_frames, this) ← FindFrames (seqNum packet) this;
  Some (true, found_frames, this).

Definition InsertPacket (packet : VCMPacket) (now_ms : Z) (this : t)
    : option (bool * list RtpFrameObject * t) :=
  this ← OnTimestampReceived (timestamp packet) this;
  let seq := seqNum packet in
  let old := first_packet_received_ this && AheadOf (first_seq_num_ this) seq in
  if old && is_cleared_to_first_seq_num_ this then Some (true, [], this) else
  let this := if negb (first_packet_received_ this) || old
              then with_first seq true (is_cleared_to_first_seq_num_ this) this else this in
  let index := seq mod size_ this in
  c ← info_at this index;
  if used c then
    d ← data_at this index;
    if seqNum d =? seq then Some (true, [], this) else
    this ← expand_loop 65 seq this;
    c ← info_at this (seq mod size_ this);
    if used c then Some (false, [], Clear this) else store_packet packet now_ms this
  else store_packet packet now_ms this.

Definition PaddingReceived (seq : Z) (this : t) : option (list RtpFrameObject * t) :=
  this ← UpdateMissingPackets seq this;
  FindFrames (u16 (seq + 1)) this.

End FindFrames.

End PacketBuffer.
