(* ===== verification/PacketFrames.v ===== *)
(** * Every frame is delivered once, when its last packet arrives

    A stream of packets with consecutive numbers, cut into frames by the flags of the packets, is
    inserted in any order into an empty [PacketBuffer].  The state of the buffer is described by the
    map [K] of the packets it holds with their flags ([rep]); the packets it holds are those that arrived and
    whose frame is not complete ([view]). *)

From stdpp Require Import gmap.
From S2P Require Import Prelude SeqNum SeqRing SeqMap OrderedSet NackModule NackSpec NackRefine H264Common CowBuffer H264Packetizer H264Depacketizer FrameDescriptor PacketBuffer.
Import PacketBuffer.

(** ** Slots *)

Definition power_size (size : Z) : Prop := exists k, 0 <= k <= 15 /\ size = 2 ^ k.

Lemma power_size_pos size : power_size size -> 0 < size <= 2 ^ 15.
Proof. intros (k & Hk & ->). split; [apply Z.pow_pos_nonneg; lia|apply Z.pow_le_mono_r; lia]. Qed.

Lemma seq_slot size x : power_size size -> seq_of x mod size = x mod size.
Proof.
  intros (k & Hk & ->). unfold seq_of. apply Z.mod_mod_divide.
  exists (2 ^ (16 - k)). rewrite <- Z.pow_add_r by lia. change P16 with (2 ^ 16). f_equal. lia.
Qed.

Lemma slot_range size x : power_size size -> 0 <= x mod size < size.
Proof. intros H. apply Z.mod_pos_bound. apply power_size_pos in H. lia. Qed.

Lemma slot_prev size x :
  power_size size ->
  (if 0 <? x mod size then x mod size - 1 else size - 1) = (x - 1) mod size.
Proof.
  intros H. apply power_size_pos in H. pose proof (Z.mod_pos_bound x size ltac:(lia)).
  rewrite <- (Zminus_mod_idemp_l x 1 size). destruct (Z.ltb_spec 0 (x mod size)).
  - symmetry. apply Z.mod_small. lia.
  - replace (x mod size) with 0 by lia. rewrite <- (Z_mod_plus_full _ 1), Z.mod_small; lia.
Qed.

Lemma slot_next size x : (x mod size + 1) mod size = (x + 1) mod size.
Proof. apply Zplus_mod_idemp_l. Qed.

Lemma slot_eq size x y : power_size size -> Z.abs (x - y) < size -> x mod size = y mod size -> x = y.
Proof.
  intros H Hd E. apply power_size_pos in H. pose proof (Z.div_mod x size ltac:(lia)).
  pose proof (Z.div_mod y size ltac:(lia)). set (q := x / size - y / size).
  assert (Hq : x - y = size * q) by (unfold q; lia). clearbody q. rewrite Hq in Hd.
  assert (q = 0) by nia. lia.
Qed.

Lemma seq_of_inj x y : Z.abs (x - y) < P16 -> seq_of x = seq_of y -> x = y.
Proof.
  intros H E. destruct (Z.lt_trichotomy x y) as [|[|]]; [|done|].
  - exfalso. apply (seq_of_ne x y); [lia|done].
  - exfalso. apply (seq_of_ne y x); [lia|done].
Qed.

(** ** Streams *)

Section Stream.
Context (p : Z -> VCMPacket) (n0 N : Z).

Definition in_stream (x : Z) : Prop := n0 <= x < n0 + N.
Definition beg (x : Z) : bool := is_first_packet_in_frame (video_header (p x)).
Definition fin (x : Z) : bool := is_last_packet_in_frame (p x).

(** The packets of a stream of a codec other than H.264: the first packet of every frame and no
    other is flagged as such, as is the last, and the packets of a frame share its time stamp. *)
Record stream_ok : Prop := {
  st_len : 1 <= N <= 2 ^ 14;
  st_seq : forall x, in_stream x -> seqNum (p x) = seq_of x;
  st_codec : forall x, in_stream x -> is_h264_packet (p x) = false;
  st_data : forall x, in_stream x -> exists bs, dataPtr (p x) = Some bs /\ len bs = sizeBytes (p x);
  st_first : beg n0 = true;
  st_next : forall x, n0 <= x < n0 + N - 1 -> beg (x + 1) = fin x;
  st_time : forall x, n0 <= x < n0 + N - 1 -> fin x = false -> timestamp (p (x + 1)) = timestamp (p x)
}.

(** The numbers from [a] to [b] make a frame. *)
Definition whole (a b : Z) : Prop :=
  in_stream a /\ in_stream b /\ a <= b /\ beg a = true /\ fin b = true /\ forall y, a <= y < b -> fin y = false.

Definition run (S : gset Z) (a b : Z) : Prop := forall y, a <= y <= b -> y ∈ S.

(** The frame of [x] is complete. *)
Definition done_in (S : gset Z) (x : Z) : Prop := exists a b, whole a b /\ a <= x <= b /\ run S a b.

(** All packets of the frame up to [x] are there. *)
Definition cont (S : gset Z) (x : Z) : Prop :=
  exists a, in_stream a /\ a <= x /\ beg a = true /\ (forall y, a <= y < x -> fin y = false) /\ run S a x.

(** ** What the rings hold *)

(** A packet in the buffer and its flags [continuous] and [frame_created]. *)
Definition cinfo (x : Z) (f : bool * bool) : ContinuityInfo :=
  Continuity (seq_of x) (beg x) (fin x) true f.1 f.2.

Record rep (this : t) (K : gmap Z (bool * bool)) : Prop := {
  rep_size : power_size (size_ this);
  rep_data_len : length (data_buffer_ this) = Z.to_nat (size_ this);
  rep_info_len : length (sequence_buffer_ this) = Z.to_nat (size_ this);
  rep_in : forall x f, K !! x = Some f ->
    in_stream x /\ info_at this (x mod size_ this) = Some (cinfo x f) /\
    data_at this (x mod size_ this) = Some (p x);
  rep_used : forall i c, 0 <= i < size_ this -> info_at this i = Some c -> used c = true ->
    exists x f, K !! x = Some f /\ x mod size_ this = i
}.

(** The other members that matter. *)
Definition rest (this : t) : Z * Z * bool * option Z * list (Z * unit) :=
  (size_ this, max_size_ this, is_cleared_to_first_seq_num_ this, newest_inserted_seq_num_ this,
   missing_packets_ this).

Context (OK : stream_ok).

Lemma inr_near x y : in_stream x -> in_stream y -> Z.abs (x - y) < 2 ^ 14.
Proof. unfold in_stream. intros. pose proof (st_len OK). lia. Qed.

Lemma rep_inj this K x y f f' :
  rep this K -> K !! x = Some f -> K !! y = Some f' ->
  x mod size_ this = y mod size_ this -> x = y.
Proof.
  intros R Hx Hy E. destruct (rep_in _ _ R x f Hx) as (Ix & Cx & _).
  destruct (rep_in _ _ R y f' Hy) as (Iy & Cy & _). rewrite E, Cy in Cx. injection Cx as Eq _ _.
  apply seq_of_inj; [pose proof (inr_near x y Ix Iy); lia|done].
Qed.

(** An access to a slot succeeds. *)
Lemma slot_some this K i :
  rep this K -> 0 <= i < size_ this -> is_Some (data_at this i) /\ is_Some (info_at this i).
Proof.
  intros R Hi. unfold data_at, info_at. split; apply lookup_lt_is_Some;
    rewrite ?(rep_data_len _ _ R), ?(rep_info_len _ _ R); lia.
Qed.

(** Writing packet [x] into a slot that is its own or free. *)
Lemma rep_put this K x f :
  rep this K -> in_stream x ->
  (forall y f', K !! y = Some f' -> y mod size_ this = x mod size_ this -> y = x) ->
  rep (with_rings (size_ this) (<[Z.to_nat (x mod size_ this) := p x]> (data_buffer_ this))
         (<[Z.to_nat (x mod size_ this) := cinfo x f]> (sequence_buffer_ this)) this) (<[x := f]> K).
Proof.
  intros R Hx Hfree. pose proof (slot_range _ x (rep_size _ _ R)) as Hs.
  assert (Hl1 : (Z.to_nat (x mod size_ this) < length (data_buffer_ this))%nat)
    by (rewrite (rep_data_len _ _ R); lia).
  assert (Hl2 : (Z.to_nat (x mod size_ this) < length (sequence_buffer_ this))%nat)
    by (rewrite (rep_info_len _ _ R); lia).
  constructor; cbn [size_ data_buffer_ sequence_buffer_ with_rings].
  - apply R.
  - by rewrite length_insert, (rep_data_len _ _ R).
  - by rewrite length_insert, (rep_info_len _ _ R).
  - intros y f' Hy. unfold info_at, data_at. cbn [data_buffer_ sequence_buffer_ with_rings].
    destruct (decide (y = x)) as [->|Hne].
    + rewrite lookup_insert_eq in Hy. injection Hy as <-.
      rewrite !list_lookup_insert_eq by done. done.
    + rewrite lookup_insert_ne in Hy by done. destruct (rep_in _ _ R y f' Hy) as (H1 & H2 & H3).
      pose proof (slot_range _ y (rep_size _ _ R)).
      assert (Z.to_nat (x mod size_ this) <> Z.to_nat (y mod size_ this)).
      { intros E. apply Hne, (Hfree y f' Hy). lia. }
      by rewrite !list_lookup_insert_ne.
  - intros i c Hi Hc Hu. unfold info_at in Hc. cbn [sequence_buffer_ with_rings] in Hc.
    destruct (decide (i = x mod size_ this)) as [->|Hne].
    + exists x, f. by rewrite lookup_insert_eq.
    + rewrite list_lookup_insert_ne in Hc by lia.
      destruct (rep_used _ _ R i c Hi Hc Hu) as (y & f' & Hy & E). exists y, f'. split; [|done].
      rewrite lookup_insert_ne; [done|]. intros ->. done.
Qed.

(** Giving a slot up. *)
Lemma rep_release this K x f d c :
  rep this K -> K !! x = Some f -> used c = false ->
  rep (with_rings (size_ this) (<[Z.to_nat (x mod size_ this) := d]> (data_buffer_ this))
         (<[Z.to_nat (x mod size_ this) := c]> (sequence_buffer_ this)) this) (delete x K).
Proof.
  intros R Hx Hu. pose proof (slot_range _ x (rep_size _ _ R)) as Hs.
  assert (Hl2 : (Z.to_nat (x mod size_ this) < length (sequence_buffer_ this))%nat)
    by (rewrite (rep_info_len _ _ R); lia).
  constructor; cbn [size_ data_buffer_ sequence_buffer_ with_rings].
  - apply R.
  - by rewrite length_insert, (rep_data_len _ _ R).
  - by rewrite length_insert, (rep_info_len _ _ R).
  - intros y f' Hy. unfold info_at, data_at. cbn [data_buffer_ sequence_buffer_ with_rings].
    apply lookup_delete_Some in Hy as [Hne Hy].
    destruct (rep_in _ _ R y f' Hy) as (H1 & H2 & H3).
    pose proof (slot_range _ y (rep_size _ _ R)).
    assert (Z.to_nat (x mod size_ this) <> Z.to_nat (y mod size_ this)).
    { intros E. apply Hne, (rep_inj this K x y f f' R Hx Hy). lia. }
    by rewrite !list_lookup_insert_ne.
  - intros i c' Hi Hc Hu'. unfold info_at in Hc. cbn [sequence_buffer_ with_rings] in Hc.
    destruct (decide (i = x mod size_ this)) as [->|Hne].
    + rewrite list_lookup_insert_eq in Hc by done. congruence.
    + rewrite list_lookup_insert_ne in Hc by lia.
      destruct (rep_used _ _ R i c' Hi Hc Hu') as (y & f' & Hy & E). exists y, f'. split; [|done].
      apply lookup_delete_Some. split; [|done]. intros ->. done.
Qed.

(** Changing the flags of a packet. *)
Lemma set_flags_rep this K x f f' h :
  rep this K -> K !! x = Some f -> h (cinfo x f) = cinfo x f' ->
  exists this', at_slot (x mod size_ this) id h this = Some this' /\
    rep this' (<[x := f']> K) /\ rest this' = rest this.
Proof.
  intros R Hx Hh. destruct (rep_in _ _ R x f Hx) as (Ix & Cx & Dx).
  unfold at_slot. rewrite Cx, Dx. cbn [mbind option_bind]. rewrite Hh. eexists.
  split; [done|]. split; [|done]. apply rep_put; [done|done|].
  intros y f'' Hy E. by apply (rep_inj this K y x f'' f).
Qed.

(** ** The test for a continuous packet *)

Lemma rep_absent this K y :
  rep this K -> (in_stream y \/ y = n0 + N) -> K !! y = None ->
  exists c, info_at this (y mod size_ this) = Some c /\
    (used c = false \/ seq_num c <> seq_of y).
Proof.
  intros R Hy Hn. pose proof (slot_range _ y (rep_size _ _ R)) as Hs.
  destruct (proj2 (slot_some this K _ R Hs)) as [c Hc]. exists c. split; [done|].
  destruct (used c) eqn:Hu; [right|by left].
  destruct (rep_used _ _ R _ c Hs Hc Hu) as (x & f & Hx & E).
  destruct (rep_in _ _ R x f Hx) as (Ix & Cx & _). rewrite E, Hc in Cx. injection Cx as ->.
  cbn. intros Eq. apply seq_of_inj in Eq; [subst; congruence|].
  pose proof (st_len OK). unfold in_stream in *. lia.
Qed.

Lemma begin_or_prev y : in_stream y -> beg y = true \/ (in_stream (y - 1) /\ fin (y - 1) = false /\
  timestamp (p y) = timestamp (p (y - 1))).
Proof.
  intros Hy. destruct (beg y) eqn:E; [by left|right].
  destruct (decide (y = n0)) as [->|Hne]; [pose proof (st_first OK); congruence|].
  unfold in_stream in *. assert (Hb : n0 <= y - 1 < n0 + N - 1) by lia.
  pose proof (st_next OK _ Hb) as H1. pose proof (st_time OK _ Hb) as H2.
  replace (y - 1 + 1) with y in * by lia. rewrite E in H1. split; [lia|]. split; [done|].
  by apply H2.
Qed.

Definition continues (K : gmap Z (bool * bool)) (y : Z) : bool :=
  beg y || match K !! (y - 1) with Some (cb, cr) => negb cr && cb | None => false end.

Lemma potential_spec this K y :
  rep this K -> (in_stream y \/ y = n0 + N) ->
  PotentialNewFrame (seq_of y) this =
    Some match K !! y with Some (_, cr) => negb cr && continues K y | None => false end.
Proof.
  intros R Hy. unfold PotentialNewFrame. rewrite seq_slot, slot_prev by apply R.
  destruct (K !! y) as [[cb cr]|] eqn:Ey.
  - destruct (rep_in _ _ R y _ Ey) as (Iy & Cy & Dy). rewrite Cy. cbn [mbind option_bind].
    unfold cinfo at 1 2 3 4. cbn [used seq_num frame_created frame_begin fst snd].
    rewrite Z.eqb_refl. cbn [negb]. destruct cr; [done|]. unfold continues.
    destruct (begin_or_prev y Iy) as [Hb|(Ip & Hf & Ht)]; [by rewrite Hb|].
    destruct (beg y); [done|]. cbn [orb].
    destruct (K !! (y - 1)) as [[cb' cr']|] eqn:Ep.
    + destruct (rep_in _ _ R _ _ Ep) as (_ & Cp & Dp). rewrite Cp, Dp, Dy. cbn [mbind option_bind].
      unfold cinfo. cbn [used seq_num frame_created continuous fst snd negb].
      destruct cr'; [done|]. rewrite seq_of_back, !Z.eqb_refl. cbn [negb].
      rewrite Ht, Z.eqb_refl. done.
    + destruct (rep_absent _ _ _ R (or_introl Ip) Ep) as (c & Cp & Hc). rewrite Cp.
      cbn [mbind option_bind]. destruct (used c); [|done]. destruct (frame_created c); [done|].
      cbn [negb]. unfold cinfo. cbn [seq_num]. rewrite seq_of_back.
      destruct Hc as [Hc|Hc]; [done|]. by rewrite (proj2 (Z.eqb_neq _ _) Hc).
  - destruct (rep_absent _ _ _ R Hy Ey) as (c & Cy & Hc). rewrite Cy. cbn [mbind option_bind].
    destruct (used c); [|done]. cbn [negb]. destruct Hc as [Hc|Hc]; [done|].
    by rewrite (proj2 (Z.eqb_neq _ _) Hc).
Qed.

(** ** The walk to the first packet *)

(** What is collected from the packets [y], [y - 1], ... *)
Fixpoint accounts (n : nat) (y : Z) (w : walk) : walk :=
  match n with
  | O => w
  | S n => accounts n (y - 1) (account (p y) w)
  end.

Fixpoint mark_created (n : nat) (y : Z) (K : gmap Z (bool * bool)) : gmap Z (bool * bool) :=
  match n with
  | O => K
  | S n => mark_created n (y - 1) (<[y := (default false (fst <$> K !! y), true)]> K)
  end.

Lemma account_move i s d w : account d (move i s w) = move i s (account d w).
Proof. done. Qed.

Lemma accounts_move n y i s w : accounts n y (move i s w) = move i s (accounts n y w).
Proof. revert y w. induction n as [|n IH]; intros y w; [done|]. cbn. by rewrite account_move, IH. Qed.

Lemma look_spec n this K y fuel tested ts w :
  rep this K ->
  (forall z, y - Z.of_nat n <= z <= y -> is_Some (K !! z)) ->
  beg (y - Z.of_nat n) = true -> (forall z, y - Z.of_nat n < z <= y -> beg z = false) ->
  tested + Z.of_nat n < size_ this -> (n < fuel)%nat ->
  start_index w = y mod size_ this -> start_seq_num w = seq_of y ->
  exists this', look_for_frame fuel tested false ts w this =
      Some (Some (move ((y - Z.of_nat n) mod size_ this) (seq_of (y - Z.of_nat n)) (accounts (S n) y w)), this') /\
    rep this' (mark_created (S n) y K) /\ rest this' = rest this.
Proof.
  revert this K y fuel tested w. induction n as [|n IH];
    intros this K y fuel tested w R HK Hb Hnb Ht Hf Hi Hs; (destruct fuel as [|fuel]; [lia|]);
    cbn [look_for_frame]; rewrite Hi.
  - rewrite Z.sub_0_r in *. destruct (HK y ltac:(lia)) as [[cb cr] Ky].
    destruct (rep_in _ _ R y _ Ky) as (Iy & _ & Dy). rewrite Dy. cbn [mbind option_bind].
    destruct (set_flags_rep this K y _ (cb, true) (set_created true) R Ky eq_refl)
      as (this' & -> & R' & Er). cbn [mbind option_bind].
    assert (Es : size_ this' = size_ this) by (unfold rest in Er; by injection Er).
    destruct (rep_in _ _ R' y (cb, true) ltac:(by rewrite lookup_insert_eq)) as (_ & Cy & _).
    rewrite Es in Cy. rewrite Cy. cbn [mbind option_bind]. unfold cinfo. cbn [frame_begin].
    rewrite Hb. cbn [negb andb]. exists this'. split.
    + do 3 f_equal. cbn [accounts]. unfold move, account. cbn. by rewrite Hi, Hs.
    + cbn [mark_created]. rewrite Ky. done.
  - destruct (HK y ltac:(lia)) as [[cb cr] Ky].
    destruct (rep_in _ _ R y _ Ky) as (Iy & _ & Dy). rewrite Dy. cbn [mbind option_bind].
    destruct (set_flags_rep this K y _ (cb, true) (set_created true) R Ky eq_refl)
      as (this' & -> & R' & Er). cbn [mbind option_bind].
    assert (Es : size_ this' = size_ this) by (unfold rest in Er; by injection Er).
    destruct (rep_in _ _ R' y (cb, true) ltac:(by rewrite lookup_insert_eq)) as (_ & Cy & _).
    rewrite Es in Cy. rewrite Cy. cbn [mbind option_bind]. unfold cinfo at 1. cbn [frame_begin].
    rewrite (Hnb y ltac:(lia)). cbn [negb andb].
    replace (match video_type_header (video_header (p y)) with
             | Some _ => account (p y) w | None => account (p y) w end) with (account (p y) w)
      by by destruct (video_type_header _).
    rewrite Es, (proj2 (Z.eqb_neq (tested + 1) (size_ this))) by lia.
    change (start_index (account (p y) w)) with (start_index w). rewrite Hi.
    rewrite slot_prev by apply R.
    destruct (HK (y - 1) ltac:(lia)) as [f' Kp].
    destruct (rep_in _ _ R' (y - 1) f' ltac:(rewrite lookup_insert_ne by lia; done)) as (_ & Cp & Dp).
    rewrite Es in Cp, Dp. rewrite Cp, Dp. cbn [mbind option_bind andb].
    change (start_seq_num (account (p y) w)) with (start_seq_num w). rewrite Hs, seq_of_back.
    edestruct (IH this' (<[y := (cb, true)]> K) (y - 1) fuel (tested + 1))
      as (this'' & H & R'' & Er''); [done|..]; cycle -1.
    { rewrite H. exists this''. split; [|split; [|congruence]].
      - do 3 f_equal. rewrite accounts_move, Es.
        replace (y - 1 - Z.of_nat n) with (y - Z.of_nat (S n)) by lia. done.
      - change (mark_created (S (S n)) y K)
          with (mark_created (S n) (y - 1) (<[y := (default false (fst <$> K !! y), true)]> K)).
        rewrite Ky. done. }
    + intros z Hz. rewrite lookup_insert_ne by lia. apply HK. lia.
    + replace (y - 1 - Z.of_nat n) with (y - Z.of_nat (S n)) by lia. done.
    + intros z Hz. apply Hnb. lia.
    + rewrite Es. lia.
    + lia.
    + rewrite Es. done.
    + done.
Qed.

(** ** The frame object *)

Definition payload (x : Z) : list Z := default [] (dataPtr (p x)).
Definition nacked (x : Z) : Z := timesNacked (p x).
Definition recv (x : Z) : Z := receive_time_ms (packet_info (p x)).
Definition info (x : Z) : RtpPacketInfo := packet_info (p x).

(** The frame that consists of the packets from [a] to [b]. *)
Definition frame_of (a b : Z) : RtpFrameObject :=
  let l := seqZ a (b + 1 - a) in
  Frame (seq_of a) (seq_of b) (foldr Z.max (-1) (nacked <$> l)) (foldr Z.min (recv b) (recv <$> l))
    (foldr Z.max (recv b) (recv <$> l)) (p a) (p b) (info <$> l) (mjoin (payload <$> l)).

Lemma payload_len x : in_stream x -> len (payload x) = sizeBytes (p x).
Proof. intros Hx. destruct (st_data OK x Hx) as (bs & E & Hl). unfold payload. by rewrite E. Qed.

Lemma seqZ_snoc y n : seqZ (y - Z.of_nat n) (Z.of_nat (S n)) = seqZ (y - Z.of_nat n) (Z.of_nat n) ++ [y].
Proof.
  replace (Z.of_nat (S n)) with (Z.of_nat n + 1) by lia. rewrite seqZ_app by lia.
  replace (y - Z.of_nat n + Z.of_nat n) with y by lia. done.
Qed.

Lemma mjoin_app {A} (l k : list (list A)) : mjoin (l ++ k) = mjoin l ++ mjoin k.
Proof. induction l as [|x l IH]; [done|].
  change (x ++ mjoin (l ++ k) = (x ++ mjoin l) ++ mjoin k). by rewrite IH, app_assoc.
Qed.

Lemma accounts_eq n y w :
  (forall x, y - Z.of_nat n < x <= y -> in_stream x) ->
  let l := seqZ (y - Z.of_nat n + 1) (Z.of_nat n) in
  let w' := accounts n y w in
  frame_size w' = frame_size w + len (mjoin (payload <$> l)) /\
  max_nack_count w' = foldr Z.max (max_nack_count w) (nacked <$> l) /\
  min_recv_time w' = foldr Z.min (min_recv_time w) (recv <$> l) /\
  max_recv_time w' = foldr Z.max (max_recv_time w) (recv <$> l) /\
  rev (packet_infos w') = (info <$> l) ++ rev (packet_infos w).
Proof.
  revert y w. induction n as [|n IH]; intros y w Hr.
  { repeat split; try done. cbn zeta. change (len (mjoin _)) with 0. cbn. lia. }
  cbn zeta. cbn [accounts]. destruct (IH (y - 1) (account (p y) w)) as (H1 & H2 & H3 & H4 & H5).
  { intros x Hx. apply Hr. lia. }
  replace (y - Z.of_nat (S n) + 1) with (y - Z.of_nat n) by lia. rewrite seqZ_snoc.
  replace (y - 1 - Z.of_nat n + 1) with (y - Z.of_nat n) in * by lia.
  rewrite H1, H2, H3, H4, H5, !fmap_app, !foldr_app, mjoin_app. cbn [account frame_size
    max_nack_count min_recv_time max_recv_time packet_infos fmap list_fmap foldr mjoin list_join].
  rewrite app_nil_r, len_app, (payload_len y) by (apply Hr; lia).
  repeat split; try (f_equal; apply Z.max_comm || apply Z.min_comm); [lia|].
  rewrite rev_app_distr, <- app_assoc. done.
Qed.

(** ** Copying and clearing *)

Lemma opt_bind {A B} (m : option A) (k : A -> option B) x : m = Some x -> (m ≫= k) = k x.
Proof. by intros ->. Qed.

Lemma take_payload y :
  in_stream y ->
  (if sizeBytes (p y) =? 0 then Some [] else
   bs ← dataPtr (p y); check (sizeBytes (p y) <=? len bs) ;;
   Some (take (Z.to_nat (sizeBytes (p y))) bs)) = Some (payload y).
Proof.
  intros Hy. destruct (st_data OK y Hy) as (bs & E & Hl). unfold payload. rewrite E, <- Hl.
  cbn [default mbind option_bind id]. rewrite (proj2 (Z.leb_le (len bs) (len bs))) by lia.
  destruct (Z.eqb_spec (len bs) 0) as [E0|]; [by destruct bs|]. cbn.
  unfold len. by rewrite Nat2Z.id, firstn_all.
Qed.

Lemma copy_step this K y f fuel stop fs acc :
  rep this K -> K !! y = Some f -> len acc + len (payload y) <= fs ->
  copy_loop (S fuel) (y mod size_ this) stop fs acc this =
    if (y + 1) mod size_ this =? stop then Some (acc ++ payload y)
    else copy_loop fuel ((y + 1) mod size_ this) stop fs (acc ++ payload y) this.
Proof.
  intros R Ky Hl. destruct (rep_in _ _ R y f Ky) as (Iy & Cy & Dy). cbn [copy_loop].
  rewrite (opt_bind _ _ _ Cy), (opt_bind (check (used (cinfo y f))) _ tt eq_refl), (opt_bind _ _ _ Dy). cbn zeta.
  rewrite payload_len in Hl by done. rewrite (proj2 (Z.leb_le _ _) Hl).
  rewrite (opt_bind (check true) _ tt eq_refl), (opt_bind _ _ _ (take_payload y Iy)).
  by rewrite slot_next.
Qed.

Lemma copy_spec n this K y fuel fs acc :
  rep this K -> (forall z, y <= z <= y + Z.of_nat n -> is_Some (K !! z)) ->
  Z.of_nat n < size_ this -> (n < fuel)%nat ->
  len acc + len (mjoin (payload <$> seqZ y (Z.of_nat (S n)))) <= fs ->
  copy_loop fuel (y mod size_ this) ((y + Z.of_nat n + 1) mod size_ this) fs acc this =
    Some (acc ++ mjoin (payload <$> seqZ y (Z.of_nat (S n)))).
Proof.
  intros R. revert y fuel acc. induction n as [|n IH]; intros y fuel acc HK Hs Hf Hl;
    (destruct fuel as [|fuel]; [lia|]); destruct (HK y ltac:(lia)) as [f Ky].
  - change (Z.of_nat 1) with 1 in *. change (seqZ y 1) with [y] in *.
    rewrite mjoin_fmap_cons, app_nil_r in *. rewrite (copy_step this K y f) by done.
    replace (y + Z.of_nat 0 + 1) with (y + 1) by lia. by rewrite Z.eqb_refl.
  - rewrite (seqZ_cons y) in * by lia.
    replace (Z.succ y) with (y + 1) in * by lia.
    replace (Z.pred (Z.of_nat (S (S n)))) with (Z.of_nat (S n)) in * by lia.
    rewrite mjoin_fmap_cons in *. rewrite len_app in Hl.
    pose proof (len_nonneg (mjoin (payload <$> seqZ (y + 1) (Z.of_nat (S n))))).
    rewrite (copy_step this K y f) by (done || lia).
    destruct (Z.eqb_spec ((y + 1) mod size_ this) ((y + Z.of_nat (S n) + 1) mod size_ this)) as [E|_].
    { apply slot_eq in E; [lia|apply R|lia]. }
    replace (y + Z.of_nat (S n) + 1) with (y + 1 + Z.of_nat n + 1) by lia.
    rewrite IH; [by rewrite <- app_assoc|intros z Hz; apply HK; lia|lia|lia|].
    rewrite len_app. lia.
Qed.

(** The numbers from [y] on are removed. *)
Fixpoint removed (n : nat) (y : Z) (K : gmap Z (bool * bool)) : gmap Z (bool * bool) :=
  match n with
  | O => K
  | S n => removed n (y + 1) (delete y K)
  end.

Lemma clear_loop_spec n this K y :
  rep this K -> (forall z, y <= z < y + Z.of_nat n -> is_Some (K !! z)) ->
  exists this', clear_interval_loop n (seq_of y) this = Some this' /\
    rep this' (removed n y K) /\ rest this' = rest this.
Proof.
  revert this K y. induction n as [|n IH]; intros this K y R HK; cbn [clear_interval_loop removed].
  { by exists this. }
  destruct (HK y ltac:(lia)) as [f Ky]. destruct (rep_in _ _ R y f Ky) as (Iy & Cy & Dy).
  rewrite seq_slot by apply R. rewrite Cy, Dy. cbn [mbind option_bind cinfo seq_num].
  rewrite (st_seq OK y Iy), Z.eqb_refl. cbn [check mbind option_bind].
  unfold release, at_slot. rewrite Cy, Dy. cbn [mbind option_bind].
  pose proof (rep_release this K y f (set_dataPtr None (p y)) (set_used false (cinfo y f)) R Ky eq_refl) as R'.
  rewrite seq_of_shift.
  destruct (IH _ _ (y + 1) R') as (this' & -> & R'' & Er).
  { intros z Hz. rewrite lookup_delete_ne by lia. apply HK. lia. }
  exists this'. split; [done|]. split; [done|]. by rewrite Er.
Qed.

Lemma removed_lookup n y K x :
  removed n y K !! x = if decide (y <= x < y + Z.of_nat n) then None else K !! x.
Proof.
  revert y K. induction n as [|n IH]; intros y K; cbn [removed].
  { destruct (decide _); [lia|done]. }
  rewrite IH. destruct (decide (x = y)) as [->|Hne].
  - rewrite lookup_delete_eq. repeat case_decide; (done || lia).
  - rewrite lookup_delete_ne by done. repeat case_decide; (done || lia).
Qed.

Lemma mark_created_lookup n y K x :
  (mark_created n y K !! x) =
    if decide (y - Z.of_nat n < x <= y) then Some (default false (fst <$> K !! x), true) else K !! x.
Proof.
  revert y K. induction n as [|n IH]; intros y K; cbn [mark_created].
  { destruct (decide _); [lia|done]. }
  rewrite IH. destruct (decide (x = y)) as [->|Hne].
  - rewrite lookup_insert_eq. repeat case_decide; (done || lia).
  - rewrite lookup_insert_ne by done. repeat case_decide; (done || lia).
Qed.

(** ** The set of missing packets *)

(** The elements are numbers of the stream in order. *)
Definition misses (newest : option Z) (missing : list (Z * unit)) : Prop :=
  exists l, increasing l /\ (forall x, x ∈ l -> in_stream x.1) /\ missing = imaged seq_of l /\
    match newest with Some n => exists m, in_stream m /\ n = seq_of m | None => l = [] end.

(** What holds between two calls, whatever the packets. *)
Record Inv (this : t) (K : gmap Z (bool * bool)) : Prop := {
  inv_rep : rep this K;
  inv_misses : misses (newest_inserted_seq_num_ this) (missing_packets_ this);
  inv_cleared : is_cleared_to_first_seq_num_ this = false;
  inv_max : power_size (max_size_ this);
  inv_fits : size_ this <= max_size_ this;
  inv_room : N <= max_size_ this
}.

Lemma Inv_rest this this' K K' : Inv this K -> rep this' K' -> rest this' = rest this -> Inv this' K'.
Proof.
  intros [] R E. unfold rest in E. injection E as E1 E2 E3 E4 E5. constructor; congruence.
Qed.

Lemma near_stream (l : list (Z * unit)) k :
  (forall x, x ∈ l -> in_stream x.1) -> n0 - 1000 <= k <= n0 + N -> ordered_with NackModule.comp seq_of l k.
Proof.
  intros H Hk. apply near_ordered. intros x Hx. specialize (H x Hx). unfold in_stream in H.
  pose proof (st_len OK). lia.
Qed.

Lemma ahead_near x y :
  Z.abs (x - y) < 32768 -> RtpSequenceNumberMap.AheadOf (seq_of x) (seq_of y) = (y <? x).
Proof. intros H. apply (comp_near y x). lia. Qed.

Lemma insert_missing_spec n x q l :
  in_stream x -> n0 < q <= x -> x - q <= Z.of_nat n -> increasing l -> (forall y, y ∈ l -> in_stream y.1) ->
  exists l', insert_missing n (seq_of x) (seq_of q) (imaged seq_of l) =
      Some (seq_of x, imaged seq_of l') /\ increasing l' /\ (forall y, y ∈ l' -> in_stream y.1).
Proof.
  intros Hx. pose proof (st_len OK) as HN. pose proof Hx as Hx'. unfold in_stream in Hx'.
  revert q l. induction n as [|n IH]; intros q l Hq Hn Hi Hl; cbn [insert_missing];
    rewrite ahead_near by lia.
  - replace q with x by lia. rewrite Z.ltb_irrefl. cbn. by exists l.
  - destruct (Z.ltb_spec q x) as [Hlt|Hge]; cbn [negb].
    + rewrite insert_new_imaged by (try done; apply near_stream; (done || lia)).
      cbn [mbind option_bind]. rewrite seq_of_shift. apply IH; [lia|lia|by apply increasing_put|].
      intros y Hy. apply elem_of_app in Hy as [Hy|Hy].
      * apply Hl. by apply elem_of_below in Hy as [? _].
      * apply elem_of_cons in Hy as [->|Hy]; [cbn; unfold in_stream; lia|].
        apply Hl. by apply elem_of_above in Hy as [? _].
    + replace q with x by lia. by exists l.
Qed.

Lemma update_missing_spec this K x :
  Inv this K -> in_stream x ->
  exists this', UpdateMissingPackets (seq_of x) this = Some this' /\ Inv this' K.
Proof.
  intros I Hx. destruct (inv_misses _ _ I) as (l & Hi & Hl & El & Hn).
  pose proof (st_len OK) as HN. pose proof Hx as Hx'. unfold in_stream in Hx'.
  assert (Hdone : forall m l', in_stream m -> increasing l' -> (forall y, y ∈ l' -> in_stream y.1) ->
    Inv (with_missing (Some (seq_of m)) (imaged seq_of l') this) K).
  { intros m l' Hm Hi' Hl'. destruct I as [[] ? ? ? ? ?]. constructor; try done.
    exists l'. split; [done|]. split; [done|]. split; [done|]. cbn. by exists m. }
  assert (Herase : forall m, in_stream m -> exists this',
    (missing ← erase_key NackModule.comp (imaged seq_of l) (seq_of x);
     Some (with_missing (Some (seq_of m)) missing this)) = Some this' /\ Inv this' K).
  { intros m Hm. rewrite erase_key_imaged by (try done; apply near_stream; (done || lia)).
    eexists. split; [done|]. apply Hdone; [done|by apply increasing_cut|].
    intros y Hy. apply Hl. apply elem_of_app in Hy as [Hy|Hy];
      [by apply elem_of_below in Hy as [? _]|by apply elem_of_above in Hy as [? _]]. }
  unfold UpdateMissingPackets. rewrite El.
  destruct (newest_inserted_seq_num_ this) as [n|]; cbn [default id].
  - destruct Hn as (m & Hm & ->). pose proof Hm as Hm'. unfold in_stream in Hm'.
    rewrite ahead_near by lia. destruct (Z.ltb_spec m x) as [Hlt|Hge]; [|by apply Herase].
    unfold kMaxPaddingAge. rewrite seq_of_back.
    rewrite erase_below_imaged by (try done; apply near_stream; (done || lia)).
    cbn [mbind option_bind]. rewrite ahead_near by lia.
    set (q := if m <? x - 1000 then x - 1000 else m).
    replace (if m <? x - 1000 then seq_of (x - 1000) else seq_of m) with (seq_of q)
      by (unfold q; by destruct (m <? x - 1000)).
    rewrite seq_of_shift.
    assert (Hq : m <= q < x /\ x - q <= 1000) by (unfold q; destruct (Z.ltb_spec m (x - 1000)); lia).
    clearbody q.
    destruct (insert_missing_spec (Z.to_nat 1000) x (q + 1) (from (x - 1000) l))
      as (l' & H & Hi' & Hl'); [done|lia|lia|by apply increasing_from| |].
    { intros y Hy. apply Hl. by apply elem_of_from in Hy as [? _]. }
    unfold mbind, option_bind. rewrite H. eexists. split; [done|]. by apply Hdone.
  - subst l. rewrite ahead_near by lia. rewrite Z.ltb_irrefl. by apply Herase.
Qed.

Lemma erase_through_spec this K x :
  Inv this K -> in_stream x ->
  exists missing, erase_through NackModule.comp (missing_packets_ this) (seq_of x) = Some missing /\
    Inv (with_missing (newest_inserted_seq_num_ this) missing this) K.
Proof.
  intros I Hx. destruct (inv_misses _ _ I) as (l & Hi & Hl & El & Hn). rewrite El.
  pose proof Hx as Hx'. unfold in_stream in Hx'.
  rewrite erase_through_imaged by (try done; apply near_stream; (done || lia)).
  eexists. split; [done|]. destruct I as [[] ? ? ? ? ?]. constructor; try done.
  exists (above x l). split; [by apply increasing_above|]. split; [|split; [done|]].
  - intros y Hy. apply Hl. by apply elem_of_above in Hy as [? _].
  - cbn. destruct (newest_inserted_seq_num_ this); [done|]. by subst l.
Qed.

(** ** Assembling a frame *)

(** Packets in a row have slots of their own. *)
Lemma run_fits this K a b :
  rep this K -> (forall y, a <= y <= b -> is_Some (K !! y)) -> b - a < size_ this.
Proof.
  intros R H. destruct (Z.lt_ge_cases (b - a) (size_ this)) as [|Hge]; [done|exfalso].
  pose proof (power_size_pos _ (rep_size _ _ R)).
  destruct (H a ltac:(lia)) as [f Ha]. destruct (H (a + size_ this) ltac:(lia)) as [f' Hb].
  assert (a = a + size_ this); [|lia]. apply (rep_inj this K _ _ f f' R Ha Hb).
  rewrite <- (Z.mul_1_l (size_ this)) at 2. by rewrite Z_mod_plus_full.
Qed.

Lemma whole_no_begin a b y : whole a b -> a < y <= b -> beg y = false.
Proof.
  intros (Ha & Hb & _ & _ & _ & Hf) Hy. unfold in_stream in *.
  pose proof (st_next OK (y - 1) ltac:(lia)) as H. replace (y - 1 + 1) with y in H by lia.
  rewrite H. apply Hf. lia.
Qed.

Lemma get_packet_spec this K x f : rep this K -> K !! x = Some f -> GetPacket (seq_of x) this = Some (p x).
Proof.
  intros R Hx. destruct (rep_in _ _ R x f Hx) as (Ix & Cx & Dx). unfold GetPacket.
  rewrite seq_slot by apply R. rewrite Cx. cbn [mbind option_bind cinfo used seq_num].
  rewrite Z.eqb_refl. done.
Qed.

Lemma walk_spec this K a b :
  rep this K -> whole a b -> (forall y, a <= y <= b -> is_Some (K !! y)) ->
  let l := seqZ a (b + 1 - a) in
  exists w this', look_for_frame (Z.to_nat (size_ this)) 0 false (timestamp (p b))
      (Walk (b mod size_ this) (seq_of b) 0 (-1) (recv b) (recv b) [] false false false false) this =
      Some (Some w, this') /\
    rep this' (mark_created (Z.to_nat (b + 1 - a)) b K) /\ rest this' = rest this /\
    start_seq_num w = seq_of a /\ frame_size w = len (mjoin (payload <$> l)) /\
    max_nack_count w = foldr Z.max (-1) (nacked <$> l) /\
    min_recv_time w = foldr Z.min (recv b) (recv <$> l) /\
    max_recv_time w = foldr Z.max (recv b) (recv <$> l) /\ rev (packet_infos w) = (info <$> l).
Proof.
  intros R Hw HK l. pose proof Hw as (Ha & Hb & Hab & Hbeg & Hfin & Hnf).
  pose proof (run_fits _ _ _ _ R HK) as Hfit. pose proof (power_size_pos _ (rep_size _ _ R)).
  set (w0 := Walk (b mod size_ this) (seq_of b) 0 (-1) _ _ _ _ _ _ _).
  set (n := Z.to_nat (b - a)). assert (En : Z.of_nat n = b - a) by lia.
  destruct (look_spec n this K b (Z.to_nat (size_ this)) 0 (timestamp (p b)) w0)
    as (this1 & H1 & R1 & Er1); try done; try (rewrite En; replace (b - (b - a)) with a by lia).
  { intros z Hz. apply HK. lia. }
  { done. }
  { intros z Hz. by apply (whole_no_begin a b). }
  { lia. }
  { lia. }
  destruct (accounts_eq (S n) b w0) as (A1 & A2 & A3 & A4 & A5).
  { intros x Hx. unfold in_stream in *. lia. }
  replace (b - Z.of_nat (S n) + 1) with a in * by lia.
  replace (Z.of_nat (S n)) with (b + 1 - a) in * by lia. fold l in A1, A2, A3, A4, A5.
  replace (b - Z.of_nat n) with a in * by lia.
  exists (move (a mod size_ this) (seq_of a) (accounts (S n) b w0)), this1. split; [done|].
  split; [by replace (Z.to_nat (b + 1 - a)) with (S n) by lia|].
  split; [done|]. split; [done|]. repeat split; cbn [move frame_size max_nack_count min_recv_time
    max_recv_time packet_infos]; try done. by rewrite A5, app_nil_r.
Qed.

Lemma image_spec g this K a b :
  rep this K -> a <= b -> (forall y, a <= y <= b -> is_Some (K !! y)) ->
  let bytes := mjoin (payload <$> seqZ a (b + 1 - a)) in
  GetEncodedImageBuffer g (len bytes) (seq_of a) (seq_of b) this = Some bytes.
Proof.
  intros R Hab HK bytes. pose proof (run_fits _ _ _ _ R HK) as Hfit.
  pose proof (power_size_pos _ (rep_size _ _ R)).
  pose proof (copy_spec (Z.to_nat (b - a)) this K a (Z.to_nat (size_ this)) (len bytes) [] R) as Hc.
  rewrite Z2Nat.id in Hc by lia. replace (a + (b - a) + 1) with (b + 1) in Hc by lia.
  replace (Z.of_nat (S (Z.to_nat (b - a)))) with (b + 1 - a) in Hc by lia. fold bytes in Hc.
  unfold GetEncodedImageBuffer. rewrite seq_slot by apply R.
  replace ((seq_of b + 1) mod size_ this) with ((b + 1) mod size_ this)
    by (rewrite <- (slot_next _ b), <- (slot_next _ (seq_of b)), seq_slot by apply R; done).
  rewrite Hc; [|intros z Hz; apply HK; lia|lia|lia|rewrite len_nil; lia].
  cbn [mbind option_bind app]. rewrite Z.sub_diag. cbn. by rewrite app_nil_r.
Qed.

Lemma interval_spec this K a b :
  rep this K -> in_stream a -> in_stream b -> a <= b -> (forall y, a <= y <= b -> is_Some (K !! y)) ->
  exists this', ClearInterval (seq_of a) (seq_of b) this = Some this' /\
    rep this' (removed (Z.to_nat (b + 1 - a)) a K) /\ rest this' = rest this.
Proof.
  intros R Ha Hb Hab HK. pose proof (run_fits _ _ _ _ R HK) as Hfit.
  unfold ClearInterval. rewrite seq_of_shift. pose proof (inr_near a b Ha Hb).
  pose proof (forward_diff (a - 1) (b + 1) ltac:(lia) ltac:(lia)) as Hd.
  rewrite seq_of_shift in Hd. replace (a - 1 + 1) with a in Hd by lia. rewrite Hd.
  replace (b + 1 - (a - 1) - 1) with (b + 1 - a) by lia. cbn [mbind option_bind].
  rewrite (proj2 (Z.leb_le _ _)) by lia. cbn [check mbind option_bind].
  apply clear_loop_spec; [done|]. intros z Hz. apply HK. lia.
Qed.

Lemma assemble_spec g this K a b :
  Inv this K -> whole a b -> (forall y, a <= y <= b -> is_Some (K !! y)) ->
  exists this' K', assemble g (seq_of b) this = Some (Some (frame_of a b), this') /\ Inv this' K' /\
    forall x, K' !! x = if decide (a <= x <= b) then None else K !! x.
Proof.
  intros I Hw HK. pose proof (inv_rep _ _ I) as R. pose proof Hw as (Ha & Hb & Hab & _).
  destruct (HK b ltac:(lia)) as [f Kb]. destruct (rep_in _ _ R b f Kb) as (_ & _ & Db).
  unfold assemble. rewrite seq_slot by apply R. rewrite (opt_bind _ _ _ Db). cbn zeta.
  rewrite (st_codec OK b Hb).
  destruct (walk_spec this K a b R Hw HK) as (w & this1 & H1 & R1 & Er1 & Es & Ew & W2 & W3 & W4 & W5).
  unfold recv in H1. rewrite (opt_bind _ _ _ H1). cbn [negb mbind option_bind].
  pose proof (Inv_rest _ _ _ _ I R1 Er1) as I1.
  destruct (erase_through_spec _ _ b I1 Hb) as (missing & Hm & I2).
  set (K1 := mark_created (Z.to_nat (b + 1 - a)) b K) in *.
  assert (HK1 : forall y, a <= y <= b -> is_Some (K1 !! y)).
  { intros y Hy. unfold K1. rewrite mark_created_lookup, decide_True by lia. by eexists. }
  destruct (HK1 a ltac:(lia)) as [fa Ka1]. destruct (HK1 b ltac:(lia)) as [fb Kb1].
  set (this2 := with_missing (newest_inserted_seq_num_ this1) missing this1) in *.
  pose proof (inv_rep _ _ I2) as R2.
  destruct (interval_spec this2 K1 a b R2 Ha Hb Hab HK1) as (this3 & H3 & R3 & Er3).
  unfold mbind, option_bind. rewrite Hm, Es, Ew, W2, W3, W4, W5. fold this2.
  rewrite (get_packet_spec this2 K1 a fa R2 Ka1), (get_packet_spec this2 K1 b fb R2 Kb1).
  rewrite (image_spec g this2 K1 a b R2 Hab HK1), H3.
  exists this3, (removed (Z.to_nat (b + 1 - a)) a K1). split; [done|].
  split; [by eapply Inv_rest|]. intros x. rewrite removed_lookup. unfold K1. rewrite mark_created_lookup.
  repeat case_decide; (done || lia).
Qed.

(** ** Frames and arrivals *)

Lemma frames_unique a b a' b' z :
  whole a b -> whole a' b' -> a <= z <= b -> a' <= z <= b' -> a = a' /\ b = b'.
Proof.
  intros W W' Hz Hz'. pose proof W as (_ & _ & _ & Hb & Hf & Hn).
  pose proof W' as (_ & _ & _ & Hb' & Hf' & Hn'). split.
  - destruct (Z.lt_trichotomy a a') as [Hlt|[->|Hlt]]; [|done|].
    + by rewrite (whole_no_begin a b a' W ltac:(lia)) in Hb'.
    + by rewrite (whole_no_begin a' b' a W' ltac:(lia)) in Hb.
  - destruct (Z.lt_trichotomy b b') as [Hlt|[->|Hlt]]; [|done|].
    + by rewrite Hn' in Hf by lia.
    + by rewrite Hn in Hf' by lia.
Qed.

(** A packet continues a frame when it begins one or the packet before it does and does not end it. *)
Lemma cont_prev S x :
  in_stream x -> cont S x <-> x ∈ S /\ (beg x = true \/ (in_stream (x - 1) /\ beg x = false /\ cont S (x - 1))).
Proof.
  intros Hx. split.
  - intros (a & Ha & Hle & Hb & Hf & Hr). split; [apply Hr; lia|].
    destruct (decide (a = x)) as [->|Hne]; [by left|right].
    assert (Hp : in_stream (x - 1)) by (unfold in_stream in *; lia).
    pose proof (st_next OK (x - 1) ltac:(unfold in_stream in *; lia)) as Hn.
    replace (x - 1 + 1) with x in Hn by lia. rewrite Hf in Hn by lia.
    split; [done|]. split; [done|]. exists a.
    split; [done|]. split; [lia|]. split; [done|]. split; [intros y Hy; apply Hf; lia|].
    intros y Hy. apply Hr. lia.
  - intros [Hin [Hb|(Hp & Hb & a & Ha & Hle & Hba & Hf & Hr)]].
    + exists x. split; [done|]. split; [lia|]. split; [done|]. split; [intros y Hy; lia|].
      intros y Hy. by replace y with x by lia.
    + pose proof (st_next OK (x - 1) ltac:(unfold in_stream in *; lia)) as Hn.
      replace (x - 1 + 1) with x in Hn by lia. exists a.
      split; [done|]. split; [lia|]. split; [done|]. split.
      * intros y Hy. destruct (decide (y = x - 1)) as [->|]; [congruence|apply Hf; lia].
      * intros y Hy. destruct (decide (y = x)) as [->|]; [done|apply Hr; lia].
Qed.

Lemma cont_dec S x : in_stream x -> cont S x \/ ~ cont S x.
Proof.
  intros Hx. remember (Z.to_nat (x - n0)) as k eqn:Ek. revert x Hx Ek.
  induction k as [k IH] using lt_wf_ind. intros x Hx ->.
  destruct (decide (x ∈ S)) as [Hin|Hout]; [|right; rewrite cont_prev by done; tauto].
  destruct (beg x) eqn:Eb; [left; apply cont_prev; tauto|].
  destruct (begin_or_prev x Hx) as [Hb|(Hp & _)]; [congruence|].
  destruct (IH (Z.to_nat (x - 1 - n0)) ltac:(unfold in_stream in *; lia) (x - 1) Hp eq_refl) as [Hc|Hc].
  - left. apply cont_prev; [done|]. split; [done|]. by right.
  - right. rewrite cont_prev by done. intros [_ [Hb|(_ & _ & Hc')]]; [congruence|done].
Qed.

(** How far the packets of a frame are there. *)
Lemma run_end S x :
  in_stream x -> x ∈ S -> exists e, x <= e /\ in_stream e /\ run S x e /\ (forall z, x <= z < e -> fin z = false) /\
    (fin e = true \/ (fin e = false /\ (e + 1 ∉ S \/ e + 1 = n0 + N))).
Proof.
  intros Hx Hin. remember (Z.to_nat (n0 + N - x)) as k eqn:Ek. revert x Hx Hin Ek.
  induction k as [k IH] using lt_wf_ind. intros x Hx Hin ->.
  assert (Hstop : (fin x = true \/ (fin x = false /\ (x + 1 ∉ S \/ x + 1 = n0 + N))) ->
    exists e, x <= e /\ in_stream e /\ run S x e /\ (forall z, x <= z < e -> fin z = false) /\
      (fin e = true \/ (fin e = false /\ (e + 1 ∉ S \/ e + 1 = n0 + N)))).
  { intros H. exists x. split; [lia|]. split; [done|]. split; [|split; [intros z Hz; lia|done]].
    intros y Hy. by replace y with x by lia. }
  destruct (fin x) eqn:Ef; [by apply Hstop; left|].
  destruct (decide (x + 1 ∈ S)) as [Hin'|]; [|by apply Hstop; right; auto].
  destruct (decide (x + 1 = n0 + N)); [by apply Hstop; right; auto|].
  destruct (IH (Z.to_nat (n0 + N - (x + 1))) ltac:(unfold in_stream in *; lia) (x + 1)
    ltac:(unfold in_stream in *; lia) Hin' eq_refl) as (e & He & Ie & Hr & Hf & Hend).
  exists e. split; [lia|]. split; [done|]. split; [|split; [|done]].
  - intros y Hy. destruct (decide (y = x)) as [->|]; [done|apply Hr; lia].
  - intros z Hz. destruct (decide (z = x)) as [->|]; [done|apply Hf; lia].
Qed.

Lemma done_cont S x : done_in S x -> cont S x.
Proof.
  intros (a & b & (Ha & _ & _ & Hb & _ & Hf) & Hx & Hr). exists a.
  split; [done|]. split; [lia|]. split; [done|]. split; [intros y Hy; apply Hf; lia|].
  intros y Hy. apply Hr. lia.
Qed.

(** A frame whose last packet is there with all before it is complete. *)
Lemma cont_fin_whole S x : in_stream x -> cont S x -> fin x = true -> done_in S x.
Proof.
  intros Hx (a & Ha & Hle & Hb & Hf & Hr) He. exists a, x.
  split; [by repeat split; try apply Ha; try apply Hx|]. split; [lia|done].
Qed.

(** One more arrival. *)
Section Arrival.
Context (S : gset Z) (x : Z).
Let S' : gset Z := {[x]} ∪ S.

Lemma cont_mono y : cont S y -> cont S' y.
Proof.
  intros (a & H1 & H2 & H3 & H4 & H5). exists a. repeat (split; [done|]).
  intros z Hz. by apply elem_of_union_r, H5.
Qed.

Lemma done_mono y : done_in S y -> done_in S' y.
Proof.
  intros (a & b & H1 & H2 & H3). exists a, b. repeat (split; [done|]).
  intros z Hz. by apply elem_of_union_r, H3.
Qed.

Lemma run_without a b : run S' a b -> ~ (a <= x <= b) -> run S a b.
Proof.
  intros H Hx y Hy. specialize (H y Hy).
  apply elem_of_union in H as [->%elem_of_singleton|H]; [lia|done].
Qed.

Lemma done_new y :
  done_in S' y -> done_in S y \/ exists a b, whole a b /\ a <= y <= b /\ a <= x <= b /\ run S' a b.
Proof.
  intros (a & b & H1 & H2 & H3). destruct (decide (a <= x <= b)).
  - right. by exists a, b.
  - left. exists a, b. repeat (split; [done|]). by apply run_without.
Qed.

Lemma cont_new y :
  cont S' y -> cont S y \/ exists a, in_stream a /\ beg a = true /\ a <= x <= y /\
    (forall z, a <= z < y -> fin z = false) /\ run S' a y.
Proof.
  intros (a & H1 & H2 & H3 & H4 & H5). destruct (decide (a <= x <= y)).
  - right. by exists a.
  - left. exists a. repeat (split; [done|]). by apply run_without.
Qed.
End Arrival.

(** ** The loop over continuous packets *)

(** The buffer holds the packets that arrived and whose frame is not complete. *)
Definition view (S : gset Z) (K : gmap Z (bool * bool)) : Prop :=
  (forall x, in_stream x -> x ∈ S -> ~ done_in S x -> is_Some (K !! x)) /\
  (forall x cb cr, K !! x = Some (cb, cr) ->
     in_stream x /\ x ∈ S /\ ~ done_in S x /\ cr = false /\ (cb = true <-> cont S x)).

Lemma loop_step g n this K y cb found :
  Inv this K -> in_stream y -> K !! y = Some (cb, false) -> continues K y = true ->
  exists this', Inv this' (<[y := (true, false)]> K) /\
    find_loop g (S n) (seq_of y) found this =
      if fin y then
        '(r, this) ← assemble g (seq_of y) this';
        match r with
        | None => Some (found, this)
        | Some frame => find_loop g n (seq_of (y + 1)) (found ++ [frame]) this
        end
      else find_loop g n (seq_of (y + 1)) found this'.
Proof.
  intros I Hy Ky Hc. pose proof (inv_rep _ _ I) as R. cbn [find_loop].
  rewrite (potential_spec this K y R (or_introl Hy)), Ky, Hc. cbn [mbind option_bind negb andb].
  rewrite seq_slot by apply R.
  destruct (set_flags_rep this K y _ (true, false) (set_continuous true) R Ky eq_refl)
    as (this' & Ha & R' & Er). rewrite Ha. cbn [mbind option_bind].
  exists this'. split; [by eapply Inv_rest|].
  assert (Es : size_ this' = size_ this) by (unfold rest in Er; by injection Er).
  destruct (rep_in _ _ R' y (true, false) ltac:(by rewrite lookup_insert_eq)) as (_ & Cy & _).
  rewrite Es in Cy. rewrite Cy. cbn [mbind option_bind cinfo frame_end].
  by rewrite seq_of_shift.
Qed.

Lemma marks g m this K y e n found :
  Inv this K -> m = Z.to_nat (e - y) -> in_stream y -> y <= e <= n0 + N -> continues K y = true ->
  (forall z, y <= z < e -> exists cb, K !! z = Some (cb, false)) ->
  (forall z, y <= z < e -> fin z = false) ->
  exists this' K', find_loop g (m + n) (seq_of y) found this = find_loop g n (seq_of e) found this' /\
    Inv this' K' /\
    forall x, K' !! x = if decide (y <= x < e) then Some (true, false) else K !! x.
Proof.
  revert this K y. induction m as [|m IH]; intros this K y I Em Hy He Hc HK Hf.
  { replace e with y by lia. exists this, K. split; [done|]. split; [done|].
    intros x. by rewrite decide_False by lia. }
  destruct (HK y ltac:(lia)) as [cb Ky].
  destruct (loop_step g (m + n) this K y cb found I Hy Ky Hc) as (this1 & I1 & E1).
  rewrite Hf in E1 by lia. cbn [Nat.add]. rewrite E1.
  assert (Hfin : forall z, z = y -> (<[y:=(true, false)]> K : gmap Z (bool * bool)) !! z = Some (true, false))
    by (intros z ->; apply lookup_insert_eq).
  destruct (decide (y + 1 = e)) as [<-|Hne].
  - assert (m = 0%nat) as -> by lia. exists this1, (<[y := (true, false)]> K).
    split; [done|]. split; [done|]. intros x. destruct (decide (y <= x < y + 1)).
    + apply Hfin. lia.
    + by rewrite lookup_insert_ne by lia.
  - destruct (IH this1 (<[y := (true, false)]> K) (y + 1) I1) as (this' & K' & E & I' & HK');
      [lia|unfold in_stream in *; lia|lia| | | |].
    + unfold continues. replace (y + 1 - 1) with y by lia. rewrite lookup_insert_eq. apply orb_true_r.
    + intros z Hz. rewrite lookup_insert_ne by lia. apply HK. lia.
    + intros z Hz. apply Hf. lia.
    + exists this', K'. split; [done|]. split; [done|]. intros x. rewrite HK'.
      destruct (decide (x = y)) as [->|Hxy].
      * rewrite lookup_insert_eq. repeat case_decide; (done || lia).
      * rewrite lookup_insert_ne by done. repeat case_decide; (done || lia).
Qed.

(** Nothing is left to find. *)
Lemma idle S g n this K y found :
  Inv this K -> view S K -> (in_stream y \/ y = n0 + N) ->
  exists this', find_loop g n (seq_of y) found this = Some (found, this') /\ Inv this' K.
Proof.
  revert this y. induction n as [|n IH]; intros this y I V Hy; [by exists this|].
  pose proof (inv_rep _ _ I) as R. destruct V as [V1 V2].
  assert (Hstop : (match K !! y with Some (_, cr) => negb cr && continues K y | None => false end) = false ->
    exists this', find_loop g (Datatypes.S n) (seq_of y) found this = Some (found, this') /\ Inv this' K).
  { intros H. cbn [find_loop]. rewrite (potential_spec this K y R Hy), H. by exists this. }
  destruct (K !! y) as [[cb cr]|] eqn:Ky; [|by apply Hstop].
  destruct (V2 y cb cr Ky) as (Iy & Hin & Hnd & -> & Hcb).
  destruct (continues K y) eqn:Ec; [|by apply Hstop].
  assert (Hc : cont S y).
  { apply cont_prev; [done|]. split; [done|]. unfold continues in Ec.
    destruct (begin_or_prev y Iy) as [Hb|(Ip & _)]; [by left|]. destruct (beg y) eqn:Eb; [by left|right].
    destruct (K !! (y - 1)) as [[cb' cr']|] eqn:Kp; [|done].
    destruct (V2 _ _ _ Kp) as (_ & _ & _ & -> & Hp). split; [done|]. split; [done|]. by apply Hp. }
  destruct (loop_step g n this K y cb found I Iy Ky Ec) as (this1 & I1 & ->).
  destruct (fin y) eqn:Ef; [by destruct Hnd; apply cont_fin_whole|].
  rewrite insert_id in I1 by (rewrite Ky; by rewrite (proj2 Hcb Hc)).
  apply IH; [done|done|]. unfold in_stream in *. lia.
Qed.

(** ** Finding the frame of a packet that arrives *)

(** What is delivered when [x] completes the packets [S]. *)
Definition delivered (S : gset Z) (x : Z) (out : list RtpFrameObject) : Prop :=
  (exists a b, whole a b /\ a <= x <= b /\ run S a b /\ out = [frame_of a b]) \/
  (~ done_in S x /\ out = []).

Section Found.
Context (S : gset Z) (x : Z) (K : gmap Z (bool * bool)) (V : view S K) (Hx : in_stream x) (Hnew : x ∉ S).
Let S' : gset Z := {[x]} ∪ S.
Let K1 : gmap Z (bool * bool) := <[x := (false, false)]> K.

Lemma fresh_absent : K !! x = None.
Proof.
  destruct (K !! x) as [[cb cr]|] eqn:E; [|done]. by destruct (proj2 V x cb cr E) as (_ & ? & _).
Qed.

(** The packets of the frame of [x] that arrived in a row are in the buffer. *)
Lemma in_chain_held a e y :
  in_stream a -> in_stream e -> beg a = true -> (forall z, a <= z < e -> fin z = false) -> a <= x <= e ->
  a <= y <= e -> run S' a e -> exists cb, K1 !! y = Some (cb, false).
Proof.
  intros Ha He Hb Hf Hax Hay Hr. destruct (decide (y = x)) as [->|Hne].
  { exists false. apply lookup_insert_eq. }
  pose proof (Hr y Hay) as Hin. apply elem_of_union in Hin as [->%elem_of_singleton|Hin]; [done|].
  assert (Iy : in_stream y) by (unfold in_stream in *; lia).
  destruct (proj1 V y Iy Hin) as [[cb cr] Ky].
  - intros (a' & b' & W' & Hy' & Hr'). apply Hnew, Hr'.
    pose proof W' as (Wa & Wb & _ & Wbeg & Wfin & Wf). split.
    + destruct (Z.le_gt_cases a' x) as [|Hgt]; [done|exfalso].
      pose proof (st_next OK (a' - 1) ltac:(unfold in_stream in *; lia)) as Hn.
      replace (a' - 1 + 1) with a' in Hn by lia. rewrite Hf in Hn by lia. congruence.
    + destruct (Z.le_gt_cases x b') as [|Hgt]; [done|exfalso]. rewrite Hf in Wfin by lia. done.
  - destruct (proj2 V y cb cr Ky) as (_ & _ & _ & -> & _). exists cb. unfold K1. by rewrite lookup_insert_ne.
Qed.

Lemma chain_continues : cont S' x -> continues K1 x = true.
Proof.
  intros Hc. apply cont_prev in Hc as [_ [Hb|(Hp & Hb & Hc)]]; [unfold continues; by rewrite Hb| |done].
  assert (HcS : cont S (x - 1)).
  { destruct (cont_new S x (x - 1) Hc) as [|(a & _ & _ & Ha & _)]; [done|lia]. }
  unfold continues. rewrite Hb. cbn [orb]. unfold K1. rewrite lookup_insert_ne by lia.
  pose proof HcS as (a & _ & Hle & _ & _ & Hr).
  destruct (proj1 V (x - 1) Hp (Hr (x - 1) ltac:(lia))) as [[cb cr] Ky].
  - intros (a' & b' & W' & Hy' & Hr'). destruct (decide (b' = x - 1)) as [->|Hne].
    + pose proof W' as (_ & _ & _ & _ & Wfin & _).
      pose proof (st_next OK (x - 1) ltac:(unfold in_stream in *; lia)) as Hn.
      replace (x - 1 + 1) with x in Hn by lia. congruence.
    + apply Hnew, Hr'. lia.
  - rewrite Ky. destruct (proj2 V _ _ _ Ky) as (_ & _ & _ & -> & Hcb). by rewrite (proj2 Hcb HcS).
Qed.

(** The packet does not continue anything. *)
Lemma view_waiting : ~ cont S' x -> view S' K1.
Proof.
  intros Hnc. split.
  - intros y Iy Hin Hnd. unfold K1. destruct (decide (y = x)) as [->|Hne].
    { rewrite lookup_insert_eq. by eexists. }
    rewrite lookup_insert_ne by done.
    apply elem_of_union in Hin as [->%elem_of_singleton|Hin]; [done|].
    apply (proj1 V); [done|done|]. intros Hd. by apply Hnd, done_mono.
  - intros y cb cr Ky. unfold K1 in Ky. destruct (decide (y = x)) as [->|Hne].
    { rewrite lookup_insert_eq in Ky. injection Ky as <- <-. split; [done|].
      split; [by apply elem_of_union_l, elem_of_singleton|].
      split; [intros Hd; by apply Hnc, done_cont|]. split; [done|]. split; [done|]. by intros Hc. }
    rewrite lookup_insert_ne in Ky by done. destruct (proj2 V y cb cr Ky) as (Iy & Hin & Hnd & -> & Hcb). split; [done|].
    split; [by apply elem_of_union_r|]. split; [|split; [done|]].
    + intros [Hd|(a & b & W & Hy & Hxx & Hr)]%done_new; [done|].
      apply Hnc, done_cont. by exists a, b.
    + rewrite Hcb. split; [apply cont_mono|]. intros [Hc|(a & Ia & Hb & Hxx & Hf & Hr)]%cont_new; [done|].
      exfalso. apply Hnc. exists a. split; [done|]. split; [lia|]. split; [done|].
      split; [intros z Hz; apply Hf; lia|]. intros z Hz. apply Hr. lia.
Qed.

(** Its frame is complete and delivered. *)
Lemma view_delivered a b K' :
  whole a b -> a <= x <= b -> run S' a b ->
  (forall y, K' !! y = if decide (a <= y <= b) then None else K !! y) -> view S' K'.
Proof.
  intros W Hax Hr HK'. split.
  - intros y Iy Hin Hnd. rewrite HK'. destruct (decide (a <= y <= b)) as [Hy|Hy].
    { destruct Hnd. by exists a, b. }
    apply elem_of_union in Hin as [->%elem_of_singleton|Hin]; [lia|].
    apply (proj1 V); [done|done|]. intros Hd. by apply Hnd, done_mono.
  - intros y cb cr Ky. rewrite HK' in Ky. destruct (decide (a <= y <= b)) as [|Hy]; [done|].
    destruct (proj2 V y cb cr Ky) as (Iy & Hin & Hnd & -> & Hcb). split; [done|].
    split; [by apply elem_of_union_r|]. split; [|split; [done|]].
    + intros [Hd|(a' & b' & W' & Hy' & Hx' & Hr')]%done_new; [done|].
      destruct (frames_unique a b a' b' x W W' Hax Hx') as [-> ->]. done.
    + rewrite Hcb. split; [apply cont_mono|].
      intros [Hc|(a' & Ia & Hb & Hx' & Hf & _)]%cont_new; [done|]. destruct Hy.
      pose proof W as (Wa & Wb & _ & Wbeg & Wfin & Wf).
      assert (Hya : a <= y) by lia. split; [done|].
      destruct (Z.le_gt_cases y b) as [|Hgt]; [done|]. rewrite Hf in Wfin by lia. done.
Qed.

(** The packets from [x] to [e] continue a frame that is not complete. *)
Lemma view_marked a e K' :
  in_stream a -> in_stream e -> beg a = true -> a <= x <= e -> run S' a e ->
  (forall z, a <= z <= e -> fin z = false) -> (e + 1 ∉ S' \/ e + 1 = n0 + N) ->
  (forall y, K' !! y = if decide (x <= y < e + 1) then Some (true, false) else K1 !! y) -> view S' K'.
Proof.
  intros Ia Ie Hb Hax Hr Hf Hend HK'.
  assert (Hopen : forall a' b' y, whole a' b' -> run S' a' b' -> a' <= y <= b' -> a <= y <= e -> False).
  { intros a' b' y W' Hr' Hy' Hy. pose proof W' as (Wa & Wb & _ & _ & Wfin & _).
    destruct (Z.le_gt_cases b' e) as [Hle|Hgt]; [by rewrite Hf in Wfin by lia|].
    destruct Hend as [Hend|Hend]; [apply Hend, Hr'; lia|unfold in_stream in *; lia]. }
  split.
  - intros y Iy Hin Hnd. rewrite HK'. destruct (decide (x <= y < e + 1)) as [|Hy]; [by eexists|].
    apply elem_of_union in Hin as [->%elem_of_singleton|Hin]; [lia|].
    unfold K1. rewrite lookup_insert_ne by lia.
    apply (proj1 V); [done|done|]. intros Hd. by apply Hnd, done_mono.
  - intros y cb cr Ky. rewrite HK' in Ky. destruct (decide (x <= y < e + 1)) as [Hy|Hy].
    + injection Ky as <- <-. split; [unfold in_stream in *; lia|]. split; [apply Hr; lia|]. split; [|split; [done|split; [|done]]].
      * intros (a' & b' & W' & Hy' & Hr'). apply (Hopen a' b' y); (done || lia).
      * intros _. exists a. split; [done|]. split; [lia|]. split; [done|].
        split; [intros z Hz; apply Hf; lia|]. intros z Hz. apply Hr. lia.
    + unfold K1 in Ky. rewrite lookup_insert_ne in Ky by lia.
      destruct (proj2 V y cb cr Ky) as (Iy & Hin & Hnd & -> & Hcb). split; [done|].
      split; [by apply elem_of_union_r|]. split; [|split; [done|]].
      * intros [Hd|(a' & b' & W' & Hy' & Hx' & Hr')]%done_new; [done|].
        apply (Hopen a' b' x); (done || lia).
      * rewrite Hcb. split; [apply cont_mono|].
        intros [Hc|(a' & Ia' & Hb' & Hx' & Hf' & Hr')]%cont_new; [done|exfalso].
        assert (e + 1 <= y) by lia. destruct Hend as [Hend|Hend]; [apply Hend, Hr'; lia|].
        unfold in_stream in *. lia.
Qed.
End Found.

Section Chain.
Context (S : gset Z) (x : Z) (K : gmap Z (bool * bool)) (V : view S K) (Hx : in_stream x) (Hnew : x ∉ S).
Let S' : gset Z := {[x]} ∪ S.
Let K1 : gmap Z (bool * bool) := <[x := (false, false)]> K.
Context (g : list Z) (this : t) (I : Inv this K1) (a e : Z) (Ia : in_stream a) (Ie : in_stream e)
  (Hb : beg a = true) (Hax : a <= x <= e) (Hrun : run S' a e)
  (Hopen : forall z, a <= z < e -> fin z = false) (Hcont : continues K1 x = true).

Lemma chain_held y : a <= y <= e -> exists cb, K1 !! y = Some (cb, false).
Proof. intros Hy. by apply (in_chain_held S x K V Hx Hnew a e). Qed.

Lemma chain_fits : e - x < size_ this.
Proof.
  apply (run_fits this K1); [apply I|]. intros y Hy. destruct (chain_held y ltac:(lia)) as [cb ->].
  by eexists.
Qed.

(** The frame is complete: the loop marks its packets up to the last, assembles it, and finds
    nothing more. *)
Lemma found_complete :
  fin e = true ->
  exists this' K', FindFrames g (seq_of x) this = Some ([frame_of a e], this') /\ Inv this' K' /\ view S' K'.
Proof.
  intros Hfin. pose proof chain_fits as Hfit. unfold FindFrames.
  assert (W : whole a e) by (split; [done|]; split; [done|]; split; [lia|done]).
  set (m := Z.to_nat (size_ this - (e - x) - 1)).
  replace (Z.to_nat (size_ this)) with (Z.to_nat (e - x) + Datatypes.S m)%nat by (unfold m; lia).
  destruct (marks g (Z.to_nat (e - x)) this K1 x e (Datatypes.S m) []) as (this1 & K2 & E1 & I1 & HK2);
    try done; try (unfold in_stream in *; lia).
  { intros z Hz. apply chain_held. lia. }
  { intros z Hz. apply Hopen. lia. }
  rewrite E1. destruct (chain_held e ltac:(lia)) as [cb Ke].
  assert (Ke2 : K2 !! e = Some (cb, false)) by (rewrite HK2, decide_False by lia; done).
  assert (Hc2 : continues K2 e = true).
  { destruct (decide (e = x)) as [->|Hne]; unfold continues; rewrite HK2.
    - by rewrite decide_False by lia.
    - rewrite decide_True by lia. apply orb_true_r. }
  destruct (loop_step g m this1 K2 e cb [] I1 Ie Ke2 Hc2) as (this2 & I2 & E2). rewrite E2, Hfin.
  destruct (assemble_spec g this2 _ a e I2 W) as (this3 & K3 & E3 & I3 & HK3).
  { intros y Hy. destruct (decide (y = e)) as [->|Hne]; [rewrite lookup_insert_eq; by eexists|].
    rewrite lookup_insert_ne, HK2 by done. destruct (decide _); [by eexists|].
    destruct (chain_held y Hy) as [cb' ->]. by eexists. }
  rewrite E3. cbn [mbind option_bind app].
  assert (V3 : view S' K3).
  { apply (view_delivered S x K V a e); [done|lia|done|]. intros y. rewrite HK3.
    destruct (decide (a <= y <= e)); [done|]. rewrite lookup_insert_ne, HK2 by lia.
    rewrite decide_False by lia. unfold K1. by rewrite lookup_insert_ne by lia. }
  destruct (idle S' g m this3 K3 (e + 1) [frame_of a e] I3 V3) as (this4 & E4 & I4);
    [unfold in_stream in *; lia|]. by exists this4, K3.
Qed.

(** The frame goes on: the loop marks the packets that are there. *)
Lemma found_open :
  fin e = false -> e + 1 ∉ S' \/ e + 1 = n0 + N ->
  exists this' K', FindFrames g (seq_of x) this = Some ([], this') /\ Inv this' K' /\ view S' K' /\ ~ done_in S' x.
Proof.
  intros Hfin Hend. pose proof chain_fits as Hfit. unfold FindFrames.
  assert (Hopen' : forall z, a <= z <= e -> fin z = false).
  { intros z Hz. destruct (decide (z = e)) as [->|]; [done|apply Hopen; lia]. }
  set (m := Z.to_nat (size_ this - (e + 1 - x))).
  replace (Z.to_nat (size_ this)) with (Z.to_nat (e + 1 - x) + m)%nat by (unfold m; lia).
  destruct (marks g (Z.to_nat (e + 1 - x)) this K1 x (e + 1) m []) as (this1 & K2 & E1 & I1 & HK2);
    try done; try (unfold in_stream in *; lia).
  { intros z Hz. apply chain_held. lia. }
  { intros z Hz. apply Hopen'. lia. }
  assert (V2 : view S' K2) by by apply (view_marked S x K V Hx a e).
  rewrite E1. destruct (idle S' g m this1 K2 (e + 1) [] I1 V2) as (this2 & E2 & I2);
    [unfold in_stream in *; lia|].
  exists this2, K2. split; [done|]. split; [done|]. split; [done|].
  apply (proj2 V2 x true false). by rewrite HK2, decide_True by lia.
Qed.
End Chain.

Lemma found_spec g this S x K :
  Inv this (<[x := (false, false)]> K) -> view S K -> in_stream x -> x ∉ S ->
  exists this' K' out, FindFrames g (seq_of x) this = Some (out, this') /\ Inv this' K' /\
    view ({[x]} ∪ S) K' /\ delivered ({[x]} ∪ S) x out.
Proof.
  intros I V Hx Hnew. set (S' := {[x]} ∪ S).
  destruct (cont_dec S' x Hx) as [Hc|Hnc]; cycle 1.
  { pose proof (view_waiting S x K V Hx Hnc) as V'.
    destruct (idle S' g (Z.to_nat (size_ this)) this _ x [] I V' (or_introl Hx)) as (this' & E & I').
    exists this', (<[x := (false, false)]> K), []. split; [done|]. split; [done|].
    split; [done|]. right. split; [|done]. intros Hd. by apply Hnc, done_cont. }
  pose proof (chain_continues S x K V Hx Hnew Hc) as Hcont.
  pose proof Hc as (a & Ia & Hle & Hb & Hf & Hr).
  destruct (run_end S' x Hx ltac:(apply Hr; lia)) as (e & Hxe & Ie & Hre & Hfe & Hend).
  assert (Hrun : run S' a e).
  { intros y Hy. destruct (Z.le_gt_cases y x); [apply Hr|apply Hre]; lia. }
  assert (Hopen : forall z, a <= z < e -> fin z = false).
  { intros z Hz. destruct (Z.lt_ge_cases z x); [apply Hf|apply Hfe]; lia. }
  destruct Hend as [Hfin|[Hfin Hend]].
  - destruct (found_complete S x K V Hx Hnew g this I a e) as (this' & K' & H1 & H2 & H3); try done.
    exists this', K', [frame_of a e]. split; [done|]. split; [done|]. split; [done|]. left.
    exists a, e. split; [|split; [lia|done]]. split; [done|]. split; [done|]. split; [lia|done].
  - destruct (found_open S x K V Hx Hnew g this I a e) as (this' & K' & H1 & H2 & H3 & H4); try done.
    exists this', K', []. split; [done|]. split; [done|]. split; [done|]. by right.
Qed.

(** ** Growing the rings *)

Lemma rehash_len ns data infos nd ni :
  length (rehash ns data infos nd ni).1 = length nd /\ length (rehash ns data infos nd ni).2 = length ni.
Proof.
  revert infos nd ni. induction data as [|d data IH]; intros [|c infos] nd ni; cbn [rehash]; try done.
  destruct (used c); [|apply IH]. destruct (IH infos (<[Z.to_nat (seq_num c mod ns):=d]> nd)
    (<[Z.to_nat (seq_num c mod ns):=c]> ni)) as [-> ->]. by rewrite !length_insert.
Qed.

(** A slot no old element goes to. *)
Lemma rehash_miss ns data infos nd ni j :
  (forall i c, infos !! i = Some c -> used c = true -> Z.to_nat (seq_num c mod ns) <> j) ->
  (rehash ns data infos nd ni).1 !! j = nd !! j /\ (rehash ns data infos nd ni).2 !! j = ni !! j.
Proof.
  revert infos nd ni. induction data as [|d data IH]; intros [|c infos] nd ni H; cbn [rehash]; try done.
  assert (H' : forall i c, infos !! i = Some c -> used c = true -> Z.to_nat (seq_num c mod ns) <> j)
    by (intros i; apply (H (Datatypes.S i))).
  destruct (used c) eqn:Eu; [|by apply IH].
  destruct (IH infos (<[Z.to_nat (seq_num c mod ns):=d]> nd) (<[Z.to_nat (seq_num c mod ns):=c]> ni) H') as [-> ->].
  rewrite !list_lookup_insert_ne; [done|by apply (H 0%nat c)..].
Qed.

(** A slot exactly one goes to. *)
Lemma rehash_hit ns data infos nd ni i d c j :
  data !! i = Some d -> infos !! i = Some c -> used c = true -> Z.to_nat (seq_num c mod ns) = j ->
  (j < length nd)%nat -> (j < length ni)%nat ->
  (forall i' c', i' <> i -> infos !! i' = Some c' -> used c' = true -> Z.to_nat (seq_num c' mod ns) <> j) ->
  (rehash ns data infos nd ni).1 !! j = Some d /\ (rehash ns data infos nd ni).2 !! j = Some c.
Proof.
  revert infos nd ni i. induction data as [|d' data IH]; intros [|c' infos] nd ni i Hd Hc Hu Hj Hl1 Hl2 Hothers;
    try done. destruct i as [|i]; cbn [rehash].
  - cbn in Hd, Hc. injection Hd as <-. injection Hc as <-. rewrite Hu, Hj.
    destruct (rehash_miss ns data infos (<[j:=d']> nd) (<[j:=c']> ni) j) as [-> ->].
    { intros i' c'' Hi. by apply (Hothers (Datatypes.S i')). }
    by rewrite !list_lookup_insert_eq.
  - assert (Hrest : forall i' c'', i' <> i -> infos !! i' = Some c'' -> used c'' = true ->
      Z.to_nat (seq_num c'' mod ns) <> j) by (intros i' c'' Hne; apply (Hothers (Datatypes.S i')); lia).
    destruct (used c'); apply (IH _ _ _ i); rewrite ?length_insert; done.
Qed.

Lemma rehash_inv ns data infos nd ni j c :
  (rehash ns data infos nd ni).2 !! j = Some c ->
  ni !! j = Some c \/
  exists i c', infos !! i = Some c' /\ used c' = true /\ Z.to_nat (seq_num c' mod ns) = j.
Proof.
  revert infos nd ni. induction data as [|d data IH]; intros [|c' infos] nd ni H; cbn [rehash] in H; try by left.
  destruct (used c') eqn:Eu.
  - apply IH in H as [H|(i & c'' & H)]; [|by right; exists (Datatypes.S i), c''].
    destruct (decide (Z.to_nat (seq_num c' mod ns) = j)) as [E|E]; [by right; exists 0%nat, c'|].
    rewrite list_lookup_insert_ne in H by done. by left.
  - apply IH in H as [H|(i & c'' & H)]; [by left|by right; exists (Datatypes.S i), c''].
Qed.

Lemma slot_double size x y : x mod (2 * size) = y mod (2 * size) -> 0 < size -> x mod size = y mod size.
Proof.
  intros E Hs. rewrite <- (Z.mod_mod_divide x (2 * size) size), E by (exists 2; lia).
  apply Z.mod_mod_divide. exists 2. lia.
Qed.

Lemma rehash_rep this K :
  rep this K -> power_size (2 * size_ this) ->
  let r := rehash (2 * size_ this) (data_buffer_ this) (sequence_buffer_ this)
    (replicate (Z.to_nat (2 * size_ this)) no_packet) (replicate (Z.to_nat (2 * size_ this)) no_info) in
  rep (with_rings (2 * size_ this) r.1 r.2 this) K.
Proof.
  intros R Hp r. pose proof (power_size_pos _ (rep_size _ _ R)) as Hs.
  destruct (rehash_len (2 * size_ this) (data_buffer_ this) (sequence_buffer_ this)
    (replicate (Z.to_nat (2 * size_ this)) no_packet) (replicate (Z.to_nat (2 * size_ this)) no_info)) as [L1 L2].
  rewrite length_replicate in L1. rewrite length_replicate in L2.
  assert (Hold : forall i c, sequence_buffer_ this !! i = Some c -> used c = true ->
    exists x f, K !! x = Some f /\ c = cinfo x f /\ i = Z.to_nat (x mod size_ this)).
  { intros i c Hc Hu. pose proof (lookup_lt_Some _ _ _ Hc) as Hi. rewrite (rep_info_len _ _ R) in Hi.
    destruct (rep_used _ _ R (Z.of_nat i) c) as (x & f & Kx & E); [lia|unfold info_at; by rewrite Nat2Z.id|done|].
    exists x, f. destruct (rep_in _ _ R x f Kx) as (_ & Cx & _). unfold info_at in Cx.
    rewrite E, Nat2Z.id, Hc in Cx. injection Cx as ->. split; [done|]. split; [done|]. lia. }
  constructor; cbn [size_ data_buffer_ sequence_buffer_ with_rings]; [done|done|done| |].
  - intros x f Kx. destruct (rep_in _ _ R x f Kx) as (Ix & Cx & Dx). split; [done|].
    pose proof (slot_range _ x Hp) as Hr. unfold info_at, data_at in *. cbn [data_buffer_ sequence_buffer_ with_rings].
    destruct (rehash_hit (2 * size_ this) (data_buffer_ this) (sequence_buffer_ this)
      (replicate (Z.to_nat (2 * size_ this)) no_packet) (replicate (Z.to_nat (2 * size_ this)) no_info)
      _ _ _ (Z.to_nat (x mod (2 * size_ this))) Dx Cx) as [H1 H2]; try (rewrite length_replicate; lia).
    + done.
    + cbn [cinfo seq_num]. by rewrite seq_slot.
    + intros i' c' Hne Hc' Hu' E. destruct (Hold i' c' Hc' Hu') as (y & f' & Ky & -> & ->).
      cbn [cinfo seq_num] in E. rewrite seq_slot in E by done. pose proof (slot_range _ y Hp).
      apply Hne. f_equal. apply (slot_double (size_ this)); lia.
    + by split.
  - intros i c Hi Hc Hu. unfold info_at in Hc. cbn [sequence_buffer_ with_rings] in Hc.
    apply rehash_inv in Hc as [Hc|(i' & c' & Hc' & Hu' & E)].
    + apply lookup_replicate in Hc as [-> _]. done.
    + destruct (Hold i' c' Hc' Hu') as (x & f & Kx & -> & _). exists x, f. split; [done|].
      cbn [cinfo seq_num] in E. rewrite seq_slot in E by done. pose proof (slot_range _ x Hp). lia.
Qed.

Lemma expand_spec this K :
  Inv this K -> size_ this <> max_size_ this ->
  exists this', ExpandBufferSize this = (true, this') /\ Inv this' K /\ size_ this' = 2 * size_ this /\
    max_size_ this' = max_size_ this.
Proof.
  intros I Hne. pose proof (inv_rep _ _ I) as R. destruct (rep_size _ _ R) as (k & Hk & Ek).
  destruct (inv_max _ _ I) as (m & Hm & Em). pose proof (inv_fits _ _ I) as Hle.
  assert (Hkm : k < m).
  { destruct (Z.le_gt_cases m k) as [H|]; [|done]. exfalso. apply Hne.
    pose proof (Z.pow_le_mono_r 2 m k ltac:(lia) H). lia. }
  assert (Hd : 2 * size_ this = 2 ^ (k + 1)) by (rewrite Ek, Z.pow_add_r by lia; lia).
  pose proof (Z.pow_le_mono_r 2 (k + 1) m ltac:(lia) ltac:(lia)) as Hfit.
  unfold ExpandBufferSize. rewrite (proj2 (Z.eqb_neq _ _) Hne), (Z.min_r (max_size_ this)) by lia.
  pose proof (rehash_rep this K R) as R'. destruct (rehash _ _ _ _ _) as [data infos].
  eexists. split; [done|]. split; [|done]. destruct I. constructor; try done; [|cbn; lia].
  apply R'. exists (k + 1). split; [lia|done].
Qed.

(** A packet that is not in the buffer finds a free slot. *)
Lemma expand_loop_spec n this K x c :
  Inv this K -> in_stream x -> K !! x = None -> info_at this (x mod size_ this) = Some c -> used c = true ->
  max_size_ this < size_ this * 2 ^ Z.of_nat n ->
  exists this' c', expand_loop n (seq_of x) this = Some this' /\ Inv this' K /\
    info_at this' (x mod size_ this') = Some c' /\ used c' = false.
Proof.
  revert this c. induction n as [|n IH]; intros this c I Hx Kx Hc Hu Hn.
  { pose proof (inv_fits _ _ I). change (2 ^ Z.of_nat 0) with 1 in Hn. lia. }
  pose proof (inv_rep _ _ I) as R. pose proof (slot_range _ x (rep_size _ _ R)) as Hs.
  assert (Hne : size_ this <> max_size_ this).
  { intros E. destruct (rep_used _ _ R _ c Hs Hc Hu) as (y & f & Ky & Ey).
    destruct (rep_in _ _ R y f Ky) as (Iy & _). pose proof (inv_room _ _ I).
    apply slot_eq in Ey; [subst; congruence|apply R|unfold in_stream in *; lia]. }
  destruct (expand_spec this K I Hne) as (this1 & E1 & I1 & Es & Em). cbn [expand_loop]. rewrite E1.
  cbn [negb]. pose proof (inv_rep _ _ I1) as R1. rewrite seq_slot by apply R1.
  pose proof (slot_range _ x (rep_size _ _ R1)) as Hs1.
  destruct (proj2 (slot_some this1 K _ R1 Hs1)) as [c1 Hc1]. rewrite Hc1. cbn [mbind option_bind].
  destruct (used c1) eqn:Eu; [|by exists this1, c1].
  apply (IH this1 c1); try done. rewrite Es, Em.
  rewrite Nat2Z.inj_succ, Z.pow_succ_r in Hn by lia. lia.
Qed.

(** ** Inserting a packet *)

Lemma free_slot this K x c :
  rep this K -> info_at this (x mod size_ this) = Some c -> used c = false ->
  forall y f, K !! y = Some f -> y mod size_ this = x mod size_ this -> y = x.
Proof.
  intros R Hc Hu y f Ky E. destruct (rep_in _ _ R y f Ky) as (_ & Cy & _).
  rewrite E, Hc in Cy. injection Cy as ->. done.
Qed.

Lemma store_spec g now this S K x c :
  Inv this K -> view S K -> in_stream x -> x ∉ S ->
  info_at this (x mod size_ this) = Some c -> used c = false ->
  exists this' K' out, store_packet g (p x) now this = Some (true, out, this') /\ Inv this' K' /\
    view ({[x]} ∪ S) K' /\ delivered ({[x]} ∪ S) x out.
Proof.
  intros I V Hx Hnew Hc Hu. pose proof (inv_rep _ _ I) as R. unfold store_packet.
  rewrite (st_seq OK x Hx), seq_slot by apply R. unfold at_slot.
  destruct (proj1 (slot_some this K _ R (slot_range _ x (rep_size _ _ R)))) as [d Hd].
  rewrite Hd, Hc. cbn [mbind option_bind].
  replace (new_info (p x)) with (cinfo x (false, false)) by (unfold new_info, cinfo; by rewrite (st_seq OK x Hx)).
  pose proof (rep_put this K x (false, false) R Hx (free_slot this K x c R Hc Hu)) as R1.
  assert (I1 := Inv_rest _ _ _ _ I R1 eq_refl).
  destruct (update_missing_spec _ _ x I1 Hx) as (this2 & E2 & I2).
  unfold mbind, option_bind. rewrite E2.
  set (this3 := with_received _ _ this2).
  assert (I3 : Inv this3 (<[x := (false, false)]> K)) by (destruct I2 as [[] ? ? ? ? ?]; by constructor).
  destruct (found_spec g this3 S x K I3 V Hx Hnew) as (this' & K' & out & E & H). rewrite E.
  by exists this', K', out.
Qed.

Lemma insert_spec g now this S K x :
  Inv this K -> view S K -> in_stream x -> x ∉ S ->
  exists this' K' out, InsertPacket g (p x) now this = Some (true, out, this') /\ Inv this' K' /\
    view ({[x]} ∪ S) K' /\ delivered ({[x]} ∪ S) x out.
Proof.
  intros I V Hx Hnew. unfold InsertPacket.
  assert (exists this1, OnTimestampReceived (timestamp (p x)) this = Some this1 /\ Inv this1 K)
    as (this1 & -> & I1).
  { unfold OnTimestampReceived. destruct (decide _); [by exists this|].
    assert (Hh : forall n s q, Inv (with_history n s q this) K)
      by (intros; destruct I as [[] ? ? ? ? ?]; by constructor).
    destruct (_ <? _); [|eexists; by split].
    destruct (rtp_timestamps_history_queue_ this); eexists; by split. }
  cbn [mbind option_bind]. rewrite (inv_cleared _ _ I1), andb_false_r.
  set (this2 := if (_ : bool) then with_first _ _ _ this1 else this1).
  assert (I2 : Inv this2 K) by (unfold this2; destruct (_ || _); [|done]; destruct I1 as [[] ? ? ? ? ?]; by constructor).
  clearbody this2. clear this1 I1 I this. pose proof (inv_rep _ _ I2) as R. rewrite (st_seq OK x Hx), seq_slot by apply R.
  pose proof (slot_range _ x (rep_size _ _ R)) as Hs.
  destruct (proj2 (slot_some this2 K _ R Hs)) as [c Hc]. rewrite Hc. cbn [mbind option_bind].
  assert (Kx : K !! x = None) by by eapply fresh_absent.
  destruct (used c) eqn:Eu; [|by apply (store_spec g now this2 S K x c)].
  destruct (rep_used _ _ R _ c Hs Hc Eu) as (y & f & Ky & Ey).
  destruct (rep_in _ _ R y f Ky) as (Iy & _ & Dy). rewrite Ey in Dy. rewrite Dy. cbn [mbind option_bind].
  rewrite (st_seq OK y Iy). destruct (Z.eqb_spec (seq_of y) (seq_of x)) as [E|_].
  { apply seq_of_inj in E; [subst; congruence|]. pose proof (inr_near x y Hx Iy). lia. }
  destruct (expand_loop_spec 65 this2 K x c) as (this3 & c3 & E3 & I3 & Hc3 & Hu3); try done.
  { pose proof (power_size_pos _ (inv_max _ _ I2)). pose proof (power_size_pos _ (rep_size _ _ R)). lia. }
  unfold mbind, option_bind. rewrite E3, seq_slot by apply I3. rewrite Hc3, Hu3.
  by apply (store_spec g now this3 S K x c3).
Qed.

End Stream.

(** ** Streams in any order *)

(** Packets with the readings of the clock when they arrive; the results of the calls. *)
Fixpoint insert_all (g : list Z) (l : list (VCMPacket * Z)) (this : t)
    : option (list (bool * list RtpFrameObject) * t) :=
  match l with
  | [] => Some ([], this)
  | (packet, now) :: l =>
      '(ok, frames, this) ← InsertPacket g packet now this;
      '(outs, this) ← insert_all g l this;
      Some ((ok, frames) :: outs, this)
  end.

Section Runs.
Context (p : Z -> VCMPacket) (n0 N : Z) (OK : stream_ok p n0 N) (g : list Z) (now : Z -> Z).

Abbreviation frame x := (frame_of p x.1 x.2).

(** The frames that became complete between two sets of arrivals. *)
Definition completed (S S' : gset Z) (ds : list (Z * Z)) : Prop :=
  NoDup ds /\ forall a b, (a, b) ∈ ds <-> whole p n0 N a b /\ run S' a b /\ ~ run S a b.

Lemma run_sub (S S' : gset Z) a b : S ⊆ S' -> run S a b -> run S' a b.
Proof. intros H Hr y Hy. by apply H, Hr. Qed.

Lemma delivered_completed S x out :
  x ∉ S -> delivered p n0 N ({[x]} ∪ S) x out ->
  exists ds, out = (fun d => frame d) <$> ds /\ completed S ({[x]} ∪ S) ds.
Proof using OK.
  intros Hnew [(a & b & W & Hx & Hr & ->)|[Hnd ->]].
  - exists [(a, b)]. split; [done|]. split; [apply NoDup_singleton|]. intros a' b'.
    rewrite list_elem_of_singleton. split.
    + intros [= -> ->]. split; [done|]. split; [done|]. intros Hr'. apply Hnew, Hr'. lia.
    + intros (W' & Hr' & Hnr). destruct (decide (a' <= x <= b')) as [Hx'|Hx'].
      * destruct (frames_unique p n0 N OK a b a' b' x W W' Hx Hx') as [-> ->]. done.
      * destruct Hnr. by apply (run_without S x).
  - exists []. split; [done|]. split; [apply NoDup_nil_2|]. intros a' b'. split; [by intros ?%not_elem_of_nil|].
    intros (W' & Hr' & Hnr). exfalso. destruct (decide (a' <= x <= b')) as [Hx'|Hx'].
    + apply Hnd. by exists a', b'.
    + destruct Hnr. by apply (run_without S x).
Qed.

Lemma completed_trans (S S1 S2 : gset Z) d1 d2 :
  S ⊆ S1 -> S1 ⊆ S2 -> (forall a b, run S1 a b \/ ~ run S1 a b) ->
  completed S S1 d1 -> completed S1 S2 d2 -> completed S S2 (d1 ++ d2).
Proof.
  intros H1 H2 Hdec [N1 C1] [N2 C2]. split.
  - apply NoDup_app. split; [done|]. split; [|done]. intros [a b] Hin1 Hin2.
    apply C1 in Hin1 as (_ & Hr & _). by apply C2 in Hin2 as (_ & _ & Hnr).
  - intros a b. rewrite elem_of_app, C1, C2. split.
    + intros [(W & Hr & Hnr)|(W & Hr & Hnr)]; (split; [done|]; split; [|]).
      * by eapply run_sub.
      * done.
      * done.
      * intros Hr'. by apply Hnr, (run_sub S).
    + intros (W & Hr & Hnr). destruct (Hdec a b) as [Hr1|Hr1]; [left|right]; done.
Qed.

Lemma run_dec (S : gset Z) a b : run S a b \/ ~ run S a b.
Proof.
  destruct (decide (Forall (fun y => y ∈ S) (seqZ a (b + 1 - a)))) as [H|H]; rewrite Forall_forall in H.
  - left. intros y Hy. apply H, elem_of_seqZ. lia.
  - right. intros Hr. apply H. intros y Hy%elem_of_seqZ. apply Hr. lia.
Qed.

Lemma arrivals_cons (x : Z) k (S : gset Z) :
  list_to_set (x :: k) ∪ S = list_to_set k ∪ ({[x]} ∪ S).
Proof. by rewrite list_to_set_cons, (comm_L (∪) {[x]}), <- (assoc_L (∪)). Qed.

Lemma insert_all_spec l this K S :
  Inv p n0 N this K -> view p n0 N S K -> NoDup l -> (forall x, x ∈ l -> in_stream n0 N x /\ x ∉ S) ->
  exists outs this' K' ds, insert_all g ((fun x => (p x, now x)) <$> l) this = Some (outs, this') /\
    Inv p n0 N this' K' /\ view p n0 N (list_to_set l ∪ S) K' /\ length outs = length l /\
    (forall i x, l !! i = Some x -> exists out, outs !! i = Some (true, out) /\
       delivered p n0 N (list_to_set (take (Datatypes.S i) l) ∪ S) x out) /\
    mjoin (snd <$> outs) = (fun d => frame d) <$> ds /\ completed S (list_to_set l ∪ S) ds.
Proof using OK.
  revert this K S. induction l as [|x l IH]; intros this K S I V Hnd Hl.
  { exists [], this, K, []. cbn. rewrite (left_id_L ∅ (∪)). split; [done|]. split; [done|]. split; [done|].
    split; [done|]. split; [done|]. split; [done|]. split; [apply NoDup_nil_2|].
    intros a b. split; [by intros ?%not_elem_of_nil|]. by intros (_ & ? & ?). }
  apply NoDup_cons in Hnd as [Hxl Hnd]. destruct (Hl x ltac:(constructor)) as [Hx Hnew].
  destruct (insert_spec p n0 N OK g (now x) this S K x I V Hx Hnew) as (this1 & K1 & out & E1 & I1 & V1 & D1).
  destruct (IH this1 K1 ({[x]} ∪ S) I1 V1 Hnd) as (outs & this' & K' & ds & E & I' & V' & Hlen & Hd & Hj & Hc).
  { intros y Hy. split; [apply Hl; by constructor|]. intros [->%elem_of_singleton|Hin]%elem_of_union; [done|].
    by destruct (Hl y ltac:(by constructor)). }
  pose proof (fun k => arrivals_cons x k S) as Hset.
  destruct (delivered_completed S x out Hnew D1) as (d1 & Eo & Hc1).
  exists ((true, out) :: outs), this', K', (d1 ++ ds).
  split. { cbn [fmap list_fmap insert_all]. rewrite E1. cbn [mbind option_bind]. by rewrite E. }
  split; [done|]. split; [by rewrite Hset|]. split; [cbn; by rewrite Hlen|]. split; [|split].
  - intros [|i] y Hy.
    + injection Hy as <-. exists out. split; [done|].
      change (take 1 (x :: l)) with (x :: take 0 l). rewrite Hset.
      change (list_to_set (take 0 l)) with (∅ : gset Z). by rewrite (left_id_L ∅ (∪)).
    + destruct (Hd i y Hy) as (out' & H1 & H2). exists out'. split; [done|]. cbn [take]. by rewrite Hset.
  - rewrite mjoin_fmap_cons, Hj, fmap_app, Eo. done.
  - rewrite Hset. apply (completed_trans S ({[x]} ∪ S)); [apply union_subseteq_r|apply union_subseteq_r|apply run_dec|done|done].
Qed.
End Runs.

Lemma power_check size : power_size size -> Z.land size (size - 1) = 0.
Proof.
  intros (k & Hk & ->). rewrite land_ones_mod by lia. apply Z_mod_same_full.
Qed.

Lemma buffer_construct_spec p n0 N start max trial :
  power_size start -> power_size max -> start <= max -> N <= max ->
  exists this, construct start max trial = Some this /\ Inv p n0 N this ∅.
Proof.
  intros Hs Hm Hle HN. unfold construct. rewrite !power_check, (proj2 (Z.leb_le _ _) Hle) by done.
  eexists. split; [done|]. constructor; cbn; try done.
  - constructor; cbn; [done|by rewrite length_replicate..|done|].
    intros i c Hi Hc. unfold info_at in Hc. cbn in Hc. by apply lookup_replicate in Hc as [-> _].
  - exists []. split; [apply increasing_nil|]. split; [by intros x ?%not_elem_of_nil|]. done.
Qed.

(** C15: frames are delivered whole, once, and as soon as they are complete, in whatever order their
    packets arrive.  Let a stream of at most 2^14 packets of a codec other than H.264 be cut into
    frames by the flags of its packets, and let any of its packets be inserted, each at most once and in any
    order, into an empty [PacketBuffer] whose rings may grow to hold the range of their numbers.  Every call
    of [InsertPacket] returns true.  It delivers the frame of the inserted packet when that
    packet is the last of the frame to arrive, and nothing otherwise: the frame object has the numbers
    of the first and last packet, the payloads of all packets joined in order, their packet infos,
    the extremes of their receive times and their largest NACK count.  In total exactly the frames
    all of whose packets arrived are delivered, each once, and only packets of incomplete frames stay in the
    buffer. *)
Theorem frame_assembly g p n0 N start max trial l now :
  stream_ok p n0 N -> power_size start -> power_size max -> start <= max -> N <= max ->
  NoDup l -> (forall x, x ∈ l -> in_stream n0 N x) ->
  exists this0 outs this ds, construct start max trial = Some this0 /\
    insert_all g ((fun x => (p x, now x)) <$> l) this0 = Some (outs, this) /\
    length outs = length l /\
    (forall i x, l !! i = Some x -> exists out, outs !! i = Some (true, out) /\
       delivered p n0 N (list_to_set (take (Datatypes.S i) l)) x out) /\
    mjoin (snd <$> outs) = (fun d => frame_of p d.1 d.2) <$> ds /\ NoDup ds /\
    (forall a b, (a, b) ∈ ds <-> whole p n0 N a b /\ run (list_to_set l) a b) /\
    (forall i c, sequence_buffer_ this !! i = Some c -> used c = true ->
       exists x, x ∈ l /\ seq_num c = seq_of x /\ ~ done_in p n0 N (list_to_set l) x).
Proof.
  intros OK Hs Hm Hle HN Hnd Hl.
  destruct (buffer_construct_spec p n0 N start max trial Hs Hm Hle HN) as (this0 & E0 & I0).
  destruct (insert_all_spec p n0 N OK g now l this0 ∅ ∅ I0) as
    (outs & this & K & ds & E & I & V & Hlen & Hd & Hj & [Hn Hc]); [by split|done| |].
  { intros x Hx. split; [by apply Hl|apply not_elem_of_empty]. }
  rewrite (right_id_L ∅ (∪)) in V, Hc. exists this0, outs, this, ds.
  split; [done|]. split; [done|]. split; [done|]. split; [|split; [done|split; [done|split]]].
  - intros i x Hx. destruct (Hd i x Hx) as (out & H1 & H2). rewrite (right_id_L ∅ (∪)) in H2. by exists out.
  - intros a b. rewrite Hc. split; [tauto|]. intros (W & Hr). split; [done|]. split; [done|].
    intros He. pose proof W as (_ & _ & Hab & _). by apply (not_elem_of_empty (C := gset Z) a), He.
  - intros i c Hi Hu. pose proof (inv_rep _ _ _ _ _ I) as R. pose proof (lookup_lt_Some _ _ _ Hi) as Hlt.
    rewrite (rep_info_len _ _ _ _ _ R) in Hlt.
    destruct (rep_used _ _ _ _ _ R (Z.of_nat i) c) as (x & [cb cr] & Kx & Ex);
      [lia|unfold info_at; by rewrite Nat2Z.id|done|].
    destruct (rep_in _ _ _ _ _ R x _ Kx) as (_ & Cx & _). unfold info_at in Cx.
    rewrite Ex, Nat2Z.id, Hi in Cx. injection Cx as ->.
    destruct (proj2 V x cb cr Kx) as (_ & Hin & Hnd' & _). exists x. split; [|by split].
    by apply elem_of_list_to_set in Hin.
Qed.

(** Two frames around the wrap of the sequence numbers, of one and of three packets. *)
Definition sample_packet (x : Z) : VCMPacket :=
  VCM 96 (if x =? 65535 then 3000 else 6000) 0 (seq_of x) (Some [x - 65000]) 1 false (-1)
    (VideoHeader kVideoFrameDelta 0 0 (x <=? 65536) 0 kVideoCodecVP8 None)
    ((x =? 65535) || (x =? 65538)) kNoTemporalIdx None (PacketInfo 1 6000 x).

Lemma sample_stream : stream_ok sample_packet 65535 4.
Proof.
  assert (Hi : forall x, in_stream 65535 4 x -> x = 65535 \/ x = 65536 \/ x = 65537 \/ x = 65538)
    by (unfold in_stream; lia).
  constructor; try done; try (cbn; lia).
  - intros x Hx. by exists [x - 65000].
  - intros x Hx. assert (x = 65535 \/ x = 65536 \/ x = 65537) as [->|[->| ->]] by lia; done.
Qed.

Lemma frame_assembly_witness :
  let l := [65538; 65535; 65537; 65536] in
  exists this0 outs this ds, construct 2 8 false = Some this0 /\
    insert_all [] ((fun x => (sample_packet x, 7)) <$> l) this0 = Some (outs, this) /\
    length outs = length l /\ mjoin (snd <$> outs) = (fun d => frame_of sample_packet d.1 d.2) <$> ds /\
    (65536, 65538) ∈ ds.
Proof.
  intros l.
  destruct (frame_assembly [] sample_packet 65535 4 2 8 false l (fun _ => 7))
    as (this0 & outs & this & ds & H1 & H2 & H3 & _ & H5 & _ & H7 & _).
  - apply sample_stream.
  - exists 1. split; [lia|reflexivity].
  - exists 3. split; [lia|reflexivity].
  - lia.
  - lia.
  - by_compute.
  - intros x Hx. unfold l in Hx. rewrite !elem_of_cons in Hx. unfold in_stream.
    destruct Hx as [->|[->|[->|[->|Hx]]]]; try lia. by apply not_elem_of_nil in Hx.
  - exists this0, outs, this, ds. do 4 (split; [assumption|]). apply H7. split.
    + split; [unfold in_stream; lia|]. split; [unfold in_stream; lia|]. split; [lia|]. split; [done|]. split; [done|].
      intros y Hy. assert (y = 65536 \/ y = 65537) as [->| ->] by lia; done.
    + intros y Hy. apply elem_of_list_to_set. assert (y = 65536 \/ y = 65537 \/ y = 65538) as [->|[->| ->]] by lia;
        by_compute.
Defined.

(** ** H.264

    The search for the first packet of an H.264 frame follows the time stamp and not the sequence
    numbers, and its last step leaves the frame. *)

Definition h264_packet (n ts tid : Z) (first last : bool) : VCMPacket :=
  VCM 96 ts 0 n (Some [n]) 1 last (-1)
    (VideoHeader kVideoFrameDelta 0 0 first 0 kVideoCodecH264
       (Some (H264Header 1 kH264SingleNalu [] NonInterleaved)))
    last tid None (PacketInfo 1 ts n).

(** Packet 25 shares the time stamp of the frame that packet 10 makes and lies in the slot before
    it: the search counts it as packet 9, which is not there, and [FindFrames] reads through the
    null pointer that [GetPacket] returns. *)
Lemma h264_null_first_packet :
  exists this0 this1, construct 16 64 false = Some this0 /\
    InsertPacket [] (h264_packet 25 7 kNoTemporalIdx false false) 0 this0 = Some (true, [], this1) /\
    GetPacket 9 this1 = None /\
    InsertPacket [] (h264_packet 10 7 kNoTemporalIdx true true) 0 this1 = None.
Proof. do 2 eexists. repeat (split; [vm_compute; reflexivity|]). vm_compute. reflexivity. Qed.

(** The numbers of the frames found for the last of some packets. *)
Definition found_for (l : list VCMPacket) : option (list (Z * Z)) :=
  match construct 16 64 false with
  | None => None
  | Some this =>
      match insert_all [] (map (fun q => (q, 0)) l) this with
      | None => None
      | Some (outs, _) =>
          match last outs with
          | None => None
          | Some out => Some (map (fun f => (first_seq_num f, last_seq_num f)) out.2)
          end
      end
  end.

(** Packets 6 to 8 are missing.  Whether the frame of packet 10, which has no temporal layer, has to wait
    for them depends on the temporal layer of packet 9, which belongs to another frame. *)
Lemma h264_foreign_temporal_id tid :
  tid = 0 \/ tid = kNoTemporalIdx ->
  found_for [h264_packet 5 5 kNoTemporalIdx true false; h264_packet 9 6 tid false false;
             h264_packet 10 7 kNoTemporalIdx true true] =
    Some (if tid =? 0 then [(10, 10)] else []).
Proof. intros [-> | ->]; vm_compute; reflexivity. Qed.
